(* ===== verification/_CoqProject ===== *)
-Q . S2P
Prelude.v
RustStr.v
RustText.v
RustChar.v
RustOrd.v
OtpHash.v
OtpEncoding.v
Otp.v
EventQueue.v
EventSystem.v
Mailbox.v
WriterMailbox.v
SshMailbox.v
TmuxMailbox.v
TmuxControl.v
TmuxLayout.v
TmuxMessages.v
TmuxInput.v
TmuxHandshake.v
TmuxDetect.v
TmuxState.v
TmuxSession.v
TmuxCorrelation.v
TmuxSessionInv.v
TmuxSessionProps.v
Telnet.v
TelnetInput.v
TelnetLogin.v
Xymodem.v
XymodemTransfer.v
TrzszCodec.v
ZmodemDetect.v
ShellRisk.v
CapabilityPolicy.v
IdempotencyLedger.v
CapabilityRuntime.v
StreamOutput.v
OutputStore.v
RecordingSanitizer.v
PixelMemory.v
HelperIpc.v
Framebuffer.v
DesktopQueue.v
Heartbeat.v
HelperWriter.v
TextEdit.v
HexDocument.v
DocumentEdit.v
DocumentSearch.v
NaturalOrder.v
SyncApplication.v
SyncProtocol.v
SyncEngine.v
SyncPlan.v
SyncOperations.v
AutoSync.v
WorkspacePanes.v
TabWindows.v
VncTrust.v
LogicalLines.v
