(* ===== verification/Prelude.v ===== *)
(** * NyaTerm verification library

    NyaTerm is a terminal application written in Rust: a desktop front end over a set of
    crates for transports (SSH, telnet, serial, local shells, tmux), file transfers, remote
    desktops, one-time passwords, synchronisation and storage. This library models the
    parts that carry its own protocol, editing and concurrency logic, as executable
    functions and step relations translated from the sources, and proves what makes them
    correct. Paths are relative to [src/crates/].

    ** The program and the files

    Terminal output flows from transport threads through the session event queue to the
    user interface; on its way the start of a file transfer or of a tmux control client is
    detected in it. Input flows from the user interface through a bounded mailbox to the
    transport, where telnet text input is edited and escaped and tmux panes are multiplexed
    over one control client. Remote desktops run in helper processes that send frames
    through a pipe and read input from another. Settings are edited in text fields and
    documents, and synchronised between devices by merging replicas; a coordinator starts
    these jobs, and a registry stops them on shutdown. Tabs stand in groups and show trees
    of panes, both stored between runs. Agents, local or
    connected over MCP, act on sessions only through capabilities: a call is checked
    against the sessions of its scope and the risk of what it does, may wait for an
    approval, and is recorded so that a repeated call does not run twice.

    Shared:
    - [Prelude]: machine integers, byte strings, Rust results and panics ([outcome]),
      tactics and lemmas. [RustStr], [RustText], [RustChar], [RustOrd]: the string,
      character and ordering functions of the Rust standard library that the code uses; a
      string is its UTF-8 bytes.

    Transports ([nyaterm-transport/src/]):
    - [EventQueue] ([session_event_queue.rs], [session_types.rs]): [Inner], the state
      behind the mutex, and one function per critical section. [EventSystem]: producers,
      drains and lifecycle calls as a step relation.
    - [Mailbox]: the contract of an input mailbox as an abstract machine and a type class,
      and the [mpsc] channel as an interface with laws. [WriterMailbox], [SshMailbox],
      [TmuxMailbox] ([writer_mailbox.rs], [ssh_mailbox.rs], [tmux/mailbox.rs]): the three
      implementations, each an instance of the class.
    - [TmuxControl] ([tmux/control.rs]): the incremental line parser, messages, octal
      output, layouts; [TmuxLayout], [TmuxMessages]: the theorems about them.
      [TmuxInput] ([tmux/input.rs]): keys and batches of pane input. [TmuxHandshake]
      ([tmux/handshake.rs]): startup and nonce query. [TmuxDetect] ([tmux/detect.rs]): the
      passive detection of a control client in a shell. [TmuxState] and [TmuxSession]
      ([tmux/session.rs]): the control session, from the bootstrap over every arm of its
      event loop to the teardown, in a state monad; [TmuxCorrelation], [TmuxSessionInv] and
      [TmuxSessionProps]: its invariants and theorems. The clock, the nonces, the order in
      which hash maps are iterated and the registry of sessions are given by an environment.
    - [Telnet] ([telnet_codec.rs]), [TelnetInput] ([telnet_input.rs]), [TelnetLogin]
      ([telnet_prompts.rs], [TelnetAutoLoginState] of [transport_io.rs]).
    - [Xymodem] ([xymodem/mod.rs]): the sender's state machine; [XymodemTransfer]: what a
      cooperative receiver gets. [ZmodemDetect] ([zmodem.rs], the detector), [TrzszCodec]
      ([trzsz/codec.rs]).

    Remote desktops ([nyaterm-remote-desktop/src/]):
    - [PixelMemory] ([pixel_memory.rs]), [HelperIpc] ([ipc.rs] and the events of
      [protocol.rs]), [Framebuffer] ([frame.rs]), [DesktopQueue] ([EventQueue] of
      [session.rs] and [vnc.rs], one model over a class of control events), [Heartbeat]
      ([heartbeat.rs]), [VncTrust] ([certificate.rs], [vnc_trust.rs]), [HelperWriter] (the input writer, standard error and session
      options of [helper_process.rs]; its threads are a step relation).

    Capabilities ([nyaterm-core/src/capabilities/], [nyaterm-core/src/ai/] and the runtime
    of the desktop crate):
    - [ShellRisk] (the tokenizer, pipeline stages and command tables of [policy.rs]).
    - [CapabilityPolicy] ([scope.rs], the decisions of [policy.rs], the remote paths of
      [sftp.rs], [tools.rs], and [risk.rs] and [agent.rs] of the agent).
    - [IdempotencyLedger] ([idempotency.rs]).
    - [CapabilityRuntime] ([capability_runtime.rs], [approvals.rs] and the registry of MCP
      tools): the dispatch of a call composed from the three files above, with connections,
      grants and the approval queue as a state machine.

    Editing, storing and recording:
    - [TextEdit], [HexDocument], [DocumentEdit], [DocumentSearch], [NaturalOrder]
      ([nyaterm-core/src/text_edit.rs], [hex_document.rs], [document_edit.rs],
      [natural_order.rs]).
    - [StreamOutput], [OutputStore] ([nyaterm-core/src/capabilities/stream_output.rs],
      [output_store.rs]); [RecordingSanitizer]
      ([nyaterm-terminal/src/recording_sanitizer.rs]); [LogicalLines]
      ([nyaterm-terminal/src/logical_lines.rs]): the index of soft-wrapped lines.

    Synchronisation ([nyaterm-sync/src/]):
    - [SyncApplication] ([application.rs]), [SyncProtocol] ([protocol.rs], [trust.rs]),
      [SyncEngine] and [SyncPlan] ([engine.rs]).
    - [SyncOperations]: the control of an operation and its errors
      ([nyaterm-core/src/cloud_sync/control.rs], [error.rs], [mod.rs]), the registry of
      operations ([nyaterm-desktop/src/features/sync/operation/registry.rs]) and the gate of
      configuration replacements ([app_shell/configuration_replacement.rs]), each a
      transition system. [AutoSync]: the coordinator of automatic jobs
      ([app_shell/controller/auto_sync/coordinator.rs], [features/sync/auto_sync.rs]).

    The workspace ([nyaterm-desktop/src/models/]):
    - [WorkspacePanes] ([workspace_pane.rs]) and [TabWindows] ([workspace_tabs/]): the trees
      of panes and of tab groups, their operations and their stored forms.

    One-time passwords ([nyaterm-otp/src/]):
    - [OtpHash], [OtpEncoding], [Otp]: hand-written SHA-1, SHA-256, SHA-512, base32,
      hexadecimal and percent encodings, HMAC, HOTP, TOTP and key URIs.

    Names are those of the sources. A function that can panic returns [outcome], a
    fallible one [result] or [option]; state is passed explicitly; a loop body or a
    critical section is a function of its own where the proofs need it.

    ** What the theorems show

    - Event queue: whatever the interleaving, a session's output is delivered byte for
      byte and in order; the queue holds at most 8 MiB with exact counters; producers'
      pushes do not mix; back-pressure cannot leave producers stuck; both drains are
      lossless within their budgets.
    - Mailboxes: each refines the same bounded FIFO in every reachable state, so bytes and
      items outstanding stay within the limits and the counters never underflow; closing
      wins; nothing reserved before a detach is delivered after it.
    - tmux: the cut of the stream into chunks does not matter; every line in a documented
      form is read as the message it stands for; the layout parser terminates on all input and inverts the
      printed form; pane input is classified without loss. A shell is taken over only when
      a control client was asked for and announced itself, and is then always taken over;
      the handshake confirms only an answer to its nonce. In the session, every response
      is given to the command it answers; a pane shows the captured screen and exactly the
      output after it; the registered sessions are exactly those of the panes, the panes
      follow the list of windows, the buffers are bounded, and no message makes it panic or
      loop.
    - Telnet: stripping inverts the RFC 854 stream; line editing sends whole lines on
      Enter; the automatic login sends the user name and the password only to prompts for
      them and at most once per attempt.
    - Transfers: the X/YMODEM sender never panics, ends on silence, and sends exactly the
      files; a ZMODEM header is found whatever the cut of the output and nothing shown is
      lost; trzsz data round-trips under every cut.
    - Remote desktops: packets, frames and cursors round-trip over the pipe under every
      cut; a frame copies exactly its rectangle and never panics; the queue hands out
      frames in order, within its limits, and never before the reset of their epoch;
      dirty rectangles are merged without loss; the memory budget is exact in every
      interleaving; responsive helpers live and silent ones are found dead. When input
      overflows the writer to a helper, every key and button held is released, its queues
      stay bounded, and it accepts input again. The key of a server is written down only
      as the user accepted it and the server proved it, with nothing invalidated since.
    - Capabilities: a command may run without approval exactly when each of its stages is
      a known one of no high risk, nothing downloaded is piped to a shell and no sensitive
      file is written to, and a command line is as risky as its worst part;
      a call reaches only the sessions of its scope; nothing dangerous is executed without
      an approval or a grant that covers it, and a disconnected client keeps none; an
      operation runs at most once per key, and repeated calls get its identifier or outcome;
      remote paths are guarded however they are spelled.
    - Editing: the text field refines an edit of a list of characters; transactions of the
      multi-cursor document agree with a front-to-back reference; folds, search and
      rectangular selections; names are totally ordered. Stored and streamed output stays
      within its limits and is read back in whole characters; transcripts are the rows a
      terminal would show. The index of logical lines agrees with plain counting after
      every update, and its positions translate back and forth.
    - Synchronisation: replicas stay valid in every history of loading, capturing, merging
      and resolving in which the values that meet have different digests; conflicts keep
      local values; plans apply exactly what can be applied;
      publications stay within their scope; approvals hold for what they were given. An
      operation is cancelled or commits, never both; a shutdown reaches every job and waits
      for all; one configuration replacement runs at a time, and none over windows that
      still show the old one. No edit is forgotten by the coordinator, jobs start after a
      bounded wait and failures are not retried too early.
    - Workspace: operations on tab groups neither lose nor duplicate a tab and keep an active
      one in every group, if new identifiers are new and no tab is renamed to one of another
      group; a dropped tab ends up where it was dropped; tmux takes over a pane
      and gives it back; stored layouts are restored.
    - OTP: on messages with room for the padding the hashes are FIPS 180-4, whose constants
      are computed from the roots of primes, and with secrets of such lengths HMAC, HOTP and
      TOTP are the RFCs'; encoders and key URIs round-trip.

    Where the code falls short of its intent the theorems and examples say so: the hash
    padding drops the end of messages of certain lengths, ten or more HOTP digits overflow,
    an issuer with a colon cannot be read back, raw TCP loses doubled 0xFF bytes, window
    sizes with 0xFF bytes are malformed, an escape followed by a non-ASCII character
    panics the automatic login, a leftover selection panics the hex document, batches cut
    key sequences of more than 32 bytes, an escape table need not escape its own mark, a
    percent line can hide the startup of a control client, a ZMODEM header inside a line
    is missed when it is cut between its asterisks, short reads of stored output need not
    advance, a cut by the total limit is not reported, an interrupted read of a packet
    header ends a remote desktop session, the risk of a shell command ignores command
    substitution, is hidden by quoted separators and misses flags given separately, new
    settings are given up when a job with the old ones fails, an edit during the startup
    check can wait for the periodic one, and the identifiers of panes and groups are only
    the time.

    ** Bounds and fuel

    Widths are those of the sources; wrapping, saturating and overflow-checked operations
    are written out, and functions whose arithmetic depends on the build profile take the
    flag [oc] for overflow checks. Loops are structural where they can be. Fuel appears in
    [chunks] (the length of the list), decimal printing (the number of bits), base32 (the
    bits in the buffer), backspace (the length of the line), the suffix search of prompts
    (the length of the text), the layout parser and the handshake (one more than the
    unread bytes), the messages of the tmux session (one more than the bytes its parser
    holds), the searches of the line index (the length of the interval), the decompression loop of trzsz (one more than the bytes left), the
    appending, trimming and eviction loops of the output stores (the text, or one more than
    the chunks or entries), natural ordering (the lengths), the isolation of changes (the
    number of groups), the packet reader (one more than the buffer) and the merging of
    rectangles (the square of one more than their number). Each turn uses up at least one
    unit of that measure, and the theorems are about the results, so the fuel is enough.
    Unbounded waits are steps of a relation, not fuel. The capability files need none: the
    tokenizer and the paths are read by structural recursion.

    ** Not modelled

    Clocks (times are arguments), mutex poisoning, allocation failure except where the
    code handles it, memory orderings, thread scheduling beyond interleaving, and the I/O
    around the modelled state machines. Parameters with their documented laws: regular
    expressions, Unicode case, class and width tables, character sets, [mpsc] channels,
    the Automerge document, SHA-256 (64 hexadecimal digits, and no collision among the values
    that meet in one operation) and random identifiers of the sync engine, JSON, the
    fingerprints of the ledger, base64 and zstd (whose decoder may be run without progress
    any number of times; the library gives up after a few), the validator of the application's settings, and the facts a host
    gives to a dispatch (open sessions, time, fresh identifiers). A Retry-After beyond the
    range of [Instant], for which the coordinator waits for years, is left out of its runs. The desktop
    application, terminal emulation, SSH connections, the store, the transfers around the
    modelled detection and codecs, session managers, plugins and updater are not modelled:
    they are user interface, I/O, or glue around third-party crates.

    Of the workspace, the geometry in single-precision floats (drop zones, minimum sizes,
    tiling) is left out, and of the sync operations the wrappers that call the control around
    every access to the remote side and the store.

    ** What could follow

    In order: the jobs that open sessions and execute commands behind a capability, and the
    reaper of their processes; the resume negotiation and frames of trzsz; the input mapping
    of remote desktops; the projections of the sync schema; sixel images of the terminal. *)

From stdpp Require Import base list numbers strings gmap.
From Stdlib Require Import ZArith Lia.

Local Open Scope Z_scope.

Declare Scope rust_scope.
Delimit Scope rust_scope with rust.

(** ** Outcomes of Rust code *)

(** [Result<T, E>]. *)
Inductive result (T E : Type) : Type :=
| Ok (t : T)
| Err (e : E).
Arguments Ok {T E} t.
Arguments Err {T E} e.

(** A computation that either returns or unwinds with a panic. *)
Inductive outcome (A : Type) : Type :=
| Ret (a : A)
| Panic.
Arguments Ret {A} a.
Arguments Panic {A}.

Definition rbind {T U E} (m : result T E) (k : T -> result U E) : result U E :=
  match m with Ok t => k t | Err e => Err e end.

Definition obind {A B} (m : outcome A) (k : A -> outcome B) : outcome B :=
  match m with Ret a => k a | Panic => Panic end.

Definition ok_or {T E} (o : option T) (e : E) : result T E :=
  match o with Some t => Ok t | None => Err e end.

Definition map_err {T E F} (f : E -> F) (r : result T E) : result T F :=
  match r with Ok t => Ok t | Err e => Err (f e) end.

Notation "x <-? m ; k" := (rbind m (fun x => k))
  (at level 100, m at level 90, k at level 200, right associativity,
   format "x  <-?  m ; '//' k") : rust_scope.
Notation "x <-! m ; k" := (obind m (fun x => k))
  (at level 100, m at level 90, k at level 200, right associativity,
   format "x  <-!  m ; '//' k") : rust_scope.

(** ** Machine integers *)

(** An unsigned [w]-bit integer is a [Z] in [0, 2^w). *)
Definition uwrap (w x : Z) : Z := x mod 2 ^ w.
Definition urange (w x : Z) : Prop := 0 <= x < 2 ^ w.
Definition wadd (w x y : Z) : Z := uwrap w (x + y).
Definition unot (w x : Z) : Z := Z.lxor x (Z.ones w).
Definition ushl (w x n : Z) : Z := uwrap w (Z.shiftl x n).
Definition rotl (w x n : Z) : Z := Z.lor (ushl w x n) (Z.shiftr x (w - n)).
Definition rotr (w x n : Z) : Z := Z.lor (Z.shiftr x n) (ushl w x (w - n)).

Definition u64_max : Z := 2 ^ 64 - 1.

(** Saturating operations of [usize] and [u32]; [usize] is 64 bits wide. *)
Definition sat_add (w x y : Z) : Z := Z.min (x + y) (2 ^ w - 1).
Definition sat_sub (x y : Z) : Z := Z.max (x - y) 0.
Definition sat_mul (w x y : Z) : Z := Z.min (x * y) (2 ^ w - 1).

(** Plain [+] and [*] on unsigned integers panic on overflow when the build
    has overflow checks ([oc = true], the dev profile) and wrap otherwise
    (the release profile). *)
Definition add_oc (oc : bool) (w x y : Z) : outcome Z :=
  if x + y <? 2 ^ w then Ret (x + y) else if oc then Panic else Ret (uwrap w (x + y)).

(** ** Bytes and byte strings *)

(** A byte is a [Z] in [0, 256); a [Vec<u8>], a [&[u8]], a [String] and a
    [&str] (its UTF-8 bytes) are lists of them. *)
Abbreviation bytes := (list Z).
Definition byte_ok (b : Z) : Prop := 0 <= b < 256.
Definition bytes_ok (l : bytes) : Prop := Forall byte_ok l.

(** The bytes of an ASCII literal. *)
Definition bs (s : string) : bytes :=
  (fun a => Z.of_N (Ascii.N_of_ascii a)) <$> String.list_ascii_of_string s.

(** [to_be_bytes] of an [n]-byte integer; the value is taken modulo [256^n]. *)
Fixpoint be_bytes (n : nat) (x : Z) : bytes :=
  match n with
  | O => []
  | S n' => (Z.shiftr x (8 * Z.of_nat n') mod 256) :: be_bytes n' x
  end.

(** [from_be_bytes]. *)
Definition of_be_bytes (l : bytes) : Z := fold_left (fun acc b => acc * 256 + b) l 0.

(** [slice.chunks(n)] for [n > 0]; the fuel is the length of the list. *)
Fixpoint chunks_fuel {A} (fuel n : nat) (l : list A) : list (list A) :=
  match fuel, l with
  | _, [] => []
  | O, _ => []
  | S fuel', _ => take n l :: chunks_fuel fuel' n (drop n l)
  end.
Definition chunks {A} (n : nat) (l : list A) : list (list A) := chunks_fuel (length l) n l.

(** [Vec::resize]. *)
Definition vresize {A} (l : list A) (n : nat) (x : A) : list A :=
  take n l ++ replicate (n - length l) x.

(** ** Automation *)

Create HintDb rust discriminated.
#[export] Hint Constants Opaque : rust.
Create Rewrite HintDb rlen.

(** Case analysis on every [if] and [match] scrutinee of the goal. *)
Ltac split_match :=
  match goal with
  | |- context [if ?b then _ else _] => destruct b eqn:?
  | |- context [match ?x with _ => _ end] => destruct x eqn:?
  end.

(** Turn boolean comparisons on [Z] and [nat] in the context into propositions. *)
Ltac bool_hyps :=
  repeat match goal with
  | H : (_ && _)%bool = true |- _ => apply andb_true_iff in H as [? ?]
  | H : (_ || _)%bool = false |- _ => apply orb_false_iff in H as [? ?]
  | H : negb _ = true |- _ => apply negb_true_iff in H
  | H : negb _ = false |- _ => apply negb_false_iff in H
  | H : (_ =? _) = true |- _ => apply Z.eqb_eq in H
  | H : (_ =? _) = false |- _ => apply Z.eqb_neq in H
  | H : (_ <? _) = true |- _ => apply Z.ltb_lt in H
  | H : (_ <? _) = false |- _ => apply Z.ltb_ge in H
  | H : (_ <=? _) = true |- _ => apply Z.leb_le in H
  | H : (_ <=? _) = false |- _ => apply Z.leb_gt in H
  | H : (_ =? _)%nat = true |- _ => apply Nat.eqb_eq in H
  | H : (_ =? _)%nat = false |- _ => apply Nat.eqb_neq in H
  | H : (_ <? _)%nat = true |- _ => apply Nat.ltb_lt in H
  | H : (_ <? _)%nat = false |- _ => apply Nat.ltb_ge in H
  | H : (_ <=? _)%nat = true |- _ => apply Nat.leb_le in H
  | H : (_ <=? _)%nat = false |- _ => apply Nat.leb_gt in H
  end.

(** ** Lemmas on machine integers *)

Lemma uwrap_range w x : 0 <= w -> urange w (uwrap w x).
Proof. intros ?. apply Z.mod_pos_bound, Z.pow_pos_nonneg; lia. Qed.

Lemma uwrap_small w x : urange w x -> uwrap w x = x.
Proof. apply Z.mod_small. Qed.

Lemma uwrap_land w x : 0 <= w -> uwrap w x = Z.land x (Z.ones w).
Proof. intros ?. unfold uwrap. by rewrite Z.land_ones. Qed.

Lemma wadd_range w x y : 0 <= w -> urange w (wadd w x y).
Proof. apply uwrap_range. Qed.

(** A non-negative integer fits in [w] bits when its bits from [w] on are 0. *)
Lemma urange_bits w x :
  0 <= w -> urange w x <-> (forall i, w <= i -> Z.testbit x i = false) /\ 0 <= x.
Proof.
  intros Hw. split.
  - intros [H0 H1]. split; [|done]. intros i Hi.
    destruct (decide (x = 0)) as [->|Hn]; [apply Z.bits_0|].
    apply Z.bits_above_log2; [done|].
    assert (Z.log2 x < w) by (apply Z.log2_lt_pow2; lia). lia.
  - intros [Hb H0]. split; [done|].
    assert (Heq : Z.land x (Z.ones w) = x).
    { apply Z.bits_inj'. intros i Hi. rewrite Z.land_spec.
      destruct (decide (i < w)).
      - rewrite Z.ones_spec_low by lia. by rewrite andb_true_r.
      - by rewrite (Hb i) by lia. }
    rewrite <- Heq, Z.land_ones by done.
    apply Z.mod_pos_bound, Z.pow_pos_nonneg; lia.
Qed.

Lemma lxor_range w x y : 0 <= w -> urange w x -> urange w y -> urange w (Z.lxor x y).
Proof.
  intros Hw [Hx ?]%urange_bits [Hy ?]%urange_bits; try done.
  apply urange_bits; [done|split].
  - intros i Hi. by rewrite Z.lxor_spec, Hx, Hy.
  - apply Z.lxor_nonneg. tauto.
Qed.

Lemma land_range w x y : 0 <= w -> urange w x -> urange w y -> urange w (Z.land x y).
Proof.
  intros Hw [Hx ?]%urange_bits [Hy ?]%urange_bits; try done.
  apply urange_bits; [done|split].
  - intros i Hi. by rewrite Z.land_spec, Hx.
  - apply Z.land_nonneg. tauto.
Qed.

Lemma lor_range w x y : 0 <= w -> urange w x -> urange w y -> urange w (Z.lor x y).
Proof.
  intros Hw [Hx ?]%urange_bits [Hy ?]%urange_bits; try done.
  apply urange_bits; [done|split].
  - intros i Hi. by rewrite Z.lor_spec, Hx, Hy.
  - apply Z.lor_nonneg. tauto.
Qed.

Lemma ones_range w : 0 <= w -> urange w (Z.ones w).
Proof. intros ?. rewrite Z.ones_equiv. unfold urange.
  pose proof (Z.pow_pos_nonneg 2 w). lia. Qed.

Lemma shiftr_range w x n : 0 <= w -> 0 <= n -> urange w x -> urange w (Z.shiftr x n).
Proof.
  intros Hw Hn [Hx ?]%urange_bits; [|done].
  apply urange_bits; [done|split].
  - intros i Hi. rewrite Z.shiftr_spec by lia. apply Hx. lia.
  - by apply Z.shiftr_nonneg.
Qed.

Lemma unot_range w x : 0 <= w -> urange w x -> urange w (unot w x).
Proof. intros. apply lxor_range; auto using ones_range. Qed.

Lemma rotl_range w x n : 0 <= n <= w -> urange w x -> urange w (rotl w x n).
Proof.
  intros ??. apply lor_range; [lia| |].
  - apply uwrap_range. lia.
  - apply shiftr_range; [lia..|done].
Qed.

Lemma rotr_range w x n : 0 <= n <= w -> urange w x -> urange w (rotr w x n).
Proof.
  intros ??. apply lor_range; [lia| |].
  - apply shiftr_range; [lia..|done].
  - apply uwrap_range. lia.
Qed.

#[export] Hint Resolve wadd_range lxor_range land_range lor_range unot_range
  shiftr_range rotl_range rotr_range uwrap_range : rust.

(** ** Lemmas on byte strings *)

Lemma be_bytes_length n x : length (be_bytes n x) = n.
Proof. induction n; simpl; auto. Qed.
#[export] Hint Rewrite be_bytes_length : rlen.

Lemma be_bytes_ok n x : bytes_ok (be_bytes n x).
Proof.
  induction n; simpl; constructor; [|done]. apply Z.mod_pos_bound. lia.
Qed.

Lemma of_be_bytes_acc acc l :
  fold_left (fun acc b => acc * 256 + b) l acc
  = acc * 256 ^ Z.of_nat (length l) + of_be_bytes l.
Proof.
  unfold of_be_bytes. revert acc. induction l as [|b l IH]; intros acc; simpl.
  - lia.
  - rewrite (IH (acc * 256 + b)), (IH (0 * 256 + b)). rewrite Nat2Z.inj_succ, Z.pow_succ_r by lia. ring.
Qed.

Lemma of_be_bytes_cons b l :
  of_be_bytes (b :: l) = b * 256 ^ Z.of_nat (length l) + of_be_bytes l.
Proof. unfold of_be_bytes at 1. simpl. by rewrite of_be_bytes_acc. Qed.

Lemma of_be_bytes_range l : bytes_ok l -> 0 <= of_be_bytes l < 256 ^ Z.of_nat (length l).
Proof.
  induction 1 as [|b l Hb Hl IH]; [done|].
  rewrite of_be_bytes_cons. simpl length.
  rewrite Nat2Z.inj_succ, Z.pow_succ_r by lia. unfold byte_ok in Hb. nia.
Qed.

(** Decoding the big-endian bytes of [x] gives [x] back modulo [256^n]. *)
Lemma of_be_bytes_be_bytes n x : of_be_bytes (be_bytes n x) = x mod 256 ^ Z.of_nat n.
Proof.
  induction n as [|n IH]; [by rewrite Z.mod_1_r|].
  simpl be_bytes. rewrite of_be_bytes_cons, be_bytes_length, IH.
  rewrite Z.shiftr_div_pow2 by lia.
  replace (2 ^ (8 * Z.of_nat n)) with (256 ^ Z.of_nat n)
    by (rewrite Z.pow_mul_r by lia; done).
  rewrite Nat2Z.inj_succ, Z.pow_succ_r, (Z.mul_comm 256) by lia.
  pose proof (Z.pow_pos_nonneg 256 (Z.of_nat n)).
  rewrite Z.rem_mul_r by lia. lia.
Qed.

Lemma byte_of_wrap w x k :
  0 <= k -> k + 8 <= w -> Z.shiftr (uwrap w x) k mod 256 = Z.shiftr x k mod 256.
Proof.
  intros Hk Hw. change 256 with (2 ^ 8). rewrite <- !Z.land_ones, uwrap_land by lia.
  apply Z.bits_inj'. intros i Hi. rewrite !Z.land_spec, !Z.shiftr_spec by lia.
  destruct (decide (i < 8)).
  - rewrite Z.land_spec, (Z.ones_spec_low w) by lia. by rewrite andb_true_r.
  - rewrite (Z.ones_spec_high 8) by lia. by rewrite !andb_false_r.
Qed.

(** [to_be_bytes] only looks at the low [8 n] bits. *)
Lemma be_bytes_wrap w n x : 8 * Z.of_nat n <= w -> be_bytes n (uwrap w x) = be_bytes n x.
Proof.
  intros Hw. induction n as [|n IH]; [done|]. simpl.
  rewrite byte_of_wrap, IH by lia. done.
Qed.

Lemma bytes_ok_app l1 l2 : bytes_ok (l1 ++ l2) <-> bytes_ok l1 /\ bytes_ok l2.
Proof. apply Forall_app. Qed.

Lemma bytes_ok_replicate n b : byte_ok b -> bytes_ok (replicate n b).
Proof. apply Forall_replicate. Qed.

Lemma fold_left_ext {A B} (f g : A -> B -> A) (l : list B) (a : A) :
  (forall a b, f a b = g a b) -> fold_left f l a = fold_left g l a.
Proof. intros Hfg. revert a. induction l as [|b l IH]; intros a; simpl; [done|].
  by rewrite Hfg. Qed.

(** ** Lemmas on [chunks] and [vresize] *)

Lemma chunks_fuel_enough {A} f1 f2 n (l : list A) :
  (0 < n)%nat -> (length l <= f1)%nat -> (length l <= f2)%nat ->
  chunks_fuel f1 n l = chunks_fuel f2 n l.
Proof.
  intros Hn. revert f2 l. induction f1 as [|f1 IH]; intros f2 l H1 H2.
  - destruct l; simpl in *; [by destruct f2|lia].
  - destruct l as [|x l]; [by destruct f2|].
    destruct f2 as [|f2]; simpl in H2; [lia|].
    cbn [chunks_fuel]. f_equal. apply IH; rewrite length_drop; simpl in *; lia.
Qed.

Lemma chunks_step {A} n (l : list A) :
  (0 < n)%nat -> l <> [] -> chunks n l = take n l :: chunks n (drop n l).
Proof.
  intros Hn Hl. unfold chunks at 1. destruct l as [|x l]; [done|].
  cbn [length chunks_fuel]. f_equal.
  unfold chunks. apply chunks_fuel_enough; auto.
  rewrite length_drop. simpl. lia.
Qed.

Lemma chunks_nil {A} n : chunks n (@nil A) = [].
Proof. done. Qed.

Lemma chunks_app {A} n (l1 l2 : list A) :
  length l1 = n -> (0 < n)%nat -> chunks n (l1 ++ l2) = l1 :: chunks n l2.
Proof.
  intros Hl Hn. rewrite chunks_step; [|done|].
  - by rewrite take_app_length', drop_app_length' by done.
  - destruct l1; simpl in *; [lia|done].
Qed.

Lemma chunks_ind {A} n (Hn : (0 < n)%nat) (P : list A -> Prop) :
  P [] -> (forall l, l <> [] -> P (drop n l) -> P l) -> forall l, P l.
Proof.
  intros H0 HS l. remember (length l) as k eqn:Hk. revert l Hk.
  induction k as [k IH] using lt_wf_ind. intros l ->.
  destruct l as [|x l]; [done|]. apply HS; [done|].
  eapply IH; [|done]. rewrite length_drop. simpl. lia.
Qed.

Lemma chunks_concat {A} n (l : list A) : (0 < n)%nat -> concat (chunks n l) = l.
Proof.
  intros Hn. induction l as [|l Hl IH] using (chunks_ind n Hn); [done|].
  rewrite chunks_step by done. simpl. by rewrite IH, take_drop.
Qed.

Lemma chunks_le {A} n (l : list A) :
  (0 < n)%nat -> Forall (fun c => (0 < length c <= n)%nat) (chunks n l).
Proof.
  intros Hn. induction l as [|l Hl IH] using (chunks_ind n Hn); [constructor|].
  rewrite chunks_step by done. constructor; [|done].
  rewrite length_take. destruct l; simpl; [done|lia].
Qed.

Lemma chunks_exact {A} n (l : list A) :
  (0 < n)%nat -> (length l mod n = 0)%nat -> Forall (fun c => length c = n) (chunks n l).
Proof.
  intros Hn. induction l as [|l Hl IH] using (chunks_ind n Hn); intros Hm; [constructor|].
  assert (n <= length l)%nat.
  { destruct (decide (n <= length l)%nat) as [|Hlt]; [done|].
    rewrite Nat.mod_small in Hm by lia. destruct l; simpl in *; [done|lia]. }
  rewrite chunks_step by done. constructor; [rewrite length_take; lia|].
  apply IH. rewrite length_drop.
  rewrite <- (Nat.Div0.mod_add _ 1 n). rewrite Nat.mul_1_l.
  by replace (length l - n + n)%nat with (length l) by lia.
Qed.

Lemma vresize_grow {A} (l : list A) n x :
  (length l <= n)%nat -> vresize l n x = l ++ replicate (n - length l) x.
Proof. intros ?. unfold vresize. by rewrite take_ge. Qed.

Lemma vresize_shrink {A} (l : list A) n x :
  (n <= length l)%nat -> vresize l n x = take n l.
Proof.
  intros ?. unfold vresize. replace (n - length l)%nat with O by lia. apply app_nil_r.
Qed.

Lemma vresize_length {A} (l : list A) n x : length (vresize l n x) = n.
Proof. unfold vresize. rewrite length_app, length_take, length_replicate. lia. Qed.
#[export] Hint Rewrite @vresize_length : rlen.

(** ** Exhaustive reasoning on bytes *)

#[export] Instance byte_ok_dec b : Decision (byte_ok b).
Proof. unfold byte_ok. apply _. Defined.

#[export] Instance bytes_ok_dec l : Decision (bytes_ok l).
Proof. unfold bytes_ok. apply _. Defined.

Definition all_bytes : list Z := Z.of_nat <$> seq 0 256.

Lemma byte_exhaust (P : Z -> bool) :
  forallb P all_bytes = true -> forall b, byte_ok b -> P b = true.
Proof.
  intros Hall b Hb. rewrite forallb_forall in Hall. apply Hall.
  apply list_elem_of_In, list_elem_of_fmap. exists (Z.to_nat b).
  unfold byte_ok in Hb. split; [lia|]. apply elem_of_seq. lia.
Qed.

(** Close a decidable goal by evaluating its decision procedure. *)
Ltac by_decide :=
  lazymatch goal with |- ?P => refine (bool_decide_unpack P _); vm_compute; exact I end.
