(* ===== verification/RustStr.v ===== *)
(** * Strings of the Rust standard library

    The [str] and integer-parsing functions that the modelled code calls:
    prefix and separator splitting, UTF-8 validation, decimal printing and
    [from_str_radix]. A [&str] is the list of its UTF-8 bytes. *)

From stdpp Require Import base list numbers strings.
From Stdlib Require Import ZArith Lia.
From S2P Require Import Prelude.

Local Open Scope Z_scope.

(** ** Splitting *)

Fixpoint strip_prefix (p s : bytes) : option bytes :=
  match p, s with
  | [], _ => Some s
  | _ :: _, [] => None
  | a :: p', b :: s' => if a =? b then strip_prefix p' s' else None
  end.

Definition strip_suffix (p s : bytes) : option bytes :=
  (fun r => rev r) <$> strip_prefix (rev p) (rev s).

(** [s.split_once(sep)] for an ASCII separator. *)
Fixpoint split_once (sep : Z) (s : bytes) : option (bytes * bytes) :=
  match s with
  | [] => None
  | b :: s' => if b =? sep then Some ([], s')
               else (fun p => (b :: p.1, p.2)) <$> split_once sep s'
  end.

(** [s.split(sep)]: never empty. *)
Fixpoint split (sep : Z) (s : bytes) : list bytes :=
  match s with
  | [] => [[]]
  | b :: s' => if b =? sep then [] :: split sep s'
               else match split sep s' with
                    | x :: xs => (b :: x) :: xs
                    | [] => [[b]]
                    end
  end.

Lemma strip_prefix_app p s : strip_prefix p (p ++ s) = Some s.
Proof. induction p as [|a p IH]; simpl; [by destruct s|]. by rewrite Z.eqb_refl. Qed.

Lemma strip_prefix_Some p s r : strip_prefix p s = Some r -> s = p ++ r.
Proof.
  revert s. induction p as [|a p IH]; intros [|b s]; simpl; try congruence.
  destruct (a =? b) eqn:E; [|congruence]. bool_hyps. intros H.
  by rewrite (IH _ H), E.
Qed.

Lemma strip_suffix_app p s : strip_suffix p (s ++ p) = Some s.
Proof.
  unfold strip_suffix. rewrite rev_app_distr, strip_prefix_app. simpl.
  by rewrite rev_involutive.
Qed.

Lemma split_once_app sep a b :
  Forall (fun x => x <> sep) a -> split_once sep (a ++ sep :: b) = Some (a, b).
Proof.
  induction 1 as [|x a Hx Ha IH]; simpl; [by rewrite Z.eqb_refl|].
  by rewrite (proj2 (Z.eqb_neq x sep)), IH.
Qed.

Lemma split_once_None sep s :
  Forall (fun x => x <> sep) s -> split_once sep s = None.
Proof.
  induction 1 as [|x a Hx Ha IH]; simpl; [done|].
  by rewrite (proj2 (Z.eqb_neq x sep)), IH.
Qed.

Lemma split_once_Some sep s a b :
  split_once sep s = Some (a, b) -> s = a ++ sep :: b /\ Forall (fun x => x <> sep) a.
Proof.
  revert a. induction s as [|c s IH]; intros a; simpl; [done|].
  destruct (c =? sep) eqn:E; bool_hyps.
  - intros [= <- <-]. by subst.
  - destruct (split_once sep s) as [[x y]|]; simpl; [|done].
    intros [= <- <-]. destruct (IH x eq_refl) as [-> Hx]. by repeat constructor.
Qed.

Lemma split_single sep s : Forall (fun x => x <> sep) s -> split sep s = [s].
Proof.
  induction 1 as [|x a Hx Ha IH]; simpl; [done|].
  by rewrite (proj2 (Z.eqb_neq x sep)), IH.
Qed.

Lemma split_app sep a b :
  Forall (fun x => x <> sep) a -> split sep (a ++ sep :: b) = a :: split sep b.
Proof.
  induction 1 as [|x a Hx Ha IH]; simpl; [by rewrite Z.eqb_refl|].
  by rewrite (proj2 (Z.eqb_neq x sep)), IH.
Qed.

(** ** UTF-8 *)

Definition is_cont (b : Z) : bool := (128 <=? b) && (b <=? 191).
Definition between (lo hi b : Z) : bool := (lo <=? b) && (b <=? hi).

Definition utf8_3 (b0 b1 b2 : Z) : bool :=
  is_cont b2 &&
  ((b0 =? 224) && between 160 191 b1 || between 225 236 b0 && is_cont b1
   || (b0 =? 237) && between 128 159 b1 || between 238 239 b0 && is_cont b1).

Definition utf8_4 (b0 b1 b2 b3 : Z) : bool :=
  is_cont b2 && is_cont b3 &&
  ((b0 =? 240) && between 144 191 b1 || between 241 243 b0 && is_cont b1
   || (b0 =? 244) && between 128 143 b1).

(** [str::from_utf8(s).is_ok()]. *)
Fixpoint utf8_valid (s : bytes) : bool :=
  match s with
  | [] => true
  | b0 :: t0 =>
    if b0 <? 128 then utf8_valid t0 else
    match t0 with
    | [] => false
    | b1 :: t1 =>
      if between 194 223 b0 then is_cont b1 && utf8_valid t1 else
      match t1 with
      | [] => false
      | b2 :: t2 =>
        if between 224 239 b0 then utf8_3 b0 b1 b2 && utf8_valid t2 else
        match t2 with
        | [] => false
        | b3 :: t3 => utf8_4 b0 b1 b2 b3 && utf8_valid t3
        end
      end
    end
  end.

Lemma utf8_valid_app a b :
  utf8_valid a = true -> utf8_valid (a ++ b) = utf8_valid b.
Proof.
  remember (length a) as n eqn:Hn. revert a Hn.
  induction n as [n IH] using lt_wf_ind. intros a ->.
  destruct a as [|b0 t0]; [done|]. cbn [utf8_valid app].
  destruct (b0 <? 128); [intros H; apply (IH (length t0)); [simpl; lia|done|done]|].
  destruct t0 as [|b1 t1]; [done|]. cbn [app].
  destruct (between 194 223 b0).
  { destruct (is_cont b1); [|done]. intros H. apply (IH (length t1)); [simpl; lia|done|done]. }
  destruct t1 as [|b2 t2]; [done|]. cbn [app].
  destruct (between 224 239 b0).
  { destruct (utf8_3 b0 b1 b2); [|done]. intros H.
    apply (IH (length t2)); [simpl; lia|done|done]. }
  destruct t2 as [|b3 t3]; [done|]. cbn [app].
  destruct (utf8_4 b0 b1 b2 b3); [|done]. intros H.
  apply (IH (length t3)); [simpl; lia|done|done].
Qed.

Lemma utf8_valid_ascii s : Forall (fun b => b < 128) s -> utf8_valid s = true.
Proof. induction 1 as [|b s Hb Hs IH]; simpl; [done|].
  by rewrite (proj2 (Z.ltb_lt b 128)). Qed.

(** ** Integers *)

(** [x.to_string()] for an unsigned [x]. Dividing by ten at least halves, so the
    number of bits is enough fuel. *)
Fixpoint dec_fuel (fuel : nat) (x : Z) (acc : bytes) : bytes :=
  match fuel with
  | O => acc
  | S fuel' =>
    let acc' := (48 + x mod 10) :: acc in
    if x / 10 =? 0 then acc' else dec_fuel fuel' (x / 10) acc'
  end.
Definition dec_string (x : Z) : bytes := dec_fuel (S (Z.to_nat (Z.log2 x))) x [].

(** [char::to_digit(radix)] for radix at most 16. *)
Definition to_digit (radix b : Z) : option Z :=
  let v := if between 48 57 b then b - 48
           else if between 97 102 b then b - 87
           else if between 65 70 b then b - 55
           else 99 in
  if v <? radix then Some v else None.

(** The checked accumulation of [from_str_radix] into [w] bits. *)
Fixpoint parse_digits (w radix : Z) (s : bytes) (acc : Z) : option Z :=
  match s with
  | [] => Some acc
  | b :: s' =>
    match to_digit radix b with
    | Some d => let acc' := acc * radix + d in
                if acc' <? 2 ^ w then parse_digits w radix s' acc' else None
    | None => None
    end
  end.

(** [uN::from_str_radix], and [str::parse::<uN>] for radix 10: a leading ['+'] is
    accepted, an empty digit string is not. *)
Definition parse_uint (w radix : Z) (s : bytes) : option Z :=
  match s with
  | [] => None
  | [43] => None
  | 43 :: s' => parse_digits w radix s' 0
  | _ => parse_digits w radix s 0
  end.

Lemma to_digit_dec d : 0 <= d < 10 -> to_digit 10 (48 + d) = Some d.
Proof.
  intros Hd. unfold to_digit, between.
  rewrite (proj2 (Z.leb_le 48 _)), (proj2 (Z.leb_le _ 57)) by lia. cbn [andb].
  replace (48 + d - 48) with d by lia. by rewrite (proj2 (Z.ltb_lt d 10)) by lia.
Qed.

Lemma dec_fuel_app fuel x acc : dec_fuel fuel x acc = dec_fuel fuel x [] ++ acc.
Proof.
  revert x acc. induction fuel as [|fuel IH]; intros x acc; simpl; [done|].
  destruct (x / 10 =? 0); [done|].
  rewrite (IH _ (_ :: acc)), (IH _ [_]). by rewrite <- (assoc_L (++)).
Qed.

(** Printing into fuel digits and parsing back. *)
Lemma parse_dec_fuel w fuel x :
  0 <= x < 2 ^ w -> x < 2 ^ Z.of_nat fuel ->
  parse_digits w 10 (dec_fuel fuel x []) 0 = Some x.
Proof.
  assert (Happ : forall s t acc v, parse_digits w 10 s acc = Some v ->
    parse_digits w 10 (s ++ t) acc = parse_digits w 10 t v).
  { induction s as [|b s IH]; simpl; intros t acc v H; [congruence|].
    destruct (to_digit 10 b); [|done]. destruct (_ <? _); [|done]. by apply IH. }
  revert x. induction fuel as [|fuel IH]; intros x Hx Hf.
  - change (2 ^ Z.of_nat 0) with 1 in Hf. simpl. f_equal. lia.
  - simpl. rewrite Nat2Z.inj_succ, Z.pow_succ_r in Hf by lia.
    pose proof (Z.mod_pos_bound x 10). pose proof (Z.div_mod x 10).
    destruct (x / 10 =? 0) eqn:E; bool_hyps.
    + cbn [parse_digits]. rewrite to_digit_dec by lia.
      rewrite (proj2 (Z.ltb_lt _ _)) by lia. f_equal. lia.
    + rewrite dec_fuel_app. erewrite Happ by (apply IH; lia).
      cbn [parse_digits]. rewrite to_digit_dec by lia.
      rewrite (proj2 (Z.ltb_lt _ _)) by lia. f_equal. lia.
Qed.

Definition is_dec_digit (b : Z) : Prop := 48 <= b <= 57.

Lemma dec_fuel_digits fuel x acc :
  Forall is_dec_digit acc -> Forall is_dec_digit (dec_fuel fuel x acc).
Proof.
  revert x acc. induction fuel as [|fuel IH]; intros x acc Ha; simpl; [done|].
  pose proof (Z.mod_pos_bound x 10).
  assert (Forall is_dec_digit ((48 + x mod 10) :: acc))
    by (constructor; [unfold is_dec_digit; lia|done]).
  destruct (_ =? 0); auto.
Qed.

Lemma dec_string_digits x : Forall is_dec_digit (dec_string x).
Proof. apply dec_fuel_digits. constructor. Qed.

Lemma dec_string_nonempty x : dec_string x <> [].
Proof.
  unfold dec_string. cbn [dec_fuel]. destruct (_ =? 0); [done|].
  rewrite dec_fuel_app. by destruct (dec_fuel _ _ []).
Qed.

Lemma parse_uint_dec w x : 0 <= x < 2 ^ w -> parse_uint w 10 (dec_string x) = Some x.
Proof.
  intros Hx.
  assert (Hp : parse_digits w 10 (dec_string x) 0 = Some x).
  { apply parse_dec_fuel; [done|].
    destruct (decide (x = 0)) as [->|]; [by vm_compute|].
    pose proof (Z.log2_spec x). pose proof (Z.log2_nonneg x).
    rewrite Nat2Z.inj_succ, Z2Nat.id by lia. lia. }
  pose proof (dec_string_digits x) as Hd. pose proof (dec_string_nonempty x) as Hn.
  destruct (dec_string x) as [|b s]; [done|].
  apply Forall_cons in Hd as [Hb _]. unfold is_dec_digit in Hb.
  unfold parse_uint. destruct s; repeat (case_match; try lia; try done).
Qed.
