(* ===== verification/RustText.v ===== *)
(** * Unicode text of the Rust standard library

    The [str] functions that look at characters: lossy decoding, white space,
    [split_whitespace], [trim], [lines] and [chars]. A [&str] is the list of its UTF-8
    bytes. *)

From stdpp Require Import base list numbers.
From Stdlib Require Import ZArith Lia.
From S2P Require Import Prelude RustStr.

Local Open Scope Z_scope.

(** ** [String::from_utf8_lossy] *)

(** U+FFFD. *)
Definition REPLACEMENT : bytes := [239; 191; 189].

(** Whether [b1] may follow the lead byte [b0] of a three-byte or four-byte sequence. *)
Definition second_ok (b0 b1 : Z) : bool :=
  if b0 =? 224 then between 160 191 b1
  else if b0 =? 237 then between 128 159 b1
  else if b0 =? 240 then between 144 191 b1
  else if b0 =? 244 then between 128 143 b1
  else is_cont b1.

(** Every maximal prefix of an ill-formed sequence becomes one replacement character. *)
Fixpoint from_utf8_lossy (s : bytes) : bytes :=
  match s with
  | [] => []
  | b0 :: t0 =>
    if b0 <? 128 then b0 :: from_utf8_lossy t0
    else if between 194 223 b0 then
      match t0 with
      | b1 :: t1 => if is_cont b1 then b0 :: b1 :: from_utf8_lossy t1 else REPLACEMENT ++ from_utf8_lossy t0
      | [] => REPLACEMENT
      end
    else if between 224 239 b0 then
      match t0 with
      | b1 :: t1 =>
        if second_ok b0 b1 then
          match t1 with
          | b2 :: t2 =>
            if is_cont b2 then b0 :: b1 :: b2 :: from_utf8_lossy t2 else REPLACEMENT ++ from_utf8_lossy t1
          | [] => REPLACEMENT
          end
        else REPLACEMENT ++ from_utf8_lossy t0
      | [] => REPLACEMENT
      end
    else if between 240 244 b0 then
      match t0 with
      | b1 :: t1 =>
        if second_ok b0 b1 then
          match t1 with
          | b2 :: t2 =>
            if is_cont b2 then
              match t2 with
              | b3 :: t3 =>
                if is_cont b3 then b0 :: b1 :: b2 :: b3 :: from_utf8_lossy t3
                else REPLACEMENT ++ from_utf8_lossy t2
              | [] => REPLACEMENT
              end
            else REPLACEMENT ++ from_utf8_lossy t1
          | [] => REPLACEMENT
          end
        else REPLACEMENT ++ from_utf8_lossy t0
      | [] => REPLACEMENT
      end
    else REPLACEMENT ++ from_utf8_lossy t0
  end.

(** ** White space *)

(** The length of the white-space character [s] starts with, 0 if it starts with
    another: the [White_Space] property. Continuation bytes start no character, so this
    may be asked at any byte of a valid string. *)
Definition ws_len (s : bytes) : nat :=
  match s with
  | b0 :: t0 =>
    if between 9 13 b0 || (b0 =? 32) then 1%nat
    else match t0 with
         | b1 :: t1 =>
           if (b0 =? 194) && ((b1 =? 133) || (b1 =? 160)) then 2%nat
           else match t1 with
                | b2 :: _ =>
                  if (b0 =? 225) && (b1 =? 154) && (b2 =? 128)
                     || (b0 =? 226) && (b1 =? 128)
                        && (between 128 138 b2 || (b2 =? 168) || (b2 =? 169) || (b2 =? 175))
                     || (b0 =? 226) && (b1 =? 129) && (b2 =? 159)
                     || (b0 =? 227) && (b1 =? 128) && (b2 =? 128)
                  then 3%nat else O
                | [] => O
                end
         | [] => O
         end
  | [] => O
  end.

(** [split_whitespace]: [skip] bytes of the current white-space character are left, [cur]
    is the word being read. *)
Fixpoint words_loop (skip : nat) (cur : bytes) (s : bytes) : list bytes :=
  match s with
  | [] => match cur with [] => [] | _ => [cur] end
  | b :: s' =>
    match skip with
    | S k => words_loop k cur s'
    | O => match ws_len s with
           | O => words_loop O (cur ++ [b]) s'
           | S k => match cur with [] => words_loop k [] s' | _ => cur :: words_loop k [] s' end
           end
    end
  end.
Definition split_whitespace (s : bytes) : list bytes := words_loop O [] s.

Fixpoint trim_loop (skip : nat) (s : bytes) : bytes :=
  match s with
  | [] => []
  | _ :: s' =>
    match skip with
    | S k => trim_loop k s'
    | O => match ws_len s with O => s | S k => trim_loop k s' end
    end
  end.
Definition trim_start (s : bytes) : bytes := trim_loop O s.

Definition trim_end (s : bytes) : bytes :=
  (fix go s := match s with
   | [] => []
   | b :: s' => match trim_start s with [] => [] | _ => b :: go s' end
   end) s.
Definition trim (s : bytes) : bytes := trim_end (trim_start s).

(** [lines]: split at line feeds, the empty last piece dropped, a carriage return before
    the line feed (or, for the last line without one, kept) removed. *)
Fixpoint lines_loop (cur : bytes) (s : bytes) : list bytes :=
  match s with
  | [] => match cur with [] => [] | _ => [cur] end
  | b :: s' => if b =? 10 then default cur (strip_suffix [13] cur) :: lines_loop [] s'
               else lines_loop (cur ++ [b]) s'
  end.
Definition lines (s : bytes) : list bytes := lines_loop [] s.

(** The length in bytes of the character a valid string starts with. *)
Definition char_len (b0 : Z) : nat :=
  if b0 <? 128 then 1%nat else if b0 <? 224 then 2%nat else if b0 <? 240 then 3%nat else 4%nat.

(** ** Lemmas *)

Lemma utf8_ind (P : bytes -> Prop) :
  P [] ->
  (forall c s, (0 < length c <= 4)%nat -> utf8_valid c = true -> length c = char_len (hd 0 c) ->
     utf8_valid s = true -> P s -> P (c ++ s)) ->
  forall s, utf8_valid s = true -> P s.
Proof.
  intros Hnil Hcons s. remember (length s) as n eqn:Hn. revert s Hn.
  induction n as [n IH] using lt_wf_ind. intros s -> Hv.
  destruct s as [|b0 t0]; [done|]. cbn [utf8_valid] in Hv.
  destruct (b0 <? 128) eqn:E0.
  { apply (Hcons [b0] t0); unfold char_len; cbn; rewrite ?E0; try done; [lia|].
    apply (IH (length t0)); cbn; [lia|done|done]. }
  destruct t0 as [|b1 t1]; [done|]. destruct (between 194 223 b0) eqn:E1.
  { apply andb_true_iff in Hv as [H1 Hv].
    apply (Hcons [b0; b1] t1); cbn; rewrite ?E0, ?E1, ?H1; try done; [lia| |].
    - unfold char_len. rewrite E0. unfold between in E1. bool_hyps. by rewrite (proj2 (Z.ltb_lt _ _)) by lia.
    - apply (IH (length t1)); cbn; [lia|done|done]. }
  destruct t1 as [|b2 t2]; [done|]. destruct (between 224 239 b0) eqn:E2.
  { apply andb_true_iff in Hv as [H1 Hv].
    apply (Hcons [b0; b1; b2] t2); cbn; rewrite ?E0, ?E1, ?E2, ?H1; try done; [lia| |].
    - unfold char_len. rewrite E0. unfold between in E2. bool_hyps.
      by rewrite (proj2 (Z.ltb_ge b0 224)), (proj2 (Z.ltb_lt b0 240)) by lia.
    - apply (IH (length t2)); cbn; [lia|done|done]. }
  destruct t2 as [|b3 t3]; [done|]. apply andb_true_iff in Hv as [H1 Hv].
  apply (Hcons [b0; b1; b2; b3] t3); cbn; rewrite ?E0, ?E1, ?E2, ?H1; try done; [lia| |].
  - unfold char_len. rewrite E0. unfold utf8_4, between in H1. bool_hyps.
    by rewrite (proj2 (Z.ltb_ge b0 224)), (proj2 (Z.ltb_ge b0 240)) by lia.
  - apply (IH (length t3)); cbn; [lia|done|done].
Qed.

Lemma second_ok_3 b0 b1 b2 :
  between 224 239 b0 = true -> utf8_3 b0 b1 b2 = true -> second_ok b0 b1 = true /\ is_cont b2 = true.
Proof.
  intros H0 H. unfold utf8_3 in H. apply andb_true_iff in H as [Hc H]. split; [|done].
  unfold second_ok, is_cont, between in *. repeat case_match; bool_hyps; lia.
Qed.

Lemma second_ok_4 b0 b1 b2 b3 :
  utf8_4 b0 b1 b2 b3 = true ->
  between 240 244 b0 = true /\ second_ok b0 b1 = true /\ is_cont b2 = true /\ is_cont b3 = true.
Proof.
  intros H. unfold utf8_4 in H. apply andb_true_iff in H as [Hc H]. apply andb_true_iff in Hc as [H2 H3].
  split_and!; try done; unfold second_ok, is_cont, between in *; repeat case_match; bool_hyps; lia.
Qed.

(** Valid text is kept as it is. *)
Lemma from_utf8_lossy_valid s : utf8_valid s = true -> from_utf8_lossy s = s.
Proof.
  remember (length s) as n eqn:Hn. revert s Hn. induction n as [n IH] using lt_wf_ind. intros s -> Hv.
  destruct s as [|b0 t0]; [done|]. cbn [utf8_valid from_utf8_lossy] in *. destruct (b0 <? 128).
  { f_equal. by apply (IH (length t0)); [cbn; lia|..]. }
  destruct t0 as [|b1 t1]; [done|]. destruct (between 194 223 b0).
  { apply andb_true_iff in Hv as [-> Hv]. do 2 f_equal. by apply (IH (length t1)); [cbn; lia|..]. }
  destruct t1 as [|b2 t2]; [done|]. destruct (between 224 239 b0) eqn:E2.
  { apply andb_true_iff in Hv as [[-> ->]%second_ok_3 Hv]; [|done]. do 3 f_equal.
    by apply (IH (length t2)); [cbn; lia|..]. }
  destruct t2 as [|b3 t3]; [done|]. apply andb_true_iff in Hv as [(-> & -> & -> & ->)%second_ok_4 Hv].
  do 4 f_equal. by apply (IH (length t3)); [cbn; lia|..].
Qed.

(** Words of visible ASCII characters. *)
Definition graph (b : Z) : Prop := 33 <= b < 127.

Lemma ws_len_graph b s : graph b -> ws_len (b :: s) = O.
Proof.
  unfold graph. intros Hb. unfold ws_len, between.
  rewrite (proj2 (Z.leb_gt b 13)), (proj2 (Z.eqb_neq b 32)) by lia. rewrite andb_false_r. cbn [orb].
  destruct s as [|c [|d s]]; [done|..];
    rewrite (proj2 (Z.eqb_neq b 194)) by lia; cbn [andb]; [done|].
  by rewrite (proj2 (Z.eqb_neq b 225)), (proj2 (Z.eqb_neq b 226)), (proj2 (Z.eqb_neq b 227)) by lia.
Qed.

Lemma words_loop_graph w cur s :
  Forall graph w -> words_loop O cur (w ++ s) = words_loop O (cur ++ w) s.
Proof.
  intros Hw. revert cur. induction Hw as [|b w Hb Hw IH]; intros cur; [by rewrite app_nil_r|].
  cbn [app words_loop]. rewrite ws_len_graph by done. by rewrite IH, <- app_assoc.
Qed.

Lemma split_whitespace_word w s :
  Forall graph w -> w <> [] -> split_whitespace (w ++ 32 :: s) = w :: split_whitespace s.
Proof.
  intros Hw Hne. unfold split_whitespace. rewrite words_loop_graph by done. cbn. by destruct w.
Qed.

Lemma split_whitespace_last w : Forall graph w -> w <> [] -> split_whitespace w = [w].
Proof.
  intros Hw Hne. unfold split_whitespace. rewrite <- (app_nil_r w), words_loop_graph by done. cbn.
  rewrite app_nil_r. by destruct w.
Qed.

Lemma split_whitespace_space s : split_whitespace (32 :: s) = split_whitespace s.
Proof. done. Qed.

Lemma trim_start_graph b s : graph b -> trim_start (b :: s) = b :: s.
Proof. intros Hb. unfold trim_start. cbn [trim_loop]. by rewrite ws_len_graph. Qed.

Lemma trim_start_space s : trim_start (32 :: s) = trim_start s.
Proof. done. Qed.

Lemma graph_valid w : Forall graph w -> utf8_valid w = true.
Proof. intros H. apply utf8_valid_ascii. eapply Forall_impl; [|exact H]. unfold graph. intros b. lia. Qed.

Lemma dec_string_graph x : Forall graph (dec_string x).
Proof.
  eapply Forall_impl; [|apply dec_string_digits]. unfold is_dec_digit, graph. intros b. lia.
Qed.

Lemma Forall_trim_loop (P : Z -> Prop) k s : Forall P s -> Forall P (trim_loop k s).
Proof.
  intros Hs. revert k. induction Hs as [|b s Hb Hs IH]; intros k; cbn [trim_loop]; [done|].
  destruct k; [|done]. destruct (ws_len (b :: s)); [by constructor|done].
Qed.

Lemma Forall_trim (P : Z -> Prop) s : Forall P s -> Forall P (trim s).
Proof.
  intros Hs. apply (Forall_trim_loop P O) in Hs. unfold trim, trim_start in *. unfold trim_end.
  induction Hs as [|b l Hb Hl IH]; [done|]. case_match; by constructor.
Qed.

(** White space is found within the characters before a space. *)
Lemma ws_len_le s : (ws_len s <= length s)%nat.
Proof. destruct s as [|b0 [|b1 [|b2 s]]]; cbn; repeat case_match; lia. Qed.

Lemma ws_len_space s x : s <> [] -> ws_len (s ++ 32 :: x) = ws_len s.
Proof.
  destruct s as [|b0 [|b1 [|b2 s]]]; [done|..]; intros _; cbn -[between].
  - rewrite !andb_false_r. by destruct x.
  - change (between 128 138 32) with false. by rewrite !andb_false_r.
  - done.
Qed.

Lemma trim_loop_suffix k s : exists pre, s = pre ++ trim_loop k s.
Proof.
  revert k. induction s as [|b s IH]; intros k; [by exists []|]. cbn [trim_loop].
  destruct k as [|k]; [destruct (ws_len (b :: s)) as [|k]; [by exists []|]|];
    destruct (IH k) as [pre Hpre]; exists (b :: pre); cbn; by rewrite <- Hpre.
Qed.

Lemma trim_end_cons b s :
  trim_end (b :: s) = match trim_start (b :: s) with [] => [] | _ => b :: trim_end s end.
Proof. done. Qed.

Lemma trim_end_prefix s : exists suf, s = trim_end s ++ suf.
Proof.
  induction s as [|b s [suf IH]]; [by exists []|]. rewrite trim_end_cons.
  destruct (trim_start (b :: s)); [by exists (b :: s)|]. exists suf. cbn. by rewrite <- IH.
Qed.

Lemma trim_fixed s : trim s = s -> trim_start s = s /\ trim_end s = s.
Proof.
  intros H. unfold trim in H. destruct (trim_loop_suffix O s) as [pre Hpre].
  destruct (trim_end_prefix (trim_start s)) as [suf Hsuf]. rewrite H in Hsuf. fold (trim_start s) in Hpre.
  rewrite Hsuf in Hpre. apply (f_equal length) in Hpre as Hl. rewrite !length_app in Hl.
  assert (Hs : suf = []) by (apply nil_length_inv; lia). rewrite Hs, app_nil_r in Hsuf. by rewrite Hsuf in H.
Qed.

Lemma trim_start_ws s : s <> [] -> trim_start s = s -> ws_len s = O.
Proof.
  unfold trim_start. destruct s as [|b s]; [done|]. intros _. cbn [trim_loop]. destruct (ws_len (b :: s)) as [|k]; [done|].
  intros H. destruct (trim_loop_suffix k s) as [pre Hpre]. rewrite H in Hpre. apply (f_equal length) in Hpre.
  rewrite length_app in Hpre. cbn in Hpre. lia.
Qed.

Lemma trim_loop_space k y s :
  (k <= length y)%nat -> trim_start s <> [] -> trim_loop k (y ++ 32 :: s) <> [].
Proof.
  intros Hk Hs. revert k Hk. induction y as [|b y IH]; intros k Hk; cbn in Hk.
  - assert (k = O) as -> by lia. done.
  - cbn [app trim_loop]. destruct k as [|k]; [|apply IH; lia].
    change (b :: y ++ 32 :: s) with ((b :: y) ++ 32 :: s). rewrite ws_len_space by done.
    pose proof (ws_len_le (b :: y)) as Hw. cbn [length] in Hw. destruct (ws_len (b :: y)); [done|]. apply IH. lia.
Qed.

(** Trimmed texts joined by a space are trimmed. *)
Lemma trim_space p y s :
  trim p = p -> trim s = s -> p <> [] -> s <> [] -> trim (p ++ 32 :: y ++ 32 :: s) = p ++ 32 :: y ++ 32 :: s.
Proof.
  intros [Hp _]%trim_fixed [_ He]%trim_fixed Hpn Hsn. apply trim_start_ws in Hp; [|done].
  assert (Hs : trim_start s <> []).
  { destruct s as [|b s]; [done|]. rewrite trim_end_cons in He. intros E. by rewrite E in He. }
  unfold trim. replace (trim_start _) with (p ++ 32 :: y ++ 32 :: s).
  - change (32 :: y ++ 32 :: s) with ((32 :: y) ++ 32 :: s). rewrite app_assoc.
    induction (p ++ 32 :: y) as [|b z IH]; cbn [app].
    + rewrite trim_end_cons. pose proof (trim_loop_space O [] s (le_n _) Hs) as Hn. cbn [app] in Hn. fold (trim_start (32 :: s)) in Hn.
      destruct (trim_start (32 :: s)); [done|]. by rewrite He.
    + rewrite trim_end_cons. pose proof (trim_loop_space O (b :: z) s ltac:(cbn; lia) Hs) as Hn. cbn [app] in Hn.
      fold (trim_start (b :: z ++ 32 :: s)) in Hn. destruct (trim_start (b :: z ++ 32 :: s)); [done|]. by rewrite IH.
  - unfold trim_start. destruct p as [|b p]; [done|]. cbn [app trim_loop].
    change (b :: p ++ 32 :: y ++ 32 :: s) with ((b :: p) ++ 32 :: y ++ 32 :: s). by rewrite ws_len_space, Hp.
Qed.

#[export] Hint Resolve graph_valid dec_string_graph dec_string_nonempty : rust.
