(* ===== verification/RustChar.v ===== *)
(** * Characters and byte offsets of strings

    What [str] does at the level of characters, on the UTF-8 bytes of a string: character
    boundaries, slicing (which panics off a boundary), [chars], and snapping an offset to a
    boundary. A [char] is the list of its bytes. *)

From stdpp Require Import base option list numbers.
From Stdlib Require Import ZArith Lia.
From S2P Require Import Prelude RustStr RustText.

Local Open Scope Z_scope.
Local Open Scope rust_scope.

(** [str::is_char_boundary]. *)
Definition is_char_boundary (s : bytes) (i : nat) : bool :=
  (i =? 0)%nat || (i =? length s)%nat || match s !! i with Some b => negb (is_cont b) | None => false end.

(** [str::chars], with [char_indices] recovered from the lengths: in a string every
    character but its first byte is continuation bytes. *)
Fixpoint chars (s : bytes) : list bytes :=
  match s with
  | [] => []
  | b :: s' =>
    match chars s' with
    | (b' :: c) :: cs => if is_cont b' then (b :: b' :: c) :: cs else [b] :: (b' :: c) :: cs
    | cs => [b] :: cs
    end
  end.

(** [&s[i..]], [&s[..i]] and [String::replace_range]. *)
Definition slice_from (s : bytes) (i : nat) : outcome bytes :=
  if is_char_boundary s i then Ret (drop i s) else Panic.
Definition slice_to (s : bytes) (i : nat) : outcome bytes :=
  if is_char_boundary s i then Ret (take i s) else Panic.
Definition replace_range (s : bytes) (a b : nat) (t : bytes) : outcome bytes :=
  if is_char_boundary s a && is_char_boundary s b && (a <=? b)%nat then Ret (take a s ++ t ++ drop b s) else Panic.

(** [while offset > 0 && !is_char_boundary(offset) { offset -= 1 }]; zero is a boundary. *)
Fixpoint floor_loop (s : bytes) (offset : nat) : nat :=
  if is_char_boundary s offset then offset else match offset with O => O | S o => floor_loop s o end.

(** ** One character *)

(** The bytes of one character. *)
Definition is_char (c : bytes) : Prop :=
  c <> [] /\ utf8_valid c = true /\ length c = char_len (hd 0 c).

Lemma is_char_shape c : is_char c -> exists b t, c = b :: t /\ is_cont b = false /\ Forall (fun x => is_cont x = true) t.
Proof.
  intros (Hn & Hv & Hl). destruct c as [|b t]; [done|]. exists b, t. split; [done|]. revert Hv Hl.
  cbn [utf8_valid hd]. unfold char_len. destruct (b <? 128) eqn:E0.
  { intros _ Hl. destruct t; [|done]. split; [|done]. unfold is_cont. bool_hyps. apply andb_false_iff. left. by apply Z.leb_gt. }
  destruct t as [|b1 t1]; [done|]. destruct (between 194 223 b) eqn:E1.
  { unfold between in E1. bool_hyps. rewrite (proj2 (Z.ltb_lt b 224)) by lia. intros [H1 _]%andb_true_iff Hl.
    destruct t1; [|done]. split; [|by repeat constructor]. unfold is_cont. apply andb_false_iff. right. apply Z.leb_gt. lia. }
  destruct t1 as [|b2 t2]; [done|]. destruct (between 224 239 b) eqn:E2.
  { unfold between in E2. bool_hyps. rewrite (proj2 (Z.ltb_ge b 224)), (proj2 (Z.ltb_lt b 240)) by lia.
    intros [H1 _]%andb_true_iff Hl. destruct t2; [|done]. split.
    - unfold is_cont. apply andb_false_iff. right. apply Z.leb_gt. lia.
    - unfold utf8_3, between, is_cont in *. repeat constructor; lia. }
  destruct t2 as [|b3 t3]; [done|]. intros [H1 _]%andb_true_iff Hl.
  unfold utf8_4, between, is_cont in *.
  assert (240 <= b) by lia. rewrite (proj2 (Z.ltb_ge b 224)), (proj2 (Z.ltb_ge b 240)) in Hl by lia. destruct t3; [|done].
  split; [lia|]. repeat constructor; lia.
Qed.

Lemma is_char_length c : is_char c -> (0 < length c)%nat.
Proof. intros (Hn & _). destruct c; [done|cbn; lia]. Qed.

(** Induction on the characters of a string. *)
Lemma str_ind (P : bytes -> Prop) :
  P [] -> (forall c s, is_char c -> utf8_valid s = true -> P s -> P (c ++ s)) -> forall s, utf8_valid s = true -> P s.
Proof.
  intros H0 H1. apply utf8_ind; [done|]. intros c s Hl Hv Hc Hs IH. apply H1; try done.
  split_and!; [by destruct c; [cbn in Hl; lia|]|done|done].
Qed.

Lemma valid_head s b t : utf8_valid s = true -> s = b :: t -> is_cont b = false.
Proof.
  intros Hs. revert s Hs b t. apply (str_ind (fun s => forall b t, s = b :: t -> is_cont b = false)); [done|].
  intros c s Hc _ _ b t. destruct (is_char_shape c Hc) as (b0 & t0 & -> & Hb & _). by intros [= <- _].
Qed.

(** ** Boundaries *)

Lemma boundary_le s i : is_char_boundary s i = true -> (i <= length s)%nat.
Proof.
  unfold is_char_boundary. rewrite !orb_true_iff. intros [[H|H]|H]; bool_hyps; [lia..|].
  destruct (s !! i) eqn:E; [|done]. apply lookup_lt_Some in E. lia.
Qed.

(** Between two strings is a boundary. *)
Lemma boundary_app a b : utf8_valid b = true -> is_char_boundary (a ++ b) (length a) = true.
Proof.
  intros Hb. unfold is_char_boundary. destruct b as [|x b].
  { rewrite app_nil_r, Nat.eqb_refl, orb_true_r. done. }
  rewrite lookup_app_r, Nat.sub_diag by lia. cbn. rewrite (valid_head _ x b Hb eq_refl). by rewrite orb_true_r.
Qed.

Lemma boundary_tail c s i :
  is_char c -> is_char_boundary (c ++ s) i = true -> i = 0%nat \/ (length c <= i /\ is_char_boundary s (i - length c) = true)%nat.
Proof.
  intros Hc H. destruct (is_char_shape c Hc) as (b0 & t & -> & _ & Ht). unfold is_char_boundary in *. rewrite length_app in H.
  destruct (decide (i = 0%nat)) as [->|H0]; [by left|]. right.
  destruct (decide (i < length (b0 :: t))%nat) as [Hlt|Hge].
  - exfalso. rewrite lookup_app_l in H by done. destruct i as [|i]; [done|]. change ((b0 :: t) !! S i) with (t !! i) in H.
    destruct (t !! i) eqn:E; [|apply lookup_ge_None in E; cbn in Hlt; lia].
    rewrite Forall_lookup in Ht. rewrite (Ht _ _ E) in H. rewrite !orb_true_iff in H.
    destruct H as [[H|H]|H]; bool_hyps; [lia| |done]. cbn in *. lia.
  - rewrite lookup_app_r in H by lia. split; [lia|].
    rewrite !orb_true_iff in *. destruct H as [[H|H]|H]; bool_hyps; [lia| |by right].
    left; right. apply Nat.eqb_eq. lia.
Qed.

(** A boundary cuts a string into two strings. *)
Lemma boundary_split s i :
  utf8_valid s = true -> is_char_boundary s i = true -> utf8_valid (take i s) = true /\ utf8_valid (drop i s) = true.
Proof.
  intros Hs. revert s Hs i. apply (str_ind (fun s => forall i, is_char_boundary s i = true ->
    utf8_valid (take i s) = true /\ utf8_valid (drop i s) = true)); [by intros [|i]|].
  intros c s Hc Hs IH i Hi. assert (Hv : utf8_valid c = true) by apply Hc.
  destruct (boundary_tail c s i Hc Hi) as [->|[Hle Hb]].
  - rewrite take_0, drop_0, utf8_valid_app by done. done.
  - rewrite take_app_ge, drop_app_ge, utf8_valid_app by (done || lia). by apply IH.
Qed.

Lemma boundary_0 s : is_char_boundary s 0 = true.
Proof. done. Qed.
Lemma boundary_len s : is_char_boundary s (length s) = true.
Proof. unfold is_char_boundary. by rewrite Nat.eqb_refl, orb_true_r. Qed.

(** The offset a loop snaps to is the last boundary at or below. *)
Lemma floor_loop_spec s o :
  is_char_boundary s (floor_loop s o) = true /\ (floor_loop s o <= o)%nat
  /\ forall i, is_char_boundary s i = true -> (i <= o)%nat -> (i <= floor_loop s o)%nat.
Proof.
  induction o as [|o IH]; cbn [floor_loop].
  { change (is_char_boundary s 0) with true. cbn iota. split_and!; [done|done|by intros]. }
  destruct (is_char_boundary s (S o)) eqn:E; [split_and!; [done|lia|by intros]|]. destruct IH as (H1 & H2 & H3).
  split_and!; [done|lia|]. intros i Hi Hle. destruct (decide (i = S o)) as [->|]; [congruence|]. apply H3; [done|lia].
Qed.

Lemma floor_loop_id s o : is_char_boundary s o = true -> floor_loop s o = o.
Proof. intros H. destruct o; cbn [floor_loop]; by rewrite H. Qed.

(** ** [chars] *)

Lemma chars_app_char c s : is_char c -> utf8_valid s = true -> chars (c ++ s) = c :: chars s.
Proof.
  intros Hc Hs. destruct (is_char_shape c Hc) as (b & t & -> & _ & Ht). clear Hc. revert b.
  induction Ht as [|x t Hx Ht IH]; intros b; cbn [app].
  - cbn [chars]. destruct s as [|b' s]; [done|]. pose proof (valid_head _ b' s Hs eq_refl) as Hb.
    assert (exists c cs, chars (b' :: s) = (b' :: c) :: cs) as (c & cs & ->).
    { cbn. destruct (chars s) as [|[|y c] cs]; [by eexists _, _..|]. destruct (is_cont y); by eexists _, _. }
    by rewrite Hb.
  - change (chars (b :: x :: t ++ s)) with
      (match chars ((x :: t) ++ s) with
       | (b' :: c) :: cs => if is_cont b' then (b :: b' :: c) :: cs else [b] :: (b' :: c) :: cs
       | cs => [b] :: cs end).
    rewrite IH, Hx. done.
Qed.

Lemma chars_spec s : utf8_valid s = true -> Forall is_char (chars s) /\ concat (chars s) = s.
Proof.
  revert s. apply str_ind; [done|]. intros c s Hc Hs [IH1 IH2]. rewrite chars_app_char by done.
  split; [by constructor|]. cbn. by rewrite IH2.
Qed.

Lemma concat_valid cs : Forall is_char cs -> utf8_valid (concat cs) = true.
Proof. induction 1 as [|c cs Hc Hcs IH]; [done|]. cbn. rewrite utf8_valid_app; [done|apply Hc]. Qed.

Lemma chars_concat cs : Forall is_char cs -> chars (concat cs) = cs.
Proof. induction 1 as [|c cs Hc Hcs IH]; [done|]. cbn. rewrite chars_app_char, IH; [done..|by apply concat_valid]. Qed.

Lemma chars_app a b : utf8_valid a = true -> utf8_valid b = true -> chars (a ++ b) = chars a ++ chars b.
Proof.
  intros Ha Hb. destruct (chars_spec a Ha) as [Fa Ea], (chars_spec b Hb) as [Fb Eb].
  rewrite <- Ea, <- Eb at 1. rewrite <- concat_app. apply chars_concat. by apply Forall_app.
Qed.

(** ** Positions and offsets

    A text is the concatenation of its characters; a position counts characters, an offset
    counts bytes. *)

Local Open Scope nat_scope.

(** The number of characters that lie wholly before a byte offset. *)
Fixpoint idx (D : list bytes) (o : nat) : nat :=
  match D with
  | [] => 0
  | c :: D' => if length c <=? o then S (idx D' (o - length c)) else 0
  end.

(** The byte offset of a character position. *)
Definition off (D : list bytes) (i : nat) : nat := length (concat (take i D)).

Section Document.
Context (D : list bytes) (HD : Forall is_char D).
Local Notation text := (concat D).

Lemma off_app i : take (off D i) text = concat (take i D) /\ drop (off D i) text = concat (drop i D).
Proof.
  assert (E : text = concat (take i D) ++ concat (drop i D)) by (by rewrite <- concat_app, take_drop).
  unfold off. rewrite E. split; [apply take_app_length|apply drop_app_length].
Qed.

Lemma off_valid i : utf8_valid (concat (take i D)) = true /\ utf8_valid (concat (drop i D)) = true.
Proof. split; apply concat_valid; [by apply Forall_take|by apply Forall_drop]. Qed.

Lemma off_all i : length D <= i -> off D i = length text.
Proof. intros H. unfold off. by rewrite take_ge. Qed.

Lemma off_S i c : D !! i = Some c -> off D (S i) = off D i + length c.
Proof. intros H. unfold off. rewrite (take_S_r _ _ _ H), concat_app, length_app. cbn. rewrite app_nil_r. done. Qed.

Lemma off_le i j : i <= j -> off D i <= off D j.
Proof.
  intros H. unfold off. replace (take j D) with (take i D ++ take (j - i) (drop i D)).
  - rewrite concat_app, length_app. lia.
  - rewrite take_take_drop. f_equal. lia.
Qed.

Lemma off_lt i j : i < j -> i < length D -> off D i < off D j.
Proof.
  intros H Hi. destruct (lookup_lt_is_Some_2 D i Hi) as [c Hc].
  pose proof (off_S i c Hc). pose proof (off_le (S i) j ltac:(lia)).
  assert (0 < length c); [|lia]. apply is_char_length. rewrite Forall_lookup in HD. eauto.
Qed.

Lemma off_inj i j : i <= length D -> j <= length D -> off D i = off D j -> i = j.
Proof.
  intros Hi Hj H. destruct (lt_eq_lt_dec i j) as [[Hl|]|Hl]; [|done|].
  - pose proof (off_lt i j Hl ltac:(lia)). lia.
  - pose proof (off_lt j i Hl ltac:(lia)). lia.
Qed.

Lemma off_lt_iff i j : i <= length D -> j <= length D -> off D i < off D j <-> i < j.
Proof.
  intros Hi Hj. split; [|intros; apply off_lt; lia]. intros H. destruct (decide (i < j)); [done|].
  pose proof (off_le j i ltac:(lia)). lia.
Qed.

Lemma off_boundary i : is_char_boundary text (off D i) = true.
Proof. rewrite <- (take_drop i D) at 1. rewrite concat_app. apply boundary_app, off_valid. Qed.

End Document.

Lemma idx_spec D o :
  idx D o <= length D /\ off D (idx D o) <= o /\ forall i, i <= length D -> off D i <= o -> i <= idx D o.
Proof.
  revert o. induction D as [|c D IH]; intros o; cbn [idx length].
  { split_and!; [lia|cbn; lia|lia]. }
  destruct (length c <=? o) eqn:E; bool_hyps.
  - destruct (IH (o - length c)) as (H1 & H2 & H3). unfold off in *. cbn [take concat].
    rewrite length_app. split_and!; [lia|lia|]. intros [|i] Hi Ho; [lia|]. cbn [take concat] in Ho. rewrite length_app in Ho.
    assert (i <= idx D (o - length c)); [apply H3; lia|lia].
  - split_and!; [lia|cbn; lia|]. intros [|i] Hi Ho; [lia|]. unfold off in Ho. cbn [take concat] in Ho. rewrite length_app in Ho. lia.
Qed.

Lemma idx_min D o : idx D (Nat.min o (length (concat D))) = idx D o.
Proof.
  revert o. induction D as [|c D IH]; intros o; cbn [idx concat]; [done|]. rewrite length_app.
  destruct (length c <=? o) eqn:E; bool_hyps.
  - rewrite (proj2 (Nat.leb_le _ _)) by lia. f_equal. rewrite <- (IH (o - length c)). f_equal. lia.
  - rewrite (proj2 (Nat.leb_gt _ _)) by lia. done.
Qed.

Lemma boundary_idx D o : Forall is_char D -> is_char_boundary (concat D) o = true -> off D (idx D o) = o.
Proof.
  intros HD. revert o. induction HD as [|c D Hc HD IH]; intros o Ho; cbn [idx].
  { apply boundary_le in Ho. cbn in *. lia. }
  destruct (boundary_tail c (concat D) o Hc Ho) as [->|[Hle Hb]].
  - rewrite (proj2 (Nat.leb_gt _ _)) by (by apply is_char_length). done.
  - rewrite (proj2 (Nat.leb_le _ _)) by done. unfold off in *. cbn [take concat]. rewrite length_app, (IH _ Hb). lia.
Qed.

Lemma idx_off D i : Forall is_char D -> i <= length D -> idx D (off D i) = i.
Proof.
  intros HD Hi. destruct (idx_spec D (off D i)) as (H1 & H2 & H3). apply (off_inj D HD); [done|done|].
  apply boundary_idx; [done|]. by apply off_boundary.
Qed.

Lemma length_chars l : Forall is_char l -> length l <= length (concat l).
Proof.
  induction 1 as [|c l H1 H2 IH]; cbn; [done|]. rewrite length_app. pose proof (is_char_length c H1). lia.
Qed.
