(* ===== verification/RustOrd.v ===== *)
(** * Ordering, sorting and ordered maps

    What the sources use of [Ord], [Ordering], [Iterator::cmp], [slice::sort_by],
    [Vec::dedup] and [BTreeMap] iteration. Comparisons are instances of a class of lawful
    orderings, composed as the code composes them. *)

From stdpp Require Import base option list numbers sets sorting.
From Stdlib Require Import ZArith Lia.

Local Open Scope nat_scope.

(** ** Lawful comparisons *)

(** A total preorder presented by its three-way comparison. *)
Class CmpOrder {A} (cmp : A -> A -> comparison) : Prop := {
  cmp_anti : forall a b, cmp b a = CompOpp (cmp a b);
  cmp_eq : forall a b c, cmp a b = Eq -> cmp a c = cmp b c;
  cmp_lt : forall a b c, cmp a b = Lt -> cmp b c = Lt -> cmp a c = Lt;
}.

(** [Ordering::then_with]. *)
Definition then_with (o1 o2 : comparison) : comparison := match o1 with Eq => o2 | _ => o1 end.

(** [Ord::cmp] of slices and [Iterator::cmp]. *)
Fixpoint lex {A} (cmp : A -> A -> comparison) (l r : list A) : comparison :=
  match l, r with
  | [], [] => Eq
  | [], _ => Lt
  | _, [] => Gt
  | x :: l', y :: r' => then_with (cmp x y) (lex cmp l' r')
  end.

Section Laws.
Context {A : Type} (cmp : A -> A -> comparison) `{CmpOrder A cmp}.

Lemma cmp_eq_r a b c : cmp a b = Eq -> cmp c a = cmp c b.
Proof. intros E. rewrite (cmp_anti a c), (cmp_anti b c). f_equal. by apply cmp_eq. Qed.

Lemma cmp_refl a : cmp a a = Eq.
Proof. pose proof (cmp_anti a a). by destruct (cmp a a). Qed.

#[global] Instance lex_order : CmpOrder (lex cmp).
Proof.
  split.
  - induction a as [|x a IH]; intros [|y b]; cbn; try done. rewrite IH, (cmp_anti x y). by destruct (cmp x y).
  - induction a as [|x a IH]; intros [|y b] c; cbn; try done. destruct (cmp x y) eqn:E; cbn; try done. intros Hab.
    destruct c as [|z c]; [done|]. by rewrite (cmp_eq x y z E), (IH b c Hab).
  - induction a as [|x a IH]; intros [|y b] [|z c]; cbn; try done.
    destruct (cmp x y) eqn:E1, (cmp y z) eqn:E2; cbn; try done; intros H1 H2.
    + rewrite (cmp_eq x y z E1), E2. cbn. eauto.
    + rewrite (cmp_eq x y z E1), E2. done.
    + rewrite <- (cmp_eq_r y z x E2), E1. done.
    + rewrite (cmp_lt x y z E1 E2). done.
Qed.

#[global] Instance pullback_order {B} (f : B -> A) : CmpOrder (fun x y => cmp (f x) (f y)).
Proof. split; intros; [apply cmp_anti|by apply cmp_eq|by eapply cmp_lt]. Qed.

#[global] Instance then_order (cmp2 : A -> A -> comparison) `{CmpOrder A cmp2} :
  CmpOrder (fun x y => then_with (cmp x y) (cmp2 x y)).
Proof.
  split; intros a b.
  - rewrite (cmp_anti a b), (cmp_anti (cmp := cmp2) a b). by destruct (cmp a b).
  - intros c. destruct (cmp a b) eqn:E; cbn; try done. intros E2. by rewrite (cmp_eq a b c E), (cmp_eq a b c E2).
  - intros c. destruct (cmp a b) eqn:E1, (cmp b c) eqn:E2; cbn; try done; intros H1 H2.
    + rewrite (cmp_eq a b c E1), E2. cbn. by eapply cmp_lt.
    + rewrite (cmp_eq a b c E1), E2. done.
    + rewrite <- (cmp_eq_r b c a E2), E1. done.
    + rewrite (cmp_lt a b c E1 E2). done.
Qed.
End Laws.

#[export] Instance Z_order : CmpOrder Z.compare.
Proof.
  split; intros a b.
  - apply Z.compare_antisym.
  - intros c ->%Z.compare_eq. done.
  - intros c. rewrite !Z.compare_lt_iff. lia.
Qed.

#[export] Instance nat_order : CmpOrder Nat.compare.
Proof.
  split; intros a b.
  - apply Nat.compare_antisym.
  - intros c ->%Nat.compare_eq. done.
  - intros c. rewrite !Nat.compare_lt_iff. lia.
Qed.

Lemma lex_Z_eq a b : lex Z.compare a b = Eq -> a = b.
Proof.
  revert b. induction a as [|x a IH]; intros [|y b]; cbn; try done. destruct (x ?= y)%Z eqn:E; cbn; try done.
  apply Z.compare_eq in E as ->. intros H. f_equal. by apply IH.
Qed.

(** ** Sorting *)

(** [sort], [sort_by] and [sort_by_key], which are stable: an element goes after those with an equal key. *)
Section Sort.
Context {A : Type} (le : A -> A -> bool).
Fixpoint sort_insert (x : A) (l : list A) : list A :=
  match l with y :: l' => if le y x then y :: sort_insert x l' else x :: l | [] => [x] end.
Definition sort_by (l : list A) : list A := fold_left (fun acc x => sort_insert x acc) l [].
End Sort.

Section SortLemmas.
Context {A : Type} (le : A -> A -> bool).
Context (le_total : forall a b, le a b = false -> le b a = true).
Context (le_trans : forall a b c, le a b = true -> le b c = true -> le a c = true).
Local Notation sorted := (StronglySorted (fun a b => le a b = true)).

Lemma sort_insert_perm x l : sort_insert le x l ≡ₚ x :: l.
Proof. induction l as [|y l IH]; cbn; [done|]. destruct (le y x); [|done]. rewrite IH. constructor. Qed.

Lemma sort_by_perm l : sort_by le l ≡ₚ l.
Proof.
  unfold sort_by. change l with ([] ++ l) at 2. generalize (@nil A). induction l as [|x l IH]; intros acc; cbn.
  - by rewrite app_nil_r.
  - rewrite IH, sort_insert_perm. apply Permutation_middle.
Qed.

Lemma sort_insert_sorted x l : sorted l -> sorted (sort_insert le x l).
Proof.
  induction 1 as [|y l Hl IH Hy]; cbn; [by repeat constructor|]. destruct (le y x) eqn:E.
  - constructor; [done|]. rewrite sort_insert_perm. by constructor.
  - constructor; [by constructor|]. apply le_total in E. constructor; [done|].
    eapply Forall_impl; [exact Hy|]. intros z Hz. by eapply le_trans.
Qed.

Lemma sort_by_sorted l : sorted (sort_by le l).
Proof.
  unfold sort_by. assert (H : sorted []) by constructor. revert H. generalize (@nil A).
  induction l as [|x l IH]; intros acc Hacc; cbn; [done|]. apply IH. by apply sort_insert_sorted.
Qed.

(** Sorting a sorted list changes nothing. *)
Lemma sort_by_id l : sorted l -> sort_by le l = l.
Proof.
  intros Hl. unfold sort_by. cut (forall acc, Forall (fun a => Forall (fun x => le a x = true) l) acc ->
    fold_left (fun acc x => sort_insert le x acc) l acc = acc ++ l); [intros H; by apply (H [])|].
  induction Hl as [|x l Hl IH Hx]; intros acc Hacc; cbn; [by rewrite app_nil_r|].
  assert (Hins : sort_insert le x acc = acc ++ [x]).
  { clear IH. induction Hacc as [|a acc Ha Hacc IH]; cbn; [done|]. apply Forall_cons in Ha as [-> _]. by rewrite IH. }
  rewrite Hins, IH, <- app_assoc; [done|]. apply Forall_app. split; [|by repeat constructor].
  eapply Forall_impl; [exact Hacc|]. by intros a [_ ?]%Forall_cons.
Qed.
End SortLemmas.

(** A comparison as the [<=] of a sort. *)
Definition cmp_le {A} (cmp : A -> A -> comparison) (a b : A) : bool :=
  match cmp a b with Gt => false | _ => true end.

Section CmpSort.
Context {A : Type} (cmp : A -> A -> comparison) `{CmpOrder A cmp}.

Lemma cmp_le_total a b : cmp_le cmp a b = false -> cmp_le cmp b a = true.
Proof. unfold cmp_le. rewrite (cmp_anti a b). by destruct (cmp a b). Qed.

Lemma cmp_le_trans a b c : cmp_le cmp a b = true -> cmp_le cmp b c = true -> cmp_le cmp a c = true.
Proof.
  unfold cmp_le. destruct (cmp a b) eqn:E1; try done; destruct (cmp b c) eqn:E2; try done; intros _ _.
  - by rewrite (cmp_eq a b c E1), E2.
  - by rewrite (cmp_eq a b c E1), E2.
  - by rewrite <- (cmp_eq_r cmp b c a E2), E1.
  - by rewrite (cmp_lt a b c E1 E2).
Qed.

Lemma cmp_sorted l : StronglySorted (fun a b => cmp_le cmp a b = true) (sort_by (cmp_le cmp) l).
Proof. apply sort_by_sorted; [apply cmp_le_total|apply cmp_le_trans]. Qed.
End CmpSort.

(** [Vec::dedup]. *)
Fixpoint dedup {A} `{EqDecision A} (l : list A) : list A :=
  match l with
  | x :: (y :: _) as l' => if decide (x = y) then dedup l' else x :: dedup l'
  | _ => l
  end.

Lemma elem_of_dedup {A} `{EqDecision A} (l : list A) x : x ∈ dedup l <-> x ∈ l.
Proof.
  induction l as [|a [|b l] IH]; [done..|]. change (dedup (a :: b :: l)) with (if decide (a = b) then dedup (b :: l) else a :: dedup (b :: l)).
  destruct (decide (a = b)) as [->|]; [rewrite IH; set_solver|]. rewrite elem_of_cons, IH. set_solver.
Qed.

(** Sorted without repetition is strictly increasing, for a comparison that tells
    different elements apart. *)
Lemma dedup_sorted {A} `{EqDecision A} (cmp : A -> A -> comparison) `{CmpOrder A cmp} (l : list A) :
  (forall a b, cmp a b = Eq -> a = b) -> StronglySorted (fun a b => cmp_le cmp a b = true) l ->
  StronglySorted (fun a b => cmp a b = Lt) (dedup l).
Proof.
  intros Hcmp Hl. induction Hl as [|a l Hl IH Ha]; [constructor|]. destruct l as [|b l]; [by repeat constructor|].
  change (dedup (a :: b :: l)) with (if decide (a = b) then dedup (b :: l) else a :: dedup (b :: l)).
  destruct (decide (a = b)); [done|]. constructor; [done|]. apply Forall_forall. intros c Hc. rewrite elem_of_dedup in Hc.
  rewrite Forall_forall in Ha. assert (Hab : cmp a b = Lt).
  { specialize (Ha b ltac:(set_solver)). unfold cmp_le in Ha. destruct (cmp a b) eqn:E; [by apply Hcmp in E|done|done]. }
  apply elem_of_cons in Hc as [->|Hc]; [done|]. inversion Hl as [|? ? _ Hb]; subst. rewrite Forall_forall in Hb.
  specialize (Hb c Hc). unfold cmp_le in Hb. destruct (cmp b c) eqn:E; [|by eapply cmp_lt|done].
  by rewrite <- (cmp_eq_r cmp b c a E).
Qed.

(** ** Ordered maps *)

(** A [BTreeMap<G, Vec<K>>] as the sorted list of its entries, and
    [entry(g).or_insert_with(Vec::new).push(k)]. *)
Section BTree.
Context {G K : Type} (gcmp : G -> G -> comparison).

Fixpoint bt_push (g : G) (k : K) (m : list (G * list K)) : list (G * list K) :=
  match m with
  | [] => [(g, [k])]
  | (g', ks) :: m' =>
    match gcmp g g' with
    | Eq => (g', ks ++ [k]) :: m'
    | Lt => (g, [k]) :: m
    | Gt => (g', ks) :: bt_push g k m'
    end
  end.

Context `{CmpOrder G gcmp} (gcmp_eq : forall a b, gcmp a b = Eq -> a = b).
Local Notation bt_sorted := (StronglySorted (fun a b : G * list K => gcmp a.1 b.1 = Lt)).

Lemma bt_push_keys g k m x : x ∈ (bt_push g k m).*1 <-> x = g \/ x ∈ m.*1.
Proof.
  induction m as [|[g' ks] m IH]; cbn; [set_solver|]. destruct (gcmp g g') eqn:E; cbn; rewrite ?elem_of_cons; [|set_solver|].
  - apply gcmp_eq in E as ->. set_solver.
  - rewrite IH. set_solver.
Qed.

Lemma bt_push_sorted g k m : bt_sorted m -> bt_sorted (bt_push g k m).
Proof.
  induction 1 as [|[g' ks] m Hm IH Hg]; cbn; [by repeat constructor|]. destruct (gcmp g g') eqn:E.
  - constructor; [done|]. exact Hg.
  - constructor; [by constructor|]. constructor; [done|]. eapply Forall_impl; [exact Hg|]. cbn. intros x Hx. by eapply cmp_lt.
  - constructor; [done|]. apply Forall_forall. intros [x xs] Hx. cbn.
    assert (Hk : x ∈ (bt_push g k m).*1) by (apply list_elem_of_fmap; by exists (x, xs)).
    apply bt_push_keys in Hk as [->|Hk]; [rewrite (cmp_anti g g'), E; done|].
    apply list_elem_of_fmap in Hk as ([y ys] & -> & Hy). rewrite Forall_forall in Hg. by apply Hg in Hy.
Qed.

(** After a push the entry of [g] has [k] too, and nothing else changed. *)
Lemma bt_push_spec g k m x L :
  bt_sorted m ->
  (x, L) ∈ bt_push g k m <->
  (x = g /\ exists L0, (g, L0) ∈ m /\ L = L0 ++ [k]) \/ (x = g /\ g ∉ m.*1 /\ L = [k]) \/ (x <> g /\ (x, L) ∈ m).
Proof.
  induction 1 as [|[g' ks] m Hm IH Hg]; cbn; [set_solver|].
  assert (Hin : forall y Y, (y, Y) ∈ m -> gcmp g' y = Lt).
  { intros y Y Hy. rewrite Forall_forall in Hg. by apply (Hg (y, Y)). }
  assert (Hg' : forall Y, (g', Y) ∉ m) by (intros Y Hy; apply Hin in Hy; by rewrite cmp_refl in Hy).
  destruct (gcmp g g') eqn:E; rewrite !elem_of_cons.
  - apply gcmp_eq in E as <-. split.
    + intros [[= -> ->]|Hx]; [left; split; [done|]; exists ks; set_solver|]. right; right. split; [|set_solver]. intros ->. by apply (Hg' L).
    + intros [[-> (L0 & HL0 & ->)]|[[-> [Hn _]]|[Hne Hx]]].
      * apply elem_of_cons in HL0 as [[= ->]|HL0]; [by left|]. by apply Hg' in HL0.
      * set_solver.
      * destruct Hx as [[= -> _]|Hx]; [done|by right].
  - assert (Hn : forall Y, (g, Y) ∉ m).
    { intros Y Hy. apply Hin in Hy. pose proof (cmp_lt g g' g E Hy) as Hl. by rewrite cmp_refl in Hl. }
    assert (Hne : g <> g') by (intros ->; by rewrite cmp_refl in E). split.
    + intros [[= -> ->]|[[= -> ->]|Hx]].
      * right; left. split_and!; [done| |done]. intros [Hk|Hk]; [done|].
        apply list_elem_of_fmap in Hk as ([y Y] & Hyy & Hy). cbn in Hyy. subst y. by apply Hn in Hy.
      * right; right. split; [done|set_solver].
      * right; right. split; [|set_solver]. intros ->. by apply Hn in Hx.
    + intros [[-> (L0 & HL0 & ->)]|[[-> [_ ->]]|[_ Hx]]]; [|by left|right; set_solver].
      apply elem_of_cons in HL0 as [[= ? ->]|HL0]; [done|by apply Hn in HL0].
  - assert (Hne : g <> g') by (intros ->; by rewrite cmp_refl in E). rewrite IH. split.
    + intros [[= -> ->]|[[-> (L0 & HL0 & ->)]|[[-> [Hn ->]]|[Hx Hxm]]]].
      * right; right. split; [done|set_solver].
      * left. split; [done|]. exists L0. set_solver.
      * right; left. split_and!; [done| |done]. set_solver.
      * right; right. split; [done|set_solver].
    + intros [[-> (L0 & HL0 & ->)]|[[-> [Hn ->]]|[Hx Hxm]]].
      * apply elem_of_cons in HL0 as [[= ? ->]|HL0]; [done|]. right; left. eauto.
      * right; right; left. set_solver.
      * destruct Hxm as [[= -> ->]|Hxm]; [by left|]. right; right; right. done.
Qed.

Lemma bt_unique m g L L' : bt_sorted m -> (g, L) ∈ m -> (g, L') ∈ m -> L = L'.
Proof.
  induction 1 as [|[g' ks] m Hm IH Hg]; [set_solver|]. rewrite Forall_forall in Hg.
  intros [H1|H1]%elem_of_cons [H2|H2]%elem_of_cons; simplify_eq; try done; [| |by apply IH].
  - apply Hg in H2. cbn in H2. by rewrite cmp_refl in H2.
  - apply Hg in H1. cbn in H1. by rewrite cmp_refl in H1.
Qed.
End BTree.
