(* ===== verification/OtpHash.v ===== *)
(** * Hash functions of [nyaterm-otp]

    [src/crates/nyaterm-otp/src/alg/]: SHA-1, SHA-256 and SHA-512 as the crate
    implements them, with the message padding, the schedule array that is
    filled in place and the compression loop; the FIPS 180-4 functions they are
    meant to compute ([Fips]); and the proof of where the two agree. *)

From stdpp Require Import base list numbers strings.
From Stdlib Require Import ZArith Lia.
From S2P Require Import Prelude.

Local Open Scope Z_scope.

(** ** The code *)

(** [(len + block) & !(block - 1)], for a power of two [block]. *)
Definition pad_target (block : Z) (len : nat) : Z :=
  Z.land (Z.of_nat len + block) (Z.lnot (block - 1)).

Definition sha1_padded (input : bytes) : bytes :=
  let bit_len := uwrap 64 (Z.of_nat (length input) * 8) in
  let padded := input ++ [128] in
  let padded := vresize padded (Z.to_nat (pad_target 64 (length padded) - 8)) 0 in
  padded ++ be_bytes 8 bit_len.

Definition sha256_padded (input : bytes) : bytes :=
  let bit_len := uwrap 64 (Z.of_nat (length input) * 8) in
  let padded := input ++ [128] in
  let padded := vresize padded (Z.to_nat (pad_target 64 (length padded) - 8)) 0 in
  padded ++ be_bytes 8 bit_len.

Definition sha512_padded (input : bytes) : bytes :=
  let bit_len := uwrap 128 (Z.of_nat (length input) * 8) in
  let padded := input ++ [128] in
  let padded := vresize padded (Z.to_nat (pad_target 128 (length padded) - 16)) 0 in
  padded ++ be_bytes 16 bit_len.

(** [for i in 0..16 { words[i] = from_be_bytes(...) }] on words of [wb] bytes. *)
Definition prep_words (wb : nat) (chunk : bytes) (words : list Z) : list Z :=
  fold_left (fun words i =>
    <[i := of_be_bytes ((fun k => chunk !!! (i * wb + k)%nat) <$> seq 0 wb)]> words)
    (seq 0 16) words.

(** [for i in 16..rounds { words[i] = ... }]. *)
Definition extend_words (next : list Z -> nat -> Z) (rounds : nat) (words : list Z) : list Z :=
  fold_left (fun words i => <[i := next words i]> words) (seq 16 (rounds - 16)) words.

Module Sha1.

Definition next_word (words : list Z) (i : nat) : Z :=
  rotl 32 (Z.lxor (Z.lxor (Z.lxor (words !!! (i - 3)%nat) (words !!! (i - 8)%nat))
                     (words !!! (i - 14)%nat)) (words !!! (i - 16)%nat)) 1.

Definition schedule (chunk : bytes) : list Z :=
  extend_words next_word 80 (prep_words 4 chunk (replicate 80 0)).

Record regs := Regs { ra : Z; rb : Z; rc : Z; rd : Z; re : Z }.

Definition round_fk (i : nat) (b c d : Z) : Z * Z :=
  if (i <? 20)%nat then (Z.lor (Z.land b c) (Z.land (unot 32 b) d), 0x5A827999)
  else if (i <? 40)%nat then (Z.lxor (Z.lxor b c) d, 0x6ED9EBA1)
  else if (i <? 60)%nat then
    (Z.lor (Z.lor (Z.land b c) (Z.land b d)) (Z.land c d), 0x8F1BBCDC)
  else (Z.lxor (Z.lxor b c) d, 0xCA62C1D6).

Definition round (words : list Z) (s : regs) (i : nat) : regs :=
  let '(f, k) := round_fk i (rb s) (rc s) (rd s) in
  let temp := wadd 32 (wadd 32 (wadd 32 (wadd 32 (rotl 32 (ra s) 5) f) (re s)) k)
                (words !!! i) in
  Regs temp (ra s) (rotl 32 (rb s) 30) (rc s) (rd s).

Definition block (state : regs) (chunk : bytes) : regs :=
  let words := schedule chunk in
  let s := fold_left (round words) (seq 0 80) state in
  Regs (wadd 32 (ra state) (ra s)) (wadd 32 (rb state) (rb s)) (wadd 32 (rc state) (rc s))
       (wadd 32 (rd state) (rd s)) (wadd 32 (re state) (re s)).

Definition init : regs := Regs 0x67452301 0xEFCDAB89 0x98BADCFE 0x10325476 0xC3D2E1F0.

Definition digest (s : regs) : bytes :=
  be_bytes 4 (ra s) ++ be_bytes 4 (rb s) ++ be_bytes 4 (rc s) ++ be_bytes 4 (rd s)
  ++ be_bytes 4 (re s).

Definition sha1 (input : bytes) : bytes :=
  digest (fold_left block (chunks 64 (sha1_padded input)) init).

End Sha1.

(** The eight working variables of the SHA-2 functions. *)
Record regs8 := Regs8
  { r0 : Z; r1 : Z; r2 : Z; r3 : Z; r4 : Z; r5 : Z; r6 : Z; r7 : Z }.

Module Sha256.

Definition K : list Z :=
 [0x428A2F98; 0x71374491; 0xB5C0FBCF; 0xE9B5DBA5; 0x3956C25B; 0x59F111F1; 0x923F82A4;
  0xAB1C5ED5; 0xD807AA98; 0x12835B01; 0x243185BE; 0x550C7DC3; 0x72BE5D74; 0x80DEB1FE;
  0x9BDC06A7; 0xC19BF174; 0xE49B69C1; 0xEFBE4786; 0x0FC19DC6; 0x240CA1CC; 0x2DE92C6F;
  0x4A7484AA; 0x5CB0A9DC; 0x76F988DA; 0x983E5152; 0xA831C66D; 0xB00327C8; 0xBF597FC7;
  0xC6E00BF3; 0xD5A79147; 0x06CA6351; 0x14292967; 0x27B70A85; 0x2E1B2138; 0x4D2C6DFC;
  0x53380D13; 0x650A7354; 0x766A0ABB; 0x81C2C92E; 0x92722C85; 0xA2BFE8A1; 0xA81A664B;
  0xC24B8B70; 0xC76C51A3; 0xD192E819; 0xD6990624; 0xF40E3585; 0x106AA070; 0x19A4C116;
  0x1E376C08; 0x2748774C; 0x34B0BCB5; 0x391C0CB3; 0x4ED8AA4A; 0x5B9CCA4F; 0x682E6FF3;
  0x748F82EE; 0x78A5636F; 0x84C87814; 0x8CC70208; 0x90BEFFFA; 0xA4506CEB; 0xBEF9A3F7;
  0xC67178F2].

Definition next_word (words : list Z) (i : nat) : Z :=
  let w15 := words !!! (i - 15)%nat in
  let w2 := words !!! (i - 2)%nat in
  let s0 := Z.lxor (Z.lxor (rotr 32 w15 7) (rotr 32 w15 18)) (Z.shiftr w15 3) in
  let s1 := Z.lxor (Z.lxor (rotr 32 w2 17) (rotr 32 w2 19)) (Z.shiftr w2 10) in
  wadd 32 (wadd 32 (wadd 32 (words !!! (i - 16)%nat) s0) (words !!! (i - 7)%nat)) s1.

Definition schedule (chunk : bytes) : list Z :=
  extend_words next_word 64 (prep_words 4 chunk (replicate 64 0)).

Definition round (words : list Z) (s : regs8) (i : nat) : regs8 :=
  let '(Regs8 a b c d e f g h) := s in
  let s1 := Z.lxor (Z.lxor (rotr 32 e 6) (rotr 32 e 11)) (rotr 32 e 25) in
  let ch := Z.lxor (Z.land e f) (Z.land (unot 32 e) g) in
  let temp1 := wadd 32 (wadd 32 (wadd 32 (wadd 32 h s1) ch) (K !!! i)) (words !!! i) in
  let s0 := Z.lxor (Z.lxor (rotr 32 a 2) (rotr 32 a 13)) (rotr 32 a 22) in
  let maj := Z.lxor (Z.lxor (Z.land a b) (Z.land a c)) (Z.land b c) in
  let temp2 := wadd 32 s0 maj in
  Regs8 (wadd 32 temp1 temp2) a b c (wadd 32 d temp1) e f g.

Definition block (state : regs8) (chunk : bytes) : regs8 :=
  let words := schedule chunk in
  let s := fold_left (round words) (seq 0 64) state in
  Regs8 (wadd 32 (r0 state) (r0 s)) (wadd 32 (r1 state) (r1 s))
        (wadd 32 (r2 state) (r2 s)) (wadd 32 (r3 state) (r3 s))
        (wadd 32 (r4 state) (r4 s)) (wadd 32 (r5 state) (r5 s))
        (wadd 32 (r6 state) (r6 s)) (wadd 32 (r7 state) (r7 s)).

Definition init : regs8 :=
  Regs8 0x6a09e667 0xbb67ae85 0x3c6ef372 0xa54ff53a
        0x510e527f 0x9b05688c 0x1f83d9ab 0x5be0cd19.

Definition digest (s : regs8) : bytes :=
  be_bytes 4 (r0 s) ++ be_bytes 4 (r1 s) ++ be_bytes 4 (r2 s) ++ be_bytes 4 (r3 s)
  ++ be_bytes 4 (r4 s) ++ be_bytes 4 (r5 s) ++ be_bytes 4 (r6 s) ++ be_bytes 4 (r7 s).

Definition sha256 (input : bytes) : bytes :=
  digest (fold_left block (chunks 64 (sha256_padded input)) init).

End Sha256.

Module Sha512.

Definition K : list Z :=
 [0x428a2f98d728ae22; 0x7137449123ef65cd; 0xb5c0fbcfec4d3b2f; 0xe9b5dba58189dbbc;
  0x3956c25bf348b538; 0x59f111f1b605d019; 0x923f82a4af194f9b; 0xab1c5ed5da6d8118;
  0xd807aa98a3030242; 0x12835b0145706fbe; 0x243185be4ee4b28c; 0x550c7dc3d5ffb4e2;
  0x72be5d74f27b896f; 0x80deb1fe3b1696b1; 0x9bdc06a725c71235; 0xc19bf174cf692694;
  0xe49b69c19ef14ad2; 0xefbe4786384f25e3; 0x0fc19dc68b8cd5b5; 0x240ca1cc77ac9c65;
  0x2de92c6f592b0275; 0x4a7484aa6ea6e483; 0x5cb0a9dcbd41fbd4; 0x76f988da831153b5;
  0x983e5152ee66dfab; 0xa831c66d2db43210; 0xb00327c898fb213f; 0xbf597fc7beef0ee4;
  0xc6e00bf33da88fc2; 0xd5a79147930aa725; 0x06ca6351e003826f; 0x142929670a0e6e70;
  0x27b70a8546d22ffc; 0x2e1b21385c26c926; 0x4d2c6dfc5ac42aed; 0x53380d139d95b3df;
  0x650a73548baf63de; 0x766a0abb3c77b2a8; 0x81c2c92e47edaee6; 0x92722c851482353b;
  0xa2bfe8a14cf10364; 0xa81a664bbc423001; 0xc24b8b70d0f89791; 0xc76c51a30654be30;
  0xd192e819d6ef5218; 0xd69906245565a910; 0xf40e35855771202a; 0x106aa07032bbd1b8;
  0x19a4c116b8d2d0c8; 0x1e376c085141ab53; 0x2748774cdf8eeb99; 0x34b0bcb5e19b48a8;
  0x391c0cb3c5c95a63; 0x4ed8aa4ae3418acb; 0x5b9cca4f7763e373; 0x682e6ff3d6b2b8a3;
  0x748f82ee5defb2fc; 0x78a5636f43172f60; 0x84c87814a1f0ab72; 0x8cc702081a6439ec;
  0x90befffa23631e28; 0xa4506cebde82bde9; 0xbef9a3f7b2c67915; 0xc67178f2e372532b;
  0xca273eceea26619c; 0xd186b8c721c0c207; 0xeada7dd6cde0eb1e; 0xf57d4f7fee6ed178;
  0x06f067aa72176fba; 0x0a637dc5a2c898a6; 0x113f9804bef90dae; 0x1b710b35131c471b;
  0x28db77f523047d84; 0x32caab7b40c72493; 0x3c9ebe0a15c9bebc; 0x431d67c49c100d4c;
  0x4cc5d4becb3e42b6; 0x597f299cfc657e2a; 0x5fcb6fab3ad6faec; 0x6c44198c4a475817].

Definition next_word (words : list Z) (i : nat) : Z :=
  let w15 := words !!! (i - 15)%nat in
  let w2 := words !!! (i - 2)%nat in
  let s0 := Z.lxor (Z.lxor (rotr 64 w15 1) (rotr 64 w15 8)) (Z.shiftr w15 7) in
  let s1 := Z.lxor (Z.lxor (rotr 64 w2 19) (rotr 64 w2 61)) (Z.shiftr w2 6) in
  wadd 64 (wadd 64 (wadd 64 (words !!! (i - 16)%nat) s0) (words !!! (i - 7)%nat)) s1.

Definition schedule (chunk : bytes) : list Z :=
  extend_words next_word 80 (prep_words 8 chunk (replicate 80 0)).

Definition round (words : list Z) (s : regs8) (i : nat) : regs8 :=
  let '(Regs8 a b c d e f g h) := s in
  let s1 := Z.lxor (Z.lxor (rotr 64 e 14) (rotr 64 e 18)) (rotr 64 e 41) in
  let ch := Z.lxor (Z.land e f) (Z.land (unot 64 e) g) in
  let temp1 := wadd 64 (wadd 64 (wadd 64 (wadd 64 h s1) ch) (K !!! i)) (words !!! i) in
  let s0 := Z.lxor (Z.lxor (rotr 64 a 28) (rotr 64 a 34)) (rotr 64 a 39) in
  let maj := Z.lxor (Z.lxor (Z.land a b) (Z.land a c)) (Z.land b c) in
  let temp2 := wadd 64 s0 maj in
  Regs8 (wadd 64 temp1 temp2) a b c (wadd 64 d temp1) e f g.

Definition block (state : regs8) (chunk : bytes) : regs8 :=
  let words := schedule chunk in
  let s := fold_left (round words) (seq 0 80) state in
  Regs8 (wadd 64 (r0 state) (r0 s)) (wadd 64 (r1 state) (r1 s))
        (wadd 64 (r2 state) (r2 s)) (wadd 64 (r3 state) (r3 s))
        (wadd 64 (r4 state) (r4 s)) (wadd 64 (r5 state) (r5 s))
        (wadd 64 (r6 state) (r6 s)) (wadd 64 (r7 state) (r7 s)).

Definition init : regs8 :=
  Regs8 0x6a09e667f3bcc908 0xbb67ae8584caa73b 0x3c6ef372fe94f82b 0xa54ff53a5f1d36f1
        0x510e527fade682d1 0x9b05688c2b3e6c1f 0x1f83d9abfb41bd6b 0x5be0cd19137e2179.

Definition digest (s : regs8) : bytes :=
  be_bytes 8 (r0 s) ++ be_bytes 8 (r1 s) ++ be_bytes 8 (r2 s) ++ be_bytes 8 (r3 s)
  ++ be_bytes 8 (r4 s) ++ be_bytes 8 (r5 s) ++ be_bytes 8 (r6 s) ++ be_bytes 8 (r7 s).

Definition sha512 (input : bytes) : bytes :=
  digest (fold_left block (chunks 128 (sha512_padded input)) init).

End Sha512.

(** ** The standard the code implements *)

(** FIPS 180-4, written independently of the code: the constants from the roots of the
    primes that define them, minimal zero padding, the message schedule as a growing list
    whose next word depends on the words before it, a compression that consumes the
    schedule word by word, and the digest as the bytes of a list of words. *)
Module Fips.

(** *** Constants *)

Definition is_prime (n : nat) : bool := forallb (fun d => negb (n mod d =? 0)%nat) (seq 2 (n - 2)).

(** The first eighty primes. *)
Definition primes : list Z := Z.of_nat <$> List.filter is_prime (seq 2 408).

(** The integer cube root below [2^n], bit by bit from the top. *)
Fixpoint cbrt_from (n : nat) (acc x : Z) : Z :=
  match n with
  | O => acc
  | S n' =>
    let acc' := acc + 2 ^ Z.of_nat n' in
    cbrt_from n' (if acc' * acc' * acc' <=? x then acc' else acc) x
  end.

(** The first [w] bits of the fractional parts of the square and the cube root of [p];
    the roots of the eighty primes are below [2^5]. *)
Definition sqrt_bits (w p : Z) : Z := Z.sqrt (p * 2 ^ (2 * w)) mod 2 ^ w.
Definition cbrt_bits (w p : Z) : Z := cbrt_from (Z.to_nat (w + 5)) 0 (p * 2 ^ (3 * w)) mod 2 ^ w.

(** Section 4.1.1: thirty bits after the point of the roots of 2, 3, 5 and 10. *)
Definition sha1_K (t : nat) : Z :=
  Z.sqrt ((if (t <? 20)%nat then 2 else if (t <? 40)%nat then 3 else if (t <? 60)%nat then 5 else 10) * 2 ^ 60).

(** Section 5.3.1: the hexadecimal digits up and down, as little-endian words. *)
Definition le_word (l : bytes) : Z := foldr (fun b acc => b + 256 * acc) 0 l.
Definition sha1_H0 : list Z :=
  le_word <$> [[0x01; 0x23; 0x45; 0x67]; [0x89; 0xAB; 0xCD; 0xEF]; [0xFE; 0xDC; 0xBA; 0x98];
               [0x76; 0x54; 0x32; 0x10]; [0xF0; 0xE1; 0xD2; 0xC3]].

(** *** Words and blocks *)

(** The bytes of a word, most significant first, and of a list of words. *)
Definition word_bytes (wb : nat) (x : Z) : bytes :=
  (fun i => x / 256 ^ Z.of_nat (wb - 1 - i) mod 256) <$> seq 0 wb.
Definition digest (wb : nat) (H : list Z) : bytes := concat (word_bytes wb <$> H).

(** Section 5.1: one bit set, the fewest zero bytes that leave [lenb] bytes of
    the last block, and the bit length. *)
Definition pad (blk lenb : nat) (m : bytes) : bytes :=
  let k := Z.to_nat ((Z.of_nat blk - Z.of_nat lenb - 1 - Z.of_nat (length m)) mod Z.of_nat blk) in
  m ++ [128] ++ replicate k 0 ++ word_bytes lenb (8 * Z.of_nat (length m)).

(** Section 5.2: the sixteen words of a block. *)
Definition block_words (wb : nat) (chunk : bytes) : list Z :=
  (fun i => of_be_bytes (take wb (drop (i * wb) chunk))) <$> seq 0 16.

(** [n] further schedule words; [next w] is the word after the words [w]. *)
Fixpoint schedule (next : list Z -> Z) (n : nat) (w : list Z) : list Z :=
  match n with
  | O => w
  | S n' => let w' := schedule next n' w in w' ++ [next w']
  end.

(** The word [n] places before the next one. *)
Definition back (w : list Z) (n : nat) : Z := w !!! (length w - n)%nat.

Definition Ch (w x y z : Z) : Z := Z.lxor (Z.land x y) (Z.land (unot w x) z).
Definition Parity (x y z : Z) : Z := Z.lxor (Z.lxor x y) z.
Definition Maj (x y z : Z) : Z := Z.lxor (Z.lxor (Z.land x y) (Z.land x z)) (Z.land y z).

(** Section 6.1; the working variables are a list of five words. *)
Definition sha1_f (t : nat) (x y z : Z) : Z :=
  if (t <? 20)%nat then Ch 32 x y z
  else if (t <? 40)%nat then Parity x y z
  else if (t <? 60)%nat then Maj x y z
  else Parity x y z.

Definition sha1_next (w : list Z) : Z :=
  rotl 32 (Z.lxor (Z.lxor (Z.lxor (back w 3) (back w 8)) (back w 14)) (back w 16)) 1.

Definition sha1_round (s : list Z) (tw : nat * Z) : list Z :=
  match s with
  | [a; b; c; d; e] =>
    [wadd 32 (wadd 32 (wadd 32 (wadd 32 (rotl 32 a 5) (sha1_f tw.1 b c d)) e) (sha1_K tw.1)) tw.2;
     a; rotl 32 b 30; c; d]
  | _ => s
  end.

Definition sha1_block (h : list Z) (chunk : bytes) : list Z :=
  let W := schedule sha1_next 64 (block_words 4 chunk) in
  zip_with (wadd 32) h (fold_left sha1_round (zip (seq 0 80) W) h).

Definition sha1 (m : bytes) : bytes :=
  digest 4 (fold_left sha1_block (chunks 64 (pad 64 8 m)) sha1_H0).

(** Sections 6.2 and 6.4, which differ in the word size, the number of rounds and the
    rotation amounts of the four sigma functions. *)
Record sha2_params := Sha2Params
  { p_w : Z; p_wb : nat; p_rounds : nat;
    p_S0 : Z * Z * Z; p_S1 : Z * Z * Z; p_s0 : Z * Z * Z; p_s1 : Z * Z * Z }.

Definition p256 : sha2_params := Sha2Params 32 4 64 (2, 13, 22) (6, 11, 25) (7, 18, 3) (17, 19, 10).
Definition p512 : sha2_params := Sha2Params 64 8 80 (28, 34, 39) (14, 18, 41) (1, 8, 7) (19, 61, 6).

(** Sections 4.2.2, 4.2.3, 5.3.3 and 5.3.5: the bits of the cube roots of as many primes as
    there are rounds, and of the square roots of the first eight. *)
Definition sha2_K (p : sha2_params) : list Z := cbrt_bits (p_w p) <$> take (p_rounds p) primes.
Definition sha2_H0 (p : sha2_params) : list Z := sqrt_bits (p_w p) <$> take 8 primes.

Definition Sigma (w : Z) (r : Z * Z * Z) (x : Z) : Z :=
  Z.lxor (Z.lxor (rotr w x r.1.1) (rotr w x r.1.2)) (rotr w x r.2).
Definition sigma (w : Z) (r : Z * Z * Z) (x : Z) : Z :=
  Z.lxor (Z.lxor (rotr w x r.1.1) (rotr w x r.1.2)) (Z.shiftr x r.2).

Definition sha2_next (p : sha2_params) (W : list Z) : Z :=
  let w := p_w p in
  wadd w (wadd w (wadd w (back W 16) (sigma w (p_s0 p) (back W 15))) (back W 7))
    (sigma w (p_s1 p) (back W 2)).

Definition sha2_round (p : sha2_params) (K s : list Z) (tw : nat * Z) : list Z :=
  let w := p_w p in
  match s with
  | [a; b; c; d; e; f; g; h] =>
    let T1 := wadd w (wadd w (wadd w (wadd w h (Sigma w (p_S1 p) e)) (Ch w e f g))
                        (K !!! tw.1)) tw.2 in
    let T2 := wadd w (Sigma w (p_S0 p) a) (Maj a b c) in
    [wadd w T1 T2; a; b; c; wadd w d T1; e; f; g]
  | _ => s
  end.

Definition sha2_block (p : sha2_params) (K h : list Z) (chunk : bytes) : list Z :=
  let W := schedule (sha2_next p) (p_rounds p - 16) (block_words (p_wb p) chunk) in
  zip_with (wadd (p_w p)) h (fold_left (sha2_round p K) (zip (seq 0 (p_rounds p)) W) h).

(** Blocks are of sixteen words, and the length field of two. *)
Definition sha2 (p : sha2_params) (m : bytes) : bytes :=
  let wb := p_wb p in
  digest wb (fold_left (sha2_block p (sha2_K p)) (chunks (16 * wb) (pad (16 * wb) (2 * wb) m)) (sha2_H0 p)).

Definition sha256 : bytes -> bytes := sha2 p256.
Definition sha512 : bytes -> bytes := sha2 p512.

End Fips.

(** ** Loops that fill an array *)

Lemma fold_insert_seq (g : nat -> Z) (n k : nat) (ws : list Z) :
  (k + n <= length ws)%nat ->
  fold_left (fun ws i => <[i := g i]> ws) (seq k n) ws
  = take k ws ++ (g <$> seq k n) ++ drop (k + n) ws.
Proof.
  revert k ws. induction n as [|n IH]; intros k ws Hl.
  - simpl. by rewrite Nat.add_0_r, take_drop.
  - cbn [seq fold_left]. rewrite IH by (rewrite length_insert; lia).
    rewrite (take_S_r (<[k:=g k]> ws) k (g k)) by (apply list_lookup_insert_eq; lia).
    rewrite take_insert_ge by lia. rewrite drop_insert_lt by lia.
    rewrite <- (assoc_L (++)). by replace (S k + n)%nat with (k + S n)%nat by lia.
Qed.

Lemma sub_chunk (wb i : nat) (chunk : bytes) :
  (S i * wb <= length chunk)%nat ->
  (fun k => chunk !!! (i * wb + k)%nat) <$> seq 0 wb = take wb (drop (i * wb) chunk).
Proof.
  intros Hl. apply list_eq. intros k.
  destruct (decide (k < wb)%nat) as [Hk|Hk].
  - rewrite list_lookup_fmap, lookup_seq_lt by done. simpl.
    rewrite lookup_take_lt by done. rewrite lookup_drop.
    destruct (lookup_lt_is_Some_2 chunk (i * wb + k)) as [x Hx]; [lia|].
    by rewrite Hx, (list_lookup_total_correct _ _ _ Hx).
  - rewrite !lookup_ge_None_2; [done| |].
    + rewrite length_take. lia.
    + rewrite length_fmap, length_seq. lia.
Qed.

Lemma prep_words_spec (wb m : nat) (chunk : bytes) :
  (16 <= m)%nat -> length chunk = (16 * wb)%nat ->
  prep_words wb chunk (replicate m 0)
  = Fips.block_words wb chunk ++ replicate (m - 16) 0.
Proof.
  intros Hm Hl. unfold prep_words.
  rewrite fold_insert_seq by (rewrite length_replicate; lia).
  rewrite take_0, drop_replicate, (left_id_L [] (++)).
  unfold Fips.block_words. f_equal. apply list_fmap_ext. intros j i Hji.
  apply lookup_seq in Hji as [-> Hj]. rewrite sub_chunk; [done|nia].
Qed.

Lemma schedule_length next n w : length (Fips.schedule next n w) = (n + length w)%nat.
Proof. induction n as [|n IH]; simpl; [done|]. rewrite length_app, IH. simpl. lia. Qed.

Lemma extend_words_spec (next : list Z -> nat -> Z) (next' : list Z -> Z) n m w :
  (forall w z, (16 <= length w)%nat -> next (w ++ z) (length w) = next' w) ->
  length w = 16%nat -> (n <= m)%nat ->
  fold_left (fun words i => <[i := next words i]> words) (seq 16 n) (w ++ replicate m 0)
  = Fips.schedule next' n w ++ replicate (m - n) 0.
Proof.
  intros Hnext Hw. revert m. induction n as [|n IH]; intros m Hm.
  - simpl. by rewrite Nat.sub_0_r.
  - rewrite seq_S, fold_left_app, IH by lia. cbn [fold_left Fips.schedule].
    pose proof (schedule_length next' n w) as Hlen.
    set (w' := Fips.schedule next' n w) in *.
    replace (16 + n)%nat with (length w') by lia.
    rewrite Hnext by lia.
    rewrite insert_app_r_alt by lia. rewrite Nat.sub_diag.
    replace (m - n)%nat with (S (m - S n)) by lia. simpl.
    by rewrite <- (assoc_L (++)).
Qed.

Lemma fold_seq_lookup {S} (f : S -> nat * Z -> S) (ws : list Z) n s :
  length ws = n ->
  fold_left (fun s i => f s (i, ws !!! i)) (seq 0 n) s = fold_left f (zip (seq 0 n) ws) s.
Proof.
  intros Hl.
  assert (Hgen : forall k ws0 s, length ws = (k + length ws0)%nat -> drop k ws = ws0 ->
    fold_left (fun s i => f s (i, ws !!! i)) (seq k (length ws0)) s
    = fold_left f (zip (seq k (length ws0)) ws0) s).
  { intros k ws0. revert k. induction ws0 as [|x ws0 IH]; intros k s' Hk Hd; simpl; [done|].
    assert (ws !! k = Some x) as Hx.
    { rewrite <- (Nat.add_0_r k), <- lookup_drop, Hd. done. }
    rewrite (list_lookup_total_correct _ _ _ Hx). apply IH; [simpl in Hk; lia|].
    by rewrite (drop_S _ _ _ Hx) in Hd; injection Hd. }
  subst n. by apply (Hgen 0%nat ws).
Qed.

Lemma back_app w z n :
  (0 < n <= length w)%nat -> (w ++ z) !!! (length w - n)%nat = Fips.back w n.
Proof. intros ?. unfold Fips.back. apply lookup_total_app_l. lia. Qed.

Lemma be_word_bytes n x : be_bytes n x = Fips.word_bytes n x.
Proof.
  unfold Fips.word_bytes. induction n as [|n IH]; [done|]. cbn [be_bytes seq fmap list_fmap].
  replace (S n - 1 - 0)%nat with n by lia. f_equal.
  - rewrite Z.shiftr_div_pow2, Z.pow_mul_r by lia. done.
  - rewrite IH, <- seq_shift, <- list_fmap_compose. apply list_fmap_ext. intros j i _. cbn.
    by replace (n - 0 - S i)%nat with (n - 1 - i)%nat by lia.
Qed.

(** ** Padding *)

Lemma pad_target_val k len :
  0 <= k -> pad_target (2 ^ k) len = Z.of_nat len + 2 ^ k - (Z.of_nat len) mod 2 ^ k.
Proof.
  intros Hk. unfold pad_target.
  replace (2 ^ k - 1) with (Z.ones k) by (rewrite Z.ones_equiv; lia).
  rewrite <- Z.ldiff_land, Z.ldiff_ones_r by done.
  rewrite Z.shiftr_div_pow2, Z.shiftl_mul_pow2 by done.
  assert (0 < 2 ^ k) by (apply Z.pow_pos_nonneg; lia).
  replace (Z.of_nat len + 2 ^ k) with (Z.of_nat len + 1 * 2 ^ k) by ring.
  rewrite Z.div_add by lia. pose proof (Z.div_mod (Z.of_nat len) (2 ^ k)). nia.
Qed.

(** The lengths, modulo the block size, for which the code's padding leaves
    room for the end marker and the bit length. *)
Definition pad_room (blk lenb : nat) (len : nat) : Prop :=
  (len mod blk < blk - lenb)%nat \/ (len mod blk = blk - 1)%nat.

Lemma pad_code_spec (k : Z) (lenb : nat) (m : bytes) :
  0 < k -> (0 < lenb)%nat -> Z.of_nat lenb < 2 ^ k ->
  pad_room (Z.to_nat (2 ^ k)) lenb (length m) ->
  vresize (m ++ [128]) (Z.to_nat (pad_target (2 ^ k) (length (m ++ [128])) - Z.of_nat lenb)) 0
    ++ be_bytes lenb (uwrap (8 * Z.of_nat lenb) (Z.of_nat (length m) * 8))
  = Fips.pad (Z.to_nat (2 ^ k)) lenb m.
Proof.
  intros Hk Hl0 Hlenb Hroom. unfold Fips.pad. rewrite <- be_word_bytes, be_bytes_wrap by lia.
  rewrite (Z.mul_comm _ 8), length_app. simpl length. rewrite pad_target_val by lia.
  assert (HB : 0 < 2 ^ k) by (apply Z.pow_pos_nonneg; lia).
  unfold pad_room in Hroom. rewrite Z2Nat.id by lia.
  set (B := 2 ^ k) in *. set (n := Z.of_nat (length m)).
  assert (Hmod : Z.of_nat (length m mod Z.to_nat B) = n mod B).
  { unfold n. rewrite Nat2Z.inj_mod, Z2Nat.id by lia. done. }
  pose proof (Z.mod_pos_bound n B HB) as Hr.
  assert (Hn : Z.of_nat (length m + 1) = n + 1) by lia. rewrite Hn.
  assert (Hcase : (n mod B < B - Z.of_nat lenb /\ (n + 1) mod B = n mod B + 1
                   /\ (B - Z.of_nat lenb - 1 - n) mod B = B - Z.of_nat lenb - 1 - n mod B)
               \/ (n mod B = B - 1 /\ (n + 1) mod B = 0
                   /\ (B - Z.of_nat lenb - 1 - n) mod B = B - Z.of_nat lenb)).
  { pose proof (Z.div_mod n B) as Hdm. destruct Hroom as [Hr1|Hr1]; [left|right].
    - assert (n mod B < B - Z.of_nat lenb) by lia. split_and!; [done| |].
      + symmetry. apply (Z.mod_unique_pos _ _ (n / B)); lia.
      + symmetry. apply (Z.mod_unique_pos _ _ (- (n / B))); lia.
    - assert (n mod B = B - 1) by lia. split_and!; [done| |].
      + symmetry. apply (Z.mod_unique_pos _ _ (n / B + 1)); lia.
      + symmetry. apply (Z.mod_unique_pos _ _ (- (n / B) - 1)); lia. }
  rewrite vresize_grow by (rewrite length_app; simpl; lia).
  rewrite !length_app. simpl length. rewrite <- !(assoc_L (++)). do 3 f_equal.
  f_equal. lia.
Qed.

Lemma sha1_padded_spec m :
  pad_room 64 8 (length m) -> sha1_padded m = Fips.pad 64 8 m.
Proof. intros H. apply (pad_code_spec 6 8); [lia..|done]. Qed.

Lemma sha256_padded_spec m :
  pad_room 64 8 (length m) -> sha256_padded m = Fips.pad 64 8 m.
Proof. intros H. apply (pad_code_spec 6 8); [lia..|done]. Qed.

Lemma sha512_padded_spec m :
  pad_room 128 16 (length m) -> sha512_padded m = Fips.pad 128 16 m.
Proof. intros H. apply (pad_code_spec 7 16); [lia..|done]. Qed.

Lemma pad_length (blk lenb : nat) (m : bytes) :
  (0 < lenb < blk)%nat -> (length (Fips.pad blk lenb m) mod blk = 0)%nat.
Proof.
  intros Hl. unfold Fips.pad. rewrite <- be_word_bytes, !length_app, length_replicate, be_bytes_length.
  simpl length. set (n := length m).
  pose proof (Z.mod_pos_bound (Z.of_nat blk - Z.of_nat lenb - 1 - Z.of_nat n) (Z.of_nat blk)).
  pose proof (Z.div_mod (Z.of_nat blk - Z.of_nat lenb - 1 - Z.of_nat n) (Z.of_nat blk)).
  set (r := (_ mod _)%Z) in *. set (q := (_ / _)%Z) in *.
  apply Nat2Z.inj. rewrite Nat2Z.inj_mod. simpl.
  symmetry. apply (Z.mod_unique_pos _ _ (1 - q)); lia.
Qed.

(** ** Compression *)

Lemma block_words_length wb chunk : length (Fips.block_words wb chunk) = 16%nat.
Proof. done. Qed.

(** The in-place schedule loops build the recurrence of the standard. *)
Lemma schedule_code_spec next next' wb rounds chunk :
  (forall w z, (16 <= length w)%nat -> next (w ++ z) (length w) = next' w) ->
  (16 <= rounds)%nat -> length chunk = (16 * wb)%nat ->
  extend_words next rounds (prep_words wb chunk (replicate rounds 0))
  = Fips.schedule next' (rounds - 16) (Fips.block_words wb chunk).
Proof.
  intros Hnext Hr Hl. unfold extend_words.
  rewrite prep_words_spec, (extend_words_spec next next') by (done || lia).
  by rewrite Nat.sub_diag, app_nil_r.
Qed.

Lemma sha1_schedule_spec chunk :
  length chunk = 64%nat ->
  Sha1.schedule chunk = Fips.schedule Fips.sha1_next 64 (Fips.block_words 4 chunk).
Proof.
  intros Hl. unfold Sha1.schedule.
  rewrite (schedule_code_spec _ Fips.sha1_next); [done| |lia|done].
  intros w z Hw. unfold Sha1.next_word, Fips.sha1_next.
  by rewrite !back_app by lia.
Qed.

Lemma sha256_schedule_spec chunk :
  length chunk = 64%nat ->
  Sha256.schedule chunk
  = Fips.schedule (Fips.sha2_next Fips.p256) 48 (Fips.block_words 4 chunk).
Proof.
  intros Hl. unfold Sha256.schedule.
  rewrite (schedule_code_spec _ (Fips.sha2_next Fips.p256)); [done| |lia|done].
  intros w z Hw. unfold Sha256.next_word, Fips.sha2_next.
  by rewrite !back_app by lia.
Qed.

Lemma sha512_schedule_spec chunk :
  length chunk = 128%nat ->
  Sha512.schedule chunk
  = Fips.schedule (Fips.sha2_next Fips.p512) 64 (Fips.block_words 8 chunk).
Proof.
  intros Hl. unfold Sha512.schedule.
  rewrite (schedule_code_spec _ (Fips.sha2_next Fips.p512)); [done| |lia|done].
  intros w z Hw. unfold Sha512.next_word, Fips.sha2_next.
  by rewrite !back_app by lia.
Qed.

(** SHA-1 selects with [|] where the standard has [xor]; on 32-bit values the
    operands never overlap (choose) or overlap harmlessly (majority). *)
Lemma choose_or_xor w b c d :
  0 <= w -> urange w b ->
  Z.lor (Z.land b c) (Z.land (unot w b) d) = Fips.Ch w b c d.
Proof.
  intros Hw [Hb _]%urange_bits; [|done]. apply Z.bits_inj'. intros i Hi.
  unfold Fips.Ch, unot. rewrite Z.lor_spec, Z.lxor_spec, !Z.land_spec, Z.lxor_spec.
  destruct (decide (i < w)).
  - rewrite Z.ones_spec_low by lia.
    by destruct (Z.testbit b i), (Z.testbit c i), (Z.testbit d i).
  - by rewrite (Hb i), Z.ones_spec_high by lia.
Qed.

Lemma majority_or_xor b c d :
  Z.lor (Z.lor (Z.land b c) (Z.land b d)) (Z.land c d) = Fips.Maj b c d.
Proof.
  apply Z.bits_inj'. intros i Hi. unfold Fips.Maj.
  rewrite !Z.lor_spec, !Z.lxor_spec, !Z.land_spec.
  by destruct (Z.testbit b i), (Z.testbit c i), (Z.testbit d i).
Qed.

(** The constants of the code are the standard's. *)
Lemma sha1_consts :
  Fips.sha1_K 0 = 0x5A827999 /\ Fips.sha1_K 20 = 0x6ED9EBA1 /\ Fips.sha1_K 40 = 0x8F1BBCDC /\ Fips.sha1_K 60 = 0xCA62C1D6.
Proof. vm_compute. done. Qed.

Lemma sha256_consts : Fips.sha2_K Fips.p256 = Sha256.K.
Proof. vm_compute. reflexivity. Qed.

Lemma sha512_consts : Fips.sha2_K Fips.p512 = Sha512.K.
Proof. vm_compute. reflexivity. Qed.

Lemma round_fk_spec i b c d :
  urange 32 b -> Sha1.round_fk i b c d = (Fips.sha1_f i b c d, Fips.sha1_K i).
Proof.
  intros Hb. unfold Sha1.round_fk, Fips.sha1_f. destruct sha1_consts as (K0 & K1 & K2 & K3).
  rewrite choose_or_xor, majority_or_xor by (done || lia). rewrite <- K0, <- K1, <- K2, <- K3. unfold Fips.sha1_K.
  by destruct (i <? 20)%nat, (i <? 40)%nat, (i <? 60)%nat.
Qed.

(** The working variables [a] and [b] stay 32 bits wide: these are the ones
    the choose function negates. *)
Definition regs_ok (s : Sha1.regs) : Prop :=
  urange 32 (Sha1.ra s) /\ urange 32 (Sha1.rb s).

(** The registers of the code as the standard's list of words. *)
Definition words5 (s : Sha1.regs) : list Z := [Sha1.ra s; Sha1.rb s; Sha1.rc s; Sha1.rd s; Sha1.re s].
Definition words8 (s : regs8) : list Z := [r0 s; r1 s; r2 s; r3 s; r4 s; r5 s; r6 s; r7 s].

(** Two loops over the same list, the states of the first, of an invariant, seen through
    [view]. *)
Lemma fold_view {S T A} (ok : S -> Prop) (good : A -> Prop) (view : S -> T) (f : S -> A -> S) (g : T -> A -> T) l s :
  Forall good l -> ok s ->
  (forall s a, ok s -> good a -> view (f s a) = g (view s) a /\ ok (f s a)) ->
  view (fold_left f l s) = fold_left g l (view s).
Proof.
  intros Hl Hs Hfg. revert s Hs. induction Hl as [|a l Ha Hl IH]; intros s Hs; simpl; [done|].
  destruct (Hfg s a Hs Ha) as [<- Hok]. by apply IH.
Qed.

Lemma Forall_any {A} (l : list A) : Forall (fun _ => True) l.
Proof. by apply Forall_true. Qed.

Lemma sha1_round_spec words s i :
  regs_ok s ->
  words5 (Sha1.round words s i) = Fips.sha1_round (words5 s) (i, words !!! i) /\ regs_ok (Sha1.round words s i).
Proof.
  intros [Ha Hb]. destruct s as [a b c d e]. simpl in *.
  unfold Sha1.round. simpl. rewrite round_fk_spec by done. split; [done|].
  split; simpl; [by apply wadd_range|done].
Qed.

Lemma sha1_block_spec s chunk :
  regs_ok s -> length chunk = 64%nat ->
  words5 (Sha1.block s chunk) = Fips.sha1_block (words5 s) chunk /\ regs_ok (Sha1.block s chunk).
Proof.
  intros Hs Hl. unfold Sha1.block, Fips.sha1_block. rewrite sha1_schedule_spec by done.
  set (W := Fips.schedule _ _ _).
  assert (HW : length W = 80%nat) by (unfold W; by rewrite schedule_length).
  rewrite <- (fold_seq_lookup Fips.sha1_round W 80 _ HW).
  rewrite <- (fold_view regs_ok (fun _ => True) words5 (Sha1.round W)); [|apply Forall_any|done|intros; by apply sha1_round_spec].
  split; [done|]. split; cbn [Sha1.ra Sha1.rb]; apply wadd_range; lia.
Qed.

Lemma sha256_round_spec words s i :
  words8 (Sha256.round words s i) = Fips.sha2_round Fips.p256 Sha256.K (words8 s) (i, words !!! i).
Proof. by destruct s. Qed.

Lemma sha256_block_spec s chunk :
  length chunk = 64%nat -> words8 (Sha256.block s chunk) = Fips.sha2_block Fips.p256 Sha256.K (words8 s) chunk.
Proof.
  intros Hl. unfold Sha256.block, Fips.sha2_block. rewrite sha256_schedule_spec by done.
  cbn [Fips.p_rounds Fips.p_wb Fips.p_w Fips.p256]. change (64 - 16)%nat with 48%nat.
  set (W := Fips.schedule _ _ _).
  assert (HW : length W = 64%nat) by (unfold W; by rewrite schedule_length).
  rewrite <- (fold_seq_lookup (Fips.sha2_round Fips.p256 Sha256.K) W 64 _ HW).
  by rewrite <- (fold_view (fun _ => True) (fun _ => True) words8 (Sha256.round W)); [|apply Forall_any|..|intros; split; [apply sha256_round_spec|]].
Qed.

Lemma sha512_round_spec words s i :
  words8 (Sha512.round words s i) = Fips.sha2_round Fips.p512 Sha512.K (words8 s) (i, words !!! i).
Proof. by destruct s. Qed.

Lemma sha512_block_spec s chunk :
  length chunk = 128%nat -> words8 (Sha512.block s chunk) = Fips.sha2_block Fips.p512 Sha512.K (words8 s) chunk.
Proof.
  intros Hl. unfold Sha512.block, Fips.sha2_block. rewrite sha512_schedule_spec by done.
  cbn [Fips.p_rounds Fips.p_wb Fips.p_w Fips.p512]. change (80 - 16)%nat with 64%nat.
  set (W := Fips.schedule _ _ _).
  assert (HW : length W = 80%nat) by (unfold W; by rewrite schedule_length).
  rewrite <- (fold_seq_lookup (Fips.sha2_round Fips.p512 Sha512.K) W 80 _ HW).
  by rewrite <- (fold_view (fun _ => True) (fun _ => True) words8 (Sha512.round W)); [|apply Forall_any|..|intros; split; [apply sha512_round_spec|]].
Qed.

Lemma pad_chunks (blk lenb : nat) m : (0 < lenb < blk)%nat -> Forall (fun c => length c = blk) (chunks blk (Fips.pad blk lenb m)).
Proof. intros Hl. apply chunks_exact; [lia|]. by apply pad_length. Qed.

(** The digests of the code write the words one by one. *)
Lemma sha1_digest_spec s : Sha1.digest s = Fips.digest 4 (words5 s).
Proof. unfold Sha1.digest, Fips.digest, words5. cbn [fmap list_fmap concat]. by rewrite <- !be_word_bytes, app_nil_r. Qed.
Lemma sha256_digest_spec s : Sha256.digest s = Fips.digest 4 (words8 s).
Proof. unfold Sha256.digest, Fips.digest, words8. cbn [fmap list_fmap concat]. by rewrite <- !be_word_bytes, app_nil_r. Qed.
Lemma sha512_digest_spec s : Sha512.digest s = Fips.digest 8 (words8 s).
Proof. unfold Sha512.digest, Fips.digest, words8. cbn [fmap list_fmap concat]. by rewrite <- !be_word_bytes, app_nil_r. Qed.

Lemma sha1_spec m : pad_room 64 8 (length m) -> Sha1.sha1 m = Fips.sha1 m.
Proof.
  intros Hr. unfold Sha1.sha1, Fips.sha1. rewrite sha1_padded_spec, sha1_digest_spec by done. f_equal.
  change Fips.sha1_H0 with (words5 Sha1.init).
  apply (fold_view regs_ok (fun c => length c = 64%nat)); [by apply pad_chunks; lia|split; vm_compute; split; congruence|].
  intros. by apply sha1_block_spec.
Qed.

Lemma sha256_spec m : pad_room 64 8 (length m) -> Sha256.sha256 m = Fips.sha256 m.
Proof.
  intros Hr. unfold Sha256.sha256, Fips.sha256, Fips.sha2. rewrite sha256_padded_spec, sha256_digest_spec, sha256_consts by done.
  assert (Fips.sha2_H0 Fips.p256 = words8 Sha256.init) as -> by (vm_compute; reflexivity).
  cbn [Fips.p_wb Fips.p256]. f_equal. change (16 * 4)%nat with 64%nat. change (2 * 4)%nat with 8%nat.
  apply (fold_view (fun _ => True) (fun c => length c = 64%nat)); [by apply pad_chunks; lia|done|].
  intros. split; [by apply sha256_block_spec|done].
Qed.

Lemma sha512_spec m : pad_room 128 16 (length m) -> Sha512.sha512 m = Fips.sha512 m.
Proof.
  intros Hr. unfold Sha512.sha512, Fips.sha512, Fips.sha2. rewrite sha512_padded_spec, sha512_digest_spec, sha512_consts by done.
  assert (Fips.sha2_H0 Fips.p512 = words8 Sha512.init) as -> by (vm_compute; reflexivity).
  cbn [Fips.p_wb Fips.p512]. f_equal. change (16 * 8)%nat with 128%nat. change (2 * 8)%nat with 16%nat.
  apply (fold_view (fun _ => True) (fun c => length c = 128%nat)); [by apply pad_chunks; lia|done|].
  intros. split; [by apply sha512_block_spec|done].
Qed.

(** ** [Algorithm] *)

Inductive Algorithm := SHA1 | SHA256 | SHA512.

#[export] Instance Algorithm_eq_dec : EqDecision Algorithm.
Proof. solve_decision. Defined.

Definition hash_bytes (alg : Algorithm) (data : bytes) : bytes :=
  match alg with
  | SHA1 => Sha1.sha1 data
  | SHA256 => Sha256.sha256 data
  | SHA512 => Sha512.sha512 data
  end.

(** [impl Display for Algorithm]. *)
Definition alg_to_string (alg : Algorithm) : bytes :=
  match alg with
  | SHA1 => bs "SHA1"
  | SHA256 => bs "SHA256"
  | SHA512 => bs "SHA512"
  end.

(** The standard's function, its block size, the size of its length field and
    of its digest. *)
Definition fips_hash (alg : Algorithm) (data : bytes) : bytes :=
  match alg with
  | SHA1 => Fips.sha1 data
  | SHA256 => Fips.sha256 data
  | SHA512 => Fips.sha512 data
  end.
Definition alg_block (alg : Algorithm) : nat :=
  match alg with SHA1 | SHA256 => 64 | SHA512 => 128 end.
Definition alg_lenb (alg : Algorithm) : nat :=
  match alg with SHA1 | SHA256 => 8 | SHA512 => 16 end.
Definition alg_digest (alg : Algorithm) : nat :=
  match alg with SHA1 => 20 | SHA256 => 32 | SHA512 => 64 end.

(** The message lengths that the code hashes according to the standard. *)
Abbreviation hash_room alg len := (pad_room (alg_block alg) (alg_lenb alg) len).

#[export] Instance pad_room_dec blk lenb len : Decision (pad_room blk lenb len).
Proof. unfold pad_room. apply _. Defined.

Lemma hash_bytes_spec alg m : hash_room alg (length m) -> hash_bytes alg m = fips_hash alg m.
Proof. destruct alg; [apply sha1_spec|apply sha256_spec|apply sha512_spec]. Qed.

Lemma hash_bytes_length alg m : length (hash_bytes alg m) = alg_digest alg.
Proof.
  destruct alg; cbn [hash_bytes];
    [unfold Sha1.sha1, Sha1.digest|unfold Sha256.sha256, Sha256.digest
    |unfold Sha512.sha512, Sha512.digest];
    rewrite !length_app, !be_bytes_length; done.
Qed.

Lemma hash_bytes_ok alg m : bytes_ok (hash_bytes alg m).
Proof.
  destruct alg; cbn [hash_bytes];
    [unfold Sha1.sha1, Sha1.digest|unfold Sha256.sha256, Sha256.digest
    |unfold Sha512.sha512, Sha512.digest];
    rewrite !bytes_ok_app; split_and!; apply be_bytes_ok.
Qed.

(** *** Theorems *)

(** C39: the crate's SHA-1, SHA-256 and SHA-512 compute the FIPS 180-4
    functions on every message whose length, modulo the block size, leaves room
    for the end marker and the length field in the last block, or is one less
    than the block size. The standard's side ([Fips]) shares no constant, state or
    serialisation with the code: its tables are computed from the roots of primes. *)
Theorem hash_bytes_fips alg m :
  hash_room alg (length m) -> hash_bytes alg m = fips_hash alg m.
Proof. apply hash_bytes_spec. Qed.

Lemma hash_bytes_fips_witness :
  hash_bytes SHA256 (bs "abc") = fips_hash SHA256 (bs "abc").
Proof. apply (hash_bytes_fips SHA256 (bs "abc")). vm_compute. left. lia. Defined.

(** A digest always has the algorithm's length (20, 32 or 64 bytes)
    and consists of bytes, whatever the message. *)
Theorem hash_bytes_type alg m :
  length (hash_bytes alg m) = alg_digest alg /\ bytes_ok (hash_bytes alg m).
Proof. split; [apply hash_bytes_length|apply hash_bytes_ok]. Qed.

(** The padding when the message leaves no room: [resize] shortens the vector
    and drops the end marker with the tail of the message. *)
Lemma pad_code_truncates (k : Z) (lenb : nat) (m x : bytes) :
  0 < k -> (0 < lenb)%nat -> Z.of_nat lenb < 2 ^ k ->
  Z.of_nat (length m) mod 2 ^ k = 2 ^ k - Z.of_nat lenb -> (length x + 1 < lenb)%nat ->
  vresize ((m ++ x) ++ [128])
    (Z.to_nat (pad_target (2 ^ k) (length ((m ++ x) ++ [128])) - Z.of_nat lenb)) 0 = m.
Proof.
  intros Hk Hl0 Hlenb Hm Hx. rewrite pad_target_val by lia.
  assert (HB : 0 < 2 ^ k) by (apply Z.pow_pos_nonneg; lia).
  pose proof (Z.div_mod (Z.of_nat (length m)) (2 ^ k)) as Hdm.
  assert (Hmod : Z.of_nat (length ((m ++ x) ++ [128])) mod 2 ^ k
                 = 2 ^ k - Z.of_nat lenb + Z.of_nat (length x) + 1).
  { symmetry. rewrite !length_app. simpl length.
    apply (Z.mod_unique_pos _ _ (Z.of_nat (length m) / 2 ^ k)); lia. }
  rewrite Hmod.
  replace (Z.to_nat _) with (length m) by (rewrite !length_app; simpl length; lia).
  rewrite vresize_shrink by (rewrite !length_app; lia).
  rewrite <- (assoc_L (++)). apply take_app_length.
Qed.

(** When a message ends in the last [lenb] bytes of a block (short of
    the very last one), the padding loses the end marker and the bytes past that
    point: two messages of the same length that agree up to there have the
    same digest, so the functions are not collision resistant there. *)
Theorem hash_bytes_drops_tail alg m x y :
  (length m mod alg_block alg = alg_block alg - alg_lenb alg)%nat ->
  length x = length y -> (length x + 1 < alg_lenb alg)%nat ->
  hash_bytes alg (m ++ x) = hash_bytes alg (m ++ y).
Proof.
  intros Hm Hxy Hx.
  assert (Hz : Z.of_nat (length m) mod Z.of_nat (alg_block alg)
               = Z.of_nat (alg_block alg) - Z.of_nat (alg_lenb alg)).
  { rewrite <- Nat2Z.inj_mod, Hm. destruct alg; simpl; lia. }
  destruct alg; cbn [alg_block alg_lenb hash_bytes] in *.
  - unfold Sha1.sha1, sha1_padded.
    rewrite !(pad_code_truncates 6 8) by (exact Hz || lia).
    by rewrite !length_app, Hxy.
  - unfold Sha256.sha256, sha256_padded.
    rewrite !(pad_code_truncates 6 8) by (exact Hz || lia).
    by rewrite !length_app, Hxy.
  - unfold Sha512.sha512, sha512_padded.
    rewrite !(pad_code_truncates 7 16) by (exact Hz || lia).
    by rewrite !length_app, Hxy.
Qed.

Lemma hash_bytes_drops_tail_witness :
  hash_bytes SHA1 (replicate 56 97 ++ bs "pay 10") = hash_bytes SHA1 (replicate 56 97 ++ bs "pay 99")
  /\ fips_hash SHA1 (replicate 56 97 ++ bs "pay 10") <> fips_hash SHA1 (replicate 56 97 ++ bs "pay 99").
Proof.
  split.
  - apply (hash_bytes_drops_tail SHA1 (replicate 56 97) (bs "pay 10") (bs "pay 99"));
      vm_compute; lia.
  - vm_compute. congruence.
Defined.

(** The examples of the standard. *)
Example fips_abc :
  take 4 (fips_hash SHA1 (bs "abc")) = [0xa9; 0x99; 0x3e; 0x36]
  /\ take 4 (fips_hash SHA256 (bs "abc")) = [0xba; 0x78; 0x16; 0xbf]
  /\ take 4 (fips_hash SHA512 (bs "abc")) = [0xdd; 0xaf; 0x35; 0xa1].
Proof. vm_compute. done. Qed.

(** The vectors of the crate's documentation. *)
Example sha1_fox :
  Sha1.sha1 (bs "The quick brown fox jumps over the lazy dog")
  = [0x2f; 0xd4; 0xe1; 0xc6; 0x7a; 0x2d; 0x28; 0xfc; 0xed; 0x84; 0x9e; 0xe1; 0xbb; 0x76;
     0xe7; 0x39; 0x1b; 0x93; 0xeb; 0x12].
Proof. vm_compute. reflexivity. Qed.

Example fips_sha256_empty :
  Sha256.sha256 [] = fips_hash SHA256 [] /\ take 4 (Sha256.sha256 []) = [0xe3; 0xb0; 0xc4; 0x42].
Proof. vm_compute. split; reflexivity. Qed.

Example sha512_empty : take 4 (Sha512.sha512 []) = [0xcf; 0x83; 0xe1; 0x35].
Proof. vm_compute. reflexivity. Qed.
