(* ===== verification/OtpEncoding.v ===== *)
(** * Text encodings of [nyaterm-otp]

    [src/crates/nyaterm-otp/src/encoding/]: unpadded base32, hexadecimal and
    percent encoding, with their decoders and error values. *)

From stdpp Require Import base list numbers strings.
From Stdlib Require Import ZArith Lia.
From S2P Require Import Prelude RustStr.

Local Open Scope Z_scope.
Local Open Scope rust_scope.

(** ** The code *)

Module Base32.

Definition ALPHABET : bytes := bs "ABCDEFGHIJKLMNOPQRSTUVWXYZ234567".

(** The loop variables of [encode]: a 16-bit buffer, the number of bits still
    to emit and the characters emitted so far. *)
Record enc := Enc { e_buffer : Z; e_bits : Z; e_out : bytes }.

(** [while bits_left >= 5]. Every turn takes 5 bits, so [bits_left] is enough fuel. *)
Fixpoint drain5 (fuel : nat) (s : enc) : enc :=
  match fuel with
  | O => s
  | S fuel' =>
    if 5 <=? e_bits s then
      let index := Z.land (Z.shiftr (e_buffer s) (e_bits s - 5)) 31 in
      drain5 fuel' (Enc (e_buffer s) (e_bits s - 5) (e_out s ++ [ALPHABET !!! Z.to_nat index]))
    else s
  end.

Definition encode_byte (s : enc) (byte : Z) : enc :=
  let buffer := Z.lor (ushl 16 (e_buffer s) 8) byte in
  let bits_left := e_bits s + 8 in
  drain5 (Z.to_nat bits_left) (Enc buffer bits_left (e_out s)).

Definition encode (data : bytes) : bytes :=
  let s := fold_left encode_byte data (Enc 0 0 []) in
  if 0 <? e_bits s then
    let index := Z.land (ushl 16 (e_buffer s) (5 - e_bits s)) 31 in
    e_out s ++ [ALPHABET !!! Z.to_nat index]
  else e_out s.

Inductive DecodeBase32Error := InvalidChar (c : Z).

Definition char_value (b : Z) : option Z :=
  if between 65 90 b then Some (b - 65)
  else if between 97 122 b then Some (b - 97)
  else if between 50 55 b then Some (b - 50 + 26)
  else None.

Fixpoint decode_loop (data : bytes) (buffer bits_left : Z) (output : bytes)
  : result bytes DecodeBase32Error :=
  match data with
  | [] => Ok output
  | b :: data' =>
    match char_value b with
    | None => Err (InvalidChar b)
    | Some val =>
      let buffer := Z.lor (ushl 32 buffer 5) val in
      let bits_left := bits_left + 5 in
      if 8 <=? bits_left then
        decode_loop data' buffer (bits_left - 8)
          (output ++ [uwrap 8 (Z.shiftr buffer (bits_left - 8))])
      else decode_loop data' buffer bits_left output
    end
  end.

Definition decode (data : bytes) : result bytes DecodeBase32Error := decode_loop data 0 0 [].

End Base32.

Module Hex.

Definition HEX_BYTES : bytes := bs (
"000102030405060708090a0b0c0d0e0f101112131415161718191a1b1c1d1e1f" +:+
"202122232425262728292a2b2c2d2e2f303132333435363738393a3b3c3d3e3f" +:+
"404142434445464748494a4b4c4d4e4f505152535455565758595a5b5c5d5e5f" +:+
"606162636465666768696a6b6c6d6e6f707172737475767778797a7b7c7d7e7f" +:+
"808182838485868788898a8b8c8d8e8f909192939495969798999a9b9c9d9e9f" +:+
"a0a1a2a3a4a5a6a7a8a9aaabacadaeafb0b1b2b3b4b5b6b7b8b9babbbcbdbebf" +:+
"c0c1c2c3c4c5c6c7c8c9cacbcccdcecfd0d1d2d3d4d5d6d7d8d9dadbdcdddedf" +:+
"e0e1e2e3e4e5e6e7e8e9eaebecedeeeff0f1f2f3f4f5f6f7f8f9fafbfcfdfeff").

Definition encode (data : bytes) : bytes :=
  data ≫= fun b => let i := (2 * Z.to_nat b)%nat in take 2 (drop i HEX_BYTES).

Inductive DecodeHexError := InvalidLength | ParseInt.

(** [data.is_char_boundary(i)] for [i <= data.len()]. *)
Definition is_char_boundary (data : bytes) (i : nat) : bool :=
  match data !! i with Some b => negb (is_cont b) | None => true end.

(** The lazy [map(..).collect()] over [(0..data.len()).step_by(2)]: slicing inside
    a character panics, the first bad pair ends the iteration. *)
Fixpoint decode_pairs (data : bytes) (idx : list nat)
  : outcome (result bytes DecodeHexError) :=
  match idx with
  | [] => Ret (Ok [])
  | i :: idx' =>
    if is_char_boundary data i && is_char_boundary data (i + 2) then
      match parse_uint 8 16 (take 2 (drop i data)) with
      | None => Ret (Err ParseInt)
      | Some b =>
        r <-! decode_pairs data idx';
        Ret (rbind r (fun bs => Ok (b :: bs)))
      end
    else Panic
  end.

Definition decode (data : bytes) : outcome (result bytes DecodeHexError) :=
  if Z.land (Z.of_nat (length data)) 1 =? 0 then
    decode_pairs data ((fun k => (2 * k)%nat) <$> seq 0 (length data / 2))
  else Ret (Err InvalidLength).

End Hex.

Module Url.

Definition SAFE_CHARS : bytes :=
  bs "ABCDEFGHIJKLMNOPQRSTUVWXYZabcdefghijklmnopqrstuvwxyz0123456789-_.~".

(** [{:02X}] of one nibble. *)
Definition hex_upper (n : Z) : Z := if n <? 10 then 48 + n else 55 + n.

Definition encode (data : bytes) : bytes :=
  data ≫= fun b =>
    if bool_decide (b ∈ SAFE_CHARS) then [b]
    else [37; hex_upper (b / 16); hex_upper (b mod 16)].

Inductive DecodeUrlError :=
| InvalidHex (s : bytes)
| UnexpectedEnd
| InvalidUtf8.

(** The [while i < input.len()] loop, on the rest of the input. *)
Fixpoint decode_bytes (input : bytes) : result bytes DecodeUrlError :=
  match input with
  | [] => Ok []
  | b :: rest =>
    if b =? 37 then
      match rest with
      | h1 :: h2 :: rest' =>
        let hex_str := if utf8_valid [h1; h2] then [h1; h2] else [] in
        match parse_uint 8 16 hex_str with
        | Some byte => bytes <-? decode_bytes rest'; Ok (byte :: bytes)
        | None => Err (InvalidHex hex_str)
        end
      | _ => Err UnexpectedEnd
      end
    else bytes <-? decode_bytes rest; Ok (b :: bytes)
  end.

Definition decode (data : bytes) : result bytes DecodeUrlError :=
  bytes <-? decode_bytes data;
  if utf8_valid bytes then Ok bytes else Err InvalidUtf8.

End Url.

(** ** Base32 as a bit string *)

(** The low [n] bits of [x], most significant first. *)
Fixpoint bits_msb (n : nat) (x : Z) : list bool :=
  match n with
  | O => []
  | S n' => Z.testbit x (Z.of_nat n') :: bits_msb n' x
  end.

Lemma bits_msb_length n x : length (bits_msb n x) = n.
Proof. induction n; simpl; auto. Qed.

Lemma bits_msb_lookup n x (i : nat) :
  (i < n)%nat -> bits_msb n x !! i = Some (Z.testbit x (Z.of_nat (n - 1 - i))).
Proof.
  revert i. induction n as [|n IH]; intros i Hi; [lia|]. simpl bits_msb.
  destruct i as [|i]; simpl.
  - do 3 f_equal. lia.
  - rewrite IH by lia. do 3 f_equal. lia.
Qed.

(** Two numbers that agree on their low [n] bits have the same bit string. *)
Lemma bits_msb_ext n x y :
  (forall i, 0 <= i < Z.of_nat n -> Z.testbit x i = Z.testbit y i) ->
  bits_msb n x = bits_msb n y.
Proof.
  induction n as [|n IH]; intros H; simpl; [done|].
  rewrite H by lia. f_equal. apply IH. intros. apply H. lia.
Qed.

Lemma bits_msb_inj n x y :
  urange (Z.of_nat n) x -> urange (Z.of_nat n) y -> bits_msb n x = bits_msb n y -> x = y.
Proof.
  intros [Hx Hx0]%urange_bits [Hy Hy0]%urange_bits Heq; [|lia..].
  apply Z.bits_inj'. intros i Hi.
  destruct (decide (i < Z.of_nat n)) as [Hlt|]; [|by rewrite Hx, Hy by lia].
  pose proof (f_equal (fun l => l !! (n - 1 - Z.to_nat i)%nat) Heq) as Hi'. simpl in Hi'.
  rewrite !bits_msb_lookup in Hi' by lia. injection Hi' as Hi'.
  by replace (Z.of_nat (n - 1 - (n - 1 - Z.to_nat i))) with i in Hi' by lia.
Qed.

(** The first [n] of [n + m] bits are those of the shifted number. *)
Lemma bits_msb_split n m x :
  bits_msb (n + m) x = bits_msb n (Z.shiftr x (Z.of_nat m)) ++ bits_msb m x.
Proof.
  induction n as [|n IH]; simpl; [done|].
  rewrite IH, Z.shiftr_spec by lia. do 2 f_equal. lia.
Qed.

(** Shifting in [m] low bits appends them. *)
Lemma bits_msb_append w n m x y :
  Z.of_nat (n + m) <= w -> urange (Z.of_nat m) y ->
  bits_msb (n + m) (Z.lor (ushl w x (Z.of_nat m)) y) = bits_msb n x ++ bits_msb m y.
Proof.
  intros Hw [Hy _]%urange_bits; [|lia]. rewrite bits_msb_split. f_equal.
  - apply bits_msb_ext. intros i Hi. unfold ushl. rewrite uwrap_land by lia.
    rewrite Z.shiftr_spec, Z.lor_spec, Z.land_spec, Z.shiftl_spec by lia.
    rewrite Z.ones_spec_low, Hy by lia. rewrite orb_false_r, andb_true_r. f_equal. lia.
  - apply bits_msb_ext. intros i Hi. unfold ushl. rewrite uwrap_land by lia.
    rewrite Z.lor_spec, Z.land_spec, Z.shiftl_spec_low by lia. done.
Qed.

Lemma bits_msb_wrap w n x :
  Z.of_nat n <= w -> bits_msb n (uwrap w x) = bits_msb n x.
Proof.
  intros Hw. apply bits_msb_ext. intros i Hi.
  rewrite uwrap_land, Z.land_spec, Z.ones_spec_low by lia. apply andb_true_r.
Qed.

(** The bits of a string of [n]-bit values. *)
Definition bits_of (n : nat) (l : list Z) : list bool := l ≫= bits_msb n.

Lemma bits_of_app n l1 l2 : bits_of n (l1 ++ l2) = bits_of n l1 ++ bits_of n l2.
Proof. apply bind_app. Qed.

Lemma bits_of_cons n x l : bits_of n (x :: l) = bits_msb n x ++ bits_of n l.
Proof. done. Qed.

Lemma bits_of_single n x : bits_of n [x] = bits_msb n x.
Proof. apply app_nil_r. Qed.

Lemma bits_of_length n l : length (bits_of n l) = (n * length l)%nat.
Proof.
  induction l as [|x l IH]; [simpl; lia|].
  rewrite bits_of_cons, length_app, bits_msb_length, IH. simpl. lia.
Qed.

Lemma bits_of_inj n l1 l2 :
  (0 < n)%nat -> Forall (urange (Z.of_nat n)) l1 -> Forall (urange (Z.of_nat n)) l2 ->
  bits_of n l1 = bits_of n l2 -> l1 = l2.
Proof.
  intros Hn H1. revert l2. induction H1 as [|x l1 Hx H1 IH]; intros l2 H2 Heq.
  - destruct l2 as [|y l2]; [done|]. exfalso.
    apply (f_equal length) in Heq. rewrite !bits_of_length in Heq. simpl in Heq. lia.
  - destruct H2 as [|y l2 Hy H2].
    + apply (f_equal length) in Heq. rewrite !bits_of_length in Heq. simpl in Heq. lia.
    + rewrite !bits_of_cons in Heq. apply app_inj_1 in Heq as [Hb Hr].
      * f_equal; [by apply (bits_msb_inj n)|by apply IH].
      * by rewrite !bits_msb_length.
Qed.

(** The five-bit values of the characters an encoder emitted. *)
Definition chars_of (vals : list Z) (out : bytes) : Prop :=
  Forall (urange 5) vals /\ out = (fun v => Base32.ALPHABET !!! Z.to_nat v) <$> vals.

Lemma chars_of_snoc vals out v :
  chars_of vals out -> urange 5 v ->
  chars_of (vals ++ [v]) (out ++ [Base32.ALPHABET !!! Z.to_nat v]).
Proof.
  intros [Hv ->] H. split; [|by rewrite fmap_app].
  apply Forall_app. split; [done|]. by constructor.
Qed.

(** Encoder invariant: the bits [B] read so far are the emitted values followed
    by the [e_bits] low bits of the buffer. *)
Definition enc_inv (B : list bool) (s : Base32.enc) : Prop :=
  exists vals, chars_of vals (Base32.e_out s) /\ 0 <= Base32.e_bits s /\
    B = bits_of 5 vals ++ bits_msb (Z.to_nat (Base32.e_bits s)) (Base32.e_buffer s).

Lemma drain5_inv fuel B s :
  enc_inv B s -> Base32.e_bits s < 5 + Z.of_nat fuel ->
  enc_inv B (Base32.drain5 fuel s) /\ Base32.e_bits (Base32.drain5 fuel s) < 5.
Proof.
  revert s. induction fuel as [|fuel IH]; intros s Hinv Hf; [split; [done|simpl; lia]|].
  simpl. destruct (5 <=? Base32.e_bits s) eqn:E; bool_hyps; [|done].
  apply IH; [|simpl; lia]. destruct Hinv as (vals & Hc & H0 & ->).
  set (v := Z.land _ 31). exists (vals ++ [v]).
  assert (Hv : v = uwrap 5 (Z.shiftr (Base32.e_buffer s) (Base32.e_bits s - 5)))
    by (rewrite uwrap_land by lia; done).
  split_and!; cbn [Base32.e_bits Base32.e_out Base32.e_buffer]; [|lia|].
  - apply chars_of_snoc; [done|]. rewrite Hv. by apply uwrap_range.
  - rewrite bits_of_app, <- (assoc_L (++)). f_equal.
    rewrite bits_of_single, Hv, bits_msb_wrap by lia.
    replace (Z.to_nat (Base32.e_bits s)) with (5 + Z.to_nat (Base32.e_bits s - 5))%nat by lia.
    rewrite bits_msb_split, Z2Nat.id by lia. done.
Qed.

Lemma encode_byte_inv B s b :
  byte_ok b -> enc_inv B s -> Base32.e_bits s < 5 ->
  enc_inv (B ++ bits_msb 8 b) (Base32.encode_byte s b)
  /\ Base32.e_bits (Base32.encode_byte s b) < 5.
Proof.
  intros Hb (vals & Hc & H0 & ->) H5. unfold Base32.encode_byte.
  apply drain5_inv; [|simpl; lia].
  exists vals. split_and!; cbn [Base32.e_bits Base32.e_out Base32.e_buffer]; [done|lia|].
  rewrite <- (assoc_L (++)). f_equal.
  replace (Z.to_nat (Base32.e_bits s + 8)) with (Z.to_nat (Base32.e_bits s) + 8)%nat by lia.
  symmetry. apply (bits_msb_append 16 _ 8); [lia|done].
Qed.

Lemma encode_fold_inv data B s :
  bytes_ok data -> enc_inv B s -> Base32.e_bits s < 5 ->
  enc_inv (B ++ bits_of 8 data) (fold_left Base32.encode_byte data s)
  /\ Base32.e_bits (fold_left Base32.encode_byte data s) < 5.
Proof.
  intros Hd. revert B s. induction Hd as [|b data Hb Hd IH]; intros B s Hi H5; simpl.
  - by rewrite app_nil_r.
  - destruct (encode_byte_inv B s b Hb Hi H5) as [Hi' H5'].
    specialize (IH _ _ Hi' H5'). by rewrite <- (assoc_L (++)) in IH.
Qed.

(** What [encode] writes: the alphabet characters of the data's bits cut into
    groups of five, the last one filled with fewer than five zero bits. *)
Lemma base32_encode_bits data :
  bytes_ok data ->
  exists vals p, (p < 5)%nat /\ chars_of vals (Base32.encode data)
    /\ bits_of 5 vals = bits_of 8 data ++ replicate p false.
Proof.
  intros Hd.
  destruct (encode_fold_inv data [] (Base32.Enc 0 0 []) Hd) as [(vals & Hc & H0 & HB) H5].
  { exists []. split_and!; [by split|done|done]. }
  { simpl. lia. }
  unfold Base32.encode. set (s := fold_left _ _ _) in *. simpl app in HB.
  destruct (0 <? Base32.e_bits s) eqn:E; bool_hyps.
  - set (v := Z.land _ 31).
    assert (Hv : v = uwrap 5 (ushl 16 (Base32.e_buffer s) (5 - Base32.e_bits s)))
      by (rewrite uwrap_land by lia; done).
    exists (vals ++ [v]), (Z.to_nat (5 - Base32.e_bits s)). split_and!; [lia| |].
    + apply chars_of_snoc; [done|]. rewrite Hv. by apply uwrap_range.
    + rewrite bits_of_app, HB, <- (assoc_L (++)). f_equal.
      rewrite bits_of_single, Hv, bits_msb_wrap by lia.
      replace (bits_msb 5 _) with
        (bits_msb (Z.to_nat (Base32.e_bits s) + Z.to_nat (5 - Base32.e_bits s))
           (Z.lor (ushl 16 (Base32.e_buffer s) (Z.of_nat (Z.to_nat (5 - Base32.e_bits s)))) 0)).
      * rewrite bits_msb_append; [|lia|unfold urange; lia]. f_equal.
        generalize (Z.to_nat (5 - Base32.e_bits s)) as q.
        induction q as [|q IHq]; simpl; [done|]. by rewrite Z.bits_0, IHq.
      * rewrite Z.lor_0_r, Z2Nat.id by lia. f_equal. lia.
  - exists vals, O. split_and!; [lia|done|].
    replace (Z.to_nat (Base32.e_bits s)) with O in HB by lia.
    simpl in HB. rewrite app_nil_r in HB. by rewrite app_nil_r.
Qed.

Lemma char_value_range b v : Base32.char_value b = Some v -> urange 5 v.
Proof.
  unfold Base32.char_value, between, urange. intros H.
  repeat case_match; bool_hyps; simplify_eq; lia.
Qed.

(** Decoder invariant: the bits read are the bytes written followed by fewer
    than eight pending bits, the low bits of the buffer. *)
Lemma decode_loop_spec data vals buffer bits_left out :
  Forall2 (fun b v => Base32.char_value b = Some v) data vals ->
  bytes_ok out -> 0 <= bits_left < 8 ->
  exists out' q, Base32.decode_loop data buffer bits_left out = Ok out'
    /\ bytes_ok out' /\ (length q < 8)%nat
    /\ (bits_of 8 out ++ bits_msb (Z.to_nat bits_left) buffer) ++ bits_of 5 vals
       = bits_of 8 out' ++ q.
Proof.
  intros Hd. revert buffer bits_left out.
  induction Hd as [|b v data vals Hb Hd IH]; intros buffer bits_left out Hout Hbits.
  - exists out, (bits_msb (Z.to_nat bits_left) buffer). split_and!; [done|done| |].
    + rewrite bits_msb_length. lia.
    + simpl. by rewrite app_nil_r.
  - cbn [Base32.decode_loop]. rewrite Hb.
    pose proof (char_value_range _ _ Hb) as Hv.
    set (buf := Z.lor (ushl 32 buffer 5) v).
    assert (Hbuf : bits_msb (Z.to_nat bits_left) buffer ++ bits_msb 5 v
                   = bits_msb (Z.to_nat (bits_left + 5)) buf).
    { replace (Z.to_nat (bits_left + 5)) with (Z.to_nat bits_left + 5)%nat by lia.
      symmetry. apply (bits_msb_append 32 _ 5); [lia|done]. }
    rewrite bits_of_cons, <- (assoc_L (++)), (assoc_L (++) (bits_msb _ buffer)), Hbuf.
    destruct (8 <=? bits_left + 5) eqn:E; bool_hyps.
    + set (o := uwrap 8 (Z.shiftr buf (bits_left + 5 - 8))).
      destruct (IH buf (bits_left + 5 - 8) (out ++ [o])) as (out' & q & Hl & Hok & Hq & Heq).
      { apply bytes_ok_app. split; [done|]. constructor; [|done]. by apply (uwrap_range 8). }
      { lia. }
      exists out', q. split_and!; [done..|]. rewrite <- Heq.
      rewrite bits_of_app, bits_of_single. unfold o. rewrite bits_msb_wrap by lia.
      replace (Z.to_nat (bits_left + 5)) with (8 + Z.to_nat (bits_left + 5 - 8))%nat by lia.
      rewrite bits_msb_split, Z2Nat.id by lia. by rewrite !(assoc_L (++)).
    + destruct (IH buf (bits_left + 5) out Hout) as (out' & q & Hl & Hok & Hq & Heq); [lia|].
      exists out', q. split_and!; [done..|]. rewrite <- Heq. by rewrite (assoc_L (++)).
Qed.

Lemma alphabet_value v :
  urange 5 v -> Base32.char_value (Base32.ALPHABET !!! Z.to_nat v) = Some v.
Proof.
  intros Hv.
  assert (Hall : Forall (fun n => Base32.char_value (Base32.ALPHABET !!! n) = Some (Z.of_nat n))
                   (seq 0 32)) by (vm_compute; repeat constructor).
  rewrite Forall_forall in Hall. unfold urange in Hv.
  rewrite <- (Z2Nat.id v) at 2 by lia. apply Hall. apply elem_of_seq. lia.
Qed.

Lemma alphabet_safe v :
  urange 5 v -> Base32.ALPHABET !!! Z.to_nat v ∈ Url.SAFE_CHARS.
Proof.
  intros Hv.
  assert (Hall : forallb (fun n => bool_decide (Base32.ALPHABET !!! n ∈ Url.SAFE_CHARS))
                   (seq 0 32) = true) by (vm_compute; reflexivity).
  rewrite forallb_forall in Hall. unfold urange in Hv.
  assert (Hin : In (Z.to_nat v) (seq 0 32)) by (apply in_seq; lia).
  apply Hall in Hin. by apply bool_decide_eq_true in Hin.
Qed.

Lemma base32_roundtrip data : bytes_ok data -> Base32.decode (Base32.encode data) = Ok data.
Proof.
  intros Hd. destruct (base32_encode_bits data Hd) as (vals & p & Hp & [Hv Hout] & Hbits).
  destruct (decode_loop_spec (Base32.encode data) vals 0 0 []) as (out' & q & Hl & Hok & Hq & Heq).
  { rewrite Hout. apply Forall2_fmap_l, Forall_Forall2_diag.
    eapply Forall_impl; [done|]. intros v Hv'. by apply alphabet_value. }
  { constructor. }
  { lia. }
  unfold Base32.decode. rewrite Hl. f_equal. simpl app in Heq. rewrite Hbits in Heq.
  pose proof (f_equal length Heq) as Hlen.
  rewrite !length_app, !bits_of_length, length_replicate in Hlen.
  apply app_inj_1 in Heq as [Heq _]; [|rewrite !bits_of_length; lia].
  symmetry. by apply (bits_of_inj 8); [lia|..].
Qed.

(** An encoded string only uses characters that percent encoding keeps. *)
Lemma base32_encode_safe data :
  bytes_ok data -> Forall (fun b => b ∈ Url.SAFE_CHARS) (Base32.encode data).
Proof.
  intros Hd. destruct (base32_encode_bits data Hd) as (vals & p & _ & [Hv ->] & _).
  apply Forall_fmap. eapply Forall_impl; [done|]. intros v Hv'. by apply alphabet_safe.
Qed.

(** *** Theorems *)

(** Base32 decoding inverts encoding on every byte string. *)
Theorem base32_decode_encode data :
  bytes_ok data -> Base32.decode (Base32.encode data) = Ok data.
Proof. apply base32_roundtrip. Qed.

Lemma base32_decode_encode_witness :
  Base32.encode (bs "Hello, world!") = bs "JBSWY3DPFQQHO33SNRSCC"
  /\ Base32.decode (Base32.encode (bs "Hello, world!")) = Ok (bs "Hello, world!").
Proof.
  split; [vm_compute; reflexivity|]. apply base32_decode_encode.
  apply Forall_forall. vm_compute. intros x Hx.
  repeat (apply elem_of_cons in Hx as [->|Hx]; [split; congruence|]).
  by apply not_elem_of_nil in Hx.
Defined.

(** Encoding writes RFC 4648 base32 without padding: the characters are
    the alphabet's for the data's bits, most significant first, cut into groups of
    five, with fewer than five zero bits completing the last group. *)
Theorem base32_encode_rfc4648 data :
  bytes_ok data ->
  exists vals p, (p < 5)%nat /\ Forall (urange 5) vals
    /\ Base32.encode data = (fun v => Base32.ALPHABET !!! Z.to_nat v) <$> vals
    /\ bits_of 5 vals = bits_of 8 data ++ replicate p false.
Proof.
  intros Hd. destruct (base32_encode_bits data Hd) as (vals & p & Hp & [Hv Ho] & Hb). eauto 10.
Qed.

Lemma base32_encode_rfc4648_witness :
  exists vals p, (p < 5)%nat /\ Forall (urange 5) vals
    /\ Base32.encode [255; 0; 170] = (fun v => Base32.ALPHABET !!! Z.to_nat v) <$> vals
    /\ bits_of 5 vals = bits_of 8 [255; 0; 170] ++ replicate p false.
Proof.
  apply (base32_encode_rfc4648 [255; 0; 170]). repeat constructor; unfold byte_ok; lia.
Defined.

(** Decoding accepts exactly the strings over the alphabet, in either
    letter case, and yields the whole bytes of their five-bit values, dropping the
    remaining bits; otherwise it reports the first character outside it. *)
Theorem base32_decode_outcome s :
  (Forall (fun b => Base32.char_value b <> None) s ->
    exists out, Base32.decode s = Ok out /\ bytes_ok out /\ length out = (5 * length s / 8)%nat)
  /\ (forall pre c post, s = pre ++ c :: post ->
        Forall (fun b => Base32.char_value b <> None) pre -> Base32.char_value c = None ->
        Base32.decode s = Err (Base32.InvalidChar c)).
Proof.
  split.
  - intros Hs.
    assert (exists vals, Forall2 (fun b v => Base32.char_value b = Some v) s vals) as [vals Hv].
    { induction Hs as [|b s Hb Hs [vals IH]]; [by exists []|].
      destruct (Base32.char_value b) as [v|] eqn:E; [|done]. exists (v :: vals). by constructor. }
    destruct (decode_loop_spec s vals 0 0 [] Hv) as (out & q & Hl & Hok & Hq & Heq);
      [constructor|lia|].
    exists out. split_and!; [done|done|]. simpl app in Heq.
    apply (f_equal length) in Heq. rewrite !length_app, !bits_of_length in Heq.
    rewrite (Forall2_length _ _ _ Hv).
    apply (Nat.div_unique _ 8 _ (length q)); lia.
  - intros pre c post -> Hpre Hc. unfold Base32.decode.
    assert (Hgen : forall buffer bits_left out,
      Base32.decode_loop (pre ++ c :: post) buffer bits_left out = Err (Base32.InvalidChar c)).
    { induction Hpre as [|b pre Hb Hpre IH]; intros buffer bits_left out; simpl.
      - by rewrite Hc.
      - destruct (Base32.char_value b); [|done]. case_match; apply IH. }
    apply Hgen.
Qed.

Lemma base32_decode_outcome_witness :
  (exists out, Base32.decode (bs "jbSWY3DP") = Ok out /\ bytes_ok out /\ length out = 5%nat)
  /\ Base32.decode (bs "JB=Q") = Err (Base32.InvalidChar 61).
Proof.
  split.
  - apply (proj1 (base32_decode_outcome (bs "jbSWY3DP"))). by_decide.
  - apply (proj2 (base32_decode_outcome (bs "JB=Q")) (bs "JB") 61 (bs "Q")); [done| |done].
    by_decide.
Defined.

(** ** Hexadecimal *)

Definition hex_lower (n : Z) : Z := if n <? 10 then 48 + n else 87 + n.

Lemma hex_table b :
  byte_ok b -> take 2 (drop (2 * Z.to_nat b) Hex.HEX_BYTES) = [hex_lower (b / 16); hex_lower (b mod 16)].
Proof.
  intros Hb. apply (bool_decide_eq_true_1 (_ = _)). revert b Hb.
  apply (byte_exhaust (fun b => bool_decide (take 2 (drop (2 * Z.to_nat b) Hex.HEX_BYTES)
    = [hex_lower (b / 16); hex_lower (b mod 16)]))). vm_compute. reflexivity.
Qed.

Lemma hex_encode_spec data :
  bytes_ok data -> Hex.encode data = data ≫= fun b => [hex_lower (b / 16); hex_lower (b mod 16)].
Proof.
  induction 1 as [|b data Hb Hd IH]; [done|]. unfold Hex.encode in *.
  rewrite !bind_cons, hex_table by done. by rewrite IH.
Qed.

Lemma hex_pair_parse b :
  byte_ok b -> parse_uint 8 16 [hex_lower (b / 16); hex_lower (b mod 16)] = Some b.
Proof.
  intros Hb. apply (bool_decide_eq_true_1 (_ = _)). revert b Hb.
  apply (byte_exhaust (fun b => bool_decide (parse_uint 8 16 [hex_lower (b / 16); hex_lower (b mod 16)] = Some b))).
  vm_compute. reflexivity.
Qed.

Lemma hex_lower_ascii b :
  byte_ok b -> (is_cont (hex_lower (b / 16)) || is_cont (hex_lower (b mod 16))) = false.
Proof.
  intros Hb. apply negb_true_iff. revert b Hb.
  apply (byte_exhaust (fun b => negb (is_cont (hex_lower (b / 16)) || is_cont (hex_lower (b mod 16))))).
  vm_compute. reflexivity.
Qed.

(** A string without continuation bytes can be cut anywhere. *)
Lemma char_boundary_all data i :
  Forall (fun b => is_cont b = false) data -> Hex.is_char_boundary data i = true.
Proof.
  intros Hd. unfold Hex.is_char_boundary. destruct (data !! i) as [b|] eqn:E; [|done].
  rewrite Forall_lookup in Hd. by rewrite (Hd _ _ E).
Qed.

Lemma hex_encode_no_cont data :
  bytes_ok data -> Forall (fun b => is_cont b = false) (Hex.encode data).
Proof.
  intros Hd. rewrite hex_encode_spec by done.
  induction Hd as [|b data Hb Hd IH]; [constructor|]. rewrite bind_cons.
  apply Forall_app. split; [|done]. pose proof (hex_lower_ascii b Hb) as H.
  apply orb_false_iff in H as [? ?]. by repeat constructor.
Qed.

Lemma hex_decode_pairs data pre :
  bytes_ok data -> Forall (fun b => is_cont b = false) pre ->
  forall k, length pre = (2 * k)%nat ->
  Hex.decode_pairs (pre ++ Hex.encode data) ((fun k => (2 * k)%nat) <$> seq k (length data))
  = Ret (Ok data).
Proof.
  intros Hd. revert pre. induction Hd as [|b data Hb Hd IH]; intros pre Hpre k Hk; [done|].
  assert (Henc : Hex.encode (b :: data)
                 = [hex_lower (b / 16); hex_lower (b mod 16)] ++ Hex.encode data).
  { unfold Hex.encode. by rewrite bind_cons, hex_table. }
  assert (Hall : Forall (fun b => is_cont b = false) (pre ++ Hex.encode (b :: data))).
  { apply Forall_app. split; [done|]. apply hex_encode_no_cont. by constructor. }
  cbn [length seq]. rewrite fmap_cons. cbn [Hex.decode_pairs].
  rewrite !char_boundary_all by done. cbn [andb].
  rewrite drop_app_length' by done. rewrite Henc. cbn [app take].
  rewrite hex_pair_parse by done.
  assert (Hb2 : Forall (fun b => is_cont b = false)
                  (pre ++ [hex_lower (b / 16); hex_lower (b mod 16)])).
  { rewrite Henc in Hall. rewrite (assoc_L (++)) in Hall. by apply Forall_app in Hall as [? _]. }
  replace (pre ++ hex_lower (b / 16) :: hex_lower (b mod 16) :: Hex.encode data)
    with ((pre ++ [hex_lower (b / 16); hex_lower (b mod 16)]) ++ Hex.encode data)
    by (by rewrite <- (assoc_L (++))).
  rewrite (IH _ Hb2 (S k)); [done|]. rewrite length_app. simpl. lia.
Qed.

Lemma hex_encode_length data : bytes_ok data -> length (Hex.encode data) = (2 * length data)%nat.
Proof.
  intros Hd. rewrite hex_encode_spec by done. clear Hd.
  induction data as [|b data IH]; [done|]. rewrite bind_cons, length_app, IH. simpl. lia.
Qed.

(** The table-driven hexadecimal encoder writes two lowercase digits per
    byte, and decoding its output gives the bytes back without panicking. *)
Theorem hex_decode_encode data :
  bytes_ok data ->
  Hex.encode data = (data ≫= fun b => [hex_lower (b / 16); hex_lower (b mod 16)])
  /\ Hex.decode (Hex.encode data) = Ret (Ok data).
Proof.
  intros Hd. split; [by apply hex_encode_spec|].
  unfold Hex.decode. rewrite hex_encode_length by done.
  replace (Z.land (Z.of_nat (2 * length data)) 1) with 0.
  2:{ change 1 with (Z.ones 1). rewrite Z.land_ones by lia.
      rewrite Nat2Z.inj_mul. change (2 ^ 1) with 2. rewrite Z.mul_comm, Z.mod_mul; lia. }
  cbn [Z.eqb]. rewrite (Nat.mul_comm 2), Nat.div_mul by lia.
  by apply (hex_decode_pairs data []).
Qed.

Lemma hex_decode_encode_witness :
  Hex.encode [9; 10; 11; 12] = bs "090a0b0c"
  /\ Hex.decode (Hex.encode [9; 10; 11; 12]) = Ret (Ok [9; 10; 11; 12]).
Proof.
  split; [vm_compute; reflexivity|]. apply (hex_decode_encode [9; 10; 11; 12]). by_decide.
Defined.

(** Slicing at odd offsets of multi-byte characters: a valid [&str] of even
    length on which the decoder panics instead of returning an error. *)
Example hex_decode_panics :
  utf8_valid [97; 195; 169; 98] = true /\ Hex.decode [97; 195; 169; 98] = Panic.
Proof. vm_compute. split; reflexivity. Qed.

(** ** Percent encoding *)

Lemma hex_upper_parse b :
  byte_ok b ->
  utf8_valid [Url.hex_upper (b / 16); Url.hex_upper (b mod 16)] = true
  /\ parse_uint 8 16 [Url.hex_upper (b / 16); Url.hex_upper (b mod 16)] = Some b.
Proof.
  intros Hb. apply (bool_decide_eq_true_1 (_ /\ _)). revert b Hb.
  apply (byte_exhaust (fun b => bool_decide
    (utf8_valid [Url.hex_upper (b / 16); Url.hex_upper (b mod 16)] = true
     /\ parse_uint 8 16 [Url.hex_upper (b / 16); Url.hex_upper (b mod 16)] = Some b))).
  vm_compute. reflexivity.
Qed.

Lemma url_encode_cons b data :
  Url.encode (b :: data)
  = (if bool_decide (b ∈ Url.SAFE_CHARS) then [b]
     else [37; Url.hex_upper (b / 16); Url.hex_upper (b mod 16)]) ++ Url.encode data.
Proof. done. Qed.

Lemma url_decode_bytes_encode data :
  bytes_ok data -> Url.decode_bytes (Url.encode data) = Ok data.
Proof.
  induction 1 as [|b data Hb Hd IH]; [done|]. rewrite url_encode_cons.
  case_bool_decide as Hs; cbn [app Url.decode_bytes].
  - destruct (b =? 37) eqn:E; [|by rewrite IH]. bool_hyps. subst. exfalso.
    revert Hs. apply (bool_decide_eq_false_1 _). vm_compute. reflexivity.
  - rewrite Z.eqb_refl. destruct (hex_upper_parse b Hb) as [-> ->]. by rewrite IH.
Qed.

(** The characters percent encoding can produce: no separator of a query. *)
Definition url_char (b : Z) : bool :=
  (b =? 37) || bool_decide (b ∈ Url.SAFE_CHARS).

Lemma url_encode_chars data :
  bytes_ok data -> Forall (fun b => url_char b = true) (Url.encode data).
Proof.
  induction 1 as [|b data Hb Hd IH]; [constructor|]. rewrite url_encode_cons.
  apply Forall_app. split; [|done]. case_bool_decide as Hs.
  - constructor; [|done]. unfold url_char. rewrite bool_decide_eq_true_2 by done. apply orb_true_r.
  - assert (Hh : url_char (Url.hex_upper (b / 16)) && url_char (Url.hex_upper (b mod 16)) = true).
    { revert b Hb Hs. intros b Hb _. revert b Hb.
      apply (byte_exhaust (fun b => url_char (Url.hex_upper (b / 16)) && url_char (Url.hex_upper (b mod 16)))).
      vm_compute. reflexivity. }
    bool_hyps. by repeat constructor.
Qed.

Lemma url_char_ne (c : Z) b : url_char c = false -> url_char b = true -> b <> c.
Proof. congruence. Qed.

Lemma url_decode_encode_valid data :
  bytes_ok data -> utf8_valid data = true -> Url.decode (Url.encode data) = Ok data.
Proof. intros Hd Hu. unfold Url.decode. rewrite url_decode_bytes_encode by done. simpl. by rewrite Hu. Qed.

(** Percent decoding inverts percent encoding on every UTF-8 string, and
    the encoded text contains none of the separators of an [otpauth] URI. *)
Theorem url_decode_encode data :
  bytes_ok data -> utf8_valid data = true ->
  Url.decode (Url.encode data) = Ok data
  /\ Forall (fun b => b <> 58 /\ b <> 63 /\ b <> 38 /\ b <> 61) (Url.encode data).
Proof.
  intros Hd Hu. split; [by apply url_decode_encode_valid|].
  eapply Forall_impl; [by apply url_encode_chars|].
  intros b Hb. split_and!; eapply url_char_ne; (done || (vm_compute; reflexivity)).
Qed.

Lemma url_decode_encode_witness :
  Url.encode (bs "hello@example.com") = bs "hello%40example.com"
  /\ Url.decode (Url.encode [195; 169; 38]) = Ok [195; 169; 38].
Proof.
  split; [vm_compute; reflexivity|]. apply (url_decode_encode [195; 169; 38]); by_decide.
Defined.

(** [from_str_radix] accepts a sign, so "%+A" decodes to a line feed. *)
Example url_decode_accepts_sign : Url.decode (bs "a%+Ab") = Ok [97; 10; 98].
Proof. vm_compute. reflexivity. Qed.
