(* ===== verification/Otp.v ===== *)
(** * HMAC, HOTP and TOTP

    [src/crates/nyaterm-otp/src/hmac.rs], [secret.rs], [hotp.rs] and [totp.rs]:
    one-time password generation and verification, and the [otpauth] key URI
    printer and parser. The reference functions are RFC 2104, RFC 4226 and
    RFC 6238 over the FIPS 180-4 hashes. *)

From stdpp Require Import base list numbers strings.
From Stdlib Require Import ZArith Lia.
From S2P Require Import Prelude RustStr OtpHash OtpEncoding.

Local Open Scope Z_scope.
Local Open Scope rust_scope.

(** ** HMAC *)

Definition HMAC_INNER_PAD : Z := 0x36.
Definition HMAC_OUTER_PAD : Z := 0x5c.

Definition hmac (alg : Algorithm) (key message : bytes) : bytes :=
  let block_size := match alg with SHA1 | SHA256 => 64%nat | SHA512 => 128%nat end in
  let key_block := replicate block_size 0 in
  let key_block :=
    if (block_size <? length key)%nat then
      let hashed := hash_bytes alg key in hashed ++ drop (length hashed) key_block
    else key ++ drop (length key) key_block in
  let inner_key_pad := (fun b => Z.lxor b HMAC_INNER_PAD) <$> key_block in
  let outer_key_pad := (fun b => Z.lxor b HMAC_OUTER_PAD) <$> key_block in
  let inner_hash := hash_bytes alg (inner_key_pad ++ message) in
  hash_bytes alg (outer_key_pad ++ inner_hash).

(** [Algorithm::hash_hex]. *)
Definition hash_hex (alg : Algorithm) (data : bytes) : bytes := Hex.encode (hash_bytes alg data).

(** RFC 2104 over a hash [H] with block size [B]. *)
Definition rfc2104 (H : bytes -> bytes) (B : nat) (K text : bytes) : bytes :=
  let K' := if (length K <=? B)%nat then K else H K in
  let K0 := K' ++ replicate (B - length K') 0 in
  H ((Z.lxor 0x5c <$> K0) ++ H ((Z.lxor 0x36 <$> K0) ++ text)).

Lemma hmac_key_room alg n :
  hash_room alg (alg_block alg + n) <-> hash_room alg n.
Proof.
  unfold pad_room. rewrite Nat.add_comm.
  replace ((n + alg_block alg) mod alg_block alg)%nat with (n mod alg_block alg)%nat; [done|].
  rewrite <- (Nat.mul_1_l (alg_block alg)) at 2. symmetry. apply Nat.Div0.mod_add.
Qed.

Lemma hmac_spec alg key message :
  (length key <= alg_block alg)%nat \/ hash_room alg (length key) ->
  hash_room alg (length message) ->
  hmac alg key message = rfc2104 (fips_hash alg) (alg_block alg) key message.
Proof.
  intros Hkey Hmsg. unfold hmac, rfc2104.
  change (match alg with SHA1 | SHA256 => 64%nat | SHA512 => 128%nat end) with (alg_block alg).
  set (K' := if (length key <=? alg_block alg)%nat then key else fips_hash alg key).
  assert (HK : (if (alg_block alg <? length key)%nat
                then hash_bytes alg key ++ drop (length (hash_bytes alg key)) (replicate (alg_block alg) 0)
                else key ++ drop (length key) (replicate (alg_block alg) 0))
               = K' ++ replicate (alg_block alg - length K') 0
            /\ (length K' <= alg_block alg)%nat).
  { unfold K'. destruct (alg_block alg <? length key)%nat eqn:E; bool_hyps.
    - rewrite (proj2 (Nat.leb_gt _ _)) by lia. destruct Hkey as [?|Hr]; [lia|].
      rewrite <- (hash_bytes_spec alg key Hr). split; [by rewrite drop_replicate|].
      rewrite hash_bytes_length. destruct alg; simpl; lia.
    - rewrite (proj2 (Nat.leb_le _ _)) by lia. split; [by rewrite drop_replicate|lia]. }
  destruct HK as [-> HK]. set (K0 := K' ++ _).
  assert (HK0 : length K0 = alg_block alg)
    by (unfold K0; rewrite length_app, length_replicate; lia).
  assert (Hx : forall c, (fun b => Z.lxor b c) <$> K0 = Z.lxor c <$> K0).
  { intros c. apply list_fmap_ext. intros. apply Z.lxor_comm. }
  rewrite !Hx. rewrite (hash_bytes_spec alg (_ ++ message)).
  - apply hash_bytes_spec. rewrite length_app, length_fmap, HK0, hmac_key_room.
    rewrite <- (hash_bytes_spec alg), hash_bytes_length.
    + destruct alg; left; simpl; lia.
    + by rewrite length_app, length_fmap, HK0, hmac_key_room.
  - by rewrite length_app, length_fmap, HK0, hmac_key_room.
Qed.

(** [hmac] is the HMAC of RFC 2104 over the FIPS hash, for keys of at
    most one block (or of a length the hash handles) and messages of a length the
    hash handles. *)
Theorem hmac_rfc2104 alg key message :
  (length key <= alg_block alg)%nat \/ hash_room alg (length key) ->
  hash_room alg (length message) ->
  hmac alg key message = rfc2104 (fips_hash alg) (alg_block alg) key message.
Proof. apply hmac_spec. Qed.

(** RFC 2202, test case 2. *)
Lemma hmac_rfc2104_witness :
  Hex.encode (hmac SHA1 (bs "Jefe") (bs "what do ya want for nothing?"))
    = bs "effcdf6ae5eb2fa2d27416d5f184df9c259a7c79"
  /\ hmac SHA1 (bs "Jefe") (bs "what do ya want for nothing?")
     = rfc2104 (fips_hash SHA1) 64 (bs "Jefe") (bs "what do ya want for nothing?").
Proof.
  split; [vm_compute; reflexivity|].
  apply (hmac_rfc2104 SHA1); [left; vm_compute; lia|left; vm_compute; lia].
Defined.

(** ** HOTP *)

(** [Secret] is a newtype over its bytes. *)
Definition Secret := bytes.
Definition secret_from_base32 (s : bytes) : result Secret Base32.DecodeBase32Error := Base32.decode s.
Definition secret_into_base32 (s : Secret) : bytes := Base32.encode s.
Definition secret_into_hex (s : Secret) : bytes := Hex.encode s.

Record Hotp := mkHotp
  { alg : Algorithm; issuer : bytes; label : bytes; digits : Z; counter : Z; secret : Secret }.

Definition hotp_default : Hotp := mkHotp SHA1 [] [] 6 0 [].

(** [10_u32.pow(n)]: panics on overflow in a build with overflow checks. *)
Definition pow10_u32 (oc : bool) (n : Z) : outcome Z :=
  if 10 ^ n <? 2 ^ 32 then Ret (10 ^ n) else if oc then Panic else Ret (uwrap 32 (10 ^ n)).

(** [a % b]: panics when [b] is 0, in every build. *)
Definition rem_u32 (a b : Z) : outcome Z := if b =? 0 then Panic else Ret (a mod b).

(** Indexing a vector: panics out of bounds. *)
Definition index (l : bytes) (i : nat) : outcome Z :=
  match l !! i with Some b => Ret b | None => Panic end.

Definition hotp_generate_at (oc : bool) (self : Hotp) (counter : Z) : outcome Z :=
  let message := be_bytes 8 counter in
  let hmac_result := hmac (alg self) (secret self) message in
  b_last <-! index hmac_result (length hmac_result - 1);
  let offset := Z.to_nat (Z.land b_last 15) in
  b0 <-! index hmac_result offset;
  b1 <-! index hmac_result (offset + 1);
  b2 <-! index hmac_result (offset + 2);
  b3 <-! index hmac_result (offset + 3);
  let code := Z.lor (Z.lor (Z.lor (Z.shiftl (Z.land b0 127) 24) (Z.shiftl b1 16))
                       (Z.shiftl b2 8)) b3 in
  m <-! pow10_u32 oc (digits self);
  rem_u32 code m.

Definition hotp_generate (oc : bool) (self : Hotp) : outcome (Z * Hotp) :=
  otp <-! hotp_generate_at oc self (counter self);
  c <-! add_oc oc 64 (counter self) 1;
  Ret (otp, mkHotp (alg self) (issuer self) (label self) (digits self) c (secret self)).

(** [for i in 1..=window]; [n] iterations are left, [i] is the next index. *)
Fixpoint verify_from (oc : bool) (self : Hotp) (otp counter : Z) (n : nat) (i : Z) : outcome bool :=
  match n with
  | O => Ret false
  | S n' =>
    before <-! (if i <=? counter then
                  g <-! hotp_generate_at oc self (counter - i); Ret (g =? otp)
                else Ret false);
    if (before : bool) then Ret true else
    c <-! add_oc oc 64 counter i;
    g <-! hotp_generate_at oc self c;
    if g =? otp then Ret true else verify_from oc self otp counter n' (i + 1)
  end.

Definition hotp_verify (oc : bool) (self : Hotp) (otp counter window : Z) : outcome bool :=
  g <-! hotp_generate_at oc self counter;
  if g =? otp then Ret true else verify_from oc self otp counter (Z.to_nat window) 1.

(** ** TOTP *)

Record Totp := mkTotp { period : Z; hotp : Hotp }.

Definition totp_default : Totp := mkTotp 30 hotp_default.

Definition totp_new (a : Algorithm) (iss lab : bytes) (dig per : Z) (sec : Secret) : Totp :=
  mkTotp per (mkHotp a iss lab dig 0 sec).

(** [timestamp_secs / self.period]: panics when the period is 0. *)
Definition div_u64 (a b : Z) : outcome Z := if b =? 0 then Panic else Ret (a / b).

Definition totp_generate_at (oc : bool) (self : Totp) (timestamp_secs : Z) : outcome Z :=
  c <-! div_u64 timestamp_secs (period self);
  hotp_generate_at oc (hotp self) c.

(** The clock is an input: [None] when it reads before the Unix epoch. *)
Definition totp_generate (oc : bool) (now : option Z) (self : Totp) : outcome Z :=
  match now with Some secs => totp_generate_at oc self secs | None => Panic end.

Definition totp_verify (oc : bool) (self : Totp) (otp timestamp_secs window : Z) : outcome bool :=
  c <-! div_u64 timestamp_secs (period self);
  hotp_verify oc (hotp self) otp c window.

(** ** Reference: RFC 4226 and RFC 6238 *)

(** Dynamic truncation, section 5.3: the 31 low bits of the big-endian word at
    the offset named by the low nibble of the last byte. *)
Definition dynamic_truncate (hs : bytes) : Z :=
  let o := Z.to_nat (List.last hs 0 mod 16) in
  of_be_bytes (take 4 (drop o hs)) mod 2 ^ 31.

Definition rfc4226 (alg : Algorithm) (K : bytes) (C dig : Z) : Z :=
  dynamic_truncate (rfc2104 (fips_hash alg) (alg_block alg) K (be_bytes 8 C)) mod 10 ^ dig.

Definition rfc6238 (alg : Algorithm) (K : bytes) (T X dig : Z) : Z := rfc4226 alg K (T / X) dig.

(** Keys the implementation handles per the standard. *)
Definition key_room (alg : Algorithm) (key : bytes) : Prop :=
  (length key <= alg_block alg)%nat \/ hash_room alg (length key).

(** ** One-time passwords meet the RFCs *)

Lemma lor_shiftl_add x y n : 0 <= n -> 0 <= x -> urange n y -> Z.lor (Z.shiftl x n) y = x * 2 ^ n + y.
Proof.
  intros Hn Hx Hy.
  assert (Hd : Z.land (Z.shiftl x n) y = 0).
  { apply urange_bits in Hy as [Hy _]; [|done]. apply Z.bits_inj'. intros i Hi.
    rewrite Z.land_spec, Z.bits_0. destruct (decide (i < n)).
    - by rewrite Z.shiftl_spec_low.
    - rewrite Hy by lia. apply andb_false_r. }
  rewrite <- Z.shiftl_mul_pow2 by done.
  by rewrite Z.add_nocarry_lxor, Z.lxor_lor by done.
Qed.

(** The shifts and masks of the code assemble the truncated word. *)
Lemma truncation_word b0 b1 b2 b3 :
  byte_ok b0 -> byte_ok b1 -> byte_ok b2 -> byte_ok b3 ->
  Z.lor (Z.lor (Z.lor (Z.shiftl (Z.land b0 127) 24) (Z.shiftl b1 16)) (Z.shiftl b2 8)) b3
  = of_be_bytes [b0; b1; b2; b3] mod 2 ^ 31.
Proof.
  unfold byte_ok. intros H0 H1 H2 H3.
  change 127 with (Z.ones 7). rewrite Z.land_ones by lia.
  pose proof (Z.mod_pos_bound b0 (2 ^ 7)). pose proof (Z.div_mod b0 (2 ^ 7)).
  rewrite <- !Z.lor_assoc.
  assert (E3 : Z.lor (Z.shiftl b2 8) b3 = b2 * 2 ^ 8 + b3)
    by (apply lor_shiftl_add; unfold urange; lia).
  rewrite E3.
  assert (E2 : Z.lor (Z.shiftl b1 16) (b2 * 2 ^ 8 + b3) = b1 * 2 ^ 16 + (b2 * 2 ^ 8 + b3))
    by (apply lor_shiftl_add; unfold urange; lia).
  rewrite E2.
  rewrite lor_shiftl_add by (unfold urange; lia).
  unfold of_be_bytes. simpl fold_left.
  apply (Z.mod_unique_pos _ _ (b0 / 2 ^ 7)); [lia|]. ring_simplify. lia.
Qed.

Lemma hmac_length alg key m : length (hmac alg key m) = alg_digest alg.
Proof. apply hash_bytes_length. Qed.

Lemma hmac_ok alg key m : bytes_ok (hmac alg key m).
Proof. apply hash_bytes_ok. Qed.

Lemma index_Ret l i : (i < length l)%nat -> index l i = Ret (l !!! i).
Proof.
  intros Hi. unfold index. destruct (lookup_lt_is_Some_2 l i Hi) as [x Hx].
  by rewrite Hx, (list_lookup_total_correct _ _ _ Hx).
Qed.

Lemma take_drop_4 (l : bytes) o :
  (o + 4 <= length l)%nat ->
  take 4 (drop o l) = [l !!! o; l !!! (o + 1)%nat; l !!! (o + 2)%nat; l !!! (o + 3)%nat].
Proof.
  intros Hl. apply list_eq_same_length with (n := 4%nat); [done|rewrite length_take, length_drop; lia|].
  intros i x y Hi Hx Hy. rewrite lookup_take_lt, lookup_drop in Hx by done.
  apply list_lookup_total_correct in Hx. subst x.
  destruct i as [|[|[|[|i]]]]; simpl in Hy; simplify_eq; try done; try lia.
  by rewrite Nat.add_0_r.
Qed.

(** The code computed before the final reduction. *)
Lemma generate_at_code oc h c :
  hotp_generate_at oc h c =
  (m <-! pow10_u32 oc (digits h);
   rem_u32 (dynamic_truncate (hmac (alg h) (secret h) (be_bytes 8 c))) m).
Proof.
  unfold hotp_generate_at, dynamic_truncate. set (hs := hmac _ _ _).
  assert (Hlen : (20 <= length hs)%nat) by (unfold hs; rewrite hmac_length; destruct (alg h); simpl; lia).
  assert (Hok : bytes_ok hs) by apply hmac_ok.
  assert (Hb : forall i, (i < length hs)%nat -> byte_ok (hs !!! i)).
  { intros i Hi. destruct (lookup_lt_is_Some_2 hs i Hi) as [x Hx].
    rewrite (list_lookup_total_correct _ _ _ Hx). by eapply (proj1 (Forall_lookup _ _) Hok). }
  rewrite index_Ret by lia. cbn [obind].
  assert (Hlast : hs !!! (length hs - 1)%nat = List.last hs 0).
  { destruct hs as [|x hs'] using rev_ind; [simpl in *; lia|].
    rewrite last_last, length_app. simpl.
    replace (length hs' + 1 - 1)%nat with (length hs') by lia.
    rewrite lookup_total_app_r by lia. by rewrite Nat.sub_diag. }
  rewrite Hlast. change 15 with (Z.ones 4). rewrite Z.land_ones by lia. change (2 ^ 4) with 16.
  set (o := Z.to_nat (List.last hs 0 mod 16)).
  assert (Ho : (o <= 15)%nat).
  { unfold o. pose proof (Z.mod_pos_bound (List.last hs 0) 16). lia. }
  rewrite !index_Ret by lia. cbn [obind].
  rewrite truncation_word by (apply Hb; lia).
  by rewrite take_drop_4 by lia.
Qed.

Lemma pow10_small oc d : 0 <= d <= 9 -> pow10_u32 oc d = Ret (10 ^ d).
Proof.
  intros Hd. unfold pow10_u32.
  assert (10 ^ d <= 10 ^ 9) by (apply Z.pow_le_mono_r; lia).
  by rewrite (proj2 (Z.ltb_lt _ _)) by lia.
Qed.

(** With at most nine digits the generator always returns, and its value does
    not depend on the build profile. *)
Lemma generate_at_value oc h c :
  0 <= digits h <= 9 ->
  hotp_generate_at oc h c
  = Ret (dynamic_truncate (hmac (alg h) (secret h) (be_bytes 8 c)) mod 10 ^ digits h).
Proof.
  intros Hd. rewrite generate_at_code, pow10_small by done. cbn [obind]. unfold rem_u32.
  pose proof (Z.pow_pos_nonneg 10 (digits h)).
  by rewrite (proj2 (Z.eqb_neq _ _)) by lia.
Qed.

Lemma counter_message_room alg c : hash_room alg (length (be_bytes 8 c)).
Proof. rewrite be_bytes_length. left. destruct alg; simpl; lia. Qed.

(** C40: for up to nine digits, [Hotp::generate_at] returns the RFC 4226 value
    of the secret at the counter, never panics (the truncation offset stays inside
    the digest) and stays below [10^digits], for every secret with [key_room]: of at most
    one block of the hash, or of a length the hash handles. For other secrets (of 120 bytes
    with SHA-1, say) the key is hashed with a truncated padding and the value is not that
    of the RFC. *)
Theorem hotp_generate_at_rfc4226 oc h c :
  0 <= digits h <= 9 -> key_room (alg h) (secret h) ->
  hotp_generate_at oc h c = Ret (rfc4226 (alg h) (secret h) c (digits h))
  /\ 0 <= rfc4226 (alg h) (secret h) c (digits h) < 10 ^ digits h.
Proof.
  intros Hd Hk. rewrite generate_at_value by done.
  rewrite hmac_spec by (done || apply counter_message_room). split; [done|].
  apply Z.mod_pos_bound, Z.pow_pos_nonneg; lia.
Qed.

(** RFC 4226, appendix D: the value at counter 0 for the test secret. *)
Lemma hotp_generate_at_rfc4226_witness :
  let h := mkHotp SHA1 [] [] 6 0 (bs "12345678901234567890") in
  hotp_generate_at true h 0 = Ret 755224
  /\ hotp_generate_at true h 0 = Ret (rfc4226 SHA1 (bs "12345678901234567890") 0 6).
Proof.
  split; [vm_compute; reflexivity|].
  apply (hotp_generate_at_rfc4226 true (mkHotp SHA1 [] [] 6 0 (bs "12345678901234567890")) 0);
    [simpl; lia|left; vm_compute; lia].
Defined.

(** A secret of 120 bytes. *)
Example hotp_long_secret_differs :
  hotp_generate_at true (mkHotp SHA1 [] [] 6 0 (replicate 120 97)) 0 <> Ret (rfc4226 SHA1 (replicate 120 97) 0 6).
Proof. vm_compute. congruence. Qed.

(** With ten digits or more [10_u32.pow] overflows: a build with overflow
    checks panics, and from 32 digits on every build does, because the wrapped
    power is 0 and the remainder divides by it. *)
Theorem hotp_digits_overflow oc h c :
  10 <= digits h -> (oc = true \/ 32 <= digits h) -> hotp_generate_at oc h c = Panic.
Proof.
  intros Hd Hoc. rewrite generate_at_code. unfold pow10_u32.
  assert (10 ^ 10 <= 10 ^ digits h) by (apply Z.pow_le_mono_r; lia).
  rewrite (proj2 (Z.ltb_ge _ _)) by lia. destruct oc; [done|].
  destruct Hoc as [?|H32]; [done|]. cbn [obind].
  assert (Hz : uwrap 32 (10 ^ digits h) = 0).
  { unfold uwrap. replace 10 with (2 * 5) by done. rewrite Z.pow_mul_l.
    replace (digits h) with (32 + (digits h - 32)) at 1 by lia.
    rewrite Z.pow_add_r, <- Z.mul_assoc, Z.mul_comm by lia. apply Z.mod_mul. lia. }
  by rewrite Hz.
Qed.

Lemma hotp_digits_overflow_witness :
  hotp_generate_at false (mkHotp SHA1 [] [] 40 0 []) 7 = Panic
  /\ hotp_generate_at true (mkHotp SHA1 [] [] 10 0 []) 7 = Panic.
Proof.
  split; apply hotp_digits_overflow; simpl; (lia || (right; lia) || (left; reflexivity)).
Defined.

(** [Totp::generate_at] is the RFC 6238 value for the time step
    [timestamp / period], for a non-zero period; with period 0 it panics. *)
Theorem totp_generate_at_rfc6238 oc t ts :
  0 <= digits (hotp t) <= 9 -> key_room (alg (hotp t)) (secret (hotp t)) ->
  totp_generate_at oc t ts
  = if period t =? 0 then Panic
    else Ret (rfc6238 (alg (hotp t)) (secret (hotp t)) ts (period t) (digits (hotp t))).
Proof.
  intros Hd Hk. unfold totp_generate_at, div_u64, rfc6238.
  destruct (period t =? 0); [done|]. cbn [obind].
  rewrite generate_at_value, hmac_spec by (done || apply counter_message_room). done.
Qed.

(** RFC 6238, appendix B: SHA-1 at time 59. *)
Lemma totp_generate_at_rfc6238_witness :
  let t := mkTotp 30 (mkHotp SHA1 [] [] 8 0 (bs "12345678901234567890")) in
  totp_generate_at true t 59 = Ret 94287082
  /\ totp_generate_at true t 59 = Ret (rfc6238 SHA1 (bs "12345678901234567890") 59 30 8).
Proof.
  split; [vm_compute; reflexivity|].
  apply (totp_generate_at_rfc6238 true (mkTotp 30 (mkHotp SHA1 [] [] 8 0 (bs "12345678901234567890"))) 59);
    [simpl; lia|left; vm_compute; lia].
Defined.

(** ** Verification windows *)

(** The value the generator returns at a counter (for at most nine digits). *)
Definition hotp_value (h : Hotp) (c : Z) : Z :=
  dynamic_truncate (hmac (alg h) (secret h) (be_bytes 8 c)) mod 10 ^ digits h.

Lemma verify_from_spec oc h otp c n i :
  0 <= digits h <= 9 -> 0 <= c -> 1 <= i -> c + i + Z.of_nat n <= 2 ^ 64 ->
  exists b, verify_from oc h otp c n i = Ret b /\
    (b = true <-> exists j, i <= j < i + Z.of_nat n /\
       ((j <= c /\ hotp_value h (c - j) = otp) \/ hotp_value h (c + j) = otp)).
Proof.
  intros Hd Hc. revert i. induction n as [|n IH]; intros i Hi Hn.
  - exists false. split; [done|]. split; [done|]. intros (j & Hj & _). lia.
  - cbn [verify_from].
    assert (Hbefore : (if i <=? c then g <-! hotp_generate_at oc h (c - i); Ret (g =? otp) else Ret false)
                      = Ret ((i <=? c) && (hotp_value h (c - i) =? otp))).
    { destruct (i <=? c); [|done]. by rewrite generate_at_value. }
    rewrite Hbefore. cbn [obind].
    destruct ((i <=? c) && (hotp_value h (c - i) =? otp)) eqn:E.
    { bool_hyps. exists true. split; [done|]. split; [|done]. intros _. exists i.
      split; [lia|]. by left. }
    unfold add_oc. rewrite (proj2 (Z.ltb_lt _ _)) by lia. cbn [obind].
    rewrite generate_at_value by done. cbn [obind]. fold (hotp_value h (c + i)).
    destruct (hotp_value h (c + i) =? otp) eqn:E2.
    { bool_hyps. exists true. split; [done|]. split; [|done]. intros _. exists i.
      split; [lia|]. by right. }
    destruct (IH (i + 1)) as (b & Hb & Hiff); [lia|lia|].
    exists b. split; [done|]. rewrite Hiff. bool_hyps. split; intros (j & Hj & HG).
    + exists j. split; [lia|done].
    + destruct (decide (j = i)) as [->|]; [|exists j; split; [lia|done]].
      exfalso. apply andb_false_iff in E as [E|E]; bool_hyps; destruct HG as [[? ?]|?]; lia.
Qed.

(** Away from the counter's upper end, [Hotp::verify] always returns, and
    accepts a code exactly when it is the value of some counter within the window
    around the given one (no counter below 0 is tried). *)
Theorem hotp_verify_window oc h otp c window :
  0 <= digits h <= 9 -> 0 <= c -> 0 <= window -> c + window < 2 ^ 64 ->
  exists b, hotp_verify oc h otp c window = Ret b /\
    (b = true <-> exists c', 0 <= c' /\ c - window <= c' <= c + window
                    /\ hotp_generate_at oc h c' = Ret otp).
Proof.
  intros Hd Hc Hw Hmax.
  assert (HG : forall c', hotp_generate_at oc h c' = Ret otp <-> hotp_value h c' = otp).
  { intros c'. rewrite generate_at_value by done. fold (hotp_value h c'). split; congruence. }
  setoid_rewrite HG. unfold hotp_verify. rewrite generate_at_value by done.
  fold (hotp_value h c). cbn [obind]. destruct (hotp_value h c =? otp) eqn:E; bool_hyps.
  { exists true. split; [done|]. split; [|done]. intros _. exists c. split_and!; [lia..|done]. }
  destruct (verify_from_spec oc h otp c (Z.to_nat window) 1 Hd Hc) as (b & Hb & Hiff); [lia|lia|].
  exists b. split; [done|]. rewrite Hiff. rewrite Z2Nat.id by lia. split.
  - intros (j & Hj & [[Hjc HGj]|HGj]).
    + exists (c - j). split_and!; [lia..|done].
    + exists (c + j). split_and!; [lia..|done].
  - intros (c' & Hc' & Hr & HGj). destruct (decide (c' = c)) as [->|Hne]; [done|].
    exists (Z.abs (c' - c)). split; [lia|].
    destruct (decide (c' < c)); [left|right]; [split; [lia|]|]; rewrite <- HGj; f_equal; lia.
Qed.

(** The crate's documentation example: a code for counter 5 is accepted at 6 with
    window 1. *)
Lemma hotp_verify_window_witness :
  exists b, hotp_verify true hotp_default 435986 6 1 = Ret b /\
    (b = true <-> exists c', 0 <= c' /\ 6 - 1 <= c' <= 6 + 1
                    /\ hotp_generate_at true hotp_default c' = Ret 435986).
Proof. apply (hotp_verify_window true hotp_default 435986 6 1); simpl; lia. Defined.

(** ** Key URIs: the code *)

(** [alg.to_uppercase()], as far as the three algorithm names are concerned: the
    characters whose uppercase form is an ASCII letter of those names are the ASCII
    lowercase letters and U+017F (two bytes), which becomes an S. *)
Fixpoint to_uppercase (s : bytes) : bytes :=
  match s with
  | [] => []
  | b :: s' =>
    if between 97 122 b then (b - 32) :: to_uppercase s'
    else match s' with
         | b' :: s'' =>
           if (b =? 197) && (b' =? 191) then 83 :: to_uppercase s'' else b :: to_uppercase s'
         | [] => [b]
         end
  end.

Definition parse_algorithm (val : bytes) : option Algorithm :=
  let alg := to_uppercase val in
  if decide (alg = bs "SHA1") then Some SHA1
  else if decide (alg = bs "SHA256") then Some SHA256
  else if decide (alg = bs "SHA512") then Some SHA512
  else None.

(** [queries.split('&').map(..).collect::<HashMap<_, _>>()]: a later occurrence of a
    key replaces an earlier one. *)
Definition parse_params (queries : bytes) : list (bytes * bytes) :=
  (fun param => match split_once 61 param with Some kv => kv | None => (param, []) end)
    <$> split 38 queries.

Fixpoint params_get (key : bytes) (params : list (bytes * bytes)) : option bytes :=
  match params with
  | [] => None
  | (k, v) :: params' =>
    match params_get key params' with
    | Some v' => Some v'
    | None => if decide (key = k) then Some v else None
    end
  end.

(** The label and issuer query values shared by both [to_uri] functions. *)
Definition uri_label (issuer label : bytes) : bytes :=
  match issuer with
  | [] => Url.encode label
  | _ => Url.encode (issuer ++ bs ":" ++ label)
  end.
Definition uri_issuer (issuer : bytes) : bytes :=
  match issuer with
  | [] => []
  | _ => bs "&issuer=" ++ Url.encode issuer
  end.

Definition hotp_to_uri (self : Hotp) : bytes :=
  bs "otpauth://hotp/" ++ uri_label (issuer self) (label self)
  ++ bs "?secret=" ++ secret_into_base32 (secret self) ++ uri_issuer (issuer self)
  ++ bs "&algorithm=" ++ alg_to_string (alg self)
  ++ bs "&digits=" ++ dec_string (digits self)
  ++ bs "&counter=" ++ dec_string (counter self).

Definition totp_to_uri (self : Totp) : bytes :=
  bs "otpauth://totp/" ++ uri_label (issuer (hotp self)) (label (hotp self))
  ++ bs "?secret=" ++ secret_into_base32 (secret (hotp self)) ++ uri_issuer (issuer (hotp self))
  ++ bs "&algorithm=" ++ alg_to_string (alg (hotp self))
  ++ bs "&digits=" ++ dec_string (digits (hotp self))
  ++ bs "&period=" ++ dec_string (period self).

(** [hotp::ParseUriError] and [totp::ParseUriError]. *)
Inductive ParseUriError :=
| InvalidPrefix | InvalidFormat | InvalidLabel | InvalidIssuer | InvalidDigits
| InvalidCounter | InvalidPeriod | InvalidSecret | InvalidAlgorithm | IssuerMismatch
| MissingSecret | MissingCounter.

(** [label_decoded.split_once(':')]. *)
Definition split_label (label_decoded : bytes) : option bytes * bytes :=
  match split_once 58 label_decoded with
  | Some (issuer, label) => (Some issuer, label)
  | None => (None, label_decoded)
  end.

Definition resolve_issuer (from_label from_param : option bytes) : result bytes ParseUriError :=
  match from_label, from_param with
  | None, None => Ok []
  | None, Some p => Ok p
  | Some l, None => Ok l
  | Some l, Some p => if decide (l = p) then Ok p else Err IssuerMismatch
  end.

Definition get_digits (params : list (bytes * bytes)) : result Z ParseUriError :=
  match params_get (bs "digits") params with
  | None => Ok 6
  | Some val => ok_or (parse_uint 8 10 val) InvalidDigits
  end.

Definition get_secret (params : list (bytes * bytes)) : result Secret ParseUriError :=
  raw <-? ok_or (params_get (bs "secret") params) MissingSecret;
  map_err (fun _ => InvalidSecret) (secret_from_base32 raw).

Definition get_issuer (params : list (bytes * bytes)) : result (option bytes) ParseUriError :=
  match params_get (bs "issuer") params with
  | None => Ok None
  | Some iss => p <-? map_err (fun _ => InvalidIssuer) (Url.decode iss); Ok (Some p)
  end.

Definition get_algorithm (params : list (bytes * bytes)) : result (option Algorithm) ParseUriError :=
  match params_get (bs "algorithm") params with
  | None => Ok None
  | Some val => a <-? ok_or (parse_algorithm val) InvalidAlgorithm; Ok (Some a)
  end.

Definition hotp_from_uri (uri : bytes) : result Hotp ParseUriError :=
  rest <-? ok_or (strip_prefix (bs "otpauth://hotp/") uri) InvalidPrefix;
  lq <-? ok_or (split_once 63 rest) InvalidFormat;
  let '(label_encoded, queries) := lq in
  match label_encoded with
  | [] => Err InvalidLabel
  | _ =>
    label_decoded <-? map_err (fun _ => InvalidLabel) (Url.decode label_encoded);
    let '(issuer_from_label, label) := split_label label_decoded in
    let params := parse_params queries in
    digits <-? get_digits params;
    counter <-? (val <-? ok_or (params_get (bs "counter") params) MissingCounter;
                 ok_or (parse_uint 64 10 val) InvalidCounter);
    secret <-? get_secret params;
    issuer_from_param <-? get_issuer params;
    issuer <-? resolve_issuer issuer_from_label issuer_from_param;
    alg <-? get_algorithm params;
    Ok (mkHotp (default SHA1 alg) issuer label digits counter secret)
  end.

Definition totp_from_uri (uri : bytes) : result Totp ParseUriError :=
  rest <-? ok_or (strip_prefix (bs "otpauth://totp/") uri) InvalidPrefix;
  lq <-? ok_or (split_once 63 rest) InvalidFormat;
  let '(label_encoded, queries) := lq in
  match label_encoded with
  | [] => Err InvalidLabel
  | _ =>
    label_decoded <-? map_err (fun _ => InvalidLabel) (Url.decode label_encoded);
    let '(issuer_from_label, label) := split_label label_decoded in
    let params := parse_params queries in
    digits <-? get_digits params;
    period <-? match params_get (bs "period") params with
               | None => Ok 30
               | Some val => ok_or (parse_uint 64 10 val) InvalidPeriod
               end;
    secret <-? get_secret params;
    issuer_from_param <-? get_issuer params;
    issuer <-? resolve_issuer issuer_from_label issuer_from_param;
    alg <-? get_algorithm params;
    Ok (totp_new (default SHA1 alg) issuer label digits period secret)
  end.

(** ** Key URIs: round trips *)

(** A query string, key by key. *)
Fixpoint render_params (ps : list (bytes * bytes)) : bytes :=
  match ps with
  | [] => []
  | [(k, v)] => k ++ 61 :: v
  | (k, v) :: ps' => k ++ 61 :: v ++ 38 :: render_params ps'
  end.

Definition param_ok (kv : bytes * bytes) : Prop :=
  Forall (fun b => b <> 38 /\ b <> 61) kv.1 /\ Forall (fun b => b <> 38) kv.2.

Lemma param_ok_nosep k v : param_ok (k, v) -> Forall (fun b => b <> 38) (k ++ 61 :: v).
Proof.
  intros [Hk Hv]. apply Forall_app. split.
  - eapply Forall_impl; [done|]. by intros ? [? _].
  - by constructor.
Qed.

Lemma param_ok_split k v : param_ok (k, v) -> split_once 61 (k ++ 61 :: v) = Some (k, v).
Proof.
  intros [Hk Hv]. apply split_once_app. eapply Forall_impl; [done|]. by intros ? [_ ?].
Qed.

Lemma render_cons k v kv ps :
  render_params ((k, v) :: kv :: ps) = (k ++ 61 :: v) ++ 38 :: render_params (kv :: ps).
Proof. by rewrite <- (assoc_L (++)). Qed.

Lemma parse_render ps :
  ps <> [] -> Forall param_ok ps -> parse_params (render_params ps) = ps.
Proof.
  intros Hne Hps. induction Hps as [|[k v] ps Hkv Hps IH]; [done|].
  unfold parse_params in *. destruct ps as [|kv' ps].
  - cbn [render_params]. rewrite split_single by (by apply param_ok_nosep).
    cbn. by rewrite param_ok_split.
  - rewrite render_cons. rewrite split_app by (by apply param_ok_nosep). rewrite fmap_cons.
    rewrite param_ok_split by done. f_equal. by apply IH.
Qed.

(** Characters that end no query parameter. *)
Definition value_char (b : Z) : Prop := b <> 38.

Lemma safe_value b : b ∈ Url.SAFE_CHARS -> b <> 38 /\ b <> 63.
Proof.
  intros Hs. split; intros ->; revert Hs; apply (bool_decide_eq_false_1 _);
    vm_compute; reflexivity.
Qed.

Lemma base32_value s : bytes_ok s -> Forall (fun b => b <> 38) (secret_into_base32 s).
Proof.
  intros Hs. eapply Forall_impl; [by apply base32_encode_safe|].
  intros b Hb. by apply safe_value in Hb as [? _].
Qed.

Lemma url_value s c :
  bytes_ok s -> url_char c = false -> Forall (fun b => b <> c) (Url.encode s).
Proof.
  intros Hs Hc. eapply Forall_impl; [by apply url_encode_chars|].
  intros b Hb. by apply url_char_ne.
Qed.

Lemma dec_value x c : ~ is_dec_digit c -> Forall (fun b => b <> c) (dec_string x).
Proof.
  intros Hc. eapply Forall_impl; [apply dec_string_digits|]. intros b Hb ->. done.
Qed.

Lemma alg_value a : Forall (fun b => b <> 38) (alg_to_string a).
Proof. destruct a; by_decide. Qed.

Lemma parse_algorithm_print a : parse_algorithm (alg_to_string a) = Some a.
Proof. destruct a; vm_compute; reflexivity. Qed.

(** The query parameters both printers write; [extra] is the counter or the period. *)
Definition uri_params (issuer secret : bytes) (a : Algorithm) (dig : Z) (extra : bytes * bytes)
  : list (bytes * bytes) :=
  [(bs "secret", secret_into_base32 secret)]
  ++ match issuer with [] => [] | _ => [(bs "issuer", Url.encode issuer)] end
  ++ [(bs "algorithm", alg_to_string a); (bs "digits", dec_string dig); extra].

Lemma uri_params_ok issuer secret a dig extra :
  bytes_ok issuer -> bytes_ok secret -> param_ok extra ->
  Forall param_ok (uri_params issuer secret a dig extra).
Proof.
  intros Hi Hs He. unfold uri_params. repeat rewrite Forall_app. split_and!.
  - constructor; [|constructor]. split; [by_decide|by apply base32_value].
  - destruct issuer as [|b issuer]; [constructor|].
    constructor; [|constructor]. split; [by_decide|]. by apply url_value.
  - constructor; [split; [by_decide|apply alg_value]|].
    constructor; [|by constructor].
    split; [by_decide|]. apply dec_value. unfold is_dec_digit. lia.
Qed.

Lemma hotp_to_uri_split h :
  hotp_to_uri h = bs "otpauth://hotp/" ++ uri_label (issuer h) (label h) ++ 63 ::
    render_params (uri_params (issuer h) (secret h) (alg h) (digits h)
                     (bs "counter", dec_string (counter h))).
Proof.
  unfold hotp_to_uri, uri_params, uri_issuer. f_equal. f_equal.
  destruct (issuer h) as [|b i]; cbn -[dec_string Url.encode Base32.encode alg_to_string];
    rewrite <- ?(assoc_L (++)); done.
Qed.

Lemma totp_to_uri_split t :
  totp_to_uri t = bs "otpauth://totp/" ++ uri_label (issuer (hotp t)) (label (hotp t)) ++ 63 ::
    render_params (uri_params (issuer (hotp t)) (secret (hotp t)) (alg (hotp t)) (digits (hotp t))
                     (bs "period", dec_string (period t))).
Proof.
  unfold totp_to_uri, uri_params, uri_issuer. f_equal. f_equal.
  destruct (issuer (hotp t)) as [|b i]; cbn -[dec_string Url.encode Base32.encode alg_to_string];
    rewrite <- ?(assoc_L (++)); done.
Qed.

(** The configurations a key URI can carry: UTF-8 names, no colon in the issuer,
    none in the label of an issuer-less key, and something to put in the path. *)
Record uri_ok (h : Hotp) : Prop := UriOk
  { ok_issuer : bytes_ok (issuer h) /\ utf8_valid (issuer h) = true;
    ok_label : bytes_ok (label h) /\ utf8_valid (label h) = true;
    ok_colon : Forall (fun b => b <> 58) (issuer h);
    ok_bare : issuer h = [] -> Forall (fun b => b <> 58) (label h) /\ label h <> [];
    ok_digits : urange 8 (digits h);
    ok_counter : urange 64 (counter h);
    ok_secret : bytes_ok (secret h) }.

Lemma uri_label_decode h :
  uri_ok h ->
  uri_label (issuer h) (label h) <> []
  /\ Forall (fun b => b <> 63) (uri_label (issuer h) (label h))
  /\ exists d, Url.decode (uri_label (issuer h) (label h)) = Ok d
     /\ split_label d = (match issuer h with [] => None | _ => Some (issuer h) end, label h).
Proof.
  intros [[Hib Hiu] [Hlb Hlu] Hc Hbare _ _ _]. unfold uri_label, split_label.
  assert (Hne : forall s, s <> [] -> Url.encode s <> []).
  { intros [|b s]; [done|]. rewrite url_encode_cons. by case_bool_decide. }
  destruct (issuer h) as [|b i] eqn:Ei.
  - destruct (Hbare eq_refl) as [Hnc Hl]. split_and!; [by apply Hne|by apply url_value|].
    exists (label h). split; [by apply url_decode_encode_valid|].
    by rewrite split_once_None.
  - assert (Hb : bytes_ok ((b :: i) ++ bs ":" ++ label h)).
    { rewrite !bytes_ok_app. split_and!; [done|by_decide|done]. }
    split_and!; [by apply Hne|by apply url_value|].
    exists ((b :: i) ++ bs ":" ++ label h). split.
    + apply url_decode_encode_valid; [done|]. by rewrite !utf8_valid_app.
    + change (bs ":" ++ label h) with (58 :: label h). by rewrite split_once_app.
Qed.

(** Looking the parameters up again. *)
Lemma params_get_ne k k' v ps : k <> k' -> params_get k ((k', v) :: ps) = params_get k ps.
Proof. intros Hk. cbn. rewrite decide_False by done. by destruct (params_get k ps). Qed.

Lemma params_get_eq k v ps : params_get k ps = None -> params_get k ((k, v) :: ps) = Some v.
Proof. intros Hn. cbn. by rewrite Hn, decide_True. Qed.

Ltac params_lookup :=
  repeat (rewrite params_get_ne by (congruence || (vm_compute; congruence)));
  try (apply params_get_eq; params_lookup); try reflexivity.

Section Lookup.
Context (iss sec : bytes) (a : Algorithm) (dig : Z) (k v : bytes).
Context (N1 : k <> bs "secret") (N2 : k <> bs "issuer")
        (N3 : k <> bs "algorithm") (N4 : k <> bs "digits").

Lemma params_get_uri :
  let ps := uri_params iss sec a dig (k, v) in
  params_get (bs "secret") ps = Some (secret_into_base32 sec)
  /\ params_get (bs "issuer") ps = match iss with [] => None | _ => Some (Url.encode iss) end
  /\ params_get (bs "algorithm") ps = Some (alg_to_string a)
  /\ params_get (bs "digits") ps = Some (dec_string dig)
  /\ params_get k ps = Some v.
Proof using N1 N2 N3 N4.
  unfold uri_params. destruct iss as [|b i]; cbn [app]; split_and!; params_lookup.
Qed.

Lemma get_params_back :
  bytes_ok iss -> utf8_valid iss = true -> bytes_ok sec -> urange 8 dig ->
  let ps := uri_params iss sec a dig (k, v) in
  get_digits ps = Ok dig /\ get_secret ps = Ok sec /\ params_get k ps = Some v
  /\ get_issuer ps = Ok (match iss with [] => None | _ => Some iss end)
  /\ get_algorithm ps = Ok (Some a).
Proof using N1 N2 N3 N4.
  intros Hib Hiu Hs Hd. cbv zeta.
  destruct params_get_uri as (Es & Ei & Ea & Ed & Ek). cbv zeta in *.
  unfold get_digits, get_secret, get_issuer, get_algorithm.
  rewrite Es, Ei, Ea, Ed, Ek. cbn [ok_or rbind].
  unfold secret_from_base32, secret_into_base32.
  rewrite parse_uint_dec, base32_roundtrip, parse_algorithm_print by done.
  destruct iss as [|b i]; [done|]. by rewrite url_decode_encode_valid.
Qed.
End Lookup.

Lemma resolve_same iss :
  resolve_issuer (match iss with [] => None | _ => Some iss end)
                 (match iss with [] => None | _ => Some iss end) = Ok iss.
Proof. destruct iss; [done|]. cbn [resolve_issuer]. by rewrite decide_True. Qed.

(** The path and the query of a printed URI, seen by the parsers. *)
Lemma uri_path_query lab q :
  Forall (fun b => b <> 63) lab -> split_once 63 (lab ++ 63 :: q) = Some (lab, q).
Proof. apply split_once_app. Qed.

Lemma extra_ok k x : Forall (fun b => b <> 38 /\ b <> 61) k -> param_ok (k, dec_string x).
Proof. intros Hk. split; [done|]. apply dec_value. unfold is_dec_digit. lia. Qed.

Lemma hotp_uri_roundtrip h : uri_ok h -> hotp_from_uri (hotp_to_uri h) = Ok h.
Proof.
  intros Hok. destruct (uri_label_decode h Hok) as (Hne & Hq & d & Hdec & Hsplit).
  pose proof Hok as [[Hib Hiu] _ _ _ Hd Hc Hs].
  unfold hotp_from_uri. rewrite hotp_to_uri_split, strip_prefix_app.
  cbn [ok_or rbind]. rewrite uri_path_query by done. cbn [ok_or rbind].
  destruct (uri_label (issuer h) (label h)) as [|b lab]; [done|].
  rewrite Hdec. cbn [map_err rbind]. rewrite Hsplit.
  rewrite parse_render; [|by destruct (issuer h)|].
  2:{ apply uri_params_ok; [done|done|]. apply extra_ok. by_decide. }
  destruct (get_params_back (issuer h) (secret h) (alg h) (digits h) (bs "counter")
              (dec_string (counter h))) as (Ed & Es & Ek & Ei & Ea);
    [vm_compute; congruence..|done|done|done|done|].
  rewrite Ed, Es, Ek, Ei, Ea. cbn [ok_or rbind].
  rewrite parse_uint_dec by done. cbn [ok_or rbind]. rewrite resolve_same. cbn [rbind].
  by destruct h.
Qed.

Lemma totp_uri_roundtrip t :
  uri_ok (hotp t) -> counter (hotp t) = 0 -> urange 64 (period t) ->
  totp_from_uri (totp_to_uri t) = Ok t.
Proof.
  intros Hok Hc0 Hp. destruct (uri_label_decode _ Hok) as (Hne & Hq & d & Hdec & Hsplit).
  pose proof Hok as [[Hib Hiu] _ _ _ Hd Hc Hs].
  unfold totp_from_uri. rewrite totp_to_uri_split, strip_prefix_app.
  cbn [ok_or rbind]. rewrite uri_path_query by done. cbn [ok_or rbind].
  destruct (uri_label (issuer (hotp t)) (label (hotp t))) as [|b lab]; [done|].
  rewrite Hdec. cbn [map_err rbind]. rewrite Hsplit.
  rewrite parse_render; [|by destruct (issuer (hotp t))|].
  2:{ apply uri_params_ok; [done|done|]. apply extra_ok. by_decide. }
  destruct (get_params_back (issuer (hotp t)) (secret (hotp t)) (alg (hotp t)) (digits (hotp t))
              (bs "period") (dec_string (period t))) as (Ed & Es & Ek & Ei & Ea);
    [vm_compute; congruence..|done|done|done|done|].
  rewrite Ed, Es, Ek, Ei, Ea. cbn [ok_or rbind].
  rewrite parse_uint_dec by done. cbn [ok_or rbind]. rewrite resolve_same. cbn [rbind].
  destruct t as [p [a i l dg c s]]. simpl in *. by subst c.
Qed.

(** Parsing the key URI that [Hotp::to_uri] prints gives back the same
    configuration, for every configuration a key URI can carry. *)
Theorem hotp_from_to_uri h : uri_ok h -> hotp_from_uri (hotp_to_uri h) = Ok h.
Proof. apply hotp_uri_roundtrip. Qed.

Lemma hotp_from_to_uri_witness :
  let h := mkHotp SHA512 (bs "example") (bs "alice@example.com") 6 42 (bs "The quick brown fox") in
  hotp_from_uri (hotp_to_uri h) = Ok h.
Proof.
  apply hotp_from_to_uri.
  constructor; cbn [issuer label digits counter secret];
    [split; by_decide|split; by_decide|by_decide|done|unfold urange; lia|unfold urange; lia|by_decide].
Defined.

(** The same round trip for [Totp], whose embedded counter is 0. *)
Theorem totp_from_to_uri t :
  uri_ok (hotp t) -> counter (hotp t) = 0 -> urange 64 (period t) ->
  totp_from_uri (totp_to_uri t) = Ok t.
Proof. apply totp_uri_roundtrip. Qed.

Lemma totp_from_to_uri_witness :
  let t := totp_new SHA256 [] (bs "alice@example.com") 8 30 (bs "secret") in
  totp_from_uri (totp_to_uri t) = Ok t.
Proof.
  apply totp_from_to_uri; [|done|unfold urange; simpl; lia].
  constructor; cbn [totp_new hotp issuer label digits counter secret];
    [split; by_decide|split; by_decide|by_decide| |unfold urange; lia|unfold urange; lia|by_decide].
  intros _. split; [by_decide|done].
Defined.

(** A configuration whose issuer contains a colon prints to a URI that
    its own parser rejects: the label is split at the issuer's first colon, and
    the part before it differs from the issuer parameter. *)
Theorem hotp_issuer_colon_rejected h a b :
  issuer h = a ++ 58 :: b -> Forall (fun x => x <> 58) a ->
  bytes_ok (issuer h) -> utf8_valid (issuer h) = true ->
  bytes_ok (label h) -> utf8_valid (label h) = true ->
  urange 8 (digits h) -> urange 64 (counter h) -> bytes_ok (secret h) ->
  hotp_from_uri (hotp_to_uri h) = Err IssuerMismatch.
Proof.
  intros Hi Ha Hib Hiu Hlb Hlu Hd Hc Hs.
  assert (Hne : exists x i, issuer h = x :: i) by (rewrite Hi; destruct a; simpl; eauto).
  destruct Hne as (x & i & Exi).
  assert (Hlab : uri_label (issuer h) (label h) = Url.encode (issuer h ++ bs ":" ++ label h))
    by (unfold uri_label; by rewrite Exi).
  assert (Hb : bytes_ok (issuer h ++ bs ":" ++ label h)).
  { rewrite !bytes_ok_app. split_and!; [done|by_decide|done]. }
  unfold hotp_from_uri. rewrite hotp_to_uri_split, strip_prefix_app. cbn [ok_or rbind].
  rewrite Hlab, uri_path_query by (by apply url_value). cbn [ok_or rbind].
  assert (Hdec : Url.decode (Url.encode (issuer h ++ bs ":" ++ label h))
                 = Ok (issuer h ++ bs ":" ++ label h)).
  { apply url_decode_encode_valid; [done|]. by rewrite !utf8_valid_app. }
  destruct (Url.encode (issuer h ++ bs ":" ++ label h)) as [|e es] eqn:Eenc.
  { exfalso. rewrite Exi in Eenc. cbn [app] in Eenc. rewrite url_encode_cons in Eenc.
    by case_bool_decide. }
  rewrite Hdec. cbn [map_err rbind]. unfold split_label.
  rewrite Hi at 1. rewrite <- (assoc_L (++)). cbn [app].
  rewrite split_once_app by done.
  rewrite parse_render; [|by rewrite Exi|].
  2:{ apply uri_params_ok; [done|done|]. apply extra_ok. by_decide. }
  destruct (get_params_back (issuer h) (secret h) (alg h) (digits h) (bs "counter")
              (dec_string (counter h))) as (Ed & Es & Ek & Ei & Ea);
    [vm_compute; congruence..|done|done|done|done|].
  rewrite Ed, Es, Ek, Ei. cbn [ok_or rbind].
  rewrite parse_uint_dec by done. cbn [ok_or rbind]. rewrite Exi. cbn [resolve_issuer].
  rewrite decide_False; [done|]. rewrite <- Exi, Hi. intros Heq.
  apply (f_equal length) in Heq. rewrite length_app in Heq. simpl in Heq. lia.
Qed.

Lemma hotp_issuer_colon_rejected_witness :
  hotp_from_uri (hotp_to_uri (mkHotp SHA1 (bs "corp:eu") (bs "bob") 6 0 (bs "k"))) = Err IssuerMismatch.
Proof.
  apply (hotp_issuer_colon_rejected (mkHotp SHA1 (bs "corp:eu") (bs "bob") 6 0 (bs "k"))
           (bs "corp") (bs "eu")); cbn [issuer label digits counter secret];
    first [reflexivity | by_decide | (unfold urange; lia)].
Defined.
