(* ===== verification/EventQueue.v ===== *)
(** * The session event queue

    [src/crates/nyaterm-transport/src/session_event_queue.rs] (and the event types
    of [session_types.rs]): the bounded queue between transport producers and the
    terminal event pump. The mutex-protected state is [Inner]; every method body
    between taking and releasing the lock is one function on it. The concurrent
    system of producers, consumers and lifecycle calls is in [EventSystem]. *)

From stdpp Require Import base list numbers strings gmap sets.
From Stdlib Require Import ZArith Lia.
From S2P Require Import Prelude.

Local Open Scope Z_scope.

Definition SESSION_EVENT_QUEUE_OUTPUT_LIMIT : Z := 8 * 1024 * 1024.
Definition SESSION_EVENT_QUEUE_OUTPUT_LOW_WATERMARK : Z := SESSION_EVENT_QUEUE_OUTPUT_LIMIT / 2.
Definition SESSION_EVENT_QUEUE_OUTPUT_EVENT_LIMIT : Z := 256 * 1024.

Abbreviation LIMIT := SESSION_EVENT_QUEUE_OUTPUT_LIMIT.
Abbreviation LOW := SESSION_EVENT_QUEUE_OUTPUT_LOW_WATERMARK.
Abbreviation EVENT_LIMIT := SESSION_EVENT_QUEUE_OUTPUT_EVENT_LIMIT.

Inductive CleanupOperation := Terminate | Wait | ReaderJoin | WriterJoin | StartupFiles.

(** [SessionEvent]. The payloads the queue never looks at (notices, completion
    contexts, tmux projections) have an abstract type [X]. *)
Inductive SessionEvent (X : Type) : Type :=
| Notice (session_id : bytes) (notice : X)
| OutputBoundary (session_id token : bytes)
| CleanupFailed (session_id : bytes) (consumer_id : option Z) (operation : CleanupOperation)
| Output (session_id data : bytes)
| OutputDropped (session_id : bytes) (n : Z)
| CwdChanged (session_id cwd : bytes)
| CommandContext (session_id : bytes) (context : X)
| CommandAccepted (session_id command : bytes)
| Exited (session_id reason : bytes)
| SessionError (session_id message : bytes)
| TmuxState (session_id : bytes) (state : X).
Arguments Notice {X}. Arguments OutputBoundary {X}. Arguments CleanupFailed {X}.
Arguments Output {X}. Arguments OutputDropped {X}. Arguments CwdChanged {X}.
Arguments CommandContext {X}. Arguments CommandAccepted {X}. Arguments Exited {X}.
Arguments SessionError {X}. Arguments TmuxState {X}.

Record SessionDrainStats := Stats
  { drained_events : Z; drained_output_bytes : Z; queued_events : Z;
    queued_output_bytes_stat : Z; dropped_output_bytes : Z }.

Section Queue.
Context {X : Type}.
Abbreviation event := (SessionEvent X).

Definition event_session_id (e : event) : bytes :=
  match e with
  | Notice s _ | OutputBoundary s _ | CleanupFailed s _ _ | Output s _ | OutputDropped s _
  | CwdChanged s _ | CommandContext s _ | CommandAccepted s _ | Exited s _
  | SessionError s _ | TmuxState s _ => s
  end.

(** [SessionEventQueueInner]; the two test-only counters are left out. *)
Record Inner := mkInner
  { events : list event;
    queued_output_bytes : Z;
    peak_output_bytes : Z;
    output_backpressured : bool;
    producer_active : bool;
    closed : bool;
    cancelled_sessions : gset bytes;
    consumers : gmap bytes Z }.

Definition new : Inner := mkInner [] 0 0 false false false ∅ ∅.

Definition set_events (q : Inner) (es : list event) (n : Z) : Inner :=
  mkInner es n (peak_output_bytes q) (output_backpressured q) (producer_active q)
    (closed q) (cancelled_sessions q) (consumers q).
Definition set_backpressured (q : Inner) (b : bool) : Inner :=
  mkInner (events q) (queued_output_bytes q) (peak_output_bytes q) b (producer_active q)
    (closed q) (cancelled_sessions q) (consumers q).
Definition set_producer_active (q : Inner) (b : bool) : Inner :=
  mkInner (events q) (queued_output_bytes q) (peak_output_bytes q) (output_backpressured q) b
    (closed q) (cancelled_sessions q) (consumers q).
Definition set_peak (q : Inner) (n : Z) : Inner :=
  mkInner (events q) (queued_output_bytes q) n (output_backpressured q) (producer_active q)
    (closed q) (cancelled_sessions q) (consumers q).
Definition set_routing (q : Inner) (cs : gset bytes) (ms : gmap bytes Z) : Inner :=
  mkInner (events q) (queued_output_bytes q) (peak_output_bytes q) (output_backpressured q)
    (producer_active q) (closed q) cs ms.
Definition set_closed (q : Inner) : Inner :=
  mkInner (events q) (queued_output_bytes q) (peak_output_bytes q) (output_backpressured q)
    (producer_active q) true (cancelled_sessions q) (consumers q).

Definition zlen (l : bytes) : Z := Z.of_nat (length l).

Definition accepts (q : Inner) (session_id : bytes) : bool :=
  negb (closed q) && bool_decide (session_id ∉ cancelled_sessions q).

Definition session_cancelled (q : Inner) (session_id : bytes) : bool :=
  closed q || bool_decide (session_id ∈ cancelled_sessions q).

Definition is_end (e : event) : bool :=
  match e with Exited _ _ | SessionError _ _ => true | _ => false end.

Definition session_ended (q : Inner) (session_id : bytes) : bool :=
  closed q || bool_decide (session_id ∈ cancelled_sessions q)
  || existsb (fun e => is_end e && bool_decide (event_session_id e = session_id)) (events q).

Definition consumer_for (q : Inner) (session_id : bytes) : option Z := consumers q !! session_id.

Definition is_cleanup (e : event) : bool :=
  match e with CleanupFailed _ _ _ => true | _ => false end.

Definition push_cleanup_failure (q : Inner) (e : event) : Inner :=
  if closed q then q
  else if (256 <=? length (List.filter is_cleanup (events q)))%nat then q
  else set_events q (events q ++ [e]) (queued_output_bytes q).

(** One look at the ordering turn by [begin_push]: [None] gives up, [Some (q, b)]
    goes on ([b = true]) or parks on [producer_order]. *)
Definition begin_push_step (q : Inner) (session_id : bytes) : option (Inner * bool) :=
  if accepts q session_id then
    if producer_active q then Some (q, false) else Some (set_producer_active q true, true)
  else None.

(** Dropping the [ProducerOrderGuard]. *)
Definition end_push (q : Inner) : Inner := set_producer_active q false.

(** One turn of the loop of [push_output_chunk] (and of the chunk loop of
    [push_async]): [None] refuses the chunk, [Some (q, true)] has queued it,
    [Some (q, false)] parks on [output_space]. *)
Definition push_output_chunk_step (q : Inner) (session_id data : bytes) : option (Inner * bool) :=
  if accepts q session_id then
    let fits := sat_add 64 (queued_output_bytes q) (zlen data) <=? LIMIT in
    if negb (output_backpressured q) && fits then
      let n := sat_add 64 (queued_output_bytes q) (zlen data) in
      let q1 := set_events q (events q) n in
      let q2 := set_peak q1 (Z.max (peak_output_bytes q1) n) in
      let q3 := set_events q2 (events q2 ++ [Output session_id data]) n in
      Some (if LIMIT <=? queued_output_bytes q3 then set_backpressured q3 true else q3, true)
    else Some (set_backpressured q true, false)
  else None.

(** Queueing an event that carries no output. *)
Definition push_other (q : Inner) (e : event) : Inner :=
  if accepts q (event_session_id e)
  then set_events q (events q ++ [e]) (queued_output_bytes q) else q.

(** [data.chunks(EVENT_LIMIT)], empty chunks skipped. *)
Definition output_chunks (data : bytes) : list bytes :=
  List.filter (fun c => negb (bool_decide (c = []))) (chunks (Z.to_nat EVENT_LIMIT) data).

Definition output_bytes (e : event) : Z := match e with Output _ d => zlen d | _ => 0 end.
Definition sum_output (es : list event) : Z := fold_right (fun e n => output_bytes e + n) 0 es.

Definition resume_output_if_below_low_watermark (q : Inner) : Inner * bool :=
  if output_backpressured q && (queued_output_bytes q <=? LOW)
  then (set_backpressured q false, true) else (q, false).

Definition cancel_session (q : Inner) (session_id : bytes) : Inner :=
  let q1 := set_routing q ({[session_id]} ∪ cancelled_sessions q) (delete session_id (consumers q)) in
  let removed := sum_output (List.filter (fun e => bool_decide (event_session_id e = session_id)) (events q1)) in
  let kept := List.filter (fun e => negb (bool_decide (event_session_id e = session_id))) (events q1) in
  let q2 := set_events q1 kept (sat_sub (queued_output_bytes q1) removed) in
  fst (resume_output_if_below_low_watermark q2).

Definition resume_session (q : Inner) (session_id : bytes) : Inner :=
  match session_id with
  | [] => q
  | _ => set_routing q (cancelled_sessions q ∖ {[session_id]}) (consumers q)
  end.

Definition assign_consumer (q : Inner) (session_id : bytes) (consumer_id : Z) : Inner :=
  match session_id with
  | [] => q
  | _ => set_routing q (cancelled_sessions q) (<[session_id := consumer_id]> (consumers q))
  end.

Definition clear_consumer (q : Inner) (session_id : bytes) (consumer_id : Z) : Inner :=
  if bool_decide (consumers q !! session_id = Some consumer_id)
  then set_routing q (cancelled_sessions q) (delete session_id (consumers q)) else q.

Definition close (q : Inner) : Inner := set_closed q.

(** *** Draining *)

Definition no_stats : SessionDrainStats := Stats 0 0 0 0 0.

Definition count_event (st : SessionDrainStats) (n : Z) : SessionDrainStats :=
  Stats (sat_add 64 (drained_events st) 1) (sat_add 64 (drained_output_bytes st) n)
    (queued_events st) (queued_output_bytes_stat st) (dropped_output_bytes st).
Definition count_dropped (st : SessionDrainStats) (n : Z) : SessionDrainStats :=
  Stats (drained_events st) (drained_output_bytes st) (queued_events st)
    (queued_output_bytes_stat st) (sat_add 64 (dropped_output_bytes st) n).

(** The statistics a popped event contributes. *)
Definition count_popped (st : SessionDrainStats) (e : event) : SessionDrainStats :=
  match e with
  | Output _ d => count_event st (zlen d)
  | OutputDropped _ n => count_dropped (count_event st 0) n
  | _ => count_event st 0
  end.

Definition is_output (e : event) : bool := match e with Output _ _ => true | _ => false end.

(** What one turn of a drain loop does with the event it looks at, under an
    optional byte budget: stop, take a prefix of an output event, or take it all. *)
Inductive take_action :=
| Stop
| TakePart (chunk : event) (rest : event)
| TakeAll.

Definition drain_action (e : event) (st : SessionDrainStats) (max_output_bytes : option Z) : take_action :=
  match max_output_bytes with
  | None => TakeAll
  | Some m =>
    if (m <=? drained_output_bytes st) && (0 <? drained_events st) && is_output e then Stop
    else
      let remaining := sat_sub m (drained_output_bytes st) in
      if (remaining =? 0) && is_output e then Stop
      else match e with
           | Output s d =>
             let take_n := Z.to_nat (Z.min (zlen d) remaining) in
             if (take_n <? length d)%nat
             then TakePart (Output s (take take_n d)) (Output s (drop take_n d))
             else TakeAll
           | _ => TakeAll
           end
  end.

(** The same for [drain_for_consumer], which has no first test. *)
Definition drain_for_action (e : event) (st : SessionDrainStats) (max_output_bytes : option Z) : take_action :=
  match max_output_bytes with
  | None => TakeAll
  | Some m =>
    let remaining := sat_sub m (drained_output_bytes st) in
    if (remaining =? 0) && is_output e then Stop
    else match e with
         | Output s d =>
           let take_n := Z.to_nat (Z.min (zlen d) remaining) in
           if (take_n <? length d)%nat
           then TakePart (Output s (take take_n d)) (Output s (drop take_n d))
           else TakeAll
         | _ => TakeAll
         end
  end.

(** [for _ in 0..max_events]. *)
Fixpoint drain_loop (n : nat) (q : Inner) (out : list event) (st : SessionDrainStats)
    (max_output_bytes : option Z) : Inner * list event * SessionDrainStats :=
  match n with
  | O => (q, out, st)
  | S n' =>
    match events q with
    | [] => (q, out, st)
    | e :: es =>
      match drain_action e st max_output_bytes with
      | Stop => (q, out, st)
      | TakePart c r =>
        drain_loop n' (set_events q (r :: es) (sat_sub (queued_output_bytes q) (output_bytes c)))
          (out ++ [c]) (count_event st (output_bytes c)) max_output_bytes
      | TakeAll =>
        drain_loop n' (set_events q es (sat_sub (queued_output_bytes q) (output_bytes e)))
          (out ++ [e]) (count_popped st e) max_output_bytes
      end
    end
  end.

Definition drain (q : Inner) (max_events : nat) (max_output_bytes : option Z)
    : Inner * list event * SessionDrainStats :=
  let '(q', out, st) := drain_loop max_events q [] no_stats max_output_bytes in
  (q', out, Stats (drained_events st) (drained_output_bytes st)
              (Z.of_nat (length (events q'))) (queued_output_bytes q') (dropped_output_bytes st)).

(** [drain_with_output_budget]: drain, then lift the back-pressure. *)
Definition drain_with_output_budget (q : Inner) (max_events : nat) (max_output_bytes : option Z)
    : Inner * list event * SessionDrainStats :=
  let '(q', out, st) := drain q max_events max_output_bytes in
  (fst (resume_output_if_below_low_watermark q'), out, st).

Definition event_belongs_to_consumer (q : Inner) (consumer_id : Z) (e : event) : bool :=
  match e with
  | CleanupFailed _ owner _ => bool_decide (owner = Some consumer_id)
  | _ => bool_decide (consumers q !! event_session_id e = Some consumer_id)
  end.

Definition has_event_for_consumer (q : Inner) (consumer_id : Z) : bool :=
  existsb (event_belongs_to_consumer q consumer_id) (events q).

(** [iter().position(p)], with the events before and after it. *)
Fixpoint split_first (p : event -> bool) (es : list event) : option (list event * event * list event) :=
  match es with
  | [] => None
  | e :: es' =>
    if p e then Some ([], e, es')
    else match split_first p es' with
         | Some (pre, x, post) => Some (e :: pre, x, post)
         | None => None
         end
  end.

(** [while events.len() < max_events]; each turn adds one event to [out]. *)
Fixpoint drain_for_loop (n : nat) (q : Inner) (consumer_id : Z) (out : list event)
    (st : SessionDrainStats) (max_output_bytes : option Z)
    : Inner * list event * SessionDrainStats :=
  match n with
  | O => (q, out, st)
  | S n' =>
    match split_first (event_belongs_to_consumer q consumer_id) (events q) with
    | None => (q, out, st)
    | Some (pre, e, post) =>
      match drain_for_action e st max_output_bytes with
      | Stop => (q, out, st)
      | TakePart c r =>
        drain_for_loop n' (set_events q (pre ++ r :: post) (sat_sub (queued_output_bytes q) (output_bytes c)))
          consumer_id (out ++ [c]) (count_event st (output_bytes c)) max_output_bytes
      | TakeAll =>
        drain_for_loop n' (set_events q (pre ++ post) (sat_sub (queued_output_bytes q) (output_bytes e)))
          consumer_id (out ++ [e]) (count_popped st e) max_output_bytes
      end
    end
  end.

Definition drain_for_consumer (q : Inner) (consumer_id : Z) (max_events : nat)
    (max_output_bytes : option Z) : Inner * list event * SessionDrainStats :=
  let '(q', out, st) := drain_for_loop max_events q consumer_id [] no_stats max_output_bytes in
  let mine := List.filter (event_belongs_to_consumer q' consumer_id) (events q') in
  (q', out, Stats (drained_events st) (drained_output_bytes st)
              (Z.of_nat (length mine)) (sum_output mine) (dropped_output_bytes st)).

(** The drain at the end of [drain_blocking_for_consumer_with_output_budget]; the
    wait before it leaves the state alone. *)
Definition drain_for_consumer_with_output_budget (q : Inner) (consumer_id : Z) (max_events : nat)
    (max_output_bytes : option Z) : Inner * list event * SessionDrainStats :=
  let '(q', out, st) := drain_for_consumer q consumer_id max_events max_output_bytes in
  (fst (resume_output_if_below_low_watermark q'), out, st).


(** ** The queue invariant *)

Definition chunk_ok (d : bytes) : Prop := 0 < zlen d <= EVENT_LIMIT.

Definition event_ok (e : event) : Prop :=
  match e with Output _ d => chunk_ok d | _ => True end.

(** What holds of the state whenever the lock is free: exact byte accounting, the
    memory bound, no back-pressure at or below the low watermark, and nothing but
    diagnostics left of a cancelled session. *)
Record qinv (q : Inner) : Prop :=
  { qi_sum : queued_output_bytes q = sum_output (events q);
    qi_limit : queued_output_bytes q <= LIMIT;
    qi_peak : queued_output_bytes q <= peak_output_bytes q <= LIMIT;
    qi_events : Forall event_ok (events q);
    qi_pressure : output_backpressured q = true -> LOW < queued_output_bytes q;
    qi_cancelled : Forall (fun e => event_session_id e ∈ cancelled_sessions q -> is_cleanup e = true)
                     (events q) }.

(** The part of [qinv] that survives until back-pressure is reconsidered. *)
Record qinv_pre (q : Inner) : Prop :=
  { qp_sum : queued_output_bytes q = sum_output (events q);
    qp_peak : queued_output_bytes q <= peak_output_bytes q <= LIMIT;
    qp_events : Forall event_ok (events q);
    qp_cancelled : Forall (fun e => event_session_id e ∈ cancelled_sessions q -> is_cleanup e = true)
                     (events q) }.

Lemma limits : LIMIT = 8388608 /\ LOW = 4194304 /\ EVENT_LIMIT = 262144.
Proof. done. Qed.

Lemma zlen_nonneg l : 0 <= zlen l.
Proof. unfold zlen. lia. Qed.

Lemma output_bytes_nonneg e : 0 <= output_bytes e.
Proof. destruct e; simpl; try lia. apply zlen_nonneg. Qed.

Arguments sum_output : simpl never.

Lemma sum_output_nil : sum_output [] = 0.
Proof. done. Qed.

Lemma sum_output_cons e es : sum_output (e :: es) = output_bytes e + sum_output es.
Proof. done. Qed.

Lemma sum_output_app es1 es2 : sum_output (es1 ++ es2) = sum_output es1 + sum_output es2.
Proof.
  induction es1 as [|e es1 IH]; cbn [app]; [done|]. rewrite !sum_output_cons, IH. lia.
Qed.

Lemma sum_output_nonneg es : 0 <= sum_output es.
Proof.
  induction es as [|e es IH]; [done|]. rewrite sum_output_cons.
  pose proof (output_bytes_nonneg e). lia.
Qed.

(** Splitting a list by a test splits its output bytes. *)
Lemma sum_output_filter p es :
  sum_output (List.filter p es) + sum_output (List.filter (fun e => negb (p e)) es) = sum_output es.
Proof.
  induction es as [|e es IH]; [done|]. rewrite (sum_output_cons e es), <- IH.
  cbn [List.filter]. destruct (p e); cbn [negb]; rewrite sum_output_cons; lia.
Qed.

Lemma Forall_lfilter (P : event -> Prop) p es : Forall P es -> Forall P (List.filter p es).
Proof. induction 1; cbn; [constructor|]. destruct (p x); auto. Qed.

Lemma output_bytes_plain e : is_output e = false -> output_bytes e = 0.
Proof. by destruct e. Qed.

Lemma qinv_pre_of q : qinv q -> qinv_pre q.
Proof. intros []. by constructor. Qed.

Lemma qinv_new : qinv new.
Proof. by constructor; cbn [new events]; try apply Forall_nil. Qed.

(** Reconsidering the back-pressure restores the whole invariant. *)
Lemma resume_output_qinv q : qinv_pre q -> qinv (fst (resume_output_if_below_low_watermark q)).
Proof.
  intros []. unfold resume_output_if_below_low_watermark.
  destruct (output_backpressured q) eqn:Hb; cbn [andb].
  - destruct (queued_output_bytes q <=? LOW) eqn:Hl; bool_hyps; constructor; cbn; try done; lia.
  - constructor; cbn [fst]; try done; [lia|congruence].
Qed.

Lemma resume_output_same q :
  let q' := fst (resume_output_if_below_low_watermark q) in
  events q' = events q /\ producer_active q' = producer_active q /\ closed q' = closed q
  /\ cancelled_sessions q' = cancelled_sessions q /\ consumers q' = consumers q.
Proof. unfold resume_output_if_below_low_watermark. by destruct (_ && _). Qed.

(** ** The lock-protected operations keep the invariant *)

Lemma accepts_spec q sid :
  accepts q sid = true <-> closed q = false /\ sid ∉ cancelled_sessions q.
Proof.
  unfold accepts. rewrite andb_true_iff, negb_true_iff, bool_decide_eq_true. done.
Qed.

Lemma sat_add_le x y m : m < 2 ^ 64 - 1 -> sat_add 64 x y <= m -> sat_add 64 x y = x + y.
Proof. unfold sat_add. lia. Qed.

Lemma push_chunk_cases q sid d :
  qinv q ->
  push_output_chunk_step q sid d =
    (if accepts q sid then
       if negb (output_backpressured q) && (queued_output_bytes q + zlen d <=? LIMIT) then
         let n := queued_output_bytes q + zlen d in
         Some (mkInner (events q ++ [Output sid d]) n (Z.max (peak_output_bytes q) n)
                 (LIMIT <=? n) (producer_active q) (closed q) (cancelled_sessions q) (consumers q), true)
       else Some (set_backpressured q true, false)
     else None).
Proof.
  intros Hq. unfold push_output_chunk_step. destruct (accepts q sid); [|done].
  pose proof limits as (HL & _ & _).
  pose proof (sum_output_nonneg (events q)). pose proof (zlen_nonneg d).
  pose proof (qi_sum q Hq). pose proof (qi_limit q Hq).
  assert (Hfit : (sat_add 64 (queued_output_bytes q) (zlen d) <=? LIMIT)
                 = (queued_output_bytes q + zlen d <=? LIMIT)).
  { unfold sat_add. destruct (_ <=? LIMIT) eqn:E1, (_ + _ <=? LIMIT) eqn:E2; bool_hyps; lia. }
  rewrite Hfit. destruct (output_backpressured q) eqn:Hb; [done|]. cbn [negb andb].
  destruct (_ + _ <=? LIMIT) eqn:E; [|done]. bool_hyps.
  rewrite (sat_add_le _ _ LIMIT); [|lia|unfold sat_add; lia].
  unfold set_events, set_peak, set_backpressured. cbn.
  destruct (LIMIT <=? _); by rewrite ?Hb.
Qed.

Lemma push_chunk_qinv q sid d q' b :
  qinv q -> chunk_ok d -> push_output_chunk_step q sid d = Some (q', b) -> qinv q'.
Proof.
  intros Hq Hd. pose proof limits as (HL & HW & HE). rewrite push_chunk_cases by done.
  destruct (accepts q sid) eqn:Ha; [|done]. apply accepts_spec in Ha as [_ Ha].
  destruct Hq. unfold chunk_ok in Hd.
  destruct (_ && _) eqn:E; intros [= <- <-]; bool_hyps.
  - constructor; cbn [events queued_output_bytes peak_output_bytes output_backpressured cancelled_sessions].
    + rewrite sum_output_app, sum_output_cons, sum_output_nil. cbn [output_bytes]. lia.
    + lia.
    + lia.
    + apply Forall_app. split; [done|]. by apply Forall_singleton.
    + intros Hb. bool_hyps. lia.
    + apply Forall_app. split; [done|]. apply Forall_singleton. cbn. tauto.
  - constructor; cbn; try done. intros _. destruct (output_backpressured q); [auto|].
    cbn [negb andb] in E. bool_hyps. lia.
Qed.

(** Appending an event that carries no output. *)
Lemma append_plain_qinv q e :
  qinv q -> is_output e = false ->
  (event_session_id e ∈ cancelled_sessions q -> is_cleanup e = true) ->
  qinv (set_events q (events q ++ [e]) (queued_output_bytes q)).
Proof.
  intros [] He Hc. constructor; cbn [set_events events queued_output_bytes peak_output_bytes
    output_backpressured cancelled_sessions]; try done.
  - rewrite sum_output_app, sum_output_cons, sum_output_nil, output_bytes_plain by done. lia.
  - apply Forall_app. split; [done|]. apply Forall_singleton. by destruct e.
  - apply Forall_app. split; [done|]. by apply Forall_singleton.
Qed.

Lemma push_other_qinv q e : qinv q -> is_output e = false -> qinv (push_other q e).
Proof.
  intros Hq He. unfold push_other. destruct (accepts _ _) eqn:Ha; [|done].
  apply accepts_spec in Ha as [_ Ha]. by apply append_plain_qinv.
Qed.

Lemma push_cleanup_qinv q e : qinv q -> is_cleanup e = true -> qinv (push_cleanup_failure q e).
Proof.
  intros Hq He. unfold push_cleanup_failure. destruct (closed q); [done|]. destruct (_ <=? _)%nat; [done|].
  apply append_plain_qinv; try done. by destruct e.
Qed.

Lemma set_routing_qinv q cs ms : qinv q -> cs ⊆ cancelled_sessions q -> qinv (set_routing q cs ms).
Proof.
  intros [] Hcs. constructor; cbn; try done.
  eapply Forall_impl; [done|]. cbn. auto.
Qed.

Lemma set_flags_qinv q :
  qinv q -> qinv (set_closed q) /\ forall b, qinv (set_producer_active q b).
Proof. intros []. split; [by constructor|]. intros b. by constructor. Qed.

Lemma cancel_session_qinv q sid : qinv q -> qinv (cancel_session q sid).
Proof.
  intros []. unfold cancel_session. apply resume_output_qinv.
  set (p := fun e : event => bool_decide (event_session_id e = sid)).
  change (fun e : event => negb (bool_decide (event_session_id e = sid))) with (fun e => negb (p e)).
  cbn [events set_routing queued_output_bytes].
  pose proof (sum_output_filter p (events q)).
  pose proof (sum_output_nonneg (List.filter p (events q))).
  pose proof (sum_output_nonneg (List.filter (fun e => negb (p e)) (events q))).
  constructor; cbn [set_events events queued_output_bytes peak_output_bytes cancelled_sessions set_routing].
  - unfold sat_sub. lia.
  - unfold sat_sub. lia.
  - by apply Forall_lfilter.
  - apply Forall_forall. intros e He. apply list_elem_of_In, filter_In in He as [He Hp].
    apply negb_true_iff, bool_decide_eq_false in Hp. intros Hin.
    rewrite Forall_forall in qi_cancelled0. apply qi_cancelled0; [by apply list_elem_of_In|].
    apply elem_of_union in Hin as [Hin%elem_of_singleton|]; done.
Qed.

(** ** Draining *)

(** The queue as a stream: output byte by byte, other events whole; [sid]'s part
    leaves out the diagnostics, which are routed by their owner. *)
Inductive item := IByte (sid : bytes) (b : Z) | IEvent (e : event).

Definition items (e : event) : list item :=
  match e with Output s d => IByte s <$> d | _ => [IEvent e] end.

Definition stream (es : list event) : list item := concat (items <$> es).

Definition of_session (sid : bytes) (e : event) : bool :=
  bool_decide (event_session_id e = sid) && negb (is_cleanup e).

Definition stream_of (sid : bytes) (es : list event) : list item :=
  stream (List.filter (of_session sid) es).

Arguments stream : simpl never.

Lemma stream_cons e es : stream (e :: es) = items e ++ stream es.
Proof. done. Qed.

Lemma stream_app es1 es2 : stream (es1 ++ es2) = stream es1 ++ stream es2.
Proof. unfold stream. by rewrite fmap_app, concat_app. Qed.

Lemma stream_of_app sid es1 es2 : stream_of sid (es1 ++ es2) = stream_of sid es1 ++ stream_of sid es2.
Proof. unfold stream_of. by rewrite List.filter_app, stream_app. Qed.

Lemma stream_single e : stream [e] = items e.
Proof. apply app_nil_r. Qed.

Lemma stream_of_none sid es : Forall (fun e => of_session sid e = false) es -> stream_of sid es = [].
Proof.
  unfold stream_of. induction 1 as [|e es He _ IH]; [done|]. cbn [List.filter]. by rewrite He.
Qed.

(** A turn of either drain loop takes [c] from the event [e] and leaves [r]. *)
Inductive taken (m : option Z) (st : SessionDrainStats) (e : event)
    : event -> list event -> SessionDrainStats -> Prop :=
| taken_part s d n :
  e = Output s d -> 0 < n < zlen d ->
  (forall b, m = Some b -> drained_output_bytes st + n <= b) ->
  taken m st e (Output s (take (Z.to_nat n) d)) [Output s (drop (Z.to_nat n) d)] (count_event st n)
| taken_all :
  (forall b, m = Some b -> output_bytes e = 0 \/ drained_output_bytes st + output_bytes e <= b) ->
  taken m st e e [] (count_popped st e).

Definition budget_ok (m : option Z) (st : SessionDrainStats) : Prop :=
  forall b, m = Some b -> 0 <= drained_output_bytes st <= b.

Lemma zlen_take d n : 0 <= n <= zlen d -> zlen (take (Z.to_nat n) d) = n.
Proof. unfold zlen. rewrite length_take. lia. Qed.

Lemma drain_for_action_taken e st m :
  budget_ok m st ->
  match drain_for_action e st m with
  | Stop => exists b, m = Some b /\ drained_output_bytes st = b /\ is_output e = true
  | TakePart c r => taken m st e c [r] (count_event st (output_bytes c))
  | TakeAll => taken m st e e [] (count_popped st e)
  end.
Proof.
  intros Hb. unfold drain_for_action. destruct m as [b|]; [|by apply taken_all].
  specialize (Hb b eq_refl). unfold sat_sub.
  destruct (_ && _) eqn:E; bool_hyps; [exists b; split_and!; [done|lia|done]|].
  destruct e as [| | |s d| | | | | | |]; try by apply taken_all; left.
  cbn [is_output] in E. rewrite andb_true_r in E. bool_hyps.
  destruct (_ <? _)%nat eqn:E2; bool_hyps.
  - set (n := Z.min (zlen d) (Z.max (b - drained_output_bytes st) 0)) in *.
    assert (0 <= n <= zlen d) by (pose proof (zlen_nonneg d); lia).
    cbn [output_bytes]. rewrite zlen_take by done.
    apply taken_part; [done|unfold zlen in *; lia|]. intros ? [= <-]. lia.
  - apply taken_all. intros ? [= <-]. right. unfold output_bytes, zlen in *. lia.
Qed.

(** The first test of [drain] is subsumed by its second. *)
Lemma drain_action_for e st m : budget_ok m st -> drain_action e st m = drain_for_action e st m.
Proof.
  intros Hb. unfold drain_action, drain_for_action. destruct m as [b|]; [|done].
  specialize (Hb b eq_refl). destruct (_ && _) eqn:E; [|done]. bool_hyps.
  unfold sat_sub. replace (Z.max _ _) with 0 by lia. cbn [Z.eqb andb].
  by match goal with H : is_output e = true |- _ => rewrite H end.
Qed.

Abbreviation dstate := (Inner * list event * SessionDrainStats)%type.

(** Both drain loops as one step relation: skip [pre], take from the first event
    [sel] selects. *)
Inductive dstep (m : option Z) (sel : event -> bool) : dstate -> dstate -> Prop :=
| dstep_take q out st pre e post c r st' :
  events q = pre ++ e :: post -> Forall (fun x => sel x = false) pre -> sel e = true ->
  taken m st e c r st' ->
  dstep m sel (q, out, st)
    (set_events q (pre ++ r ++ post) (sat_sub (queued_output_bytes q) (output_bytes c)),
     out ++ [c], st').

(** What a drain started in [q0] keeps true turn after turn. *)
Record dinv (q0 : Inner) (m : option Z) (d : dstate) : Prop :=
  { di_pre : qinv_pre d.1.1;
    di_limit : queued_output_bytes q0 <= LIMIT;
    di_same : d.1.1 = set_events q0 (events d.1.1) (queued_output_bytes d.1.1);
    di_sum : sum_output d.1.2 + queued_output_bytes d.1.1 = queued_output_bytes q0;
    di_bytes : drained_output_bytes d.2 = sum_output d.1.2;
    di_budget : budget_ok m d.2;
    di_count : drained_events d.2 = Z.min (Z.of_nat (length d.1.2)) (2 ^ 64 - 1) }.

Lemma taken_items m st e c r st' : taken m st e c r st' -> items c ++ stream r = items e.
Proof.
  destruct 1 as [s d n -> Hn _|_]; cbn [items].
  - rewrite stream_single. cbn [items]. by rewrite <- fmap_app, take_drop.
  - by rewrite app_nil_r.
Qed.

(** Taking splits the bytes of the event and keeps its session. *)
Lemma taken_bytes m st e c r st' :
  taken m st e c r st' -> output_bytes c + sum_output r = output_bytes e.
Proof.
  destruct 1 as [s d n -> Hn _|_]; cbn [output_bytes].
  - rewrite sum_output_cons. cbn [output_bytes]. unfold zlen. rewrite length_take, length_drop.
    rewrite sum_output_nil. unfold zlen in Hn. lia.
  - rewrite sum_output_nil. lia.
Qed.

Lemma taken_like m st e c r st' :
  taken m st e c r st' ->
  Forall (fun x => event_session_id x = event_session_id e /\ is_cleanup x = is_cleanup e
                   /\ (is_cleanup e = true -> x = e)) (c :: r).
Proof.
  destruct 1 as [s d n -> Hn _|_]; repeat constructor; try done.
Qed.

Lemma taken_ok m st e c r st' : taken m st e c r st' -> event_ok e -> Forall event_ok r.
Proof.
  destruct 1 as [s d n -> Hn _|_]; repeat constructor.
  - unfold zlen in *. rewrite length_drop. lia.
  - unfold event_ok, chunk_ok, zlen in *. rewrite length_drop. lia.
Qed.

Lemma taken_stats m st e c r st' :
  taken m st e c r st' ->
  drained_output_bytes st' = sat_add 64 (drained_output_bytes st) (output_bytes c)
  /\ drained_events st' = sat_add 64 (drained_events st) 1.
Proof.
  destruct 1 as [s d n -> Hn _|_]; cbn.
  - by rewrite zlen_take by lia.
  - by destruct e.
Qed.

Lemma taken_budget m st e c r st' :
  taken m st e c r st' -> budget_ok m st -> budget_ok m st'.
Proof.
  intros Ht Hb b ->. specialize (Hb b eq_refl). destruct (taken_stats _ _ _ _ _ _ Ht) as [-> _].
  pose proof (output_bytes_nonneg c). unfold sat_add.
  destruct Ht as [s d n -> Hn Hm|Hm]; specialize (Hm b eq_refl).
  - cbn [output_bytes] in *. rewrite zlen_take in * by lia. lia.
  - lia.
Qed.

Lemma Forall_mid (P : event -> Prop) pre e r post :
  Forall P (pre ++ e :: post) -> (P e -> Forall P r) -> Forall P (pre ++ r ++ post).
Proof. rewrite !Forall_app, Forall_cons. tauto. Qed.

Lemma dinv_step q0 m sel d d' : dstep m sel d d' -> dinv q0 m d -> dinv q0 m d'.
Proof.
  destruct 1 as [q out st pre e post c r st' Heq Hpre Hsel Ht]. intros [[] ? ? ? ? ? ?]. cbn in *.
  pose proof (taken_bytes _ _ _ _ _ _ Ht) as Hby.
  pose proof (output_bytes_nonneg c). pose proof (sum_output_nonneg r).
  pose proof (sum_output_nonneg pre). pose proof (sum_output_nonneg post).
  pose proof (sum_output_nonneg out). pose proof limits as (HL & _).
  destruct (taken_stats _ _ _ _ _ _ Ht) as [Hs1 Hs2].
  rewrite Heq in *. rewrite !sum_output_app, sum_output_cons in qp_sum0.
  assert (Hsub : sat_sub (queued_output_bytes q) (output_bytes c)
                 = queued_output_bytes q - output_bytes c) by (unfold sat_sub; lia).
  constructor; cbn; rewrite ?Hsub; try done.
  - constructor; cbn; rewrite ?Hsub.
    + rewrite !sum_output_app. lia.
    + lia.
    + eapply Forall_mid; [done|]. by eapply taken_ok.
    + eapply Forall_mid; [done|]. intros Hc.
      pose proof (taken_like _ _ _ _ _ _ Ht) as Hl. apply Forall_cons in Hl as [_ Hl].
      eapply Forall_impl; [done|]. cbn. intros x (-> & -> & _). done.
  - by match goal with H : q = _ |- _ => rewrite H end.
  - rewrite sum_output_app, sum_output_cons, sum_output_nil. lia.
  - rewrite Hs1, sum_output_app, sum_output_cons, sum_output_nil. unfold sat_add. lia.
  - by eapply taken_budget.
  - rewrite Hs2, length_app. unfold sat_add. cbn. lia.
Qed.

(** Why a drain stops short of [max_events]: nothing is selected, or the byte
    budget is used up exactly and the next selected event is output. *)
Definition dstuck (m : option Z) (sel : event -> bool) (d : dstate) : Prop :=
  Forall (fun e => sel e = false) (events d.1.1)
  \/ exists pre e post, events d.1.1 = pre ++ e :: post /\ Forall (fun x => sel x = false) pre
       /\ sel e = true /\ is_output e = true /\ m = Some (drained_output_bytes d.2).

Definition dfinal (n : nat) (m : option Z) (sel : event -> bool) (d d' : dstate) : Prop :=
  exists k, (k <= n)%nat /\ nsteps (dstep m sel) k d d' /\ (k = n \/ dstuck m sel d').

Lemma dfinal_step n m sel d1 d2 d3 :
  dstep m sel d1 d2 -> dfinal n m sel d2 d3 -> dfinal (S n) m sel d1 d3.
Proof.
  intros H1 (k & Hk & Hn & Hf). exists (S k). split_and!; [lia|by eapply nsteps_l|].
  destruct Hf; [left; lia|by right].
Qed.

Lemma dfinal_stuck n m sel d : dstuck m sel d -> dfinal n m sel d d.
Proof. intros H. exists O. split_and!; [lia|constructor|by right]. Qed.

Lemma drain_loop_final n q out st m :
  budget_ok m st -> dfinal n m (fun _ => true) (q, out, st) (drain_loop n q out st m).
Proof.
  revert q out st. induction n as [|n IH]; intros q out st Hb; cbn [drain_loop].
  { exists O. split_and!; [lia|constructor|by left]. }
  destruct (events q) as [|e es] eqn:He.
  { apply dfinal_stuck. left. cbn; by rewrite He. }
  rewrite drain_action_for by done. pose proof (drain_for_action_taken e st m Hb) as Ht.
  destruct (drain_for_action e st m) as [|c r|].
  - destruct Ht as (b & -> & Hd & Ho). apply dfinal_stuck. right. exists [], e, es. cbn.
    rewrite Hd. by split_and!.
  - eapply dfinal_step; [|apply IH; by eapply taken_budget].
    by apply (dstep_take m _ q out st [] e es c [r]).
  - eapply dfinal_step; [|apply IH; by eapply taken_budget].
    by apply (dstep_take m _ q out st [] e es e []).
Qed.

Lemma split_first_spec p es :
  match split_first p es with
  | Some (pre, e, post) => es = pre ++ e :: post /\ Forall (fun x => p x = false) pre /\ p e = true
  | None => Forall (fun x => p x = false) es
  end.
Proof.
  induction es as [|e es IH]; cbn [split_first]; [constructor|]. destruct (p e) eqn:Hp; [done|].
  destruct (split_first p es) as [[[pre x] post]|]; [|by constructor].
  destruct IH as (-> & ? & ?). split_and!; [done|by constructor|done].
Qed.

Lemma drain_for_loop_final n q c out st m :
  budget_ok m st ->
  dfinal n m (event_belongs_to_consumer q c) (q, out, st) (drain_for_loop n q c out st m).
Proof.
  revert q out st. induction n as [|n IH]; intros q out st Hb; cbn [drain_for_loop].
  { exists O. split_and!; [lia|constructor|by left]. }
  pose proof (split_first_spec (event_belongs_to_consumer q c) (events q)) as Hs.
  destruct (split_first _ _) as [[[pre e] post]|]; [|apply dfinal_stuck; by left].
  destruct Hs as (He & Hpre & Hsel). pose proof (drain_for_action_taken e st m Hb) as Ht.
  destruct (drain_for_action e st m) as [|x r|].
  - destruct Ht as (b & -> & Hd & Ho). apply dfinal_stuck. right. exists pre, e, post. cbn.
    rewrite Hd. by split_and!.
  - eapply dfinal_step; [by apply (dstep_take m _ q out st pre e post x [r])|].
    apply (IH (set_events q _ _)). by eapply taken_budget.
  - eapply dfinal_step; [by apply (dstep_take m _ q out st pre e post e [])|].
    apply (IH (set_events q _ _)). by eapply taken_budget.
Qed.

Lemma dsteps_inv q0 m sel k d d' : nsteps (dstep m sel) k d d' -> dinv q0 m d -> dinv q0 m d'.
Proof. induction 1; [done|]. intros. by eauto using dinv_step. Qed.

Lemma dsteps_length m sel k d d' :
  nsteps (dstep m sel) k d d' -> length d'.1.2 = (length d.1.2 + k)%nat.
Proof.
  induction 1 as [|k d1 d2 d3 H1 _ IH]; [lia|]. rewrite IH. destruct H1. cbn.
  rewrite length_app. cbn. lia.
Qed.

(** A selection that cannot tell the two parts of a split event apart. *)
Definition sel_ok (sel : event -> bool) : Prop :=
  forall x e, event_session_id x = event_session_id e -> is_cleanup x = is_cleanup e ->
  (is_cleanup e = true -> x = e) -> sel x = sel e.

Lemma filter_none (p : event -> bool) es : Forall (fun x => p x = false) es -> List.filter p es = [].
Proof. induction 1 as [|x es Hx _ IH]; [done|]. cbn. by rewrite Hx. Qed.

Lemma filter_all (p : event -> bool) es : Forall (fun x => p x = true) es -> List.filter p es = es.
Proof. induction 1 as [|x es Hx _ IH]; [done|]. cbn. by rewrite Hx, IH. Qed.

Lemma taken_sel m st e c r st' sel :
  sel_ok sel -> taken m st e c r st' -> Forall (fun x => sel x = sel e) (c :: r).
Proof.
  intros Hs Ht. eapply Forall_impl; [by eapply taken_like|]. cbn. intros x (?&?&?). by apply Hs.
Qed.

(** A turn moves the front of the selected stream to the output and leaves the
    events that are not selected alone. *)
Lemma dstep_streams m sel d d' :
  sel_ok sel -> dstep m sel d d' ->
  stream d'.1.2 ++ stream (List.filter sel (events d'.1.1))
    = stream d.1.2 ++ stream (List.filter sel (events d.1.1))
  /\ List.filter (fun e => negb (sel e)) (events d'.1.1)
    = List.filter (fun e => negb (sel e)) (events d.1.1).
Proof.
  intros Hs. destruct 1 as [q out st pre e post c r st' He Hpre Hsel Ht]. cbn.
  apply (taken_sel _ _ _ _ _ _ sel Hs) in Ht as Hr. apply Forall_cons in Hr as [Hc Hr].
  rewrite Hsel in Hc, Hr. rewrite He, !List.filter_app. cbn [List.filter]. rewrite Hsel. cbn [negb].
  rewrite (filter_none sel pre), (filter_all sel r) by done. split.
  - cbn [app]. rewrite (stream_app out), <- app_assoc, stream_single, stream_app, stream_cons.
    f_equal. rewrite app_assoc. by erewrite taken_items by done.
  - rewrite (filter_none _ r); [done|]. eapply Forall_impl; [done|]. cbn. by intros ? ->.
Qed.

Lemma dsteps_streams m sel k d d' :
  sel_ok sel -> nsteps (dstep m sel) k d d' ->
  stream d'.1.2 ++ stream (List.filter sel (events d'.1.1))
    = stream d.1.2 ++ stream (List.filter sel (events d.1.1))
  /\ List.filter (fun e => negb (sel e)) (events d'.1.1)
    = List.filter (fun e => negb (sel e)) (events d.1.1).
Proof.
  intros Hs. induction 1 as [|k d1 d2 d3 H1 _ [IH1 IH2]]; [done|].
  destruct (dstep_streams m sel d1 d2 Hs H1) as [E1 E2]. by rewrite IH1, IH2.
Qed.

Lemma of_session_sel_ok sid : sel_ok (of_session sid).
Proof. intros x e H1 H2 _. unfold of_session. by rewrite H1, H2. Qed.

Lemma stream_of_cons sid e es :
  stream_of sid (e :: es) = (if of_session sid e then items e else []) ++ stream_of sid es.
Proof. unfold stream_of. cbn [List.filter]. by destruct (of_session sid e). Qed.

(** A session's stream keeps its order through a turn when its events are selected
    together. *)
Lemma dstep_session m sel sid d d' :
  (forall x y, of_session sid x = true -> of_session sid y = true -> sel x = sel y) ->
  dstep m sel d d' ->
  stream_of sid (d'.1.2 ++ events d'.1.1) = stream_of sid (d.1.2 ++ events d.1.1).
Proof.
  intros Hu. destruct 1 as [q out st pre e post c r st' He Hpre Hsel Ht]. cbn.
  apply (taken_sel _ _ _ _ _ _ _ (of_session_sel_ok sid)) in Ht as Hr.
  apply Forall_cons in Hr as [Hc Hr].
  rewrite He, !stream_of_app, !stream_of_cons, Hc, <- !app_assoc. f_equal.
  destruct (of_session sid e) eqn:Hse.
  - rewrite (stream_of_none sid pre).
    + unfold stream_of. rewrite (filter_all _ r) by done. cbn [List.filter app].
      change (stream []) with (@nil item). cbn [app]. rewrite app_assoc. by erewrite taken_items by done.
    + eapply Forall_impl; [done|]. intros x Hx. cbn in Hx.
      destruct (of_session sid x) eqn:E; [|done]. specialize (Hu x e E Hse). congruence.
  - rewrite (stream_of_none sid r) by done. done.
Qed.

Lemma dfinal_session n m sel sid d d' :
  (forall x y, of_session sid x = true -> of_session sid y = true -> sel x = sel y) ->
  dfinal n m sel d d' ->
  stream_of sid (d'.1.2 ++ events d'.1.1) = stream_of sid (d.1.2 ++ events d.1.1).
Proof.
  intros Hu (k & _ & Hn & _). induction Hn as [|k d1 d2 d3 H1 _ IH]; [done|].
  rewrite IH. by eapply dstep_session.
Qed.

Definition budget_nonneg (m : option Z) : Prop := forall b, m = Some b -> 0 <= b.

Lemma dinv_start q m : qinv q -> budget_nonneg m -> dinv q m (q, [], no_stats).
Proof.
  intros Hq Hm. pose proof (qi_limit q Hq). constructor; cbn; try done.
  - by apply qinv_pre_of.
  - by destruct q.
  - intros b Hb. cbn. specialize (Hm b Hb). lia.
Qed.

(** What every drain guarantees of the queue [q'] it leaves and of its output. *)
Record drained (n : nat) (m : option Z) (sel : event -> bool) (q q' : Inner) (out : list event)
    (st : SessionDrainStats) : Prop :=
  { dr_pre : qinv_pre q';
    dr_same : q' = set_events q (events q') (queued_output_bytes q');
    dr_stream : stream (List.filter sel (events q))
                = stream out ++ stream (List.filter sel (events q'));
    dr_others : List.filter (fun e => negb (sel e)) (events q')
                = List.filter (fun e => negb (sel e)) (events q);
    dr_events : (length out <= n)%nat;
    dr_budget : forall b, m = Some b -> sum_output out <= b;
    dr_stats : drained_output_bytes st = sum_output out
               /\ drained_events st = Z.min (Z.of_nat (length out)) (2 ^ 64 - 1);
    dr_stop : length out = n \/ Forall (fun e => sel e = false) (events q')
              \/ exists pre e post, events q' = pre ++ e :: post
                   /\ Forall (fun x => sel x = false) pre /\ sel e = true
                   /\ is_output e = true /\ m = Some (sum_output out) }.

Lemma dfinal_drained n m sel q q' out st :
  sel_ok sel -> qinv q -> budget_nonneg m ->
  dfinal n m sel (q, [], no_stats) (q', out, st) -> drained n m sel q q' out st.
Proof.
  intros Hs Hq Hm (k & Hk & Hn & Hf).
  pose proof (dsteps_inv q m sel k _ _ Hn (dinv_start q m Hq Hm)) as [].
  pose proof (dsteps_length _ _ _ _ _ Hn) as Hl.
  destruct (dsteps_streams _ _ _ _ _ Hs Hn) as [Hst Hot]. cbn in *.
  constructor; try done; [lia| |].
  - intros b Hb. specialize (di_budget0 b Hb). cbn in *. lia.
  - destruct Hf as [->|Hf]; [left; lia|right].
    destruct Hf as [Hf|(pre & e & post & ? & ? & ? & ? & Hb)]; [by left|right].
    exists pre, e, post. split_and!; try done. cbn in *. congruence.
Qed.

Lemma belongs_sel_ok q c : sel_ok (event_belongs_to_consumer q c).
Proof.
  intros x e H1 H2 H3. destruct (is_cleanup e) eqn:E; [by rewrite H3|].
  unfold event_belongs_to_consumer. destruct x; try done; destruct e; try done; cbn in *; by rewrite H1.
Qed.

(** The events of one session go to one consumer. *)
Lemma belongs_session q c sid x y :
  of_session sid x = true -> of_session sid y = true ->
  event_belongs_to_consumer q c x = event_belongs_to_consumer q c y.
Proof.
  unfold of_session. rewrite !andb_true_iff, !bool_decide_eq_true, !negb_true_iff.
  intros [Hx Cx] [Hy Cy].
  unfold event_belongs_to_consumer. destruct x; try done; destruct y; try done; cbn in *; by rewrite Hx, Hy.
Qed.

Lemma resume_output_queue q :
  events (fst (resume_output_if_below_low_watermark q)) = events q
  /\ queued_output_bytes (fst (resume_output_if_below_low_watermark q)) = queued_output_bytes q.
Proof. unfold resume_output_if_below_low_watermark. by destruct (_ && _). Qed.

Lemma drain_loop_drained n q m :
  qinv q -> budget_nonneg m ->
  let '(q', out, st) := drain_loop n q [] no_stats m in
  drained n m (fun _ => true) q q' out st /\ dfinal n m (fun _ => true) (q, [], no_stats) (q', out, st).
Proof.
  intros Hq Hm. pose proof (drain_loop_final n q [] no_stats m) as Hf.
  destruct (drain_loop _ _ _ _ _) as [[q' out] st].
  specialize (Hf (di_budget _ _ _ (dinv_start q m Hq Hm))). split; [|done].
  by apply dfinal_drained.
Qed.

Lemma drain_for_loop_drained n q c m :
  qinv q -> budget_nonneg m ->
  let '(q', out, st) := drain_for_loop n q c [] no_stats m in
  drained n m (event_belongs_to_consumer q c) q q' out st
  /\ dfinal n m (event_belongs_to_consumer q c) (q, [], no_stats) (q', out, st).
Proof.
  intros Hq Hm. pose proof (drain_for_loop_final n q c [] no_stats m) as Hf.
  destruct (drain_for_loop _ _ _ _ _ _) as [[q' out] st].
  specialize (Hf (di_budget _ _ _ (dinv_start q m Hq Hm))). split; [|done].
  apply dfinal_drained; auto using belongs_sel_ok.
Qed.

Lemma filter_true (es : list event) : List.filter (fun _ => true) es = es.
Proof. by apply filter_all, Forall_true. Qed.

(** Draining under an event limit [n] and an optional byte budget [m] hands
    over a prefix of the queued byte/event stream and keeps the rest, in order and
    without loss or duplication, even where an output event is split; it respects
    both limits, reports exact statistics, keeps the queue invariant, and stops
    early only on an empty queue or in front of output with the budget used up
    exactly. *)
Theorem drain_lossless q n m q' out st :
  qinv q -> budget_nonneg m -> drain_with_output_budget q n m = (q', out, st) ->
  qinv q'
  /\ stream (events q) = stream out ++ stream (events q')
  /\ (length out <= n)%nat /\ (forall b, m = Some b -> sum_output out <= b)
  /\ drained_output_bytes st = sum_output out
  /\ queued_output_bytes_stat st = sum_output (events q')
  /\ queued_events st = Z.of_nat (length (events q'))
  /\ (length out = n \/ events q' = []
      \/ exists e es, events q' = e :: es /\ is_output e = true /\ m = Some (sum_output out)).
Proof.
  intros Hq Hm. unfold drain_with_output_budget, drain.
  pose proof (drain_loop_drained n q m Hq Hm) as Hd.
  destruct (drain_loop _ _ _ _ _) as [[q1 out1] st1]. destruct Hd as [[] _].
  destruct (resume_output_queue q1) as [He _].
  intros [= <- <- <-]. rewrite He. cbn [drained_output_bytes queued_output_bytes_stat queued_events].
  rewrite !filter_true in dr_stream0.
  split_and!; try done; [by apply resume_output_qinv|by apply dr_stats0|by apply qp_sum|].
  destruct dr_stop0 as [|[Hn|(pre & e & post & Heq & Hp & _ & Ho & Hb)]]; [by left|..]; right.
  - left. destruct (events q1); [done|]. by apply Forall_cons in Hn as [? _].
  - right. destruct pre; [by exists e, post|]. by apply Forall_cons in Hp as [? _].
Qed.

(** Draining for one consumer takes only the events routed to it: every other
    queued event stays where it was, the consumer's own stream is split into what
    is handed over and what stays, within both limits, and the queue invariant is
    kept. If an event for the consumer is queued and both limits are positive,
    something is handed over. *)
Theorem drain_for_consumer_isolated q c n m q' out st :
  qinv q -> budget_nonneg m -> drain_for_consumer_with_output_budget q c n m = (q', out, st) ->
  let mine := event_belongs_to_consumer q c in
  qinv q'
  /\ List.filter (fun e => negb (mine e)) (events q') = List.filter (fun e => negb (mine e)) (events q)
  /\ stream (List.filter mine (events q)) = stream out ++ stream (List.filter mine (events q'))
  /\ (length out <= n)%nat /\ (forall b, m = Some b -> sum_output out <= b)
  /\ queued_output_bytes_stat st = sum_output (List.filter mine (events q'))
  /\ (has_event_for_consumer q c = true -> (0 < n)%nat -> m <> Some 0 -> out <> []).
Proof.
  intros Hq Hm. unfold drain_for_consumer_with_output_budget, drain_for_consumer.
  pose proof (drain_for_loop_drained n q c m Hq Hm) as Hd.
  destruct (drain_for_loop _ _ _ _ _ _) as [[q1 out1] st1]. destruct Hd as [[] (k & Hk & Hn & _)].
  destruct (resume_output_queue q1) as [He _].
  assert (Hb1 : event_belongs_to_consumer q1 c = event_belongs_to_consumer q c)
    by (rewrite dr_same0; done).
  intros [= <- <- <-]. cbn zeta. rewrite He. cbn [queued_output_bytes_stat]. rewrite Hb1.
  split_and!; try done; [by apply resume_output_qinv|].
  intros Hhas Hpos Hm0 ->. destruct dr_stop0 as [E|[Hno|(pre & e & post & _ & _ & _ & _ & Hb)]].
  - cbn in E. lia.
  - apply dsteps_length in Hn as Hl. cbn in Hl. replace k with O in Hn by lia.
    inversion Hn; subst. apply existsb_exists in Hhas as (e & Hin & Hbe).
    rewrite Forall_forall in Hno. rewrite Hno in Hbe; [done|by apply list_elem_of_In].
  - done.
Qed.

End Queue.
Arguments Inner : clear implicits.
Arguments sum_output {X} es : simpl never.
Arguments stream {X} es : simpl never.
Arguments stream_of {X} sid es : simpl never.

(** ** Witnesses *)

Definition demo_queue : Inner unit :=
  mkInner [Output [97] [1; 2; 3]; Exited [97] [0]; Output [98] [4; 5]] 5 5 false false false ∅
    {[ [97] := 7 ]}.

Lemma demo_queue_qinv : qinv demo_queue.
Proof.
  constructor; cbn; try done; repeat constructor; done.
Qed.

Lemma drain_lossless_witness :
  drain_with_output_budget demo_queue 9 (Some 2)
    = (set_events demo_queue [Output [97] [3]; Exited [97] [0]; Output [98] [4; 5]] 3,
       [Output [97] [1; 2]], Stats 1 2 3 3 0)
  /\ stream (events demo_queue)
     = [IByte [97] 1; IByte [97] 2] ++ stream [Output [97] [3]; Exited [97] [0]; Output [98] [4; 5]].
Proof.
  assert (H : drain_with_output_budget demo_queue 9 (Some 2)
    = (set_events demo_queue [Output [97] [3]; Exited [97] [0]; Output [98] [4; 5]] 3,
       [Output [97] [1; 2]], Stats 1 2 3 3 0)) by reflexivity.
  split; [exact H|].
  assert (Hb : budget_nonneg (Some 2)) by (intros b [= <-]; lia).
  exact (proj1 (proj2 (drain_lossless _ _ _ _ _ _ demo_queue_qinv Hb H))).
Defined.

Lemma drain_for_consumer_isolated_witness :
  exists q' out st,
    drain_for_consumer_with_output_budget demo_queue 7 9 (Some 3) = (q', out, st)
    /\ out = [Output [97] [1; 2; 3]; Exited [97] [0]]
    /\ List.filter (fun e => negb (event_belongs_to_consumer demo_queue 7 e)) (events q')
       = [Output [98] [4; 5]].
Proof.
  eexists _, _, _. split; [reflexivity|]. split; [reflexivity|].
  assert (Hb : budget_nonneg (Some 3)) by (intros b [= <-]; lia).
  exact (proj1 (proj2 (drain_for_consumer_isolated demo_queue 7 9 (Some 3) _ _ _
    demo_queue_qinv Hb eq_refl))).
Defined.
