(* ===== verification/EventSystem.v ===== *)
(** * Producers and consumers of the session event queue

    The concurrent system around [EventQueue.Inner]: any number of producers running
    [push] or [push_async] ([session_event_queue.rs]), each a small program over the
    lock-protected regions, interleaved with the lifecycle calls and the drains. One
    step is one critical section together with the notifications that follow it. The
    theorems are invariants by induction over the steps. *)

From stdpp Require Import base list numbers strings gmap sets relations.
From Stdlib Require Import ZArith Lia.
From S2P Require Import Prelude EventQueue.

Local Open Scope Z_scope.

Section System.
Context {X : Type}.
Abbreviation event := (SessionEvent X).

(** Where a producer is: about to look at the turn, parked on [producer_order],
    about to push its next chunk, parked on [output_space], about to push an event
    without output, about to drop its [ProducerOrderGuard]. *)
Inductive pstate :=
| PWantTurn (e : event)
| PWaitTurn (e : event)
| PChunks (session_id : bytes) (todo : list bytes)
| PWaitSpace (session_id : bytes) (todo : list bytes)
| POther (e : event)
| PRelease.

Definition holds (p : pstate) : bool :=
  match p with PWantTurn _ | PWaitTurn _ => false | _ => true end.

Definition parked (p : pstate) : bool :=
  match p with PWaitTurn _ | PWaitSpace _ _ => true | _ => false end.

(** The [match event] of [push] and [push_async] once the turn is taken. *)
Definition after_turn (e : event) : pstate :=
  match e with Output s d => PChunks s (output_chunks d) | _ => POther e end.

(** A producer's next critical section: the new state, the producer ([None] when it
    returns), what it appended to the queue, and whether it notifies
    [producer_order]. *)
Definition push_step (q : Inner X) (p : pstate) : Inner X * option pstate * list event * bool :=
  match p with
  | PWantTurn e =>
    match begin_push_step q (event_session_id e) with
    | None => (q, None, [], false)
    | Some (q', true) => (q', Some (after_turn e), [], false)
    | Some (q', false) => (q', Some (PWaitTurn e), [], false)
    end
  | PChunks s [] => (q, Some PRelease, [], false)
  | PChunks s (c :: cs) =>
    match push_output_chunk_step q s c with
    | None => (q, Some PRelease, [], false)
    | Some (q', true) => (q', Some (PChunks s cs), [Output s c], false)
    | Some (q', false) => (q', Some (PWaitSpace s (c :: cs)), [], false)
    end
  | POther e =>
    (push_other q e, Some PRelease, if accepts q (event_session_id e) then [e] else [], false)
  | PRelease => (end_push q, None, [], true)
  | PWaitTurn _ | PWaitSpace _ _ => (q, Some p, [], false)
  end.

(** Waking from a condition variable: look again. *)
Definition wake_turn (p : pstate) : pstate :=
  match p with PWaitTurn e => PWantTurn e | _ => p end.
Definition wake_space (p : pstate) : pstate :=
  match p with PWaitSpace s t => PChunks s t | _ => p end.

(** Calls from outside the producers. *)
Inductive Op : Type :=
| OCancel (session_id : bytes)
| OResume (session_id : bytes)
| OAssign (session_id : bytes) (consumer_id : Z)
| OClear (session_id : bytes) (consumer_id : Z)
| OClose
| OCleanup (session_id : bytes) (consumer_id : option Z) (operation : CleanupOperation)
| ODrain (max_events : nat) (max_output_bytes : option N)
| ODrainFor (consumer_id : Z) (max_events : nat) (max_output_bytes : option N).

(** The new state, whether [producer_order] and [output_space] are notified, and the
    events handed to the caller. The drains are [drain_with_output_budget] and its
    consumer variant with the notification that follows them when they resume output. *)
Definition call (q : Inner X) (o : Op) : Inner X * bool * bool * list event :=
  match o with
  | OCancel s => (cancel_session q s, true, true, [])
  | OResume s => (resume_session q s,
                  negb (bool_decide (s = [])) && bool_decide (s ∈ cancelled_sessions q), false, [])
  | OAssign s c => (assign_consumer q s c, false, false, [])
  | OClear s c => (clear_consumer q s c, false, false, [])
  | OClose => (close q, true, true, [])
  | OCleanup s c k => (push_cleanup_failure q (CleanupFailed s c k), false, false, [])
  | ODrain n m =>
    let '(q1, out, _) := drain q n (Z.of_N <$> m) in
    let '(q', resumed) := resume_output_if_below_low_watermark q1 in
    (q', false, resumed, out)
  | ODrainFor c n m =>
    let '(q1, out, _) := drain_for_consumer q c n (Z.of_N <$> m) in
    let '(q', resumed) := resume_output_if_below_low_watermark q1 in
    (q', false, resumed, out)
  end.

(** The system; from [started] on, the fields are histories that no step reads. *)
Record Sys := mkSys
  { inner : Inner X;
    prods : gmap nat pstate;
    started : gmap nat event;
    aborted : gset nat;
    ever_cancelled : gset bytes;
    pushed : list (nat * event);
    delivered : list event }.

Definition init : Sys := mkSys new ∅ ∅ ∅ ∅ [] [].

Definition op_cancels (o : Op) : gset bytes := match o with OCancel s => {[s]} | _ => ∅ end.

Definition notify (turn space : bool) (ps : gmap nat pstate) : gmap nat pstate :=
  (fun p => (if turn then wake_turn else id) ((if space then wake_space else id) p)) <$> ps.

Inductive step (s : Sys) : Sys -> Prop :=
(** A call of [push] or [push_async]. *)
| step_start i e :
  started s !! i = None ->
  step s (mkSys (inner s) (<[i := PWantTurn e]> (prods s)) (<[i := e]> (started s)) (aborted s)
            (ever_cancelled s) (pushed s) (delivered s))
(** A producer runs its next critical section. *)
| step_run i p q' p' es nt :
  prods s !! i = Some p -> parked p = false -> push_step (inner s) p = (q', p', es, nt) ->
  step s (mkSys q' (notify nt false (partial_alter (fun _ => p') i (prods s))) (started s) (aborted s)
            (ever_cancelled s) (pushed s ++ ((i,.) <$> es)) (delivered s))
(** A parked producer wakes without a notification. *)
| step_spurious i p :
  prods s !! i = Some p ->
  step s (mkSys (inner s) (<[i := wake_turn (wake_space p)]> (prods s)) (started s) (aborted s)
            (ever_cancelled s) (pushed s) (delivered s))
(** The future of a [push_async] is dropped; its guard, if any, is dropped next. *)
| step_abort i p :
  prods s !! i = Some p ->
  step s (mkSys (inner s)
            (partial_alter (fun _ => if holds p then Some PRelease else None) i (prods s))
            (started s) ({[i]} ∪ aborted s) (ever_cancelled s) (pushed s) (delivered s))
| step_call o q' nt ns out :
  call (inner s) o = (q', nt, ns, out) ->
  step s (mkSys q' (notify nt ns (prods s)) (started s) (aborted s)
            (op_cancels o ∪ ever_cancelled s) (pushed s) (delivered s ++ out)).

Definition reachable (s : Sys) : Prop := rtc step init s.

(** ** Safety: byte accounting, mutual exclusion, no lost wake-up *)

(** A parked producer waits for something that has not happened, and what is left
    to push is well-formed. *)
Definition park_ok (q : Inner X) (p : pstate) : Prop :=
  match p with
  | PWantTurn _ | PRelease => True
  | PWaitTurn e => producer_active q = true /\ accepts q (event_session_id e) = true
  | PChunks _ cs => Forall chunk_ok cs
  | PWaitSpace s cs => output_backpressured q = true /\ accepts q s = true /\ Forall chunk_ok cs
  | POther e => is_output e = false
  end.

Record safe (q : Inner X) (ps : gmap nat pstate) : Prop :=
  { sf_queue : qinv q;
    sf_one : forall i j pi pj, ps !! i = Some pi -> ps !! j = Some pj ->
             holds pi = true -> holds pj = true -> i = j;
    sf_active : producer_active q = true <-> exists i p, ps !! i = Some p /\ holds p = true;
    sf_park : forall i p, ps !! i = Some p -> park_ok q p }.

Definition oholds (p : option pstate) : bool := match p with Some p => holds p | None => false end.

Definition waked (nt ns : bool) (p : pstate) : pstate :=
  (if nt then wake_turn else id) ((if ns then wake_space else id) p).

Lemma waked_holds nt ns p : holds (waked nt ns p) = holds p.
Proof. by destruct nt, ns, p. Qed.

Lemma notify_lookup nt ns ps i : notify nt ns ps !! i = waked nt ns <$> ps !! i.
Proof. apply lookup_fmap. Qed.

Lemma notify_some nt ns ps i p' :
  notify nt ns ps !! i = Some p' -> exists p, ps !! i = Some p /\ p' = waked nt ns p.
Proof. rewrite notify_lookup. intros (p & ? & ?)%fmap_Some. eauto. Qed.

Lemma active_notify nt ns ps :
  (exists i p, notify nt ns ps !! i = Some p /\ holds p = true)
  <-> exists i p, ps !! i = Some p /\ holds p = true.
Proof.
  split; intros (i & p & Hp & Hh).
  - apply notify_some in Hp as (p0 & ? & ->). rewrite waked_holds in Hh. eauto.
  - exists i, (waked nt ns p). rewrite notify_lookup, Hp, waked_holds. done.
Qed.

(** A woken producer is well-formed in the new state if what it was parked on was
    not signalled only when it still holds. *)
Lemma park_waked q q' nt ns p :
  park_ok q p ->
  (nt = false -> producer_active q = true -> producer_active q' = true) ->
  (ns = false -> output_backpressured q = true -> output_backpressured q' = true) ->
  (nt = false \/ ns = false -> forall s, accepts q s = true -> accepts q' s = true) ->
  park_ok q' (waked nt ns p).
Proof.
  intros Hp Hn Hs Ha. destruct nt, ns, p; cbn in *; intuition auto.
Qed.

Lemma safe_call q q' nt ns ps :
  safe q ps -> qinv q' -> producer_active q' = producer_active q ->
  (ns = false -> output_backpressured q = true -> output_backpressured q' = true) ->
  (nt = false \/ ns = false -> forall s, accepts q s = true -> accepts q' s = true) ->
  safe q' (notify nt ns ps).
Proof.
  intros [] Hq Ha Hb Hacc. constructor; [done|..].
  - intros i j pi pj (p1 & ? & ->)%notify_some (p2 & ? & ->)%notify_some.
    rewrite !waked_holds. eauto.
  - by rewrite active_notify, Ha.
  - intros i p' (p & Hp & ->)%notify_some. eapply park_waked; eauto; congruence.
Qed.

Lemma safe_local q ps i p q' p' nt :
  safe q ps -> ps !! i = Some p -> qinv q' ->
  producer_active q' = (if holds p then oholds p' else producer_active q || oholds p') ->
  (holds p = false -> oholds p' = true -> producer_active q = false) ->
  (output_backpressured q = true -> output_backpressured q' = true) ->
  (forall s, accepts q s = true -> accepts q' s = true) ->
  (nt = false -> producer_active q = true -> producer_active q' = true) ->
  (forall x, p' = Some x -> park_ok q' x) ->
  safe q' (notify nt false (partial_alter (fun _ => p') i ps)).
Proof.
  intros Hsafe Hi Hq Ha Hnew Hb Hacc Hnt Hp'. destruct Hsafe as [_ Hone Hact Hpark].
  assert (Hother : forall j pj, ps !! j = Some pj -> holds pj = true -> i <> j -> oholds p' = true -> False).
  { intros j pj Hj Hhj Hij Ho. destruct (holds p) eqn:Hh; [by eapply Hij, Hone|].
    rewrite Hnew in Hact by done. destruct Hact as [_ Hact]. discriminate Hact. eauto. }
  assert (Hlook : forall j pj, partial_alter (fun _ => p') i ps !! j = Some pj ->
            (j = i /\ p' = Some pj) \/ (i <> j /\ ps !! j = Some pj)).
  { intros j pj. destruct (decide (j = i)) as [->|].
    - rewrite lookup_partial_alter_eq. auto.
    - rewrite lookup_partial_alter_ne by done. auto. }
  constructor; [done|..].
  - intros j k pj pk (xj & Hj & ->)%notify_some (xk & Hk & ->)%notify_some. rewrite !waked_holds.
    apply Hlook in Hj as [[-> ->]|[Hij Hj]]; apply Hlook in Hk as [[-> [=]]|[Hik Hk]]; subst;
      try done; intros H1 H2; [exfalso; by eapply Hother|exfalso; by eapply Hother|by eapply Hone].
  - rewrite active_notify, Ha. split.
    + intros Ht. destruct (oholds p') eqn:Ho.
      { destruct p' as [x|]; [|done]. exists i, x. by rewrite lookup_partial_alter_eq. }
      destruct (holds p) eqn:Hh; [done|]. rewrite orb_false_r in Ht.
      apply Hact in Ht as (j & pj & Hj & Hhj). exists j, pj.
      rewrite lookup_partial_alter_ne by congruence. done.
    + intros (j & pj & Hj & Hhj). apply Hlook in Hj as [[-> ->]|[Hij Hj]].
      { cbn [oholds]. rewrite Hhj, orb_true_r. by destruct (holds p). }
      destruct (holds p) eqn:Hh; [by destruct Hij; eapply Hone|].
      replace (producer_active q) with true; [done|]. symmetry. apply Hact. eauto.
  - intros j pj (x & Hj & ->)%notify_some. apply Hlook in Hj as [[-> ->]|[Hij Hj]].
    + eapply park_waked; [by apply Hp'|..]; auto; destruct nt; auto.
    + eapply park_waked; [by eapply Hpark|..]; auto.
Qed.

Lemma notify_none ps : notify false false ps = ps.
Proof. apply map_fmap_id. Qed.

Lemma output_chunks_ok d : Forall chunk_ok (output_chunks d).
Proof.
  unfold output_chunks. pose proof limits as (_ & _ & HE).
  assert (Hc : Forall (fun c : bytes => (length c <= Z.to_nat EVENT_LIMIT)%nat) (chunks (Z.to_nat EVENT_LIMIT) d)).
  { eapply Forall_impl; [apply chunks_le; lia|]. cbn. lia. }
  induction Hc as [|c cs Hc _ IH]; cbn [List.filter]; [constructor|].
  destruct c as [|b c]; cbn [bool_decide negb]; [done|]. constructor; [|done].
  unfold chunk_ok, zlen. cbn [length] in *. lia.
Qed.

Lemma after_turn_ok q e : park_ok q (after_turn e) /\ holds (after_turn e) = true.
Proof. destruct e; cbn; auto using output_chunks_ok. Qed.

(** A chunk attempt leaves the turn and the routing alone and only ever raises the
    back-pressure. *)
Lemma push_chunk_frame (q : Inner X) s c q' b :
  qinv q -> push_output_chunk_step q s c = Some (q', b) ->
  producer_active q' = producer_active q /\ closed q' = closed q
  /\ cancelled_sessions q' = cancelled_sessions q
  /\ (output_backpressured q = true -> output_backpressured q' = true)
  /\ accepts q s = true
  /\ events q' = events q ++ (if b then [Output s c] else [])
  /\ (b = false -> output_backpressured q' = true).
Proof.
  intros Hq. rewrite push_chunk_cases by done. destruct (accepts q s); [|done].
  destruct (output_backpressured q); cbn [negb andb]; [|destruct (_ <=? LIMIT)];
    intros [= <- <-]; cbn; rewrite ?app_nil_r; by split_and!.
Qed.

Lemma accepts_frame (q q' : Inner X) s :
  closed q' = closed q -> cancelled_sessions q' = cancelled_sessions q -> accepts q' s = accepts q s.
Proof. intros H1 H2. unfold accepts. by rewrite H1, H2. Qed.

Lemma push_step_safe q ps i p q' p' es nt :
  safe q ps -> ps !! i = Some p -> parked p = false -> push_step q p = (q', p', es, nt) ->
  safe q' (notify nt false (partial_alter (fun _ => p') i ps)).
Proof.
  intros Hs Hi Hp Hstep. pose proof (sf_queue _ _ Hs) as Hq. pose proof (sf_park _ _ Hs i p Hi) as Hpk.
  assert (Hact : holds p = true -> producer_active q = true) by (intros; apply (sf_active _ _ Hs); eauto).
  destruct p as [e|e|s [|c cs]|s cs|e|]; try done; cbn [push_step] in Hstep.
  - unfold begin_push_step in Hstep. destruct (accepts q (event_session_id e)) eqn:Ha.
    + destruct (producer_active q) eqn:Hpa; injection Hstep as <- <- <- <-.
      * eapply safe_local; eauto; cbn; try done; [by rewrite Hpa|]. by intros x [= <-].
      * eapply safe_local; eauto; cbn; try done; [by apply set_flags_qinv|..].
        -- by rewrite (proj2 (after_turn_ok q e)), orb_true_r.
        -- intros x [= <-]. apply after_turn_ok.
    + injection Hstep as <- <- <- <-. eapply safe_local; eauto; cbn; try done. by rewrite orb_false_r.
  - injection Hstep as <- <- <- <-. eapply safe_local; eauto; cbn; auto. by intros x [= <-].
  - destruct (push_output_chunk_step q s c) as [[q1 b]|] eqn:Hc.
    + apply Forall_cons in Hpk as [Hc1 Hcs]. pose proof (push_chunk_qinv _ _ _ _ _ Hq Hc1 Hc) as Hq1.
      destruct (push_chunk_frame _ _ _ _ _ Hq Hc) as (Ea & Ec & Es & Eb & Eacc & _ & Ebf).
      destruct b; injection Hstep as <- <- <- <-; eapply safe_local; eauto; cbn; try done;
        try (rewrite Ea; by auto); try (intros; by erewrite accepts_frame).
      * by intros x [= <-].
      * intros x [= <-]. cbn. split_and!; [by apply Ebf|by erewrite accepts_frame|by constructor].
    + injection Hstep as <- <- <- <-. eapply safe_local; eauto; cbn; auto. by intros x [= <-].
  - injection Hstep as <- <- <- <-. unfold push_other.
    destruct (accepts q (event_session_id e)) eqn:Ha; eapply safe_local; eauto; cbn; auto;
      try (by intros x [= <-]).
    pose proof (push_other_qinv q e Hq Hpk) as Ho. unfold push_other in Ho. by rewrite Ha in Ho.
  - injection Hstep as <- <- <- <-. eapply safe_local; eauto; cbn; try done. by apply set_flags_qinv.
Qed.

Lemma safe_start q ps i e : safe q ps -> ps !! i = None -> safe q (<[i := PWantTurn e]> ps).
Proof.
  intros [Hq Hone Hact Hpark] Hi.
  assert (Hlook : forall j p, <[i := PWantTurn e]> ps !! j = Some p ->
            (p = PWantTurn e /\ i = j) \/ ps !! j = Some p).
  { intros j p [[-> <-]|[_ ?]]%lookup_insert_Some; auto. }
  constructor; [done|..].
  - intros j k pj pk [[-> _]|Hj]%Hlook [[-> _]|Hk]%Hlook; try done. eauto.
  - rewrite Hact. split; intros (j & p & Hj & Hh).
    + exists j, p. rewrite lookup_insert_ne by congruence. done.
    + apply Hlook in Hj as [[-> _]|Hj]; [done|]. eauto.
  - intros j p [[-> _]|Hj]%Hlook; [done|]. eauto.
Qed.

Lemma budget_of_N (m : option N) : budget_nonneg (Z.of_N <$> m).
Proof. intros b Hb. destruct m; cbn in Hb; [|done]. injection Hb as <-. lia. Qed.

(** Back-pressure was on and is off. *)
Definition unpressured (q q' : Inner X) : bool :=
  output_backpressured q && negb (output_backpressured q').

(** [resume_output_if_below_low_watermark] reports exactly that it lifted it. *)
Lemma resume_reports (q : Inner X) :
  let r := resume_output_if_below_low_watermark q in
  snd r = unpressured q (fst r).
Proof.
  unfold unpressured, resume_output_if_below_low_watermark.
  destruct (output_backpressured q) eqn:Eb; [|done]. cbn [andb]. destruct (_ <=? _); [done|]. cbn. by rewrite Eb.
Qed.

(** What a drain leaves alone, and what it does to the stream of a session. *)
Lemma drain_frame n m sel (q q' : Inner X) out st :
  drained n m sel q q' out st ->
  let r := fst (resume_output_if_below_low_watermark q') in
  qinv r /\ producer_active r = producer_active q /\ closed r = closed q
  /\ cancelled_sessions r = cancelled_sessions q /\ events r = events q'
  /\ snd (resume_output_if_below_low_watermark q') = unpressured q r.
Proof.
  intros [Hpre Hsame _ _ _ _ _ _]. destruct (resume_output_same q') as (E1 & E2 & E3 & E4 & _). cbn zeta.
  split_and!; [by apply resume_output_qinv|..]; try done.
  - rewrite E2, Hsame. done.
  - rewrite E3, Hsame. done.
  - rewrite E4, Hsame. done.
  - rewrite resume_reports. unfold unpressured. by rewrite Hsame.
Qed.

Lemma drain_call q n (m : option N) q' nt ns out :
  qinv q -> call q (ODrain n m) = (q', nt, ns, out) ->
  qinv q' /\ producer_active q' = producer_active q /\ closed q' = closed q
  /\ cancelled_sessions q' = cancelled_sessions q /\ nt = false /\ ns = unpressured q q'
  /\ forall sid, stream_of sid (out ++ events q') = stream_of sid (events q).
Proof.
  intros Hq. cbn [call]. unfold drain.
  pose proof (drain_loop_drained n q (Z.of_N <$> m) Hq (budget_of_N m)) as Hd.
  destruct (drain_loop _ _ _ _ _) as [[q1 out1] st1]. destruct Hd as [Hd Hf].
  destruct (drain_frame _ _ _ _ _ _ _ Hd) as (E1 & E2 & E3 & E4 & E5 & E6). cbn zeta in *.
  destruct (resume_output_if_below_low_watermark q1) as [r resumed]. cbn [fst snd] in *.
  intros [= <- <- <- <-]. split_and!; try done. intros sid. rewrite E5.
  by apply (dfinal_session n (Z.of_N <$> m) (fun _ => true) sid (q, [], no_stats) (q1, out1, st1)).
Qed.

Lemma drain_for_call q c n (m : option N) q' nt ns out :
  qinv q -> call q (ODrainFor c n m) = (q', nt, ns, out) ->
  qinv q' /\ producer_active q' = producer_active q /\ closed q' = closed q
  /\ cancelled_sessions q' = cancelled_sessions q /\ nt = false /\ ns = unpressured q q'
  /\ forall sid, stream_of sid (out ++ events q') = stream_of sid (events q).
Proof.
  intros Hq. cbn [call]. unfold drain_for_consumer.
  pose proof (drain_for_loop_drained n q c (Z.of_N <$> m) Hq (budget_of_N m)) as Hd.
  destruct (drain_for_loop _ _ _ _ _ _) as [[q1 out1] st1]. destruct Hd as [Hd Hf].
  destruct (drain_frame _ _ _ _ _ _ _ Hd) as (E1 & E2 & E3 & E4 & E5 & E6). cbn zeta in *.
  destruct (resume_output_if_below_low_watermark q1) as [r resumed]. cbn [fst snd] in *.
  intros [= <- <- <- <-]. split_and!; try done. intros sid. rewrite E5.
  apply (dfinal_session n (Z.of_N <$> m) (event_belongs_to_consumer q c) sid
           (q, [], no_stats) (q1, out1, st1)); [|done].
  intros x y Hx Hy. by eapply belongs_session.
Qed.

Lemma unpressured_false q q' :
  unpressured q q' = false -> output_backpressured q = true -> output_backpressured q' = true.
Proof. unfold unpressured. intros H Hb. rewrite Hb in H. by destruct (output_backpressured q'). Qed.

Lemma cancel_frame (q : Inner X) s :
  producer_active (cancel_session q s) = producer_active q
  /\ closed (cancel_session q s) = closed q
  /\ cancelled_sessions (cancel_session q s) = {[s]} ∪ cancelled_sessions q
  /\ events (cancel_session q s)
     = List.filter (fun e => negb (bool_decide (event_session_id e = s))) (events q).
Proof.
  unfold cancel_session.
  match goal with |- context [resume_output_if_below_low_watermark ?x] =>
    destruct (resume_output_same x) as (E1 & E2 & E3 & E4 & _) end.
  cbn zeta in *. rewrite E1, E2, E3, E4. done.
Qed.

Lemma call_safe q ps o q' nt ns out :
  safe q ps -> call q o = (q', nt, ns, out) -> safe q' (notify nt ns ps).
Proof.
  intros Hs Hc. pose proof (sf_queue _ _ Hs) as Hq. destruct o as [s|s|s c|s c| |s c k|n m|c n m].
  - injection Hc as <- <- <- <-. destruct (cancel_frame q s) as (E & _).
    apply safe_call with q; auto using cancel_session_qinv; try done. by intros [].
  - injection Hc as <- <- <- <-. apply safe_call with q; auto; unfold resume_session; destruct s; try done.
    + apply set_routing_qinv; [done|]. apply subseteq_difference_l. reflexivity.
    + intros _ s'. rewrite !accepts_spec. cbn. intros [? ?]. split; [done|]. by intros [? _]%elem_of_difference.
  - injection Hc as <- <- <- <-. apply safe_call with q; auto; unfold assign_consumer; destruct s; try done.
    by apply set_routing_qinv.
  - injection Hc as <- <- <- <-. apply safe_call with q; auto; unfold clear_consumer; destruct (bool_decide _); try done.
    by apply set_routing_qinv.
  - injection Hc as <- <- <- <-. apply safe_call with q; auto; try done; try (by apply set_flags_qinv). by intros [].
  - injection Hc as <- <- <- <-. apply safe_call with q; auto; [by apply push_cleanup_qinv|..];
      unfold push_cleanup_failure; destruct (closed q); try done; by destruct (_ <=? _)%nat.
  - destruct (drain_call _ _ _ _ _ _ _ Hq Hc) as (? & ? & ? & ? & -> & -> & _).
    apply safe_call with q; try done; [apply unpressured_false|]. intros _ s. by erewrite accepts_frame.
  - destruct (drain_for_call _ _ _ _ _ _ _ _ Hq Hc) as (? & ? & ? & ? & -> & -> & _).
    apply safe_call with q; try done; [apply unpressured_false|]. intros _ s. by erewrite accepts_frame.
Qed.

Definition known (s : Sys) : Prop := forall i, is_Some (prods s !! i) -> is_Some (started s !! i).

Lemma known_step s s' : known s -> step s s' -> known s'.
Proof.
  intros Hk Hst i. destruct Hst as [j e Hj|j p q' p' es nt Hj|j p Hj|j p Hj|o q' nt ns out]; cbn.
  - destruct (decide (i = j)) as [->|]; [intros _; rewrite lookup_insert_eq; by eexists|].
    rewrite !lookup_insert_ne by done. apply Hk.
  - rewrite notify_lookup, fmap_is_Some. destruct (decide (i = j)) as [->|]; [eauto|].
    rewrite lookup_partial_alter_ne by done. apply Hk.
  - destruct (decide (i = j)) as [->|]; [eauto|]. rewrite lookup_insert_ne by done. apply Hk.
  - destruct (decide (i = j)) as [->|]; [eauto|]. rewrite lookup_partial_alter_ne by done. apply Hk.
  - rewrite notify_lookup, fmap_is_Some. apply Hk.
Qed.

Lemma insert_alter {A} (m : gmap nat A) i x : <[i := x]> m = partial_alter (fun _ => Some x) i m.
Proof. done. Qed.

Lemma step_safe s s' :
  known s -> safe (inner s) (prods s) -> step s s' -> safe (inner s') (prods s').
Proof.
  intros Hk Hs. destruct 1 as [i e Hi|i p q' p' es nt Hi Hp Hr|i p Hi|i p Hi|o q' nt ns out Hc]; cbn.
  - apply safe_start; [done|]. destruct (prods s !! i) eqn:E; [|done].
    destruct (Hk i) as [? ?]; [by eexists|]. congruence.
  - by eapply push_step_safe.
  - rewrite insert_alter, <- (notify_none (partial_alter _ _ _)).
    pose proof (sf_park _ _ Hs i p Hi) as Hpk.
    assert (Hact : holds p = true -> producer_active (inner s) = true) by (intros; apply (sf_active _ _ Hs); eauto).
    eapply safe_local; eauto; [apply Hs|..].
    + destruct p; cbn in *; rewrite ?orb_false_r; auto.
    + by destruct p.
    + intros x [= <-]. destruct p; cbn in *; tauto.
  - rewrite <- (notify_none (partial_alter _ _ _)).
    assert (Hact : holds p = true -> producer_active (inner s) = true) by (intros; apply (sf_active _ _ Hs); eauto).
    eapply safe_local; eauto; [apply Hs|..]; destruct (holds p); cbn; rewrite ?orb_false_r; auto; try done.
    by intros x [= <-].
  - by eapply call_safe.
Qed.

Lemma reachable_ind_inv (P : Sys -> Prop) :
  P init -> (forall s s', reachable s -> P s -> step s s' -> P s') -> forall s, reachable s -> P s.
Proof.
  intros H0 HS. apply rtc_ind_r; [done|]. intros s s' Hr Hst IH. by eapply HS.
Qed.

Lemma reachable_safe s : reachable s -> known s /\ safe (inner s) (prods s).
Proof.
  revert s. apply (reachable_ind_inv (fun s => known s /\ safe (inner s) (prods s))).
  - split; [by intros i [? ?]|]. constructor; [apply qinv_new|by intros i j pi pj ?|..|by intros i p ?].
    split; [done|]. by intros (i & p & Hp & _).
  - intros s0 s' _ [Hk Hs] Hst. eauto using known_step, step_safe.
Qed.

(** C2: in every reachable state of any interleaving of producers, drains,
    cancellations and closes, the byte counter is exactly the output that is
    queued, neither it nor its recorded peak ever exceeds 8 MiB, and no queued
    output event is empty or larger than 256 KiB. *)
Theorem queue_memory_bounded s :
  reachable s ->
  queued_output_bytes (inner s) = sum_output (events (inner s))
  /\ sum_output (events (inner s)) <= LIMIT
  /\ peak_output_bytes (inner s) <= LIMIT
  /\ forall sid d, Output sid d ∈ events (inner s) -> 0 < zlen d <= EVENT_LIMIT.
Proof.
  intros [_ [Hq _ _ _]]%reachable_safe. pose proof (qi_sum _ Hq). pose proof (qi_limit _ Hq).
  pose proof (qi_peak _ Hq). split_and!; [done|lia|lia|]. intros sid d Hin.
  pose proof (qi_events _ Hq) as He. rewrite Forall_forall in He. by apply (He (Output sid d)).
Qed.

(** The ordering turn is a lock: at most one producer is between taking it and
    dropping its guard, [producer_active] says exactly whether there is one, and a
    cancelled session has nothing but cleanup diagnostics in the queue. *)
Theorem producer_turn_exclusive s :
  reachable s ->
  (forall i j pi pj, prods s !! i = Some pi -> prods s !! j = Some pj ->
     holds pi = true -> holds pj = true -> i = j)
  /\ (producer_active (inner s) = true <-> exists i p, prods s !! i = Some p /\ holds p = true)
  /\ (forall e, e ∈ events (inner s) -> event_session_id e ∈ cancelled_sessions (inner s) ->
      is_cleanup e = true).
Proof.
  intros [_ [Hq Hone Hact _]]%reachable_safe. split_and!; [done|done|]. intros e Hin.
  pose proof (qi_cancelled _ Hq) as He. rewrite Forall_forall in He. by apply He.
Qed.

Lemma drain_all (q : Inner X) out st :
  events (drain_loop (length (events q)) q out st None).1.1 = [].
Proof.
  remember (length (events q)) as n eqn:Hn. revert q out st Hn.
  induction n as [|n IH]; intros q out st Hn; cbn [drain_loop].
  - cbn. by destruct (events q).
  - destruct (events q) as [|e es] eqn:He; [done|]. cbn [drain_action].
    apply IH. cbn. by injection Hn.
Qed.

(** C38: the queue never wedges. In a reachable state with a live producer, either
    some producer can run, or one is parked holding the turn with more than 4 MiB of
    output queued, and draining the queue notifies it so that it can run: no
    wake-up is lost. *)
Theorem producers_never_wedged s i p :
  reachable s -> prods s !! i = Some p ->
  (exists j pj, prods s !! j = Some pj /\ parked pj = false)
  \/ (LOW < queued_output_bytes (inner s)
      /\ exists s', step s s' /\ events (inner s') = []
           /\ exists j pj, prods s' !! j = Some pj /\ parked pj = false /\ holds pj = true).
Proof.
  intros [_ Hs]%reachable_safe Hi.
  assert (Hspace : forall j sid cs, prods s !! j = Some (PWaitSpace sid cs) ->
    LOW < queued_output_bytes (inner s) /\ exists s', step s s' /\ events (inner s') = []
      /\ exists j pj, prods s' !! j = Some pj /\ parked pj = false /\ holds pj = true).
  { intros j sid cs Hj. pose proof (sf_park _ _ Hs j _ Hj) as (Hb & _ & _). cbn in Hb.
    split; [by apply (qi_pressure _ (sf_queue _ _ Hs))|].
    destruct (call (inner s) (ODrain (length (events (inner s))) None)) as [[[q' nt] ns] out] eqn:Hc.
    destruct (drain_call _ _ _ _ _ _ _ (sf_queue _ _ Hs) Hc) as (Hq' & _ & _ & _ & -> & -> & _).
    assert (He : events q' = []).
    { pose proof (drain_all (inner s) [] no_stats) as Hd. revert Hc. cbn [call fmap option_fmap option_map].
      unfold drain. destruct (drain_loop _ _ _ _ _) as [[q1 o1] st1]. pose proof (resume_output_queue q1) as [Hr _].
      destruct (resume_output_if_below_low_watermark q1) as [r b]. intros [= <- _ _]. cbn in *. by rewrite Hr. }
    assert (Hb' : output_backpressured q' = false).
    { destruct (output_backpressured q') eqn:E; [|done]. pose proof (qi_pressure _ Hq' E) as Hl.
      rewrite (qi_sum _ Hq'), He in Hl. done. }
    eexists. split; [by eapply step_call|]. split; [done|]. exists j, (PChunks sid cs). cbn [prods].
    rewrite notify_lookup, Hj. unfold unpressured. by rewrite Hb, Hb'. }
  destruct (parked p) eqn:Hp; [|left; eauto]. destruct p as [|e| |sid cs| |]; try done.
  - pose proof (sf_park _ _ Hs i _ Hi) as [Ha _]. apply (sf_active _ _ Hs) in Ha as (j & pj & Hj & Hh).
    destruct (parked pj) eqn:Hpj; [|left; eauto]. destruct pj; try done. right. eauto.
  - right. eauto.
Qed.

(** ** Delivery: a session's stream reaches the consumers complete and in order *)

Definition faithful (s : Sys) : Prop :=
  cancelled_sessions (inner s) ⊆ ever_cancelled s
  /\ forall sid, sid ∉ ever_cancelled s ->
     stream_of sid (delivered s ++ events (inner s)) = stream_of sid (pushed s).*2.

(** What one critical section of a producer appends to the queue. *)
Lemma push_step_events q p q' p' es nt :
  qinv q -> push_step q p = (q', p', es, nt) ->
  events q' = events q ++ es /\ cancelled_sessions q' = cancelled_sessions q /\ closed q' = closed q.
Proof.
  intros Hq. destruct p as [e|e|s [|c cs]|s cs|e|]; cbn [push_step].
  2,3,5,7: intros [= <- <- <- <-]; cbn; by rewrite app_nil_r.
  - unfold begin_push_step. destruct (accepts _ _); [destruct (producer_active q)|];
      intros [= <- <- <- <-]; cbn; by rewrite app_nil_r.
  - destruct (push_output_chunk_step q s c) as [[q1 b]|] eqn:Hc.
    + destruct (push_chunk_frame _ _ _ _ _ Hq Hc) as (_ & ? & ? & _ & _ & He & _).
      destruct b; by intros [= <- <- <- <-].
    + intros [= <- <- <- <-]. by rewrite app_nil_r.
  - intros [= <- <- <- <-]. unfold push_other. destruct (accepts _ _); [done|]. by rewrite app_nil_r.
Qed.

Lemma stream_of_retain sid s (es : list event) :
  sid <> s ->
  stream_of sid (List.filter (fun e => negb (bool_decide (event_session_id e = s))) es)
  = stream_of sid es.
Proof.
  intros Hne. induction es as [|e es IH]; [done|]. cbn [List.filter]. rewrite stream_of_cons.
  destruct (bool_decide (event_session_id e = s)) eqn:E; cbn [negb].
  - rewrite IH. apply bool_decide_eq_true in E. unfold of_session.
    rewrite bool_decide_eq_false_2 by congruence. done.
  - by rewrite stream_of_cons, IH.
Qed.

Lemma call_stream q o q' nt ns out :
  qinv q -> call q o = (q', nt, ns, out) ->
  cancelled_sessions q' ⊆ op_cancels o ∪ cancelled_sessions q
  /\ (o <> OClose -> closed q' = closed q)
  /\ forall sid, sid ∉ op_cancels o -> stream_of sid (out ++ events q') = stream_of sid (events q).
Proof.
  intros Hq Hc. destruct o as [s|s|s c|s c| |s c k|n m|c n m].
  - injection Hc as <- <- <- <-. destruct (cancel_frame q s) as (_ & E1 & E2 & E3).
    rewrite E2, E3. split_and!; [done|done|]. intros sid Hsid. apply stream_of_retain.
    intros ->. apply Hsid. cbn [op_cancels]. by apply elem_of_singleton.
  - injection Hc as <- <- <- <-. destruct s; cbn [resume_session]; split_and!; try done; [set_solver|].
    cbn. set_solver.
  - injection Hc as <- <- <- <-. destruct s; cbn [assign_consumer]; split_and!; try done; cbn; set_solver.
  - injection Hc as <- <- <- <-. unfold clear_consumer. destruct (bool_decide _);
      split_and!; try done; cbn; set_solver.
  - injection Hc as <- <- <- <-. split_and!; try done. cbn. set_solver.
  - injection Hc as <- <- <- <-. unfold push_cleanup_failure.
    destruct (closed q) eqn:Hcl; [|destruct (_ <=? _)%nat]; split_and!; try done; cbn; try set_solver.
    intros sid _. rewrite stream_of_app, stream_of_cons. unfold of_session.
    cbn [is_cleanup negb]. by rewrite andb_false_r, !app_nil_r.
  - destruct (drain_call _ _ _ _ _ _ _ Hq Hc) as (_ & _ & E1 & -> & _ & _ & ?). split_and!; try done.
    set_solver.
  - destruct (drain_for_call _ _ _ _ _ _ _ _ Hq Hc) as (_ & _ & E1 & -> & _ & _ & ?). split_and!; try done.
    set_solver.
Qed.

Lemma faithful_step s s' : reachable s -> faithful s -> step s s' -> faithful s'.
Proof.
  intros [_ Hs]%reachable_safe [Hc Hst]. pose proof (sf_queue _ _ Hs) as Hq. unfold faithful.
  destruct 1 as [i e Hi|i p q' p' es nt Hi Hp Hr|i p Hi|i p Hi|o q' nt ns out Hcall]; cbn; try done.
  - destruct (push_step_events _ _ _ _ _ _ Hq Hr) as (He & Hcc & _). rewrite Hcc. split; [done|].
    intros sid Hsid. rewrite He, app_assoc, stream_of_app, (Hst sid Hsid), fmap_app, <- list_fmap_compose.
    rewrite stream_of_app. f_equal. f_equal. symmetry. apply list_fmap_id.
  - destruct (call_stream _ _ _ _ _ _ Hq Hcall) as (Hsub & _ & Hstr). split; [set_solver|].
    intros sid [Hn Hsid]%not_elem_of_union. rewrite <- app_assoc, stream_of_app, (Hstr sid Hn).
    by rewrite <- stream_of_app, (Hst sid Hsid).
Qed.

(** C1: no output is lost, duplicated or reordered on its way through the queue.
    For a session that has never been cancelled, what the consumers have received
    followed by what is still queued is, byte for byte and event for event, what
    the producers have pushed, in push order, however the drains split output
    events, and even when consumers are reassigned in between. *)
Theorem session_stream_delivered s sid :
  reachable s -> sid ∉ ever_cancelled s ->
  stream_of sid (delivered s) ++ stream_of sid (events (inner s)) = stream_of sid (pushed s).*2.
Proof.
  intros Hr Hsid. rewrite <- stream_of_app. assert (Hf : faithful s); [|by apply Hf].
  clear Hsid. revert s Hr. apply (reachable_ind_inv faithful).
  - split; [done|]. by intros sid' _.
  - intros. by eapply faithful_step.
Qed.

(** ** Serialisation: a producer's chunks are contiguous *)

(** What [push] appends for an event when nothing stops it. *)
Definition pieces (e : event) : list event :=
  match e with Output s d => Output s <$> output_chunks d | _ => [e] end.

Definition block (b : nat * list event) : list (nat * event) := (b.1,.) <$> b.2.
Definition blocks (order : list (nat * list event)) : list (nat * event) := concat (block <$> order).

(** The three reasons for which a push returns without having pushed everything. *)
Definition gave_up (s : Sys) (i : nat) (e : event) : Prop :=
  i ∈ aborted s \/ closed (inner s) = true \/ event_session_id e ∈ ever_cancelled s.

Definition last_is (order : list (nat * list event)) (i : nat) (l : list event) : Prop :=
  exists o, order = o ++ [(i, l)].

(** How far producer [i], started with event [e], has come. *)
Definition status (s : Sys) (order : list (nat * list event)) (i : nat) (e : event)
    (p : option pstate) : Prop :=
  match p with
  | Some (PWantTurn e') | Some (PWaitTurn e') => e' = e /\ i ∉ order.*1
  | Some (PChunks sid todo) | Some (PWaitSpace sid todo) =>
    sid = event_session_id e /\ exists l, last_is order i l /\ l ++ (Output sid <$> todo) = pieces e
  | Some (POther e') => e' = e /\ is_output e = false /\ last_is order i []
  | Some PRelease => exists l, last_is order i l /\ (l = pieces e \/ gave_up s i e)
  | None => gave_up s i e \/ (i, pieces e) ∈ order
  end.

Record serial (s : Sys) (order : list (nat * list event)) : Prop :=
  { se_nodup : NoDup order.*1;
    se_pushed : pushed s = blocks order;
    se_prefix : forall i l, (i, l) ∈ order -> exists e, started s !! i = Some e /\ l `prefix_of` pieces e;
    se_status : forall i e, started s !! i = Some e -> status s order i e (prods s !! i) }.

Lemma blocks_app o1 o2 : blocks (o1 ++ o2) = blocks o1 ++ blocks o2.
Proof. unfold blocks. by rewrite fmap_app, concat_app. Qed.

Lemma blocks_single i l : blocks [(i, l)] = (i,.) <$> l.
Proof. unfold blocks. apply app_nil_r. Qed.

Lemma status_frame s s' order order' j e nt ns p :
  (gave_up s j e -> gave_up s' j e) ->
  (oholds p = true -> order' = order) ->
  (j ∉ order.*1 -> j ∉ order'.*1) -> (forall l, (j, l) ∈ order -> (j, l) ∈ order') ->
  status s order j e p -> status s' order' j e (waked nt ns <$> p).
Proof.
  intros Hg Hh Hn Hin. destruct p as [p|]; [|cbn; naive_solver].
  cbn [oholds fmap option_fmap option_map] in *.
  destruct p, nt, ns; cbn in *; try (rewrite Hh by done); try tauto; intros (l & Hl & Hor);
    exists l; tauto.
Qed.

(** The holder of the turn extends the last block. *)
Lemma serial_extend s s' order i l es p nt ns :
  serial s (order ++ [(i, l)]) ->
  started s' = started s -> pushed s' = pushed s ++ ((i,.) <$> es) ->
  (forall j e, gave_up s j e -> gave_up s' j e) ->
  prods s' = notify nt ns (partial_alter (fun _ => p) i (prods s)) ->
  (forall j pj, prods s !! j = Some pj -> holds pj = true -> j = i) ->
  (forall e, started s !! i = Some e -> l ++ es `prefix_of` pieces e
      /\ status s' (order ++ [(i, l ++ es)]) i e (waked nt ns <$> p)) ->
  serial s' (order ++ [(i, l ++ es)]).
Proof.
  intros [Hnd Hpu Hpre Hst] Estart Epush Hg Eprods Hone Hi. constructor.
  - rewrite fmap_app in *. exact Hnd.
  - rewrite Epush, Hpu, !blocks_app, !blocks_single, fmap_app, app_assoc. done.
  - intros j lj [Hj|Hj]%elem_of_app; rewrite Estart.
    + apply Hpre. apply elem_of_app. by left.
    + apply list_elem_of_singleton in Hj as [= -> ->].
      destruct (Hpre i l) as (e & He & _); [apply elem_of_app; right; by apply list_elem_of_singleton|].
      exists e. split; [done|]. by apply Hi.
  - intros j e He. rewrite Eprods, notify_lookup. rewrite Estart in He.
    destruct (decide (j = i)) as [->|Hne]; [rewrite lookup_partial_alter_eq; by apply Hi|].
    rewrite lookup_partial_alter_ne by done. eapply status_frame; [by apply Hg|..|by apply Hst].
    + intros Hh. destruct (prods s !! j) as [pj|] eqn:Hj; [|done]. by destruct Hne; eapply Hone.
    + rewrite !fmap_app. done.
    + intros l'. rewrite !elem_of_app, !list_elem_of_singleton. intros [?|[= ? ?]]; [by left|done].
Qed.

(** Steps that push nothing and take no turn: producer [i] moves to [p]. *)
Lemma serial_local s s' order i p nt ns :
  serial s order -> started s' = started s -> pushed s' = pushed s ->
  (forall j e, gave_up s j e -> gave_up s' j e) ->
  prods s' = notify nt ns (partial_alter (fun _ => p) i (prods s)) ->
  (forall e, started s !! i = Some e -> status s' order i e (waked nt ns <$> p)) ->
  serial s' order.
Proof.
  intros [Hnd Hpu Hpre Hst] Estart Epush Hg Eprods Hi.
  constructor; [done|by rewrite Epush|by rewrite Estart|].
  rewrite Estart, Eprods. intros j e He. rewrite notify_lookup.
  destruct (decide (j = i)) as [->|]; [rewrite lookup_partial_alter_eq; by apply Hi|].
  rewrite lookup_partial_alter_ne by done.
  eapply status_frame; [by apply Hg|done|done|done|by apply Hst].
Qed.

(** A producer takes the turn: it opens a block of its own. *)
Lemma serial_take s s' order i e0 p :
  serial s order -> prods s !! i = Some (PWantTurn e0) -> is_Some (started s !! i) ->
  started s' = started s -> pushed s' = pushed s ->
  (forall j e, gave_up s j e -> gave_up s' j e) ->
  prods s' = partial_alter (fun _ => Some p) i (prods s) ->
  (forall j pj, prods s !! j = Some pj -> holds pj = false) ->
  status s' (order ++ [(i, [])]) i e0 (Some p) ->
  serial s' (order ++ [(i, [])]).
Proof.
  intros [Hnd Hpu Hpre Hst] Hi [e He] Estart Epush Hg Eprods Hnone Hsi.
  pose proof (Hst i e He) as Hsti. rewrite Hi in Hsti. cbn in Hsti. destruct Hsti as [-> Hni].
  constructor.
  - rewrite fmap_app. apply NoDup_app. split_and!; [done|..|apply NoDup_singleton].
    intros x Hx Hx1. cbn in Hx1. apply list_elem_of_singleton in Hx1 as ->. done.
  - rewrite Epush, Hpu, blocks_app. cbn. by rewrite app_nil_r.
  - rewrite Estart. intros j l [Hj|Hj]%elem_of_app; [by apply Hpre|].
    apply list_elem_of_singleton in Hj as [= -> ->]. exists e. split; [done|]. apply prefix_nil.
  - rewrite Estart, Eprods. intros j ej Hj. destruct (decide (j = i)) as [->|Hne].
    { rewrite lookup_partial_alter_eq. by simplify_eq. }
    rewrite lookup_partial_alter_ne by done.
    assert (Hf : prods s !! j = waked false false <$> prods s !! j) by (symmetry; apply option_fmap_id).
    rewrite Hf. eapply status_frame; [by apply Hg|..|by apply Hst].
    + intros Hh. destruct (prods s !! j) eqn:E; [|done]. cbn in Hh. by rewrite (Hnone j) in Hh.
    + rewrite fmap_app, elem_of_app. cbn. rewrite list_elem_of_singleton. tauto.
    + intros l. rewrite elem_of_app. by left.
Qed.

Lemma refused_gave_up s i e :
  cancelled_sessions (inner s) ⊆ ever_cancelled s ->
  accepts (inner s) (event_session_id e) = false -> gave_up s i e.
Proof.
  intros Hc Ha. unfold accepts in Ha. unfold gave_up. apply andb_false_iff in Ha as [Ha|Ha].
  - apply negb_false_iff in Ha. auto.
  - apply bool_decide_eq_false in Ha. right. right. apply Hc.
    destruct (decide (event_session_id e ∈ cancelled_sessions (inner s))); [done|contradiction].
Qed.

Lemma chunk_refused (q : Inner X) sid c :
  qinv q -> push_output_chunk_step q sid c = None -> accepts q sid = false.
Proof.
  intros Hq. rewrite push_chunk_cases by done. destruct (accepts q sid); [|done].
  by destruct (_ && _).
Qed.

Definition ran (s : Sys) (i : nat) (q' : Inner X) (p' : option pstate) (es : list event) (nt : bool) : Sys :=
  mkSys q' (notify nt false (partial_alter (fun _ => p') i (prods s))) (started s) (aborted s)
    (ever_cancelled s) (pushed s ++ ((i,.) <$> es)) (delivered s).

Lemma ran_gave_up s i q' p' es nt j e :
  closed q' = closed (inner s) -> gave_up s j e -> gave_up (ran s i q' p' es nt) j e.
Proof. intros H. unfold gave_up. cbn. by rewrite H. Qed.

(** A holder's critical section in terms of its block: it appends [es] to the block
    and its new state matches. *)
Lemma holder_status s i p q' p' es nt e l o :
  safe (inner s) (prods s) -> cancelled_sessions (inner s) ⊆ ever_cancelled s ->
  holds p = true -> parked p = false -> push_step (inner s) p = (q', p', es, nt) ->
  status s (o ++ [(i, l)]) i e (Some p) -> l `prefix_of` pieces e ->
  l ++ es `prefix_of` pieces e
  /\ status (ran s i q' p' es nt) (o ++ [(i, l ++ es)]) i e (waked nt false <$> p').
Proof.
  intros Hs Hc Hh Hp Hr Hst Hl. pose proof (sf_queue _ _ Hs) as Hq.
  destruct (push_step_events _ _ _ _ _ _ Hq Hr) as (_ & _ & Hcl).
  assert (Hlast : forall es', last_is (o ++ [(i, l ++ es')]) i (l ++ es')) by (intros; by eexists).
  assert (Huniq : forall l', last_is (o ++ [(i, l)]) i l' -> l' = l).
  { intros l' [o' E]. apply app_inj_tail in E as [_ [= ->]]. done. }
  destruct p as [|?|sid [|c cs]|?|e'|]; try done; cbn [push_step] in Hr; cbn in Hst.
  - injection Hr as <- <- <- <-. destruct Hst as (_ & l' & Hl' & Hpc). rewrite (Huniq _ Hl'), app_nil_r in Hpc.
    rewrite app_nil_r. split; [done|]. exists l. split; [by eexists|by left].
  - destruct Hst as (-> & l' & Hl' & Hpc). rewrite (Huniq _ Hl') in Hpc.
    destruct (push_output_chunk_step _ _ _) as [[q1 [|]]|] eqn:Hck; injection Hr as <- <- <- <-.
    + rewrite <- Hpc. split; [eexists; cbn; by rewrite <- app_assoc|]. cbn. split; [done|].
      exists (l ++ [Output (event_session_id e) c]). split; [apply Hlast|by rewrite <- app_assoc].
    + rewrite app_nil_r. split; [done|]. cbn. split; [done|]. exists l. by split; [eexists|].
    + rewrite app_nil_r. split; [done|]. exists l. split; [by eexists|]. right.
      apply ran_gave_up, refused_gave_up; eauto using chunk_refused.
  - destruct Hst as (-> & Hno & Hl'). apply Huniq in Hl' as <-. injection Hr as <- <- <- <-. cbn [app].
    assert (Hpc : pieces e = [e]) by (by destruct e). rewrite Hpc.
    destruct (accepts (inner s) (event_session_id e)) eqn:Ha.
    + split; [done|]. exists [e]. split; [by eexists|by left].
    + split; [apply prefix_nil|]. exists []. split; [by eexists|]. right.
      apply ran_gave_up, refused_gave_up; done.
  - injection Hr as <- <- <- <-. destruct Hst as (l' & Hl' & Hor). rewrite (Huniq _ Hl') in Hor.
    rewrite app_nil_r. split; [done|]. cbn. destruct Hor as [<-|Hg]; [right|left].
    + apply elem_of_app. right. by apply list_elem_of_singleton.
    + by apply (ran_gave_up s i (end_push (inner s)) None [] true).
Qed.

Lemma holder_last s order i p e :
  serial s order -> prods s !! i = Some p -> started s !! i = Some e -> holds p = true ->
  exists o l, order = o ++ [(i, l)].
Proof.
  intros Hse Hi He Hh. pose proof (se_status _ _ Hse i e He) as Hst. rewrite Hi in Hst.
  destruct p; try done; cbn in Hst.
  - destruct Hst as (_ & l & [o Ho] & _). eauto.
  - destruct Hst as (_ & l & [o Ho] & _). eauto.
  - destruct Hst as (_ & _ & [o Ho]). eauto.
  - destruct Hst as (l & [o Ho] & _). eauto.
Qed.

Lemma serial_run s order i p q' p' es nt :
  safe (inner s) (prods s) -> cancelled_sessions (inner s) ⊆ ever_cancelled s -> known s ->
  serial s order -> prods s !! i = Some p -> parked p = false ->
  push_step (inner s) p = (q', p', es, nt) -> exists order', serial (ran s i q' p' es nt) order'.
Proof.
  intros Hs Hc Hk Hse Hi Hp Hr. destruct (Hk i) as [e He]; [by eexists|].
  destruct (push_step_events _ _ _ _ _ _ (sf_queue _ _ Hs) Hr) as (_ & _ & Hcl).
  pose proof (se_status _ _ Hse i e He) as Hst. rewrite Hi in Hst. destruct (holds p) eqn:Hh.
  - destruct (holder_last _ _ _ _ _ Hse Hi He Hh) as (o & l & ->).
    exists (o ++ [(i, l ++ es)]). eapply (serial_extend s _ o i l es p' nt false); try done.
    + intros j ej. by apply ran_gave_up.
    + intros j pj Hj Hhj. by eapply (sf_one _ _ Hs).
    + intros e' He'. simplify_eq. eapply holder_status; eauto.
      destruct (se_prefix _ _ Hse i l) as (e0 & He0 & ?); [|by simplify_eq].
      apply elem_of_app. right. by apply list_elem_of_singleton.
  - destruct p as [e1|e1| | | |]; try done. cbn in Hst. destruct Hst as [-> Hni]. cbn [push_step] in Hr.
    unfold begin_push_step in Hr. destruct (accepts _ _) eqn:Ha; [destruct (producer_active _) eqn:Hpa|];
      injection Hr as <- <- <- <-.
    + exists order. eapply (serial_local s _ order i _ false false); try done; [by cbn; rewrite app_nil_r|].
      intros e' He'. simplify_eq. done.
    + exists (order ++ [(i, [])]). eapply (serial_take s _ order i e (after_turn e)); eauto.
      * cbn. by rewrite app_nil_r.
      * cbn. by rewrite notify_none.
      * intros j pj Hj. destruct (holds pj) eqn:E; [|done].
        assert (producer_active (inner s) = true) by (apply (sf_active _ _ Hs); eauto). congruence.
      * destruct e; cbn; (split; [done|]); try (split; [done|by eexists]).
        exists []. by split; [eexists|].
    + exists order. eapply (serial_local s _ order i _ false false); try done; [by cbn; rewrite app_nil_r|].
      intros e' He'. simplify_eq. left. apply ran_gave_up, refused_gave_up; done.
Qed.

Lemma serial_step s s' order :
  reachable s -> faithful s -> serial s order -> step s s' -> exists order', serial s' order'.
Proof.
  intros [Hk Hs]%reachable_safe [Hc _] Hse Hst. pose proof (sf_queue _ _ Hs) as Hq.
  destruct Hst as [i e Hi|i p q' p' es nt Hi Hp Hr|i p Hi|i p Hi|o q' nt ns out Hcall].
  - exists order. destruct Hse as [Hnd Hpu Hpre Hst]. constructor; cbn; [done..| |].
    + intros j l Hj. destruct (Hpre j l Hj) as (e' & He' & ?). exists e'.
      rewrite lookup_insert_ne by congruence. done.
    + intros j ej. destruct (decide (j = i)) as [->|Hne].
      * rewrite !lookup_insert_eq. intros [= <-]. cbn. split; [done|].
        intros Hin. apply list_elem_of_fmap in Hin as ([j l] & -> & Hj).
        destruct (Hpre j l Hj) as (? & ? & _). cbn in *. congruence.
      * rewrite !lookup_insert_ne by done. apply Hst.
  - by eapply serial_run.
  - exists order. eapply (serial_local s _ order i _ false false); try done; [by rewrite notify_none|].
    intros e He. pose proof (se_status _ _ Hse i e He) as Hst. rewrite Hi in Hst.
    apply (status_frame s _ order order i e true true (Some p)); [by intros ?|done..].
  - exists order. eapply (serial_local s _ order i _ false false); try done.
    + intros j e. unfold gave_up. cbn. set_solver.
    + by rewrite notify_none.
    + intros e He. assert (Hg : i ∈ {[i]} ∪ aborted s) by set_solver.
      destruct (holds p) eqn:Hh; [|by left; left].
      destruct (holder_last _ _ _ _ _ Hse Hi He Hh) as (o & l & ->).
      exists l. split; [by eexists|]. by right; left.
  - exists order. destruct (call_stream _ _ _ _ _ _ Hq Hcall) as (_ & Hcl & _).
    destruct Hse as [Hnd Hpu Hpre Hst]. constructor; cbn; try done.
    intros j e He. rewrite notify_lookup. eapply status_frame; [|done..|by apply Hst].
    unfold gave_up. cbn. intros [?|[Hclosed|?]]; [by left| |set_solver].
    right. left. destruct o; try (rewrite Hcl; [done|discriminate]).
    by injection Hcall as <- _ _ _.
Qed.

(** Pushes are serialised. The log of everything the producers appended to the
    queue is a sequence of contiguous blocks, one per producer that got the turn;
    each block is a prefix of the chunks of that producer's own event, and a push
    that has returned, was not dropped halfway, and whose session was never
    cancelled on an open queue has pushed its event completely: large output is
    never interleaved with another producer's events. *)
Theorem producers_serialised s :
  reachable s ->
  exists order, NoDup order.*1 /\ pushed s = blocks order
  /\ (forall i l, (i, l) ∈ order -> exists e, started s !! i = Some e /\ l `prefix_of` pieces e)
  /\ (forall i e, started s !! i = Some e -> prods s !! i = None -> i ∉ aborted s ->
      closed (inner s) = false -> event_session_id e ∉ ever_cancelled s -> (i, pieces e) ∈ order).
Proof.
  intros Hr. assert (H : faithful s /\ exists order, serial s order).
  { revert s Hr. apply (reachable_ind_inv (fun s => faithful s /\ exists order, serial s order)).
    - split; [by split|]. exists []. constructor; cbn; try done; [apply NoDup_nil_2|].
      intros i l Hi. by apply not_elem_of_nil in Hi.
    - intros s s' Hr [Hf [order Hse]] Hst. split; [by eapply faithful_step|by eapply serial_step]. }
  destruct H as [_ [order [Hnd Hpu Hpre Hst]]]. exists order. split_and!; try done.
  intros i e He Hn Hab Hcl Hev. specialize (Hst i e He). rewrite Hn in Hst. cbn in Hst.
  unfold gave_up in Hst. destruct Hst as [[?|[?|?]]|?]; congruence || done.
Qed.

(** ** Schedules: the step relation, executably *)

Inductive Action := AStart (i : nat) (e : event) | ARun (i : nat) | ACall (o : Op).

Definition exec1 (s : Sys) (a : Action) : option Sys :=
  match a with
  | AStart i e =>
    match started s !! i with
    | None => Some (mkSys (inner s) (<[i := PWantTurn e]> (prods s)) (<[i := e]> (started s))
                      (aborted s) (ever_cancelled s) (pushed s) (delivered s))
    | Some _ => None
    end
  | ARun i =>
    match prods s !! i with
    | Some p => if parked p then None else
        let '(q', p', es, nt) := push_step (inner s) p in Some (ran s i q' p' es nt)
    | None => None
    end
  | ACall o =>
    let '(q', nt, ns, out) := call (inner s) o in
    Some (mkSys q' (notify nt ns (prods s)) (started s) (aborted s)
            (op_cancels o ∪ ever_cancelled s) (pushed s) (delivered s ++ out))
  end.

Fixpoint exec (s : Sys) (l : list Action) : option Sys :=
  match l with [] => Some s | a :: l' => match exec1 s a with Some s' => exec s' l' | None => None end end.

Lemma exec1_step s a s' : exec1 s a = Some s' -> step s s'.
Proof.
  destruct a as [i e|i|o]; cbn.
  - destruct (started s !! i) eqn:E; [done|]. intros [= <-]. by apply step_start.
  - destruct (prods s !! i) as [p|] eqn:E; [|done]. destruct (parked p) eqn:Hp; [done|].
    destruct (push_step (inner s) p) as [[[q' p'] es] nt] eqn:Hr. intros [= <-]. by eapply step_run.
  - destruct (call (inner s) o) as [[[q' nt] ns] out] eqn:Hc. intros [= <-]. by apply step_call.
Qed.

Lemma exec_reachable l s : exec init l = Some s -> reachable s.
Proof.
  unfold reachable. generalize init. induction l as [|a l IH]; cbn; intros s0.
  - intros [= <-]. constructor.
  - destruct (exec1 s0 a) eqn:E; [|done]. intros. eapply rtc_l; [by eapply exec1_step|auto].
Qed.

End System.
Arguments Sys : clear implicits.

(** ** Witnesses *)

(** Two producers; the first takes the turn, the second parks behind it, two bytes
    of the three pushed are drained, the first finishes, the second runs. *)
Definition demo_schedule : list (Action (X := unit)) :=
  [AStart 0 (Output [97] [1; 2; 3]); AStart 1 (Exited [98] [0]); ARun 0; ARun 1; ARun 0;
   ACall (ODrain 4 (Some 2%N)); ARun 0; ARun 0; ARun 1; ARun 1].

Definition demo_sys : Sys unit := default init (exec init demo_schedule).

Lemma demo_reachable : reachable demo_sys.
Proof. apply (exec_reachable demo_schedule). vm_compute. reflexivity. Qed.

Lemma queue_memory_bounded_witness : queued_output_bytes (inner demo_sys) = 1 /\ 1 <= LIMIT.
Proof.
  destruct (queue_memory_bounded demo_sys demo_reachable) as (H1 & H2 & _).
  assert (E : queued_output_bytes (inner demo_sys) = 1) by reflexivity.
  split; [exact E|]. rewrite <- H1, E in H2. exact H2.
Defined.

Lemma producer_turn_exclusive_witness :
  producer_active (inner demo_sys) = true /\ exists i p, prods demo_sys !! i = Some p /\ holds p = true.
Proof.
  assert (E : producer_active (inner demo_sys) = true) by reflexivity.
  split; [exact E|].
  exact (proj1 (proj1 (proj2 (producer_turn_exclusive demo_sys demo_reachable))) E).
Defined.

Lemma producers_never_wedged_witness :
  prods demo_sys !! 1%nat = Some PRelease
  /\ ((exists j pj, prods demo_sys !! j = Some pj /\ parked pj = false)
      \/ LOW < queued_output_bytes (inner demo_sys)).
Proof.
  assert (E : prods demo_sys !! 1%nat = Some PRelease) by reflexivity.
  split; [exact E|].
  destruct (producers_never_wedged demo_sys 1 PRelease demo_reachable E) as [H|[H _]]; [left|right]; exact H.
Defined.

Lemma session_stream_delivered_witness :
  stream_of [97] (delivered demo_sys) = [IByte [97] 1; IByte [97] 2]
  /\ stream_of [97] (events (inner demo_sys)) = [IByte [97] 3]
  /\ stream_of [97] (pushed demo_sys).*2 = [IByte [97] 1; IByte [97] 2] ++ [IByte [97] 3].
Proof.
  split; [reflexivity|]. split; [reflexivity|].
  assert (H : [97] ∉ ever_cancelled demo_sys) by by_decide.
  rewrite <- (session_stream_delivered demo_sys [97] demo_reachable H). reflexivity.
Defined.

Lemma producers_serialised_witness :
  exists order, NoDup order.*1 /\ pushed demo_sys = blocks order
    /\ (0%nat, pieces (Output [97] [1; 2; 3])) ∈ order.
Proof.
  destruct (producers_serialised demo_sys demo_reachable) as (order & H1 & H2 & _ & H3).
  exists order. split; [exact H1|]. split; [exact H2|].
  apply H3; [reflexivity|reflexivity|by_decide|reflexivity|by_decide].
Defined.
