(* ===== verification/Mailbox.v ===== *)
(** * The input mailbox contract

    Three queues carry terminal input to a transport: [writer_mailbox.rs] (local
    processes, telnet, serial), [ssh_mailbox.rs] and [tmux/mailbox.rs]. They share
    their limits and a promise: what has been accepted and not yet written stays
    within 8 MiB and 1024 items, counting what the receiver has taken but not
    finished, and leaves in the order it came. This file states the promise as an
    abstract machine, the interface [Mailbox] by which an implementation shows that
    it refines the machine, and the theorem a client gets from the interface. The
    [mpsc] channel two of the mailboxes rest on is a third-party library: the
    interface [Channel] says what they rely on. *)

From stdpp Require Import base list numbers.
From Stdlib Require Import ZArith Lia.
From S2P Require Import Prelude.

Local Open Scope Z_scope.

(** ** Limits and errors shared by the three mailboxes *)

Definition BYTE_LIMIT : Z := 8 * 1024 * 1024.
Definition ITEM_LIMIT : Z := 1024.

(** The [io::ErrorKind]s they report; [Other] is a poisoned lock or a failed
    reservation of memory. *)
Inductive ErrorKind := InvalidInput | BrokenPipe | WouldBlock | Interrupted | Other.

(** ** The abstract machine *)

(** [pending]: accepted and not taken. [held]: byte costs that are accounted for
    outside the queue, because the input is being copied in or written out. *)
Record abs (A : Type) := mkAbs { pending : list A; held : list Z }.
Arguments mkAbs {A}. Arguments pending {A}. Arguments held {A}.

Inductive label (A : Type) : Type :=
| Reserve (n : Z)
| Enqueue (a : A)
| Accept (a : A)
| Deliver (a : A)
| Release (n : Z)
| Discard (l : list A)
| Silent.
Arguments Reserve {A}. Arguments Enqueue {A}. Arguments Accept {A}. Arguments Deliver {A}.
Arguments Release {A}. Arguments Discard {A}. Arguments Silent {A}.

Section Machine.
Context {A : Type} (cost : A -> Z) (cost_nonneg : forall a, 0 <= cost a).

Definition zsum (l : list Z) : Z := foldr Z.add 0 l.
Definition total (x : abs A) : Z := zsum (cost <$> pending x) + zsum (held x).
Definition count (x : abs A) : Z := Z.of_nat (length (pending x) + length (held x)).

(** There is room for [n] more bytes and one more item. *)
Definition room (x : abs A) (n : Z) : Prop := total x + n <= BYTE_LIMIT /\ count x < ITEM_LIMIT.

Inductive astep : abs A -> label A -> abs A -> Prop :=
| astep_reserve p h1 h2 n :
  room (mkAbs p (h1 ++ h2)) n -> 0 <= n -> astep (mkAbs p (h1 ++ h2)) (Reserve n) (mkAbs p (h1 ++ n :: h2))
| astep_enqueue p h1 h2 a :
  astep (mkAbs p (h1 ++ cost a :: h2)) (Enqueue a) (mkAbs (p ++ [a]) (h1 ++ h2))
| astep_accept p h a : room (mkAbs p h) (cost a) -> astep (mkAbs p h) (Accept a) (mkAbs (p ++ [a]) h)
| astep_deliver p h a : astep (mkAbs (a :: p) h) (Deliver a) (mkAbs p (cost a :: h))
| astep_release p h1 h2 n : astep (mkAbs p (h1 ++ n :: h2)) (Release n) (mkAbs p (h1 ++ h2))
| astep_discard p l p' h : p = l ++ p' -> astep (mkAbs p h) (Discard l) (mkAbs p' h)
| astep_silent x : astep x Silent x.

(** What a run has let in, and what it has taken out, in order. *)
Definition entered (t : label A) : list A := match t with Enqueue a | Accept a => [a] | _ => [] end.
Definition left_by (t : label A) : list A := match t with Deliver a => [a] | Discard l => l | _ => [] end.
Definition accepted (tr : list (label A)) : list A := tr ≫= entered.
Definition removed (tr : list (label A)) : list A := tr ≫= left_by.

Inductive atrace : list (label A) -> abs A -> Prop :=
| atrace_nil : atrace [] (mkAbs [] [])
| atrace_snoc tr x l x' : atrace tr x -> astep x l x' -> atrace (tr ++ [l]) x'.

Lemma zsum_app l1 l2 : zsum (l1 ++ l2) = zsum l1 + zsum l2.
Proof. unfold zsum. induction l1 as [|x l1 IH]; cbn; [done|]. rewrite IH. lia. Qed.

Lemma zsum_cons x l : zsum (x :: l) = x + zsum l.
Proof. done. Qed.

Lemma zsum_nonneg l : Forall (fun n => 0 <= n) l -> 0 <= zsum l.
Proof. induction 1; [done|]. rewrite zsum_cons. lia. Qed.

Definition abs_ok (x : abs A) : Prop :=
  Forall (fun n => 0 <= n) (held x) /\ total x <= BYTE_LIMIT /\ count x <= ITEM_LIMIT.

Lemma costs_nonneg p : 0 <= zsum (cost <$> p).
Proof. apply zsum_nonneg, Forall_fmap, Forall_true. apply cost_nonneg. Qed.

Lemma astep_ok x l x' : astep x l x' -> abs_ok x -> abs_ok x'.
Proof.
  unfold abs_ok, room, total, count.
  destruct 1 as [p h1 h2 n [H1 H2] Hn|p h1 h2 a|p h a [H1 H2]|p h a|p h1 h2 n|p l p' h ->|x];
    cbn [pending held] in *; intros (Hf & Ht & Hc); try done;
    rewrite ?fmap_app, ?zsum_app, ?length_app, ?fmap_cons, ?zsum_cons in *; cbn [length] in *.
  - unfold total, count in *; cbn [pending held] in *. rewrite zsum_app, length_app in *.
    apply Forall_app in Hf as [? ?]. split_and!; [apply Forall_app; auto|lia..].
  - apply Forall_app in Hf as [? [? ?]%Forall_cons_1]. split_and!; [by apply Forall_app|..];
      change (zsum (cost <$> [])) with 0; lia.
  - unfold total, count in *; cbn [pending held] in *. split_and!; [done|..];
      change (zsum (cost <$> [])) with 0; lia.
  - split_and!; [by constructor|lia..].
  - apply Forall_app in Hf as [? [? ?]%Forall_cons_1]. split_and!; [by apply Forall_app|lia..].
  - pose proof (costs_nonneg l). split_and!; [done|lia..].
Qed.

(** Everything that ever entered has left or is pending, in order, and the limits hold. *)
Lemma atrace_contract tr x :
  atrace tr x -> accepted tr = removed tr ++ pending x /\ abs_ok x.
Proof.
  induction 1 as [|tr x l x' _ [IH Hok] Hs].
  - split; [done|]. split_and!; [constructor|done..].
  - split; [|by eapply astep_ok]. unfold accepted, removed in *. rewrite !bind_app, IH.
    destruct Hs; subst; cbn; by rewrite ?app_nil_r, <- ?app_assoc.
Qed.

End Machine.
Arguments zsum l : simpl never.

(** ** The interface *)

Class Mailbox {A : Type} (cost : A -> Z) (S : Type) := {
  mb_init : S;
  mb_step : S -> label A -> S -> Prop;
  mb_queue : S -> list A;
  mb_bytes : S -> Z;
  mb_items : S -> Z;
  mb_rel : S -> abs A -> Prop;
  mb_rel_init : mb_rel mb_init (mkAbs [] []);
  mb_sim s l s' x : mb_rel s x -> abs_ok cost x -> mb_step s l s' -> exists x', astep cost x l x' /\ mb_rel s' x';
  mb_rel_obs s x : mb_rel s x -> mb_queue s = pending x /\ mb_bytes s = total cost x /\ mb_items s = count x
}.

Section Client.
Context {A : Type} (cost : A -> Z) (cost_nonneg : forall a, 0 <= cost a).
Context {S : Type} `{M : !Mailbox cost S}.

(** A run of the implementation with its labels. *)
Inductive mtrace : list (label A) -> S -> Prop :=
| mtrace_nil : mtrace [] mb_init
| mtrace_snoc tr s l s' : mtrace tr s -> mb_step s l s' -> mtrace (tr ++ [l]) s'.

Lemma mtrace_refines tr s : mtrace tr s -> exists x, atrace cost tr x /\ mb_rel s x.
Proof.
  induction 1 as [|tr s l s' _ (x & Hx & Hr) Hs].
  - exists (mkAbs [] []). split; [constructor|apply mb_rel_init].
  - destruct (mb_sim s l s' x Hr) as (x' & Hx' & Hr'); [by eapply atrace_contract|done|]. exists x'. split; [|done].
    by eapply atrace_snoc.
Qed.

Lemma mailbox_contract tr s :
  mtrace tr s ->
  accepted tr = removed tr ++ mb_queue s /\ 0 <= mb_bytes s <= BYTE_LIMIT /\ mb_items s <= ITEM_LIMIT.
Proof.
  intros (x & Hx & Hr)%mtrace_refines. destruct (mb_rel_obs s x Hr) as (-> & -> & ->).
  destruct (atrace_contract cost cost_nonneg tr x Hx) as (? & Hf & ? & ?). split_and!; try done.
  unfold total. pose proof (zsum_nonneg _ Hf). pose proof (costs_nonneg cost cost_nonneg (pending x)).
  lia.
Qed.

End Client.

(** ** Channels *)

(** The unbounded [mpsc] channel: the part of its interface that is used. *)
Class Channel (A C : Type) := {
  ch_new : C;
  ch_contents : C -> list A;
  ch_closed : C -> bool;
  ch_send : C -> A -> option C;
  ch_try_recv : C -> option (A * C);
  ch_drop_rx : C -> C
}.

(** What its documentation promises: messages come out in the order they went in, a
    send fails once the receiver is gone, and then the messages are dropped. *)
Class ChannelLaws (A C : Type) `{!Channel A C} := {
  ch_new_empty : ch_contents ch_new = [] /\ ch_closed ch_new = false;
  ch_send_open c a : ch_closed c = false ->
    exists c', ch_send c a = Some c' /\ ch_contents c' = ch_contents c ++ [a] /\ ch_closed c' = false;
  ch_send_closed c a : ch_closed c = true -> ch_send c a = None;
  ch_recv_nil c : ch_contents c = [] -> ch_try_recv c = None;
  ch_recv_cons c a l : ch_contents c = a :: l ->
    exists c', ch_try_recv c = Some (a, c') /\ ch_contents c' = l /\ ch_closed c' = ch_closed c;
  ch_drop_rx_spec c : ch_contents (ch_drop_rx c) = [] /\ ch_closed (ch_drop_rx c) = true
}.

(** A list with a flag is a channel. *)
#[export] Instance list_channel A : Channel A (list A * bool) := {
  ch_new := ([], false);
  ch_contents := fst;
  ch_closed := snd;
  ch_send c a := if c.2 then None else Some (c.1 ++ [a], false);
  ch_try_recv c := match c.1 with [] => None | a :: l => Some (a, (l, c.2)) end;
  ch_drop_rx c := ([], true)
}.

#[export] Instance list_channel_laws A : ChannelLaws A (list A * bool).
Proof.
  constructor; cbn; try done.
  - intros [l b] a Hb. cbn in *. subst b. by eexists.
  - intros [l b] a Hb. cbn in *. by subst b.
  - intros [l b] Hl. cbn in *. by subst l.
  - intros [l b] a l' Hl. cbn in *. subst l. by eexists.
Qed.

Section ChannelLemmas.
Context {A C : Type} `{!Channel A C, !ChannelLaws A C}.

Lemma ch_send_inv c a c' :
  ch_send c a = Some c' -> ch_closed c = false /\ ch_contents c' = ch_contents c ++ [a] /\ ch_closed c' = false.
Proof.
  intros Hs. destruct (ch_closed c) eqn:Hc; [by rewrite ch_send_closed in Hs|].
  destruct (ch_send_open c a Hc) as (c'' & Hs' & ? & ?). rewrite Hs in Hs'. by injection Hs' as ->.
Qed.

Lemma ch_recv_inv c a c' :
  ch_try_recv c = Some (a, c') -> ch_contents c = a :: ch_contents c' /\ ch_closed c' = ch_closed c.
Proof.
  intros Hr. destruct (ch_contents c) as [|b l] eqn:E; [by rewrite ch_recv_nil in Hr|].
  destruct (ch_recv_cons c b l E) as (c'' & Hr' & ? & ?). rewrite Hr in Hr'. injection Hr' as -> ->.
  by split; [congruence|].
Qed.
End ChannelLemmas.

(** ** Subtraction that must not underflow *)

(** [x -= y] on [usize]: an underflow panics with overflow checks and wraps without. *)
Definition sub_oc (oc : bool) (x y : Z) : outcome Z :=
  if y <=? x then Ret (x - y) else if oc then Panic else Ret (uwrap 64 (x - y)).

Lemma sub_oc_ok oc x y : y <= x -> sub_oc oc x y = Ret (x - y).
Proof. intros H. unfold sub_oc. by rewrite (proj2 (Z.leb_le _ _) H). Qed.
