(* ===== verification/WriterMailbox.v ===== *)
(** * The writer mailbox

    [src/crates/nyaterm-transport/src/writer_mailbox.rs]: the queue between the
    terminal and the thread that writes to a local process, telnet or serial line.
    [State] is what the mutex protects; a [WritePermit] counts the bytes of a command
    the writer has taken until it drops the permit. *)

From stdpp Require Import base list numbers.
From Stdlib Require Import ZArith Lia.
From S2P Require Import Prelude Mailbox.

Local Open Scope Z_scope.
Local Open Scope rust_scope.

Inductive TransportWriterCommand := Write (data : bytes) | TelnetControl (data : bytes).

Definition byte_cost (command : TransportWriterCommand) : Z :=
  match command with Write data | TelnetControl data => Z.of_nat (length data) end.

Module Writer.

Record State := mkState
  { queue : list TransportWriterCommand;
    bytes_ : Z;
    peak_bytes : Z;
    items : Z;
    stopped : bool }.

Definition default : State := mkState [] 0 0 0 false.

(** The test of [send], [check_capacity] and [wait_capacity]. *)
Definition check_capacity (s : State) (n : Z) : result unit ErrorKind :=
  if stopped s then Err BrokenPipe
  else if (sat_sub BYTE_LIMIT (bytes_ s) <? n) || (ITEM_LIMIT <=? items s) then Err WouldBlock
  else Ok tt.

(** One look of [wait_capacity]: [Ok true] returns, [Ok false] waits and looks again. *)
Definition wait_capacity_step (s : State) (n : Z) (cancelled : bool) : result bool ErrorKind :=
  if BYTE_LIMIT <? n then Err InvalidInput
  else if cancelled then Err Interrupted
  else if stopped s then Err BrokenPipe
  else Ok ((n <=? sat_sub BYTE_LIMIT (bytes_ s)) && (items s <? ITEM_LIMIT)).

(** [reserved] is what [try_reserve] answers. *)
Definition send (s : State) (reserved : bool) (command : TransportWriterCommand) : result State ErrorKind :=
  let n := byte_cost command in
  if stopped s then Err BrokenPipe
  else if (sat_sub BYTE_LIMIT (bytes_ s) <? n) || (ITEM_LIMIT <=? items s) then Err WouldBlock
  else if negb reserved then Err Other
  else Ok (mkState (queue s ++ [command]) (bytes_ s + n) (Z.max (peak_bytes s) (bytes_ s + n))
             (items s + 1) (stopped s)).

(** One look of [receive]: [Ok None] waits (or times out), [Ok (Some _)] returns a
    command with the bytes of its permit. *)
Definition receive_step (s : State) : result (option (TransportWriterCommand * Z * State)) ErrorKind :=
  if stopped s then Err BrokenPipe
  else match queue s with
       | [] => Ok None
       | command :: q =>
         Ok (Some (command, byte_cost command,
                   mkState q (bytes_ s) (peak_bytes s) (items s) (stopped s)))
       end.

(** [WritePermit::drop]. *)
Definition drop_permit (oc : bool) (s : State) (n : Z) : outcome State :=
  b <-! sub_oc oc (bytes_ s) n;
  i <-! sub_oc oc (items s) 1;
  Ret (mkState (queue s) b (peak_bytes s) i (stopped s)).

(** The loop of [stop] over the queue. *)
Fixpoint stop_loop (oc : bool) (q : list TransportWriterCommand) (b i : Z) : outcome (Z * Z) :=
  match q with
  | [] => Ret (b, i)
  | command :: q' =>
    b' <-! sub_oc oc b (byte_cost command);
    i' <-! sub_oc oc i 1;
    stop_loop oc q' b' i'
  end.

Definition stop (oc : bool) (s : State) : outcome State :=
  bi <-! stop_loop oc (queue s) (bytes_ s) (items s);
  Ret (mkState [] (fst bi) (peak_bytes s) (snd bi) true).

(** ** The mailbox with its permits *)

Record Sys := mkSys { state : State; permits : list Z }.

Definition init : Sys := mkSys default [].

(** One step is one critical section. [receive_step] and [send] that fail or wait
    change nothing. *)
Inductive step (oc : bool) : Sys -> label TransportWriterCommand -> Sys -> Prop :=
| step_send s ps reserved c s' :
  send s reserved c = Ok s' -> step oc (mkSys s ps) (Accept c) (mkSys s' ps)
| step_receive s ps c n s' :
  receive_step s = Ok (Some (c, n, s')) -> step oc (mkSys s ps) (Deliver c) (mkSys s' (n :: ps))
| step_drop s ps1 n ps2 s' :
  drop_permit oc s n = Ret s' -> step oc (mkSys s (ps1 ++ n :: ps2)) (Release n) (mkSys s' (ps1 ++ ps2))
| step_stop s ps s' :
  stop oc s = Ret s' -> step oc (mkSys s ps) (Discard (queue s)) (mkSys s' ps).

End Writer.
Import Writer.

Lemma byte_cost_nonneg c : 0 <= byte_cost c.
Proof. destruct c; cbn; lia. Qed.

(** ** Refinement *)

Definition wrel (s : Sys) (x : abs TransportWriterCommand) : Prop :=
  pending x = queue (state s) /\ held x = permits s
  /\ bytes_ (state s) = total byte_cost x /\ items (state s) = count x
  /\ Forall (fun n => 0 <= n) (permits s).

Lemma check_room s n : bytes_ s <= BYTE_LIMIT ->
  (sat_sub BYTE_LIMIT (bytes_ s) <? n) || (ITEM_LIMIT <=? items s) = false ->
  bytes_ s + n <= BYTE_LIMIT /\ items s < ITEM_LIMIT.
Proof. intros Hb H. bool_hyps. unfold sat_sub in *. lia. Qed.

Lemma send_inv s r c s' :
  send s r c = Ok s' ->
  stopped s = false /\ s' = mkState (queue s ++ [c]) (bytes_ s + byte_cost c)
          (Z.max (peak_bytes s) (bytes_ s + byte_cost c)) (items s + 1) false
  /\ (sat_sub BYTE_LIMIT (bytes_ s) <? byte_cost c) || (ITEM_LIMIT <=? items s) = false.
Proof.
  unfold send. destruct (stopped s); [done|]. destruct (_ || _) eqn:E; [done|].
  destruct r; [|done]. cbn. by intros [= <-].
Qed.

Lemma stop_loop_ok oc q b i :
  zsum (byte_cost <$> q) <= b -> Z.of_nat (length q) <= i ->
  stop_loop oc q b i = Ret (b - zsum (byte_cost <$> q), i - Z.of_nat (length q)).
Proof.
  revert b i. induction q as [|c q IH]; intros b i Hb Hi; cbn [stop_loop fmap list_fmap length] in *.
  - by rewrite !Z.sub_0_r.
  - rewrite zsum_cons in *. pose proof (byte_cost_nonneg c).
    pose proof (costs_nonneg byte_cost byte_cost_nonneg q).
    rewrite !sub_oc_ok by lia. cbn [obind]. rewrite IH by lia. do 2 f_equal; lia.
Qed.

Lemma wrel_sums s x : wrel s x ->
  bytes_ (state s) = zsum (byte_cost <$> queue (state s)) + zsum (permits s)
  /\ items (state s) = Z.of_nat (length (queue (state s)) + length (permits s)).
Proof. intros (H1 & H2 & H3 & H4 & _). unfold total, count in *. by rewrite H1, H2 in *. Qed.

Lemma writer_sim oc s l s' x :
  wrel s x -> abs_ok byte_cost x -> step oc s l s' -> exists x', astep byte_cost x l x' /\ wrel s' x'.
Proof.
  intros Hr Hok Hs. pose proof (wrel_sums s x Hr) as [Hb Hi]. destruct x as [p h].
  destruct Hr as (H1 & H2 & H3 & H4 & H5). cbn in H1, H2. subst p h.
  destruct Hok as (_ & Hlim & _). rewrite <- H3 in Hlim.
  destruct Hs as [s ps r c s' Hsend|s ps c n s' Hrecv|s ps1 n ps2 s' Hdrop|s ps s' Hstop]; cbn in *.
  - apply send_inv in Hsend as (_ & -> & Hc). apply check_room in Hc; [|done].
    eexists. split; [apply astep_accept; unfold room; rewrite <- H3, <- H4; done|].
    unfold wrel, total, count; cbn. rewrite fmap_app, zsum_app, length_app. cbn. unfold zsum at 2; cbn.
    split_and!; try done; lia.
  - unfold receive_step in Hrecv. destruct (stopped s); [done|].
    destruct (queue s) as [|c0 q] eqn:Hq; [done|]. injection Hrecv as -> <- <-.
    eexists. split; [apply astep_deliver|]. cbn in *. rewrite zsum_cons in Hb.
    unfold wrel, total, count; cbn. rewrite zsum_cons. pose proof (byte_cost_nonneg c).
    split_and!; try done; [lia..|by constructor].
  - rewrite zsum_app, zsum_cons, length_app in *. cbn in *.
    apply Forall_app in H5 as [Hp1 [Hn Hp2]%Forall_cons_1].
    pose proof (costs_nonneg byte_cost byte_cost_nonneg (queue s)).
    pose proof (zsum_nonneg _ Hp1). pose proof (zsum_nonneg _ Hp2).
    unfold drop_permit in Hdrop. rewrite !sub_oc_ok in Hdrop by lia. injection Hdrop as <-.
    eexists. split; [apply astep_release|]. unfold wrel, total, count; cbn.
    rewrite zsum_app, length_app. split_and!; try done; [lia..|]. by apply Forall_app.
  - pose proof (zsum_nonneg _ H5). unfold stop in Hstop. rewrite stop_loop_ok in Hstop by lia.
    injection Hstop as <-. eexists. split; [apply (astep_discard _ _ _ []); by rewrite app_nil_r|]. unfold wrel, total, count; cbn.
    change (zsum []) with 0. split_and!; try done; lia.
Qed.

#[export] Instance writer_mailbox (oc : bool) : Mailbox byte_cost Sys := {
  mb_init := init;
  mb_step := step oc;
  mb_queue s := queue (state s);
  mb_bytes s := bytes_ (state s);
  mb_items s := items (state s);
  mb_rel := wrel;
  mb_rel_init := conj eq_refl (conj eq_refl (conj eq_refl (conj eq_refl (Forall_nil_2 _))));
  mb_sim := writer_sim oc;
  mb_rel_obs s x H := conj (eq_sym (proj1 H)) (conj (proj1 (proj2 (proj2 H)))
                        (proj1 (proj2 (proj2 (proj2 H)))))
}.

(** Runs of the writer mailbox. *)
Definition wtrace (oc : bool) : list (label TransportWriterCommand) -> Sys -> Prop :=
  mtrace byte_cost (M := writer_mailbox oc).

Lemma wtrace_rel oc tr s : wtrace oc tr s -> exists x, wrel s x /\ abs_ok byte_cost x.
Proof.
  intros (x & Hx & Hr)%(mtrace_refines byte_cost byte_cost_nonneg). exists x. split; [done|].
  by eapply (atrace_contract byte_cost byte_cost_nonneg).
Qed.

(** The writer mailbox refines the bounded queue. In every run, what was accepted is
    what was taken out (delivered to the writer, or discarded by [stop]) followed by
    what is queued, in order; the byte counter stays between 0 and 8 MiB and the item
    counter within 1024 although both also count the commands still being written. *)
Theorem writer_mailbox_fifo_bounded oc tr s :
  wtrace oc tr s ->
  accepted tr = removed tr ++ queue (state s)
  /\ 0 <= bytes_ (state s) <= BYTE_LIMIT /\ items (state s) <= ITEM_LIMIT.
Proof. exact (mailbox_contract byte_cost byte_cost_nonneg (M := writer_mailbox oc) tr s). Qed.

(** The counters never underflow. In a reachable state the counters are exactly the
    queued commands plus the outstanding permits, dropping any permit returns it, and
    [stop] returns with an empty queue and the permits still accounted for, with or
    without overflow checks. *)
Theorem writer_counters_exact oc tr s :
  wtrace oc tr s ->
  bytes_ (state s) = zsum (byte_cost <$> queue (state s)) + zsum (permits s)
  /\ items (state s) = Z.of_nat (length (queue (state s)) + length (permits s))
  /\ (forall n, n ∈ permits s -> drop_permit oc (state s) n
        = Ret (mkState (queue (state s)) (bytes_ (state s) - n) (peak_bytes (state s))
                 (items (state s) - 1) (stopped (state s))))
  /\ stop oc (state s) = Ret (mkState [] (zsum (permits s)) (peak_bytes (state s))
                                (Z.of_nat (length (permits s))) true).
Proof.
  intros (x & Hr & _)%wtrace_rel. pose proof (wrel_sums s x Hr) as [Hb Hi].
  destruct Hr as (_ & _ & _ & _ & Hf). pose proof (costs_nonneg byte_cost byte_cost_nonneg (queue (state s))).
  split_and!; [done|done|..].
  - intros n Hn. apply list_elem_of_split in Hn as (p1 & p2 & Hp). rewrite Hp in *.
    rewrite zsum_app, zsum_cons, length_app in *. cbn [length] in *.
    apply Forall_app in Hf as [Hp1 [Hn Hp2]%Forall_cons_1].
    pose proof (zsum_nonneg _ Hp1). pose proof (zsum_nonneg _ Hp2).
    unfold drop_permit. by rewrite !sub_oc_ok by lia.
  - pose proof (zsum_nonneg _ Hf). unfold stop. rewrite stop_loop_ok by lia.
    cbn [obind fst snd]. do 2 f_equal; lia.
Qed.

(** Capacity is decided by what is outstanding. In a reachable state [send] (given
    memory) succeeds exactly when the mailbox is not stopped and the command fits
    beside the queued and in-flight ones, and it does succeed after [check_capacity]
    or [wait_capacity] has said so. *)
Theorem writer_send_outcome oc tr s c :
  wtrace oc tr s ->
  ((exists s', send (state s) true c = Ok s')
   <-> stopped (state s) = false
       /\ zsum (byte_cost <$> queue (state s)) + zsum (permits s) + byte_cost c <= BYTE_LIMIT
       /\ Z.of_nat (length (queue (state s)) + length (permits s)) < ITEM_LIMIT)
  /\ (check_capacity (state s) (byte_cost c) = Ok tt -> exists s', send (state s) true c = Ok s')
  /\ (wait_capacity_step (state s) (byte_cost c) false = Ok true -> exists s', send (state s) true c = Ok s').
Proof.
  intros (x & Hr & Hok)%wtrace_rel. pose proof (wrel_sums s x Hr) as [Hb Hi].
  destruct Hr as (_ & _ & Ht & _ & _). destruct Hok as (_ & Hlim & _). rewrite <- Ht in Hlim.
  rewrite <- Hb, <- Hi. unfold send, check_capacity, wait_capacity_step, sat_sub.
  destruct (stopped (state s)); [split_and!; [split; [by intros [? ?]|by intros [? _]]|done|by destruct (_ <? _)]|].
  cbn [negb]. destruct (_ || _) eqn:E; cbn [negb].
  - apply orb_true_iff in E. rewrite Z.ltb_lt, Z.leb_le in E. split_and!.
    + split; [by intros [? ?]|]. intros (_ & ? & ?). lia.
    + done.
    + destruct (BYTE_LIMIT <? _); [done|]. intros [= H]. bool_hyps. lia.
  - bool_hyps. split_and!; [|by eexists..]. split; [|by eexists]. intros _. split_and!; [done|lia|lia].
Qed.

(** ** Witnesses *)

Definition demo_writer : Sys :=
  mkSys (mkState [TelnetControl [9]] 4 4 2 false) [3].

Lemma demo_wtrace : wtrace true [Accept (Write [1; 2; 3]); Accept (TelnetControl [9]); Deliver (Write [1; 2; 3])] demo_writer.
Proof.
  apply (mtrace_snoc byte_cost [_; _] (mkSys (mkState [Write [1; 2; 3]; TelnetControl [9]] 4 4 2 false) [])).
  - apply (mtrace_snoc byte_cost [_] (mkSys (mkState [Write [1; 2; 3]] 3 3 1 false) [])).
    + apply (mtrace_snoc byte_cost [] init); [constructor|]. by apply (step_send true default [] true).
    + by apply (step_send true (mkState [Write [1; 2; 3]] 3 3 1 false) [] true).
  - by apply (step_receive true (mkState [Write [1; 2; 3]; TelnetControl [9]] 4 4 2 false) []).
Qed.

Lemma writer_mailbox_fifo_bounded_witness :
  [Write [1; 2; 3]; TelnetControl [9]] = [Write [1; 2; 3]] ++ queue (state demo_writer)
  /\ bytes_ (state demo_writer) <= BYTE_LIMIT.
Proof.
  destruct (writer_mailbox_fifo_bounded true _ _ demo_wtrace) as (H1 & [_ H2] & _).
  split; [exact H1|exact H2].
Defined.

Lemma writer_counters_exact_witness :
  stop true (state demo_writer) = Ret (mkState [] 3 4 1 true).
Proof. exact (proj2 (proj2 (proj2 (writer_counters_exact true _ _ demo_wtrace)))). Defined.

Lemma writer_send_outcome_witness : exists s', send (state demo_writer) true (Write [7]) = Ok s'.
Proof. exact (proj1 (proj2 (writer_send_outcome true _ _ (Write [7]) demo_wtrace)) eq_refl). Defined.
