(* ===== verification/SshMailbox.v ===== *)
(** * The SSH input mailbox

    [src/crates/nyaterm-transport/src/ssh_mailbox.rs]: input for an SSH session on its
    way to the worker task. The accounting [State] is behind a mutex, the data in an
    [mpsc] channel; every queued or taken write owns a permit for its bytes. Resizes
    are coalesced and, like the close request, overtake the data. *)

From stdpp Require Import base list numbers.
From Stdlib Require Import ZArith Lia.
From S2P Require Import Prelude Mailbox.

Local Open Scope Z_scope.
Local Open Scope rust_scope.

Module Ssh.

Record State := mkState
  { bytes_ : Z; peak_bytes : Z; items : Z; stopped : bool; resize_ : option (Z * Z * Z * Z) }.

Definition default : State := mkState 0 0 0 false None.

(** A [PendingWrite] is its bytes; its permit is for their number. *)
Definition permit_bytes (w : bytes) : Z := Z.of_nat (length w).

(** Commands to the worker. *)
Inductive SshCommand :=
| CWrite (w : bytes)
| CResize (cols rows pixel_width pixel_height : Z)
| CTmuxCommand (line : bytes)
| CTmuxDetach
| CTmuxPaneInput (pane data : bytes)
| CTmuxPaneResize (pane : bytes) (cols rows : Z)
| CTmuxPaneClose (pane : bytes)
| CClose.

Definition check (s : State) (n : Z) : result unit ErrorKind :=
  if stopped s then Err BrokenPipe
  else if BYTE_LIMIT <? n then Err InvalidInput
  else if (sat_sub BYTE_LIMIT (bytes_ s) <? n) || (ITEM_LIMIT <=? items s) then Err WouldBlock
  else Ok tt.

(** [Permit::drop]. *)
Definition drop_permit (oc : bool) (s : State) (n : Z) : outcome State :=
  b <-! sub_oc oc (bytes_ s) n;
  i <-! sub_oc oc (items s) 1;
  Ret (mkState b (peak_bytes s) i (stopped s) (resize_ s)).

Section Channel.
Context {C : Type} `{!Channel bytes C}.

(** [Sender::write]; a write the channel refuses gives its permit back. *)
Definition write (oc : bool) (s : State) (c : C) (w : bytes) : outcome (State * C * result unit ErrorKind) :=
  match w with
  | [] => Ret (s, c, Ok tt)
  | _ =>
    match check s (permit_bytes w) with
    | Err e => Ret (s, c, Err e)
    | Ok _ =>
      let b := bytes_ s + permit_bytes w in
      let s1 := mkState b (Z.max (peak_bytes s) b) (items s + 1) (stopped s) (resize_ s) in
      match ch_send c w with
      | Some c' => Ret (s1, c', Ok tt)
      | None => s2 <-! drop_permit oc s1 (permit_bytes w); Ret (s2, c, Err BrokenPipe)
      end
    end
  end.

(** One look of [wait_capacity]: [Ok false] waits and looks again. *)
Definition wait_capacity_step (s : State) (n : Z) (cancelled : bool) : result bool ErrorKind :=
  if cancelled then Err Interrupted
  else match check s n with
       | Ok _ => Ok true
       | Err WouldBlock => Ok false
       | Err e => Err e
       end.

Definition resize (s : State) (r : Z * Z * Z * Z) : State :=
  mkState (bytes_ s) (peak_bytes s) (items s) (stopped s) (Some r).

(** [Sender::close]; [Receiver::drop] starts the same way. *)
Definition close (s : State) : State :=
  mkState (bytes_ s) (peak_bytes s) (items s) true (resize_ s).

Definition control (s : State) : option SshCommand * State :=
  if stopped s then (Some CClose, s)
  else match resize_ s with
       | Some (c, r, w, h) =>
         (Some (CResize c r w h), mkState (bytes_ s) (peak_bytes s) (items s) (stopped s) None)
       | None => (None, s)
       end.

(** [try_recv], and one look of [recv]; [None]: nothing to receive. *)
Definition try_recv (s : State) (c : C) : option (SshCommand * State * C) :=
  match control s with
  | (Some cmd, s') => Some (cmd, s', c)
  | (None, s') => match ch_try_recv c with Some (w, c') => Some (CWrite w, s', c') | None => None end
  end.

(** The permits of writes that are dropped with the channel. *)
Fixpoint drop_permits (oc : bool) (s : State) (ws : list bytes) : outcome State :=
  match ws with
  | [] => Ret s
  | w :: ws' => s' <-! drop_permit oc s (permit_bytes w); drop_permits oc s' ws'
  end.

(** ** The mailbox with the writes its worker holds *)

Record Sys := mkSys { state : State; chan : C; taken : list Z }.

Definition init : Sys := mkSys default ch_new [].

Inductive step (oc : bool) : Sys -> label bytes -> Sys -> Prop :=
| step_write s c ps w s' c' :
  w <> [] -> write oc s c w = Ret (s', c', Ok tt) -> step oc (mkSys s c ps) (Accept w) (mkSys s' c' ps)
| step_write_err s c ps w s' c' e :
  write oc s c w = Ret (s', c', Err e) -> step oc (mkSys s c ps) Silent (mkSys s' c' ps)
| step_resize s c ps r : step oc (mkSys s c ps) Silent (mkSys (resize s r) c ps)
| step_close s c ps : step oc (mkSys s c ps) Silent (mkSys (close s) c ps)
| step_recv_data s c ps w s' c' :
  try_recv s c = Some (CWrite w, s', c') ->
  step oc (mkSys s c ps) (Deliver w) (mkSys s' c' (permit_bytes w :: ps))
| step_recv_control s c ps cmd s' c' :
  try_recv s c = Some (cmd, s', c') -> (forall w, cmd <> CWrite w) ->
  step oc (mkSys s c ps) Silent (mkSys s' c' ps)
| step_drop s c ps1 n ps2 s' :
  drop_permit oc s n = Ret s' -> step oc (mkSys s c (ps1 ++ n :: ps2)) (Release n) (mkSys s' c (ps1 ++ ps2))
(** The second half of dropping the receiver: the channel goes with its contents. *)
| step_drop_receiver s c ps s' :
  stopped s = true -> drop_permits oc s (ch_contents c) = Ret s' ->
  step oc (mkSys s c ps) (Discard (ch_contents c)) (mkSys s' (ch_drop_rx c) ps).

End Channel.
End Ssh.
Import Ssh.

Section Proofs.
Context {C : Type} `{!Channel bytes C, !ChannelLaws bytes C}.

Lemma permit_bytes_nonneg w : 0 <= permit_bytes w.
Proof. unfold permit_bytes. lia. Qed.

Definition srel (s : Sys) (x : abs bytes) : Prop :=
  pending x = ch_contents (chan s) /\ held x = taken s
  /\ bytes_ (state s) = total permit_bytes x /\ items (state s) = count x
  /\ Forall (fun n => 0 <= n) (taken s)
  /\ (ch_closed (chan s) = true -> stopped (state s) = true).

Lemma srel_sums (s : Sys) x : srel s x ->
  bytes_ (state s) = zsum (permit_bytes <$> ch_contents (chan s)) + zsum (taken s)
  /\ items (state s) = Z.of_nat (length (ch_contents (chan s)) + length (taken s)).
Proof. intros (H1 & H2 & H3 & H4 & _). unfold total, count in *. by rewrite H1, H2 in *. Qed.

Lemma check_inv s n : check s n = Ok tt ->
  stopped s = false /\ (bytes_ s <= BYTE_LIMIT -> bytes_ s + n <= BYTE_LIMIT /\ items s < ITEM_LIMIT).
Proof.
  unfold check. destruct (stopped s); [done|]. destruct (_ <? n); [done|].
  destruct (_ || _) eqn:E; [done|]. intros _. bool_hyps. split; [done|]. unfold sat_sub in *. lia.
Qed.

Lemma ssh_drop_permit_ok oc s n :
  n <= bytes_ s -> 1 <= items s ->
  drop_permit oc s n = Ret (mkState (bytes_ s - n) (peak_bytes s) (items s - 1) (stopped s) (resize_ s)).
Proof. intros ??. unfold drop_permit. by rewrite !sub_oc_ok by done. Qed.

Lemma ssh_drop_permits_ok oc s ws :
  zsum (permit_bytes <$> ws) <= bytes_ s -> Z.of_nat (length ws) <= items s ->
  drop_permits oc s ws = Ret (mkState (bytes_ s - zsum (permit_bytes <$> ws)) (peak_bytes s)
                                (items s - Z.of_nat (length ws)) (stopped s) (resize_ s)).
Proof.
  revert s. induction ws as [|w ws IH]; intros s Hb Hi; cbn [drop_permits].
  - cbn. rewrite !Z.sub_0_r. by destruct s.
  - rewrite fmap_cons, zsum_cons in *. cbn [length] in *. pose proof (permit_bytes_nonneg w).
    pose proof (costs_nonneg permit_bytes permit_bytes_nonneg ws).
    rewrite ssh_drop_permit_ok by lia. cbn [obind]. rewrite IH by (cbn; lia). cbn. do 2 f_equal; lia.
Qed.

(** What [write] does once the checks have passed: with the channel open it is queued;
    the refusing branch is dead, because the receiver stops the mailbox first. *)
Lemma write_inv oc s (c : C) w s' c' r :
  w <> [] -> (ch_closed c = true -> stopped s = true) -> write oc s c w = Ret (s', c', r) ->
  (exists e, r = Err e /\ s' = s /\ c' = c)
  \/ (r = Ok tt /\ check s (permit_bytes w) = Ok tt /\ ch_send c w = Some c'
      /\ bytes_ s' = bytes_ s + permit_bytes w /\ items s' = items s + 1 /\ stopped s' = stopped s).
Proof.
  intros Hw Hcl. unfold write. destruct w as [|b w]; [done|].
  destruct (check s _) as [[]|e] eqn:Hck; [|intros [= <- <- <-]; left; by exists e].
  destruct (check_inv _ _ Hck) as [Hst _].
  destruct (ch_closed c) eqn:Hc; [by rewrite Hcl in Hst|].
  destruct (ch_send_open c (b :: w) Hc) as (c2 & Hs & _). rewrite Hs. intros [= <- <- <-]. right. by split_and!.
Qed.

Lemma control_same s cmd s' :
  control s = (cmd, s') -> bytes_ s' = bytes_ s /\ items s' = items s /\ stopped s' = stopped s.
Proof.
  unfold control. destruct (stopped s) eqn:E; [by intros [= <- <-]|].
  destruct (resize_ s) as [[[[? ?] ?] ?]|]; by intros [= <- <-].
Qed.

Lemma try_recv_inv s (c : C) cmd s' c' :
  try_recv s c = Some (cmd, s', c') ->
  bytes_ s' = bytes_ s /\ items s' = items s /\ stopped s' = stopped s
  /\ match cmd with
     | CWrite w => ch_try_recv c = Some (w, c') /\ stopped s = false
     | _ => c' = c
     end.
Proof.
  unfold try_recv. destruct (control s) as [o s1] eqn:Hc. destruct (control_same _ _ _ Hc) as (? & ? & ?).
  unfold control in Hc. destruct o as [cmd1|].
  - intros [= <- <- <-]. split_and!; try done. destruct (stopped s); [by injection Hc as <- _|].
    destruct (resize_ s) as [[[[? ?] ?] ?]|]; [by injection Hc as <- _|done].
  - destruct (ch_try_recv c) as [[w c1]|]; [|done]. intros [= <- <- <-]. split_and!; try done.
    by destruct (stopped s).
Qed.

Lemma ssh_sim oc (s : Sys) l s' x :
  srel s x -> abs_ok permit_bytes x -> step oc s l s' -> exists x', astep permit_bytes x l x' /\ srel s' x'.
Proof.
  intros Hr Hok Hs. pose proof (srel_sums s x Hr) as [Hb Hi]. destruct x as [p h].
  destruct Hr as (H1 & H2 & H3 & H4 & H5 & H6). cbn in H1, H2. subst p h.
  destruct Hok as (_ & Hlim & _). rewrite <- H3 in Hlim.
  destruct Hs as [s c ps w s' c' Hw Hwr|s c ps w s' c' e Hwr|s c ps r|s c ps|s c ps w s' c' Hrecv
                 |s c ps cmd s' c' Hrecv Hctl|s c ps1 n ps2 s' Hdrop|s c ps s' Hst Hdrop]; cbn in *.
  - destruct (write_inv _ _ _ _ _ _ _ Hw H6 Hwr) as [(e & ? & _)|(_ & Hck & Hsend & Eb & Ei & Est)]; [done|].
    apply check_inv in Hck as [Hns Hroom]. specialize (Hroom Hlim).
    apply ch_send_inv in Hsend as (_ & Hcc & Hcl).
    eexists. split; [apply astep_accept; unfold room; rewrite <- H3, <- H4; done|].
    unfold srel, total, count; cbn. rewrite Hcc, Hcl, Eb, Ei, fmap_app, zsum_app, length_app. cbn.
    unfold zsum at 2; cbn. split_and!; try done; lia.
  - assert (s' = s /\ c' = c) as [-> ->].
    { destruct w as [|b w]; [by injection Hwr|].
      destruct (write_inv oc s c (b :: w) _ _ _ ltac:(done) H6 Hwr) as [(? & _ & -> & ->)|(? & _)]; done. }
    eexists. split; [apply astep_silent|]. by split_and!.
  - eexists. split; [apply astep_silent|]. by split_and!.
  - eexists. split; [apply astep_silent|]. by split_and!.
  - apply try_recv_inv in Hrecv as (Eb & Ei & Est & Hc & _). apply ch_recv_inv in Hc as [Hcc Hcl].
    rewrite Hcc. eexists. split; [apply astep_deliver|].
    rewrite Hcc, fmap_cons, zsum_cons in Hb. rewrite Hcc in Hi. cbn in Hi.
    unfold srel, total, count; cbn. rewrite zsum_cons, Hcl, Eb, Ei, Est. pose proof (permit_bytes_nonneg w).
    split_and!; try done; [lia..|by constructor].
  - apply try_recv_inv in Hrecv as (Eb & Ei & Est & Hc). assert (c' = c) as ->.
    { destruct cmd; [by destruct (Hctl w)|done..]. }
    eexists. split; [apply astep_silent|]. unfold srel; cbn. rewrite Eb, Ei, Est. by split_and!.
  - rewrite zsum_app, zsum_cons, length_app in *. cbn in *.
    apply Forall_app in H5 as [Hp1 [Hn Hp2]%Forall_cons_1].
    pose proof (costs_nonneg permit_bytes permit_bytes_nonneg (ch_contents c)).
    pose proof (zsum_nonneg _ Hp1). pose proof (zsum_nonneg _ Hp2).
    rewrite ssh_drop_permit_ok in Hdrop by lia. injection Hdrop as <-.
    eexists. split; [apply astep_release|]. unfold srel, total, count; cbn.
    rewrite zsum_app, length_app. split_and!; try done; [lia..|]. by apply Forall_app.
  - pose proof (zsum_nonneg _ H5). rewrite ssh_drop_permits_ok in Hdrop by lia. injection Hdrop as <-.
    destruct (ch_drop_rx_spec c) as [Hcc Hcl].
    eexists. split; [apply (astep_discard _ _ _ []); by rewrite app_nil_r|]. unfold srel, total, count; cbn. rewrite Hcc, Hcl.
    change (zsum []) with 0. cbn. split_and!; try done; lia.
Qed.

Lemma srel_init : srel init (mkAbs [] []).
Proof.
  destruct ch_new_empty as [H1 H2]. unfold srel; cbn. rewrite H1, H2. split_and!; try done.
Qed.

#[export] Instance ssh_mailbox (oc : bool) : Mailbox permit_bytes (Sys (C := C)) := {
  mb_init := init;
  mb_step := step oc;
  mb_queue s := ch_contents (chan s);
  mb_bytes s := bytes_ (state s);
  mb_items s := items (state s);
  mb_rel := srel;
  mb_rel_init := srel_init;
  mb_sim := ssh_sim oc;
  mb_rel_obs s x H := conj (eq_sym (proj1 H)) (conj (proj1 (proj2 (proj2 H)))
                        (proj1 (proj2 (proj2 (proj2 H)))))
}.

(** Runs of the SSH mailbox. *)
Definition strace (oc : bool) : list (label bytes) -> Sys (C := C) -> Prop :=
  mtrace permit_bytes (M := ssh_mailbox oc).

Lemma strace_rel oc tr s : strace oc tr s -> exists x, srel s x /\ abs_ok permit_bytes x.
Proof.
  intros (x & Hx & Hr)%(mtrace_refines permit_bytes permit_bytes_nonneg). exists x. split; [done|].
  by eapply (atrace_contract permit_bytes permit_bytes_nonneg).
Qed.

(** Over any channel that keeps the [mpsc] promises, the SSH mailbox refines the
    bounded queue: writes leave in the order they were accepted, the counters stay
    within 8 MiB and 1024 items including the writes the worker still holds, and they
    are exact, so that dropping a permit or the whole channel never underflows them. *)
Theorem ssh_mailbox_fifo_bounded oc tr s :
  strace oc tr s ->
  accepted tr = removed tr ++ ch_contents (chan s)
  /\ 0 <= bytes_ (state s) <= BYTE_LIMIT /\ items (state s) <= ITEM_LIMIT
  /\ (forall n, n ∈ taken s -> exists s', drop_permit oc (state s) n = Ret s')
  /\ (exists s', drop_permits oc (state s) (ch_contents (chan s)) = Ret s'
        /\ bytes_ s' = zsum (taken s) /\ items s' = Z.of_nat (length (taken s))).
Proof.
  intros Ht. destruct (mailbox_contract permit_bytes permit_bytes_nonneg (M := ssh_mailbox oc) tr s Ht)
    as (H1 & H2 & H3). apply strace_rel in Ht as (x & Hr & _).
  pose proof (srel_sums s x Hr) as [Hb Hi]. destruct Hr as (_ & _ & _ & _ & Hf & _).
  pose proof (costs_nonneg permit_bytes permit_bytes_nonneg (ch_contents (chan s))).
  split_and!; try done; try apply H2.
  - intros n Hn. apply list_elem_of_split in Hn as (p1 & p2 & Hp). rewrite Hp in *.
    rewrite zsum_app, zsum_cons, length_app in *. cbn [length] in *.
    apply Forall_app in Hf as [Hp1 [Hn Hp2]%Forall_cons_1].
    pose proof (zsum_nonneg _ Hp1). pose proof (zsum_nonneg _ Hp2).
    rewrite ssh_drop_permit_ok by lia. by eexists.
  - pose proof (zsum_nonneg _ Hf). rewrite ssh_drop_permits_ok by lia. eexists. split; [done|]. cbn. lia.
Qed.

(** Closing wins. Once the mailbox is stopped it stays so, nothing is accepted or
    delivered any more, and every receive answers [Close] before any data. *)
Theorem ssh_close_wins oc (s : Sys (C := C)) l s' :
  step oc s l s' -> stopped (state s) = true ->
  stopped (state s') = true
  /\ (forall w, l <> Accept w /\ l <> Deliver w)
  /\ (forall w, w <> [] -> write oc (state s') (chan s') w = Ret (state s', chan s', Err BrokenPipe))
  /\ try_recv (state s') (chan s') = Some (CClose, state s', chan s').
Proof.
  intros Hs Hst. assert (Hst' : stopped (state s') = true /\ forall w, l <> Accept w /\ l <> Deliver w).
  { destruct Hs as [s c ps w s' c' Hw Hwr|s c ps w s' c' e Hwr|s c ps r|s c ps|s c ps w s' c' Hrecv
                   |s c ps cmd s' c' Hrecv Hctl|s c ps1 n ps2 s' Hdrop|s c ps s' _ Hdrop]; cbn in *; try done.
    - unfold write, check in Hwr. destruct w; [done|]. by rewrite Hst in Hwr.
    - unfold write, check in Hwr. destruct w; [by injection Hwr|]. rewrite Hst in Hwr. by injection Hwr as <- _ _.
    - apply try_recv_inv in Hrecv as (_ & _ & _ & _ & Hf). congruence.
    - apply try_recv_inv in Hrecv as (_ & _ & -> & _). done.
    - unfold drop_permit in Hdrop. destruct (sub_oc oc (bytes_ s) n); [|done]. cbn in Hdrop.
      destruct (sub_oc oc (items s) 1); [|done]. by injection Hdrop as <-.
    - split; [|done]. revert s Hst Hdrop. induction (ch_contents c) as [|w ws IH]; intros s Hst Hdrop; cbn in Hdrop.
      + by injection Hdrop as <-.
      + destruct (drop_permit oc s (permit_bytes w)) as [s1|] eqn:E; [|done]. cbn in Hdrop.
        apply (IH s1); [|done]. unfold drop_permit in E. destruct (sub_oc oc (bytes_ s) _); [|done]. cbn in E.
        destruct (sub_oc oc (items s) 1); [|done]. by injection E as <-. }
  destruct Hst' as [Hst' Hl]. split_and!; try done.
  - intros [|b w] Hw; [done|]. unfold write, check. by rewrite Hst'.
  - unfold try_recv, control. by rewrite Hst'.
Qed.

End Proofs.

(** ** Witnesses *)

Definition demo_ssh : Sys (C := list bytes * bool) := mkSys (mkState 3 3 2 false (Some (80, 24, 0, 0))) ([[7]], false) [2].

Lemma demo_strace : strace true [Accept [5; 6]; Accept [7]; Deliver [5; 6]; Silent] demo_ssh.
Proof.
  apply (mtrace_snoc permit_bytes [_; _; _] (mkSys (mkState 3 3 2 false None) ([[7]], false) [2])).
  - apply (mtrace_snoc permit_bytes [_; _] (mkSys (mkState 3 3 2 false None) ([[5; 6]; [7]], false) [])).
    + apply (mtrace_snoc permit_bytes [_] (mkSys (mkState 2 2 1 false None) ([[5; 6]], false) [])).
      * apply (mtrace_snoc permit_bytes [] init); [constructor|]. by apply step_write.
      * by apply step_write.
    + by apply (step_recv_data true).
  - apply (step_resize true (mkState 3 3 2 false None)).
Qed.

Lemma ssh_mailbox_fifo_bounded_witness :
  [[5; 6]; [7]] = [[5; 6]] ++ ch_contents (chan demo_ssh) /\ bytes_ (state demo_ssh) <= BYTE_LIMIT.
Proof.
  destruct (ssh_mailbox_fifo_bounded true _ _ demo_strace) as (H1 & [_ H2] & _).
  split; [exact H1|exact H2].
Defined.

Definition demo_ssh_closed : Sys (C := list bytes * bool) := mkSys (mkState 3 3 2 true (Some (80, 24, 0, 0))) ([[7]], false) [2].

Lemma ssh_close_wins_witness :
  try_recv (state demo_ssh_closed) (chan demo_ssh_closed) = Some (CClose, state demo_ssh_closed, chan demo_ssh_closed).
Proof.
  exact (proj2 (proj2 (proj2 (ssh_close_wins true demo_ssh_closed Silent demo_ssh_closed
    (step_close true (mkState 3 3 2 true (Some (80, 24, 0, 0))) ([[7]], false) [2]) eq_refl)))).
Defined.
