(* ===== verification/TmuxMailbox.v ===== *)
(** * The tmux control-mode mailbox

    [src/crates/nyaterm-transport/src/tmux/mailbox.rs]: input for every projected pane
    of one tmux control client. A sender reserves its bytes, copies its input and
    only then enqueues it, so the two halves are separate steps; each permit carries
    the generation of the attachment it was reserved under. Detaching bumps the
    generation and discards what is queued. *)

From stdpp Require Import base list numbers gmap sets.
From Stdlib Require Import ZArith Lia.
From S2P Require Import Prelude Mailbox SshMailbox.

Local Open Scope Z_scope.
Local Open Scope rust_scope.

Module Tmux.
Import Ssh (SshCommand(..)).

Record State := mkState
  { bytes_ : Z; items : Z; peak_bytes : Z; stopped : bool; suspended : bool;
    generation : Z; detach : bool; close_panes : gset bytes }.

Definition default : State := mkState 0 0 0 false false 0 false ∅.

Record Permit := mkPermit { p_bytes : Z; p_generation : Z }.
Record PendingCommand := mkPending { command : SshCommand; permit : Permit }.

(** [Permit::drop]. *)
Definition drop_permit (oc : bool) (s : State) (n : Z) : outcome State :=
  b <-! sub_oc oc (bytes_ s) n;
  i <-! sub_oc oc (items s) 1;
  Ret (mkState b i (peak_bytes s) (stopped s) (suspended s) (generation s) (detach s) (close_panes s)).

Definition validate_command (line : bytes) : result unit ErrorKind :=
  if existsb (fun b => (b =? 13) || (b =? 10) || (b =? 0)) line then Err InvalidInput else Ok tt.

(** The bytes [send] and [write] reserve for a command. *)
Definition command_bytes (c : SshCommand) : Z :=
  match c with
  | CTmuxCommand line => Z.of_nat (length line)
  | CTmuxPaneInput _ data => Z.of_nat (length data)
  | _ => 0
  end.

Definition is_control (c : SshCommand) : bool :=
  match c with CTmuxDetach | CTmuxPaneClose _ => true | _ => false end.

(** The checks at the start of [send]. *)
Definition send_check (c : SshCommand) : result unit ErrorKind :=
  match c with CTmuxCommand line => validate_command line | _ => Ok tt end.

(** The control branch of [send]. *)
Definition send_control (s : State) (c : SshCommand) : result State ErrorKind :=
  if stopped s || suspended s then Err BrokenPipe
  else match c with
       | CTmuxDetach =>
         Ok (mkState (bytes_ s) (items s) (peak_bytes s) (stopped s) (suspended s) (generation s) true (close_panes s))
       | CTmuxPaneClose pane =>
         Ok (mkState (bytes_ s) (items s) (peak_bytes s) (stopped s) (suspended s) (generation s) (detach s)
               ({[pane]} ∪ close_panes s))
       | _ => Ok s
       end.

Definition reserve (s : State) (closed : bool) (n : Z) : result (Permit * State) ErrorKind :=
  if stopped s || suspended s || closed then Err BrokenPipe
  else if BYTE_LIMIT <? n then Err InvalidInput
  else if (sat_sub BYTE_LIMIT (bytes_ s) <? n) || (ITEM_LIMIT <=? items s) then Err WouldBlock
  else Ok (mkPermit n (generation s),
           mkState (bytes_ s + n) (items s + 1) (Z.max (peak_bytes s) (bytes_ s + n)) (stopped s)
             (suspended s) (generation s) (detach s) (close_panes s)).

Definition resume (s : State) : State :=
  mkState (bytes_ s) (items s) (peak_bytes s) (stopped s) false (generation s) (detach s) (close_panes s).

(** The locked part of [discard_pending]. *)
Definition discard_begin (oc : bool) (s : State) : outcome State :=
  g <-! add_oc oc 64 (generation s) 1;
  Ret (mkState (bytes_ s) (items s) (peak_bytes s) (stopped s) true g false ∅).

(** The locked part of dropping the receiver. *)
Definition stop (s : State) : State :=
  mkState (bytes_ s) (items s) (peak_bytes s) true (suspended s) (generation s) (detach s) (close_panes s).

(** One look of [Control::recv]; the pane it picks is any of the set. *)
Definition control_recv (s : State) (pick : bytes) : option (SshCommand * State) :=
  if detach s then
    Some (CTmuxDetach, mkState (bytes_ s) (items s) (peak_bytes s) (stopped s) (suspended s) (generation s)
                         false (close_panes s))
  else if bool_decide (pick ∈ close_panes s) then
    Some (CTmuxPaneClose pick,
          mkState (bytes_ s) (items s) (peak_bytes s) (stopped s) (suspended s) (generation s) false
            (close_panes s ∖ {[pick]}))
  else None.

Section Channel.
Context {C : Type} `{!Channel PendingCommand C}.

Definition enqueue (s : State) (c : C) (pc : PendingCommand) : result C ErrorKind :=
  if stopped s || suspended s || negb (p_generation (permit pc) =? generation s) then Err BrokenPipe
  else match ch_send c pc with Some c' => Ok c' | None => Err BrokenPipe end.

(** ** The mailbox with its senders and its receiver *)

(** [reserved]: senders between [reserve] and [enqueue]. [taken]: permits of received
    commands. [draining]: the receiver is inside [discard_pending]. *)
Record Sys := mkSys
  { state : State; chan : C; reserved : list PendingCommand; taken : list Permit; draining : bool }.

Definition init : Sys := mkSys default ch_new [] [] false.

Fixpoint drop_permits (oc : bool) (s : State) (l : list PendingCommand) : outcome State :=
  match l with
  | [] => Ret s
  | pc :: l' => s' <-! drop_permit oc s (p_bytes (permit pc)); drop_permits oc s' l'
  end.

Inductive step (oc : bool) : Sys -> label PendingCommand -> Sys -> Prop :=
| step_reserve s c rs ts d cmd p s' :
  send_check cmd = Ok tt -> is_control cmd = false ->
  reserve s (ch_closed c) (command_bytes cmd) = Ok (p, s') ->
  step oc (mkSys s c rs ts d) (Reserve (p_bytes p)) (mkSys s' c (mkPending cmd p :: rs) ts d)
| step_enqueue s c rs1 pc rs2 ts d c' :
  enqueue s c pc = Ok c' ->
  step oc (mkSys s c (rs1 ++ pc :: rs2) ts d) (Enqueue pc) (mkSys s c' (rs1 ++ rs2) ts d)
| step_enqueue_err s c rs1 pc rs2 ts d e s' :
  enqueue s c pc = Err e -> drop_permit oc s (p_bytes (permit pc)) = Ret s' ->
  step oc (mkSys s c (rs1 ++ pc :: rs2) ts d) (Release (p_bytes (permit pc))) (mkSys s' c (rs1 ++ rs2) ts d)
| step_send_control s c rs ts d cmd s' :
  is_control cmd = true -> send_control s cmd = Ok s' -> step oc (mkSys s c rs ts d) Silent (mkSys s' c rs ts d)
| step_recv s c rs ts pc c' :
  ch_try_recv c = Some (pc, c') ->
  step oc (mkSys s c rs ts false) (Deliver pc) (mkSys s c' rs (permit pc :: ts) false)
| step_control_recv s c rs ts d pick cmd s' :
  control_recv s pick = Some (cmd, s') -> step oc (mkSys s c rs ts d) Silent (mkSys s' c rs ts d)
| step_drop s c rs ts1 p ts2 d s' :
  drop_permit oc s (p_bytes p) = Ret s' ->
  step oc (mkSys s c rs (ts1 ++ p :: ts2) d) (Release (p_bytes p)) (mkSys s' c rs (ts1 ++ ts2) d)
| step_resume s c rs ts : step oc (mkSys s c rs ts false) Silent (mkSys (resume s) c rs ts false)
| step_discard_begin s c rs ts s' :
  discard_begin oc s = Ret s' -> step oc (mkSys s c rs ts false) Silent (mkSys s' c rs ts true)
| step_discard_one s c rs ts pc c' s' :
  ch_try_recv c = Some (pc, c') -> drop_permit oc s (p_bytes (permit pc)) = Ret s' ->
  step oc (mkSys s c rs ts true) (Discard [pc]) (mkSys s' c' rs ts true)
| step_discard_end s c rs ts :
  ch_try_recv c = None -> step oc (mkSys s c rs ts true) Silent (mkSys s c rs ts false)
| step_stop s c rs ts : step oc (mkSys s c rs ts false) Silent (mkSys (stop s) c rs ts false)
| step_drop_receiver s c rs ts s' :
  stopped s = true -> drop_permits oc s (ch_contents c) = Ret s' ->
  step oc (mkSys s c rs ts false) (Discard (ch_contents c)) (mkSys s' (ch_drop_rx c) rs ts false).

End Channel.
End Tmux.
Import Tmux.

Section Proofs.
Context {C : Type} `{!Channel PendingCommand C, !ChannelLaws PendingCommand C}.

(** What a queued command costs. *)
Definition pending_cost (pc : PendingCommand) : Z := command_bytes (command pc).

Lemma pending_cost_nonneg pc : 0 <= pending_cost pc.
Proof. unfold pending_cost, command_bytes. destruct (command pc); lia. Qed.

(** A permit is for the bytes of its command. *)
Definition permit_ok (pc : PendingCommand) : Prop := p_bytes (permit pc) = pending_cost pc.

Definition held_costs (s : Sys (C := C)) : list Z :=
  (p_bytes <$> taken s) ++ (p_bytes ∘ permit <$> reserved s).
Arguments held_costs : simpl never.

Record trel (s : Sys) (x : abs PendingCommand) : Prop :=
  { tr_pending : pending x = ch_contents (chan s);
    tr_held : held x = held_costs s;
    tr_bytes : bytes_ (state s) = total pending_cost x;
    tr_items : items (state s) = count x;
    tr_queue_ok : Forall permit_ok (ch_contents (chan s));
    tr_reserved_ok : Forall permit_ok (reserved s);
    tr_gen : draining s = false ->
      Forall (fun pc => p_generation (permit pc) = generation (state s)) (ch_contents (chan s));
    tr_drain : draining s = true -> suspended (state s) = true;
    tr_susp : suspended (state s) = true -> draining s = true \/ ch_contents (chan s) = [];
    tr_closed : ch_closed (chan s) = true -> stopped (state s) = true }.

Lemma tmux_drop_permit_ok oc s n :
  n <= bytes_ s -> 1 <= items s ->
  drop_permit oc s n = Ret (mkState (bytes_ s - n) (items s - 1) (peak_bytes s) (stopped s) (suspended s)
                              (generation s) (detach s) (close_panes s)).
Proof. intros ??. unfold drop_permit. by rewrite !sub_oc_ok by done. Qed.

Lemma tmux_drop_permits_ok oc s l :
  Forall permit_ok l -> zsum (pending_cost <$> l) <= bytes_ s -> Z.of_nat (length l) <= items s ->
  drop_permits oc s l = Ret (mkState (bytes_ s - zsum (pending_cost <$> l)) (items s - Z.of_nat (length l))
    (peak_bytes s) (stopped s) (suspended s) (generation s) (detach s) (close_panes s)).
Proof.
  intros Hl. revert s. induction Hl as [|pc l Hpc Hl IH]; intros s Hb Hi; cbn [drop_permits].
  - cbn. rewrite !Z.sub_0_r. by destruct s.
  - rewrite fmap_cons, zsum_cons in *. cbn [length] in *. pose proof (pending_cost_nonneg pc).
    pose proof (costs_nonneg pending_cost pending_cost_nonneg l). unfold permit_ok in Hpc.
    rewrite tmux_drop_permit_ok by lia. cbn [obind]. rewrite IH by (cbn; lia). cbn. do 2 f_equal; lia.
Qed.

Lemma reserve_inv s closed n p s' :
  reserve s closed n = Ok (p, s') ->
  suspended s = false /\ stopped s = false /\ closed = false /\ p = mkPermit n (generation s)
  /\ s' = mkState (bytes_ s + n) (items s + 1) (Z.max (peak_bytes s) (bytes_ s + n)) (stopped s)
            (suspended s) (generation s) (detach s) (close_panes s)
  /\ (bytes_ s <= BYTE_LIMIT -> bytes_ s + n <= BYTE_LIMIT /\ items s < ITEM_LIMIT).
Proof.
  unfold reserve. destruct (stopped s), (suspended s), closed; cbn [orb]; try done.
  destruct (BYTE_LIMIT <? n); [done|]. destruct (_ || _) eqn:E; [done|]. intros [= <- <-]. bool_hyps.
  split_and!; try done. unfold sat_sub in *. lia.
Qed.

Lemma enqueue_inv s (c : C) pc c' :
  enqueue s c pc = Ok c' ->
  stopped s = false /\ suspended s = false /\ p_generation (permit pc) = generation s /\ ch_send c pc = Some c'.
Proof.
  unfold enqueue. destruct (stopped s), (suspended s); cbn [orb]; try done.
  destruct (_ =? _) eqn:E; cbn [negb]; [|done]. destruct (ch_send c pc); [|done]. intros [= ->]. bool_hyps.
  by split_and!.
Qed.

(** Steps that change neither the accounting nor the queue. *)
Lemma trel_silent (s s' : Sys) x :
  trel s x -> chan s' = chan s -> reserved s' = reserved s -> taken s' = taken s ->
  bytes_ (state s') = bytes_ (state s) -> items (state s') = items (state s) ->
  (stopped (state s) = true -> stopped (state s') = true) ->
  (draining s' = false ->
     Forall (fun pc => p_generation (permit pc) = generation (state s')) (ch_contents (chan s))) ->
  (draining s' = true -> suspended (state s') = true) ->
  (suspended (state s') = true -> draining s' = true \/ ch_contents (chan s) = []) ->
  trel s' x.
Proof.
  intros [] Ec Er Et Eb Ei Hst Hg Hd Hsu. constructor; unfold held_costs; rewrite ?Ec, ?Er, ?Et, ?Eb, ?Ei; try done.
  auto.
Qed.

Lemma trel_sums (s : Sys) x : trel s x ->
  bytes_ (state s) = zsum (pending_cost <$> ch_contents (chan s)) + zsum (held_costs s)
  /\ items (state s) = Z.of_nat (length (ch_contents (chan s)) + length (held_costs s)).
Proof. intros []. unfold total, count in *. by rewrite tr_pending0, tr_held0 in *. Qed.

Lemma held_reserved (s : State) (c : C) rs1 pc rs2 ts d :
  held_costs (mkSys s c (rs1 ++ pc :: rs2) ts d)
  = ((p_bytes <$> ts) ++ (p_bytes ∘ permit <$> rs1)) ++ p_bytes (permit pc) :: (p_bytes ∘ permit <$> rs2).
Proof. unfold held_costs; cbn. by rewrite fmap_app, fmap_cons, <- app_assoc. Qed.

Lemma held_taken (s : State) (c : C) rs ts1 p ts2 d :
  held_costs (mkSys s c rs (ts1 ++ p :: ts2) d)
  = (p_bytes <$> ts1) ++ p_bytes p :: ((p_bytes <$> ts2) ++ (p_bytes ∘ permit <$> rs)).
Proof. unfold held_costs; cbn. by rewrite fmap_app, fmap_cons, <- app_assoc. Qed.

(** Giving back a held permit of [n] bytes. *)
Lemma sim_release oc (s : State) (c : C) rs ts d rs' ts' x h1 n h2 s' :
  trel (mkSys s c rs ts d) x -> abs_ok pending_cost x ->
  held_costs (mkSys s c rs ts d) = h1 ++ n :: h2 -> held_costs (mkSys s c rs' ts' d) = h1 ++ h2 ->
  Forall permit_ok rs' -> drop_permit oc s n = Ret s' ->
  exists x', astep pending_cost x (Release n) x' /\ trel (mkSys s' c rs' ts' d) x'.
Proof.
  intros Hr (Hf & _ & _) Hh Hh' Hrs Hdrop. pose proof (trel_sums _ x Hr) as [Hb Hi]. destruct x as [p h].
  destruct Hr. cbn in *. subst p h. rewrite Hh in *. rewrite zsum_app, zsum_cons, length_app in *. cbn in *.
  apply Forall_app in Hf as [Hp1 [Hn Hp2]%Forall_cons_1].
  pose proof (zsum_nonneg _ Hp1). pose proof (zsum_nonneg _ Hp2).
  pose proof (costs_nonneg pending_cost pending_cost_nonneg (ch_contents c)).
  rewrite tmux_drop_permit_ok in Hdrop by lia. injection Hdrop as <-.
  eexists. split; [apply astep_release|].
  constructor; unfold total, count; cbn; try done; rewrite ?zsum_app, ?length_app; lia.
Qed.

Lemma sim_reserve (s : State) (c : C) rs ts d cmd p s' x :
  trel (mkSys s c rs ts d) x -> abs_ok pending_cost x ->
  reserve s (ch_closed c) (command_bytes cmd) = Ok (p, s') ->
  exists x', astep pending_cost x (Reserve (p_bytes p)) x'
    /\ trel (mkSys s' c (mkPending cmd p :: rs) ts d) x'.
Proof.
  intros Hr (_ & Hlim & _) Hres. apply reserve_inv in Hres as (Hsu & _ & _ & -> & -> & Hroom).
  pose proof (trel_sums _ x Hr) as [Hb Hi]. destruct x as [q h]. destruct Hr. cbn in *. subst q h.
  rewrite <- tr_bytes0 in Hlim. specialize (Hroom Hlim). unfold held_costs in *. cbn in *.
  eexists. split.
  - apply astep_reserve; [unfold room; rewrite <- tr_bytes0, <- tr_items0; done|].
    apply (pending_cost_nonneg (mkPending cmd (mkPermit 0 0))).
  - rewrite zsum_app, length_app in *.
    constructor; unfold held_costs, total, count; cbn; try done.
    + rewrite !zsum_app, zsum_cons. lia.
    + rewrite !length_app. cbn. lia.
    + by constructor.
Qed.

Lemma sim_enqueue (s : State) (c : C) rs1 pc rs2 ts d c' x :
  trel (mkSys s c (rs1 ++ pc :: rs2) ts d) x -> enqueue s c pc = Ok c' ->
  exists x', astep pending_cost x (Enqueue pc) x' /\ trel (mkSys s c' (rs1 ++ rs2) ts d) x'.
Proof.
  intros Hr Henq. apply enqueue_inv in Henq as (Hst & Hsu & Hg & Hsend).
  apply ch_send_inv in Hsend as (Hop & Hcc & Hcl).
  pose proof (trel_sums _ x Hr) as [Hb Hi]. destruct x as [q h]. destruct Hr. cbn in *. subst q h.
  apply Forall_app in tr_reserved_ok0 as [H1 [Hpc H2]%Forall_cons_1]. unfold permit_ok in Hpc.
  rewrite held_reserved, Hpc. rewrite held_reserved, Hpc in Hb, Hi. eexists. split; [apply astep_enqueue|].
  rewrite !zsum_app, zsum_cons, !length_app in *. cbn in *.
  constructor; unfold held_costs, total, count; cbn; rewrite ?Hcc, ?Hcl; try done.
  - by rewrite fmap_app, <- app_assoc.
  - rewrite fmap_app, !zsum_app. cbn. rewrite zsum_cons. change (zsum []) with 0. lia.
  - rewrite !length_app. cbn. lia.
  - apply Forall_app. split; [done|]. by apply Forall_singleton.
  - by apply Forall_app.
  - intros Hd. apply Forall_app. split; [by apply tr_gen0|]. by apply Forall_singleton.
  - congruence.
Qed.

Lemma sim_deliver (s : State) (c : C) rs ts pc c' x :
  trel (mkSys s c rs ts false) x -> ch_try_recv c = Some (pc, c') ->
  exists x', astep pending_cost x (Deliver pc) x' /\ trel (mkSys s c' rs (permit pc :: ts) false) x'.
Proof.
  intros Hr Hrecv. apply ch_recv_inv in Hrecv as [Hcc Hcl].
  pose proof (trel_sums _ x Hr) as [Hb Hi]. destruct x as [q h]. destruct Hr. cbn in *. subst q h.
  rewrite Hcc in *. apply Forall_cons in tr_queue_ok0 as [Hpc Hok]. unfold permit_ok in Hpc.
  specialize (tr_gen0 eq_refl). apply Forall_cons in tr_gen0 as [_ Hgen].
  eexists. split; [apply astep_deliver|]. rewrite fmap_cons, zsum_cons in Hb. cbn in Hi.
  constructor; unfold held_costs, total, count in *; cbn in *; rewrite ?Hcl, ?zsum_cons; try done; try lia.
  - by rewrite Hpc.
  - intros Hs. destruct (tr_susp0 Hs); done.
Qed.

Lemma sim_discard_one oc (s : State) (c : C) rs ts pc c' s' x :
  trel (mkSys s c rs ts true) x -> abs_ok pending_cost x -> ch_try_recv c = Some (pc, c') ->
  drop_permit oc s (p_bytes (permit pc)) = Ret s' ->
  exists x', astep pending_cost x (Discard [pc]) x' /\ trel (mkSys s' c' rs ts true) x'.
Proof.
  intros Hr (Hf & _) Hrecv Hdrop. apply ch_recv_inv in Hrecv as [Hcc Hcl].
  pose proof (trel_sums _ x Hr) as [Hb Hi]. destruct x as [q h]. destruct Hr. cbn in *. subst q h.
  rewrite Hcc in *. apply Forall_cons in tr_queue_ok0 as [Hpc Hok]. unfold permit_ok in Hpc.
  rewrite fmap_cons, zsum_cons in Hb. cbn in Hi. pose proof (zsum_nonneg _ Hf).
  pose proof (costs_nonneg pending_cost pending_cost_nonneg (ch_contents c')).
  rewrite tmux_drop_permit_ok in Hdrop by lia. injection Hdrop as <-.
  eexists. split; [by apply (astep_discard _ _ _ (ch_contents c'))|].
  constructor; unfold held_costs, total, count in *; cbn in *; rewrite ?Hcl; try done; lia.
Qed.

Lemma sim_drop_receiver oc (s : State) (c : C) rs ts s' x :
  trel (mkSys s c rs ts false) x -> abs_ok pending_cost x -> stopped s = true ->
  drop_permits oc s (ch_contents c) = Ret s' ->
  exists x', astep pending_cost x (Discard (ch_contents c)) x'
    /\ trel (mkSys s' (ch_drop_rx c) rs ts false) x'.
Proof.
  intros Hr (Hf & _) Hst Hdrop.
  pose proof (trel_sums _ x Hr) as [Hb Hi]. destruct x as [q h]. destruct Hr. cbn in *. subst q h.
  pose proof (zsum_nonneg _ Hf). rewrite tmux_drop_permits_ok in Hdrop by (done || lia). injection Hdrop as <-.
  destruct (ch_drop_rx_spec c) as [Hcc Hcl].
  eexists. split; [apply (astep_discard _ _ _ []); by rewrite app_nil_r|].
  constructor; unfold held_costs, total, count in *; cbn in *; rewrite ?Hcc, ?Hcl; try done.
  - change (zsum []) with 0. lia.
  - cbn. lia.
  - intros _. by right.
Qed.

Lemma tmux_sim oc (s : Sys (C := C)) l s' x :
  trel s x -> abs_ok pending_cost x -> step oc s l s' -> exists x', astep pending_cost x l x' /\ trel s' x'.
Proof.
  intros Hr Hok Hs.
  destruct Hs as [s c rs ts d cmd p s' _ _ Hres|s c rs1 pc rs2 ts d c' Henq|s c rs1 pc rs2 ts d e s' _ Hdrop
                 |s c rs ts d cmd s' _ Hctl|s c rs ts pc c' Hrecv|s c rs ts d pick cmd s' Hctl
                 |s c rs ts1 p ts2 d s' Hdrop|s c rs ts|s c rs ts s' Hbeg|s c rs ts pc c' s' Hrecv Hdrop
                 |s c rs ts Hnone|s c rs ts|s c rs ts s' Hst Hdrop].
  - by eapply sim_reserve.
  - by eapply sim_enqueue.
  - eapply sim_release; [done|done|apply held_reserved| |  |done].
    + unfold held_costs; cbn. by rewrite fmap_app, app_assoc.
    + pose proof (tr_reserved_ok _ _ Hr) as H. cbn in H. apply Forall_app in H as [? [? ?]%Forall_cons_1].
      by apply Forall_app.
  - exists x. split; [apply astep_silent|]. unfold send_control in Hctl.
    destruct (stopped s || suspended s) eqn:E; [done|]. bool_hyps.
    destruct cmd; injection Hctl as <-; eapply trel_silent; try done; cbn; by apply Hr.
  - by eapply sim_deliver.
  - exists x. split; [apply astep_silent|]. unfold control_recv in Hctl.
    destruct (detach s); [|destruct (bool_decide _); [|done]]; injection Hctl as <- <-;
      eapply trel_silent; try done; cbn; by apply Hr.
  - eapply sim_release; [done|done|apply held_taken| | |done].
    + unfold held_costs; cbn. by rewrite fmap_app, <- app_assoc.
    + apply Hr.
  - exists x. split; [apply astep_silent|]. eapply trel_silent; try done; cbn; by apply Hr.
  - exists x. split; [apply astep_silent|]. unfold discard_begin in Hbeg.
    destruct (add_oc _ _ _ _); [|done]. injection Hbeg as <-.
    eapply trel_silent; try done; cbn. by left.
  - by eapply sim_discard_one.
  - assert (He : ch_contents c = []).
    { destruct (ch_contents c) as [|pc l] eqn:E; [done|].
      destruct (ch_recv_cons c pc l E) as (? & ? & _). congruence. }
    exists x. split; [apply astep_silent|]. eapply trel_silent; try done; cbn; rewrite He; [by constructor|by right].
  - exists x. split; [apply astep_silent|]. eapply trel_silent; try done; cbn; by apply Hr.
  - by eapply sim_drop_receiver.
Qed.

Lemma trel_init : trel init (mkAbs [] []).
Proof.
  destruct ch_new_empty as [H1 H2]. constructor; cbn; rewrite ?H1, ?H2; try done.
Qed.

#[export] Instance tmux_mailbox (oc : bool) : Mailbox pending_cost (Sys (C := C)) := {
  mb_init := init;
  mb_step := step oc;
  mb_queue s := ch_contents (chan s);
  mb_bytes s := bytes_ (state s);
  mb_items s := items (state s);
  mb_rel := trel;
  mb_rel_init := trel_init;
  mb_sim := tmux_sim oc;
  mb_rel_obs s x H := conj (eq_sym (tr_pending s x H)) (conj (tr_bytes s x H) (tr_items s x H))
}.

(** Runs of the tmux mailbox. *)
Definition ttrace (oc : bool) : list (label PendingCommand) -> Sys (C := C) -> Prop :=
  mtrace pending_cost (M := tmux_mailbox oc).

Lemma ttrace_rel oc tr s : ttrace oc tr s -> exists x, trel s x /\ abs_ok pending_cost x.
Proof.
  intros (x & Hx & Hr)%(mtrace_refines pending_cost pending_cost_nonneg). exists x. split; [done|].
  by eapply (atrace_contract pending_cost pending_cost_nonneg).
Qed.

(** C20: the tmux mailbox refines the bounded queue although reserving and enqueueing are
    separate: commands leave in the order they were enqueued, and the reservations,
    the queue and the commands being sent together stay within 8 MiB and 1024 items. *)
Theorem tmux_mailbox_fifo_bounded oc tr s :
  ttrace oc tr s ->
  accepted tr = removed tr ++ ch_contents (chan s)
  /\ bytes_ (state s) = zsum (pending_cost <$> ch_contents (chan s))
                        + zsum ((p_bytes <$> taken s) ++ (p_bytes ∘ permit <$> reserved s))
  /\ 0 <= bytes_ (state s) <= BYTE_LIMIT /\ items (state s) <= ITEM_LIMIT.
Proof.
  intros Ht. destruct (mailbox_contract pending_cost pending_cost_nonneg (M := tmux_mailbox oc) tr s Ht)
    as (H1 & H2 & H3). apply ttrace_rel in Ht as (x & Hr & _).
  pose proof (trel_sums s x Hr) as [Hb _]. by split_and!; try apply H2.
Qed.

(** No command from a detached generation runs on a later attachment. Whenever the
    receiver takes a command, its permit is of the current generation and the mailbox
    is neither suspended nor inside [discard_pending], however reservations, detaches
    and resumes were interleaved before. *)
Theorem tmux_no_stale_delivery oc tr s pc s' :
  ttrace oc tr s -> step oc s (Deliver pc) s' ->
  p_generation (permit pc) = generation (state s) /\ suspended (state s) = false
  /\ draining s = false /\ p_bytes (permit pc) = pending_cost pc.
Proof.
  intros (x & Hr & _)%ttrace_rel Hs. inversion Hs as [| | | |s0 c rs ts pc0 c' Hrecv| | | | | | | |]; subst.
  apply ch_recv_inv in Hrecv as [Hcc _]. destruct Hr. cbn in *. rewrite Hcc in *.
  specialize (tr_gen0 eq_refl). apply Forall_cons in tr_gen0 as [Hg _].
  apply Forall_cons in tr_queue_ok0 as [Hp _].
  split_and!; try done. destruct (suspended s0); [|done]. by destruct (tr_susp0 eq_refl).
Qed.

(** Once a detach has begun, reservations and enqueues are refused until the next
    [resume], and a permit reserved before it is refused afterwards as well, because
    the generation has moved on. *)
Theorem tmux_detach_refuses oc s s1 (c : C) n pc closed :
  discard_begin oc s = Ret s1 -> 0 <= generation s < 2 ^ 64 - 1 ->
  reserve s1 closed n = Err BrokenPipe
  /\ enqueue s1 c pc = Err BrokenPipe
  /\ (p_generation (permit pc) = generation s -> enqueue (resume s1) c pc = Err BrokenPipe)
  /\ close_panes s1 = ∅ /\ detach s1 = false.
Proof.
  unfold discard_begin, add_oc. intros H Hg.
  rewrite (proj2 (Z.ltb_lt _ _)) in H by lia. injection H as <-. unfold reserve, enqueue. cbn.
  rewrite !orb_true_r. split_and!; try done. intros ->.
  rewrite (proj2 (Z.eqb_neq _ _)) by lia. cbn. by rewrite orb_true_r.
Qed.

End Proofs.

(** ** Witnesses *)

Definition demo_input : PendingCommand := mkPending (Ssh.CTmuxPaneInput [37] [1; 2]) (mkPermit 2 0).
Definition demo_state : State := mkState 2 1 2 false false 0 false ∅.
Definition demo_tmux : Sys (C := list PendingCommand * bool) := mkSys demo_state ([demo_input], false) [] [] false.

Lemma demo_ttrace : ttrace true [Reserve 2; Enqueue demo_input] demo_tmux.
Proof.
  apply (mtrace_snoc pending_cost [_] (mkSys demo_state ([], false) [demo_input] [] false)).
  - apply (mtrace_snoc pending_cost [] init); [constructor|].
    by apply (step_reserve true default ([], false) [] [] false (Ssh.CTmuxPaneInput [37] [1; 2]) (mkPermit 2 0)).
  - by apply (step_enqueue true demo_state ([], false) [] demo_input []).
Qed.

Lemma tmux_mailbox_fifo_bounded_witness :
  [demo_input] = [] ++ ch_contents (chan demo_tmux) /\ bytes_ (state demo_tmux) <= BYTE_LIMIT.
Proof.
  destruct (tmux_mailbox_fifo_bounded true _ _ demo_ttrace) as (H1 & _ & [_ H2] & _).
  split; [exact H1|exact H2].
Defined.

Lemma tmux_no_stale_delivery_witness :
  p_generation (permit demo_input) = generation (state demo_tmux) /\ suspended (state demo_tmux) = false.
Proof.
  assert (Hs : step true demo_tmux (Deliver demo_input) (mkSys demo_state ([], false) [] [mkPermit 2 0] false))
    by (apply step_recv; reflexivity).
  destruct (tmux_no_stale_delivery true _ _ demo_input _ demo_ttrace Hs) as (H1 & H2 & _).
  split; [exact H1|exact H2].
Defined.

Lemma tmux_detach_refuses_witness :
  exists s1, discard_begin true demo_state = Ret s1
    /\ enqueue (resume s1) (([], false) : list PendingCommand * bool) demo_input = Err BrokenPipe.
Proof.
  eexists. split; [reflexivity|].
  refine (proj1 (proj2 (proj2 (tmux_detach_refuses true demo_state _ (([], false) : list PendingCommand * bool)
    0 demo_input false eq_refl _))) eq_refl).
  cbn. lia.
Defined.
