(* ===== verification/TmuxControl.v ===== *)
(** * The tmux control-mode line protocol

    [src/crates/nyaterm-transport/src/tmux/control.rs]: cutting the byte stream of
    [tmux -CC] into lines, decoding one line into a [ControlMessage], octal-escaped pane
    output and window layouts. A position in a slice is the rest of the slice from it;
    the fuel of the layout parser is proved to be enough. *)

From stdpp Require Import base option list numbers strings.
From Stdlib Require Import ZArith Lia.
From S2P Require Import Prelude RustStr RustText.

Local Open Scope Z_scope.
Local Open Scope rust_scope.

Fixpoint beq (a b : bytes) : bool :=
  match a, b with
  | [], [] => true
  | x :: a', y :: b' => (x =? y) && beq a' b'
  | _, _ => false
  end.

(** ** Data *)

Record BlockId := mkBlock { time : Z; number : Z; flags : Z }.

Inductive LayoutCell :=
| mkCell (width height x y : Z) (pane : option Z) (columns : bool) (children : list LayoutCell).

Inductive ControlMessage :=
| Begin (id : BlockId) | End (id : BlockId) | Error (id : BlockId)
| Output (pane data : bytes)
| ExtendedOutput (pane : bytes) (age : Z) (data : bytes)
| LayoutChange (window : bytes) (layout visible_layout : LayoutCell) (flags : bytes)
| WindowAdd (window : bytes) | WindowClose (window : bytes)
| WindowRenamed (window name : bytes) | WindowPaneChanged (window pane : bytes)
| PaneExited (pane : bytes) | PaneModeChanged (pane : bytes)
| SessionChanged (session : bytes) | SessionWindowChanged (window : bytes) | SessionRenamed (session : bytes)
| SessionsChanged | ClientSessionChanged | ClientDetached (client : bytes)
| Pause (pane : bytes) | Continue (pane : bytes)
| Exit (reason : option bytes) | ConfigError (text : bytes) | Message (text : bytes) | Ignored.

(** ** Layout cells *)

Definition cell_pane (c : LayoutCell) : option Z := match c with mkCell _ _ _ _ p _ _ => p end.
Definition cell_children (c : LayoutCell) : list LayoutCell := match c with mkCell _ _ _ _ _ _ l => l end.

Definition is_leaf (c : LayoutCell) : bool := match cell_children c with [] => true | _ => false end.

Fixpoint pane_ids (c : LayoutCell) : list Z :=
  match c with
  | mkCell _ _ _ _ (Some p) _ _ => [p]
  | mkCell _ _ _ _ None _ l => flat_map pane_ids l
  end.

(** [Iterator::find_map]. *)
Definition find_map {A B} (f : A -> option B) : list A -> option B :=
  fix go l := match l with
              | [] => None
              | a :: l' => match f a with Some b => Some b | None => go l' end
              end.

Fixpoint find_pane (pane : Z) (c : LayoutCell) : option LayoutCell :=
  match c with
  | mkCell _ _ _ _ p _ l =>
    if match p with Some q => q =? pane | None => false end then Some c
    else find_map (find_pane pane) l
  end.

(** ** The incremental parser *)

Record ControlParser := mkParser { pbytes : bytes; consumed : nat }.

Definition new_parser : ControlParser := mkParser [] 0.

Definition push (s : ControlParser) (data : bytes) : ControlParser :=
  if (0 <? consumed s)%nat then mkParser (drop (consumed s) (pbytes s) ++ data) 0
  else mkParser (pbytes s ++ data) (consumed s).

Fixpoint position (b : Z) (s : bytes) : option nat :=
  match s with
  | [] => None
  | c :: s' => if c =? b then Some O else S <$> position b s'
  end.

(** Slicing from [consumed] panics when it is past the end. *)
Definition next_line (s : ControlParser) : outcome (option bytes * ControlParser) :=
  if (length (pbytes s) <? consumed s)%nat then Panic
  else
    let rest := drop (consumed s) (pbytes s) in
    match position 10 rest with
    | None => Ret (None, s)
    | Some n =>
      let line := take n rest in
      Ret (Some (default line (strip_suffix [13] line)), mkParser (pbytes s) (consumed s + n + 1))
    end.

Definition take_pending (s : ControlParser) : outcome (bytes * ControlParser) :=
  if (length (pbytes s) <? consumed s)%nat then Panic
  else Ret (drop (consumed s) (pbytes s), mkParser [] 0).

(** ** Octal escapes *)

Definition octal (hi b : Z) : bool := between 48 hi b.

Fixpoint unescape_octal (data : bytes) : bytes :=
  match data with
  | [] => []
  | b :: t =>
    match t with
    | d1 :: d2 :: d3 :: rest =>
      if (b =? 92) && octal 51 d1 && octal 55 d2 && octal 55 d3
      then uwrap 8 ((d1 - 48) * 64 + (d2 - 48) * 8 + (d3 - 48)) :: unescape_octal rest
      else b :: unescape_octal t
    | _ => b :: unescape_octal t
    end
  end.

(** ** Layouts *)

Definition is_ascii_digit (b : Z) : bool := between 48 57 b.
Definition is_ascii_hexdigit (b : Z) : bool := between 48 57 b || between 65 70 b || between 97 102 b.

Fixpoint parse_u32_loop (input : bytes) (value : Z) (seen : bool) : option (Z * bytes) :=
  match input with
  | b :: input' =>
    if is_ascii_digit b then parse_u32_loop input' (sat_add 32 (sat_mul 32 value 10) (b - 48)) true
    else if seen then Some (value, input) else None
  | [] => if seen then Some (value, []) else None
  end.
Definition parse_u32 (input : bytes) : option (Z * bytes) := parse_u32_loop input 0 false.

(** The byte [b] at the position, and the position after it. *)
Definition expect (b : Z) (input : bytes) : option bytes :=
  match input with c :: input' => if c =? b then Some input' else None | [] => None end.

Fixpoint parse_cell (fuel : nat) (input : bytes) : option (LayoutCell * bytes) :=
  match fuel with
  | O => None
  | S fuel' =>
    '(width, i) ← parse_u32 input;
    i ← expect 120 i;
    '(height, i) ← parse_u32 i;
    i ← expect 44 i;
    '(x, i) ← parse_u32 i;
    i ← expect 44 i;
    '(y, i) ← parse_u32 i;
    match i with
    | b :: i' =>
      if (b =? 123) || (b =? 91) then
        let columns := b =? 123 in
        '(children, rest) ← parse_children fuel' (if columns then 125 else 93) i';
        Some (mkCell width height x y None columns children, rest)
      else if b =? 44 then
        match parse_u32 i' with
        | Some (pane, rest) => Some (mkCell width height x y (Some pane) false [], rest)
        | None => Some (mkCell width height x y None false [], i')
        end
      else Some (mkCell width height x y None false [], i)
    | [] => Some (mkCell width height x y None false [], [])
    end
  end
with parse_children (fuel : nat) (closer : Z) (input : bytes) : option (list LayoutCell * bytes) :=
  match fuel with
  | O => None
  | S fuel' =>
    '(child, i) ← parse_cell fuel' input;
    match i with
    | b :: i' =>
      if b =? 44 then
        '(children, rest) ← parse_children fuel' closer i'; Some (child :: children, rest)
      else if b =? closer then Some ([child], i') else Some ([child], i)
    | [] => Some ([child], [])
    end
  end.

Fixpoint skip_hex (input : bytes) : bytes :=
  match input with b :: input' => if is_ascii_hexdigit b then skip_hex input' else input | [] => [] end.

Definition parse_layout (input : bytes) : option (LayoutCell * bytes) :=
  i ← expect 44 (skip_hex input);
  parse_cell (S (length i)) i.

(** ** Lines *)

Definition parse_block_id (line : bytes) : option BlockId :=
  match drop 1 (split_whitespace line) with
  | [a; b; c] =>
    t ← parse_uint 64 10 a; n ← parse_uint 64 10 b; f ← parse_uint 64 10 c; Some (mkBlock t n f)
  | _ => None
  end.

Definition id_arg (token : bytes) : option bytes :=
  match token with
  | b :: _ :: _ => if (b =? 37) || (b =? 64) || (b =? 36) then Some token else None
  | _ => None
  end.

Definition rest_after_keyword (line keyword : bytes) : option bytes := trim_start <$> strip_prefix keyword line.

Definition args_id (line keyword : bytes) : option bytes :=
  args ← rest_after_keyword line keyword;
  token ← hd_error (split_whitespace args);
  id_arg token.

(** The first occurrence of [p], for a non-empty [p]: what is before and after it. *)
Fixpoint split_sub (p s : bytes) : option (bytes * bytes) :=
  match strip_prefix p s with
  | Some r => Some ([], r)
  | None => match s with
            | [] => None
            | b :: s' => (fun q => (b :: q.1, q.2)) <$> split_sub p s'
            end
  end.

Definition is_keyword_char (b : Z) : bool :=
  between 48 57 b || between 65 90 b || between 97 122 b || (b =? 45).

Fixpoint take_keyword (s : bytes) : bytes :=
  match s with b :: s' => if is_keyword_char b then b :: take_keyword s' else [] | [] => [] end.

Definition parse_layout_change (line : bytes) : option ControlMessage :=
  args ← rest_after_keyword line (bs "%layout-change");
  match split_whitespace args with
  | window :: token :: parts =>
    '(layout, _) ← parse_layout token;
    let visible := default layout (v ← hd_error parts; fst <$> parse_layout v) in
    Some (LayoutChange window layout visible (default [] (hd_error (drop 1 parts))))
  | _ => None
  end.

Definition or_else {A} (a b : option A) : option A := match a with Some _ => a | None => b end.

(** The [match keyword] of [parse_line], on a line that starts with [%]. *)
Definition parse_keyword (keyword line : bytes) : option ControlMessage :=
  let kw k := beq keyword (bs k) in
  if kw "begin" then Begin <$> parse_block_id line
  else if kw "end" then End <$> parse_block_id line
  else if kw "error" then Error <$> parse_block_id line
  else if kw "layout-change" then parse_layout_change line
  else if kw "window-add" || kw "unlinked-window-add" then
    WindowAdd <$> or_else (args_id line (bs "%window-add")) (args_id line (bs "%unlinked-window-add"))
  else if kw "window-close" || kw "unlinked-window-close" then
    WindowClose <$> or_else (args_id line (bs "%window-close")) (args_id line (bs "%unlinked-window-close"))
  else if kw "window-renamed" then
    args ← rest_after_keyword line (bs "%window-renamed");
    '(window, name) ← split_once 32 args; Some (WindowRenamed window name)
  else if kw "window-pane-changed" then
    args ← rest_after_keyword line (bs "%window-pane-changed");
    match split_whitespace args with w :: p :: _ => Some (WindowPaneChanged w p) | _ => None end
  else if kw "pane-exited" then PaneExited <$> args_id line (bs "%pane-exited")
  else if kw "pane-mode-changed" then PaneModeChanged <$> args_id line (bs "%pane-mode-changed")
  else if kw "session-changed" then
    args ← rest_after_keyword line (bs "%session-changed");
    SessionChanged <$> hd_error (split_whitespace args)
  else if kw "session-window-changed" then
    args ← rest_after_keyword line (bs "%session-window-changed");
    match split_whitespace args with _ :: w :: _ => Some (SessionWindowChanged w) | _ => None end
  else if kw "session-renamed" then
    args ← rest_after_keyword line (bs "%session-renamed");
    SessionRenamed <$> hd_error (split_whitespace args)
  else if kw "sessions-changed" then Some SessionsChanged
  else if kw "client-session-changed" then Some ClientSessionChanged
  else if kw "client-detached" then ClientDetached <$> rest_after_keyword line (bs "%client-detached")
  else if kw "pause" then Pause <$> args_id line (bs "%pause")
  else if kw "continue" then Continue <$> args_id line (bs "%continue")
  else if kw "exit" then
    Some (Exit (reason ← rest_after_keyword line (bs "%exit");
                match reason with [] => None | _ => Some reason end))
  else if kw "config-error" then ConfigError <$> rest_after_keyword line (bs "%config-error")
  else if kw "message" then Message <$> rest_after_keyword line (bs "%message")
  else match strip_prefix [37] line with Some _ => Some Ignored | None => None end.

Definition parse_output (args : bytes) : option ControlMessage :=
  '(pane, data) ← split_once 32 args;
  if utf8_valid pane then Some (Output pane (unescape_octal data)) else None.

Definition parse_extended_output (args : bytes) : option ControlMessage :=
  '(meta, data) ← split_sub (bs " : ") args;
  if utf8_valid meta then
    match split_whitespace meta with
    | pane :: a :: _ => age ← parse_uint 64 10 a; Some (ExtendedOutput pane age (unescape_octal data))
    | _ => None
    end
  else None.

Definition parse_line (line : bytes) : option ControlMessage :=
  match strip_prefix (bs "%output ") line with
  | Some args => parse_output args
  | None =>
    match strip_prefix (bs "%extended-output ") line with
    | Some args => parse_extended_output args
    | None =>
      let line := from_utf8_lossy line in
      rest ← strip_prefix [37] line;
      parse_keyword (take_keyword rest) line
    end
  end.

(** ** Cutting the stream into lines *)

Definition strip_cr (line : bytes) : bytes := default line (strip_suffix [13] line).

(** The byte-at-a-time reference: the complete lines, and the unfinished one. *)
Fixpoint line_stream (cur data : bytes) : list bytes * bytes :=
  match data with
  | [] => ([], cur)
  | b :: data' =>
    if b =? 10 then let r := line_stream [] data' in (strip_cr cur :: r.1, r.2)
    else line_stream (cur ++ [b]) data'
  end.

(** [while let Some(line) = parser.next_line()], collecting the lines. *)
Fixpoint drain_lines (fuel : nat) (s : ControlParser) : outcome (list bytes * ControlParser) :=
  match fuel with
  | O => Ret ([], s)
  | S fuel' =>
    r <-! next_line s;
    match r with
    | (None, s') => Ret ([], s')
    | (Some line, s') => q <-! drain_lines fuel' s'; Ret (line :: q.1, q.2)
    end
  end.

(** Chunks as they arrive: each is pushed and the complete lines are taken. *)
Fixpoint feed_chunks (s : ControlParser) (chunks : list bytes) : outcome (list bytes * ControlParser) :=
  match chunks with
  | [] => Ret ([], s)
  | d :: chunks' =>
    let s1 := push s d in
    r <-! drain_lines (S (length (pbytes s1))) s1;
    q <-! feed_chunks r.2 chunks';
    Ret (r.1 ++ q.1, q.2)
  end.

(** What the parser still holds. *)
Definition unread (s : ControlParser) : bytes := drop (consumed s) (pbytes s).
Definition parser_ok (s : ControlParser) : Prop := (consumed s <= length (pbytes s))%nat.

Lemma beq_true a b : beq a b = true <-> a = b.
Proof.
  revert b. induction a as [|x a IH]; intros [|y b]; cbn; try done.
  rewrite andb_true_iff, Z.eqb_eq, IH. split; [intros [-> ->]; done|by intros [= -> ->]].
Qed.

Lemma beq_refl a : beq a a = true.
Proof. by apply beq_true. Qed.

Lemma line_stream_app cur a b :
  line_stream cur (a ++ b)
  = let r := line_stream cur a in let q := line_stream r.2 b in (r.1 ++ q.1, q.2).
Proof.
  revert cur. induction a as [|x a IH]; intros cur; cbn.
  - by destruct (line_stream cur b).
  - destruct (x =? 10); [|by rewrite IH]. rewrite IH. done.
Qed.

Lemma line_stream_None cur u : position 10 u = None -> line_stream cur u = ([], cur ++ u).
Proof.
  revert cur. induction u as [|b u IH]; intros cur; cbn; [by rewrite app_nil_r|].
  destruct (b =? 10); [done|]. destruct (position 10 u) eqn:E; [done|]. intros _.
  by rewrite IH, <- app_assoc by done.
Qed.

Lemma line_stream_Some cur u n :
  position 10 u = Some n ->
  (n < length u)%nat /\
  line_stream cur u = let r := line_stream [] (drop (S n) u) in (strip_cr (cur ++ take n u) :: r.1, r.2).
Proof.
  revert cur n. induction u as [|b u IH]; intros cur n; cbn; [done|].
  destruct (b =? 10).
  - intros [= <-]. split; [lia|]. by rewrite app_nil_r.
  - destruct (position 10 u) as [k|]; [|done]. intros [= <-].
    destruct (IH (cur ++ [b]) k eq_refl) as [Hk ->]. split; [lia|]. by rewrite <- app_assoc.
Qed.

Lemma line_stream_snd cur u : position 10 cur = None -> position 10 (line_stream cur u).2 = None.
Proof.
  revert cur. induction u as [|b u IH]; intros cur Hc; cbn; [done|].
  destruct (b =? 10) eqn:E; [by apply IH|]. apply IH. clear IH.
  induction cur as [|c cur IHc]; cbn in *; [by rewrite E|].
  destruct (c =? 10); [done|]. destruct (position 10 cur); [done|]. by rewrite IHc.
Qed.

Lemma next_line_spec s :
  parser_ok s ->
  match position 10 (unread s) with
  | None => next_line s = Ret (None, s)
  | Some n => exists s', next_line s = Ret (Some (strip_cr (take n (unread s))), s')
      /\ parser_ok s' /\ unread s' = drop (S n) (unread s)
  end.
Proof.
  intros Hs. unfold next_line. unfold parser_ok in Hs. rewrite (proj2 (Nat.ltb_ge _ _)) by done.
  fold (unread s). destruct (position 10 (unread s)) as [n|] eqn:E; [|done].
  apply (line_stream_Some []) in E as [Hn _]. unfold unread in Hn. rewrite length_drop in Hn.
  eexists. split; [done|]. unfold parser_ok, unread. cbn. rewrite drop_drop. split; [lia|]. f_equal. lia.
Qed.

Lemma push_spec s d : parser_ok s -> parser_ok (push s d) /\ unread (push s d) = unread s ++ d.
Proof.
  intros Hs. unfold push, parser_ok, unread in *. destruct (0 <? consumed s)%nat eqn:E; cbn; [split; [lia|done]|].
  apply Nat.ltb_ge in E. assert (consumed s = O) as -> by lia. split; [lia|done].
Qed.

Lemma drain_lines_spec fuel s :
  parser_ok s -> (length (unread s) < fuel)%nat ->
  exists s', drain_lines fuel s = Ret ((line_stream [] (unread s)).1, s')
    /\ parser_ok s' /\ unread s' = (line_stream [] (unread s)).2.
Proof.
  revert s. induction fuel as [|fuel IH]; intros s Hs Hf; [lia|]. cbn [drain_lines].
  pose proof (next_line_spec s Hs) as H. destruct (position 10 (unread s)) as [n|] eqn:E.
  - destruct H as (s1 & -> & Hs1 & Hu). cbn [obind].
    apply (line_stream_Some []) in E as [Hn ->]. rewrite <- Hu.
    destruct (IH s1 Hs1) as (s2 & -> & Hs2 & Hu2); [rewrite Hu, length_drop; lia|].
    exists s2. by split_and!.
  - rewrite H. cbn [obind]. rewrite (line_stream_None [] _ E). by exists s.
Qed.

Lemma feed_chunks_spec chunks s :
  parser_ok s -> position 10 (unread s) = None ->
  exists s', feed_chunks s chunks = Ret ((line_stream (unread s) (concat chunks)).1, s')
    /\ parser_ok s' /\ unread s' = (line_stream (unread s) (concat chunks)).2.
Proof.
  revert s. induction chunks as [|d chunks IH]; intros s Hs Hn; cbn [feed_chunks concat]; [by exists s|].
  destruct (push_spec s d Hs) as [Hp Hu].
  destruct (drain_lines_spec (S (length (pbytes (push s d)))) (push s d) Hp) as (s1 & -> & Hs1 & Hu1).
  { unfold unread. rewrite length_drop. lia. }
  assert (Hls : line_stream [] (unread (push s d)) = line_stream (unread s) d).
  { rewrite Hu, line_stream_app, (line_stream_None [] _ Hn). cbn. by destruct (line_stream _ d). }
  rewrite Hls in *. cbn [obind fst snd]. destruct (IH s1 Hs1) as (s2 & -> & Hs2 & Hu2).
  { rewrite Hu1. by apply line_stream_snd. }
  rewrite line_stream_app. cbn zeta. rewrite <- Hu1. exists s2. by split_and!.
Qed.

(** How the network cuts the stream does not matter. However the bytes are split into
    chunks, the parser never panics, yields exactly the lines of the whole stream (a
    carriage return at the end removed), and [take_pending] gives back the unfinished
    rest unchanged. *)
Theorem control_parser_chunking chunks :
  exists s, feed_chunks new_parser chunks = Ret ((line_stream [] (concat chunks)).1, s)
    /\ take_pending s = Ret ((line_stream [] (concat chunks)).2, new_parser).
Proof.
  destruct (feed_chunks_spec chunks new_parser) as (s & H & Hs & Hu); [by unfold parser_ok; cbn|done|].
  exists s. split; [done|]. unfold take_pending. unfold parser_ok in Hs.
  rewrite (proj2 (Nat.ltb_ge _ _)) by done. fold (unread s). by rewrite Hu.
Qed.
