(* ===== verification/TmuxLayout.v ===== *)
(** * tmux layouts and pane output, both ways

    What tmux prints and the client parses: octal-escaped pane output and window layouts,
    with the parser of [control.rs] shown to invert the printed forms, its fuel shown to
    be enough, and the two pane queries of a layout shown to agree. *)

From stdpp Require Import base option list numbers strings.
From Stdlib Require Import ZArith Lia.
From S2P Require Import Prelude RustStr RustText TmuxControl.

Local Open Scope Z_scope.

(** ** Pane output *)

(** How tmux prints pane output: the bytes [esc] selects as three octal digits. It
    selects the backslash and, depending on its version, some of the others. *)
Definition escape_byte (esc : Z -> bool) (b : Z) : bytes :=
  if esc b then [92; 48 + b / 64; 48 + b / 8 mod 8; 48 + b mod 8] else [b].
Definition escape_octal (esc : Z -> bool) (data : bytes) : bytes := flat_map (escape_byte esc) data.

Lemma unescape_plain b t : b <> 92 -> unescape_octal (b :: t) = b :: unescape_octal t.
Proof.
  intros Hb. apply Z.eqb_neq in Hb. cbn [unescape_octal]. destruct t as [|x [|y [|z t]]]; try done. by rewrite Hb.
Qed.

Lemma unescape_byte b t :
  byte_ok b ->
  unescape_octal ([92; 48 + b / 64; 48 + b / 8 mod 8; 48 + b mod 8] ++ t) = b :: unescape_octal t.
Proof.
  unfold byte_ok. intros Hb. assert (0 <= b / 64 < 4) by (split; [apply Z.div_pos|apply Z.div_lt_upper_bound]; lia).
  pose proof (Z.mod_pos_bound (b / 8) 8 eq_refl). pose proof (Z.mod_pos_bound b 8 eq_refl).
  cbn [app]. cbn [unescape_octal]. unfold octal, between. rewrite !(proj2 (Z.leb_le _ _)) by lia. cbn [andb Z.eqb Pos.eqb].
  f_equal. assert (b / 64 = b / 8 / 8) as -> by (rewrite Z.div_div by lia; done).
  pose proof (Z.div_mod b 8). pose proof (Z.div_mod (b / 8) 8). rewrite uwrap_small; [lia|].
  unfold urange. change (2 ^ 8) with 256. lia.
Qed.

Lemma unescape_escape_octal esc d :
  esc 92 = true -> bytes_ok d -> unescape_octal (escape_octal esc d) = d.
Proof.
  intros He. induction 1 as [|b d Hb Hd IH]; [done|]. cbn [escape_octal flat_map]. unfold escape_byte.
  destruct (esc b) eqn:Eb.
  - rewrite unescape_byte by done. by f_equal.
  - cbn [app]. rewrite unescape_plain by congruence. by f_equal.
Qed.

(** ** Numbers *)

Definition no_digit (s : bytes) : Prop := match s with b :: _ => is_ascii_digit b = false | [] => True end.

Lemma parse_u32_digits s v rest acc seen :
  Forall is_dec_digit s -> 0 <= acc -> parse_digits 32 10 s acc = Some v ->
  parse_u32_loop (s ++ rest) acc seen = parse_u32_loop rest v (seen || negb (bool_decide (s = []))).
Proof.
  intros Hs. revert acc seen. induction Hs as [|b s Hb Hs IH]; intros acc seen Ha; cbn [parse_digits app parse_u32_loop].
  { intros [= ->]. by rewrite orb_false_r. }
  unfold is_dec_digit in Hb. unfold is_ascii_digit, between.
  rewrite !(proj2 (Z.leb_le _ _)) by lia. cbn [andb].
  replace b with (48 + (b - 48)) at 1 by lia. rewrite to_digit_dec by lia.
  destruct (_ <? 2 ^ 32) eqn:E; [|done]. apply Z.ltb_lt in E. intros H.
  assert (Hsat : sat_add 32 (sat_mul 32 acc 10) (b - 48) = acc * 10 + (b - 48)).
  { unfold sat_add, sat_mul. lia. }
  rewrite Hsat, (IH _ true) by (lia || done). by rewrite orb_true_r.
Qed.

Lemma parse_u32_dec n rest : urange 32 n -> no_digit rest -> parse_u32 (dec_string n ++ rest) = Some (n, rest).
Proof.
  intros Hn Hr. unfold parse_u32.
  assert (Hp : parse_digits 32 10 (dec_string n) 0 = Some n).
  { pose proof (parse_uint_dec 32 n Hn) as H. pose proof (dec_string_digits n) as Hd.
    destruct (dec_string n) as [|b s]; [done|]. apply Forall_cons_1 in Hd as [Hb _].
    unfold is_dec_digit in Hb. unfold parse_uint in H. destruct s; repeat (case_match; try lia; try done). }
  rewrite (parse_u32_digits _ n) by (apply dec_string_digits || lia || done).
  rewrite bool_decide_eq_false_2 by apply dec_string_nonempty. cbn [orb negb].
  destruct rest as [|b rest]; [done|]. cbn [no_digit parse_u32_loop] in *. by rewrite Hr.
Qed.

Lemma parse_u32_short input n rest : parse_u32 input = Some (n, rest) -> (length rest < length input)%nat.
Proof.
  unfold parse_u32. assert (H : forall s v seen, parse_u32_loop s v seen = Some (n, rest) ->
    (length rest + (if seen then 0 else 1) <= length s)%nat).
  { induction s as [|b s IH]; intros v seen; cbn [parse_u32_loop length].
    - destruct seen; [intros [= _ <-]; cbn; lia|done].
    - destruct (is_ascii_digit b); [intros H; apply IH in H; destruct seen; lia|].
      destruct seen; [intros [= _ <-]; cbn; lia|done]. }
  intros Hp. apply H in Hp. lia.
Qed.

Lemma parse_u32_range input n rest : parse_u32 input = Some (n, rest) -> urange 32 n.
Proof.
  unfold parse_u32. assert (H : forall s v seen, urange 32 v -> parse_u32_loop s v seen = Some (n, rest) -> urange 32 n).
  { induction s as [|b s IH]; intros v seen Hv; cbn [parse_u32_loop].
    - destruct seen; [by intros [= <- _]|done].
    - destruct (is_ascii_digit b) eqn:E; [|destruct seen; [by intros [= <- _]|done]].
      apply IH. unfold is_ascii_digit, between in E. bool_hyps. unfold urange, sat_add, sat_mul in *. lia. }
  apply H. unfold urange. lia.
Qed.

Lemma expect_short b input rest : expect b input = Some rest -> length input = S (length rest).
Proof. destruct input as [|c input]; cbn; [done|]. destruct (c =? b); [|done]. by intros [= ->]. Qed.

(** ** Printing a layout, as tmux does *)

Definition print_list (f : LayoutCell -> bytes) : list LayoutCell -> bytes :=
  fix go l := match l with
              | [] => []
              | [c] => f c
              | c :: l' => f c ++ 44 :: go l'
              end.

Fixpoint print_cell (c : LayoutCell) : bytes :=
  match c with
  | mkCell w h x y pane columns children =>
    dec_string w ++ 120 :: dec_string h ++ 44 :: dec_string x ++ 44 :: dec_string y ++
    match pane with
    | Some p => 44 :: dec_string p
    | None => (if columns then 123 else 91) :: print_list print_cell children ++ [if columns then 125 else 93]
    end
  end.

(** A layout tmux can print: a leaf has a pane, an inner cell has children. *)
Fixpoint cell_wf (c : LayoutCell) : Prop :=
  match c with
  | mkCell w h x y pane columns children =>
    urange 32 w /\ urange 32 h /\ urange 32 x /\ urange 32 y /\
    match pane with
    | Some p => urange 32 p /\ columns = false /\ children = []
    | None => children <> [] /\ foldr (fun c P => cell_wf c /\ P) True children
    end
  end.

Lemma cell_ind (P : LayoutCell -> Prop) :
  (forall w h x y pane columns children, Forall P children -> P (mkCell w h x y pane columns children)) ->
  forall c, P c.
Proof.
  intros H. fix IH 1. intros [w h x y pane columns children]. apply H.
  induction children as [|c l IHl]; constructor; [apply IH|exact IHl].
Qed.

Lemma wf_children l : foldr (fun c P => cell_wf c /\ P) True l <-> Forall cell_wf l.
Proof.
  induction l as [|c l IH]; cbn; [by split|]. rewrite IH, Forall_cons. done.
Qed.

(** ** The parser, in two parts *)

(** The part of [parse_cell] before the children: the four numbers. *)
Definition parse_box (input : bytes) : option (Z * Z * Z * Z * bytes) :=
  '(width, i) ← parse_u32 input;
  i ← expect 120 i;
  '(height, i) ← parse_u32 i;
  i ← expect 44 i;
  '(x, i) ← parse_u32 i;
  i ← expect 44 i;
  '(y, i) ← parse_u32 i;
  Some (width, height, x, y, i).

(** The part after them. *)
Definition parse_tail (fuel : nat) (w h x y : Z) (i : bytes) : option (LayoutCell * bytes) :=
  match i with
  | b :: i' =>
    if (b =? 123) || (b =? 91) then
      '(children, rest) ← parse_children fuel (if b =? 123 then 125 else 93) i';
      Some (mkCell w h x y None (b =? 123) children, rest)
    else if b =? 44 then
      match parse_u32 i' with
      | Some (pane, rest) => Some (mkCell w h x y (Some pane) false [], rest)
      | None => Some (mkCell w h x y None false [], i')
      end
    else Some (mkCell w h x y None false [], i)
  | [] => Some (mkCell w h x y None false [], [])
  end.

Lemma parse_cell_S fuel input :
  parse_cell (S fuel) input = match parse_box input with
                              | Some (w, h, x, y, i) => parse_tail fuel w h x y i
                              | None => None
                              end.
Proof.
  cbn [parse_cell]. unfold parse_box, mbind, option_bind.
  destruct (parse_u32 input) as [[w i1]|]; [|done]. destruct (expect 120 i1) as [i2|]; [|done].
  destruct (parse_u32 i2) as [[h i3]|]; [|done]. destruct (expect 44 i3) as [i4|]; [|done].
  destruct (parse_u32 i4) as [[x i5]|]; [|done]. destruct (expect 44 i5) as [i6|]; [|done].
  by destruct (parse_u32 i6) as [[y i7]|].
Qed.

Lemma parse_box_print w h x y i :
  urange 32 w -> urange 32 h -> urange 32 x -> urange 32 y -> no_digit i ->
  parse_box (dec_string w ++ 120 :: dec_string h ++ 44 :: dec_string x ++ 44 :: dec_string y ++ i)
  = Some (w, h, x, y, i).
Proof.
  intros Hw Hh Hx Hy Hi. unfold parse_box, mbind, option_bind.
  do 3 (rewrite parse_u32_dec by done; cbn [expect]; rewrite Z.eqb_refl).
  by rewrite parse_u32_dec.
Qed.

Lemma parse_box_short input w h x y i :
  parse_box input = Some (w, h, x, y, i) -> (length i + 7 <= length input)%nat.
Proof.
  unfold parse_box, mbind, option_bind.
  destruct (parse_u32 input) as [[w' i1]|] eqn:E1; [|done]. destruct (expect 120 i1) as [i2|] eqn:E2; [|done].
  destruct (parse_u32 i2) as [[h' i3]|] eqn:E3; [|done]. destruct (expect 44 i3) as [i4|] eqn:E4; [|done].
  destruct (parse_u32 i4) as [[x' i5]|] eqn:E5; [|done]. destruct (expect 44 i5) as [i6|] eqn:E6; [|done].
  destruct (parse_u32 i6) as [[y' i7]|] eqn:E7; [|done]. intros [= -> -> -> -> ->].
  apply parse_u32_short in E1, E3, E5, E7. apply expect_short in E2, E4, E6. lia.
Qed.

Lemma parse_box_range input w h x y i :
  parse_box input = Some (w, h, x, y, i) -> urange 32 w /\ urange 32 h /\ urange 32 x /\ urange 32 y.
Proof.
  unfold parse_box, mbind, option_bind.
  destruct (parse_u32 input) as [[w' i1]|] eqn:E1; [|done]. destruct (expect 120 i1) as [i2|]; [|done].
  destruct (parse_u32 i2) as [[h' i3]|] eqn:E3; [|done]. destruct (expect 44 i3) as [i4|]; [|done].
  destruct (parse_u32 i4) as [[x' i5]|] eqn:E5; [|done]. destruct (expect 44 i5) as [i6|]; [|done].
  destruct (parse_u32 i6) as [[y' i7]|] eqn:E7; [|done]. intros [= -> -> -> -> ->].
  split_and!; by eapply parse_u32_range.
Qed.

(** ** Parsing what was printed *)

(** [parse_cell] reads back a printed cell, whatever follows it. *)
Definition cell_reads (c : LayoutCell) : Prop :=
  forall fuel rest, no_digit rest -> (length (print_cell c) <= fuel)%nat ->
    parse_cell fuel (print_cell c ++ rest) = Some (c, rest).

Lemma parse_children_print l closer :
  closer <> 44 -> is_ascii_digit closer = false -> Forall cell_reads l -> l <> [] ->
  forall fuel rest, (length (print_list print_cell l) < fuel)%nat ->
    parse_children fuel closer (print_list print_cell l ++ closer :: rest) = Some (l, rest).
Proof.
  intros Hc Hd Hl. induction Hl as [|c l Hr Hl IH]; [done|]. intros _ fuel rest Hf.
  destruct fuel as [|fuel]; [lia|]. destruct l as [|c' l].
  - cbn [print_list] in *. cbn [parse_children]. rewrite Hr; [|done|lia].
    cbn. by rewrite (proj2 (Z.eqb_neq _ _)), Z.eqb_refl.
  - change (print_list print_cell (c :: c' :: l)) with (print_cell c ++ 44 :: print_list print_cell (c' :: l)) in *.
    rewrite length_app in Hf. cbn [length] in Hf. rewrite <- app_assoc. cbn [parse_children].
    rewrite Hr; [|done|lia]. cbn [mbind option_bind app Z.eqb Pos.eqb]. rewrite IH; [done|done|lia].
Qed.

Lemma print_parse_cell c : cell_wf c -> cell_reads c.
Proof.
  induction c as [w h x y pane columns children IH] using cell_ind. cbn [cell_wf].
  intros (Hw & Hh & Hx & Hy & Hp) fuel rest Hr Hf. destruct fuel as [|fuel].
  { exfalso. cbn [print_cell] in Hf. pose proof (dec_string_nonempty w). destruct (dec_string w); [done|]. cbn in Hf. lia. }
  rewrite parse_cell_S. cbn [print_cell] in *. repeat (rewrite <- !app_assoc; cbn [app]). destruct pane as [p|].
  - destruct Hp as (Hp & -> & ->). rewrite parse_box_print by done. cbn [parse_tail app Z.eqb Pos.eqb orb].
    by rewrite parse_u32_dec.
  - destruct Hp as (Hne & Hwf). apply wf_children in Hwf.
    assert (Hall : Forall cell_reads children).
    { rewrite Forall_forall in *. intros c Hin. by apply IH, Hwf. }
    rewrite !length_app in Hf. cbn [length] in Hf. rewrite !length_app in Hf. cbn [length] in Hf.
    rewrite !length_app in Hf. cbn [length] in Hf. rewrite !length_app in Hf. cbn [length] in Hf.
    rewrite length_app in Hf.
    rewrite parse_box_print; [|done..|by destruct columns]. destruct columns; rewrite <- app_comm_cons, <- app_assoc;
      cbn [parse_tail Z.eqb Pos.eqb orb app]; rewrite parse_children_print by (lia || done); done.
Qed.

Lemma skip_hex_app h s : Forall (fun b => is_ascii_hexdigit b = true) h -> skip_hex (h ++ 44 :: s) = 44 :: s.
Proof. induction 1 as [|b h Hb Hh IH]; cbn; [done|]. by rewrite Hb. Qed.

Lemma parse_layout_print checksum c :
  Forall (fun b => is_ascii_hexdigit b = true) checksum -> cell_wf c ->
  parse_layout (checksum ++ 44 :: print_cell c) = Some (c, []).
Proof.
  intros Hh Hc. unfold parse_layout. rewrite skip_hex_app by done. cbn [expect mbind option_bind Z.eqb Pos.eqb].
  rewrite <- (app_nil_r (print_cell c)) at 2. apply print_parse_cell; [done|done|lia].
Qed.

(** The layout parser inverts tmux's layout format: from any checksum and any pane
    tree with 32-bit geometry it recovers exactly that tree, and consumes all of the
    text. *)
Theorem layout_roundtrip checksum c :
  Forall (fun b => is_ascii_hexdigit b = true) checksum -> cell_wf c ->
  parse_layout (checksum ++ 44 :: print_cell c) = Some (c, []).
Proof. apply parse_layout_print. Qed.

(** ** Arbitrary text *)

Lemma parse_short fuel :
  (forall i c r, parse_cell fuel i = Some (c, r) -> (length r + 7 <= length i)%nat)
  /\ (forall z i l r, parse_children fuel z i = Some (l, r) -> (length r + 7 <= length i)%nat).
Proof.
  induction fuel as [|fuel [IHc IHl]]; [done|]. split.
  - intros i c r. rewrite parse_cell_S. destruct (parse_box i) as [[[[[w h] x] y] j]|] eqn:E; [|done].
    apply parse_box_short in E. unfold parse_tail. destruct j as [|b j]; cbn [length] in E; [intros [= _ <-]; cbn; lia|].
    destruct (_ || _).
    { destruct (parse_children _ _ j) as [[l r']|] eqn:El; cbn; [|done]. apply IHl in El. intros [= _ <-]. lia. }
    destruct (b =? 44); [|intros [= _ <-]; cbn; lia].
    destruct (parse_u32 j) as [[p r']|] eqn:Ep; intros [= _ <-]; [apply parse_u32_short in Ep; lia|lia].
  - intros z i l r. cbn [parse_children]. destruct (parse_cell fuel i) as [[c j]|] eqn:Ec; cbn; [|done].
    apply IHc in Ec. destruct j as [|b j]; [by intros [= _ <-]|]. cbn [length] in Ec. destruct (b =? 44).
    { destruct (parse_children _ _ j) as [[l' r']|] eqn:El; cbn; [|done]. apply IHl in El. intros [= _ <-]. lia. }
    destruct (b =? z); intros [= _ <-]; cbn; lia.
Qed.

Lemma parse_children_S fuel z i :
  parse_children (S fuel) z i =
  ('(child, i) ← parse_cell fuel i;
   match i with
   | b :: i' => if b =? 44 then '(children, rest) ← parse_children fuel z i'; Some (child :: children, rest)
                else if b =? z then Some ([child], i') else Some ([child], i)
   | [] => Some ([child], [])
   end).
Proof. done. Qed.

Lemma parse_fuel_step fuel :
  (forall i, (length i < fuel)%nat -> parse_cell (S fuel) i = parse_cell fuel i)
  /\ (forall z i, (S (length i) < fuel)%nat -> parse_children (S fuel) z i = parse_children fuel z i).
Proof.
  induction fuel as [|fuel [IHc IHl]]; [split; intros; lia|]. split.
  - intros i Hi. rewrite !parse_cell_S. destruct (parse_box i) as [[[[[w h] x] y] j]|] eqn:E; [|done].
    apply parse_box_short in E. unfold parse_tail. destruct j as [|b j]; [done|]. cbn [length] in E.
    destruct (_ || _); [|done]. by rewrite IHl by lia.
  - intros z i Hi. rewrite !parse_children_S, IHc by lia.
    destruct (parse_cell fuel i) as [[c j]|] eqn:Ec; [|done]. cbn [mbind option_bind].
    apply parse_short in Ec. destruct j as [|b j]; [done|]. cbn [length] in Ec.
    destruct (b =? 44); [|done]. by rewrite IHl by lia.
Qed.

Lemma parse_cell_fuel f k i : (length i < f)%nat -> parse_cell (k + f) i = parse_cell f i.
Proof.
  intros Hf. induction k as [|k IH]; [done|]. rewrite <- IH. apply (parse_fuel_step (k + f)). lia.
Qed.

(** What any parsed cell looks like: 32-bit numbers, and a pane only on a leaf. *)
Inductive cell_shape : LayoutCell -> Prop :=
| shape_leaf w h x y p :
    urange 32 w -> urange 32 h -> urange 32 x -> urange 32 y -> urange 32 p ->
    cell_shape (mkCell w h x y (Some p) false [])
| shape_node w h x y columns children :
    urange 32 w -> urange 32 h -> urange 32 x -> urange 32 y -> Forall cell_shape children ->
    cell_shape (mkCell w h x y None columns children).

Lemma parse_shape fuel :
  (forall i c r, parse_cell fuel i = Some (c, r) -> cell_shape c)
  /\ (forall z i l r, parse_children fuel z i = Some (l, r) -> Forall cell_shape l).
Proof.
  induction fuel as [|fuel [IHc IHl]]; [done|]. split.
  - intros i c r. rewrite parse_cell_S. destruct (parse_box i) as [[[[[w h] x] y] j]|] eqn:E; [|done].
    apply parse_box_range in E as (Hw & Hh & Hx & Hy). unfold parse_tail.
    destruct j as [|b j]; [intros [= <- _]; by constructor|]. destruct (_ || _).
    { destruct (parse_children _ _ j) as [[l r']|] eqn:El; cbn; [|done]. intros [= <- _]. constructor; eauto. }
    destruct (b =? 44); [|intros [= <- _]; by constructor].
    destruct (parse_u32 j) as [[p r']|] eqn:Ep; intros [= <- _]; constructor; eauto using parse_u32_range.
  - intros z i l r. cbn [parse_children]. destruct (parse_cell fuel i) as [[c j]|] eqn:Ec; cbn; [|done].
    apply IHc in Ec. destruct j as [|b j]; [intros [= <- _]; by repeat constructor|]. destruct (b =? 44).
    { destruct (parse_children _ _ j) as [[l' r']|] eqn:El; cbn; [|done]. intros [= <- _]. constructor; eauto. }
    destruct (b =? z); intros [= <- _]; by repeat constructor.
Qed.

Lemma find_map_Some {A B} (f : A -> option B) l :
  is_Some (find_map f l) <-> exists a, a ∈ l /\ is_Some (f a).
Proof.
  induction l as [|a l IH]; cbn.
  - split; [by intros []|]. intros (a & H & _). by apply elem_of_nil in H.
  - destruct (f a) as [b|] eqn:E.
    + split; [|by eexists]. intros _. exists a. split; [left|by rewrite E].
    + fold (find_map f l). rewrite IH. split.
      * intros (a' & Hin & Ha'). exists a'. split; [by right|done].
      * intros (a' & [->|Hin]%elem_of_cons & Ha'); [rewrite E in Ha'; by destruct Ha'|eauto].
Qed.

Lemma find_map_elem {A B} (f : A -> option B) l b : find_map f l = Some b -> exists a, a ∈ l /\ f a = Some b.
Proof.
  induction l as [|a l IH]; cbn; [done|]. fold (find_map f l). destruct (f a) as [b'|] eqn:E.
  - intros [= ->]. exists a. split; [left|done].
  - intros H. destruct (IH H) as (a' & Hin & Ha'). exists a'. split; [by right|done].
Qed.

Lemma find_pane_hit p c r : find_pane p c = Some r -> cell_pane r = Some p.
Proof.
  revert r. induction c as [w h x y pane columns children IH] using cell_ind. intros r. cbn [find_pane].
  destruct pane as [q|]; [destruct (q =? p) eqn:E; [apply Z.eqb_eq in E as ->; by intros [= <-]|]|];
    intros (c & Hin & Hc)%find_map_elem; rewrite Forall_forall in IH; by eapply IH.
Qed.

Lemma find_pane_ids p c : cell_shape c -> p ∈ pane_ids c <-> is_Some (find_pane p c).
Proof.
  induction c as [w h x y pane columns children IH] using cell_ind. intros Hs.
  inversion Hs as [|w1 h1 x1 y1 cs1 l1 Hw1 Hh1 Hx1 Hy1 Hch]; subst; cbn.
  - rewrite list_elem_of_singleton. destruct (_ =? p) eqn:E; bool_hyps.
    + split; [by eexists|done].
    + split; [intros ->; congruence|by intros []].
  - rewrite find_map_Some, list_elem_of_In, in_flat_map. rewrite Forall_forall in IH, Hch.
    setoid_rewrite <- list_elem_of_In. split; intros (c & Hin & Hc); exists c; (split; [done|]);
      apply IH; auto.
Qed.

(** The layout parser on arbitrary text. It has enough fuel (more changes nothing),
    every number it yields is a 32-bit one, and on its result [pane_ids] lists exactly the
    panes that [find_pane] finds, at a cell that carries that pane. *)
Theorem layout_parse_sound input :
  (forall i k, expect 44 (skip_hex input) = Some i -> parse_cell (k + S (length i)) i = parse_layout input)
  /\ forall c rest, parse_layout input = Some (c, rest) ->
     cell_shape c /\ (length rest < length input)%nat
     /\ (forall p, p ∈ pane_ids c <-> is_Some (find_pane p c))
     /\ (forall p r, find_pane p c = Some r -> cell_pane r = Some p).
Proof.
  unfold parse_layout. split.
  - intros i k ->. cbn. apply parse_cell_fuel. lia.
  - intros c rest. destruct (expect 44 (skip_hex input)) as [i|] eqn:E; cbn [mbind option_bind]; [|done].
    intros Hp. apply expect_short in E. pose proof (proj1 (parse_short _) _ _ _ Hp) as Hl.
    apply parse_shape in Hp. split_and!; [done| |intros p; by apply find_pane_ids|intros p r; apply find_pane_hit].
    assert (length (skip_hex input) <= length input)%nat; [|lia].
    clear. induction input as [|b input IH]; cbn; [done|]. destruct (is_ascii_hexdigit b); cbn; lia.
Qed.

(** ** Witnesses *)

Definition demo_cell : LayoutCell :=
  mkCell 80 24 0 0 None true [mkCell 40 24 0 0 (Some 0) false []; mkCell 39 24 41 0 (Some 1) false []].

Lemma demo_cell_wf : cell_wf demo_cell.
Proof. cbn. unfold urange. repeat split; try lia; done. Qed.

Lemma layout_roundtrip_witness : parse_layout ([98; 50; 53; 102] ++ 44 :: print_cell demo_cell) = Some (demo_cell, []).
Proof. apply layout_roundtrip; [repeat constructor|exact demo_cell_wf]. Defined.
