(* ===== verification/TmuxMessages.v ===== *)
(** * Control messages, both ways

    The lines of tmux's control mode, as the documentation and the tests of [control.rs]
    describe them: with the arguments the client does not keep, the fields older servers
    omit and those newer ones add. [parse_line] reads every one of them as the message it
    stands for: pane output byte for byte, whatever it contains, and everything else
    exactly. *)

From stdpp Require Import base option list numbers strings.
From Stdlib Require Import ZArith Lia.
From S2P Require Import Prelude RustStr RustText TmuxControl TmuxLayout.

Local Open Scope Z_scope.

(** A window, pane or session id: a sigil and visible characters. *)
Definition id_ok (w : bytes) : Prop :=
  match w with
  | b :: _ :: _ => (b = 37 \/ b = 64 \/ b = 36) /\ Forall graph w
  | _ => False
  end.

(** Free text at the end of a line. *)
Definition text_ok (t : bytes) : Prop := utf8_valid t = true /\ trim_start t = t.
Definition word_ok (w : bytes) : Prop := w <> [] /\ Forall graph w.
Definition block_ok (i : BlockId) : Prop := urange 64 (time i) /\ urange 64 (number i) /\ urange 64 (flags i).

(** What may follow the arguments of a line: nothing, or a space and any text (the name of
    a session, which may have spaces, or fields of other versions). *)
Definition tail_ok (t : bytes) : Prop := utf8_valid t = true /\ (t = [] \/ exists t', t = 32 :: t').

Definition line_of (keyword : string) (args : bytes) : bytes := 37 :: bs keyword ++ args.
Definition block_args (i : BlockId) : bytes :=
  32 :: dec_string (time i) ++ 32 :: dec_string (number i) ++ 32 :: dec_string (flags i).

(** Words, a space before each. *)
Definition spaced (ws : list bytes) : bytes := concat (cons 32 <$> ws).

(** A layout with its checksum. *)
Definition layout_text (sum : bytes) (c : LayoutCell) : bytes := sum ++ 44 :: print_cell c.
Definition sum_ok (sum : bytes) : Prop := Forall (fun b => is_ascii_hexdigit b = true) sum.

(** The notifications the client acts on. *)
Definition NOTIFICATIONS : list string :=
  ["begin"; "end"; "error"; "output"; "extended-output"; "layout-change"; "window-add"; "unlinked-window-add";
   "window-close"; "unlinked-window-close"; "window-renamed"; "window-pane-changed"; "pane-exited"; "pane-mode-changed";
   "session-changed"; "session-window-changed"; "session-renamed"; "sessions-changed"; "client-session-changed";
   "client-detached"; "pause"; "continue"; "exit"; "config-error"; "message"].

(** The line of a notification and its message; [esc] is tmux's choice of escaped bytes.
    The age of an extended output is followed by fields such as [-], up to a colon; the
    visible layout and the flags of a layout change are missing on older servers; windows
    of other sessions are announced as unlinked. *)
Inductive control_line (esc : Z -> bool) : bytes -> ControlMessage -> Prop :=
| line_begin i : block_ok i -> control_line esc (line_of "begin" (block_args i)) (Begin i)
| line_end i : block_ok i -> control_line esc (line_of "end" (block_args i)) (End i)
| line_error i : block_ok i -> control_line esc (line_of "error" (block_args i)) (Error i)
| line_output p d : id_ok p -> bytes_ok d -> control_line esc (line_of "output" (32 :: p ++ 32 :: escape_octal esc d)) (Output p d)
| line_extended p a fields d :
    id_ok p -> urange 64 a -> Forall (fun w => word_ok w /\ w <> bs ":") fields -> bytes_ok d ->
    control_line esc (line_of "extended-output" (32 :: p ++ spaced (dec_string a :: fields) ++ bs " : " ++ escape_octal esc d))
      (ExtendedOutput p a d)
| line_layout w sum l sum' v f t :
    id_ok w -> sum_ok sum -> cell_wf l -> sum_ok sum' -> cell_wf v -> word_ok f -> tail_ok t ->
    control_line esc (line_of "layout-change" (spaced [w; layout_text sum l; layout_text sum' v; f] ++ t)) (LayoutChange w l v f)
| line_layout_no_flags w sum l sum' v :
    id_ok w -> sum_ok sum -> cell_wf l -> sum_ok sum' -> cell_wf v ->
    control_line esc (line_of "layout-change" (spaced [w; layout_text sum l; layout_text sum' v])) (LayoutChange w l v [])
| line_layout_old w sum l :
    id_ok w -> sum_ok sum -> cell_wf l ->
    control_line esc (line_of "layout-change" (spaced [w; layout_text sum l])) (LayoutChange w l l [])
| line_window_add k w t :
    k ∈ ["window-add"; "unlinked-window-add"] -> id_ok w -> tail_ok t -> control_line esc (line_of k (32 :: w ++ t)) (WindowAdd w)
| line_window_close k w t :
    k ∈ ["window-close"; "unlinked-window-close"] -> id_ok w -> tail_ok t -> control_line esc (line_of k (32 :: w ++ t)) (WindowClose w)
| line_window_renamed w n :
    id_ok w -> utf8_valid n = true -> control_line esc (line_of "window-renamed" (32 :: w ++ 32 :: n)) (WindowRenamed w n)
| line_window_pane w p t :
    id_ok w -> id_ok p -> tail_ok t -> control_line esc (line_of "window-pane-changed" (32 :: w ++ 32 :: p ++ t)) (WindowPaneChanged w p)
| line_pane_exited p t : id_ok p -> tail_ok t -> control_line esc (line_of "pane-exited" (32 :: p ++ t)) (PaneExited p)
| line_pane_mode p t : id_ok p -> tail_ok t -> control_line esc (line_of "pane-mode-changed" (32 :: p ++ t)) (PaneModeChanged p)
| line_session_changed s t : id_ok s -> tail_ok t -> control_line esc (line_of "session-changed" (32 :: s ++ t)) (SessionChanged s)
| line_session_window s w t :
    id_ok s -> id_ok w -> tail_ok t -> control_line esc (line_of "session-window-changed" (32 :: s ++ 32 :: w ++ t)) (SessionWindowChanged w)
| line_session_renamed s t : id_ok s -> tail_ok t -> control_line esc (line_of "session-renamed" (32 :: s ++ t)) (SessionRenamed s)
| line_sessions_changed t : tail_ok t -> control_line esc (line_of "sessions-changed" t) SessionsChanged
| line_client_session t : tail_ok t -> control_line esc (line_of "client-session-changed" t) ClientSessionChanged
| line_client_detached t : text_ok t -> control_line esc (line_of "client-detached" (32 :: t)) (ClientDetached t)
| line_pause p t : id_ok p -> tail_ok t -> control_line esc (line_of "pause" (32 :: p ++ t)) (Pause p)
| line_continue p t : id_ok p -> tail_ok t -> control_line esc (line_of "continue" (32 :: p ++ t)) (Continue p)
| line_exit : control_line esc (line_of "exit" []) (Exit None)
| line_exit_reason t : text_ok t -> t <> [] -> control_line esc (line_of "exit" (32 :: t)) (Exit (Some t))
| line_config_error t : text_ok t -> control_line esc (line_of "config-error" (32 :: t)) (ConfigError t)
| line_message t : text_ok t -> control_line esc (line_of "message" (32 :: t)) (Message t)
| line_other k t :
    forallb is_keyword_char (bs k) = true -> Forall (fun k' => bs k <> bs k') NOTIFICATIONS -> tail_ok t ->
    control_line esc (line_of k t) Ignored.

(** ** The parts of a line *)

Lemma id_graph w : id_ok w -> Forall graph w /\ w <> [].
Proof. destruct w as [|a [|b w]]; [done..|]. by intros [_ H]. Qed.

Lemma id_arg_ok w : id_ok w -> id_arg w = Some w.
Proof. destruct w as [|a [|b w]]; [done..|]. intros [[->|[->| ->]] _]; done. Qed.

Lemma trim_start_word w s : Forall graph w -> w <> [] -> trim_start (w ++ s) = w ++ s.
Proof. intros Hw Hne. destruct Hw as [|b w Hb Hw]; [done|]. by apply trim_start_graph. Qed.

Lemma valid_graph_app w s : Forall graph w -> utf8_valid (w ++ s) = utf8_valid s.
Proof. intros Hw. by apply utf8_valid_app, graph_valid. Qed.

Lemma valid_space s : utf8_valid (32 :: s) = utf8_valid s.
Proof. done. Qed.

Lemma take_keyword_app k tail :
  forallb is_keyword_char k = true -> (tail = [] \/ exists t, tail = 32 :: t) -> take_keyword (k ++ tail) = k.
Proof.
  intros Hk Ht. induction k as [|b k IH]; cbn in *; [by destruct Ht as [->|[t ->]]|].
  apply andb_true_iff in Hk as [-> Hk]. by rewrite IH.
Qed.

Lemma keyword_graph k : forallb is_keyword_char k = true -> Forall graph k.
Proof.
  intros Hk. apply Forall_forall. intros b Hb. rewrite forallb_forall in Hk.
  apply list_elem_of_In, Hk in Hb. unfold is_keyword_char, between in Hb. unfold graph. bool_hyps; lia.
Qed.

(** A line with a keyword other than the two output notifications. *)
Lemma parse_line_keyword k tail :
  forallb is_keyword_char (bs k) = true -> (tail = [] \/ exists t, tail = 32 :: t) -> utf8_valid tail = true ->
  strip_prefix (bs "%output ") (line_of k tail) = None ->
  strip_prefix (bs "%extended-output ") (line_of k tail) = None ->
  parse_line (line_of k tail) = parse_keyword (bs k) (line_of k tail).
Proof.
  intros Hk Ht Hv H1 H2. pose proof (keyword_graph _ Hk) as Hg. unfold parse_line. rewrite H1, H2. cbn zeta.
  rewrite from_utf8_lossy_valid.
  - unfold line_of at 1. cbn. by rewrite take_keyword_app.
  - unfold line_of. change (37 :: bs k ++ tail) with ([37] ++ bs k ++ tail).
    rewrite !valid_graph_app; [done|done|]. by repeat constructor.
Qed.

Lemma rest_after k t : rest_after_keyword (line_of k (32 :: t)) (37 :: bs k) = Some (trim_start t).
Proof.
  unfold rest_after_keyword, line_of. change (37 :: bs k ++ 32 :: t) with ((37 :: bs k) ++ 32 :: t).
  by rewrite strip_prefix_app.
Qed.

(** The first word of a line, and what follows it. *)
Lemma word_tail w t : word_ok w -> tail_ok t -> split_whitespace (w ++ t) = w :: split_whitespace t.
Proof.
  intros [Hne Hw] [_ [->|[t' ->]]]; [by rewrite app_nil_r, split_whitespace_last|].
  by rewrite split_whitespace_word, split_whitespace_space.
Qed.

Lemma args_id_line k w t : id_ok w -> tail_ok t -> args_id (line_of k (32 :: w ++ t)) (37 :: bs k) = Some w.
Proof.
  intros Hw Ht. destruct (id_graph w Hw) as [Hg Hne]. unfold args_id. rewrite rest_after. cbn [mbind option_bind].
  rewrite trim_start_word by done. rewrite word_tail by done. cbn. by apply id_arg_ok.
Qed.

Lemma parse_block_line k i :
  forallb is_keyword_char (bs k) = true -> block_ok i -> parse_block_id (line_of k (block_args i)) = Some i.
Proof.
  intros Hg%keyword_graph (Ht & Hn & Hf). unfold parse_block_id, line_of, block_args.
  change (37 :: bs k ++ ?l) with ((37 :: bs k) ++ l).
  rewrite split_whitespace_word; [|constructor; [by unfold graph|done]|done].
  rewrite !split_whitespace_word, split_whitespace_last by auto with rust.
  cbn [drop]. rewrite !parse_uint_dec by done. by destruct i.
Qed.

Lemma block_args_valid i : utf8_valid (block_args i) = true.
Proof.
  unfold block_args. rewrite valid_space, !valid_graph_app, valid_space, !valid_graph_app, valid_space by auto with rust.
  auto with rust.
Qed.

Lemma print_list_graph l :
  Forall (fun c => Forall graph (print_cell c)) l -> Forall graph (print_list print_cell l).
Proof.
  induction 1 as [|c l Hc Hl IH]; [by constructor|]. destruct l as [|c' l]; [done|].
  change (print_list print_cell (c :: c' :: l)) with (print_cell c ++ 44 :: print_list print_cell (c' :: l)).
  apply Forall_app. split; [done|]. constructor; [by unfold graph|done].
Qed.

Lemma print_cell_graph c : Forall graph (print_cell c).
Proof.
  induction c as [w h x y pane columns children IH] using cell_ind. cbn [print_cell].
  repeat (first [apply Forall_app; split; [apply dec_string_graph|]
                |apply Forall_cons; split; [unfold graph; lia|]]).
  destruct pane as [p|]; (apply Forall_cons; split; [unfold graph; try destruct columns; lia|]);
    [apply dec_string_graph|].
  apply Forall_app. split; [by apply print_list_graph|]. repeat constructor; unfold graph; destruct columns; lia.
Qed.

Lemma layout_token sum c : sum_ok sum -> word_ok (layout_text sum c).
Proof.
  intros Hs. split; [by destruct sum|]. apply Forall_app. split.
  - eapply Forall_impl; [exact Hs|]. intros b Hb. unfold is_ascii_hexdigit, between in Hb. unfold graph. bool_hyps; lia.
  - constructor; [by unfold graph|apply print_cell_graph].
Qed.

(** The first [ : ] comes after all the words. *)
Lemma split_sub_word w s r :
  Forall graph w -> split_sub (bs " : ") s = Some r -> split_sub (bs " : ") (w ++ s) = Some (w ++ r.1, r.2).
Proof.
  intros Hw Hs. induction Hw as [|b w Hb Hw IH]; [cbn [app]; rewrite Hs; by destruct r|].
  change ((b :: w) ++ s) with (b :: (w ++ s)). cbn [split_sub].
  assert (strip_prefix (bs " : ") (b :: w ++ s) = None) as ->.
  { change (bs " : ") with [32; 58; 32]. cbn [strip_prefix]. unfold graph in Hb. by rewrite (proj2 (Z.eqb_neq 32 b)) by lia. }
  by rewrite IH.
Qed.

Lemma split_sub_spaced ws d :
  Forall (fun w => word_ok w /\ w <> bs ":") ws -> split_sub (bs " : ") (spaced ws ++ bs " : " ++ d) = Some (spaced ws, d).
Proof.
  induction 1 as [|w ws [[Hne Hg] Hc] Hws IH]; [by destruct d|]. unfold spaced in *. cbn [fmap list_fmap concat].
  change ((32 :: w) ++ ?l) with (32 :: (w ++ l)). change ((32 :: ?l) ++ ?m) with (32 :: (l ++ m)). rewrite <- app_assoc. cbn [split_sub].
  assert (Hn : strip_prefix (bs " : ") (32 :: w ++ concat (cons 32 <$> ws) ++ bs " : " ++ d) = None).
  { change (bs " : ") with [32; 58; 32]. cbn [strip_prefix]. rewrite Z.eqb_refl. destruct w as [|b [|c w]]; [done|..]; cbn [app strip_prefix].
    - destruct (58 =? b) eqn:E; [|done]. bool_hyps. by subst b.
    - destruct (58 =? b); [|done]. apply Forall_cons in Hg as [_ [Hcg _]%Forall_cons]. unfold graph in Hcg.
      by rewrite (proj2 (Z.eqb_neq 32 c)) by lia. }
  rewrite Hn. by rewrite (split_sub_word w _ _ Hg IH).
Qed.

Lemma spaced_valid ws t : Forall word_ok ws -> utf8_valid t = true -> utf8_valid (spaced ws ++ t) = true.
Proof.
  intros Hws Ht. induction Hws as [|w ws [_ Hg] Hws IH]; [done|]. unfold spaced in *. cbn [fmap list_fmap concat].
  change (((32 :: w) ++ ?l) ++ t) with (32 :: ((w ++ l) ++ t)). by rewrite <- app_assoc, valid_space, valid_graph_app.
Qed.

Lemma split_spaced w ws t :
  Forall word_ok (w :: ws) -> tail_ok t -> split_whitespace (w ++ spaced ws ++ t) = w :: ws ++ split_whitespace t.
Proof.
  intros Hws Ht. revert w Hws. induction ws as [|x ws IH]; intros w [[Hne Hg] Hws]%Forall_cons; [by apply word_tail|].
  unfold spaced in *. cbn [fmap list_fmap concat]. change (((32 :: x) ++ ?l) ++ t) with (32 :: ((x ++ l) ++ t)).
  by rewrite <- app_assoc, split_whitespace_word, IH.
Qed.

Lemma tail_nil : tail_ok [].
Proof. by split; [|left]. Qed.
#[local] Hint Resolve tail_nil : core.

Lemma dec_word a : word_ok (dec_string a).
Proof. split; auto with rust. Qed.
Lemma id_word w : id_ok w -> word_ok w.
Proof. intros [? ?]%id_graph. by split. Qed.
#[local] Hint Resolve dec_word id_word : core.

Lemma parse_output_line esc p d :
  esc 92 = true -> id_ok p -> bytes_ok d ->
  parse_line (line_of "output" (32 :: p ++ 32 :: escape_octal esc d)) = Some (Output p d).
Proof.
  intros He Hp Hd. destruct (id_graph p Hp) as [Hg Hne]. unfold parse_line.
  change (line_of "output" (32 :: ?l)) with (bs "%output " ++ l). rewrite strip_prefix_app.
  unfold parse_output. rewrite split_once_app.
  - cbn [mbind option_bind]. by rewrite graph_valid, unescape_escape_octal.
  - eapply Forall_impl; [exact Hg|]. unfold graph. lia.
Qed.

Lemma parse_extended_line esc p a fields d :
  esc 92 = true -> id_ok p -> urange 64 a -> Forall (fun w => word_ok w /\ w <> bs ":") fields -> bytes_ok d ->
  parse_line (line_of "extended-output" (32 :: p ++ spaced (dec_string a :: fields) ++ bs " : " ++ escape_octal esc d))
  = Some (ExtendedOutput p a d).
Proof.
  intros He Hp Ha Hf Hd. destruct (id_graph p Hp) as [Hg Hne]. unfold parse_line.
  assert (strip_prefix (bs "%output ") (line_of "extended-output" (32 :: p ++ spaced (dec_string a :: fields) ++ bs " : "
    ++ escape_octal esc d)) = None) as -> by done.
  change (line_of "extended-output" (32 :: ?l)) with (bs "%extended-output " ++ l). rewrite strip_prefix_app.
  assert (Hws : Forall (fun w => word_ok w /\ w <> bs ":") (dec_string a :: fields)).
  { constructor; [|done]. split; [auto|]. intros E. pose proof (dec_string_digits a) as Hdg. rewrite E in Hdg.
    apply Forall_inv in Hdg. change (is_dec_digit 58) in Hdg. unfold is_dec_digit in Hdg. lia. }
  assert (Hwf : Forall word_ok (p :: dec_string a :: fields)) by (constructor; [auto|eapply Forall_impl; [exact Hws|by intros w []]]).
  unfold parse_extended_output. rewrite (split_sub_word p _ _ Hg (split_sub_spaced _ _ Hws)). cbn [fst snd mbind option_bind].
  rewrite <- (app_nil_r (spaced _)). rewrite valid_graph_app, spaced_valid by (done || by apply Forall_inv_tail in Hwf).
  rewrite (split_spaced p (dec_string a :: fields) [] Hwf tail_nil). cbn [app].
  by rewrite parse_uint_dec, unescape_escape_octal.
Qed.

Ltac each_word := repeat (apply List.Forall_nil || (apply List.Forall_cons; [first [done | by apply layout_token | by auto]|])).

(** The words of a layout change. *)
Lemma parse_layout_words w ws t :
  id_ok w -> Forall word_ok ws -> tail_ok t ->
  exists args, rest_after_keyword (line_of "layout-change" (spaced (w :: ws) ++ t)) (bs "%layout-change") = Some args
    /\ split_whitespace args = w :: ws ++ split_whitespace t.
Proof.
  intros Hw Hws Ht. destruct (id_graph w Hw) as [Hg Hne]. exists (w ++ spaced ws ++ t). split; [|apply split_spaced; [constructor; auto|done]].
  change (bs "%layout-change") with (37 :: bs "layout-change"). unfold spaced. cbn [fmap list_fmap concat].
  change (((32 :: w) ++ ?l) ++ t) with (32 :: ((w ++ l) ++ t)). rewrite rest_after, <- app_assoc. by rewrite trim_start_word.
Qed.

Lemma layout_print_text sum c : sum_ok sum -> cell_wf c -> exists n, parse_layout (layout_text sum c) = Some (c, n).
Proof. intros Hs Hc. eexists. by apply parse_layout_print. Qed.

Lemma parse_layout_line esc line w l v f :
  control_line esc line (LayoutChange w l v f) -> parse_layout_change line = Some (LayoutChange w l v f).
Proof.
  unfold parse_layout_change. inversion 1; subst.
  - destruct (parse_layout_words w [layout_text sum l; layout_text sum' v; f] t) as (args & -> & E);
      [done|each_word|done|]. cbn [mbind option_bind]. rewrite E. cbn [app].
    destruct (layout_print_text sum l) as [n ->]; [done..|]. cbn. by destruct (layout_print_text sum' v) as [n' ->].
  - destruct (parse_layout_words w [layout_text sum l; layout_text sum' v] []) as (args & E1 & E);
      [done|each_word|done|]. rewrite app_nil_r in E1. rewrite E1. cbn [mbind option_bind]. rewrite E. cbn [app].
    destruct (layout_print_text sum l) as [n ->]; [done..|]. cbn. by destruct (layout_print_text sum' v) as [n' ->].
  - destruct (parse_layout_words w [layout_text sum v] []) as (args & E1 & E);
      [done|each_word|done|]. rewrite app_nil_r in E1. rewrite E1. cbn [mbind option_bind]. rewrite E. cbn [app].
    by destruct (layout_print_text sum v) as [n ->].
Qed.


Lemma id_line_valid w t : id_ok w -> tail_ok t -> utf8_valid (32 :: w ++ t) = true.
Proof. intros [Hg _]%id_graph [Ht _]. by rewrite valid_space, valid_graph_app. Qed.

(** Dispatch on the keyword [k] of the line in the goal; the arguments are valid text. *)
Ltac by_keyword k :=
  rewrite (parse_line_keyword k);
  [|reflexivity|(by left) || (right; by eexists) || (by match goal with H : tail_ok _ |- _ => destruct H end)| |reflexivity|reflexivity].

(** A notification whose first argument is an id. *)
Ltac id_message k f :=
  by_keyword k; [|by apply id_line_valid];
  change (parse_keyword (bs k) ?l) with (f <$> args_id l (37 :: bs k)); by rewrite args_id_line.

(** A notification whose argument is free text. *)
Ltac text_message k f :=
  by_keyword k; [|by rewrite valid_space];
  change (parse_keyword (bs k) ?l) with (f <$> rest_after_keyword l (37 :: bs k)); by rewrite rest_after; f_equal/=; f_equal.

Lemma two_ids_valid w v t : id_ok w -> id_ok v -> tail_ok t -> utf8_valid (32 :: w ++ 32 :: v ++ t) = true.
Proof. intros [Hg _]%id_graph Hv Ht. rewrite valid_space, valid_graph_app by done. by apply id_line_valid. Qed.

Lemma two_ids w v t :
  id_ok w -> id_ok v -> tail_ok t -> split_whitespace (trim_start (w ++ 32 :: v ++ t)) = w :: v :: split_whitespace t.
Proof.
  intros Hw Hv Ht. destruct (id_graph w Hw) as [Hg Hne]. rewrite trim_start_word, split_whitespace_word by done. by rewrite word_tail by auto.
Qed.

(** The announcements of windows, linked or not. *)
Lemma parse_window_add k w t :
  k ∈ ["window-add"; "unlinked-window-add"] -> id_ok w -> tail_ok t -> parse_line (line_of k (32 :: w ++ t)) = Some (WindowAdd w).
Proof.
  intros Hk Hw Ht. apply elem_of_cons in Hk as [->| ->%list_elem_of_singleton].
  - by_keyword "window-add"; [|by apply id_line_valid].
    change (parse_keyword (bs "window-add") ?l) with
      (WindowAdd <$> or_else (args_id l (37 :: bs "window-add")) (args_id l (bs "%unlinked-window-add"))).
    by rewrite args_id_line.
  - by_keyword "unlinked-window-add"; [|by apply id_line_valid].
    change (parse_keyword (bs "unlinked-window-add") ?l) with
      (WindowAdd <$> or_else (args_id l (bs "%window-add")) (args_id l (37 :: bs "unlinked-window-add"))).
    rewrite args_id_line by done. done.
Qed.

Lemma parse_window_close k w t :
  k ∈ ["window-close"; "unlinked-window-close"] -> id_ok w -> tail_ok t -> parse_line (line_of k (32 :: w ++ t)) = Some (WindowClose w).
Proof.
  intros Hk Hw Ht. apply elem_of_cons in Hk as [->| ->%list_elem_of_singleton].
  - by_keyword "window-close"; [|by apply id_line_valid].
    change (parse_keyword (bs "window-close") ?l) with
      (WindowClose <$> or_else (args_id l (37 :: bs "window-close")) (args_id l (bs "%unlinked-window-close"))).
    by rewrite args_id_line.
  - by_keyword "unlinked-window-close"; [|by apply id_line_valid].
    change (parse_keyword (bs "unlinked-window-close") ?l) with
      (WindowClose <$> or_else (args_id l (bs "%window-close")) (args_id l (37 :: bs "unlinked-window-close"))).
    rewrite args_id_line by done. done.
Qed.

(** The notifications with two arguments. *)
Lemma parse_window_renamed w n :
  id_ok w -> utf8_valid n = true -> parse_line (line_of "window-renamed" (32 :: w ++ 32 :: n)) = Some (WindowRenamed w n).
Proof.
  intros [Hg Hne]%id_graph Hn. by_keyword "window-renamed"; [|by rewrite valid_space, valid_graph_app].
  change (parse_keyword (bs "window-renamed") ?l) with
    (args ← rest_after_keyword l (37 :: bs "window-renamed");
     '(window, name) ← split_once 32 args; Some (WindowRenamed window name)).
  rewrite rest_after. cbn [mbind option_bind]. rewrite trim_start_word, split_once_app; [done| |done..].
  eapply Forall_impl; [exact Hg|]. unfold graph. lia.
Qed.

Lemma parse_window_pane w p t :
  id_ok w -> id_ok p -> tail_ok t -> parse_line (line_of "window-pane-changed" (32 :: w ++ 32 :: p ++ t)) = Some (WindowPaneChanged w p).
Proof.
  intros Hw Hp Ht. by_keyword "window-pane-changed"; [|by apply two_ids_valid].
  change (parse_keyword (bs "window-pane-changed") ?l) with
    (args ← rest_after_keyword l (37 :: bs "window-pane-changed");
     match split_whitespace args with w :: p :: _ => Some (WindowPaneChanged w p) | _ => None end).
  rewrite rest_after. cbn [mbind option_bind]. by rewrite two_ids.
Qed.

Lemma parse_session_window s w t :
  id_ok s -> id_ok w -> tail_ok t -> parse_line (line_of "session-window-changed" (32 :: s ++ 32 :: w ++ t)) = Some (SessionWindowChanged w).
Proof.
  intros Hs Hw Ht. by_keyword "session-window-changed"; [|by apply two_ids_valid].
  change (parse_keyword (bs "session-window-changed") ?l) with
    (args ← rest_after_keyword l (37 :: bs "session-window-changed");
     match split_whitespace args with _ :: w :: _ => Some (SessionWindowChanged w) | _ => None end).
  rewrite rest_after. cbn [mbind option_bind]. by rewrite two_ids.
Qed.

(** The notifications about a session, before its name. *)
Lemma first_word w t : id_ok w -> tail_ok t -> hd_error (split_whitespace (trim_start (w ++ t))) = Some w.
Proof. intros Hw Ht. destruct (id_graph w Hw). by rewrite trim_start_word, word_tail by auto. Qed.

Lemma parse_session_changed s t :
  id_ok s -> tail_ok t -> parse_line (line_of "session-changed" (32 :: s ++ t)) = Some (SessionChanged s).
Proof.
  intros Hs Ht. by_keyword "session-changed"; [|by apply id_line_valid].
  change (parse_keyword (bs "session-changed") ?l) with
    (args ← rest_after_keyword l (37 :: bs "session-changed"); SessionChanged <$> hd_error (split_whitespace args)).
  rewrite rest_after. cbn [mbind option_bind]. by rewrite first_word.
Qed.

Lemma parse_session_renamed s t :
  id_ok s -> tail_ok t -> parse_line (line_of "session-renamed" (32 :: s ++ t)) = Some (SessionRenamed s).
Proof.
  intros Hs Ht. by_keyword "session-renamed"; [|by apply id_line_valid].
  change (parse_keyword (bs "session-renamed") ?l) with
    (args ← rest_after_keyword l (37 :: bs "session-renamed"); SessionRenamed <$> hd_error (split_whitespace args)).
  rewrite rest_after. cbn [mbind option_bind]. by rewrite first_word.
Qed.

(** What is no notification the client knows. *)
Lemma parse_other k t :
  forallb is_keyword_char (bs k) = true -> Forall (fun k' => bs k <> bs k') NOTIFICATIONS -> tail_ok t ->
  parse_line (line_of k t) = Some Ignored.
Proof.
  intros Hk Hn [Hv Ht]. assert (Hp : forall k', In k' NOTIFICATIONS -> strip_prefix (37 :: bs k' ++ [32]) (line_of k t) = None).
  { intros k' Hin. destruct (strip_prefix _ _) as [r|] eqn:E; [|done]. exfalso. apply strip_prefix_Some in E. unfold line_of in E.
    injection E as E. rewrite <- app_assoc in E. rewrite Forall_forall in Hn. apply (Hn k'); [by apply list_elem_of_In|].
    apply (f_equal take_keyword) in E. rewrite take_keyword_app in E by done. rewrite E. apply take_keyword_app; [|right; by eexists].
    clear -Hin. revert k' Hin. by apply List.Forall_forall; repeat constructor. }
  rewrite parse_line_keyword; [|done|done|done|apply (Hp "output"); cbn; tauto|apply (Hp "extended-output"); cbn; tauto].
  unfold parse_keyword. cbv zeta. repeat match goal with |- context [beq (bs k) (bs ?s)] =>
    let H := fresh in assert (H : beq (bs k) (bs s) = false) by (apply not_true_iff_false; rewrite beq_true; rewrite Forall_forall in Hn; apply Hn; apply list_elem_of_In; cbn; tauto);
    rewrite H; clear H end.
  done.
Qed.

(** The messages of the protocol that a line can stand for. *)
Definition message_ok (m : ControlMessage) : Prop :=
  match m with
  | Begin i | End i | Error i => block_ok i
  | Output p d => id_ok p /\ bytes_ok d
  | ExtendedOutput p a d => id_ok p /\ urange 64 a /\ bytes_ok d
  | LayoutChange w l v f => id_ok w /\ cell_wf l /\ cell_wf v /\ (f = [] \/ word_ok f)
  | WindowAdd w | WindowClose w | SessionChanged w | SessionWindowChanged w | SessionRenamed w
  | PaneExited w | PaneModeChanged w | Pause w | Continue w => id_ok w
  | WindowRenamed w n => id_ok w /\ utf8_valid n = true
  | WindowPaneChanged w p => id_ok w /\ id_ok p
  | SessionsChanged | ClientSessionChanged | Ignored => True
  | ClientDetached t | ConfigError t | Message t => text_ok t
  | Exit None => True
  | Exit (Some t) => text_ok t /\ t <> []
  end.

(** Every message has a line. *)
Lemma message_line esc m : message_ok m -> exists line, control_line esc line m.
Proof.
  assert (Hs : id_ok (bs "$0")) by (split; [by right; right|vm_compute; repeat constructor; done]).
  destruct m as [i|i|i|p d|p a d|w l v f|w|w|w n|w p|p|p|s|w|s| | |t|p|p|[t|]|t|t|]; cbn [message_ok]; intros H;
    repeat match goal with H : _ /\ _ |- _ => destruct H end.
  - eexists. by apply line_begin.
  - eexists. by apply line_end.
  - eexists. by apply line_error.
  - eexists. by apply line_output.
  - eexists. by apply (line_extended esc p a []).
  - match goal with H : f = [] \/ _ |- _ => destruct H as [->|] end; eexists.
    + apply (line_layout_no_flags esc w [] l [] v); done || by apply List.Forall_nil.
    + apply (line_layout esc w [] l [] v f []); done || (by apply List.Forall_nil) || apply tail_nil.
  - eexists. by apply (line_window_add esc "window-add" w []); [left|..].
  - eexists. by apply (line_window_close esc "window-close" w []); [left|..].
  - eexists. by apply line_window_renamed.
  - eexists. by apply (line_window_pane esc w p []).
  - eexists. by apply (line_pane_exited esc p []).
  - eexists. by apply (line_pane_mode esc p []).
  - eexists. by apply (line_session_changed esc s []).
  - eexists. by apply (line_session_window esc (bs "$0") w []).
  - eexists. by apply (line_session_renamed esc s []).
  - eexists. by apply (line_sessions_changed esc []).
  - eexists. by apply (line_client_session esc []).
  - eexists. by apply line_client_detached.
  - eexists. by apply (line_pause esc p []).
  - eexists. by apply (line_continue esc p []).
  - eexists. by apply line_exit_reason.
  - eexists. by apply line_exit.
  - eexists. by apply line_config_error.
  - eexists. by apply line_message.
  - eexists. apply (line_other esc "paste-buffer-changed" []); [done| |done]. by repeat constructor.
Qed.


Lemma block_id_tokens k tail :
  forallb is_keyword_char (bs k) = true -> (tail = [] \/ exists t, tail = 32 :: t) ->
  length (split_whitespace tail) <> 3%nat -> parse_block_id (line_of k tail) = None.
Proof.
  intros Hk%keyword_graph Ht Hl. unfold parse_block_id, line_of. change (37 :: bs k ++ tail) with ((37 :: bs k) ++ tail).
  assert (Hg : Forall graph (37 :: bs k)) by (apply Forall_cons; split; [by unfold graph|done]).
  destruct Ht as [->|[t ->]].
  - by rewrite app_nil_r, split_whitespace_last.
  - rewrite split_whitespace_word by done. cbn [drop]. rewrite split_whitespace_space in Hl.
    by destruct (split_whitespace t) as [|? [|? [|? [|? ?]]]].
Qed.

(** What is not a notification is not taken for one: a line that does not start with
    a percent sign is refused, and [%begin], [%end] and [%error] are only accepted with
    exactly three numbers after them. *)
Theorem control_line_rejects line :
  (hd 0 line <> 37 -> parse_line line = None)
  /\ (forall k, k ∈ ["begin"; "end"; "error"] -> forall tail,
      (tail = [] \/ exists t, tail = 32 :: t) -> utf8_valid tail = true ->
      length (split_whitespace tail) <> 3%nat -> parse_line (line_of k tail) = None).
Proof.
  split.
  - intros Hh. unfold parse_line.
    assert (Hp : forall p s, hd 0 s <> 37 -> strip_prefix (37 :: p) s = None).
    { intros p [|b s] Hb; [done|]. cbn [strip_prefix hd] in *. by rewrite (proj2 (Z.eqb_neq 37 b)) by lia. }
    change (bs "%output ") with (37 :: bs "output "). change (bs "%extended-output ") with (37 :: bs "extended-output ").
    rewrite !Hp by done. cbn zeta. rewrite Hp; [done|]. destruct line as [|b t]; [done|]. cbn [hd from_utf8_lossy] in *.
    repeat (case_match; try done).
  - intros k Hk tail Ht Hv Hl.
    repeat (apply elem_of_cons in Hk as [->|Hk] || (apply elem_of_nil in Hk; done));
      (rewrite parse_line_keyword; [|reflexivity|done|done|by destruct Ht as [->|[t ->]]..]).
    + change (parse_keyword (bs "begin") ?l) with (Begin <$> parse_block_id l). by rewrite block_id_tokens.
    + change (parse_keyword (bs "end") ?l) with (End <$> parse_block_id l). by rewrite block_id_tokens.
    + change (parse_keyword (bs "error") ?l) with (Error <$> parse_block_id l). by rewrite block_id_tokens.
Qed.

(** ** Witnesses *)


Lemma control_line_rejects_witness :
  parse_line (bs "$ ls") = None /\ parse_line (line_of "begin" (bs " 1 2")) = None.
Proof.
  split.
  - apply (control_line_rejects (bs "$ ls")). vm_compute. done.
  - apply (control_line_rejects []); [left|right; by eexists|reflexivity|vm_compute; done].
Defined.
