(* ===== verification/TmuxInput.v ===== *)
(** * tmux pane input

    [src/crates/nyaterm-transport/src/tmux/input.rs]: input for a pane is cut into literal
    runs and named keys for [send-keys], with bracketed paste tracked across flushes, and
    the worker limits each turn without cutting a key. A slice from an index is a suffix of
    the input. *)

From stdpp Require Import base option list numbers strings.
From Stdlib Require Import ZArith Lia.
From S2P Require Import Prelude RustStr RustText.

Local Open Scope Z_scope.
Local Open Scope rust_scope.

Inductive InputSegment := Literal (data : bytes) | Key (name : bytes).

(** ** Key sequences *)

Definition modifier_prefix (param : option Z) : option bytes :=
  match param with
  | None => Some []
  | Some p =>
    if p =? 1 then Some [] else if p =? 2 then Some (bs "S-") else if p =? 3 then Some (bs "M-")
    else if p =? 4 then Some (bs "M-S-") else if p =? 5 then Some (bs "C-") else if p =? 6 then Some (bs "C-S-")
    else if p =? 7 then Some (bs "C-M-") else if p =? 8 then Some (bs "C-M-S-") else None
  end.

(** The letters of SS3 and CSI cursor and function keys, the same table twice in the
    source. *)
Definition csi_letter_key (b : Z) : option bytes :=
  if b =? 65 then Some (bs "Up") else if b =? 66 then Some (bs "Down") else if b =? 67 then Some (bs "Right")
  else if b =? 68 then Some (bs "Left") else if b =? 72 then Some (bs "Home") else if b =? 70 then Some (bs "End")
  else if b =? 80 then Some (bs "F1") else if b =? 81 then Some (bs "F2") else if b =? 82 then Some (bs "F3")
  else if b =? 83 then Some (bs "F4") else None.

Definition csi_tilde_key (n : Z) : option bytes :=
  if (n =? 1) || (n =? 7) then Some (bs "Home") else if n =? 2 then Some (bs "IC") else if n =? 3 then Some (bs "DC")
  else if (n =? 4) || (n =? 8) then Some (bs "End") else if n =? 5 then Some (bs "PPage")
  else if n =? 6 then Some (bs "NPage") else if n =? 11 then Some (bs "F1") else if n =? 12 then Some (bs "F2")
  else if n =? 13 then Some (bs "F3") else if n =? 14 then Some (bs "F4") else if n =? 15 then Some (bs "F5")
  else if n =? 17 then Some (bs "F6") else if n =? 18 then Some (bs "F7") else if n =? 19 then Some (bs "F8")
  else if n =? 20 then Some (bs "F9") else if n =? 21 then Some (bs "F10") else if n =? 23 then Some (bs "F11")
  else if n =? 24 then Some (bs "F12") else None.

Definition is_alphabetic (b : Z) : bool := between 65 90 b || between 97 122 b.

(** Parameter and intermediate bytes, and what follows them. *)
Fixpoint csi_params (s : bytes) : bytes * bytes :=
  match s with
  | b :: s' => if between 32 63 b then let r := csi_params s' in (b :: r.1, r.2) else ([], s)
  | [] => ([], [])
  end.

Definition digits_or_semicolon (b : Z) : bool := between 48 57 b || (b =? 59).

(** The name of [CSI params final]. *)
Definition csi_key (params : bytes) (final : Z) : option bytes :=
  if negb (forallb digits_or_semicolon params) then None
  else
    let fields := split 59 params in
    first ← match params with [] => Some None | _ => f ← hd_error fields; Some <$> parse_uint 32 10 f end;
    second ← match fields with _ :: f :: _ => Some <$> parse_uint 32 10 f | _ => Some None end;
    if (2 <? length fields)%nat then None
    else
      prefix ← modifier_prefix second;
      if (final =? 90) && match params with [] => true | _ => false end then Some (bs "BTab")
      else if (final =? 82) && match params with [] => false | _ => true end then None
      else if is_alphabetic final && (default 1 first =? 1) then (fun base => prefix ++ base) <$> csi_letter_key final
      else if final =? 126 then n ← first; (fun base => prefix ++ base) <$> csi_tilde_key n
      else None.

(** [key_at], on input that starts with ESC. *)
Definition key_at (data : bytes) : option (bytes * nat) :=
  match data with
  | _ :: b1 :: rest =>
    if b1 =? 79 then
      match rest with
      | b2 :: _ => (fun name => (name, 3%nat)) <$> csi_letter_key b2
      | [] => None
      end
    else if b1 =? 91 then
      match csi_params rest with
      | (params, final :: _) =>
        if between 64 126 final
        then (fun name => (name, (length params + 3)%nat)) <$> csi_key params final
        else None
      | _ => None
      end
    else None
  | _ => None
  end.

(** ** Batching *)

(** The [for] loop of [batch_len] over the indices from [index] to [last], [s] being the
    input from [index]. *)
Fixpoint batch_loop (n : nat) (index last : nat) (s : bytes) : nat :=
  match n with
  | O => last
  | S n' =>
    match s with
    | [] => last
    | b :: s' =>
      match (if b =? 27 then key_at (take 32 s) else None) with
      | Some (_, len) => if (last <? index + len)%nat then (index + len)%nat else batch_loop n' (S index) last s'
      | None => batch_loop n' (S index) last s'
      end
    end
  end.

Definition batch_len (data : bytes) (limit : nat) : nat :=
  let last := Nat.min (length data) limit in
  let start := (last - 32)%nat in
  batch_loop (last - start) start last (drop start data).

(** ** The parser *)

Record InputParser := mkInputParser { in_paste : bool; paste_marker_len : nat }.
Definition default_parser : InputParser := mkInputParser false 0.

Definition paste_start : bytes := [27; 91; 50; 48; 48; 126].
Definition paste_end : bytes := [27; 91; 50; 48; 49; 126].

(** Indexing past the marker would panic. *)
Definition track_paste_marker (s : InputParser) (byte : Z) : outcome InputParser :=
  let marker := if in_paste s then paste_end else paste_start in
  match marker !! paste_marker_len s with
  | None => Panic
  | Some m =>
    if byte =? m then
      let n := S (paste_marker_len s) in
      Ret (if (n =? length marker)%nat then mkInputParser (negb (in_paste s)) 0 else mkInputParser (in_paste s) n)
    else Ret (mkInputParser (in_paste s) (if byte =? 27 then 1%nat else 0%nat))
  end.

Definition flush (lit : bytes) : list InputSegment := match lit with [] => [] | _ => [Literal lit] end.

(** The loop of [split_input]: [skip] bytes of the last key are left, [lit] is the literal
    run since [literal_start]. *)
Fixpoint split_loop (skip : nat) (lit : bytes) (s : InputParser) (data : bytes)
    : outcome (InputParser * list InputSegment) :=
  match data with
  | [] => Ret (s, flush lit)
  | b :: rest =>
    match skip with
    | S k => split_loop k lit s rest
    | O =>
      match (if negb (in_paste s) && (b =? 27) then key_at data else None) with
      | Some (name, len) =>
        r <-! split_loop (len - 1) [] (mkInputParser (in_paste s) 0) rest;
        Ret (r.1, flush lit ++ Key name :: r.2)
      | None =>
        s' <-! track_paste_marker s b;
        split_loop 0 (lit ++ [b]) s' rest
      end
    end
  end.

Definition split_input (s : InputParser) (data : bytes) : outcome (InputParser * list InputSegment) :=
  split_loop 0 [] s data.

(** ** Examples from the tests of the source *)

Example keys_map :
  split_input default_parser (bs "a" ++ [27; 91; 70] ++ bs "b" ++ [27; 91; 49; 59; 53; 67])
  = Ret (default_parser, [Literal (bs "a"); Key (bs "End"); Literal (bs "b"); Key (bs "C-Right")]).
Proof. vm_compute. reflexivity. Qed.

(** ** Key sequences are prefix-determined *)

Lemma csi_params_app s : (csi_params s).1 ++ (csi_params s).2 = s.
Proof. induction s as [|b s IH]; cbn; [done|]. destruct (between 32 63 b); cbn; [by f_equal|done]. Qed.

Lemma csi_params_spec p f s :
  Forall (fun b => between 32 63 b = true) p -> between 32 63 f = false -> csi_params (p ++ f :: s) = (p, f :: s).
Proof. intros Hp Hf. induction Hp as [|b p Hb Hp IH]; cbn; [by rewrite Hf|]. rewrite Hb. by rewrite IH. Qed.

Lemma csi_params_inv s p f t :
  csi_params s = (p, f :: t) ->
  s = p ++ f :: t /\ Forall (fun b => between 32 63 b = true) p /\ between 32 63 f = false.
Proof.
  intros H. split_and!.
  - rewrite <- (csi_params_app s), H. done.
  - revert p f t H. induction s as [|b s IH]; intros p f t; cbn; [by intros [= <- _]|].
    destruct (between 32 63 b) eqn:E; [|by intros [= <- _]].
    destruct (csi_params s) as [p' t']. cbn. intros [= <- ->]. constructor; [done|]. by eapply IH.
  - revert p f t H. induction s as [|b s IH]; intros p f t; cbn; [done|].
    destruct (between 32 63 b) eqn:E; [|by intros [= _ <- _]].
    destruct (csi_params s) as [p' t']. cbn. intros [= _ ->]. by eapply IH.
Qed.

(** What a key sequence is: two introducer bytes, parameters, a final byte. *)
Lemma key_at_inv data name len :
  key_at data = Some (name, len) ->
  exists b0 k s, data = (b0 :: k) ++ s /\ len = S (length k) /\ (2 <= length k)%nat
    /\ Forall (fun b => b <> 27) k /\ forall t, key_at ((b0 :: k) ++ t) = Some (name, len).
Proof.
  destruct data as [|b0 [|b1 rest]]; cbn [key_at]; [done..|]. destruct (b1 =? 79) eqn:E1.
  { destruct rest as [|b2 rest]; [done|]. destruct (csi_letter_key b2) as [nm|] eqn:Ek; cbn; [|done]. intros [= -> <-].
    bool_hyps. subst b1. exists b0, [79; b2], rest. split_and!; try done.
    - apply Forall_cons. split; [lia|]. apply Forall_cons. split; [|by constructor]. intros ->. done.
    - intros t. cbn. by rewrite Ek. }
  destruct (b1 =? 91) eqn:E2; [|done]. destruct (csi_params rest) as [p [|f t]] eqn:Ec; [done|].
  apply csi_params_inv in Ec as (-> & Hp & Hf).
  destruct (between 64 126 f) eqn:Eb; [|done]. destruct (csi_key p f) as [nm|] eqn:Ek; cbn; [|done]. intros [= -> <-].
  bool_hyps. subst b1. exists b0, (91 :: p ++ [f]), t. split_and!.
  - cbn. by rewrite <- app_assoc.
  - cbn. rewrite length_app. cbn. lia.
  - cbn. rewrite length_app. cbn. lia.
  - apply Forall_cons. split; [lia|]. apply Forall_app. split.
    + eapply Forall_impl; [exact Hp|]. intros b Hb ->. done.
    + apply Forall_cons. split; [by intros ->|by constructor].
  - intros u. cbn [app key_at Z.eqb Pos.eqb]. rewrite <- app_assoc. cbn [app].
    rewrite csi_params_spec by done. by rewrite Eb, Ek.
Qed.

Lemma key_at_app a b name len : key_at a = Some (name, len) -> key_at (a ++ b) = Some (name, len).
Proof. intros (b0 & k & s & -> & _ & _ & _ & H)%key_at_inv. by rewrite <- app_assoc. Qed.

Lemma key_at_take data name len :
  key_at data = Some (name, len) -> (len <= length data)%nat /\ key_at (take len data) = Some (name, len).
Proof.
  intros (b0 & k & s & -> & -> & _ & _ & H)%key_at_inv. rewrite length_app. split; [cbn; lia|].
  rewrite take_app_length' by done. by rewrite <- (app_nil_r (b0 :: k)).
Qed.

Lemma key_at_pos data name len : key_at data = Some (name, len) -> (3 <= len)%nat.
Proof. intros (b0 & k & s & _ & -> & Hk & _)%key_at_inv. lia. Qed.

(** A key has no escape byte after its first byte. *)
Lemma key_at_inner data name len i :
  key_at data = Some (name, len) -> (0 < i < len)%nat -> data !! i <> Some 27.
Proof.
  intros (b0 & k & s & -> & -> & _ & Hk & _)%key_at_inv Hi. rewrite lookup_app_l by (cbn; lia).
  destruct i as [|i]; [lia|]. cbn. intros Hl. rewrite Forall_lookup in Hk. by apply (Hk i 27).
Qed.

(** ** The parser does not panic and loses nothing *)

Definition parser_ok (s : InputParser) : Prop := (paste_marker_len s < 6)%nat.

Lemma track_ok s b : parser_ok s -> exists s', track_paste_marker s b = Ret s' /\ parser_ok s'.
Proof.
  intros Hs. unfold track_paste_marker. set (marker := if in_paste s then paste_end else paste_start).
  assert (Hl : length marker = 6%nat) by (unfold marker; by destruct (in_paste s)). unfold parser_ok in *.
  destruct (lookup_lt_is_Some_2 marker (paste_marker_len s)) as [m ->]; [lia|]. rewrite Hl.
  destruct (b =? m); [|eexists; split; [done|]; cbn; destruct (b =? 27); lia].
  destruct (_ =? 6)%nat eqn:E; eexists; (split; [done|]); cbn; [lia|]. apply Nat.eqb_neq in E. lia.
Qed.

(** What a segment stands for, byte by byte: pieces of literal runs and keys. *)
Inductive item := IByte (b : Z) | IKey (name : bytes).
Definition segment_items (g : InputSegment) : list item :=
  match g with Literal d => IByte <$> d | Key n => [IKey n] end.
Definition flat (segs : list InputSegment) : list item := segs ≫= segment_items.

(** [split_loop] without the grouping into runs. *)
Fixpoint items_loop (skip : nat) (s : InputParser) (data : bytes) : outcome (InputParser * list item) :=
  match data with
  | [] => Ret (s, [])
  | b :: rest =>
    match skip with
    | S k => items_loop k s rest
    | O =>
      match (if negb (in_paste s) && (b =? 27) then key_at data else None) with
      | Some (name, len) =>
        r <-! items_loop (len - 1) (mkInputParser (in_paste s) 0) rest; Ret (r.1, IKey name :: r.2)
      | None => s' <-! track_paste_marker s b; r <-! items_loop 0 s' rest; Ret (r.1, IByte b :: r.2)
      end
    end
  end.

Lemma flat_flush lit : flat (flush lit) = IByte <$> lit.
Proof. destruct lit; [done|]. unfold flat. cbn. by rewrite app_nil_r. Qed.

Lemma flat_app a b : flat (a ++ b) = flat a ++ flat b.
Proof. apply bind_app. Qed.

Lemma items_loop_total data skip s :
  parser_ok s -> exists s' its, items_loop skip s data = Ret (s', its) /\ parser_ok s'.
Proof.
  revert skip s. induction data as [|b rest IH]; intros skip s Hs; cbn [items_loop]; [by eexists _, _|].
  destruct skip as [|k]; [|by apply IH].
  destruct (if negb (in_paste s) && (b =? 27) then key_at (b :: rest) else None) as [[name len]|].
  - destruct (IH (len - 1)%nat (mkInputParser (in_paste s) 0)) as (s' & its & -> & Hs'); [unfold parser_ok; cbn; lia|].
    cbn [obind]. by eexists _, _.
  - destruct (track_ok s b Hs) as (s1 & -> & Hs1). cbn [obind].
    destruct (IH 0%nat s1 Hs1) as (s' & its & -> & Hs'). cbn [obind]. by eexists _, _.
Qed.

Lemma split_loop_items data skip lit s s' its :
  items_loop skip s data = Ret (s', its) ->
  exists segs, split_loop skip lit s data = Ret (s', segs) /\ flat segs = (IByte <$> lit) ++ its.
Proof.
  revert skip lit s its. induction data as [|b rest IH]; intros skip lit s its; cbn [items_loop split_loop].
  - intros [= -> <-]. eexists. split; [done|]. by rewrite flat_flush, app_nil_r.
  - destruct skip as [|k]; [|by apply IH].
    destruct (if negb (in_paste s) && (b =? 27) then key_at (b :: rest) else None) as [[name len]|].
    + destruct (items_loop (len - 1) _ rest) as [[s1 i1]|] eqn:E; cbn [obind]; [|done]. intros [= -> <-].
      destruct (IH _ [] _ _ E) as (segs & -> & Hf). cbn [obind]. eexists. split; [done|].
      rewrite flat_app, flat_flush. cbn in *. unfold flat in *. by rewrite Hf.
    + destruct (track_paste_marker s b) as [s1|]; cbn [obind]; [|done].
      destruct (items_loop 0 s1 rest) as [[s2 i2]|] eqn:E; cbn [obind]; [|done]. intros [= -> <-].
      destruct (IH _ (lit ++ [b]) _ _ E) as (segs & -> & Hf). eexists. split; [done|].
      rewrite Hf, fmap_app, <- app_assoc. done.
Qed.

Lemma items_loop_skip k s data : items_loop k s data = items_loop 0 s (drop k data).
Proof.
  revert k. induction data as [|b rest IH]; intros k; [by destruct k|]. destruct k as [|k]; [done|]. cbn. apply IH.
Qed.

(** The input bytes an item was made of. *)
Definition item_source (i : item) (src : bytes) : Prop :=
  match i with IByte b => src = [b] | IKey n => key_at src = Some (n, length src) end.

Lemma items_sources data s s' its :
  items_loop 0 s data = Ret (s', its) -> exists srcs, concat srcs = data /\ Forall2 item_source its srcs.
Proof.
  remember (length data) as n eqn:Hn. revert data s its Hn.
  induction n as [n IH] using lt_wf_ind. intros data s its ->. destruct data as [|b rest]; cbn [items_loop].
  { intros [= _ <-]. exists []. by split. }
  destruct (if negb (in_paste s) && (b =? 27) then key_at (b :: rest) else None) as [[name len]|] eqn:Ek.
  - assert (Hk : key_at (b :: rest) = Some (name, len)) by (by destruct (negb _ && _)).
    destruct (key_at_take _ _ _ Hk) as [Hlen Ht]. pose proof (key_at_pos _ _ _ Hk).
    rewrite items_loop_skip. destruct (items_loop 0 _ _) as [[s1 i1]|] eqn:E; cbn [obind]; [|done]. intros [= -> <-].
    destruct (IH (length (drop (len - 1) rest))) with (data := drop (len - 1) rest) (s := mkInputParser (in_paste s) 0)
      (its := i1) as (srcs & Hc & Hf); [rewrite length_drop; cbn; lia|done|done|].
    exists (take len (b :: rest) :: srcs). split.
    + cbn [concat]. rewrite Hc. destruct len as [|len]; [lia|]. cbn. rewrite Nat.sub_0_r. by rewrite take_drop.
    + constructor; [|done]. cbn [item_source]. rewrite Ht, length_take, Nat.min_l by done. done.
  - destruct (track_paste_marker s b) as [s1|]; cbn [obind]; [|done].
    destruct (items_loop 0 s1 rest) as [[s2 i2]|] eqn:E; cbn [obind]; [|done]. intros [= -> <-].
    destruct (IH (length rest)) with (data := rest) (s := s1) (its := i2) as (srcs & Hc & Hf); [cbn; lia|done|done|].
    exists ([b] :: srcs). split; [cbn; by rewrite Hc|]. by constructor.
Qed.

(** Nothing typed is lost, reordered or invented. From any state of the parser,
    [split_input] returns; the literal bytes and keys it yields are, in order, pieces of
    the input that together make up exactly the input, and each key stands for a complete
    key sequence. *)
Theorem split_input_lossless s data :
  parser_ok s ->
  exists s' segs srcs, split_input s data = Ret (s', segs) /\ parser_ok s'
    /\ concat srcs = data /\ Forall2 item_source (flat segs) srcs.
Proof.
  intros Hs. destruct (items_loop_total data 0 s Hs) as (s' & its & Hi & Hs').
  destruct (split_loop_items data 0 [] s s' its Hi) as (segs & Hseg & Hf).
  destruct (items_sources data s s' its Hi) as (srcs & Hc & Hall).
  exists s', segs, srcs. rewrite Hf. by split_and!.
Qed.

(** ** Cutting the input between keys *)

Lemma items_loop_app a b s :
  (forall i name len, (i < length a)%nat -> (a ++ b) !! i = Some 27 -> key_at (drop i (a ++ b)) = Some (name, len) ->
     (i + len <= length a)%nat) ->
  items_loop 0 s (a ++ b) = (r <-! items_loop 0 s a; q <-! items_loop 0 r.1 b; Ret (q.1, r.2 ++ q.2)).
Proof.
  remember (length a) as n eqn:Hn. revert a s Hn. induction n as [n IH] using lt_wf_ind. intros a s -> Hcut.
  destruct a as [|x a]; [cbn; by destruct (items_loop 0 s b) as [[]|]|]. cbn [app items_loop].
  destruct (negb (in_paste s) && (x =? 27)) eqn:Ex.
  - assert (x = 27) as -> by (apply andb_true_iff in Ex as [_ ?]; by bool_hyps).
    change (27 :: a ++ b) with ((27 :: a) ++ b).
    destruct (key_at ((27 :: a) ++ b)) as [[name len]|] eqn:Ek.
    + assert (Hl : (len <= S (length a))%nat) by (apply (Hcut 0%nat name len); [cbn [length]; lia|done|exact Ek]).
      assert (Ea : key_at (27 :: a) = Some (name, len)).
      { apply key_at_take in Ek as [_ Ek]. rewrite take_app_le in Ek by (cbn; lia).
        rewrite <- (take_drop len (27 :: a)). by apply key_at_app. }
      rewrite Ea. pose proof (key_at_pos _ _ _ Ea). rewrite (items_loop_skip _ _ (a ++ b)), (items_loop_skip _ _ a), drop_app_le by lia.
      rewrite IH with (m := length (drop (len - 1) a)); [|rewrite length_drop; cbn; lia|done|].
      { destruct (items_loop 0 _ (drop (len - 1) a)) as [[s1 i1]|]; [|done]. cbn [obind fst snd].
        by destruct (items_loop 0 s1 b) as [[s2 i2]|]. }
      intros i nm ln Hi H27 Hk. rewrite length_drop in *.
      assert (Hd : drop i (drop (len - 1) a ++ b) = drop (len + i) ((27 :: a) ++ b)).
      { rewrite <- drop_app_le by lia. rewrite drop_drop. replace (len + i)%nat with (S (len - 1 + i)) by lia. done. }
      specialize (Hcut (len + i)%nat nm ln). cbn [length] in Hcut. rewrite <- Hd in Hcut.
      assert ((len + i + ln <= S (length a))%nat); [apply Hcut; [lia| |done]|lia].
      rewrite <- H27. replace (len + i)%nat with (S (len - 1 + i)) by lia. cbn.
      rewrite <- drop_app_le, lookup_drop by lia. done.
    + assert (key_at (27 :: a) = None) as ->.
      { destruct (key_at (27 :: a)) as [[nm ln]|] eqn:E; [|done]. apply (key_at_app _ b) in E. congruence. }
      destruct (track_paste_marker s 27) as [s1|]; cbn [obind]; [|done]. rewrite IH with (m := length a); [|cbn; lia|done|].
      { destruct (items_loop 0 s1 a) as [[s2 i2]|]; [|done]. cbn [obind fst snd]. by destruct (items_loop 0 s2 b) as [[]|]. }
      intros i nm ln Hi H27 Hk. cut (S i + ln <= S (length a))%nat; [lia|]. apply (Hcut (S i) nm ln); [cbn [length]; lia|done|exact Hk].
  - destruct (track_paste_marker s x) as [s1|]; cbn [obind]; [|done]. rewrite IH with (m := length a); [|cbn; lia|done|].
    { destruct (items_loop 0 s1 a) as [[s2 i2]|]; [|done]. cbn [obind fst snd]. by destruct (items_loop 0 s2 b) as [[]|]. }
    intros i nm ln Hi H27 Hk. cut (S i + ln <= S (length a))%nat; [lia|]. apply (Hcut (S i) nm ln); [cbn [length]; lia|done|exact Hk].
Qed.

(** Every key of the input fits the window of [batch_len]. *)
Definition keys_short (data : bytes) : bool :=
  forallb (fun i => match key_at (drop i data) with Some (_, len) => (len <=? 32)%nat | None => true end)
    (seq 0 (length data)).

Lemma keys_short_spec data i name len :
  keys_short data = true -> key_at (drop i data) = Some (name, len) -> (len <= 32)%nat.
Proof.
  intros H Hk. unfold keys_short in H. rewrite forallb_forall in H.
  assert (Hi : (i < length data)%nat).
  { destruct (decide (i < length data)%nat) as [|n]; [done|]. rewrite drop_ge in Hk by lia. done. }
  specialize (H i). rewrite Hk in H. apply Nat.leb_le, H, in_seq. lia.
Qed.

Lemma drop_lookup_cons {A} (l : list A) i x r : drop i l = x :: r -> l !! i = Some x /\ drop (S i) l = r.
Proof.
  intros H. split.
  - pose proof (lookup_drop l i 0) as Hl. rewrite H, Nat.add_0_r in Hl. done.
  - replace (S i) with (i + 1)%nat by lia. rewrite <- drop_drop, H. done.
Qed.

(** What the loop of [batch_len] finds: a key over the limit, or none. *)
Lemma batch_loop_spec data n index last :
  (index + n)%nat = last ->
  let p := batch_loop n index last (drop index data) in
  (p = last /\ forall i name len, (index <= i < last)%nat -> data !! i = Some 27 ->
     key_at (take 32 (drop i data)) = Some (name, len) -> (i + len <= last)%nat)
  \/ exists i name len, ((index <= i < last) /\ (last < p))%nat /\ data !! i = Some 27
     /\ key_at (take 32 (drop i data)) = Some (name, len) /\ p = (i + len)%nat.
Proof.
  revert index. induction n as [|n IH]; intros index Hn p; subst p.
  { left. split; [done|]. intros; lia. }
  cbn [batch_loop]. destruct (drop index data) as [|b r] eqn:Ed.
  { left. split; [done|]. intros i name len Hi H27 _. apply lookup_lt_Some in H27.
    assert (length (drop index data) = 0%nat) as H0 by (by rewrite Ed). rewrite length_drop in H0. lia. }
  destruct (drop_lookup_cons _ _ _ _ Ed) as [Hb Hr]. specialize (IH (S index) ltac:(lia)). cbn zeta in IH. rewrite Hr in IH.
  assert (Hskip : (forall name len, b = 27 -> key_at (take 32 (b :: r)) = Some (name, len) -> (index + len <= last)%nat) ->
    (batch_loop n (S index) last r = last /\ forall i name len, (index <= i < last)%nat -> data !! i = Some 27 ->
     key_at (take 32 (drop i data)) = Some (name, len) -> (i + len <= last)%nat)
    \/ exists i name len, ((index <= i < last) /\ (last < batch_loop n (S index) last r))%nat /\ data !! i = Some 27
     /\ key_at (take 32 (drop i data)) = Some (name, len) /\ batch_loop n (S index) last r = (i + len)%nat).
  { intros H0. destruct IH as [[Hp IH]|(i & name & len & Hi & H27 & Hk & Hp)]; [left|right; exists i, name, len; split_and!; (done || lia)].
    split; [done|]. intros i name len Hi H27 Hk. destruct (decide (i = index)) as [->|]; [|apply (IH i name len); (done || lia)].
    rewrite Ed in Hk. apply (H0 name len); [congruence|done]. }
  destruct (b =? 27) eqn:E27; [|apply Hskip; bool_hyps; intros; lia]. bool_hyps. subst b.
  destruct (key_at (take 32 (27 :: r))) as [[name len]|] eqn:Ek; [|by apply Hskip].
  destruct (last <? index + len)%nat eqn:El; bool_hyps; [|apply Hskip; intros ? ? _ [= <- <-]; done].
  right. exists index, name, len. rewrite Ed. split_and!; (done || lia).
Qed.

(** The limit never falls inside a key. *)
Lemma batch_len_cut data limit :
  keys_short data = true ->
  let p := batch_len data limit in
  (Nat.min (length data) limit <= p <= length data)%nat
  /\ forall i name len, (i < p)%nat -> data !! i = Some 27 -> key_at (drop i data) = Some (name, len) -> (i + len <= p)%nat.
Proof.
  intros Hs p. subst p. unfold batch_len. set (last := Nat.min (length data) limit). set (start := (last - 32)%nat).
  assert (Hst : start = (last - 32)%nat) by done. assert (Hla : (last <= length data)%nat) by (subst last; lia). clearbody start last.
  assert (Ht : forall i name len, key_at (drop i data) = Some (name, len) -> key_at (take 32 (drop i data)) = Some (name, len)).
  { intros i name len Hk. pose proof (keys_short_spec _ _ _ _ Hs Hk). apply key_at_take in Hk as [_ Hk].
    replace 32%nat with (len + (32 - len))%nat by lia. rewrite <- take_take_drop. by apply key_at_app. }
  destruct (batch_loop_spec data (last - start) start last) as [[-> H]|(i0 & n0 & l0 & [Hi0 Hp] & H0 & Hk0 & Hp0)]; [lia| |].
  - split; [lia|]. intros i name len Hi H27 Hk. destruct (decide (start <= i)%nat); [eauto with lia|].
    pose proof (keys_short_spec _ _ _ _ Hs Hk). lia.
  - rewrite Hp0 in *. assert (Hk0' : key_at (drop i0 data) = Some (n0, l0)).
    { rewrite <- (take_drop 32 (drop i0 data)). by apply key_at_app. }
    destruct (key_at_take _ _ _ Hk0') as [Hl0 _]. rewrite length_drop in Hl0. split; [lia|].
    intros i name len Hi H27 Hk. destruct (decide (i = i0)) as [->|]; [by simplify_eq|].
    destruct (decide (i < i0)%nat).
    + destruct (decide (i + len <= i0)%nat); [lia|]. exfalso. apply (key_at_inner _ _ _ (i0 - i) Hk); [lia|].
      rewrite lookup_drop. replace (i + (i0 - i))%nat with i0 by lia. done.
    + exfalso. apply (key_at_inner _ _ _ (i - i0) Hk0'); [lia|].
      rewrite lookup_drop. replace (i0 + (i - i0))%nat with i by lia. done.
Qed.

(** The worker's byte limit is invisible. A turn that takes [batch_len] bytes makes
    progress and, when no key is longer than the 32 bytes it looks ahead, the parser
    classifies the two parts exactly as it would have classified the whole: same bytes and
    keys, same state afterwards. *)
Theorem batch_invisible s data limit :
  parser_ok s -> keys_short data = true ->
  let p := batch_len data limit in
  (Nat.min (length data) limit <= p <= length data)%nat
  /\ exists s1 g1 s2 g2 g, split_input s (take p data) = Ret (s1, g1) /\ split_input s1 (drop p data) = Ret (s2, g2)
    /\ split_input s data = Ret (s2, g) /\ flat g = flat g1 ++ flat g2.
Proof.
  intros Hs Hk p. destruct (batch_len_cut data limit Hk) as [Hp Hcut]. fold p in Hp, Hcut. split; [done|].
  destruct (items_loop_total (take p data) 0 s Hs) as (s1 & i1 & E1 & Hs1).
  destruct (items_loop_total (drop p data) 0 s1 Hs1) as (s2 & i2 & E2 & _).
  assert (E : items_loop 0 s data = Ret (s2, i1 ++ i2)).
  { rewrite <- (take_drop p data), items_loop_app.
    - rewrite E1. cbn [obind fst snd]. rewrite E2. done.
    - rewrite take_drop, length_take, Nat.min_l by lia. exact Hcut. }
  destruct (split_loop_items _ _ [] _ _ _ E1) as (g1 & H1 & F1), (split_loop_items _ _ [] _ _ _ E2) as (g2 & H2 & F2),
    (split_loop_items _ _ [] _ _ _ E) as (g & H & F).
  exists s1, g1, s2, g2, g. split_and!; try done. by rewrite F, F1, F2.
Qed.

(** ** Bracketed paste *)

Fixpoint has_infix (p s : bytes) : bool :=
  match strip_prefix p s with Some _ => true | None => match s with [] => false | _ :: s' => has_infix p s' end end.

Lemma has_infix_app p a s : has_infix p (a ++ p ++ s) = true.
Proof.
  induction a as [|x a IH]; cbn [app]; [|cbn [has_infix]; by destruct (strip_prefix p _)].
  pose proof (strip_prefix_app p s) as H. destruct (p ++ s); cbn [has_infix]; by rewrite H.
Qed.

(** Inside a paste that does not hold the end marker, every byte is literal: the bytes
    [pre] before end in the part of the marker the parser has matched. *)
Lemma paste_payload payload pre k rest :
  (k < 6)%nat -> (exists q, pre = q ++ take k paste_end) -> has_infix paste_end (pre ++ payload) = false ->
  exists k', (k' < 6)%nat /\ items_loop 0 (mkInputParser true k) (payload ++ rest)
    = (r <-! items_loop 0 (mkInputParser true k') rest; Ret (r.1, (IByte <$> payload) ++ r.2)).
Proof.
  revert pre k. induction payload as [|b payload IH]; intros pre k Hk [q Hq] Hno.
  { exists k. split; [done|]. cbn. by destruct (items_loop 0 _ rest) as [[]|]. }
  assert (Hstep : exists k1, (k1 < 6)%nat /\ track_paste_marker (mkInputParser true k) b = Ret (mkInputParser true k1)
    /\ exists q', pre ++ [b] = q' ++ take k1 paste_end).
  { unfold track_paste_marker. cbn [in_paste paste_marker_len].
    destruct (lookup_lt_is_Some_2 paste_end k) as [m Hm]; [done|]. rewrite Hm. destruct (b =? m) eqn:Eb; bool_hyps; [subst m|].
    - assert (Hpre : pre ++ [b] = q ++ take (S k) paste_end) by (rewrite (take_S_r _ _ _ Hm), Hq, app_assoc; done).
      destruct (S k =? length paste_end)%nat eqn:El; bool_hyps; [|exists (S k); split_and!; [cbn in El; lia|done|by exists q]].
      exfalso. rewrite El, firstn_all in Hpre. rewrite (cons_middle b pre payload), app_assoc, Hpre, <- app_assoc, has_infix_app in Hno. done.
    - destruct (b =? 27) eqn:E; bool_hyps; subst; [exists 1%nat|exists 0%nat]; (split_and!; [lia|done|]); [by eexists|].
      exists ((q ++ take k paste_end) ++ [b]). by rewrite app_nil_r. }
  destruct Hstep as (k1 & Hk1 & Ht & Hq'). rewrite (cons_middle b pre payload), app_assoc in Hno.
  destruct (IH (pre ++ [b]) k1 Hk1 Hq' Hno) as (k' & Hk' & E). exists k'. split; [done|].
  cbn [app items_loop in_paste negb andb]. rewrite Ht. cbn [obind]. rewrite E.
  by destruct (items_loop 0 (mkInputParser true k') rest) as [[]|].
Qed.

(** The start marker is not a key and opens the paste. *)
Lemma paste_opens rest :
  items_loop 0 default_parser (paste_start ++ rest)
  = (r <-! items_loop 0 (mkInputParser true 0) rest; Ret (r.1, (IByte <$> paste_start) ++ r.2)).
Proof.
  assert (Hk : key_at (paste_start ++ rest) = None) by (vm_compute; reflexivity). unfold paste_start, default_parser in *.
  cbn [app] in *. cbn [items_loop in_paste negb andb Z.eqb Pos.eqb]. rewrite Hk. cbn.
  by destruct (items_loop 0 _ rest) as [[]|].
Qed.

(** The end marker closes it whatever part of a marker came before. *)
Lemma paste_closes k rest :
  (k < 6)%nat ->
  items_loop 0 (mkInputParser true k) (paste_end ++ rest)
  = (r <-! items_loop 0 default_parser rest; Ret (r.1, (IByte <$> paste_end) ++ r.2)).
Proof.
  intros Hk. unfold paste_end. cbn [app items_loop in_paste negb andb].
  assert (track_paste_marker (mkInputParser true k) 27 = Ret (mkInputParser true 1)) as ->
    by (do 6 (destruct k as [|k]; [done|]); lia).
  cbn. by destruct (items_loop 0 _ rest) as [[]|].
Qed.

(** Pasted text is never typed as keys. Whatever the payload of a bracketed paste
    (key-shaped sequences and partial end markers included, short of the end marker
    itself), all its bytes and both markers are delivered literally, and classification
    resumes right after the end marker as if from the start. *)
Theorem paste_literal payload rest :
  has_infix paste_end payload = false ->
  exists s g g', split_input default_parser (paste_start ++ payload ++ paste_end ++ rest) = Ret (s, g)
    /\ split_input default_parser rest = Ret (s, g')
    /\ flat g = (IByte <$> (paste_start ++ payload ++ paste_end)) ++ flat g'.
Proof.
  intros Hno. destruct (items_loop_total rest 0 default_parser) as (s & its & E & _); [unfold parser_ok; cbn; lia|].
  destruct (paste_payload payload [] 0 (paste_end ++ rest)) as (k & Hk & Ep); [lia|by exists []|done|].
  assert (Ea : items_loop 0 default_parser (paste_start ++ payload ++ paste_end ++ rest)
    = Ret (s, (IByte <$> (paste_start ++ payload ++ paste_end)) ++ its)).
  { rewrite paste_opens, Ep, (paste_closes k rest Hk), E. cbn [obind fst snd]. rewrite !fmap_app, <- !app_assoc. done. }
  destruct (split_loop_items _ _ [] _ _ _ E) as (g' & H' & F'), (split_loop_items _ _ [] _ _ _ Ea) as (g & H & F).
  exists s, g, g'. split_and!; try done. by rewrite F, F'.
Qed.

(** A key spelled with more than 32 bytes is beyond the look-ahead, and can be cut. *)
Example batch_cuts_long_key :
  let key := [27; 91] ++ replicate 40 48 ++ [49; 65] in
  key_at key = Some (bs "Up", 44%nat) /\ batch_len key 20 = 20%nat
  /\ split_input default_parser key = Ret (default_parser, [Key (bs "Up")])
  /\ split_input default_parser (take 20 key) = Ret (default_parser, [Literal (take 20 key)]).
Proof. vm_compute. done. Qed.

(** ** Witnesses *)

Lemma split_input_lossless_witness :
  exists s' segs srcs, split_input (mkInputParser true 3) (bs "a" ++ [27; 91; 70]) = Ret (s', segs) /\ parser_ok s'
    /\ concat srcs = bs "a" ++ [27; 91; 70] /\ Forall2 item_source (flat segs) srcs.
Proof. apply (split_input_lossless (mkInputParser true 3)). unfold parser_ok. cbn. lia. Defined.

Lemma batch_invisible_witness :
  let data := replicate 250 120 ++ [27; 91; 49; 59; 53; 68] ++ bs "tail" in
  batch_len data 252 = 256%nat /\ (252 <= batch_len data 252 <= 260)%nat.
Proof.
  split; [vm_compute; done|].
  destruct (batch_invisible default_parser (replicate 250 120 ++ [27; 91; 49; 59; 53; 68] ++ bs "tail") 252) as [H _];
    [unfold parser_ok; cbn; lia|vm_compute; done|exact H].
Defined.

Lemma paste_literal_witness :
  exists s g g', split_input default_parser (paste_start ++ (bs "x" ++ [27; 91; 70; 27; 91; 50]) ++ paste_end ++ [27; 91; 72]) = Ret (s, g)
    /\ split_input default_parser [27; 91; 72] = Ret (s, g')
    /\ flat g = (IByte <$> (paste_start ++ (bs "x" ++ [27; 91; 70; 27; 91; 50]) ++ paste_end)) ++ flat g'.
Proof. apply (paste_literal (bs "x" ++ [27; 91; 70; 27; 91; 50]) [27; 91; 72]). vm_compute. reflexivity. Defined.
