(* ===== verification/TmuxHandshake.v ===== *)
(** * Confirming a tmux control client

    [src/crates/nyaterm-transport/src/tmux/handshake.rs]: before the output of a shell is taken
    for a tmux control client, its startup lines are checked ([Startup]) and a query with a
    fresh token has to be answered by exactly that token in a block of its own ([Probe],
    [verify]). The UUID of the token is an argument; the messages of the SSH channel and the
    deadline are the events of [verify]. *)

From stdpp Require Import base option list numbers strings.
From Stdlib Require Import ZArith Lia.
From S2P Require Import Prelude RustStr RustText TmuxControl.

Local Open Scope Z_scope.

#[export] Instance BlockId_eq_dec : EqDecision BlockId.
Proof. solve_decision. Defined.

Definition CONFIRM_MAX_BYTES : nat := Z.to_nat (512 * 1024).
Definition CONTROL_PREFIX : bytes := [27] ++ bs "P1000p".

(** [trim_end_matches('\r')]. *)
Fixpoint skip_cr (s : bytes) : bytes := match s with b :: s' => if b =? 13 then skip_cr s' else s | [] => [] end.
Definition trim_crs (s : bytes) : bytes := rev (skip_cr (rev s)).

(** ** The startup lines *)

Record Startup := mkStartup { st_block : option BlockId; st_completed : bool; st_session : bool }.

Definition default_startup : Startup := mkStartup None false false.

(** [None] rejects the candidate. *)
Definition startup_line (s : Startup) (line : bytes) : option (bool * Startup) :=
  if negb (utf8_valid line) then None
  else
    let ok s' := Some (st_completed s' && st_session s', s') in
    let message := parse_line (trim_crs line) in
    match message with
    | Some (Begin id) =>
      match st_block s with
      | None => if st_completed s then None else ok (mkStartup (Some id) false (st_session s))
      | Some _ => None
      end
    | Some (End id) => if bool_decide (st_block s = Some id) then ok (mkStartup None true (st_session s)) else None
    | Some (Error _) | Some (Exit _) => None
    | _ =>
      match st_block s, message with
      | Some _, _ => ok s
      | None, Some (SessionChanged session) =>
        digits ← strip_prefix [36] session;
        _ ← parse_uint 64 10 digits;
        ok (mkStartup None (st_completed s) true)
      | None, Some _ => ok s
      | None, None => None
      end
    end.

(** ** The probe *)

Inductive Progress := Pending | Confirmed (rest : bytes) | Rejected | Exited (rest : bytes) | LimitExceeded.

Definition Block : Type := option (BlockId * bool * nat).

Record Probe := mkProbe { token : bytes; command : bytes; raw : bytes; p_consumed : nat; p_block : Block }.

Definition new_probe (uuid startup : bytes) : Probe :=
  let t := bs "nyaterm_" ++ uuid in
  mkProbe t (bs "display-message -p '" ++ t ++ bs "'") startup (length startup) None.

(** How a line can settle the probe. *)
Inductive verdict := VConfirmed | VRejected | VExited.

Definition progress_of (v : verdict) (rest : bytes) : Progress :=
  match v with VConfirmed => Confirmed rest | VRejected => Rejected | VExited => Exited rest end.

Definition probe_line (token command : bytes) (block : Block) (bytes : bytes) : Block * option verdict :=
  if negb (utf8_valid bytes) then (block, Some VRejected)
  else
    let line := trim_crs bytes in
    let message := parse_line line in
    match message with
    | Some (Begin id) => match block with None => (Some (id, false, 0%nat), None) | Some _ => (block, Some VRejected) end
    | Some (End id) =>
      (None, Some (match block with
                   | Some (begin, true, 1%nat) => if bool_decide (begin = id) then VConfirmed else VRejected
                   | _ => VRejected
                   end))
    | Some (Exit _) => (block, Some VExited)
    | Some (Error _) => (block, Some VRejected)
    | _ =>
      match block, message with
      | Some (id, _, count), _ => (Some (id, beq line token, S count), None)
      | None, Some _ => (None, None)
      | None, None => if beq line command then (None, None) else (None, Some VRejected)
      end
    end.

(** The loop over complete lines; its fuel is one more than the bytes not yet read. *)
Fixpoint probe_loop (fuel : nat) (p : Probe) : Progress * Probe :=
  match fuel with
  | O => (Pending, p)
  | S fuel' =>
    let pending := drop (p_consumed p) (raw p) in
    match position 10 pending with
    | None => (Pending, p)
    | Some offset =>
      let next := (p_consumed p + offset + 1)%nat in
      let r := probe_line (token p) (command p) (p_block p) (take offset pending) in
      let p' := mkProbe (token p) (command p) (raw p) next r.1 in
      match r.2 with
      | Some v => (progress_of v (drop next (raw p)), p')
      | None => probe_loop fuel' p'
      end
    end
  end.

Definition probe_feed (p : Probe) (data : bytes) : Progress * Probe :=
  if (CONFIRM_MAX_BYTES - length (raw p) <? length data)%nat then (LimitExceeded, p)
  else
    let p' := mkProbe (token p) (command p) (raw p ++ data) (p_consumed p) (p_block p) in
    probe_loop (S (length (raw p'))) p'.

(** ** Verification *)

Inductive Failure := FRejected | FLimitExceeded | FTimeout | FWriteFailed | FChannelClosed | FExitStatus (status : Z).
Inductive Verification := VerConfirmed (rest : bytes) | VerExited (rest : bytes) | VerFailed (f : Failure).

(** What the channel delivers: [Data] and [ExtendedData]; the end of the stream, [Eof] and
    [Close]; other messages; and the deadline. *)
Inductive channel_event := Data (data : bytes) | ExitStatus (status : Z) | Closed | OtherMsg | Deadline.

Definition verification_of (p : Progress) : option Verification :=
  match p with
  | Pending => None
  | Confirmed rest => Some (VerConfirmed rest)
  | Exited rest => Some (VerExited rest)
  | Rejected => Some (VerFailed FRejected)
  | LimitExceeded => Some (VerFailed FLimitExceeded)
  end.

(** The wait loop: the outcome and the events not taken; [None] is still waiting. *)
Fixpoint verify_loop (p : Probe) (events : list channel_event) : option (Verification * list channel_event) :=
  match events with
  | [] => None
  | Data data :: events' =>
    let r := probe_feed p data in
    match verification_of r.1 with
    | Some v => Some (v, events')
    | None => verify_loop r.2 events'
    end
  | ExitStatus status :: events' => Some (VerFailed (FExitStatus status), events')
  | Closed :: events' => Some (VerFailed FChannelClosed, events')
  | OtherMsg :: events' => verify_loop p events'
  | Deadline :: events' => Some (VerFailed FTimeout, events')
  end.

(** [write_ok] is whether the query could be written to the channel. *)
Definition verify (uuid startup initial : bytes) (write_ok : bool) (events : list channel_event) :
  option (Verification * list channel_event) :=
  let r := probe_feed (new_probe uuid startup) initial in
  match verification_of r.1 with
  | Some v => Some (v, events)
  | None => if write_ok then verify_loop r.2 events else Some (VerFailed FWriteFailed, events)
  end.

(** ** The stream line by line *)

(** The reference: the lines of a stream one after the other, however they arrived; [cur] is
    the line so far. *)
Fixpoint scan (token command : bytes) (block : Block) (cur data : bytes) : Block * bytes + verdict * bytes :=
  match data with
  | [] => inl (block, cur)
  | b :: data' =>
    if b =? 10 then
      let r := probe_line token command block cur in
      match r.2 with
      | Some v => inr (v, data')
      | None => scan token command r.1 [] data'
      end
    else scan token command block (cur ++ [b]) data'
  end.

Definition no_lf (l : bytes) : Prop := 10 ∉ l.

Section Scan.
Context (tok cmd : bytes).

Lemma scan_text block cur l s : no_lf l -> scan tok cmd block cur (l ++ s) = scan tok cmd block (cur ++ l) s.
Proof.
  unfold no_lf. revert cur. induction l as [|b l IH]; intros cur Hl; [by rewrite app_nil_r|]. cbn [app scan].
  apply not_elem_of_cons in Hl as [Hb Hl]. destruct (Z.eqb_spec b 10); [congruence|]. rewrite IH by done. by rewrite <- app_assoc.
Qed.

Lemma scan_line block l s :
  no_lf l ->
  scan tok cmd block [] (l ++ 10 :: s)
  = match (probe_line tok cmd block l).2 with Some v => inr (v, s) | None => scan tok cmd (probe_line tok cmd block l).1 [] s end.
Proof. intros Hl. by rewrite scan_text. Qed.

Lemma scan_app block cur a b :
  scan tok cmd block cur (a ++ b)
  = match scan tok cmd block cur a with inl (block', cur') => scan tok cmd block' cur' b | inr (v, rest) => inr (v, rest ++ b) end.
Proof.
  revert block cur. induction a as [|x a IH]; intros block cur; [done|]. cbn [app scan]. destruct (x =? 10); [|apply IH].
  destruct (probe_line tok cmd block cur) as [block' [v|]]; cbn; [done|apply IH].
Qed.

Lemma position_lf s :
  match position 10 s with
  | Some n => no_lf (take n s) /\ s = take n s ++ 10 :: drop (S n) s
  | None => no_lf s
  end.
Proof.
  unfold no_lf. induction s as [|b s IH]; cbn [position]; [by apply not_elem_of_nil|]. destruct (Z.eqb_spec b 10) as [->|Hne].
  - split; [by apply not_elem_of_nil|done].
  - destruct (position 10 s) as [n|]; cbn.
    + destruct IH as [Hn Hs]. split; [by apply not_elem_of_cons|]. by rewrite <- Hs.
    + by apply not_elem_of_cons.
Qed.

(** A stream that settles the probe has a first line, which settles it or not. *)
Lemma scan_inr block s v r :
  scan tok cmd block [] s = inr (v, r) ->
  exists l s', s = l ++ 10 :: s' /\ no_lf l
    /\ (((probe_line tok cmd block l).2 = None /\ scan tok cmd (probe_line tok cmd block l).1 [] s' = inr (v, r))
        \/ ((probe_line tok cmd block l).2 = Some v /\ s' = r)).
Proof.
  intros Hs. pose proof (position_lf s) as Hp. destruct (position 10 s) as [n|].
  - destruct Hp as [Hn E]. exists (take n s), (drop (S n) s). split_and!; [done..|]. rewrite E, scan_line in Hs by done.
    destruct (probe_line tok cmd block (take n s)) as [block' [v'|]]; cbn in *; [right|by left]. by injection Hs as -> ->.
  - rewrite <- (app_nil_r s), scan_text in Hs by done. done.
Qed.

(** *** The answer *)

Definition begins (l : bytes) (id : BlockId) : Prop := utf8_valid l = true /\ parse_line (trim_crs l) = Some (Begin id).
Definition ends (l : bytes) (id : BlockId) : Prop := utf8_valid l = true /\ parse_line (trim_crs l) = Some (End id).

(** A line that may precede the answer: a notification, or the echo of the query. *)
Definition harmless (l : bytes) : Prop := no_lf l /\ probe_line tok cmd None l = (None, None).

Definition unlines (ls : list bytes) : bytes := concat ((fun l => l ++ [10]) <$> ls).

Definition answers (s r : bytes) : Prop :=
  exists notes l1 l2 l3 id, s = unlines notes ++ l1 ++ 10 :: l2 ++ 10 :: l3 ++ 10 :: r
    /\ Forall harmless notes /\ no_lf l1 /\ no_lf l2 /\ no_lf l3 /\ begins l1 id /\ ends l3 id
    /\ utf8_valid l2 = true /\ trim_crs l2 = tok.

(** A line inside a block keeps it, settles the probe, or ends the block. *)
Lemma probe_line_block id m n l :
  match probe_line tok cmd (Some (id, m, n)) l with
  | (b, None) => b = Some (id, beq (trim_crs l) tok, S n) /\ utf8_valid l = true
  | (b, Some VConfirmed) => m = true /\ n = 1%nat /\ ends l id
  | (b, Some _) => True
  end.
Proof.
  unfold probe_line, ends. destruct (utf8_valid l); cbn [negb]; [|done].
  destruct (parse_line (trim_crs l)) as [[]|]; try done.
  destruct m, n as [|[|n]]; try done. destruct (bool_decide_reflect (id = id0)) as [->|]; done.
Qed.

Lemma block_confirmed id m n s r :
  scan tok cmd (Some (id, m, n)) [] s = inr (VConfirmed, r) ->
  exists l s', s = l ++ 10 :: s' /\ no_lf l
    /\ ((m = true /\ n = 1%nat /\ ends l id /\ s' = r)
        \/ (utf8_valid l = true /\ scan tok cmd (Some (id, beq (trim_crs l) tok, S n)) [] s' = inr (VConfirmed, r))).
Proof.
  intros (l & s' & -> & Hl & Hcase)%scan_inr. exists l, s'. split_and!; [done..|]. pose proof (probe_line_block id m n l) as Hp.
  destruct (probe_line tok cmd (Some (id, m, n)) l) as [b [v|]]; cbn in Hcase; destruct Hcase as [[? Hs]|[? ->]]; simplify_eq.
  - left. destruct Hp as (-> & -> & ?). done.
  - right. destruct Hp as [-> ?]. done.
Qed.

(** After two lines a block can only reject. *)
Lemma block_too_long id m n s r : (2 <= n)%nat -> scan tok cmd (Some (id, m, n)) [] s <> inr (VConfirmed, r).
Proof.
  intros Hn Hs. remember (length s) as k eqn:Hk. revert m n s Hn Hs Hk. induction (lt_wf k) as [k _ IH]; intros m n s Hn Hs ->.
  destruct (block_confirmed _ _ _ _ _ Hs) as (l & s' & -> & _ & [(_ & ? & _)|[_ Hs']]); [lia|].
  refine (IH _ _ _ _ _ _ Hs' eq_refl); [|lia]. rewrite length_app. cbn. lia.
Qed.

Lemma block_answer id s r :
  scan tok cmd (Some (id, false, 0%nat)) [] s = inr (VConfirmed, r) ->
  exists l2 l3, s = l2 ++ 10 :: l3 ++ 10 :: r /\ no_lf l2 /\ no_lf l3 /\ ends l3 id /\ utf8_valid l2 = true /\ trim_crs l2 = tok.
Proof.
  intros Hs. destruct (block_confirmed _ _ _ _ _ Hs) as (l2 & s' & -> & H2 & [(? & _)|[Hu Hs']]); [done|].
  destruct (block_confirmed _ _ _ _ _ Hs') as (l3 & s'' & -> & H3 & [(Hm & _ & He & ->)|[_ Hs'']]).
  - exists l2, l3. split_and!; try done. by apply beq_true.
  - by apply block_too_long in Hs''; [|lia].
Qed.

Lemma probe_line_none l :
  match probe_line tok cmd None l with
  | (None, None) => True
  | (Some b, None) => exists id, b = (id, false, 0%nat) /\ begins l id
  | (_, Some v) => v <> VConfirmed
  end.
Proof.
  unfold probe_line, begins. destruct (utf8_valid l); cbn [negb]; [|done].
  destruct (parse_line (trim_crs l)) as [[]|]; try done; [by eexists|]. by destruct (beq _ cmd).
Qed.

Lemma scan_answers s r : scan tok cmd None [] s = inr (VConfirmed, r) -> answers s r.
Proof.
  remember (length s) as k eqn:Hk. revert s Hk. induction (lt_wf k) as [k _ IH]; intros s -> Hs.
  destruct (scan_inr _ _ _ _ Hs) as (l & s' & -> & Hl & Hcase). pose proof (probe_line_none l) as Hp. unfold answers.
  destruct (probe_line tok cmd None l) as [[b|] [v|]] eqn:E; cbn in Hcase; destruct Hcase as [[? Hs']|[? ->]]; try congruence.
  - destruct Hp as (id & -> & Hb). destruct (block_answer _ _ _ Hs') as (l2 & l3 & -> & H2 & H3 & He & Hu & Ht).
    exists [], l, l2, l3, id. split_and!; try done.
  - destruct (IH (length s') ltac:(rewrite length_app; cbn; lia) s' eq_refl Hs') as (notes & l1 & l2 & l3 & id & -> & Hn & Hrest).
    exists (l :: notes), l1, l2, l3, id. split; [unfold unlines; cbn; by rewrite <- !app_assoc|]. split; [|done]. constructor; [|done]. by split.
Qed.

End Scan.

(** ** The probe reads the stream *)

Definition unread (p : Probe) : bytes := drop (p_consumed p) (raw p).

(** The settled outcome of a state; a pending one goes on from the unread bytes. *)
Definition scan_probe (p : Probe) (more : bytes) : Block * bytes + verdict * bytes :=
  scan (token p) (command p) (p_block p) [] (unread p ++ more).

Lemma probe_loop_scan fuel p :
  (length (unread p) < fuel)%nat -> (p_consumed p <= length (raw p))%nat ->
  match scan_probe p [] with
  | inl (block, cur) => exists p', probe_loop fuel p = (Pending, p') /\ p_block p' = block /\ unread p' = cur /\ no_lf cur
      /\ token p' = token p /\ command p' = command p /\ raw p' = raw p /\ (p_consumed p' <= length (raw p))%nat
  | inr (v, rest) => (probe_loop fuel p).1 = progress_of v rest
  end.
Proof.
  revert p. induction fuel as [|fuel IH]; intros p Hf Hc; [lia|]. unfold scan_probe. rewrite app_nil_r. cbn [probe_loop]. fold (unread p).
  pose proof (position_lf (unread p)) as Hp. destruct (position 10 (unread p)) as [n|].
  2:{ rewrite <- (app_nil_r (unread p)), scan_text by done. cbn. by exists p. }
  destruct Hp as [Hn E]. pose proof (scan_line (token p) (command p) (p_block p) _ (drop (S n) (unread p)) Hn) as Hs. rewrite <- E in Hs. rewrite Hs. clear Hs.
  destruct (probe_line (token p) (command p) (p_block p) (take n (unread p))) as [block v]; cbn [fst snd].
  assert (Hlen : (n < length (unread p))%nat) by (apply (f_equal length) in E; rewrite length_app, length_take in E; cbn in E; lia).
  assert (Hnext : drop (p_consumed p + n + 1) (raw p) = drop (S n) (unread p)).
  { unfold unread. rewrite drop_drop. f_equal. lia. }
  unfold unread in Hlen. rewrite length_drop in Hlen. destruct v as [v|]; [by rewrite Hnext|].
  specialize (IH (mkProbe (token p) (command p) (raw p) (p_consumed p + n + 1) block)). unfold scan_probe, unread in IH. cbn in IH.
  rewrite app_nil_r, Hnext in IH. apply IH; [|lia]. unfold unread in *. rewrite length_drop in *. rewrite length_drop. lia.
Qed.

Lemma probe_feed_scan p data :
  (p_consumed p <= length (raw p))%nat -> (length data <= CONFIRM_MAX_BYTES - length (raw p))%nat ->
  match scan_probe p data with
  | inl (block, cur) => exists p', probe_feed p data = (Pending, p') /\ p_block p' = block /\ unread p' = cur /\ no_lf cur
      /\ token p' = token p /\ command p' = command p /\ raw p' = raw p ++ data /\ (p_consumed p' <= length (raw p'))%nat
  | inr (v, rest) => (probe_feed p data).1 = progress_of v rest
  end.
Proof.
  intros Hc Hmax. unfold probe_feed. destruct (Nat.ltb_spec (CONFIRM_MAX_BYTES - length (raw p)) (length data)); [lia|].
  set (p' := mkProbe _ _ _ _ _). assert (Hun : unread p' = unread p ++ data) by (unfold unread; cbn; by rewrite drop_app_le).
  pose proof (probe_loop_scan (S (length (raw p'))) p') as H'. unfold scan_probe in *. rewrite app_nil_r, Hun in H'. cbn [p' token command p_block] in H'.
  specialize (H' ltac:(rewrite <- Hun; unfold unread; rewrite length_drop; lia) ltac:(cbn; rewrite length_app; lia)).
  destruct (scan _ _ _ _ _) as [[block cur]|[v rest]]; [|done].
  destruct H' as (q & Hq & ? & ? & ? & ? & ? & Hraw & ?). exists q. rewrite Hraw. done.
Qed.

Lemma probe_feed_limit p data : (CONFIRM_MAX_BYTES - length (raw p) < length data)%nat -> probe_feed p data = (LimitExceeded, p).
Proof. intros Hmax. unfold probe_feed. destruct (Nat.ltb_spec (CONFIRM_MAX_BYTES - length (raw p)) (length data)); [done|lia]. Qed.

(** The bytes of the events; only [Data] carries any. *)
Definition received (events : list channel_event) : bytes :=
  concat ((fun e => match e with Data d => d | _ => [] end) <$> events).

Lemma scan_probe_step p p' data more :
  token p' = token p -> command p' = command p -> scan_probe p data = inl (p_block p', unread p') -> no_lf (unread p') ->
  scan_probe p (data ++ more) = scan_probe p' more.
Proof.
  intros Ht Hc Hs Hl. unfold scan_probe in *. rewrite app_assoc, scan_app, Hs, Ht, Hc. by rewrite (scan_text _ _ (p_block p') []).
Qed.

Lemma verify_loop_scan events p v events' :
  (p_consumed p <= length (raw p))%nat -> verify_loop p events = Some (v, events') ->
  match v with
  | VerConfirmed rest => exists r, scan_probe p (received events) = inr (VConfirmed, r) /\ r = rest ++ received events'
  | VerExited rest => exists r, scan_probe p (received events) = inr (VExited, r) /\ r = rest ++ received events'
  | VerFailed _ => True
  end.
Proof.
  revert p. induction events as [|[data|status| | |] events IH]; intros p Hc Hv; cbn [verify_loop] in Hv; try (by injection Hv as <- <-); [done| |by apply IH].
  change (received (Data data :: events)) with (data ++ received events).
  destruct (decide (length data <= CONFIRM_MAX_BYTES - length (raw p))%nat) as [Hmax|Hmax].
  - pose proof (probe_feed_scan p data Hc Hmax) as Hf. destruct (scan_probe p data) as [[block cur]|[w rest]] eqn:E.
    + destruct Hf as (p' & Hp & <- & <- & Hl & Ht & Hcmd & _ & Hc'). rewrite Hp in Hv. cbn in Hv.
      rewrite (scan_probe_step p p' data (received events)) by done. by apply IH.
    + rewrite Hf in Hv. unfold scan_probe in *. rewrite app_assoc, scan_app, E. destruct w; injection Hv as <- <-; eauto.
  - rewrite probe_feed_limit in Hv by lia. by injection Hv as <- <-.
Qed.

(** ** The answer settles the probe *)

(** The token is no control line. *)
Lemma parse_token uuid : parse_line (bs "nyaterm_" ++ uuid) = None.
Proof. reflexivity. Qed.

Lemma answers_scan uuid cmd s r :
  let tok := bs "nyaterm_" ++ uuid in answers tok cmd s r -> scan tok cmd None [] s = inr (VConfirmed, r).
Proof.
  intros tok (notes & l1 & l2 & l3 & id & -> & Hnotes & H1 & H2 & H3 & [Hu1 Hb] & [Hu3 He] & Hu2 & Ht).
  induction Hnotes as [|l notes [Hl Hp] _ IH].
  - change (unlines []) with (@nil Z). rewrite app_nil_l, scan_line by done. unfold probe_line at 1 2. rewrite Hu1. cbn [negb]. rewrite Hb. cbn [fst snd].
    rewrite scan_line by done. unfold probe_line at 1 2. rewrite Hu2, Ht. cbn [negb]. rewrite (parse_token uuid : parse_line tok = None), beq_refl. cbn [fst snd].
    rewrite scan_line by done. unfold probe_line at 1 2. rewrite Hu3. cbn [negb]. rewrite He. cbn [fst snd]. by rewrite bool_decide_true.
  - unfold unlines. cbn [fmap list_fmap concat]. rewrite <- !app_assoc. cbn [app]. rewrite (scan_line tok cmd None l) by done. rewrite Hp. cbn [fst snd]. exact IH.
Qed.

(** What [Data] events and other messages lead to, within the limit. *)
Lemma verify_loop_answer events p r :
  (p_consumed p <= length (raw p))%nat -> (length (raw p) + length (received events) <= CONFIRM_MAX_BYTES)%nat ->
  Forall (fun e => match e with Data _ | OtherMsg => True | _ => False end) events ->
  scan_probe p (received events) = inr (VConfirmed, r) -> (exists b, scan_probe p [] = inl b) ->
  exists rest events', verify_loop p events = Some (VerConfirmed rest, events') /\ r = rest ++ received events'.
Proof.
  intros Hc Hmax Hev. revert p Hc Hmax. induction Hev as [|[data|status| | |] events He _ IH]; intros p Hc Hmax Hs [b Hb]; try done; cbn [verify_loop].
  - change (received []) with (@nil Z) in Hs. rewrite Hs in Hb. done.
  - change (received (Data data :: events)) with (data ++ received events) in *. rewrite length_app in Hmax.
    pose proof (probe_feed_scan p data Hc ltac:(lia)) as Hf. destruct (scan_probe p data) as [[block cur]|[w rest]] eqn:E.
    + destruct Hf as (p' & Hp & <- & <- & Hl & Ht & Hcmd & Hraw & Hc'). rewrite Hp. cbn.
      rewrite (scan_probe_step p p' data (received events)) in Hs by done. apply IH; [done| |done|].
      * rewrite Hraw, length_app. lia.
      * unfold scan_probe. exists (p_block p', unread p'). rewrite (scan_text _ _ _ [] (unread p') []) by done. done.
    + unfold scan_probe in *. rewrite app_assoc, scan_app, E in Hs. injection Hs as -> <-. rewrite Hf. cbn. by exists rest, events.
  - apply IH; eauto.
Qed.

Lemma new_probe_scan uuid startup more :
  scan_probe (new_probe uuid startup) more
  = scan (bs "nyaterm_" ++ uuid) (bs "display-message -p '" ++ (bs "nyaterm_" ++ uuid) ++ bs "'") None [] more.
Proof. unfold scan_probe, unread. cbn -[bs]. by rewrite drop_all. Qed.

(** A control client is confirmed only by an answer to the query: the bytes since the startup are
    notifications or the echo of the query, then a block whose begin and end marks agree and
    that holds the fresh token and nothing else; what follows it is handed on. *)
Theorem verify_confirmed uuid startup initial write_ok events rest events' :
  verify uuid startup initial write_ok events = Some (VerConfirmed rest, events') ->
  let p := new_probe uuid startup in
  answers (token p) (command p) (initial ++ received events) (rest ++ received events').
Proof.
  intros Hv p. apply scan_answers. revert Hv. unfold verify. fold p.
  assert (Hc : (p_consumed p <= length (raw p))%nat) by (cbn; lia).
  assert (Hscan : forall more, scan_probe p more = scan (token p) (command p) None [] more) by apply new_probe_scan.
  destruct (decide (length initial <= CONFIRM_MAX_BYTES - length (raw p))%nat) as [Hmax|Hmax]; [|rewrite probe_feed_limit by lia; done].
  pose proof (probe_feed_scan p initial Hc Hmax) as Hf. destruct (scan_probe p initial) as [[block cur]|[w r]] eqn:E.
  - destruct Hf as (p' & Hp & <- & <- & Hl & Ht & Hcmd & Hraw & Hc'). rewrite Hp. cbn [fst snd verification_of]. destruct write_ok; [|done].
    intros Hv. apply (verify_loop_scan _ _ _ _ Hc') in Hv as (r & Hv & ->). rewrite <- Hscan. by rewrite (scan_probe_step p p').
  - rewrite Hf. rewrite Hscan in E. rewrite scan_app, E. destruct w; [|done..]. cbn. by intros [= -> ->].
Qed.

(** A control client that answers is confirmed, however its answer is cut into messages and
    whatever notifications come before it, as long as the bytes stay within the limit, the query
    is written and the channel neither closes nor times out first. *)
Theorem verify_answered uuid startup initial events r :
  let p := new_probe uuid startup in
  answers (token p) (command p) (initial ++ received events) r ->
  (length startup + length initial + length (received events) <= CONFIRM_MAX_BYTES)%nat ->
  Forall (fun e => match e with Data _ | OtherMsg => True | _ => False end) events ->
  exists rest events', verify uuid startup initial true events = Some (VerConfirmed rest, events') /\ r = rest ++ received events'.
Proof.
  intros p Ha Hmax Hev. apply answers_scan in Ha. unfold verify. fold p.
  assert (Hc : (p_consumed p <= length (raw p))%nat) by (cbn; lia).
  pose proof (probe_feed_scan p initial Hc ltac:(cbn; lia)) as Hf.
  assert (Hs : scan_probe p (initial ++ received events) = inr (VConfirmed, r)) by (rewrite (new_probe_scan uuid startup); exact Ha).
  destruct (scan_probe p initial) as [[block cur]|[w r']] eqn:E.
  - destruct Hf as (p' & Hp & <- & <- & Hl & Ht & Hcmd & Hraw & Hc'). rewrite Hp. cbn [fst snd verification_of].
    rewrite (scan_probe_step p p') in Hs by done. apply verify_loop_answer; try done.
    + rewrite Hraw, length_app. cbn [p new_probe raw]. lia.
    + unfold scan_probe. exists (p_block p', unread p'). by rewrite (scan_text _ _ _ [] (unread p') []).
  - unfold scan_probe in *. rewrite app_assoc, scan_app, E in Hs. injection Hs as -> <-. rewrite Hf. cbn. by exists r', events.
Qed.

(** *** Witnesses *)

Definition ex_answer : bytes := bs "%begin 1 2 1" ++ [13; 10] ++ bs "nyaterm_7f" ++ [13; 10] ++ bs "%end 1 2 1" ++ [13; 10].
Definition ex_events : list channel_event := [Data (bs "%window-add @1" ++ [10] ++ take 20 ex_answer); OtherMsg; Data (drop 20 ex_answer ++ bs "%output")].

Lemma no_lf_dec l : forallb (fun b => negb (b =? 10)) l = true -> no_lf l.
Proof. intros H Hin%list_elem_of_In. rewrite forallb_forall in H. apply H in Hin. done. Qed.

Lemma verify_confirmed_witness :
  let p := new_probe (bs "7f") (bs "x") in answers (token p) (command p) ([] ++ received ex_events) (bs "%output" ++ received []).
Proof. apply (verify_confirmed (bs "7f") (bs "x") [] true ex_events). vm_compute. reflexivity. Defined.

Lemma verify_answered_witness :
  exists rest events', verify (bs "7f") (bs "x") [] true ex_events = Some (VerConfirmed rest, events') /\ bs "%output" = rest ++ received events'.
Proof.
  apply (verify_answered (bs "7f") (bs "x") [] ex_events (bs "%output")).
  - exists [bs "%window-add @1"], (bs "%begin 1 2 1" ++ [13]), (bs "nyaterm_7f" ++ [13]), (bs "%end 1 2 1" ++ [13]), (mkBlock 1 2 1).
    split; [vm_compute; reflexivity|]. split.
    { apply Forall_singleton. split; [by apply no_lf_dec|vm_compute; reflexivity]. }
    split_and!; [by apply no_lf_dec..|split; vm_compute; reflexivity|split; vm_compute; reflexivity|vm_compute; reflexivity|vm_compute; reflexivity].
  - apply Nat.leb_le. vm_compute. reflexivity.
  - unfold ex_events. repeat constructor.
Defined.
