(* ===== verification/TmuxDetect.v ===== *)
(** * Detection of a tmux control client in a shell

    [src/crates/nyaterm-transport/src/tmux/detect.rs]: what the user types is tracked, and a
    submitted [tmux -CC] command (or one recalled from the history, which only shows as editing
    keys) arms the detector for a while. While armed, output that starts like a control client
    is withheld until its startup lines are complete or are not what they should be. An
    [Instant] is a number of nanoseconds, the same during one call. *)

From stdpp Require Import base option list numbers strings.
From Stdlib Require Import ZArith Lia.
From S2P Require Import Prelude RustStr RustText TmuxControl TmuxHandshake.

Local Open Scope Z_scope.

(** ** Recognising the command *)

Definition second : Z := 1000 * 1000 * 1000.
Definition ARM_WINDOW : Z := 30 * second.
Definition BLIND_ARM_WINDOW : Z := 5 * second.
Definition CONFIRM_TIMEOUT : Z := 5 * second.
Definition SILENT_HINT_DELAY : Z := 10 * second.
Definition MAX_INPUT_LINE_BYTES : nat := Z.to_nat 4096.

Definition COMMAND_WRAPPERS : list bytes :=
  bs <$> ["sudo"; "doas"; "pkexec"; "command"; "builtin"; "nice"; "stdbuf"; "noglob"; "time"; "exec"; "nohup"; "env"]%string.
Definition SSH_FLAGS_WITH_ARG : list bytes :=
  bs <$> ["-B"; "-b"; "-c"; "-D"; "-E"; "-F"; "-I"; "-i"; "-J"; "-L"; "-l"; "-m"; "-O"; "-o"; "-p"; "-Q"; "-R"; "-S"; "-W"; "-w"]%string.

Definition is_ascii_whitespace (b : Z) : bool := (b =? 32) || (b =? 9) || (b =? 10) || (b =? 12) || (b =? 13).
Definition is_separator (b : Z) : bool :=
  (b =? 59) || (b =? 124) || (b =? 38) || (b =? 60) || (b =? 62) || (b =? 40) || (b =? 41) || (b =? 123) || (b =? 125).
Definition is_quote (b : Z) : bool := (b =? 39) || (b =? 34).

(** [trim_matches] of quotes. *)
Fixpoint skip_quotes (s : bytes) : bytes := match s with b :: s' => if is_quote b then skip_quotes s' else s | [] => [] end.
Definition strip_quotes (token : bytes) : bytes := rev (skip_quotes (rev (skip_quotes token))).

Definition is_shell_separator (token : bytes) : bool := negb (bool_decide (token = [])) && forallb is_separator token.

Definition push_token (token : bytes) (tokens : list bytes) : list bytes := match token with [] => tokens | _ => token :: tokens end.

(** [cur] is the text since [start]. *)
Fixpoint tokens_loop (quote : Z) (cur line : bytes) : list bytes :=
  match line with
  | [] => push_token cur []
  | byte :: line' =>
    if negb (quote =? 0) then tokens_loop (if byte =? quote then 0 else quote) (cur ++ [byte]) line'
    else if is_quote byte then tokens_loop byte (cur ++ [byte]) line'
    else if is_ascii_whitespace byte then push_token cur (tokens_loop 0 [] line')
    else if is_separator byte then push_token cur ([byte] :: tokens_loop 0 [] line')
    else tokens_loop 0 (cur ++ [byte]) line'
  end.
Definition shell_tokens (line : bytes) : list bytes := tokens_loop 0 [] line.

Definition is_tmux_binary (token : bytes) : bool := beq token (bs "tmux") || bool_decide (is_Some (strip_suffix (bs "/tmux") token)).

Definition is_control_flag (token : bytes) : bool :=
  match token with
  | b :: (_ :: _) as rest => (b =? 45) && forallb (fun c => c =? 67) rest
  | _ => false
  end.

Definition starts_with_dash (token : bytes) : bool := bool_decide (is_Some (strip_prefix [45] token)).

Record CommandState := mkCommand { expect_command : bool; expect_ssh_dest : bool; ssh_flag_arg : bool; tmux_seen : bool }.

(** One word; [None] is [return true]. *)
Definition command_token (c : CommandState) (raw : bytes) : option CommandState :=
  let token := strip_quotes raw in
  if bool_decide (token = []) then Some c
  else if is_shell_separator token then Some (mkCommand true false false false)
  else if expect_ssh_dest c then
    if ssh_flag_arg c then Some (mkCommand (expect_command c) true false (tmux_seen c))
    else if starts_with_dash token then
      Some (mkCommand (expect_command c) true (existsb (beq token) SSH_FLAGS_WITH_ARG) (tmux_seen c))
    else Some (mkCommand true false false (tmux_seen c))
  else if expect_command c then
    if starts_with_dash token then Some c
    else if existsb (beq token) COMMAND_WRAPPERS || existsb (fun b => b =? 61) token then Some c
    else if beq token (bs "ssh") then Some (mkCommand true true (ssh_flag_arg c) (tmux_seen c))
    else Some (mkCommand false false (ssh_flag_arg c) (tmux_seen c || is_tmux_binary token))
  else if tmux_seen c && is_control_flag token then None
  else Some c.

Fixpoint command_loop (c : CommandState) (tokens : list bytes) : bool :=
  match tokens with
  | [] => false
  | raw :: tokens' => match command_token c raw with None => true | Some c' => command_loop c' tokens' end
  end.

Definition is_tmux_control_command (line : bytes) : bool := command_loop (mkCommand true false false false) (shell_tokens line).

(** The scan for an unquoted [tmux]; [skip] is the byte after a backslash. *)
Fixpoint suffix_scan (single double skip : bool) (text : bytes) : bool :=
  match text with
  | [] => false
  | b :: text' =>
    if skip then suffix_scan single double false text'
    else if (b =? 39) && negb double then suffix_scan (negb single) double false text'
    else if (b =? 34) && negb single then suffix_scan single (negb double) false text'
    else if (b =? 92) && negb single then suffix_scan single double true text'
    else if negb single && negb double && bool_decide (is_Some (strip_prefix (bs "tmux") text)) && is_tmux_control_command text then true
    else suffix_scan single double false text'
  end.
Definition tmux_suffix_matches (text : bytes) : bool := suffix_scan false false false text.

(** ** The detector *)

Inductive InputTrack := INormal | IEsc | ICsi | ISs3 | IOsc | IOscEsc.
Inductive OutTrack := ONormal | OCsi | OSs3 | OOsc | OOscEsc | ODcs | ODcsEsc | OPercentLine.

Record TmuxControlDetector := mkDetector {
  line_start : bool; out_track : OutTrack; candidate : option bytes; is_done : bool;
  startup : Startup; startup_offset : nat; candidate_deadline : option Z;
  input_line : bytes; input_track : InputTrack; armed_at : option Z; blind_arm_at : option Z;
  echo_tail : bool; saw_shell_output : bool; input_saw_escape : bool; silence_hint_sent : bool;
}.

Inductive TmuxFeed := Passthrough (data : bytes) | Detected (passthrough startup rest : bytes).

Definition new_detector : TmuxControlDetector :=
  mkDetector true ONormal None false default_startup 0 None [] INormal None None false false false false.

(** Assignments to groups of fields. *)
Definition set_output (d : TmuxControlDetector) (ls : bool) (ot : OutTrack) (c : option bytes) (st : Startup) (off : nat) (dl : option Z) : TmuxControlDetector :=
  mkDetector ls ot c (is_done d) st off dl (input_line d) (input_track d) (armed_at d) (blind_arm_at d)
    (echo_tail d) (saw_shell_output d) (input_saw_escape d) (silence_hint_sent d).
Definition set_input (d : TmuxControlDetector) (line : bytes) (track : InputTrack) (esc : bool) : TmuxControlDetector :=
  mkDetector (line_start d) (out_track d) (candidate d) (is_done d) (startup d) (startup_offset d) (candidate_deadline d)
    line track (armed_at d) (blind_arm_at d) (echo_tail d) (saw_shell_output d) esc (silence_hint_sent d).
Definition set_arm (d : TmuxControlDetector) (armed blind : option Z) (ot : OutTrack) (echo saw hint : bool) : TmuxControlDetector :=
  mkDetector (line_start d) ot (candidate d) (is_done d) (startup d) (startup_offset d) (candidate_deadline d)
    (input_line d) (input_track d) armed blind echo saw (input_saw_escape d) hint.

Definition within (now window : Z) (at_ : option Z) : bool := match at_ with Some t => sat_sub now t <=? window | None => false end.

Definition is_armed (d : TmuxControlDetector) (now : Z) : bool :=
  within now ARM_WINDOW (armed_at d) || within now BLIND_ARM_WINDOW (blind_arm_at d).

Definition expiry_is_attempt (d : TmuxControlDetector) (now : Z) : bool :=
  negb (saw_shell_output d) && (is_armed d now || bool_decide (is_Some (candidate d))).

Definition no_hint (d : TmuxControlDetector) : bool :=
  is_done d || bool_decide (is_Some (candidate d)) || silence_hint_sent d || saw_shell_output d.

Definition silence_deadline (d : TmuxControlDetector) : option Z :=
  if no_hint d then None else (fun t => t + SILENT_HINT_DELAY) <$> or_else (armed_at d) (blind_arm_at d).

Definition expire_silence (d : TmuxControlDetector) (now : Z) : bool * TmuxControlDetector :=
  let elapsed := match or_else (armed_at d) (blind_arm_at d) with Some t => SILENT_HINT_DELAY <=? sat_sub now t | None => false end in
  if negb elapsed || no_hint d then (false, d)
  else (true, set_arm d None None (out_track d) (echo_tail d) (saw_shell_output d) true).

(** ** Input *)

Definition evaluate_input_line (d : TmuxControlDetector) (line : bytes) (now : Z) : TmuxControlDetector :=
  let text := if utf8_valid line then line else [] in
  if is_tmux_control_command text || tmux_suffix_matches text
  then set_arm d (Some now) (blind_arm_at d) ONormal true false false
  else if existsb (fun b => negb (is_ascii_whitespace b)) line
  then set_arm d None (blind_arm_at d) ONormal false false (silence_hint_sent d)
  else d.

(** The byte that ends, selects or continues an escape sequence. *)
Definition track_escape (track : InputTrack) (byte : Z) : InputTrack :=
  match track with
  | INormal => INormal
  | IEsc => if byte =? 91 then ICsi else if byte =? 79 then ISs3 else if byte =? 93 then IOsc else if byte =? 27 then IEsc else INormal
  | ICsi => if between 64 126 byte then INormal else ICsi
  | ISs3 => INormal
  | IOsc => if byte =? 7 then INormal else if byte =? 27 then IOscEsc else IOsc
  | IOscEsc => if byte =? 92 then INormal else IOsc
  end.

Definition submit_line (d : TmuxControlDetector) (now : Z) : TmuxControlDetector :=
  let line := input_line d in
  let saw_escape := input_saw_escape d in
  let d := set_input d [] (input_track d) false in
  if forallb is_ascii_whitespace line then
    if saw_escape then set_arm d (armed_at d) (Some now) ONormal true false false else d
  else evaluate_input_line (set_arm d (armed_at d) None (out_track d) (echo_tail d) (saw_shell_output d) (silence_hint_sent d)) line now.

Definition input_byte (d : TmuxControlDetector) (byte now : Z) : TmuxControlDetector :=
  match input_track d with
  | INormal =>
    let line := input_line d in
    if (byte =? 13) || (byte =? 10) then submit_line d now
    else if (byte =? 18) || (byte =? 16) || (byte =? 14) then set_input d [] INormal true
    else if (byte =? 3) || (byte =? 28) || (byte =? 26) then set_input d [] INormal false
    else if (byte =? 127) || (byte =? 8) then set_input d (take (length line - 1) line) INormal (input_saw_escape d)
    else if byte =? 27 then set_input d line IEsc true
    else set_input d (if (length line <? MAX_INPUT_LINE_BYTES)%nat then line ++ [byte] else []) INormal (input_saw_escape d)
  | track => set_input d (input_line d) (track_escape track byte) (input_saw_escape d)
  end.

Definition feed_input (d : TmuxControlDetector) (data : bytes) (now : Z) : TmuxControlDetector :=
  if is_done d then d else fold_left (fun d b => input_byte d b now) data d.

(** ** Output *)

Definition is_crlf (b : Z) : bool := (b =? 10) || (b =? 13).

Definition take_candidate (d : TmuxControlDetector) : bytes * TmuxControlDetector :=
  let bytes := default [] (candidate d) in
  (bytes, set_output d (match last bytes with Some b => is_crlf b | None => false end) (out_track d) None default_startup 0 None).

Definition expire_candidate (d : TmuxControlDetector) : bytes * TmuxControlDetector :=
  take_candidate (set_arm d None None (out_track d) (echo_tail d) (saw_shell_output d) (silence_hint_sent d)).

(** Forwarded output inside a sequence. *)
Definition track_output (track : OutTrack) (byte : Z) : OutTrack :=
  match track with
  | ONormal => ONormal
  | OPercentLine => if byte =? 10 then ONormal else OPercentLine
  | OCsi => if between 64 126 byte then ONormal else OCsi
  | OSs3 => ONormal
  | OOsc => if byte =? 7 then ONormal else if byte =? 27 then OOscEsc else OOsc
  | OOscEsc => if byte =? 92 then ONormal else OOsc
  | ODcs => if byte =? 27 then ODcsEsc else ODcs
  | ODcsEsc => if byte =? 92 then ONormal else ODcs
  end.

Definition is_ascii_control (b : Z) : bool := (b <? 32) || (b =? 127).

(** A byte of ordinary output. *)
Definition forward_byte (d : TmuxControlDetector) (byte : Z) : TmuxControlDetector :=
  let saw := negb (byte =? 10) && line_start d && negb (is_ascii_control byte) && negb (echo_tail d) in
  let d1 := set_arm d (armed_at d) (blind_arm_at d) (out_track d) (if byte =? 10 then false else echo_tail d)
              (saw || saw_shell_output d) (silence_hint_sent d) in
  set_output d1 (is_crlf byte) (out_track d) None (startup d) (startup_offset d) (candidate_deadline d).

(** What a byte leads to: the detector and what is forwarded, or the end of the call. *)
Inductive step_result :=
| Next (d : TmuxControlDetector) (out : bytes)
| Stop (d : TmuxControlDetector) (out : bytes)
| Take (d : TmuxControlDetector) (startup : bytes).

(** The prefix gate of a candidate: its first bytes have to be those of a control client. *)
Definition candidate_prefix (c : bytes) : bytes := if bool_decide (head c = Some 27) then CONTROL_PREFIX else bs "%begin ".

Definition rejected_track (flushed : bytes) : OutTrack :=
  match flushed with
  | b0 :: rest =>
    if b0 =? 27 then
      match rest with
      | b1 :: _ => if b1 =? 91 then OCsi else if b1 =? 79 then OSs3 else if b1 =? 93 then OOsc else if b1 =? 80 then ODcs else ONormal
      | [] => ONormal
      end
    else if b0 =? 37 then OPercentLine else ONormal
  | [] => ONormal
  end.

(** A byte of a candidate [c], which it extends. *)
Definition candidate_byte (d : TmuxControlDetector) (c : bytes) (byte : Z) : step_result :=
  let c := c ++ [byte] in
  let d := set_output d (line_start d) (out_track d) (Some c) (startup d) (startup_offset d) (candidate_deadline d) in
  if (CONFIRM_MAX_BYTES <? length c)%nat then let r := expire_candidate d in Stop r.2 r.1
  else if (startup_offset d =? 0)%nat && (length c <=? length (candidate_prefix c))%nat
          && negb (bool_decide (is_Some (strip_prefix c (candidate_prefix c)))) then
    let line_start_before := line_start d in
    let r := take_candidate d in
    Next (set_output r.2 (if bool_decide (head c = Some 27) then line_start_before else line_start r.2) (rejected_track c)
            None default_startup 0 None) r.1
  else if byte =? 10 then
    let line := drop (startup_offset d) (take (length c - 1) c) in
    let line := if (startup_offset d =? 0)%nat then default line (strip_prefix CONTROL_PREFIX line) else line in
    match startup_line (startup d) line with
    | Some (true, st) =>
      let r := take_candidate d in
      let d' := r.2 in
      Take (mkDetector (line_start d') (out_track d') (candidate d') true (startup d') (startup_offset d') (candidate_deadline d')
              (input_line d') (input_track d') (armed_at d') (blind_arm_at d') (echo_tail d') (saw_shell_output d') (input_saw_escape d')
              (silence_hint_sent d')) r.1
    | Some (false, st) => Next (set_output d (line_start d) (out_track d) (Some c) st (length c) (candidate_deadline d)) []
    | None => let r := take_candidate d in Next r.2 r.1
    end
  else Next d [].

Definition output_byte (d : TmuxControlDetector) (byte now : Z) : step_result :=
  match candidate d with
  | Some c => candidate_byte d c byte
  | None =>
    match out_track d with
    | ONormal =>
      if (byte =? 27) || (line_start d && (byte =? 37))
      then candidate_byte (set_output d (line_start d) ONormal (Some []) (startup d) (startup_offset d) (Some (now + CONFIRM_TIMEOUT))) [] byte
      else Next (forward_byte d byte) [byte]
    | track =>
      Next (set_output d (match track with OPercentLine => (byte =? 10) || line_start d | _ => line_start d end) (track_output track byte)
              None (startup d) (startup_offset d) (candidate_deadline d)) [byte]
    end
  end.

Fixpoint feed_loop (d : TmuxControlDetector) (out data : bytes) (now : Z) : TmuxFeed * TmuxControlDetector :=
  match data with
  | [] => (Passthrough out, d)
  | byte :: data' =>
    match output_byte d byte now with
    | Next d' o => feed_loop d' (out ++ o) data' now
    | Stop d' o => (Passthrough ((out ++ o) ++ data'), d')
    | Take d' st => (Detected out st data', d')
    end
  end.

Definition feed (d : TmuxControlDetector) (data : bytes) (now : Z) : TmuxFeed * TmuxControlDetector :=
  if is_done d then (Passthrough data, d)
  else
    let e := if match candidate_deadline d with Some deadline => deadline <=? now | None => false end then expire_candidate d else ([], d) in
    let d := e.2 in
    if negb (is_armed d now) then
      let t := if bool_decide (is_Some (candidate d)) then take_candidate d else ([], d) in
      let d := t.2 in
      (Passthrough ((e.1 ++ t.1) ++ data),
       match last data with
       | Some b => set_output d (is_crlf b) (out_track d) (candidate d) (startup d) (startup_offset d) (candidate_deadline d)
       | None => d
       end)
    else feed_loop d e.1 data now.

(** ** The startup of a control client *)

(** The lines one after the other; [None] when one is rejected. *)
Fixpoint accept_all (s : Startup) (ls : list bytes) : option (bool * Startup) :=
  match ls with
  | [] => Some (st_completed s && st_session s, s)
  | l :: ls' => match startup_line s l with Some (_, s') => accept_all s' ls' | None => None end
  end.

Lemma startup_line_result s l b s' : startup_line s l = Some (b, s') -> b = st_completed s' && st_session s'.
Proof.
  unfold startup_line. destruct (negb (utf8_valid l)); [done|].
  destruct (parse_line (trim_crs l)) as [[]|], (st_block s); try done; try (by intros [= <- <-]).
  - by destruct (st_completed s); [|intros [= <- <-]].
  - destruct (bool_decide _); [by intros [= <- <-]|done].
  - destruct (strip_prefix [36] session) as [digits|]; cbn; [|done]. destruct (parse_uint 64 10 digits); cbn; [by intros [= <- <-]|done].
Qed.

Lemma accept_all_snoc s ls l :
  accept_all s (ls ++ [l])
  = match accept_all s ls with
    | Some (_, s') => match startup_line s' l with Some r => Some r | None => None end
    | None => None
    end.
Proof.
  revert s. induction ls as [|x ls IH]; intros s; cbn [app accept_all].
  - destruct (startup_line s l) as [[b s']|] eqn:E; [|done]. by rewrite (startup_line_result _ _ _ _ E).
  - destruct (startup_line s x) as [[b s']|]; [apply IH|done].
Qed.

(** The bytes a control client starts with: an optional prefix and lines that are accepted. *)
Definition startup_bytes (st : bytes) (s : Startup) : Prop :=
  exists pre ls b, st = pre ++ unlines ls /\ (pre = [] \/ pre = CONTROL_PREFIX) /\ Forall no_lf ls /\ accept_all default_startup ls = Some (b, s).

(** A control client has announced itself: a block that is begun and ended, and a session. *)
Definition announced (ls : list bytes) : Prop :=
  (exists i j l1 l2 id, (i < j)%nat /\ ls !! i = Some l1 /\ ls !! j = Some l2 /\ begins l1 id /\ ends l2 id)
  /\ exists k l digits n, ls !! k = Some l /\ parse_line (trim_crs l) = Some (SessionChanged (36 :: digits)) /\ parse_uint 64 10 digits = Some n.

Definition traced (ls : list bytes) (s : Startup) : Prop :=
  (forall id, st_block s = Some id -> exists i l, ls !! i = Some l /\ begins l id)
  /\ (st_completed s = true -> exists i j l1 l2 id, (i < j)%nat /\ ls !! i = Some l1 /\ ls !! j = Some l2 /\ begins l1 id /\ ends l2 id)
  /\ (st_session s = true -> exists k l digits n, ls !! k = Some l
        /\ parse_line (trim_crs l) = Some (SessionChanged (36 :: digits)) /\ parse_uint 64 10 digits = Some n).

Lemma traced_app ls l s : traced ls s -> traced (ls ++ [l]) s.
Proof.
  intros (Hb & Hc & Hs). split_and!.
  - intros id (i & l1 & Hi & ?)%Hb. exists i, l1. split; [by apply lookup_app_l_Some|done].
  - intros (i & j & l1 & l2 & id & ? & Hi & Hj & ?)%Hc. exists i, j, l1, l2, id. split_and!; [done|by apply lookup_app_l_Some..|tauto|tauto].
  - intros (k & l1 & ds & n & Hk & ?)%Hs. exists k, l1, ds, n. split; [by apply lookup_app_l_Some|done].
Qed.

Lemma traced_step ls s l b s' : traced ls s -> startup_line s l = Some (b, s') -> traced (ls ++ [l]) s'.
Proof.
  intros Ht Hl. pose proof (traced_app ls l s Ht) as Ht'. assert (Hlast : (ls ++ [l]) !! length ls = Some l) by (by rewrite lookup_app_r, Nat.sub_diag).
  destruct Ht as (Hb & _), Ht' as (Hb' & Hc' & Hs'). unfold startup_line in Hl. destruct (utf8_valid l) eqn:Hu; [|done]. cbn [negb] in Hl.
  destruct (parse_line (trim_crs l)) as [[]|] eqn:Hp; destruct (st_block s) as [blk|] eqn:Hblk; try done;
    try (injection Hl as <- <-; split_and!; [rewrite Hblk; exact Hb'|done|done]).
  - destruct (st_completed s) eqn:Hcomp; [done|]. injection Hl as <- <-. split_and!; cbn; [|done|done]. intros ? [= <-]. by exists (length ls), l.
  - destruct (bool_decide_reflect (Some blk = Some id)) as [[= ->]|]; [|done]. injection Hl as <- <-. split_and!; cbn; [done| |done]. intros _.
    destruct (Hb id eq_refl) as (i & l1 & Hi & Hb1). exists i, (length ls), l1, l, id. pose proof (lookup_lt_Some _ _ _ Hi).
    split_and!; [done|by apply lookup_app_l_Some|done|done|by split].
  - destruct (strip_prefix [36] session) as [digits|] eqn:Hd; cbn in Hl; [|done]. destruct (parse_uint 64 10 digits) as [n|] eqn:Hn; cbn in Hl; [|done].
    injection Hl as <- <-. split_and!; cbn; [done|done|]. intros _. apply strip_prefix_Some in Hd as ->. by exists (length ls), l, digits, n.
Qed.

Lemma accept_traced ls b s : accept_all default_startup ls = Some (b, s) -> traced ls s.
Proof.
  revert b s. induction ls as [|l ls IH] using rev_ind; intros b s Ha; [injection Ha as _ <-; done|].
  rewrite accept_all_snoc in Ha. destruct (accept_all default_startup ls) as [[b' s']|]; [|done].
  destruct (startup_line s' l) as [[]|] eqn:E; [|done]. injection Ha as -> ->. eapply traced_step; [by eapply IH|done].
Qed.

Lemma accepted_announced ls s : accept_all default_startup ls = Some (true, s) -> announced ls.
Proof.
  intros Ha. destruct (accept_traced _ _ _ Ha) as (_ & Hc & Hs). assert (Hr : st_completed s && st_session s = true).
  { destruct ls as [|l ls] using rev_ind; [by injection Ha as ? <-|]. rewrite accept_all_snoc in Ha. destruct (accept_all _ _) as [[b' s']|]; [|done].
    destruct (startup_line s' l) as [[]|] eqn:E; [|done]. injection Ha as -> ->. by apply startup_line_result in E. }
  apply andb_true_iff in Hr as [??]. by split; [apply Hc|apply Hs].
Qed.

(** ** Nothing is lost *)

Definition withheld (d : TmuxControlDetector) : bytes := default [] (candidate d).

(** What has been read of a candidate is a beginning of the startup; the rest is part of a line. *)
Definition candidate_read (c : bytes) (off : nat) (s : Startup) : Prop :=
  (length c <= CONFIRM_MAX_BYTES)%nat /\ (off <= length c)%nat /\ no_lf (drop off c)
  /\ ((off = 0%nat /\ s = default_startup) \/ ((0 < off)%nat /\ startup_bytes (take off c) s)).

Definition detector_ok (d : TmuxControlDetector) : Prop :=
  is_done d = false
  /\ match candidate d with
     | Some c => candidate_read c (startup_offset d) (startup d)
     | None => startup_offset d = 0%nat /\ startup d = default_startup
     end.

Lemma startup_bytes_snoc pre ls b s l b' s' :
  (pre = [] \/ pre = CONTROL_PREFIX) -> Forall no_lf ls -> accept_all default_startup ls = Some (b, s) -> no_lf l -> startup_line s l = Some (b', s') ->
  exists ls', pre ++ unlines ls ++ l ++ [10] = pre ++ unlines ls' /\ Forall no_lf ls' /\ accept_all default_startup ls' = Some (b', s').
Proof.
  intros Hp Hls Ha Hl Hs. exists (ls ++ [l]). split_and!.
  - unfold unlines. rewrite fmap_app, concat_app. cbn. by rewrite app_nil_r.
  - apply Forall_app. by split; [|apply Forall_singleton].
  - by rewrite accept_all_snoc, Ha, Hs.
Qed.

(** The line that a newline completes continues the startup. *)
Lemma candidate_line c off s b s' :
  candidate_read c off s ->
  startup_line s (let line := drop off c in if (off =? 0)%nat then default line (strip_prefix CONTROL_PREFIX line) else line) = Some (b, s') ->
  exists pre ls, c ++ [10] = pre ++ unlines ls /\ (pre = [] \/ pre = CONTROL_PREFIX) /\ Forall no_lf ls /\ accept_all default_startup ls = Some (b, s').
Proof.
  intros (Hlen & Hoff & Hlf & Hcase) Hs. cbv zeta in Hs. destruct Hcase as [[-> ->]|[Hpos (pre & ls & b0 & Hst & Hpre & Hls & Ha)]].
  - cbn [Nat.eqb] in Hs. rewrite drop_0 in Hs, Hlf. destruct (strip_prefix CONTROL_PREFIX c) as [l|] eqn:E; cbn in Hs.
    + apply strip_prefix_Some in E as ->. assert (Hl : no_lf l) by (intros Hin; apply Hlf, elem_of_app; by right).
      destruct (startup_bytes_snoc CONTROL_PREFIX [] _ _ l b s' (or_intror eq_refl) (Forall_nil_2 _) eq_refl Hl Hs) as (ls' & E & ? & ?).
      exists CONTROL_PREFIX, ls'. split_and!; [|by right|done|done]. rewrite <- app_assoc. exact E.
    + destruct (startup_bytes_snoc [] [] _ _ c b s' (or_introl eq_refl) (Forall_nil_2 _) eq_refl Hlf Hs) as (ls' & E' & ? & ?).
      exists [], ls'. split_and!; [exact E'|by left|done|done].
  - destruct (Nat.eqb_spec off 0); [lia|].
    destruct (startup_bytes_snoc pre ls _ _ _ b s' Hpre Hls Ha Hlf Hs) as (ls' & E & ? & ?).
    exists pre, ls'. split_and!; [|done..]. rewrite <- E, app_assoc, <- Hst, app_assoc. by rewrite take_drop.
Qed.

Lemma candidate_byte_spec d c byte :
  is_done d = false -> candidate_read c (startup_offset d) (startup d) ->
  match candidate_byte d c byte with
  | Next d' o => detector_ok d' /\ o ++ withheld d' = c ++ [byte]
  | Stop d' o => detector_ok d' /\ withheld d' = [] /\ o = c ++ [byte]
  | Take d' st => st = c ++ [byte] /\ exists pre ls, st = pre ++ unlines ls /\ (pre = [] \/ pre = CONTROL_PREFIX) /\ announced ls
  end.
Proof.
  intros Hd Hread. pose proof Hread as (Hlen & Hoff & Hlf & _). unfold candidate_byte. cbn [set_output startup_offset startup].
  destruct (Nat.ltb_spec CONFIRM_MAX_BYTES (length (c ++ [byte]))) as [Hbig|Hsmall]; [done|].
  destruct ((startup_offset d =? 0)%nat && _ && _); [split; [done|]; cbn; by rewrite app_nil_r|].
  destruct (Z.eqb_spec byte 10) as [->|Hne].
  - rewrite length_app in *. cbn [length] in *. replace (length c + 1 - 1)%nat with (length c) by lia. rewrite take_app_length.
    destruct (startup_line (startup d) _) as [[b st]|] eqn:E; [|split; [done|]; cbn; by rewrite app_nil_r].
    destruct (candidate_line c _ _ b st Hread E) as (pre & ls & Hc & Hpre & Hls & Ha). destruct b.
    + split; [done|]. exists pre, ls. split_and!; [done..|]. by eapply accepted_announced.
    + split; [|done]. split; [done|]. cbn. unfold candidate_read. rewrite length_app. cbn [length]. split_and!; [lia|lia| |].
      * rewrite drop_ge by (rewrite length_app; cbn; lia). by apply not_elem_of_nil.
      * right. split; [lia|]. exists pre, ls, false. split_and!; [|done..]. rewrite take_ge by (rewrite length_app; cbn; lia). done.
  - split; [|done]. split; [done|]. cbn. destruct Hread as (_ & _ & _ & Hcase). unfold candidate_read. split_and!; [lia|rewrite length_app; lia| |].
    + rewrite drop_app_le by done. intros [Hin|Hin%list_elem_of_singleton]%elem_of_app; [by apply Hlf|lia].
    + by rewrite take_app_le.
Qed.

Definition started (st : bytes) : Prop := exists pre ls, st = pre ++ unlines ls /\ (pre = [] \/ pre = CONTROL_PREFIX) /\ announced ls.

Lemma output_byte_spec d byte now :
  detector_ok d ->
  match output_byte d byte now with
  | Next d' o => detector_ok d' /\ o ++ withheld d' = withheld d ++ [byte]
  | Stop d' o => detector_ok d' /\ withheld d' = [] /\ o = withheld d ++ [byte]
  | Take d' st => st = withheld d ++ [byte] /\ started st
  end.
Proof.
  intros [Hd Hc]. unfold output_byte, withheld. destruct (candidate d) as [c|] eqn:E; [by apply candidate_byte_spec|].
  destruct Hc as [Hoff Hst]. cbn [default].
  destruct (out_track d); try (split; [split; [done|]; cbn; done|done]).
  destruct ((byte =? 27) || _); [|split; [split; [done|]; cbn; done|done]].
  set (d1 := set_output _ _ _ _ _ _ _). apply (candidate_byte_spec d1 [] byte Hd). cbn. rewrite Hoff, Hst. unfold candidate_read. cbn.
  split_and!; [lia|lia|by apply not_elem_of_nil|by left].
Qed.

Lemma feed_loop_spec data d out now :
  detector_ok d ->
  match feed_loop d out data now with
  | (Passthrough o, d') => detector_ok d' /\ o ++ withheld d' = out ++ withheld d ++ data
  | (Detected o st rest, _) => o ++ st ++ rest = out ++ withheld d ++ data /\ started st
  end.
Proof.
  revert d out. induction data as [|byte data IH]; intros d out Hd; cbn [feed_loop]; [by rewrite app_nil_r|].
  pose proof (output_byte_spec d byte now Hd) as Hb. replace (withheld d ++ byte :: data) with ((withheld d ++ [byte]) ++ data) by (by rewrite <- app_assoc).
  destruct (output_byte d byte now) as [d' o|d' o|d' st].
  - destruct Hb as [Hd' <-]. specialize (IH d' (out ++ o) Hd'). destruct (feed_loop d' (out ++ o) data now) as [[o'|o' st rest] d'']; by rewrite <- !app_assoc in *.
  - destruct Hb as (Hd' & -> & ->). by rewrite app_nil_r, <- !app_assoc.
  - destruct Hb as (-> & Hs). done.
Qed.

(** The bytes forwarded so far come first. *)
Lemma feed_loop_out d out data now :
  feed_loop d out data now
  = match feed_loop d [] data now with
    | (Passthrough o, d') => (Passthrough (out ++ o), d')
    | (Detected o st rest, d') => (Detected (out ++ o) st rest, d')
    end.
Proof.
  revert d out. induction data as [|byte data IH]; intros d out; cbn [feed_loop]; [by rewrite app_nil_r|].
  destruct (output_byte d byte now) as [d' o|d' o|d' st]; cbn [app].
  - rewrite (IH d' (out ++ o)), (IH d' o). destruct (feed_loop d' [] data now) as [[]]; by rewrite <- app_assoc.
  - by rewrite <- !app_assoc.
  - by rewrite app_nil_r.
Qed.

Lemma take_candidate_spec d :
  is_done d = false -> detector_ok (take_candidate d).2 /\ (take_candidate d).1 = withheld d /\ withheld (take_candidate d).2 = [].
Proof. intros Hd. done. Qed.

Lemma feed_spec d data now :
  detector_ok d ->
  match feed d data now with
  | (Passthrough o, d') => detector_ok d' /\ o ++ withheld d' = withheld d ++ data
  | (Detected o st rest, _) => o ++ st ++ rest = withheld d ++ data /\ started st /\ is_armed d now = true
  end.
Proof.
  intros Hd. unfold feed. pose proof Hd as [-> _].
  set (e := if match candidate_deadline d with Some deadline => deadline <=? now | None => false end then expire_candidate d else ([], d)).
  assert (He : detector_ok e.2 /\ e.1 ++ withheld e.2 = withheld d /\ (is_armed e.2 now = true -> is_armed d now = true)).
  { unfold e. destruct (match candidate_deadline d with Some deadline => _ | None => _ end); [|done].
    unfold expire_candidate. split_and!; [by destruct Hd|cbn; by rewrite app_nil_r|done]. }
  destruct He as (Hd1 & <- & Harm). destruct (is_armed e.2 now) eqn:Ea; cbn [negb].
  - pose proof (feed_loop_spec data e.2 e.1 now Hd1) as Hf. rewrite <- app_assoc.
    destruct (feed_loop e.2 e.1 data now) as [[o|o st rest] d']; [done|]. destruct Hf. by split_and!; [|done|apply Harm].
  - set (t := if bool_decide (is_Some (candidate e.2)) then take_candidate e.2 else ([], e.2)).
    assert (Ht : detector_ok t.2 /\ t.1 = withheld e.2 /\ candidate t.2 = None).
    { unfold t. destruct (bool_decide_reflect (is_Some (candidate e.2))) as [|Hn]; [by destruct Hd1|].
      rewrite <- eq_None_not_Some in Hn. unfold withheld. cbn [fst snd]. by rewrite Hn. }
    destruct Ht as (Hd2 & -> & Hn). unfold detector_ok, withheld in Hd2 |- *. rewrite Hn in Hd2.
    destruct (last data); cbn; rewrite Hn; cbn; by rewrite app_nil_r.
Qed.

(** ** Runs *)

(** The owner passes on what is typed and what the shell prints, and calls the detector at its
    deadlines. *)
Inductive event := Input (data : bytes) (now : Z) | Output (data : bytes) (now : Z) | Expire | Silence (now : Z).

Definition printed (es : list event) : bytes := concat ((fun e => match e with Output data _ => data | _ => [] end) <$> es).

(** The bytes shown, and the detector or the takeover: what precedes it, the startup, what
    follows it, the time, the detector before it and the events left. *)
Record takeover := mkTakeover { t_pass : bytes; t_startup : bytes; t_rest : bytes; t_now : Z; t_before : TmuxControlDetector; t_events : list event }.

Fixpoint run (d : TmuxControlDetector) (es : list event) : bytes * (TmuxControlDetector + takeover) :=
  match es with
  | [] => ([], inl d)
  | Input data now :: es' => run (feed_input d data now) es'
  | Output data now :: es' =>
    match feed d data now with
    | (Passthrough o, d') => let r := run d' es' in (o ++ r.1, r.2)
    | (Detected pass st rest, _) => ([], inr (mkTakeover pass st rest now d es'))
    end
  | Expire :: es' => let e := expire_candidate d in let r := run e.2 es' in (e.1 ++ r.1, r.2)
  | Silence now :: es' => run (expire_silence d now).2 es'
  end.

(** Input does not touch the output side. *)
Definition same_output (d d' : TmuxControlDetector) : Prop :=
  candidate d' = candidate d /\ startup d' = startup d /\ startup_offset d' = startup_offset d /\ is_done d' = is_done d.

Lemma same_output_ok d d' : same_output d d' -> detector_ok d -> detector_ok d' /\ withheld d' = withheld d.
Proof. unfold same_output, detector_ok, withheld. by intros (-> & -> & -> & ->). Qed.

Lemma evaluate_same d line now : same_output d (evaluate_input_line d line now).
Proof. unfold evaluate_input_line. by repeat case_match. Qed.

Lemma submit_same d now : same_output d (submit_line d now).
Proof.
  unfold submit_line. destruct (forallb _ _); [by case_match|].
  match goal with |- same_output _ (evaluate_input_line ?x _ _) => exact (evaluate_same x (input_line d) now) end.
Qed.

Lemma input_byte_same d byte now : same_output d (input_byte d byte now).
Proof. unfold input_byte. destruct (input_track d); try done. destruct (_ || _); [apply submit_same|]. by repeat case_match. Qed.

Lemma feed_input_same d data now : same_output d (feed_input d data now).
Proof.
  unfold feed_input. destruct (is_done d); [done|]. revert d. induction data as [|b data IH]; intros d; [done|]. cbn [fold_left].
  pose proof (input_byte_same d b now) as (H1 & H2 & H3 & H4). specialize (IH (input_byte d b now)) as (G1 & G2 & G3 & G4).
  unfold same_output. by rewrite <- H1, <- H2, <- H3, <- H4.
Qed.

Lemma expire_silence_same d now : same_output d (expire_silence d now).2.
Proof. unfold expire_silence. by case_match. Qed.

Lemma takeover_run_spec es d :
  detector_ok d ->
  match run d es with
  | (shown, inl d') => detector_ok d' /\ shown ++ withheld d' = withheld d ++ printed es
  | (shown, inr t) => shown ++ t_pass t ++ t_startup t ++ t_rest t ++ printed (t_events t) = withheld d ++ printed es
      /\ started (t_startup t) /\ is_armed (t_before t) (t_now t) = true
  end.
Proof.
  revert d. induction es as [|[data now|data now| |now] es IH]; intros d Hd; cbn [run].
  - by rewrite app_nil_r.
  - destruct (same_output_ok _ _ (feed_input_same d data now) Hd) as [Hd' <-]. exact (IH _ Hd').
  - change (printed (Output data now :: es)) with (data ++ printed es). pose proof (feed_spec d data now Hd) as Hf.
    rewrite (app_assoc (withheld d)). destruct (feed d data now) as [[o|o st rest] d'].
    + destruct Hf as [Hd' <-]. specialize (IH d' Hd'). rewrite <- app_assoc. destruct (run d' es) as [shown [d''|t]]; cbn [fst snd].
      * destruct IH as [? <-]. by rewrite <- app_assoc.
      * destruct IH as (<- & ?). by rewrite <- app_assoc.
    + destruct Hf as (<- & ? & ?). cbn. by rewrite <- !app_assoc.
  - destruct Hd as [Hdone _]. destruct (take_candidate_spec (set_arm d None None (out_track d) (echo_tail d) (saw_shell_output d) (silence_hint_sent d)) Hdone) as (Hd' & He & Hw).
    fold (expire_candidate d) in Hd', He, Hw. change (printed (Expire :: es)) with (printed es). specialize (IH _ Hd'). rewrite Hw in IH.
    change (withheld (set_arm d None None (out_track d) (echo_tail d) (saw_shell_output d) (silence_hint_sent d))) with (withheld d) in He. rewrite <- He.
    destruct (run (expire_candidate d).2 es) as [shown [d''|t]]; cbn [fst snd]; destruct IH as [? IH].
    + by rewrite <- app_assoc, IH.
    + split; [|done]. rewrite <- app_assoc. f_equal. done.
  - destruct (same_output_ok _ _ (expire_silence_same d now) Hd) as [Hd' <-]. exact (IH _ Hd').
Qed.

(** C15: Whatever is typed, printed and timed, the detector loses no output and keeps it in order:
    shown and withheld bytes make up what was printed, with at most 512 KiB withheld; and a shell
    is taken over only while the detector is armed and after a startup whose lines are a begun
    and ended block and the announcement of a session. *)
Theorem takeover_sound es :
  match run new_detector es with
  | (shown, inl d) => shown ++ withheld d = printed es /\ (length (withheld d) <= CONFIRM_MAX_BYTES)%nat
  | (shown, inr t) =>
    shown ++ t_pass t ++ t_startup t ++ t_rest t ++ printed (t_events t) = printed es
    /\ is_armed (t_before t) (t_now t) = true
    /\ exists pre ls, t_startup t = pre ++ unlines ls /\ (pre = [] \/ pre = CONTROL_PREFIX) /\ announced ls
  end.
Proof.
  pose proof (takeover_run_spec es new_detector (conj eq_refl (conj eq_refl eq_refl))) as H. destruct (run new_detector es) as [shown [d|t]].
  - destruct H as [[_ Hd] Hs]. split; [done|]. unfold withheld. destruct (candidate d) as [c|]; cbn; [apply Hd|lia].
  - destruct H as (Hs & Hst & Ha). by split_and!.
Qed.

(** ** A control client is detected *)

Lemma first_lf a b x y : no_lf a -> no_lf b -> a ++ 10 :: x = b ++ 10 :: y -> a = b /\ x = y.
Proof.
  unfold no_lf. revert b. induction a as [|c a IH]; intros [|c' b] Ha Hb E; cbn in E; injection E; intros; subst.
  - done.
  - by rewrite elem_of_cons in Hb; destruct Hb; left.
  - by rewrite elem_of_cons in Ha; destruct Ha; left.
  - rewrite !elem_of_cons in *. destruct (IH b) as [-> ->]; [tauto..|done|done].
Qed.

Lemma prefix_of_prefix (a p x y : bytes) : a ++ x = p ++ y -> (length a <= length p)%nat -> is_Some (strip_prefix a p).
Proof.
  intros E Hl. apply (f_equal (take (length p))) in E. rewrite take_app_length in E. rewrite <- E, take_app_ge by done. rewrite strip_prefix_app. eauto.
Qed.

Section Reading.
(** The startup of a control client, accepted with its last line and not before. *)
Context (pre : bytes) (ls : list bytes).
Let st : bytes := pre ++ unlines ls.
Context (Hpre : pre = CONTROL_PREFIX \/ (pre = [] /\ exists l ls', ls = (bs "%begin " ++ l) :: ls')).
Context (Hlf : Forall no_lf ls) (Hmax : (length st <= CONFIRM_MAX_BYTES)%nat).
Context (Hacc : exists s, accept_all default_startup ls = Some (true, s)).
Context (Hfirst : forall ls1 ls2 b s, ls = ls1 ++ ls2 -> ls2 <> [] -> accept_all default_startup ls1 = Some (b, s) -> b = false).

(** [c] has been read of the startup, [off] bytes of it as lines, and [todo] is left. *)
Definition reading (c : bytes) (off : nat) (s : Startup) (todo : bytes) : Prop :=
  c ++ todo = st
  /\ ((off = 0%nat /\ s = default_startup /\ no_lf c)
      \/ exists ls1 ls2 cur b, ls = ls1 ++ ls2 /\ off = length (pre ++ unlines ls1) /\ (0 < off)%nat /\ c = pre ++ unlines ls1 ++ cur
           /\ no_lf cur /\ accept_all default_startup ls1 = Some (b, s)).

Lemma unlines_app a b : unlines (a ++ b) = unlines a ++ unlines b.
Proof. unfold unlines. by rewrite fmap_app, concat_app. Qed.

Lemma unlines_cons l a : unlines (l :: a) = l ++ 10 :: unlines a.
Proof. unfold unlines. cbn. by rewrite <- app_assoc. Qed.

Lemma pre_no_lf : no_lf pre.
Proof. destruct Hpre as [->|[-> _]]; [by apply no_lf_dec|by apply not_elem_of_nil]. Qed.

(** The gate lets every beginning of the startup through. *)
Lemma gate_open c x : c <> [] -> c ++ x = st -> (length c <= length (candidate_prefix c))%nat -> is_Some (strip_prefix c (candidate_prefix c)).
Proof.
  intros Hne E. assert (Hp : exists y, st = candidate_prefix c ++ y); [|destruct Hp as [y Hy]; rewrite Hy in E; by eapply prefix_of_prefix].
  destruct c as [|b c]; [done|]. unfold candidate_prefix. cbn [head]. unfold st in E |- *. destruct Hpre as [->|[-> (l & ls' & ->)]].
  - assert (b = 27) as -> by (cbn in E; congruence). rewrite bool_decide_true by done. by exists (unlines ls).
  - rewrite unlines_cons in E |- *. cbn in E. injection E as -> _. rewrite bool_decide_false by done. eexists. rewrite app_nil_l, <- app_assoc. reflexivity.
Qed.

(** The line that a newline completes. *)
Lemma reading_line c off s todo :
  reading c off s (10 :: todo) ->
  exists ls1 l ls2 b, ls = ls1 ++ l :: ls2 /\ c ++ [10] = pre ++ unlines (ls1 ++ [l]) /\ todo = unlines ls2 /\ accept_all default_startup ls1 = Some (b, s)
    /\ (let line := drop off c in if (off =? 0)%nat then default line (strip_prefix CONTROL_PREFIX line) else line) = l.
Proof.
  pose proof pre_no_lf as Hnl. intros [E [(-> & -> & Hc)|(ls1 & ls2 & cur & b & Hls & -> & Hpos & -> & Hcur & Ha)]].
  - unfold st in E. destruct ls as [|l ls'] eqn:Els.
    { exfalso. change (unlines []) with (@nil Z) in E. rewrite app_nil_r in E. apply Hnl. rewrite <- E. apply elem_of_app. right. by left. }
    rewrite unlines_cons, app_assoc in E. apply Forall_cons in Hlf as [Hl _].
    apply first_lf in E as [-> ->]; [|done|]. 2:{ intros [?|?]%elem_of_app; [by apply Hnl|done]. }
    exists [], l, ls', false. split_and!; [done| |done|done|].
    + rewrite app_nil_l, unlines_cons, <- app_assoc. done.
    + cbn [Nat.eqb]. rewrite drop_0. destruct Hpre as [->|[-> (l' & ls'' & [= -> _])]]; [by rewrite strip_prefix_app|done].
  - unfold st in E. rewrite Hls, unlines_app, <- !app_assoc in E. apply app_inv_head, app_inv_head in E.
    destruct ls2 as [|l ls2]; [by destruct cur|]. rewrite unlines_cons in E. rewrite Hls in Hlf. apply Forall_app in Hlf as [_ [Hl _]%Forall_cons].
    apply first_lf in E as [-> ->]; [|done..]. exists ls1, l, ls2, b. split_and!; [done| |done|done|].
    + rewrite unlines_app, unlines_cons, <- !app_assoc. done.
    + destruct (Nat.eqb_spec (length (pre ++ unlines ls1)) 0); [lia|]. cbv zeta. by rewrite app_assoc, drop_app_length.
Qed.

(** The startup ends with a newline. *)
Lemma startup_end : exists st', st = st' ++ [10].
Proof.
  unfold st. destruct ls as [|l ls0] using rev_ind; [by destruct Hacc as [s ?]|]. exists (pre ++ unlines ls0 ++ l).
  rewrite unlines_app, unlines_cons, <- !app_assoc. done.
Qed.

Lemma candidate_byte_reading d c byte todo :
  reading c (startup_offset d) (startup d) (byte :: todo) ->
  (todo = [] /\ exists d', candidate_byte d c byte = Take d' st)
  \/ (exists d', candidate_byte d c byte = Next d' [] /\ candidate d' = Some (c ++ [byte]) /\ candidate_deadline d' = candidate_deadline d
        /\ armed_at d' = armed_at d /\ is_done d' = is_done d /\ reading (c ++ [byte]) (startup_offset d') (startup d') todo /\ todo <> []).
Proof.
  intros Hr. pose proof Hr as [E Hcase]. assert (Hst : (c ++ [byte]) ++ todo = st) by (rewrite <- app_assoc; exact E).
  unfold candidate_byte. cbn [set_output startup_offset startup]. destruct (Nat.ltb_spec CONFIRM_MAX_BYTES (length (c ++ [byte]))) as [Hbig|_].
  { exfalso. rewrite <- Hst, length_app in Hmax. lia. }
  assert (Hgate : (startup_offset d =? 0)%nat && (length (c ++ [byte]) <=? length (candidate_prefix (c ++ [byte])))%nat
          && negb (bool_decide (is_Some (strip_prefix (c ++ [byte]) (candidate_prefix (c ++ [byte]))))) = false).
  { destruct (Nat.leb_spec (length (c ++ [byte])) (length (candidate_prefix (c ++ [byte])))) as [Hle|]; [|by rewrite andb_false_r].
    rewrite bool_decide_true; [by rewrite andb_false_r|]. eapply gate_open; [by destruct c|done|done]. }
  rewrite Hgate. destruct (Z.eqb_spec byte 10) as [->|Hne].
  - rewrite length_app. cbn [length]. replace (length c + 1 - 1)%nat with (length c) by lia. rewrite take_app_length.
    destruct (reading_line _ _ _ _ Hr) as (ls1 & l & ls2 & b & Hls & Hc & -> & Ha & Hl). cbv zeta in Hl |- *. rewrite Hl.
    assert (Hsnoc : exists b' s', startup_line (startup d) l = Some (b', s') /\ accept_all default_startup (ls1 ++ [l]) = Some (b', s')).
    { destruct Hacc as [s Hs]. rewrite Hls, cons_middle, app_assoc in Hs. assert (Hn : accept_all default_startup (ls1 ++ [l]) <> None).
      { intros Hn. revert Hs Hn. generalize (ls1 ++ [l]), default_startup. intros l0. induction l0 as [|x l0 IH]; intros s0; [done|]. cbn.
        destruct (startup_line s0 x) as [[]|]; [apply IH|done]. }
      rewrite accept_all_snoc, Ha in Hn |- *. destruct (startup_line (startup d) l) as [[b' s']|]; [by eauto|done]. }
    destruct Hsnoc as (b' & s' & -> & Hsn). destruct (decide (ls2 = [])) as [->|Hne].
    + left. split; [done|]. rewrite <- Hls in Hsn. destruct Hacc as [s Hs]. rewrite Hs in Hsn. injection Hsn as <- <-.
      eexists. cbn. f_equal. rewrite Hc. unfold st. by rewrite Hls.
    + right. assert (b' = false) as -> by (eapply (Hfirst (ls1 ++ [l]) ls2); [by rewrite <- app_assoc|done..]).
      eexists. split_and!; [reflexivity|done..| |by destruct ls2 as [|[] ?]]. cbn. split; [done|]. right. exists (ls1 ++ [l]), ls2, [], false.
      split_and!; [by rewrite <- app_assoc| | |by rewrite app_nil_r|by apply not_elem_of_nil|done].
      * rewrite <- Hc, length_app. cbn. done.
      * lia.
  - right. eexists. split_and!; [reflexivity|done..| |].
    2:{ intros ->. rewrite app_nil_r in Hst. destruct startup_end as [st' Hend]. rewrite <- Hst in Hend. by apply app_inj_tail in Hend as [_ ?]. }
    cbn. split; [done|]. destruct Hcase as [(-> & -> & Hc)|(ls1 & ls2 & cur & b & Hls & -> & Hpos & -> & Hcur & Ha)].
    + left. split_and!; [done..|]. intros [?|?%list_elem_of_singleton]%elem_of_app; [by apply Hc|lia].
    + right. exists ls1, ls2, (cur ++ [byte]), b. split_and!; [done..|by rewrite <- !app_assoc| |done].
      intros [?|?%list_elem_of_singleton]%elem_of_app; [by apply Hcur|lia].
Qed.

(** Bytes of a chunk that continues the startup. *)
Lemma feed_loop_reading data d c todo now x y :
  candidate d = Some c -> reading c (startup_offset d) (startup d) todo -> todo <> [] -> data ++ x = todo ++ y ->
  (exists data' d', data = todo ++ data' /\ feed_loop d [] data now = (Detected [] st data', d'))
  \/ (exists d' todo', todo = data ++ todo' /\ todo' <> [] /\ feed_loop d [] data now = (Passthrough [], d') /\ candidate d' = Some (c ++ data)
        /\ candidate_deadline d' = candidate_deadline d /\ armed_at d' = armed_at d /\ is_done d' = is_done d
        /\ reading (c ++ data) (startup_offset d') (startup d') todo').
Proof.
  revert d c todo. induction data as [|b data IH]; intros d c todo Hc Hr Hne E.
  { right. exists d, todo. rewrite app_nil_r. done. }
  destruct todo as [|b' todo]; [done|]. cbn in E. injection E as <- E. cbn [feed_loop]. unfold output_byte. rewrite Hc.
  destruct (candidate_byte_reading d c b todo Hr) as [[-> (d' & ->)]|(d' & -> & Hc' & Hdl & Harm & Hdone & Hr' & Htodo)]; [left; by exists data, d'|].
  destruct (IH d' (c ++ [b]) todo Hc' Hr' Htodo E) as [(data' & d'' & -> & Hf)|(d'' & todo' & -> & Hne' & Hf & Hc'' & Hdl' & Harm' & Hdone' & Hr'')].
  - left. by exists data', d''.
  - right. exists d'', todo'. rewrite <- app_assoc in Hc'', Hr''. rewrite Hdl', Harm', Hdone'. by split_and!.
Qed.

(** *** The detector at work *)

Context (t0 : Z).

(** Armed at [t0] and waiting for the startup, with [todo] of it still to come; [echo] is text
    before it, of which nothing has come yet. *)
Definition watching (d : TmuxControlDetector) (echo todo : bytes) : Prop :=
  is_done d = false /\ armed_at d = Some t0
  /\ ((candidate d = None /\ candidate_deadline d = None /\ out_track d = ONormal /\ startup_offset d = 0%nat /\ startup d = default_startup
        /\ todo = st /\ Forall (fun b => b <> 27 /\ b <> 37) echo
        /\ (pre = CONTROL_PREFIX \/ (match last echo with Some b => is_crlf b | None => line_start d end) = true))
      \/ (echo = [] /\ exists c dl, candidate d = Some c /\ candidate_deadline d = Some dl /\ t0 + CONFIRM_TIMEOUT <= dl
           /\ reading c (startup_offset d) (startup d) todo)).

(** The text before the startup is forwarded. *)
Lemma feed_loop_echo echo1 echo2 d out data now :
  watching d (echo1 ++ echo2) st -> candidate d = None ->
  exists d', feed_loop d out (echo1 ++ data) now = feed_loop d' (out ++ echo1) data now /\ watching d' echo2 st /\ candidate d' = None.
Proof.
  revert d out. induction echo1 as [|b echo1 IH]; intros d out Hw Hc; [exists d; by rewrite app_nil_r|].
  destruct Hw as (Hd & Harm & [(_ & Hdl & Ho & Hoff & Hs & _ & He & Hl)|(? & c & dl & Hc' & _)]); [|congruence].
  cbn [app] in He, Hl. apply Forall_cons in He as [[H27 H37] He]. cbn [app feed_loop]. unfold output_byte. rewrite Hc, Ho.
  destruct (Z.eqb_spec b 27); [done|]. destruct (Z.eqb_spec b 37); [done|]. rewrite andb_false_r. cbn [orb].
  destruct (IH (forward_byte d b) (out ++ [b])) as (d' & -> & Hw' & Hc'); [|done|].
  - split; [done|]. split; [done|]. left. cbn. split_and!; try done. destruct Hl as [|Hl]; [by left|right].
    rewrite last_cons in Hl. by destruct (last (echo1 ++ echo2)).
  - exists d'. by rewrite <- app_assoc.
Qed.

Lemma feed_loop_watching d echo todo data now x y :
  watching d echo todo -> todo <> [] -> t0 <= now -> data ++ x = (echo ++ todo) ++ y ->
  (exists data' d', data = (echo ++ todo) ++ data' /\ feed_loop d [] data now = (Detected echo st data', d'))
  \/ (exists d' shown echo' todo', echo ++ todo = data ++ echo' ++ todo' /\ shown ++ echo' = echo /\ todo' <> []
        /\ feed_loop d [] data now = (Passthrough shown, d') /\ watching d' echo' todo').
Proof.
  intros Hw Hne Hnow E. assert (Hread : forall d c todo data, candidate d = Some c -> (exists dl, candidate_deadline d = Some dl /\ t0 + CONFIRM_TIMEOUT <= dl) ->
    is_done d = false -> armed_at d = Some t0 -> reading c (startup_offset d) (startup d) todo -> todo <> [] -> data ++ x = todo ++ y ->
    (exists data' d', data = todo ++ data' /\ feed_loop d [] data now = (Detected [] st data', d'))
    \/ (exists d' todo', todo = data ++ todo' /\ todo' <> [] /\ feed_loop d [] data now = (Passthrough [], d') /\ watching d' [] todo')).
  { intros d0 c todo0 data0 Hc (dl & Hdl & Hle) Hd Harm Hr Hn E0.
    destruct (feed_loop_reading data0 d0 c todo0 now x y Hc Hr Hn E0) as [?|(d' & todo' & -> & Hn' & Hf & Hc' & Hdl' & Harm' & Hd' & Hr')]; [by left|right].
    exists d', todo'. split_and!; [done..|]. split; [congruence|]. split; [congruence|]. right. split; [done|]. exists (c ++ data0), dl. split_and!; try done. congruence. }
  pose proof Hw as (Hd & Harm & [(Hc & Hdl & Ho & Hoff & Hs & -> & He & Hl)|(-> & c & dl & Hc & Hdl & Hle & Hr)]).
  2:{ destruct (Hread d c todo data Hc ltac:(by exists dl) Hd Harm Hr Hne E) as [(data' & d' & -> & Hf)|(d' & todo' & -> & Hn' & Hf & Hw')].
      - left. by exists data', d'.
      - right. exists d', [], [], todo'. done. }
  destruct (decide (length data <= length echo)%nat) as [Hle|Hgt].
  - right. assert (Ed : echo = data ++ drop (length data) echo).
    { rewrite <- app_assoc in E. apply (f_equal (take (length data))) in E. rewrite take_app_length, take_app_le in E by done. rewrite E at 1. by rewrite take_drop. }
    set (echo2 := drop (length data) echo) in *. clearbody echo2. subst echo.
    destruct (feed_loop_echo data echo2 d [] [] now Hw Hc) as (d' & Hf & Hw' & _). rewrite app_nil_r in Hf.
    exists d', data, echo2, st. split_and!; [by rewrite <- app_assoc|done..].
  - assert (Ed : exists b data2, data = echo ++ b :: data2).
    { rewrite <- app_assoc in E. apply (f_equal (take (length echo))) in E. rewrite take_app_length, take_app_le in E by lia.
      destruct (drop (length echo) data) as [|b data2] eqn:Edrop; [apply (f_equal length) in Edrop; rewrite length_drop in Edrop; cbn in Edrop; lia|].
      exists b, data2. by rewrite <- E, <- Edrop, take_drop. }
    destruct Ed as (b & data2 & ->). rewrite <- !app_assoc in E. apply app_inv_head in E.
    rewrite <- (app_nil_r echo) in Hw. destruct (feed_loop_echo echo [] d [] (b :: data2) now Hw Hc) as (d1 & Hf & Hw1 & Hc1).
    destruct Hw1 as (Hd1 & Harm1 & [(_ & _ & Ho1 & Hoff1 & Hs1 & _ & _ & Hl1)|(_ & ? & ? & ? & _)]); [|congruence].
    set (d2 := set_output d1 (line_start d1) ONormal (Some []) (startup d1) (startup_offset d1) (Some (now + CONFIRM_TIMEOUT))).
    assert (Hstart : feed_loop d1 ([] ++ echo) (b :: data2) now = feed_loop d2 ([] ++ echo) (b :: data2) now).
    { cbn [feed_loop]. unfold output_byte. rewrite Hc1, Ho1. change (candidate d2) with (Some (@nil Z)). cbv iota beta.
      replace ((b =? 27) || (line_start d1 && (b =? 37))) with true; [done|]. unfold st in E. destruct Hpre as [Hp|[Hp (l & ls' & Hls)]]; rewrite Hp in E.
      - injection E as -> _. done.
      - rewrite Hls, unlines_cons in E. injection E as -> _. destruct Hl1 as [Hl1|Hl1]; [rewrite Hp in Hl1; discriminate|]. cbn in Hl1. by rewrite Hl1. }
    rewrite Hstart in Hf.
    destruct (Hread d2 [] st (b :: data2) eq_refl ltac:(eexists; split; [done|lia]) Hd1 Harm1) as [(data' & d' & Hdata & Hf')|(d' & todo' & Htodo & Hn' & Hf' & Hw')].
    + split; [done|]. left. cbn. split_and!; [done..|by apply not_elem_of_nil].
    + done.
    + done.
    + left. exists data', d'. split; [by rewrite Hdata, <- app_assoc|]. rewrite Hf. rewrite feed_loop_out, Hf'. cbn. by rewrite app_nil_r.
    + right. exists d', echo, [], todo'. split_and!; [by rewrite Htodo, <- app_assoc|by rewrite app_nil_r|done| |done].
      rewrite Hf. rewrite feed_loop_out, Hf'. cbn. by rewrite app_nil_r.
Qed.

Lemma feed_watching d echo todo data now : watching d echo todo -> t0 <= now < t0 + CONFIRM_TIMEOUT -> feed d data now = feed_loop d [] data now.
Proof.
  intros (Hd & Harm & Hcase) Hnow. unfold feed. rewrite Hd.
  assert (Hlive : match candidate_deadline d with Some deadline => deadline <=? now | None => false end = false).
  { destruct Hcase as [(_ & -> & _)|(_ & c & dl & _ & -> & Hle & _)]; [done|]. apply Z.leb_gt. lia. }
  rewrite Hlive. cbn [snd fst]. assert (Ha : is_armed d now = true).
  { unfold is_armed, within. rewrite Harm. unfold sat_sub, ARM_WINDOW, CONFIRM_TIMEOUT, second in *.
    destruct (Z.leb_spec (Z.max (now - t0) 0) (30 * (1000 * 1000 * 1000))); [done|lia]. }
  by rewrite Ha.
Qed.

Lemma run_watching chunks d echo todo rest :
  watching d echo todo -> todo <> [] -> Forall (fun c => t0 <= c.2 < t0 + CONFIRM_TIMEOUT) chunks ->
  concat (fst <$> chunks) = (echo ++ todo) ++ rest ->
  exists shown t, run d ((fun c => Output c.1 c.2) <$> chunks) = (shown, inr t)
    /\ shown ++ t_pass t = echo /\ t_startup t = st /\ t_rest t ++ printed (t_events t) = rest.
Proof.
  intros Hw Hne Hall. revert d echo todo Hw Hne. induction Hall as [|[data now] chunks Hnow _ IH]; intros d echo todo Hw Hne E.
  { exfalso. cbn in E. by destruct echo, todo. }
  cbn [fmap list_fmap concat fst snd] in *. cbn [run]. rewrite (feed_watching d echo todo data now Hw Hnow).
  destruct (feed_loop_watching d echo todo data now _ rest Hw Hne ltac:(lia) E) as [(data' & d' & -> & ->)|(d' & shown & echo' & todo' & Hcut & Hecho & Hne' & -> & Hw')].
  - eexists [], _. split; [reflexivity|]. cbn. split_and!; [done..|]. rewrite <- app_assoc in E. apply app_inv_head in E. rewrite <- E. f_equal.
    unfold printed. f_equal. by rewrite <- list_fmap_compose.
  - rewrite Hcut, <- app_assoc in E. apply app_inv_head in E. destruct (IH d' echo' todo' Hw' Hne' E) as (shown' & t & -> & Hs & Ht & Hr).
    exists (shown ++ shown'), t. split; [done|]. split_and!; [|done..]. by rewrite <- app_assoc, Hs.
Qed.

End Reading.

(** ** Typing the command *)

Definition is_plain (b : Z) : Prop := 32 <= b < 256 /\ b <> 127.

Lemma type_plain w line now :
  Forall is_plain w -> (length line + length w <= MAX_INPUT_LINE_BYTES)%nat ->
  fold_left (fun d b => input_byte d b now) w (set_input new_detector line INormal false) = set_input new_detector (line ++ w) INormal false.
Proof.
  intros Hw. revert line. induction Hw as [|b w [Hb Hne] _ IH]; intros line Hl; [by rewrite app_nil_r|]. cbn [fold_left length] in *.
  rewrite (app_assoc line [b] w : line ++ b :: w = (line ++ [b]) ++ w). rewrite <- IH by (rewrite length_app; cbn; lia). f_equal.
  unfold input_byte. cbn [input_track set_input input_line].
  repeat match goal with |- context [?x =? ?n] => destruct (Z.eqb_spec x n); [lia|] end. cbn [orb].
  destruct (Nat.ltb_spec (length line) MAX_INPUT_LINE_BYTES); [done|lia].
Qed.

Lemma blank_no_tokens w : forallb is_ascii_whitespace w = true -> shell_tokens w = [].
Proof.
  unfold shell_tokens. induction w as [|b w IH]; [done|]. cbn [forallb tokens_loop]. intros [Hb Hw]%andb_true_iff. cbn [Z.eqb negb].
  rewrite Hb. replace (is_quote b) with false; [by rewrite IH|]. unfold is_ascii_whitespace, is_quote in *.
  destruct (Z.eqb_spec b 39) as [->|]; [done|]. by destruct (Z.eqb_spec b 34) as [->|].
Qed.

(** Typing a command that starts a control client and Enter arms the detector. *)
Lemma type_command w now :
  Forall is_plain w -> (length w <= MAX_INPUT_LINE_BYTES)%nat -> utf8_valid w = true -> is_tmux_control_command w = true ->
  feed_input new_detector (w ++ [13]) now = set_arm new_detector (Some now) None ONormal true false false.
Proof.
  intros Hw Hl Hu Hc. unfold feed_input. cbn [is_done new_detector]. rewrite fold_left_app.
  change new_detector with (set_input new_detector [] INormal false) at 1. rewrite type_plain by done.
  cbn [app fold_left]. unfold input_byte. cbn -[forallb evaluate_input_line]. unfold submit_line. cbn [set_input input_line input_track input_saw_escape].
  destruct (forallb is_ascii_whitespace w) eqn:Hb.
  { unfold is_tmux_control_command in Hc. by rewrite blank_no_tokens in Hc. }
  unfold evaluate_input_line. by rewrite Hu, Hc.
Qed.

(** A user who types a command that starts a control client gets it: after the command is echoed,
    the startup of the client (a block and a session, the prefix of [-CC] before it or at the start
    of a line) is recognised however it is cut into chunks, within five seconds; what came before
    it was shown, and what follows it goes to the client. *)
Theorem control_client_detected w pre ls t0 chunks echo rest :
  Forall is_plain w -> (length w <= MAX_INPUT_LINE_BYTES)%nat -> utf8_valid w = true -> is_tmux_control_command w = true ->
  (pre = CONTROL_PREFIX \/ (pre = [] /\ exists l ls', ls = (bs "%begin " ++ l) :: ls')) ->
  Forall no_lf ls -> (length (pre ++ unlines ls) <= CONFIRM_MAX_BYTES)%nat ->
  (exists s, accept_all default_startup ls = Some (true, s)) ->
  (forall ls1 ls2 b s, ls = ls1 ++ ls2 -> ls2 <> [] -> accept_all default_startup ls1 = Some (b, s) -> b = false) ->
  Forall (fun b => b <> 27 /\ b <> 37) echo -> (match last echo with Some b => is_crlf b | None => true end) = true ->
  Forall (fun c => t0 <= c.2 < t0 + CONFIRM_TIMEOUT) chunks -> concat (fst <$> chunks) = echo ++ pre ++ unlines ls ++ rest ->
  exists shown t, run new_detector (Input (w ++ [13]) t0 :: ((fun c => Output c.1 c.2) <$> chunks)) = (shown, inr t)
    /\ shown ++ t_pass t = echo /\ t_startup t = pre ++ unlines ls /\ t_rest t ++ printed (t_events t) = rest.
Proof.
  intros Hw Hl Hu Hc Hpre Hlf Hmax Hacc Hfirst He Hlast Hall Hcat. cbn [run]. rewrite type_command by done.
  assert (Hend : exists st', pre ++ unlines ls = st' ++ [10]) by (eapply startup_end; eassumption).
  eapply (run_watching pre ls Hpre Hlf Hmax Hacc Hfirst t0 chunks _ echo (pre ++ unlines ls)); [|destruct Hend as [[] ->]; done|done|].
  - split; [done|]. split; [done|]. left. split_and!; try done. right. exact Hlast.
  - by rewrite Hcat, <- !app_assoc.
Qed.

(** *** Witnesses and an edge *)

Definition ex_lines : list bytes := [bs "%begin 1 2 0" ++ [13]; bs "%end 1 2 0" ++ [13]; bs "%session-changed $0 0" ++ [13]].

(** [tmux -CC], cut in the middle of the prefix and of a line. *)
Definition ex_output : bytes := bs "$ tmux -CC" ++ [13; 10] ++ CONTROL_PREFIX ++ unlines ex_lines ++ bs "%window-add".
Definition ex_chunks : list (bytes * Z) := [(take 14 ex_output, 1); (take 16 (drop 14 ex_output), 2); (drop 30 ex_output, 3)].

Lemma control_client_detected_witness :
  exists shown t, run new_detector (Input (bs "tmux -CC" ++ [13]) 0 :: ((fun c => Output c.1 c.2) <$> ex_chunks)) = (shown, inr t)
    /\ shown ++ t_pass t = bs "$ tmux -CC" ++ [13; 10] /\ t_startup t = CONTROL_PREFIX ++ unlines ex_lines /\ t_rest t ++ printed (t_events t) = bs "%window-add".
Proof.
  apply (control_client_detected (bs "tmux -CC") CONTROL_PREFIX ex_lines 0 ex_chunks).
  - vm_compute. repeat constructor; discriminate.
  - apply Nat.leb_le. vm_compute. reflexivity.
  - vm_compute. reflexivity.
  - vm_compute. reflexivity.
  - by left.
  - repeat constructor; apply no_lf_dec; vm_compute; reflexivity.
  - apply Nat.leb_le. vm_compute. reflexivity.
  - eexists. vm_compute. reflexivity.
  - intros [|l1 [|l2 [|l3 ls1]]] ls2 b s E Hne Ha; unfold ex_lines in E; [vm_compute in Ha; congruence| | |].
    + injection E as <- _. vm_compute in Ha. congruence.
    + injection E as <- <- _. vm_compute in Ha. congruence.
    + injection E as _ _ _ E. by destruct ls1, ls2.
  - vm_compute. repeat constructor; discriminate.
  - reflexivity.
  - unfold ex_chunks, CONFIRM_TIMEOUT, second. repeat (apply Forall_cons; split; [cbn; lia|]). apply Forall_nil. exact I.
  - vm_compute. reflexivity.
Defined.

(** A line that is just a percent sign is flushed with its newline and still counts as an open
    line, so a startup on the next line is passed through. *)
Example percent_line_hides_startup :
  exists d, run new_detector [Input (bs "tmux -C" ++ [13]) 0; Output (bs "%" ++ [10] ++ unlines ex_lines) 1]
    = (bs "%" ++ [10] ++ unlines ex_lines, inl d).
Proof. eexists. vm_compute. reflexivity. Qed.
