(* ===== verification/TmuxState.v ===== *)
(** * The state of a tmux control session

    [src/crates/nyaterm-transport/src/tmux/session.rs]: the data of [ControlSession] and of
    its panes and windows, one setter per field, and the monad its methods run in. An
    instant is a number of milliseconds on the monotonic clock; an armed timer is the delay
    it was armed with. What a method pushes to the session event queue and does to the
    registry of sessions is appended to [effects], in order. The counters [seed_generation]
    and [routed_bytes] are 64 bits wide and count events; they are not bounded here. *)

From stdpp Require Import base option list numbers strings gmap sets.
From Stdlib Require Import ZArith Lia SpecFloat.
From S2P Require Import Prelude Mailbox SshMailbox TmuxMailbox EventQueue TmuxControl TmuxInput.

Local Open Scope Z_scope.
Local Open Scope rust_scope.

(** ** Constants *)

Definition INPUT_FLUSH_DELAY_MS : Z := 4.
Definition MAX_PENDING_RESPONSES : Z := 128.
Definition MAX_QUEUED_COMMANDS : Z := 1024.
Definition INPUT_BATCH_BYTES : nat := 256.
Definition SEND_KEYS_CHUNK_BYTES : nat := 1024.
Definition STATE_REFRESH_DELAY_MS : Z := 120.
Definition PENDING_PANE_OUTPUT_MAX_BYTES : Z := 512 * 1024.
Definition DETACH_EXIT_TIMEOUT_MS : Z := 3000.
Definition PAUSE_CONTINUE_DELAY_MS : Z := 250.
Definition RESIZE_PANE_MAX_ATTEMPTS : Z := 2.
Definition RESIZE_SYNC_DEBOUNCE_MS : Z := 250.
Definition CWD_QUERY_DELAY_MS : Z := 400.
Definition WINDOWS_QUERY : bytes :=
  bs "list-windows -F '#{window_id} #{window_index} #{window_active} #{window_layout} #{window_visible_layout} #{window_flags} #{pane_id} #{window_name}'".
Definition PANES_QUERY : bytes := bs "list-panes -s -F '#{pane_id} #{window_id} #{pane_current_command}'".

(** ** Data *)

Inductive ControlExit := ReturnToShell (leftover : bytes) | ExitClosed.

(** [TmuxUiNode] of [control.rs]; the ratio is a double. *)
Inductive TmuxUiNode :=
| UiPane (pane_id session_id name : bytes)
| UiSplit (vertical : bool) (ratio : spec_float) (first second : TmuxUiNode).

Record TmuxWindowInfo := mkWindowInfo
  { wi_id : bytes; wi_name : bytes; wi_index : Z; wi_active : bool; wi_tree : option TmuxUiNode }.

Record TmuxStatePayload := mkPayload
  { pl_control_session_id : bytes; pl_exited : bool; pl_windows : list TmuxWindowInfo; pl_panes : list TmuxUiNode;
    pl_active_window_id : option bytes; pl_active_pane_session_id : option bytes }.

#[export] Instance spec_float_eq_dec : EqDecision spec_float.
Proof. solve_decision. Defined.
#[export] Instance ui_node_eq_dec : EqDecision TmuxUiNode.
Proof. solve_decision. Defined.
#[export] Instance window_info_eq_dec : EqDecision TmuxWindowInfo.
Proof. solve_decision. Defined.
#[export] Instance payload_eq_dec : EqDecision TmuxStatePayload.
Proof. solve_decision. Defined.
#[export] Instance block_id_eq_dec : EqDecision BlockId.
Proof. solve_decision. Defined.

(** The guards of input: the reservation in the mailbox it came through. *)
Record InputGuard := mkGuard { g_tmux : option Tmux.Permit; g_ssh : option bytes }.

Inductive PendingKind :=
| FlowControl
| WindowsRefresh
| PanesRefresh
| CapturePane (pane : bytes) (generation : Z)
| SeedCursor (pane : bytes) (generation : Z)
| SeedContinue (pane : bytes) (generation : Z)
| PaneCwd (pane : bytes)
| UserCommand (barrier : bytes)
| ClosePane (pane : bytes)
| Ignore.

#[export] Instance pending_kind_eq_dec : EqDecision PendingKind.
Proof. solve_decision. Defined.

Record Outgoing := mkOutgoing { o_data : bytes; o_responses : list PendingKind; o_guards : list InputGuard }.

Inductive ExitMode := Detach | Close.

Record WindowState := mkWindow
  { w_name : bytes; w_index : Z; w_layout : option LayoutCell; w_visible_layout : option LayoutCell; w_zoomed : bool }.

(** The notices the session emits, and what it hands to the event queue beside output. *)
Inductive TmuxNotice := TmuxFlowControlUnsupported | TmuxPaneCloseFailed | TmuxCommandFailed (message : bytes).
Inductive Extra := XNotice (n : TmuxNotice) | XState (p : TmuxStatePayload).

(** [register_tmux_pane] and [remove_tmux_pane] of the session manager, the write to
    [close_requested] of a pane's transport, and pushes to the event queue. *)
Inductive Effect :=
| Registered (session_id name pane : bytes)
| Removed (session_id : bytes)
| CloseRetryable (session_id : bytes)
| Pushed (e : SessionEvent Extra).

Record VirtualPane := mkVirtualPane
  { session_id : bytes; input_parser : InputParser; pending_output : list (option Z * bytes); pending_bytes : Z;
    seeded : bool; seed_generation : Z; seed_barrier : bool; capture_at : option Z; seeding : bool; reseed : bool;
    pending_seed : option (list bytes); desired : option (Z * Z); pending_dims : option (Z * Z); dims : option (Z *
    Z); seeded_desired : option (Z * Z); resize_attempts : option (Z * Z * Z); cwd : option bytes; routed_bytes : Z }.

Definition p_set_input_parser (v : InputParser) (s : VirtualPane) : VirtualPane :=
  mkVirtualPane (session_id s) v (pending_output s) (pending_bytes s) (seeded s) (seed_generation s) (seed_barrier s) (capture_at s)
    (seeding s) (reseed s) (pending_seed s) (desired s) (pending_dims s) (dims s) (seeded_desired s) (resize_attempts s) (cwd s)
    (routed_bytes s).
Definition p_set_pending_output (v : list (option Z * bytes)) (s : VirtualPane) : VirtualPane :=
  mkVirtualPane (session_id s) (input_parser s) v (pending_bytes s) (seeded s) (seed_generation s) (seed_barrier s) (capture_at s) (seeding
    s) (reseed s) (pending_seed s) (desired s) (pending_dims s) (dims s) (seeded_desired s) (resize_attempts s) (cwd s) (routed_bytes s).
Definition p_set_pending_bytes (v : Z) (s : VirtualPane) : VirtualPane :=
  mkVirtualPane (session_id s) (input_parser s) (pending_output s) v (seeded s) (seed_generation s) (seed_barrier s) (capture_at s) (seeding
    s) (reseed s) (pending_seed s) (desired s) (pending_dims s) (dims s) (seeded_desired s) (resize_attempts s) (cwd s) (routed_bytes s).
Definition p_set_seeded (v : bool) (s : VirtualPane) : VirtualPane :=
  mkVirtualPane (session_id s) (input_parser s) (pending_output s) (pending_bytes s) v (seed_generation s) (seed_barrier s) (capture_at s)
    (seeding s) (reseed s) (pending_seed s) (desired s) (pending_dims s) (dims s) (seeded_desired s) (resize_attempts s) (cwd s)
    (routed_bytes s).
Definition p_set_seed_generation (v : Z) (s : VirtualPane) : VirtualPane :=
  mkVirtualPane (session_id s) (input_parser s) (pending_output s) (pending_bytes s) (seeded s) v (seed_barrier s) (capture_at s) (seeding
    s) (reseed s) (pending_seed s) (desired s) (pending_dims s) (dims s) (seeded_desired s) (resize_attempts s) (cwd s) (routed_bytes s).
Definition p_set_seed_barrier (v : bool) (s : VirtualPane) : VirtualPane :=
  mkVirtualPane (session_id s) (input_parser s) (pending_output s) (pending_bytes s) (seeded s) (seed_generation s) v (capture_at s)
    (seeding s) (reseed s) (pending_seed s) (desired s) (pending_dims s) (dims s) (seeded_desired s) (resize_attempts s) (cwd s)
    (routed_bytes s).
Definition p_set_capture_at (v : option Z) (s : VirtualPane) : VirtualPane :=
  mkVirtualPane (session_id s) (input_parser s) (pending_output s) (pending_bytes s) (seeded s) (seed_generation s) (seed_barrier s) v
    (seeding s) (reseed s) (pending_seed s) (desired s) (pending_dims s) (dims s) (seeded_desired s) (resize_attempts s) (cwd s)
    (routed_bytes s).
Definition p_set_seeding (v : bool) (s : VirtualPane) : VirtualPane :=
  mkVirtualPane (session_id s) (input_parser s) (pending_output s) (pending_bytes s) (seeded s) (seed_generation s) (seed_barrier s)
    (capture_at s) v (reseed s) (pending_seed s) (desired s) (pending_dims s) (dims s) (seeded_desired s) (resize_attempts s) (cwd s)
    (routed_bytes s).
Definition p_set_reseed (v : bool) (s : VirtualPane) : VirtualPane :=
  mkVirtualPane (session_id s) (input_parser s) (pending_output s) (pending_bytes s) (seeded s) (seed_generation s) (seed_barrier s)
    (capture_at s) (seeding s) v (pending_seed s) (desired s) (pending_dims s) (dims s) (seeded_desired s) (resize_attempts s) (cwd s)
    (routed_bytes s).
Definition p_set_pending_seed (v : option (list bytes)) (s : VirtualPane) : VirtualPane :=
  mkVirtualPane (session_id s) (input_parser s) (pending_output s) (pending_bytes s) (seeded s) (seed_generation s) (seed_barrier s)
    (capture_at s) (seeding s) (reseed s) v (desired s) (pending_dims s) (dims s) (seeded_desired s) (resize_attempts s) (cwd s)
    (routed_bytes s).
Definition p_set_desired (v : option (Z * Z)) (s : VirtualPane) : VirtualPane :=
  mkVirtualPane (session_id s) (input_parser s) (pending_output s) (pending_bytes s) (seeded s) (seed_generation s) (seed_barrier s)
    (capture_at s) (seeding s) (reseed s) (pending_seed s) v (pending_dims s) (dims s) (seeded_desired s) (resize_attempts s) (cwd s)
    (routed_bytes s).
Definition p_set_pending_dims (v : option (Z * Z)) (s : VirtualPane) : VirtualPane :=
  mkVirtualPane (session_id s) (input_parser s) (pending_output s) (pending_bytes s) (seeded s) (seed_generation s) (seed_barrier s)
    (capture_at s) (seeding s) (reseed s) (pending_seed s) (desired s) v (dims s) (seeded_desired s) (resize_attempts s) (cwd s)
    (routed_bytes s).
Definition p_set_dims (v : option (Z * Z)) (s : VirtualPane) : VirtualPane :=
  mkVirtualPane (session_id s) (input_parser s) (pending_output s) (pending_bytes s) (seeded s) (seed_generation s) (seed_barrier s)
    (capture_at s) (seeding s) (reseed s) (pending_seed s) (desired s) (pending_dims s) v (seeded_desired s) (resize_attempts s) (cwd s)
    (routed_bytes s).
Definition p_set_seeded_desired (v : option (Z * Z)) (s : VirtualPane) : VirtualPane :=
  mkVirtualPane (session_id s) (input_parser s) (pending_output s) (pending_bytes s) (seeded s) (seed_generation s) (seed_barrier s)
    (capture_at s) (seeding s) (reseed s) (pending_seed s) (desired s) (pending_dims s) (dims s) v (resize_attempts s) (cwd s) (routed_bytes
    s).
Definition p_set_resize_attempts (v : option (Z * Z * Z)) (s : VirtualPane) : VirtualPane :=
  mkVirtualPane (session_id s) (input_parser s) (pending_output s) (pending_bytes s) (seeded s) (seed_generation s) (seed_barrier s)
    (capture_at s) (seeding s) (reseed s) (pending_seed s) (desired s) (pending_dims s) (dims s) (seeded_desired s) v (cwd s) (routed_bytes
    s).
Definition p_set_cwd (v : option bytes) (s : VirtualPane) : VirtualPane :=
  mkVirtualPane (session_id s) (input_parser s) (pending_output s) (pending_bytes s) (seeded s) (seed_generation s) (seed_barrier s)
    (capture_at s) (seeding s) (reseed s) (pending_seed s) (desired s) (pending_dims s) (dims s) (seeded_desired s) (resize_attempts s) v
    (routed_bytes s).
Definition p_set_routed_bytes (v : Z) (s : VirtualPane) : VirtualPane :=
  mkVirtualPane (session_id s) (input_parser s) (pending_output s) (pending_bytes s) (seeded s) (seed_generation s) (seed_barrier s)
    (capture_at s) (seeding s) (reseed s) (pending_seed s) (desired s) (pending_dims s) (dims s) (seeded_desired s) (resize_attempts s) (cwd
    s) v.

Record ControlSession := mkControlSession
  { control_session_id : bytes; parser : ControlParser; block_lines : option (list bytes); block_id : option BlockId;
    block_started_at : option Z; pending_responses : list PendingKind; outgoing : list Outgoing; fatal : bool; windows
    : gmap bytes WindowState; panes : gmap bytes VirtualPane; pane_names : gmap bytes bytes; pane_windows : gmap bytes
    bytes; active_window : option bytes; active_pane : option bytes; input_buf : gmap bytes bytes; input_guards : gmap
    bytes (list InputGuard); seen_input : gset bytes; input_flush : option Z; paused_panes : gset bytes; last_emitted
    : option TmuxStatePayload; continue_deadline : option Z; refresh_deadline : option Z; resize_deadline : option Z;
    client_size : option (Z * Z); cwd_pending : gset bytes; cwd_deadline : option Z; unknown_output : gmap bytes (list
    (option Z * bytes) * Z); exit_mode : option ExitMode; exit_seen : bool; detach_deadline : option Z; effects : list
    Effect }.

Definition set_parser (v : ControlParser) (s : ControlSession) : ControlSession :=
  mkControlSession (control_session_id s) v (block_lines s) (block_id s) (block_started_at s) (pending_responses s) (outgoing s) (fatal s)
    (windows s) (panes s) (pane_names s) (pane_windows s) (active_window s) (active_pane s) (input_buf s) (input_guards s) (seen_input s)
    (input_flush s) (paused_panes s) (last_emitted s) (continue_deadline s) (refresh_deadline s) (resize_deadline s) (client_size s)
    (cwd_pending s) (cwd_deadline s) (unknown_output s) (exit_mode s) (exit_seen s) (detach_deadline s) (effects s).
Definition set_block_lines (v : option (list bytes)) (s : ControlSession) : ControlSession :=
  mkControlSession (control_session_id s) (parser s) v (block_id s) (block_started_at s) (pending_responses s) (outgoing s) (fatal s)
    (windows s) (panes s) (pane_names s) (pane_windows s) (active_window s) (active_pane s) (input_buf s) (input_guards s) (seen_input s)
    (input_flush s) (paused_panes s) (last_emitted s) (continue_deadline s) (refresh_deadline s) (resize_deadline s) (client_size s)
    (cwd_pending s) (cwd_deadline s) (unknown_output s) (exit_mode s) (exit_seen s) (detach_deadline s) (effects s).
Definition set_block_id (v : option BlockId) (s : ControlSession) : ControlSession :=
  mkControlSession (control_session_id s) (parser s) (block_lines s) v (block_started_at s) (pending_responses s) (outgoing s) (fatal s)
    (windows s) (panes s) (pane_names s) (pane_windows s) (active_window s) (active_pane s) (input_buf s) (input_guards s) (seen_input s)
    (input_flush s) (paused_panes s) (last_emitted s) (continue_deadline s) (refresh_deadline s) (resize_deadline s) (client_size s)
    (cwd_pending s) (cwd_deadline s) (unknown_output s) (exit_mode s) (exit_seen s) (detach_deadline s) (effects s).
Definition set_block_started_at (v : option Z) (s : ControlSession) : ControlSession :=
  mkControlSession (control_session_id s) (parser s) (block_lines s) (block_id s) v (pending_responses s) (outgoing s) (fatal s) (windows s)
    (panes s) (pane_names s) (pane_windows s) (active_window s) (active_pane s) (input_buf s) (input_guards s) (seen_input s) (input_flush
    s) (paused_panes s) (last_emitted s) (continue_deadline s) (refresh_deadline s) (resize_deadline s) (client_size s) (cwd_pending s)
    (cwd_deadline s) (unknown_output s) (exit_mode s) (exit_seen s) (detach_deadline s) (effects s).
Definition set_pending_responses (v : list PendingKind) (s : ControlSession) : ControlSession :=
  mkControlSession (control_session_id s) (parser s) (block_lines s) (block_id s) (block_started_at s) v (outgoing s) (fatal s) (windows s)
    (panes s) (pane_names s) (pane_windows s) (active_window s) (active_pane s) (input_buf s) (input_guards s) (seen_input s) (input_flush
    s) (paused_panes s) (last_emitted s) (continue_deadline s) (refresh_deadline s) (resize_deadline s) (client_size s) (cwd_pending s)
    (cwd_deadline s) (unknown_output s) (exit_mode s) (exit_seen s) (detach_deadline s) (effects s).
Definition set_outgoing (v : list Outgoing) (s : ControlSession) : ControlSession :=
  mkControlSession (control_session_id s) (parser s) (block_lines s) (block_id s) (block_started_at s) (pending_responses s) v (fatal s)
    (windows s) (panes s) (pane_names s) (pane_windows s) (active_window s) (active_pane s) (input_buf s) (input_guards s) (seen_input s)
    (input_flush s) (paused_panes s) (last_emitted s) (continue_deadline s) (refresh_deadline s) (resize_deadline s) (client_size s)
    (cwd_pending s) (cwd_deadline s) (unknown_output s) (exit_mode s) (exit_seen s) (detach_deadline s) (effects s).
Definition set_fatal (v : bool) (s : ControlSession) : ControlSession :=
  mkControlSession (control_session_id s) (parser s) (block_lines s) (block_id s) (block_started_at s) (pending_responses s) (outgoing s) v
    (windows s) (panes s) (pane_names s) (pane_windows s) (active_window s) (active_pane s) (input_buf s) (input_guards s) (seen_input s)
    (input_flush s) (paused_panes s) (last_emitted s) (continue_deadline s) (refresh_deadline s) (resize_deadline s) (client_size s)
    (cwd_pending s) (cwd_deadline s) (unknown_output s) (exit_mode s) (exit_seen s) (detach_deadline s) (effects s).
Definition set_windows (v : gmap bytes WindowState) (s : ControlSession) : ControlSession :=
  mkControlSession (control_session_id s) (parser s) (block_lines s) (block_id s) (block_started_at s) (pending_responses s) (outgoing s)
    (fatal s) v (panes s) (pane_names s) (pane_windows s) (active_window s) (active_pane s) (input_buf s) (input_guards s) (seen_input s)
    (input_flush s) (paused_panes s) (last_emitted s) (continue_deadline s) (refresh_deadline s) (resize_deadline s) (client_size s)
    (cwd_pending s) (cwd_deadline s) (unknown_output s) (exit_mode s) (exit_seen s) (detach_deadline s) (effects s).
Definition set_panes (v : gmap bytes VirtualPane) (s : ControlSession) : ControlSession :=
  mkControlSession (control_session_id s) (parser s) (block_lines s) (block_id s) (block_started_at s) (pending_responses s) (outgoing s)
    (fatal s) (windows s) v (pane_names s) (pane_windows s) (active_window s) (active_pane s) (input_buf s) (input_guards s) (seen_input s)
    (input_flush s) (paused_panes s) (last_emitted s) (continue_deadline s) (refresh_deadline s) (resize_deadline s) (client_size s)
    (cwd_pending s) (cwd_deadline s) (unknown_output s) (exit_mode s) (exit_seen s) (detach_deadline s) (effects s).
Definition set_pane_names (v : gmap bytes bytes) (s : ControlSession) : ControlSession :=
  mkControlSession (control_session_id s) (parser s) (block_lines s) (block_id s) (block_started_at s) (pending_responses s) (outgoing s)
    (fatal s) (windows s) (panes s) v (pane_windows s) (active_window s) (active_pane s) (input_buf s) (input_guards s) (seen_input s)
    (input_flush s) (paused_panes s) (last_emitted s) (continue_deadline s) (refresh_deadline s) (resize_deadline s) (client_size s)
    (cwd_pending s) (cwd_deadline s) (unknown_output s) (exit_mode s) (exit_seen s) (detach_deadline s) (effects s).
Definition set_pane_windows (v : gmap bytes bytes) (s : ControlSession) : ControlSession :=
  mkControlSession (control_session_id s) (parser s) (block_lines s) (block_id s) (block_started_at s) (pending_responses s) (outgoing s)
    (fatal s) (windows s) (panes s) (pane_names s) v (active_window s) (active_pane s) (input_buf s) (input_guards s) (seen_input s)
    (input_flush s) (paused_panes s) (last_emitted s) (continue_deadline s) (refresh_deadline s) (resize_deadline s) (client_size s)
    (cwd_pending s) (cwd_deadline s) (unknown_output s) (exit_mode s) (exit_seen s) (detach_deadline s) (effects s).
Definition set_active_window (v : option bytes) (s : ControlSession) : ControlSession :=
  mkControlSession (control_session_id s) (parser s) (block_lines s) (block_id s) (block_started_at s) (pending_responses s) (outgoing s)
    (fatal s) (windows s) (panes s) (pane_names s) (pane_windows s) v (active_pane s) (input_buf s) (input_guards s) (seen_input s)
    (input_flush s) (paused_panes s) (last_emitted s) (continue_deadline s) (refresh_deadline s) (resize_deadline s) (client_size s)
    (cwd_pending s) (cwd_deadline s) (unknown_output s) (exit_mode s) (exit_seen s) (detach_deadline s) (effects s).
Definition set_active_pane (v : option bytes) (s : ControlSession) : ControlSession :=
  mkControlSession (control_session_id s) (parser s) (block_lines s) (block_id s) (block_started_at s) (pending_responses s) (outgoing s)
    (fatal s) (windows s) (panes s) (pane_names s) (pane_windows s) (active_window s) v (input_buf s) (input_guards s) (seen_input s)
    (input_flush s) (paused_panes s) (last_emitted s) (continue_deadline s) (refresh_deadline s) (resize_deadline s) (client_size s)
    (cwd_pending s) (cwd_deadline s) (unknown_output s) (exit_mode s) (exit_seen s) (detach_deadline s) (effects s).
Definition set_input_buf (v : gmap bytes bytes) (s : ControlSession) : ControlSession :=
  mkControlSession (control_session_id s) (parser s) (block_lines s) (block_id s) (block_started_at s) (pending_responses s) (outgoing s)
    (fatal s) (windows s) (panes s) (pane_names s) (pane_windows s) (active_window s) (active_pane s) v (input_guards s) (seen_input s)
    (input_flush s) (paused_panes s) (last_emitted s) (continue_deadline s) (refresh_deadline s) (resize_deadline s) (client_size s)
    (cwd_pending s) (cwd_deadline s) (unknown_output s) (exit_mode s) (exit_seen s) (detach_deadline s) (effects s).
Definition set_input_guards (v : gmap bytes (list InputGuard)) (s : ControlSession) : ControlSession :=
  mkControlSession (control_session_id s) (parser s) (block_lines s) (block_id s) (block_started_at s) (pending_responses s) (outgoing s)
    (fatal s) (windows s) (panes s) (pane_names s) (pane_windows s) (active_window s) (active_pane s) (input_buf s) v (seen_input s)
    (input_flush s) (paused_panes s) (last_emitted s) (continue_deadline s) (refresh_deadline s) (resize_deadline s) (client_size s)
    (cwd_pending s) (cwd_deadline s) (unknown_output s) (exit_mode s) (exit_seen s) (detach_deadline s) (effects s).
Definition set_seen_input (v : gset bytes) (s : ControlSession) : ControlSession :=
  mkControlSession (control_session_id s) (parser s) (block_lines s) (block_id s) (block_started_at s) (pending_responses s) (outgoing s)
    (fatal s) (windows s) (panes s) (pane_names s) (pane_windows s) (active_window s) (active_pane s) (input_buf s) (input_guards s) v
    (input_flush s) (paused_panes s) (last_emitted s) (continue_deadline s) (refresh_deadline s) (resize_deadline s) (client_size s)
    (cwd_pending s) (cwd_deadline s) (unknown_output s) (exit_mode s) (exit_seen s) (detach_deadline s) (effects s).
Definition set_input_flush (v : option Z) (s : ControlSession) : ControlSession :=
  mkControlSession (control_session_id s) (parser s) (block_lines s) (block_id s) (block_started_at s) (pending_responses s) (outgoing s)
    (fatal s) (windows s) (panes s) (pane_names s) (pane_windows s) (active_window s) (active_pane s) (input_buf s) (input_guards s)
    (seen_input s) v (paused_panes s) (last_emitted s) (continue_deadline s) (refresh_deadline s) (resize_deadline s) (client_size s)
    (cwd_pending s) (cwd_deadline s) (unknown_output s) (exit_mode s) (exit_seen s) (detach_deadline s) (effects s).
Definition set_paused_panes (v : gset bytes) (s : ControlSession) : ControlSession :=
  mkControlSession (control_session_id s) (parser s) (block_lines s) (block_id s) (block_started_at s) (pending_responses s) (outgoing s)
    (fatal s) (windows s) (panes s) (pane_names s) (pane_windows s) (active_window s) (active_pane s) (input_buf s) (input_guards s)
    (seen_input s) (input_flush s) v (last_emitted s) (continue_deadline s) (refresh_deadline s) (resize_deadline s) (client_size s)
    (cwd_pending s) (cwd_deadline s) (unknown_output s) (exit_mode s) (exit_seen s) (detach_deadline s) (effects s).
Definition set_last_emitted (v : option TmuxStatePayload) (s : ControlSession) : ControlSession :=
  mkControlSession (control_session_id s) (parser s) (block_lines s) (block_id s) (block_started_at s) (pending_responses s) (outgoing s)
    (fatal s) (windows s) (panes s) (pane_names s) (pane_windows s) (active_window s) (active_pane s) (input_buf s) (input_guards s)
    (seen_input s) (input_flush s) (paused_panes s) v (continue_deadline s) (refresh_deadline s) (resize_deadline s) (client_size s)
    (cwd_pending s) (cwd_deadline s) (unknown_output s) (exit_mode s) (exit_seen s) (detach_deadline s) (effects s).
Definition set_continue_deadline (v : option Z) (s : ControlSession) : ControlSession :=
  mkControlSession (control_session_id s) (parser s) (block_lines s) (block_id s) (block_started_at s) (pending_responses s) (outgoing s)
    (fatal s) (windows s) (panes s) (pane_names s) (pane_windows s) (active_window s) (active_pane s) (input_buf s) (input_guards s)
    (seen_input s) (input_flush s) (paused_panes s) (last_emitted s) v (refresh_deadline s) (resize_deadline s) (client_size s) (cwd_pending
    s) (cwd_deadline s) (unknown_output s) (exit_mode s) (exit_seen s) (detach_deadline s) (effects s).
Definition set_refresh_deadline (v : option Z) (s : ControlSession) : ControlSession :=
  mkControlSession (control_session_id s) (parser s) (block_lines s) (block_id s) (block_started_at s) (pending_responses s) (outgoing s)
    (fatal s) (windows s) (panes s) (pane_names s) (pane_windows s) (active_window s) (active_pane s) (input_buf s) (input_guards s)
    (seen_input s) (input_flush s) (paused_panes s) (last_emitted s) (continue_deadline s) v (resize_deadline s) (client_size s)
    (cwd_pending s) (cwd_deadline s) (unknown_output s) (exit_mode s) (exit_seen s) (detach_deadline s) (effects s).
Definition set_resize_deadline (v : option Z) (s : ControlSession) : ControlSession :=
  mkControlSession (control_session_id s) (parser s) (block_lines s) (block_id s) (block_started_at s) (pending_responses s) (outgoing s)
    (fatal s) (windows s) (panes s) (pane_names s) (pane_windows s) (active_window s) (active_pane s) (input_buf s) (input_guards s)
    (seen_input s) (input_flush s) (paused_panes s) (last_emitted s) (continue_deadline s) (refresh_deadline s) v (client_size s)
    (cwd_pending s) (cwd_deadline s) (unknown_output s) (exit_mode s) (exit_seen s) (detach_deadline s) (effects s).
Definition set_client_size (v : option (Z * Z)) (s : ControlSession) : ControlSession :=
  mkControlSession (control_session_id s) (parser s) (block_lines s) (block_id s) (block_started_at s) (pending_responses s) (outgoing s)
    (fatal s) (windows s) (panes s) (pane_names s) (pane_windows s) (active_window s) (active_pane s) (input_buf s) (input_guards s)
    (seen_input s) (input_flush s) (paused_panes s) (last_emitted s) (continue_deadline s) (refresh_deadline s) (resize_deadline s) v
    (cwd_pending s) (cwd_deadline s) (unknown_output s) (exit_mode s) (exit_seen s) (detach_deadline s) (effects s).
Definition set_cwd_pending (v : gset bytes) (s : ControlSession) : ControlSession :=
  mkControlSession (control_session_id s) (parser s) (block_lines s) (block_id s) (block_started_at s) (pending_responses s) (outgoing s)
    (fatal s) (windows s) (panes s) (pane_names s) (pane_windows s) (active_window s) (active_pane s) (input_buf s) (input_guards s)
    (seen_input s) (input_flush s) (paused_panes s) (last_emitted s) (continue_deadline s) (refresh_deadline s) (resize_deadline s)
    (client_size s) v (cwd_deadline s) (unknown_output s) (exit_mode s) (exit_seen s) (detach_deadline s) (effects s).
Definition set_cwd_deadline (v : option Z) (s : ControlSession) : ControlSession :=
  mkControlSession (control_session_id s) (parser s) (block_lines s) (block_id s) (block_started_at s) (pending_responses s) (outgoing s)
    (fatal s) (windows s) (panes s) (pane_names s) (pane_windows s) (active_window s) (active_pane s) (input_buf s) (input_guards s)
    (seen_input s) (input_flush s) (paused_panes s) (last_emitted s) (continue_deadline s) (refresh_deadline s) (resize_deadline s)
    (client_size s) (cwd_pending s) v (unknown_output s) (exit_mode s) (exit_seen s) (detach_deadline s) (effects s).
Definition set_unknown_output (v : gmap bytes (list (option Z * bytes) * Z)) (s : ControlSession) : ControlSession :=
  mkControlSession (control_session_id s) (parser s) (block_lines s) (block_id s) (block_started_at s) (pending_responses s) (outgoing s)
    (fatal s) (windows s) (panes s) (pane_names s) (pane_windows s) (active_window s) (active_pane s) (input_buf s) (input_guards s)
    (seen_input s) (input_flush s) (paused_panes s) (last_emitted s) (continue_deadline s) (refresh_deadline s) (resize_deadline s)
    (client_size s) (cwd_pending s) (cwd_deadline s) v (exit_mode s) (exit_seen s) (detach_deadline s) (effects s).
Definition set_exit_mode (v : option ExitMode) (s : ControlSession) : ControlSession :=
  mkControlSession (control_session_id s) (parser s) (block_lines s) (block_id s) (block_started_at s) (pending_responses s) (outgoing s)
    (fatal s) (windows s) (panes s) (pane_names s) (pane_windows s) (active_window s) (active_pane s) (input_buf s) (input_guards s)
    (seen_input s) (input_flush s) (paused_panes s) (last_emitted s) (continue_deadline s) (refresh_deadline s) (resize_deadline s)
    (client_size s) (cwd_pending s) (cwd_deadline s) (unknown_output s) v (exit_seen s) (detach_deadline s) (effects s).
Definition set_exit_seen (v : bool) (s : ControlSession) : ControlSession :=
  mkControlSession (control_session_id s) (parser s) (block_lines s) (block_id s) (block_started_at s) (pending_responses s) (outgoing s)
    (fatal s) (windows s) (panes s) (pane_names s) (pane_windows s) (active_window s) (active_pane s) (input_buf s) (input_guards s)
    (seen_input s) (input_flush s) (paused_panes s) (last_emitted s) (continue_deadline s) (refresh_deadline s) (resize_deadline s)
    (client_size s) (cwd_pending s) (cwd_deadline s) (unknown_output s) (exit_mode s) v (detach_deadline s) (effects s).
Definition set_detach_deadline (v : option Z) (s : ControlSession) : ControlSession :=
  mkControlSession (control_session_id s) (parser s) (block_lines s) (block_id s) (block_started_at s) (pending_responses s) (outgoing s)
    (fatal s) (windows s) (panes s) (pane_names s) (pane_windows s) (active_window s) (active_pane s) (input_buf s) (input_guards s)
    (seen_input s) (input_flush s) (paused_panes s) (last_emitted s) (continue_deadline s) (refresh_deadline s) (resize_deadline s)
    (client_size s) (cwd_pending s) (cwd_deadline s) (unknown_output s) (exit_mode s) (exit_seen s) v (effects s).
Definition set_effects (v : list Effect) (s : ControlSession) : ControlSession :=
  mkControlSession (control_session_id s) (parser s) (block_lines s) (block_id s) (block_started_at s) (pending_responses s) (outgoing s)
    (fatal s) (windows s) (panes s) (pane_names s) (pane_windows s) (active_window s) (active_pane s) (input_buf s) (input_guards s)
    (seen_input s) (input_flush s) (paused_panes s) (last_emitted s) (continue_deadline s) (refresh_deadline s) (resize_deadline s)
    (client_size s) (cwd_pending s) (cwd_deadline s) (unknown_output s) (exit_mode s) (exit_seen s) (detach_deadline s) v.

(** ** The monad of the methods *)

Definition M (A : Type) : Type := ControlSession -> outcome (A * ControlSession).
Definition ret {A} (a : A) : M A := fun s => Ret (a, s).
Definition bind {A B} (m : M A) (k : A -> M B) : M B :=
  fun s => match m s with Ret (a, s') => k a s' | Panic => Panic end.
Definition gets {A} (f : ControlSession -> A) : M A := fun s => Ret (f s, s).
Definition modify (f : ControlSession -> ControlSession) : M unit := fun s => Ret (tt, f s).
Definition lift {A} (o : outcome A) : M A := fun s => a <-! o; Ret (a, s).

Declare Scope tmux_scope.
Delimit Scope tmux_scope with tmux.
Notation "x <-- m ; k" := (bind m (fun x => k))
  (at level 100, m at level 90, k at level 200, right associativity, format "x  <--  m ; '//' k") : tmux_scope.
Notation "m ;;; k" := (bind m (fun _ => k))
  (at level 100, k at level 200, right associativity, format "m ;;; '//' k") : tmux_scope.

Fixpoint for_each {A} (f : A -> M unit) (l : list A) : M unit :=
  match l with [] => ret tt | a :: l' => bind (f a) (fun _ => for_each f l') end.

Definition when (b : bool) (m : M unit) : M unit := if b then m else ret tt.

Definition emit (e : Effect) : M unit := modify (fun s => set_effects (effects s ++ [e]) s).
Definition modify_pane (k : bytes) (f : VirtualPane -> VirtualPane) : M unit :=
  modify (fun s => set_panes (alter f k (panes s)) s).
