(* ===== verification/TmuxSession.v ===== *)
(** * The tmux control session

    [src/crates/nyaterm-transport/src/tmux/session.rs]: the methods of [ControlSession] and
    the loop of [run_control_session]. A method reads the clock, a fresh identifier, whether
    the host session was cancelled and the iteration order of hash tables from its [Env].
    Writing to the SSH channel is the in-flight send of the loop; waiting is the choice of
    the arm of [select!] that runs next. *)

From stdpp Require Import base option list numbers strings gmap sets.
From Stdlib Require Import ZArith Lia SpecFloat.
From S2P Require Import Prelude RustStr RustText RustOrd Mailbox SshMailbox TmuxMailbox EventQueue TmuxControl TmuxInput TmuxState.

Local Open Scope Z_scope.
Local Open Scope rust_scope.
Local Open Scope tmux_scope.

(** ** The environment of a method *)

(** The places that iterate over a hash table. *)
Inductive Site := SWindows | SDrop | SSpawn | SDims | SSeed | SSync | SEmit | SFlush | SCwd | SPaused | SReseed | STeardown.

Record Env := mkEnv
  { now : Z; uuid : bytes; cancelled : bytes -> bool; ord : Site -> list bytes -> list bytes }.

(** Iteration visits every key once. *)
Definition env_ok (e : Env) : Prop := forall site l, ord e site l ≡ₚ l.

Definition keys {V} (e : Env) (site : Site) (m : gmap bytes V) : list bytes := ord e site (elements (dom m)).

(** ** Small functions *)

Definition zlen {A} (l : list A) : Z := Z.of_nat (length l).

(** [splitn] on a byte. *)
Fixpoint splitn (n : nat) (sep : Z) (s : bytes) : list bytes :=
  match n with
  | O => []
  | S O => [s]
  | S n' => match split_once sep s with Some (a, b) => a :: splitn n' sep b | None => [s] end
  end.

(** [slice.join] and [Vec<String>::join]. *)
Definition join_with (sep : bytes) (l : list bytes) : bytes :=
  match l with [] => [] | a :: l' => a ++ concat ((fun x => sep ++ x) <$> l') end.

Fixpoint trim_percent (s : bytes) : bytes :=
  match s with b :: s' => if b =? 37 then trim_percent s' else s | [] => [] end.

Definition pane_key (num : Z) : bytes := 37 :: dec_string num.

Definition lower_digit (d : Z) : Z := if d <? 10 then 48 + d else 87 + d.

(** ** Output of panes *)

Definition output_precedes_capture (produced_at capture_at : option Z) : bool :=
  match produced_at, capture_at with Some t, Some cap => t <=? cap | _, _ => false end.

Fixpoint take_pending_loop (oc : bool) (capture_at : option Z) (q : list (option Z * bytes)) (n : Z) :
    outcome (list bytes * Z) :=
  match q with
  | [] => Ret ([], n)
  | (produced_at, data) :: q' =>
    n' <-! sub_oc oc n (zlen data);
    r <-! take_pending_loop oc capture_at q' n';
    Ret (if output_precedes_capture produced_at capture_at then r.1 else data :: r.1, r.2)
  end.

Definition take_pending_output (oc : bool) (p : VirtualPane) : outcome (list bytes * VirtualPane) :=
  r <-! take_pending_loop oc (capture_at p) (pending_output p) (pending_bytes p);
  Ret (r.1, p_set_pending_output [] (p_set_pending_bytes r.2 p)).

(** The eviction loop of [buffer_unknown_output]; [room] is the limit less the new data. *)
Fixpoint evict (oc : bool) (room : Z) (q : list (option Z * bytes)) (total : Z) : outcome (list (option Z * bytes) * Z) :=
  if total <=? room then Ret (q, total)
  else match q with
       | [] => Ret ([], total)
       | (_, old) :: q' => t <-! sub_oc oc total (zlen old); evict oc room q' t
       end.

Definition buffer_unknown_output (oc : bool) (pending : list (option Z * bytes) * Z) (produced_at : option Z) (data : bytes) :
    outcome (list (option Z * bytes) * Z) :=
  let data :=
    if PENDING_PANE_OUTPUT_MAX_BYTES <? zlen data
    then drop (length data - Z.to_nat PENDING_PANE_OUTPUT_MAX_BYTES) data else data in
  room <-! sub_oc oc PENDING_PANE_OUTPUT_MAX_BYTES (zlen data);
  r <-! evict oc room pending.1 pending.2;
  Ret (r.1 ++ [(produced_at, data)], r.2 + zlen data).

(** The spilling loop of [route_output]: what is pushed, the rest and its size. *)
Fixpoint spill (oc : bool) (q : list (option Z * bytes)) (n : Z) : outcome (list bytes * list (option Z * bytes) * Z) :=
  if n <=? PENDING_PANE_OUTPUT_MAX_BYTES then Ret ([], q, n)
  else match q with
       | [] => Ret ([], [], n)
       | (_, spilled) :: q' =>
         n' <-! sub_oc oc n (zlen spilled);
         r <-! spill oc q' n';
         Ret (spilled :: r.1.1, r.1.2, r.2)
       end.

Definition push_pane_output (pane_session_id data : bytes) : M unit :=
  emit (Pushed (EventQueue.Output pane_session_id data)).

Definition emit_notice (n : TmuxNotice) : M unit :=
  sid <-- gets control_session_id; emit (Pushed (Notice sid (XNotice n))).

Definition route_output (oc : bool) (pane : bytes) (produced_at : option Z) (data : bytes) : M unit :=
  found <-- gets (fun s => panes s !! pane);
  match found with
  | Some p =>
    if seeded p then
      if output_precedes_capture produced_at (capture_at p) then ret tt
      else
        push_pane_output (session_id p) data;;;
        modify_pane pane (fun p => p_set_routed_bytes (routed_bytes p + zlen data) p)
    else
      r <-- lift (spill oc (pending_output p ++ [(produced_at, data)]) (pending_bytes p + zlen data));
      modify_pane pane (fun p => p_set_pending_output r.1.2 (p_set_pending_bytes r.2 p));;;
      for_each (push_pane_output (session_id p)) r.1.1
  | None =>
    old <-- gets (fun s => default ([], 0) (unknown_output s !! pane));
    r <-- lift (buffer_unknown_output oc old produced_at data);
    modify (fun s => set_unknown_output (<[pane := r]> (unknown_output s)) s)
  end.

(** ** Commands and their responses *)

Definition queue_batch (line : bytes) (responses : list PendingKind) : M bool :=
  n <-- gets (fun s => zlen (outgoing s));
  if MAX_QUEUED_COMMANDS <=? n then modify (set_fatal true);;; ret false
  else modify (fun s => set_outgoing (outgoing s ++ [mkOutgoing (line ++ [10]) responses []]) s);;; ret true.

Definition send_line (kind : PendingKind) (line : bytes) : M bool := queue_batch line [kind].

Definition send_query (kind : PendingKind) (line : bytes) : M unit := send_line kind line;;; ret tt.

(** A batch whose capture is for a pane that is gone or for an older seed. *)
Definition stale (ps : gmap bytes VirtualPane) (o : Outgoing) : bool :=
  existsb (fun kind => match kind with
                       | CapturePane pane generation =>
                         match ps !! pane with Some p => negb (seed_generation p =? generation) | None => true end
                       | _ => false
                       end) (o_responses o).

Fixpoint drop_stale (ps : gmap bytes VirtualPane) (q : list Outgoing) : list Outgoing :=
  match q with o :: q' => if stale ps o then drop_stale ps q' else q | [] => [] end.

(** [start_send]: the bytes to write and the guards held until they are written. *)
Definition start_send : M (option (bytes * list InputGuard)) :=
  modify (fun s => set_outgoing (drop_stale (panes s) (outgoing s)) s);;;
  q <-- gets outgoing;
  pending <-- gets pending_responses;
  match q with
  | [] => ret None
  | o :: q' =>
    if MAX_PENDING_RESPONSES <? zlen pending + zlen (o_responses o) then ret None
    else
      modify (set_outgoing q');;;
      modify (set_pending_responses (pending ++ o_responses o));;;
      ret (Some (o_data o, o_guards o))
  end.

Definition queue_user_command (e : Env) (line : bytes) : M bool :=
  match Tmux.validate_command line with
  | Err _ => ret false
  | Ok _ =>
    match trim line with
    | [] => ret false
    | _ =>
      let barrier := bs "nyaterm_response_" ++ uuid e in
      queue_batch (line ++ [10] ++ bs "display-message -p '" ++ barrier ++ bs "'") [UserCommand barrier]
    end
  end.

Definition retry_paused_seed (pane : bytes) (generation : Z) : M unit :=
  current <-- gets (fun s => match panes s !! pane with Some p => seed_generation p =? generation | None => false end);
  when current
    (modify (fun s => set_paused_panes ({[pane]} ∪ paused_panes s) s);;;
     modify (fun s => set_continue_deadline (Some (default PAUSE_CONTINUE_DELAY_MS (continue_deadline s))) s)).

Definition skip_seed_continue (pane : bytes) (generation : Z) : M unit :=
  pending <-- gets pending_responses;
  match pending with
  | SeedContinue next next_generation :: rest =>
    when (beq next pane && (next_generation =? generation))
      (modify (set_pending_responses rest);;; retry_paused_seed pane generation)
  | _ => ret tt
  end.

Definition response_kind (id : BlockId) (lines : list bytes) (failed : bool) : M PendingKind :=
  if Z.land (flags id) 1 =? 0 then ret Ignore
  else
    pending <-- gets pending_responses;
    match pending with
    | UserCommand barrier :: rest =>
      if negb failed && (match lines with [l] => beq l barrier | _ => false end)
      then modify (set_pending_responses rest);;; ret Ignore
      else ret (UserCommand barrier)
    | [] => ret Ignore
    | kind :: rest =>
      modify (set_pending_responses rest);;;
      if failed then
        match kind with
        | CapturePane pane generation =>
          when (match rest with
                | SeedCursor next next_generation :: _ => beq next pane && (next_generation =? generation)
                | _ => false
                end) (modify (set_pending_responses (tail rest)));;;
          skip_seed_continue pane generation;;;
          ret (SeedCursor pane generation)
        | SeedCursor pane generation => skip_seed_continue pane generation;;; ret kind
        | SeedContinue pane generation => retry_paused_seed pane generation;;; ret kind
        | _ => ret kind
        end
      else ret kind
    end.

Definition arm_refresh : M unit :=
  modify (fun s => set_refresh_deadline (Some (default STATE_REFRESH_DELAY_MS (refresh_deadline s))) s).

Definition arm_cwd_query : M unit :=
  modify (fun s => set_cwd_deadline (Some (default CWD_QUERY_DELAY_MS (cwd_deadline s))) s).

Definition refresh_windows : M unit :=
  asked <-- gets (fun s => existsb (fun k => match k with WindowsRefresh => true | _ => false end) (pending_responses s));
  when (negb asked) (send_query WindowsRefresh WINDOWS_QUERY).

Definition refresh_lists : M unit :=
  refresh_windows;;;
  asked <-- gets (fun s => existsb (fun k => match k with PanesRefresh => true | _ => false end) (pending_responses s));
  when (negb asked) (send_query PanesRefresh PANES_QUERY).

(** ** Panes *)

(** A pane's size in the first layout that has it. *)
Definition pane_dims (e : Env) (s : ControlSession) (pane_id : bytes) : option (Z * Z) :=
  num ← parse_uint 32 10 (trim_percent pane_id);
  let layouts := omap (fun id => windows s !! id ≫= w_layout) (keys e SWindows (windows s)) in
  (fun c => match c with mkCell w h _ _ _ _ _ => (w, h) end) <$> find_map (find_pane num) layouts.

Definition tmux_name (pane_id : bytes) : bytes := bs "tmux " ++ pane_id.

Definition pane_session_id (host pane_id : bytes) : bytes := host ++ bs "::pane" ++ trim_percent pane_id.

Definition spawn_pane (e : Env) (pane_id : bytes) : M unit :=
  mapped <-- gets (fun s => bool_decide (is_Some (panes s !! pane_id)));
  when (negb mapped)
    (sid <-- gets (fun s => pane_session_id (control_session_id s) pane_id);
     name <-- gets (fun s => default (tmux_name pane_id) (pane_names s !! pane_id));
     if cancelled e pane_id then ret tt
     else
       emit (Registered sid name pane_id);;;
       buffered <-- gets (fun s => from_option fst [] (unknown_output s !! pane_id));
       modify (fun s => set_unknown_output (delete pane_id (unknown_output s)) s);;;
       let pending_bytes := foldr (fun c n => zlen c.2 + n) 0 buffered in
       modify (fun s => set_panes (<[pane_id :=
         mkVirtualPane sid default_parser buffered pending_bytes false 0 false None false false None
           None None None None None None 0]> (panes s)) s);;;
       modify (fun s => set_cwd_pending ({[pane_id]} ∪ cwd_pending s) s);;;
       arm_cwd_query).

Definition capture_command (pane_id : bytes) : bytes :=
  bs "capture-pane -ep -S - -t '" ++ pane_id ++ bs "' ; display-message -p -t '" ++ pane_id
  ++ bs "' '#{cursor_x} #{cursor_y} #{history_size}'".
Definition continue_command (pane_id : bytes) : bytes := bs " ; refresh-client -A '" ++ pane_id ++ bs ":continue'".

Definition seed_pane (e : Env) (pane_id : bytes) : M unit :=
  d <-- gets (fun s => pane_dims e s pane_id);
  found <-- gets (fun s => panes s !! pane_id);
  match found with
  | None => ret tt
  | Some p =>
    if seeding p then ret tt
    else
      paused <-- gets (fun s => bool_decide (pane_id ∈ paused_panes s));
      modify_pane pane_id (fun p =>
        p_set_seed_barrier paused (p_set_seeded_desired (desired p) (p_set_dims d (p_set_pending_seed None
          (p_set_seeded false (p_set_seeding true p))))));;;
      modify (fun s => set_paused_panes (paused_panes s ∖ {[pane_id]}) s);;;
      let generation := seed_generation p in
      queue_batch (capture_command pane_id ++ (if paused : bool then continue_command pane_id else []))
        ([CapturePane pane_id generation; SeedCursor pane_id generation]
         ++ (if paused : bool then [SeedContinue pane_id generation] else []));;;
      ret tt
  end.

Definition invalidate_seed (pane_id : bytes) : M unit :=
  modify_pane pane_id (fun p =>
    p_set_pending_bytes 0 (p_set_pending_output [] (p_set_capture_at None (p_set_pending_seed None (p_set_reseed false
      (p_set_seeding false (p_set_seeded false (p_set_seed_generation (seed_generation p + 1) p)))))))).

Definition drop_pane (pane_id : bytes) : M unit :=
  found <-- gets (fun s => panes s !! pane_id);
  match found with
  | None => ret tt
  | Some p =>
    modify (fun s => set_panes (delete pane_id (panes s)) s);;;
    emit (Removed (session_id p));;;
    modify (fun s => set_input_buf (delete pane_id (input_buf s)) s);;;
    modify (fun s => set_input_guards (delete pane_id (input_guards s)) s);;;
    modify (fun s => set_paused_panes (paused_panes s ∖ {[pane_id]}) s);;;
    modify (fun s => set_unknown_output (delete pane_id (unknown_output s)) s);;;
    modify (fun s => set_pane_names (delete pane_id (pane_names s)) s);;;
    modify (fun s => set_pane_windows (delete pane_id (pane_windows s)) s);;;
    active <-- gets active_pane;
    when (bool_decide (active = Some pane_id)) (modify (set_active_pane None))
  end.

Definition teardown_panes (e : Env) : M unit :=
  ids <-- gets (fun s => keys e STeardown (panes s)); for_each drop_pane ids.

(** ** What the user interface is shown *)

Definition pane_name (s : ControlSession) (pane_id : bytes) : bytes :=
  match pane_names s !! pane_id with Some (b :: name) => b :: name | _ => tmux_name pane_id end.

(** Division and clamping of doubles; [u32] converts exactly. *)
Definition f64_of_u32 (n : Z) : spec_float := binary_normalize 53 1024 n 0 false.
Definition RATIO_MIN : spec_float := S754_finite false 7205759403792794 (-57).
Definition RATIO_MAX : spec_float := S754_finite false 8556839292003942 (-53).
Definition RATIO_HALF : spec_float := S754_finite false 4503599627370496 (-53).
Definition split_ratio (extent span : Z) : spec_float :=
  if 0 <? span then
    let r := SFdiv 53 1024 (f64_of_u32 extent) (f64_of_u32 span) in
    if SFltb r RATIO_MIN then RATIO_MIN else if SFltb RATIO_MAX r then RATIO_MAX else r
  else RATIO_HALF.

(** The children of a cell, folded into splits from the left. *)
Definition fold_nodes (f : LayoutCell -> option TmuxUiNode) (columns : bool) (span : Z) :
    option TmuxUiNode -> list LayoutCell -> option TmuxUiNode :=
  fix go node l :=
    match l with
    | [] => node
    | child :: l' =>
      go (match f child, node with
          | None, _ => node
          | Some second, None => Some second
          | Some second, Some first =>
            let offset := match child with mkCell _ _ x y _ _ _ => if columns then x else y end in
            Some (UiSplit columns (split_ratio (sat_sub offset 1) span) first second)
          end) l'
    end.

Fixpoint build_ui_tree (s : ControlSession) (cell : LayoutCell) : option TmuxUiNode :=
  match cell with
  | mkCell width height _ _ pane columns children =>
    match children with
    | [] =>
      num ← pane;
      p ← panes s !! pane_key num;
      Some (UiPane (pane_key num) (session_id p) (pane_name s (pane_key num)))
    | _ =>
      fold_nodes (build_ui_tree s) columns (if columns then width else height) None children
    end
  end.

Definition window_info (s : ControlSession) (id : bytes) (w : WindowState) : TmuxWindowInfo :=
  mkWindowInfo id (w_name w) (w_index w) (bool_decide (Some id = active_window s))
    ((match w_visible_layout w with Some l => Some l | None => w_layout w end) ≫= build_ui_tree s).

Definition bytes_le (a b : bytes) : bool := match lex Z.compare a b with Gt => false | _ => true end.

Definition state_payload (e : Env) (s : ControlSession) : TmuxStatePayload :=
  mkPayload (control_session_id s) false
    (sort_by (fun a b => wi_index a <=? wi_index b)
       (omap (fun id => window_info s id <$> windows s !! id) (keys e SEmit (windows s))))
    (omap (fun id => (fun p => UiPane id (session_id p) (pane_name s id)) <$> panes s !! id)
       (sort_by bytes_le (elements (dom (panes s)))))
    (active_window s)
    (pane ← active_pane s; session_id <$> panes s !! pane).

Definition emit_state (e : Env) : M unit :=
  payload <-- gets (state_payload e);
  same <-- gets (fun s => bool_decide (last_emitted s = Some payload));
  when (negb same)
    (modify (set_last_emitted (Some payload));;;
     sid <-- gets control_session_id;
     emit (Pushed (TmuxState sid (XState payload)))).

Definition emit_exited : M unit :=
  sid <-- gets control_session_id;
  emit (Pushed (TmuxState sid (XState (mkPayload sid true [] [] None None)))).

(** ** Sizes *)

(** One child of [needed_window_size]; [first] when no child came before. *)
Definition add_child (oc columns first : bool) (acc d : Z * Z) : outcome (Z * Z) :=
  let one := if first then 0 else 1 in
  if columns then
    step <-! add_oc oc 32 d.1 one;
    w <-! add_oc oc 32 acc.1 step;
    Ret (w, Z.max acc.2 d.2)
  else
    step <-! add_oc oc 32 d.2 one;
    h <-! add_oc oc 32 acc.2 step;
    Ret (Z.max acc.1 d.1, h).

Definition fold_children (oc columns : bool) (f : LayoutCell -> outcome (Z * Z)) :
    bool -> Z * Z -> list LayoutCell -> outcome (Z * Z) :=
  fix go first acc l :=
    match l with
    | [] => Ret acc
    | child :: l' =>
      d <-! f child;
      acc' <-! add_child oc columns first acc d;
      go false acc' l'
    end.

Fixpoint needed_window_size (oc : bool) (ps : gmap bytes VirtualPane) (cell : LayoutCell) : outcome (Z * Z) :=
  match cell with
  | mkCell width height _ _ pane columns children =>
    match children with
    | [] => Ret (default (width, height) (num ← pane; p ← ps !! pane_key num; desired p))
    | _ =>
      fold_children oc columns (needed_window_size oc ps) true (0, 0) children
    end
  end.

Definition size_text (d : Z * Z) : bytes := dec_string d.1 ++ bs "x" ++ dec_string d.2.

Definition grow_client (width height : Z) : M bool :=
  current <-- gets (fun s => default (0, 0) (client_size s));
  let grown := (Z.max width current.1, Z.max height current.2) in
  if bool_decide (grown = current) then ret false
  else
    sent <-- send_line Ignore (bs "refresh-client -C " ++ size_text grown);
    if sent : bool then modify (set_client_size (Some grown));;; ret true else ret false.

(** The first half of [sync_pane_sizes]: true when the client was resized, or would be. *)
Definition sync_client (oc : bool) : M bool :=
  window <-- gets (fun s => active_window s ≫= (fun id => windows s !! id));
  match window ≫= (fun w => if w_zoomed w then None else w_layout w) with
  | None => ret false
  | Some layout =>
    ps <-- gets panes;
    needed <-- lift (needed_window_size oc ps layout);
    let size := match layout with mkCell w h _ _ _ _ _ => (w, h) end in
    if bool_decide (needed = size) then ret false
    else
      sent <-- send_line Ignore (bs "refresh-client -C " ++ size_text needed);
      when sent (modify (set_client_size (Some needed)));;;
      ret true
  end.

(** The target of one pane, and its attempts counted. *)
Definition pane_target (layout : LayoutCell) (num : Z) (ps : gmap bytes VirtualPane) :
    gmap bytes VirtualPane * list (bytes * (Z * Z)) :=
  match find_pane num layout, ps !! pane_key num with
  | Some (mkCell w h _ _ _ _ _), Some p =>
    match desired p with
    | None => (ps, [])
    | Some want =>
      if bool_decide (want = (w, h)) then (<[pane_key num := p_set_resize_attempts None p]> ps, [])
      else
        let attempts := match resize_attempts p with
                        | Some (target, count) => if bool_decide (target = want) then count else 0
                        | None => 0
                        end in
        if RESIZE_PANE_MAX_ATTEMPTS <=? attempts then (ps, [])
        else (<[pane_key num := p_set_resize_attempts (Some (want, attempts + 1)) p]> ps, [(pane_key num, want)])
    end
  | _, _ => (ps, [])
  end.

Definition window_targets (w : WindowState) (acc : gmap bytes VirtualPane * list (bytes * (Z * Z))) :
    gmap bytes VirtualPane * list (bytes * (Z * Z)) :=
  match (if w_zoomed w then None else w_layout w) with
  | None => acc
  | Some layout =>
    fold_left (fun acc num => let r := pane_target layout num acc.1 in (r.1, acc.2 ++ r.2)) (pane_ids layout) acc
  end.

Definition sync_pane_sizes (oc : bool) (e : Env) : M unit :=
  resized <-- sync_client oc;
  when (negb resized)
    (ws <-- gets (fun s => omap (fun id => windows s !! id) (keys e SSync (windows s)));
     ps <-- gets panes;
     let r := fold_left (fun acc w => window_targets w acc) ws (ps, []) in
     modify (set_panes r.1);;;
     for_each (fun t : bytes * (Z * Z) =>
       send_line Ignore (bs "resize-pane -t '" ++ t.1 ++ bs "' -x " ++ dec_string t.2.1 ++ bs " -y " ++ dec_string t.2.2);;;
       ret tt) r.2).

(** ** Reconciliation of panes with layouts *)

Definition wanted_panes (s : ControlSession) : gset bytes :=
  list_to_set (map_to_list (windows s) ≫= (fun w => match w_layout w.2 with
                                                     | Some layout => pane_key <$> pane_ids layout
                                                     | None => []
                                                     end)).

(** A pane whose screen must be captured again. *)
Definition unseed (p : VirtualPane) : VirtualPane := if seeding p then p_set_reseed true p else p_set_seeded false p.

Definition reconcile_panes (oc : bool) (e : Env) (remove_missing : bool) : M unit :=
  active <-- gets (fun s => active_window s ≫= (fun id => windows s !! id));
  let active_layout := active ≫= w_layout in
  let zoomed := from_option w_zoomed false active in
  wanted <-- gets wanted_panes;
  has_renderer_size <-- gets (fun s => existsb (fun kp => bool_decide (is_Some (desired kp.2))) (map_to_list (panes s)));
  grew <-- match active_layout with
           | Some (mkCell w h _ _ _ _ _) => if zoomed || has_renderer_size then ret false else grow_client w h
           | None => ret false
           end;
  known <-- gets (fun s => forallb (fun w => bool_decide (is_Some (w_layout w.2))) (map_to_list (windows s)));
  when (remove_missing && known)
    (existing <-- gets (fun s => keys e SDrop (panes s));
     for_each (fun pane_id => when (bool_decide (pane_id ∉ wanted)) (drop_pane pane_id)) existing);;;
  for_each (spawn_pane e) (ord e SSpawn (elements wanted));;;
  when grew
    (for_each (fun num => modify_pane (pane_key num) unseed) (from_option pane_ids [] active_layout));;;
  for_each (fun pane_id =>
    d <-- gets (fun s => pane_dims e s pane_id);
    match d with
    | None => ret tt
    | Some d =>
      modify_pane pane_id (fun p =>
        if bool_decide (is_Some (dims p)) && negb (bool_decide (dims p = Some d)) then unseed p else p)
    end) (ord e SDims (elements wanted));;;
  to_seed <-- gets (fun s => List.filter (fun pane_id =>
    match panes s !! pane_id with Some p => negb (seeded p) && negb (seeding p) | None => false end)
    (ord e SSeed (elements wanted)));
  for_each (seed_pane e) to_seed;;;
  sync_pane_sizes oc e;;;
  emit_state e.

(** ** Window lists *)

Record WindowSnapshot := mkSnapshot
  { sn_windows : gmap bytes WindowState; sn_active_window : option bytes; sn_active_pane : option bytes }.

Definition parse_window_fields (fields : list bytes) : option (bytes * WindowState * bool * bytes) :=
  match fields with
  | id :: index :: active :: layout :: visible :: flags :: pane :: rest =>
    _ ← strip_prefix [64] id ≫= parse_uint 32 10;
    index ← parse_uint 32 10 index;
    active ← (if beq active [49] then Some true else if beq active [48] then Some false else None);
    layout ← fst <$> parse_layout layout;
    _ ← strip_prefix [37] pane ≫= parse_uint 32 10;
    Some (id, mkWindow (default [] (head rest)) index (Some layout)
                (Some (from_option fst layout (parse_layout visible))) (existsb (Z.eqb 90) flags), active, pane)
  | _ => None
  end.

Definition snapshot_line (sn : WindowSnapshot) (line : bytes) : WindowSnapshot :=
  match parse_window_fields (splitn 8 32 line) with
  | None => sn
  | Some (id, window, active, pane) =>
    if active : bool then mkSnapshot (<[id := window]> (sn_windows sn)) (Some id) (Some pane)
    else mkSnapshot (<[id := window]> (sn_windows sn)) (sn_active_window sn) (sn_active_pane sn)
  end.

Definition parse_window_snapshot (lines : list bytes) : WindowSnapshot :=
  fold_left snapshot_line lines (mkSnapshot ∅ None None).

Definition apply_window_list (lines : list bytes) : M unit :=
  let sn := parse_window_snapshot lines in
  modify (set_windows (sn_windows sn));;;
  modify (set_active_window (sn_active_window sn));;;
  modify (set_active_pane (sn_active_pane sn)).

(** ** Seeding the screen of a pane *)

Definition ESC : bytes := [27].
Fixpoint last_nonempty (l : list bytes) : list bytes :=
  match l with
  | [] => []
  | x :: l' => match last_nonempty l', x with [], [] => [] | rest, _ => x :: rest end
  end.

Definition compose_seed_payload (oc : bool) (seed_lines : list bytes) (x y history : Z) (screen_rows : option Z) : outcome bytes :=
  let hist := Z.to_nat (Z.min history (zlen seed_lines)) in
  let rows := Z.max (default (zlen seed_lines - Z.of_nat hist) screen_rows) 1 in
  row <-! add_oc oc 32 y 1;
  col <-! add_oc oc 32 x 1;
  Ret (ESC ++ bs "[H" ++ ESC ++ bs "[2J" ++ ESC ++ bs "[3J"
       ++ (if (0 <? hist)%nat then
             join_with [13; 10] (take hist seed_lines) ++ ESC ++ bs "[r" ++ ESC ++ bs "[9999B"
             ++ replicate (Z.to_nat (Z.min (Z.of_nat hist) rows)) 10 ++ ESC ++ bs "[H"
           else [])
       ++ join_with [13; 10] (last_nonempty (drop hist seed_lines))
       ++ ESC ++ bs "[" ++ dec_string row ++ bs ";" ++ dec_string col ++ bs "H").

(** The cursor reply; a history that is not a number counts as none. *)
Definition parse_cursor (line : bytes) : option (Z * Z * Z) :=
  match split_whitespace line with
  | x :: y :: rest =>
    x ← parse_uint 32 10 x;
    y ← parse_uint 32 10 y;
    Some (x, y, default 0 (head rest ≫= parse_uint 64 10))
  | _ => None
  end.

(** The pane after its seed landed, and what is pushed to it. *)
Definition finish_seed (oc failed : bool) (lines : list bytes) (p : VirtualPane) : outcome (list bytes * VirtualPane) :=
  let cursor := if failed then None else head lines ≫= parse_cursor in
  let '(x, y, history) := default (0, 0, 0) cursor in
  let rows := snd <$> (match desired p with Some d => Some d | None => dims p end) in
  seed <-! match pending_seed p with
           | Some seed_lines => text <-! compose_seed_payload oc seed_lines x y history rows; Ret [text]
           | None => Ret []
           end;
  let p := p_set_seeded (match pending_seed p with Some _ => true | None => false end) (p_set_pending_seed None p) in
  r <-! take_pending_output oc p;
  Ret (seed ++ r.1, r.2).

(** ** Responses *)

Definition request_detach (mode : ExitMode) : M unit :=
  leaving <-- gets (fun s => match exit_mode s with Some _ => true | None => false end);
  when (negb leaving)
    (modify (set_exit_mode (Some mode));;;
     modify (set_outgoing []);;;
     modify (set_input_buf ∅);;;
     modify (set_input_guards ∅);;;
     send_line Ignore (bs "detach-client");;;
     modify (set_detach_deadline (Some DETACH_EXIT_TIMEOUT_MS))).

Definition note_pane_line (line : bytes) : M unit :=
  match splitn 3 32 line with
  | [pane; window; name] =>
    modify (fun s => set_pane_windows (<[pane := window]> (pane_windows s)) s);;;
    modify (fun s => set_pane_names (<[pane := name]> (pane_names s)) s)
  | _ => ret tt
  end.

Definition handle_capture (e : Env) (pane : bytes) (generation : Z) (lines : list bytes) (failed : bool) : M unit :=
  started <-- gets (fun s => default (now e) (block_started_at s));
  modify_pane pane (fun p =>
    if (seed_generation p =? generation) && negb failed
    then p_set_capture_at (if seed_barrier p then None else Some started) (p_set_pending_seed (Some lines) p)
    else p).

Definition handle_cursor (oc : bool) (e : Env) (pane : bytes) (generation : Z) (lines : list bytes) (failed : bool) : M unit :=
  found <-- gets (fun s => panes s !! pane);
  match found with
  | None => ret tt
  | Some p =>
    if negb (seed_generation p =? generation) then ret tt
    else if reseed p then
      modify_pane pane (fun p => p_set_pending_seed None (p_set_reseed false (p_set_seeding false p)));;;
      seed_pane e pane
    else
      r <-- lift (finish_seed oc failed lines (p_set_reseed false (p_set_seeding false p)));
      modify (fun s => set_panes (<[pane := r.2]> (panes s)) s);;;
      for_each (push_pane_output (session_id p)) r.1
  end.

Definition handle_cwd (pane : bytes) (lines : list bytes) (failed : bool) : M unit :=
  found <-- gets (fun s => panes s !! pane);
  match failed, trim <$> head lines, found with
  | false, Some (b :: path), Some p =>
    when (negb (bool_decide (cwd p = Some (b :: path))))
      (modify_pane pane (p_set_cwd (Some (b :: path)));;;
       emit (Pushed (CwdChanged (session_id p) (b :: path))))
  | _, _, _ => ret tt
  end.

Definition handle_block (oc : bool) (e : Env) (kind : PendingKind) (raw : list bytes) (failed : bool) : M unit :=
  let lines := from_utf8_lossy <$> raw in
  match kind with
  | CapturePane pane generation => handle_capture e pane generation raw failed
  | FlowControl => when failed (emit_notice TmuxFlowControlUnsupported;;; request_detach Detach)
  | WindowsRefresh => when (negb failed) (apply_window_list lines;;; reconcile_panes oc e true)
  | PanesRefresh => for_each note_pane_line lines;;; emit_state e
  | SeedCursor pane generation => handle_cursor oc e pane generation lines failed
  | PaneCwd pane => handle_cwd pane lines failed
  | ClosePane pane =>
    found <-- gets (fun s => panes s !! pane);
    when failed
      (match found with Some p => emit (CloseRetryable (session_id p)) | None => ret tt end;;;
       emit_notice TmuxPaneCloseFailed);;;
    arm_refresh
  | UserCommand _ =>
    when (failed && match lines with [] => false | _ => true end) (emit_notice (TmuxCommandFailed (join_with [10] lines)))
  | SeedContinue _ _ | Ignore => ret tt
  end.

(** ** Control messages *)

Definition mark_exit : M unit := modify (set_exit_seen true).

Definition new_window : WindowState := mkWindow [] 0 None None false.

(** [Instant::checked_sub]: there are no instants before the start of the clock. *)
Definition produced_at (e : Env) (age : Z) : Z := if age <=? now e then now e - age else now e.

(** A line inside a response block. *)
Definition block_line (oc : bool) (e : Env) (lines : list bytes) (line : bytes) : M unit :=
  id <-- gets block_id;
  let close (i : BlockId) (failed : bool) : M unit :=
    if bool_decide (id = Some i) then
      modify (set_block_lines None);;;
      modify (set_block_id None);;;
      kind <-- response_kind i lines failed;
      handle_block oc e kind lines failed
    else modify (set_fatal true) in
  match parse_line line with
  | Some (End i) => close i false
  | Some (Error i) => close i true
  | Some (Begin _) => modify (set_fatal true)
  | Some (Exit _) => mark_exit
  | _ => modify (set_block_lines (Some (lines ++ [line])))
  end.

Definition layout_change (oc : bool) (e : Env) (window : bytes) (layout visible : LayoutCell) (fl : bytes) : M unit :=
  modify (fun s =>
    let entry := default new_window (windows s !! window) in
    set_windows (<[window := mkWindow (w_name entry) (w_index entry) (Some layout) (Some visible) (existsb (Z.eqb 90) fl)]>
      (windows s)) s);;;
  modify (fun s => set_active_window (Some (default window (active_window s))) s);;;
  reconcile_panes oc e false;;;
  arm_refresh.

Definition session_changed : M unit :=
  modify (set_windows ∅);;;
  modify (set_pane_windows ∅);;;
  modify (set_pane_names ∅);;;
  modify (set_active_window None);;;
  modify (set_active_pane None);;;
  modify (set_unknown_output ∅);;;
  arm_refresh.

Definition pause_pane (pane : bytes) : M unit :=
  paused <-- gets (fun s => bool_decide (pane ∈ paused_panes s));
  modify (fun s => set_paused_panes ({[pane]} ∪ paused_panes s) s);;;
  when (negb paused) (invalidate_seed pane);;;
  modify (fun s => set_continue_deadline (Some (default PAUSE_CONTINUE_DELAY_MS (continue_deadline s))) s).

Definition window_changed (oc : bool) (e : Env) (window : bytes) : M unit :=
  modify (set_active_window (Some window));;;
  modify (set_active_pane None);;;
  arm_refresh;;;
  layout <-- gets (fun s => windows s !! window ≫= w_layout);
  match layout with Some _ => reconcile_panes oc e false | None => ret tt end.

(** A message outside response blocks. *)
Definition handle_notification (oc : bool) (e : Env) (message : ControlMessage) : M unit :=
  match message with
  | Begin id =>
    modify (set_block_id (Some id));;;
    modify (set_block_lines (Some []));;;
    modify (set_block_started_at (Some (now e)))
  | End _ | Error _ => modify (set_fatal true)
  | TmuxControl.Output pane data => route_output oc pane None data
  | ExtendedOutput pane age data => route_output oc pane (Some (produced_at e age)) data
  | LayoutChange window layout visible fl => layout_change oc e window layout visible fl
  | WindowAdd window =>
    modify (fun s => set_windows (<[window := default new_window (windows s !! window)]> (windows s)) s);;;
    arm_refresh
  | WindowClose window =>
    modify (fun s => set_windows (delete window (windows s)) s);;;
    modify (fun s => if bool_decide (active_window s = Some window) then set_active_window None s else s);;;
    arm_refresh
  | WindowRenamed window name =>
    found <-- gets (fun s => windows s !! window);
    match found with
    | Some w =>
      modify (fun s => set_windows (<[window := mkWindow name (w_index w) (w_layout w) (w_visible_layout w) (w_zoomed w)]>
        (windows s)) s);;;
      emit_state e
    | None => ret tt
    end
  | WindowPaneChanged window pane =>
    active <-- gets active_window;
    when (bool_decide (active = Some window)) (modify (set_active_pane (Some pane));;; emit_state e)
  | PaneExited pane => drop_pane pane;;; emit_state e
  | SessionChanged _ => session_changed
  | SessionRenamed _ | SessionsChanged => arm_refresh
  | SessionWindowChanged window => window_changed oc e window
  | Pause pane => pause_pane pane
  | Continue pane =>
    paused <-- gets (fun s => bool_decide (pane ∈ paused_panes s));
    when paused (modify (fun s => set_paused_panes (paused_panes s ∖ {[pane]}) s);;; seed_pane e pane)
  | Exit _ => mark_exit
  | PaneModeChanged _ | ClientSessionChanged | Ignored | ClientDetached _ | ConfigError _ | Message _ => ret tt
  end.

Definition handle_message (oc : bool) (e : Env) (line : bytes) : M unit :=
  block <-- gets block_lines;
  match block with
  | Some lines => block_line oc e lines line
  | None => match parse_line line with Some message => handle_notification oc e message | None => ret tt end
  end.

(** ** Input *)

Definition send_keys_literal (pane_id chunk : bytes) : bytes :=
  bs "send-keys -H -t " ++ pane_id ++ concat ((fun b => [32; lower_digit (b / 16); lower_digit (b mod 16)]) <$> chunk).
Definition send_keys_name (pane_id name : bytes) : bytes := bs "send-keys -t " ++ pane_id ++ [32] ++ name.

Definition segment_lines (pane_id : bytes) (segment : InputSegment) : list bytes :=
  match segment with
  | Literal data => send_keys_literal pane_id <$> chunks SEND_KEYS_CHUNK_BYTES data
  | Key name => [send_keys_name pane_id name]
  end.

Definition add_guards (guards : list InputGuard) (q : list Outgoing) : list Outgoing :=
  match last q with
  | Some o => take (length q - 1) q ++ [mkOutgoing (o_data o) (o_responses o) (o_guards o ++ guards)]
  | None => q
  end.

Definition flush_pane (pane_id : bytes) : M unit :=
  buffer <-- gets (fun s => default [] (input_buf s !! pane_id));
  let n := batch_len buffer INPUT_BATCH_BYTES in
  let data := take n buffer in
  guards <-- gets (fun s => default [] (input_guards s !! pane_id));
  guards <-- (match drop n buffer with
              | [] =>
                modify (fun s => set_input_buf (delete pane_id (input_buf s)) s);;;
                modify (fun s => set_input_guards (delete pane_id (input_guards s)) s);;;
                ret guards
              | rest => modify (fun s => set_input_buf (<[pane_id := rest]> (input_buf s)) s);;; ret []
              end);
  match data with
  | [] => ret tt
  | _ =>
    when (existsb (fun b => (b =? 13) || (b =? 10)) data)
      (modify (fun s => set_cwd_pending ({[pane_id]} ∪ cwd_pending s) s);;; arm_cwd_query);;;
    found <-- gets (fun s => panes s !! pane_id);
    match found with
    | None => ret tt
    | Some p =>
      r <-- lift (split_input (input_parser p) data);
      modify_pane pane_id (p_set_input_parser r.1);;;
      for_each (fun line => send_line Ignore line;;; ret tt) (r.2 ≫= segment_lines pane_id);;;
      modify (fun s => set_outgoing (add_guards guards (outgoing s)) s)
    end
  end.

Definition flush_input (e : Env) : M unit :=
  ids <-- gets (fun s => take 1 (keys e SFlush (input_buf s)));
  for_each flush_pane ids;;;
  modify (fun s => set_input_flush (if bool_decide (input_buf s = ∅) then None else Some INPUT_FLUSH_DELAY_MS) s).

Definition flush_cwd_queries (e : Env) : M unit :=
  modify (set_cwd_deadline None);;;
  ids <-- gets (fun s => ord e SCwd (elements (cwd_pending s)));
  modify (set_cwd_pending ∅);;;
  for_each (fun pane => send_query (PaneCwd pane)
    (bs "display-message -p -t '" ++ pane ++ bs "' '#{pane_current_path}'")) ids.

Definition continue_paused (e : Env) : M unit :=
  ids <-- gets (fun s => ord e SPaused (elements (paused_panes s)));
  for_each (seed_pane e) ids;;;
  modify (set_continue_deadline None).

Definition buffer_pane_input (pane_id data : bytes) (guard : InputGuard) : M unit :=
  known <-- gets (fun s => bool_decide (is_Some (panes s !! pane_id)));
  match data with
  | [] => ret tt
  | _ =>
    when known
      (modify (fun s => set_input_guards (<[pane_id := default [] (input_guards s !! pane_id) ++ [guard]]> (input_guards s)) s);;;
       modify (fun s => set_seen_input ({[pane_id]} ∪ seen_input s) s);;;
       modify (fun s => set_input_buf (<[pane_id := default [] (input_buf s !! pane_id) ++ data]> (input_buf s)) s);;;
       modify (fun s => set_input_flush (Some (default INPUT_FLUSH_DELAY_MS (input_flush s))) s))
  end.

Definition handle_pane_resize (e : Env) (pane_id : bytes) (cols rows : Z) : M unit :=
  layout_dims <-- gets (fun s => pane_dims e s pane_id);
  found <-- gets (fun s => panes s !! pane_id);
  match found with
  | None => ret tt
  | Some p =>
    let size := Some (cols, rows) in
    if bool_decide (layout_dims = size) then
      modify_pane pane_id (fun p =>
        let p := p_set_pending_dims None p in
        if bool_decide (desired p = size) then p else p_set_resize_attempts None (p_set_desired size p));;;
      (if bool_decide (seeded_desired p = size) then ret tt
       else
         modify_pane pane_id unseed;;;
         when (negb (seeding p)) (seed_pane e pane_id))
    else
      when (negb (bool_decide (pending_dims p = size)))
        (modify_pane pane_id (p_set_pending_dims size);;;
         modify (set_resize_deadline (Some RESIZE_SYNC_DEBOUNCE_MS)))
  end.

Definition teardown (e : Env) : M unit := teardown_panes e;;; emit_exited.

(** ** The loop of [run_control_session] *)

(** The arms of [select!]; what a channel yields is part of the arm. *)
Inductive Arm :=
| AControl (c : Ssh.SshCommand)
| ASent (ok : bool)
| ADetachDeadline
| AWindowPoll
| AInputFlush
| ARefresh
| AContinue
| AResize
| ACwd
| ACommand (c : option Tmux.PendingCommand)
| AHost (c : option Ssh.SshCommand)
| AData (data : bytes)
| AChannelClosed
| AChannelOther.

Definition PendingSend : Type := option (bytes * list InputGuard).

Definition armed {A} (t : option A) : bool := match t with Some _ => true | None => false end.

(** The guards of the arms; the control receiver of the mailbox yields control commands only. *)
Definition enabled (pending_send : PendingSend) (s : ControlSession) (a : Arm) : bool :=
  let open := negb (armed (exit_mode s)) in
  let room := zlen (outgoing s) <? MAX_QUEUED_COMMANDS / 2 in
  match a with
  | ASent _ => armed pending_send
  | ADetachDeadline => armed (detach_deadline s)
  | AWindowPoll => open
  | AInputFlush => armed (input_flush s) && room && open
  | ARefresh => armed (refresh_deadline s)
  | AContinue => armed (continue_deadline s)
  | AResize => armed (resize_deadline s)
  | ACwd => armed (cwd_deadline s)
  | ACommand _ => room && open
  | AHost _ => open
  | AControl c => Tmux.is_control c
  | AData _ | AChannelClosed | AChannelOther => true
  end.

Definition close_pane (pane : bytes) : M unit :=
  send_line (ClosePane pane) (bs "kill-pane -t '" ++ pane ++ bs "'");;; arm_refresh.

(** The lines of the parser, each handled in an environment of its own. *)
Fixpoint drain_messages (oc : bool) (fuel : nat) (es : nat -> Env) : M unit :=
  match fuel with
  | O => ret tt
  | S fuel' =>
    p <-- gets parser;
    r <-- lift (next_line p);
    modify (set_parser r.2);;;
    match r.1 with
    | None => ret tt
    | Some line =>
      handle_message oc (es O) line;;;
      stop <-- gets (fun s => exit_seen s || fatal s);
      if stop : bool then ret tt else drain_messages oc fuel' (fun n => es (S n))
    end
  end.

Definition feed (oc : bool) (es : nat -> Env) (data : bytes) : M unit :=
  modify (fun s => set_parser (push (parser s) data) s);;;
  n <-- gets (fun s => S (length (pbytes (parser s))));
  drain_messages oc n es.

(** The arm of the resize timer. *)
Definition resize_settled (oc : bool) (e : Env) : M unit :=
  modify (set_resize_deadline None);;;
  modify (fun s => set_panes ((fun p =>
    match pending_dims p with
    | Some d =>
      let p := p_set_pending_dims None p in
      if bool_decide (desired p = Some d) then p else p_set_resize_attempts None (p_set_desired (Some d) p)
    | None => p
    end) <$> panes s) s);;;
  sync_pane_sizes oc e;;;
  to_reseed <-- gets (fun s => List.filter (fun pane_id =>
    match panes s !! pane_id with
    | Some p => bool_decide (is_Some (desired p)) && bool_decide (desired p = pane_dims e s pane_id)
                && negb (bool_decide (seeded_desired p = desired p))
    | None => false
    end) (keys e SReseed (panes s)));
  for_each (fun pane_id =>
    found <-- gets (fun s => panes s !! pane_id);
    modify_pane pane_id unseed;;;
    when (match found with Some p => negb (seeding p) | None => true end) (seed_pane e pane_id)) to_reseed.

Definition handle_command (oc : bool) (e : Env) (c : Ssh.SshCommand) (permit : Tmux.Permit) : M (option ControlExit) :=
  let guard := mkGuard (Some permit) None in
  match c with
  | Ssh.CTmuxCommand line =>
    queued <-- queue_user_command e line;
    when queued (modify (fun s => set_outgoing (add_guards [guard] (outgoing s)) s));;; ret None
  | Ssh.CTmuxDetach => request_detach Detach;;; ret None
  | Ssh.CTmuxPaneInput pane data => buffer_pane_input pane data guard;;; ret None
  | Ssh.CTmuxPaneResize pane cols rows => handle_pane_resize e pane cols rows;;; ret None
  | Ssh.CTmuxPaneClose pane => close_pane pane;;; ret None
  | Ssh.CWrite _ | Ssh.CResize _ _ _ _ => ret None
  | Ssh.CClose => ret (Some ExitClosed)
  end.

Definition handle_host (c : option Ssh.SshCommand) : M unit :=
  match c with
  | Some (Ssh.CWrite w) =>
    active <-- gets active_pane;
    match active with Some pane => buffer_pane_input pane w (mkGuard None (Some w)) | None => ret tt end
  | Some (Ssh.CResize cols rows _ _) =>
    send_line Ignore (bs "refresh-client -C " ++ dec_string cols ++ bs "," ++ dec_string rows);;; ret tt
  | Some Ssh.CClose | None => request_detach Close
  | Some _ => ret tt
  end.

(** The body of an arm; [Some] leaves the loop. A command that cannot arrive on the control
    receiver is an [unreachable!()]. *)
Definition handle_arm (oc : bool) (es : nat -> Env) (a : Arm) : M (option ControlExit) :=
  let e := es O in
  match a with
  | AControl Ssh.CTmuxDetach => request_detach Detach;;; ret None
  | AControl (Ssh.CTmuxPaneClose pane) =>
    open <-- gets (fun s => negb (armed (exit_mode s)));
    when open (close_pane pane);;; ret None
  | AControl _ => lift Panic
  | ASent ok => ret (if ok : bool then None else Some ExitClosed)
  | ADetachDeadline => ret (Some ExitClosed)
  | AWindowPoll => refresh_windows;;; ret None
  | AInputFlush => flush_input e;;; ret None
  | ARefresh => modify (set_refresh_deadline None);;; refresh_lists;;; ret None
  | AContinue => modify (set_continue_deadline None);;; continue_paused e;;; ret None
  | AResize => resize_settled oc e;;; ret None
  | ACwd => flush_cwd_queries e;;; ret None
  | ACommand None => ret (Some ExitClosed)
  | ACommand (Some pc) => handle_command oc e (Tmux.command pc) (Tmux.permit pc)
  | AHost c => handle_host c;;; ret None
  | AData data => feed oc es data;;; ret None
  | AChannelClosed => ret (Some ExitClosed)
  | AChannelOther => ret None
  end.

Definition new_session (host : bytes) : ControlSession :=
  mkControlSession host new_parser None None None [] [] false ∅ ∅ ∅ ∅ None None ∅ ∅ ∅ None ∅ None None None None None ∅ None ∅
    None false None [].

(** Everything before the loop. *)
Definition bootstrap (oc : bool) (es : nat -> Env) (initial : bytes) : M unit :=
  send_line FlowControl (bs "refresh-client -f pause-after=2");;;
  refresh_lists;;;
  feed oc es initial.

(** The head of the loop: leave it, or start the next write. *)
Definition loop_head (pending_send : PendingSend) : M (PendingSend + ControlExit) :=
  f <-- gets fatal;
  if f : bool then ret (inr ExitClosed)
  else
    send <-- (match pending_send with Some _ => ret pending_send | None => start_send end);
    seen <-- gets exit_seen;
    if seen : bool then
      p <-- gets parser;
      r <-- lift (take_pending p);
      modify (set_parser r.2);;;
      mode <-- gets exit_mode;
      ret (inr (match mode with Some Close => ExitClosed | _ => ReturnToShell r.1 end))
    else ret (inl send).

(** The loop at its head, at its [select!], and left. *)
Inductive Loop :=
| AtHead (send : PendingSend) (s : ControlSession)
| AtSelect (send : PendingSend) (s : ControlSession)
| Left_ (exit : ControlExit) (s : ControlSession).

Inductive loop_step (oc : bool) : Loop -> Loop -> Prop :=
| step_head send s send' s' : loop_head send s = Ret (inl send', s') -> loop_step oc (AtHead send s) (AtSelect send' s')
| step_leave send s exit s1 e s2 :
  loop_head send s = Ret (inr exit, s1) -> env_ok e -> teardown e s1 = Ret (tt, s2) -> loop_step oc (AtHead send s) (Left_ exit s2)
| step_arm send s es a s' :
  (forall n, env_ok (es n)) -> enabled send s a = true -> handle_arm oc es a s = Ret (None, s') ->
  loop_step oc (AtSelect send s) (AtHead (match a with ASent _ => None | _ => send end) s')
| step_break send s es a exit s1 e s2 :
  (forall n, env_ok (es n)) -> env_ok e -> enabled send s a = true -> handle_arm oc es a s = Ret (Some exit, s1) -> teardown e s1 = Ret (tt, s2) ->
  loop_step oc (AtSelect send s) (Left_ exit s2).

Inductive loop_reachable (oc : bool) (host : bytes) : Loop -> Prop :=
| reach_start es initial s :
  (forall n, env_ok (es n)) -> bootstrap oc es initial (new_session host) = Ret (tt, s) -> loop_reachable oc host (AtHead None s)
| reach_step l l' : loop_reachable oc host l -> loop_step oc l l' -> loop_reachable oc host l'.
