(* ===== verification/TmuxCorrelation.v ===== *)
(** * Responses of a tmux control session

    Which command a response block of tmux answers
    ([src/crates/nyaterm-transport/src/tmux/session.rs], [response_kind] and [start_send]).
    tmux answers in the order of the commands: an ordinary command with one block, a command
    of the user with any number of them up to the one that prints its barrier, and a seed,
    which is one compound command, with one block per part up to the first that fails. This
    is the abstract machine [answer] over the commands still to be answered; the session
    keeps a flat queue of expected blocks and is shown to follow it.

    The file also holds the program logic of the session's monad: [wp oc m Q s] says that
    [m] started in [s] ends in [Q], or panics where overflow checks are on ([oc]). *)

From stdpp Require Import base option list numbers strings gmap sets.
From Stdlib Require Import ZArith Lia.
From S2P Require Import Prelude RustStr RustText Mailbox SshMailbox TmuxMailbox EventQueue TmuxControl TmuxInput TmuxState TmuxSession.

Local Open Scope Z_scope.
Local Open Scope tmux_scope.

(** ** The program logic *)

Definition wp {A} (oc : bool) (m : M A) (Q : A -> ControlSession -> Prop) (s : ControlSession) : Prop :=
  match m s with Ret (a, s') => Q a s' | Panic => oc = true end.

Arguments wp : simpl never.

Lemma wp_mono {A} oc (m : M A) (Q Q' : A -> ControlSession -> Prop) s :
  wp oc m Q s -> (forall a s', Q a s' -> Q' a s') -> wp oc m Q' s.
Proof. unfold wp. destruct (m s) as [[a s']|]; auto. Qed.

Lemma wp_bind {A B} oc (m : M A) (k : A -> M B) Q s :
  wp oc m (fun a => wp oc (k a) Q) s -> wp oc (bind m k) Q s.
Proof. unfold wp, bind. by destruct (m s) as [[a s']|]. Qed.

Lemma wp_ret {A} oc (a : A) (Q : A -> ControlSession -> Prop) s : Q a s -> wp oc (ret a) Q s.
Proof. done. Qed.

Lemma wp_gets {A} oc (f : ControlSession -> A) (Q : A -> ControlSession -> Prop) s : Q (f s) s -> wp oc (gets f) Q s.
Proof. done. Qed.

Lemma wp_modify oc f (Q : unit -> ControlSession -> Prop) s : Q tt (f s) -> wp oc (modify f) Q s.
Proof. done. Qed.

Lemma wp_lift {A} oc (o : outcome A) (Q : A -> ControlSession -> Prop) s :
  match o with Ret a => Q a s | Panic => oc = true end -> wp oc (lift o) Q s.
Proof. unfold wp, lift, obind. by destruct o. Qed.

Lemma wp_when oc (b : bool) m (Q : unit -> ControlSession -> Prop) s :
  (b = true -> wp oc m Q s) -> (b = false -> Q tt s) -> wp oc (when b m) Q s.
Proof. destruct b; [auto|]. intros _ H. by apply wp_ret, H. Qed.

(** The rule of loops: an invariant over the elements already visited. *)
Lemma wp_for_each {A} oc (f : A -> M unit) (I : list A -> ControlSession -> Prop) l s :
  I [] s ->
  (forall l1 a l2 s, l = l1 ++ a :: l2 -> I l1 s -> wp oc (f a) (fun _ => I (l1 ++ [a])) s) ->
  wp oc (for_each f l) (fun _ => I l) s.
Proof.
  intros H0 Hstep. assert (G : forall l2 l1 s, l = l1 ++ l2 -> I l1 s -> wp oc (for_each f l2) (fun _ => I l) s).
  { clear s H0. induction l2 as [|a l2 IH]; intros l1 s Hl Hs.
    - cbn. apply wp_ret. rewrite app_nil_r in Hl. by subst l1.
    - cbn [for_each]. apply wp_bind. apply (wp_mono oc (f a) (fun _ => I (l1 ++ [a]))); [by eapply Hstep|].
      intros _ s'. apply IH. by rewrite <- app_assoc. }
  by eapply (G l []).
Qed.

(** The same with one condition that every turn keeps. *)
Lemma wp_for_each_inv {A} oc (f : A -> M unit) (I : ControlSession -> Prop) l s :
  I s -> (forall a s, a ∈ l -> I s -> wp oc (f a) (fun _ => I) s) -> wp oc (for_each f l) (fun _ => I) s.
Proof.
  intros H0 Hstep. apply (wp_for_each oc f (fun _ => I)); [done|]. intros l1 a l2 s' -> Hs. apply Hstep; [set_solver|done].
Qed.

Lemma wp_Ret {A} oc (m : M A) Q s a s' : wp oc m Q s -> m s = Ret (a, s') -> Q a s'.
Proof. unfold wp. intros H E. by rewrite E in H. Qed.

(** One step of a computation. *)
Ltac wp1 :=
  lazymatch goal with
  | |- wp _ (bind _ _) _ _ => apply wp_bind
  | |- wp _ (gets _) _ _ => apply wp_gets
  | |- wp _ (modify _) _ _ => apply wp_modify
  | |- wp _ (ret _) _ _ => apply wp_ret
  | |- wp _ (when _ _) _ _ => apply wp_when; [intros ?|intros ?]
  | |- wp _ (lift _) _ _ => apply wp_lift
  end.
Ltac wps := repeat wp1.

(** ** What tmux still has to answer *)

Inductive todo :=
| Single (kind : PendingKind)
| User (barrier : bytes)
| Seed (pane : bytes) (generation : Z) (continue : bool)
| SeedRest (pane : bytes) (generation : Z) (continue : bool)
| SeedLast (pane : bytes) (generation : Z).

Definition single_kind (k : PendingKind) : bool :=
  match k with CapturePane _ _ | SeedCursor _ _ | SeedContinue _ _ | UserCommand _ => false | _ => true end.

Definition todo_ok (t : todo) : Prop := match t with Single k => single_kind k = true | _ => True end.
Definition whole (t : todo) : Prop := match t with Single k => single_kind k = true | User _ | Seed _ _ _ => True | _ => False end.

(** The blocks the session expects for it. *)
Definition expected (t : todo) : list PendingKind :=
  match t with
  | Single k => [k]
  | User b => [UserCommand b]
  | Seed p g c => [CapturePane p g; SeedCursor p g] ++ (if c then [SeedContinue p g] else [])
  | SeedRest p g c => SeedCursor p g :: (if c then [SeedContinue p g] else [])
  | SeedLast p g => [SeedContinue p g]
  end.

(** A block answers the first command: what it is for, and what is left to answer. A block
    with an even flag answers nothing. *)
Definition answer (ts : list todo) (id : BlockId) (lines : list bytes) (failed : bool) : PendingKind * list todo :=
  if Z.land (flags id) 1 =? 0 then (Ignore, ts)
  else
    match ts with
    | [] => (Ignore, [])
    | Single k :: ts' => (k, ts')
    | User b :: ts' => if negb failed && bool_decide (lines = [b]) then (Ignore, ts') else (UserCommand b, ts)
    | Seed p g c :: ts' => if failed then (SeedCursor p g, ts') else (CapturePane p g, SeedRest p g c :: ts')
    | SeedRest p g c :: ts' => (SeedCursor p g, if failed then ts' else if c then SeedLast p g :: ts' else ts')
    | SeedLast p g :: ts' => (SeedContinue p g, ts')
    end.

(** The commands of a well-formed queue: only the first can be partly answered. *)
Definition todos_ok (ts : list todo) : Prop := Forall todo_ok (take 1 ts) /\ Forall whole (tail ts).

Definition awaiting (s : ControlSession) (ts : list todo) : Prop :=
  todos_ok ts /\ pending_responses s = ts ≫= expected.

Lemma whole_ok t : whole t -> todo_ok t.
Proof. by destruct t. Qed.

Lemma todos_ok_tail t ts : todos_ok (t :: ts) -> todos_ok ts.
Proof. intros [_ H]. cbn in H. split; [|by destruct H]. destruct H; constructor; [by apply whole_ok|done]. Qed.

(** No whole command begins with the last part of a seed. *)
Lemma next_not_continue ts p g rest : Forall whole ts -> ts ≫= expected <> SeedContinue p g :: rest.
Proof. intros H. destruct H as [|[[]| | | |] ts ? ?]; cbn in *; try done. Qed.

(** ** The session follows it *)

(** Only the queue of expected blocks and what pausing depends on may change. *)
Definition pausing_only (s s' : ControlSession) : Prop :=
  exists q p d, s' = set_continue_deadline d (set_paused_panes p (set_pending_responses q s)).

Lemma pausing_refl s : pausing_only s s.
Proof. exists (pending_responses s), (paused_panes s), (continue_deadline s). by destruct s. Qed.

Lemma retry_paused_keeps oc p g s q :
  wp oc (retry_paused_seed p g) (fun _ s' => pending_responses s' = q /\ pausing_only s s') (set_pending_responses q s).
Proof.
  unfold retry_paused_seed. wps.
  - split; [done|]. do 3 eexists. reflexivity.
  - split; [done|]. exists q, (paused_panes s), (continue_deadline s). by destruct s.
Qed.

Lemma skip_seed_continue_none oc p g s q :
  (forall r, q <> SeedContinue p g :: r) ->
  wp oc (skip_seed_continue p g) (fun _ s' => pending_responses s' = q /\ pausing_only s s') (set_pending_responses q s).
Proof.
  intros Hn. unfold skip_seed_continue. wps. cbn. assert (D : pending_responses (set_pending_responses q s) = q /\ pausing_only s (set_pending_responses q s)).
  { split; [done|]. exists q, (paused_panes s), (continue_deadline s). by destruct s. }
  destruct q as [|[] q]; try done. wps; [|done].
  match goal with H : _ = true |- _ => apply andb_true_iff in H as [->%beq_true ->%Z.eqb_eq] end. by destruct (Hn q).
Qed.

Lemma skip_seed_continue_hit oc p g s q :
  wp oc (skip_seed_continue p g) (fun _ s' => pending_responses s' = q /\ pausing_only s s')
    (set_pending_responses (SeedContinue p g :: q) s).
Proof.
  unfold skip_seed_continue. wps. cbn. rewrite beq_refl, Z.eqb_refl. cbn. wps.
  change (set_pending_responses q (set_pending_responses (SeedContinue p g :: q) s)) with (set_pending_responses q s).
  apply retry_paused_keeps.
Qed.

Lemma skip_rest oc p g (c : bool) s ts :
  Forall whole ts ->
  wp oc (skip_seed_continue p g) (fun _ s' => pending_responses s' = ts ≫= expected /\ pausing_only s s')
    (set_pending_responses ((if c then [SeedContinue p g] else []) ++ (ts ≫= expected)) s).
Proof.
  intros H. destruct c; cbn; [apply skip_seed_continue_hit|]. apply skip_seed_continue_none. intros r. by apply next_not_continue.
Qed.

Lemma response_refines oc s ts id lines failed :
  awaiting s ts ->
  wp oc (response_kind id lines failed)
    (fun k s' => k = (answer ts id lines failed).1 /\ awaiting s' (answer ts id lines failed).2 /\ pausing_only s s') s.
Proof.
  intros [Hok Hp]. unfold response_kind, answer. destruct (Z.land (flags id) 1 =? 0).
  { wps. split_and!; [done|done|apply pausing_refl]. }
  wps. rewrite Hp. destruct ts as [|t ts]; [wps; split_and!; [done|done|apply pausing_refl]|].
  pose proof (todos_ok_tail _ _ Hok) as Hts. assert (Hw : Forall whole ts) by apply Hok.
  assert (Hpop : forall q, pausing_only s (set_pending_responses q s)).
  { intros q. exists q, (paused_panes s), (continue_deadline s). by destruct s. }
  destruct t as [k|b|p g c|p g c|p g]; cbn [mbind list_bind expected app].
  - destruct Hok as [Hk _]. apply Forall_inv in Hk. cbn in Hk. destruct k, failed; try done; wps; (split_and!; [done|done|apply Hpop]).
  - assert (E : match lines with [l] => beq l b | _ => false end = bool_decide (lines = [b])).
    { destruct lines as [|l [|]]; [by rewrite bool_decide_false|..|by rewrite bool_decide_false].
      destruct (beq l b) eqn:E; symmetry; [apply bool_decide_eq_true; f_equal; by apply beq_true|].
      apply bool_decide_eq_false. intros [= ->]. by rewrite beq_refl in E. }
    rewrite E. destruct (negb failed && _); wps; (split_and!; [done|done|first [apply Hpop|apply pausing_refl]]).
  - rewrite beq_refl, Z.eqb_refl. cbn [andb when]. destruct failed.
    + wps. cbn [tail]. eapply wp_mono; [apply (skip_rest oc p g c s ts Hw)|]. intros _ s' [H1 H2]. wps. by split_and!.
    + wps. split_and!; [done| |apply Hpop]. split; [by split; [repeat constructor|]|]. done.
  - destruct failed.
    + wps. eapply wp_mono; [apply (skip_rest oc p g c s ts Hw)|]. intros _ s' [H1 H2]. wps. by split_and!.
    + wps. split_and!; [done| |apply Hpop]. destruct c; [|done]. by split; [split; [repeat constructor|]|].
  - destruct failed; wps; [|split_and!; [done|done|apply Hpop]].
    eapply wp_mono; [apply retry_paused_keeps|]. intros _ s' [H1 H2]. wps. by split_and!.
Qed.
