(* ===== verification/TmuxSessionInv.v ===== *)
(** * The invariant of a tmux control session

    What holds in every state of the loop of [run_control_session]
    ([src/crates/nyaterm-transport/src/tmux/session.rs]), whatever tmux sends, whichever arm
    of [select!] runs and in whatever order hash tables are visited: the buffers are bounded
    and counted exactly, the sessions registered for panes are the panes mapped, every event
    is for a registered pane, buffered input has its guards and its timer, and expected
    responses are those of the commands written. The proofs also show that no method panics
    in a build without overflow checks. *)

From stdpp Require Import base option list numbers strings gmap sets.
From Stdlib Require Import ZArith Lia.
From S2P Require Import Prelude RustStr RustText RustOrd Mailbox SshMailbox TmuxMailbox EventQueue TmuxControl TmuxLayout TmuxInput.
From S2P Require Import TmuxState TmuxSession TmuxCorrelation.

Local Open Scope Z_scope.
Local Open Scope tmux_scope.

Arguments pane_key : simpl never.
Arguments pane_session_id : simpl never.

(** ** Registered sessions *)

(** What the effects leave in the registry: the pane behind each registered session. *)
Definition registry_step (m : gmap bytes bytes) (x : Effect) : gmap bytes bytes :=
  match x with
  | Registered sid _ pane => <[sid := pane]> m
  | Removed sid => delete sid m
  | CloseRetryable _ | Pushed _ => m
  end.
Definition registry (l : list Effect) : gmap bytes bytes := fold_left registry_step l ∅.

(** The pane session an effect is for. *)
Definition target (x : Effect) : option bytes :=
  match x with
  | Pushed (EventQueue.Output sid _) | Pushed (CwdChanged sid _) | CloseRetryable sid => Some sid
  | _ => None
  end.

(** Events are only for sessions that are registered when they are pushed. *)
Definition addressed (l : list Effect) : Prop :=
  forall pre x post sid, l = pre ++ x :: post -> target x = Some sid -> is_Some (registry pre !! sid).

Lemma registry_snoc l x : registry (l ++ [x]) = registry_step (registry l) x.
Proof. unfold registry. by rewrite fold_left_app. Qed.

Lemma addressed_snoc l x :
  addressed l -> (forall sid, target x = Some sid -> is_Some (registry l !! sid)) -> addressed (l ++ [x]).
Proof.
  intros Hl Hx pre y post sid E Ht. destruct (decide (post = [])) as [->|Hn].
  - apply app_inj_tail in E as [-> ->]. by apply Hx.
  - destruct (exists_last Hn) as (post' & z & ->). rewrite app_comm_cons, app_assoc in E.
    apply app_inj_tail in E as [-> _]. by eapply Hl.
Qed.

(** ** The invariant *)

Definition pending_size (q : list (option Z * bytes)) : Z := foldr (fun c n => zlen c.2 + n) 0 q.

Definition bounded_queue (q : list (option Z * bytes)) (n : Z) : Prop :=
  n = pending_size q /\ n <= PENDING_PANE_OUTPUT_MAX_BYTES.

Record pane_inv (host k : bytes) (p : VirtualPane) : Prop :=
  { pi_key : exists n, 0 <= n /\ k = pane_key n;
    pi_sid : session_id p = pane_session_id host k;
    pi_queue : bounded_queue (pending_output p) (pending_bytes p);
    pi_parser : TmuxInput.parser_ok (input_parser p) }.

Definition panes_inv (host : bytes) (ps : gmap bytes VirtualPane) (unknown : gmap bytes (list (option Z * bytes) * Z))
    (effs : list Effect) : Prop :=
  map_Forall (pane_inv host) ps
  /\ map_Forall (fun k q => bounded_queue q.1 q.2 /\ ps !! k = None) unknown
  /\ (forall sid k, registry effs !! sid = Some k <-> exists p, ps !! k = Some p /\ session_id p = sid)
  /\ addressed effs.

Definition layout_ok (l : option LayoutCell) : Prop := from_option (fun c => Forall (Z.le 0) (pane_ids c)) True l.
Definition windows_inv (ws : gmap bytes WindowState) : Prop := map_Forall (fun _ w => layout_ok (w_layout w)) ws.

Definition batch_ok (o : Outgoing) : Prop := exists t, whole t /\ o_responses o = expected t.

Definition queue_inv (out : list Outgoing) (pending : list PendingKind) : Prop :=
  zlen out <= MAX_QUEUED_COMMANDS /\ Forall batch_ok out
  /\ zlen pending <= MAX_PENDING_RESPONSES /\ exists ts, todos_ok ts /\ pending = ts ≫= expected.

Definition input_inv (ps : gmap bytes VirtualPane) (buf : gmap bytes bytes) (guards : gmap bytes (list InputGuard))
    (timer : option Z) : Prop :=
  dom guards = dom buf /\ dom buf ⊆ dom ps /\ map_Forall (fun _ b => b <> []) buf /\ (buf <> ∅ -> timer <> None).

Definition inv (host : bytes) (s : ControlSession) : Prop :=
  control_session_id s = host /\ TmuxControl.parser_ok (parser s) /\ windows_inv (windows s)
  /\ panes_inv host (panes s) (unknown_output s) (effects s)
  /\ queue_inv (outgoing s) (pending_responses s)
  /\ input_inv (panes s) (input_buf s) (input_guards s) (input_flush s).

(** ** Names of panes *)

Lemma dec_string_inj a b : 0 <= a -> 0 <= b -> dec_string a = dec_string b -> a = b.
Proof.
  intros Ha Hb E. set (w := Z.max a b + 1).
  assert (Hw : forall x, 0 <= x <= Z.max a b -> 0 <= x < 2 ^ w).
  { intros x Hx. split; [lia|]. pose proof (Z.pow_gt_lin_r 2 w). unfold w in *. lia. }
  pose proof (parse_uint_dec w a (Hw a ltac:(lia))) as H1. pose proof (parse_uint_dec w b (Hw b ltac:(lia))) as H2.
  rewrite E in H1. congruence.
Qed.

Lemma trim_percent_key n : trim_percent (pane_key n) = dec_string n.
Proof.
  change (trim_percent (pane_key n)) with (trim_percent (dec_string n)). pose proof (dec_string_digits n) as H. destruct (dec_string n) as [|b s]; [done|].
  apply Forall_inv in H. unfold is_dec_digit in H. cbn. by rewrite (proj2 (Z.eqb_neq b 37)) by lia.
Qed.

Lemma pane_session_id_inj host a b :
  0 <= a -> 0 <= b -> pane_session_id host (pane_key a) = pane_session_id host (pane_key b) -> a = b.
Proof.
  unfold pane_session_id. rewrite !trim_percent_key. intros ?? E. simplify_eq. by apply dec_string_inj.
Qed.

Lemma pane_inv_inj host k1 k2 p1 p2 :
  pane_inv host k1 p1 -> pane_inv host k2 p2 -> session_id p1 = session_id p2 -> k1 = k2.
Proof.
  intros [(n1 & ? & ->) H1 _ _] [(n2 & ? & ->) H2 _ _] E. f_equal. rewrite H1, H2 in E. by eapply pane_session_id_inj.
Qed.

(** ** Queues of output *)

Lemma pending_size_app a b : pending_size (a ++ b) = pending_size a + pending_size b.
Proof. induction a as [|c a IH]; cbn; [done|]. unfold pending_size in *. lia. Qed.

Lemma pending_size_nonneg q : 0 <= pending_size q.
Proof. induction q as [|c q IH]; cbn; [done|]. unfold pending_size, zlen in *. lia. Qed.

Lemma take_pending_spec oc cap q :
  take_pending_loop oc cap q (pending_size q) = Ret (snd <$> List.filter (fun c => negb (output_precedes_capture c.1 cap)) q, 0).
Proof.
  induction q as [|[t d] q IH]; cbn; [done|]. change (foldr _ 0 q) with (pending_size q).
  rewrite sub_oc_ok by (pose proof (pending_size_nonneg q); lia). cbn.
  replace (zlen d + pending_size q - zlen d) with (pending_size q) by lia. rewrite IH. cbn.
  by destruct (output_precedes_capture t cap).
Qed.

(** Eviction drops from the front until the rest fits. *)
Lemma evict_spec oc room q :
  0 <= room -> exists q1 q2, q = q1 ++ q2 /\ evict oc room q (pending_size q) = Ret (q2, pending_size q2) /\ pending_size q2 <= room
    /\ (q1 = [] \/ exists c, last q1 = Some c /\ room < zlen c.2 + pending_size q2).
Proof.
  intros Hr. induction q as [|[t d] q IH].
  - exists [], []. cbn. destruct (0 <=? room) eqn:E; split_and!; auto.
  - cbn [evict]. destruct (pending_size ((t, d) :: q) <=? room) eqn:E; bool_hyps.
    + exists [], ((t, d) :: q). by split_and!; [..|left].
    + cbn in *. change (foldr _ 0 q) with (pending_size q) in *. rewrite sub_oc_ok by (pose proof (pending_size_nonneg q); lia). cbn.
      replace (zlen d + pending_size q - zlen d) with (pending_size q) by lia.
      destruct IH as (q1 & q2 & -> & -> & Hle & Hl). exists ((t, d) :: q1), q2. split_and!; [done..|]. right.
      destruct Hl as [->|(c & Hc & Hlt)]; [exists (t, d); by split|]. exists c. split; [|done]. by rewrite last_cons, Hc.
Qed.

Lemma spill_spec oc q :
  exists q1 q2, q = q1 ++ q2 /\ spill oc q (pending_size q) = Ret (snd <$> q1, q2, pending_size q2)
    /\ pending_size q2 <= PENDING_PANE_OUTPUT_MAX_BYTES.
Proof.
  induction q as [|[t d] q IH].
  - exists [], []. by split_and!.
  - cbn [spill]. destruct (pending_size ((t, d) :: q) <=? _) eqn:E; bool_hyps.
    + exists [], ((t, d) :: q). by split_and!.
    + cbn. change (foldr _ 0 q) with (pending_size q). rewrite sub_oc_ok by (pose proof (pending_size_nonneg q); lia). cbn.
      replace (zlen d + pending_size q - zlen d) with (pending_size q) by lia.
      destruct IH as (q1 & q2 & -> & -> & Hle). by exists ((t, d) :: q1), q2.
Qed.

Lemma buffer_unknown_spec oc q t data :
  bounded_queue q.1 q.2 ->
  exists q' n', buffer_unknown_output oc q t data = Ret (q', n') /\ bounded_queue q' n'.
Proof.
  destruct q as [q n]. intros [E0 Hn]. cbn [fst snd] in *. subst n. unfold buffer_unknown_output. set (M := PENDING_PANE_OUTPUT_MAX_BYTES) in *.
  set (d := if M <? zlen data then _ else data). cbn [fst snd].
  assert (Hd : zlen d <= M).
  { unfold d. destruct (M <? zlen data) eqn:E; bool_hyps; [|done]. unfold zlen in *. rewrite length_drop. unfold M, PENDING_PANE_OUTPUT_MAX_BYTES in *. lia. }
  rewrite sub_oc_ok by done. cbn [obind].
  destruct (evict_spec oc (M - zlen d) q) as (q1 & q2 & -> & -> & Hle & _); [lia|]. cbn.
  do 2 eexists. split; [done|]. split; [|lia]. rewrite pending_size_app. cbn. lia.
Qed.

(** ** Pane output and the registry *)

Section Inv.
Context (oc : bool) (host : bytes).

Local Notation "'keep' m" := (forall s, inv host s -> wp oc m (fun _ => inv host) s) (at level 10).

(** An effect that is not a registration. *)
Lemma panes_inv_emit ps unknown effs x :
  panes_inv host ps unknown effs -> registry_step (registry effs) x = registry effs ->
  (forall sid, target x = Some sid -> exists k p, ps !! k = Some p /\ session_id p = sid) ->
  panes_inv host ps unknown (effs ++ [x]).
Proof.
  intros (H1 & H2 & H3 & H4) Hr Ht. split_and!; [done|done| |].
  - intros sid k. rewrite registry_snoc, Hr. apply H3.
  - apply addressed_snoc; [done|]. intros sid (k & p & Hk & Hs)%Ht. exists k. apply H3. eauto.
Qed.

Lemma panes_inv_sid ps unknown effs k p : panes_inv host ps unknown effs -> ps !! k = Some p -> session_id p = pane_session_id host k.
Proof. intros (H & _) Hk. by apply H in Hk as []. Qed.

Lemma emit_inv x s :
  inv host s -> registry_step (registry (effects s)) x = registry (effects s) ->
  (forall sid, target x = Some sid -> exists k p, panes s !! k = Some p /\ session_id p = sid) ->
  wp oc (emit x) (fun _ s' => inv host s' /\ panes s' = panes s) s.
Proof.
  intros (H1 & H2 & H3 & H4 & H5 & H6) Hr Ht. unfold emit. wps. split; [|done]. unfold inv. cbn.
  split_and!; try done. by apply panes_inv_emit.
Qed.

Lemma emit_free x s :
  inv host s -> registry_step (registry (effects s)) x = registry (effects s) -> target x = None ->
  wp oc (emit x) (fun _ => inv host) s.
Proof. intros H Hr Ht. eapply wp_mono; [apply emit_inv; [done|done|by rewrite Ht]|]. by intros _ s' []. Qed.

(** Changing a pane in place. *)
Lemma panes_inv_insert ps unknown effs k p p' :
  panes_inv host ps unknown effs -> ps !! k = Some p -> pane_inv host k p' -> panes_inv host (<[k := p']> ps) unknown effs.
Proof.
  intros (H1 & H2 & H3 & H4) Hk Hp. pose proof (H1 _ _ Hk) as Hp0. split_and!; [by apply map_Forall_insert_2| | |done].
  - intros j q Hj. destruct (H2 j q Hj) as [? ?]. split; [done|]. rewrite lookup_insert_ne; [done|]. intros ->. congruence.
  - intros sid j. rewrite H3. destruct (decide (j = k)) as [->|Hn].
    + rewrite lookup_insert_eq. split; intros (q & E & <-); simplify_eq; eexists; (split; [done|]);
        [by rewrite (pi_sid _ _ _ Hp), (pi_sid _ _ _ Hp0)|by rewrite (pi_sid _ _ _ Hp), (pi_sid _ _ _ Hp0)].
    + by rewrite lookup_insert_ne.
Qed.

Lemma input_inv_dom ps ps' buf guards timer : input_inv ps buf guards timer -> dom ps' = dom ps -> input_inv ps' buf guards timer.
Proof. intros (H1 & H2 & H3 & H4) Hd. split_and!; [done|by rewrite Hd|done|done]. Qed.

Lemma inv_insert s k p p' :
  inv host s -> panes s !! k = Some p -> pane_inv host k p' -> inv host (set_panes (<[k := p']> (panes s)) s).
Proof.
  intros (H1 & H2 & H3 & H4 & H5 & H6) Hk Hp. unfold inv. cbn. split_and!; try done.
  - by eapply panes_inv_insert.
  - eapply input_inv_dom; [done|]. rewrite dom_insert_L. apply elem_of_dom_2 in Hk. set_solver.
Qed.

Lemma inv_alter s k f :
  inv host s -> (forall p, panes s !! k = Some p -> pane_inv host k p -> pane_inv host k (f p)) ->
  inv host (set_panes (alter f k (panes s)) s).
Proof.
  intros Hs Hf. assert (Hp : map_Forall (pane_inv host) (panes s)) by apply Hs.
  destruct (panes s !! k) as [p|] eqn:E.
  - assert (Ha : alter f k (panes s) = <[k := f p]> (panes s)).
    { apply map_eq. intros j. destruct (decide (j = k)) as [->|]; [by rewrite lookup_alter_eq, lookup_insert_eq, E|].
      by rewrite lookup_alter_ne, lookup_insert_ne. }
    rewrite Ha. eapply inv_insert; [done|done|]. by apply Hf, Hp.
  - assert (Ha : alter f k (panes s) = panes s).
    { apply map_eq. intros j. destruct (decide (j = k)) as [->|]; [by rewrite lookup_alter_eq, E|by rewrite lookup_alter_ne]. }
    rewrite Ha. by destruct s.
Qed.

(** The same for a function that leaves the name, the queue and the input parser. *)
Definition cosmetic (f : VirtualPane -> VirtualPane) : Prop :=
  forall p, session_id (f p) = session_id p /\ pending_output (f p) = pending_output p
            /\ pending_bytes (f p) = pending_bytes p /\ input_parser (f p) = input_parser p.

Lemma cosmetic_inv f k p : cosmetic f -> pane_inv host k p -> pane_inv host k (f p).
Proof. intros Hf []. destruct (Hf p) as (E1 & E2 & E3 & E4). constructor; by rewrite ?E1, ?E2, ?E3, ?E4. Qed.

Lemma modify_pane_inv k f : cosmetic f -> keep (modify_pane k f).
Proof. intros Hf s Hs. apply wp_modify. apply inv_alter; [done|]. intros p _. by apply cosmetic_inv. Qed.

Lemma push_output_inv k p data s :
  inv host s -> panes s !! k = Some p ->
  wp oc (push_pane_output (session_id p) data) (fun _ s' => inv host s' /\ panes s' = panes s) s.
Proof. intros Hs Hk. apply emit_inv; [done|done|]. intros sid [= <-]. eauto. Qed.

Lemma push_all_inv k p l s :
  inv host s -> panes s !! k = Some p ->
  wp oc (for_each (push_pane_output (session_id p)) l) (fun _ s' => inv host s' /\ panes s' = panes s) s.
Proof.
  intros Hs Hk. apply (wp_for_each_inv oc _ (fun s' => inv host s' /\ panes s' = panes s)); [done|].
  intros d s' _ [Hs' E]. eapply wp_mono; [apply (push_output_inv k); [done|by rewrite E]|].
  intros _ s'' [H1 H2]. split; [done|]. by rewrite H2.
Qed.

Lemma route_output_inv pane t data : keep (route_output oc pane t data).
Proof.
  intros s Hs. assert (Hpi : panes_inv host (panes s) (unknown_output s) (effects s)) by apply Hs.
  unfold route_output. wps. destruct (panes s !! pane) as [p|] eqn:Ep.
  - pose proof (proj1 Hpi _ _ Ep) as Hp. destruct (seeded p).
    + destruct (output_precedes_capture _ _); [by wps|]. wps.
      eapply wp_mono; [by apply (push_output_inv pane)|]. intros _ s' [H1 H2]. apply modify_pane_inv; [|done]. by intros q.
    + destruct (pi_queue _ _ _ Hp) as [Eq Hb].
      destruct (spill_spec oc (pending_output p ++ [(t, data)])) as (q1 & q2 & E12 & Esp & Hle).
      assert (Esz : pending_bytes p + zlen data = pending_size (pending_output p ++ [(t, data)])).
      { rewrite pending_size_app. cbn. lia. }
      wps. rewrite Esz, Esp. cbn [fst snd]. unfold modify_pane. wps.
      assert (Ha : inv host (set_panes (alter (fun p => p_set_pending_output q2 (p_set_pending_bytes (pending_size q2) p)) pane (panes s)) s)).
      { apply inv_alter; [done|]. intros p0 _ [K1 K2 K3 K4]. by constructor. }
      set (s1 := set_panes _ s) in *.
      assert (Hk : exists p', panes s1 !! pane = Some p' /\ session_id p' = session_id p).
      { unfold s1. cbn. rewrite lookup_alter_eq, Ep. by eexists. }
      destruct Hk as (p' & Hk & <-). eapply wp_mono; [by apply (push_all_inv pane)|]. by intros _ s' [].
  - assert (Hq : bounded_queue (default ([], 0) (unknown_output s !! pane)).1 (default ([], 0) (unknown_output s !! pane)).2).
    { destruct (unknown_output s !! pane) as [q|] eqn:Eq; [|by split]. by apply (proj1 (proj2 Hpi)) in Eq as [? _]. }
    wps. destruct (buffer_unknown_spec oc _ t data Hq) as (q' & n' & -> & Hq'). wps.
    destruct Hs as (H1 & H2 & H3 & H4 & H5 & H6). unfold inv. cbn. split_and!; try done.
    split_and!; try apply Hpi. apply map_Forall_insert_2; [by split|]. apply Hpi.
Qed.

(** Any change of the panes that leaves their names, queues and input parsers. *)
Definition core (p : VirtualPane) : bytes * list (option Z * bytes) * Z * InputParser :=
  (session_id p, pending_output p, pending_bytes p, input_parser p).

Lemma core_lookup (ps ps' : gmap bytes VirtualPane) k p :
  core <$> ps' = core <$> ps -> ps' !! k = Some p -> exists p0, ps !! k = Some p0 /\ core p0 = core p.
Proof.
  intros E Hk. assert (H : (core <$> ps') !! k = Some (core p)) by (by rewrite lookup_fmap, Hk).
  rewrite E, lookup_fmap in H. destruct (ps !! k) as [p0|]; [|done]. exists p0. split; [done|]. change (Some (core p0) = Some (core p)) in H. congruence.
Qed.

Lemma inv_core s ps' : inv host s -> core <$> ps' = core <$> panes s -> inv host (set_panes ps' s).
Proof.
  intros (H1 & H2 & H3 & (P1 & P2 & P3 & P4) & H5 & H6) E. symmetry in E. unfold inv. cbn. split_and!; try done.
  - split_and!.
    + intros k p Hk. destruct (core_lookup _ _ _ _ (eq_sym E) Hk) as (p0 & Hp0 & Ec). apply P1 in Hp0 as [K1 K2 [K3 K3'] K4].
      unfold core in Ec. simplify_eq. constructor; [done|congruence| |congruence]. split; congruence.
    + intros k q Hk. destruct (P2 _ _ Hk) as [? Hn]. split; [done|]. apply eq_None_not_Some. intros [p Hp].
      destruct (core_lookup _ _ _ _ (eq_sym E) Hp) as (p0 & ? & _). congruence.
    + intros sid k. rewrite P3. split; intros (p & Hk & <-).
      * destruct (core_lookup _ _ _ _ E Hk) as (p0 & ? & Ec). exists p0. unfold core in Ec. simplify_eq. eauto.
      * destruct (core_lookup _ _ _ _ (eq_sym E) Hk) as (p0 & ? & Ec). exists p0. unfold core in Ec. simplify_eq. eauto.
    + done.
  - eapply input_inv_dom; [done|]. rewrite <- (dom_fmap_L core ps'), <- E. by rewrite dom_fmap_L.
Qed.

(** ** Commands *)

Lemma queue_batch_inv line t : whole t -> keep (queue_batch line (expected t)).
Proof.
  intros Ht s Hs. unfold queue_batch. wps. destruct (MAX_QUEUED_COMMANDS <=? zlen (outgoing s)) eqn:E; wps; [done|].
  destruct Hs as (H1 & H2 & H3 & H4 & (Q1 & Q2 & Q3 & Q4) & H6). bool_hyps. unfold inv. cbn. split_and!; try done.
  split_and!; [|apply Forall_app; split; [done|]; constructor; [by exists t|done]|done|done].
  unfold zlen in *. rewrite length_app. cbn. lia.
Qed.

Lemma send_line_inv kind line : single_kind kind = true -> keep (send_line kind line).
Proof. intros Hk. apply (queue_batch_inv line (Single kind)). done. Qed.

Lemma send_query_inv kind line : single_kind kind = true -> keep (send_query kind line).
Proof. intros Hk s Hs. unfold send_query. wps. eapply wp_mono; [by apply send_line_inv|]. intros. by wps. Qed.

Lemma drop_stale_suffix ps q : exists q1, q = q1 ++ drop_stale ps q.
Proof.
  induction q as [|o q [q1 IH]]; cbn; [by exists []|]. destruct (stale ps o); [|by exists []]. exists (o :: q1). cbn. by rewrite <- IH.
Qed.

Lemma queue_inv_suffix q1 q2 pending : queue_inv (q1 ++ q2) pending -> queue_inv q2 pending.
Proof.
  intros (Q1 & [_ Q2]%Forall_app & Q3 & Q4). split_and!; [|done|done|done]. unfold zlen in *. rewrite length_app in Q1. lia.
Qed.

Lemma todos_ok_snoc ts t : todos_ok ts -> whole t -> todos_ok (ts ++ [t]).
Proof.
  intros [H1 H2] Ht. destruct ts as [|u ts]; cbn in *; [split; [constructor; [by apply whole_ok|done]|done]|].
  split; [done|]. apply Forall_app. split; [done|by constructor].
Qed.

Lemma start_send_inv : keep start_send.
Proof.
  intros s (H1 & H2 & H3 & H4 & HQ & H6). destruct (drop_stale_suffix (panes s) (outgoing s)) as [q1 Eq].
  assert (HQ' : queue_inv (drop_stale (panes s) (outgoing s)) (pending_responses s)).
  { rewrite Eq in HQ. by eapply queue_inv_suffix. }
  unfold start_send. wps. cbn. destruct (drop_stale _ _) as [|o q]; [wps; unfold inv; cbn; by split_and!|].
  destruct (MAX_PENDING_RESPONSES <? _) eqn:E; wps; unfold inv; cbn; (split_and!; try done).
  pose proof (queue_inv_suffix [o] q _ HQ') as (Q1 & Q2 & _). destruct HQ' as (_ & [(t & Ht & Eo) _]%Forall_cons & Q3 & ts & Hts & Ep).
  bool_hyps. split_and!; [done|done|unfold zlen in *; rewrite length_app; lia|].
  exists (ts ++ [t]). split; [by apply todos_ok_snoc|]. rewrite bind_app, Ep, Eo. cbn. by rewrite app_nil_r.
Qed.

Lemma answer_ok ts id lines failed : todos_ok ts -> todos_ok (answer ts id lines failed).2.
Proof.
  intros H. pose proof H as H0. unfold answer. destruct (Z.land _ 1 =? 0); [done|]. destruct ts as [|t ts]; [done|]. apply todos_ok_tail in H.
  destruct t; cbn; try done.
  - by destruct (negb failed && _).
  - destruct failed; [done|]. split; [by repeat constructor|]. apply H0.
  - destruct failed; [done|]. destruct continue; [|done]. split; [by repeat constructor|]. apply H0.
Qed.

Lemma answer_shrinks ts id lines failed :
  (length ((answer ts id lines failed).2 ≫= expected) <= length (ts ≫= expected))%nat.
Proof.
  unfold answer. destruct (Z.land _ 1 =? 0); [done|]. destruct ts as [|t ts]; [done|].
  destruct t; cbn [mbind list_bind expected]; rewrite length_app; cbn; try lia.
  - destruct (negb failed && _); cbn; lia.
  - destruct failed; cbn; [lia|]. rewrite length_app. cbn. destruct continue; cbn; lia.
  - destruct failed; cbn; [lia|]. destruct continue; cbn; lia.
Qed.

Lemma response_kind_inv id lines failed : keep (response_kind id lines failed).
Proof.
  intros s (H1 & H2 & H3 & H4 & (Q1 & Q2 & Q3 & ts & Hts & Ep) & H6).
  eapply wp_mono; [by apply (response_refines oc s ts)|]. intros k s' (_ & [Hok Ep'] & q & p & d & ->).
  unfold inv. cbn in *. subst q. split_and!; try done. split_and!; [done|done| |].
  - pose proof (answer_shrinks ts id lines failed). rewrite Ep in Q3. unfold zlen in *. lia.
  - exists (answer ts id lines failed).2. split; [by apply answer_ok|done].
Qed.

Lemma refresh_windows_inv : keep refresh_windows.
Proof. intros s Hs. unfold refresh_windows. wps; [by apply send_query_inv|done]. Qed.

Lemma refresh_lists_inv : keep refresh_lists.
Proof.
  intros s Hs. unfold refresh_lists. wps. eapply wp_mono; [by apply refresh_windows_inv|]. intros [] s' Hs'.
  wps; [by apply send_query_inv|done].
Qed.

Lemma queue_user_command_inv e line : keep (queue_user_command e line).
Proof.
  intros s Hs. unfold queue_user_command. destruct (Tmux.validate_command line); [|by wps]. destruct (trim line); [by wps|].
  by apply (queue_batch_inv _ (User _)).
Qed.

Lemma request_detach_inv mode : keep (request_detach mode).
Proof.
  intros s Hs. unfold request_detach. wps; [|done].
  set (s1 := set_input_guards ∅ _). assert (Hs1 : inv host s1).
  { destruct Hs as (H1 & H2 & H3 & H4 & (Q1 & Q2 & Q3 & Q4) & H6). unfold inv, s1. cbn. by split_and!. }
  eapply wp_mono; [by apply send_line_inv|]. intros b s' Hs'. by wps.
Qed.

(** ** Panes *)

Lemma spawn_pane_inv e n : 0 <= n -> keep (spawn_pane e (pane_key n)).
Proof.
  intros Hn s Hs. unfold spawn_pane. apply wp_bind, wp_gets, wp_when; [intros Hm|done]. wps.
  destruct (cancelled e (pane_key n)); [by wps|]. unfold emit, arm_cwd_query. wps. cbn.
  destruct Hs as (H1 & H2 & H3 & (P1 & P2 & P3 & P4) & H5 & (I1 & I2 & I3 & I4)).
  assert (Ek : panes s !! pane_key n = None).
  { apply negb_true_iff, bool_decide_eq_false in Hm. by apply eq_None_not_Some. }
  rewrite H1. set (sid := pane_session_id host (pane_key n)).
  assert (Hfree : forall k p, panes s !! k = Some p -> session_id p <> sid).
  { intros k p Hk E. pose proof (P1 _ _ Hk) as Hp. assert (k = pane_key n) as ->; [|congruence].
    pose proof (pi_sid _ _ _ Hp) as Hsid. destruct (pi_key _ _ _ Hp) as (m & Hm' & ->). f_equal. eapply pane_session_id_inj; [done..|].
    by rewrite <- Hsid. }
  unfold inv. cbn. split_and!; try done.
  - split_and!.
    + apply map_Forall_insert_2; [|done]. constructor; cbn; [by exists n|done| |unfold TmuxInput.parser_ok; cbn; lia].
      destruct (unknown_output s !! pane_key n) as [[q m]|] eqn:Eu; cbn; [|by split]. apply P2 in Eu as [[Eq Hq] _]. cbn in *.
      split; [done|]. subst m. done.
    + apply map_Forall_lookup. intros k q Hk. rewrite lookup_delete_Some in Hk. destruct Hk as [Hne Hk].
      destruct (P2 _ _ Hk) as [? ?]. split; [done|]. by rewrite lookup_insert_ne.
    + intros sid' k. rewrite registry_snoc. cbn. destruct (decide (k = pane_key n)) as [->|Hne].
      * rewrite lookup_insert_eq. destruct (decide (sid' = sid)) as [->|Hs'].
        -- rewrite lookup_insert_eq. split; [intros _; eauto|done].
        -- rewrite lookup_insert_ne, P3 by done. rewrite Ek. split; intros (p & E & E'); by simplify_eq.
      * rewrite (lookup_insert_ne (panes s)) by done. destruct (decide (sid' = sid)) as [->|Hs'].
        -- rewrite lookup_insert_eq. split; [intros [= E]; congruence|]. intros (p & E & E'). by destruct (Hfree _ _ E).
        -- by rewrite lookup_insert_ne, P3.
    + by apply addressed_snoc.
  - split_and!; try done. rewrite dom_insert_L. set_solver.
Qed.

Lemma seed_pane_inv e k : keep (seed_pane e k).
Proof.
  intros s Hs. unfold seed_pane. wps. destruct (panes s !! k) as [p|] eqn:Ep; [|by wps]. destruct (seeding p); [by wps|]. wps.
  eapply wp_mono; [apply modify_pane_inv; [|done]; by intros q|]. intros [] s1 Hs1. wps.
  change ([CapturePane k (seed_generation p); SeedCursor k (seed_generation p)] ++
    (if bool_decide (k ∈ paused_panes s) then [SeedContinue k (seed_generation p)] else []))
    with (expected (Seed k (seed_generation p) (bool_decide (k ∈ paused_panes s)))).
  eapply wp_mono; [by apply queue_batch_inv|]. intros b s2 Hs2. by wps.
Qed.

Lemma invalidate_seed_inv k : keep (invalidate_seed k).
Proof. intros s Hs. apply wp_modify. apply inv_alter; [done|]. intros p _ [K1 K2 K3 K4]. by constructor. Qed.

Lemma inv_remove s k p s' :
  inv host s -> panes s !! k = Some p -> panes s' = delete k (panes s) -> effects s' = effects s ++ [Removed (session_id p)] ->
  unknown_output s' = delete k (unknown_output s) -> input_buf s' = delete k (input_buf s) ->
  input_guards s' = delete k (input_guards s) -> input_flush s' = input_flush s -> outgoing s' = outgoing s ->
  pending_responses s' = pending_responses s -> windows s' = windows s -> parser s' = parser s ->
  control_session_id s' = control_session_id s -> inv host s'.
Proof.
  intros (H1 & H2 & H3 & (P1 & P2 & P3 & P4) & H5 & (I1 & I2 & I3 & I4)) Ep E1 E2 E3 E4 E5 E6 E7 E8 E9 E10 E11.
  unfold inv. rewrite E1, E2, E3, E4, E5, E6, E7, E8, E9, E10, E11. split_and!; try done.
  - split_and!.
    + by apply map_Forall_delete.
    + intros j q Hj. rewrite lookup_delete_Some in Hj. destruct Hj as [Hne Hj]. destruct (P2 _ _ Hj). split; [done|].
      by rewrite lookup_delete_ne.
    + intros sid j. rewrite registry_snoc. cbn. rewrite lookup_delete_Some. split.
      * intros [Hne Hr]. apply P3 in Hr as (q & Hq & <-). exists q. split; [|done]. rewrite lookup_delete_ne; [done|].
        intros ->. congruence.
      * intros (q & Hq & <-). rewrite lookup_delete_Some in Hq. destruct Hq as [Hne Hq]. split; [|apply P3; eauto].
        intros E. apply Hne. eapply pane_inv_inj; [by apply P1|by apply P1|done].
    + by apply addressed_snoc.
  - split_and!; [by rewrite !dom_delete_L, I1|rewrite !dom_delete_L; set_solver|by apply map_Forall_delete|].
    intros Hn. apply I4. intros E. apply Hn. rewrite E. by rewrite delete_empty.
Qed.

Lemma drop_pane_spec k s :
  inv host s ->
  wp oc (drop_pane k) (fun _ s' => inv host s' /\ panes s' = delete k (panes s) /\ windows s' = windows s) s.
Proof.
  intros Hs. unfold drop_pane. apply wp_bind, wp_gets. destruct (panes s !! k) as [p|] eqn:Ep.
  - unfold emit. wps; (split_and!; [|done|done]); by eapply (inv_remove s k p).
  - wps. split_and!; [done| |done]. by rewrite delete_id.
Qed.

Lemma drop_pane_inv k : keep (drop_pane k).
Proof. intros s Hs. eapply wp_mono; [by apply drop_pane_spec|]. by intros _ s' []. Qed.

(** Tearing down removes every pane. *)
Lemma teardown_panes_spec e s :
  env_ok e -> inv host s -> wp oc (teardown_panes e) (fun _ s' => inv host s' /\ panes s' = ∅) s.
Proof.
  intros He Hs. unfold teardown_panes. apply wp_bind, wp_gets.
  eapply wp_mono; [apply (wp_for_each oc drop_pane (fun l s' => inv host s' /\ panes s' = base.filter (fun kp => kp.1 ∉ l) (panes s)))|].
  - split; [done|]. symmetry. apply map_filter_id. intros. apply not_elem_of_nil.
  - intros l1 k l2 s1 _ [Hs1 E]. eapply wp_mono; [by apply drop_pane_spec|]. intros _ s2 (Hs2 & E2 & _). split; [done|].
    rewrite E2, E. apply map_eq. intros j. apply option_eq. intros p. rewrite lookup_delete_Some, !map_lookup_filter_Some. cbn. set_solver.
  - intros _ s' [H E]. split; [done|]. rewrite E. apply map_empty. intros k. apply map_lookup_filter_None. right. intros p Hk. cbn.
    intros Hn. apply Hn. unfold keys. rewrite (He STeardown). by apply elem_of_elements, elem_of_dom.
Qed.

Lemma emit_state_inv e : keep (emit_state e).
Proof.
  intros s Hs. unfold emit_state. wps; [|done]. by apply emit_free.
Qed.

Lemma emit_notice_inv n : keep (emit_notice n).
Proof. intros s Hs. unfold emit_notice. wps. by apply emit_free. Qed.

Lemma teardown_spec e s : env_ok e -> inv host s -> wp oc (teardown e) (fun _ s' => inv host s' /\ panes s' = ∅) s.
Proof.
  intros He Hs. unfold teardown. wps. eapply wp_mono; [by apply teardown_panes_spec|]. intros [] s1 [Hs1 E].
  unfold emit_exited. wps. eapply wp_mono; [by apply emit_inv|]. intros _ s2 [? E2]. split; [done|]. by rewrite E2.
Qed.

(** ** Sizes *)

Lemma grow_client_inv w h : keep (grow_client w h).
Proof.
  intros s Hs. unfold grow_client. wps. destruct (bool_decide _); [by wps|]. wps.
  eapply wp_mono; [by apply send_line_inv|]. intros [] s1 Hs1; by wps.
Qed.

Lemma add_oc_total a b : oc = false -> exists c, add_oc oc 32 a b = Ret c.
Proof. intros ->. unfold add_oc. destruct (_ <? _); eauto. Qed.

Lemma fold_children_total columns f l first acc :
  oc = false -> Forall (fun c => exists d, f c = Ret d) l -> exists d, fold_children oc columns f first acc l = Ret d.
Proof.
  intros Hoc H. revert first acc. induction H as [|c l [d Hd] _ IH]; intros first acc; cbn; [eauto|]. rewrite Hd. cbn.
  assert (Ha : exists a', add_child oc columns first acc d = Ret a'); [|destruct Ha as [a' ->]; cbn; apply IH].
  unfold add_child. destruct columns.
  - destruct (add_oc_total d.1 (if first then 0 else 1) Hoc) as [c1 ->]. cbn. destruct (add_oc_total acc.1 c1 Hoc) as [c2 ->]. cbn. eauto.
  - destruct (add_oc_total d.2 (if first then 0 else 1) Hoc) as [c1 ->]. cbn. destruct (add_oc_total acc.2 c1 Hoc) as [c2 ->]. cbn. eauto.
Qed.

Lemma needed_total ps c : oc = false -> exists d, needed_window_size oc ps c = Ret d.
Proof.
  intros Hoc. induction c as [w h x y pane columns children IH] using cell_ind.
  cbn [needed_window_size]. destruct children as [|c0 cs]; [eauto|]. by apply fold_children_total.
Qed.

Lemma sync_client_inv : keep (sync_client oc).
Proof.
  intros s Hs. unfold sync_client. wps. destruct (_ ≫= _) as [layout|]; [|by wps]. wps.
  destruct (needed_window_size oc (panes s) layout) as [d|] eqn:E.
  - destruct (bool_decide _); [by wps|]. wps. eapply wp_mono; [by apply send_line_inv|]. intros [] s1 Hs1; by wps.
  - destruct oc eqn:Eoc; [done|]. destruct (needed_total (panes s) layout) as [d Hd]; [done|]. congruence.
Qed.

Lemma pane_target_core layout num ps : core <$> (pane_target layout num ps).1 = core <$> ps.
Proof.
  unfold pane_target. destruct (find_pane num layout) as [[w h x y p c l]|]; [|done]. destruct (ps !! pane_key num) as [q|] eqn:E; [|done].
  assert (H : forall v, core <$> <[pane_key num := p_set_resize_attempts v q]> ps = core <$> ps).
  { intros v. rewrite fmap_insert. apply insert_id. rewrite lookup_fmap, E. done. }
  destruct (desired q) as [d|]; [|done]. destruct (bool_decide _); [apply H|]. destruct (RESIZE_PANE_MAX_ATTEMPTS <=? _); [done|apply H].
Qed.

Lemma window_targets_core w acc : core <$> (window_targets w acc).1 = core <$> acc.1.
Proof.
  unfold window_targets. destruct (if w_zoomed w then None else w_layout w) as [layout|]; [|done].
  generalize (pane_ids layout) as l. intros l. revert acc. induction l as [|n l IH]; intros acc; [done|].
  cbn [fold_left]. rewrite IH. cbn. apply pane_target_core.
Qed.

Lemma targets_core ws acc : core <$> (fold_left (fun acc w => window_targets w acc) ws acc).1 = core <$> acc.1.
Proof. revert acc. induction ws as [|w ws IH]; intros acc; [done|]. cbn [fold_left]. by rewrite IH, window_targets_core. Qed.

Lemma sync_pane_sizes_inv e : keep (sync_pane_sizes oc e).
Proof.
  intros s Hs. unfold sync_pane_sizes. wps. eapply wp_mono; [by apply sync_client_inv|]. intros b s1 Hs1. wps; [|done].
  apply wp_for_each_inv.
  - apply inv_core; [done|]. by rewrite targets_core.
  - intros [k d] s2 _ Hs2. wps. eapply wp_mono; [by apply send_line_inv|]. intros ? s3 Hs3. by wps.
Qed.

(** ** Reconciliation *)

Lemma wanted_key s k : inv host s -> k ∈ wanted_panes s -> exists n, 0 <= n /\ k = pane_key n.
Proof.
  intros (_ & _ & Hw & _) Hk. unfold wanted_panes in Hk.
  apply elem_of_list_to_set, list_elem_of_bind in Hk as ([id w] & Hk & Hin). apply elem_of_map_to_list in Hin. cbn in Hk.
  apply Hw in Hin. unfold layout_ok in Hin. destruct (w_layout w) as [layout|]; [|by apply not_elem_of_nil in Hk].
  apply list_elem_of_fmap in Hk as (n & -> & Hn). exists n. split; [|done]. cbn in Hin. rewrite Forall_forall in Hin. by apply Hin.
Qed.

Lemma unseed_cosmetic : cosmetic unseed.
Proof. intros p. unfold unseed. by destruct (seeding p). Qed.

Lemma unseed_if_cosmetic (b : VirtualPane -> bool) : cosmetic (fun p => if b p then unseed p else p).
Proof. intros p. destruct (b p); [apply unseed_cosmetic|done]. Qed.

Lemma reconcile_panes_inv e rm : env_ok e -> keep (reconcile_panes oc e rm).
Proof.
  intros He s Hs. pose proof (wanted_key s) as Hwk. unfold reconcile_panes. apply wp_bind, wp_gets. cbn zeta. apply wp_bind, wp_gets, wp_bind, wp_gets, wp_bind.
  set (wanted := wanted_panes s) in *.
  apply (wp_mono oc _ (fun _ => inv host)).
  { destruct (_ ≫= w_layout) as [[w h x y p c l]|]; [|by wps]. destruct (_ || _); [by wps|]. by apply grow_client_inv. }
  intros grew s1 Hs1. apply wp_bind, wp_gets, wp_bind. apply (wp_mono oc _ (fun _ => inv host)).
  { apply wp_when; [intros _|done]. apply wp_bind, wp_gets. apply wp_for_each_inv; [done|]. intros k s2 _ Hs2.
    apply wp_when; [intros _|done]. by apply drop_pane_inv. }
  intros [] s2 Hs2. apply wp_bind. apply (wp_mono oc _ (fun _ => inv host)).
  { apply wp_for_each_inv; [done|]. intros k s3 Hk Hs3. rewrite (He SSpawn) in Hk. apply elem_of_elements in Hk.
    destruct (Hwk k Hs Hk) as (n & Hn & ->). by apply spawn_pane_inv. }
  intros [] s3 Hs3. apply wp_bind. apply (wp_mono oc _ (fun _ => inv host)).
  { apply wp_when; [intros _|done]. apply wp_for_each_inv; [done|]. intros n s4 _ Hs4. apply modify_pane_inv; [apply unseed_cosmetic|done]. }
  intros [] s4 Hs4. apply wp_bind. apply (wp_mono oc _ (fun _ => inv host)).
  { apply wp_for_each_inv; [done|]. intros k s5 _ Hs5. apply wp_bind, wp_gets. destruct (pane_dims e s5 k) as [d|]; [|by wps].
    apply modify_pane_inv; [apply unseed_if_cosmetic|done]. }
  intros [] s5 Hs5. apply wp_bind, wp_gets, wp_bind. apply (wp_mono oc _ (fun _ => inv host)).
  { apply wp_for_each_inv; [done|]. intros k s6 _ Hs6. by apply seed_pane_inv. }
  intros [] s6 Hs6. apply wp_bind. apply (wp_mono oc _ (fun _ => inv host)); [by apply sync_pane_sizes_inv|].
  intros [] s7 Hs7. by apply emit_state_inv.
Qed.

Lemma shape_ids c : cell_shape c -> Forall (Z.le 0) (pane_ids c).
Proof.
  induction c as [w h x y pane columns children IH] using cell_ind. intros Hc. inversion Hc; subst; cbn.
  - constructor; [|done]. match goal with H : urange 32 ?p |- 0 <= ?p => unfold urange in H; lia end.
  - match goal with H : Forall cell_shape children |- _ => revert H end. clear -IH. intros Hs.
    induction children as [|c l IHl]; cbn; [done|]. apply Forall_cons in IH as [H1 H2]. apply Forall_cons in Hs as [H3 H4].
    apply Forall_app. split; [by apply H1|by apply IHl].
Qed.

Lemma parse_layout_ids s c r : parse_layout s = Some (c, r) -> Forall (Z.le 0) (pane_ids c).
Proof.
  unfold parse_layout. intros H. destruct (expect 44 (skip_hex s)) as [i|]; cbn [mbind option_bind] in H; [|done].
  apply (proj1 (parse_shape _)) in H. by apply shape_ids.
Qed.

Lemma parse_window_fields_ok fields id w a p : parse_window_fields fields = Some (id, w, a, p) -> layout_ok (w_layout w).
Proof.
  unfold parse_window_fields. do 7 (destruct fields as [|? fields]; [done|]). intros H. simplify_option_eq.
  match goal with H : parse_layout _ = Some ?cr |- _ => destruct cr end.
  cbn. by eapply parse_layout_ids.
Qed.

Lemma snapshot_ok lines : windows_inv (sn_windows (parse_window_snapshot lines)).
Proof.
  unfold parse_window_snapshot. assert (H : forall sn, windows_inv (sn_windows sn) -> windows_inv (sn_windows (fold_left snapshot_line lines sn))).
  { induction lines as [|l lines IH]; intros sn Hsn; cbn; [done|]. apply IH. unfold snapshot_line.
    destruct (parse_window_fields _) as [[[[id w] a] p]|] eqn:E; [|done]. apply parse_window_fields_ok in E.
    destruct a; cbn; by apply map_Forall_insert_2. }
  apply H. cbn. apply map_Forall_empty.
Qed.

Lemma inv_windows s ws : inv host s -> windows_inv ws -> inv host (set_windows ws s).
Proof. intros (H1 & H2 & H3 & H4 & H5 & H6) Hw. by split_and!. Qed.

Lemma apply_window_list_inv lines : keep (apply_window_list lines).
Proof. intros s Hs. unfold apply_window_list. wps. apply (inv_windows s); [done|]. apply snapshot_ok. Qed.

(** ** Responses *)

Lemma take_pending_inv k p :
  pane_inv host k p -> exists l p', take_pending_output oc p = Ret (l, p') /\ pane_inv host k p' /\ session_id p' = session_id p.
Proof.
  intros [K1 K2 [E K3] K4]. unfold take_pending_output. rewrite E, take_pending_spec. cbn. do 2 eexists. split; [done|]. split; [|done].
  by constructor.
Qed.

Lemma finish_seed_inv k p failed lines :
  pane_inv host k p ->
  match finish_seed oc failed lines p with
  | Ret (l, p') => pane_inv host k p' /\ session_id p' = session_id p
  | Panic => oc = true
  end.
Proof.
  intros Hp. unfold finish_seed. destruct (default (0, 0, 0) _) as [[x y] history].
  assert (Hs : match (match pending_seed p with
      | Some seed_lines => text <-! compose_seed_payload oc seed_lines x y history
          (snd <$> (match desired p with Some d => Some d | None => dims p end)); Ret [text]
      | None => Ret [] end)%rust with Ret l => True | Panic => oc = true end).
  { destruct (pending_seed p) as [sl|]; [|done]. unfold compose_seed_payload. destruct oc eqn:Eoc; [by split_match|].
    unfold add_oc. destruct (y + 1 <? 2 ^ 32), (x + 1 <? 2 ^ 32); done. }
  destruct (match pending_seed p with Some _ => _ | None => _ end) as [l|] eqn:El; [|done]. cbn [obind].
  destruct (take_pending_inv k (p_set_seeded (match pending_seed p with Some _ => true | None => false end) (p_set_pending_seed None p)))
    as (l' & p' & -> & Hp' & Es); [destruct Hp; by constructor|]. cbn. by split.
Qed.

Lemma handle_capture_inv e k g lines failed : keep (handle_capture e k g lines failed).
Proof.
  intros s Hs. unfold handle_capture. wps. apply modify_pane_inv; [|done]. intros p. by destruct (_ && _).
Qed.

Lemma handle_cursor_inv e k g lines failed : keep (handle_cursor oc e k g lines failed).
Proof.
  intros s Hs. unfold handle_cursor. wps. destruct (panes s !! k) as [p|] eqn:Ep; [|by wps]. destruct (negb _); [by wps|].
  destruct (reseed p); wps.
  { eapply wp_mono; [apply modify_pane_inv; [|done]; by intros q|]. intros [] s1 Hs1. by apply seed_pane_inv. }
  assert (Hp : pane_inv host k p) by (by apply Hs).
  pose proof (finish_seed_inv k (p_set_reseed false (p_set_seeding false p)) failed lines) as Hf.
  destruct (finish_seed oc failed lines _) as [[l p']|]; [|apply Hf; destruct Hp; by constructor].
  destruct Hf as [Hp' Es]; [destruct Hp; by constructor|]. wps. cbn.
  replace (session_id p) with (session_id p').
  eapply wp_mono; [apply (push_all_inv k p'); [by eapply inv_insert|cbn; by rewrite lookup_insert_eq]|]. by intros _ s' [].
Qed.

Lemma handle_cwd_inv k lines failed : keep (handle_cwd k lines failed).
Proof.
  intros s Hs. unfold handle_cwd. wps. destruct failed, (trim <$> head lines) as [[|b path]|], (panes s !! k) as [p|] eqn:Ep; try by wps.
  wps; [|done]. unfold modify_pane. wps. set (s1 := set_panes _ s).
  assert (Hs1 : inv host s1) by (apply inv_alter; [done|]; intros q _ Hq; destruct Hq; by constructor).
  eapply wp_mono; [apply (emit_inv _ s1); [done|done|]|by intros _ s' []].
  intros sid [= <-]. exists k, (p_set_cwd (Some (b :: path)) p). unfold s1. cbn. by rewrite lookup_alter_eq, Ep.
Qed.

Lemma note_pane_line_inv line : keep (note_pane_line line).
Proof. intros s Hs. unfold note_pane_line. destruct (splitn 3 32 line) as [|a [|b [|c [|]]]]; by wps. Qed.

Lemma handle_block_inv e kind raw failed : env_ok e -> keep (handle_block oc e kind raw failed).
Proof.
  intros He s Hs. unfold handle_block. destruct kind.
  - wps; [|done]. eapply wp_mono; [by apply emit_notice_inv|]. intros [] s1 Hs1. by apply request_detach_inv.
  - wps; [|done]. eapply wp_mono; [by apply apply_window_list_inv|]. intros [] s1 Hs1. by apply reconcile_panes_inv.
  - wps. eapply wp_mono; [apply wp_for_each_inv; [done|]; intros l s1 _; apply note_pane_line_inv|].
    intros [] s1 Hs1. by apply emit_state_inv.
  - by apply handle_capture_inv.
  - by apply handle_cursor_inv.
  - by wps.
  - by apply handle_cwd_inv.
  - wps; [|done]. by apply emit_notice_inv.
  - wps; [|unfold arm_refresh; by wps]. apply (wp_mono oc _ (fun _ => inv host)).
    + destruct (panes s !! pane) as [p|] eqn:Ep; [|by wps].
      eapply wp_mono; [apply emit_inv; [done|done|]|by intros _ s' []]. intros sid [= <-]. eauto.
    + intros [] s1 Hs1. eapply wp_mono; [by apply emit_notice_inv|]. intros [] s2 Hs2. unfold arm_refresh. by wps.
  - by wps.
Qed.

(** ** Messages *)

Definition message_ok (m : ControlMessage) : Prop :=
  match m with LayoutChange _ l _ _ => Forall (Z.le 0) (pane_ids l) | _ => True end.

Lemma parse_layout_change_ok line m : parse_layout_change line = Some m -> message_ok m.
Proof.
  unfold parse_layout_change. destruct (rest_after_keyword _ _) as [args|]; cbn [mbind option_bind]; [|done].
  destruct (split_whitespace args) as [|window [|token parts]]; [done..|]. destruct (parse_layout token) as [[c r]|] eqn:E; [|done].
  cbn [mbind option_bind]. intros [= <-]. cbn. by eapply parse_layout_ids.
Qed.

Lemma fmap_message_ok {A} (f : A -> ControlMessage) (o : option A) m : (forall a, message_ok (f a)) -> f <$> o = Some m -> message_ok m.
Proof. intros Hf. destruct o; [|done]. intros [= <-]. apply Hf. Qed.

Lemma parse_keyword_ok k line m : parse_keyword k line = Some m -> message_ok m.
Proof.
  unfold parse_keyword. cbn zeta.
  repeat match goal with |- (if ?b then _ else _) = _ -> _ => destruct b; [try (by apply fmap_message_ok)|] end;
    try (by intros [= <-]); try apply parse_layout_change_ok.
  - destruct (rest_after_keyword _ _) as [a|]; [|done]. cbn [mbind option_bind]. destruct (split_once 32 a) as [[]|]; [|done]. by intros [= <-].
  - destruct (rest_after_keyword _ _) as [a|]; [|done]. cbn [mbind option_bind]. destruct (split_whitespace a) as [|? [|]]; [done..|]. by intros [= <-].
  - destruct (rest_after_keyword _ _) as [a|]; [|done]. cbn [mbind option_bind]. by apply fmap_message_ok.
  - destruct (rest_after_keyword _ _) as [a|]; [|done]. cbn [mbind option_bind]. destruct (split_whitespace a) as [|? [|]]; [done..|]. by intros [= <-].
  - destruct (rest_after_keyword _ _) as [a|]; [|done]. cbn [mbind option_bind]. by apply fmap_message_ok.
Qed.

Lemma parse_line_ok line m : parse_line line = Some m -> message_ok m.
Proof.
  unfold parse_line. destruct (strip_prefix (bs "%output ") line) as [a|].
  { unfold parse_output. destruct (split_once 32 a) as [[? ?]|]; [|done]. cbn [mbind option_bind]. destruct (utf8_valid _); [|done]. by intros [= <-]. }
  destruct (strip_prefix (bs "%extended-output ") line) as [a|].
  { unfold parse_extended_output. destruct (split_sub _ a) as [[? ?]|]; [|done]. cbn [mbind option_bind]. destruct (utf8_valid _); [|done].
    destruct (split_whitespace _) as [|? [|]]; [done..|]. destruct (parse_uint _ _ _); [|done]. by intros [= <-]. }
  cbn zeta. destruct (strip_prefix [37] _) as [r|]; [|done]. cbn [mbind option_bind]. apply parse_keyword_ok.
Qed.

Lemma arm_refresh_inv : keep arm_refresh.
Proof. intros s Hs. unfold arm_refresh. by wps. Qed.

Lemma layout_change_inv e window layout visible fl :
  env_ok e -> Forall (Z.le 0) (pane_ids layout) -> keep (layout_change oc e window layout visible fl).
Proof.
  intros He Hl s Hs. unfold layout_change. wps. eapply wp_mono; [apply reconcile_panes_inv; [done|]|intros [] s1 Hs1; by apply arm_refresh_inv].
  apply (inv_windows s); [done|]. apply map_Forall_insert_2; [done|]. apply Hs.
Qed.

Lemma session_changed_inv : keep session_changed.
Proof.
  intros s (H1 & H2 & H3 & (P1 & P2 & P3 & P4) & H5 & H6). unfold session_changed, arm_refresh. wps. unfold inv. cbn.
  by split_and!.
Qed.

Lemma pause_pane_inv k : keep (pause_pane k).
Proof.
  intros s Hs. unfold pause_pane. wps; [|done]. eapply wp_mono; [by apply invalidate_seed_inv|]. intros [] s1 Hs1. by wps.
Qed.

Lemma window_changed_inv e window : env_ok e -> keep (window_changed oc e window).
Proof.
  intros He s Hs. unfold window_changed, arm_refresh. wps. destruct (_ ≫= _); [by apply reconcile_panes_inv|by wps].
Qed.

Lemma handle_notification_inv e m : env_ok e -> message_ok m -> keep (handle_notification oc e m).
Proof.
  intros He Hm s Hs. assert (Hw : windows_inv (windows s)) by apply Hs. unfold handle_notification. destruct m; try by wps.
  - by apply route_output_inv.
  - by apply route_output_inv.
  - by apply layout_change_inv.
  - wps. apply arm_refresh_inv, inv_windows; [done|]. apply map_Forall_insert_2; [|done].
    destruct (windows s !! window) as [w|] eqn:E; [by apply Hw in E|done].
  - wps. cbn. destruct (bool_decide _); apply arm_refresh_inv, (inv_windows s); try done; by apply map_Forall_delete.
  - wps. destruct (windows s !! window) as [w|] eqn:E; [|by wps]. wps. apply emit_state_inv, inv_windows; [done|].
    apply map_Forall_insert_2; [by apply Hw in E|done].
  - wps; [|done]. by apply emit_state_inv.
  - wps. eapply wp_mono; [by apply drop_pane_inv|]. intros [] s1 Hs1. by apply emit_state_inv.
  - by apply session_changed_inv.
  - by apply window_changed_inv.
  - by apply pause_pane_inv.
  - wps; [|done]. by apply seed_pane_inv.
Qed.

Lemma handle_message_inv e line : env_ok e -> keep (handle_message oc e line).
Proof.
  intros He s Hs. unfold handle_message. wps. destruct (block_lines s) as [lines|].
  - unfold block_line. wps. assert (Hc : forall i failed, wp oc (if bool_decide (block_id s = Some i)
      then modify (set_block_lines None);;; modify (set_block_id None);;; kind <-- response_kind i lines failed; handle_block oc e kind lines failed
      else modify (set_fatal true)) (fun _ => inv host) s).
    { intros i failed. destruct (bool_decide _); wps; [|done]. eapply wp_mono; [by apply response_kind_inv|].
      intros k s1 Hs1. by apply handle_block_inv. }
    destruct (parse_line line) as [[]|]; try (by wps); apply Hc.
  - destruct (parse_line line) as [m|] eqn:E; [|by wps]. apply handle_notification_inv; [done|by eapply parse_line_ok|done].
Qed.

(** ** Input *)

Lemma add_guards_responses guards q : o_responses <$> add_guards guards q = o_responses <$> q.
Proof.
  unfold add_guards. destruct (last q) as [o|] eqn:E; [|done]. apply last_Some in E as [q' ->].
  rewrite length_app. cbn. replace (length q' + 1 - 1)%nat with (length q') by lia. rewrite take_app_length, !fmap_app. done.
Qed.

Lemma batch_ok_responses q q' : o_responses <$> q' = o_responses <$> q -> Forall batch_ok q -> Forall batch_ok q'.
Proof.
  revert q'. induction q as [|o q IH]; intros [|o' q'] E H; try done. cbn in E. simplify_eq. apply Forall_cons in H as [(t & Ht & Eo) H].
  constructor; [exists t; split; [done|congruence]|by apply IH].
Qed.

Lemma add_guards_inv s guards : inv host s -> inv host (set_outgoing (add_guards guards (outgoing s)) s).
Proof.
  intros (H1 & H2 & H3 & H4 & (Q1 & Q2 & Q3 & Q4) & H6). unfold inv. cbn. split_and!; try done.
  pose proof (add_guards_responses guards (outgoing s)) as E. split_and!; [|by eapply batch_ok_responses|done|done].
  apply (f_equal length) in E. rewrite !length_fmap in E. unfold zlen in *. lia.
Qed.

Lemma arm_cwd_query_inv : keep arm_cwd_query.
Proof. intros s Hs. unfold arm_cwd_query. by wps. Qed.

(** Taking the first bytes of a pane's input. *)
Lemma inv_take_input s k rest :
  inv host s -> is_Some (input_buf s !! k) -> rest <> [] -> inv host (set_input_buf (<[k := rest]> (input_buf s)) s).
Proof.
  intros (H1 & H2 & H3 & H4 & H5 & (I1 & I2 & I3 & I4)) Hk Hr. apply elem_of_dom in Hk. unfold inv. cbn. split_and!; try done.
  split_and!; [rewrite dom_insert_L; set_solver|rewrite dom_insert_L; set_solver|by apply map_Forall_insert_2|].
  intros _. apply I4. intros E. rewrite E, dom_empty_L in Hk. set_solver.
Qed.

Lemma inv_empty_input s k :
  inv host s -> inv host (set_input_guards (delete k (input_guards s)) (set_input_buf (delete k (input_buf s)) s)).
Proof.
  intros (H1 & H2 & H3 & H4 & H5 & (I1 & I2 & I3 & I4)). unfold inv. cbn. split_and!; try done.
  split_and!; [by rewrite !dom_delete_L, I1|rewrite dom_delete_L; set_solver|by apply map_Forall_delete|].
  intros Hn. apply I4. intros E. apply Hn. rewrite E. by rewrite delete_empty.
Qed.

Lemma flush_pane_inv k s : inv host s -> is_Some (input_buf s !! k) -> wp oc (flush_pane k) (fun _ => inv host) s.
Proof.
  intros Hs Hk. unfold flush_pane. apply wp_bind, wp_gets. cbn zeta. apply wp_bind, wp_gets, wp_bind.
  apply (wp_mono oc _ (fun _ => inv host)).
  { destruct (drop _ _) as [|b r]; wps; [exact (inv_empty_input s k Hs)|by apply inv_take_input]. }
  intros guards s1 Hs1. destruct (take _ _) as [|b data]; [by wps|]. apply wp_bind. apply (wp_mono oc _ (fun _ => inv host)).
  { apply wp_when; [intros _|done]. wps. by apply arm_cwd_query_inv. }
  intros [] s2 Hs2. wps. destruct (panes s2 !! k) as [p|] eqn:Ep; [|by wps]. wps.
  assert (Hp : pane_inv host k p) by (by apply Hs2).
  destruct (split_input_lossless (input_parser p) (b :: data) (pi_parser _ _ _ Hp)) as (ip & segs & _ & -> & Hip & _).
  unfold modify_pane. wps. apply (wp_mono oc _ (fun _ => inv host)).
  - apply wp_for_each_inv.
    + apply inv_alter; [done|]. intros q _ []. by constructor.
    + intros line s3 _ Hs3. wps. eapply wp_mono; [by apply send_line_inv|]. intros ? s4 Hs4. by wps.
  - intros [] s3 Hs3. wps. by apply add_guards_inv.
Qed.

Lemma flush_input_inv e : env_ok e -> keep (flush_input e).
Proof.
  intros He s Hs. unfold flush_input. apply wp_bind, wp_gets, wp_bind. unfold keys.
  apply (wp_mono oc _ (fun _ => inv host)).
  - assert (Hp := He SFlush (elements (dom (input_buf s)))). destruct (ord e SFlush _) as [|k l]; [by wps|].
    cbn [take for_each]. wps. eapply wp_mono; [apply flush_pane_inv; [done|]|intros [] s1 Hs1; by wps].
    apply elem_of_dom, elem_of_elements. rewrite <- Hp. left.
  - intros [] s1 (H1 & H2 & H3 & H4 & H5 & (I1 & I2 & I3 & I4)). wps. unfold inv. cbn. split_and!; try done.
    split_and!; try done. intros Hn. by rewrite bool_decide_eq_false_2.
Qed.

Lemma flush_cwd_inv e : keep (flush_cwd_queries e).
Proof.
  intros s Hs. unfold flush_cwd_queries. wps. apply wp_for_each_inv; [done|]. intros k s1 _ Hs1. by apply send_query_inv.
Qed.

Lemma continue_paused_inv e : keep (continue_paused e).
Proof.
  intros s Hs. unfold continue_paused. wps. eapply wp_mono; [apply wp_for_each_inv; [done|]; intros k s1 _; apply seed_pane_inv|].
  intros [] s1 Hs1. by wps.
Qed.

Lemma buffer_pane_input_inv k data g : keep (buffer_pane_input k data g).
Proof.
  intros s Hs. unfold buffer_pane_input. apply wp_bind, wp_gets. destruct data as [|b data]; [by wps|].
  apply wp_when; [intros Hk%bool_decide_eq_true|done]. wps. cbn.
  destruct Hs as (H1 & H2 & H3 & H4 & H5 & (I1 & I2 & I3 & I4)). apply elem_of_dom in Hk. unfold inv. cbn. split_and!; try done.
  split_and!; [by rewrite !dom_insert_L, I1|rewrite dom_insert_L; set_solver| |done].
  apply map_Forall_insert_2; [|done]. by destruct (default [] (input_buf s !! k)).
Qed.

Lemma handle_pane_resize_inv e k cols rows : keep (handle_pane_resize e k cols rows).
Proof.
  intros s Hs. unfold handle_pane_resize. apply wp_bind, wp_gets, wp_bind, wp_gets. destruct (panes s !! k) as [p|]; [|by wps].
  destruct (bool_decide _).
  - apply wp_bind. eapply wp_mono; [apply modify_pane_inv; [|done]; intros q; by destruct (bool_decide _)|]. intros [] s1 Hs1.
    destruct (bool_decide _); [by wps|]. apply wp_bind. eapply wp_mono; [apply modify_pane_inv; [apply unseed_cosmetic|done]|].
    intros [] s2 Hs2. apply wp_when; [intros _; by apply seed_pane_inv|done].
  - apply wp_when; [intros _|done]. apply wp_bind. eapply wp_mono; [apply modify_pane_inv; [|done]; by intros q|]. intros [] s1 Hs1. by wps.
Qed.

(** ** The loop *)

Lemma inv_parser s p : inv host s -> TmuxControl.parser_ok p -> inv host (set_parser p s).
Proof. intros (H1 & H2 & H3 & H4 & H5 & H6) Hp. by split_and!. Qed.

Lemma drain_messages_inv fuel es : (forall n, env_ok (es n)) -> keep (drain_messages oc fuel es).
Proof.
  revert es. induction fuel as [|fuel IH]; intros es He s Hs; cbn [drain_messages]; [by wps|]. wps.
  assert (Hp : TmuxControl.parser_ok (parser s)) by apply Hs. pose proof (next_line_spec (parser s) Hp) as Hn.
  destruct (position 10 (unread (parser s))) as [n|].
  - destruct Hn as (p & -> & Hp' & _). wps. cbn [fst snd]. apply wp_bind. eapply wp_mono; [apply handle_message_inv; [done|by apply inv_parser]|].
    intros [] s1 Hs1. wps. destruct (_ || _); [by wps|]. by apply IH.
  - rewrite Hn. wps. by apply inv_parser.
Qed.

Lemma feed_inv es data : (forall n, env_ok (es n)) -> keep (feed oc es data).
Proof.
  intros He s Hs. unfold feed. wps. apply drain_messages_inv; [done|]. apply inv_parser; [done|]. apply push_spec, Hs.
Qed.

Lemma resize_settled_inv e : keep (resize_settled oc e).
Proof.
  intros s Hs. unfold resize_settled. apply wp_bind, wp_modify, wp_bind, wp_modify, wp_bind.
  eapply wp_mono; [apply sync_pane_sizes_inv, (inv_core (set_resize_deadline None s)); [done|]|].
  - apply map_eq. intros k. cbn. rewrite !lookup_fmap. destruct (panes s !! k) as [p|]; [|done]. cbn.
    destruct (pending_dims p) as [d|]; [|done]. by destruct (bool_decide _).
  - intros [] s1 Hs1. apply wp_bind, wp_gets. apply wp_for_each_inv; [done|]. intros k s2 _ Hs2. apply wp_bind, wp_gets, wp_bind.
    eapply wp_mono; [apply modify_pane_inv; [apply unseed_cosmetic|done]|]. intros [] s3 Hs3.
    apply wp_when; [intros _; by apply seed_pane_inv|done].
Qed.

Lemma close_pane_inv k : keep (close_pane k).
Proof. intros s Hs. unfold close_pane. wps. eapply wp_mono; [by apply send_line_inv|]. intros b s1 Hs1. by apply arm_refresh_inv. Qed.

Lemma handle_command_inv e c permit : keep (handle_command oc e c permit).
Proof.
  intros s Hs. unfold handle_command. destruct c; try by wps.
  - wps. eapply wp_mono; [by apply queue_user_command_inv|]. intros b s1 Hs1. wps; [by apply add_guards_inv|done].
  - wps. eapply wp_mono; [by apply request_detach_inv|]. intros [] s1 Hs1. by wps.
  - wps. eapply wp_mono; [by apply buffer_pane_input_inv|]. intros [] s1 Hs1. by wps.
  - wps. eapply wp_mono; [by apply handle_pane_resize_inv|]. intros [] s1 Hs1. by wps.
  - wps. eapply wp_mono; [by apply close_pane_inv|]. intros [] s1 Hs1. by wps.
Qed.

Lemma handle_host_inv c : keep (handle_host c).
Proof.
  intros s Hs. unfold handle_host. destruct c as [[]|]; try (by wps); try by apply request_detach_inv.
  - wps. destruct (active_pane s); [by apply buffer_pane_input_inv|by wps].
  - wps. eapply wp_mono; [by apply send_line_inv|]. intros b s1 Hs1. by wps.
Qed.

Lemma handle_arm_inv es a send s :
  (forall n, env_ok (es n)) -> enabled send s a = true -> inv host s -> wp oc (handle_arm oc es a) (fun _ => inv host) s.
Proof.
  intros He Ha Hs. unfold handle_arm. cbn zeta. destruct a; try by wps.
  - destruct c; try done; wps.
    + eapply wp_mono; [by apply request_detach_inv|]. intros [] s1 Hs1. by wps.
    + eapply wp_mono; [by apply close_pane_inv|]. intros [] s1 Hs1. by wps.
    + done.
  - wps. eapply wp_mono; [by apply refresh_windows_inv|]. intros [] s1 Hs1. by wps.
  - wps. eapply wp_mono; [by apply flush_input_inv|]. intros [] s1 Hs1. by wps.
  - wps. eapply wp_mono; [by apply refresh_lists_inv|]. intros [] s1 Hs1. by wps.
  - wps. eapply wp_mono; [by apply continue_paused_inv|]. intros [] s1 Hs1. by wps.
  - wps. eapply wp_mono; [by apply resize_settled_inv|]. intros [] s1 Hs1. by wps.
  - wps. eapply wp_mono; [by apply flush_cwd_inv|]. intros [] s1 Hs1. by wps.
  - destruct c as [pc|]; [|by wps]. by apply handle_command_inv.
  - wps. eapply wp_mono; [by apply handle_host_inv|]. intros [] s1 Hs1. by wps.
  - wps. eapply wp_mono; [by apply feed_inv|]. intros [] s1 Hs1. by wps.
Qed.

Lemma new_session_inv : inv host (new_session host).
Proof.
  split_and!; try done.
  - unfold TmuxControl.parser_ok. cbn. lia.
  - split_and!; try done; [|by intros [] ? ? ? ?]. intros sid k. cbn. split; [done|]. by intros (p & ? & _).
  - split_and!; try done. by exists [].
Qed.

Lemma bootstrap_inv es initial : (forall n, env_ok (es n)) -> keep (bootstrap oc es initial).
Proof.
  intros He s Hs. unfold bootstrap. wps. eapply wp_mono; [by apply send_line_inv|]. intros b s1 Hs1. wps.
  eapply wp_mono; [by apply refresh_lists_inv|]. intros [] s2 Hs2. by apply feed_inv.
Qed.

Lemma loop_head_inv send : keep (loop_head send).
Proof.
  intros s Hs. unfold loop_head. wps. destruct (fatal s); [by wps|]. wps. apply (wp_mono oc _ (fun _ => inv host)).
  { destruct send; [by wps|by apply start_send_inv]. }
  intros send' s1 Hs1. wps. destruct (exit_seen s1); [|by wps]. wps. unfold take_pending.
  assert (Hp : TmuxControl.parser_ok (parser s1)) by apply Hs1. unfold TmuxControl.parser_ok in Hp.
  rewrite (proj2 (Nat.ltb_ge _ _)) by done. wps. apply inv_parser; [done|]. unfold TmuxControl.parser_ok. cbn. lia.
Qed.

(** The session at each point of the loop. *)
Definition loop_inv (l : Loop) : Prop :=
  match l with
  | AtHead _ s | AtSelect _ s => inv host s
  | Left_ _ s => inv host s /\ panes s = ∅
  end.

Lemma reachable_inv l : loop_reachable oc host l -> loop_inv l.
Proof.
  induction 1 as [es initial s He H|l l' _ IH Hstep].
  - exact (wp_Ret oc _ (fun _ => inv host) _ _ _ (bootstrap_inv es initial He _ new_session_inv) H).
  - destruct Hstep as [send s send' s' H|send s exit s1 e s2 H He Ht|send s es a s' He Ha H|send s es a exit s1 e s2 Hes He Ha H Ht]; cbn in *.
    + exact (wp_Ret oc _ (fun _ => inv host) _ _ _ (loop_head_inv send s IH) H).
    + apply (wp_Ret oc _ (fun _ s' => inv host s' /\ panes s' = ∅) _ _ _) with (2 := Ht). apply teardown_spec; [done|].
      exact (wp_Ret oc _ (fun _ => inv host) _ _ _ (loop_head_inv send s IH) H).
    + exact (wp_Ret oc _ (fun _ => inv host) _ _ _ (handle_arm_inv es a send s He Ha IH) H).
    + apply (wp_Ret oc _ (fun _ s' => inv host s' /\ panes s' = ∅) _ _ _) with (2 := Ht). apply teardown_spec; [done|].
      exact (wp_Ret oc _ (fun _ => inv host) _ _ _ (handle_arm_inv es a send s Hes Ha IH) H).
Qed.

End Inv.

(** ** Theorems *)

Definition session_of (l : Loop) : ControlSession := match l with AtHead _ s | AtSelect _ s | Left_ _ s => s end.

(** Every buffer of a control session is bounded, in every state of its loop: at most 1024
    commands are queued and at most 128 responses awaited; the output kept for a pane whose
    screen is being captured, and for one that is not mapped yet, is counted exactly and at
    most 512 KiB; and input buffered for a pane is never empty, has its guards, belongs to a
    mapped pane and has the timer that will flush it armed. *)
Theorem tmux_buffers_bounded oc host l :
  loop_reachable oc host l ->
  let s := session_of l in
  zlen (outgoing s) <= 1024 /\ zlen (pending_responses s) <= 128
  /\ (forall k p, panes s !! k = Some p -> pending_bytes p = pending_size (pending_output p) /\ pending_bytes p <= 524288)
  /\ (forall k q n, unknown_output s !! k = Some (q, n) -> n = pending_size q /\ n <= 524288 /\ panes s !! k = None)
  /\ (forall k data, input_buf s !! k = Some data ->
        data <> [] /\ is_Some (panes s !! k) /\ is_Some (input_guards s !! k) /\ is_Some (input_flush s)).
Proof.
  intros H%reachable_inv s. assert (Hs : inv host s) by (destruct l; cbn in H; [done..|by destruct H]). clear H.
  destruct Hs as (_ & _ & _ & (P1 & P2 & _) & (Q1 & _ & Q3 & _) & (I1 & I2 & I3 & I4)). split_and!; [done|done| | |].
  - intros k p Hk. apply P1 in Hk as [_ _ [? ?] _]. done.
  - intros k q n Hk. apply P2 in Hk as [[? ?] ?]. done.
  - intros k data Hk. assert (Hd : k ∈ dom (input_buf s)) by (by eapply elem_of_dom_2). split_and!; [by apply I3 in Hk|..].
    + apply elem_of_dom. set_solver.
    + apply elem_of_dom. set_solver.
    + destruct (input_flush s); [eauto|]. destruct I4; [|done]. intros E. by rewrite E in Hk.
Qed.

(** C18: The sessions registered for a control session are its panes: in every state of its loop
    a session is registered exactly when it is the session of a mapped pane, output, working
    directories and retries of a close went only to sessions registered at that moment, and
    when the loop is left no session of the host is registered any more. *)
Theorem tmux_registry_exact oc host l :
  loop_reachable oc host l ->
  let s := session_of l in
  (forall sid k, registry (effects s) !! sid = Some k <-> is_Some (panes s !! k) /\ sid = pane_session_id host k)
  /\ addressed (effects s)
  /\ match l with Left_ _ _ => registry (effects s) = ∅ | _ => True end.
Proof.
  intros H%reachable_inv s. assert (Hs : inv host s) by (destruct l; cbn in H; [done..|by destruct H]).
  destruct Hs as (_ & _ & _ & (P1 & _ & P3 & P4) & _). split_and!; [|done|].
  - intros sid k. rewrite P3. split.
    + intros (p & Hk & <-). split; [eauto|]. by apply P1 in Hk as [].
    + intros [[p Hk] ->]. exists p. split; [done|]. by apply P1 in Hk as [].
  - destruct l as [send s0|send s0|exit s0]; [done..|]. destruct H as [_ E]. apply map_empty. intros sid.
    apply eq_None_not_Some. intros [k (p & Hk & _)%P3]. unfold s in Hk. cbn in Hk. by rewrite E in Hk.
Qed.

(** C29: A control session never panics in a build without overflow checks: whatever tmux, the
    user and the host send, in every reachable state the head of the loop, the body of every
    arm that can run and the teardown return. *)
Theorem tmux_session_total host l :
  loop_reachable false host l ->
  match l with
  | AtHead send s => exists r s', loop_head send s = Ret (r, s')
  | AtSelect send s =>
    forall es a, (forall n, env_ok (es n)) -> enabled send s a = true -> exists r s', handle_arm false es a s = Ret (r, s')
  | Left_ _ _ => True
  end
  /\ forall e, env_ok e -> exists s', teardown e (session_of l) = Ret (tt, s').
Proof.
  assert (Hret : forall A (m : M A) Q s, wp false m Q s -> exists a s', m s = Ret (a, s')).
  { intros A m Q s. unfold wp. destruct (m s) as [[a s']|]; [eauto|done]. }
  intros H%reachable_inv. assert (Hs : inv host (session_of l)) by (destruct l; cbn in H; [done..|by destruct H]). split.
  - destruct l as [send s|send s|]; [| |done].
    + eapply Hret. by apply (loop_head_inv false host).
    + intros es a He Ha. eapply Hret. by eapply (handle_arm_inv false host).
  - intros e He. destruct (Hret _ (teardown e) (fun _ s' => inv host s' /\ panes s' = ∅) (session_of l)) as ([] & s' & E); [|eauto].
    by apply (teardown_spec false host).
Qed.
