(* ===== verification/TmuxSessionProps.v ===== *)
(** * What a tmux control session does

    Theorems about the session of [src/crates/nyaterm-transport/src/tmux/session.rs] on top of
    its invariant: which command a response is taken for, the output a pane shows around the
    capture of its screen, and the panes that are mapped after a list of windows. *)

From stdpp Require Import base option list numbers strings gmap sets.
From Stdlib Require Import ZArith Lia.
From S2P Require Import Prelude RustStr RustText RustOrd Mailbox SshMailbox TmuxMailbox EventQueue TmuxControl TmuxLayout TmuxInput.
From S2P Require Import TmuxState TmuxSession TmuxCorrelation TmuxSessionInv.

Local Open Scope Z_scope.
Local Open Scope tmux_scope.

(** ** Responses *)

Lemma wp_total {A} (m : M A) Q s : wp false m Q s -> exists a s', m s = Ret (a, s') /\ Q a s'.
Proof. unfold wp. destruct (m s) as [[a s']|]; [eauto|done]. Qed.

Lemma start_send_sent s data guards s' :
  start_send s = Ret (Some (data, guards), s') ->
  exists o, o ∈ outgoing s /\ o_data o = data /\ stale (panes s) o = false
    /\ pending_responses s' = pending_responses s ++ o_responses o.
Proof.
  unfold start_send, bind, modify, gets, ret. cbn.
  assert (Hh : forall q o q', drop_stale (panes s) q = o :: q' -> o ∈ q /\ stale (panes s) o = false).
  { induction q as [|a q IH]; intros o q' E; cbn in E; [done|]. destruct (stale (panes s) a) eqn:Ea.
    - apply IH in E as [? ?]. split; [by right|done].
    - injection E as <- _. split; [left|done]. }
  destruct (drop_stale (panes s) (outgoing s)) as [|o q] eqn:E; [done|]. destruct (_ <? _); [done|]. cbn. intros [= <- <- <-].
  destruct (Hh _ _ _ E). by exists o.
Qed.

(** C6: Every response block is taken for the command it answers. In every state of the loop the
    session awaits the answers of a list of commands, the first perhaps partly answered; a
    block is handled as [answer] says, for every block tmux may send: an ordinary command
    takes one block, a command of the user all blocks up to its barrier, a seed its blocks
    up to the first that fails, and blocks of hooks take nothing; and writing a command that
    is not stale puts it at the end of that list. *)
Theorem responses_correlated oc host l :
  loop_reachable oc host l ->
  let s := session_of l in
  exists ts, awaiting s ts
  /\ (forall id lines failed, exists s', response_kind id lines failed s = Ret ((answer ts id lines failed).1, s')
        /\ awaiting s' (answer ts id lines failed).2)
  /\ (forall data guards s', start_send s = Ret (Some (data, guards), s') ->
        exists o t, o ∈ outgoing s /\ o_data o = data /\ stale (panes s) o = false
          /\ o_responses o = expected t /\ awaiting s' (ts ++ [t])).
Proof.
  intros H%reachable_inv s. assert (Hs : inv host s) by (destruct l; cbn in H; [done..|by destruct H]).
  destruct Hs as (_ & _ & _ & _ & (_ & Q2 & _ & ts & Hts & Ep) & _). exists ts. split; [done|]. split.
  - intros id lines failed. destruct (wp_total _ _ _ (response_refines false s ts id lines failed (conj Hts Ep))) as (k & s' & E & -> & Ha & _). eauto.
  - intros data guards s' (o & Ho & Hd & Hst & Er)%start_send_sent. rewrite Forall_forall in Q2. destruct (Q2 o Ho) as (t & Ht & Et).
    exists o, t. split_and!; [done..|]. split; [by apply todos_ok_snoc|]. rewrite Er, Ep, bind_app, Et. cbn. by rewrite app_nil_r.
Qed.

(** ** Output around a seed *)

(** What was pushed to a session. *)
Definition shown (sid : bytes) (effs : list Effect) : list bytes :=
  omap (fun x => match x with
                 | Pushed (EventQueue.Output t data) => if bool_decide (t = sid) then Some data else None
                 | _ => None
                 end) effs.

Lemma shown_app sid a b : shown sid (a ++ b) = shown sid a ++ shown sid b.
Proof. unfold shown. by rewrite omap_app. Qed.

Lemma shown_push sid t d effs :
  shown sid (effs ++ [Pushed (EventQueue.Output t d)]) = shown sid effs ++ (if bool_decide (t = sid) then [d] else []).
Proof. rewrite shown_app. f_equal. unfold shown. cbn. by destruct (bool_decide _). Qed.

Arguments shown : simpl never.

Definition routed : Type := bytes * option Z * bytes.
Definition route_all (oc : bool) (l : list routed) : M unit := for_each (fun r => route_output oc r.1.1 r.1.2 r.2) l.

(** The chunks of one pane. *)
Definition chunks_of (k : bytes) (l : list routed) : list (option Z * bytes) :=
  omap (fun r => if bool_decide (r.1.1 = k) then Some (r.1.2, r.2) else None) l.

Lemma push_all_shown sid sid' l s :
  exists s', for_each (push_pane_output sid) l s = Ret (tt, s')
    /\ s' = set_effects (effects s') s
    /\ shown sid' (effects s') = shown sid' (effects s) ++ (if bool_decide (sid = sid') then l else []).
Proof.
  revert s. induction l as [|d l IH]; intros s.
  - exists s. split; [done|]. split; [by destruct s|]. destruct (bool_decide _); by rewrite app_nil_r.
  - cbn [for_each]. unfold push_pane_output, emit, modify, bind. cbn beta iota.
    destruct (IH (set_effects (effects s ++ [Pushed (EventQueue.Output sid d)]) s)) as (s' & E & Es & Hs).
    exists s'. unfold push_pane_output, emit, modify, bind in E. split; [done|]. split; [by rewrite Es|].
    rewrite Hs. cbn. rewrite shown_push. destruct (bool_decide (sid = sid')); cbn; by rewrite <- ?app_assoc, ?app_nil_r.
Qed.

Section Output.
Context (oc : bool) (host k : bytes).

(** Another pane's output leaves the pane and what it was shown. *)
Lemma route_other pane t d s p :
  inv host s -> panes s !! k = Some p -> pane <> k ->
  wp oc (route_output oc pane t d)
    (fun _ s' => panes s' !! k = Some p /\ shown (session_id p) (effects s') = shown (session_id p) (effects s)) s.
Proof.
  intros Hs Hk Hne. assert (Hpi : panes_inv host (panes s) (unknown_output s) (effects s)) by apply Hs.
  unfold route_output. wps. destruct (panes s !! pane) as [p0|] eqn:E0.
  - pose proof (proj1 Hpi _ _ E0) as Hp0. pose proof (proj1 Hpi _ _ Hk) as Hp.
    assert (Hsid : session_id p0 <> session_id p) by (intros E; apply Hne; by eapply pane_inv_inj).
    destruct (seeded p0).
    + destruct (output_precedes_capture _ _); [by wps|]. unfold push_pane_output, emit, modify_pane. wps. cbn.
      rewrite lookup_alter_ne by done. split; [done|]. rewrite shown_push, bool_decide_eq_false_2 by done. by rewrite app_nil_r.
    + destruct (pi_queue _ _ _ Hp0) as [Eq _]. destruct (spill_spec oc (pending_output p0 ++ [(t, d)])) as (q1 & q2 & _ & Esp & _).
      assert (Esz : pending_bytes p0 + zlen d = pending_size (pending_output p0 ++ [(t, d)])) by (rewrite pending_size_app; cbn; lia).
      wps. rewrite Esz, Esp. unfold modify_pane. wps. set (s1 := set_panes _ s). cbn [fst snd].
      destruct (push_all_shown (session_id p0) (session_id p) (snd <$> q1) s1) as (s' & E & Es & Hsh).
      unfold wp. rewrite E. rewrite Hsh, bool_decide_eq_false_2, app_nil_r by done. split; [|done].
      rewrite Es. unfold s1. cbn. by rewrite lookup_alter_ne.
  - wps. assert (Hq : bounded_queue (default ([], 0) (unknown_output s !! pane)).1 (default ([], 0) (unknown_output s !! pane)).2).
    { destruct (unknown_output s !! pane) as [q|] eqn:Eq; [|by split]. by apply (proj1 (proj2 Hpi)) in Eq as [? _]. }
    destruct (buffer_unknown_spec oc _ t d Hq) as (q' & n' & -> & _). by wps.
Qed.

Lemma spill_small b q :
  pending_size q <= PENDING_PANE_OUTPUT_MAX_BYTES -> spill b q (pending_size q) = Ret ([], q, pending_size q).
Proof. intros H. apply Z.leb_le in H. destruct q as [|[] q]; cbn [spill]; [done|]. by rewrite H. Qed.

(** While the screen is captured, output is kept in order, or its front is shown. *)
Lemma route_unseeded t d s p :
  inv host s -> panes s !! k = Some p -> seeded p = false ->
  wp oc (route_output oc k t d)
    (fun _ s' => exists q1 q2, panes s' !! k = Some (p_set_pending_output q2 (p_set_pending_bytes (pending_size q2) p))
       /\ pending_output p ++ [(t, d)] = q1 ++ q2
       /\ (pending_size (pending_output p ++ [(t, d)]) <= PENDING_PANE_OUTPUT_MAX_BYTES -> q1 = [])
       /\ shown (session_id p) (effects s') = shown (session_id p) (effects s) ++ (snd <$> q1)) s.
Proof.
  intros Hs Hk Hu. assert (Hp : pane_inv host k p) by (by apply Hs). destruct (pi_queue _ _ _ Hp) as [Eq _].
  unfold route_output. wps. rewrite Hk, Hu.
  destruct (spill_spec oc (pending_output p ++ [(t, d)])) as (q1 & q2 & Eq12 & Esp & _).
  assert (Esz : pending_bytes p + zlen d = pending_size (pending_output p ++ [(t, d)])) by (rewrite pending_size_app; cbn; lia).
  wps. rewrite Esz, Esp. unfold modify_pane. wps. set (s1 := set_panes _ s). cbn [fst snd].
  destruct (push_all_shown (session_id p) (session_id p) (snd <$> q1) s1) as (s' & E & Es & Hsh). unfold wp. rewrite E.
  exists q1, q2. split_and!; [|done| |by rewrite Hsh, bool_decide_eq_true_2].
  2: { intros Hle. rewrite (spill_small oc _ Hle) in Esp. injection Esp as E0 _ _. symmetry in E0. by apply fmap_nil_inv in E0. }
  rewrite Es. unfold s1. cbn. by rewrite lookup_alter_eq, Hk.
Qed.

(** Once the screen is painted, output is shown unless the capture has it. *)
Lemma route_seeded t d s p :
  inv host s -> panes s !! k = Some p -> seeded p = true ->
  wp oc (route_output oc k t d)
    (fun _ s' => exists n, panes s' !! k = Some (p_set_routed_bytes n p)
       /\ shown (session_id p) (effects s')
          = shown (session_id p) (effects s) ++ (if output_precedes_capture t (capture_at p) then [] else [d])) s.
Proof.
  intros Hs Hk Hu. unfold route_output. wps. rewrite Hk, Hu. destruct (output_precedes_capture _ _).
  - wps. exists (routed_bytes p). rewrite app_nil_r. split; [|done]. rewrite Hk. by destruct p.
  - unfold push_pane_output, emit, modify_pane. wps. eexists. cbn. rewrite lookup_alter_eq, Hk. split; [done|].
    by rewrite shown_push, bool_decide_eq_true_2.
Qed.

Lemma wp_and {A} b (m : M A) (Q1 Q2 : A -> ControlSession -> Prop) s :
  wp b m Q1 s -> wp b m Q2 s -> wp b m (fun a s' => Q1 a s' /\ Q2 a s') s.
Proof. unfold wp. destruct (m s) as [[a s']|]; auto. Qed.

Lemma chunks_of_snoc l r : chunks_of k (l ++ [r]) = chunks_of k l ++ (if bool_decide (r.1.1 = k) then [(r.1.2, r.2)] else []).
Proof. unfold chunks_of. rewrite omap_app. cbn. by destruct (bool_decide _). Qed.

Definition waiting (p : VirtualPane) (q : list (option Z * bytes)) : VirtualPane :=
  p_set_pending_output q (p_set_pending_bytes (pending_size q) p).

Lemma route_all_unseeded l s p :
  inv host s -> panes s !! k = Some p -> seeded p = false ->
  wp oc (route_all oc l)
    (fun _ s' => inv host s' /\ exists q1 q2, panes s' !! k = Some (waiting p q2) /\ pending_output p ++ chunks_of k l = q1 ++ q2
       /\ (pending_size (pending_output p ++ chunks_of k l) <= PENDING_PANE_OUTPUT_MAX_BYTES -> q1 = [])
       /\ shown (session_id p) (effects s') = shown (session_id p) (effects s) ++ (snd <$> q1)) s.
Proof.
  intros Hs Hk Hu. apply (wp_for_each oc _ (fun l1 s' => inv host s' /\ exists q1 q2, panes s' !! k = Some (waiting p q2)
    /\ pending_output p ++ chunks_of k l1 = q1 ++ q2
    /\ (pending_size (pending_output p ++ chunks_of k l1) <= PENDING_PANE_OUTPUT_MAX_BYTES -> q1 = []) /\ shown (session_id p) (effects s') = shown (session_id p) (effects s) ++ (snd <$> q1))).
  - split; [done|]. exists [], (pending_output p). cbn. rewrite !app_nil_r. split_and!; [|done|done|done].
    assert (Hp : pane_inv host k p) by (by apply Hs). destruct (pi_queue _ _ _ Hp) as [E _]. unfold waiting. rewrite <- E, Hk. by destruct p.
  - intros l1 [[pane t] d] l2 s1 _ (Hs1 & q1 & q2 & Hk1 & Eq & Hsm & Hsh). apply wp_and; [by apply route_output_inv|].
    rewrite chunks_of_snoc. cbn [fst snd]. destruct (bool_decide (pane = k)) eqn:Eb.
    + apply bool_decide_eq_true in Eb as ->. eapply wp_mono; [by apply (route_unseeded t d s1 (waiting p q2))|].
      intros _ s2 (q3 & q4 & Hk2 & Eq2 & Hsm2 & Hsh2). cbn in Eq2, Hsh2, Hsm2. exists (q1 ++ q3), q4. split_and!; [done| | |].
      * by rewrite app_assoc, Eq, <- !app_assoc, <- Eq2.
      * intros Hle. rewrite app_assoc, Eq, !pending_size_app in Hle. rewrite Hsm, Hsm2; [done|..].
        -- rewrite pending_size_app. pose proof (pending_size_nonneg q1). lia.
        -- rewrite Eq, pending_size_app. pose proof (pending_size_nonneg [(t, d)]). lia.
      * by rewrite Hsh2, Hsh, fmap_app, app_assoc.
    + apply bool_decide_eq_false in Eb. eapply wp_mono; [by apply (route_other pane t d s1 (waiting p q2))|].
      intros _ s2 [Hk2 Hsh2]. exists q1, q2. rewrite app_nil_r. split_and!; [done|done|done|]. cbn in Hsh2. by rewrite Hsh2.
Qed.

(** The chunks that the capture at [cap] does not have. *)
Definition fresh (cap : option Z) (q : list (option Z * bytes)) : list bytes :=
  snd <$> List.filter (fun c => negb (output_precedes_capture c.1 cap)) q.

Lemma fresh_app cap a b : fresh cap (a ++ b) = fresh cap a ++ fresh cap b.
Proof. unfold fresh. by rewrite List.filter_app, fmap_app. Qed.

Lemma route_all_seeded l s p :
  inv host s -> panes s !! k = Some p -> seeded p = true ->
  wp oc (route_all oc l)
    (fun _ s' => shown (session_id p) (effects s') = shown (session_id p) (effects s) ++ fresh (capture_at p) (chunks_of k l)) s.
Proof.
  intros Hs Hk Hu. eapply wp_mono; [apply (wp_for_each oc _ (fun l1 s' => inv host s' /\ (exists n, panes s' !! k = Some (p_set_routed_bytes n p))
    /\ shown (session_id p) (effects s') = shown (session_id p) (effects s) ++ fresh (capture_at p) (chunks_of k l1)))|by intros _ s' (_ & _ & H)].
  - split; [done|]. split; [|by rewrite app_nil_r]. exists (routed_bytes p). rewrite Hk. by destruct p.
  - intros l1 [[pane t] d] l2 s1 _ (Hs1 & (n & Hk1) & Hsh). apply wp_and; [by apply route_output_inv|].
    rewrite chunks_of_snoc, fresh_app. cbn [fst snd]. destruct (bool_decide (pane = k)) eqn:Eb.
    + apply bool_decide_eq_true in Eb as ->. eapply wp_mono; [by apply (route_seeded t d s1 (p_set_routed_bytes n p))|].
      intros _ s2 (n2 & Hk2 & Hsh2). cbn in Hsh2. split; [by exists n2|]. rewrite Hsh2, Hsh, app_assoc. f_equal.
      unfold fresh. cbn. by destruct (output_precedes_capture t (capture_at p)).
    + apply bool_decide_eq_false in Eb. eapply wp_mono; [by apply (route_other pane t d s1 (p_set_routed_bytes n p))|].
      intros _ s2 [Hk2 Hsh2]. split; [by exists n|]. cbn in Hsh2. by rewrite Hsh2, Hsh, !app_nil_r.
Qed.

(** The payload a landed seed paints. *)
Definition seed_text (p : VirtualPane) (seed_lines lines : list bytes) (failed : bool) : outcome bytes :=
  let '(x, y, history) := default (0, 0, 0) (if failed then None else head lines ≫= parse_cursor) in
  compose_seed_payload oc seed_lines x y history (snd <$> (match desired p with Some d => Some d | None => dims p end)).

Lemma seed_landed e lines failed s p seed_lines :
  inv host s -> panes s !! k = Some p -> reseed p = false -> pending_seed p = Some seed_lines ->
  wp oc (handle_cursor oc e k (seed_generation p) lines failed)
    (fun _ s' => inv host s' /\ exists text p', seed_text p seed_lines lines failed = Ret text /\ panes s' !! k = Some p'
       /\ seeded p' = true /\ capture_at p' = capture_at p /\ session_id p' = session_id p
       /\ shown (session_id p) (effects s') = shown (session_id p) (effects s) ++ text :: fresh (capture_at p) (pending_output p)) s.
Proof.
  intros Hs Hk Hr Hps. apply wp_and; [by apply handle_cursor_inv|]. unfold handle_cursor. wps. rewrite Hk, Z.eqb_refl, Hr. cbn [negb].
  assert (Hp : pane_inv host k p) by (by apply Hs). destruct (pi_queue _ _ _ Hp) as [Eq _].
  wps. unfold finish_seed, seed_text. cbn [pending_seed p_set_reseed p_set_seeding desired dims]. rewrite Hps.
  destruct (default (0, 0, 0) _) as [[x y] history].
  destruct (compose_seed_payload oc seed_lines x y history _) as [text|] eqn:Et.
  - cbn [obind]. unfold take_pending_output. cbn [capture_at pending_output pending_bytes p_set_seeded p_set_pending_seed p_set_reseed p_set_seeding].
    rewrite Eq, take_pending_spec. cbn [obind fst snd app]. wps. cbn [snd fst].
    set (s1 := set_panes _ s). destruct (push_all_shown (session_id p) (session_id p) (text :: fresh (capture_at p) (pending_output p)) s1) as (s' & E & Es & Hsh).
    unfold fresh in E. unfold wp. rewrite E. eexists text, _. rewrite Es. unfold s1. cbn. rewrite lookup_insert_eq.
    split_and!; [done..|]. rewrite Es in Hsh. cbn in Hsh. by rewrite Hsh, bool_decide_eq_true_2.
  - cbn. destruct oc; [done|]. exfalso. revert Et. unfold compose_seed_payload, add_oc. destruct (y + 1 <? 2 ^ 32), (x + 1 <? 2 ^ 32); done.
Qed.

End Output.

(** C7: A pane shows its output once and in order around the capture of its screen. Take, in a
    state with the invariant that every reachable state has, a pane whose capture has
    arrived, any output routed until the cursor reply lands ([before]), to this pane and to
    others, and any output after it ([after]). All of it is handled without a panic, one of
    the overflow checks for the cursor apart, and what the pane's session is shown is: the
    oldest waiting chunks, only if more than 512 KiB were waiting; the painted screen; the
    other waiting chunks; and the chunks after it; leaving out exactly those chunks that
    tmux dated at or before the capture, which are on the painted screen. *)
Theorem seed_output_delivered oc host s k p e lines failed seed_lines before after :
  inv host s -> panes s !! k = Some p -> seeded p = false -> reseed p = false -> pending_seed p = Some seed_lines ->
  wp oc (route_all oc before ;;; handle_cursor oc e k (seed_generation p) lines failed ;;; route_all oc after)
    (fun _ s' => exists spilled waiting text,
       pending_output p ++ chunks_of k before = spilled ++ waiting
       /\ (pending_size (pending_output p ++ chunks_of k before) <= 524288 -> spilled = [])
       /\ seed_text oc p seed_lines lines failed = Ret text
       /\ shown (session_id p) (effects s')
          = shown (session_id p) (effects s) ++ (snd <$> spilled) ++ text :: fresh (capture_at p) waiting
            ++ fresh (capture_at p) (chunks_of k after)) s.
Proof.
  intros Hs Hk Hu Hr Hps. apply wp_bind. eapply wp_mono; [by apply (route_all_unseeded oc host k before s p)|].
  intros [] s1 (Hs1 & q1 & q2 & Hk1 & Eq & Hsm & Hsh1). apply wp_bind.
  eapply wp_mono; [by apply (seed_landed oc host k e lines failed s1 (waiting p q2) seed_lines)|].
  intros [] s2 (Hs2 & text & p' & Ht & Hk2 & Hse & Hcap & Hsid & Hsh2).
  eapply wp_mono; [by apply (route_all_seeded oc host k after s2 p')|]. intros [] s3 Hsh3. cbn in *.
  exists q1, q2, text. split_and!; [done|done|done|].
  rewrite Hsid, Hcap in Hsh3. by rewrite Hsh3, Hsh2, Hsh1, <- !app_assoc.
Qed.

(** ** Reconciliation with a list of windows *)

(** What a pane keeps when its screen is captured anew or its size is changed. *)
Definition kept (p : VirtualPane) : bytes * list (option Z * bytes) * Z * InputParser * option (Z * Z) * option bytes * Z * Z :=
  (session_id p, pending_output p, pending_bytes p, input_parser p, desired p, cwd p, routed_bytes p, seed_generation p).

Definition unregisters (x : Effect) : bool := match x with Registered _ _ _ | Removed _ => true | _ => false end.

(** A step that maps and unmaps nothing. *)
Definition quiet (s s' : ControlSession) : Prop :=
  windows s' = windows s /\ active_window s' = active_window s /\ kept <$> panes s' = kept <$> panes s
  /\ exists new, effects s' = effects s ++ new /\ Forall (fun x => unregisters x = false) new.

Lemma quiet_refl s : quiet s s.
Proof. split_and!; [done..|]. exists []. by rewrite app_nil_r. Qed.

Lemma quiet_trans s1 s2 s3 : quiet s1 s2 -> quiet s2 s3 -> quiet s1 s3.
Proof.
  intros (A1 & A2 & A3 & n1 & A4 & A5) (B1 & B2 & B3 & n2 & B4 & B5). split_and!; [congruence..|].
  exists (n1 ++ n2). rewrite B4, A4, <- app_assoc. split; [done|]. by apply Forall_app.
Qed.

#[local] Instance quiet_preorder : PreOrder quiet.
Proof. split; [intros s; apply quiet_refl|intros s1 s2 s3; apply quiet_trans]. Qed.

Local Notation "'quietly' m" := (forall s, wp true m (fun _ => quiet s) s) (at level 10).

Lemma quiet_bind {A B} (m : M A) (f : A -> M B) : quietly m -> (forall a, quietly (f a)) -> quietly (bind m f).
Proof.
  intros Hm Hf s. apply wp_bind. eapply wp_mono; [apply Hm|]. intros a s1 H1. eapply wp_mono; [apply Hf|]. intros b s2. by transitivity s1.
Qed.

Lemma quiet_for_each {A} (f : A -> M unit) l : (forall a, quietly (f a)) -> quietly (for_each f l).
Proof. intros Hf. induction l as [|a l IH]; [intros s; apply wp_ret, quiet_refl|]. cbn [for_each]. by apply quiet_bind. Qed.

Lemma quiet_when b (m : M unit) : quietly m -> quietly (when b m).
Proof. intros H s. destruct b; [apply H|apply wp_ret, quiet_refl]. Qed.

Lemma quiet_ret {A} (a : A) : quietly (ret a).
Proof. intros s. apply wp_ret, quiet_refl. Qed.

Lemma quiet_gets {A} (f : ControlSession -> A) : quietly (gets f).
Proof. intros s. apply wp_gets, quiet_refl. Qed.

Lemma quiet_modify f : (forall s, quiet s (f s)) -> quietly (modify f).
Proof. intros H s. apply wp_modify, H. Qed.

Lemma quiet_lift {A} (o : outcome A) : quietly (lift o).
Proof. intros s. apply wp_lift. destruct o; [apply quiet_refl|done]. Qed.

Lemma quiet_fields s s' :
  windows s' = windows s -> active_window s' = active_window s -> panes s' = panes s -> effects s' = effects s -> quiet s s'.
Proof. intros E1 E2 E3 E4. split_and!; [done|done|by rewrite E3|]. exists []. by rewrite E4, app_nil_r. Qed.

Lemma quiet_panes s ps : kept <$> ps = kept <$> panes s -> quiet s (set_panes ps s).
Proof. intros E. split_and!; [done..|]. exists []. by rewrite app_nil_r. Qed.

Lemma quiet_modify_pane k f : (forall p, kept (f p) = kept p) -> quietly (modify_pane k f).
Proof.
  intros Hf. apply quiet_modify. intros s. apply quiet_panes. apply map_eq. intros j. rewrite !lookup_fmap.
  destruct (decide (j = k)) as [->|]; [|by rewrite lookup_alter_ne]. rewrite lookup_alter_eq. destruct (panes s !! k); [|done].
  cbn [fmap option_fmap option_map]. by rewrite Hf.
Qed.

Lemma quiet_emit x : unregisters x = false -> quietly (emit x).
Proof. intros Hx. apply quiet_modify. intros s. split_and!; [done..|]. exists [x]. split; [done|by constructor]. Qed.

(** Steps through a computation, leaving its writes. *)
Ltac quiet_steps := repeat first
  [ apply quiet_bind; [|intros ?] | apply quiet_ret | apply quiet_gets | apply quiet_lift | apply quiet_when
  | apply quiet_for_each; intros ? | apply quiet_modify; intros ?; by apply quiet_fields
  | match goal with |- forall s, wp _ (match ?x with _ => _ end) _ s => destruct x end ].

Lemma queue_batch_quiet line rs : quietly (queue_batch line rs).
Proof. unfold queue_batch. quiet_steps. Qed.

Lemma send_line_quiet kind line : quietly (send_line kind line).
Proof. apply queue_batch_quiet. Qed.

Lemma seed_pane_quiet e k : quietly (seed_pane e k).
Proof. unfold seed_pane. quiet_steps; by apply quiet_modify_pane. Qed.

Lemma emit_state_quiet e : quietly (emit_state e).
Proof. unfold emit_state. quiet_steps; by apply quiet_emit. Qed.

Lemma grow_client_quiet w h : quietly (grow_client w h).
Proof. unfold grow_client. quiet_steps. Qed.

Lemma sync_client_quiet oc : quietly (sync_client oc).
Proof. unfold sync_client. quiet_steps. Qed.

Lemma pane_target_kept layout num ps : kept <$> (pane_target layout num ps).1 = kept <$> ps.
Proof.
  unfold pane_target. destruct (find_pane num layout) as [[w h x y p c l]|]; [|done]. destruct (ps !! pane_key num) as [q|] eqn:E; [|done].
  assert (H : forall v, kept <$> <[pane_key num := p_set_resize_attempts v q]> ps = kept <$> ps).
  { intros v. rewrite fmap_insert. apply insert_id. rewrite lookup_fmap, E. done. }
  destruct (desired q) as [d|]; [|done]. destruct (bool_decide _); [apply H|]. destruct (RESIZE_PANE_MAX_ATTEMPTS <=? _); [done|apply H].
Qed.

Lemma targets_kept ws acc : kept <$> (fold_left (fun acc w => window_targets w acc) ws acc).1 = kept <$> acc.1.
Proof.
  revert acc. induction ws as [|w ws IH]; intros acc; [done|]. cbn [fold_left]. rewrite IH. unfold window_targets.
  destruct (if w_zoomed w then None else w_layout w) as [layout|]; [|done]. generalize (pane_ids layout). intros l. clear.
  revert acc. induction l as [|n l IH]; intros acc; [done|]. cbn [fold_left]. rewrite IH. apply pane_target_kept.
Qed.

Lemma sync_pane_sizes_quiet oc e : quietly (sync_pane_sizes oc e).
Proof.
  unfold sync_pane_sizes. apply quiet_bind; [apply sync_client_quiet|]. intros r. apply quiet_when. apply quiet_bind; [apply quiet_gets|]. intros ws.
  intros s. apply wp_bind, wp_gets, wp_bind, wp_modify. cbn zeta.
  eapply wp_mono; [apply quiet_for_each; intros t; quiet_steps|].
  intros [] s2 H. etransitivity; [|apply H]. apply quiet_panes. apply targets_kept.
Qed.

Lemma unseed_kept p : kept (unseed p) = kept p.
Proof. unfold unseed. by destruct (seeding p). Qed.

(** Mapping and unmapping: what changed between two states. *)
Definition unmapped (s s' : ControlSession) (gone : gset bytes) : Prop :=
  windows s' = windows s /\ active_window s' = active_window s
  /\ (forall k, panes s' !! k = if bool_decide (k ∈ gone) then None else panes s !! k)
  /\ exists new, effects s' = effects s ++ new
     /\ Forall (fun x => exists k p, k ∈ gone /\ panes s !! k = Some p /\ x = Removed (session_id p)) new.

Lemma drop_pane_unmaps b k s : wp b (drop_pane k) (fun _ s' => unmapped s s' {[k]}) s.
Proof.
  unfold drop_pane. apply wp_bind, wp_gets. destruct (panes s !! k) as [p|] eqn:E.
  - unfold emit. wps; cbn; (split_and!; [done|done| |exists [Removed (session_id p)]; split; [done|]; constructor; [|done];
      exists k, p; split_and!; [set_solver|done|done]]);
      (intros j; cbn; destruct (decide (j = k)) as [->|]; [rewrite bool_decide_eq_true_2 by set_solver; apply lookup_delete_eq|
       rewrite bool_decide_eq_false_2 by set_solver; by apply lookup_delete_ne]).
  - wps. split_and!; [done|done| |exists []; by rewrite app_nil_r]. intros j. destruct (bool_decide (j ∈ {[k]})) eqn:Ej; [|done].
    apply bool_decide_eq_true, elem_of_singleton in Ej as ->. done.
Qed.

Lemma drop_missing_spec b wanted l s :
  wp b (for_each (fun k => when (bool_decide (k ∉ wanted)) (drop_pane k)) l)
    (fun _ s' => unmapped s s' (list_to_set l ∖ wanted)) s.
Proof.
  apply (wp_for_each b _ (fun l1 s' => unmapped s s' (list_to_set l1 ∖ wanted))).
  - split_and!; [done|done| |exists []; by rewrite app_nil_r]. intros k. by rewrite bool_decide_eq_false_2 by set_solver.
  - intros l1 k l2 s1 _ (H1 & H2 & H3 & new & H4 & H5). apply wp_when; intros Hk.
    + apply bool_decide_eq_true in Hk. eapply wp_mono; [apply drop_pane_unmaps|]. intros _ s2 (G1 & G2 & G3 & new' & G4 & G5).
      split_and!; [congruence|congruence| |].
      * intros j. rewrite G3, H3. destruct (decide (j = k)) as [->|Hjk].
        -- by rewrite !bool_decide_eq_true_2 by set_solver.
        -- rewrite (bool_decide_eq_false_2 (j ∈ {[k]})) by set_solver. erewrite bool_decide_ext; [done|]. set_solver.
      * exists (new ++ new'). rewrite G4, H4, <- app_assoc. split; [done|]. apply Forall_app. split.
        -- eapply Forall_impl; [done|]. intros x (j & p & ? & ? & ?). exists j, p. split_and!; [set_solver|done|done].
        -- eapply Forall_impl; [done|]. intros x (j & p & Hj & Hp & ?). apply elem_of_singleton in Hj as ->. rewrite H3 in Hp.
           destruct (bool_decide _); [done|]. exists k, p. split_and!; [set_solver|done|done].
    + apply bool_decide_eq_false, dec_stable in Hk. split_and!; [done|done| |].
      * intros j. rewrite H3. erewrite bool_decide_ext; [done|]. set_solver.
      * exists new. split; [done|]. eapply Forall_impl; [done|]. intros x (j & p & ? & ? & ?). exists j, p. split_and!; [set_solver|done|done].
Qed.

Definition mapped (s s' : ControlSession) (come : gset bytes) : Prop :=
  windows s' = windows s /\ active_window s' = active_window s
  /\ (forall k p, panes s !! k = Some p -> panes s' !! k = Some p) /\ dom (panes s') = dom (panes s) ∪ come
  /\ exists new, effects s' = effects s ++ new
     /\ Forall (fun x => exists k sid name, k ∈ come /\ panes s !! k = None /\ x = Registered sid name k) new.

Lemma spawn_pane_maps b e k s : cancelled e k = false -> wp b (spawn_pane e k) (fun _ s' => mapped s s' {[k]}) s.
Proof.
  intros Hc. unfold spawn_pane. apply wp_bind, wp_gets, wp_when; intros Hm.
  - apply negb_true_iff, bool_decide_eq_false in Hm. apply eq_None_not_Some in Hm.
    wps. rewrite Hc. unfold emit, arm_cwd_query. wps. cbn. split_and!; [done|done| | |].
    + intros j p Hj. cbn. rewrite lookup_insert_ne; [done|]. intros <-. congruence.
    + cbn. rewrite dom_insert_L. set_solver.
    + eexists. cbn. split; [done|]. constructor; [|done]. eexists k, _, _. split_and!; [set_solver|done|done].
  - apply negb_false_iff, bool_decide_eq_true in Hm. split_and!; [done|done|done| |exists []; by rewrite app_nil_r].
    apply elem_of_dom in Hm. set_solver.
Qed.

Lemma spawn_all_spec b e l s : (forall k, cancelled e k = false) -> wp b (for_each (spawn_pane e) l) (fun _ s' => mapped s s' (list_to_set l)) s.
Proof.
  intros Hc. apply (wp_for_each b _ (fun l1 s' => mapped s s' (list_to_set l1))).
  - split_and!; [done|done|done|set_solver|exists []; by rewrite app_nil_r].
  - intros l1 k l2 s1 _ (H1 & H2 & H3 & H4 & new & H5 & H6). eapply wp_mono; [by apply spawn_pane_maps|].
    intros _ s2 (G1 & G2 & G3 & G4 & new' & G5 & G6). split_and!; [congruence|congruence|auto|rewrite G4, H4; set_solver|].
    exists (new ++ new'). rewrite G5, H5, <- app_assoc. split; [done|]. apply Forall_app. split.
    + eapply Forall_impl; [done|]. intros x (j & sid & name & ? & ? & ?). exists j, sid, name. split_and!; [set_solver|done|done].
    + eapply Forall_impl; [done|]. intros x (j & sid & name & Hj & Hn & ?). exists j, sid, name. split_and!; [set_solver| |done].
      apply eq_None_not_Some. intros [p Hp]. apply H3 in Hp. congruence.
Qed.

(** The panes after reconciliation. [rm] is for lists of windows, which prove absence. *)
Record reconciled (rm : bool) (s s' : ControlSession) : Prop :=
  { rc_windows : windows s' = windows s;
    rc_active : active_window s' = active_window s;
    rc_dom : dom (panes s') = wanted_panes s ∪ (if rm then ∅ else dom (panes s));
    rc_kept : forall k p, panes s !! k = Some p -> k ∈ dom (panes s') -> exists p', panes s' !! k = Some p' /\ kept p' = kept p;
    rc_effects : exists new, effects s' = effects s ++ new /\ forall x, x ∈ new ->
      match x with
      | Removed sid => exists k p, panes s !! k = Some p /\ session_id p = sid /\ k ∉ dom (panes s')
      | Registered _ _ k => panes s !! k = None /\ k ∈ wanted_panes s
      | _ => True
      end }.

Lemma kept_lookup (ps ps' : gmap bytes VirtualPane) k p :
  kept <$> ps' = kept <$> ps -> ps !! k = Some p -> exists p', ps' !! k = Some p' /\ kept p' = kept p.
Proof.
  intros E Hk. assert (H : (kept <$> ps') !! k = Some (kept p)) by (by rewrite E, lookup_fmap, Hk).
  rewrite lookup_fmap in H. destruct (ps' !! k) as [p'|]; [|done]. exists p'. split; [done|].
  change (Some (kept p') = Some (kept p)) in H. congruence.
Qed.

Lemma kept_dom (ps ps' : gmap bytes VirtualPane) : kept <$> ps' = kept <$> ps -> dom ps' = dom ps.
Proof. intros E. rewrite <- (dom_fmap_L kept ps'), E. by rewrite dom_fmap_L. Qed.

Lemma reconcile_compose (rm : bool) gone s s1 s2 s3 s4 :
  quiet s s1 -> unmapped s1 s2 gone -> mapped s2 s3 (wanted_panes s) -> quiet s3 s4 ->
  gone ## wanted_panes s -> (if rm then dom (panes s) ⊆ gone ∪ wanted_panes s else gone = ∅) -> reconciled rm s s4.
Proof.
  intros (A1 & A2 & A3 & n1 & A4 & A5) (B1 & B2 & B3 & n2 & B4 & B5) (C1 & C2 & C3 & C4 & n3 & C5 & C6) (D1 & D2 & D3 & n4 & D4 & D5) Hg Hrm.
  pose proof (kept_dom _ _ A3) as Ad. pose proof (kept_dom _ _ D3) as Dd.
  assert (Bd : dom (panes s2) = dom (panes s) ∖ gone).
  { rewrite <- Ad. apply set_eq. intros k. rewrite elem_of_difference, !elem_of_dom, B3. destruct (bool_decide (k ∈ gone)) eqn:E;
      [apply bool_decide_eq_true in E|apply bool_decide_eq_false in E]; rewrite <- ?not_eq_None_Some; tauto. }
  assert (Hd : dom (panes s4) = wanted_panes s ∪ (if rm then ∅ else dom (panes s))).
  { rewrite Dd, C4, Bd. destruct rm; set_solver. }
  constructor; [congruence|congruence|done| |].
  - intros k p Hk Hin. destruct (kept_lookup _ _ _ _ A3 Hk) as (p1 & Hk1 & E1).
    assert (Hng : k ∉ gone). { intros Hkg. rewrite Dd, C4, Bd in Hin. set_solver. }
    assert (Hk2 : panes s2 !! k = Some p1) by (by rewrite B3, bool_decide_eq_false_2).
    destruct (kept_lookup _ _ _ _ D3 (C3 _ _ Hk2)) as (p4 & Hk4 & E4). exists p4. split; [done|congruence].
  - exists (n1 ++ n2 ++ n3 ++ n4). rewrite D4, C5, B4, A4, <- !app_assoc. split; [done|]. intros x Hx. rewrite !elem_of_app in Hx.
    rewrite !Forall_forall in *. destruct Hx as [Hx|[Hx|[Hx|Hx]]].
    + apply A5 in Hx. by destruct x.
    + apply B5 in Hx as (k & p & Hk & Hp & ->). destruct (kept_lookup _ _ _ _ (eq_sym A3) Hp) as (p0 & Hp0 & E0).
      exists k, p0. split_and!; [done|unfold kept in E0; congruence|]. rewrite Dd, C4, Bd. set_solver.
    + apply C6 in Hx as (k & sid & name & Hk & Hn & ->). split; [|done]. apply eq_None_not_Some. intros [p Hp].
      apply not_elem_of_dom in Hn. rewrite Bd in Hn. apply elem_of_dom_2 in Hp. set_solver.
    + apply D5 in Hx. by destruct x.
Qed.

Lemma reconcile_spec oc e (rm : bool) s :
  env_ok e -> (forall k, cancelled e k = false) -> (rm = true -> forall id w, windows s !! id = Some w -> is_Some (w_layout w)) ->
  wp true (reconcile_panes oc e rm) (fun _ => reconciled rm s) s.
Proof.
  intros He Hc Hl. unfold reconcile_panes. apply wp_bind, wp_gets. cbn zeta. apply wp_bind, wp_gets, wp_bind, wp_gets, wp_bind.
  apply (wp_mono true _ (fun _ => quiet s)).
  { destruct (_ ≫= w_layout) as [[w h x y p c l]|]; [|apply quiet_ret]. destruct (_ || _); [apply quiet_ret|apply grow_client_quiet]. }
  intros grew s1 Hq1. apply wp_bind, wp_gets, wp_bind. set (known := forallb _ _).
  assert (Hknown : rm = true -> known = true).
  { intros Hrm. apply forallb_forall. intros [id w] Hin%list_elem_of_In%elem_of_map_to_list. cbn. apply bool_decide_eq_true.
    destruct Hq1 as (Ew & _). rewrite Ew in Hin. by eapply Hl. }
  set (gone := if rm then dom (panes s) ∖ wanted_panes s else ∅).
  apply (wp_mono true _ (fun _ s2 => unmapped s1 s2 gone)).
  { unfold gone. destruct rm; cbn [andb].
    - rewrite Hknown by done. cbn [when]. apply wp_bind, wp_gets. eapply wp_mono; [apply drop_missing_spec|]. intros [] s2 H.
      assert (E : list_to_set (keys e SDrop (panes s1)) ∖ wanted_panes s = dom (panes s) ∖ wanted_panes s); [|by rewrite <- E].
      unfold keys. rewrite (He SDrop). destruct Hq1 as (_ & _ & Ek & _). rewrite list_to_set_elements_L. by rewrite (kept_dom _ _ Ek).
    - apply wp_ret. split_and!; [done|done| |exists []; by rewrite app_nil_r]. intros k. by rewrite bool_decide_eq_false_2 by set_solver. }
  intros [] s2 Hu. apply wp_bind. eapply wp_mono; [by apply spawn_all_spec|]. intros [] s3 Hm.
  rewrite (He SSpawn), list_to_set_elements_L in Hm.
  assert (Hrest : wp true (bind (when grew (for_each (fun num => modify_pane (pane_key num) unseed)
      (from_option pane_ids [] ((active_window s ≫= (fun id => windows s !! id)) ≫= w_layout)))) (fun _ =>
    for_each (fun pane_id => d <-- gets (fun s => pane_dims e s pane_id);
      match d with
      | None => ret tt
      | Some d => modify_pane pane_id (fun p =>
          if bool_decide (is_Some (dims p)) && negb (bool_decide (dims p = Some d)) then unseed p else p)
      end) (ord e SDims (elements (wanted_panes s)));;;
    to_seed <-- gets (fun s0 => List.filter (fun pane_id =>
      match panes s0 !! pane_id with Some p => negb (seeded p) && negb (seeding p) | None => false end)
      (ord e SSeed (elements (wanted_panes s))));
    for_each (seed_pane e) to_seed;;; sync_pane_sizes oc e;;; emit_state e)) (fun _ => quiet s3) s3).
  { revert s3 Hm. intros s3 _. revert s3. apply quiet_bind.
    { apply quiet_when, quiet_for_each. intros n. apply quiet_modify_pane. apply unseed_kept. }
    intros _. apply quiet_bind.
    { apply quiet_for_each. intros k. apply quiet_bind; [apply quiet_gets|]. intros [d|]; [|apply quiet_ret].
      apply quiet_modify_pane. intros p. destruct (_ && _); [apply unseed_kept|done]. }
    intros _. apply quiet_bind; [apply quiet_gets|]. intros l. apply quiet_bind; [apply quiet_for_each, seed_pane_quiet|].
    intros _. apply quiet_bind; [apply sync_pane_sizes_quiet|]. intros _. apply emit_state_quiet. }
  eapply wp_mono; [apply Hrest|]. intros [] s4 Hq4. unfold gone in Hu.
  eapply reconcile_compose; [done|done|done|done|destruct rm; set_solver|]. destruct rm; [|done]. intros k. destruct (decide (k ∈ wanted_panes s)); set_solver.
Qed.

Lemma fields_layout fields id w a p : parse_window_fields fields = Some (id, w, a, p) -> is_Some (w_layout w).
Proof.
  unfold parse_window_fields. do 7 (destruct fields as [|? fields]; [done|]). intros E. simplify_option_eq. eauto.
Qed.

Lemma snapshot_layouts lines id w : sn_windows (parse_window_snapshot lines) !! id = Some w -> is_Some (w_layout w).
Proof.
  unfold parse_window_snapshot. assert (H : forall sn, map_Forall (fun _ w => is_Some (w_layout w)) (sn_windows sn) ->
    map_Forall (fun _ w => is_Some (w_layout w)) (sn_windows (fold_left snapshot_line lines sn))).
  { induction lines as [|l lines IH]; intros sn Hsn; cbn; [done|]. apply IH. unfold snapshot_line.
    destruct (parse_window_fields _) as [[[[i w'] a] p]|] eqn:E; [|done].
    apply fields_layout in E.
    destruct a; cbn; by apply map_Forall_insert_2. }
  intros Hw. eapply H; [|done]. apply map_Forall_empty.
Qed.

Lemma wanted_windows s s' : windows s' = windows s -> wanted_panes s' = wanted_panes s.
Proof. unfold wanted_panes. by intros ->. Qed.

(** A list of windows settles which panes there are. Its answer is handled without a panic,
    overflow checks on the sizes apart; then the windows are those of the list, the mapped
    panes are exactly the panes of their layouts, a pane that was mapped before and still
    exists keeps its session, its pending output, its input state, size and directory, only
    sessions of panes that are gone were removed, and only panes that were not mapped were
    registered. *)
Theorem windows_reconciled oc host e raw s :
  inv host s -> env_ok e -> (forall k, cancelled e k = false) ->
  wp oc (handle_block oc e WindowsRefresh raw false)
    (fun _ s' =>
       let sn := parse_window_snapshot (from_utf8_lossy <$> raw) in
       windows s' = sn_windows sn /\ active_window s' = sn_active_window sn
       /\ dom (panes s') = wanted_panes s'
       /\ (forall k p, panes s !! k = Some p -> k ∈ wanted_panes s' -> exists p', panes s' !! k = Some p' /\ kept p' = kept p)
       /\ exists new, effects s' = effects s ++ new /\ forall x, x ∈ new ->
            match x with
            | Removed sid => exists k p, panes s !! k = Some p /\ session_id p = sid /\ k ∉ wanted_panes s'
            | Registered _ _ k => panes s !! k = None /\ k ∈ wanted_panes s'
            | _ => True
            end) s.
Proof.
  intros Hs He Hc. unfold wp. pose proof (handle_block_inv oc host e WindowsRefresh raw false He s Hs) as Hw0. unfold wp in Hw0.
  destruct (handle_block oc e WindowsRefresh raw false s) as [[[] s']|] eqn:E; [clear Hw0|done]. cbv beta iota zeta. set (sn := parse_window_snapshot _).
  set (s1 := set_active_pane (sn_active_pane sn) (set_active_window (sn_active_window sn) (set_windows (sn_windows sn) s))).
  change (reconcile_panes oc e true s1 = Ret (tt, s')) in E.
  assert (H : reconciled true s1 s').
  { eapply (wp_Ret true _ (fun _ => reconciled true s1)); [|exact E]. apply reconcile_spec; [done|done|]. intros _ id w. apply snapshot_layouts. }
  destruct H as [H1 H2 H3 H4 H5]. pose proof (wanted_windows _ _ H1) as Hw. rewrite union_empty_r_L in H3. rewrite <- Hw in H3.
  split_and!; [done|done|done| |].
  - intros k p Hk Hin. apply (H4 k p); [done|]. by rewrite H3.
  - destruct H5 as (new & En & Hn). exists new. split; [done|]. intros x Hx. specialize (Hn x Hx). rewrite H3, <- Hw in Hn. done.
Qed.

(** A layout notification removes no pane: panes may be on their way to another window. *)
Theorem layout_change_keeps oc e window layout visible fl s s' k p :
  env_ok e -> (forall k, cancelled e k = false) ->
  layout_change oc e window layout visible fl s = Ret (tt, s') -> panes s !! k = Some p ->
  exists p', panes s' !! k = Some p' /\ kept p' = kept p.
Proof.
  intros He Hc E Hk.
  assert (H : wp true (layout_change oc e window layout visible fl) (fun _ s' => exists p', panes s' !! k = Some p' /\ kept p' = kept p) s);
    [|by apply (wp_Ret true _ _ _ _ _ H E)].
  unfold layout_change. apply wp_bind, wp_modify, wp_bind, wp_modify, wp_bind.
  eapply wp_mono; [by apply reconcile_spec|]. intros [] s2 [_ _ H3 H4 _]. unfold arm_refresh. apply wp_modify. cbn.
  apply (H4 k p); [done|]. rewrite H3. apply elem_of_dom_2 in Hk. cbn. set_solver.
Qed.

(** ** The list of windows, printed *)

(** A window as tmux formats it for [WINDOWS_QUERY]. *)
Record window_row := mkRow
  { r_id : Z; r_index : Z; r_active : bool; r_check : bytes; r_layout : LayoutCell; r_vcheck : bytes; r_visible : LayoutCell;
    r_flags : bytes; r_pane : Z; r_name : bytes }.

Definition join_space (l : list bytes) : bytes := join_with [32] l.

Definition print_row (r : window_row) : bytes :=
  join_space [64 :: dec_string (r_id r); dec_string (r_index r); if r_active r then [49] else [48];
    r_check r ++ 44 :: print_cell (r_layout r); r_vcheck r ++ 44 :: print_cell (r_visible r); r_flags r;
    37 :: dec_string (r_pane r); r_name r].

Definition is_hex (s : bytes) : Prop := Forall (fun b => is_ascii_hexdigit b = true) s.

Definition row_ok (r : window_row) : Prop :=
  urange 32 (r_id r) /\ urange 32 (r_index r) /\ urange 32 (r_pane r) /\ is_hex (r_check r) /\ is_hex (r_vcheck r)
  /\ cell_wf (r_layout r) /\ cell_wf (r_visible r) /\ 32 ∉ r_flags r.

Definition row_window (r : window_row) : WindowState :=
  mkWindow (r_name r) (r_index r) (Some (r_layout r)) (Some (r_visible r)) (existsb (Z.eqb 90) (r_flags r)).

Definition no_space (s : bytes) : Prop := Forall (fun b => b <> 32) s.

Lemma dec_no_space n : no_space (dec_string n).
Proof. eapply Forall_impl; [apply dec_string_digits|]. unfold is_dec_digit. lia. Qed.

Lemma hex_no_space s : is_hex s -> no_space s.
Proof. intros H. eapply Forall_impl; [exact H|]. intros b Hb ->. done. Qed.

Lemma print_cell_no_space c : no_space (print_cell c).
Proof.
  induction c as [w h x y pane columns children IH] using cell_ind. cbn [print_cell].
  repeat (first [apply Forall_app; split; [apply dec_no_space|] | apply Forall_cons; split; [done|]]).
  destruct pane as [p|].
  - apply Forall_cons. split; [done|apply dec_no_space].
  - apply Forall_cons. split; [by destruct columns|]. apply Forall_app. split; [|by destruct columns; repeat constructor].
    induction IH as [|c l Hc Hl IHl]; [done|]. cbn. destruct l as [|c' l]; [done|]. apply Forall_app. split; [done|]. by apply Forall_cons.
Qed.

Lemma splitn_cons n a b : no_space a -> splitn (S (S n)) 32 (a ++ 32 :: b) = a :: splitn (S n) 32 b.
Proof.
  intros H. change (match split_once 32 (a ++ 32 :: b) with Some (x, y) => x :: splitn (S n) 32 y | None => [a ++ 32 :: b] end
    = a :: splitn (S n) 32 b). by rewrite split_once_app.
Qed.

Lemma splitn_join l x : Forall no_space l -> splitn (S (length l)) 32 (join_space (l ++ [x])) = l ++ [x].
Proof.
  induction 1 as [|a l Ha Hl IH]; [cbn; by rewrite app_nil_r|].
  assert (E : join_space ((a :: l) ++ [x]) = a ++ 32 :: join_space (l ++ [x])).
  { unfold join_space, join_with. cbn. f_equal. destruct l; cbn; done. }
  rewrite E. cbn [length]. rewrite splitn_cons by done. by rewrite IH.
Qed.

Lemma parse_print_row r :
  row_ok r -> parse_window_fields (splitn 8 32 (print_row r)) = Some (64 :: dec_string (r_id r), row_window r, r_active r, 37 :: dec_string (r_pane r)).
Proof.
  intros (Hi & Hx & Hp & Hc & Hv & Hl & Hvl & Hf). unfold print_row.
  assert (Hdash : forall ck c, is_hex ck -> no_space (ck ++ 44 :: print_cell c)).
  { intros ck c H. apply Forall_app. split; [by apply hex_no_space|]. apply Forall_cons. split; [done|apply print_cell_no_space]. }
  match goal with |- context [join_space [?a; ?b; ?c; ?d; ?e; ?f; ?g; ?h]] =>
    change (join_space [a; b; c; d; e; f; g; h]) with (join_space ([a; b; c; d; e; f; g] ++ [h]));
    change 8%nat with (S (length [a; b; c; d; e; f; g])) end.
  rewrite splitn_join.
  - cbn [app parse_window_fields]. rewrite !parse_layout_print by done.
    assert (Es : forall b n, urange 32 n -> strip_prefix [b] (b :: dec_string n) ≫= parse_uint 32 10 = Some n).
    { intros b n Hn. change (b :: dec_string n) with ([b] ++ dec_string n). rewrite strip_prefix_app. by apply parse_uint_dec. }
    rewrite !Es, parse_uint_dec by done. destruct (r_active r) eqn:Ea; cbn; unfold row_window; done.
  - repeat (apply Forall_cons; split); try done; try (apply Forall_cons; split; [done|]); try apply dec_no_space; try (by apply Hdash);
      [destruct (r_active r); by repeat constructor|]. apply Forall_forall. intros b Hb ->. done.
Qed.

Definition window_key (r : window_row) : bytes := 64 :: dec_string (r_id r).

(** The session reads back the list of windows that tmux prints: each window with its index,
    name, layouts and zoom, and the active window and pane of the last active row. *)
Theorem window_list_roundtrip (rows : list window_row) :
  Forall row_ok rows ->
  let sn := parse_window_snapshot (print_row <$> rows) in
  sn_windows sn = list_to_map (rev ((fun r => (window_key r, row_window r)) <$> rows))
  /\ sn_active_window sn = last (window_key <$> List.filter r_active rows)
  /\ sn_active_pane sn = last ((fun r => pane_key (r_pane r)) <$> List.filter r_active rows).
Proof.
  unfold parse_window_snapshot. induction rows as [|r rows IH] using rev_ind; [done|]. intros [H1 H2]%Forall_app. apply Forall_inv in H2.
  specialize (IH H1). rewrite fmap_app, fold_left_app. set (sn0 := fold_left snapshot_line (print_row <$> rows) _) in *.
  destruct IH as (E1 & E2 & E3). change (print_row <$> [r]) with [print_row r]. cbn [fold_left]. unfold snapshot_line. rewrite parse_print_row by done.
  rewrite !fmap_app, rev_app_distr, !List.filter_app, !fmap_app. cbn [fmap list_fmap rev app List.filter list_to_map].
  destruct (r_active r); cbn [sn_windows sn_active_window sn_active_pane fmap list_fmap]; rewrite ?app_nil_r, ?last_snoc, E1; done.
Qed.

(** ** Examples and witnesses *)

Definition demo_env : Env := mkEnv 1000 (bs "00ff") (fun _ => false) (fun _ l => l).
Definition demo_envs (_ : nat) : Env := demo_env.
Definition demo_host : bytes := bs "host".

Lemma demo_env_ok : env_ok demo_env.
Proof. by intros site l. Qed.

Definition layout_line (size : string) : bytes :=
  bs "%layout-change @0 b25f," ++ bs size ++ bs ",0,0,0 b25f," ++ bs size ++ bs ",0,0,0 *" ++ [10].

Definition state_or {A} (o : outcome (A * ControlSession)) : ControlSession :=
  match o with Ret (_, s) => s | Panic => new_session [] end.

(** A session whose first window has one pane, which is being seeded. *)
Definition demo_session : ControlSession := state_or (bootstrap false demo_envs (layout_line "80x24") (new_session demo_host)).

Lemma control_demo_reachable : loop_reachable false demo_host (AtHead None demo_session).
Proof. apply (reach_start _ _ demo_envs (layout_line "80x24")); [intros; apply demo_env_ok|]. vm_compute. reflexivity. Qed.

(** Turns of the loop with the given arms; a write in flight is done before the next one. *)
Fixpoint run_arms (oc : bool) (arms : list Arm) (send : PendingSend) (s : ControlSession) : outcome (option ControlExit * ControlSession) :=
  match arms with
  | [] => Ret (None, s)
  | a :: arms' =>
    match loop_head send s with
    | Ret (inl send', s1) =>
      match handle_arm oc demo_envs a s1 with
      | Ret (None, s2) => run_arms oc arms' (match a with ASent _ => None | _ => send' end) s2
      | Ret (Some exit, s2) => Ret (Some exit, s2)
      | Panic => Panic
      end
    | Ret (inr exit, s1) => Ret (Some exit, s1)
    | Panic => Panic
    end
  end.

Definition block (n : Z) (verb : string) (lines : list string) : bytes :=
  bs "%begin 1 " ++ dec_string n ++ bs " 1" ++ [10] ++ concat ((fun l => bs l ++ [10]) <$> lines)
  ++ bs "%" ++ bs verb ++ bs " 1 " ++ dec_string n ++ bs " 1" ++ [10].

(** What the session awaits and has queued, its paused panes and whether they will be continued. *)
Definition summary (o : outcome (option ControlExit * ControlSession)) :
    option (list PendingKind * list (list PendingKind) * list bytes * option Z) :=
  match o with
  | Ret (None, s) => Some (pending_responses s, o_responses <$> outgoing s, elements (paused_panes s), continue_deadline s)
  | _ => None
  end.

(** Everything written and answered up to the seed of a paused pane, generation 1. *)
Definition paused_seed : list Arm :=
  [AData (bs "%pause %0" ++ [10]); AContinue; ASent true; ASent true; ASent true; ASent true; ASent true; ASent true;
   AData (block 1 "end" [] ++ block 2 "error" [] ++ block 3 "end" [] ++ block 4 "end" [])].

Example paused_seed_sent :
  summary (run_arms false paused_seed None demo_session)
  = Some ([CapturePane (bs "%0") 1; SeedCursor (bs "%0") 1; SeedContinue (bs "%0") 1], [], [], None).
Proof. vm_compute. reflexivity. Qed.

(** When a seed cannot continue its pane the pane is paused again with a timer to retry. *)
Example failed_continue_retried :
  summary (run_arms false (paused_seed ++ [AData (block 5 "end" ["$"] ++ block 6 "end" ["1 0 0"] ++ block 7 "error" ["no"])]) None demo_session)
  = Some ([], [], [bs "%0"], Some 250).
Proof. vm_compute. reflexivity. Qed.

(** But if the pane was resized before that error, a newer seed without a continue is in
    flight: the timer finds the pane being seeded and does nothing, and the newer seed lands
    without continuing the pane, which stays paused with no timer left. *)
Example failed_continue_stalls :
  summary (run_arms false (paused_seed ++
    [AData (block 5 "end" ["$"] ++ block 6 "end" ["1 0 0"] ++ layout_line "70x24" ++ block 7 "error" ["no"]);
     AContinue; ASent true;
     AData (block 8 "end" ["$"] ++ block 9 "end" ["1 0 0"])]) None demo_session)
  = Some ([], [], [bs "%0"], None).
Proof. vm_compute. reflexivity. Qed.

(** A cursor or a size at the end of the 32-bit range overflows: a panic with overflow
    checks, row 0 or a small window without. *)
Example cursor_overflows :
  compose_seed_payload true [bs "$"] 0 4294967295 0 None = Panic
  /\ compose_seed_payload false [bs "$"] 0 4294967295 0 None = Ret (ESC ++ bs "[H" ++ ESC ++ bs "[2J" ++ ESC ++ bs "[3J$" ++ ESC ++ bs "[0;1H").
Proof. split; vm_compute; reflexivity. Qed.

Example window_size_overflows :
  let cell := mkCell 80 24 0 0 None true [mkCell 4294967295 24 0 0 (Some 0) false []; mkCell 39 24 41 0 (Some 1) false []] in
  needed_window_size true ∅ cell = Panic /\ needed_window_size false ∅ cell = Ret (39, 24).
Proof. split; vm_compute; reflexivity. Qed.

(** The tests of the source: trailing blank rows are cut, and history is scrolled by at most
    the rows of the screen. *)
Example seed_trims_blank_rows :
  compose_seed_payload true [bs "$ ls"; bs "a"; bs "$ "; []; []] 2 2 0 (Some 24)
  = Ret (ESC ++ bs "[H" ++ ESC ++ bs "[2J" ++ ESC ++ bs "[3J" ++ bs "$ ls" ++ [13; 10] ++ bs "a" ++ [13; 10] ++ bs "$ " ++ ESC ++ bs "[3;3H").
Proof. vm_compute. reflexivity. Qed.

Lemma tmux_buffers_bounded_witness :
  zlen (outgoing demo_session) = 5
  /\ (zlen (outgoing (session_of (AtHead None demo_session))) <= 1024
      /\ zlen (pending_responses (session_of (AtHead None demo_session))) <= 128).
Proof.
  split; [vm_compute; reflexivity|].
  destruct (tmux_buffers_bounded false demo_host (AtHead None demo_session) control_demo_reachable) as (H1 & H2 & _). exact (conj H1 H2).
Defined.

Lemma tmux_registry_exact_witness :
  registry (effects (session_of (AtHead None demo_session))) !! bs "host::pane0" = Some (bs "%0") <->
  is_Some (panes (session_of (AtHead None demo_session)) !! bs "%0") /\ bs "host::pane0" = pane_session_id demo_host (bs "%0").
Proof. apply (tmux_registry_exact false demo_host (AtHead None demo_session) control_demo_reachable). Defined.

Lemma tmux_session_total_witness : exists r s', loop_head None demo_session = Ret (r, s').
Proof. apply (tmux_session_total demo_host (AtHead None demo_session) control_demo_reachable). Defined.

Lemma responses_correlated_witness :
  exists ts, awaiting (session_of (AtHead None demo_session)) ts
    /\ exists s', response_kind (mkBlock 1 2 1) [] false (session_of (AtHead None demo_session)) = Ret ((answer ts (mkBlock 1 2 1) [] false).1, s').
Proof.
  destruct (responses_correlated false demo_host (AtHead None demo_session) control_demo_reachable) as (ts & H1 & H2 & _).
  exists ts. split; [exact H1|]. destruct (H2 (mkBlock 1 2 1) [] false) as (s' & E & _). exists s'. exact E.
Defined.

(** The pane after its capture arrived. *)
Definition demo_captured : ControlSession := state_or (handle_capture demo_env (bs "%0") 0 [bs "$ "] false demo_session).

Lemma demo_captured_inv : inv demo_host demo_captured.
Proof.
  apply (wp_Ret false (handle_capture demo_env (bs "%0") 0 [bs "$ "] false) (fun _ => inv demo_host) demo_session tt); [|vm_compute; reflexivity].
  apply handle_capture_inv. apply (reachable_inv _ _ _ control_demo_reachable).
Qed.

Definition demo_pane : VirtualPane :=
  match panes demo_captured !! bs "%0" with
  | Some p => p
  | None => mkVirtualPane [] default_parser [] 0 false 0 false None false false None None None None None None None 0
  end.

Definition demo_before : list routed := [(bs "%0", Some 999, bs "old"); (bs "%1", None, bs "other"); (bs "%0", None, bs "new")].
Definition demo_after : list routed := [(bs "%0", Some 1000, bs "seen"); (bs "%0", Some 1001, bs "next")].
Definition demo_seeding : M unit :=
  route_all false demo_before ;;; handle_cursor false demo_env (bs "%0") (seed_generation demo_pane) [bs "2 0 0"] false ;;;
  route_all false demo_after.

Lemma seed_output_delivered_witness :
  tail (shown (bs "host::pane0") (effects (state_or (demo_seeding demo_captured)))) = [bs "new"; bs "next"]
  /\ exists s' spilled waiting text,
    demo_seeding demo_captured = Ret (tt, s')
    /\ pending_output demo_pane ++ chunks_of (bs "%0") demo_before = spilled ++ waiting
    /\ seed_text false demo_pane [bs "$ "] [bs "2 0 0"] false = Ret text
    /\ shown (session_id demo_pane) (effects s')
       = shown (session_id demo_pane) (effects demo_captured) ++ (snd <$> spilled) ++ text :: fresh (capture_at demo_pane) waiting
         ++ fresh (capture_at demo_pane) (chunks_of (bs "%0") demo_after).
Proof.
  split; [vm_compute; reflexivity|].
  assert (H : wp false demo_seeding _ demo_captured)
    by (apply (seed_output_delivered false demo_host demo_captured (bs "%0") demo_pane demo_env [bs "2 0 0"] false [bs "$ "]
                 demo_before demo_after demo_captured_inv); vm_compute; reflexivity).
  destruct (wp_total _ _ _ H) as ([] & s' & E & spilled & w & text & H1 & _ & H3 & H4).
  exists s', spilled, w, text. split; [exact E|]. split; [exact H1|]. split; [exact H3|exact H4].
Defined.

Definition demo_row (id pane : Z) (active : bool) : window_row :=
  mkRow id id active (bs "b25f") (mkCell 80 24 0 0 (Some pane) false []) (bs "b25f") (mkCell 80 24 0 0 (Some pane) false []) (bs "*Z") pane
    (bs "my shell").

Lemma window_list_roundtrip_witness :
  sn_active_pane (parse_window_snapshot (print_row <$> [demo_row 0 3 false; demo_row 1 4 true])) = Some (bs "%4").
Proof.
  destruct (window_list_roundtrip [demo_row 0 3 false; demo_row 1 4 true]) as (_ & _ & H).
  - repeat constructor; cbn; try done; try (unfold urange; lia); set_solver.
  - exact H.
Defined.

(** The pane's window was closed and another one opened. *)
Lemma demo_session_inv : inv demo_host demo_session.
Proof. exact (reachable_inv _ _ _ control_demo_reachable). Qed.

Definition demo_list : M unit := handle_block false demo_env WindowsRefresh [print_row (demo_row 1 4 true)] false.

Lemma windows_reconciled_witness :
  elements (dom (panes (state_or (demo_list demo_session)))) = [bs "%4"]
  /\ exists s', demo_list demo_session = Ret (tt, s') /\ dom (panes s') = wanted_panes s'.
Proof.
  split; [vm_compute; reflexivity|].
  assert (H : wp false demo_list _ demo_session)
    by (apply (windows_reconciled false demo_host demo_env [print_row (demo_row 1 4 true)] demo_session demo_session_inv demo_env_ok);
        reflexivity).
  destruct (wp_total _ _ _ H) as ([] & s' & E & _ & _ & H3 & _). exists s'. split; [exact E|exact H3].
Defined.
