(* ===== verification/Telnet.v ===== *)
(** * Telnet

    [src/crates/nyaterm-transport/src/telnet_codec.rs]: option negotiation, window-size
    reports, command stripping and IAC escaping, with the fields of the session
    configuration ([session_config.rs]) that the telnet code reads. *)

From stdpp Require Import base list numbers.
From Stdlib Require Import ZArith Lia.
From S2P Require Import Prelude RustStr.

Local Open Scope Z_scope.

(** ** Codec *)

Definition IAC : Z := 255.
Definition WILL : Z := 251.
Definition WONT : Z := 252.
Definition DO : Z := 253.
Definition DONT : Z := 254.
Definition SB : Z := 250.
Definition SE : Z := 240.
Definition OPT_ECHO : Z := 1.
Definition OPT_SUPPRESS_GO_AHEAD : Z := 3.
Definition OPT_NAWS : Z := 31.

Inductive TelnetEnterMode := Crlf | Cr | Lf.

(** The fields of [TelnetSessionConfig] the codec and the input policy read. *)
Record TelnetSessionConfig := mkConfig
  { raw_tcp : bool; enter_mode : TelnetEnterMode; local_echo : bool; local_line_edit : bool;
    send_naws : bool; send_sga : bool }.

Definition negotiate_response (command option : Z) (naws sga : bool) : bytes :=
  if command =? WILL then
    if (option =? OPT_ECHO) || (sga && (option =? OPT_SUPPRESS_GO_AHEAD))
    then [IAC; DO; option] else [IAC; DONT; option]
  else if command =? DO then
    if naws && (option =? OPT_NAWS) then [IAC; WILL; option] else [IAC; WONT; option]
  else if command =? WONT then [IAC; DONT; option]
  else if command =? DONT then [IAC; WONT; option]
  else [].

Definition maybe_build_naws (cols rows : Z) (config : TelnetSessionConfig) : option bytes :=
  if raw_tcp config || negb (send_naws config) then None
  else Some [IAC; SB; OPT_NAWS; Z.shiftr cols 8; Z.land cols 255; Z.shiftr rows 8; Z.land rows 255; IAC; SE].

Fixpoint unescape_iac_iac (data : bytes) : bytes :=
  match data with
  | [] => []
  | b :: rest =>
    match rest with
    | c :: rest' => if (b =? IAC) && (c =? IAC) then IAC :: unescape_iac_iac rest' else b :: unescape_iac_iac rest
    | [] => [b]
    end
  end.

Definition is_negotiation (command : Z) : bool :=
  (command =? WILL) || (command =? WONT) || (command =? DO) || (command =? DONT).

Definition visible_cons (b : Z) (r : bytes * list (Z * Z)) : bytes * list (Z * Z) := (b :: fst r, snd r).
Definition negotiate_cons (n : Z * Z) (r : bytes * list (Z * Z)) : bytes * list (Z * Z) := (fst r, n :: snd r).

(** The loop of [strip_telnet_commands] ([sb] inside its inner loop over a
    subnegotiation): the visible bytes and the calls of [on_negotiate]. *)
Fixpoint strip_loop (sb : bool) (data : bytes) : bytes * list (Z * Z) :=
  match data with
  | [] => ([], [])
  | b :: rest =>
    if sb then
      match rest with
      | c :: rest' => if (b =? IAC) && (c =? SE) then strip_loop false rest' else strip_loop true rest
      | [] => ([], [])
      end
    else if b =? IAC then
      match rest with
      | [] => ([b], [])
      | command :: rest' =>
        if command =? IAC then visible_cons IAC (strip_loop false rest')
        else if is_negotiation command then
          match rest' with
          | option :: rest'' => negotiate_cons (command, option) (strip_loop false rest'')
          | [] => ([], [])
          end
        else if command =? SB then strip_loop true rest'
        else strip_loop false rest'
      end
    else visible_cons b (strip_loop false rest)
  end.

Definition strip_telnet_commands (data : bytes) : bytes * list (Z * Z) := strip_loop false data.

Fixpoint escape_iac (data : bytes) : bytes :=
  match data with
  | [] => []
  | b :: rest => if b =? IAC then b :: IAC :: escape_iac rest else b :: escape_iac rest
  end.

Definition escape_telnet_application_data (data : bytes) (raw : bool) : bytes :=
  if raw then data else escape_iac data.

(** ** What a peer sends, by RFC 854 *)

Inductive segment :=
| SData (d : bytes)
| SNegotiate (command option : Z)
| SSub (payload : bytes)
| SCommand (c : Z).

Definition encode_segment (s : segment) : bytes :=
  match s with
  | SData d => escape_iac d
  | SNegotiate c o => [IAC; c; o]
  | SSub p => IAC :: SB :: p ++ [IAC; SE]
  | SCommand c => [IAC; c]
  end.

(** No [IAC SE] inside. *)
Fixpoint no_end (p : bytes) : bool :=
  match p with
  | a :: rest => match rest with b :: _ => negb ((a =? IAC) && (b =? SE)) | [] => true end && no_end rest
  | [] => true
  end.

Definition segment_ok (s : segment) : bool :=
  match s with
  | SData _ => true
  | SNegotiate c _ => is_negotiation c
  | SSub p => no_end p
  | SCommand c => negb (c =? IAC) && negb (is_negotiation c) && negb (c =? SB)
  end.

Definition segment_data (s : segment) : bytes := match s with SData d => d | _ => [] end.
Definition segment_neg (s : segment) : list (Z * Z) := match s with SNegotiate c o => [(c, o)] | _ => [] end.

Lemma strip_escape d rest :
  strip_loop false (escape_iac d ++ rest) = (d ++ fst (strip_loop false rest), snd (strip_loop false rest)).
Proof.
  induction d as [|b d IH]; cbn [escape_iac app]; [by destruct (strip_loop false rest)|].
  destruct (b =? IAC) eqn:E; cbn [app strip_loop]; rewrite E.
  - rewrite (Z.eqb_refl IAC), IH. bool_hyps. by subst b.
  - by rewrite IH.
Qed.

Lemma strip_sub p rest : no_end p = true -> strip_loop true (p ++ IAC :: SE :: rest) = strip_loop false rest.
Proof.
  induction p as [|a p IH]; [done|]. intros Hp. cbn [no_end] in Hp. apply andb_true_iff in Hp as [H1 H2].
  destruct p as [|b p].
  - cbn [app] in *. cbn [strip_loop]. rewrite (andb_comm (a =? IAC)). cbn. done.
  - cbn [app] in *. cbn [strip_loop]. apply negb_true_iff in H1. rewrite H1. by apply IH.
Qed.

Lemma strip_segment s rest :
  segment_ok s = true ->
  strip_loop false (encode_segment s ++ rest)
  = (segment_data s ++ fst (strip_loop false rest), segment_neg s ++ snd (strip_loop false rest)).
Proof.
  destruct s as [d|c o|p|c]; cbn [segment_ok encode_segment segment_data segment_neg]; intros Hok.
  - apply strip_escape.
  - cbn [app strip_loop]. rewrite (Z.eqb_refl IAC), Hok.
    destruct (c =? IAC) eqn:E; [bool_hyps; by subst c|]. by destruct (strip_loop false rest).
  - cbn [app strip_loop]. rewrite (Z.eqb_refl IAC). rewrite <- app_assoc. cbn [app].
    change (SB =? IAC) with false. change (is_negotiation SB) with false. rewrite (Z.eqb_refl SB).
    rewrite strip_sub by done. by destruct (strip_loop false rest).
  - bool_hyps. cbn [app strip_loop]. rewrite (Z.eqb_refl IAC).
    destruct (c =? IAC) eqn:E1; [bool_hyps; contradiction|].
    rewrite H1, (proj2 (Z.eqb_neq c SB)) by done. by destruct (strip_loop false rest).
Qed.

(** Stripping inverts the RFC 854 stream. For every sequence of application data
    (with IAC doubled), option negotiations, subnegotiations and other two-byte
    commands, the visible bytes are exactly the data and the negotiations are reported
    exactly once each, in order. *)
Theorem strip_telnet_commands_inverse segs :
  Forall (fun s => segment_ok s = true) segs ->
  strip_telnet_commands (concat (encode_segment <$> segs))
  = (concat (segment_data <$> segs), concat (segment_neg <$> segs)).
Proof.
  unfold strip_telnet_commands. induction 1 as [|s segs Hs _ IH]; [done|].
  rewrite !fmap_cons. cbn [concat]. rewrite strip_segment by done. by rewrite IH.
Qed.

Lemma unescape_escape d : unescape_iac_iac (escape_iac d) = d.
Proof.
  induction d as [|b d IH]; [done|]. cbn [escape_iac]. destruct (b =? IAC) eqn:E.
  - cbn [unescape_iac_iac]. rewrite E, (Z.eqb_refl IAC). cbn [andb]. rewrite IH. bool_hyps. by subst b.
  - cbn [unescape_iac_iac]. destruct (escape_iac d) as [|c r] eqn:Ed.
    + destruct d as [|x d]; [done|]. cbn [escape_iac] in Ed. by destruct (x =? IAC).
    + rewrite E. cbn [andb]. by rewrite IH.
Qed.

(** Both decoders invert the sender's escaping of binary data. *)
Theorem telnet_escape_roundtrip d :
  unescape_iac_iac (escape_telnet_application_data d false) = d
  /\ strip_telnet_commands (escape_telnet_application_data d false) = (d, []).
Proof.
  split; [apply unescape_escape|]. unfold strip_telnet_commands, escape_telnet_application_data.
  pose proof (strip_escape d []) as H. by rewrite !app_nil_r in H.
Qed.

Lemma escape_iac_length d : (length d <= length (escape_iac d))%nat.
Proof. induction d as [|b d IH]; cbn [escape_iac]; [done|]; destruct (b =? IAC); cbn [length]; lia. Qed.

Lemma unescape_cons2 b c d :
  unescape_iac_iac (b :: c :: d)
  = if (b =? IAC) && (c =? IAC) then IAC :: unescape_iac_iac d else b :: unescape_iac_iac (c :: d).
Proof. done. Qed.

Lemma unescape_length d : (length (unescape_iac_iac d) <= length d)%nat.
Proof.
  remember (length d) as n eqn:Hn. assert (Hd : (length d <= n)%nat) by lia. clear Hn. revert d Hd.
  induction n as [|n IH]; intros d Hd; [destruct d; cbn in *; lia|].
  destruct d as [|b [|c d]]; [cbn; lia|cbn; lia|]. rewrite unescape_cons2. cbn [length] in Hd.
  destruct (_ && _); cbn [length]; [pose proof (IH d ltac:(lia))|pose proof (IH (c :: d) ltac:(cbn [length]; lia)) as H; cbn [length] in H]; lia.
Qed.

Lemma unescape_prefix d r :
  unescape_iac_iac (escape_iac d ++ IAC :: IAC :: r) = d ++ IAC :: unescape_iac_iac r.
Proof.
  induction d as [|b d IH]; [done|]. cbn [escape_iac]. destruct (b =? IAC) eqn:E.
  - cbn [app unescape_iac_iac]. rewrite E, (Z.eqb_refl IAC). cbn [andb]. rewrite IH. bool_hyps. by subst b.
  - cbn [app unescape_iac_iac]. destruct (escape_iac d ++ IAC :: IAC :: r) as [|c l] eqn:Ed;
      [by destruct (escape_iac d)|]. rewrite E. cbn [andb]. by rewrite IH.
Qed.

(** Raw TCP is not transparent: the reader collapses doubled 0xFF bytes although the
    sender of a raw session does not double them, so a raw peer that sends two 0xFF
    bytes in a row has one of them dropped. *)
Theorem raw_tcp_loses_iac d1 d2 :
  let sent := escape_telnet_application_data (escape_iac d1 ++ IAC :: IAC :: d2) true in
  unescape_iac_iac sent <> sent.
Proof.
  cbn. rewrite unescape_prefix. intros H. apply (f_equal length) in H. rewrite !length_app in H.
  cbn [length] in H. pose proof (escape_iac_length d1). pose proof (unescape_length d2). lia.
Qed.

(** RFC 1073: the window size, with IAC doubled inside the subnegotiation. *)
Definition rfc1073 (cols rows : Z) : bytes :=
  [IAC; SB; OPT_NAWS] ++ escape_iac (be_bytes 2 cols ++ be_bytes 2 rows) ++ [IAC; SE].

Lemma be_bytes_2 x : 0 <= x < 2 ^ 16 -> be_bytes 2 x = [Z.shiftr x 8; Z.land x 255].
Proof.
  intros Hx. unfold be_bytes. rewrite Z.shiftr_0_r.
  change 255 with (Z.ones 8). rewrite Z.land_ones, !Z.shiftr_div_pow2 by lia.
  change (8 * Z.of_nat 1) with 8. rewrite (Z.mod_small (x / 2 ^ 8)); [done|].
  split; [apply Z.div_pos; lia|]. apply Z.div_lt_upper_bound; lia.
Qed.

Lemma escape_iac_same d : escape_iac d = d <-> Forall (fun b => b <> IAC) d.
Proof.
  induction d as [|b d IH]; [by split; [constructor|]|]. cbn [escape_iac]. rewrite Forall_cons_iff.
  destruct (b =? IAC) eqn:E; bool_hyps.
  - split; [|tauto]. intros H. pose proof (escape_iac_length d).
    apply (f_equal length) in H. cbn [length] in H. lia.
  - rewrite <- IH. split; [by intros [= H]|intros [_ H]; by rewrite H].
Qed.

(** The window-size report is the RFC 1073 one exactly when neither dimension has a
    byte 255: the code never doubles IAC inside the subnegotiation, so for example a
    terminal 255 columns wide sends a malformed report. *)
Theorem naws_rfc1073 cols rows config :
  0 <= cols < 2 ^ 16 -> 0 <= rows < 2 ^ 16 -> raw_tcp config = false -> send_naws config = true ->
  maybe_build_naws cols rows config = Some (rfc1073 cols rows)
  <-> Forall (fun b => b <> IAC) (be_bytes 2 cols ++ be_bytes 2 rows).
Proof.
  intros Hc Hr Hraw Hn. unfold maybe_build_naws, rfc1073. rewrite Hraw, Hn. cbn [negb orb].
  rewrite <- escape_iac_same.
  assert (Hp : forall e, [IAC; SB; OPT_NAWS; Z.shiftr cols 8; Z.land cols 255; Z.shiftr rows 8; Z.land rows 255] ++ e
               = [IAC; SB; OPT_NAWS] ++ (be_bytes 2 cols ++ be_bytes 2 rows) ++ e)
    by (intros e; by rewrite !be_bytes_2).
  specialize (Hp [IAC; SE]). cbn [app] in Hp. rewrite Hp. generalize (be_bytes 2 cols ++ be_bytes 2 rows).
  intros p. cbn [app]. split; [|by intros ->].
  intros [= H]. apply app_inv_tail in H. done.
Qed.

(** The client never agrees to more than it implements: it answers every request
    with at most one three-byte reply for the same option, offers only window-size
    reports and only when configured, and accepts only echo and, when configured,
    suppress-go-ahead. *)
Theorem negotiate_response_safe command option naws sga :
  let r := negotiate_response command option naws sga in
  (r = [] <-> is_negotiation command = false)
  /\ (is_negotiation command = true -> exists c, r = [IAC; c; option] /\ is_negotiation c = true
        /\ (c = WILL -> command = DO /\ option = OPT_NAWS /\ naws = true)
        /\ (c = DO -> command = WILL
              /\ (option = OPT_ECHO \/ (option = OPT_SUPPRESS_GO_AHEAD /\ sga = true)))).
Proof.
  cbn zeta. unfold negotiate_response, is_negotiation, WILL, WONT, DO, DONT.
  destruct (command =? 251) eqn:E1; [|destruct (command =? 253) eqn:E2; [|destruct (command =? 252) eqn:E3;
    [|destruct (command =? 254) eqn:E4]]]; cbn [orb]; bool_hyps; try subst command; cbn [Z.eqb Pos.eqb orb].
  - destruct (option =? OPT_ECHO) eqn:Eo; [|destruct sga, (option =? OPT_SUPPRESS_GO_AHEAD) eqn:Es];
      cbn [orb andb]; bool_hyps; (split; [done|]); intros _; eexists; split_and!; (done || auto).
  - destruct naws, (option =? OPT_NAWS) eqn:Eo; cbn [andb]; bool_hyps; (split; [done|]); intros _; eexists;
      split_and!; (done || auto).
  - split; [done|]. intros _. eexists. by split_and!.
  - split; [done|]. intros _. eexists. by split_and!.
  - by split.
Qed.

(** ** Witnesses *)

Lemma strip_telnet_commands_inverse_witness :
  strip_telnet_commands [104; 255; 251; 1; 105; 255; 255; 255; 250; 31; 0; 80; 255; 240; 33]
  = ([104; 105; 255; 33], [(251, 1)]).
Proof.
  assert (H : Forall (fun s => segment_ok s = true)
    [SData [104]; SNegotiate WILL 1; SData [105; 255]; SSub [31; 0; 80]; SData [33]])
    by (repeat constructor).
  exact (strip_telnet_commands_inverse _ H).
Defined.

Lemma naws_rfc1073_witness :
  maybe_build_naws 255 24 (mkConfig false Cr false false true false) <> Some (rfc1073 255 24).
Proof.
  intros H. apply naws_rfc1073 in H; [|lia|lia|reflexivity|reflexivity].
  apply (Forall_lookup_1 _ _ 1 255) in H; [|reflexivity]. apply H. reflexivity.
Defined.

(** A command that is cut by a read boundary is not recognised: its bytes become
    visible text. *)
Example strip_read_boundary :
  fst (strip_telnet_commands [255]) ++ fst (strip_telnet_commands [251; 1]) = [255; 251; 1]
  /\ strip_telnet_commands ([255] ++ [251; 1]) = ([], [(251, 1)]).
Proof. split; reflexivity. Qed.
