(* ===== verification/TelnetInput.v ===== *)
(** * Telnet text input

    [src/crates/nyaterm-transport/src/telnet_input.rs]: what is sent and what is echoed
    for the text a user types, independent of negotiation and of binary writes. Escape
    sequences are tracked across writes; with local line editing, text is held until
    Enter. *)

From stdpp Require Import base list numbers.
From Stdlib Require Import ZArith Lia.
From S2P Require Import Prelude RustStr Telnet.

Local Open Scope Z_scope.

Inductive EscapeState :=
| Ground | Escape | Csi | Ss3 | Osc | OscEscape | ControlString | ControlStringEscape.

#[export] Instance EscapeState_eq_dec : EqDecision EscapeState.
Proof. solve_decision. Defined.

(** The transition of [EscapeState::consume] outside [Ground], arm by arm. *)
Definition escape_next (s : EscapeState) (byte : Z) : EscapeState :=
  match s with
  | Escape =>
    if byte =? 91 then Csi
    else if byte =? 79 then Ss3
    else if byte =? 93 then Osc
    else if (byte =? 80) || (byte =? 88) || (byte =? 94) || (byte =? 95) then ControlString
    else if between 32 47 byte then Escape
    else if byte =? 27 then Escape
    else Ground
  | Csi => if between 64 126 byte then Ground else if byte =? 27 then Escape else Csi
  | Ss3 => if between 64 126 byte then Ground else if byte =? 27 then Escape else Ss3
  | Osc => if byte =? 7 then Ground else if byte =? 27 then OscEscape else Osc
  | OscEscape => if byte =? 92 then Ground else if byte =? 27 then OscEscape else Osc
  | ControlString => if byte =? 27 then ControlStringEscape else ControlString
  | ControlStringEscape =>
    if byte =? 92 then Ground else if byte =? 27 then ControlStringEscape else ControlString
  | Ground => if byte =? 27 then Escape else Ground
  end.

(** [EscapeState::consume]: the new state and whether the byte belongs to a sequence. *)
Definition consume (s : EscapeState) (byte : Z) : EscapeState * bool :=
  match s with
  | Ground => if byte =? 27 then (Escape, true) else (Ground, false)
  | Escape | Csi | Ss3 =>
    if (byte <? 32) && negb (byte =? 27) then (Ground, false) else (escape_next s byte, true)
  | _ => (escape_next s byte, true)
  end.

Record TelnetInputState := mkInput { line : bytes; escape : EscapeState }.

Definition input_default : TelnetInputState := mkInput [] Ground.

Definition enter_bytes (mode : TelnetEnterMode) : bytes :=
  match mode with Cr => [13] | Lf => [10] | Crlf => [13; 10] end.

Section Input.
(** Decoding the bytes of one character in the session's character set, if they are
    complete, to its width in terminal cells. *)
Context (char_cells : bytes -> option Z).

(** [(1..=4.min(tail.len())).find_map(..)], [(1, 1)] when nothing decodes. *)
Fixpoint find_char (n : nat) (len : nat) (tail : bytes) : nat * Z :=
  match n with
  | O => (1%nat, 1)
  | S n' => match char_cells (take len tail) with
            | Some w => (len, w)
            | None => find_char n' (S len) tail
            end
  end.

(** The loop of [backspace]: the start and width of the last character; each turn
    moves on by at least one byte. *)
Fixpoint last_char (fuel : nat) (tail : bytes) (index start : nat) (width : Z) : nat * Z :=
  match fuel with
  | O => (start, width)
  | S fuel' =>
    match tail with
    | [] => (start, width)
    | _ =>
      let '(len, cells) := find_char (Nat.min 4 (length tail)) 1 tail in
      last_char fuel' (drop len tail) (index + len) index cells
    end
  end.

Definition erase_cell : bytes := [8; 32; 8].

Definition backspace (s : TelnetInputState) (echo_on : bool) : TelnetInputState * bytes :=
  match line s with
  | [] => (s, [])
  | l =>
    let '(start, width) := last_char (length l) l 0 0 1 in
    (mkInput (take start l) (escape s),
     if echo_on then concat (replicate (Z.to_nat width) erase_cell) else [])
  end.

Definition delete_key : bytes := [27; 91; 51; 126].

Definition starts_with (p data : bytes) : bool := match strip_prefix p data with Some _ => true | None => false end.

(** What one loop turn of [process] does: new state, bytes to send, bytes to echo,
    further bytes to skip. *)
Definition turn (s : TelnetInputState) (byte : Z) (rest : bytes) (mode : TelnetEnterMode)
    (line_edit echo_on : bool) : TelnetInputState * bytes * bytes * nat :=
  if line_edit && bool_decide (escape s = Ground) && starts_with delete_key (byte :: rest) then
    let '(s', e) := backspace s echo_on in (s', [], e, 3%nat)
  else
    let '(esc, consumed) := consume (escape s) byte in
    let s1 := mkInput (line s) esc in
    if consumed then (s1, [byte], [], O)
    else if (byte =? 13) || (byte =? 10) then
      ((if line_edit then mkInput [] esc else s1),
       (if line_edit then line s else []) ++ enter_bytes mode,
       (if echo_on then [13; 10] else []),
       if (byte =? 13) && match rest with 10 :: _ => true | _ => false end then 1%nat else O)
    else if ((byte =? 8) || (byte =? 127)) && line_edit then
      let '(s', e) := backspace s1 echo_on in (s', [], e, O)
    else if (byte <=? 31) || (byte =? 127) then
      (s1, [byte], (if echo_on && (byte =? 9) then [byte] else []), O)
    else
      ((if line_edit then mkInput (line s ++ [byte]) esc else s1),
       (if line_edit then [] else [byte]),
       (if echo_on then [byte] else []), O).

Fixpoint process_loop (skip : nat) (data : bytes) (s : TelnetInputState) (mode : TelnetEnterMode)
    (line_edit echo_on : bool) : TelnetInputState * bytes * bytes :=
  match data with
  | [] => (s, [], [])
  | byte :: rest =>
    match skip with
    | S k => process_loop k rest s mode line_edit echo_on
    | O =>
      let '(s1, send, echo, k) := turn s byte rest mode line_edit echo_on in
      let '(s2, send', echo') := process_loop k rest s1 mode line_edit echo_on in
      (s2, send ++ send', echo ++ echo')
    end
  end.

Definition process (s : TelnetInputState) (data : bytes) (config : TelnetSessionConfig)
    (line_edit echo_on : bool) : TelnetInputState * bytes * bytes :=
  let '(s', send, echo) := process_loop 0 data s (enter_mode config) line_edit echo_on in
  (s', escape_telnet_application_data send (raw_tcp config), echo).

Definition prepare (s : TelnetInputState) (data : bytes) (config : TelnetSessionConfig) :=
  process s data config (local_line_edit config) (local_echo config).

Definition normalize_telnet_input (data : bytes) (config : TelnetSessionConfig) : bytes :=
  snd (fst (process input_default data config false false)).

Definition telnet_auto_login_line_bytes (value : bytes) (config : TelnetSessionConfig) : bytes :=
  normalize_telnet_input (value ++ [13]) config.

(** ** Line editing *)

Definition printable (b : Z) : Prop := 32 <= b < 256 /\ b <> 127.

Lemma printable_tests b : printable b ->
  (b =? 27) = false /\ (b =? 13) = false /\ (b =? 10) = false /\ (b =? 8) = false
  /\ (b =? 127) = false /\ (b <=? 31) = false.
Proof. intros [??]. rewrite !Z.eqb_neq, Z.leb_gt. lia. Qed.

Lemma turn_printable b rest l mode le echo :
  printable b ->
  turn (mkInput l Ground) b rest mode le echo
  = (mkInput (if le then l ++ [b] else l) Ground, if le then [] else [b], if echo then [b] else [], O).
Proof.
  intros (H1 & H2 & H3 & H4 & H5 & H6)%printable_tests. unfold turn.
  assert (Hd : starts_with delete_key (b :: rest) = false).
  { unfold starts_with, delete_key. cbn [strip_prefix]. rewrite Z.eqb_sym, H1. done. }
  rewrite Hd, andb_false_r. cbn [escape consume]. rewrite H1. cbn [line].
  rewrite H2, H3, H4, H5, H6. cbn [orb andb]. by destruct le.
Qed.

Lemma process_printable d rest l mode le echo :
  Forall printable d ->
  process_loop 0 (d ++ rest) (mkInput l Ground) mode le echo
  = let '(s, send, e) := process_loop 0 rest (mkInput (if le then l ++ d else l) Ground) mode le echo in
    (s, (if le then [] else d) ++ send, (if echo then d else []) ++ e).
Proof.
  intros Hd. revert l. induction Hd as [|b d Hb _ IH]; intros l; cbn [app].
  - rewrite app_nil_r. replace (if le then l else l) with l by by destruct le.
    destruct (process_loop _ _ _ _ _ _) as [[s x] y]. by destruct le, echo.
  - cbn [process_loop]. rewrite turn_printable by done.
    replace (process_loop 0 (d ++ rest) _ _ _ _) with
      (process_loop 0 (d ++ rest) (mkInput (if le then l ++ [b] else l) Ground) mode le echo) by done.
    rewrite IH. destruct le; rewrite <- ?app_assoc; cbn [app];
      destruct (process_loop 0 rest _ _ _ _) as [[s x] y]; by destruct echo.
Qed.

Lemma turn_enter l mode echo :
  turn (mkInput l Ground) 13 [] mode true echo
  = (mkInput [] Ground, l ++ enter_bytes mode, if echo then [13; 10] else [], O).
Proof. reflexivity. Qed.

(** With local line editing nothing of a typed line is sent before Enter: printable
    text only extends the held line (and is echoed if echo is on), and Enter sends the
    held line followed by the configured line ending and empties it. *)
Theorem line_edit_sends_on_enter l d config echo_on :
  Forall printable d ->
  process (mkInput l Ground) d config true echo_on
    = (mkInput (l ++ d) Ground, [], if echo_on then d else [])
  /\ process (mkInput l Ground) (d ++ [13]) config true echo_on
    = (mkInput [] Ground,
       escape_telnet_application_data (l ++ d ++ enter_bytes (enter_mode config)) (raw_tcp config),
       (if echo_on then d else []) ++ (if echo_on then [13; 10] else [])).
Proof.
  intros Hd. unfold process. split.
  - pose proof (process_printable d [] l (enter_mode config) true echo_on Hd) as H.
    rewrite app_nil_r in H. rewrite H. cbn [process_loop]. rewrite !app_nil_r.
    unfold escape_telnet_application_data. by destruct (raw_tcp config), echo_on.
  - rewrite process_printable by done. cbn [process_loop]. rewrite turn_enter. by rewrite !app_nil_r, <- app_assoc.
Qed.

(** ** Without line editing *)

Definition not_newline (b : Z) : Prop := b <> 13 /\ b <> 10.

Lemma turn_raw s b rest mode echo :
  not_newline b ->
  exists esc e, turn s b rest mode false echo = (mkInput (line s) esc, [b], e, O).
Proof.
  intros [H1 H2]. unfold turn. cbn [andb]. destruct (consume (escape s) b) as [esc c].
  apply Z.eqb_neq in H1, H2. rewrite H1, H2, andb_false_r. cbn [orb].
  destruct c; [by eexists _, _|]. destruct (_ || _); by eexists _, _.
Qed.

(** Without line editing the input is transparent: whatever the escape state, every
    byte other than a line ending is sent unchanged and in order (IAC doubled unless
    raw), and no line is held back. *)
Theorem character_mode_transparent s d config echo_on :
  Forall not_newline d ->
  exists esc e, process s d config false echo_on
    = (mkInput (line s) esc, escape_telnet_application_data d (raw_tcp config), e).
Proof.
  intros Hd. unfold process.
  assert (H : exists esc e, process_loop 0 d s (enter_mode config) false echo_on = (mkInput (line s) esc, d, e)).
  { revert s. induction Hd as [|b d Hb _ IH]; intros s; cbn [process_loop].
    - exists (escape s), []. by destruct s.
    - destruct (turn_raw s b d (enter_mode config) echo_on Hb) as (esc & e & ->).
      destruct (IH (mkInput (line s) esc)) as (esc' & e' & ->). by eexists _, _. }
  destruct H as (esc & e & ->). by eexists _, _.
Qed.

Lemma turn_rest s b rest1 rest2 mode echo :
  (b <> 13 \/ forall r, rest2 <> 10 :: r) -> rest1 = [] ->
  turn s b rest2 mode false echo = turn s b rest1 mode false echo.
Proof.
  intros Hb ->. unfold turn. cbn [andb]. destruct (consume (escape s) b) as [esc []]; [done|].
  destruct (b =? 13) eqn:E; [|done]. apply Z.eqb_eq in E as ->. destruct Hb as [|Hb]; [done|]. cbn [andb].
  destruct rest2 as [|[|p|p] r]; try done.
  repeat (destruct p as [p|p|]; try done). by destruct (Hb r).
Qed.

Lemma turn_skip s b rest mode echo s1 x e k :
  turn s b rest mode false echo = (s1, x, e, k) -> k = O \/ (k = 1%nat /\ exists r, rest = 10 :: r).
Proof.
  unfold turn. cbn [andb]. destruct (consume (escape s) b) as [esc []]; [intros [= _ _ _ <-]; by left|].
  rewrite andb_false_r. destruct (_ || _).
  - intros [= _ _ _ <-]. destruct (b =? 13); [|by left]. cbn [andb].
    destruct rest as [|[|p|p] r]; try (by left).
    repeat (destruct p as [p|p|]; try (by left)). right. by split; [|exists r].
  - destruct (_ || _); intros [= _ _ _ <-]; by left.
Qed.

Lemma turn_app s b a rest mode echo :
  a <> [] -> turn s b (a ++ rest) mode false echo = turn s b a mode false echo.
Proof. intros Ha. destruct a as [|x a]; [done|]. unfold turn. cbn [andb app]. done. Qed.

(** Both parts of a split line ending. *)
Definition splits_crlf (a b : bytes) : Prop := exists a' b', a = a' ++ [13] /\ b = 10 :: b'.

Lemma process_loop_app a b s mode echo :
  ~ splits_crlf a b ->
  forall skip, (skip <= length a)%nat ->
  process_loop skip (a ++ b) s mode false echo
  = let '(s1, x1, e1) := process_loop skip a s mode false echo in
    let '(s2, x2, e2) := process_loop 0 b s1 mode false echo in (s2, x1 ++ x2, e1 ++ e2).
Proof.
  revert s. induction a as [|y a IH]; intros s Hno skip Hk; cbn [app].
  - replace skip with O by (cbn in Hk; lia). cbn [process_loop].
    by destruct (process_loop 0 b s mode false echo) as [[? ?] ?].
  - assert (Hno' : ~ splits_crlf a b).
    { intros (a' & b' & -> & ->). apply Hno. by exists (y :: a'), b'. }
    destruct skip as [|k]; cbn [process_loop].
    + destruct a as [|y2 a].
      * rewrite (turn_rest s y [] (([] : bytes) ++ b)); [|destruct (decide (y = 13)) as [->|]; [right|by left]|done].
        2:{ intros r Hr. apply Hno. by exists [], r. }
        destruct (turn s y [] mode false echo) as [[[s1 x] e] k] eqn:Ht.
        destruct (turn_skip _ _ _ _ _ _ _ _ _ Ht) as [->|[_ [r ?]]]; [|done].
        cbn [app process_loop]. destruct (process_loop 0 b s1 mode false echo) as [[? ?] ?].
        by rewrite !app_nil_r.
      * rewrite turn_app by done. destruct (turn s y (y2 :: a) mode false echo) as [[[s1 x] e] k] eqn:Ht.
        rewrite IH; [|done|destruct (turn_skip _ _ _ _ _ _ _ _ _ Ht) as [->|[-> _]]; cbn; lia].
        destruct (process_loop k (y2 :: a) s1 mode false echo) as [[s2 x2] e2].
        destruct (process_loop 0 b s2 mode false echo) as [[? ?] ?]. by rewrite <- !app_assoc.
    + cbn [length] in Hk. destruct a as [|y2 a]; [|apply IH; [done|cbn in *; lia]].
      cbn [app] in *. replace k with O by (cbn in Hk; lia). cbn [process_loop].
      by destruct (process_loop 0 b s mode false echo) as [[? ?] ?].
Qed.

Lemma escape_iac_app a b : escape_iac (a ++ b) = escape_iac a ++ escape_iac b.
Proof. induction a as [|x a IH]; cbn [escape_iac app]; [done|]. destruct (x =? IAC); by rewrite IH. Qed.

(** Without line editing it does not matter how the input is cut into writes: as long
    as no CR LF pair is torn apart, processing two writes one after the other sends and
    echoes the same bytes and leaves the same state as processing them at once, also in
    the middle of an escape sequence. *)
Theorem process_write_boundaries s a b config echo_on :
  ~ splits_crlf a b ->
  process s (a ++ b) config false echo_on
  = let '(s1, x1, e1) := process s a config false echo_on in
    let '(s2, x2, e2) := process s1 b config false echo_on in (s2, x1 ++ x2, e1 ++ e2).
Proof.
  intros Hno. unfold process. rewrite process_loop_app by (done || lia).
  destruct (process_loop 0 a s _ _ _) as [[s1 x1] e1]. destruct (process_loop 0 b s1 _ _ _) as [[s2 x2] e2].
  unfold escape_telnet_application_data. by destruct (raw_tcp config); rewrite ?escape_iac_app.
Qed.

(** ** Erasing *)

(** The bytes [c] are one character of width [w]: they decode and no shorter start does. *)
Definition char_ok (c : bytes) (w : Z) : Prop :=
  (0 < length c <= 4)%nat /\ char_cells c = Some w
  /\ forall k, (0 < k < length c)%nat -> char_cells (take k c) = None.

Lemma find_char_ok c w rest n len :
  char_ok c w -> (0 < len <= length c)%nat -> (length c < len + n)%nat ->
  find_char n len (c ++ rest) = (length c, w).
Proof.
  intros (Hlen & Hc & Hp). revert len. induction n as [|n IH]; intros len Hl Hn; [lia|]. cbn [find_char].
  rewrite take_app_le by lia. destruct (decide (len = length c)) as [->|Hne].
  - by rewrite take_ge, Hc by lia.
  - rewrite Hp by lia. apply IH; lia.
Qed.

Lemma last_char_ok cs c w fuel index start width :
  Forall (fun x => exists v, char_ok x v) cs -> char_ok c w -> (length (concat cs ++ c) <= fuel)%nat ->
  last_char fuel (concat cs ++ c) index start width = ((index + length (concat cs))%nat, w).
Proof.
  intros Hcs Hc. revert fuel index start width. induction Hcs as [|x cs [v Hx] _ IH]; intros fuel index start width Hf.
  - cbn [concat app] in *. destruct Hc as [Hlen Hc']. destruct fuel as [|fuel]; [lia|].
    pose proof (find_char_ok c w [] (Nat.min 4 (length c)) 1 (conj Hlen Hc')) as H.
    rewrite app_nil_r in H. destruct c as [|b c]; [cbn in Hlen; lia|]. cbn [last_char].
    rewrite H by lia. rewrite drop_all. cbn [concat length]. rewrite Nat.add_0_r. by destruct fuel.
  - cbn [concat] in *. rewrite <- app_assoc in *. pose proof Hx as [Hlen _].
    destruct fuel as [|fuel]; [rewrite length_app in Hf; lia|].
    assert (H : forall n, (length x < 1 + n)%nat -> find_char n 1 (x ++ concat cs ++ c) = (length x, v))
      by (intros n Hn; apply find_char_ok; [done|lia|lia]).
    destruct x as [|b x]; [cbn in Hlen; lia|]. rewrite length_app in Hf. cbn [last_char app] in *.
    rewrite H by (cbn [length] in *; rewrite length_app; lia).
    cbn [drop length] in *. rewrite drop_app_length, IH by lia.
    rewrite length_app. f_equal. lia.
Qed.

(** Backspace erases exactly one character of the held line, however many bytes it
    has in the session's character set, and one cell on screen per column it occupies. *)
Theorem backspace_erases_last_char cs c w esc :
  Forall (fun x => exists v, char_ok x v) cs -> char_ok c w ->
  backspace (mkInput (concat cs ++ c) esc) true
  = (mkInput (concat cs) esc, concat (replicate (Z.to_nat w) erase_cell)).
Proof.
  intros Hcs Hc. unfold backspace. cbn [line escape].
  destruct (concat cs ++ c) as [|b l] eqn:E.
  - destruct Hc as [Hlen _]. apply (f_equal length) in E. rewrite length_app in E. cbn in E. lia.
  - rewrite <- E, last_char_ok with (w := w) by done. cbn [Nat.add]. by rewrite take_app_length.
Qed.

End Input.

(** ** Witnesses *)

Definition demo_config : TelnetSessionConfig := mkConfig false Crlf true true true false.

(** UTF-8 with every character one cell wide. *)
Definition utf8_cells (c : bytes) : option Z :=
  match c with [] => None | _ => if utf8_valid c then Some 1 else None end.

Lemma line_edit_sends_on_enter_witness :
  process utf8_cells (mkInput [97] Ground) ([98; 99] ++ [13]) demo_config true true
  = (mkInput [] Ground, [97; 98; 99; 13; 10], [98; 99; 13; 10]).
Proof.
  assert (H : Forall printable [98; 99]) by (repeat constructor; lia).
  exact (proj2 (line_edit_sends_on_enter utf8_cells [97] [98; 99] demo_config true H)).
Defined.

Lemma character_mode_transparent_witness :
  exists esc e, process utf8_cells input_default [97; 255; 27] demo_config false true
    = (mkInput [] esc, [97; 255; 255; 27], e).
Proof.
  assert (H : Forall not_newline [97; 255; 27]) by (repeat constructor; lia).
  exact (character_mode_transparent utf8_cells input_default [97; 255; 27] demo_config true H).
Defined.

Lemma process_write_boundaries_witness :
  process utf8_cells input_default ([27; 91] ++ [65; 13]) demo_config false false
  = (mkInput [] Ground, [27; 91] ++ [65; 13; 10], [] ++ []).
Proof.
  assert (H : ~ splits_crlf [27; 91] [65; 13]) by (intros (a' & b' & H & H'); discriminate H').
  exact (process_write_boundaries utf8_cells input_default [27; 91] [65; 13] demo_config false H).
Defined.

Lemma backspace_erases_last_char_witness :
  backspace utf8_cells (mkInput ([97] ++ [195; 169]) Ground) true = (mkInput [97] Ground, [8; 32; 8]).
Proof.
  assert (H1 : Forall (fun x => exists v, char_ok utf8_cells x v) [[97]]).
  { constructor; [|constructor]. exists 1. split_and!; [cbn; lia|cbn; lia|reflexivity|]. cbn. lia. }
  assert (H2 : char_ok utf8_cells [195; 169] 1).
  { split_and!; [cbn; lia|cbn; lia|reflexivity|]. cbn. intros k Hk. by replace k with 1%nat by lia. }
  exact (backspace_erases_last_char utf8_cells [[97]] [195; 169] 1 Ground H1 H2).
Defined.

