(* ===== verification/TelnetLogin.v ===== *)
(** * Telnet auto-login

    [src/crates/nyaterm-transport/src/telnet_prompts.rs] and [TelnetAutoLoginState] of
    [transport_io.rs]: recognising login prompts in what the server prints and answering
    them with the stored credentials. The regular expressions (crate [regex]) and the
    Unicode lowercase tables are parameters; slicing a string off a character boundary
    panics. *)

From stdpp Require Import base option list numbers strings.
From Stdlib Require Import ZArith Lia.
From S2P Require Import Prelude RustStr RustText Telnet TelnetInput.

Local Open Scope Z_scope.
Local Open Scope rust_scope.

(** ** Prompt text *)

(** [value.chars().count()] and [value.chars().skip(k)]. *)
Fixpoint count_chars (s : bytes) : nat :=
  match s with [] => O | b :: s' => ((if is_cont b then 0 else 1) + count_chars s')%nat end.

Fixpoint skip_chars (k : nat) (s : bytes) : bytes :=
  match s with
  | [] => []
  | b :: s' => if is_cont b then skip_chars k s' else match k with O => s | S k' => skip_chars k' s' end
  end.

Definition last_chars (value : bytes) (max_chars : nat) : bytes :=
  let len := count_chars value in
  if (len <=? max_chars)%nat then value else skip_chars (len - max_chars) value.

Definition last_non_empty_line (value : bytes) : bytes :=
  match List.find (fun line => match trim line with [] => false | _ => true end) (rev (lines value)) with
  | Some line => trim line
  | None => []
  end.

(** [s[i..]]. *)
Definition slice_from (s : bytes) (i : nat) : outcome bytes :=
  if (i <=? length s)%nat && match drop i s with b :: _ => negb (is_cont b) | [] => true end
  then Ret (drop i s) else Panic.

(** [s.find(p)]. *)
Fixpoint find_str (p s : bytes) : option nat :=
  match strip_prefix p s with
  | Some _ => Some O
  | None => match s with [] => None | _ :: s' => S <$> find_str p s' end
  end.

Definition KEYWORDS : list bytes :=
  bs <$> ["user name"; "username"; "login"; "logon"; "account"; "userid"; "user id"; "user"; "password"; "passwd";
          "passcode"; "passphrase"; "pin"; "用户名"; "帐号"; "账号"; "登录"; "登入"; "密码"; "口令"]%string.

Definition push_prompt_candidate (prompts : list bytes) (prompt : bytes) : list bytes :=
  if bool_decide (prompt <> []) && negb (bool_decide (prompt ∈ prompts)) then prompts ++ [prompt] else prompts.

(** The [while let] loop over the occurrences of one keyword; each is non-empty, so the
    length of [lower] is enough fuel. *)
Fixpoint suffix_loop (fuel : nat) (lower prompt keyword : bytes) (search_start : nat) (prompts : list bytes)
    : outcome (list bytes) :=
  match fuel with
  | O => Ret prompts
  | S fuel' =>
    tail <-! slice_from lower search_start;
    match find_str keyword tail with
    | None => Ret prompts
    | Some offset =>
      let start := (search_start + offset)%nat in
      suffix <-! slice_from prompt start;
      let prompts' := push_prompt_candidate prompts (trim suffix) in
      let next := (start + length keyword)%nat in
      if (length lower <=? next)%nat then Ret prompts' else suffix_loop fuel' lower prompt keyword next prompts'
    end
  end.

(** [strip_telnet_auto_login_control_sequences]: where the loop is in the text. *)
Inductive strip_mode := SNormal | SEscape | SCsi | SChar (n : nat) (keep : bool).

(** [!ch.is_control()], or one of the kept controls, for the character starting with
    [b], the next byte being [next]. *)
Definition keeps_char (b next : Z) : bool :=
  if b <? 128 then (32 <=? b) && negb (b =? 127) || (b =? 13) || (b =? 10) || (b =? 9)
  else negb ((b =? 194) && between 128 159 next).

Fixpoint strip_controls (m : strip_mode) (text : bytes) : outcome bytes :=
  match text with
  | [] => Ret []
  | b :: rest =>
    match m with
    | SNormal =>
      if b =? 27 then strip_controls SEscape rest
      else if is_cont b then Panic
      else let keep := keeps_char b (hd 0 rest) in
           r <-! strip_controls (match char_len b with S (S n) => SChar n keep | _ => SNormal end) rest;
           Ret (if keep then b :: r else r)
    | SEscape => if b =? 91 then strip_controls SCsi rest else strip_controls SNormal rest
    | SCsi => if between 64 126 b then strip_controls SNormal rest else strip_controls SCsi rest
    | SChar n keep =>
      r <-! strip_controls (match n with S n' => SChar n' keep | O => SNormal end) rest;
      Ret (if keep then b :: r else r)
    end
  end.
Definition strip_telnet_auto_login_control_sequences (text : bytes) : outcome bytes := strip_controls SNormal text.

(** [s.replace('\r', "\n")]. *)
Definition cr_to_lf (s : bytes) : bytes := (fun b => if b =? 13 then 10 else b) <$> s.

(** ** State *)

Definition TELNET_AUTO_LOGIN_TAIL_CHARS : nat := 2048.
Definition TELNET_AUTO_LOGIN_PROMPT_WINDOW_CHARS : nat := 320.

(** [Regex::is_match]. *)
Definition Regex : Type := bytes -> bool.

Record TelnetAutoLoginConfig := mkLoginConfig
  { enabled : bool; send_wake_enter : bool; timeout_ms : Z;
    username_prompt_regex : option bytes; password_prompt_regex : option bytes;
    success_prompt_regex : option bytes; failure_prompt_regex : option bytes; max_retries : Z }.

Inductive TelnetAutoLoginAction := Send (payload : bytes) | Complete | Disable.

(** The start instant is not kept here: the time since it is an argument of the handler. *)
Record TelnetAutoLoginState := mkLogin
  { username : bytes; password : option bytes; tail : bytes; sent_wake : bool; sent_username : bool;
    sent_password : bool; disabled : bool; completed : bool; retries : Z; username_regex : option Regex;
    password_regex : option Regex; success_regex : option Regex; failure_regex : option Regex }.

Definition with_progress (s : TelnetAutoLoginState) (tl : bytes) (wake user pass dis comp : bool) (n : Z)
    : TelnetAutoLoginState :=
  mkLogin (username s) (password s) tl wake user pass dis comp n (username_regex s) (password_regex s)
    (success_regex s) (failure_regex s).

(** ** Operations *)

Section Login.
(** Character widths (unused without line editing), lowercase, compiling a pattern, and
    the built-in patterns. *)
Context (char_cells : bytes -> option Z) (to_lowercase : bytes -> bytes) (regex_new : bytes -> option Regex).
Context (default_username_regex last_login_regex default_password_regex default_wake_regex
         default_success_regex default_failure_regex : Regex).

Definition push_prompt_suffix_candidates (prompts : list bytes) (prompt : bytes) : outcome (list bytes) :=
  let lower := to_lowercase prompt in
  foldr (fun keyword (k : list bytes -> outcome (list bytes)) ps =>
           ps' <-! suffix_loop (S (length lower)) lower prompt keyword 0 ps; k ps')
        (fun ps => Ret ps) KEYWORDS prompts.

(** The loop over the lines of one source. *)
Fixpoint candidates_loop (ls : list bytes) (prompts : list bytes) : outcome (list bytes) :=
  match ls with
  | [] => Ret prompts
  | line :: ls' =>
    let prompt := trim line in
    ps <-! push_prompt_suffix_candidates (push_prompt_candidate prompts prompt) prompt;
    candidates_loop ls' ps
  end.

Definition prompt_candidates (window current_input : bytes) : outcome (list bytes) :=
  ps <-! candidates_loop (lines window) [];
  candidates_loop (lines current_input) ps.

Definition compile_optional_regex (pattern : option bytes) : option Regex :=
  p ← pattern;
  match trim p with [] => None | t => regex_new t end.

Definition new_login (user : bytes) (pass : option bytes) (c : TelnetAutoLoginConfig) : option TelnetAutoLoginState :=
  if negb (enabled c) then None
  else
    let u := trim user in
    let p := match pass with Some [] => None | _ => pass end in
    if match u, p with [], None => true | _, _ => false end then None
    else Some (mkLogin u p [] false false false false false 0
                 (compile_optional_regex (username_prompt_regex c)) (compile_optional_regex (password_prompt_regex c))
                 (compile_optional_regex (success_prompt_regex c)) (compile_optional_regex (failure_prompt_regex c))).

(** [regex.as_ref().map_or_else(|| default.is_match(t), |r| r.is_match(t))]. *)
Definition matches_or (r : option Regex) (fallback : Regex) (t : bytes) : bool :=
  match r with Some r => r t | None => fallback t end.

Definition matches_username_prompt (s : TelnetAutoLoginState) (prompts : list bytes) (last_line : bytes) : bool :=
  if last_login_regex last_line then false
  else existsb (matches_or (username_regex s) default_username_regex) prompts.

Definition matches_password_prompt (s : TelnetAutoLoginState) (prompts : list bytes) : bool :=
  existsb (matches_or (password_regex s) default_password_regex) prompts.

Definition matches_success (s : TelnetAutoLoginState) (last_line : bytes) : bool :=
  matches_or (success_regex s) default_success_regex last_line.

Definition matches_failure (s : TelnetAutoLoginState) (text last_line : bytes) : bool :=
  matches_or (failure_regex s) default_failure_regex text || matches_or (failure_regex s) default_failure_regex last_line.

Definition push_tail (s : TelnetAutoLoginState) (text : bytes) : TelnetAutoLoginState :=
  with_progress s (last_chars (tail s ++ text) TELNET_AUTO_LOGIN_TAIL_CHARS) (sent_wake s) (sent_username s)
    (sent_password s) (disabled s) (completed s) (retries s).

Definition handle_user_input (s : TelnetAutoLoginState) (automated : bool)
    : TelnetAutoLoginState * option TelnetAutoLoginAction :=
  if automated || disabled s || completed s then (s, None)
  else (with_progress s (tail s) (sent_wake s) (sent_username s) (sent_password s) true (completed s) (retries s),
        Some Disable).

(** The part of [handle_visible_output] after the prompts are known: answering them. *)
Definition answer (s : TelnetAutoLoginState) (config : TelnetSessionConfig) (c : TelnetAutoLoginConfig)
    (window last_line : bytes) (prompts : list bytes) : TelnetAutoLoginState * list TelnetAutoLoginAction :=
  if matches_failure s window last_line then
    if retries s <? max_retries c
    then (with_progress s [] (sent_wake s) false false (disabled s) (completed s) (retries s + 1), [])
    else (with_progress s (tail s) (sent_wake s) (sent_username s) (sent_password s) true (completed s) (retries s),
          [Disable])
  else
    let line v := Send (telnet_auto_login_line_bytes char_cells v config) in
    let wake := send_wake_enter c && negb (sent_wake s) && default_wake_regex window in
    let user := negb (sent_username s) && negb (bool_decide (username s = []))
                && matches_username_prompt s prompts last_line in
    let pass := match password s with
                | Some _ => negb (sent_password s) && matches_password_prompt s prompts
                | None => false
                end in
    let su := sent_username s || user in
    let sp := sent_password s || pass in
    let comp := (su || sp) && matches_success s last_line in
    (with_progress s (tail s) (sent_wake s || wake) su sp (disabled s) (completed s || comp) (retries s),
     (if wake then [line []] else []) ++ (if user then [line (username s)] else [])
     ++ (if pass then [line (default [] (password s))] else []) ++ (if comp then [Complete] else [])).

Definition handle_visible_output (s : TelnetAutoLoginState) (visible : bytes) (elapsed : Z)
    (config : TelnetSessionConfig) (c : TelnetAutoLoginConfig)
    : outcome (TelnetAutoLoginState * list TelnetAutoLoginAction) :=
  if disabled s || completed s then Ret (s, [])
  else if timeout_ms c <? elapsed then
    Ret (with_progress s (tail s) (sent_wake s) (sent_username s) (sent_password s) true (completed s) (retries s),
         [Disable])
  else
    let text := from_utf8_lossy visible in
    let s1 := push_tail s text in
    clean <-! strip_telnet_auto_login_control_sequences (tail s1);
    clean_input <-! strip_telnet_auto_login_control_sequences text;
    let normalized := cr_to_lf clean in
    let window := last_chars normalized TELNET_AUTO_LOGIN_PROMPT_WINDOW_CHARS in
    let last_line := last_non_empty_line normalized in
    prompts <-! prompt_candidates window (cr_to_lf clean_input);
    Ret (answer s1 config c window last_line prompts).

(** A session: what the server prints, with the time since the start, and what the user
    types. *)
Inductive LoginEvent := Visible (data : bytes) (elapsed : Z) | UserInput (automated : bool).

Fixpoint run_login (config : TelnetSessionConfig) (c : TelnetAutoLoginConfig) (s : TelnetAutoLoginState)
    (evs : list LoginEvent) : outcome (TelnetAutoLoginState * list TelnetAutoLoginAction) :=
  match evs with
  | [] => Ret (s, [])
  | Visible data elapsed :: evs' =>
    r <-! handle_visible_output s data elapsed config c;
    q <-! run_login config c (fst r) evs';
    Ret (fst q, snd r ++ snd q)
  | UserInput automated :: evs' =>
    let r := handle_user_input s automated in
    q <-! run_login config c (fst r) evs';
    Ret (fst q, match snd r with Some a => [a] | None => [] end ++ snd q)
  end.

End Login.

(** ** Plain ASCII text is handled without panics *)

Definition ascii (b : Z) : Prop := 0 <= b < 128.

Lemma Forall_strip_cr (P : Z -> Prop) s : Forall P s -> Forall P (default s (strip_suffix [13] s)).
Proof.
  intros Hs. unfold strip_suffix. destruct (strip_prefix (rev [13]) (rev s)) as [r|] eqn:E; [|done]. cbn.
  apply strip_prefix_Some in E. apply (f_equal (@rev Z)) in E. rewrite rev_involutive, rev_app_distr in E.
  rewrite E in Hs. by apply Forall_app in Hs as [? _].
Qed.

Lemma Forall_lines (P : Z -> Prop) s : Forall P s -> Forall (Forall P) (lines s).
Proof.
  unfold lines. assert (H : forall cur, Forall P cur -> Forall P s -> Forall (Forall P) (lines_loop cur s)); [|by auto].
  induction s as [|b s IH]; intros cur Hc Hs; cbn [lines_loop].
  - destruct cur; [constructor|]. constructor; [done|constructor].
  - apply Forall_cons_1 in Hs as [Hb Hs]. destruct (b =? 10).
    + constructor; [by apply Forall_strip_cr|]. by apply IH.
    + apply IH; [|done]. apply Forall_app. by repeat constructor.
Qed.

Lemma Forall_last_chars (P : Z -> Prop) s n : Forall P s -> Forall P (last_chars s n).
Proof.
  intros Hs. unfold last_chars. case_match; [done|]. generalize (count_chars s - n)%nat as k. clear -Hs.
  induction Hs as [|b s Hb Hs IH]; intros k; cbn; [done|]. destruct (is_cont b); [done|].
  destruct k; [by constructor|done].
Qed.

Lemma Forall_cr_to_lf s : Forall ascii s -> Forall ascii (cr_to_lf s).
Proof.
  intros Hs. unfold cr_to_lf. apply Forall_fmap. eapply Forall_impl; [exact Hs|]. intros b Hb. cbn.
  destruct (b =? 13); [by unfold ascii|done].
Qed.

Lemma ascii_boundary s i : Forall ascii s -> (i <= length s)%nat -> slice_from s i = Ret (drop i s).
Proof.
  intros Hs Hi. unfold slice_from. rewrite (proj2 (Nat.leb_le _ _)) by done. cbn [andb].
  apply (Forall_drop _ i) in Hs. destruct Hs as [|b l Hb Hl]; [done|]. unfold ascii in Hb.
  unfold is_cont. by rewrite (proj2 (Z.leb_gt 128 b)) by lia.
Qed.

Lemma ascii_lossy s : Forall ascii s -> from_utf8_lossy s = s.
Proof.
  intros Hs. apply from_utf8_lossy_valid, utf8_valid_ascii. eapply Forall_impl; [exact Hs|]. unfold ascii. lia.
Qed.

Lemma strip_controls_ascii text m :
  Forall ascii text -> m = SNormal \/ m = SEscape \/ m = SCsi ->
  exists r, strip_controls m text = Ret r /\ Forall ascii r.
Proof.
  intros Ht. revert m. induction Ht as [|b t Hb Ht IH]; intros m Hm; cbn [strip_controls]; [by eexists|].
  destruct Hm as [->|[->| ->]].
  - destruct (b =? 27); [apply IH; auto|]. pose proof Hb as Hb'. unfold ascii in Hb.
    unfold is_cont. rewrite (proj2 (Z.leb_gt 128 b)) by lia. cbn [andb].
    unfold char_len. rewrite (proj2 (Z.ltb_lt b 128)) by lia.
    destruct (IH SNormal) as (r & -> & Hr); [by left|]. cbn [obind]. eexists. split; [done|].
    case_match; [by constructor|done].
  - destruct (b =? 91); apply IH; auto.
  - destruct (between 64 126 b); apply IH; auto.
Qed.

Lemma find_str_bound p s n : find_str p s = Some n -> (n + length p <= length s)%nat.
Proof.
  revert n. induction s as [|b s IH]; intros n; cbn [find_str].
  - destruct (strip_prefix p []) as [r|] eqn:E; [|done]. intros [= <-].
    apply strip_prefix_Some, (f_equal length) in E. rewrite length_app in E. cbn in *. lia.
  - destruct (strip_prefix p (b :: s)) as [r|] eqn:E.
    + intros [= <-]. apply strip_prefix_Some, (f_equal length) in E. rewrite length_app in E. cbn in *. lia.
    + destruct (find_str p s) as [k|]; [|done]. intros [= <-]. specialize (IH k eq_refl). cbn. lia.
Qed.

Lemma suffix_loop_ascii fuel lower prompt keyword start ps :
  Forall ascii lower -> Forall ascii prompt -> length lower = length prompt -> (start <= length lower)%nat ->
  exists ps', suffix_loop fuel lower prompt keyword start ps = Ret ps'.
Proof.
  intros Hl Hp Hlen. revert start ps. induction fuel as [|fuel IH]; intros start ps Hs; cbn [suffix_loop]; [by eexists|].
  rewrite ascii_boundary by done. cbn [obind].
  destruct (find_str keyword (drop start lower)) as [n|] eqn:E; [|by eexists].
  apply find_str_bound in E. rewrite length_drop in E. rewrite ascii_boundary by (done || lia). cbn [obind].
  destruct (_ <=? _)%nat eqn:En; [by eexists|]. apply IH. lia.
Qed.

(** Lowercase keeps ASCII text ASCII and changes no lengths in it. *)
Definition ascii_lowercase (to_lowercase : bytes -> bytes) : Prop :=
  forall s, Forall ascii s -> Forall ascii (to_lowercase s) /\ length (to_lowercase s) = length s.

Lemma suffix_candidates_ascii lc ps prompt :
  ascii_lowercase lc -> Forall ascii prompt -> exists ps', push_prompt_suffix_candidates lc ps prompt = Ret ps'.
Proof.
  intros Hlc Hp. destruct (Hlc prompt Hp) as [Hl Hlen]. unfold push_prompt_suffix_candidates. revert ps.
  induction KEYWORDS as [|k ks IH]; intros ps; cbn [foldr]; [by eexists|].
  destruct (suffix_loop_ascii (S (length (lc prompt))) (lc prompt) prompt k 0 ps) as [ps' ->]; [done..|lia|].
  cbn [obind]. apply IH.
Qed.

Lemma candidates_ascii lc ls ps :
  ascii_lowercase lc -> Forall (Forall ascii) ls -> exists ps', candidates_loop lc ls ps = Ret ps'.
Proof.
  intros Hlc Hls. revert ps. induction Hls as [|l ls Hl Hls IH]; intros ps; cbn [candidates_loop]; [by eexists|].
  destruct (suffix_candidates_ascii lc (push_prompt_candidate ps (trim l)) (trim l) Hlc) as [ps' ->];
    [by apply Forall_trim|]. cbn [obind]. apply IH.
Qed.

Lemma prompt_candidates_ascii lc window input :
  ascii_lowercase lc -> Forall ascii window -> Forall ascii input ->
  exists ps, prompt_candidates lc window input = Ret ps.
Proof.
  intros Hlc Hw Hi. unfold prompt_candidates.
  destruct (candidates_ascii lc (lines window) [] Hlc) as [ps ->]; [by apply Forall_lines|]. cbn [obind].
  apply candidates_ascii; [done|by apply Forall_lines].
Qed.

(** ** Which lines are sent, and why *)

(** The lines an auto-login has: a bare Enter, the user name, the password. *)
Inductive LoginLine := WakeLine | UserLine | PassLine.

#[export] Instance LoginLine_eq_dec : EqDecision LoginLine.
Proof. solve_decision. Defined.

Definition line_text (s : TelnetAutoLoginState) (k : LoginLine) : bytes :=
  match k with WakeLine => [] | UserLine => username s | PassLine => default [] (password s) end.

Definition is_send (a : TelnetAutoLoginAction) : bool := match a with Send _ => true | _ => false end.

(** Whether the state has sent a line in this attempt; the wake-up counts for all of them. *)
Definition sent (s : TelnetAutoLoginState) (k : LoginLine) : bool :=
  match k with WakeLine => sent_wake s | UserLine => sent_username s | PassLine => sent_password s end.

Definition wakes (ks : list LoginLine) : nat := length (filter (fun k => k = WakeLine) ks).

Lemma wakes_app a b : wakes (a ++ b) = (wakes a + wakes b)%nat.
Proof. unfold wakes. by rewrite filter_app, length_app. Qed.

Lemma count_skip_chars k s : count_chars (skip_chars k s) = (count_chars s - k)%nat.
Proof.
  revert k. induction s as [|b s IH]; intros k; cbn; [done|]. destruct (is_cont b) eqn:E; [apply IH|].
  destruct k; [cbn; by rewrite E|]. rewrite IH. lia.
Qed.

Lemma count_last_chars s n : (count_chars (last_chars s n) <= n)%nat.
Proof.
  unfold last_chars. destruct (_ <=? _)%nat eqn:E; [by apply Nat.leb_le|]. apply Nat.leb_gt in E.
  rewrite count_skip_chars. lia.
Qed.

Lemma last_chars_suffix s n : last_chars s n `suffix_of` s.
Proof.
  unfold last_chars. case_match; [done|]. generalize (count_chars s - n)%nat as k. clear.
  induction s as [|b s IH]; intros k; cbn; [done|]. destruct (is_cont b); [by apply suffix_cons_r|].
  destruct k; [done|by apply suffix_cons_r].
Qed.

Definition ascii_event (e : LoginEvent) : Prop := match e with Visible d _ => Forall ascii d | UserInput _ => True end.

(** All the server printed. *)
Fixpoint printed (evs : list LoginEvent) : bytes :=
  match evs with [] => [] | Visible d _ :: evs' => d ++ printed evs' | UserInput _ :: evs' => printed evs' end.

Lemma printed_app a b : printed (a ++ b) = printed a ++ printed b.
Proof. induction a as [|[d t|x] a IH]; cbn; [done| |done]. by rewrite IH, app_assoc. Qed.

Section Safety.
Context (cells : bytes -> option Z) (lc : bytes -> bytes) (rx : bytes -> option Regex).
Context (ru rl rp rw rs rf : Regex) (config : TelnetSessionConfig) (c : TelnetAutoLoginConfig).

(** What is on the screen after [data], the kept output being [tl]: the last lines, the last
    line that is not empty, and the prompts. *)
Definition on_screen (tl data : bytes) : outcome (bytes * bytes * list bytes) :=
  clean <-! strip_telnet_auto_login_control_sequences tl;
  clean_input <-! strip_telnet_auto_login_control_sequences data;
  let normalized := cr_to_lf clean in
  let window := last_chars normalized TELNET_AUTO_LOGIN_PROMPT_WINDOW_CHARS in
  prompts <-! prompt_candidates lc window (cr_to_lf clean_input);
  Ret (window, last_non_empty_line normalized, prompts).

(** A line is an answer to what is on the screen: the wake-up to a text that asks for it, the
    user name to a prompt for it, the password to a prompt for that, and each of the two only
    if there is one. *)
Definition answers (s : TelnetAutoLoginState) (k : LoginLine) (screen : bytes * bytes * list bytes) : Prop :=
  let '(window, last_line, prompts) := screen in
  match k with
  | WakeLine => send_wake_enter c = true /\ rw window = true
  | UserLine => username s <> [] /\ matches_username_prompt ru rl s prompts last_line = true
  | PassLine => is_Some (password s) /\ matches_password_prompt rp s prompts = true
  end.

(** At some point of the session the server had printed what asks for the line. *)
Definition asked (s : TelnetAutoLoginState) (evs : list LoginEvent) (k : LoginLine) : Prop :=
  exists pre data elapsed post tl screen,
    evs = pre ++ Visible data elapsed :: post /\ elapsed <= timeout_ms c
    /\ tl `suffix_of` printed pre ++ data /\ on_screen tl data = Ret screen /\ answers s k screen.

(** What stays the same throughout. *)
Definition same_login (s s' : TelnetAutoLoginState) : Prop :=
  username s' = username s /\ password s' = password s /\ username_regex s' = username_regex s /\ password_regex s' = password_regex s.

Definition login_ok (s : TelnetAutoLoginState) : Prop :=
  0 <= retries s <= max_retries c /\ Forall ascii (tail s)
  /\ (count_chars (tail s) <= TELNET_AUTO_LOGIN_TAIL_CHARS)%nat.

Definition line_of (s : TelnetAutoLoginState) (k : LoginLine) : TelnetAutoLoginAction :=
  Send (telnet_auto_login_line_bytes cells (line_text s k) config).

(** One event: the lines it sends, none of them sent before in this attempt, or a new
    attempt. *)
Inductive transition (s s' : TelnetAutoLoginState) (acts : list TelnetAutoLoginAction) (ks : list LoginLine) : Prop :=
| same_attempt :
    retries s' = retries s -> List.filter is_send acts = line_of s <$> ks -> NoDup ks ->
    Forall (fun k => sent s k = false) ks -> (forall k, sent s' k = sent s k || bool_decide (k ∈ ks)) -> transition s s' acts ks
| next_attempt :
    retries s' = retries s + 1 -> retries s < max_retries c -> acts = [] -> ks = [] -> sent_wake s' = sent_wake s -> transition s s' acts ks.

Lemma answer_transition s window last prompts :
  let r := answer cells ru rl rp rw rs rf s config c window last prompts in
  exists ks, transition s (fst r) (snd r) ks /\ Forall (fun k => answers s k (window, last, prompts)) ks
    /\ same_login s (fst r) /\ (tail (fst r) = tail s \/ tail (fst r) = []).
Proof.
  unfold answer. destruct (matches_failure _ _ _ _) eqn:Ef.
  - exists []. destruct (retries s <? max_retries c) eqn:E; bool_hyps; cbn; split_and!; try done; auto.
    + by apply next_attempt.
    + apply same_attempt; cbn; try done; [constructor|]. intros []; cbn; by rewrite orb_false_r.
  - cbn zeta. cbn [fst snd]. set (w := _ && rw window). set (u := _ && matches_username_prompt _ _ _ _ _).
    set (p := match password s with Some _ => _ | None => _ end). set (k := _ && matches_success _ _ _).
    assert (Hw : w = true -> sent_wake s = false /\ answers s WakeLine (window, last, prompts))
      by (unfold w; intros H; bool_hyps; by destruct (sent_wake s)).
    assert (Hu : u = true -> sent_username s = false /\ answers s UserLine (window, last, prompts)).
    { unfold u. intros H. bool_hyps. split; [by destruct (sent_username s)|]. split; [|done]. by apply bool_decide_eq_false in H1. }
    assert (Hp : p = true -> sent_password s = false /\ answers s PassLine (window, last, prompts)).
    { unfold p. destruct (password s) eqn:Epw; [|done]. intros H. bool_hyps. split; [by destruct (sent_password s)|]. cbn. by rewrite Epw. }
    clearbody w u p k.
    exists ((if w then [WakeLine] else []) ++ (if u then [UserLine] else []) ++ (if p then [PassLine] else [])). split_and!; [|..|done|by left].
    + apply same_attempt; [done|by destruct w, u, p, k| | |].
      * destruct w, u, p; cbn; by_decide.
      * destruct w, u, p; repeat constructor; cbn; naive_solver.
      * intros []; cbn; destruct w, u, p; cbn; rewrite ?orb_false_r, ?orb_true_r; done.
    + destruct w, u, p; repeat constructor; naive_solver.
Qed.

(** Keeping the output sends nothing. *)
Lemma transition_push s data s' acts ks : transition (push_tail s data) s' acts ks -> transition s s' acts ks.
Proof.
  intros [H1 H2 H3 H4 H5|H1 H2 H3 H4 H5]; [apply same_attempt|by apply next_attempt]; try done.
Qed.

Lemma user_input_transition s automated :
  login_ok s -> let r := handle_user_input s automated in
  login_ok (fst r) /\ same_login s (fst r) /\ transition s (fst r) (match snd r with Some a => [a] | None => [] end) []
  /\ tail (fst r) = tail s.
Proof.
  intros Hok. unfold handle_user_input. destruct (_ || _); cbn; split_and!; try done; apply same_attempt; cbn; try done; try constructor;
    intros []; cbn; by rewrite orb_false_r.
Qed.

(** The handler on an event of an ASCII server: nothing is sent, or the screen is answered. *)
Lemma visible_transition s data elapsed :
  ascii_lowercase lc -> login_ok s -> Forall ascii data ->
  exists r ks, handle_visible_output cells lc ru rl rp rw rs rf s data elapsed config c = Ret r
    /\ login_ok (fst r) /\ same_login s (fst r) /\ transition s (fst r) (snd r) ks
    /\ (ks = [] \/ exists screen, elapsed <= timeout_ms c /\ on_screen (last_chars (tail s ++ data) TELNET_AUTO_LOGIN_TAIL_CHARS) data = Ret screen
          /\ Forall (fun k => answers s k screen) ks)
    /\ (disabled (fst r) || completed (fst r) = true \/ tail (fst r) `suffix_of` tail s ++ data).
Proof.
  intros Hlc (Hr & Ht & Hc) Hd. unfold handle_visible_output. destruct (_ || _) eqn:Eoff.
  { exists (s, []), []. cbn. split_and!; try done; auto. apply same_attempt; try done; [constructor|]. intros k. cbn. by rewrite orb_false_r. }
  destruct (_ <? elapsed) eqn:Et.
  { eexists _, []. split; [done|]. cbn. split_and!; try done; auto. apply same_attempt; cbn; try done; [constructor|].
    intros []; cbn; by rewrite orb_false_r. }
  apply Z.ltb_ge in Et. rewrite ascii_lossy by done. cbn zeta.
  assert (Ht1 : Forall ascii (tail (push_tail s data))).
  { cbn. apply Forall_last_chars, Forall_app. by split. }
  destruct (strip_controls_ascii (tail (push_tail s data)) SNormal Ht1) as (cl & Hcl & Hcla); [by left|].
  destruct (strip_controls_ascii data SNormal Hd) as (ci & Hci & Hcia); [by left|].
  unfold on_screen, strip_telnet_auto_login_control_sequences. rewrite Hcl, Hci. cbn [tail push_tail with_progress] in Hcl. rewrite Hcl. cbn [obind].
  destruct (prompt_candidates_ascii lc (last_chars (cr_to_lf cl) TELNET_AUTO_LOGIN_PROMPT_WINDOW_CHARS) (cr_to_lf ci) Hlc)
    as [ps ->]; [by apply Forall_last_chars, Forall_cr_to_lf|by apply Forall_cr_to_lf|]. cbn [obind].
  destruct (answer_transition (push_tail s data)
    (last_chars (cr_to_lf cl) TELNET_AUTO_LOGIN_PROMPT_WINDOW_CHARS) (last_non_empty_line (cr_to_lf cl)) ps)
    as (ks & Htr & Hans & Hsame & Htail).
  eexists _, ks. split; [done|]. split_and!; [|done|by apply (transition_push s data)| |].
  - assert (Hrt : 0 <= retries (fst (answer cells ru rl rp rw rs rf (push_tail s data) config c
      (last_chars (cr_to_lf cl) TELNET_AUTO_LOGIN_PROMPT_WINDOW_CHARS) (last_non_empty_line (cr_to_lf cl)) ps)) <= max_retries c)
      by (destruct Htr as [E|E]; cbn [retries push_tail with_progress] in *; lia).
    split_and!; [lia..| |]; destruct Htail as [-> | ->]; try done; [apply count_last_chars|cbn; lia].
  - right. eexists. split_and!; [done|done|]. eapply Forall_impl; [exact Hans|]. by intros [].
  - right. destruct Htail as [-> | ->]; [apply last_chars_suffix|apply suffix_nil].
Qed.

(** The attempts of a run from a state: the first one goes on where the state is. *)
Record script (s : TelnetAutoLoginState) (evs : list LoginEvent) (acts : list TelnetAutoLoginAction) (cur : list LoginLine)
    (rest : list (list LoginLine)) : Prop := {
  sc_lines : List.filter is_send acts = line_of s <$> cur ++ concat rest;
  sc_attempts : Z.of_nat (length rest) <= max_retries c - retries s;
  sc_once : Forall NoDup (cur :: rest);
  sc_fresh : Forall (fun k => sent s k = false) cur;
  sc_wakes : (wakes (cur ++ concat rest) <= if sent_wake s then 0 else 1)%nat;
  sc_asked : Forall (asked s evs) (cur ++ concat rest);
}.

Lemma asked_same s s' evs k : same_login s s' -> asked s' evs k -> asked s evs k.
Proof.
  intros (H1 & H2 & H3 & H4) (pre & data & el & post & tl & [[w l] ps] & E & Et & Htl & Es & Ha). exists pre, data, el, post, tl, (w, l, ps).
  split_and!; try done. destruct k; cbn in *; unfold matches_username_prompt, matches_password_prompt in *; by rewrite <- ?H1, <- ?H2, <- ?H3, <- ?H4.
Qed.

Lemma line_same s s' k : same_login s s' -> line_of s' k = line_of s k.
Proof. intros (H1 & H2 & _). unfold line_of. destruct k; cbn; congruence. Qed.

Lemma wakes_sent (ks : list LoginLine) : NoDup ks -> wakes ks = if bool_decide (WakeLine ∈ ks) then 1%nat else 0%nat.
Proof.
  unfold wakes. induction 1 as [|k ks Hk Hn IH]; [done|]. destruct (decide (k = WakeLine)) as [->|Hne].
  - rewrite filter_cons_True by done. cbn [length]. rewrite IH, bool_decide_eq_false_2 by done. by rewrite bool_decide_eq_true_2 by left.
  - rewrite filter_cons_False by done. rewrite IH. assert (bool_decide (WakeLine ∈ k :: ks) = bool_decide (WakeLine ∈ ks)) as ->; [|done].
    apply bool_decide_ext. rewrite elem_of_cons. naive_solver.
Qed.

(** An event before a run. *)
Lemma script_step s s1 evs a b ks cur rest :
  same_login s s1 -> transition s s1 a ks -> Forall (asked s evs) ks -> script s1 evs b cur rest ->
  exists cur' rest', script s evs (a ++ b) cur' rest'.
Proof.
  intros Hsame Htr Hks [S1 S2 S3 S4 S5 S6]. pose proof S3 as [Hcur Hrest]%Forall_cons.
  assert (Hl : forall l, line_of s1 <$> l = line_of s <$> l) by (intros l; apply list_fmap_ext; intros; by apply line_same).
  assert (S6' : Forall (asked s evs) (cur ++ concat rest)) by (eapply Forall_impl; [exact S6|]; intros k; by apply asked_same).
  rewrite Hl in S1. destruct Htr as [T1 T2 T3 T4 T5|T1 T2 -> -> T5].
  - exists (ks ++ cur), rest. assert (Hfr : forall k, k ∈ cur -> sent s k = false /\ k ∉ ks).
    { intros k Hk. assert (H : sent s1 k = false) by exact (proj1 (Forall_forall _ _) S4 k Hk). rewrite T5 in H. apply orb_false_iff in H as [? ?%bool_decide_eq_false]. done. }
    split.
    + rewrite List.filter_app, T2, S1, <- fmap_app, app_assoc. done.
    + lia.
    + constructor; [|done]. apply NoDup_app. split_and!; [done| |done]. intros k Hk Hc. by apply (Hfr k Hc).
    + apply Forall_app. split; [done|]. apply Forall_forall. intros k Hk. by apply Hfr.
    + rewrite <- app_assoc, wakes_app, wakes_sent by done. specialize (T5 WakeLine). cbn in T5. rewrite T5 in S5.
      case_bool_decide as Hw; cbn [orb] in *; [|by rewrite orb_false_r in S5]. rewrite orb_true_r in S5.
      pose proof (proj1 (Forall_forall _ _) T4 _ Hw) as H. cbn in H. rewrite H. lia.
    + rewrite <- app_assoc. apply Forall_app. done.
  - exists [], (cur :: rest). split; cbn [app concat]; try done.
    + cbn [length]. lia.
    + constructor; [constructor|done].
    + by rewrite <- T5.
Qed.

Lemma run_script evs past s :
  ascii_lowercase lc -> login_ok s -> Forall ascii_event evs ->
  disabled s || completed s = true \/ tail s `suffix_of` printed past ->
  exists r cur rest, run_login cells lc ru rl rp rw rs rf config c s evs = Ret r /\ login_ok (fst r)
    /\ script s (past ++ evs) (snd r) cur rest.
Proof.
  intros Hlc Hs He. revert past s Hs. induction He as [|e evs He Hevs IH]; intros past s Hs Htl; cbn [run_login].
  { eexists _, [], []. split; [done|]. split; [done|]. destruct Hs as (? & _). split; cbn; try done; [lia|by repeat constructor|case_match; lia]. }
  destruct e as [d t|a].
  - destruct (visible_transition s d t Hlc Hs He) as (r & ks & Hr & Hok & Hsame & Htr & Hks & Htl'). rewrite Hr. cbn [obind].
    destruct (IH (past ++ [Visible d t]) (fst r) Hok) as (q & cur & rest & -> & Hq & Hsc).
    { rewrite printed_app. cbn [printed]. rewrite app_nil_r. destruct Htl' as [|Htl']; [by left|]. destruct Htl as [Hoff|Htl].
      - left. unfold handle_visible_output in Hr. rewrite Hoff in Hr. by injection Hr as <-.
      - right. etrans; [exact Htl'|]. by apply suffix_app. }
    rewrite <- app_assoc in Hsc. cbn [app] in Hsc. cbn [obind].
    destruct (script_step s (fst r) (past ++ Visible d t :: evs) (snd r) (snd q) ks cur rest Hsame Htr) as (cur' & rest' & Hsc'); [|done|by eexists _, cur', rest'].
    destruct Hks as [->|(screen & Hlim & Hscr & Hks)]; [constructor|]. destruct Htl as [Hoff|Htl].
    { unfold handle_visible_output in Hr. rewrite Hoff in Hr. injection Hr as <-. destruct Htr as [_ E _ _ _|_ _ _ -> _]; [|constructor].
      cbn in E. symmetry in E. apply fmap_nil_inv in E as ->. constructor. }
    eapply Forall_impl; [exact Hks|]. intros k Hk. exists past, d, t, evs, (last_chars (tail s ++ d) TELNET_AUTO_LOGIN_TAIL_CHARS), screen.
    split_and!; try done. etrans; [apply last_chars_suffix|]. by apply suffix_app.
  - destruct (user_input_transition s a Hs) as (Hok & Hsame & Htr & Et). destruct (IH (past ++ [UserInput a]) _ Hok) as (q & cur & rest & -> & Hq & Hsc).
    { rewrite printed_app. cbn [printed]. rewrite app_nil_r, Et. destruct Htl as [Hoff|]; [left|by right].
      unfold handle_user_input. rewrite <- orb_assoc, Hoff, orb_true_r. done. }
    rewrite <- app_assoc in Hsc. cbn [app] in Hsc. cbn [obind].
    destruct (script_step s _ (past ++ UserInput a :: evs) _ (snd q) [] cur rest Hsame Htr) as (cur' & rest' & Hsc'); [constructor|done|by eexists _, cur', rest'].
Qed.

(** C31: the credentials are not sprayed. Whatever an ASCII server prints and whatever the
    user does, the auto-login never panics, and the lines it sends fall into at most
    [max_retries + 1] attempts, in each of which the user name and the password are sent at
    most once, the wake-up line at most once in all of them, and nothing else is. Each line
    is an answer: the user name is sent only when what the server printed by then (within the
    time limit) shows a prompt for it, the password only for a password prompt, and each only
    if it is set. At most 2048 characters of output are kept. *)
Theorem auto_login_bounded user pass s evs :
  new_login rx user pass c = Some s -> ascii_lowercase lc -> Forall ascii_event evs -> 0 <= max_retries c ->
  exists s' acts attempts, run_login cells lc ru rl rp rw rs rf config c s evs = Ret (s', acts)
    /\ List.filter is_send acts = line_of s <$> concat attempts
    /\ Z.of_nat (length attempts) <= max_retries c + 1
    /\ Forall NoDup attempts /\ (wakes (concat attempts) <= 1)%nat
    /\ Forall (asked s evs) (concat attempts)
    /\ (count_chars (tail s') <= TELNET_AUTO_LOGIN_TAIL_CHARS)%nat.
Proof.
  intros Hn Hlc He Hm. unfold new_login in Hn. destruct (negb _); [done|]. destruct (match trim user with [] => _ | _ => _ end); [done|].
  injection Hn as <-. set (s := mkLogin _ _ _ _ _ _ _ _ _ _ _ _ _).
  destruct (run_script evs [] s Hlc) as ([s' acts] & cur & rest & Hr & Hok & [S1 S2 S3 S4 S5 S6]); [|done|right; apply suffix_nil|].
  { unfold login_ok. cbn. split_and!; (done || lia || constructor). }
  exists s', acts, (cur :: rest). cbn in S2, S5. cbn [length concat]. split_and!; try done; [lia|apply Hok].
Qed.

Lemma run_stopped s evs :
  disabled s || completed s = true -> run_login cells lc ru rl rp rw rs rf config c s evs = Ret (s, []).
Proof.
  intros Hs. induction evs as [|[d t|a] evs IH]; cbn [run_login]; [done| |].
  - unfold handle_visible_output. rewrite Hs. cbn. by rewrite IH.
  - unfold handle_user_input. rewrite <- orb_assoc, Hs, orb_true_r. cbn. by rewrite IH.
Qed.

(** The user has the last word. Once the user types, the login times out, runs out of
    retries or completes, it is over: whatever the server prints afterwards, nothing more
    is sent. *)
Theorem auto_login_stops s evs :
  (forall data elapsed r, handle_visible_output cells lc ru rl rp rw rs rf s data elapsed config c = Ret r ->
     (Disable ∈ snd r \/ Complete ∈ snd r \/ timeout_ms c < elapsed) ->
     run_login cells lc ru rl rp rw rs rf config c (fst r) evs = Ret (fst r, []))
  /\ run_login cells lc ru rl rp rw rs rf config c (fst (handle_user_input s false)) evs
     = Ret (fst (handle_user_input s false), []).
Proof.
  split.
  - intros data elapsed r Hr Hcase. apply run_stopped. unfold handle_visible_output in Hr.
    destruct (disabled s || completed s) eqn:Ed; [by injection Hr as <-|].
    destruct (timeout_ms c <? elapsed) eqn:Et; [by injection Hr as <-|]. apply Z.ltb_ge in Et.
    destruct (strip_telnet_auto_login_control_sequences _) as [cl|]; [|done]. cbn [obind] in Hr.
    destruct (strip_telnet_auto_login_control_sequences _) as [ci|]; [|done]. cbn [obind] in Hr.
    destruct (prompt_candidates _ _ _) as [ps|]; [|done]. cbn [obind] in Hr. injection Hr as <-.
    unfold answer in *. destruct (matches_failure _ _ _ _).
    { destruct (_ <? _); cbn in *; [|done]. destruct Hcase as [H|[H|H]]; [by apply elem_of_nil in H..|lia]. }
    cbn zeta in *. cbn [fst snd with_progress disabled completed] in *.
    set (k := _ && matches_success _ _ _) in *. destruct k; [by rewrite !orb_true_r|]. exfalso. rewrite app_nil_r in Hcase.
    destruct Hcase as [H|[H|H]]; [| |lia]; repeat (apply elem_of_app in H as [H|H]); case_match;
      (apply list_elem_of_singleton in H; discriminate) || by apply elem_of_nil in H.
  - apply run_stopped. unfold handle_user_input. cbn [orb]. by destruct (disabled s || completed s) eqn:E.
Qed.

End Safety.

(** ** Text that is not ASCII *)

Lemma utf8_lead b t : utf8_valid (b :: t) = true -> is_cont b = false.
Proof.
  cbn [utf8_valid]. unfold is_cont. destruct (b <? 128) eqn:E; bool_hyps.
  { intros _. by rewrite (proj2 (Z.leb_gt 128 b)) by lia. }
  destruct t as [|b1 t1]; [done|]. destruct (between 194 223 b) eqn:E1.
  { intros _. unfold between in E1. bool_hyps. rewrite (proj2 (Z.leb_gt b 191)) by lia. apply andb_false_r. }
  destruct t1 as [|b2 t2]; [done|]. destruct (between 224 239 b) eqn:E2.
  { intros _. unfold between in E2. bool_hyps. rewrite (proj2 (Z.leb_gt b 191)) by lia. apply andb_false_r. }
  destruct t2 as [|b3 t3]; [done|]. intros [(H & _)%second_ok_4 _]%andb_true_iff. unfold between in H. bool_hyps.
  rewrite (proj2 (Z.leb_gt b 191)) by lia. apply andb_false_r.
Qed.

(** After a multi-byte lead byte, valid text goes on with a continuation byte. *)
Lemma utf8_second b t : 128 <= b -> utf8_valid (b :: t) = true -> exists b1 t1, t = b1 :: t1 /\ is_cont b1 = true.
Proof.
  intros Hb. cbn [utf8_valid]. rewrite (proj2 (Z.ltb_ge b 128)) by lia.
  destruct t as [|b1 t1]; [done|]. intros H. exists b1, t1. split; [done|]. destruct (between 194 223 b).
  { by apply andb_true_iff in H as [-> _]. }
  assert (Hs : second_ok b b1 = true).
  { destruct t1 as [|b2 t2]; [done|]. destruct (between 224 239 b) eqn:E2.
    { apply andb_true_iff in H as [H _]. by apply second_ok_3 in H as [-> _]. }
    destruct t2 as [|b3 t3]; [done|]. apply andb_true_iff in H as [H _]. by apply second_ok_4 in H as (_ & -> & _). }
  unfold second_ok, is_cont, between in *. repeat case_match; bool_hyps; rewrite !(proj2 (Z.leb_le _ _)) by lia; done.
Qed.

(** Text without escapes does not hide what follows it. *)
Lemma strip_controls_prefix a s :
  utf8_valid a = true -> Forall (fun b => b <> 27) a ->
  strip_controls SNormal s = Panic -> strip_controls SNormal (a ++ s) = Panic.
Proof.
  intros Ha Hne Hs. revert Hne.
  apply (utf8_ind (fun a => Forall (fun b => b <> 27) a -> strip_controls SNormal (a ++ s) = Panic)); [done| |done].
  intros c t Hlen Hc Hcl Ht IH [Hn1 Hn2]%Forall_app. specialize (IH Hn2). rewrite <- app_assoc.
  destruct c as [|b0 c]; [cbn in Hlen; lia|]. cbn [hd] in Hcl. pose proof (utf8_lead _ _ Hc) as Hcont.
  apply Forall_cons_1 in Hn1 as [Hb0 _]. cbn [app strip_controls].
  rewrite (proj2 (Z.eqb_neq b0 27)), Hcont, <- Hcl by done. cbn zeta.
  destruct c as [|b1 [|b2 [|b3 [|]]]]; cbn [length app strip_controls]; try (cbn in Hlen; lia); by rewrite IH.
Qed.

(** A server can crash the reader. An escape byte followed by a character that is not
    ASCII, anywhere after escape-free text, panics the handler: it skips one byte after the
    escape and then slices the text inside that character. *)
Theorem auto_login_escape_panics cells lc ru rl rp rw rs rf s a b t elapsed config c :
  disabled s || completed s = false -> elapsed <= timeout_ms c ->
  utf8_valid a = true -> Forall (fun x => x <> 27) a -> 128 <= b -> utf8_valid (b :: t) = true ->
  handle_visible_output cells lc ru rl rp rw rs rf s (a ++ 27 :: b :: t) elapsed config c = Panic.
Proof.
  intros Hs Ht Ha Hne Hb Hv. unfold handle_visible_output.
  rewrite Hs, (proj2 (Z.ltb_ge _ _)) by lia.
  rewrite from_utf8_lossy_valid by (rewrite utf8_valid_app by done; exact Hv). cbn zeta.
  destruct (strip_telnet_auto_login_control_sequences (tail _)); [|done]. cbn [obind].
  unfold strip_telnet_auto_login_control_sequences. rewrite strip_controls_prefix; [done|done|done|].
  destruct (utf8_second b t Hb Hv) as (b1 & t1 & -> & Hb1). cbn [strip_controls Z.eqb Pos.eqb].
  rewrite (proj2 (Z.eqb_neq b 91)) by lia. cbn [strip_controls].
  assert (b1 <> 27) by (unfold is_cont in Hb1; bool_hyps; lia).
  by rewrite (proj2 (Z.eqb_neq b1 27)), Hb1.
Qed.

(** A lowercase that changes byte lengths misplaces the suffix of a prompt: with the
    Turkish dotted capital I before a Chinese keyword the slice is inside a character. *)
Lemma prompt_lowercase_panics lc :
  lc (bs "İ密码") = bs "i̇密码" -> push_prompt_suffix_candidates lc [] (bs "İ密码") = Panic.
Proof. intros H. unfold push_prompt_suffix_candidates. rewrite H. vm_compute. reflexivity. Qed.

(** ** Witnesses *)

Definition ascii_lower (s : bytes) : bytes := (fun b => if between 65 90 b then b + 32 else b) <$> s.

Lemma ascii_lower_ok : ascii_lowercase ascii_lower.
Proof.
  intros s Hs. unfold ascii_lower. split; [|apply length_fmap]. apply Forall_fmap.
  eapply Forall_impl; [exact Hs|]. intros b Hb. cbn. unfold between. case_match; bool_hyps; unfold ascii in *; lia.
Qed.

Definition is_text (s : string) : Regex := fun t => bool_decide (t = bs s).
Definition never : Regex := fun _ => false.
Definition demo_login : TelnetAutoLoginConfig := mkLoginConfig true true 60000 None None None None 1.
Definition demo_telnet : TelnetSessionConfig := mkConfig false Cr false false true true.
Definition demo_state : TelnetAutoLoginState :=
  mkLogin (bs "bob") (Some (bs "pw")) [] false false false false false 0 None None None None.
Definition demo_events : list LoginEvent :=
  [Visible (bs "login:") 10; UserInput true; Visible (bs "Password:") 20].

(** The demonstration session sends the user name, then the password. *)
Example demo_login_run :
  run_login (fun _ => None) ascii_lower (is_text "login:") never (is_text "Password:") never never never
    demo_telnet demo_login demo_state demo_events
  = Ret (mkLogin (bs "bob") (Some (bs "pw")) (bs "login:Password:") false true true false false 0 None None None None,
         [Send (bs "bob" ++ [13]); Send (bs "pw" ++ [13])]).
Proof. vm_compute. reflexivity. Qed.

(** A failed attempt and a second one. *)
Definition ends_in (s : string) : Regex := fun t => match strip_suffix (bs s) t with Some _ => true | None => false end.
Definition retry_events : list LoginEvent := demo_events ++ [Visible (bs "Login incorrect") 30; Visible (bs "login:") 40].

Lemma auto_login_bounded_witness :
  exists s' acts attempts, run_login (fun _ => None) ascii_lower (is_text "login:") never (is_text "Password:") never never (ends_in "Login incorrect")
      demo_telnet demo_login demo_state (UserInput true :: retry_events) = Ret (s', acts)
    /\ List.filter is_send acts = line_of (fun _ => None) demo_telnet demo_state <$> concat attempts
    /\ List.filter is_send acts = [Send (bs "bob" ++ [13]); Send (bs "pw" ++ [13]); Send (bs "bob" ++ [13])]
    /\ Z.of_nat (length attempts) <= 2 /\ Forall NoDup attempts.
Proof.
  destruct (auto_login_bounded (fun _ => None) ascii_lower (fun _ => None) (is_text "login:") never (is_text "Password:")
    never never (ends_in "Login incorrect") demo_telnet demo_login (bs "bob") (Some (bs "pw")) demo_state (UserInput true :: retry_events))
    as (s' & acts & attempts & H1 & H2 & H3 & H4 & _).
  - vm_compute. reflexivity.
  - exact ascii_lower_ok.
  - repeat constructor; vm_compute; done.
  - cbn. lia.
  - exists s', acts, attempts. split; [exact H1|]. split; [exact H2|]. split; [vm_compute in H1; injection H1 as _ <-; vm_compute; reflexivity|].
    split; [exact H3|exact H4].
Defined.

Lemma auto_login_escape_panics_witness :
  handle_visible_output (fun _ => None) ascii_lower never never never never never never demo_state
    (bs "hi" ++ 27 :: 195 :: [169]) 10 demo_telnet demo_login = Panic.
Proof.
  apply auto_login_escape_panics; [reflexivity|cbn; lia|reflexivity|repeat constructor; done|lia|reflexivity].
Defined.
