(* ===== verification/Xymodem.v ===== *)
(** * X/YMODEM upload

    [src/crates/nyaterm-transport/src/xymodem/mod.rs]: the sender's state machine. It is
    driven by received bytes ([feed]) and by the clock ([tick]) and answers with actions.
    A file reader is the list of bytes it will deliver; times are integers in any unit;
    Unicode lower-casing of file names, which only decides which batches are refused, is
    the parameter [to_lowercase]. Slicing, indexing and subtraction that can panic in
    Rust return [Panic] here. *)

From stdpp Require Import base list numbers.
From Stdlib Require Import ZArith Lia.
From S2P Require Import Prelude RustStr.

Local Open Scope Z_scope.
Local Open Scope rust_scope.

Definition SOH : Z := 0x01.
Definition STX : Z := 0x02.
Definition EOT : Z := 0x04.
Definition ACK : Z := 0x06.
Definition NAK : Z := 0x15.
Definition CAN : Z := 0x18.
Definition CRC_REQUEST : Z := 67.

(** ** Packets *)

Definition crc16_shift (crc : Z) : Z :=
  if Z.testbit crc 15 then Z.lxor (ushl 16 crc 1) 0x1021 else ushl 16 crc 1.

Definition crc16_byte (crc byte : Z) : Z :=
  Nat.iter 8 crc16_shift (Z.lxor crc (ushl 16 byte 8)).

Definition crc16 (bs : bytes) : Z := fold_left crc16_byte bs 0.

Definition checksum (data : bytes) : Z := fold_left (fun sum byte => wadd 8 sum byte) data 0.

Definition packet (sequence : Z) (data : bytes) (crc : bool) : bytes :=
  [(if (length data =? 1024)%nat then STX else SOH); sequence; unot 8 sequence]
  ++ data ++ (if crc then be_bytes 2 (crc16 data) else [checksum data]).

Arguments packet : simpl never.
Arguments crc16 : simpl never.

(** ** The sender *)

Inductive XymodemProtocol := Xmodem | Ymodem.
#[export] Instance XymodemProtocol_eq_dec : EqDecision XymodemProtocol.
Proof. solve_decision. Defined.

Record XymodemOptions := mkOptions
  { response_timeout : Z; handshake_timeout : Z; max_retries : Z }.

Inductive XymodemError :=
| InvalidOptions | SingleFileRequired | NoFiles | InvalidFilename | OpenFailed | ReadFailed
| WriteFailed | SizeOverflow | TimedOut | RetryLimit | Cancelled | RemoteCancelled | StreamingUnsupported.

Record XymodemFile := mkFile { name : bytes; size : Z; reader : bytes }.

Record XymodemProgress := mkProgress
  { file_name : bytes; bytes_transferred : Z; p_total_bytes : Z; files_completed : nat; files_total : nat }.

Inductive XymodemAction :=
| Send (p : bytes)
| Progress (p : XymodemProgress)
| Finished (r : result unit XymodemError).

Inductive Stage := Start | HeaderAck | DataStart | DataAck | EotAck | BatchAck | Done.
#[export] Instance Stage_eq_dec : EqDecision Stage.
Proof. solve_decision. Defined.

Record XymodemSender := mkSender
  { protocol : XymodemProtocol;
    options : XymodemOptions;
    files : list XymodemFile;
    file_index : nat;
    offset : Z;
    total_bytes : Z;
    accepted_bytes : Z;
    sequence : Z;
    pending_bytes : Z;
    stage : Stage;
    crc : bool;
    last_packet : bytes;
    retries : Z;
    deadline : Z;
    last_can : bool;
    initial_progress_emitted : bool }.

(** Setters for the groups of fields the handlers assign together. *)
Definition set_stage (s : XymodemSender) (g : Stage) : XymodemSender :=
  mkSender (protocol s) (options s) (files s) (file_index s) (offset s) (total_bytes s) (accepted_bytes s)
    (sequence s) (pending_bytes s) g (crc s) (last_packet s) (retries s) (deadline s) (last_can s)
    (initial_progress_emitted s).
Definition set_crc (s : XymodemSender) (b : bool) : XymodemSender :=
  mkSender (protocol s) (options s) (files s) (file_index s) (offset s) (total_bytes s) (accepted_bytes s)
    (sequence s) (pending_bytes s) (stage s) b (last_packet s) (retries s) (deadline s) (last_can s)
    (initial_progress_emitted s).
Definition set_packet (s : XymodemSender) (p : bytes) : XymodemSender :=
  mkSender (protocol s) (options s) (files s) (file_index s) (offset s) (total_bytes s) (accepted_bytes s)
    (sequence s) (pending_bytes s) (stage s) (crc s) p (retries s) (deadline s) (last_can s)
    (initial_progress_emitted s).
Definition set_retries (s : XymodemSender) (n : Z) : XymodemSender :=
  mkSender (protocol s) (options s) (files s) (file_index s) (offset s) (total_bytes s) (accepted_bytes s)
    (sequence s) (pending_bytes s) (stage s) (crc s) (last_packet s) n (deadline s) (last_can s)
    (initial_progress_emitted s).
Definition set_deadline (s : XymodemSender) (d : Z) : XymodemSender :=
  mkSender (protocol s) (options s) (files s) (file_index s) (offset s) (total_bytes s) (accepted_bytes s)
    (sequence s) (pending_bytes s) (stage s) (crc s) (last_packet s) (retries s) d (last_can s)
    (initial_progress_emitted s).
Definition set_last_can (s : XymodemSender) (b : bool) : XymodemSender :=
  mkSender (protocol s) (options s) (files s) (file_index s) (offset s) (total_bytes s) (accepted_bytes s)
    (sequence s) (pending_bytes s) (stage s) (crc s) (last_packet s) (retries s) (deadline s) b
    (initial_progress_emitted s).
Definition set_position (s : XymodemSender) (i : nat) (off acc sq : Z) : XymodemSender :=
  mkSender (protocol s) (options s) (files s) i off (total_bytes s) acc sq (pending_bytes s) (stage s)
    (crc s) (last_packet s) (retries s) (deadline s) (last_can s) (initial_progress_emitted s).
Definition set_files (s : XymodemSender) (fs : list XymodemFile) (pending : Z) : XymodemSender :=
  mkSender (protocol s) (options s) fs (file_index s) (offset s) (total_bytes s) (accepted_bytes s)
    (sequence s) pending (stage s) (crc s) (last_packet s) (retries s) (deadline s) (last_can s)
    (initial_progress_emitted s).
Definition set_emitted (s : XymodemSender) : XymodemSender :=
  mkSender (protocol s) (options s) (files s) (file_index s) (offset s) (total_bytes s) (accepted_bytes s)
    (sequence s) (pending_bytes s) (stage s) (crc s) (last_packet s) (retries s) (deadline s) (last_can s) true.

Section New.
Context (to_lowercase : bytes -> bytes).

(** One turn of the loop of [new_sender] over the files. *)
Fixpoint check_files (p : XymodemProtocol) (fs : list XymodemFile) (names : list bytes) (total : Z)
    : result Z XymodemError :=
  match fs with
  | [] => Ok total
  | f :: fs' =>
    let lower := to_lowercase (name f) in
    if bool_decide (p = Ymodem)
       && (bool_decide (name f = [])
           || existsb (fun b => (b =? 0) || (b =? 47) || (b =? 92)) (name f)
           || (128 <? Z.of_nat (length (name f)) + Z.of_nat (length (dec_string (size f))) + 2)
           || bool_decide (lower ∈ names))
    then Err InvalidFilename
    else if total + size f <? 2 ^ 64
         then check_files p fs' (lower :: names) (total + size f)
         else Err SizeOverflow
  end.

Definition new_sender (p : XymodemProtocol) (fs : list XymodemFile) (o : XymodemOptions)
    : result XymodemSender XymodemError :=
  if bool_decide (fs = []) then Err NoFiles
  else if bool_decide (p = Xmodem) && negb (length fs =? 1)%nat then Err SingleFileRequired
  else if (response_timeout o =? 0) || (handshake_timeout o =? 0) || (max_retries o =? 0)
  then Err InvalidOptions
  else
    total <-? check_files p fs [] 0;
    Ok (mkSender p o fs 0 0 total 0 1 0 Start false [] 0 (handshake_timeout o) false false).

End New.

Definition is_done (s : XymodemSender) : bool := bool_decide (stage s = Done).

Definition progress (s : XymodemSender) : XymodemProgress :=
  let f := match files s !! file_index s with Some f => Some f | None => hd_error (rev (files s)) end in
  mkProgress (match f with Some f => name f | None => [] end) (accepted_bytes s) (total_bytes s)
    (file_index s) (length (files s)).

Definition initial_progress (s : XymodemSender) : XymodemSender * list XymodemAction :=
  if initial_progress_emitted s then (s, [])
  else let s' := set_emitted s in (s', [Progress (progress s')]).

Definition fail (s : XymodemSender) (e : XymodemError) : XymodemSender * list XymodemAction :=
  if is_done s then (s, [])
  else (set_packet (set_stage s Done) [], [Send (replicate 8 CAN); Finished (Err e)]).

Definition send (s : XymodemSender) (p : bytes) (now : Z) : XymodemSender * XymodemAction :=
  (set_deadline (set_packet s p) (now + response_timeout (options s)), Send p).

Definition retry (s : XymodemSender) (now : Z) (e : XymodemError) : XymodemSender * list XymodemAction :=
  if max_retries (options s) <=? retries s then fail s e
  else
    let s1 := set_retries s (retries s + 1) in
    let timeout := if bool_decide (stage s = Start) || bool_decide (stage s = DataStart)
                   then handshake_timeout (options s) else response_timeout (options s) in
    let s2 := set_deadline s1 (now + timeout) in
    (s2, if bool_decide (last_packet s = []) then [] else [Send (last_packet s)]).

(** [read_exact]: [None] when the reader ends early. *)
Definition read_exact (f : XymodemFile) (n : nat) : option (bytes * XymodemFile) :=
  if (n <=? length (reader f))%nat
  then Some (take n (reader f), mkFile (name f) (size f) (drop n (reader f))) else None.

Definition block_size (p : XymodemProtocol) (remaining : Z) : Z :=
  if bool_decide (p = Ymodem) && (128 <? remaining) then 1024 else 128.

Definition next_data (s : XymodemSender) (now : Z) : outcome (XymodemSender * list XymodemAction) :=
  match files s !! file_index s with
  | None => Panic
  | Some f =>
    if size f <? offset s then Panic
    else
      let remaining := size f - offset s in
      if remaining =? 0 then
        let '(s1, a) := send (set_stage s EotAck) [EOT] now in Ret (s1, [a])
      else
        let bsize := block_size (protocol s) remaining in
        let n := Z.min remaining bsize in
        match read_exact f (Z.to_nat n) with
        | None => Ret (fail s ReadFailed)
        | Some (d, f') =>
          let data := d ++ replicate (Z.to_nat (bsize - n)) 0x1a in
          let s1 := set_stage (set_files s (<[file_index s := f']> (files s)) n) DataAck in
          let '(s2, a) := send s1 (packet (sequence s1) data (crc s1)) now in
          Ret (s2, [a])
        end
  end.

(** The block-zero header: name, NUL, decimal size, in 128 zero bytes; writing past the
    end panics. *)
Definition header (f : option XymodemFile) : outcome bytes :=
  match f with
  | None => Ret (replicate 128 0)
  | Some f =>
    let text := name f ++ [0] ++ dec_string (size f) in
    if (length text <=? 128)%nat then Ret (text ++ replicate (128 - length text) 0) else Panic
  end.

(** [last_packet.pop()] and the CRC of the data after the three header bytes. *)
Definition with_crc (p : bytes) : outcome bytes :=
  let body := take (length p - 1) p in
  if (length body <? 3)%nat then Panic else Ret (body ++ be_bytes 2 (crc16 (drop 3 body))).

(** One byte of [feed] after the CAN handling, arm by arm. *)
Definition handle (s : XymodemSender) (byte now : Z) : outcome (XymodemSender * list XymodemAction) :=
  match stage s with
  | Start =>
    if (byte =? CRC_REQUEST) || (byte =? NAK) then
      let s1 := set_retries (set_crc s (byte =? CRC_REQUEST)) 0 in
      if bool_decide (protocol s = Ymodem) then
        h <-! header (files s !! file_index s);
        let s2 := set_stage s1 (match files s !! file_index s with Some _ => HeaderAck | None => BatchAck end) in
        let '(s3, a) := send s2 (packet 0 h (crc s2)) now in
        Ret (s3, [a])
      else next_data s1 now
    else if byte =? 71 then Ret (fail s StreamingUnsupported)
    else Ret (s, [])
  | HeaderAck =>
    if byte =? ACK then
      Ret (set_deadline (set_retries (set_stage s DataStart) 0) (now + handshake_timeout (options s)), [])
    else if (byte =? NAK) || (byte =? CRC_REQUEST) then Ret (retry s now RetryLimit)
    else Ret (s, [])
  | DataStart =>
    if byte =? 71 then Ret (fail s StreamingUnsupported)
    else if (byte =? CRC_REQUEST) || (byte =? NAK) then
      next_data (set_retries (set_crc s (byte =? CRC_REQUEST)) 0) now
    else Ret (s, [])
  | DataAck =>
    if byte =? ACK then
      let s1 := set_position s (file_index s) (offset s + pending_bytes s)
                  (accepted_bytes s + pending_bytes s) (wadd 8 (sequence s) 1) in
      let s2 := set_retries s1 0 in
      r <-! next_data s2 now;
      Ret (fst r, Progress (progress s2) :: snd r)
    else if byte =? NAK then Ret (retry s now RetryLimit)
    else if (byte =? CRC_REQUEST) && (offset s =? 0) then
      if crc s then Ret (retry s now RetryLimit)
      else p <-! with_crc (last_packet s); Ret (retry (set_packet (set_crc s true) p) now RetryLimit)
    else Ret (s, [])
  | EotAck =>
    if byte =? NAK then Ret (retry s now RetryLimit)
    else if byte =? ACK then
      let s1 := set_packet (set_retries (set_position s (S (file_index s)) 0 (accepted_bytes s) 1) 0) [] in
      let p := Progress (progress s1) in
      if bool_decide (protocol s = Xmodem) then Ret (set_stage s1 Done, [p; Finished (Ok tt)])
      else Ret (set_deadline (set_stage s1 Start) (now + handshake_timeout (options s)), [p])
    else Ret (s, [])
  | BatchAck =>
    if byte =? ACK then Ret (set_stage s Done, [Finished (Ok tt)])
    else if (byte =? NAK) || (byte =? CRC_REQUEST) then Ret (retry s now RetryLimit)
    else Ret (s, [])
  | Done => Ret (s, [])
  end.

(** One turn of the loop of [feed]. *)
Definition feed_byte (s : XymodemSender) (byte now : Z) : outcome (XymodemSender * list XymodemAction) :=
  if byte =? CAN then
    let '(s1, acts) := if last_can s then fail s RemoteCancelled else (s, []) in
    Ret (set_last_can s1 true, acts)
  else handle (set_last_can s false) byte now.

Fixpoint feed_loop (s : XymodemSender) (input : bytes) (now : Z) : outcome (XymodemSender * list XymodemAction) :=
  match input with
  | [] => Ret (s, [])
  | byte :: rest =>
    if is_done s then Ret (s, [])
    else
      r1 <-! feed_byte s byte now;
      r2 <-! feed_loop (fst r1) rest now;
      Ret (fst r2, snd r1 ++ snd r2)
  end.

Definition feed (s : XymodemSender) (input : bytes) (now : Z) : outcome (XymodemSender * list XymodemAction) :=
  if is_done s then Ret (s, [])
  else
    let '(s1, a1) := initial_progress s in
    r <-! feed_loop s1 input now;
    Ret (fst r, a1 ++ snd r).

Definition tick (s : XymodemSender) (now : Z) : XymodemSender * list XymodemAction :=
  if is_done s then (s, [])
  else
    let '(s1, a1) := initial_progress s in
    if deadline s1 <=? now then
      let '(s2, a2) := retry s1 now TimedOut in (s2, a1 ++ a2)
    else (s1, a1).

Definition cancel (s : XymodemSender) : XymodemSender * list XymodemAction := fail s Cancelled.

(** ** The cyclic redundancy check *)

Lemma crc16_shift_range c : urange 16 c -> urange 16 (crc16_shift c).
Proof.
  intros Hc. unfold crc16_shift. destruct (Z.testbit c 15); [apply lxor_range; [lia| |]|];
    try (apply uwrap_range; lia). done.
Qed.

Lemma iter_shift_range n c : urange 16 c -> urange 16 (Nat.iter n crc16_shift c).
Proof. intros Hc. induction n as [|n IH]; [done|]. cbn. by apply crc16_shift_range. Qed.

Lemma crc16_byte_range c b : urange 16 c -> urange 16 (crc16_byte c b).
Proof. intros Hc. apply iter_shift_range, lxor_range; [lia|done|]. apply uwrap_range. lia. Qed.

Lemma crc16_fold_range d c : urange 16 c -> urange 16 (fold_left crc16_byte d c).
Proof. revert c. induction d as [|b d IH]; intros c Hc; [done|]. cbn. by apply IH, crc16_byte_range. Qed.

Lemma testbit_ushl w c n i :
  0 <= n -> 0 <= i < w -> Z.testbit (ushl w c n) i = Z.testbit c (i - n).
Proof.
  intros Hn Hi. unfold ushl, uwrap. rewrite <- Z.land_ones, Z.land_spec, Z.ones_spec_low by lia.
  rewrite andb_true_r. apply Z.shiftl_spec. lia.
Qed.

Lemma crc16_shift_low c : Z.testbit (crc16_shift c) 0 = Z.testbit c 15.
Proof.
  unfold crc16_shift. destruct (Z.testbit c 15) eqn:E; rewrite ?Z.lxor_spec, testbit_ushl by lia;
    by rewrite (Z.testbit_neg_r c).
Qed.

(** Shifting loses nothing: the generator polynomial is odd. *)
Lemma crc16_shift_inj a b : urange 16 a -> urange 16 b -> crc16_shift a = crc16_shift b -> a = b.
Proof.
  intros Ha Hb H. assert (H15 : Z.testbit a 15 = Z.testbit b 15) by (by rewrite <- !crc16_shift_low, H).
  assert (Hs : ushl 16 a 1 = ushl 16 b 1).
  { unfold crc16_shift in H. rewrite <- H15 in H. destruct (Z.testbit a 15); [|done].
    apply (f_equal (fun z => Z.lxor z 0x1021)) in H. by rewrite !Z.lxor_assoc, Z.lxor_nilpotent, !Z.lxor_0_r in H. }
  apply urange_bits in Ha as [Ha _], Hb as [Hb _]; [|lia..].
  apply Z.bits_inj'. intros i Hi. destruct (decide (i < 15)).
  - apply (f_equal (fun z => Z.testbit z (i + 1))) in Hs. rewrite !testbit_ushl in Hs by lia.
    by replace (i + 1 - 1) with i in Hs by lia.
  - destruct (decide (i = 15)) as [->|]; [done|]. by rewrite Ha, Hb by lia.
Qed.

Lemma iter_shift_inj n a b :
  urange 16 a -> urange 16 b -> Nat.iter n crc16_shift a = Nat.iter n crc16_shift b -> a = b.
Proof.
  intros Ha Hb. induction n as [|n IH]; [done|]. cbn. intros H.
  apply IH, crc16_shift_inj; auto using iter_shift_range.
Qed.

Lemma byte_shifted_range b : urange 16 (ushl 16 b 8).
Proof. apply uwrap_range. lia. Qed.

Lemma lxor_cancel_l a x y : Z.lxor a x = Z.lxor a y -> x = y.
Proof. intros H. by rewrite <- (Z.lxor_0_l x), <- (Z.lxor_0_l y), <- (Z.lxor_nilpotent a), !Z.lxor_assoc, H. Qed.

Lemma lxor_cancel_r a x y : Z.lxor x a = Z.lxor y a -> x = y.
Proof. rewrite !(Z.lxor_comm _ a). apply lxor_cancel_l. Qed.

Lemma crc16_byte_eq a x b y :
  urange 16 a -> urange 16 b -> crc16_byte a x = crc16_byte b y ->
  Z.lxor a (ushl 16 x 8) = Z.lxor b (ushl 16 y 8).
Proof.
  intros Ha Hb. apply (iter_shift_inj 8); apply lxor_range; auto using byte_shifted_range; lia.
Qed.

Lemma crc16_fold_inj d a b :
  urange 16 a -> urange 16 b -> fold_left crc16_byte d a = fold_left crc16_byte d b -> a = b.
Proof.
  revert a b. induction d as [|x d IH]; intros a b Ha Hb; [done|]. cbn [fold_left]. intros H.
  apply IH, crc16_byte_eq in H; auto using crc16_byte_range. by apply lxor_cancel_r in H.
Qed.

Lemma ushl_byte b : byte_ok b -> ushl 16 b 8 = b * 256.
Proof.
  intros Hb. unfold ushl. rewrite Z.shiftl_mul_pow2 by lia. apply uwrap_small.
  unfold byte_ok in Hb. split; [lia|]. change (2 ^ 16) with 65536. lia.
Qed.

Lemma iter_shift_byte b : byte_ok b -> Nat.iter 8 crc16_shift b = b * 256.
Proof.
  intros Hb. apply Z.eqb_eq. revert b Hb.
  apply (byte_exhaust (fun b => Nat.iter 8 crc16_shift b =? b * 256)). vm_compute. reflexivity.
Qed.

(** The checksum does its job. Sending the CRC after the data makes the receiver's
    remainder zero, and any corruption confined to one byte changes the CRC. *)
Theorem crc16_detects data :
  crc16 (data ++ be_bytes 2 (crc16 data)) = 0
  /\ forall a b x y, byte_ok x -> byte_ok y -> x <> y -> crc16 (a ++ x :: b) <> crc16 (a ++ y :: b).
Proof.
  split.
  - unfold crc16 at 1. rewrite fold_left_app. fold (crc16 data). set (c := crc16 data).
    assert (Hc : urange 16 c) by (by apply crc16_fold_range).
    cbn [be_bytes fold_left]. change (8 * Z.of_nat 1) with 8. change (8 * Z.of_nat 0) with 0.
    rewrite Z.shiftr_0_r.
    assert (Hhi : Z.lxor c (ushl 16 (Z.shiftr c 8 mod 256) 8) = c mod 256).
    { apply urange_bits in Hc as [Hb _]; [|lia]. apply Z.bits_inj'. intros i Hi.
      change 256 with (2 ^ 8). rewrite Z.lxor_spec, <- !Z.land_ones by lia.
      destruct (decide (i < 16)).
      - rewrite testbit_ushl, !Z.land_spec by lia. destruct (decide (i < 8)).
        + rewrite (Z.testbit_neg_r (Z.shiftr c 8) (i - 8)), (Z.ones_spec_low 8 i) by lia.
          by rewrite andb_true_r, xorb_false_r.
        + rewrite (Z.ones_spec_low 8 (i - 8)), (Z.ones_spec_high 8 i), Z.shiftr_spec by lia.
          replace (i - 8 + 8) with i by lia. by rewrite andb_true_r, andb_false_r, xorb_nilpotent.
      - pose proof (byte_shifted_range (Z.land (Z.shiftr c 8) (Z.ones 8))) as [Hs _]%urange_bits; [|lia].
        rewrite Hb, Hs, Z.land_spec, Hb by lia. done. }
    assert (Hlo : byte_ok (c mod 256)) by (apply Z.mod_pos_bound; lia).
    unfold crc16_byte at 2. rewrite Hhi, iter_shift_byte by done. unfold crc16_byte.
    by rewrite ushl_byte, Z.lxor_nilpotent.
  - intros a b x y Hx Hy Hne H. unfold crc16 in H. rewrite !fold_left_app in H. cbn [fold_left] in H.
    set (c := fold_left crc16_byte a 0) in *. assert (Hc : urange 16 c) by (by apply crc16_fold_range).
    apply crc16_fold_inj, crc16_byte_eq, lxor_cancel_l in H; auto using crc16_byte_range. rewrite !ushl_byte in H by done. lia.
Qed.

(** ** The sender's invariant *)

Definition header_fits (f : XymodemFile) : Prop :=
  (length (name f) + length (dec_string (size f)) + 1 <= 128)%nat.

(** The stages in which a file is being transferred. *)
Definition in_file (g : Stage) : bool :=
  match g with HeaderAck | DataStart | DataAck | EotAck => true | _ => false end.

Record sinv (s : XymodemSender) : Prop :=
  { si_retries : 0 <= retries s <= max_retries (options s);
    si_headers : protocol s = Ymodem -> Forall header_fits (files s);
    si_index : (protocol s = Xmodem /\ stage s = Start) \/ in_file (stage s) = true ->
               (file_index s < length (files s))%nat;
    si_offset : forall f, files s !! file_index s = Some f -> 0 <= offset s <= size f;
    si_pending : forall f, stage s = DataAck -> files s !! file_index s = Some f ->
                 0 < pending_bytes s /\ offset s + pending_bytes s <= size f;
    si_packet : stage s = DataAck -> (4 <= length (last_packet s))%nat;
    si_sizes : Forall (fun f => 0 <= size f) (files s) }.

(** How many times the actions report the end. *)
Definition finishes (acts : list XymodemAction) : nat :=
  length (List.filter (fun a => match a with Finished _ => true | _ => false end) acts).

(** A step keeps the invariant and reports the end exactly when it ends. *)
Definition step_ok (r : XymodemSender * list XymodemAction) : Prop :=
  sinv (fst r) /\ finishes (snd r) = (if is_done (fst r) then 1 else 0)%nat.

Lemma is_done_stage s : is_done s = bool_decide (stage s = Done).
Proof. done. Qed.

Lemma sinv_done s : sinv s -> sinv (set_stage s Done).
Proof. intros []. constructor; cbn; try done. by intros [[_ ?]|?]. Qed.

Lemma fail_ok s e : sinv (set_stage s Done) -> is_done s = false -> step_ok (fail s e).
Proof. intros [] Hd. unfold fail. rewrite Hd. split; [|done]. by constructor. Qed.

Lemma send_ok s p now : sinv (set_packet s p) -> is_done s = false ->
  step_ok (fst (send s p now), [snd (send s p now)]).
Proof.
  intros [] Hd. split.
  - constructor; cbn; try done.
  - cbn. unfold is_done in *. cbn in *. by rewrite Hd.
Qed.

Lemma retry_ok s now e : sinv s -> is_done s = false -> step_ok (retry s now e).
Proof.
  intros Hs Hd. unfold retry. destruct (_ <=? _) eqn:E; [by apply fail_ok, Hd; apply sinv_done|]. bool_hyps.
  destruct Hs. split.
  - constructor; cbn; try done. lia.
  - cbn. destruct (bool_decide _); unfold is_done in *; cbn in *; by rewrite Hd.
Qed.

Lemma packet_length sq d c : (4 <= length (packet sq d c))%nat.
Proof. unfold packet. rewrite !length_app. destruct c; rewrite ?be_bytes_length; cbn; lia. Qed.

Lemma block_size_pos p n : 0 < block_size p n.
Proof. unfold block_size. by destruct (_ && _). Qed.

(** Asking for the next block never panics inside a file. *)
Lemma next_data_ok s now f :
  sinv (set_stage s EotAck) -> is_done s = false -> files s !! file_index s = Some f ->
  exists r, next_data s now = Ret r /\ step_ok r.
Proof.
  intros Hs Hd Hf. pose proof (si_offset _ Hs f Hf) as Ho. cbn in Ho. unfold next_data. rewrite Hf.
  rewrite (proj2 (Z.ltb_ge _ _)) by lia.
  assert (Hidx : (file_index s < length (files s))%nat) by (by eapply lookup_lt_Some).
  destruct (_ =? 0) eqn:E0; bool_hyps.
  - eexists. split; [done|]. apply (send_ok (set_stage s EotAck) [EOT] now); [|done].
    destruct Hs. by constructor.
  - set (n := Z.min (size f - offset s) (block_size (protocol s) (size f - offset s))).
    pose proof (block_size_pos (protocol s) (size f - offset s)).
    destruct (read_exact f (Z.to_nat n)) as [[d f']|] eqn:Hrd;
      [|eexists; split; [done|]; by apply fail_ok, Hd; apply (sinv_done _ Hs)].
    eexists. split; [done|]. apply (send_ok (set_stage (set_files s _ n) DataAck)); [|done].
    unfold read_exact in Hrd. destruct (_ <=? _)%nat; [|done]. injection Hrd as <- <-. destruct Hs.
    assert (Hlook : forall g, <[file_index s:=mkFile (name f) (size f) (drop (Z.to_nat n) (reader f))]> (files s)
                      !! file_index s = Some g -> size g = size f).
    { intros g. rewrite list_lookup_insert_eq by done. by intros [= <-]. }
    constructor; cbn; try done.
    + intros Hp. apply Forall_insert; [by apply si_headers0|].
      exact (Forall_lookup_1 _ _ _ _ (si_headers0 Hp) Hf).
    + intros _. by rewrite length_insert.
    + intros g Hg. rewrite (Hlook g Hg). lia.
    + intros g _ Hg. rewrite (Hlook g Hg). lia.
    + intros _. apply packet_length.
    + apply Forall_insert; [done|]. exact (Forall_lookup_1 _ _ _ _ si_sizes0 Hf).
Qed.

Lemma sinv_flags s b : sinv s -> sinv (set_crc s b) /\ sinv (set_last_can s b) /\ sinv (set_emitted s).
Proof. intros []. split_and!; by constructor. Qed.

Lemma sinv_reset s : sinv s -> sinv (set_retries s 0).
Proof. intros []. constructor; cbn; try done. lia. Qed.

Lemma sinv_eot s : sinv s -> (file_index s < length (files s))%nat -> sinv (set_stage s EotAck).
Proof. intros [] Hi. by constructor. Qed.

Lemma keep_ok s : sinv s -> is_done s = false -> step_ok (s, []).
Proof. intros Hs Hd. split; [done|]. cbn. by rewrite Hd. Qed.

Lemma header_ok s : sinv s -> protocol s = Ymodem ->
  exists h, header (files s !! file_index s) = Ret h /\ length h = 128%nat.
Proof.
  intros Hs Hp. unfold header. destruct (files s !! file_index s) as [f|] eqn:Hf; [|by eexists].
  pose proof (Forall_lookup_1 _ _ _ _ (si_headers s Hs Hp) Hf) as Hfit. unfold header_fits in Hfit.
  assert (Hlen : (length (name f ++ [0%Z] ++ dec_string (size f)) <= 128)%nat)
    by (rewrite !length_app; cbn [length]; lia).
  cbn zeta. rewrite (proj2 (Nat.leb_le _ _) Hlen). eexists. split; [done|].
  rewrite length_app, length_replicate. lia.
Qed.

Lemma with_crc_ok p : (4 <= length p)%nat -> exists p', with_crc p = Ret p' /\ (4 <= length p')%nat.
Proof.
  intros Hp. unfold with_crc. rewrite length_take, (proj2 (Nat.ltb_ge _ _)) by lia.
  eexists. split; [done|]. rewrite length_app, length_take, be_bytes_length. lia.
Qed.

(** The Start arm. *)
Lemma handle_start_ok s byte now :
  sinv s -> stage s = Start -> exists r, handle s byte now = Ret r /\ step_ok r.
Proof.
  intros Hs Hg. assert (Hd : is_done s = false) by (unfold is_done; by rewrite Hg).
  unfold handle. rewrite Hg. destruct (_ || _).
  - destruct (sinv_flags s (byte =? CRC_REQUEST) Hs) as (Hs1%sinv_reset & _).
    destruct (bool_decide (protocol s = Ymodem)) eqn:Hp.
    + apply bool_decide_eq_true in Hp. destruct (header_ok s Hs Hp) as (h & -> & _). cbn [obind].
      eexists. split; [done|].
      destruct (files s !! file_index s) as [f|] eqn:Hf.
      * apply (send_ok (set_stage _ HeaderAck)); [|done]. destruct Hs1. constructor; cbn in *; try done.
        intros _. by eapply lookup_lt_Some.
      * apply (send_ok (set_stage _ BatchAck)); [|done]. destruct Hs1. constructor; cbn in *; try done.
        by intros [[_ ?]|?].
    + assert (Hx : protocol s = Xmodem) by (apply bool_decide_eq_false in Hp; by destruct (protocol s)).
      assert (Hi : (file_index s < length (files s))%nat) by (apply (si_index s Hs); auto).
      destruct (lookup_lt_is_Some_2 _ _ Hi) as [f Hf].
      apply (next_data_ok (set_retries (set_crc s (byte =? CRC_REQUEST)) 0) now f); [|done|done].
      by apply sinv_eot.
  - destruct (byte =? 71); eexists; (split; [done|]); [apply fail_ok; [by apply sinv_done|done]|by apply keep_ok].
Qed.

(** A later stage of a file. *)
Lemma handle_file_ok s byte now :
  sinv s -> in_file (stage s) = true -> exists r, handle s byte now = Ret r /\ step_ok r.
Proof.
  intros Hs Hin. assert (Hd : is_done s = false) by (unfold is_done; by destruct (stage s)).
  assert (Hi : (file_index s < length (files s))%nat) by (apply (si_index s Hs); auto).
  destruct (lookup_lt_is_Some_2 _ _ Hi) as [f Hf]. unfold handle.
  destruct (stage s) eqn:Hg; try done.
  - destruct (byte =? ACK); [|destruct (_ || _)]; eexists; (split; [done|]);
      [|by apply retry_ok|by apply keep_ok].
    split; [|done]. apply sinv_reset in Hs. destruct Hs. constructor; cbn in *; try done; auto.
  - destruct (byte =? 71); [eexists; split; [done|]; apply fail_ok; [by apply sinv_done|done]|].
    destruct (_ || _); [|eexists; split; [done|]; by apply keep_ok].
    destruct (sinv_flags s (byte =? CRC_REQUEST) Hs) as (Hs1%sinv_reset & _).
    apply (next_data_ok (set_retries (set_crc s (byte =? CRC_REQUEST)) 0) now f); [|by unfold is_done; cbn; rewrite Hg|done].
    by apply sinv_eot.
  - destruct (byte =? ACK).
    + destruct (si_pending s Hs f Hg Hf) as [Hp1 Hp2]. pose proof (si_offset s Hs f Hf).
      destruct (next_data_ok (set_retries (set_position s (file_index s) (offset s + pending_bytes s)
        (accepted_bytes s + pending_bytes s) (wadd 8 (sequence s) 1)) 0) now f) as ([s' acts] & Hr & Hs' & Hn); [|by unfold is_done; cbn; rewrite Hg|done|].
      * apply sinv_reset in Hs. destruct Hs. constructor; cbn in *; try done. intros g Hgf. simplify_eq. lia.
      * rewrite Hr. cbn [obind fst snd]. eexists. split; [done|]. by split.
    + destruct (byte =? NAK); [eexists; split; [done|]; by apply retry_ok|].
      destruct (_ && _); [|eexists; split; [done|]; by apply keep_ok].
      destruct (crc s) eqn:Hc; [eexists; split; [done|]; by apply retry_ok|].
      destruct (with_crc_ok (last_packet s) (si_packet s Hs Hg)) as (p & -> & Hp). cbn [obind].
      eexists. split; [done|]. apply retry_ok; [|by unfold is_done; cbn; rewrite Hg]. destruct Hs. by constructor.
  - destruct (byte =? NAK); [eexists; split; [done|]; by apply retry_ok|].
    destruct (byte =? ACK); [|eexists; split; [done|]; by apply keep_ok].
    assert (Hoff : forall g, files s !! S (file_index s) = Some g -> 0 <= 0 <= size g).
    { intros g Hgf. pose proof (Forall_lookup_1 _ _ _ _ (si_sizes s Hs) Hgf) as Hsz. cbn in Hsz. lia. }
    destruct (bool_decide (protocol s = Xmodem)) eqn:Hp; eexists; (split; [done|]); (split; [|done]).
    + apply sinv_reset in Hs. destruct Hs. constructor; cbn in *; try done. by intros [[_ ?]|?].
    + apply bool_decide_eq_false in Hp. apply sinv_reset in Hs. destruct Hs. constructor; cbn in *; try done.
      by intros [[? _]|?].
Qed.

Lemma handle_ok s byte now :
  sinv s -> is_done s = false -> exists r, handle s byte now = Ret r /\ step_ok r.
Proof.
  intros Hs Hd. destruct (in_file (stage s)) eqn:Hin; [by apply handle_file_ok|].
  destruct (stage s) eqn:Hg; try done.
  - by apply handle_start_ok.
  - unfold handle. rewrite Hg. destruct (byte =? ACK); [|destruct (_ || _)]; eexists; (split; [done|]);
      [|by apply retry_ok|by apply keep_ok].
    split; [by apply sinv_done|done].
  - unfold is_done in Hd. by rewrite Hg in Hd.
Qed.

(** ** Whole sessions *)

Inductive Input := IFeed (input : bytes) (now : Z) | ITick (now : Z) | ICancel.

Definition drive (s : XymodemSender) (i : Input) : outcome (XymodemSender * list XymodemAction) :=
  match i with
  | IFeed input now => feed s input now
  | ITick now => Ret (tick s now)
  | ICancel => Ret (cancel s)
  end.

Fixpoint run (s : XymodemSender) (ins : list Input) : outcome (XymodemSender * list XymodemAction) :=
  match ins with
  | [] => Ret (s, [])
  | i :: ins' =>
    r1 <-! drive s i;
    r2 <-! run (fst r1) ins';
    Ret (fst r2, snd r1 ++ snd r2)
  end.

Definition ended (s : XymodemSender) : nat := if is_done s then 1 else 0.

(** From [s], the result keeps the invariant and reports the end once, if it ends. *)
Definition run_ok (s : XymodemSender) (r : XymodemSender * list XymodemAction) : Prop :=
  sinv (fst r) /\ (finishes (snd r) + ended s = ended (fst r))%nat.

Lemma finishes_app a b : finishes (a ++ b) = (finishes a + finishes b)%nat.
Proof. unfold finishes. by rewrite List.filter_app, length_app. Qed.

Lemma step_run_ok s r : is_done s = false -> step_ok r -> run_ok s r.
Proof. intros Hd [Hs Hf]. split; [done|]. unfold ended. rewrite Hd, Hf. lia. Qed.

Lemma run_ok_seq s r1 r2 : run_ok s r1 -> run_ok (fst r1) r2 -> run_ok s (fst r2, snd r1 ++ snd r2).
Proof. intros [_ H1] [Hs H2]. split; [done|]. cbn [fst snd]. rewrite finishes_app. lia. Qed.

Lemma run_ok_keep s : sinv s -> run_ok s (s, []).
Proof. by split. Qed.

Lemma feed_byte_ok s byte now :
  sinv s -> is_done s = false -> exists r, feed_byte s byte now = Ret r /\ run_ok s r.
Proof.
  intros Hs Hd. unfold feed_byte. destruct (byte =? CAN).
  - destruct (last_can s).
    + pose proof (fail_ok s RemoteCancelled (sinv_done _ Hs) Hd) as Hf.
      destruct (fail s RemoteCancelled) as [s1 acts]. eexists. split; [done|].
      apply (step_run_ok s (s1, acts)) in Hf as [Hs1 Hn]; [|done]. split; [by apply (sinv_flags s1 true)|done].
    + eexists. split; [done|]. split; [by apply (sinv_flags s true)|done].
  - destruct (handle_ok (set_last_can s false) byte now) as (r & -> & Hok); [by apply (sinv_flags s false)|done|].
    eexists. split; [done|]. by apply step_run_ok.
Qed.

Lemma feed_loop_ok s input now : sinv s -> exists r, feed_loop s input now = Ret r /\ run_ok s r.
Proof.
  revert s. induction input as [|byte rest IH]; intros s Hs; cbn [feed_loop].
  - eexists. split; [done|]. by apply run_ok_keep.
  - destruct (is_done s) eqn:Hd; [eexists; split; [done|]; by apply run_ok_keep|].
    destruct (feed_byte_ok s byte now Hs Hd) as (r1 & -> & H1). cbn [obind].
    destruct (IH (fst r1)) as (r2 & -> & H2); [apply H1|]. cbn [obind].
    eexists. split; [done|]. by apply run_ok_seq.
Qed.

Lemma initial_progress_ok s : sinv s -> run_ok s (initial_progress s).
Proof.
  intros Hs. unfold initial_progress. destruct (initial_progress_emitted s); [by apply run_ok_keep|].
  split; [by apply (sinv_flags s true)|done].
Qed.

Lemma drive_ok s i : sinv s -> exists r, drive s i = Ret r /\ run_ok s r.
Proof.
  intros Hs. pose proof (initial_progress_ok s Hs) as Hi.
  destruct i as [input now|now|]; cbn [drive]; unfold feed, tick, cancel.
  - destruct (is_done s); [eexists; split; [done|]; by apply run_ok_keep|].
    destruct (initial_progress s) as [s1 a1]. destruct (feed_loop_ok s1 input now) as (r & -> & Hr); [apply Hi|].
    eexists. split; [done|]. by apply (run_ok_seq s (s1, a1) r).
  - eexists. split; [done|]. destruct (is_done s) eqn:Hd; [by apply run_ok_keep|].
    assert (Hd1 : is_done (fst (initial_progress s)) = false).
    { unfold initial_progress. by destruct (initial_progress_emitted s). }
    destruct (initial_progress s) as [s1 a1]. destruct (_ <=? now); [|done].
    pose proof (retry_ok s1 now TimedOut (proj1 Hi) Hd1) as Hr. destruct (retry s1 now TimedOut) as [s2 a2].
    apply (run_ok_seq s (s1, a1) (s2, a2)); [done|]. by apply step_run_ok.
  - eexists. split; [done|]. destruct (is_done s) eqn:Hd.
    + unfold fail. rewrite Hd. by apply run_ok_keep.
    + apply step_run_ok; [done|]. apply fail_ok; [by apply sinv_done|done].
Qed.

Lemma run_sinv s ins : sinv s -> exists r, run s ins = Ret r /\ run_ok s r.
Proof.
  revert s. induction ins as [|i ins IH]; intros s Hs; cbn [run].
  - eexists. split; [done|]. by apply run_ok_keep.
  - destruct (drive_ok s i Hs) as (r1 & -> & H1). cbn [obind].
    destruct (IH (fst r1)) as (r2 & -> & H2); [apply H1|]. cbn [obind].
    eexists. split; [done|]. by apply run_ok_seq.
Qed.

Lemma check_files_headers lc fs names total t :
  check_files lc Ymodem fs names total = Ok t -> Forall header_fits fs.
Proof.
  revert names total. induction fs as [|f fs IH]; intros names total; cbn [check_files]; [constructor|].
  destruct (_ && _) eqn:E; [done|]. destruct (_ <? 2 ^ 64); [|done]. intros H. constructor; [|by eapply IH].
  rewrite bool_decide_eq_true_2 in E by done. cbn [andb] in E. bool_hyps. unfold header_fits. lia.
Qed.

Lemma new_sinv lc p fs o s :
  new_sender lc p fs o = Ok s -> Forall (fun f => 0 <= size f) fs -> 0 <= max_retries o ->
  sinv s /\ options s = o /\ is_done s = false /\ initial_progress_emitted s = false.
Proof.
  unfold new_sender. intros H Hsz Hm. destruct (bool_decide (fs = [])) eqn:E1; [done|].
  destruct (_ && negb _) eqn:E2; [done|]. destruct (_ || _); [done|].
  destruct (check_files lc p fs [] 0) as [t|] eqn:Hc; [|done]. cbn [rbind] in H. injection H as <-.
  apply bool_decide_eq_false in E1. split; [|done]. constructor; cbn; try done.
  - intros ->. by eapply check_files_headers.
  - intros _. destruct fs; cbn; [done|lia].
  - intros f Hf. pose proof (Forall_lookup_1 _ _ _ _ Hsz Hf) as H0. cbn in H0. lia.
Qed.

(** A sender that [new_sender] accepted never panics, whatever the receiver sends, whenever
    the clock ticks and whenever it is cancelled: every session returns, reports its end
    exactly once if it has ended and not before, and never exceeds the retry limit. *)
Theorem xymodem_sender_total lc p fs o s ins :
  new_sender lc p fs o = Ok s -> Forall (fun f => 0 <= size f) fs -> 0 <= max_retries o ->
  exists s' acts, run s ins = Ret (s', acts)
    /\ finishes acts = (if is_done s' then 1 else 0)%nat
    /\ 0 <= retries s' <= max_retries (options s').
Proof.
  intros Hn Hsz Hm. destruct (new_sinv lc p fs o s Hn Hsz Hm) as (Hs & _ & Hd & _).
  destruct (run_sinv s ins Hs) as ([s' acts] & Hr & Hs' & Hf). exists s', acts. split; [done|].
  cbn [fst snd] in *. split; [|apply Hs']. unfold ended in Hf. rewrite Hd in Hf.
  destruct (is_done s'); lia.
Qed.

(** The clock runs to the deadline [n] times while the receiver is silent. *)
Fixpoint expire (n : nat) (s : XymodemSender) : XymodemSender :=
  match n with O => s | S n' => expire n' (fst (tick s (deadline s))) end.

Lemma expire_done n s : is_done s = true -> is_done (expire n s) = true.
Proof.
  revert s. induction n as [|n IH]; intros s Hd; cbn [expire]; [done|]. apply IH. unfold tick. by rewrite Hd.
Qed.

Lemma tick_expired s :
  is_done s = false -> retries s <= max_retries (options s) ->
  let s' := fst (tick s (deadline s)) in
  options s' = options s
  /\ (is_done s' = true \/ (is_done s' = false /\ retries s < max_retries (options s) /\ retries s' = retries s + 1)).
Proof.
  intros Hd Hr. unfold tick, initial_progress. rewrite Hd.
  assert (H : forall s1, options s1 = options s -> retries s1 = retries s -> deadline s1 = deadline s ->
            stage s1 = stage s ->
    let s' := fst (retry s1 (deadline s) TimedOut) in options s' = options s /\
    (is_done s' = true \/ (is_done s' = false /\ retries s < max_retries (options s) /\ retries s' = retries s + 1))).
  { intros s1 E1 E2 E3 E4. unfold retry. rewrite E1, E2.
    assert (Hd1 : is_done s1 = false) by (unfold is_done in *; by rewrite E4).
    destruct (_ <=? _) eqn:E; bool_hyps.
    - unfold fail. rewrite Hd1. cbn. split; [done|]. by left.
    - cbn. split; [done|]. right. unfold is_done in *. cbn. rewrite E4. split_and!; [done|lia|done]. }
  destruct (initial_progress_emitted s).
  - rewrite Z.leb_refl. specialize (H s eq_refl eq_refl eq_refl eq_refl).
    by destruct (retry s (deadline s) TimedOut).
  - cbn [deadline set_emitted]. rewrite Z.leb_refl.
    specialize (H (set_emitted s) eq_refl eq_refl eq_refl eq_refl).
    by destruct (retry (set_emitted s) (deadline s) TimedOut).
Qed.

Lemma expire_ends s :
  0 <= retries s <= max_retries (options s) ->
  is_done (expire (S (Z.to_nat (max_retries (options s) - retries s))) s) = true.
Proof.
  intros Hr. remember (Z.to_nat (max_retries (options s) - retries s)) as n eqn:Hn. revert s Hr Hn.
  induction n as [|n IH]; intros s Hr Hn; (destruct (is_done s) eqn:Hd; [by apply expire_done|]);
    destruct (tick_expired s Hd) as (Eo & [Hdone|(Hd' & Hlt & Er)]); try lia; cbn [expire].
  - done.
  - by apply (expire_done (S n)).
  - apply (IH (fst (tick s (deadline s)))); rewrite ?Eo; lia.
Qed.

(** An upload to a receiver that falls silent ends: wherever the session is, after at
    most [max_retries + 1] expired deadlines, less the retries already used, the sender is
    done. *)
Theorem xymodem_silence_ends lc p fs o s ins s' acts :
  new_sender lc p fs o = Ok s -> Forall (fun f => 0 <= size f) fs -> 0 <= max_retries o ->
  run s ins = Ret (s', acts) ->
  is_done (expire (S (Z.to_nat (max_retries (options s') - retries s'))) s') = true.
Proof.
  intros Hn Hsz Hm Hr. destruct (new_sinv lc p fs o s Hn Hsz Hm) as (Hs & _).
  destruct (run_sinv s ins Hs) as (r & Hr' & Hs' & _). rewrite Hr in Hr'. injection Hr' as <-.
  apply expire_ends, (si_retries _ Hs').
Qed.

(** ** Witnesses *)

Definition demo_file : XymodemFile := mkFile [97] 3 [1; 2; 3].
Definition demo_options : XymodemOptions := mkOptions 10 10 2.
Definition demo_sender (p : XymodemProtocol) : XymodemSender :=
  mkSender p demo_options [demo_file] 0 0 3 0 1 0 Start false [] 0 10 false false.

Lemma xymodem_sender_total_witness :
  exists s' acts, run (demo_sender Ymodem) [IFeed [CRC_REQUEST; ACK; NAK] 1; ITick 20; ICancel] = Ret (s', acts)
    /\ finishes acts = (if is_done s' then 1 else 0)%nat
    /\ 0 <= retries s' <= max_retries (options s').
Proof.
  apply (xymodem_sender_total id Ymodem [demo_file] demo_options).
  - vm_compute. reflexivity.
  - constructor; [cbn; lia|constructor].
  - cbn. lia.
Defined.

Lemma xymodem_silence_ends_witness : is_done (expire 3 (demo_sender Ymodem)) = true.
Proof.
  apply (xymodem_silence_ends id Ymodem [demo_file] demo_options (demo_sender Ymodem) [] (demo_sender Ymodem) []).
  - vm_compute. reflexivity.
  - constructor; [cbn; lia|constructor].
  - cbn. lia.
  - reflexivity.
Defined.
