(* ===== verification/XymodemTransfer.v ===== *)
(** * X/YMODEM: a cooperative receiver gets the files

    The functional correctness of the sender of [Xymodem]: what it sends to a receiver
    that requests, acknowledges every packet and closes, as a specification that does
    not mention the state machine. *)

From stdpp Require Import base list numbers.
From Stdlib Require Import ZArith Lia.
From S2P Require Import Prelude RustStr Xymodem.

Local Open Scope Z_scope.
Local Open Scope rust_scope.

(** ** Specification *)

Definition take_size (p : XymodemProtocol) (rest : bytes) : nat :=
  let n := Z.of_nat (length rest) in Z.to_nat (Z.min n (block_size p n)).

(** The next block: the start of what is left, filled up with 0x1a. *)
Definition first_block (p : XymodemProtocol) (rest : bytes) : bytes :=
  take (take_size p rest) rest
  ++ replicate (Z.to_nat (block_size p (Z.of_nat (length rest)) - Z.of_nat (take_size p rest))) 0x1a.

(** The blocks of a file; each takes at least one byte, so its length is enough fuel. *)
Fixpoint data_blocks (fuel : nat) (p : XymodemProtocol) (rest : bytes) : list bytes :=
  match fuel, rest with
  | S fuel', _ :: _ => first_block p rest :: data_blocks fuel' p (drop (take_size p rest) rest)
  | _, _ => []
  end.

Definition file_blocks (p : XymodemProtocol) (data : bytes) : list bytes := data_blocks (length data) p data.

(** Numbered from [sq], modulo 256. *)
Fixpoint packets (sq : Z) (crc : bool) (blocks : list bytes) : list bytes :=
  match blocks with [] => [] | b :: bs => packet sq b crc :: packets (wadd 8 sq 1) crc bs end.

Definition sent (acts : list XymodemAction) : list bytes :=
  acts ≫= (fun a => match a with Send p => [p] | _ => [] end).

(** ** Blocks carry the file *)

Lemma take_size_bounds p rest :
  (take_size p rest <= length rest)%nat /\ (rest <> [] -> (0 < take_size p rest)%nat)
  /\ Z.of_nat (take_size p rest) <= block_size p (Z.of_nat (length rest)).
Proof.
  unfold take_size. pose proof (block_size_pos p (Z.of_nat (length rest))).
  split_and!; [lia| |lia]. intros Hr. destruct rest; [done|]. cbn [length] in *. lia.
Qed.

Lemma first_block_length p rest :
  Z.of_nat (length (first_block p rest)) = block_size p (Z.of_nat (length rest)).
Proof.
  destruct (take_size_bounds p rest) as (H1 & _ & H3). unfold first_block.
  rewrite length_app, length_take, length_replicate. lia.
Qed.

Lemma first_block_full p rest :
  (take_size p rest < length rest)%nat -> first_block p rest = take (take_size p rest) rest.
Proof.
  intros H. unfold first_block. replace (Z.to_nat _) with O; [by rewrite app_nil_r|].
  unfold take_size in *. pose proof (block_size_pos p (Z.of_nat (length rest))). lia.
Qed.

Lemma data_blocks_carry fuel p rest :
  (length rest <= fuel)%nat ->
  take (length rest) (concat (data_blocks fuel p rest)) = rest
  /\ Forall (fun b => length b = 128%nat \/ length b = 1024%nat) (data_blocks fuel p rest).
Proof.
  revert rest. induction fuel as [|fuel IH]; intros rest Hf; [by destruct rest; [|cbn in Hf; lia]|].
  destruct rest as [|b l] eqn:E; [done|]. cbn [data_blocks]. rewrite <- E in *.
  destruct (take_size_bounds p rest) as (H1 & H2 & _). specialize (H2 ltac:(by subst)).
  destruct (IH (drop (take_size p rest) rest)) as [IH1 IH2]; [rewrite length_drop; lia|]. split.
  - cbn [concat]. destruct (decide (take_size p rest < length rest)%nat) as [Hlt|Hge].
    + rewrite first_block_full by done. rewrite take_app_ge by (rewrite length_take; lia).
      rewrite length_take, Nat.min_l by lia. rewrite length_drop in IH1. by rewrite IH1, take_drop.
    + unfold first_block. rewrite (take_ge rest) by lia. rewrite <- app_assoc. by rewrite take_app_length.
  - constructor; [|done]. pose proof (first_block_length p rest) as Hl. unfold block_size in Hl.
    destruct (_ && _); [right|left]; lia.
Qed.

(** The blocks are a faithful encoding of the file: each is 128 or 1024 bytes long,
    and the receiver that concatenates them and cuts at the file's size has the file. *)
Theorem file_blocks_carry_file p data :
  take (length data) (concat (file_blocks p data)) = data
  /\ Forall (fun b => length b = 128%nat \/ length b = 1024%nat) (file_blocks p data).
Proof. by apply data_blocks_carry. Qed.

(** ** The data phase *)

Lemma feed_loop_app s a b now :
  feed_loop s (a ++ b) now
  = (r1 <-! feed_loop s a now; r2 <-! feed_loop (fst r1) b now; Ret (fst r2, snd r1 ++ snd r2)).
Proof.
  revert s. induction a as [|x a IH]; intros s; cbn [app feed_loop].
  - cbn [obind fst snd app]. destruct (feed_loop s b now) as [[? ?]|]; done.
  - destruct (is_done s) eqn:Hd.
    + cbn [obind fst snd app]. destruct b as [|y b]; cbn [feed_loop]; [done|]. by rewrite Hd.
    + destruct (feed_byte s x now) as [[s1 a1]|]; [|done]. cbn [obind fst snd]. rewrite IH.
      destruct (feed_loop s1 a now) as [[s2 a2]|]; [|done]. cbn [obind fst snd].
      destruct (feed_loop s2 b now) as [[s3 a3]|]; [|done]. cbn [obind fst snd]. by rewrite app_assoc.
Qed.

(** The current file has [rest] left to read and to send. *)
Definition at_rest (s : XymodemSender) (f : XymodemFile) (rest : bytes) : Prop :=
  files s !! file_index s = Some f /\ reader f = rest /\ size f = offset s + Z.of_nat (length rest).

(** What the data phase leaves unchanged. *)
Record same_session (s s' : XymodemSender) : Prop :=
  { ss_protocol : protocol s' = protocol s; ss_options : options s' = options s; ss_crc : crc s' = crc s;
    ss_index : file_index s' = file_index s; ss_total : total_bytes s' = total_bytes s;
    ss_count : length (files s') = length (files s);
    ss_files : forall j, j <> file_index s -> files s' !! j = files s !! j }.

Lemma same_session_trans s1 s2 s3 : same_session s1 s2 -> same_session s2 s3 -> same_session s1 s3.
Proof.
  intros [] []. constructor; try congruence. intros j Hj. rewrite ss_files1 by congruence. by apply ss_files0.
Qed.

Lemma next_data_block s now f rest :
  at_rest s f rest -> rest <> [] ->
  exists s', next_data s now = Ret (s', [Send (packet (sequence s) (first_block (protocol s) rest) (crc s))])
    /\ same_session s s' /\ stage s' = DataAck /\ offset s' = offset s /\ sequence s' = sequence s
    /\ accepted_bytes s' = accepted_bytes s /\ pending_bytes s' = Z.of_nat (take_size (protocol s) rest)
    /\ exists f', files s' !! file_index s = Some f' /\ size f' = size f
       /\ reader f' = drop (take_size (protocol s) rest) rest.
Proof.
  intros (Hf & Hr & Hsz) Hne. unfold next_data. rewrite Hf.
  assert (Hlen : 0 < Z.of_nat (length rest)) by (destruct rest; [done|cbn [length]; lia]).
  rewrite (proj2 (Z.ltb_ge _ _)) by lia. replace (size f - offset s) with (Z.of_nat (length rest)) by lia.
  rewrite (proj2 (Z.eqb_neq _ _)) by lia. unfold read_exact. rewrite Hr.
  change (Z.to_nat (Z.min (Z.of_nat (length rest)) (block_size (protocol s) (Z.of_nat (length rest)))))
    with (take_size (protocol s) rest).
  destruct (take_size_bounds (protocol s) rest) as (H1 & H2 & H3).
  rewrite (proj2 (Nat.leb_le _ _) H1). eexists. split.
  - unfold send. cbn [sequence crc set_stage set_files]. repeat f_equal.
    unfold first_block, take_size in *. do 3 f_equal. lia.
  - assert (Hlt : (file_index s < length (files s))%nat) by (by eapply lookup_lt_Some).
    cbn -[insert lookup]. split_and!; try done.
    + constructor; cbn -[insert lookup]; try done; [by rewrite length_insert|].
      intros j Hj. by rewrite list_lookup_insert_ne.
    + unfold take_size. pose proof (block_size_pos (protocol s) (Z.of_nat (length rest))). lia.
    + eexists. by rewrite list_lookup_insert_eq.
Qed.

Lemma next_data_end s now f :
  at_rest s f [] ->
  exists s', next_data s now = Ret (s', [Send [EOT]]) /\ same_session s s' /\ stage s' = EotAck
    /\ accepted_bytes s' = accepted_bytes s.
Proof.
  intros (Hf & Hr & Hsz). cbn [length] in Hsz. unfold next_data. rewrite Hf.
  rewrite (proj2 (Z.ltb_ge _ _)) by lia. replace (size f - offset s) with 0 by lia.
  eexists. by split_and!.
Qed.

(** The state in which an acknowledged block is followed by the next one. *)
Definition acked (s : XymodemSender) : XymodemSender :=
  let s0 := set_last_can s false in
  set_retries (set_position s0 (file_index s) (offset s + pending_bytes s)
                 (accepted_bytes s + pending_bytes s) (wadd 8 (sequence s) 1)) 0.

Lemma feed_ack s rest now :
  stage s = DataAck ->
  feed_loop s (ACK :: rest) now
  = (r1 <-! next_data (acked s) now;
     r2 <-! feed_loop (fst r1) rest now;
     Ret (fst r2, (Progress (progress (acked s)) :: snd r1) ++ snd r2)).
Proof.
  intros Hg. cbn [feed_loop]. unfold is_done. rewrite Hg. cbn [bool_decide decide_rel].
  unfold feed_byte, handle. cbn [set_last_can stage]. rewrite Hg.
  change (ACK =? CAN) with false. change (ACK =? ACK) with true. cbn iota.
  unfold acked. cbn zeta.
  change (next_data (set_retries _ 0) now) with (next_data (acked s) now).
  by destruct (next_data (acked s) now) as [[? ?]|].
Qed.

Lemma data_phase now fuel s f rest :
  (length rest <= fuel)%nat -> at_rest s f rest ->
  exists s1 a1 s2 a2, next_data s now = Ret (s1, a1)
    /\ feed_loop s1 (replicate (length (data_blocks fuel (protocol s) rest)) ACK) now = Ret (s2, a2)
    /\ sent (a1 ++ a2) = packets (sequence s) (crc s) (data_blocks fuel (protocol s) rest) ++ [[EOT]]
    /\ finishes (a1 ++ a2) = O
    /\ stage s2 = EotAck /\ same_session s s2
    /\ accepted_bytes s2 = accepted_bytes s + Z.of_nat (length rest).
Proof.
  revert s f rest. induction fuel as [|fuel IH]; intros s f rest Hfuel Hat.
  { destruct rest; [|cbn in Hfuel; lia]. destruct (next_data_end s now f Hat) as (s' & Hn & Hss & Hg & Ha).
    eexists _, _, _, _. split; [done|]. split; [done|]. split_and!; try done. cbn [length]. lia. }
  destruct rest as [|b l] eqn:E.
  { destruct (next_data_end s now f Hat) as (s' & Hn & Hss & Hg & Ha).
    eexists _, _, _, _. split; [done|]. split; [done|]. split_and!; try done. cbn [length]. lia. }
  assert (Hne : rest <> []) by (by subst). rewrite <- E in *.
  destruct (next_data_block s now f rest Hat Hne)
    as (s1 & Hn & Hss & Hg1 & Ho1 & Hsq & Hac & Hpe & f1 & Hf1 & Hsz1 & Hrd1).
  destruct (take_size_bounds (protocol s) rest) as (Hts & Htp & _). specialize (Htp Hne).
  pose proof (ss_protocol _ _ Hss) as Ep. pose proof (ss_crc _ _ Hss) as Ec. pose proof (ss_index _ _ Hss) as Ei.
  assert (Hat1 : at_rest (acked s1) f1 (drop (take_size (protocol s) rest) rest)).
  { destruct Hat as (_ & _ & Hsz). split_and!; [by cbn; rewrite Ei|done|].
    change (offset (acked s1)) with (offset s1 + pending_bytes s1). rewrite Hsz1, Hsz, Ho1, Hpe, length_drop. lia. }
  destruct (IH (acked s1) f1 (drop (take_size (protocol s) rest) rest) ltac:(rewrite length_drop; lia) Hat1)
    as (s2 & a2 & s3 & a3 & Hn2 & Hf3 & Hsent & Hfin & Hg3 & Hss3 & Hac3).
  change (protocol (acked s1)) with (protocol s1) in Hf3, Hsent. rewrite Ep in Hf3, Hsent.
  change (sequence (acked s1)) with (wadd 8 (sequence s1) 1) in Hsent.
  change (crc (acked s1)) with (crc s1) in Hsent. rewrite Hsq, Ec in Hsent.
  assert (Eb : data_blocks (S fuel) (protocol s) rest
    = first_block (protocol s) rest :: data_blocks fuel (protocol s) (drop (take_size (protocol s) rest) rest)).
  { cbn [data_blocks]. by rewrite E. }
  rewrite Eb. cbn [length replicate].
  eexists s1, _, s3, _. split; [done|]. split; [rewrite feed_ack by done; rewrite Hn2; cbn [obind fst snd]; rewrite Hf3; done|].
  split_and!.
  - cbn [app packets]. unfold sent in *. cbn. by rewrite Hsent.
  - done.
  - done.
  - apply (same_session_trans s s1); [done|]. by destruct Hss3.
  - rewrite Hac3. cbn. rewrite Hac, Hpe, length_drop. lia.
Qed.

(** ** Sessions *)

Definition request (b : Z) : Prop := b = CRC_REQUEST \/ b = NAK.

(** The state in which the receiver's request has been noted. *)
Definition requested (s : XymodemSender) (b : Z) : XymodemSender :=
  set_retries (set_crc (set_last_can s false) (b =? CRC_REQUEST)) 0.

Lemma request_tests b : request b ->
  (b =? CAN) = false /\ (b =? CRC_REQUEST) || (b =? NAK) = true /\ (b =? 71) = false.
Proof. by intros [->| ->]. Qed.

Lemma feed_request s b rest now :
  request b -> (stage s = Start /\ protocol s = Xmodem) \/ stage s = DataStart ->
  feed_loop s (b :: rest) now
  = (r1 <-! next_data (requested s b) now;
     r2 <-! feed_loop (fst r1) rest now;
     Ret (fst r2, snd r1 ++ snd r2)).
Proof.
  intros (H1 & H2 & H3)%request_tests Hg. cbn [feed_loop]. unfold feed_byte. rewrite H1.
  assert (Hh : handle (set_last_can s false) b now = next_data (requested s b) now).
  { unfold handle. cbn [stage set_last_can protocol].
    destruct Hg as [[-> ->]| ->]; rewrite ?H3, H2; done. }
  rewrite Hh. unfold is_done. by destruct Hg as [[-> _]| ->].
Qed.

Lemma feed_eot_xmodem s now :
  stage s = EotAck -> protocol s = Xmodem ->
  exists s' p, feed_loop s [ACK] now = Ret (s', [Progress p; Finished (Ok tt)]) /\ stage s' = Done
    /\ accepted_bytes s' = accepted_bytes s.
Proof.
  intros Hg Hp. cbn [feed_loop]. unfold is_done. rewrite Hg. unfold feed_byte, handle.
  cbn [stage set_last_can protocol]. rewrite Hg, Hp. eexists _, _. by split.
Qed.

Lemma requested_at_rest s b f :
  files s !! file_index s = Some f -> offset s = 0 -> size f = Z.of_nat (length (reader f)) ->
  at_rest (requested s b) f (reader f).
Proof. intros Hf Ho Hsz. split_and!; [done|done|]. cbn. rewrite Ho. lia. Qed.

Lemma sent_app a b : sent (a ++ b) = sent a ++ sent b.
Proof. unfold sent. apply bind_app. Qed.

(** An XMODEM upload to a receiver that requests (CRC or checksum) and acknowledges
    every packet sends exactly the blocks of the file, numbered from 1 modulo 256 and
    protected as requested, then the end mark, counts every byte of the file, and
    finishes successfully. *)
Theorem xmodem_transfer lc f o s b now :
  new_sender lc Xmodem [f] o = Ok s -> size f = Z.of_nat (length (reader f)) -> request b ->
  let blocks := file_blocks Xmodem (reader f) in
  exists s' acts, feed s (b :: replicate (length blocks) ACK ++ [ACK]) now = Ret (s', acts)
    /\ sent acts = packets 1 (b =? CRC_REQUEST) blocks ++ [[EOT]]
    /\ is_done s' = true /\ accepted_bytes s' = size f
    /\ Finished (Ok tt) ∈ acts /\ finishes acts = 1%nat.
Proof.
  intros Hn Hsz Hb. cbn zeta. unfold new_sender in Hn.
  change (bool_decide ([f] = [])) with false in Hn. change (bool_decide (Xmodem = Xmodem)) with true in Hn.
  cbn [length Nat.eqb negb andb] in Hn. destruct (_ || _); [done|].
  destruct (check_files _ _ _ _ _) as [t|]; [|done]. cbn [rbind] in Hn. injection Hn as <-.
  set (s0 := mkSender _ _ _ _ _ _ _ _ _ _ _ _ _ _ _ _). unfold feed. change (is_done s0) with false. cbn iota.
  unfold initial_progress. cbn [initial_progress_emitted s0]. set (s1 := set_emitted s0).
  rewrite feed_request by (auto; by left).
  destruct (data_phase now (length (reader f)) (requested s1 b) f (reader f))
    as (s2 & a2 & s3 & a3 & Hn2 & Hf3 & Hsent & Hfin & Hg3 & Hss & Hac); [done|by apply requested_at_rest|].
  rewrite Hn2. cbn [obind fst snd]. rewrite feed_loop_app.
  change (file_blocks Xmodem (reader f)) with (data_blocks (length (reader f)) (protocol (requested s1 b)) (reader f)).
  rewrite Hf3. cbn [obind fst snd].
  destruct (feed_eot_xmodem s3 now Hg3) as (s4 & p & -> & Hd & Ha4); [apply (ss_protocol _ _ Hss)|].
  cbn [obind fst snd]. eexists _, _. split; [done|]. rewrite !app_assoc. split_and!.
  - rewrite <- (app_assoc _ a2 a3), !sent_app. rewrite !sent_app in Hsent. rewrite Hsent. cbn. by rewrite app_nil_r.
  - unfold is_done. by rewrite Hd.
  - rewrite Ha4, Hac. cbn. lia.
  - apply elem_of_app. right. right. left.
  - rewrite <- (app_assoc _ a2 a3), !finishes_app. rewrite finishes_app in Hfin. cbn. lia.
Qed.

(** ** Batches *)

(** The block-zero header of a file. *)
Definition header_block (f : XymodemFile) : bytes :=
  let text := name f ++ [0] ++ dec_string (size f) in text ++ replicate (128 - length text) 0.

Lemma header_fits_block f : header_fits f -> header (Some f) = Ret (header_block f).
Proof.
  intros Hf. unfold header_fits in Hf. unfold header, header_block. cbn zeta.
  rewrite (proj2 (Nat.leb_le _ _)); [done|]. rewrite !length_app. cbn [length]. lia.
Qed.

(** Between two files of a batch. *)
Record between_files (s : XymodemSender) (i : nat) (acc : Z) : Prop :=
  { bf_protocol : protocol s = Ymodem; bf_stage : stage s = Start; bf_index : file_index s = i;
    bf_offset : offset s = 0; bf_sequence : sequence s = 1; bf_accepted : accepted_bytes s = acc }.

(** What the receiver sends for one file, and what it gets. *)
Definition file_script (f : XymodemFile) : bytes :=
  [CRC_REQUEST; ACK; CRC_REQUEST] ++ replicate (length (file_blocks Ymodem (reader f))) ACK ++ [ACK].
Definition file_packets (f : XymodemFile) : list bytes :=
  packet 0 (header_block f) true :: packets 1 true (file_blocks Ymodem (reader f)) ++ [[EOT]].

Lemma feed_header s i acc f now :
  between_files s i acc -> files s !! i = Some f -> header_fits f ->
  exists s', feed_loop s [CRC_REQUEST; ACK] now = Ret (s', [Send (packet 0 (header_block f) true)])
    /\ stage s' = DataStart /\ protocol s' = Ymodem /\ files s' = files s /\ file_index s' = i
    /\ offset s' = 0 /\ sequence s' = 1 /\ accepted_bytes s' = acc.
Proof.
  intros [Hp Hg Hi Ho Hq Ha] Hf Hfit. cbn [feed_loop]. unfold is_done at 1. rewrite Hg.
  unfold feed_byte at 1, handle. cbn [stage set_last_can protocol files file_index]. rewrite Hg, Hp, Hi, Hf.
  rewrite header_fits_block by done. cbn. eexists. split; [done|]. by split_and!.
Qed.

Lemma feed_eot_ymodem s now :
  stage s = EotAck -> protocol s = Ymodem ->
  exists s' p, feed_loop s [ACK] now = Ret (s', [Progress p])
    /\ between_files s' (S (file_index s)) (accepted_bytes s) /\ files s' = files s.
Proof.
  intros Hg Hp. cbn [feed_loop]. unfold is_done. rewrite Hg. unfold feed_byte, handle.
  cbn [stage set_last_can protocol]. rewrite Hg, Hp. eexists _, _. by split_and!.
Qed.

Lemma ymodem_file s i acc f now :
  between_files s i acc -> files s !! i = Some f -> header_fits f -> size f = Z.of_nat (length (reader f)) ->
  exists s' acts, feed_loop s (file_script f) now = Ret (s', acts)
    /\ sent acts = file_packets f /\ finishes acts = O
    /\ between_files s' (S i) (acc + size f)
    /\ length (files s') = length (files s) /\ forall j, j <> i -> files s' !! j = files s !! j.
Proof.
  intros Hb Hf Hfit Hsz. destruct (feed_header s i acc f now Hb Hf Hfit)
    as (s1 & H1 & Hg1 & Hp1 & Hfs1 & Hi1 & Ho1 & Hq1 & Ha1).
  unfold file_script. change ([CRC_REQUEST; ACK; CRC_REQUEST] ++ ?l) with ([CRC_REQUEST; ACK] ++ CRC_REQUEST :: l).
  rewrite feed_loop_app, H1. cbn [obind fst snd]. rewrite feed_request by (by auto; left).
  destruct (data_phase now (length (reader f)) (requested s1 CRC_REQUEST) f (reader f))
    as (s2 & a2 & s3 & a3 & Hn2 & Hf3 & Hsent & Hfin & Hg3 & Hss & Hac); [done| |].
  { apply requested_at_rest; [by rewrite Hfs1, Hi1|done|done]. }
  rewrite Hn2. cbn [obind fst snd]. rewrite feed_loop_app. unfold file_blocks.
  change (protocol (requested s1 CRC_REQUEST)) with (protocol s1) in Hf3, Hsent. rewrite Hp1 in Hf3, Hsent.
  rewrite Hf3. cbn [obind fst snd].
  assert (Hp3 : protocol s3 = Ymodem) by (by rewrite (ss_protocol _ _ Hss)).
  destruct (feed_eot_ymodem s3 now Hg3 Hp3) as (s4 & p & -> & Hb4 & Hfs4).
  cbn [obind fst snd]. eexists _, _. split; [done|]. split_and!.
  - rewrite !app_assoc, <- (app_assoc _ a2 a3), !sent_app. rewrite sent_app in Hsent. rewrite Hsent.
    change (sequence (requested s1 CRC_REQUEST)) with (sequence s1). rewrite Hq1. cbn. by rewrite app_nil_r.
  - rewrite !app_assoc, <- (app_assoc _ a2 a3), !finishes_app. rewrite finishes_app in Hfin. cbn. lia.
  - rewrite (ss_index _ _ Hss), Hac in Hb4. cbn in Hb4. by rewrite Hi1, Ha1, <- Hsz in Hb4.
  - rewrite Hfs4, (ss_count _ _ Hss). cbn. by rewrite Hfs1.
  - intros j Hj. rewrite Hfs4, (ss_files _ _ Hss); [cbn; by rewrite Hfs1|]. cbn. by rewrite Hi1.
Qed.

(** Everything the receiver sends and gets for a batch: the files in turn, then a
    request answered by an all-zero header, which it acknowledges. *)
Definition batch_script (fs : list XymodemFile) : bytes := concat (file_script <$> fs) ++ [CRC_REQUEST; ACK].
Definition batch_packets (fs : list XymodemFile) : list bytes :=
  concat (file_packets <$> fs) ++ [packet 0 (replicate 128 0) true].

Lemma feed_batch_end s i acc now :
  between_files s i acc -> files s !! i = None ->
  exists s', feed_loop s [CRC_REQUEST; ACK] now
      = Ret (s', [Send (packet 0 (replicate 128 0) true); Finished (Ok tt)])
    /\ is_done s' = true /\ accepted_bytes s' = acc.
Proof.
  intros [Hp Hg Hi Ho Hq Ha] Hf. cbn [feed_loop]. unfold is_done at 1. rewrite Hg.
  unfold feed_byte at 1, handle. cbn [stage set_last_can protocol files file_index]. rewrite Hg, Hp, Hi, Hf.
  cbn. eexists. split; [done|]. by split_and!.
Qed.

Lemma ymodem_batch fs s i acc now :
  between_files s i acc -> length (files s) = (i + length fs)%nat ->
  (forall k, files s !! (i + k)%nat = fs !! k) ->
  Forall header_fits fs -> Forall (fun f => size f = Z.of_nat (length (reader f))) fs ->
  exists s' acts, feed_loop s (batch_script fs) now = Ret (s', acts)
    /\ sent acts = batch_packets fs /\ finishes acts = 1%nat /\ Finished (Ok tt) ∈ acts
    /\ is_done s' = true /\ accepted_bytes s' = acc + foldr (fun f n => size f + n) 0 fs.
Proof.
  intros Hb Hlen Hlook Hfit. revert s i acc Hb Hlen Hlook.
  induction Hfit as [|f fs Hf Hfs IH]; intros s i acc Hb Hlen Hlook Hsz.
  - unfold batch_script, batch_packets. cbn [fmap list_fmap concat app].
    destruct (feed_batch_end s i acc now Hb) as (s' & -> & Hd & Ha).
    { rewrite <- (Nat.add_0_r i). by rewrite Hlook. }
    eexists _, _. split; [done|]. split_and!; try done; [right; left|]. cbn. lia.
  - apply Forall_cons_1 in Hsz as [Hszf Hsz].
    destruct (ymodem_file s i acc f now Hb) as (s1 & a1 & H1 & Hsent & Hfin & Hb1 & Hl1 & Hj1); [|done|done|].
    { rewrite <- (Nat.add_0_r i). by rewrite Hlook. }
    unfold batch_script, batch_packets. rewrite !fmap_cons. cbn [concat]. rewrite <- !app_assoc, feed_loop_app, H1.
    cbn [obind fst snd].
    destruct (IH s1 (S i) (acc + size f) Hb1) as (s2 & a2 & H2 & Hs2 & Hf2 & Hin & Hd & Ha); [| |done|].
    { rewrite Hl1, Hlen. cbn [length]. lia. }
    { intros k. rewrite Hj1 by lia. replace (S i + k)%nat with (i + S k)%nat by lia. apply Hlook. }
    unfold batch_script in H2. rewrite H2. cbn [obind fst snd]. eexists _, _. split; [done|]. split_and!; try done.
    + rewrite sent_app, Hsent, Hs2. done.
    + rewrite finishes_app, Hfin, Hf2. done.
    + apply elem_of_app. by right.
    + rewrite Ha. cbn. lia.
Qed.

(** C25: a YMODEM upload of any batch that [new_sender] accepts, to a receiver that requests and
    acknowledges, sends for every file in order its header (name and exact size), its
    blocks numbered from 1 and the end mark, then the empty header that ends the batch,
    counts every byte, and finishes successfully. *)
Theorem ymodem_transfer lc fs o s now :
  new_sender lc Ymodem fs o = Ok s -> Forall (fun f => size f = Z.of_nat (length (reader f))) fs ->
  exists s' acts, feed s (batch_script fs) now = Ret (s', acts)
    /\ sent acts = batch_packets fs /\ finishes acts = 1%nat /\ Finished (Ok tt) ∈ acts
    /\ is_done s' = true /\ accepted_bytes s' = foldr (fun f n => size f + n) 0 fs.
Proof.
  intros Hn Hsz. unfold new_sender in Hn. destruct (bool_decide (fs = [])); [done|].
  change (bool_decide (Ymodem = Xmodem)) with false in Hn. cbn [andb] in Hn. destruct (_ || _); [done|].
  destruct (check_files _ _ _ _ _) as [t|] eqn:Hc; [|done]. apply check_files_headers in Hc.
  cbn [rbind] in Hn. injection Hn as <-. set (s0 := mkSender _ _ _ _ _ _ _ _ _ _ _ _ _ _ _ _).
  unfold feed. change (is_done s0) with false. cbn iota. unfold initial_progress.
  cbn [initial_progress_emitted s0].
  destruct (ymodem_batch fs (set_emitted s0) 0 0 now) as (s' & acts & H & Hs & Hf & Hin & Hd & Ha); try done.
  rewrite H. cbn [obind fst snd]. eexists _, _. split; [done|]. split_and!; try done. by right.
Qed.

(** ** Witnesses *)

Lemma xmodem_transfer_witness :
  exists s' acts, feed (demo_sender Xmodem) [NAK; ACK; ACK] 1 = Ret (s', acts)
    /\ sent acts = packets 1 (NAK =? CRC_REQUEST) (file_blocks Xmodem [1; 2; 3]) ++ [[EOT]]
    /\ is_done s' = true /\ accepted_bytes s' = 3
    /\ Finished (Ok tt) ∈ acts /\ finishes acts = 1%nat.
Proof.
  apply (xmodem_transfer id demo_file demo_options (demo_sender Xmodem) NAK 1).
  - vm_compute. reflexivity.
  - reflexivity.
  - right. reflexivity.
Defined.

Lemma ymodem_transfer_witness :
  exists s' acts, feed (demo_sender Ymodem) (batch_script [demo_file]) 1 = Ret (s', acts)
    /\ sent acts = batch_packets [demo_file] /\ finishes acts = 1%nat /\ Finished (Ok tt) ∈ acts
    /\ is_done s' = true /\ accepted_bytes s' = 3.
Proof.
  apply (ymodem_transfer id [demo_file] demo_options (demo_sender Ymodem) 1).
  - vm_compute. reflexivity.
  - constructor; [reflexivity|constructor].
Defined.
