(* ===== verification/TrzszCodec.v ===== *)
(** * The trzsz data codec

    [src/crates/nyaterm-transport/src/trzsz/codec.rs]: the choice of compression, the
    validation of a negotiated configuration, and the streaming encoder and decoder of DATA
    frames. Data is optionally compressed with Zstandard, then either escaped (binary mode)
    or written as base64 (text mode).

    The crates are interfaces: [Base64] with the laws of RFC 4648 that the code relies on,
    and [Zstd], whose decoder is a machine with the documented contract of a streaming
    decompressor (it takes what it can and writes what fits). A sink is a state and a
    function that may fail. Reading samples of the file ([compression_profitable]) seeks and
    reads through the operating system; its arithmetic is [profitable]. *)

From stdpp Require Import base option list numbers strings gmap.
From Stdlib Require Import ZArith Lia.
From S2P Require Import Prelude RustStr.

Local Open Scope Z_scope.
Local Open Scope rust_scope.

(** ** The interfaces *)

Class Base64 := { b64_encode : bytes -> bytes; b64_decode : bytes -> option bytes }.

(** Whole groups of three bytes are encoded by themselves, four symbols each; only an
    incomplete group is padded; decoding inverts encoding. *)
Class Base64Laws `{Base64} : Prop := {
  b64_length : forall x, length (b64_encode x) = (4 * ((length x + 2) / 3))%nat;
  b64_app : forall x y, (length x mod 3 = 0)%nat -> b64_encode (x ++ y) = b64_encode x ++ b64_encode y;
  b64_padding : forall x, (length x mod 3 = 0)%nat -> 61 ∉ b64_encode x;
  b64_inverse : forall x, bytes_ok x -> b64_decode (b64_encode x) = Some x;
}.

(** One run of the raw decoder: the bytes it took, what it wrote, and whether the frame is
    complete ([remaining == 0]). *)
Record ZStatus (D : Type) := mkStatus { z_read : nat; z_written : bytes; z_done : bool; z_next : D }.
Arguments mkStatus {D} z_read z_written z_done z_next.
Arguments z_read {D} _.
Arguments z_written {D} _.
Arguments z_done {D} _.
Arguments z_next {D} _.

Class Zstd (E D : Type) := {
  z_encoder : E;
  z_write : E -> bytes -> bytes * E;
  z_finish : E -> bytes;
  z_decoder : D;
  z_run : D -> bytes -> nat -> option (ZStatus D);
}.

(** [z_frame c x]: [c] is a frame that holds [x]. The encoder's pieces make up a frame. The
    decoder, with the compressed bytes [c] and the plain bytes [x] of its frame to come, takes
    any piece of [c]: what it writes is the next part of [x] and fits the buffer; with room
    left it has taken all its input, and at the end of the frame written all its output. *)
Class ZstdLaws (E D : Type) `{Zstd E D} := {
  z_frame : bytes -> bytes -> Prop;
  z_encodes : E -> bytes -> bytes -> Prop;
  z_expects : D -> bytes -> bytes -> Prop;
  z_encoder_new : z_encodes z_encoder [] [];
  z_encoder_write : forall e c x y, z_encodes e c x -> z_encodes (z_write e y).2 (c ++ (z_write e y).1) (x ++ y);
  z_encoder_finish : forall e c x, z_encodes e c x -> z_frame (c ++ z_finish e) x;
  z_frame_bytes : forall c x, z_frame c x -> bytes_ok x -> bytes_ok c /\ c <> [];
  z_decoder_new : forall c x, z_frame c x -> z_expects z_decoder c x;
  z_decoder_run : forall d input c x cap,
    z_expects d (input ++ c) x -> input ++ c <> [] \/ x <> [] -> (0 < cap)%nat ->
    exists n x1 x2 d', z_run d input cap = Some (mkStatus n x1 (bool_decide (drop n input ++ c = [] /\ x2 = [])) d')
      /\ x = x1 ++ x2 /\ (n <= length input)%nat /\ (length x1 <= cap)%nat /\ z_expects d' (drop n input ++ c) x2
      /\ ((length x1 < cap)%nat -> n = length input /\ (c = [] -> x2 = []));
}.

(** ** Configuration *)

(** The fields of [TrzszConfig] the codec reads; the strings of [escape_chars] as the code
    points of their characters. *)
Record TrzszConfig := mkTrzszConfig {
  binary : bool;
  protocol : option Z;
  compress : option Z;
  max_buf_size : option Z;
  escape_chars : list (list Z * list Z);
}.

Definition compression (config : TrzszConfig) (size : Z) : option bool :=
  if default 0 (protocol config) <? 3 then Some (negb (binary config))
  else if default 0 (compress config) =? 1 then Some true
  else if default 0 (compress config) =? 2 then Some false
  else if size <? 512 then Some false
  else if size <? 128 * 1024 then Some true
  else None.

(** Of the sampled parts the file is long enough for, fewer than two do not shrink by two
    percent. [lens] are the compressed lengths of the three samples. *)
Definition SAMPLE : Z := 128 * 1024.
Fixpoint incompressible (size index : Z) (lens : list Z) : Z :=
  match lens with
  | [] => 0
  | len :: lens' =>
    (if size <? (index + 1) * SAMPLE then 0 else if SAMPLE * 98 / 100 <? len then 1 else 0) + incompressible size (index + 1) lens'
  end.
Definition sample_offsets (size : Z) : list Z := [0; size - SAMPLE; size / 2 - SAMPLE / 2].
Definition profitable (size : Z) (lens : list Z) : bool := incompressible size 0 lens <? 2.

(** The two tables, as maps from bytes to bytes. *)
Definition EscapeTable : Type := gmap Z Z.

Fixpoint table_loop (escapes : list (list Z * list Z)) (encode decode : gmap Z Z) : result (gmap Z Z * gmap Z Z) bytes :=
  match escapes with
  | [] => Ok (encode, decode)
  | (from, to) :: escapes' =>
    match from, to with
    | [f], [t0; t1] =>
      if (255 <? f) || negb (t0 =? 238) || (255 <? t1) then Err (bs "invalid trzsz escape table")
      else if bool_decide (is_Some (encode !! f)) || bool_decide (is_Some (decode !! t1)) then Err (bs "duplicate trzsz escape mapping")
      else table_loop escapes' (<[f := t1]> encode) (<[t1 := f]> decode)
    | _, _ => Err (bs "invalid trzsz escape table")
    end
  end.

Definition escape_table (config : TrzszConfig) : result (gmap Z Z * gmap Z Z) bytes := table_loop (escape_chars config) ∅ ∅.

Definition between_opt (lo hi : Z) (o : option Z) : bool := between lo hi (default 0 o).

Definition validate_config (config : TrzszConfig) : result unit bytes :=
  if negb (between_opt 0 4 (protocol config)) || negb (between_opt 0 2 (compress config))
     || match max_buf_size config with Some size => negb (between 1024 (1024 * 1024 * 1024) size) | None => false end
  then Err (bs "unsupported trzsz negotiation")
  else _ <-? escape_table config; Ok tt.

(** ** The encoder *)

Section Codec.
Context `{Base64} {E D : Type} `{Zstd E D}.

Record Encoder := mkEncoder { e_zstd : option E; e_tail : bytes; e_escape : gmap Z Z; e_binary : bool }.

Definition new_encoder (config : TrzszConfig) (compress : bool) : result Encoder bytes :=
  t <-? escape_table config;
  Ok (mkEncoder (if compress then Some z_encoder else None) [] t.1 (binary config)).

(** The bytes after compression. *)
Definition compress_step (e : Encoder) (input : bytes) (finish : bool) : bytes * option E :=
  match e_zstd e with
  | Some z =>
    let r := z_write z input in
    if finish then (r.1 ++ z_finish r.2, None) else (r.1, Some r.2)
  | None => (input, None)
  end.

Definition escape_byte (table : gmap Z Z) (b : Z) : bytes := match table !! b with Some code => [238; code] | None => [b] end.

Definition encode (e : Encoder) (input : bytes) (finish : bool) : bytes * Encoder :=
  let r := compress_step e input finish in
  if e_binary e then (concat (escape_byte (e_escape e) <$> r.1), mkEncoder r.2 (e_tail e) (e_escape e) (e_binary e))
  else
    let tail := e_tail e ++ r.1 in
    let len := if finish then length tail else (length tail / 3 * 3)%nat in
    (b64_encode (take len tail), mkEncoder r.2 (drop len tail) (e_escape e) (e_binary e)).

(** ** The decoder *)

Record Decoder := mkDecoder {
  d_zstd : option D; d_tail : bytes; d_unescape : gmap Z Z; d_binary : bool; d_escaped : bool;
  d_has_escape : bool; d_complete : bool; d_padded : bool; d_seen : bool;
}.

Definition new_decoder (config : TrzszConfig) (compress : bool) : result Decoder bytes :=
  t <-? escape_table config;
  Ok (mkDecoder (if compress then Some z_decoder else None) [] t.2 (binary config) false
        (negb (bool_decide (escape_chars config = []))) (negb compress) false false).

(** The loop over escaped input, with the flag and the bytes so far. *)
Fixpoint unescape_loop (unescape : gmap Z Z) (has_escape escaped : bool) (acc input : bytes) : result (bytes * bool) bytes :=
  match input with
  | [] => Ok (acc, escaped)
  | b :: input' =>
    if escaped : bool then
      c <-? ok_or (unescape !! b) (bs "unknown trzsz escape code");
      unescape_loop unescape has_escape false (acc ++ [c]) input'
    else if (b =? 238) && has_escape then unescape_loop unescape has_escape true acc input'
    else unescape_loop unescape has_escape false (acc ++ [b]) input'
  end.

(** The stage before decompression: the decoded bytes and the new state. *)
Definition transport_step (d : Decoder) (input : bytes) : result (bytes * Decoder) bytes :=
  let seen := d_seen d || negb (bool_decide (input = [])) in
  if d_binary d then
    r <-? unescape_loop (d_unescape d) (d_has_escape d) (d_escaped d) [] input;
    Ok (r.1, mkDecoder (d_zstd d) (d_tail d) (d_unescape d) (d_binary d) r.2 (d_has_escape d) (d_complete d) (d_padded d) seen)
  else if d_padded d && negb (bool_decide (input = [])) then Err (bs "data after base64 padding")
  else
    let tail := d_tail d ++ input in
    let len := (length tail / 4 * 4)%nat in
    decoded <-? ok_or (b64_decode (take len tail)) (bs "invalid trzsz base64 stream");
    Ok (decoded, mkDecoder (d_zstd d) (drop len tail) (d_unescape d) (d_binary d) (d_escaped d) (d_has_escape d) (d_complete d)
                   (d_padded d || bool_decide (61 ∈ take len tail)) seen).

Section Sink.
Context {St : Type} (sink : St -> bytes -> result St bytes).

Definition OUTPUT : nat := Z.to_nat (32 * 1024).

(** The decompression loop; [None] is out of fuel. [rest] is [decoded[consumed..]]. *)
Fixpoint zstd_loop (fuel : nat) (z : D) (complete : bool) (rest : bytes) (s : St) : option (result (D * bool * St) bytes) :=
  match fuel with
  | O => None
  | S fuel' =>
    match z_run z rest OUTPUT with
    | None => Some (Err (bs "invalid trzsz zstd stream"))
    | Some st =>
      match sink s (z_written st) with
      | Err e => Some (Err e)
      | Ok s' =>
        let rest' := drop (z_read st) rest in
        if bool_decide (rest' = []) && ((length (z_written st) <? OUTPUT)%nat || z_done st) then Some (Ok (z_next st, z_done st, s'))
        else if (z_read st =? 0)%nat && (length (z_written st) =? 0)%nat then Some (Err (bs "stalled trzsz decoder"))
        else zstd_loop fuel' (z_next st) (z_done st) rest' s'
      end
    end
  end.

(** [d_complete] and [d_zstd] after decompression. *)
Definition with_zstd (d : Decoder) (z : option D) (complete : bool) : Decoder :=
  mkDecoder z (d_tail d) (d_unescape d) (d_binary d) (d_escaped d) (d_has_escape d) complete (d_padded d) (d_seen d).

Definition decode (fuel : nat) (d : Decoder) (input : bytes) (finish : bool) (s : St) : option (result (Decoder * St) bytes) :=
  if finish && bool_decide (input = []) && negb (d_seen d) then Some (Ok (d, s))
  else
    match transport_step d input with
    | Err e => Some (Err e)
    | Ok (decoded, d1) =>
      let after :=
        match d_zstd d1 with
        | Some z =>
          if d_complete d1 && negb (bool_decide (decoded = [])) then Some (Err (bs "data after zstd frame"))
          else if bool_decide (decoded = []) && d_complete d1 then Some (Ok (d1, s))
          else
            match zstd_loop fuel z (d_complete d1) decoded s with
            | None => None
            | Some (Err e) => Some (Err e)
            | Some (Ok (z', complete', s')) => Some (Ok (with_zstd d1 (Some z') complete', s'))
            end
        | None => match sink s decoded with Ok s' => Some (Ok (d1, s')) | Err e => Some (Err e) end
        end in
      match after with
      | Some (Ok (d2, s')) =>
        if finish && (negb (bool_decide (d_tail d2 = [])) || d_escaped d2 || negb (d_complete d2))
        then Some (Err (bs "truncated trzsz data stream")) else Some (Ok (d2, s'))
      | r => r
      end
    end.
End Sink.

(** A whole stream: the chunks in order, the last one with [finish]. *)
Fixpoint encode_all (e : Encoder) (chunks : list bytes) (last : bytes) : bytes :=
  match chunks with
  | [] => (encode e last true).1
  | c :: chunks' => let r := encode e c false in r.1 ++ encode_all r.2 chunks' last
  end.

Fixpoint decode_all (fuel : nat) (d : Decoder) (chunks : list bytes) (last : bytes) (s : bytes) : option (result bytes bytes) :=
  let collect s b := Ok (s ++ b) in
  match chunks with
  | [] => match decode collect fuel d last true s with
          | None => None | Some (Err e) => Some (Err e) | Some (Ok (_, s')) => Some (Ok s') end
  | c :: chunks' =>
    match decode collect fuel d c false s with
    | None => None | Some (Err e) => Some (Err e) | Some (Ok (d', s')) => decode_all fuel d' chunks' last s'
    end
  end.

(** ** The escape table *)

Lemma table_loop_spec escapes enc dec enc' dec' :
  table_loop escapes enc dec = Ok (enc', dec') ->
  (forall f t, enc !! f = Some t <-> dec !! t = Some f) -> forall f t, enc' !! f = Some t <-> dec' !! t = Some f.
Proof.
  revert enc dec. induction escapes as [|[from to] escapes IH]; intros enc dec; cbn [table_loop]; [by intros [= <- <-]|].
  destruct from as [|f [|]]; [done| |done]. destruct to as [|t0 [|t1 [|]]]; [done|done| |done]. destruct (_ || _ || _); [done|].
  destruct (bool_decide _ || bool_decide _) eqn:Edup; [done|]. apply orb_false_iff in Edup as [E1%bool_decide_eq_false E2%bool_decide_eq_false].
  rewrite <- eq_None_not_Some in E1, E2. intros Hl Hinv. apply (IH _ _ Hl). intros g u. destruct (decide (f = g)) as [->|Hf], (decide (t1 = u)) as [->|Hu].
  - by rewrite !lookup_insert_eq.
  - rewrite lookup_insert_eq, lookup_insert_ne by done. split; [by intros [= ->]|]. intros Hd. apply Hinv in Hd. congruence.
  - rewrite lookup_insert_eq, lookup_insert_ne by done. split; [|by intros [= ->]]. intros Hd. apply Hinv in Hd. congruence.
  - rewrite !lookup_insert_ne by done. apply Hinv.
Qed.

Lemma escape_table_inverse config enc dec : escape_table config = Ok (enc, dec) -> forall f t, enc !! f = Some t <-> dec !! t = Some f.
Proof. intros Ht. apply (table_loop_spec _ _ _ _ _ Ht). intros f t. by rewrite !lookup_empty. Qed.

Lemma escape_table_empty config enc dec : escape_table config = Ok (enc, dec) -> escape_chars config = [] -> enc = ∅.
Proof. unfold escape_table. intros Ht Hn. rewrite Hn in Ht. by injection Ht as <- <-. Qed.

(** ** The transport stage *)

Section Transport.
Context `{!Base64Laws} (enc : gmap Z Z).

(** What is sent for the bytes. *)
Definition sent (bin : bool) (z : bytes) : bytes := if bin then concat (escape_byte enc <$> z) else b64_encode z.

(** The decoder has taken in all but [rest], which stands for the bytes [z]. *)
Definition receives (d : Decoder) (rest z : bytes) : Prop :=
  if d_binary d then
    d_tail d = []
    /\ if d_escaped d then exists b code rest' z', rest = code :: rest' /\ z = b :: z' /\ d_unescape d !! code = Some b /\ rest' = sent true z'
       else rest = sent true z
  else
    d_escaped d = false /\ d_tail d ++ rest = b64_encode z /\ (length (d_tail d) < 4)%nat /\ bytes_ok z /\ (d_padded d = true -> rest = []).

(** The decoder's table inverts the encoder's, and the mark itself is escaped. *)
Definition tables_ok (d : Decoder) : Prop :=
  (forall f t, enc !! f = Some t <-> d_unescape d !! t = Some f) /\ (d_has_escape d = false -> enc = ∅) /\ (d_has_escape d = true -> is_Some (enc !! 238)).

Lemma unescape_ok d acc input rest z escaped :
  tables_ok d ->
  (if escaped : bool then exists b code rest' z', input ++ rest = code :: rest' /\ z = b :: z' /\ d_unescape d !! code = Some b /\ rest' = sent true z'
   else input ++ rest = sent true z) ->
  exists out escaped' z', unescape_loop (d_unescape d) (d_has_escape d) escaped acc input = Ok (acc ++ out, escaped') /\ z = out ++ z'
    /\ (if escaped' : bool then exists b code rest' z'', rest = code :: rest' /\ z' = b :: z'' /\ d_unescape d !! code = Some b /\ rest' = sent true z''
        else rest = sent true z').
Proof.
  intros (Hinv & Hnone & Hmark). revert acc escaped z. induction input as [|x input IH]; intros acc escaped z Hs; cbn [unescape_loop app] in *.
  { exists [], escaped, z. rewrite app_nil_r. split; [done|]. split; [done|]. by destruct escaped. }
  destruct escaped.
  - destruct Hs as (b & code & rest' & z' & [= -> <-] & -> & Hu & Hr). rewrite Hu. cbn [ok_or rbind].
    destruct (IH (acc ++ [b]) false z' Hr) as (out & esc' & z2 & Hl & -> & Hrest). exists (b :: out), esc', z2. rewrite Hl, <- app_assoc. done.
  - destruct z as [|b z]; [done|]. unfold sent in Hs. cbn [fmap list_fmap concat] in Hs. unfold escape_byte in Hs at 1. destruct (enc !! b) as [code|] eqn:Eb.
    + cbn [app] in Hs. injection Hs as -> Hs. assert (Hh : d_has_escape d = true).
      { destruct (d_has_escape d); [done|]. rewrite Hnone in Eb by done. by rewrite lookup_empty in Eb. }
      replace ((238 =? 238) && d_has_escape d) with true by (by rewrite Hh). apply (IH acc true (b :: z)).
      exists b, code, (sent true z), z. split_and!; [done|done|by apply Hinv|done].
    + cbn [app] in Hs. injection Hs as -> Hs. assert (Hesc : (b =? 238) && d_has_escape d = false).
      { destruct (d_has_escape d); [|apply andb_false_r]. destruct (Hmark eq_refl) as [c Hc]. rewrite andb_true_r. apply Z.eqb_neq. congruence. }
      rewrite Hesc. destruct (IH (acc ++ [b]) false z Hs) as (out & esc' & z2 & Hl & -> & Hrest). exists (b :: out), esc', z2. rewrite Hl, <- app_assoc. done.
Qed.

Lemma b64_nil : b64_encode [] = [].
Proof. apply nil_length_inv. by rewrite b64_length. Qed.

(** Whole groups of four symbols are the encoding of whole groups of three bytes, up to the
    end. *)
Lemma b64_cut z k :
  (4 * k <= length (b64_encode z))%nat ->
  take (4 * k) (b64_encode z) = b64_encode (take (3 * k) z) /\ drop (4 * k) (b64_encode z) = b64_encode (drop (3 * k) z).
Proof.
  intros Hk. rewrite b64_length in Hk. destruct (decide (3 * k <= length z)%nat) as [Hle|Hgt].
  - assert (Hm : (length (take (3 * k) z) mod 3 = 0)%nat).
    { rewrite length_take, Nat.min_l by lia. rewrite (Nat.mul_comm 3). apply Nat.Div0.mod_mul. }
    assert (Hl : length (b64_encode (take (3 * k) z)) = (4 * k)%nat).
    { rewrite b64_length, length_take, Nat.min_l by lia. f_equal. symmetry. apply (Nat.div_unique _ 3 k 2); lia. }
    assert (HE : b64_encode z = b64_encode (take (3 * k) z) ++ b64_encode (drop (3 * k) z)) by (rewrite <- b64_app by done; by rewrite take_drop).
    rewrite HE. split; [by rewrite take_app_length'|by rewrite drop_app_length'].
  - assert (Hl : (4 * ((length z + 2) / 3) <= 4 * k)%nat).
    { apply Nat.mul_le_mono_l. apply Nat.lt_succ_r. apply Nat.Div0.div_lt_upper_bound. lia. }
    rewrite !take_ge, !drop_ge by (rewrite ?b64_length; lia). by rewrite b64_nil.
Qed.

(** The stage takes in any piece of what is to come. *)
Lemma transport_step_ok d input rest z :
  tables_ok d -> receives d (input ++ rest) z ->
  exists out d' z', transport_step d input = Ok (out, d') /\ z = out ++ z' /\ receives d' rest z' /\ tables_ok d'
    /\ d_zstd d' = d_zstd d /\ d_complete d' = d_complete d.
Proof.
  intros Ht Hr. unfold transport_step, receives in *. destruct (d_binary d) eqn:Eb.
  - destruct Hr as [Htl Hr]. destruct (unescape_ok d [] input rest z (d_escaped d) Ht Hr) as (out & esc' & z' & Hl & -> & Hrest). rewrite Hl. cbn [rbind fst snd app].
    eexists out, _, z'. split; [done|]. cbn [d_binary d_escaped d_unescape d_zstd d_complete d_tail]. split; [done|]. split; [by split|]. split; [exact Ht|done].
  - destruct Hr as (Hesc & Htail & Hlen & Hok & Hpad).
    assert (Hno : d_padded d && negb (bool_decide (input = [])) = false).
    { destruct (d_padded d); [|done]. specialize (Hpad eq_refl). apply app_nil in Hpad as [-> _]. done. }
    rewrite Hno. set (T := d_tail d ++ input). set (k := (length T / 4)%nat). rewrite app_assoc in Htail. fold T in Htail.
    assert (Hk : (4 * k <= length T)%nat) by (unfold k; apply Nat.Div0.mul_div_le).
    assert (HkT : (length T < 4 * k + 4)%nat) by (unfold k; pose proof (Nat.mod_upper_bound (length T) 4 ltac:(lia)); pose proof (Nat.Div0.div_mod (length T) 4); lia).
    replace (k * 4)%nat with (4 * k)%nat by lia.
    destruct (b64_cut z k) as [Hcut1 Hcut2]; [rewrite <- Htail, length_app; lia|].
    assert (E1 : take (4 * k) T = b64_encode (take (3 * k) z)) by (rewrite <- Hcut1, <- Htail; by rewrite take_app_le).
    assert (E2 : drop (4 * k) T ++ rest = b64_encode (drop (3 * k) z)) by (rewrite <- Hcut2, <- Htail; by rewrite drop_app_le).
    rewrite E1, b64_inverse by (by apply Forall_take). cbn [ok_or rbind].
    eexists (take (3 * k) z), _, (drop (3 * k) z). split; [done|]. split; [by rewrite take_drop|]. split; [|by split].
    cbn [d_binary d_tail d_padded d_escaped]. split_and!; [done|done|rewrite length_drop; lia|by apply Forall_drop|].
    intros [Hp|Hp%bool_decide_eq_true]%orb_true_iff; [by apply app_nil in Hpad as [_ ?]|].
    assert (Hz : drop (3 * k) z = []).
    { apply drop_ge. destruct (decide (length z <= 3 * k)%nat); [done|]. exfalso. apply (b64_padding (take (3 * k) z)); [|done].
      rewrite length_take, Nat.min_l by lia. rewrite (Nat.mul_comm 3). apply Nat.Div0.mod_mul. }
    rewrite Hz, b64_nil in E2. by apply app_nil in E2 as [_ ->].
Qed.

(** At the end of the stream nothing is left over. *)
Lemma receives_end d z : receives d [] z -> z = [] /\ d_escaped d = false /\ d_tail d = [].
Proof.
  unfold receives. destruct (d_binary d).
  - destruct (d_escaped d); [by intros [_ (b & code & rest' & z' & ? & _)]|]. intros [Htl Hs]. split; [|done]. destruct z as [|b z]; [done|]. exfalso.
    unfold sent in Hs. cbn [fmap list_fmap concat] in Hs. unfold escape_byte in Hs at 1. by destruct (enc !! b).
  - rewrite app_nil_r. intros (He & Ht & Hlen & _ & _). rewrite Ht, b64_length in Hlen. assert (Hz : length z = 0%nat).
    { destruct (length z) as [|n]; [done|]. exfalso. assert (1 <= (S n + 2) / 3)%nat by (apply Nat.div_le_lower_bound; lia). lia. }
    apply nil_length_inv in Hz as ->. split; [done|]. split; [done|]. by rewrite Ht, b64_nil.
Qed.
End Transport.

(** ** The compression stage *)

Section Compression.
Context `{!ZstdLaws E D}.
Local Notation append := (fun (s b : bytes) => Ok (s ++ b) : result bytes bytes).

(** As many turns as bytes are left, and one, are enough: a turn that does not end the loop
    fills the buffer. *)
Lemma zstd_loop_ok fuel z complete input c x s :
  z_expects z (input ++ c) x -> input ++ c <> [] \/ x <> [] -> (length x < fuel)%nat ->
  exists z' x1 x2, zstd_loop append fuel z complete input s = Some (Ok (z', bool_decide (c = [] /\ x2 = []), s ++ x1))
    /\ x = x1 ++ x2 /\ z_expects z' c x2 /\ (c = [] -> x2 = []).
Proof.
  revert z complete input x s. induction fuel as [|fuel IH]; intros z complete input x s Hz Hne Hf; [lia|]. cbn [zstd_loop].
  destruct (z_decoder_run z input c x OUTPUT Hz Hne) as (n & x1 & x2 & z' & Hrun & -> & Hn & Hcap & Hz' & Hroom); [unfold OUTPUT; lia|].
  rewrite Hrun. cbn [z_written z_read z_done z_next]. destruct (bool_decide (drop n input = []) && _) eqn:Estop.
  - apply andb_true_iff in Estop as [Hrest%bool_decide_eq_true Hstop]. rewrite Hrest in *. cbn [app] in *.
    exists z', x1, x2. split_and!; try done. intros ->. apply orb_true_iff in Hstop as [Hroom'|Hdone].
    + apply Hroom; [by apply Nat.ltb_lt|done].
    + apply bool_decide_eq_true in Hdone. by destruct Hdone.
  - assert (Hfull : length x1 = OUTPUT).
    { destruct (decide (length x1 < OUTPUT)%nat) as [Hlt|]; [|lia]. destruct (Hroom Hlt) as [-> _]. rewrite drop_all in Estop.
      rewrite (proj2 (Nat.ltb_lt _ _)) in Estop by done. done. }
    assert (Hpos : (0 < OUTPUT)%nat) by (unfold OUTPUT; lia). rewrite (proj2 (Nat.eqb_neq (length x1) 0)) by lia. rewrite andb_false_r.
    rewrite length_app in Hf. destruct (IH z' (bool_decide (drop n input ++ c = [] /\ x2 = [])) (drop n input) x2 (s ++ x1) Hz') as (z2 & y1 & y2 & Hl & -> & Hz2 & Hend).
    + destruct (decide (drop n input ++ c = [])) as [Hnil|]; [|by left]. right. intros ->. rewrite (bool_decide_true (_ /\ _)) in Estop by done.
      rewrite orb_true_r, andb_true_r in Estop. apply app_nil in Hnil as [Hnil _]. by rewrite bool_decide_true in Estop.
    + lia.
    + exists z2, (x1 ++ y1), y2. rewrite Hl, <- !app_assoc. done.
Qed.

(** ** The whole decoder *)

Context `{!Base64Laws} (enc : gmap Z Z).

(** Still to come: the bytes [rest] on the wire, [z] after the transport stage and the plain
    bytes [x]. *)
Definition awaits (d : Decoder) (rest z x : bytes) : Prop :=
  tables_ok enc d /\ receives enc d rest z
  /\ match d_zstd d with
     | None => x = z /\ d_complete d = true
     | Some zs => z_expects zs z x /\ d_complete d = bool_decide (z = [] /\ x = []) /\ (z = [] -> x = [])
     end.

Lemma awaits_end d z x : awaits d [] z x -> x = [] /\ d_tail d = [] /\ d_escaped d = false /\ d_complete d = true.
Proof.
  intros (_ & Hr & Hz). destruct (receives_end enc d z Hr) as (-> & He & Ht). destruct (d_zstd d).
  - destruct Hz as (_ & Hc & Hx). specialize (Hx eq_refl) as ->. by rewrite Hc, bool_decide_true.
  - by destruct Hz as [-> ->].
Qed.

Lemma decode_ok fuel d input rest z x finish s :
  awaits d (input ++ rest) z x -> (length x < fuel)%nat -> (finish = true -> rest = []) ->
  exists d' x1 z' x2, decode append fuel d input finish s = Some (Ok (d', s ++ x1)) /\ x = x1 ++ x2 /\ awaits d' rest z' x2.
Proof.
  intros Hw Hf Hfin. unfold decode. destruct (finish && bool_decide (input = []) && negb (d_seen d)) eqn:E0.
  { apply andb_true_iff in E0 as [[-> ->%bool_decide_eq_true]%andb_true_iff _]. exists d, [], z, x. by rewrite app_nil_r. }
  destruct Hw as (Ht & Hr & Hz). destruct (transport_step_ok enc d input rest z Ht Hr) as (out & d1 & z' & Hs & -> & Hr1 & Ht1 & Hz1 & Hc1).
  rewrite Hs. rewrite Hz1. destruct (d_zstd d) as [zs|] eqn:Ez.
  - destruct Hz as (Hexp & Hcomp & Hend). rewrite Hc1. destruct (d_complete d) eqn:Ecomp.
    + symmetry in Hcomp. apply bool_decide_eq_true in Hcomp as [Hnil ->]. apply app_nil in Hnil as [-> ->].
      rewrite (bool_decide_true (@nil Z = [])) by done. cbn [negb andb].
      assert (Hw1 : awaits d1 rest [] []) by (split_and!; [done|done|]; rewrite Hz1, Hc1; done).
      destruct finish; cbn [andb]; [|exists d1, [], [], []; by rewrite app_nil_r]. rewrite (Hfin eq_refl) in Hw1. destruct (awaits_end _ _ _ Hw1) as (_ & -> & -> & ->).
      rewrite (Hfin eq_refl). exists d1, [], [], []. by rewrite app_nil_r.
    + cbn [andb]. rewrite andb_false_r. destruct (zstd_loop_ok fuel zs false out z' x s Hexp) as (zs' & x1 & x2 & Hl & -> & Hz2 & Hend2); [|done|].
      { symmetry in Hcomp. apply bool_decide_eq_false in Hcomp. destruct (decide (out ++ z' = [])); [|by left]. right. intros ->. by apply Hcomp. }
      rewrite Hl. set (d2 := with_zstd d1 (Some zs') (bool_decide (z' = [] /\ x2 = []))).
      assert (Hw2 : awaits d2 rest z' x2) by (split_and!; [exact Ht1|exact Hr1|done]).
      destruct finish; cbn [andb]; [|by exists d2, x1, z', x2]. rewrite (Hfin eq_refl) in *. destruct (awaits_end _ _ _ Hw2) as (-> & Htl & Hes & Hco).
      rewrite Htl, Hes, Hco. by exists d2, x1, z', [].
  - destruct Hz as [-> Hcomp]. assert (Hw1 : awaits d1 rest z' z') by (split_and!; [done|done|]; rewrite Hz1, Hc1; done).
    destruct finish; cbn [andb]; [|by exists d1, out, z', z']. rewrite (Hfin eq_refl) in *. destruct (awaits_end _ _ _ Hw1) as (-> & Htl & Hes & Hco).
    rewrite Htl, Hes, Hco. by exists d1, out, [], [].
Qed.

Lemma decode_all_ok fuel d chunks last z x s :
  awaits d (concat chunks ++ last) z x -> (length x < fuel)%nat -> decode_all fuel d chunks last s = Some (Ok (s ++ x)).
Proof.
  revert d z x s. induction chunks as [|c chunks IH]; intros d z x s Hw Hf; cbn [decode_all concat] in *.
  - rewrite <- (app_nil_r ([] ++ last)) in Hw. destruct (decode_ok fuel d last [] z x true s Hw Hf) as (d' & x1 & z' & x2 & -> & -> & Hw'); [done|].
    destruct (awaits_end _ _ _ Hw') as (-> & _). by rewrite app_nil_r.
  - rewrite <- app_assoc in Hw. destruct (decode_ok fuel d c (concat chunks ++ last) z x false s Hw Hf) as (d' & x1 & z' & x2 & -> & -> & Hw'); [done|].
    rewrite length_app in Hf. rewrite (IH d' z' x2 (s ++ x1) Hw') by lia. by rewrite <- app_assoc.
Qed.

(** ** The whole encoder *)

(** The bytes after compression, for the rest of the stream. *)
Fixpoint compressed (z : option E) (chunks : list bytes) (last : bytes) : bytes :=
  match z with
  | None => concat chunks ++ last
  | Some e =>
    match chunks with
    | [] => (z_write e last).1 ++ z_finish (z_write e last).2
    | c :: chunks' => (z_write e c).1 ++ compressed (Some (z_write e c).2) chunks' last
    end
  end.

Lemma compressed_frame e chunks last c x : z_encodes e c x -> z_frame (c ++ compressed (Some e) chunks last) (x ++ concat chunks ++ last).
Proof.
  revert e c x. induction chunks as [|y chunks IH]; intros e c x He; cbn [compressed concat].
  - rewrite app_assoc. apply z_encoder_finish. cbn [app]. by apply z_encoder_write.
  - rewrite <- app_assoc, (app_assoc c), (app_assoc x). apply IH. by apply z_encoder_write.
Qed.

Lemma compressed_none chunks last : compressed None chunks last = concat chunks ++ last.
Proof. by destruct chunks. Qed.

Lemma compressed_cons z c chunks last e' :
  e_zstd e' = z -> compressed z (c :: chunks) last = (compress_step e' c false).1 ++ compressed (compress_step e' c false).2 chunks last.
Proof.
  intros <-. unfold compress_step. destruct (e_zstd e'); [done|]. cbn [fst snd]. rewrite !compressed_none. cbn [concat]. by rewrite <- app_assoc.
Qed.

Lemma encode_all_ok e chunks last :
  e_escape e = enc ->
  encode_all e chunks last = if e_binary e then sent enc true (compressed (e_zstd e) chunks last) else b64_encode (e_tail e ++ compressed (e_zstd e) chunks last).
Proof.
  revert e. induction chunks as [|c chunks IH]; intros e He; cbn [encode_all].
  - assert (Hc : (compress_step e last true).1 = compressed (e_zstd e) [] last) by (unfold compress_step; by destruct (e_zstd e)).
    unfold encode. rewrite Hc. destruct (e_binary e); cbn [fst]; [by rewrite He|]. by rewrite take_ge.
  - rewrite (compressed_cons _ _ _ _ e eq_refl). unfold encode. destruct (e_binary e) eqn:Eb; cbn [fst snd]; rewrite IH by done; cbn [e_binary e_zstd e_tail].
    + unfold sent. by rewrite fmap_app, concat_app, He.
    + set (tail := e_tail e ++ (compress_step e c false).1). set (len := (length tail / 3 * 3)%nat).
      assert (Hlen : (len <= length tail)%nat) by (unfold len; rewrite Nat.mul_comm; apply Nat.Div0.mul_div_le).
      rewrite <- b64_app by (rewrite length_take, Nat.min_l by done; apply Nat.Div0.mod_mul).
      by rewrite app_assoc, take_drop, app_assoc.
Qed.

End Compression.

Section Roundtrip.
Context `{!ZstdLaws E D} `{!Base64Laws}.

(** C34: The data codec is lossless under every split. Whatever the configuration (escaped or
    base64, compressed or not) and however the plain bytes are cut into chunks for the
    encoder and its output into chunks for the decoder, the decoder accepts the stream and
    writes exactly the plain bytes, provided that an escape table, if there is one, escapes
    the mark 0xEE. Turns of the decompression loop: at most one more than there are bytes. *)
Theorem codec_roundtrip config compress e d enc' dec' chunks last chunks' last' fuel :
  escape_table config = Ok (enc', dec') -> (escape_chars config <> [] -> is_Some (enc' !! 238)) ->
  new_encoder config compress = Ok e -> new_decoder config compress = Ok d ->
  bytes_ok (concat chunks ++ last) -> (length (concat chunks ++ last) < fuel)%nat ->
  concat chunks' ++ last' = encode_all e chunks last ->
  decode_all fuel d chunks' last' [] = Some (Ok (concat chunks ++ last)).
Proof.
  intros Ht Hmark He Hd Hok Hf Hcut. unfold new_encoder in He. unfold new_decoder in Hd. rewrite Ht in He, Hd. cbn [rbind fst snd] in He, Hd.
  injection He as <-. injection Hd as <-.
  set (z := compressed (if compress then Some z_encoder else None) chunks last).
  set (d := mkDecoder (if compress then Some z_decoder else None) [] dec' (binary config) false (negb (bool_decide (escape_chars config = []))) (negb compress) false false).
  assert (Hframe : compress = true -> z_frame z (concat chunks ++ last)).
  { intros ->. apply (compressed_frame z_encoder chunks last [] []). apply z_encoder_new. }
  assert (Hz : bytes_ok z).
  { destruct compress; [by apply (z_frame_bytes z (concat chunks ++ last) (Hframe eq_refl) Hok)|]. unfold z. by rewrite compressed_none. }
  assert (Hw : awaits enc' d (concat chunks' ++ last') z (concat chunks ++ last)).
  { rewrite Hcut, (encode_all_ok enc') by done. cbn [e_binary e_zstd e_tail app]. fold z. split_and!.
    - split; [by apply (escape_table_inverse config)|]. cbn [d_has_escape d]. split.
      + intros Hn. apply negb_false_iff, bool_decide_eq_true in Hn. by apply (escape_table_empty config enc' dec').
      + intros Hn. apply negb_true_iff, bool_decide_eq_false in Hn. by apply Hmark.
    - unfold receives, d. cbn [d_binary d_escaped d_tail d_padded]. destruct (binary config); [done|]. split_and!; [done|done|cbn; lia|done|done].
    - unfold d. cbn [d_zstd d_complete]. destruct compress; cbn [negb]; [|split; [|done]; unfold z; by rewrite compressed_none].
      destruct (z_frame_bytes z _ (Hframe eq_refl) Hok) as [_ Hne]. split_and!; [by apply z_decoder_new, Hframe|by rewrite bool_decide_false by (by intros [? _])|done]. }
  apply (decode_all_ok enc' fuel d chunks' last' z _ [] Hw Hf).
Qed.
End Roundtrip.
End Codec.

(** ** Witnesses *)

(** Base64 as in RFC 4648. *)
Definition sym (d : Z) : Z :=
  if between 0 25 d then 65 + d else if between 26 51 d then 71 + d else if between 52 61 d then d - 4
  else if d =? 62 then 43 else 47.
Definition unsym (c : Z) : Z :=
  if between 65 90 c then c - 65 else if between 97 122 c then c - 71 else if between 48 57 c then c + 4
  else if c =? 43 then 62 else 63.

Fixpoint rfc_encode (x : bytes) : bytes :=
  match x with
  | a :: b :: c :: t => [sym (a / 4); sym (a mod 4 * 16 + b / 16); sym (b mod 16 * 4 + c / 64); sym (c mod 64)] ++ rfc_encode t
  | [a; b] => [sym (a / 4); sym (a mod 4 * 16 + b / 16); sym (b mod 16 * 4); 61]
  | [a] => [sym (a / 4); sym (a mod 4 * 16); 61; 61]
  | [] => []
  end.

Definition group1 (s0 s1 : Z) : Z := unsym s0 * 4 + unsym s1 / 16.
Definition group2 (s1 s2 : Z) : Z := unsym s1 mod 16 * 16 + unsym s2 / 4.
Definition group3 (s2 s3 : Z) : Z := unsym s2 mod 4 * 64 + unsym s3.

Fixpoint rfc_decode (y : bytes) : option bytes :=
  match y with
  | s0 :: s1 :: s2 :: s3 :: t =>
    if (s2 =? 61) then Some [group1 s0 s1]
    else if (s3 =? 61) then Some [group1 s0 s1; group2 s1 s2]
    else r ← rfc_decode t; Some (group1 s0 s1 :: group2 s1 s2 :: group3 s2 s3 :: r)
  | [] => Some []
  | _ => None
  end.

#[local] Instance rfc_base64 : Base64 := { b64_encode := rfc_encode; b64_decode := rfc_decode }.

Lemma sym_spec d : sym d <> 61 /\ (0 <= d < 64 -> unsym (sym d) = d).
Proof.
  unfold sym, between. split; [|intros Hd]; repeat match goal with |- context [if ?b then _ else _] => destruct b eqn:? end; try lia;
    unfold unsym, between; repeat match goal with |- context [if ?b then _ else _] => destruct b eqn:? end; lia.
Qed.

Lemma list3_ind (P : bytes -> Prop) :
  P [] -> (forall a, P [a]) -> (forall a b, P [a; b]) -> (forall a b c t, P t -> P (a :: b :: c :: t)) -> forall x, P x.
Proof.
  intros H0 H1 H2 H3. fix IH 1. intros [|a [|b [|c t]]]; [done|apply H1|apply H2|apply H3, IH].
Qed.

Lemma group_spec a b c :
  byte_ok a -> byte_ok b -> byte_ok c ->
  group1 (sym (a / 4)) (sym (a mod 4 * 16 + b / 16)) = a /\ group2 (sym (a mod 4 * 16 + b / 16)) (sym (b mod 16 * 4 + c / 64)) = b
  /\ group3 (sym (b mod 16 * 4 + c / 64)) (sym (c mod 64)) = c.
Proof.
  unfold byte_ok. intros Ha Hb Hc. unfold group1, group2, group3.
  rewrite !(proj2 (sym_spec _)) by (Z.to_euclidean_division_equations; lia). split_and!; Z.to_euclidean_division_equations; lia.
Qed.

#[local] Instance rfc_laws : Base64Laws.
Proof.
  split; cbn [b64_encode b64_decode rfc_base64].
  - induction x as [|a|a b|a b c t IH] using list3_ind; [done..|]. cbn [rfc_encode app length]. rewrite IH.
    replace (S (S (S (length t))) + 2)%nat with (length t + 2 + 1 * 3)%nat by lia. rewrite Nat.div_add by lia. lia.
  - induction x as [|a|a b|a b c t IH] using list3_ind; intros y Hx; [done|done|done|]. cbn [rfc_encode app]. do 4 f_equal. apply IH.
    cbn [length] in Hx. replace (S (S (S (length t)))) with (length t + 1 * 3)%nat in Hx by lia. by rewrite Nat.Div0.mod_add in Hx.
  - induction x as [|a|a b|a b c t IH] using list3_ind; intros Hx; [set_solver|done|done|]. cbn [rfc_encode app]. rewrite !not_elem_of_cons.
    split_and!; try (intros E; symmetry in E; by apply sym_spec in E). apply IH. cbn [length] in Hx.
    replace (S (S (S (length t)))) with (length t + 1 * 3)%nat in Hx by lia. by rewrite Nat.Div0.mod_add in Hx.
  - assert (Hn : forall d, (sym d =? 61) = false) by (intros d; apply Z.eqb_neq, sym_spec).
    assert (Hb0 : byte_ok 0) by (unfold byte_ok; lia).
    intros x Hx. induction x as [|a|a b|a b c t IH] using list3_ind; [done|..];
      unfold bytes_ok in *; repeat match goal with H : Forall byte_ok (_ :: _) |- _ => apply Forall_cons in H as [? H] end; cbn [rfc_encode rfc_decode app].
    + change (61 =? 61) with true. cbn iota. do 2 f_equal. destruct (group_spec a 0 0) as (E & _ & _); [assumption..|]. change (0 / 16) with 0 in E. by rewrite Z.add_0_r in E.
    + rewrite Hn. change (61 =? 61) with true. cbn iota. destruct (group_spec a b 0) as (E1 & E2 & _); [assumption..|]. change (0 / 64) with 0 in E2. rewrite Z.add_0_r in E2. by rewrite E1, E2.
    + rewrite !Hn, IH by done. cbn. by destruct (group_spec a b c) as (-> & -> & ->).
Qed.

(** A compressor that stores: a one before each byte and a zero at the end. *)
Definition stored (x : bytes) : bytes := concat ((fun b => [1; b]) <$> x).
Inductive stored_state := AtMark | AtByte | AtEnd.
#[local] Instance stored_state_eq_dec : EqDecision stored_state.
Proof. solve_decision. Defined.

Fixpoint stored_run (d : stored_state) (input : bytes) (cap : nat) : ZStatus stored_state :=
  let stop := mkStatus 0 [] (bool_decide (d = AtEnd)) d in
  match input with
  | [] => stop
  | b :: input' =>
    match d, cap with
    | AtMark, _ =>
      let st := stored_run (if b =? 1 then AtByte else AtEnd) input' cap in mkStatus (S (z_read st)) (z_written st) (z_done st) (z_next st)
    | AtByte, S cap' =>
      let st := stored_run AtMark input' cap' in mkStatus (S (z_read st)) (b :: z_written st) (z_done st) (z_next st)
    | _, _ => stop
    end
  end.

#[local] Instance stored_zstd : Zstd unit stored_state := {
  z_encoder := tt;
  z_write _ x := (stored x, tt);
  z_finish _ := [0];
  z_decoder := AtMark;
  z_run d input cap := Some (stored_run d input cap);
}.

Definition stored_expects (d : stored_state) (c x : bytes) : Prop :=
  match d with
  | AtMark => c = stored x ++ [0]
  | AtByte => exists b x', x = b :: x' /\ c = b :: stored x' ++ [0]
  | AtEnd => c = [] /\ x = []
  end.

Lemma stored_run_ok d input c x cap :
  stored_expects d (input ++ c) x ->
  exists n x1 x2 d', stored_run d input cap = mkStatus n x1 (bool_decide (drop n input ++ c = [] /\ x2 = [])) d'
    /\ x = x1 ++ x2 /\ (n <= length input)%nat /\ (length x1 <= cap)%nat /\ stored_expects d' (drop n input ++ c) x2
    /\ ((length x1 < cap)%nat -> n = length input /\ (c = [] -> x2 = [])).
Proof.
  revert d x cap. induction input as [|b input IH]; intros d x cap Hd; cbn [stored_run app] in *.
  { exists 0%nat, [], x, d. cbn. split_and!; [|done|lia|lia|done|].
    - f_equal. apply bool_decide_ext. destruct d; cbn in Hd; [|destruct Hd as (b & x' & -> & ->)|]; naive_solver.
    - intros _. split; [done|]. intros ->. destruct d; cbn in Hd; [by destruct (stored x)|by destruct Hd as (? & ? & _ & ?)|by destruct Hd]. }
  destruct d; cbn [stored_expects] in Hd.
  - assert (Hn : stored_expects (if b =? 1 then AtByte else AtEnd) (input ++ c) x).
    { destruct x as [|y x]; cbn in Hd; injection Hd as -> Hd; cbn; [by destruct input, c|]. by exists y, x. }
    destruct (IH _ x cap Hn) as (n & x1 & x2 & d' & -> & -> & Hle & Hcap & Hd' & Hroom). exists (S n), x1, x2, d'. cbn [z_read z_written z_done z_next drop length].
    split_and!; try done; [lia|]. intros Hlt. destruct (Hroom Hlt) as [-> ?]. done.
  - destruct Hd as (y & x' & -> & [= -> Hd]). destruct cap as [|cap].
    { exists 0%nat, [], (y :: x'), AtByte. cbn [length drop app]. split_and!; [|done|lia|lia|by exists y, x'; cbn; rewrite Hd|intros; lia].
      f_equal. }
    destruct (IH AtMark x' cap Hd) as (n & x1 & x2 & d' & -> & -> & Hle & Hcap & Hd' & Hroom). exists (S n), (y :: x1), x2, d'. cbn [z_read z_written z_done z_next drop length app].
    split_and!; try done; [lia|lia|]. intros Hlt. destruct Hroom as [-> ?]; [lia|]. done.
  - by destruct Hd.
Qed.

#[local] Instance stored_laws : ZstdLaws unit stored_state.
Proof.
  refine {| z_frame c x := c = stored x ++ [0]; z_encodes _ c x := c = stored x; z_expects := stored_expects |}; cbn.
  - done.
  - intros _ c x y ->. unfold stored. by rewrite fmap_app, concat_app.
  - by intros _ c x ->.
  - intros c x -> Hx. split; [|by destruct (stored x)]. apply Forall_app. split; [|repeat constructor; lia]. unfold stored. apply Forall_concat, Forall_fmap.
    eapply Forall_impl; [exact Hx|]. intros b Hb. apply Forall_cons. split; [unfold byte_ok; lia|]. by apply Forall_singleton.
  - done.
  - intros d input c x cap Hd _ _. destruct (stored_run_ok d input c x cap Hd) as (n & x1 & x2 & d' & -> & Hrest). exists n, x1, x2, d'. done.
Defined.

Definition ex_config (bin : bool) : TrzszConfig :=
  mkTrzszConfig bin (Some 4) None None [([238], [238; 238]); ([126], [238; 49])].

(** Three ways to cut the same compressed stream, in text mode. *)
Lemma codec_roundtrip_witness :
  exists e d, new_encoder (E := unit) (ex_config false) true = Ok e /\ new_decoder (D := stored_state) (ex_config false) true = Ok d
    /\ let wire := encode_all e [[7; 238]; [126]] [9] in
       decode_all 10 d [take 5 wire; []] (drop 5 wire) [] = Some (Ok [7; 238; 126; 9]).
Proof.
  eexists _, _. split; [reflexivity|]. split; [reflexivity|]. intros wire.
  eapply (codec_roundtrip (ex_config false) true _ _ _ _ [[7; 238]; [126]] [9] [take 5 wire; []] (drop 5 wire) 10).
  - reflexivity.
  - intros _. eexists. vm_compute. reflexivity.
  - reflexivity.
  - reflexivity.
  - vm_compute. repeat constructor; (discriminate || reflexivity).
  - cbn. lia.
  - reflexivity.
Defined.

(** A table that does not escape the mark is accepted by [validate], and a plain 0xEE is then
    sent as it is: the decoder takes it for an escape. *)
Example unescaped_mark_lost :
  let config := mkTrzszConfig true (Some 4) None None [([126], [238; 49])] in
  validate_config config = Ok tt
  /\ match new_encoder (E := unit) config false, new_decoder (D := stored_state) config false with
     | Ok e, Ok d => decode_all 1 d [] (encode_all e [] [238; 49]) [] = Some (Ok [126])
     | _, _ => False
     end.
Proof. split; vm_compute; reflexivity. Qed.
