(* ===== verification/ZmodemDetect.v ===== *)
(** * Detection of ZMODEM transfers

    [src/crates/nyaterm-transport/src/zmodem.rs], its detection part: the output of a terminal
    is scanned for the header with which [sz] and [rz] start, while bytes that may be the
    beginning of one are withheld for a bounded time. An [Instant] is a number of
    nanoseconds. *)

From stdpp Require Import base option list numbers strings sets.
From Stdlib Require Import ZArith Lia.
From S2P Require Import Prelude RustStr.

Local Open Scope Z_scope.

(** ** Data *)

Definition ZPAD : Z := 42.
Definition ZDLE : Z := 24.
Definition ZHEX : Z := 66.
Definition ZBIN : Z := 65.
Definition ZBIN32 : Z := 67.
Definition ZMODEM_HEADER_LEN : nat := 4.
Definition ZMODEM_ASTERISK_IDLE_TIMEOUT : Z := 50 * 1000000.
Definition ZMODEM_HEADER_IDLE_TIMEOUT : Z := 1000 * 1000000.

Inductive ZmodemDirection := Download | Upload.
#[export] Instance ZmodemDirection_eq_dec : EqDecision ZmodemDirection.
Proof. solve_decision. Defined.

Inductive ZmodemDetectResult :=
| NoMatch (passthrough : bytes)
| Detected (direction : ZmodemDirection) (passthrough initial_bytes : bytes).

Record ZmodemDetector := mkDetector {
  pending : bytes;
  pending_updated_at : option Z;
  pending_starts_at_line_start : bool;
}.

Definition new_detector : ZmodemDetector := mkDetector [] None true.
Definition is_idle (d : ZmodemDetector) : bool := bool_decide (pending d = []).
Definition reset_detector (d : ZmodemDetector) : ZmodemDetector := mkDetector [] None true.

(** ** Headers *)

Definition zmodem_hex_digit (b : Z) : option Z :=
  if between 48 57 b then Some (b - 48)
  else if between 97 102 b then Some (b - 97 + 10)
  else if between 65 70 b then Some (b - 65 + 10)
  else None.

Definition parse_hex_frame_type (data : bytes) : option Z :=
  match data with
  | a :: b :: _ =>
    hi ← zmodem_hex_digit a;
    lo ← zmodem_hex_digit b;
    Some (Z.lor (ushl 8 hi 4) lo)
  | _ => None
  end.

Definition is_kind (kind : Z) : bool := (kind =? ZHEX) || (kind =? ZBIN) || (kind =? ZBIN32).

(** The header at the front of [data], if it is one. *)
Definition header_at (data : bytes) : option ZmodemDirection :=
  match data with
  | h0 :: h1 :: h2 :: h3 :: remaining =>
    if negb (h0 =? ZPAD) || negb (h1 =? ZPAD) || negb (h2 =? ZDLE) || negb (is_kind h3) then None
    else
      match (if h3 =? ZHEX then parse_hex_frame_type remaining else head remaining) with
      | Some 0 => Some Download
      | Some 1 => Some Upload
      | _ => None
      end
  | _ => None
  end.

(** The loop over start positions; [data] is the rest of the data from [start]. *)
Fixpoint detect_loop (start : nat) (data : bytes) : option (ZmodemDirection * nat) :=
  match data with
  | [] => None
  | _ :: data' =>
    if (length data <? ZMODEM_HEADER_LEN)%nat then None
    else match header_at data with
         | Some direction => Some (direction, start)
         | None => detect_loop (S start) data'
         end
  end.
Definition detect_zmodem_start (data : bytes) : option (ZmodemDirection * nat) := detect_loop 0 data.

Definition is_possible_zmodem_prefix (data : bytes) : bool :=
  match data with
  | [] => true
  | [a] => a =? ZPAD
  | [a; b] => (a =? ZPAD) && (b =? ZPAD)
  | [a; b; c] => (a =? ZPAD) && (b =? ZPAD) && (c =? ZDLE)
  | [a; b; c; kind] => (a =? ZPAD) && (b =? ZPAD) && (c =? ZDLE) && is_kind kind
  | [a; b; c; d; first_hex] =>
    (a =? ZPAD) && (b =? ZPAD) && (c =? ZDLE) && (d =? ZHEX) && bool_decide (is_Some (zmodem_hex_digit first_hex))
  | _ => false
  end.

(** ** What is withheld *)

Definition is_newline (b : Z) : bool := (b =? 10) || (b =? 13).

Definition is_line_start (data : bytes) (start : nat) (data_starts_at_line_start : bool) : bool :=
  if (start =? 0)%nat then data_starts_at_line_start
  else match data !! (start - 1)%nat with Some b => is_newline b | None => false end.

Definition ends_at_line_start (data : bytes) : bool := match last data with Some b => is_newline b | None => false end.

Definition suffix_contains_zdle (data : bytes) : bool := bool_decide (ZDLE ∈ data).

Definition RZ_RECEIVE_PROMPT : bytes := bs "z waiting to receive.".

(** [windows(p.len()).any(|w| w == p)], for a nonempty [p]. *)
Fixpoint has_window (p data : bytes) : bool :=
  match strip_prefix p data with
  | Some _ => true
  | None => match data with [] => false | _ :: data' => has_window p data' end
  end.
Definition has_rz_receive_prompt_before (data : bytes) (start : nat) : bool := has_window RZ_RECEIVE_PROMPT (take start data).

(** The loop over suffix lengths, from [len] down. *)
Fixpoint suffix_loop (len : nat) (data : bytes) (line_start : bool) : nat :=
  match len with
  | O => length data
  | S len' =>
    let start := (length data - len)%nat in
    let suffix := drop start data in
    if is_possible_zmodem_prefix suffix
       && (suffix_contains_zdle suffix || is_line_start data start line_start || has_rz_receive_prompt_before data start)
    then start else suffix_loop len' data line_start
  end.

Definition banner_candidates : list bytes :=
  [24 :: bs "z waiting to receive." ++ [13; 10]; 24 :: bs "z waiting to receive." ++ [10];
   bs "z waiting to receive." ++ [13; 10]; bs "z waiting to receive." ++ [10]].

Fixpoint banner_loop (len : nat) (prefix candidate data : bytes) (line_start : bool) : option nat :=
  match len with
  | O => None
  | S len' =>
    let start := (length prefix - len)%nat in
    if bool_decide (drop start prefix = take len candidate) && is_line_start data start line_start then Some start
    else banner_loop len' prefix candidate data line_start
  end.

Fixpoint candidates_loop (cands : list bytes) (prefix data : bytes) (line_start : bool) : option nat :=
  match cands with
  | [] => None
  | candidate :: cands' =>
    match banner_loop (Nat.min (length prefix) (length candidate)) prefix candidate data line_start with
    | Some start => Some start
    | None => candidates_loop cands' prefix data line_start
    end
  end.

Definition rz_receive_banner_prefix_start (data : bytes) (end_ : nat) (line_start : bool) : option nat :=
  if (end_ <=? length data)%nat then candidates_loop banner_candidates (take end_ data) data line_start else None.

Definition retained_prefix_start (data : bytes) (line_start : bool) : nat :=
  let keep_from := suffix_loop (Nat.min (length data) (ZMODEM_HEADER_LEN + 1)) data line_start in
  match rz_receive_banner_prefix_start data keep_from line_start with
  | Some banner_start => Nat.min keep_from banner_start
  | None => keep_from
  end.

(** ** What is stripped before an upload *)

Fixpoint strip_first (patterns : list bytes) (data : bytes) : bytes :=
  match patterns with
  | [] => data
  | p :: patterns' => match strip_suffix p data with Some r => r | None => strip_first patterns' data end
  end.

Definition banners : list bytes := [24 :: bs "z waiting to receive."; bs "z waiting to receive."].
Definition banner_tails : list bytes := [[13; 10]; [10]; [13]; []].
Definition strip_rz_receive_banner (data : bytes) : bytes :=
  strip_first (b ← banners; (fun t => b ++ t) <$> banner_tails) data.

Definition echo_patterns : list bytes :=
  [bs "rz -e -y" ++ [13; 10]; bs "rz -e -y" ++ [13]; bs "rz -e -y";
   bs "rz -e" ++ [13; 10]; bs "rz -e" ++ [13]; bs "rz -e";
   bs "rz" ++ [13; 10]; bs "rz" ++ [13]; bs "rz"].
Definition strip_rz_echo (data : bytes) : bytes := strip_first echo_patterns (strip_rz_receive_banner data).

(** ** The operations *)

Definition feed_at (d : ZmodemDetector) (data : bytes) (now : Z) : ZmodemDetectResult * ZmodemDetector :=
  let p := pending d ++ data in
  let updated := if bool_decide (data = []) then pending_updated_at d else Some now in
  match detect_zmodem_start p with
  | Some (direction, header_start) =>
    let passthrough := take header_start p in
    (Detected direction (if bool_decide (direction = Upload) then strip_rz_echo passthrough else passthrough) (drop header_start p),
     reset_detector d)
  | None =>
    let keep_from := retained_prefix_start p (pending_starts_at_line_start d) in
    let passthrough := take keep_from p in
    let p' := drop keep_from p in
    (NoMatch passthrough,
     mkDetector p' (if bool_decide (p' = []) then None else updated)
       (if (0 <? keep_from)%nat then ends_at_line_start passthrough else pending_starts_at_line_start d))
  end.

Definition flush_pending_if_idle (d : ZmodemDetector) (now : Z) : bytes * ZmodemDetector :=
  match pending_updated_at d with
  | None => ([], d)
  | Some updated_at =>
    let timeout := if suffix_contains_zdle (pending d) then ZMODEM_HEADER_IDLE_TIMEOUT else ZMODEM_ASTERISK_IDLE_TIMEOUT in
    if sat_sub now updated_at <? timeout then ([], d)
    else (pending d, mkDetector [] None (ends_at_line_start (pending d)))
  end.

(** A cheap test before a detector is woken up. *)
Definition output_may_contain_trigger (data : bytes) : bool :=
  bool_decide (ZDLE ∈ data) || bool_decide (is_Some (strip_suffix [ZPAD] data))
  || bool_decide (is_Some (strip_suffix [ZPAD; ZPAD] data)) || bool_decide (is_Some (strip_suffix [ZPAD; ZPAD; ZDLE] data)).

(** ** Runs *)

(** What the owner of a detector does until a transfer is detected: it feeds output and, when
    idle, asks for what is withheld. *)
Inductive event := Feed (data : bytes) (now : Z) | Flush (now : Z).

Definition fed (es : list event) : bytes := concat ((fun e => match e with Feed data _ => data | Flush _ => [] end) <$> es).

(** A run gives the bytes shown and the detector, or the detection and the events left. *)
Fixpoint run (d : ZmodemDetector) (es : list event) :
  bytes * (ZmodemDetector + ZmodemDirection * bytes * bytes * list event) :=
  match es with
  | [] => ([], inl d)
  | Feed data now :: es' =>
    match feed_at d data now with
    | (NoMatch passthrough, d') => let r := run d' es' in (passthrough ++ r.1, r.2)
    | (Detected direction passthrough initial, _) => ([], inr (direction, passthrough, initial, es'))
    end
  | Flush now :: es' =>
    let f := flush_pending_if_idle d now in
    let r := run f.2 es' in (f.1 ++ r.1, r.2)
  end.

(** ** Headers and their prefixes *)

Lemma header_at_app data x direction : header_at data = Some direction -> header_at (data ++ x) = Some direction.
Proof.
  destruct data as [|a [|b [|c [|k r]]]]; try done. cbn [header_at app]. destruct (_ || negb (is_kind k)); [done|].
  destruct (k =? ZHEX); destruct r as [|e [|f r]]; cbn; try done.
Qed.

Lemma header_at_long data x direction :
  (6 <= length data)%nat -> header_at (data ++ x) = Some direction -> header_at data = Some direction.
Proof. by destruct data as [|a [|b [|c [|k [|e [|f r]]]]]]; cbn [length]; intros Hlen; [lia..|]. Qed.

Lemma header_at_length data direction : header_at data = Some direction -> (5 <= length data)%nat.
Proof.
  destruct data as [|a [|b [|c [|k [|e r]]]]]; cbn; intros H; try done; [|lia].
  destruct (_ || negb (is_kind k)); [done|]. by destruct (k =? ZHEX).
Qed.

(** An incomplete header is one of the prefixes the detector knows. *)
Lemma header_prefix data x direction :
  data <> [] -> header_at data = None -> header_at (data ++ x) = Some direction ->
  is_possible_zmodem_prefix data = true /\ (length data <= 5)%nat.
Proof.
  intros Hne Hnone Happ. destruct (decide (6 <= length data)%nat) as [Hl|Hl].
  { rewrite (header_at_long _ _ _ Hl Happ) in Hnone. done. }
  split; [|lia]. clear Hl.
  destruct data as [|a [|b [|c [|k [|e [|f r]]]]]]; [done|..]; cbn [app] in Happ.
  - destruct x as [|b [|c [|k x]]]; try done. cbn in *. by destruct (a =? ZPAD).
  - destruct x as [|c [|k x]]; try done. cbn in *. by destruct (a =? ZPAD), (b =? ZPAD).
  - destruct x as [|k x]; try done. cbn in *. by destruct (a =? ZPAD), (b =? ZPAD), (c =? ZDLE).
  - cbn in *. destruct (a =? ZPAD), (b =? ZPAD), (c =? ZDLE), (is_kind k); cbn in *; congruence.
  - cbn in *. destruct (a =? ZPAD), (b =? ZPAD), (c =? ZDLE), (is_kind k); cbn in *; try congruence.
    destruct (k =? ZHEX); cbn; [|congruence]. apply bool_decide_eq_true. destruct x; [done|]. by destruct (zmodem_hex_digit e).
  - exfalso. cbn in *. congruence.
Qed.

Lemma detect_loop_spec data start :
  match detect_loop start data with
  | Some (direction, p) => exists i, p = (start + i)%nat /\ header_at (drop i data) = Some direction /\ (forall j, (j < i)%nat -> header_at (drop j data) = None)
  | None => forall j, header_at (drop j data) = None
  end.
Proof.
  revert start. induction data as [|a data IH]; intros start; [by intros []|]. cbn [detect_loop].
  destruct (Nat.ltb_spec (length (a :: data)) ZMODEM_HEADER_LEN) as [Hl|Hl].
  { intros j. destruct (header_at (drop j (a :: data))) eqn:E; [|done]. apply header_at_length in E. rewrite length_drop in E.
    unfold ZMODEM_HEADER_LEN in Hl. lia. }
  destruct (header_at (a :: data)) as [direction|] eqn:E.
  { exists 0%nat. split_and!; [lia|done|lia]. }
  specialize (IH (S start)). destruct (detect_loop (S start) data) as [[direction p]|].
  - destruct IH as (i & -> & Hi & Hj). exists (S i). split_and!; [lia|done|]. intros [|j] Hlt; [done|]. apply Hj. lia.
  - intros [|j]; [done|apply IH].
Qed.

(** The first header. *)
Lemma detect_Some data direction i :
  detect_zmodem_start data = Some (direction, i)
  <-> header_at (drop i data) = Some direction /\ forall j, (j < i)%nat -> header_at (drop j data) = None.
Proof.
  unfold detect_zmodem_start. pose proof (detect_loop_spec data 0) as H.
  destruct (detect_loop 0 data) as [[dir p]|].
  - destruct H as (i' & -> & Hi & Hj). rewrite Nat.add_0_l. split; [by intros [= -> ->]|]. intros [Hd Hfirst].
    destruct (lt_eq_lt_dec i i') as [[Hlt| ->]|Hlt]; [|congruence|].
    + rewrite Hj in Hd; done.
    + rewrite Hfirst in Hi; done.
  - split; [done|]. intros [Hd _]. by rewrite H in Hd.
Qed.

Lemma detect_None data : detect_zmodem_start data = None <-> forall j, header_at (drop j data) = None.
Proof.
  unfold detect_zmodem_start. pose proof (detect_loop_spec data 0) as H.
  destruct (detect_loop 0 data) as [[dir p]|]; [|done]. split; [done|]. intros Hn. destruct H as (i & _ & Hi & _). by rewrite Hn in Hi.
Qed.

Lemma detect_bound data direction i : detect_zmodem_start data = Some (direction, i) -> (i + 5 <= length data)%nat.
Proof. intros [Hi _]%detect_Some. apply header_at_length in Hi. rewrite length_drop in Hi. lia. Qed.

(** More input does not change a detection. *)
Lemma detect_app data x direction i :
  detect_zmodem_start data = Some (direction, i) -> detect_zmodem_start (data ++ x) = Some (direction, i).
Proof.
  intros Hd. pose proof (detect_bound _ _ _ Hd) as Hlen. apply detect_Some in Hd as [Hi Hj]. apply detect_Some. split.
  - rewrite drop_app_le by lia. by apply header_at_app.
  - intros j Hlt. rewrite drop_app_le by lia. destruct (header_at (drop j data ++ x)) eqn:E; [|done].
    apply header_at_long in E; [|rewrite length_drop; lia]. by rewrite Hj in E.
Qed.

Lemma detect_drop data k direction i :
  (k <= i)%nat -> detect_zmodem_start data = Some (direction, i) -> detect_zmodem_start (drop k data) = Some (direction, (i - k)%nat).
Proof.
  intros Hk [Hi Hj]%detect_Some. apply detect_Some. rewrite drop_drop. replace (k + (i - k))%nat with i by lia. split; [done|].
  intros j Hlt. rewrite drop_drop. apply Hj. lia.
Qed.

Lemma detect_drop_None data k : detect_zmodem_start data = None -> detect_zmodem_start (drop k data) = None.
Proof. rewrite !detect_None. intros H j. rewrite drop_drop. apply H. Qed.

(** ** What is withheld *)

Lemma suffix_loop_bound len data line_start :
  (len <= length data)%nat -> (length data - len <= suffix_loop len data line_start <= length data)%nat.
Proof. induction len as [|len IH]; cbn [suffix_loop]; intros Hl; [lia|]. destruct (_ && _); lia. Qed.

(** The loop finds a suffix that has to be kept, or an earlier one. *)
Lemma suffix_loop_keeps len data line_start i :
  (length data - len <= i)%nat -> (i < length data)%nat -> is_possible_zmodem_prefix (drop i data) = true ->
  is_line_start data i line_start = true -> (suffix_loop len data line_start <= i)%nat.
Proof.
  induction len as [|len IH]; cbn [suffix_loop]; intros Hlo Hhi Hp Hs; [lia|].
  destruct (is_possible_zmodem_prefix _ && _) eqn:E; [lia|].
  destruct (decide (i = length data - S len)%nat) as [->|Hne]; [|apply IH; try done; lia].
  rewrite Hp, Hs in E. cbn in E. by rewrite orb_true_r in E.
Qed.

Lemma banner_loop_bound len prefix candidate data line_start start :
  (len <= length prefix)%nat -> banner_loop len prefix candidate data line_start = Some start -> (length prefix - len <= start <= length prefix)%nat.
Proof.
  induction len as [|len IH]; cbn [banner_loop]; intros Hl H; [done|]. destruct (_ && _); [injection H as <-; lia|].
  specialize (IH ltac:(lia) H). lia.
Qed.

Lemma candidates_loop_bound cands prefix data line_start start n :
  Forall (fun c => (length c <= n)%nat) cands -> candidates_loop cands prefix data line_start = Some start ->
  (length prefix - n <= start <= length prefix)%nat.
Proof.
  induction 1 as [|c cands Hc _ IH]; cbn [candidates_loop]; intros H; [done|].
  destruct (banner_loop _ _ _ _ _) eqn:E; [|by apply IH]. injection H as ->. apply banner_loop_bound in E; lia.
Qed.

Definition RETAINED : nat := 29.

(** At most a header prefix and the receive banner before it. *)
Lemma retained_bound data line_start :
  (retained_prefix_start data line_start <= length data)%nat
  /\ (length data - retained_prefix_start data line_start <= RETAINED)%nat.
Proof.
  unfold retained_prefix_start, RETAINED.
  pose proof (suffix_loop_bound (Nat.min (length data) (ZMODEM_HEADER_LEN + 1)) data line_start ltac:(lia)) as Hs.
  set (keep := suffix_loop _ _ _) in *. unfold ZMODEM_HEADER_LEN in Hs. unfold rz_receive_banner_prefix_start.
  destruct (Nat.leb_spec keep (length data)) as [Hle|]; [|lia].
  destruct (candidates_loop _ _ _ _) as [start|] eqn:E; [|lia].
  apply (candidates_loop_bound _ _ _ _ _ 24) in E; [|by repeat constructor; vm_compute; lia].
  rewrite length_take in E. lia.
Qed.

Lemma retained_keeps data x line_start direction i :
  detect_zmodem_start data = None -> detect_zmodem_start (data ++ x) = Some (direction, i) -> (i < length data)%nat ->
  is_line_start data i line_start = true -> (retained_prefix_start data line_start <= i)%nat.
Proof.
  intros Hnone [Hi _]%detect_Some Hlt Hs. rewrite drop_app_le in Hi by lia.
  destruct (header_prefix (drop i data) x direction) as [Hp Hl]; [|by apply detect_None|done|].
  { intros E%(f_equal length). rewrite length_drop in E. cbn in E. lia. }
  rewrite length_drop in Hl. unfold retained_prefix_start. change (ZMODEM_HEADER_LEN + 1)%nat with 5%nat.
  assert (suffix_loop (Nat.min (length data) 5) data line_start <= i)%nat by (apply suffix_loop_keeps; [lia|done..]).
  destruct (rz_receive_banner_prefix_start _ _ _); [lia|done].
Qed.

(** ** What is stripped *)

Lemma strip_suffix_Some p s r : strip_suffix p s = Some r -> s = r ++ p.
Proof.
  unfold strip_suffix. destruct (strip_prefix _ _) as [t|] eqn:E; cbn; [|done]. intros [= <-].
  apply strip_prefix_Some in E. apply (f_equal (@rev Z)) in E. by rewrite rev_involutive, rev_app_distr, rev_involutive in E.
Qed.

Lemma strip_first_spec patterns data : exists p, p ∈ [] :: patterns /\ data = strip_first patterns data ++ p.
Proof.
  induction patterns as [|q patterns (p & Hp & IH)]; cbn [strip_first].
  { exists []. split; [set_solver|]. by rewrite app_nil_r. }
  destruct (strip_suffix q data) as [r|] eqn:E; [|exists p; split; [rewrite !elem_of_cons in *; tauto|done]].
  exists q. split; [by do 2 constructor|]. by apply strip_suffix_Some.
Qed.

(** The noise of [rz]: its command line as the shell echoes it, and its banner. *)
Definition rz_noise (noise : bytes) : Prop :=
  exists echo banner, noise = echo ++ banner /\ echo ∈ [] :: echo_patterns
    /\ banner ∈ [] :: (b ← banners; (fun t => b ++ t) <$> banner_tails).

Lemma strip_rz_echo_spec data : exists noise, rz_noise noise /\ data = strip_rz_echo data ++ noise.
Proof.
  unfold strip_rz_echo, strip_rz_receive_banner.
  destruct (strip_first_spec (b ← banners; (fun t => b ++ t) <$> banner_tails) data) as (banner & Hb & Hdata).
  set (rest := strip_first _ data) in Hdata |- *.
  destruct (strip_first_spec echo_patterns rest) as (echo & He & Hrest).
  exists (echo ++ banner). split; [by exists echo, banner|]. rewrite app_assoc, <- Hrest. exact Hdata.
Qed.

(** ** Steps *)

Definition removed (direction : ZmodemDirection) (noise : bytes) : Prop :=
  match direction with Download => noise = [] | Upload => rz_noise noise end.

(** A detector: it withholds little, nothing that is complete, and knows since when. *)
Definition detector_ok (d : ZmodemDetector) : Prop :=
  (length (pending d) <= RETAINED)%nat /\ detect_zmodem_start (pending d) = None
  /\ (pending_updated_at d = None <-> pending d = []).

Lemma feed_detected d data now direction i :
  detect_zmodem_start (pending d ++ data) = Some (direction, i) ->
  exists pass noise, (feed_at d data now).1 = Detected direction pass (drop i (pending d ++ data))
    /\ removed direction noise /\ take i (pending d ++ data) = pass ++ noise.
Proof.
  intros Hd. unfold feed_at. rewrite Hd. cbn [fst]. destruct direction; cbn.
  - eexists _, []. split_and!; [done..|]. by rewrite app_nil_r.
  - destruct (strip_rz_echo_spec (take i (pending d ++ data))) as (noise & Hn & E). eexists _, noise. done.
Qed.

Lemma feed_no_match d data now :
  detector_ok d -> detect_zmodem_start (pending d ++ data) = None ->
  let k := retained_prefix_start (pending d ++ data) (pending_starts_at_line_start d) in
  exists d', feed_at d data now = (NoMatch (take k (pending d ++ data)), d') /\ pending d' = drop k (pending d ++ data)
    /\ pending_starts_at_line_start d' = is_line_start (pending d ++ data) k (pending_starts_at_line_start d) /\ detector_ok d'.
Proof.
  intros (Hlen & _ & Hup) Hnone k. pose proof (retained_bound (pending d ++ data) (pending_starts_at_line_start d)) as [Hk Hr]. fold k in Hk, Hr.
  unfold feed_at. rewrite Hnone. fold k. eexists. split; [done|]. cbn [pending pending_starts_at_line_start]. split; [done|]. split.
  - unfold is_line_start, ends_at_line_start. destruct (Nat.ltb_spec 0 k); destruct (Nat.eqb_spec k 0); try lia; [|done].
    rewrite last_lookup, length_take, Nat.min_l, lookup_take_lt by lia. by rewrite Nat.sub_1_r.
  - unfold detector_ok. cbn. split_and!; [by rewrite length_drop|by apply detect_drop_None|].
    destruct (bool_decide_reflect (drop k (pending d ++ data) = [])) as [E|E]; [by split|]. split; [|done].
    destruct (bool_decide_reflect (data = [])) as [->|]; [|done]. intros Hn%Hup. rewrite Hn in E. by destruct k.
Qed.

Lemma flush_step d now :
  detector_ok d ->
  let f := flush_pending_if_idle d now in
  f.1 ++ pending f.2 = pending d /\ detector_ok f.2
  /\ (f.1 <> [] -> pending_starts_at_line_start f.2 = ends_at_line_start f.1) /\ (f.1 = [] -> f.2 = d)
  /\ ((forall t, pending_updated_at d = Some t -> t + ZMODEM_HEADER_IDLE_TIMEOUT <= now) -> pending f.2 = []).
Proof.
  intros Hok. pose proof Hok as (Hlen & Hn & Hup). unfold flush_pending_if_idle. destruct (pending_updated_at d) as [t|] eqn:E; cbn.
  2:{ split_and!; try done. intros _. by apply Hup. }
  destruct (Z.ltb_spec (sat_sub now t) (if suffix_contains_zdle (pending d) then ZMODEM_HEADER_IDLE_TIMEOUT else ZMODEM_ASTERISK_IDLE_TIMEOUT)) as [Hlt|Hge]; cbn.
  - split_and!; try done. intros Ht. specialize (Ht t eq_refl). unfold sat_sub, ZMODEM_HEADER_IDLE_TIMEOUT, ZMODEM_ASTERISK_IDLE_TIMEOUT in *.
    destruct (suffix_contains_zdle _); lia.
  - split_and!; try done; [by rewrite app_nil_r|unfold detector_ok, RETAINED; cbn; split_and!; [lia|done|done]|].
    intros Hp%Hup. done.
Qed.

(** ** Runs *)

(** Whether a line starts after [shown], when [flag] says so before it. *)
Definition line_after (flag : bool) (shown : bytes) : bool := match last shown with Some b => is_newline b | None => flag end.

Lemma line_after_app flag a b : line_after flag (a ++ b) = line_after (line_after flag a) b.
Proof. unfold line_after. rewrite last_app. by destruct (last b). Qed.

Lemma line_after_take flag data k : (k <= length data)%nat -> line_after flag (take k data) = is_line_start data k flag.
Proof.
  intros Hk. unfold line_after, is_line_start. destruct (Nat.eqb_spec k 0) as [->|Hne]; [done|].
  rewrite last_lookup, length_take, Nat.min_l, lookup_take_lt, Nat.sub_1_r by lia.
  destruct (data !! Nat.pred k) eqn:E; [done|]. apply lookup_ge_None in E. lia.
Qed.

Lemma flush_line d now :
  detector_ok d -> pending_starts_at_line_start (flush_pending_if_idle d now).2
    = line_after (pending_starts_at_line_start d) (flush_pending_if_idle d now).1.
Proof.
  intros Hok. destruct (flush_step d now Hok) as (_ & _ & Hf & Hn & _).
  destruct (flush_pending_if_idle d now) as [[|b f] d']; cbn [fst snd] in *; [by rewrite Hn|].
  rewrite Hf by done. unfold ends_at_line_start, line_after. rewrite last_cons. by destruct (last f).
Qed.

Lemma fed_cons e es : fed (e :: es) = match e with Feed data _ => data | Flush _ => [] end ++ fed es.
Proof. done. Qed.

Lemma detector_run_spec es d :
  detector_ok d ->
  match run d es with
  | (shown, inl d') =>
    shown ++ pending d' = pending d ++ fed es /\ detector_ok d'
    /\ pending_starts_at_line_start d' = line_after (pending_starts_at_line_start d) shown
  | (shown, inr (direction, pass, initial, rest)) =>
    exists noise, removed direction noise /\ shown ++ pass ++ noise ++ initial ++ fed rest = pending d ++ fed es
      /\ header_at initial = Some direction
  end.
Proof.
  revert d. induction es as [|[data now|now] es IH]; intros d Hok; cbn [run].
  - by rewrite app_nil_r.
  - destruct (detect_zmodem_start (pending d ++ data)) as [[direction i]|] eqn:E.
    + destruct (feed_detected d data now direction i E) as (pass & noise & Hf & Hr & Ht).
      destruct (feed_at d data now) as [r d']; cbn [fst] in Hf; subst r. exists noise. split; [done|]. rewrite fed_cons. split.
      * rewrite (app_assoc (pending d)). rewrite <- (take_drop i (pending d ++ data)) at 2. by rewrite Ht, <- !app_assoc.
      * by apply detect_Some in E as [? _].
    + destruct (feed_no_match d data now Hok E) as (d' & -> & Hp & Hline & Hok').
      set (k := retained_prefix_start _ _) in *. pose proof (retained_bound (pending d ++ data) (pending_starts_at_line_start d)) as [Hk _]. fold k in Hk.
      specialize (IH d' Hok'). assert (Hcut : pending d ++ fed (Feed data now :: es) = take k (pending d ++ data) ++ pending d' ++ fed es)
        by (rewrite Hp, app_assoc, take_drop, fed_cons; apply app_assoc). rewrite Hcut.
      destruct (run d' es) as [shown [d''|[[[direction pass] initial] rest]]]; cbn [fst snd].
      * destruct IH as (Hs & Hok'' & Hl). split_and!; [by rewrite <- app_assoc, Hs|done|]. by rewrite Hl, Hline, line_after_app, line_after_take.
      * destruct IH as (noise & Hr & Hs & Hh). exists noise. split_and!; [done| |done]. by rewrite <- app_assoc, Hs.
  - destruct (flush_step d now Hok) as (Hp & Hok' & _). pose proof (flush_line d now Hok) as Hline.
    destruct (flush_pending_if_idle d now) as [f d']; cbn [fst snd] in *. specialize (IH d' Hok').
    rewrite fed_cons, app_nil_l, <- Hp, <- app_assoc.
    destruct (run d' es) as [shown [d''|[[[direction pass] initial] rest]]]; cbn [fst snd].
    + destruct IH as (Hs & Hok'' & Hl). split_and!; [by rewrite <- app_assoc, Hs|done|]. by rewrite Hl, Hline, line_after_app.
    + destruct IH as (noise & Hr & Hs & Hh). exists noise. split_and!; [done| |done]. by rewrite <- app_assoc, Hs.
Qed.

(** Whatever is fed and whenever idle bytes are flushed, the detector loses nothing: until a
    transfer is detected the bytes shown and the bytes withheld make up the stream, at most 29
    bytes are withheld, no complete header is among them, and a flush one second after the last
    output releases them all; on detection the stream is what was shown, the noise of [rz] (for
    an upload only), the transfer's first bytes, which start with a header, and what comes
    after them. *)
Theorem detector_lossless es :
  match run new_detector es with
  | (shown, inl d) =>
    shown ++ pending d = fed es /\ (length (pending d) <= RETAINED)%nat /\ detect_zmodem_start (pending d) = None
    /\ forall now, (forall t, pending_updated_at d = Some t -> t + ZMODEM_HEADER_IDLE_TIMEOUT <= now) ->
         (flush_pending_if_idle d now).1 = pending d /\ is_idle (flush_pending_if_idle d now).2 = true
  | (shown, inr (direction, pass, initial, rest)) =>
    exists noise, removed direction noise /\ shown ++ pass ++ noise ++ initial ++ fed rest = fed es
      /\ header_at initial = Some direction
  end.
Proof.
  assert (Hok : detector_ok new_detector) by (unfold detector_ok, RETAINED; cbn; split_and!; [lia|done|done]).
  pose proof (detector_run_spec es _ Hok) as H. destruct (run new_detector es) as [shown [d|[[[direction pass] initial] rest]]]; [|exact H].
  destruct H as (Hs & Hd & _). split; [exact Hs|]. destruct Hd as (Hl & Hn & Hup) eqn:E. clear E. split; [done|]. split; [done|].
  intros now Ht. destruct (flush_step d now (conj Hl (conj Hn Hup))) as (Hp & _ & _ & _ & Hidle). specialize (Hidle Ht).
  rewrite Hidle, app_nil_r in Hp. split; [done|]. unfold is_idle. by rewrite Hidle.
Qed.

Lemma run_detects es d direction i :
  Forall (fun e => match e with Feed _ _ => True | Flush _ => False end) es -> detector_ok d ->
  detect_zmodem_start (pending d ++ fed es) = Some (direction, i) ->
  is_line_start (pending d ++ fed es) i (pending_starts_at_line_start d) = true ->
  exists shown pass noise initial rest, run d es = (shown, inr (direction, pass, initial, rest)) /\ removed direction noise
    /\ shown ++ pass ++ noise = take i (pending d ++ fed es) /\ initial ++ fed rest = drop i (pending d ++ fed es).
Proof.
  intros Hes. revert d i. induction Hes as [|[data now|now] es He Hes IH]; intros d i Hok Hd Hs; [|clear He|done].
  { destruct Hok as (_ & Hn & _). change (fed []) with (@nil Z) in Hd. rewrite app_nil_r in Hd. congruence. }
  rewrite fed_cons, (app_assoc (pending d)) in *. cbn [run]. set (p := pending d ++ data) in *.
  destruct (detect_zmodem_start p) as [[dir' j]|] eqn:E.
  - pose proof (detect_app _ (fed es) _ _ E) as E'. rewrite Hd in E'. injection E' as <- <-. pose proof (detect_bound _ _ _ E) as Hb.
    destruct (feed_detected d data now direction i E) as (pass & noise & Hf & Hr & Ht).
    destruct (feed_at d data now) as [r d']; cbn [fst] in Hf; subst r. exists [], pass, noise, (drop i p), es.
    split_and!; [done..| |]; fold p in Ht; [by rewrite take_app_le by lia|by rewrite drop_app_le by lia].
  - destruct (feed_no_match d data now Hok E) as (d' & -> & Hp & Hline & Hok'). fold p in Hp, Hline.
    set (k := retained_prefix_start _ _) in *. pose proof (retained_bound p (pending_starts_at_line_start d)) as [Hk _]. fold k in Hk.
    assert (Hki : (k <= i)%nat).
    { destruct (decide (i < length p)%nat) as [Hlt|Hge]; [|lia]. apply (retained_keeps p (fed es) _ direction); [done..|].
      rewrite <- line_after_take in Hs |- * by (rewrite ?length_app; lia). by rewrite take_app_le in Hs by lia. }
    assert (Hcut : pending d' ++ fed es = drop k (p ++ fed es)) by (rewrite Hp, drop_app_le by lia; done).
    destruct (IH d' (i - k)%nat Hok') as (shown & pass & noise & initial & rest & -> & Hr & Hsh & Hin).
    { rewrite Hcut. by apply detect_drop. }
    { pose proof (detect_bound _ _ _ Hd) as Hb. rewrite Hcut, <- line_after_take, Hline by (rewrite length_drop; lia).
      rewrite <- (line_after_take _ p), <- line_after_app by lia.
      rewrite <- line_after_take in Hs by lia. rewrite <- Hs. f_equal. rewrite <- (take_app_le p (fed es)) by lia.
      rewrite take_drop_commute. replace (k + (i - k))%nat with i by lia.
      rewrite <- (take_drop k (take i (p ++ fed es))) at 2. by rewrite take_take, Nat.min_l by lia. }
    exists (take k p ++ shown), pass, noise, initial, rest. split_and!; [done..| |].
    + rewrite <- app_assoc, Hsh, Hcut, <- (take_app_le p (fed es)) by lia. rewrite take_drop_commute. replace (k + (i - k))%nat with i by lia.
      rewrite <- (take_drop k (take i (p ++ fed es))) at 2. by rewrite take_take, Nat.min_l by lia.
    + rewrite Hin, Hcut, drop_drop. f_equal. lia.
Qed.

(** C36: A transfer whose header starts a line is detected however the output is cut into chunks: at
    the first header of the whole stream, with its direction, everything before it shown but
    noise of [rz] that may be left out, and the transfer given everything from the header on. *)
Theorem detection_chunking chunks direction i :
  let es := (fun c => Feed c.1 c.2) <$> chunks in
  let stream := concat (fst <$> chunks) in
  detect_zmodem_start stream = Some (direction, i) -> is_line_start stream i true = true ->
  exists shown pass noise initial rest, run new_detector es = (shown, inr (direction, pass, initial, rest))
    /\ removed direction noise /\ shown ++ pass ++ noise = take i stream /\ initial ++ fed rest = drop i stream.
Proof.
  intros es stream Hd Hs. assert (Hfed : fed es = stream).
  { unfold fed, es, stream. f_equal. by rewrite <- list_fmap_compose. }
  rewrite <- Hfed in *. apply (run_detects es new_detector); [|unfold detector_ok, RETAINED; cbn; split_and!; [lia|done|done]|done..].
  unfold es. by apply Forall_fmap, Forall_true.
Qed.

(** The header of [rz] after its echo and banner, one byte at a time. *)
Definition ex_stream : bytes := bs "rz" ++ [13] ++ bs "z waiting to receive." ++ [13; 10] ++ [42; 42; 24; 66; 48; 49] ++ bs "00".

Definition ex_chunks : list (bytes * Z) := (fun b => ([b], 0)) <$> ex_stream.

Lemma detection_chunking_witness :
  exists shown pass noise initial rest, run new_detector ((fun c => Feed c.1 c.2) <$> ex_chunks) = (shown, inr (Upload, pass, initial, rest))
    /\ removed Upload noise /\ shown ++ pass ++ noise = take 26 (concat (fst <$> ex_chunks))
    /\ initial ++ fed rest = drop 26 (concat (fst <$> ex_chunks)).
Proof. apply (detection_chunking ex_chunks Upload 26); vm_compute; reflexivity. Defined.

(** A header in the middle of a line is found when it comes in one piece, and missed when it is
    cut between its asterisks. *)
Example inline_header_cut :
  let header := [42; 42; 24; 66; 48; 48] in
  (exists pass initial, (feed_at new_detector (bs "x" ++ header) 0).1 = Detected Download pass initial)
  /\ exists d, run new_detector [Feed (bs "x" ++ take 1 header) 0; Feed (drop 1 header) 1] = (bs "x" ++ header, inl d).
Proof. split; [eexists _, _|eexists]; vm_compute; reflexivity. Qed.

(** An asterisk at the start of a line is withheld, and released by a flush two seconds later. *)
Lemma detector_lossless_witness :
  exists d, run new_detector [Feed (bs "x" ++ [10; 42]) 0] = (bs "x" ++ [10], inl d)
    /\ (flush_pending_if_idle d (2000 * 1000000)).1 = pending d /\ is_idle (flush_pending_if_idle d (2000 * 1000000)).2 = true.
Proof.
  pose proof (detector_lossless [Feed (bs "x" ++ [10; 42]) 0]) as H.
  eexists. split; [vm_compute; reflexivity|]. cbn in H. destruct H as (_ & _ & _ & H). apply H.
  cbn. intros t [= <-]. vm_compute. discriminate.
Defined.
