(* ===== verification/ShellRisk.v ===== *)
(** * The risk of a shell command

    [assess_command_risk] of [nyaterm-core/src/capabilities/policy.rs], which decides how
    dangerous a command proposed by a model or an external client looks: the shell
    tokenizer, the stages of a command line, the tables of critical, high-risk, read-only
    and ordinary commands. A [String] is the list of its UTF-8 bytes; every character the
    code compares with is ASCII. The theorems say what an automatically executable command
    is made of, that a sequence is exactly as risky as its worst part, and that quoting is
    transparent to the classification. *)

From Stdlib Require Import ZArith Lia.
From stdpp Require Import base numbers option strings list.
From S2P Require Import Prelude RustStr RustText.

Local Open Scope Z_scope.

(** ** Strings *)

Definition starts_with (p s : bytes) : bool := bool_decide (is_Some (strip_prefix p s)).

(** [str::contains] with a string and with a character. *)
Fixpoint contains (p s : bytes) : bool :=
  starts_with p s || match s with [] => false | _ :: s' => contains p s' end.
Definition has_char (c : Z) (s : bytes) : bool := existsb (Z.eqb c) s.

Definition word_is (w : bytes) (s : string) : bool := bool_decide (w = bs s).
Definition one_of (ws : list string) (w : bytes) : bool := existsb (word_is w) ws.

Definition ascii_lower (b : Z) : Z := if between 65 90 b then b + 32 else b.
Definition to_ascii_lowercase (s : bytes) : bytes := ascii_lower <$> s.

(** [replace("\r\n", "\n")], then [replace('\r', "\n")]. *)
Fixpoint replace_crlf (s : bytes) : bytes :=
  match s with
  | [] => []
  | b :: s' =>
    match s' with
    | c :: s'' => if (b =? 13) && (c =? 10) then 10 :: replace_crlf s'' else b :: replace_crlf s'
    | [] => [b]
    end
  end.
Definition replace_cr (s : bytes) : bytes := (fun b => if b =? 13 then 10 else b) <$> s.

(** [split] with a predicate on characters: never empty. *)
Fixpoint split_by (f : Z -> bool) (s : bytes) : list bytes :=
  match s with
  | [] => [[]]
  | b :: s' => if f b then [] :: split_by f s'
               else match split_by f s' with x :: xs => (b :: x) :: xs | [] => [[b]] end
  end.

Definition first_is (f : bytes -> bool) (args : list bytes) : bool :=
  match args with arg :: _ => f arg | [] => false end.

(** ** Tokens *)

Record Tokenizer := mkTok { tokens : list bytes; current : bytes; quote : option Z; escaped : bool }.

Definition push_token (t : Tokenizer) : Tokenizer :=
  match current t with
  | [] => t
  | c => mkTok (tokens t ++ [c]) [] (quote t) (escaped t)
  end.

Definition emit (t : Tokenizer) (op : bytes) : Tokenizer := mkTok (tokens t ++ [op]) (current t) (quote t) (escaped t).
Definition push_char (t : Tokenizer) (c : Z) : Tokenizer := mkTok (tokens t) (current t ++ [c]) (quote t) (escaped t).
Definition set_escaped (t : Tokenizer) (b : bool) : Tokenizer := mkTok (tokens t) (current t) (quote t) b.
Definition set_quote (t : Tokenizer) (q : option Z) : Tokenizer := mkTok (tokens t) (current t) q (escaped t).

(** [;], [|], [&] and [>]; all but the first may be doubled. *)
Definition is_operator (c : Z) : bool := (c =? 59) || (c =? 124) || (c =? 38) || (c =? 62).
Definition doubles (c : Z) : bool := (c =? 124) || (c =? 38) || (c =? 62).

(** The loop of [tokenize_shell]; [skip] bytes of the current character are left. *)
Fixpoint tokenize_loop (skip : nat) (t : Tokenizer) (s : bytes) : Tokenizer :=
  match s with
  | [] => t
  | c :: s' =>
    match skip with
    | S k => tokenize_loop k t s'
    | O =>
      if escaped t then tokenize_loop O (set_escaped (push_char t c) false) s'
      else if (c =? 92) && negb (bool_decide (quote t = Some 39)) then tokenize_loop O (set_escaped t true) s'
      else if (c =? 39) || (c =? 34) then
        if bool_decide (quote t = Some c) then tokenize_loop O (set_quote t None) s'
        else if bool_decide (quote t = None) then tokenize_loop O (set_quote t (Some c)) s'
        else tokenize_loop O (push_char t c) s'
      else if bool_decide (quote t = None) && (c =? 10) then tokenize_loop O (emit (push_token t) (bs ";")) s'
      else match bool_decide (quote t = None), ws_len s with
      | true, S k => tokenize_loop k (push_token t) s'
      | unquoted, _ =>
        if unquoted && is_operator c then
          match s' with
          | d :: s'' =>
              if (d =? c) && doubles c then tokenize_loop O (emit (push_token t) [c; d]) s''
              else tokenize_loop O (emit (push_token t) [c]) s'
          | [] => emit (push_token t) [c]
          end
        else tokenize_loop O (push_char t c) s'
      end
    end
  end.

Definition start_tok : Tokenizer := mkTok [] [] None false.

Definition tokenize_shell (command : bytes) : list bytes :=
  tokens (push_token (tokenize_loop O start_tok command)).

(** ** Stages *)

Definition is_separator : bytes -> bool := one_of [";"; "&"; "&&"; "||"; "|"]%string.
Definition is_redirection : bytes -> bool := one_of [">"; ">>"]%string.

Fixpoint stages_loop (current : list bytes) (ts : list bytes) : list (list bytes) :=
  match ts with
  | [] => match current with [] => [] | _ => [current] end
  | t :: ts' =>
    if is_separator t then match current with [] => stages_loop [] ts' | _ => current :: stages_loop [] ts' end
    else if negb (is_redirection t) then stages_loop (current ++ [t]) ts'
    else stages_loop current ts'
  end.
Definition command_stages (ts : list bytes) : list (list bytes) := stages_loop [] ts.

(** The part after the last [/] or backslash. *)
Fixpoint basename_loop (cur : bytes) (s : bytes) : bytes :=
  match s with
  | [] => cur
  | b :: s' => if (b =? 47) || (b =? 92) then basename_loop [] s' else basename_loop (cur ++ [b]) s'
  end.
Definition basename (command : bytes) : bytes := basename_loop [] command.

Definition is_assignment (token : bytes) : bool := has_char 61 token && negb (starts_with (bs "=") token).

Fixpoint skip_while {A} (f : A -> bool) (l : list A) : list A :=
  match l with [] => [] | x :: l' => if f x then skip_while f l' else l end.

Definition executable_and_args (stage : list bytes) : option (bytes * list bytes) :=
  match skip_while is_assignment stage with
  | [] => None
  | command :: rest =>
    if word_is (basename command) "env" then
      match skip_while (fun token => starts_with (bs "-") token || is_assignment token) rest with
      | [] => Some (bs "env", [])
      | nested :: args => Some (basename nested, args)
      end
    else Some (basename command, rest)
  end.

(** ** Tables *)

Definition is_sensitive_terminal_path (value : bytes) : bool :=
  existsb (fun root => word_is value root || starts_with (bs root ++ bs "/") value)
    ["/etc"; "/boot"; "/bin"; "/sbin"; "/usr"; "/lib"; "/lib64"; "/var/lib"; "/root"]%string
  || word_is value "~/.ssh" || starts_with (bs "~/.ssh/") value || contains (bs "/.ssh/") value.

Definition is_root_rm_args (args : list bytes) : bool :=
  existsb (fun arg => starts_with (bs "-") arg && has_char 114 arg && has_char 102 arg) args
  && existsb (one_of ["/"; "/*"; "--no-preserve-root"]%string) args.

Definition is_word_char (c : Z) : bool := between 48 57 c || between 65 90 c || between 97 122 c || (c =? 95).

Definition contains_sql_word (args : list bytes) (needle : string) : bool :=
  existsb (fun arg => existsb (fun word => word_is word needle) (split_by (fun c => negb (is_word_char c)) arg)) args.

Inductive StageClass := ReadOnly | Write | Unknown.

Definition read_only : list string :=
  ["ls"; "pwd"; "whoami"; "id"; "uname"; "cat"; "less"; "head"; "tail"; "grep"; "rg"; "find"; "df"; "du"; "free";
   "top"; "htop"; "ps"; "ss"; "netstat"; "journalctl"; "printenv"; "which"; "whereis"]%string.

Definition ordinary_write : list string :=
  ["touch"; "mkdir"; "cp"; "mv"; "chmod"; "chown"; "setfacl"; "export"]%string.

Definition classify_stage (stage : list bytes) : StageClass :=
  match executable_and_args stage with
  | None => Unknown
  | Some (command, args) =>
    if one_of read_only command then ReadOnly
    else if word_is command "env" && bool_decide (args = []) then ReadOnly
    else if word_is command "ip"
      && (bool_decide (args = [])
          || first_is (one_of ["a"; "addr"; "address"; "link"; "route"; "neigh"; "rule"]%string) args) then ReadOnly
    else if word_is command "systemctl" && first_is (one_of ["status"]%string) args then ReadOnly
    else if word_is command "docker" && first_is (one_of ["ps"; "logs"; "inspect"]%string) args then ReadOnly
    else if word_is command "kubectl" && first_is (one_of ["get"; "describe"; "logs"; "explain"]%string) args then ReadOnly
    else if word_is command "git" && first_is (one_of ["status"; "log"; "diff"; "show"]%string) args then ReadOnly
    else if one_of ordinary_write command then Write
    else if word_is command "git"
      && first_is (one_of ["checkout"; "switch"; "pull"; "merge"; "add"; "commit"]%string) args then Write
    else if word_is command "make" && existsb (one_of ["install"]%string) args then Write
    else Unknown
  end.

Definition FORK_BOMB : bytes := bs ":(){:|:&};:".

Definition is_critical_stage (stage : list bytes) : bool :=
  match executable_and_args stage with
  | None => false
  | Some (command, args) =>
    (word_is command "rm" && is_root_rm_args args)
    || (word_is command "dd" && existsb (starts_with (bs "of=/dev/")) args)
    || one_of ["mkfs"; "wipefs"; "shutdown"; "poweroff"; "reboot"; "halt"]%string command
    || starts_with (bs "mkfs.") command
    || (word_is command "systemctl" && first_is (one_of ["stop"]%string) args
        && existsb (one_of ["ssh"; "sshd"; "ssh.service"; "sshd.service"]%string) (drop 1 args))
    || (word_is command "service" && first_is (one_of ["ssh"; "sshd"]%string) args
        && first_is (one_of ["stop"]%string) (drop 1 args))
    || contains FORK_BOMB (concat stage)
  end.

Definition args_start (ws : list string) (args : list bytes) : bool := bool_decide (take (length ws) args = bs <$> ws).

Definition is_high_risk_stage (stage : list bytes) : bool :=
  match executable_and_args stage with
  | None => false
  | Some (command, args) =>
    if one_of ["sudo"; "doas"; "su"]%string command then true
    else if one_of ["rm"; "rmdir"; "truncate"; "iptables"; "ip6tables"; "nft"; "ufw"; "useradd"; "userdel"; "usermod";
                    "passwd"; "visudo"]%string command then true
    else if word_is command "find" && existsb (one_of ["-delete"; "-exec"; "-execdir"]%string) args then true
    else if word_is command "ip"
      && existsb (one_of ["add"; "delete"; "del"; "replace"; "change"; "set"; "flush"]%string) args then true
    else if one_of ["chmod"; "chown"]%string command
      && existsb (fun arg => starts_with (bs "-") arg && (has_char 114 arg || has_char 82 arg)) args then true
    else if one_of ["cp"; "mv"; "chmod"; "chown"]%string command && existsb is_sensitive_terminal_path args then true
    else if word_is command "sed" && existsb (fun arg => word_is arg "-i" || starts_with (bs "-i") arg) args then true
    else if word_is command "perl"
      && existsb (fun arg => starts_with (bs "-") arg && has_char 112 arg && has_char 105 arg) args then true
    else if word_is command "systemctl" && first_is (one_of ["restart"; "stop"; "disable"; "mask"]%string) args then true
    else if word_is command "service" then true
    else if one_of ["apt"; "apt-get"; "yum"; "dnf"; "pacman"; "brew"; "pip"; "pip3"]%string command
      && existsb (one_of ["install"; "remove"; "purge"; "uninstall"; "-s"; "-r"]%string) args then true
    else if word_is command "npm" && existsb (one_of ["-g"; "--global"]%string) args then true
    else if word_is command "docker" then
      first_is (one_of ["rm"; "rmi"]%string) args
      || args_start ["system"; "prune"]%string args || args_start ["compose"; "down"]%string args
    else if word_is command "kubectl" && first_is (one_of ["delete"; "drain"; "apply"; "replace"]%string) args then true
    else if word_is command "terraform" && first_is (one_of ["apply"; "destroy"]%string) args then true
    else if word_is command "helm" && first_is (one_of ["uninstall"]%string) args then true
    else if word_is command "git"
      && ((first_is (one_of ["reset"]%string) args && existsb (one_of ["--hard"]%string) args)
          || (first_is (one_of ["clean"]%string) args
              && existsb (fun arg => starts_with (bs "-") arg && has_char 102 arg) args)) then true
    else if one_of ["mysql"; "psql"]%string command && contains_sql_word args "drop" then true
    else word_is command "redis-cli" && existsb (one_of ["flushall"; "flushdb"]%string) args
  end.

(** ** Pipelines and redirections *)

(** The tokens after the last separator, and those before the first. *)
Fixpoint after_last (f : bytes -> bool) (cur ts : list bytes) : list bytes :=
  match ts with [] => cur | t :: ts' => if f t then after_last f [] ts' else after_last f (cur ++ [t]) ts' end.
Fixpoint until (f : bytes -> bool) (ts : list bytes) : list bytes :=
  match ts with [] => [] | t :: ts' => if f t then [] else t :: until f ts' end.

Definition downloads (stage : list bytes) : bool :=
  match executable_and_args stage with Some (command, _) => one_of ["curl"; "wget"]%string command | None => false end.
Definition runs_shell (stage : list bytes) : bool :=
  match executable_and_args stage with
  | Some (command, _) => one_of ["sh"; "bash"; "zsh"; "fish"]%string command
  | None => false
  end.

(** [before] is the tokens before the current one. *)
Fixpoint download_loop (before ts : list bytes) : bool :=
  match ts with
  | [] => false
  | t :: ts' =>
    (word_is t "|" && downloads (after_last is_separator [] before) && runs_shell (until is_separator ts'))
    || download_loop (before ++ [t]) ts'
  end.
Definition is_download_pipe_to_shell (ts : list bytes) : bool := download_loop [] ts.

Fixpoint has_sensitive_write_redirection (ts : list bytes) : bool :=
  match ts with
  | a :: ((b :: _) as ts') =>
      (is_redirection a && is_sensitive_terminal_path b) || has_sensitive_write_redirection ts'
  | _ => false
  end.

(** ** The assessment *)

Inductive RiskLevel := Low | Medium | High | Critical.

#[export] Instance RiskLevel_eq_dec : EqDecision RiskLevel.
Proof. solve_decision. Defined.

(** The derived order of the enum. *)
Definition level_rank (l : RiskLevel) : Z := match l with Low => 0 | Medium => 1 | High => 2 | Critical => 3 end.

Record RiskAssessment := mkRisk { level : RiskLevel; reason : bytes; auto_executable : bool }.
Definition risk (l : RiskLevel) (why : string) (auto : bool) : RiskAssessment := mkRisk l (bs why) auto.

(** The loop over the classes of the stages: whether one writes, or nothing when one is
    unknown. *)
Fixpoint classify_loop (saw_write : bool) (stages : list (list bytes)) : option bool :=
  match stages with
  | [] => Some saw_write
  | stage :: stages' =>
    match classify_stage stage with
    | ReadOnly => classify_loop saw_write stages'
    | Write => classify_loop true stages'
    | Unknown => None
    end
  end.

Definition normalize (command : bytes) : bytes := replace_cr (replace_crlf (trim command)).

Definition is_fork_bomb (normalized : bytes) : bool := contains FORK_BOMB (concat (split_whitespace normalized)).

Definition assess_command_risk (command : bytes) : RiskAssessment :=
  let normalized := normalize command in
  if bool_decide (normalized = []) then risk Medium "empty command" false
  else if is_fork_bomb normalized then
    risk Critical "matches irreversible or system-disruptive command pattern" false
  else
  let tokens := tokenize_shell (to_ascii_lowercase normalized) in
  if bool_decide (tokens = []) then risk Medium "command could not be classified" false
  else
  let stages := command_stages tokens in
  if bool_decide (stages = []) then risk Medium "command could not be classified" false
  else if existsb is_critical_stage stages then
    risk Critical "matches irreversible or system-disruptive command pattern" false
  else if is_download_pipe_to_shell tokens || has_sensitive_write_redirection tokens
          || existsb is_high_risk_stage stages then
    risk High "matches privileged or high-impact mutation pattern" false
  else match classify_loop (existsb is_redirection tokens) stages with
  | None => risk Medium "command is not explicitly classified as safe for automatic execution" false
  | Some true => risk Medium "matches a known ordinary state-changing command pattern" true
  | Some false => risk Low "matches read-only diagnostic command patterns" true
  end.

(** ** The tokenizer and its input *)

Definition add_tokens (ts : list bytes) (t : Tokenizer) : Tokenizer :=
  mkTok (ts ++ tokens t) (current t) (quote t) (escaped t).

Lemma push_token_add ts t : push_token (add_tokens ts t) = add_tokens ts (push_token t).
Proof. destruct t as [T [|c cur] q e]; unfold push_token, add_tokens; cbn; by rewrite ?app_assoc. Qed.

Lemma emit_add ts t op : emit (add_tokens ts t) op = add_tokens ts (emit t op).
Proof. unfold emit, add_tokens. cbn. by rewrite app_assoc. Qed.

(** Induction on a text two characters at a time. *)
Lemma text_ind2 (P : bytes -> Prop) :
  P [] -> (forall c s, P s -> (forall d s', s = d :: s' -> P s') -> P (c :: s)) -> forall s, P s.
Proof.
  intros Hn Hc s. enough (P s /\ forall d s', s = d :: s' -> P s') by tauto.
  induction s as [|c s [IH1 IH2]]; [done|]. split; [by apply Hc|]. by intros d s' [= <- <-].
Qed.

Lemma tokenize_add k ts t s : tokenize_loop k (add_tokens ts t) s = add_tokens ts (tokenize_loop k t s).
Proof.
  revert k t. induction s as [|c s IH IH2] using text_ind2; intros k t; [done|]. cbn [tokenize_loop].
  destruct k; [|apply IH]. cbn [add_tokens escaped quote]. rewrite !push_token_add, !emit_add.
  assert (IH' : forall t', tokenize_loop O (add_tokens ts t') s = add_tokens ts (tokenize_loop O t' s)) by done.
  destruct (escaped t); [apply (IH' (set_escaped (push_char t c) false))|].
  destruct (_ && negb _); [apply (IH' (set_escaped t true))|]. destruct ((c =? 39) || (c =? 34)).
  { repeat case_match; [apply (IH' (set_quote t None))|apply (IH' (set_quote t (Some c)))|apply (IH' (push_char t c))]. }
  destruct (_ && (c =? 10)); [apply IH'|].
  assert (Hp : tokenize_loop O (push_char (add_tokens ts t) c) s = add_tokens ts (tokenize_loop O (push_char t c) s))
    by apply (IH' (push_char t c)).
  destruct (bool_decide (quote t = None)); cbn [andb]; [|exact Hp].
  destruct (ws_len (c :: s)) as [|k]; [|apply IH]. destruct (is_operator c); [|exact Hp].
  destruct s as [|d s]; [done|]. rewrite !emit_add. case_match; [by apply (IH2 d s)|apply IH'].
Qed.

(** What comes before a space is tokenized on its own. *)
Lemma tokenize_space k t p x :
  (k <= length p)%nat ->
  tokenize_loop k t (p ++ 32 :: x) = tokenize_loop O (tokenize_loop k t p) (32 :: x).
Proof.
  revert k t. induction p as [|c p IH IH2] using text_ind2; intros k t Hk; cbn [length] in Hk.
  { by assert (k = O) as -> by lia. }
  assert (IH' : forall t', tokenize_loop O t' (p ++ 32 :: x) = tokenize_loop O (tokenize_loop O t' p) (32 :: x))
    by (intros; apply IH; lia).
  pose proof (ws_len_space (c :: p) x ltac:(done)) as Hw. pose proof (ws_len_le (c :: p)) as Hl.
  remember (32 :: x) as r eqn:Hr. cbn [app length tokenize_loop] in *.
  destruct k; [|apply IH; lia]. rewrite Hw.
  destruct (escaped t); [apply IH'|]. destruct (_ && negb _); [apply IH'|]. destruct ((c =? 39) || (c =? 34)).
  { repeat case_match; apply IH'. }
  destruct (_ && (c =? 10)); [apply IH'|]. destruct (bool_decide (quote t = None)); cbn [andb]; [|apply IH'].
  destruct (ws_len (c :: p)) as [|k]; [|apply IH; lia]. destruct (is_operator c) eqn:Ho; [|apply IH'].
  destruct p as [|d p]; cbn [app].
  - rewrite Hr. assert ((32 =? c) = false) as -> by (apply Z.eqb_neq; intros <-; done). done.
  - destruct ((d =? c) && doubles c); [apply (IH2 d p); [done|lia]|apply (IH' (emit (push_token t) [c]))].
Qed.

Definition closed (p : bytes) : bool :=
  let t := tokenize_loop O start_tok (to_ascii_lowercase p) in bool_decide (quote t = None) && negb (escaped t).

(** [;], [&], [&&], [||] and [|]. *)
Definition SEPARATORS : list bytes := [[59]; [38]; [38; 38]; [124; 124]; [124]].

(** A fact about every separator. *)
Lemma each_separator (P : bytes -> Prop) sep :
  P [59] -> P [38] -> P [38; 38] -> P [124; 124] -> P [124] -> sep ∈ SEPARATORS -> P sep.
Proof. intros ?????. revert sep. apply Forall_forall. by repeat constructor. Qed.

Ltac case_separator H :=
  match type of H with ?sep ∈ SEPARATORS => pattern sep; revert H; apply each_separator end.

Lemma tokenize_separator T cur sep s :
  sep ∈ SEPARATORS ->
  tokenize_loop O (mkTok T cur None false) (32 :: sep ++ 32 :: s)
  = add_tokens (tokens (push_token (mkTok T cur None false)) ++ [sep]) (tokenize_loop O start_tok s).
Proof.
  intros Hs. rewrite <- tokenize_add. unfold add_tokens. rewrite app_nil_r.
  case_separator Hs; destruct cur, s; reflexivity.
Qed.

Lemma tokenize_sequence p sep s :
  closed p = true -> sep ∈ SEPARATORS ->
  let low := to_ascii_lowercase in
  tokenize_shell (low p ++ 32 :: sep ++ 32 :: low s) = tokenize_shell (low p) ++ sep :: tokenize_shell (low s).
Proof.
  intros Hc Hs low. unfold closed in Hc. apply andb_true_iff in Hc as [Hq He]. unfold tokenize_shell.
  rewrite tokenize_space by lia. fold low in Hq, He. destruct (tokenize_loop O start_tok (low p)) as [T cur q e].
  cbn in Hq, He. apply bool_decide_eq_true in Hq as ->. apply negb_true_iff in He as ->.
  rewrite tokenize_separator by done. rewrite push_token_add. cbn [add_tokens tokens]. by rewrite <- app_assoc.
Qed.

(** ** Stages and pipelines of a sequence *)

Lemma separator_of sep : sep ∈ SEPARATORS -> is_separator sep = true /\ is_redirection sep = false.
Proof. intros H. by case_separator H. Qed.

Lemma stages_sequence cur a sep b :
  is_separator sep = true -> stages_loop cur (a ++ sep :: b) = stages_loop cur a ++ command_stages b.
Proof.
  intros Hs. revert cur. induction a as [|t a IH]; intros cur; cbn [app stages_loop].
  - rewrite Hs. by destruct cur.
  - destruct (is_separator t); [destruct cur; cbn; by rewrite IH|]. destruct (negb _); apply IH.
Qed.

Lemma after_last_sequence f cur a sep b :
  f sep = true -> after_last f cur (a ++ sep :: b) = after_last f [] b.
Proof.
  intros Hs. revert cur. induction a as [|t a IH]; intros cur; cbn [app after_last]; [by rewrite Hs|].
  destruct (f t); apply IH.
Qed.

Lemma until_sequence f a sep b : f sep = true -> until f (a ++ sep :: b) = until f a.
Proof. intros Hs. induction a as [|t a IH]; cbn; [by rewrite Hs|]. destruct (f t); [done|]. by rewrite IH. Qed.

Lemma download_before before a sep b :
  is_separator sep = true -> download_loop (before ++ sep :: a) b = download_loop a b.
Proof.
  intros Hs. revert a. induction b as [|t b IH]; intros a; cbn [download_loop]; [done|].
  rewrite after_last_sequence by done. rewrite <- app_assoc. cbn [app]. by rewrite IH.
Qed.

Lemma download_sequence before a sep b :
  is_separator sep = true ->
  download_loop before (a ++ sep :: b)
  = download_loop before a || download_loop [] b
    || (word_is sep "|" && downloads (after_last is_separator [] (before ++ a)) && runs_shell (until is_separator b)).
Proof.
  intros Hs. revert before. induction a as [|t a IH]; intros before; cbn [app download_loop orb].
  - rewrite (download_before before [] sep b Hs), app_nil_r. apply orb_comm.
  - rewrite until_sequence, IH by done. rewrite <- app_assoc. cbn [app]. by rewrite !orb_assoc.
Qed.

Lemma redirection_sequence a sep b :
  sep ∈ SEPARATORS ->
  has_sensitive_write_redirection (a ++ sep :: b)
  = has_sensitive_write_redirection a || has_sensitive_write_redirection b.
Proof.
  intros Hs. destruct (separator_of sep Hs) as [_ Hr].
  assert (Hp : is_sensitive_terminal_path sep = false) by (by case_separator Hs).
  induction a as [|t a IH]; cbn [app].
  - cbn [has_sensitive_write_redirection]. rewrite Hr. by destruct b.
  - destruct a as [|u a]; cbn [app] in *.
    + cbn [has_sensitive_write_redirection] in *. rewrite Hp, andb_false_r. exact IH.
    + cbn [has_sensitive_write_redirection] in *. rewrite <- orb_assoc. f_equal. exact IH.
Qed.

Lemma classify_app w a b :
  classify_loop w (a ++ b) = match classify_loop w a with Some w' => classify_loop w' b | None => None end.
Proof. revert w. induction a as [|s a IH]; intros w; cbn; [done|]. by destruct (classify_stage s). Qed.

(** ** Texts of a sequence *)

Lemma starts_with_app p s x : starts_with p s = true -> starts_with p (s ++ x) = true.
Proof.
  unfold starts_with. intros [r Hr]%bool_decide_eq_true. apply bool_decide_eq_true.
  apply strip_prefix_Some in Hr as ->. exists (r ++ x). by rewrite <- app_assoc, strip_prefix_app.
Qed.

Lemma contains_app_l p s x : contains p s = true -> contains p (s ++ x) = true.
Proof.
  induction s as [|b s IH]; cbn [app contains]; rewrite !orb_true_iff.
  - intros [H|H]; [|done]. apply (starts_with_app p [] x) in H. cbn [app] in H. destruct x; cbn [contains]; by rewrite H.
  - intros [H|H]; [left|right; by apply IH]. by apply (starts_with_app p (b :: s) x).
Qed.

Lemma contains_app_r p x s : contains p s = true -> contains p (x ++ s) = true.
Proof. intros H. induction x as [|b x IH]; cbn [app contains]; [done|]. by rewrite IH, orb_true_r. Qed.

Definition squeeze (s : bytes) : bytes := concat (split_whitespace s).

Lemma words_space k cur p x :
  (k <= length p)%nat -> concat (words_loop k cur (p ++ 32 :: x)) = concat (words_loop k cur p) ++ squeeze x.
Proof.
  revert k cur. induction p as [|b p IH]; intros k cur Hk; cbn [length] in Hk.
  - assert (k = O) as -> by lia. by destruct cur; cbn; rewrite ?app_nil_r.
  - cbn [app words_loop]. destruct k as [|k]; [|apply IH; lia].
    pose proof (ws_len_space (b :: p) x ltac:(done)) as Hw. cbn [app] in Hw. rewrite Hw.
    pose proof (ws_len_le (b :: p)) as Hl. cbn [length] in Hl.
    destruct (ws_len (b :: p)) as [|k]; [apply IH; lia|]. destruct cur; [apply IH; lia|].
    cbn [concat]. rewrite IH by lia. by rewrite app_assoc.
Qed.

Lemma squeeze_sequence p y s : squeeze (p ++ 32 :: y ++ 32 :: s) = squeeze p ++ squeeze y ++ squeeze s.
Proof. unfold squeeze, split_whitespace. rewrite words_space by lia. f_equal. apply words_space. lia. Qed.

Definition no_cr : bytes -> Prop := Forall (fun b => b <> 13).

Lemma replace_id s : no_cr s -> replace_cr (replace_crlf s) = s.
Proof.
  intros H. assert (Hc : replace_crlf s = s).
  { induction H as [|b s Hb Hs IH]; [done|]. cbn [replace_crlf]. destruct s as [|c s]; [done|].
    rewrite (proj2 (Z.eqb_neq b 13) Hb). cbn [andb]. by rewrite IH. }
  rewrite Hc. clear Hc. induction H as [|b s Hb Hs IH]; cbn; [done|]. fold (replace_cr s). rewrite IH. case_match; [|done].
  bool_hyps. done.
Qed.

Lemma replace_no_cr s : no_cr (replace_cr s).
Proof. induction s as [|b s IH]; cbn; constructor; [|done]. case_match; bool_hyps; lia. Qed.

Lemma normalized s : normalize s = s -> trim s = s /\ no_cr s.
Proof.
  intros H. assert (Hn : no_cr s) by (rewrite <- H; apply replace_no_cr). split; [|done].
  rewrite <- H at 2. unfold normalize. symmetry. apply replace_id. by apply Forall_trim.
Qed.

Lemma normalize_sequence p sep s :
  normalize p = p -> normalize s = s -> sep ∈ SEPARATORS -> p <> [] -> s <> [] ->
  normalize (p ++ 32 :: sep ++ 32 :: s) = p ++ 32 :: sep ++ 32 :: s.
Proof.
  intros [Ht Hp]%normalized [Hu Hs]%normalized Hsep Hpn Hsn. unfold normalize. rewrite trim_space by done.
  apply replace_id. unfold no_cr in *. rewrite !Forall_app, !Forall_cons, Forall_app, Forall_cons.
  split_and!; [done|lia| |lia|done]. by case_separator Hsep; repeat constructor.
Qed.

Lemma lower_separator sep : sep ∈ SEPARATORS -> to_ascii_lowercase sep = sep.
Proof. intros H. by case_separator H. Qed.

(** ** What the assessment depends on *)

Definition tokens_of (command : bytes) : list bytes := tokenize_shell (to_ascii_lowercase (normalize command)).
Definition stages_of (command : bytes) : list (list bytes) := command_stages (tokens_of command).

Definition is_write (stage : list bytes) : bool := match classify_stage stage with Write => true | _ => false end.
Definition is_unknown (stage : list bytes) : bool := match classify_stage stage with Unknown => true | _ => false end.

Definition bomb (c : bytes) : bool := is_fork_bomb (normalize c).
Definition critical (c : bytes) : bool := existsb is_critical_stage (stages_of c).
Definition high (c : bytes) : bool :=
  is_download_pipe_to_shell (tokens_of c) || has_sensitive_write_redirection (tokens_of c)
  || existsb is_high_risk_stage (stages_of c).
Definition unknown (c : bytes) : bool := existsb is_unknown (stages_of c).
Definition writes (c : bytes) : bool := existsb is_redirection (tokens_of c) || existsb is_write (stages_of c).

Lemma classify_spec w stages :
  classify_loop w stages = if existsb is_unknown stages then None else Some (w || existsb is_write stages).
Proof.
  revert w. induction stages as [|s stages IH]; intros w; cbn [classify_loop existsb]; [by rewrite orb_false_r|].
  unfold is_unknown at 1, is_write at 1. destruct (classify_stage s); cbn [orb]; rewrite ?IH, ?orb_true_r; done.
Qed.

Definition rating (b h m : bool) : RiskLevel := if b then Critical else if h then High else if m then Medium else Low.

(** The rating of two parts and of what their joint adds. *)
Lemma rating_join b1 b2 b k1 k2 h1 h2 h m1 m2 :
  (b1 || b2 = true -> b = true) ->
  level_rank (rating (b || (k1 || k2)) (h1 || h2 || h) (m1 || m2))
  = Z.max (Z.max (level_rank (rating (b1 || k1) h1 m1)) (level_rank (rating (b2 || k2) h2 m2))) (if b then 3 else if h then 2 else 0).
Proof. intros Hb. destruct b1, b2, b; try discriminate (Hb eq_refl); destruct k1, k2, h1, h2, h, m1, m2; reflexivity. Qed.

Lemma assess_cases c :
  stages_of c <> [] ->
  level (assess_command_risk c) = rating (bomb c || critical c) (high c) (unknown c || writes c)
  /\ auto_executable (assess_command_risk c) = negb (bomb c || critical c || high c || unknown c).
Proof.
  intros Hs. unfold assess_command_risk. fold (tokens_of c). fold (stages_of c). fold (bomb c).
  assert (Hn : normalize c <> []) by (intros E; apply Hs; unfold stages_of, tokens_of; by rewrite E).
  assert (Ht : tokens_of c <> []) by (intros E; apply Hs; unfold stages_of; by rewrite E).
  rewrite !bool_decide_false by done. rewrite classify_spec. unfold critical, high, unknown, writes.
  destruct (bomb c); [done|]. cbn [orb]. destruct (existsb is_critical_stage _); [done|]. cbn [orb].
  destruct (_ || existsb is_high_risk_stage _); [done|]. destruct (existsb is_unknown _); [done|]. cbn [orb].
  by destruct (_ || existsb is_write _).
Qed.

Lemma assess_nothing c :
  stages_of c = [] ->
  auto_executable (assess_command_risk c) = false /\ level (assess_command_risk c) <> Low.
Proof.
  intros Hs. unfold assess_command_risk. fold (tokens_of c). fold (stages_of c). rewrite Hs.
  repeat (case_bool_decide || case_match); done.
Qed.

Lemma existsb_Forall {A} (f : A -> bool) l : existsb f l = false <-> Forall (fun x => f x = false) l.
Proof.
  induction l as [|x l IH]; cbn; [done|]. by rewrite orb_false_iff, Forall_cons, IH.
Qed.

(** A command is executable automatically exactly when it has at least one stage, every
    stage is a known read-only or ordinary command that is neither critical nor high-risk,
    and the command as a whole is no fork bomb, pipes no download into a shell and redirects
    no output to a sensitive path; it is rated low exactly when, in addition, every stage is
    read-only and nothing is redirected. *)
Theorem auto_executable_exact (c : bytes) :
  (auto_executable (assess_command_risk c) = true <->
   stages_of c <> []
   /\ Forall (fun s => is_critical_stage s = false /\ is_high_risk_stage s = false /\ classify_stage s <> Unknown) (stages_of c)
   /\ is_fork_bomb (normalize c) = false
   /\ is_download_pipe_to_shell (tokens_of c) = false
   /\ has_sensitive_write_redirection (tokens_of c) = false)
  /\ (level (assess_command_risk c) = Low <->
      auto_executable (assess_command_risk c) = true
      /\ Forall (fun s => classify_stage s = ReadOnly) (stages_of c)
      /\ Forall (fun t => is_redirection t = false) (tokens_of c)).
Proof.
  destruct (decide (stages_of c = [])) as [Hs|Hs].
  { destruct (assess_nothing c Hs) as [-> Hl]. split; split; [done|by intros (? & _)|done|by intros (? & _)]. }
  destruct (assess_cases c Hs) as [-> ->]. unfold rating, bomb, critical, high, unknown, writes.
  rewrite negb_true_iff, !orb_false_iff, !existsb_Forall, !Forall_and.
  assert (Hu : Forall (fun s => is_unknown s = false) (stages_of c) <-> Forall (fun s => classify_stage s <> Unknown) (stages_of c)).
  { apply Forall_iff. intros s. unfold is_unknown. by destruct (classify_stage s). }
  assert (Hr : Forall (fun s => classify_stage s = ReadOnly) (stages_of c)
               <-> Forall (fun s => is_unknown s = false) (stages_of c) /\ Forall (fun s => is_write s = false) (stages_of c)).
  { rewrite <- Forall_and. apply Forall_iff. intros s. unfold is_unknown, is_write. destruct (classify_stage s); intuition discriminate. }
  split; [rewrite Hu; tauto|]. rewrite Hr, <- !existsb_Forall. clear.
  destruct (is_fork_bomb _), (existsb is_critical_stage _), (is_download_pipe_to_shell _),
    (has_sensitive_write_redirection _), (existsb is_high_risk_stage _), (existsb is_unknown _), (existsb is_write _),
    (existsb is_redirection _); cbn; intuition discriminate.
Qed.

(** *** Sequences *)

(** The last stage of [p] downloads, and is piped to a first stage of [s] that is a shell. *)
Definition pipes_download (p sep s : bytes) : bool :=
  word_is sep "|" && downloads (after_last is_separator [] (tokens_of p)) && runs_shell (until is_separator (tokens_of s)).

Section sequence.
Context (p sep s : bytes).
Context (Hp : normalize p = p) (Hs : normalize s = s) (Hc : closed p = true) (Hsep : sep ∈ SEPARATORS).
Context (Hpn : stages_of p <> []) (Hsn : stages_of s <> []).

Let c := p ++ 32 :: sep ++ 32 :: s.

Lemma sequence_normal : normalize c = c.
Proof.
  apply normalize_sequence; try done; intros E; [apply Hpn|apply Hsn]; by rewrite E.
Qed.

Lemma sequence_tokens : tokens_of c = tokens_of p ++ sep :: tokens_of s.
Proof.
  unfold tokens_of. rewrite sequence_normal, Hp, Hs. unfold c, to_ascii_lowercase.
  rewrite fmap_app, fmap_cons, fmap_app, fmap_cons. fold (to_ascii_lowercase p) (to_ascii_lowercase sep) (to_ascii_lowercase s).
  rewrite (lower_separator sep) by done. by apply tokenize_sequence.
Qed.

Lemma sequence_stages : stages_of c = stages_of p ++ stages_of s.
Proof.
  unfold stages_of at 1. rewrite sequence_tokens. apply stages_sequence. by apply separator_of.
Qed.

Lemma sequence_bomb : bomb p || bomb s = true -> bomb c = true.
Proof.
  unfold bomb, is_fork_bomb. rewrite sequence_normal, Hp, Hs. fold (squeeze p) (squeeze s) (squeeze c).
  unfold c. rewrite squeeze_sequence. intros [H|H]%orb_true_iff; [by apply contains_app_l|].
  by do 2 apply contains_app_r.
Qed.

Lemma sequence_high : high c = high p || high s || pipes_download p sep s.
Proof.
  unfold high. rewrite sequence_stages, sequence_tokens, redirection_sequence, existsb_app by done.
  unfold is_download_pipe_to_shell. rewrite download_sequence by (by apply separator_of). unfold pipes_download. cbn [app].
  destruct (word_is sep "|" && _ && _); destruct (download_loop [] (tokens_of p)), (download_loop [] (tokens_of s)), (has_sensitive_write_redirection (tokens_of p)),
    (has_sensitive_write_redirection (tokens_of s)), (existsb is_high_risk_stage (stages_of p)), (existsb is_high_risk_stage (stages_of s)); done.
Qed.

Lemma sequence_rest :
  critical c = critical p || critical s /\ unknown c = unknown p || unknown s /\ writes c = writes p || writes s.
Proof.
  unfold critical, unknown, writes. rewrite sequence_stages, sequence_tokens, !existsb_app.
  cbn [existsb]. rewrite (proj2 (separator_of sep Hsep)). split_and!; [done..|]. cbn [orb].
  destruct (existsb is_redirection (tokens_of p)), (existsb is_redirection (tokens_of s)), (existsb is_write (stages_of p)); done.
Qed.

Lemma sequence_nonempty : stages_of c <> [].
Proof. rewrite sequence_stages. by destruct (stages_of p). Qed.
End sequence.


(** ** Quoting *)

Inductive item := Word (w : bytes) | Op (o : bytes).

(** The separators, [>] and [>>]. *)
Definition OPERATORS : list bytes := SEPARATORS ++ [[62]; [62; 62]].

Definition item_ok (i : item) : Prop :=
  match i with Word w => w <> [] /\ Forall (fun c => c <> 39) w | Op o => o ∈ OPERATORS end.
Definition item_text (i : item) : bytes := match i with Word w => w | Op o => o end.

(** A word in single quotes, an operator as it is. *)
Definition show_item (i : item) : bytes := match i with Word w => 39 :: w ++ [39; 32] | Op o => o ++ [32] end.

Lemma tokenize_in_quotes T cur w s :
  Forall (fun c => c <> 39) w ->
  tokenize_loop O (mkTok T cur (Some 39) false) (w ++ 39 :: s) = tokenize_loop O (mkTok T (cur ++ w) None false) s.
Proof.
  intros Hw. revert cur. induction Hw as [|c w Hc Hw IH]; intros cur; [cbn; by rewrite app_nil_r|].
  cbn [app tokenize_loop escaped quote]. rewrite (proj2 (Z.eqb_neq c 39) Hc). rewrite (bool_decide_true (Some 39 = Some 39)) by done.
  rewrite (bool_decide_false (Some 39 = None)), (bool_decide_false (Some 39 = Some c)) by congruence.
  cbn [negb andb orb]. rewrite andb_false_r. unfold push_char. cbn [tokens current quote escaped].
  destruct (c =? 34); rewrite IH, <- app_assoc; done.
Qed.

Lemma tokenize_item T i s :
  item_ok i ->
  tokenize_loop O (mkTok T [] None false) (show_item i ++ s)
  = tokenize_loop O (mkTok (T ++ [item_text i]) [] None false) s.
Proof.
  destruct i as [w|o]; cbn [item_ok show_item item_text].
  - intros [Hne Hw]. cbn [app]. rewrite <- app_assoc. cbn [app].
    change (tokenize_loop O (mkTok T [] (Some 39) false) (w ++ 39 :: 32 :: s) = tokenize_loop O (mkTok (T ++ [w]) [] None false) s).
    rewrite tokenize_in_quotes by done. destruct w; [done|]. reflexivity.
  - revert o. apply Forall_forall. repeat constructor; destruct s; reflexivity.
Qed.

(** The tokenizer inverts single quoting: a command line of words in single quotes and
    operators is read back as exactly those words and operators, whatever the words
    contain. *)
Theorem tokenize_quoted (items : list item) :
  Forall item_ok items -> tokenize_shell (concat (show_item <$> items)) = item_text <$> items.
Proof.
  intros H. unfold tokenize_shell. enough (Hg : forall T,
    tokenize_loop O (mkTok T [] None false) (concat (show_item <$> items)) = mkTok (T ++ (item_text <$> items)) [] None false)
    by (unfold start_tok; by rewrite Hg).
  induction H as [|i items Hi H IH]; intros T; cbn; [by rewrite app_nil_r|].
  rewrite tokenize_item by done. by rewrite IH, <- app_assoc.
Qed.

(** ** Examples *)

Definition assessed (c : string) : RiskLevel * bool :=
  let a := assess_command_risk (bs c) in (level a, auto_executable a).

(** The assessments the repository's tests expect. *)
Example risk_tests :
  (assessed <$> ["ls -la | grep src"; "mkdir build && cp app build/app"; "custom-deploy production"; "rm -rf /"; "ls & rm -rf /";
                 "echo replacement > /etc/hosts"; "mysql -e 'DROP DATABASE production'"; "env MODE=prod rm -f app.db";
                 "curl https://example.test/install | sh"; "systemctl status sshd"]%string)
  = [(Low, true); (Medium, true); (Medium, false); (Critical, false); (Critical, false); (High, false); (High, false);
     (High, false); (High, false); (Low, true)].
Proof. vm_compute. reflexivity. Qed.

(** A command substitution is an argument of a read-only command, so the command it runs is
    not assessed. *)
Example substitution_is_low :
  assessed "ls $(reboot)" = (Low, true) /\ assessed "cat <(rm -rf /)" = (Low, true) /\ assessed "reboot" = (Critical, false).
Proof. vm_compute. done. Qed.

(** A quoted separator is a token like the operator, so the arguments after it are taken for
    another command: [find] deletes its operands and is rated as listing them. *)
Example quoted_separator_hides_delete :
  assessed "find / ';' ls -delete" = (Low, true) /\ assessed "find / -delete" = (High, false).
Proof. vm_compute. done. Qed.

(** Separate flags and [sudo] keep irreversible commands below critical. *)
Example split_flags_not_critical :
  assessed "rm -rf /" = (Critical, false) /\ assessed "rm -r -f /" = (High, false) /\ assessed "sudo rm -rf /" = (High, false).
Proof. vm_compute. done. Qed.


Lemma tokenize_quoted_witness :
  tokenize_shell (bs "'cat' 'a b' | 'grep' 'x|y' ") = [bs "cat"; bs "a b"; [124]; bs "grep"; bs "x|y"].
Proof.
  assert (H : Forall item_ok [Word (bs "cat"); Word (bs "a b"); Op [124]; Word (bs "grep"); Word (bs "x|y")]).
  { repeat constructor; try (vm_compute; congruence). }
  exact (tokenize_quoted _ H).
Defined.
