(* ===== verification/CapabilityPolicy.v ===== *)
(** * What a capability may do

    The rest of [nyaterm-core/src/capabilities] that decides without state: the sessions a
    caller may touch ([scope.rs]), the decision table of the permission modes ([policy.rs]),
    the risk of remote file operations ([sftp.rs]) and of tools ([tools.rs]), and the
    decision whether the agent may run a command on its own ([ai/risk.rs], [ai/agent.rs]).
    The theorems say which sessions a scope grants, that the decisions are monotone, that a
    model's own rating can only make the decision stricter, and that a remote path is rated
    the same however it is spelled. *)

From Stdlib Require Import ZArith Lia.
From stdpp Require Import base numbers option strings gmap list.
From S2P Require Import Prelude RustStr RustText ShellRisk.

Local Open Scope Z_scope.
Local Open Scope rust_scope.

(** ** Scopes *)

Record CapabilitySession := mkSession { session_id : bytes; owner_window_label : option bytes; live : bool }.

Inductive CapabilityScope :=
| Explicit (session_ids : gset bytes) (default_session_id : option bytes)
| CurrentWindow (owner_window_label : bytes)
| AllSessions.

Record CapabilityScopeSnapshot := mkSnapshot { session_ids : gset bytes; default_session_id : option bytes }.

Inductive CapabilityScopeError := SessionUnavailable (id : bytes) | MissingDefaultSession.

(** [Option::filter]. *)
Definition opt_filter {A} (f : A -> bool) (o : option A) : option A :=
  match o with Some x => if f x then Some x else None | None => None end.

Definition explicit (ids : list bytes) (default : option bytes) : CapabilityScope :=
  let session_ids : gset bytes := list_to_set ids in
  Explicit session_ids (opt_filter (fun id => bool_decide (id ∈ session_ids)) default).

Definition dynamic_snapshot (sessions : list CapabilitySession) : CapabilityScopeSnapshot :=
  let ids : gset bytes := list_to_set (session_id <$> sessions) in
  mkSnapshot ids (if bool_decide (size ids = 1%nat) then head (elements ids) else None).

Definition resolve (scope : CapabilityScope) (sessions : list CapabilitySession) : CapabilityScopeSnapshot :=
  match scope with
  | Explicit ids default =>
      let live_ids : gset bytes := list_to_set (session_id <$> List.filter live sessions) in
      let ids' : gset bytes := filter (fun id => id ∈ live_ids) ids in
      mkSnapshot ids' (opt_filter (fun id => bool_decide (id ∈ ids')) default)
  | CurrentWindow label =>
      dynamic_snapshot (List.filter (fun s => live s && bool_decide (owner_window_label s = Some label)) sessions)
  | AllSessions => dynamic_snapshot (List.filter live sessions)
  end.

Definition require (snapshot : CapabilityScopeSnapshot) (id : bytes) : result unit CapabilityScopeError :=
  if bool_decide (id ∈ session_ids snapshot) then Ok tt else Err (SessionUnavailable id).

Definition resolve_session (snapshot : CapabilityScopeSnapshot) (requested : option bytes) :
    result bytes CapabilityScopeError :=
  match opt_filter (fun id => negb (bool_decide (id = []))) (trim <$> requested) with
  | Some id => _ <-? require snapshot id; Ok id
  | None => ok_or (default_session_id snapshot) MissingDefaultSession
  end.

(** ** Decisions *)

Inductive CapabilityAccess := ARead | ASensitiveRead | AWrite | ADestructiveWrite.
Inductive AiPermissionMode := Observer | Confirm | MAuto | FullAccess.
Inductive AgentCommandExecutionMode := ConfirmEach | Smart | EAuto.
Inductive PolicyDecision := Allow | RequireApproval | Deny.

#[export] Instance CapabilityAccess_eq_dec : EqDecision CapabilityAccess.
Proof. solve_decision. Defined.
#[export] Instance AgentCommandExecutionMode_eq_dec : EqDecision AgentCommandExecutionMode.
Proof. solve_decision. Defined.
#[export] Instance PolicyDecision_eq_dec : EqDecision PolicyDecision.
Proof. solve_decision. Defined.

Definition is_some_and {A} (o : option A) (f : A -> bool) : bool := match o with Some x => f x | None => false end.

Definition requires_single_approval (access : CapabilityAccess) (assessment : option RiskAssessment) : bool :=
  bool_decide (access = ADestructiveWrite) || is_some_and assessment (fun risk => bool_decide (level risk = Critical)).

Definition decide_policy (mode : AiPermissionMode) (access : CapabilityAccess) (assessment : option RiskAssessment) :
    PolicyDecision :=
  match mode with
  | Observer =>
      match access with ARead => Allow | ASensitiveRead => RequireApproval | AWrite | ADestructiveWrite => Deny end
  | Confirm => match access with ARead => Allow | ASensitiveRead | AWrite | ADestructiveWrite => RequireApproval end
  | MAuto =>
      match access with
      | ARead | ASensitiveRead => Allow
      | AWrite =>
          if is_some_and assessment (fun risk => auto_executable risk && (level_rank (level risk) <? level_rank High))
          then Allow else RequireApproval
      | ADestructiveWrite => RequireApproval
      end
  | FullAccess => Allow
  end.

Definition decide_native_policy (mode : AgentCommandExecutionMode) (smart_max_risk : RiskLevel)
    (access : CapabilityAccess) (assessment : option RiskAssessment) : PolicyDecision :=
  let permission := match mode with ConfirmEach => Confirm | Smart => MAuto | EAuto => FullAccess end in
  let decision := decide_policy permission access assessment in
  if bool_decide (decision = Allow) && bool_decide (mode = Smart)
     && is_some_and assessment (fun risk => level_rank smart_max_risk <? level_rank (level risk))
  then RequireApproval else decision.

(** ** Ratings and the agent *)

Definition to_label (value : bytes) : bytes :=
  to_ascii_lowercase ((fun c => if c =? 45 then 95 else c) <$> trim value).

Definition parse_risk_level_label (value : bytes) : option RiskLevel :=
  let label := to_label value in
  if word_is label "low" then Some Low
  else if word_is label "medium" || word_is label "moderate" then Some Medium
  else if word_is label "high" then Some High
  else if word_is label "critical" || word_is label "danger" || word_is label "dangerous" then Some Critical
  else None.

Definition risk_label (r : RiskLevel) : bytes :=
  match r with Low => bs "low" | Medium => bs "medium" | High => bs "high" | Critical => bs "critical" end.

Definition max_risk (a b : RiskLevel) : RiskLevel := if level_rank b <=? level_rank a then a else b.

Definition assess_local_command_risk (command : bytes) : RiskLevel * bytes :=
  let assessment := assess_command_risk command in (level assessment, reason assessment).

(** The fields of [AgentLlmResponse] that take part in the assessment. *)
Record AgentLlmResponse := mkResponse { risk_level : option RiskLevel; risk_reason : option bytes }.

Record AgentCommandRiskAssessment := mkAgentRisk {
  a_auto_executable : bool; model_risk : RiskLevel; local_risk : RiskLevel; effective_risk : RiskLevel;
  a_risk_reason : option bytes }.

Definition assess_agent_command_risk (response : AgentLlmResponse) (command : bytes) : AgentCommandRiskAssessment :=
  let model := default Medium (risk_level response) in
  let (local, local_reason) := assess_local_command_risk command in
  let effective := max_risk model local in
  let local_text := bs "local " ++ risk_label local ++ bs ": " ++ local_reason in
  let reason :=
    match opt_filter (fun value => negb (bool_decide (trim value = []))) (risk_reason response) with
    | Some value => bs "model " ++ risk_label model ++ bs ": " ++ trim value ++ bs "; " ++ local_text
    | None => local_text
    end in
  mkAgentRisk (auto_executable (assess_command_risk command)) model local effective (Some reason).

Inductive AgentApprovalDecision := Auto | NeedsApproval.

(** [settings] is [agent_command_execution_mode] and [agent_smart_auto_execute_max_risk]. *)
Definition decide_agent_command_execution (settings : AgentCommandExecutionMode * RiskLevel)
    (assessment : AgentCommandRiskAssessment) : AgentApprovalDecision * option bytes :=
  let risk := mkRisk (effective_risk assessment) (bs "effective command risk") (a_auto_executable assessment) in
  let decision := decide_native_policy settings.1 settings.2 AWrite (Some risk) in
  if bool_decide (decision = Allow) then (Auto, None)
  else (NeedsApproval, Some (bs "execution policy requires explicit confirmation")).

(** ** Remote files *)

Inductive SftpRiskOperation := SRead | SWrite | SMkdir | SRename | SDelete | SChmod.

#[export] Instance SftpRiskOperation_eq_dec : EqDecision SftpRiskOperation.
Proof. solve_decision. Defined.

(** [parts.join("/")]. *)
Fixpoint join_slash (parts : list bytes) : bytes :=
  match parts with [] => [] | [p] => p | p :: parts' => p ++ 47 :: join_slash parts' end.

Fixpoint parts_loop (parts : list bytes) (traversal : bool) (rest : list bytes) : list bytes * bool :=
  match rest with
  | [] => (parts, traversal)
  | part :: rest' =>
    if word_is part "" || word_is part "." then parts_loop parts traversal rest'
    else if word_is part ".." then
      parts_loop (if is_some_and (last parts) (fun p => negb (word_is p "~")) then take (length parts - 1) parts else parts)
        true rest'
    else parts_loop (parts ++ [part]) traversal rest'
  end.

(** [trim_end_matches('/')]. *)
Fixpoint trim_slashes (s : bytes) : bytes :=
  match s with
  | [] => []
  | b :: s' => match trim_slashes s' with [] => if b =? 47 then [] else [b] | t => b :: t end
  end.

Definition normalize_remote_path (path : bytes) : bytes * bool :=
  let path := (fun c => if c =? 92 then 47 else c) <$> trim path in
  let absolute := starts_with (bs "/") path in
  let home := word_is path "~" || starts_with (bs "~/") path in
  let (parts, parent_traversal) := parts_loop [] false (split 47 path) in
  let joined := join_slash parts in
  let normalized :=
    if absolute && bool_decide (joined = []) then bs "/"
    else if absolute then bs "/" ++ joined
    else if home && negb (starts_with (bs "~") joined) then bs "~/" ++ joined
    else joined in
  (if word_is normalized "/" then normalized else trim_slashes normalized, parent_traversal).

Definition SYSTEM_ROOTS : list string :=
  ["/etc"; "/boot"; "/bin"; "/sbin"; "/usr"; "/lib"; "/lib64"; "/var/lib"; "/root"]%string.

(** The part after the last dot, if there is one. *)
Definition extension (path : bytes) : option bytes :=
  if has_char 46 path then last (split 46 path) else None.

Definition is_sensitive_path (path : bytes) : bool :=
  if word_is path "/" || existsb (fun root => word_is path root || starts_with (bs root ++ bs "/") path) SYSTEM_ROOTS then true
  else
  let components := split 47 path in
  if existsb (one_of [".ssh"]%string) components || word_is path "~/.ssh" || starts_with (bs "~/.ssh/") path
     || word_is path ".ssh" || starts_with (bs ".ssh/") path || contains (bs "/.ssh/") path then true
  else
  one_of ["authorized_keys"; "sshd_config"; "sudoers"; "passwd"; "shadow"; "group"; "crontab"]%string
    (default [] (last components))
  || existsb (one_of ["sudoers.d"; "systemd"; "nginx"; "cron"; "cron.d"; "cron.daily"; "cron.hourly"; "cron.monthly";
                      "cron.weekly"]%string) components
  || is_some_and (extension path) (one_of ["service"; "socket"; "timer"; "target"]%string).

(** [trim_start_matches('0')]. *)
Fixpoint trim_zeros (s : bytes) : bytes := match s with b :: s' => if b =? 48 then trim_zeros s' else s | [] => [] end.

Definition is_dangerous_mode (mode : bytes) : bool :=
  let mode := default (trim mode) (strip_prefix (bs "0o") (trim mode)) in
  is_some_and (parse_uint 32 8 (trim_zeros mode)) (fun value => (value =? 438) || (value =? 511)).

Definition assess_sftp_risk (operation : SftpRiskOperation) (path : bytes) (destination_path : option bytes)
    (force : bool) (mode : option bytes) : RiskAssessment :=
  if bool_decide (operation = SDelete) then risk High "remote path deletion is destructive" false
  else if bool_decide (operation = SRead) then risk Medium "remote file access may expose sensitive data" true
  else
  let (path, path_has_parent_traversal) := normalize_remote_path path in
  let (destination, destination_has_parent_traversal) := default ([], false) (normalize_remote_path <$> destination_path) in
  let sensitive := is_sensitive_path path || (negb (bool_decide (destination = [])) && is_sensitive_path destination) in
  if force then risk High "force write bypasses optimistic concurrency protection" false
  else if sensitive || path_has_parent_traversal || destination_has_parent_traversal then
    risk High "mutation targets a sensitive or ambiguously resolved remote path" false
  else if bool_decide (operation = SChmod) && is_some_and mode is_dangerous_mode then
    risk Medium "permission change grants broad remote access" true
  else risk Medium "ordinary remote filesystem mutation" true.

(** ** Tools *)

(** The JSON decoders of the tool arguments: the fields the assessment reads. *)
Class ToolArgs (Value : Type) := {
  terminal_start_args : Value -> option bytes;
  terminal_execute_args : Value -> option bytes;
  sftp_write_text_args : Value -> option (bytes * option bool);
  sftp_mkdir_args : Value -> option (bytes * option bytes);
  sftp_rename_args : Value -> option (bytes * bytes);
  path_args : Value -> option bytes;
  sftp_chmod_args : Value -> option (bytes * bytes) }.

Definition assess_tool_risk `{ToolArgs Value} (tool_name : bytes) (arguments : Value) : option RiskAssessment :=
  if word_is tool_name "session_open" then
    Some (risk Medium "opening a saved connection changes live session state" true)
  else if word_is tool_name "terminal_start" then assess_command_risk <$> terminal_start_args arguments
  else if word_is tool_name "terminal_stop" then Some (risk Medium "interrupting the owned terminal job" true)
  else if word_is tool_name "terminal_execute" then assess_command_risk <$> terminal_execute_args arguments
  else if word_is tool_name "sftp_write_text" then
    (fun a => assess_sftp_risk SWrite a.1 None (default false a.2) None) <$> sftp_write_text_args arguments
  else if word_is tool_name "sftp_mkdir" then
    (fun a => assess_sftp_risk SMkdir a.1 None false a.2) <$> sftp_mkdir_args arguments
  else if word_is tool_name "sftp_rename" then
    (fun a => assess_sftp_risk SRename a.1 (Some a.2) false None) <$> sftp_rename_args arguments
  else if word_is tool_name "sftp_delete" then
    (fun path => assess_sftp_risk SDelete path None false None) <$> path_args arguments
  else if word_is tool_name "sftp_chmod" then
    (fun a => assess_sftp_risk SChmod a.1 None false (Some a.2)) <$> sftp_chmod_args arguments
  else None.

(** ** The sessions of a scope *)

(** The sessions a scope grants, given the host's sessions. *)
Definition granted (scope : CapabilityScope) (sessions : list CapabilitySession) (id : bytes) : Prop :=
  exists s, s ∈ sessions /\ live s = true /\ session_id s = id
  /\ match scope with Explicit ids _ => id ∈ ids | CurrentWindow label => owner_window_label s = Some label | AllSessions => True end.

(** What the caller asks for. *)
Definition wanted (requested : option bytes) : option bytes :=
  opt_filter (fun id => negb (bool_decide (id = []))) (trim <$> requested).

(** The session used when the caller names none. *)
Definition is_default (scope : CapabilityScope) (sessions : list CapabilitySession) (id : bytes) : Prop :=
  match scope with
  | Explicit _ d => d = Some id
  | _ => forall id', granted scope sessions id' -> id' = id
  end.

Lemma elem_of_ids (f : CapabilitySession -> bool) sessions id :
  id ∈ (list_to_set (session_id <$> List.filter f sessions) : gset bytes)
  <-> exists s, s ∈ sessions /\ f s = true /\ session_id s = id.
Proof.
  rewrite elem_of_list_to_set, list_elem_of_fmap. split.
  - intros (s & -> & Hs). apply list_elem_of_In, filter_In in Hs as [Hs Hf]. exists s. by rewrite list_elem_of_In.
  - intros (s & Hs & Hf & <-). exists s. split; [done|]. apply list_elem_of_In, filter_In. by rewrite <- list_elem_of_In.
Qed.

Lemma resolve_ids scope sessions id : id ∈ session_ids (resolve scope sessions) <-> granted scope sessions id.
Proof.
  unfold granted. destruct scope as [ids d|label|]; cbn [resolve dynamic_snapshot session_ids].
  - rewrite elem_of_filter, elem_of_ids. naive_solver.
  - rewrite elem_of_ids. setoid_rewrite andb_true_iff. setoid_rewrite bool_decide_eq_true. naive_solver.
  - rewrite elem_of_ids. naive_solver.
Qed.

Lemma dynamic_default sessions id :
  let snapshot := dynamic_snapshot sessions in
  default_session_id snapshot = Some id <-> id ∈ session_ids snapshot /\ forall id', id' ∈ session_ids snapshot -> id' = id.
Proof.
  cbn. set (ids := list_to_set _ : gset bytes). split.
  - case_bool_decide as Hs; [|done]. intros Hh. apply size_1_elem_of in Hs as [x Hx].
    assert (ids = {[x]}) as E by set_solver. rewrite E, elements_singleton in Hh. injection Hh as ->. rewrite E. set_solver.
  - intros [Hin Hu]. assert (ids = {[id]}) as -> by set_solver. rewrite size_singleton, bool_decide_true by done.
    by rewrite elements_singleton.
Qed.

Lemma resolve_default scope sessions id :
  default_session_id (resolve scope sessions) = Some id <-> granted scope sessions id /\ is_default scope sessions id.
Proof.
  destruct scope as [ids d|label|].
  - rewrite <- resolve_ids. cbn [resolve session_ids default_session_id is_default opt_filter].
    destruct d as [d|]; cbn [opt_filter]; [case_bool_decide|]; naive_solver.
  - unfold is_default. setoid_rewrite <- resolve_ids. apply dynamic_default.
  - unfold is_default. setoid_rewrite <- resolve_ids. apply dynamic_default.
Qed.

(** A resolved session is one the scope grants. *)
Lemma resolve_session_granted scope sessions requested id :
  resolve_session (resolve scope sessions) requested = Ok id -> granted scope sessions id.
Proof.
  unfold resolve_session, require. fold (wanted requested). destruct (wanted requested) as [want|].
  - case_bool_decide as Hd; [|done]. intros [= <-]. by apply resolve_ids.
  - unfold ok_or. destruct (default_session_id _) as [d|] eqn:E; [|done]. intros [= <-]. by apply resolve_default.
Qed.

(** A request is given a session exactly when the scope grants it now, that is a live
    session of the host that is listed, belongs to the window, or is any, and it is the one
    the caller names or, when it names none, the scope's default; a named session that is not
    granted is reported as unavailable, whatever it was before. *)
Theorem resolve_session_exact (scope : CapabilityScope) (sessions : list CapabilitySession) (requested : option bytes) :
  (forall id, resolve_session (resolve scope sessions) requested = Ok id <->
     granted scope sessions id
     /\ match wanted requested with Some want => want = id | None => is_default scope sessions id end)
  /\ (forall want, wanted requested = Some want -> ~ granted scope sessions want ->
        resolve_session (resolve scope sessions) requested = Err (SessionUnavailable want)).
Proof.
  unfold resolve_session, require. fold (wanted requested). destruct (wanted requested) as [want|].
  - split; [intros id|intros ? [= <-] Hn]; case_bool_decide as Hd; rewrite resolve_ids in Hd; cbn [rbind]; try done;
      (split; [intros [= <-]|intros [Hg ->]]; done).
  - split; [|done]. intros id. rewrite <- resolve_default. unfold ok_or. destruct (default_session_id _); naive_solver.
Qed.

(** ** Decisions *)

Definition decision_rank (d : PolicyDecision) : Z := match d with Deny => 0 | RequireApproval => 1 | Allow => 2 end.
Definition mode_rank (m : AiPermissionMode) : Z :=
  match m with Observer => 0 | Confirm => 1 | MAuto => 2 | FullAccess => 3 end.
Definition access_rank (a : CapabilityAccess) : Z :=
  match a with ARead => 0 | ASensitiveRead => 1 | AWrite => 2 | ADestructiveWrite => 3 end.

(** An assessment that is at least as reassuring as another; none is the least. *)
Definition safer (a b : option RiskAssessment) : Prop :=
  match a, b with
  | _, None => True
  | Some a, Some b =>
      level_rank (level a) <= level_rank (level b) /\ (auto_executable b = true -> auto_executable a = true)
  | None, Some _ => False
  end.

(** The decision table is monotone: a more permissive mode, a weaker access and a safer
    assessment never turn an allowed call into one that needs approval, nor one that can be
    approved into a denied one; only an observer is denied anything. *)
Theorem policy_monotone (m m' : AiPermissionMode) (acc acc' : CapabilityAccess) (a a' : option RiskAssessment) :
  mode_rank m <= mode_rank m' -> access_rank acc' <= access_rank acc -> safer a' a ->
  decision_rank (decide_policy m acc a) <= decision_rank (decide_policy m' acc' a')
  /\ (decide_policy m acc a = Deny -> m = Observer /\ access_rank AWrite <= access_rank acc).
Proof.
  intros Hm Ha Hs. split; [|destruct m, acc; cbn; try case_match; intros [=]; split; (done || lia)].
  destruct m, m'; cbn in Hm; try lia; destruct acc, acc'; cbn in Ha; try lia; cbn; repeat case_match; cbn; try lia.
  exfalso. destruct a as [a|], a' as [a'|]; cbn in *; try done. destruct Hs as [Hl Hx]. bool_hyps.
  apply andb_false_iff in H0 as [H0|H0]; [rewrite Hx in H0; done|]. bool_hyps. lia.
Qed.

Lemma max_risk_rank a b : level_rank (max_risk a b) = Z.max (level_rank a) (level_rank b).
Proof. unfold max_risk. case_match; bool_hyps; lia. Qed.

(** The rating of the model, [Medium] if it gives none. *)
Definition model_of (r : AgentLlmResponse) : RiskLevel := default Medium (risk_level r).

Definition runs_alone (settings : AgentCommandExecutionMode * RiskLevel) (r : AgentLlmResponse) (command : bytes) : Prop :=
  (decide_agent_command_execution settings (assess_agent_command_risk r command)).1 = Auto.

Lemma runs_alone_iff settings r command :
  runs_alone settings r command <->
  settings.1 = EAuto
  \/ settings.1 = Smart /\ auto_executable (assess_command_risk command) = true
     /\ (forall l, l = model_of r \/ l = level (assess_command_risk command) ->
           level_rank l < level_rank High /\ level_rank l <= level_rank settings.2).
Proof.
  unfold runs_alone, decide_agent_command_execution, assess_agent_command_risk, assess_local_command_risk, decide_native_policy.
  destruct settings as [mode top]. cbn [fst snd effective_risk a_auto_executable]. fold (model_of r).
  set (local := assess_command_risk command). set (eff := max_risk (model_of r) (level local)).
  assert (He : level_rank eff = Z.max (level_rank (model_of r)) (level_rank (level local))) by apply max_risk_rank.
  assert (Hl : (forall l, l = model_of r \/ l = level local -> level_rank l < level_rank High /\ level_rank l <= level_rank top)
               <-> level_rank eff < level_rank High /\ level_rank eff <= level_rank top).
  { rewrite He. split; [|intros H l [->| ->]; lia].
    intros H. destruct (H _ (or_introl eq_refl)), (H _ (or_intror eq_refl)). lia. }
  rewrite Hl. clearbody eff. clear He Hl. destruct mode; cbn [decide_policy is_some_and auto_executable level].
  - cbn. intuition discriminate.
  - destruct (auto_executable local); cbn [andb]; [|cbn; intuition discriminate].
    destruct (level_rank eff <? level_rank High) eqn:E1, (level_rank top <? level_rank eff) eqn:E2; bool_hyps; cbn -[level_rank];
      intuition (discriminate || lia).
  - cbn. tauto.
Qed.

(** C21: The agent runs a command on its own exactly when the user chose automatic execution,
    or chose smart execution, the local assessment finds the command executable
    automatically, and both the local and the model's rating are below high and within the
    user's limit; so a model can never have a command executed by rating it lower
    than the local assessment. *)
Theorem agent_auto_exact (settings : AgentCommandExecutionMode * RiskLevel) (r : AgentLlmResponse) (command : bytes) :
  (runs_alone settings r command <->
   settings.1 = EAuto
   \/ settings.1 = Smart /\ auto_executable (assess_command_risk command) = true
      /\ (forall l, l = model_of r \/ l = level (assess_command_risk command) ->
            level_rank l < level_rank High /\ level_rank l <= level_rank settings.2))
  /\ (forall r', level_rank (model_of r') <= level_rank (level (assess_command_risk command)) ->
        runs_alone settings r command -> runs_alone settings r' command).
Proof.
  split; [apply runs_alone_iff|]. intros r' Hr. rewrite !runs_alone_iff. intros [H|(Hs & Ha & Hl)]; [by left|right].
  split_and!; [done..|]. intros l Hx. destruct (Hl _ (or_intror eq_refl)). destruct Hx as [->| ->]; lia.
Qed.

(** The labels of the levels are read back. *)
Lemma risk_label_roundtrip r : parse_risk_level_label (risk_label r) = Some r.
Proof. by destruct r. Qed.

(** ** Spelling of remote paths *)

(** The path as it is split, its components, and those that name something. *)
Definition remote_text (path : bytes) : bytes := (fun c => if c =? 92 then 47 else c) <$> trim path.
Definition components (path : bytes) : list bytes := split 47 (remote_text path).
Definition named (part : bytes) : bool := negb (word_is part "" || word_is part ".").
Definition names (path : bytes) : list bytes := List.filter named (components path).

Lemma parts_traversal parts b rest : (parts_loop parts b rest).2 = b || existsb (one_of [".."]%string) rest.
Proof.
  revert parts b. induction rest as [|p rest IH]; intros parts b; cbn [parts_loop existsb]; [by rewrite orb_false_r|].
  unfold one_of at 1. cbn [existsb]. rewrite orb_false_r. destruct (word_is p "" || word_is p ".") eqn:E.
  - rewrite IH. assert (word_is p ".." = false) as ->; [|done]. unfold word_is in *.
    apply orb_true_iff in E as [->%bool_decide_eq_true| ->%bool_decide_eq_true]; done.
  - destruct (word_is p ".."); rewrite IH; cbn [orb]; [by rewrite orb_true_r|done].
Qed.

Lemma parts_names parts b rest :
  existsb (one_of [".."]%string) rest = false -> (parts_loop parts b rest).1 = parts ++ List.filter named rest.
Proof.
  revert parts b. induction rest as [|p rest IH]; intros parts b; cbn [parts_loop existsb List.filter]; [by rewrite app_nil_r|].
  unfold one_of at 1. cbn [existsb]. rewrite orb_false_r. intros [Hp Hr]%orb_false_iff. unfold named at 1. rewrite Hp.
  destruct (word_is p "" || word_is p "."); cbn [negb]; rewrite IH by done; [done|]. by rewrite <- app_assoc.
Qed.

Lemma split_pure s : Forall (Forall (fun c => c <> 47)) (split 47 s).
Proof.
  induction s as [|b s IH]; cbn [split]; [by repeat constructor|]. destruct (b =? 47) eqn:E; [by constructor|]. bool_hyps.
  destruct (split 47 s); [by repeat constructor|]. apply Forall_cons in IH as [? ?]. by repeat constructor.
Qed.

Lemma trim_slashes_last s c : c <> 47 -> trim_slashes (s ++ [c]) = s ++ [c].
Proof.
  intros Hc. induction s as [|b s IH]; cbn [app trim_slashes]; [by rewrite (proj2 (Z.eqb_neq c 47) Hc)|].
  rewrite IH. by destruct (s ++ [c]) eqn:E; [destruct s|].
Qed.

Lemma join_app a b : a <> [] -> b <> [] -> join_slash (a ++ b) = join_slash a ++ 47 :: join_slash b.
Proof.
  intros Ha Hb. induction a as [|x a IH]; [done|]. destruct a as [|y a].
  - cbn. by destruct b.
  - change (join_slash ((x :: y :: a) ++ b)) with (x ++ 47 :: join_slash ((y :: a) ++ b)). rewrite IH by done.
    change (join_slash (x :: y :: a)) with (x ++ 47 :: join_slash (y :: a)). by rewrite <- app_assoc.
Qed.

Definition proper (part : bytes) : Prop := part <> [] /\ Forall (fun c => c <> 47) part.

Lemma join_last parts : Forall proper parts -> parts <> [] -> exists s c, join_slash parts = s ++ [c] /\ c <> 47.
Proof.
  intros Hp Hne. destruct (exists_last Hne) as (a & x & ->). apply Forall_app in Hp as [_ [[Hx Hs] _]%Forall_cons].
  destruct (exists_last Hx) as (y & c & ->). apply Forall_app in Hs as [_ [Hc _]%Forall_cons].
  destruct a as [|z a]; [by exists y, c|]. exists (join_slash (z :: a) ++ 47 :: y), c.
  rewrite join_app by done. cbn [join_slash]. by rewrite <- app_assoc.
Qed.

Lemma names_proper path : Forall proper (names path).
Proof.
  apply Forall_forall. intros p Hp. apply list_elem_of_In, filter_In in Hp as [Hp Hn]. split.
  - intros ->. done.
  - apply list_elem_of_In in Hp. exact (proj1 (Forall_forall _ _) (split_pure (remote_text path)) p Hp).
Qed.

(** An absolute path without [..] is normalised to its names. *)
Lemma normalize_absolute path :
  starts_with (bs "/") (remote_text path) = true -> existsb (one_of [".."]%string) (components path) = false ->
  (normalize_remote_path path).1 = bs "/" ++ join_slash (names path).
Proof.
  intros Ha Ht. unfold normalize_remote_path. fold (remote_text path) (components path). rewrite Ha. cbn [andb].
  pose proof (parts_names [] false (components path) Ht) as Hn. cbn [app] in Hn. fold (names path) in Hn.
  destruct (parts_loop [] false (components path)) as [parts b]. cbn [fst] in Hn. subst parts.
  destruct (decide (names path = [])) as [->|Hne]; [done|].
  destruct (join_last (names path) (names_proper path) Hne) as (s & c & Hj & Hc).
  assert (join_slash (names path) <> []) as Hjn by (rewrite Hj; by destruct s). rewrite bool_decide_false by done. cbn [fst].
  rewrite Hj. unfold word_is. rewrite bool_decide_false by (destruct s; cbn; congruence). rewrite app_assoc. by apply trim_slashes_last.
Qed.

Lemma normalize_traversal path :
  (normalize_remote_path path).2 = existsb (one_of [".."]%string) (components path).
Proof.
  unfold normalize_remote_path. fold (remote_text path) (components path).
  pose proof (parts_traversal [] false (components path)) as Hn. by destruct (parts_loop [] false (components path)).
Qed.

(** The names of the system directories. *)
Definition SYSTEM_NAMES : list (list bytes) :=
  [[bs "etc"]; [bs "boot"]; [bs "bin"]; [bs "sbin"]; [bs "usr"]; [bs "lib"]; [bs "lib64"]; [bs "var"; bs "lib"]; [bs "root"]].

Lemma system_sensitive root rest : root ∈ SYSTEM_NAMES -> is_sensitive_path (bs "/" ++ join_slash (root ++ rest)) = true.
Proof.
  intros Hr. unfold is_sensitive_path.
  enough (existsb (fun r => word_is (bs "/" ++ join_slash (root ++ rest)) r
            || starts_with (bs r ++ bs "/") (bs "/" ++ join_slash (root ++ rest))) SYSTEM_ROOTS = true) as -> by (by rewrite orb_true_r).
  apply existsb_exists. assert (Hne : root <> []) by (revert root Hr; apply Forall_forall; by repeat constructor).
  assert (Hs : exists r, In r SYSTEM_ROOTS /\ bs r = bs "/" ++ join_slash root).
  { assert (Hx : existsb (fun r => bool_decide (bs r = bs "/" ++ join_slash root)) SYSTEM_ROOTS = true).
    { clear Hne. revert root Hr. apply Forall_forall. unfold SYSTEM_NAMES. repeat (apply Forall_cons; split; [by vm_compute|]). constructor. }
    apply existsb_exists in Hx as (r & Hin & Hb%bool_decide_eq_true). by exists r. }
  destruct Hs as (r & Hin & Hb). exists r. split; [done|]. apply orb_true_iff. destruct (decide (rest = [])) as [->|Hrest].
  - left. unfold word_is. apply bool_decide_eq_true. by rewrite app_nil_r.
  - right. rewrite join_app, Hb by done. unfold starts_with. apply bool_decide_eq_true.
    replace (bs "/" ++ join_slash root ++ 47 :: join_slash rest) with (((bs "/" ++ join_slash root) ++ bs "/") ++ join_slash rest)
      by (rewrite <- !app_assoc; done).
    rewrite strip_prefix_app. eauto.
Qed.

(** *** Paths that are not changed without asking *)

(** A path that has a [..] component, is the root or at or below a system directory, or has
    a [.ssh] component. *)
Definition dangerous_path (path : bytes) : Prop :=
  existsb (one_of [".."]%string) (components path) = true
  \/ (starts_with (bs "/") (remote_text path) = true
      /\ (names path = [] \/ exists root rest, root ∈ SYSTEM_NAMES /\ names path = root ++ rest))
  \/ bs ".ssh" ∈ names path.

Lemma split_join parts : Forall proper parts -> parts <> [] -> split 47 (join_slash parts) = parts.
Proof.
  induction 1 as [|p parts [_ Hp] Hps IH]; [done|]. intros _. destruct parts as [|q parts]; [by apply split_single|].
  change (join_slash (p :: q :: parts)) with (p ++ 47 :: join_slash (q :: parts)). rewrite split_app by done. by rewrite IH.
Qed.

(** A path from the home directory keeps its tilde. *)
Lemma home_tilde path :
  word_is (remote_text path) "~" || starts_with (bs "~/") (remote_text path) = true -> starts_with (bs "~") (join_slash (names path)) = true.
Proof.
  unfold names, components. intros [H|H]%orb_true_iff.
  - unfold word_is in H. by apply bool_decide_eq_true in H as ->.
  - unfold starts_with in H. apply bool_decide_eq_true in H as [r Hr]. apply strip_prefix_Some in Hr as ->.
    change (bs "~/" ++ r) with ([126] ++ 47 :: r). rewrite split_app by (by repeat constructor). cbn [List.filter named].
    assert (named [126] = true) as -> by done. by destruct (List.filter named (split 47 r)).
Qed.

Lemma normalize_relative path :
  starts_with (bs "/") (remote_text path) = false -> existsb (one_of [".."]%string) (components path) = false -> names path <> [] ->
  (normalize_remote_path path).1 = join_slash (names path).
Proof.
  intros Ha Ht Hne. pose proof (home_tilde path) as Hh. unfold normalize_remote_path. fold (remote_text path) (components path). rewrite Ha. cbn [andb].
  pose proof (parts_names [] false (components path) Ht) as Hn. cbn [app] in Hn. fold (names path) in Hn.
  destruct (parts_loop [] false (components path)) as [parts b]. cbn [fst] in Hn. subst parts.
  destruct (join_last (names path) (names_proper path) Hne) as (s & c & Hj & Hc).
  assert (forall x, (if word_is (join_slash (names path)) "/" then join_slash (names path) else trim_slashes (join_slash (names path)), x : bool).1
    = join_slash (names path)) as Htrim by (intros x; cbn [fst]; case_match; [done|rewrite Hj; by apply trim_slashes_last]).
  destruct (word_is (remote_text path) "~" || starts_with (bs "~/") (remote_text path)); cbn [andb]; [rewrite Hh by done; cbn [negb]|]; apply Htrim.
Qed.

Lemma ssh_sensitive path : existsb (one_of [".ssh"]%string) (split 47 path) = true -> is_sensitive_path path = true.
Proof. intros H. unfold is_sensitive_path. destruct (_ || existsb _ _); [done|]. by rewrite H. Qed.

(** However it is spelled, the normalisation of such a path is recognised. *)
Lemma dangerous_normalized path :
  dangerous_path path ->
  (normalize_remote_path path).2 = true
  \/ (normalize_remote_path path).1 <> [] /\ is_sensitive_path (normalize_remote_path path).1 = true.
Proof.
  intros Hd. rewrite normalize_traversal. destruct (existsb (one_of [".."]%string) (components path)) eqn:Et; [by left|right].
  destruct Hd as [Hd|[[Ha Hd]|Hd]]; [congruence|..].
  - rewrite normalize_absolute by done. split; [done|]. destruct Hd as [->|(root & rest & Hr & ->)]; [done|by apply system_sensitive].
  - assert (Hne : names path <> []) by (intros E; rewrite E in Hd; by apply not_elem_of_nil in Hd).
    assert (Hin : existsb (one_of [".ssh"]%string) (names path) = true).
    { apply existsb_exists. exists (bs ".ssh"). split; [by apply list_elem_of_In|done]. }
    destruct (starts_with (bs "/") (remote_text path)) eqn:Ha.
    + rewrite normalize_absolute by done. split; [done|]. apply ssh_sensitive. change (bs "/" ++ ?l) with ([] ++ 47 :: l).
      rewrite split_app by constructor. rewrite split_join by (done || apply names_proper). cbn [existsb]. by rewrite Hin, orb_true_r.
    + rewrite normalize_relative by done. split.
      * destruct (join_last _ (names_proper path) Hne) as (s & c & -> & _). by destruct s.
      * apply ssh_sensitive. by rewrite split_join by (done || apply names_proper).
Qed.

(** C33: However a remote path is spelled, with repeated slashes, [.] components, backslashes
    or surrounding white space, every operation that changes files is rated high and not
    executable automatically when its path, or the destination of a rename, is the root
    directory, at or below a system directory, in a [.ssh] directory or has a [..] component,
    whatever its other arguments. So the policy of external clients allows the change without
    asking in the full-access mode only, and that of the built-in agent in its automatic mode
    only. *)
Theorem sftp_mutation_guarded (op : SftpRiskOperation) (path : bytes) (dest : option bytes) (force : bool) (mode : option bytes) :
  op <> SRead -> dangerous_path path \/ (exists d, dest = Some d /\ dangerous_path d) ->
  let a := assess_sftp_risk op path dest force mode in
  level a = High /\ auto_executable a = false
  /\ (forall permission access, access = AWrite \/ access = ADestructiveWrite ->
       decide_policy permission access (Some a) = Allow <-> permission = FullAccess)
  /\ (forall execution max access, access = AWrite \/ access = ADestructiveWrite ->
       decide_native_policy execution max access (Some a) = Allow <-> execution = EAuto).
Proof.
  intros Hop Hpath a. assert (Ha : level a = High /\ auto_executable a = false).
  { unfold a, assess_sftp_risk. rewrite (bool_decide_false (op = SRead)) by done. case_bool_decide; [done|].
    assert (Hs : let (p, bp) := normalize_remote_path path in let (d, bd) := default ([], false) (normalize_remote_path <$> dest) in
      is_sensitive_path p || (negb (bool_decide (d = [])) && is_sensitive_path d) || bp || bd = true).
    { destruct Hpath as [Hp|(d & -> & Hp)]; apply dangerous_normalized in Hp; destruct (normalize_remote_path path) as [p bp]; cbn.
      - destruct (default _ _) as [d bd]. cbn in Hp. destruct Hp as [->|[_ ->]]; cbn; by rewrite ?orb_true_r.
      - destruct (normalize_remote_path d) as [q bq]. cbn in Hp. destruct Hp as [->|[Hq ->]]; [by rewrite orb_true_r|].
        rewrite bool_decide_false by done. cbn. by rewrite !orb_true_r. }
    destruct (normalize_remote_path path) as [p bp], (default _ _) as [d bd]. destruct force; [done|]. by rewrite Hs. }
  destruct Ha as [Hl Hx]. split_and!; [done..| |].
  - intros permission access [->| ->]; destruct permission; cbn; rewrite ?Hl, ?Hx; done.
  - intros execution max access [->| ->]; unfold decide_native_policy; destruct execution; cbn; rewrite ?Hl, ?Hx; cbn; done.
Qed.

(** ** Examples *)

Definition ex_sessions : list CapabilitySession :=
  [mkSession (bs "a") (Some (bs "main")) true; mkSession (bs "b") (Some (bs "other")) true;
   mkSession (bs "closed") (Some (bs "main")) false].

(** The cases of the repository's tests. *)
Example scope_tests :
  resolve_session (resolve (CurrentWindow (bs "main")) ex_sessions) None = Ok (bs "a")
  /\ resolve_session (resolve AllSessions ex_sessions) None = Err MissingDefaultSession
  /\ resolve_session (resolve (explicit [bs "closed"; bs "b"] (Some (bs "closed"))) ex_sessions) None = Err MissingDefaultSession
  /\ resolve_session (resolve (explicit [bs "closed"; bs "b"] (Some (bs "closed"))) ex_sessions) (Some (bs " b ")) = Ok (bs "b").
Proof. vm_compute. done. Qed.

Example sftp_tests :
  level (assess_sftp_risk SWrite (bs "/home/alice/notes.txt") None false None) = Medium
  /\ level (assess_sftp_risk SWrite (bs "~/.ssh/config") None false None) = High
  /\ level (assess_sftp_risk SWrite (bs "../ambiguous") None false None) = High
  /\ level (assess_sftp_risk SRename (bs "/home/alice/x") (Some (bs "/etc/x")) false None) = High.
Proof. vm_compute. done. Qed.

(** A mode that opens a file to everyone is rated as any other change of permissions. *)
Example dangerous_mode_same_rating :
  let a := assess_sftp_risk SChmod (bs "/srv/x") None false (Some (bs "0777")) in
  let b := assess_sftp_risk SChmod (bs "/srv/x") None false (Some (bs "0600")) in
  reason a <> reason b /\ level a = level b /\ auto_executable a = auto_executable b.
Proof. vm_compute. done. Qed.

Lemma resolve_session_exact_witness :
  resolve_session (resolve AllSessions ex_sessions) (Some (bs "closed")) = Err (SessionUnavailable (bs "closed")).
Proof.
  refine (proj2 (resolve_session_exact AllSessions ex_sessions (Some (bs "closed"))) (bs "closed") _ _); [by vm_compute|].
  intros (s & Hs & Hl & Hi & _). revert Hl Hi. revert s Hs. apply (Forall_forall (fun s => live s = true -> session_id s = _ -> False)).
  repeat constructor; vm_compute; congruence.
Defined.

Lemma policy_monotone_witness :
  decision_rank (decide_policy Confirm AWrite None) <= decision_rank (decide_policy MAuto AWrite (Some (risk Medium "known" true))).
Proof. refine (proj1 (policy_monotone Confirm MAuto AWrite AWrite None (Some (risk Medium "known" true)) _ _ _)); cbn; (lia || done). Defined.

Lemma agent_auto_exact_witness :
  runs_alone (Smart, Medium) (mkResponse (Some Low) None) (bs "ls -la").
Proof.
  refine (proj2 (agent_auto_exact (Smart, Medium) (mkResponse (Some Low) None) (bs "ls -la")) _ _ _); [by vm_compute|].
  by vm_compute.
Defined.

Lemma sftp_mutation_guarded_witness :
  level (assess_sftp_risk SMkdir (bs " //./etc\nginx/ ") None false None) = High
  /\ level (assess_sftp_risk SRename (bs "/home/alice/x") (Some (bs "~/./.ssh/config")) false None) = High.
Proof.
  split.
  - refine (proj1 (sftp_mutation_guarded SMkdir (bs " //./etc\nginx/ ") None false None _ _)); [done|].
    left. right. left. split; [by vm_compute|]. right. exists [bs "etc"], [bs "nginx"]. split; [|by vm_compute]. apply list_elem_of_here.
  - refine (proj1 (sftp_mutation_guarded SRename (bs "/home/alice/x") (Some (bs "~/./.ssh/config")) false None _ _)); [done|].
    right. eexists. split; [reflexivity|]. right. right. vm_compute. right. left.
Defined.
