(* ===== verification/IdempotencyLedger.v ===== *)
(** * The idempotency ledger of capabilities

    [nyaterm-desktop/src/features/capability_runtime/idempotency.rs]: which operations a
    client started under a key of its own, so that a repeated call joins the first one
    instead of running again. Operation identifiers and the time are given to the operations;
    [serde_json::to_vec] and [Sha256::digest], which make the fingerprint of the arguments,
    are parameters. The theorems show that a key starts an operation at most once, that a
    repeated call is answered with the identifier or the result of that very operation, and
    that the ledger stays within its limits. *)

From Stdlib Require Import ZArith Lia.
From stdpp Require Import base numbers option strings fin_maps gmap list.
From S2P Require Import Prelude.

Local Open Scope Z_scope.

Section ledger.
Context {Value F R : Type} `{EqDecision F} (to_vec : Value -> bytes) (digest : bytes -> F).

(** Owner, tool and key. *)
Abbreviation LedgerKey := (bytes * bytes * bytes)%type.

Inductive Lookup := New (operation : bytes) | Pending (operation : bytes) | Complete (r : R).

Inductive ledger_error := IdempotencyConflict | IdempotencyExpired | ResourceLimit.

Record Entry := mkEntry { fingerprint : F; operation : bytes; e_result : option R; completed : option Z; pinned : bool }.

(** [IdempotencyLedger]: its entries by key. *)
Abbreviation IdempotencyLedger := (gmap (bytes * bytes * bytes) Entry).

(** 600 seconds, in nanoseconds. *)
Definition RESULT_TTL : Z := 600 * 1000000000.

Definition expired (e : Entry) (now : Z) : bool :=
  negb (pinned e) && match completed e with Some at_ => RESULT_TTL <=? sat_sub now at_ | None => false end.

Definition contains_key (l : IdempotencyLedger) (owner tool key : bytes) : bool :=
  bool_decide (is_Some (l !! (owner, tool, key))).

Definition owned (owner : bytes) (l : IdempotencyLedger) : IdempotencyLedger := filter (fun kv => kv.1.1.1 = owner) l.

Definition begin (l : IdempotencyLedger) (uuid : bytes) (now : Z) (owner tool : bytes) (key : option bytes) (arguments : Value) :
    result Lookup ledger_error * IdempotencyLedger :=
  match key with
  | None => (Ok (New uuid), l)
  | Some key =>
    let print := digest (to_vec arguments) in
    match l !! (owner, tool, key) with
    | Some entry =>
        (if negb (bool_decide (fingerprint entry = print)) then Err IdempotencyConflict
         else if expired entry now then Err IdempotencyExpired
         else Ok (match e_result entry with Some r => Complete r | None => Pending (operation entry) end), l)
    | None =>
        if (1024 <=? size l)%nat || (256 <=? size (owned owner l))%nat then (Err ResourceLimit, l)
        else (Ok (New uuid), <[(owner, tool, key) := mkEntry print uuid None None false]> l)
    end
  end.

(** The entries of an operation, changed. *)
Definition update (operation_id : bytes) (f : Entry -> Entry) (l : IdempotencyLedger) : IdempotencyLedger :=
  (fun e => if bool_decide (operation e = operation_id) then f e else e) <$> l.

Definition finish (l : IdempotencyLedger) (operation_id : bytes) (r : R) (now : Z) : IdempotencyLedger :=
  update operation_id (fun e => mkEntry (fingerprint e) (operation e) (Some r) (Some now) (pinned e)) l.

Definition requires_cleanup (l : IdempotencyLedger) : bool :=
  existsb (fun kv => bool_decide (is_Some (e_result kv.2))) (map_to_list l).

Definition cleanup (l : IdempotencyLedger) (now : Z) : IdempotencyLedger :=
  (fun e => if expired e now then mkEntry (fingerprint e) (operation e) None (completed e) (pinned e) else e) <$> l.

Definition forget_expired_owner (l : IdempotencyLedger) (owner : bytes) : IdempotencyLedger :=
  filter (fun kv => kv.1.1.1 <> owner) l.

Definition alias (l : IdempotencyLedger) (operation_id original : bytes) : IdempotencyLedger :=
  update operation_id (fun e => mkEntry (fingerprint e) original (e_result e) (completed e) (pinned e)) l.

Definition pin (l : IdempotencyLedger) (operation_id : bytes) (p : bool) (now : Z) : IdempotencyLedger :=
  update operation_id (fun e =>
    mkEntry (fingerprint e) (operation e) (e_result e) (if pinned e && negb p then Some now else completed e) p) l.

(** ** Runs *)

Inductive ledger_op :=
| OBegin (uuid : bytes) (now : Z) (owner tool : bytes) (key : option bytes) (arguments : Value)
| OFinish (operation_id : bytes) (r : R) (now : Z)
| OCleanup (now : Z)
| OForget (owner : bytes)
| OAlias (operation_id original : bytes)
| OPin (operation_id : bytes) (p : bool) (now : Z).

Definition ledger_step (l : IdempotencyLedger) (o : ledger_op) : IdempotencyLedger :=
  match o with
  | OBegin uuid now owner tool key args => (begin l uuid now owner tool key args).2
  | OFinish id r now => finish l id r now
  | OCleanup now => cleanup l now
  | OForget owner => forget_expired_owner l owner
  | OAlias id original => alias l id original
  | OPin id p now => pin l id p now
  end.

Definition ledger_run (l : IdempotencyLedger) (os : list ledger_op) : IdempotencyLedger := fold_left ledger_step os l.

(** *** What the steps keep *)

Lemma lookup_update id f l k : update id f l !! k = (fun e => if bool_decide (operation e = id) then f e else e) <$> (l !! k).
Proof. apply lookup_fmap. Qed.

Definition keeps_owner (owner : bytes) (o : ledger_op) : Prop := match o with OForget w => w <> owner | _ => True end.

(** The identifier of an operation after some steps: [alias] gives it another. *)
Fixpoint followed (id : bytes) (os : list ledger_op) : bytes :=
  match os with
  | [] => id
  | OAlias a b :: os' => followed (if bool_decide (a = id) then b else id) os'
  | _ :: os' => followed id os'
  end.

(** The last result reported for it. *)
Fixpoint last_result (id : bytes) (os : list ledger_op) : option R :=
  match os with
  | [] => None
  | OAlias a b :: os' => last_result (if bool_decide (a = id) then b else id) os'
  | OFinish x r _ :: os' =>
      match last_result id os' with Some r' => Some r' | None => if bool_decide (x = id) then Some r else None end
  | _ :: os' => last_result id os'
  end.

(** Whether its result was reported or a pin on it released: the events that set the time
    from which it expires. *)
Fixpoint ended (id : bytes) (os : list ledger_op) : bool :=
  match os with
  | [] => false
  | OAlias a b :: os' => ended (if bool_decide (a = id) then b else id) os'
  | OFinish x _ _ :: os' | OPin x false _ :: os' => bool_decide (x = id) || ended id os'
  | _ :: os' => ended id os'
  end.

(** What an entry says about its operation after some steps. *)
Record follows (e : Entry) (os : list ledger_op) (e' : Entry) : Prop := {
  fw_fingerprint : fingerprint e' = fingerprint e;
  fw_operation : operation e' = followed (operation e) os;
  fw_result : forall r, e_result e' = Some r ->
    last_result (operation e) os = Some r \/ (last_result (operation e) os = None /\ e_result e = Some r);
  fw_ended : is_Some (completed e') -> is_Some (completed e) \/ ended (operation e) os = true;
}.

Lemma follows_same e o : followed (operation e) [o] = operation e -> last_result (operation e) [o] = None -> follows e [o] e.
Proof. intros H1 H2. split; [done|by rewrite H1|intros r ->; by right|by left]. Qed.

Lemma step_follows l o k e :
  keeps_owner k.1.1 o -> l !! k = Some e -> exists e', ledger_step l o !! k = Some e' /\ follows e [o] e'.
Proof.
  intros Hf Hk. destruct o as [uuid now owner tool key args|id r now|now|owner|id original|id p now]; cbn [ledger_step].
  - exists e. split; [|by apply follows_same]. unfold begin. destruct key as [key|]; [|done]. destruct (l !! (owner, tool, key)) eqn:E; [done|].
    destruct (_ || _); [done|]. cbn [snd]. rewrite lookup_insert_ne; [done|]. intros <-. congruence.
  - unfold finish. rewrite lookup_update, Hk. cbn. eexists. split; [done|]. case_bool_decide as E.
    + split; cbn; [done..| |]; rewrite bool_decide_eq_true_2 by done; [intros r' [= <-]; by left|by right].
    + apply follows_same; [done|]. cbn. by rewrite bool_decide_eq_false_2 by congruence.
  - unfold cleanup. rewrite lookup_fmap, Hk. cbn. eexists. split; [done|]. case_match; [by split; cbn; [..|left]|by apply follows_same].
  - exists e. split; [|by apply follows_same]. unfold forget_expired_owner. apply map_lookup_filter_Some. split; [done|]. cbn. intros E. by apply Hf.
  - unfold alias. rewrite lookup_update, Hk. cbn. eexists. split; [done|]. case_bool_decide as E.
    + split; cbn; [done|by rewrite bool_decide_eq_true_2|by right|by left].
    + apply follows_same; [|done]. cbn. by rewrite bool_decide_eq_false_2 by congruence.
  - unfold pin. rewrite lookup_update, Hk. cbn. eexists. split; [done|]. case_bool_decide as E; [|by apply follows_same].
    split; cbn; [done..|by right|]. intros Hc. destruct p; [rewrite andb_false_r in Hc; by left|]. right. by rewrite bool_decide_eq_true_2.
Qed.

Lemma follows_cons e o os e1 e2 : follows e [o] e1 -> follows e1 os e2 -> follows e (o :: os) e2.
Proof.
  intros [A1 A2 A3 A4] [B1 B2 B3 B4]. rewrite A2 in *. split; [congruence|by destruct o| |].
  - intros r Hr. specialize (B3 r Hr). destruct o as [| x r0 t| | | |]; cbn in *; try (by destruct B3 as [|[? Hr1]]; [left|destruct (A3 r Hr1) as [|[_ ?]]; auto]).
    destruct B3 as [->|[-> Hr1]]; [by left|]. destruct (A3 r Hr1) as [|[? ?]]; auto.
  - intros Hc. destruct (B4 Hc) as [H1|H1]; [destruct (A4 H1) as [|H2]; [by left|right]|right]; destruct o as [|x r0 t| | | |x [] t]; cbn in *;
      rewrite ?orb_false_r, ?orb_true_iff in *; auto; done.
Qed.

Lemma run_follows l os k e :
  Forall (keeps_owner k.1.1) os -> l !! k = Some e -> exists e', ledger_run l os !! k = Some e' /\ follows e os e'.
Proof.
  intros Hos. revert l e. induction Hos as [|o os Ho Hos IH]; intros l e Hk; [exists e; split; [done|]; split; cbn; auto|].
  cbn [ledger_run fold_left]. destruct (step_follows l o k e Ho Hk) as (e1 & H1 & F1).
  destruct (IH _ _ H1) as (e2 & H2 & F2). exists e2. split; [exact H2|]. by apply (follows_cons e o os e1).
Qed.

Lemma begin_inserts l uuid now owner tool key args operation_id :
  (begin l uuid now owner tool (Some key) args).1 = Ok (New operation_id) ->
  ledger_step l (OBegin uuid now owner tool (Some key) args) !! (owner, tool, key)
  = Some (mkEntry (digest (to_vec args)) operation_id None None false).
Proof.
  cbn [ledger_step]. unfold begin. destruct (l !! (owner, tool, key)) as [e|] eqn:E; cbn [fst snd].
  - repeat case_match; congruence.
  - destruct (_ || _); [done|]. intros [= <-]. cbn [snd]. by rewrite lookup_insert_eq.
Qed.

(** C30: A key starts an operation at most once. After a call under a key started an
    operation, a later call of the same owner and tool under that key, whatever happened in
    between short of the ledger forgetting the owner, never starts another. If the
    fingerprints of the arguments are the same it joins the first operation: it gets the
    identifier that operation has (the one it was started with, followed through [alias]),
    or the last result reported for it, or is told that this has expired, the latter only
    after a result was reported or a pin released; if they differ it is refused as a
    conflict. *)
Theorem ledger_at_most_once (os mid : list ledger_op) (uuid uuid' : bytes) (now now' : Z) (owner tool key : bytes) (args args' : Value)
    (operation_id : bytes) :
  let l := ledger_run ∅ os in
  (begin l uuid now owner tool (Some key) args).1 = Ok (New operation_id) ->
  Forall (keeps_owner owner) mid ->
  let l' := ledger_run l (OBegin uuid now owner tool (Some key) args :: mid) in
  let same := digest (to_vec args') = digest (to_vec args) in
  contains_key l' owner tool key = true
  /\ match (begin l' uuid' now' owner tool (Some key) args').1 with
     | Ok (New _) | Err ResourceLimit => False
     | Ok (Pending x) => same /\ x = followed operation_id mid
     | Ok (Complete r) => same /\ last_result operation_id mid = Some r
     | Err IdempotencyExpired => same /\ ended operation_id mid = true
     | Err IdempotencyConflict => ~ same
     end.
Proof.
  intros l Hnew Hmid l' same. pose proof (begin_inserts _ _ _ _ _ _ _ _ Hnew) as He.
  destruct (run_follows _ mid (owner, tool, key) _ Hmid He) as (e' & He' & [F1 F2 F3 F4]). cbn in F1, F2, F3, F4.
  change (ledger_run (ledger_step l _) mid) with l' in He'. split.
  - unfold contains_key. rewrite He'. by apply bool_decide_eq_true.
  - unfold begin. rewrite He'. cbn [fst]. rewrite F1. case_bool_decide as Ha; cbn [negb]; [|congruence].
    destruct (expired e' now') eqn:Ee.
    + split; [done|]. destruct F4 as [[? ?]|]; [|done..]. unfold expired in Ee. destruct (completed e'); [by eexists|by rewrite andb_false_r in Ee].
    + destruct (e_result e') as [r|]; [|done]. split; [done|]. by destruct (F3 r eq_refl) as [|[_ ?]].
Qed.

(** *** Results are those reported *)

Definition reported (os : list ledger_op) (r : R) : Prop := exists id now, OFinish id r now ∈ os.

Lemma run_reported os k e r :
  ledger_run ∅ os !! k = Some e -> e_result e = Some r -> reported os r.
Proof.
  revert k e. induction os as [|o os IH] using rev_ind; intros k e; [done|]. unfold ledger_run. rewrite fold_left_app. cbn [fold_left].
  fold (ledger_run ∅ os). set (l := ledger_run ∅ os) in *.
  assert (Hold : forall k' e', l !! k' = Some e' -> e_result e' = Some r -> reported (os ++ [o]) r).
  { intros k' e' H1 H2. destruct (IH _ _ H1 H2) as (id & now & Hin). exists id, now. apply elem_of_app. by left. }
  destruct o as [uuid now owner tool key args|id r' now|now|owner|id original|id p now]; cbn [ledger_step].
  - unfold begin. destruct key as [key|]; [|apply Hold]. destruct (l !! (owner, tool, key)); [apply Hold|].
    destruct (_ || _); [apply Hold|]. cbn [snd]. intros [[_ <-]|[_ Hk]]%lookup_insert_Some; [done|by apply (Hold k)].
  - unfold finish. rewrite lookup_update. intros (e0 & He0 & ->)%fmap_Some. case_bool_decide; [|by apply (Hold k)].
    intros [= ->]. exists id, now. apply elem_of_app. right. apply list_elem_of_here.
  - unfold cleanup. rewrite lookup_fmap. intros (e0 & He0 & ->)%fmap_Some. case_match; [done|by apply (Hold k)].
  - intros [Hk _]%map_lookup_filter_Some. by apply (Hold k).
  - unfold alias. rewrite lookup_update. intros (e0 & He0 & ->)%fmap_Some. intros Hr. apply (Hold k e0 He0). by case_bool_decide.
  - unfold pin. rewrite lookup_update. intros (e0 & He0 & ->)%fmap_Some. intros Hr. apply (Hold k e0 He0). by case_bool_decide.
Qed.

(** The ledger answers a call only with a result that was reported. *)
Lemma complete_reported os uuid now owner tool key args r :
  (begin (ledger_run ∅ os) uuid now owner tool key args).1 = Ok (Complete r) -> reported os r.
Proof.
  unfold begin. destruct key as [key|]; [|done]. destruct (ledger_run ∅ os !! (owner, tool, key)) as [e|] eqn:E; [|by destruct (_ || _)].
  cbn [fst]. repeat case_match; try done. intros [= <-]. eauto using run_reported.
Qed.

(** *** Limits *)

Definition within_limits (l : IdempotencyLedger) : Prop := (size l <= 1024)%nat /\ forall owner, (size (owned owner l) <= 256)%nat.

Lemma owned_fmap owner (f : Entry -> Entry) l : size (owned owner (f <$> l)) = size (owned owner l).
Proof.
  unfold owned. rewrite map_filter_fmap, map_size_fmap. apply f_equal. apply map_filter_ext. done.
Qed.

Lemma fmap_limits (f : Entry -> Entry) l : within_limits l -> within_limits (f <$> l).
Proof. intros [H1 H2]. split; [by rewrite map_size_fmap|]. intros owner. by rewrite owned_fmap. Qed.

Lemma step_limits l o : within_limits l -> within_limits (ledger_step l o).
Proof.
  intros Hl. destruct o as [uuid now owner tool key args|id r' now|now|owner|id original|id p now]; cbn [ledger_step];
    try by apply fmap_limits.
  - unfold begin. destruct key as [key|]; [|done]. destruct (l !! (owner, tool, key)) eqn:E; [done|].
    destruct (_ || _) eqn:Hc; [done|]. bool_hyps. cbn [snd]. destruct Hl as [H1 H2]. split; [rewrite map_size_insert_None by done; lia|].
    intros w. unfold owned. destruct (decide (owner = w)) as [->|Hw].
    + rewrite map_filter_insert_True by done. rewrite map_size_insert_None; [fold (owned w l); lia|].
      apply map_lookup_filter_None. by left.
    + rewrite map_filter_insert_False by done. rewrite map_filter_delete. etrans; [apply map_subseteq_size, delete_subseteq|apply H2].
  - destruct Hl as [H1 H2]. unfold forget_expired_owner. split; [etrans; [apply map_subseteq_size, map_filter_subseteq|done]|].
    intros w. etrans; [|apply (H2 w)]. unfold owned. apply map_subseteq_size. apply map_subseteq_spec.
    intros k e [[Hk _]%map_lookup_filter_Some Hw]%map_lookup_filter_Some. by apply map_lookup_filter_Some.
Qed.

(** In every run the ledger holds at most 1024 entries and at most 256 of any one owner,
    so a client can neither exhaust it alone nor make it grow. *)
Theorem ledger_bounded (os : list ledger_op) : within_limits (ledger_run ∅ os).
Proof.
  induction os as [|o os IH] using rev_ind.
  { split; [|intros owner; unfold owned; cbn [ledger_run fold_left]; rewrite map_filter_empty]; apply Nat.le_0_l. }
  unfold ledger_run. rewrite fold_left_app. by apply step_limits.
Qed.

End ledger.

(** Arguments that are their own text and fingerprint: a call repeated while the operation
    it started runs under another identifier. *)
Definition demo_args (b : bytes) : bytes := b.

Lemma ledger_at_most_once_witness :
  let run := ledger_run demo_args demo_args (R := Z) ∅ in
  let first := OBegin (bs "op") 0 (bs "client") (bs "session_open") (Some (bs "k")) (bs "a") in
  exists x, (begin demo_args demo_args (run [first; OAlias (bs "op") (bs "op0")]) (bs "op2") 9 (bs "client") (bs "session_open") (Some (bs "k"))
               (bs "a")).1 = Ok (Pending x) /\ x = bs "op0".
Proof.
  destruct (ledger_at_most_once (R := Z) demo_args demo_args [] [OAlias (bs "op") (bs "op0")] (bs "op") (bs "op2") 0 9 (bs "client") (bs "session_open")
    (bs "k") (bs "a") (bs "a") (bs "op")) as [_ H]; [by vm_compute|by repeat constructor|].
  eexists. split; [vm_compute; reflexivity|]. vm_compute in H. exact (proj2 H).
Defined.
