(* ===== verification/CapabilityRuntime.v ===== *)
(** * Authorising capability requests

    The authorisation of [nyaterm-desktop/src/features/capability_runtime.rs] and
    [capability_runtime/approvals.rs]: requests of external clients and of the built-in agent
    pass the scope, the risk assessment and the permission policy, wait for the user's
    approval where the policy demands it, and lose everything they were granted when their
    connection ends. Executing a tool is the outcome [Executed]; what the host knows besides
    (its sessions, settings, jobs and ledger) is given to each dispatch. A cancellation token
    is a number, the set of the cancelled ones is shared state. The theorems show that nothing
    runs without the authorisation the policy asks for, that approvals are recorded
    consistently, and that a closed connection keeps nothing. *)

From Stdlib Require Import ZArith Lia.
From stdpp Require Import base numbers option strings fin_maps gmap list.
From S2P Require Import Prelude RustStr RustText ShellRisk CapabilityPolicy IdempotencyLedger.

Local Open Scope Z_scope.
Local Open Scope rust_scope.

(** ** The tool registry *)

Record ToolDefinition := mkTool { access : CapabilityAccess; requires_session : bool }.

Definition MCP_TOOL_REGISTRY : list (string * ToolDefinition) :=
  [("get_environment", mkTool ARead false); ("connection_list", mkTool ARead false); ("session_open", mkTool AWrite false);
   ("session_get", mkTool ARead true); ("terminal_execute", mkTool AWrite true); ("terminal_start", mkTool AWrite true);
   ("terminal_poll", mkTool ASensitiveRead false); ("terminal_stop", mkTool AWrite false);
   ("terminal_recent_output", mkTool ASensitiveRead true); ("sftp_home", mkTool ASensitiveRead true);
   ("sftp_list", mkTool ASensitiveRead true); ("sftp_stat", mkTool ASensitiveRead true);
   ("sftp_read_text", mkTool ASensitiveRead true); ("sftp_write_text", mkTool AWrite true); ("sftp_mkdir", mkTool AWrite true);
   ("sftp_rename", mkTool AWrite true); ("sftp_delete", mkTool ADestructiveWrite true); ("sftp_chmod", mkTool AWrite true);
   ("tool_output_read", mkTool ASensitiveRead false)]%string.

Definition definition_for_tool (name : bytes) : option ToolDefinition :=
  snd <$> List.find (fun d => word_is name d.1) MCP_TOOL_REGISTRY.

(** ** Requests and the state *)

Inductive CapabilityCaller := Mcp | Native (run_id ai_session_id : bytes) (model_risk : option RiskLevel).
Definition is_native (c : CapabilityCaller) : bool := match c with Native _ _ _ => true | Mcp => false end.

(** JSON arguments: [arguments.get(name)], [as_str], and setting a field to a string. *)
Class JsonValue (Value : Type) := {
  get : string -> Value -> option Value; as_str : Value -> option bytes; set_str : string -> bytes -> Value -> Value }.

Abbreviation GrantKey := (bytes * bytes * bytes)%type.
Abbreviation token := positive.

Inductive ApprovalChoice := ChooseDeny | AllowOnce | AllowSession.

(** What the host knows when a request is dispatched. *)
Record Host := mkHost {
  h_sessions : list CapabilitySession;
  h_generation_matches : bytes -> bool;
  h_run_live : bytes -> bytes -> bool;
  h_mode : AgentCommandExecutionMode;
  h_max_risk : RiskLevel;
  h_execution_disabled : bytes -> bool;
  h_job : bytes -> CapabilityScope -> bytes -> result bytes bytes;
  h_known : bytes -> bytes -> bytes -> bool;
  h_stop_requested : bytes -> bool }.

Section runtime.
Context {Value : Type} `{ToolArgs Value} `{JsonValue Value}.

(** [validate_tool_arguments] and the hexadecimal SHA-256 of the printed arguments. *)
Context (valid_arguments : bytes -> Value -> bool) (digest : Value -> bytes).

Record CapabilityRequest := mkRequest {
  resolved_session_id : option bytes; connection_id : bytes; request_id : bytes; generation : bytes;
  permission_mode : AiPermissionMode; scope : CapabilityScope; tool : bytes; arguments : Value;
  cancellation : token; approved : bool; approval_decision : option bytes; caller : CapabilityCaller }.

Definition with_mode (r : CapabilityRequest) (m : AiPermissionMode) : CapabilityRequest :=
  mkRequest (resolved_session_id r) (connection_id r) (request_id r) (generation r) m (scope r) (tool r) (arguments r)
    (cancellation r) (approved r) (approval_decision r) (caller r).
Definition with_session (r : CapabilityRequest) (args : Value) (id : bytes) : CapabilityRequest :=
  mkRequest (Some id) (connection_id r) (request_id r) (generation r) (permission_mode r) (scope r) (tool r) args
    (cancellation r) (approved r) (approval_decision r) (caller r).
Definition with_approval (r : CapabilityRequest) (a : bool) (d : option bytes) : CapabilityRequest :=
  mkRequest (resolved_session_id r) (connection_id r) (request_id r) (generation r) (permission_mode r) (scope r) (tool r)
    (arguments r) (cancellation r) a d (caller r).

(** The fields of [CapabilityApprovalRequest] but the texts shown with them. *)
Record CapabilityApprovalRequest := mkApproval {
  a_request_id : bytes; a_capability : bytes; a_target : option bytes; destructive : bool; allow_session : bool }.

Record PendingCapabilityApproval := mkPending {
  p_request : CapabilityRequest; p_approval : CapabilityApprovalRequest; p_grant_key : option GrantKey }.

Record CapabilityRuntimeState := mkState {
  pending_approvals : gmap bytes PendingCapabilityApproval;
  approval_order : list bytes;
  session_grants : gset GrantKey;
  active_requests : gmap bytes (bytes * token);
  owners : gmap bytes (CapabilityCaller * bytes);
  cancelled : gset token }.

Definition default_state : CapabilityRuntimeState := mkState ∅ [] ∅ ∅ ∅ ∅.

Definition is_cancelled (st : CapabilityRuntimeState) (t : token) : bool := bool_decide (t ∈ cancelled st).

(** ** Grants *)

Definition get_text (name : string) (v : Value) : option bytes := get name v ≫= as_str.

Definition mcp_request_target (r : CapabilityRequest) : option bytes :=
  match resolved_session_id r with
  | Some id => Some id
  | None =>
      (match get "sessionId" (arguments r) with Some v => Some v | None => get "connectionId" (arguments r) end) ≫= as_str
  end.

Definition mcp_grant_key (r : CapabilityRequest) : option GrantKey :=
  (fun target =>
     (connection_id r, target,
      if is_native (caller r) then tool r ++ bs ":" ++ digest (arguments r) else tool r)) <$> mcp_request_target r.

Definition has_session_grant (st : CapabilityRuntimeState) (key : GrantKey) : bool := bool_decide (key ∈ session_grants st).
Definition granted_for (st : CapabilityRuntimeState) (r : CapabilityRequest) : bool :=
  is_some_and (mcp_grant_key r) (has_session_grant st).

(** ** The state's operations *)

Definition remove_active (st : CapabilityRuntimeState) (id : bytes) : CapabilityRuntimeState :=
  mkState (pending_approvals st) (approval_order st) (session_grants st) (delete id (active_requests st)) (owners st) (cancelled st).

Definition register (st : CapabilityRuntimeState) (r : CapabilityRequest) : CapabilityRuntimeState :=
  mkState (pending_approvals st) (approval_order st) (session_grants st)
    (<[request_id r := (connection_id r, cancellation r)]> (active_requests st))
    (<[connection_id r := (caller r, generation r)]> (owners st)) (cancelled st).

Definition cancel (st : CapabilityRuntimeState) (t : token) : CapabilityRuntimeState :=
  mkState (pending_approvals st) (approval_order st) (session_grants st) (active_requests st) (owners st) ({[t]} ∪ cancelled st).

Definition queue_approval (st : CapabilityRuntimeState) (p : PendingCapabilityApproval) : CapabilityRuntimeState :=
  let id := a_request_id (p_approval p) in
  mkState (<[id := p]> (pending_approvals st))
    (match pending_approvals st !! id with None => approval_order st ++ [id] | Some _ => approval_order st end)
    (session_grants st) (active_requests st) (owners st) (cancelled st).

Definition order_retain (order : list bytes) (pending : gmap bytes PendingCapabilityApproval) : list bytes :=
  List.filter (fun id => bool_decide (is_Some (pending !! id))) order.

Definition prune_cancelled (st : CapabilityRuntimeState) : CapabilityRuntimeState :=
  let pending := filter (fun kv => cancellation (p_request kv.2) ∉ cancelled st) (pending_approvals st) in
  mkState pending (order_retain (approval_order st) pending) (session_grants st)
    (filter (fun kv => kv.2.2 ∉ cancelled st) (active_requests st)) (owners st) (cancelled st).

(** Take a pending approval out. *)
Definition remove_pending (st : CapabilityRuntimeState) (id : bytes) : CapabilityRuntimeState :=
  mkState (delete id (pending_approvals st)) (List.filter (fun i => negb (bool_decide (i = id))) (approval_order st))
    (session_grants st) (active_requests st) (owners st) (cancelled st).

Definition add_grant (st : CapabilityRuntimeState) (key : option GrantKey) : CapabilityRuntimeState :=
  match key with
  | Some key => mkState (pending_approvals st) (approval_order st) ({[key]} ∪ session_grants st) (active_requests st) (owners st) (cancelled st)
  | None => st
  end.

Inductive CapabilityApprovalOutcome := Dispatch (r : CapabilityRequest) | Denied (r : CapabilityRequest).

Definition decide_approval (st : CapabilityRuntimeState) (id : bytes) (choice : ApprovalChoice) :
    option CapabilityApprovalOutcome * CapabilityRuntimeState :=
  let st := prune_cancelled st in
  match pending_approvals st !! id with
  | None => (None, st)
  | Some p =>
    let st := remove_pending st id in
    let r := p_request p in
    if is_cancelled st (cancellation r) then (None, st) else
    match choice with
    | ChooseDeny => (Some (Denied (with_approval r (approved r) (Some (bs "deny")))), remove_active st id)
    | AllowOnce => (Some (Dispatch (with_approval r true (Some (bs "allow_once")))), st)
    | AllowSession =>
        let allow := allow_session (p_approval p) in
        (Some (Dispatch (with_approval r true (Some (if allow then bs "allow_session" else bs "allow_once")))),
         if allow then add_grant st (p_grant_key p) else st)
    end
  end.

Definition request_cancelled (st : CapabilityRuntimeState) (id : bytes) : list CapabilityRequest * CapabilityRuntimeState :=
  let st := match active_requests st !! id with Some (_, t) => cancel (remove_active st id) t | None => st end in
  let pending := pending_approvals st !! id in
  let st := remove_pending st id in
  match pending with
  | Some p => ([p_request p], cancel st (cancellation (p_request p)))
  | None => ([], st)
  end.

(** Cancel all of [ts]. *)
Definition cancel_all (st : CapabilityRuntimeState) (ts : list token) : CapabilityRuntimeState := fold_left cancel ts st.

Definition connection_disconnected (st : CapabilityRuntimeState) (client : bytes) : list CapabilityRequest * CapabilityRuntimeState :=
  let gone := filter (fun kv => kv.2.1 = client) (active_requests st) in
  let mine := filter (fun kv => connection_id (p_request kv.2) = client) (pending_approvals st) in
  let requests := (fun kv => p_request kv.2) <$> map_to_list mine in
  let pending := filter (fun kv => connection_id (p_request kv.2) <> client) (pending_approvals st) in
  (requests,
   cancel_all
     (mkState pending (order_retain (approval_order st) pending) (filter (fun key => key.1.1 <> client) (session_grants st))
        (filter (fun kv => kv.2.1 <> client) (active_requests st)) (delete client (owners st)) (cancelled st))
     (((fun kv => kv.2.2) <$> map_to_list gone) ++ (cancellation <$> requests))).

Definition revoke_generation (st : CapabilityRuntimeState) (gen : bytes) : CapabilityRuntimeState :=
  fold_left (fun st kv => (connection_disconnected st kv.1).2)
    (map_to_list (filter (fun kv => kv.2.2 = gen) (owners st))) st.

Definition cancel_native_approvals_for_target (st : CapabilityRuntimeState) (session_id : bytes) : CapabilityRuntimeState :=
  fold_left (fun st kv => (request_cancelled st kv.1).2)
    (map_to_list (filter (fun kv => is_native (caller (p_request kv.2)) = true
                                    /\ mcp_request_target (p_request kv.2) = Some session_id) (pending_approvals st))) st.

(** The pending approvals in order, of the external clients or of one run. *)
Definition external_approval_requests (st : CapabilityRuntimeState) : list CapabilityApprovalRequest :=
  p_approval <$> List.filter (fun p => negb (is_native (caller (p_request p))) && negb (is_cancelled st (cancellation (p_request p))))
    (omap (fun id => pending_approvals st !! id) (approval_order st)).

Definition is_run (run_id ai_session_id : bytes) (c : CapabilityCaller) : bool :=
  match c with Native r s _ => bool_decide (r = run_id) && bool_decide (s = ai_session_id) | Mcp => false end.

Definition native_approval_requests (st : CapabilityRuntimeState) (run_id ai_session_id : bytes) :
    list (CapabilityApprovalRequest * option bytes) :=
  (fun p => (p_approval p, if word_is (tool (p_request p)) "terminal_execute" then get_text "command" (arguments (p_request p)) else None))
  <$> List.filter (fun p => is_run run_id ai_session_id (caller (p_request p)) && negb (is_cancelled st (cancellation (p_request p))))
    (omap (fun id => pending_approvals st !! id) (approval_order st)).

(** ** Dispatch *)

Inductive dispatch_outcome := Rejected (code : bytes) | DeniedByPolicy | ApprovalQueued | Executed (r : CapabilityRequest) (decision : option bytes).

(** The mode of a request of the agent is that of its settings. *)
Definition effective_request (h : Host) (r : CapabilityRequest) : CapabilityRequest :=
  if is_native (caller r) then
    with_mode r (if bool_decide (h_mode h = ConfirmEach) then Confirm else MAuto)
  else r.

Definition is_terminal_run (t : bytes) : bool := word_is t "terminal_execute" || word_is t "terminal_start".
Definition is_job_tool (t : bytes) : bool := word_is t "terminal_poll" || word_is t "terminal_stop".

(** The checks before the policy: the definition and the request with its session. *)
Definition check_request (h : Host) (st : CapabilityRuntimeState) (r : CapabilityRequest) :
    result (ToolDefinition * CapabilityRequest) bytes :=
  if negb (is_native (caller r)) && negb (h_generation_matches h (generation r)) then Err (bs "authentication_failed")
  else if is_cancelled st (cancellation r) then Err (bs "cancelled")
  else
  definition <-? ok_or (definition_for_tool (tool r)) (bs "invalid_argument");
  if negb (valid_arguments (tool r) (arguments r)) then Err (bs "invalid_argument")
  else if match caller r with Native run ai _ => negb (h_run_live h run ai) | Mcp => false end then Err (bs "cancelled")
  else
  r <-? (if requires_session definition then
           match resolve_session (resolve (scope r) (h_sessions h)) (get_text "sessionId" (arguments r)) with
           | Err _ => Err (bs "scope_denied")
           | Ok id =>
               if is_terminal_run (tool r) && h_execution_disabled h id then Err (bs "permission_denied")
               else Ok (with_session r (set_str "sessionId" id (arguments r)) id)
           end
         else Ok r);
  r <-? (if is_job_tool (tool r) then
           id <-? h_job h (connection_id r) (scope r) (default [] (get_text "jobId" (arguments r)));
           Ok (with_session r (arguments r) id)
         else Ok r);
  Ok (definition, r).

(** The assessment, for the agent raised to the model's own rating. *)
Definition request_assessment (r : CapabilityRequest) : option RiskAssessment :=
  match assess_tool_risk (tool r) (arguments r), caller r with
  | Some a, Native _ _ (Some model) => Some (mkRisk (max_risk (level a) model) (reason a) (auto_executable a))
  | a, _ => a
  end.

Definition known_operation (h : Host) (r : CapabilityRequest) : bool :=
  is_some_and (get_text "idempotencyKey" (arguments r)) (h_known h (connection_id r) (tool r)).

Definition request_policy (h : Host) (d : ToolDefinition) (r : CapabilityRequest) : PolicyDecision :=
  let policy :=
    if word_is (tool r) "terminal_poll" || known_operation h r then Allow
    else if is_native (caller r) then decide_native_policy (h_mode h) (h_max_risk h) (access d) (request_assessment r)
    else decide_policy (permission_mode r) (access d) (request_assessment r) in
  let repeated_stop := word_is (tool r) "terminal_stop" && is_some_and (get_text "jobId" (arguments r)) (h_stop_requested h) in
  if repeated_stop && bool_decide (policy = RequireApproval) then Allow else policy.

(** The assessment is raised only where the policy is asked. *)
Definition final_assessment (h : Host) (r : CapabilityRequest) : option RiskAssessment :=
  if word_is (tool r) "terminal_poll" || known_operation h r then assess_tool_risk (tool r) (arguments r) else request_assessment r.

Definition single_approval (h : Host) (d : ToolDefinition) (r : CapabilityRequest) : bool :=
  requires_single_approval (access d) (final_assessment h r).
Definition confirm_each (h : Host) (r : CapabilityRequest) : bool :=
  is_native (caller r) && word_is (tool r) "terminal_execute" && bool_decide (h_mode h = ConfirmEach).

(** Whether each call needs an approval of its own. *)
Definition one_time (h : Host) (d : ToolDefinition) (r : CapabilityRequest) : bool := single_approval h d r || confirm_each h r.

Definition pending_of (h : Host) (d : ToolDefinition) (r : CapabilityRequest) : PendingCapabilityApproval :=
  mkPending r (mkApproval (request_id r) (tool r) (mcp_request_target r) (bool_decide (access d = ADestructiveWrite)) (negb (one_time h d r)))
    (mcp_grant_key r).

Definition dispatch_capability_request (h : Host) (st : CapabilityRuntimeState) (r : CapabilityRequest) :
    dispatch_outcome * CapabilityRuntimeState :=
  match check_request h st (effective_request h r) with
  | Err code => (Rejected code, remove_active st (request_id r))
  | Ok (d, r) =>
    let once := one_time h d r in
    let st := register st r in
    let r := if bool_decide (approval_decision r = Some (bs "allow_session")) && once
             then with_approval r false (approval_decision r) else r in
    let session_granted := negb once && granted_for st r in
    match request_policy h d r with
    | Deny => (DeniedByPolicy, remove_active st (request_id r))
    | RequireApproval =>
        if negb (approved r) && negb session_granted then (ApprovalQueued, queue_approval st (pending_of h d r))
        else (Executed r (if approved r then approval_decision r else Some (bs "session_grant")), st)
    | Allow =>
        (Executed r (if approved r then approval_decision r else if session_granted then Some (bs "session_grant") else None), st)
    end
  end.

(** [respond_to_mcp_approval]. *)
Definition respond_to_approval (h : Host) (st : CapabilityRuntimeState) (id : bytes) (choice : ApprovalChoice) :
    option dispatch_outcome * CapabilityRuntimeState :=
  match decide_approval st id choice with
  | (Some (Dispatch r), st) => let (o, st) := dispatch_capability_request h st r in (Some o, st)
  | (Some (Denied _), st) | (None, st) => (None, st)
  end.

(** ** Runs *)

Inductive event :=
| ERequest (h : Host) (r : CapabilityRequest)
| ERespond (h : Host) (id : bytes) (choice : ApprovalChoice)
| ECancelToken (t : token)
| ERequestCancelled (id : bytes)
| EDisconnected (client : bytes)
| ERevoke (gen : bytes)
| EPrune
| ECancelNative (session_id : bytes)
| EFinished (id : bytes).

Definition handle (st : CapabilityRuntimeState) (e : event) : option dispatch_outcome * CapabilityRuntimeState :=
  match e with
  | ERequest h r => let (o, st) := dispatch_capability_request h st r in (Some o, st)
  | ERespond h id choice => respond_to_approval h st id choice
  | ECancelToken t => (None, cancel st t)
  | ERequestCancelled id => (None, (request_cancelled st id).2)
  | EDisconnected client => (None, (connection_disconnected st client).2)
  | ERevoke gen => (None, revoke_generation st gen)
  | EPrune => (None, prune_cancelled st)
  | ECancelNative s => (None, cancel_native_approvals_for_target st s)
  | EFinished id => (None, remove_active st id)
  end.

Definition run (es : list event) : CapabilityRuntimeState := fold_left (fun st e => (handle st e).2) es default_state.

Lemma run_snoc es e : run (es ++ [e]) = (handle (run es) e).2.
Proof. unfold run. by rewrite fold_left_app. Qed.

(** Requests arrive without an approval. *)
Definition event_ok (e : event) : Prop :=
  match e with ERequest _ r => approved r = false /\ approval_decision r = None | _ => True end.

(** *** What the steps do to the approvals and the grants *)

(** The approvals that wait are a part of those before, in the same order. *)
Definition shrinks (st st' : CapabilityRuntimeState) : Prop :=
  pending_approvals st' ⊆ pending_approvals st /\ session_grants st' ⊆ session_grants st
  /\ approval_order st' = order_retain (approval_order st) (pending_approvals st').

(** The order lists the waiting approvals, each once. *)
Definition order_ok (st : CapabilityRuntimeState) : Prop :=
  NoDup (approval_order st) /\ forall id, id ∈ approval_order st <-> is_Some (pending_approvals st !! id).

Lemma elem_of_retain (order : list bytes) (pending : gmap bytes PendingCapabilityApproval) (id : bytes) :
  id ∈ order_retain order pending <-> id ∈ order /\ is_Some (pending !! id).
Proof. unfold order_retain. by rewrite !list_elem_of_In, filter_In, bool_decide_eq_true. Qed.

Lemma retain_all (order : list bytes) (pending : gmap bytes PendingCapabilityApproval) :
  (forall id, id ∈ order -> is_Some (pending !! id)) -> order_retain order pending = order.
Proof.
  unfold order_retain. induction order as [|x order IH]; intros Hx; [done|]. cbn [List.filter].
  rewrite bool_decide_true by (apply Hx, list_elem_of_here). f_equal. apply IH. intros id Hid. apply Hx. by apply list_elem_of_further.
Qed.

Lemma retain_retain (order : list bytes) (p p' : gmap bytes PendingCapabilityApproval) :
  p' ⊆ p -> order_retain (order_retain order p) p' = order_retain order p'.
Proof.
  intros Hs. unfold order_retain. induction order as [|x order IH]; [done|]. cbn [List.filter].
  case_bool_decide as H1; cbn [List.filter]; [by rewrite IH|]. rewrite bool_decide_false; [done|].
  intros [y Hy]. apply H1. exists y. by apply (lookup_weaken _ _ _ _ Hy).
Qed.

Lemma shrinks_refl st : order_ok st -> shrinks st st.
Proof. intros [_ Hi]. split_and!; [done..|]. symmetry. apply retain_all. intros id. by rewrite Hi. Qed.

Lemma shrinks_trans a b c : shrinks a b -> shrinks b c -> shrinks a c.
Proof.
  intros (P1 & G1 & O1) (P2 & G2 & O2). split_and!; [by etrans|by etrans|]. by rewrite O2, O1, retain_retain.
Qed.

Lemma shrinks_order st st' : order_ok st -> shrinks st st' -> order_ok st'.
Proof.
  intros [Hn Hi] (Hp & _ & Ho). split.
  - rewrite Ho. unfold order_retain. by apply NoDup_ListNoDup, List.NoDup_filter, NoDup_ListNoDup.
  - intros id. rewrite Ho, elem_of_retain, Hi. split; [tauto|]. intros [p Hx]. split; [|eauto]. exists p. by apply (lookup_weaken _ _ _ _ Hx).
Qed.

(** The same approvals and grants. *)
Definition same_approvals (st st' : CapabilityRuntimeState) : Prop :=
  pending_approvals st' = pending_approvals st /\ session_grants st' = session_grants st /\ approval_order st' = approval_order st.

Lemma same_shrinks st st' : order_ok st -> same_approvals st st' -> shrinks st st'.
Proof.
  intros [_ Hi] (Hp & Hg & Ho). split_and!; [by rewrite Hp|by rewrite Hg|]. rewrite Ho, Hp. symmetry. apply retain_all. intros id. by rewrite Hi.
Qed.

Lemma remove_pending_shrinks st id : order_ok st -> shrinks st (remove_pending st id).
Proof.
  intros [_ Hi]. split_and!; [apply delete_subseteq|done|]. cbn. unfold order_retain.
  assert (Hf : forall i, i ∈ approval_order st ->
    negb (bool_decide (i = id)) = bool_decide (is_Some (delete id (pending_approvals st) !! i))).
  { intros i Hx. apply Hi in Hx. case_bool_decide as E; cbn; symmetry.
    - subst i. apply bool_decide_eq_false. rewrite lookup_delete_eq. by intros [? ?].
    - apply bool_decide_eq_true. by rewrite lookup_delete_ne. }
  revert Hf. generalize (approval_order st). intros l Hf. induction l as [|x l IH]; [done|]. cbn [List.filter].
  rewrite (Hf x) by apply list_elem_of_here. rewrite IH; [done|]. intros i Hx. apply Hf. by apply list_elem_of_further.
Qed.

Lemma prune_shrinks st : shrinks st (prune_cancelled st).
Proof. split_and!; [apply map_filter_subseteq|done|done]. Qed.

Lemma cancel_all_same st ts : same_approvals st (cancel_all st ts).
Proof.
  unfold same_approvals, cancel_all. revert st. induction ts as [|t ts IH]; intros st; [done|]. cbn [fold_left].
  destruct (IH (cancel st t)) as (-> & -> & ->). done.
Qed.

Lemma request_cancelled_shrinks st id : order_ok st -> shrinks st (request_cancelled st id).2.
Proof.
  intros Hok. unfold request_cancelled. set (st1 := match active_requests st !! id with Some _ => _ | None => st end).
  assert (H1 : same_approvals st st1) by (unfold st1; by destruct (active_requests st !! id) as [[? ?]|]).
  assert (Hok1 : order_ok st1) by (eapply shrinks_order; [exact Hok|by apply same_shrinks]).
  eapply shrinks_trans; [by apply same_shrinks|]. pose proof (remove_pending_shrinks st1 id Hok1) as Hr.
  destruct (pending_approvals st1 !! id); cbn [snd]; exact Hr.
Qed.

Lemma disconnected_shrinks st client : shrinks st (connection_disconnected st client).2.
Proof.
  unfold connection_disconnected. cbn [snd].
  match goal with |- shrinks _ (cancel_all ?s ?ts) => destruct (cancel_all_same s ts) as (Hp & Hg & Ho) end.
  unfold shrinks. rewrite Hp, Hg, Ho. cbn. split_and!; [apply map_filter_subseteq| |done]. by intros x [_ Hx]%elem_of_filter.
Qed.

Lemma fold_shrinks {A} (f : CapabilityRuntimeState -> A -> CapabilityRuntimeState) l st :
  (forall st x, order_ok st -> shrinks st (f st x)) -> order_ok st -> shrinks st (fold_left f l st).
Proof.
  intros Hf. revert st. induction l as [|x l IH]; intros st Hok; cbn [fold_left]; [by apply shrinks_refl|].
  eapply shrinks_trans; [by apply Hf|]. apply IH. eapply shrinks_order; [exact Hok|by apply Hf].
Qed.

(** *** The approvals of a run *)

(** What a waiting approval says of its request. *)
Definition pending_ok (st : CapabilityRuntimeState) : Prop := forall id p, pending_approvals st !! id = Some p ->
  request_id (p_request p) = id /\ a_request_id (p_approval p) = id /\ approved (p_request p) = false
  /\ a_capability (p_approval p) = tool (p_request p) /\ a_target (p_approval p) = mcp_request_target (p_request p)
  /\ p_grant_key p = mcp_grant_key (p_request p).

Definition approvals_ok (st : CapabilityRuntimeState) : Prop := order_ok st /\ pending_ok st.

Lemma shrinks_ok st st' : approvals_ok st -> shrinks st st' -> approvals_ok st'.
Proof.
  intros [Ho Hp] Hs. split; [by eapply shrinks_order|]. intros id p Hid. apply Hp. destruct Hs as (Hs & _).
  by apply (lookup_weaken _ _ _ _ Hid).
Qed.

Lemma same_ok st st' : approvals_ok st -> same_approvals st st' -> approvals_ok st'.
Proof. intros Hok Hs. eapply shrinks_ok; [exact Hok|]. apply same_shrinks; [apply Hok|done]. Qed.

Lemma ok_of_queue st st' :
  approvals_ok st -> pending_approvals st' = pending_approvals st -> approval_order st' = approval_order st -> approvals_ok st'.
Proof. unfold approvals_ok, order_ok, pending_ok. by intros Hok -> ->. Qed.

Lemma queue_ok st h d r : approvals_ok st -> approved r = false -> approvals_ok (queue_approval st (pending_of h d r)).
Proof.
  intros [[Hn Hi] Hp] Ha. unfold queue_approval. cbn [pending_of p_approval a_request_id]. split; [split|]; cbn.
  - destruct (pending_approvals st !! request_id r) eqn:E; [done|]. apply NoDup_app. split_and!; [done| |apply NoDup_singleton].
    intros id Hid ->%list_elem_of_singleton. apply Hi in Hid as [? ?]. congruence.
  - intros id. rewrite lookup_insert_is_Some. destruct (decide (request_id r = id)) as [<-|Hne].
    + split; [by left|]. intros _. destruct (pending_approvals st !! request_id r) eqn:E; [apply Hi; eauto|].
      apply elem_of_app. right. apply list_elem_of_here.
    + rewrite <- Hi. destruct (pending_approvals st !! request_id r); [naive_solver|]. rewrite elem_of_app, list_elem_of_singleton. naive_solver.
  - intros id p. cbn [pending_approvals]. intros [[<- <-]|[_ Hid]]%lookup_insert_Some; [done|by apply Hp].
Qed.

Lemma check_fields h st r d r' :
  check_request h st r = Ok (d, r') ->
  request_id r' = request_id r /\ connection_id r' = connection_id r /\ tool r' = tool r /\ scope r' = scope r
  /\ cancellation r' = cancellation r /\ approved r' = approved r /\ approval_decision r' = approval_decision r /\ caller r' = caller r.
Proof.
  unfold check_request. case_match; [done|]. case_match; [done|]. destruct (definition_for_tool (tool r)) as [d0|]; [|done]. cbn [ok_or rbind].
  case_match; [done|]. case_match; [done|]. intros Hx.
  destruct (requires_session d0).
  - destruct (resolve_session _ _) as [id|]; [|done]. destruct (is_terminal_run (tool r) && h_execution_disabled h id); [done|]. cbn [rbind] in Hx.
    change (tool (with_session r _ id)) with (tool r) in Hx. destruct (is_job_tool (tool r)).
    + destruct (h_job _ _ _ _); [|done]. cbn in Hx. injection Hx as <- <-. done.
    + cbn in Hx. injection Hx as <- <-. done.
  - cbn [rbind] in Hx. destruct (is_job_tool (tool r)).
    + destruct (h_job _ _ _ _); [|done]. cbn in Hx. injection Hx as <- <-. done.
    + cbn in Hx. injection Hx as <- <-. done.
Qed.

Lemma effective_fields h r :
  request_id (effective_request h r) = request_id r /\ tool (effective_request h r) = tool r
  /\ scope (effective_request h r) = scope r /\ cancellation (effective_request h r) = cancellation r
  /\ approved (effective_request h r) = approved r /\ approval_decision (effective_request h r) = approval_decision r
  /\ caller (effective_request h r) = caller r.
Proof. unfold effective_request. by destruct (is_native (caller r)). Qed.

(** The state after a dispatch. *)
Lemma dispatch_state h st r :
  exists st1, same_approvals st st1
  /\ ((dispatch_capability_request h st r).2 = st1
      \/ exists d r', (dispatch_capability_request h st r).2 = queue_approval st1 (pending_of h d r') /\ approved r' = false).
Proof.
  unfold dispatch_capability_request. destruct (check_request h st (effective_request h r)) as [[d r']|]; [|eexists; split; [|by left]; done].
  set (r2 := if _ && _ then with_approval r' false _ else r'). set (st1 := register st r').
  destruct (request_policy h d r2).
  - exists st1. split; [done|by left].
  - destruct (approved r2) eqn:Ha; cbn [negb andb]; [exists st1; split; [done|by left]|].
    destruct (negb (negb (one_time h d r') && granted_for st1 r2)); cbn [snd]; [|exists st1; split; [done|by left]].
    exists st1. split; [done|right]. by exists d, r2.
  - exists (remove_active st1 (request_id r2)). split; [done|by left].
Qed.

Lemma dispatch_ok h st r : approvals_ok st -> approvals_ok (dispatch_capability_request h st r).2.
Proof.
  intros Hok. destruct (dispatch_state h st r) as (st1 & Hs & [->|(d & r' & -> & Ha)]); [by eapply same_ok|].
  apply queue_ok; [by eapply same_ok|done].
Qed.

Lemma dispatch_grants h st r : session_grants (dispatch_capability_request h st r).2 = session_grants st.
Proof. destruct (dispatch_state h st r) as (st1 & (_ & Hg & _) & [->|(d & r' & -> & _)]); exact Hg. Qed.

(** The user is asked for a grant. *)
Definition asked (st : CapabilityRuntimeState) (id : bytes) (key : GrantKey) : Prop :=
  exists p, pending_approvals (prune_cancelled st) !! id = Some p /\ allow_session (p_approval p) = true /\ p_grant_key p = Some key.

Lemma decide_state st id choice :
  approvals_ok st ->
  let st' := (decide_approval st id choice).2 in
  approvals_ok st' /\ forall key, key ∈ session_grants st' -> key ∈ session_grants st \/ choice = AllowSession /\ asked st id key.
Proof.
  intros Hok. assert (Hp : approvals_ok (prune_cancelled st)) by (eapply shrinks_ok; [exact Hok|apply prune_shrinks]).
  assert (Hr : approvals_ok (remove_pending (prune_cancelled st) id)) by (eapply shrinks_ok; [exact Hp|apply remove_pending_shrinks, Hp]).
  unfold decide_approval. destruct (pending_approvals (prune_cancelled st) !! id) as [p|] eqn:E; [|split; [done|by left]].
  destruct (is_cancelled _ _); [split; [done|by left]|]. destruct choice; cbn [snd]; [split; [exact Hr|by left]..|].
  destruct (allow_session (p_approval p)) eqn:Ha; [|split; [done|by left]].
  destruct (p_grant_key p) as [key|] eqn:Hk; [|split; [done|by left]]. split; [by eapply ok_of_queue; [exact Hr|..]|].
  intros key' [->%elem_of_singleton|Hx]%elem_of_union; [|by left]. right. split; [done|]. by exists p.
Qed.

Lemma respond_state h st id choice :
  approvals_ok st ->
  let st' := (respond_to_approval h st id choice).2 in
  approvals_ok st' /\ forall key, key ∈ session_grants st' -> key ∈ session_grants st \/ choice = AllowSession /\ asked st id key.
Proof.
  intros Hok. pose proof (decide_state st id choice Hok) as Hd. unfold respond_to_approval.
  destruct (decide_approval st id choice) as [[[r|r]|] st1]; [|done..]. cbn [snd] in Hd. destruct Hd as [Hd Hg].
  pose proof (dispatch_ok h st1 r Hd) as Hs. pose proof (dispatch_grants h st1 r) as Hs2.
  destruct (dispatch_capability_request h st1 r) as [o st2]. cbn [snd] in *. split; [done|]. by rewrite Hs2.
Qed.

Lemma other_shrinks st e :
  approvals_ok st -> match e with ERequest _ _ | ERespond _ _ _ => False | _ => True end -> shrinks st (handle st e).2.
Proof.
  intros [Ho Hp]. destruct e; cbn [handle snd]; intros Hx; try done.
  - by apply same_shrinks.
  - by apply request_cancelled_shrinks.
  - apply disconnected_shrinks.
  - unfold revoke_generation. apply fold_shrinks; [|done]. intros. apply disconnected_shrinks.
  - apply prune_shrinks.
  - unfold cancel_native_approvals_for_target. apply fold_shrinks; [|done]. intros. by apply request_cancelled_shrinks.
  - by apply same_shrinks.
Qed.

Lemma event_keeps_ok st e : approvals_ok st -> approvals_ok (handle st e).2.
Proof.
  intros Hok. destruct e as [h r|h id choice| | | | | | |]; try (by eapply shrinks_ok; [|apply other_shrinks]).
  - cbn [handle]. pose proof (dispatch_ok h st r Hok) as Hd. by destruct (dispatch_capability_request h st r).
  - by apply respond_state.
Qed.

Lemma runtime_ok es : approvals_ok (run es).
Proof.
  induction es as [|e es IH] using rev_ind; [|rewrite run_snoc; by apply event_keeps_ok].
  split; [split; [constructor|]|done]. intros id. cbn. rewrite lookup_empty. split; [by intros ?%elem_of_nil|by intros [? ?]].
Qed.

(** In every run the queue of approvals lists exactly the waiting requests, each once,
    and each waiting approval describes the very request that will run: its identifier, its
    tool, its target and the grant it would give, for a request not yet approved. *)
Theorem approval_queue_consistent (es : list event) : approvals_ok (run es).
Proof. apply runtime_ok. Qed.

(** *** Grants come from the user *)

(** The user chose to allow a request for the session, which would grant [key], and the
    connection has not ended since. *)
Definition granted_by_user (es : list event) (key : GrantKey) : Prop :=
  exists pre h id mid, es = pre ++ ERespond h id AllowSession :: mid /\ asked (run pre) id key
  /\ Forall (fun e => e <> EDisconnected key.1.1) mid.

Lemma disconnected_grants st client key : key ∈ session_grants (connection_disconnected st client).2 -> key.1.1 <> client.
Proof.
  unfold connection_disconnected. cbn [snd].
  match goal with |- context [cancel_all ?s ?ts] => destruct (cancel_all_same s ts) as (_ & -> & _) end.
  cbn [session_grants]. by intros [Hx _]%elem_of_filter.
Qed.

Lemma handle_grants st e key :
  approvals_ok st -> key ∈ session_grants (handle st e).2 ->
  (key ∈ session_grants st /\ e <> EDisconnected key.1.1) \/ exists h id, e = ERespond h id AllowSession /\ asked st id key.
Proof.
  intros Hok Hk. destruct e as [h r|h id choice| |id|client| | | |].
  2: { destruct (respond_state h st id choice Hok) as [_ Hg]. destruct (Hg key Hk) as [Hx|[-> Ha]]; [by left|]. right. by exists h, id. }
  { left. split; [|done]. cbn [handle] in Hk. pose proof (dispatch_grants h st r) as Hg.
    destruct (dispatch_capability_request h st r). cbn [snd] in *. by rewrite Hg in Hk. }
  all: left; split; [refine (proj1 (proj2 (other_shrinks st _ Hok _)) key Hk); done|try done].
  intros [= ->]. by apply disconnected_grants in Hk.
Qed.

Lemma grants_from_user es key : key ∈ session_grants (run es) -> granted_by_user es key.
Proof.
  induction es as [|e es IH] using rev_ind; [by intros ?%elem_of_empty|]. rewrite run_snoc. intros Hk.
  apply handle_grants in Hk as [[Hk Hne]|(h & id & -> & Ha)]; [| |apply runtime_ok].
  - destruct (IH Hk) as (pre & h & id & mid & -> & Ha & Hm). exists pre, h, id, (mid ++ [e]). split_and!; [by rewrite <- app_assoc|done|].
    apply Forall_app. split; [done|]. by apply Forall_singleton.
  - exists es, h, id, []. by split_and!.
Qed.

(** *** What ran was authorised *)

Definition host_of (e : event) : option Host := match e with ERequest h _ | ERespond h _ _ => Some h | _ => None end.

Lemma session_tools t d : definition_for_tool t = Some d -> requires_session d = true -> is_job_tool t = false.
Proof.
  unfold definition_for_tool. intros ([s d'] & Hf & ->)%fmap_Some. apply find_some in Hf as [Hin Ht]. cbn [fst snd] in *.
  unfold word_is in Ht. apply bool_decide_eq_true in Ht as ->. revert d' Hin. cbn. intros d' Hin Hr.
  unfold is_job_tool, word_is. repeat (destruct Hin as [[= <- <-]|Hin]; [try done|]); done.
Qed.

Lemma check_guards h st r d r' :
  check_request h st r = Ok (d, r') ->
  definition_for_tool (tool r') = Some d /\ (cancellation r' ∉ cancelled st)
  /\ (requires_session d = true -> exists id, resolved_session_id r' = Some id /\ granted (scope r') (h_sessions h) id
        /\ (is_terminal_run (tool r') = true -> h_execution_disabled h id = false)).
Proof.
  intros Hc. pose proof (check_fields _ _ _ _ _ Hc) as (_ & _ & Ht & Hs & Hk & _). rewrite Ht, Hs, Hk. revert Hc. clear Ht Hs Hk.
  unfold check_request. case_match; [done|]. destruct (is_cancelled st (cancellation r)) eqn:Ec; [done|].
  destruct (definition_for_tool (tool r)) as [d0|] eqn:Ed; [|done]. cbn [ok_or rbind]. case_match; [done|]. case_match; [done|]. intros Hx.
  apply bool_decide_eq_false in Ec. destruct (requires_session d0) eqn:Er.
  - pose proof (session_tools _ _ Ed Er) as Hj. destruct (resolve_session _ _) as [id|] eqn:Es; [|done].
    destruct (is_terminal_run (tool r)) eqn:Et, (h_execution_disabled h id) eqn:Eh; cbn [andb rbind] in Hx; try done;
      change (tool (with_session r _ id)) with (tool r) in Hx; rewrite Hj in Hx; cbn in Hx; injection Hx as <- <-;
      (split_and!; [done..|]); intros _; exists id; (split; [done|]); (split; [|done]);
      by apply resolve_session_granted in Es.
  - cbn [rbind] in Hx. destruct (is_job_tool (tool r)); [destruct (h_job _ _ _ _); [|done]|]; cbn in Hx; injection Hx as <- <-;
      by split_and!; [..|rewrite Er].
Qed.

(** The outcome of a dispatch that runs its request. *)
Lemma dispatch_executed h st r r' decision :
  (dispatch_capability_request h st r).1 = Executed r' decision ->
  exists d, definition_for_tool (tool r') = Some d /\ (cancellation r' ∉ cancelled st)
  /\ (requires_session d = true -> exists id, resolved_session_id r' = Some id /\ granted (scope r') (h_sessions h) id
        /\ (is_terminal_run (tool r') = true -> h_execution_disabled h id = false))
  /\ request_id r' = request_id r /\ tool r' = tool r
  /\ (request_policy h d r' = Allow
      \/ request_policy h d r' = RequireApproval
         /\ (approved r = true /\ (one_time h d r' = true -> approval_decision r <> Some (bs "allow_session"))
             \/ one_time h d r' = false /\ granted_for st r' = true)).
Proof.
  unfold dispatch_capability_request. destruct (check_request h st (effective_request h r)) as [[d r1]|] eqn:Hc; [|done].
  pose proof (check_guards _ _ _ _ _ Hc) as (Hd & Hk & Hg). pose proof (check_fields _ _ _ _ _ Hc) as (F1 & _ & F3 & _ & _ & F6 & F7 & _).
  pose proof (effective_fields h r) as (E1 & E2 & _ & _ & E5 & E6 & _).
  rewrite E1 in F1. rewrite E2 in F3. rewrite E5 in F6. rewrite E6 in F7.
  set (r2 := if _ && _ then with_approval r1 false _ else r1).
  assert (Hr2 : r2 = with_approval r1 (approved r1 && negb (bool_decide (approval_decision r1 = Some (bs "allow_session")) && one_time h d r1)) (approval_decision r1)).
  { unfold r2. destruct (_ && one_time h d r1); cbn [negb]; [by rewrite andb_false_r|]. rewrite andb_true_r. by destruct r1. }
  clearbody r2. intros Hx.
  assert (Hr : r' = r2 /\ (request_policy h d r2 = Allow \/ request_policy h d r2 = RequireApproval
    /\ (approved r2 = true \/ negb (one_time h d r1) && granted_for (register st r1) r2 = true))).
  { destruct (request_policy h d r2); cbn [fst] in Hx; [injection Hx as -> _; tauto| |done].
    destruct (approved r2); cbn [negb andb] in Hx; [injection Hx as -> _; tauto|].
    destruct (negb (one_time h d r1) && granted_for (register st r1) r2); cbn [negb fst] in Hx; [injection Hx as -> _; tauto|done]. }
  destruct Hr as [-> Hp]. rewrite Hr2 in *. exists d. split_and!; [done..|]. destruct Hp as [Hp|[Hp Ha]]; [by left|right]. split; [exact Hp|].
  change (one_time h d (with_approval r1 _ _)) with (one_time h d r1). rewrite <- F6, <- F7. destruct Ha as [Ha|Ha].
  - left. cbn [approved with_approval] in Ha. apply andb_true_iff in Ha as [Ha Hn]. split; [done|]. intros Ho E. rewrite Ho, bool_decide_true in Hn by done. done.
  - right. apply andb_true_iff in Ha as [Ho Hg2]. apply negb_true_iff in Ho. split; [done|exact Hg2].
Qed.

(** A request the user let through. *)
Lemma decide_dispatch st id choice r st' :
  decide_approval st id choice = (Some (Dispatch r), st') ->
  choice <> ChooseDeny /\ exists p, pending_approvals (prune_cancelled st) !! id = Some p /\ cancelled st' = cancelled st
  /\ request_id r = request_id (p_request p) /\ tool r = tool (p_request p)
  /\ approved r = true
  /\ (approval_decision r <> Some (bs "allow_session") -> choice = AllowOnce \/ allow_session (p_approval p) = false).
Proof.
  unfold decide_approval. destruct (pending_approvals (prune_cancelled st) !! id) as [p|] eqn:E; [|done].
  destruct (is_cancelled _ _); [done|]. destruct choice; [done| |]; intros [= <- <-]; (split; [done|]); exists p; split_and!; try done.
  - intros _. by left.
  - by destruct (allow_session (p_approval p)), (p_grant_key p).
  - cbn [approval_decision with_approval]. destruct (allow_session (p_approval p)); [by intros []|]. by right.
Qed.

(** What [execution_authorized] says of a request that runs at an event. *)
Definition authorized (es : list event) (e : event) (r : CapabilityRequest) : Prop :=
  exists h d, host_of e = Some h /\ definition_for_tool (tool r) = Some d /\ (cancellation r ∉ cancelled (run es))
  /\ (requires_session d = true -> exists id, resolved_session_id r = Some id /\ granted (scope r) (h_sessions h) id
        /\ (is_terminal_run (tool r) = true -> h_execution_disabled h id = false))
  /\ (request_policy h d r = Allow
      \/ request_policy h d r = RequireApproval
         /\ ((exists id choice p, e = ERespond h id choice /\ choice <> ChooseDeny
                /\ pending_approvals (prune_cancelled (run es)) !! id = Some p
                /\ a_request_id (p_approval p) = request_id r /\ a_capability (p_approval p) = tool r
                /\ (one_time h d r = true -> choice = AllowOnce \/ allow_session (p_approval p) = false))
             \/ one_time h d r = false /\ exists key, mcp_grant_key r = Some key /\ granted_by_user (es ++ [e]) key)).

(** C3: Whatever runs was authorised when it ran. The caller's request was not cancelled, its
    tool exists, a tool that needs a session runs in one the scope grants at that moment and
    in which execution is not disabled; and unless the policy allows the call outright,
    either the user has just let this very request through, and for a call that needs an
    approval of its own was not offered a grant or allowed it once, or the call needs no
    approval of its own and the user granted its tool, target and connection for a session
    that has not ended since. *)
Theorem execution_authorized (es : list event) (e : event) (r : CapabilityRequest) (decision : option bytes) :
  Forall event_ok (es ++ [e]) -> (handle (run es) e).1 = Some (Executed r decision) -> authorized es e r.
Proof.
  intros Hev Hx. apply Forall_app in Hev as [_ [He _]%Forall_cons].
  assert (Hgrant : forall st' q, session_grants st' ⊆ session_grants (run (es ++ [e])) -> granted_for st' q = true ->
    exists key, mcp_grant_key q = Some key /\ granted_by_user (es ++ [e]) key).
  { intros st' q Hs Hg. unfold granted_for, is_some_and, has_session_grant in Hg. destruct (mcp_grant_key q) as [key|]; [|done].
    exists key. split; [done|]. apply grants_from_user, Hs. by apply bool_decide_eq_true in Hg. }
  destruct e as [h r0|h id choice| | | | | | |]; try done; exists h; cbn [handle host_of] in *.
  - assert (Hsub : session_grants (run es) ⊆ session_grants (run (es ++ [ERequest h r0]))).
    { rewrite run_snoc. cbn [handle]. pose proof (dispatch_grants h (run es) r0) as Hd.
      destruct (dispatch_capability_request h (run es) r0). cbn [snd] in *. by rewrite Hd. }
    pose proof (dispatch_executed h (run es) r0 r decision) as Hd. destruct (dispatch_capability_request h (run es) r0) as [o st'].
    cbn [fst] in *. injection Hx as ->. destruct (Hd eq_refl) as (d & H1 & H2 & H3 & _ & _ & Hp). exists d. split_and!; [done..|].
    destruct Hp as [Hp|[Hp [[Ha _]|[Ho Hg]]]]; [by left| |]; [destruct He as [He _]; by rewrite He in Ha|]. right. split; [done|right]. split; [done|]. eauto.
  - unfold respond_to_approval in Hx. destruct (decide_approval (run es) id choice) as [[[r0|]|] st1] eqn:Hd; [|done..].
    destruct (decide_dispatch _ _ _ _ _ Hd) as (Hc & p & Hp & Hcan & Fi & Ft & Ha & Hone).
    assert (Hsub : session_grants st1 ⊆ session_grants (run (es ++ [ERespond h id choice]))).
    { rewrite run_snoc. cbn [handle]. unfold respond_to_approval. rewrite Hd. pose proof (dispatch_grants h st1 r0) as Hg.
      destruct (dispatch_capability_request h st1 r0). cbn [snd] in *. by rewrite Hg. }
    pose proof (dispatch_executed h st1 r0 r decision) as He2. destruct (dispatch_capability_request h st1 r0) as [o st'].
    cbn [fst] in *. injection Hx as ->. destruct (He2 eq_refl) as (d & H1 & H2 & H3 & G1 & G2 & Hpol). exists d. rewrite Hcan in H2.
    split_and!; [done..|]. destruct Hpol as [Hpol|[Hpol Hcase]]; [by left|]. right. split; [done|].
    destruct Hcase as [[_ Hn]|[Ho Hg]]; [left|right; split; [done|]; eauto]. exists id, choice, p.
    assert (Hok : approvals_ok (prune_cancelled (run es))) by (eapply shrinks_ok; [apply runtime_ok|apply prune_shrinks]).
    destruct Hok as [_ Hok]. destruct (Hok _ _ Hp) as (K1 & K2 & _ & K4 & _). split_and!; [done..| | |]; [congruence..|tauto].
Qed.

(** *** Closed connections *)

(** Nothing of a connection is left. *)
Definition cleared (st : CapabilityRuntimeState) (client : bytes) : Prop :=
  (forall key, key ∈ session_grants st -> key.1.1 <> client)
  /\ (forall id p, pending_approvals st !! id = Some p -> connection_id (p_request p) <> client)
  /\ (forall id t, active_requests st !! id <> Some (client, t)).

Lemma cancel_all_others st ts :
  active_requests (cancel_all st ts) = active_requests st /\ owners (cancel_all st ts) = owners st
  /\ (forall t, t ∈ cancelled (cancel_all st ts) <-> t ∈ cancelled st \/ t ∈ ts).
Proof.
  unfold cancel_all. revert st. induction ts as [|t0 ts IH]; intros st; cbn [fold_left].
  - split_and!; [done..|]. intros t. split; [by left|]. by intros [?|?%elem_of_nil].
  - destruct (IH (cancel st t0)) as (-> & -> & Ht). split_and!; [done..|]. intros t. rewrite Ht. cbn [cancel cancelled]. rewrite elem_of_cons. set_solver.
Qed.

Lemma disconnected_cleared st client : cleared (connection_disconnected st client).2 client.
Proof.
  split_and!; [apply disconnected_grants| |]; unfold connection_disconnected; cbn [snd];
    match goal with |- context [cancel_all ?s ?ts] =>
      destruct (cancel_all_same s ts) as (Hp & _ & _); destruct (cancel_all_others s ts) as (Ha & _ & _) end; rewrite ?Hp, ?Ha; cbn.
  - by intros id p [_ Hx]%map_lookup_filter_Some.
  - intros id t [_ Hx]%map_lookup_filter_Some. by apply Hx.
Qed.

Lemma disconnected_keeps_cleared st other client : cleared st client -> cleared (connection_disconnected st other).2 client.
Proof.
  intros (Hg & Hp & Ha). pose proof (disconnected_shrinks st other) as (Sp & Sg & _). split_and!.
  - intros key Hk. by apply Hg, Sg.
  - intros id p Hid. apply (Hp id). by apply (lookup_weaken _ _ _ _ Hid).
  - intros id t. unfold connection_disconnected. cbn [snd].
    match goal with |- context [cancel_all ?s ?ts] => destruct (cancel_all_others s ts) as (-> & _ & _) end. cbn.
    intros [Hx _]%map_lookup_filter_Some. by apply (Ha id t).
Qed.

Lemma revoke_list_cleared st l client :
  cleared st client \/ client ∈ l.*1 ->
  cleared (fold_left (fun st (kv : bytes * (CapabilityCaller * bytes)) => (connection_disconnected st kv.1).2) l st) client.
Proof.
  revert st. induction l as [|kv l IH]; intros st Hx; cbn [fold_left]; [by destruct Hx as [|?%elem_of_nil]|].
  apply IH. destruct Hx as [Hx|Hx]; [left; by apply disconnected_keeps_cleared|]. rewrite fmap_cons in Hx.
  apply elem_of_cons in Hx as [->|Hx]; [left; apply disconnected_cleared|by right].
Qed.

(** A connection that ends keeps nothing: its grants, waiting approvals and running
    requests are gone and every request it had is cancelled, while what other connections
    have is untouched; revoking a credential does this for every connection that used it. *)
Theorem disconnect_revokes (st : CapabilityRuntimeState) (client gen : bytes) :
  (let st' := (connection_disconnected st client).2 in
   cleared st' client
   /\ (forall id t, active_requests st !! id = Some (client, t) -> t ∈ cancelled st')
   /\ (forall id p, pending_approvals st !! id = Some p -> connection_id (p_request p) = client -> (cancellation (p_request p) ∈ cancelled st'))
   /\ (forall id p, connection_id (p_request p) <> client -> pending_approvals st' !! id = Some p <-> pending_approvals st !! id = Some p)
   /\ (forall key, key.1.1 <> client -> key ∈ session_grants st' <-> key ∈ session_grants st)
   /\ (forall id c t, c <> client -> active_requests st' !! id = Some (c, t) <-> active_requests st !! id = Some (c, t)))
  /\ (forall c caller, owners st !! c = Some (caller, gen) -> cleared (revoke_generation st gen) c).
Proof.
  split.
  - cbn zeta. split; [apply disconnected_cleared|]. unfold connection_disconnected. cbn [snd].
    match goal with |- context [cancel_all ?s ?ts] =>
      destruct (cancel_all_same s ts) as (-> & -> & _); destruct (cancel_all_others s ts) as (-> & _ & Ht) end; cbn in *. split_and!.
    + intros id t Hid. apply Ht. right. apply elem_of_app. left. apply list_elem_of_fmap. exists (id, (client, t)). split; [done|].
      apply elem_of_map_to_list. by apply map_lookup_filter_Some.
    + intros id p Hid Hc. apply Ht. right. apply elem_of_app. right. apply list_elem_of_fmap. exists (p_request p). split; [done|].
      apply list_elem_of_fmap. exists (id, p). split; [done|]. apply elem_of_map_to_list. by apply map_lookup_filter_Some.
    + intros id p Hc. rewrite map_lookup_filter_Some. cbn. tauto.
    + intros key Hk. rewrite elem_of_filter. tauto.
    + intros id c t Hc. rewrite map_lookup_filter_Some. cbn. tauto.
  - intros c caller0 Ho. unfold revoke_generation. apply revoke_list_cleared. right. apply list_elem_of_fmap. exists (c, (caller0, gen)).
    split; [done|]. apply elem_of_map_to_list. by apply map_lookup_filter_Some.
Qed.

(** *** Known operations *)

(** A call the policy is not asked about because its key is in the ledger joins the
    operation of that key: the ledger never lets it start one. *)
Lemma known_operation_joins {A F R} `{EqDecision F} (to_vec : A -> bytes) (fingerprint_of : bytes -> F) (l : gmap GrantKey (@Entry F R)) (h : Host) (r : CapabilityRequest) :
  h_known h = contains_key l -> known_operation h r = true ->
  exists key, get_text "idempotencyKey" (arguments r) = Some key
  /\ forall uuid now args operation_id, (begin to_vec fingerprint_of l uuid now (connection_id r) (tool r) (Some key) args).1 <> Ok (New operation_id).
Proof.
  intros Hh Hk. unfold known_operation, is_some_and in Hk. destruct (get_text "idempotencyKey" (arguments r)) as [key|]; [|done].
  exists key. split; [done|]. intros uuid now args op. rewrite Hh in Hk. unfold contains_key in Hk. apply bool_decide_eq_true in Hk as [e He].
  unfold begin. rewrite He. cbn [fst]. repeat case_match; congruence.
Qed.

End runtime.

(** ** Examples *)

Inductive ex_value := JText (s : bytes) | JObject (fields : list (string * bytes)).

#[export] Instance ex_json : JsonValue ex_value := {
  get name v := match v with JObject fs => JText <$> (snd <$> List.find (fun f => String.eqb f.1 name) fs) | JText _ => None end;
  as_str v := match v with JText s => Some s | JObject _ => None end;
  set_str name s v := match v with JObject fs => JObject ((name, s) :: fs) | JText _ => v end }.

#[export] Instance ex_tools : ToolArgs ex_value := {
  terminal_start_args v := get "command" v ≫= as_str;
  terminal_execute_args v := get "command" v ≫= as_str;
  sftp_write_text_args v := (fun p => (p, None)) <$> (get "path" v ≫= as_str);
  sftp_mkdir_args v := (fun p => (p, None)) <$> (get "path" v ≫= as_str);
  sftp_rename_args v := None;
  path_args v := get "path" v ≫= as_str;
  sftp_chmod_args v := None }.

Definition ex_host : Host :=
  mkHost [mkSession (bs "s1") (Some (bs "main")) true] (fun _ => true) (fun _ _ => true) Smart Medium (fun _ => false)
    (fun _ _ _ => Err (bs "job_not_found")) (fun _ _ _ => false) (fun _ => false).

Definition ex_request (id : string) (t : string) (args : list (string * bytes)) : CapabilityRequest :=
  mkRequest None (bs "c1") (bs id) (bs "g1") Confirm AllSessions (bs t) (JObject args) 1%positive false None Mcp.

Definition ex_digest (v : ex_value) : bytes := [].
Definition ex_valid (t : bytes) (v : ex_value) : bool := true.

Abbreviation ex_handle := (handle ex_valid ex_digest).
Abbreviation ex_run := (run ex_valid ex_digest).
Definition ex_events : list event :=
  [ERequest ex_host (ex_request "r1" "terminal_execute" [("command", bs "make deploy")])]%string.

(** A session grant lets the next call of the tool run, but not a critical command. *)
Example grants_and_critical_commands :
  let es := ex_events ++ [ERespond ex_host (bs "r1") AllowSession] in
  let next c := (ex_handle (ex_run es) (ERequest ex_host (ex_request "r2" "terminal_execute" [("command", bs c)])%string)).1 in
  match next "make test" with Some (Executed _ (Some d)) => d = bs "session_grant" | _ => False end
  /\ next "rm -rf /" = Some ApprovalQueued.
Proof. vm_compute. done. Qed.

Definition ex_approved : CapabilityRequest :=
  mkRequest (Some (bs "s1")) (bs "c1") (bs "r1") (bs "g1") Confirm AllSessions (bs "terminal_execute")
    (JObject [("sessionId", bs "s1"); ("sessionId", bs "s1"); ("command", bs "make deploy")]%string) 1%positive true (Some (bs "allow_once")) Mcp.

Lemma execution_authorized_witness :
  authorized ex_valid ex_digest ex_events (ERespond ex_host (bs "r1") AllowOnce) ex_approved.
Proof.
  refine (execution_authorized ex_valid ex_digest ex_events (ERespond ex_host (bs "r1") AllowOnce) ex_approved (Some (bs "allow_once")) _ _).
  - by repeat constructor.
  - vm_compute. reflexivity.
Defined.
