(* ===== verification/StreamOutput.v ===== *)
(** * Bounded streams of output

    [src/crates/nyaterm-core/src/capabilities/stream_output.rs]: output kept for a client that
    reads it in pieces, addressed by absolute byte offsets. The oldest bytes are dropped when
    the limit is reached; offsets and the text of the pieces stay on character boundaries.
    Sums are in range as long as less than 2^64 bytes are appended, which the theorems assume. *)

From stdpp Require Import base option list numbers strings.
From Stdlib Require Import ZArith Lia.
From S2P Require Import Prelude RustStr RustText RustChar.

Local Open Scope Z_scope.

Definition zlen (s : bytes) : Z := Z.of_nat (length s).

Definition CHUNK : nat := Z.to_nat 8192.
Definition MAX_OUTPUT_CHUNK_BYTES : Z := 64 * 1024.

Inductive OutputStoreError := Unavailable | InvalidOffset.

Record StreamOutput := mkStream {
  chunks : list bytes; nbytes : Z; base_offset : Z; total_bytes : Z; limit : Z; source_truncated : bool;
}.

Record StreamOutputChunk := mkChunk {
  c_data : bytes; c_offset : Z; c_next_offset : Z; c_base_offset : Z; c_total_bytes : Z;
  c_eof : bool; c_source_truncated : bool; c_dropped_before_offset : bool;
}.

Definition new_stream (limit : Z) : StreamOutput := mkStream [] 0 0 0 limit false.

(** One part of at most 8192 bytes: onto the last chunk when it fits. *)
Definition push_part (cs : list bytes) (part : bytes) : list bytes :=
  match last cs with
  | Some l => if (length l + length part <=? CHUNK)%nat then take (length cs - 1) cs ++ [l ++ part] else cs ++ [part]
  | None => cs ++ [part]
  end.

(** The fuel is the length of the text: every turn takes a character at least. *)
Fixpoint append_loop (fuel : nat) (cs : list bytes) (remaining : bytes) : list bytes :=
  match fuel, remaining with
  | _, [] => cs
  | O, _ => cs
  | S fuel', _ =>
    let end_ := floor_loop remaining (Nat.min (length remaining) CHUNK) in
    append_loop fuel' (push_part cs (take end_ remaining)) (drop end_ remaining)
  end.

(** [while drop < front.len() && !front.is_char_boundary(drop) { drop += 1 }], [n] turns at most. *)
Fixpoint ceil_loop (front : bytes) (n drop : nat) : nat :=
  match n with
  | O => drop
  | S n' => if (drop <? length front)%nat && negb (is_char_boundary front drop) then ceil_loop front n' (S drop) else drop
  end.

(** The fuel is one more than the number of chunks: every turn but the last drops a chunk. *)
Fixpoint trim_loop (fuel : nat) (s : StreamOutput) (keep : Z) : StreamOutput :=
  match fuel with
  | O => s
  | S fuel' =>
    if nbytes s <=? keep then s
    else match chunks s with
         | [] => s
         | front :: cs =>
           let dropped := ceil_loop front (length front) (Nat.min (Z.to_nat (nbytes s - keep)) (length front)) in
           let cs := if (dropped <? length front)%nat then drop dropped front :: cs else cs in
           trim_loop fuel' (mkStream cs (nbytes s - Z.of_nat dropped) (base_offset s + Z.of_nat dropped) (total_bytes s) (limit s) true) keep
         end
  end.
Definition trim_to (s : StreamOutput) (keep : Z) : StreamOutput := trim_loop (S (length (chunks s))) s keep.

Definition append (s : StreamOutput) (text : bytes) : StreamOutput :=
  match text with
  | [] => s
  | _ =>
    trim_to (mkStream (append_loop (length text) (chunks s) text) (sat_add 64 (nbytes s) (zlen text)) (base_offset s)
               (sat_add 64 (total_bytes s) (zlen text)) (limit s) (source_truncated s)) (limit s)
  end.

Definition retained_bytes (s : StreamOutput) : Z := nbytes s.
Definition note_source_loss (s : StreamOutput) : StreamOutput :=
  mkStream (chunks s) (nbytes s) (base_offset s) (total_bytes s) (limit s) true.

(** The loop over the chunks, with the bytes to skip and the data so far. *)
Fixpoint read_loop (cs : list bytes) (skip : nat) (data : bytes) (budget : nat) : result bytes OutputStoreError :=
  match cs with
  | [] => Ok data
  | chunk :: cs' =>
    if (length chunk <=? skip)%nat then read_loop cs' (skip - length chunk) data budget
    else if negb (is_char_boundary chunk skip) then Err InvalidOffset
    else
      let text := drop skip chunk in
      let end_ := floor_loop text (Nat.min (length text) (budget - length data)) in
      let data := data ++ take end_ text in
      if (end_ <? length text)%nat || (length data =? budget)%nat then Ok data else read_loop cs' 0 data budget
  end.

Definition clamp (lo hi x : Z) : Z := Z.max lo (Z.min hi x).

Definition read (s : StreamOutput) (offset max_bytes : Z) : result StreamOutputChunk OutputStoreError :=
  if total_bytes s <? offset then Err InvalidOffset
  else
    let actual := Z.max offset (base_offset s) in
    let budget := clamp 4 MAX_OUTPUT_CHUNK_BYTES max_bytes in
    rbind (read_loop (chunks s) (Z.to_nat (actual - base_offset s)) [] (Z.to_nat budget)) (fun data =>
    let next := actual + zlen data in
    Ok (mkChunk data actual next (base_offset s) (total_bytes s) (next =? total_bytes s) (source_truncated s) (offset <? base_offset s))).

(** ** Boundaries of concatenations *)

Lemma boundary_app_l a b i : utf8_valid b = true -> (i <= length a)%nat -> is_char_boundary (a ++ b) i = is_char_boundary a i.
Proof.
  intros Hb Hi. destruct (decide (i = length a)) as [->|Hne].
  { rewrite boundary_len. by apply boundary_app. }
  unfold is_char_boundary. rewrite lookup_app_l by lia. f_equal. f_equal. rewrite length_app.
  destruct (Nat.eqb_spec i (length a + length b)), (Nat.eqb_spec i (length a)); lia || done.
Qed.

Lemma boundary_app_r a b i : utf8_valid b = true -> is_char_boundary (a ++ b) (length a + i) = is_char_boundary b i.
Proof.
  intros Hb. destruct i as [|i]; [rewrite Nat.add_0_r; by rewrite boundary_app|].
  unfold is_char_boundary. rewrite lookup_app_r, length_app by lia. replace (length a + S i - length a)%nat with (S i) by lia.
  destruct (Nat.eqb_spec (length a + S i) 0), (Nat.eqb_spec (S i) 0); try lia.
  destruct (Nat.eqb_spec (length a + S i) (length a + length b)), (Nat.eqb_spec (S i) (length b)); lia || done.
Qed.

Lemma floor_unique s o r :
  is_char_boundary s r = true -> (r <= o)%nat -> (forall i, is_char_boundary s i = true -> (i <= o)%nat -> (i <= r)%nat) -> floor_loop s o = r.
Proof.
  intros Hr Hle Hmax. destruct (floor_loop_spec s o) as (Hb & Hf & Hg). pose proof (Hmax _ Hb Hf). pose proof (Hg _ Hr Hle). lia.
Qed.

Lemma floor_app_l a b o : utf8_valid b = true -> (o <= length a)%nat -> floor_loop (a ++ b) o = floor_loop a o.
Proof.
  intros Hb Ho. destruct (floor_loop_spec a o) as (H1 & H2 & H3). apply floor_unique; [by rewrite boundary_app_l by (done || lia)|done|].
  intros i Hi Hle. rewrite boundary_app_l in Hi by (done || lia). by apply H3.
Qed.

Lemma floor_app_r a b o : utf8_valid b = true -> floor_loop (a ++ b) (length a + o) = (length a + floor_loop b o)%nat.
Proof.
  intros Hb. destruct (floor_loop_spec b o) as (H1 & H2 & H3). apply floor_unique; [by rewrite boundary_app_r|lia|].
  intros i Hi Hle. destruct (decide (i <= length a)%nat); [lia|]. replace i with (length a + (i - length a))%nat in Hi by lia.
  rewrite boundary_app_r in Hi by done. specialize (H3 _ Hi ltac:(lia)). lia.
Qed.

(** A character is at most four bytes long, so a floor of four or more is not zero. *)
Lemma floor_pos s o : utf8_valid s = true -> s <> [] -> (4 <= o)%nat -> (0 < floor_loop s o)%nat.
Proof.
  intros Hs. revert s Hs. apply (str_ind (fun s => s <> [] -> (4 <= o)%nat -> (0 < floor_loop s o)%nat)); [done|].
  intros c s Hc Hs _ _ Ho. destruct (floor_loop_spec (c ++ s) o) as (_ & _ & H3). specialize (H3 (length c) (boundary_app c s Hs)).
  pose proof (is_char_length c Hc). destruct Hc as (_ & _ & Hl). assert (length c <= 4)%nat; [|specialize (H3 ltac:(lia)); lia].
  rewrite Hl. unfold char_len. repeat case_match; lia.
Qed.

(** ** Appending *)

Definition chunk_ok (c : bytes) : Prop := c <> [] /\ utf8_valid c = true /\ (length c <= CHUNK)%nat.

Lemma chunks_valid cs : Forall chunk_ok cs -> utf8_valid (concat cs) = true.
Proof. induction 1 as [|c cs (_ & Hc & _) _ IH]; [done|]. cbn. by rewrite utf8_valid_app. Qed.

Lemma push_part_spec cs part : chunk_ok part -> Forall chunk_ok cs -> concat (push_part cs part) = concat cs ++ part /\ Forall chunk_ok (push_part cs part).
Proof.
  intros Hp Hcs. assert (Hsnoc : concat (cs ++ [part]) = concat cs ++ part /\ Forall chunk_ok (cs ++ [part])).
  { rewrite concat_app. cbn. rewrite app_nil_r. split; [done|]. apply Forall_app. by split; [|apply Forall_singleton]. }
  unfold push_part. destruct (last cs) as [l|] eqn:E; [|done]. destruct (Nat.leb_spec (length l + length part) CHUNK) as [Hle|]; [|done].
  apply last_Some in E as [cs' ->]. apply Forall_app in Hcs as [Hcs Hl]. rewrite Forall_singleton in Hl. rewrite length_app. cbn [length].
  replace (length cs' + 1 - 1)%nat with (length cs') by lia. rewrite take_app_length, !concat_app. cbn. rewrite !app_nil_r, app_assoc. split; [done|].
  apply Forall_app. split; [done|]. apply Forall_singleton. destruct Hl as (Hne & Hv & _), Hp as (_ & Hv' & _). split_and!; [by destruct l| |by rewrite length_app].
  by rewrite utf8_valid_app.
Qed.

Lemma append_loop_spec fuel cs remaining :
  (length remaining <= fuel)%nat -> utf8_valid remaining = true -> Forall chunk_ok cs ->
  concat (append_loop fuel cs remaining) = concat cs ++ remaining /\ Forall chunk_ok (append_loop fuel cs remaining).
Proof.
  revert cs remaining. induction fuel as [|fuel IH]; intros cs remaining Hf Hv Hcs.
  { destruct remaining; [|cbn in Hf; lia]. by rewrite app_nil_r. }
  cbn [append_loop]. destruct remaining as [|b r] eqn:Er; [by rewrite app_nil_r|]. assert (Hne : remaining <> []) by congruence. rewrite <- Er in *. clear Er b r.
  set (e := floor_loop remaining (Nat.min (length remaining) CHUNK)).
  destruct (floor_loop_spec remaining (Nat.min (length remaining) CHUNK)) as (Hb & Hle & Hmax). fold e in Hb, Hle, Hmax.
  destruct (boundary_split remaining e Hv Hb) as [Hv1 Hv2].
  assert (He : (0 < e)%nat).
  { destruct (decide (length remaining <= CHUNK)%nat) as [Hs|Hs].
    - unfold e. rewrite Nat.min_l, floor_loop_id by (done || apply boundary_len). destruct remaining; [done|cbn; lia].
    - apply floor_pos; [done..|]. unfold CHUNK in *. lia. }
  assert (Hlen : (0 < length remaining)%nat) by (destruct remaining; [done|cbn; lia]).
  assert (Hpart : chunk_ok (take e remaining)).
  { split_and!; [|done|rewrite length_take; lia]. intros E. apply (f_equal length) in E. rewrite length_take in E. cbn in E. lia. }
  destruct (push_part_spec cs _ Hpart Hcs) as [Hc Hok].
  destruct (IH (push_part cs (take e remaining)) (drop e remaining)) as [IH1 IH2]; [rewrite length_drop; lia|done|done|].
  split; [|done]. by rewrite IH1, Hc, <- app_assoc, take_drop.
Qed.

(** ** Trimming *)

Lemma ceil_loop_spec front n o :
  (o <= length front)%nat -> (length front <= o + n)%nat ->
  is_char_boundary front (ceil_loop front n o) = true /\ (o <= ceil_loop front n o <= length front)%nat
  /\ forall i, is_char_boundary front i = true -> (o <= i)%nat -> (ceil_loop front n o <= i)%nat.
Proof.
  revert o. induction n as [|n IH]; intros o Ho Hn; cbn [ceil_loop].
  { replace o with (length front) by lia. rewrite boundary_len. split_and!; [done|lia..|]. lia. }
  destruct (Nat.ltb_spec o (length front)) as [Hlt|Hge]; cbn [andb].
  - destruct (is_char_boundary front o) eqn:Eb; cbn [negb]; [split_and!; [done|lia..|lia]|].
    destruct (IH (S o) ltac:(lia) ltac:(lia)) as (H1 & H2 & H3). split_and!; [done|lia|lia|]. intros i Hi Hle. apply H3; [done|].
    destruct (decide (i = o)) as [->|]; [congruence|lia].
  - replace o with (length front) by lia. rewrite boundary_len. split_and!; [done|lia..|lia].
Qed.

(** Dropping [k] bytes from the front. *)
Definition trimmed (s s' : StreamOutput) (k : nat) : Prop :=
  concat (chunks s') = drop k (concat (chunks s)) /\ (k <= length (concat (chunks s)))%nat /\ is_char_boundary (concat (chunks s)) k = true
  /\ nbytes s' = nbytes s - Z.of_nat k /\ base_offset s' = base_offset s + Z.of_nat k /\ total_bytes s' = total_bytes s /\ limit s' = limit s
  /\ Forall chunk_ok (chunks s').

Lemma trim_loop_spec fuel s keep :
  0 <= keep -> (length (chunks s) < fuel)%nat -> Forall chunk_ok (chunks s) -> nbytes s = zlen (concat (chunks s)) ->
  exists k, trimmed s (trim_loop fuel s keep) k /\ nbytes (trim_loop fuel s keep) <= Z.max keep 0
    /\ source_truncated (trim_loop fuel s keep) = source_truncated s || (0 <? k)%nat.
Proof.
  intros Hk. revert s. induction fuel as [|fuel IH]; intros s Hf Hok Hn; [lia|]. cbn [trim_loop].
  destruct (Z.leb_spec (nbytes s) keep) as [Hle|Hgt].
  { exists 0%nat. unfold trimmed. rewrite drop_0, Z.sub_0_r, Z.add_0_r, orb_false_r. split_and!; try done; lia. }
  destruct (chunks s) as [|front cs] eqn:Ecs; [rewrite Hn in Hgt; unfold zlen in Hgt; cbn in Hgt; lia|]. apply Forall_cons in Hok as [Hfront Hcs].
  pose proof Hfront as (Hne & Hvf & Hlf). pose proof (chunks_valid cs Hcs) as Hvc.
  set (o := Nat.min (Z.to_nat (nbytes s - keep)) (length front)). set (dr := ceil_loop front (length front) o).
  destruct (ceil_loop_spec front (length front) o ltac:(lia) ltac:(lia)) as (Hb & Ho & _). fold dr in Hb, Ho.
  destruct (boundary_split front dr Hvf Hb) as [_ Hvd].
  assert (Hfl : (0 < length front)%nat) by (destruct front; [done|cbn; lia]). assert (Hpos : (0 < dr)%nat) by lia.
  set (cs' := if (dr <? length front)%nat then drop dr front :: cs else cs).
  assert (Hcs' : Forall chunk_ok cs' /\ concat cs' = drop dr (concat (front :: cs))).
  { unfold cs'. cbn [concat]. rewrite drop_app_le by lia. destruct (Nat.ltb_spec dr (length front)) as [Hlt|Hge].
    - split; [|done]. constructor; [|done]. split_and!; [|done|rewrite length_drop; lia]. intros E%(f_equal length). rewrite length_drop in E. cbn in E. lia.
    - split; [done|]. by rewrite (drop_ge front) by lia. }
  destruct Hcs' as [Hok' Hcat]. set (s' := mkStream cs' _ _ _ _ _).
  assert (Hbound : is_char_boundary (concat (front :: cs)) dr = true) by (cbn; rewrite boundary_app_l; [done|done|lia]).
  assert (Hn' : nbytes s' = zlen (concat (chunks s'))).
  { cbn. rewrite Hcat, Hn. unfold zlen. rewrite length_drop. cbn [concat]. rewrite length_app. lia. }
  destruct (decide (nbytes s' <= keep)) as [Hdone|Hmore].
  - assert (Hstop : trim_loop fuel s' keep = s') by (destruct fuel; [done|]; cbn [trim_loop]; by destruct (Z.leb_spec (nbytes s') keep); [|lia]).
    rewrite Hstop. exists dr. unfold trimmed. rewrite Ecs. split_and!; try done; [cbn [concat]; rewrite length_app; lia|lia|].
    assert (E0 : (0 <? dr)%nat = true) by (apply Nat.ltb_lt; lia). by rewrite E0, orb_true_r.
  - assert (Hwhole : (dr < length front)%nat -> False).
    { intros Hlt. apply Hmore. cbn. unfold o in Ho. lia. }
    assert (Ecs' : cs' = cs) by (unfold cs'; destruct (Nat.ltb_spec dr (length front)); [by destruct Hwhole|done]).
    destruct (IH s') as (k & (T1 & T2 & T3 & T4 & T5 & T6 & T7 & T8) & Hle & Hst); [cbn; rewrite Ecs'; cbn in Hf; lia|done|done|].
    change (chunks s') with cs' in *. rewrite Hcat in T1, T2, T3. rewrite drop_drop in T1. rewrite length_drop in T2.
    assert (Hall : dr = length front) by lia. cbn [concat] in T3. rewrite Hall, drop_app_length in T3.
    exists (dr + k)%nat. unfold trimmed. rewrite Ecs. split_and!; try done.
    + lia.
    + cbn [concat]. rewrite Hall, boundary_app_r; done.
    + rewrite T4. cbn. lia.
    + rewrite T5. cbn. lia.
    + assert (E0 : (0 <? dr + k)%nat = true) by (apply Nat.ltb_lt; lia). by rewrite Hst, E0, orb_true_r.
Qed.

(** ** The stream *)

(** [s] holds the end of [text] from [base_offset] on. *)
Definition stream_ok (s : StreamOutput) (text : bytes) : Prop :=
  utf8_valid text = true /\ 0 <= base_offset s <= zlen text /\ is_char_boundary text (Z.to_nat (base_offset s)) = true
  /\ concat (chunks s) = drop (Z.to_nat (base_offset s)) text /\ nbytes s = zlen text - base_offset s /\ total_bytes s = zlen text
  /\ Forall chunk_ok (chunks s) /\ (0 < base_offset s -> source_truncated s = true).

Lemma trim_to_ok s text keep :
  0 <= keep -> stream_ok s text -> stream_ok (trim_to s keep) text /\ nbytes (trim_to s keep) <= keep /\ limit (trim_to s keep) = limit s.
Proof.
  intros Hk (Hv & Hb & Hbound & Hcat & Hn & Ht & Hok & Htr). unfold zlen in *.
  destruct (trim_loop_spec (S (length (chunks s))) s keep Hk ltac:(lia) Hok) as (k & (T1 & T2 & T3 & T4 & T5 & T6 & T7 & T8) & Hle & Hst).
  { rewrite Hcat. unfold zlen. rewrite length_drop. lia. }
  fold (trim_to s keep) in *. rewrite Hcat in T1, T2, T3. rewrite drop_drop in T1. rewrite length_drop in T2.
  split; [|split; [lia|done]]. unfold stream_ok, zlen. rewrite T5, T4, T6.
  assert (E : Z.to_nat (base_offset s + Z.of_nat k) = (Z.to_nat (base_offset s) + k)%nat) by lia. rewrite E.
  split_and!; try done; try lia.
  - destruct (boundary_split text _ Hv Hbound) as [_ Hd].
    assert (Hl : length (take (Z.to_nat (base_offset s)) text) = Z.to_nat (base_offset s)) by (rewrite length_take; lia).
    pose proof (boundary_app_r (take (Z.to_nat (base_offset s)) text) _ k Hd) as Hr. by rewrite take_drop, Hl, T3 in Hr.
  - rewrite Hst. intros Hpos. destruct (Nat.ltb_spec 0 k) as [|Hz]; [by rewrite orb_true_r|]. rewrite Htr by lia. done.
Qed.

Lemma append_ok s text more :
  0 <= limit s -> stream_ok s text -> utf8_valid more = true -> zlen (text ++ more) < 2 ^ 64 -> nbytes s <= limit s ->
  stream_ok (append s more) (text ++ more) /\ nbytes (append s more) <= limit s /\ limit (append s more) = limit s.
Proof.
  intros Hl Hs Hv Hmax Hn. unfold append. destruct more as [|b m] eqn:Em; [by rewrite app_nil_r|]. rewrite <- Em in *. clear Em.
  destruct Hs as (Hvt & Hb & Hbound & Hcat & Hnb & Ht & Hok & Htr). unfold zlen in *. rewrite length_app in Hmax.
  set (s' := mkStream _ _ _ _ _ _). apply (trim_to_ok s' (text ++ more) (limit s)); [done|].
  destruct (append_loop_spec (length more) (chunks s) more ltac:(done) Hv Hok) as [Hcat' Hok'].
  unfold stream_ok, zlen, s', sat_add. cbn. rewrite length_app. split_and!; try done; try lia.
  - by rewrite utf8_valid_app.
  - rewrite boundary_app_l; [done|done|lia].
  - rewrite Hcat', Hcat, drop_app_le by lia. done.
Qed.

(** *** Runs *)

Inductive op := Append (text : bytes) | Trim (keep : Z) | Loss.

Definition step (s : StreamOutput) (o : op) : StreamOutput :=
  match o with Append text => append s text | Trim keep => trim_to s keep | Loss => note_source_loss s end.

Definition appended (ops : list op) : bytes := concat ((fun o => match o with Append text => text | _ => [] end) <$> ops).

Definition op_ok (o : op) : Prop := match o with Append text => utf8_valid text = true | Trim keep => 0 <= keep | Loss => True end.

Lemma run_ok ops s text :
  0 <= limit s -> stream_ok s text -> nbytes s <= limit s -> Forall op_ok ops -> zlen (text ++ appended ops) < 2 ^ 64 ->
  let s' := fold_left step ops s in stream_ok s' (text ++ appended ops) /\ nbytes s' <= limit s /\ limit s' = limit s.
Proof.
  intros Hl Hs Hn Hops. revert s text Hl Hs Hn. induction Hops as [|o ops Ho _ IH]; intros s text Hl Hs Hn Hmax; cbn [fold_left]; [by rewrite app_nil_r|].
  assert (Hsplit : appended (o :: ops) = match o with Append t => t | _ => [] end ++ appended ops) by done. rewrite Hsplit in *.
  destruct o as [t|keep|]; cbn [step op_ok app] in *.
  - rewrite app_assoc in *. assert (zlen (text ++ t) < 2 ^ 64) by (unfold zlen in *; rewrite length_app in Hmax; lia).
    destruct (append_ok s text t Hl Hs Ho ltac:(done) Hn) as (Hs' & Hn' & Hl'). rewrite <- Hl'. apply IH; [lia|done|lia|done].
  - destruct (trim_to_ok s text keep Ho Hs) as (Hs' & _ & Hl'). assert (Hn' : nbytes (trim_to s keep) <= limit (trim_to s keep)).
    { rewrite Hl'. destruct Hs' as (_ & Hb' & _ & _ & -> & _). destruct Hs as (Hv & Hb & Hbound & Hcat & Hnb & Ht & Hok & _).
      destruct (trim_loop_spec (S (length (chunks s))) s keep Ho ltac:(lia) Hok) as (k & (_ & _ & _ & T4 & T5 & _) & _).
      { rewrite Hcat. unfold zlen in *. rewrite length_drop. lia. }
      unfold trim_to. rewrite T5. lia. }
    rewrite <- Hl'. apply IH; [lia|done|done|done].
  - apply (IH (note_source_loss s)); try done. destruct Hs as (H1 & H2 & H3 & H4 & H5 & H6 & H7 & _). exact (conj H1 (conj H2 (conj H3 (conj H4 (conj H5 (conj H6 (conj H7 (fun _ => eq_refl)))))))). 
Qed.

(** ** Reading *)

Lemma read_loop_spec cs skip data budget :
  Forall chunk_ok cs -> (skip <= length (concat cs))%nat -> (length data < budget)%nat ->
  read_loop cs skip data budget
  = if is_char_boundary (concat cs) skip
    then let rest := drop skip (concat cs) in Ok (data ++ take (floor_loop rest (Nat.min (length rest) (budget - length data))) rest)
    else Err InvalidOffset.
Proof.
  intros Hok. revert skip data. induction Hok as [|chunk cs (Hne & Hv & _) Hcs IH]; intros skip data Hs Hd; cbn [read_loop concat].
  { cbn in Hs. replace skip with 0%nat by lia. cbn. by rewrite app_nil_r. }
  pose proof (chunks_valid cs Hcs) as Hvc. set (C := concat cs) in *. cbn [concat] in Hs. fold C in Hs. rewrite length_app in Hs.
  destruct (Nat.leb_spec (length chunk) skip) as [Hle|Hgt].
  { rewrite IH by (done || lia). replace skip with (length chunk + (skip - length chunk))%nat at 2 by lia. rewrite boundary_app_r by done.
    rewrite (drop_app_ge chunk) by lia. done. }
  rewrite boundary_app_l by (done || lia). destruct (is_char_boundary chunk skip) eqn:Eb; cbn [negb]; [|done].
  rewrite drop_app_le by lia. destruct (boundary_split chunk skip Hv Eb) as [_ Hvt]. set (text := drop skip chunk) in *. set (b := (budget - length data)%nat).
  cbv zeta. set (e := floor_loop text (Nat.min (length text) b)).
  destruct (floor_loop_spec text (Nat.min (length text) b)) as (_ & He & _). fold e in He. rewrite (length_app text C).
  destruct (Nat.ltb_spec e (length text)) as [Hlt|Hge]; cbn [orb].
  - assert (Hb : (b < length text)%nat).
    { destruct (Nat.lt_ge_cases b (length text)) as [|Hb]; [done|exfalso]. unfold e in Hlt. rewrite Nat.min_l in Hlt by done. rewrite floor_loop_id in Hlt by apply boundary_len. lia. }
    replace (Nat.min (length text + length C) b) with b by lia. unfold e. rewrite Nat.min_r by lia. rewrite floor_app_l by (done || lia).
    destruct (floor_loop_spec text b) as (_ & Hf & _). by rewrite take_app_le by lia.
  - assert (He' : e = length text) by lia. rewrite He', take_ge by lia. rewrite length_app. destruct (Nat.eqb_spec (length data + length text) budget) as [Heq|Hneq].
    + replace (Nat.min (length text + length C) b) with (length text) by lia. rewrite floor_app_l, floor_loop_id by (done || apply boundary_len).
      by rewrite take_app_length.
    + rewrite IH; [|lia|rewrite length_app; lia]. cbv zeta. rewrite boundary_0, drop_0, length_app. f_equal.
      replace (Nat.min (length text + length C) b) with (length text + Nat.min (length C) (budget - (length data + length text)))%nat by lia.
      rewrite floor_app_r by done. by rewrite take_app_add, app_assoc.
Qed.

(** Whatever is appended, trimmed and lost, a stream keeps exactly the end of its text from
    [base_offset] on, which is a character boundary, within its limit, and says when something
    is missing. *)
Theorem stream_retains lim ops :
  0 <= lim -> Forall op_ok ops -> zlen (appended ops) < 2 ^ 64 ->
  let s := fold_left step ops (new_stream lim) in
  let text := appended ops in
  concat (chunks s) = drop (Z.to_nat (base_offset s)) text /\ is_char_boundary text (Z.to_nat (base_offset s)) = true
  /\ base_offset s + retained_bytes s = total_bytes s /\ total_bytes s = zlen text /\ retained_bytes s = zlen (concat (chunks s))
  /\ retained_bytes s <= lim /\ (0 < base_offset s -> source_truncated s = true).
Proof.
  intros Hl Hops Hmax s text.
  destruct (run_ok ops (new_stream lim) [] Hl) as ((Hv & Hb & Hbound & Hcat & Hn & Ht & Hok & Htr) & Hle & _); [|done|done|done|].
  { unfold stream_ok, zlen. cbn. split_and!; try done; lia. }
  fold s in Hb, Hbound, Hcat, Hn, Ht, Htr, Hle. rewrite app_nil_l in Hbound, Hcat, Hb, Hn, Ht. fold text in Hbound, Hcat, Hb, Hn, Ht. unfold retained_bytes.
  split_and!; try done; [lia|]. rewrite Hcat, Hn. unfold zlen in *. rewrite length_drop. lia.
Qed.

(** A read gives the text from the offset, or from the first byte that is left, up to the last
    character boundary within the budget: never part of a character, never nothing before the
    end, so that reading on from [next_offset] gives the whole stream; an offset inside a
    character or after the end is refused. *)
Theorem stream_read lim ops offset max_bytes :
  0 <= lim -> Forall op_ok ops -> zlen (appended ops) < 2 ^ 64 -> 0 <= offset <= zlen (appended ops) ->
  let s := fold_left step ops (new_stream lim) in
  let text := appended ops in
  let actual := Z.max offset (base_offset s) in
  let rest := drop (Z.to_nat actual) text in
  if is_char_boundary text (Z.to_nat actual) then
    exists data, read s offset max_bytes
        = Ok (mkChunk data actual (actual + zlen data) (base_offset s) (zlen text) (actual + zlen data =? zlen text) (source_truncated s) (offset <? base_offset s))
      /\ data = take (floor_loop rest (Nat.min (length rest) (Z.to_nat (clamp 4 MAX_OUTPUT_CHUNK_BYTES max_bytes)))) rest
      /\ utf8_valid data = true /\ (actual < zlen text -> 0 < zlen data) /\ zlen data <= clamp 4 MAX_OUTPUT_CHUNK_BYTES max_bytes
  else read s offset max_bytes = Err InvalidOffset.
Proof.
  intros Hl Hops Hmax Ho s text actual rest.
  destruct (run_ok ops (new_stream lim) [] Hl) as ((Hv & Hb & Hbound & Hcat & Hn & Ht & Hok & _) & _); [|done|done|done|].
  { unfold stream_ok, zlen. cbn. split_and!; try done; lia. }
  fold s in Hb, Hbound, Hcat, Hn, Ht, Hok. rewrite app_nil_l in *. fold text in Hv, Hbound, Hcat, Hb, Hn, Ht, Ho.
  set (k := Z.to_nat (actual - base_offset s)). set (bn := Z.to_nat (base_offset s)) in *.
  assert (Ea : Z.to_nat actual = (bn + k)%nat) by lia. unfold zlen in Hb, Ho.
  assert (Hcut : drop k (concat (chunks s)) = rest) by (rewrite Hcat, drop_drop; unfold rest; by rewrite Ea).
  assert (Hbd : is_char_boundary (concat (chunks s)) k = is_char_boundary text (Z.to_nat actual)).
  { destruct (boundary_split text bn Hv Hbound) as [_ Hd]. pose proof (boundary_app_r (take bn text) _ k Hd) as Hr.
    rewrite take_drop, length_take, Nat.min_l, <- Ea in Hr by lia. by rewrite Hcat, Hr. }
  unfold read. destruct (Z.ltb_spec (total_bytes s) offset); [rewrite Ht in *; unfold zlen in *; lia|]. fold actual. fold k.
  set (budget := clamp 4 MAX_OUTPUT_CHUNK_BYTES max_bytes). assert (Hbud : 4 <= budget) by (unfold budget, clamp; lia).
  rewrite read_loop_spec; [|done|rewrite Hcat, length_drop; lia|cbn; lia]. rewrite Hbd, Hcut. cbn [length app]. rewrite Nat.sub_0_r.
  destruct (is_char_boundary text (Z.to_nat actual)) eqn:Eb; [|done]. cbn [rbind]. eexists. split; [by rewrite Ht|]. split; [done|].
  destruct (boundary_split text _ Hv Eb) as [_ Hvr]. fold rest in Hvr. set (o := Nat.min (length rest) (Z.to_nat budget)).
  destruct (floor_loop_spec rest o) as (Hfb & Hfl & _). destruct (boundary_split rest _ Hvr Hfb) as [Hvd _]. split; [done|].
  assert (Hlen : length (take (floor_loop rest o) rest) = floor_loop rest o) by (rewrite length_take; lia). unfold zlen. rewrite Hlen. split; [|lia].
  intros Hlt. assert (Hrl : length rest = (length text - Z.to_nat actual)%nat) by (unfold rest; by rewrite length_drop).
  destruct (decide (length rest <= Z.to_nat budget)%nat).
  - unfold o. rewrite Nat.min_l, floor_loop_id by (done || apply boundary_len). lia.
  - assert (0 < floor_loop rest o)%nat; [|lia]. apply floor_pos; [done| |lia]. intros E. rewrite E in Hrl. cbn in Hrl. lia.
Qed.

(** *** Witnesses *)

(** Two cats, three bytes each, with room for four bytes. *)
Definition cat : bytes := [231; 140; 171].
Definition ex_ops : list op := [Append (cat ++ bs "a"); Append cat; Loss].

Lemma stream_retains_witness :
  let s := fold_left step ex_ops (new_stream 4) in concat (chunks s) = drop (Z.to_nat (base_offset s)) (appended ex_ops) /\ base_offset s = 3 /\ retained_bytes s <= 4.
Proof.
  assert (H : Forall op_ok ex_ops) by (repeat constructor).
  destruct (stream_retains 4 ex_ops ltac:(lia) H ltac:(vm_compute; reflexivity)) as (H1 & _ & _ & _ & _ & H6 & _).
  split; [exact H1|]. split; [vm_compute; reflexivity|exact H6].
Defined.

Lemma stream_read_witness :
  let s := fold_left step ex_ops (new_stream 4) in exists c, read s 4 1 = Ok c /\ c_data c = cat /\ c_next_offset c = 7 /\ c_eof c = true.
Proof.
  assert (H : Forall op_ok ex_ops) by (repeat constructor).
  pose proof (stream_read 4 ex_ops 4 1 ltac:(lia) H ltac:(vm_compute; reflexivity) ltac:(vm_compute; split; discriminate)) as Hr.
  cbv zeta in Hr |- *. vm_compute (is_char_boundary _ _) in Hr. destruct Hr as (data & Hread & Hd & _). eexists. split; [exact Hread|].
  cbn [c_data c_next_offset c_eof]. rewrite Hd. vm_compute. done.
Defined.
