(* ===== verification/OutputStore.v ===== *)
(** * The store of long outputs

    [src/crates/nyaterm-core/src/capabilities/output_store.rs]: outputs that are too long to be
    sent inline are kept for a while, within a limit for all of them together, and read in
    pieces; the least recently read ones go first. A random identifier is an argument of
    [protect], times are numbers of nanoseconds. *)

From stdpp Require Import base option list numbers strings gmap.
From Stdlib Require Import ZArith Lia.
From S2P Require Import Prelude RustStr RustText RustChar StreamOutput.

Local Open Scope Z_scope.

Record OutputStoreConfig := mkConfig { entry_limit : Z; total_limit : Z; ttl : Z; max_chunk_bytes : Z }.

Record Entry := mkEntry { e_bytes : bytes; e_total_bytes : Z; e_created : Z }.

Record OutputStore := mkStore { entries : gmap bytes Entry; lru : list bytes; s_bytes : Z; config : OutputStoreConfig }.

Record ProtectedOutput := mkProtected { preview : bytes; truncated : bool; output_id : option bytes; p_total_bytes : Z; p_source_truncated : bool }.

Record OutputChunk := mkOutputChunk { o_data : bytes; o_offset : Z; o_next_offset : Z; o_total_bytes : Z; o_eof : bool }.

Definition new_store (c : OutputStoreConfig) : OutputStore :=
  mkStore ∅ [] 0 (mkConfig (Z.max (entry_limit c) 1) (Z.max (total_limit c) 1) (ttl c) (Z.max (max_chunk_bytes c) 1)).

Definition boundary_at_or_before (text : bytes) (index : Z) : nat := floor_loop text (Nat.min (Z.to_nat index) (length text)).

Definition boundary_at_or_before_bytes (b : bytes) (index : Z) : nat := if utf8_valid b then boundary_at_or_before b index else 0.

Definition remove (s : OutputStore) (id : bytes) : OutputStore :=
  let lru' := filter (fun x => x <> id) (lru s) in
  match entries s !! id with
  | Some e => mkStore (delete id (entries s)) lru' (sat_sub (s_bytes s) (zlen (e_bytes e))) (config s)
  | None => mkStore (entries s) lru' (s_bytes s) (config s)
  end.

Definition expired (now ttl : Z) (e : Entry) : bool := ttl <=? sat_sub now (e_created e).

Definition cleanup (s : OutputStore) (now : Z) : OutputStore :=
  let ids := fst <$> filter (fun p => expired now (ttl (config s)) p.2 = true) (map_to_list (entries s)) in
  let s := fold_left remove ids s in
  mkStore (entries s) (filter (fun id => is_Some (entries s !! id)) (lru s)) (s_bytes s) (config s).

(** Making room for [len] bytes; the fuel is the length of [lru]. *)
Fixpoint evict_loop (fuel : nat) (s : OutputStore) (len : Z) : OutputStore :=
  match fuel with
  | O => s
  | S fuel' =>
    if sat_add 64 (s_bytes s) len <=? total_limit (config s) then s
    else match lru s with
         | [] => s
         | oldest :: lru' => evict_loop fuel' (remove (mkStore (entries s) lru' (s_bytes s) (config s)) oldest) len
         end
  end.

Definition insert_entry (s : OutputStore) (id b : bytes) (total now : Z) : OutputStore :=
  let s := evict_loop (S (length (lru s))) s (zlen b) in
  let keep := boundary_at_or_before_bytes b (Z.min (zlen b) (total_limit (config s))) in
  let b := take keep b in
  mkStore (<[id := mkEntry b total now]> (entries s)) (lru s ++ [id]) (s_bytes s + zlen b) (config s).

Definition protect (s : OutputStore) (id text : bytes) (inline_limit now : Z) : ProtectedOutput * OutputStore :=
  let s := cleanup s now in
  let total := zlen text in
  if total <=? inline_limit then (mkProtected text false None total false, s)
  else
    let preview_end := boundary_at_or_before text inline_limit in
    let keep_end := boundary_at_or_before text (Z.min (entry_limit (config s)) total) in
    (mkProtected (take preview_end text) true (Some id) total (Z.of_nat keep_end <? total),
     insert_entry s id (take keep_end text) total now).

Definition read_output (s : OutputStore) (id : bytes) (offset max_bytes now : Z) : result OutputChunk OutputStoreError * OutputStore :=
  let s := cleanup s now in
  match entries s !! id with
  | None => (Err Unavailable, s)
  | Some e =>
    let text := e_bytes e in
    if zlen text <? offset then (Err InvalidOffset, s)
    else if negb (utf8_valid text) then (Err InvalidOffset, s)
    else if negb (is_char_boundary text (Z.to_nat offset)) then (Err InvalidOffset, s)
    else
      let requested := clamp 1 (max_chunk_bytes (config s)) max_bytes in
      let end_ := boundary_at_or_before text (Z.min (sat_add 64 offset requested) (zlen text)) in
      (Ok (mkOutputChunk (drop (Z.to_nat offset) (take end_ text)) offset (Z.of_nat end_) (e_total_bytes e) (Z.of_nat end_ =? zlen text)),
       mkStore (entries s) (filter (fun x => x <> id) (lru s) ++ [id]) (s_bytes s) (config s))
  end.

(** ** The invariant *)

(** The bytes of all entries. *)
Definition held (m : gmap bytes Entry) : Z := map_fold (fun _ e acc => zlen (e_bytes e) + acc) 0 m.

(** The counter is exact and within the limit, [lru] lists each entry once, and entries are text
    within their limit. *)
Definition store_ok (s : OutputStore) : Prop :=
  s_bytes s = held (entries s) /\ s_bytes s <= total_limit (config s) /\ NoDup (lru s) /\ (forall id, id ∈ lru s <-> is_Some (entries s !! id))
  /\ 1 <= total_limit (config s) < 2 ^ 64 - 1 /\ 1 <= entry_limit (config s) < 2 ^ 64 /\ 1 <= max_chunk_bytes (config s)
  /\ map_Forall (fun _ e => utf8_valid (e_bytes e) = true /\ zlen (e_bytes e) <= entry_limit (config s)) (entries s).

Lemma held_delete m id e : m !! id = Some e -> held m = zlen (e_bytes e) + held (delete id m).
Proof. intros H. unfold held. rewrite (map_fold_delete_L _ _ id e m); [done| |done]. intros. lia. Qed.

Lemma held_insert m id e : m !! id = None -> held (<[id := e]> m) = zlen (e_bytes e) + held m.
Proof. intros H. unfold held. rewrite map_fold_insert_L; [done| |done]. intros. lia. Qed.

Lemma held_nonneg m : 0 <= held m.
Proof. unfold held. apply (map_fold_weak_ind (fun r _ => 0 <= r)); [lia|]. intros. unfold zlen. lia. Qed.

(** The parts of the invariant that do not speak of [lru]'s front. *)
Lemma remove_ok s id :
  s_bytes s = held (entries s) -> NoDup (lru s) -> (forall x, x <> id -> x ∈ lru s <-> is_Some (entries s !! x)) ->
  let s' := remove s id in
  s_bytes s' = held (entries s') /\ NoDup (lru s') /\ (forall x, x ∈ lru s' <-> is_Some (entries s' !! x)) /\ config s' = config s
  /\ entries s' = delete id (entries s) /\ s_bytes s' <= s_bytes s.
Proof.
  intros Hb Hnd Hl s'. unfold s', remove. destruct (entries s !! id) as [e|] eqn:E; cbn.
  - rewrite (held_delete _ _ _ E) in Hb. pose proof (held_nonneg (delete id (entries s))). unfold sat_sub, zlen in *.
    split_and!; try done; [lia|by apply NoDup_filter| |lia]. intros x. rewrite list_elem_of_filter. destruct (decide (x = id)) as [->|Hne].
    + rewrite lookup_delete_eq. split; [by intros [? _]|by intros [? ?]].
    + rewrite lookup_delete_ne by done. rewrite <- Hl by done. tauto.
  - split_and!; try done; [by apply NoDup_filter| |symmetry; by apply delete_id]. intros x. rewrite list_elem_of_filter.
    destruct (decide (x = id)) as [->|Hne]; [rewrite E; split; [by intros [? _]|by intros [? ?]]|]. rewrite <- Hl by done. tauto.
Qed.

Lemma remove_store_ok s id : store_ok s -> store_ok (remove s id) /\ entries (remove s id) = delete id (entries s) /\ config (remove s id) = config s.
Proof.
  intros (Hb & Hlim & Hnd & Hl & Ht & He & Hm & Hall). destruct (remove_ok s id Hb Hnd (fun x _ => Hl x)) as (H1 & H2 & H3 & H4 & H5 & H6).
  unfold store_ok. rewrite H4, H5 in *. pose proof (map_Forall_delete _ _ id Hall). split_and!; done || lia.
Qed.

Lemma removes_ok ids s : store_ok s ->
  store_ok (fold_left remove ids s) /\ config (fold_left remove ids s) = config s
  /\ forall id, entries (fold_left remove ids s) !! id = if bool_decide (id ∈ ids) then None else entries s !! id.
Proof.
  revert s. induction ids as [|i ids IH]; intros s Hs; cbn [fold_left]; [by split_and!|].
  - destruct (remove_store_ok s i Hs) as (Hs' & He & Hc). destruct (IH _ Hs') as (IH1 & IH2 & IH3). split_and!; [done|congruence|].
    intros id. rewrite IH3, He. destruct (decide (id = i)) as [->|Hne].
    + rewrite lookup_delete_eq. rewrite (bool_decide_true (i ∈ i :: ids)) by (by left). by case_bool_decide.
    + rewrite lookup_delete_ne by done. case_bool_decide as H1; case_bool_decide as H2; try done; rewrite elem_of_cons in H2; tauto.
Qed.

(** Cleaning up removes exactly what is expired. *)
Lemma cleanup_ok s now : store_ok s ->
  store_ok (cleanup s now) /\ config (cleanup s now) = config s
  /\ forall id, entries (cleanup s now) !! id = (e ← entries s !! id; if expired now (ttl (config s)) e then None else Some e).
Proof.
  intros Hs. unfold cleanup. set (ids := fst <$> _). destruct (removes_ok ids s Hs) as (Hs' & Hc & He). set (s' := fold_left remove ids s) in *. cbn.
  split; [|split; [done|]].
  - destruct Hs' as (Hb & Hlim & Hnd & Hl & Ht & Hel & Hm & Hall). unfold store_ok. cbn. split_and!; try done; try lia; [by apply NoDup_filter|].
    intros id. rewrite list_elem_of_filter, Hl. tauto.
  - intros id. rewrite He. assert (Hin : id ∈ ids <-> exists e, entries s !! id = Some e /\ expired now (ttl (config s)) e = true).
    { unfold ids. rewrite list_elem_of_fmap. split.
      - intros ([i e] & -> & [Hx Hin]%list_elem_of_filter). apply elem_of_map_to_list in Hin. by exists e.
      - intros (e & Hlk & Hx). exists (id, e). split; [done|]. apply list_elem_of_filter. split; [done|]. by apply elem_of_map_to_list. }
    case_bool_decide as Hx.
    + apply Hin in Hx as (e & -> & Hx). cbn. by rewrite Hx.
    + destruct (entries s !! id) as [e|] eqn:E; [|done]. cbn. destruct (expired _ _ e) eqn:Ex; [|done]. destruct Hx. apply Hin. by exists e.
Qed.

(** ** Room for an output *)

Lemma evict_ok fuel s len :
  store_ok s -> (length (lru s) < fuel)%nat -> 0 <= len ->
  let s' := evict_loop fuel s len in
  store_ok s' /\ config s' = config s /\ s_bytes s' + Z.min len (total_limit (config s)) <= total_limit (config s) /\ entries s' ⊆ entries s.
Proof.
  revert s. induction fuel as [|fuel IH]; intros s Hs Hf Hlen; [lia|]. cbn [evict_loop]. cbv zeta.
  pose proof Hs as (Hb & Hlim & Hnd & Hl & Ht & He & Hm & Hall). pose proof (held_nonneg (entries s)).
  destruct (Z.leb_spec (sat_add 64 (s_bytes s) len) (total_limit (config s))) as [Hle|Hgt].
  { split_and!; try done. unfold sat_add in Hle. lia. }
  destruct (lru s) as [|oldest lru'] eqn:El.
  { assert (Hempty : entries s = ∅).
    { apply map_empty. intros i. destruct (entries s !! i) eqn:E; [|done]. exfalso. apply (not_elem_of_nil i). apply Hl. by rewrite E. }
    rewrite Hempty in Hb. unfold held in Hb. rewrite map_fold_empty in Hb. split_and!; try done. lia. }
  set (s0 := mkStore (entries s) lru' (s_bytes s) (config s)). apply NoDup_cons in Hnd as [Hnin Hnd].
  destruct (remove_ok s0 oldest Hb Hnd) as (H1 & H2 & H3 & H4 & H5 & H6).
  { intros x Hne. cbn. rewrite <- Hl, elem_of_cons. tauto. }
  assert (Hs1 : store_ok (remove s0 oldest)).
  { pose proof (map_Forall_delete _ _ oldest Hall). unfold store_ok. rewrite H4. rewrite H5 in *. cbn in *. split_and!; done || lia. }
  destruct (IH (remove s0 oldest) Hs1) as (I1 & I2 & I3 & I4).
  - assert (length (lru (remove s0 oldest)) <= length lru')%nat; [|cbn in Hf; lia].
    unfold remove. cbn. destruct (entries s !! oldest); apply length_filter.
  - done.
  - rewrite H4 in I2, I3. cbn in I2, I3. split_and!; try done. rewrite I4, H5. apply delete_subseteq.
Qed.

Lemma boundary_before_spec text index :
  utf8_valid text = true -> 0 <= index ->
  let e := boundary_at_or_before text index in
  is_char_boundary text e = true /\ utf8_valid (take e text) = true /\ (e <= length text)%nat /\ Z.of_nat e <= index
  /\ length (take e text) = e.
Proof.
  intros Hv Hi e. unfold e, boundary_at_or_before. destruct (floor_loop_spec text (Nat.min (Z.to_nat index) (length text))) as (Hb & Hl & _).
  destruct (boundary_split text _ Hv Hb) as [Hv1 _]. rewrite length_take. split_and!; try done; lia.
Qed.

(** What is stored of an output: as much of its beginning as both limits allow. *)
Definition stored_part (c : OutputStoreConfig) (text : bytes) : bytes :=
  let b := take (boundary_at_or_before text (Z.min (entry_limit c) (zlen text))) text in
  take (boundary_at_or_before_bytes b (Z.min (zlen b) (total_limit c))) b.

Lemma protect_ok s id text inline_limit now :
  store_ok s -> utf8_valid text = true -> zlen text < 2 ^ 64 -> 0 <= inline_limit -> entries s !! id = None ->
  let r := protect s id text inline_limit now in
  store_ok r.2 /\ config r.2 = config s
  /\ (inline_limit < zlen text -> entries r.2 !! id = Some (mkEntry (stored_part (config s) text) (zlen text) now)).
Proof.
  intros Hs Hv Hmax Hin Hfresh r. unfold r, protect. destruct (cleanup_ok s now Hs) as (Hc & Hcfg & Hent). set (s0 := cleanup s now) in *. cbv zeta.
  destruct (Z.leb_spec (zlen text) inline_limit) as [Hle|Hgt]; [cbn; split_and!; try done; lia|]. cbn [snd]. rewrite Hcfg.
  pose proof Hc as (_ & _ & _ & _ & Ht & He & _). rewrite Hcfg in Ht, He. assert (0 <= zlen text) by (unfold zlen; lia).
  destruct (boundary_before_spec text (Z.min (entry_limit (config s)) (zlen text)) Hv ltac:(lia)) as (_ & Hv1 & _ & Hk & Hlen).
  set (b := take (boundary_at_or_before text (Z.min (entry_limit (config s)) (zlen text))) text) in *.
  assert (Hzb : zlen b = Z.of_nat (boundary_at_or_before text (Z.min (entry_limit (config s)) (zlen text)))) by (unfold zlen; by rewrite Hlen).
  destruct (evict_ok (S (length (lru s0))) s0 (zlen b) Hc ltac:(lia)) as (Es & Ecfg & Eroom & Esub); [lia|].
  unfold insert_entry. set (s1 := evict_loop (S (length (lru s0))) s0 (zlen b)) in *. cbv zeta. cbn [entries config]. rewrite Hcfg in Ecfg, Eroom. rewrite Ecfg.
  destruct (boundary_before_spec b (Z.min (zlen b) (total_limit (config s))) Hv1 ltac:(lia)) as (_ & Hv2 & _ & Hk2 & Hlen2).
  unfold boundary_at_or_before_bytes. rewrite Hv1. set (kept := take (boundary_at_or_before b (Z.min (zlen b) (total_limit (config s)))) b) in *.
  assert (Hzk : zlen kept <= Z.min (zlen b) (total_limit (config s))) by (unfold zlen at 1; by rewrite Hlen2).
  assert (Hfr : entries s1 !! id = None).
  { destruct (entries s1 !! id) eqn:E; [|done]. apply (lookup_weaken _ _ _ _ E) in Esub. rewrite Hent, Hfresh in Esub. done. }
  clearbody s1. destruct Es as (Sb & Slim & Snd & Sl & St & Sel & Sm & Sall). rewrite Ecfg in Slim, St, Sel, Sm, Sall. split; [|split].
  - unfold store_ok. cbn. rewrite held_insert by done. cbn. split_and!; try done; try lia.
    + apply NoDup_app. split_and!; [done| |apply NoDup_singleton]. intros x Hx ->%list_elem_of_singleton. apply Sl in Hx. rewrite Hfr in Hx. by destruct Hx.
    + intros x. rewrite elem_of_app, list_elem_of_singleton, Sl. destruct (decide (x = id)) as [->|Hne].
      * rewrite lookup_insert_eq. naive_solver.
      * rewrite lookup_insert_ne by done. naive_solver.
    + apply map_Forall_insert_2; [|done]. cbn. split; [done|lia].
  - done.
  - intros _. rewrite lookup_insert_eq. unfold stored_part, boundary_at_or_before_bytes. fold b. by rewrite Hv1.
Qed.

(** ** Reachable stores *)

(** Identifiers of new outputs are fresh, as random ones are. *)
Inductive reachable : OutputStore -> Prop :=
| reach_new c : entry_limit c < 2 ^ 64 -> total_limit c < 2 ^ 64 - 1 -> reachable (new_store c)
| reach_protect s id text inline_limit now :
    reachable s -> utf8_valid text = true -> zlen text < 2 ^ 64 -> 0 <= inline_limit -> entries s !! id = None ->
    reachable (protect s id text inline_limit now).2
| reach_read s id offset max_bytes now : reachable s -> reachable (read_output s id offset max_bytes now).2
| reach_cleanup s now : reachable s -> reachable (cleanup s now).

Lemma read_store_ok s id offset max_bytes now : store_ok s -> store_ok (read_output s id offset max_bytes now).2.
Proof.
  intros Hs. destruct (cleanup_ok s now Hs) as (Hc & _ & _). unfold read_output. cbv zeta. set (s0 := cleanup s now) in *. clearbody s0.
  destruct (entries s0 !! id) as [e|] eqn:E; [|done]. destruct (_ <? _); [done|]. destruct (negb (utf8_valid _)); [done|]. destruct (negb _); [done|]. cbn [snd].
  destruct Hc as (Hb & Hlim & Hnd & Hl & Ht & He & Hm & Hall). unfold store_ok. cbn. split_and!; try done; try lia.
  - apply NoDup_app. split_and!; [by apply NoDup_filter| |apply NoDup_singleton]. intros x [Hx _]%list_elem_of_filter ?%list_elem_of_singleton. done.
  - intros x. rewrite elem_of_app, list_elem_of_filter, list_elem_of_singleton, Hl. destruct (decide (x = id)) as [->|]; [rewrite E|]; naive_solver.
Qed.

Lemma reachable_ok s : reachable s -> store_ok s.
Proof.
  induction 1 as [c He Ht|s id text il now _ IH Hv Hm Hi Hf|s id o m now _ IH|s now _ IH].
  - unfold store_ok, held. cbn. rewrite map_fold_empty. split_and!; try done; try lia; [constructor|].
    intros id. rewrite lookup_empty. split; [by intros ?%not_elem_of_nil|by intros [? ?]].
  - by apply protect_ok.
  - by apply read_store_ok.
  - by apply cleanup_ok.
Qed.

(** In every reachable store the byte counter is exactly what the entries hold and never exceeds
    the limit, the recency list names each entry once, and every entry is valid text. *)
Theorem store_capacity s :
  reachable s ->
  s_bytes s = held (entries s) /\ 0 <= s_bytes s <= total_limit (config s) /\ NoDup (lru s)
  /\ (forall id, id ∈ lru s <-> is_Some (entries s !! id))
  /\ map_Forall (fun _ e => utf8_valid (e_bytes e) = true /\ zlen (e_bytes e) <= entry_limit (config s)) (entries s).
Proof.
  intros (Hb & Hlim & Hnd & Hl & _ & _ & _ & Hall)%reachable_ok. pose proof (held_nonneg (entries s)). split_and!; done || lia.
Qed.

(** A long output that has just been stored is read back piece by piece: from any character
    boundary of what was kept of it, the read gives the bytes from there to the last boundary
    within the requested size, and something as soon as four bytes may be returned; other
    offsets are refused. *)
Theorem protect_then_read s id text inline_limit now offset max_bytes :
  reachable s -> utf8_valid text = true -> zlen text < 2 ^ 64 -> 0 <= inline_limit < zlen text -> entries s !! id = None -> 0 < ttl (config s) ->
  0 <= offset -> max_chunk_bytes (config s) < 2 ^ 63 -> offset < 2 ^ 63 ->
  let kept := stored_part (config s) text in
  let requested := clamp 1 (max_chunk_bytes (config s)) max_bytes in
  match (read_output (protect s id text inline_limit now).2 id offset max_bytes now).1 with
  | Ok c => is_char_boundary kept (Z.to_nat offset) = true
      /\ o_data c = take (Z.to_nat (o_next_offset c - offset)) (drop (Z.to_nat offset) kept) /\ utf8_valid (o_data c) = true
      /\ offset <= o_next_offset c <= Z.min (offset + requested) (zlen kept) /\ is_char_boundary kept (Z.to_nat (o_next_offset c)) = true
      /\ (4 <= requested -> offset < zlen kept -> offset < o_next_offset c) /\ o_eof c = bool_decide (o_next_offset c = zlen kept)
  | Err e => e = InvalidOffset /\ (zlen kept < offset \/ is_char_boundary kept (Z.to_nat offset) = false)
  end.
Proof.
  intros Hs%reachable_ok Hv Hmax Hin Hfresh Httl Hoff Hchunk Hoff2 kept requested.
  destruct (protect_ok s id text inline_limit now Hs Hv Hmax ltac:(lia) Hfresh) as (Hp & Hcfg & Hent). specialize (Hent ltac:(lia)). fold kept in Hent.
  set (s1 := (protect s id text inline_limit now).2) in *. clearbody s1. destruct (cleanup_ok s1 now Hp) as (Hc & Hcfg1 & Hce).
  unfold read_output. cbv zeta. set (s2 := cleanup s1 now) in *. rewrite Hce, Hent. cbn [mbind option_bind].
  assert (Hlive : expired now (ttl (config s1)) (mkEntry kept (zlen text) now) = false).
  { unfold expired, sat_sub. cbn. rewrite Hcfg. apply Z.leb_gt. lia. }
  rewrite Hlive. cbn [e_bytes e_total_bytes]. destruct Hc as (_ & _ & _ & _ & _ & _ & Hm1 & Hall).
  assert (Hvk : utf8_valid kept = true). { destruct Hp as (_ & _ & _ & _ & _ & _ & _ & Ha). by destruct (Ha _ _ Hent). }
  destruct (Z.ltb_spec (zlen kept) offset) as [Hbig|Hle]; [cbn; by split; [|left]|]. rewrite Hvk. cbn [negb].
  destruct (is_char_boundary kept (Z.to_nat offset)) eqn:Eb; cbn [negb fst]; [|by split; [|right]]. rewrite Hcfg1, Hcfg. fold requested.
  rewrite Hcfg1, Hcfg in Hm1. assert (Hreq : 1 <= requested <= max_chunk_bytes (config s)) by (unfold requested, clamp; lia).
  assert (Hsat : sat_add 64 offset requested = offset + requested) by (unfold sat_add; lia). rewrite Hsat.
  set (idx := Z.min (offset + requested) (zlen kept)). set (e := boundary_at_or_before kept idx).
  unfold zlen in *. assert (Hidx : Nat.min (Z.to_nat idx) (length kept) = Z.to_nat idx) by lia.
  assert (He : e = floor_loop kept (Z.to_nat idx)) by (unfold e, boundary_at_or_before; by rewrite Hidx).
  destruct (floor_loop_spec kept (Z.to_nat idx)) as (F1 & F2 & F3). rewrite <- He in F1, F2, F3.
  assert (Hoe : (Z.to_nat offset <= e)%nat) by (apply F3; [done|lia]). cbn [o_data o_next_offset o_eof]. rewrite Nat2Z.id.
  assert (Hdata : drop (Z.to_nat offset) (take e kept) = take (Z.to_nat (Z.of_nat e - offset)) (drop (Z.to_nat offset) kept)).
  { rewrite take_drop_commute. do 2 f_equal. lia. }
  split_and!; try done; try lia.
  - destruct (boundary_split kept e Hvk F1) as [Hv1 _]. apply (boundary_split (take e kept)); [done|]. rewrite <- (take_drop e kept) in Eb.
    rewrite boundary_app_l in Eb; [done|by apply (boundary_split kept e Hvk F1)|rewrite length_take; lia].
  - intros Hr Hlt. destruct (boundary_split kept (Z.to_nat offset) Hvk Eb) as [_ Hvd]. set (o := Z.to_nat offset) in *.
    pose proof (floor_app_r (take o kept) (drop o kept) (Z.to_nat idx - o) Hvd) as Hfl. rewrite take_drop, length_take, Nat.min_l in Hfl by lia.
    replace (o + (Z.to_nat idx - o))%nat with (Z.to_nat idx) in Hfl by lia. rewrite <- He in Hfl.
    assert (0 < floor_loop (drop o kept) (Z.to_nat idx - o))%nat; [|lia].
    destruct (decide (offset + requested <= Z.of_nat (length kept))).
    + apply floor_pos; [done| |lia]. intros E%(f_equal length). rewrite length_drop in E. cbn in E. lia.
    + replace (Z.to_nat idx - o)%nat with (length (drop o kept)) by (rewrite length_drop; lia). rewrite floor_loop_id by apply boundary_len. rewrite length_drop. lia.
  - case_bool_decide; destruct (Z.eqb_spec (Z.of_nat e) (Z.of_nat (length kept))); done || lia.
Qed.

(** *** Witnesses and edges *)

Definition ex_cfg : OutputStoreConfig := mkConfig 128 16 1000 64.

Lemma ex_reachable : reachable (protect (new_store ex_cfg) (bs "out_1") (bs "0123456789") 4 5).2.
Proof. apply reach_protect; [by apply reach_new|done..]. Defined.

Lemma store_capacity_witness :
  let s := (protect (new_store ex_cfg) (bs "out_1") (bs "0123456789") 4 5).2 in s_bytes s = held (entries s) /\ s_bytes s = 10 /\ s_bytes s <= 16.
Proof.
  destruct (store_capacity _ ex_reachable) as (H1 & H2 & _). split; [exact H1|]. split; [vm_compute; reflexivity|]. exact (proj2 H2).
Defined.

Lemma protect_then_read_witness :
  match (read_output (protect (new_store ex_cfg) (bs "out_1") (bs "0123456789") 4 5).2 (bs "out_1") 3 4 5).1 with
  | Ok c => o_data c = bs "3456" /\ 3 < o_next_offset c
  | Err _ => False
  end.
Proof.
  pose proof (protect_then_read (new_store ex_cfg) (bs "out_1") (bs "0123456789") 4 5 3 4 (reach_new ex_cfg eq_refl eq_refl) eq_refl eq_refl ltac:(done)
    eq_refl eq_refl ltac:(done) eq_refl eq_refl) as H.
  cbv zeta in H. vm_compute (clamp _ _ _) in H. vm_compute (stored_part _ _) in H. vm_compute (fst _) in H |- *. cbn [o_data o_next_offset] in H |- *.
  destruct H as (_ & H2 & _ & _ & _ & H6 & _). split; [reflexivity|]. apply H6; vm_compute; done.
Defined.

(** A reader that asks for less than the next character gets nothing and stays where it is. *)
Example short_read_stays :
  match (read_output (protect (new_store ex_cfg) (bs "out_1") (cat ++ cat) 1 5).2 (bs "out_1") 0 2 5).1 with
  | Ok c => o_data c = [] /\ o_next_offset c = 0 /\ o_eof c = false
  | Err _ => False
  end.
Proof. vm_compute. done. Qed.

(** An output cut by the limit of the whole store is not reported as cut. *)
Example total_limit_cut_unreported :
  let r := protect (new_store ex_cfg) (bs "out_1") (bs "0123456789abcdefghij") 4 5 in
  p_source_truncated r.1 = false /\ (e_bytes <$> entries r.2 !! bs "out_1") = Some (bs "0123456789abcdef").
Proof. vm_compute. done. Qed.
