(* ===== verification/RecordingSanitizer.v ===== *)
(** * Plain-text transcripts

    [src/crates/nyaterm-terminal/src/recording_sanitizer.rs]: terminal output is turned into
    editing events by a streaming parser of control sequences, and the events edit one row of
    text. A character is its code point, a string the list of its characters, and a byte index
    of the row the number of characters before it. The width of a character in cells is the
    [unicode_width] crate's, an interface. Subtractions that would underflow and ranges that
    are out of order are panics. *)

From stdpp Require Import base option list numbers strings.
From Stdlib Require Import ZArith Lia.
From S2P Require Import Prelude RustStr.

Local Open Scope Z_scope.
Local Open Scope rust_scope.

Definition MAX_CSI_PARAMS : nat := 32.
Definition MAX_CURSOR_COLUMN : nat := Z.to_nat (64 * 1024).

(** ** The parser *)

Inductive State := Ground | Escape | EscapeIntermediate | Csi | StringState (osc escape : bool).

Inductive RecordingEvent :=
| Character (ch : Z) | Backspace | CarriageReturn | Newline | Tab
| CursorLeft (count : nat) | CursorRight (count : nat) | CursorColumn (column : nat)
| EraseLine (mode : nat) | DeleteCharacters (count : nat) | InsertCharacters (count : nat).

(** [csi_params] holds the [csi_len] bytes in use. *)
Record RecordingSanitizer := mkSanitizer { state : State; csi_params : list Z; csi_invalid : bool }.

Definition new_sanitizer : RecordingSanitizer := mkSanitizer Ground [] false.
Definition reset_sanitizer (s : RecordingSanitizer) : RecordingSanitizer := mkSanitizer Ground [] false.

Definition is_control (ch : Z) : bool := between 0 31 ch || between 127 159 ch.

Definition begin_csi (s : RecordingSanitizer) : RecordingSanitizer := mkSanitizer Csi [] false.
Definition to_state (s : RecordingSanitizer) (st : State) : RecordingSanitizer := mkSanitizer st (csi_params s) (csi_invalid s).

(** The saturating number, and [None] at a byte that is no digit. *)
Fixpoint csi_count (params : list Z) (count : Z) : option Z :=
  match params with
  | [] => Some count
  | b :: params' => if between 48 57 b then csi_count params' (sat_add 64 (sat_mul 64 count 10) (b - 48)) else None
  end.

Definition csi_event (s : RecordingSanitizer) (final : Z) : option RecordingEvent :=
  if csi_invalid s || negb ((final =? 68) || (final =? 67) || (final =? 71) || (final =? 96) || (final =? 75) || (final =? 80) || (final =? 64))
  then None
  else
    n ← csi_count (csi_params s) 0;
    let count := Z.to_nat (Z.min n (64 * 1024)) in
    let movement := Nat.max count 1 in
    Some (if final =? 68 then CursorLeft movement
          else if final =? 67 then CursorRight movement
          else if (final =? 71) || (final =? 96) then CursorColumn (movement - 1)
          else if final =? 75 then EraseLine count
          else if final =? 80 then DeleteCharacters movement
          else InsertCharacters movement).

(** One character: the event it completes, if any, and the state. *)
Definition feed_char (s : RecordingSanitizer) (ch : Z) : list RecordingEvent * RecordingSanitizer :=
  match state s with
  | Ground =>
    if ch =? 27 then ([], to_state s Escape)
    else if ch =? 155 then ([], begin_csi s)
    else if ch =? 157 then ([], to_state s (StringState true false))
    else if (ch =? 144) || (ch =? 152) || (ch =? 158) || (ch =? 159) then ([], to_state s (StringState false false))
    else if ch =? 13 then ([CarriageReturn], s)
    else if ch =? 8 then ([Backspace], s)
    else if ch =? 10 then ([Newline], s)
    else if ch =? 9 then ([Tab], s)
    else if negb (is_control ch) then ([Character ch], s)
    else ([], s)
  | Escape =>
    if ch =? 91 then ([], begin_csi s)
    else if ch =? 93 then ([], to_state s (StringState true false))
    else if (ch =? 80) || (ch =? 88) || (ch =? 94) || (ch =? 95) then ([], to_state s (StringState false false))
    else if ch =? 27 then ([], to_state s Escape)
    else if between 32 47 ch then ([], to_state s EscapeIntermediate)
    else ([], to_state s Ground)
  | EscapeIntermediate =>
    if between 48 126 ch then ([], to_state s Ground)
    else if ch =? 27 then ([], to_state s Escape)
    else ([], s)
  | Csi =>
    if between 48 63 ch then
      if (length (csi_params s) <? MAX_CSI_PARAMS)%nat then ([], mkSanitizer Csi (csi_params s ++ [ch]) (csi_invalid s))
      else ([], mkSanitizer Csi (csi_params s) true)
    else if between 64 126 ch then (match csi_event s ch with Some e => [e] | None => [] end, to_state s Ground)
    else if ch =? 27 then ([], to_state s Escape)
    else if (ch =? 24) || (ch =? 26) then ([], to_state s Ground)
    else ([], mkSanitizer Csi (csi_params s) true)
  | StringState osc escape =>
    ([], to_state s (if (ch =? 156) || (osc && (ch =? 7)) || (escape && (ch =? 92)) then Ground else StringState osc (ch =? 27)))
  end.

Fixpoint feed_events (s : RecordingSanitizer) (text : list Z) : list RecordingEvent * RecordingSanitizer :=
  match text with
  | [] => ([], s)
  | ch :: text' => let r := feed_char s ch in let q := feed_events r.2 text' in (r.1 ++ q.1, q.2)
  end.

(** The characters [feed] keeps of an event. *)
Definition event_text (e : RecordingEvent) : list Z :=
  match e with Character ch => [ch] | Newline => [10] | Tab => [9] | _ => [] end.

Definition sanitize (s : RecordingSanitizer) (text : list Z) : list Z * RecordingSanitizer :=
  let r := feed_events s text in (concat (event_text <$> r.1), r.2).

(** ** The row *)

Class CharWidth := char_width : Z -> nat.
Class CharWidthLaws `{CharWidth} : Prop := { space_width : char_width 32 = 1%nat; width_max : forall ch, (char_width ch <= 2)%nat }.

Section Row.
Context `{CharWidth}.

Record RecordingLineEditor := mkEditor { line : list Z; cursor : nat; width : nat }.

Definition new_editor : RecordingLineEditor := mkEditor [] 0 0.

(** [a - b], which panics below zero. *)
Definition checked_sub (a b : nat) : outcome nat := if (b <=? a)%nat then Ret (a - b)%nat else Panic.

(** [line.replace_range(start..end, text)]. *)
Definition replace_chars (l : list Z) (start end_ : nat) (text : list Z) : outcome (list Z) :=
  if (start <=? end_)%nat && (end_ <=? length l)%nat then Ret (take start l ++ text ++ drop end_ l) else Panic.

Fixpoint index_loop (l : list Z) (index column target : nat) : option (nat * nat) :=
  match l with
  | [] => None
  | ch :: l' => if (target <? column + char_width ch)%nat then Some (index, column) else index_loop l' (S index) (column + char_width ch) target
  end.

Definition index_at (e : RecordingLineEditor) (target : nat) : nat * nat :=
  if (width e <=? target)%nat then (length (line e), width e)
  else default (length (line e), width e) (index_loop (line e) 0 0 target).

Definition blanks (n : nat) : list Z := replicate n 32.

Definition normalize_cell_at (e : RecordingLineEditor) (target : nat) : outcome RecordingLineEditor :=
  let '(index, column) := index_at e target in
  match line e !! index with
  | Some ch =>
    if (column <? target)%nat
    then l <-! replace_chars (line e) index (S index) (blanks (char_width ch)); Ret (mkEditor l (cursor e) (width e))
    else Ret e
  | None => Ret e
  end.

Definition write_character (e : RecordingLineEditor) (ch : Z) : outcome RecordingLineEditor :=
  let w := char_width ch in
  let next := Nat.min (cursor e + w) MAX_CURSOR_COLUMN in
  if (width e <=? cursor e)%nat then
    Ret (mkEditor (line e ++ blanks (cursor e - width e) ++ [ch]) next (cursor e + w))
  else
    let '(start, start_column) := index_at e (cursor e) in
    let target := (cursor e + w)%nat in
    let '(end_, end_column) := index_at e target in
    let '(end_, end_column) :=
      match line e !! end_ with
      | Some existing => if (end_column <? target)%nat then (S end_, end_column + char_width existing)%nat else (end_, end_column)
      | None => (end_, end_column)
      end in
    gap <-! checked_sub (cursor e) start_column;
    l <-! replace_chars (line e) start end_ (blanks gap ++ [ch] ++ blanks (end_column - target));
    Ret (mkEditor l next (Nat.max (width e) target)).

(** [trim_end_matches(' ')]. *)
Fixpoint skip_blanks (l : list Z) : list Z := match l with ch :: l' => if ch =? 32 then skip_blanks l' else l | [] => [] end.
Definition take_pending (e : RecordingLineEditor) : list Z * RecordingLineEditor := (rev (skip_blanks (rev (line e))), new_editor).

Definition with_cursor (e : RecordingLineEditor) (c : nat) : RecordingLineEditor := mkEditor (line e) c (width e).

Definition erase_right (e : RecordingLineEditor) : outcome RecordingLineEditor :=
  let '(start, column) := index_at e (cursor e) in
  gap <-! checked_sub (Nat.min (cursor e) (width e)) column;
  Ret (mkEditor (take start (line e) ++ blanks gap) (cursor e) (Nat.min (cursor e) (width e))).

Definition erase_left (e : RecordingLineEditor) : outcome RecordingLineEditor :=
  let end_column := Nat.min (cursor e + 1) (width e) in
  let '(end_, column) := index_at e end_column in
  let '(end_, erased) :=
    match line e !! end_ with
    | Some ch => if (column <? end_column)%nat then (S end_, column + char_width ch)%nat else (end_, end_column)
    | None => (end_, end_column)
    end in
  l <-! replace_chars (line e) 0 end_ (blanks erased);
  Ret (mkEditor l (cursor e) (width e)).

Definition delete_characters (e : RecordingLineEditor) (count : nat) : outcome RecordingLineEditor :=
  e <-! normalize_cell_at e (cursor e);
  e <-! normalize_cell_at e (cursor e + count);
  let '(start, column) := index_at e (cursor e) in
  let '(end_, end_column) := index_at e (cursor e + count) in
  l <-! replace_chars (line e) start end_ [];
  removed <-! checked_sub end_column column;
  w <-! checked_sub (width e) removed;
  Ret (mkEditor l (cursor e) w).

Definition insert_characters (e : RecordingLineEditor) (count : nat) : outcome RecordingLineEditor :=
  e <-! normalize_cell_at e (cursor e);
  let count := Nat.min count (MAX_CURSOR_COLUMN - width e) in
  let start := (index_at e (cursor e)).1 in
  Ret (mkEditor (take start (line e) ++ blanks count ++ drop start (line e)) (cursor e) (width e + count)).

(** One event: the row it completes, if any, and the editor. *)
Definition feed_editor (e : RecordingLineEditor) (event : RecordingEvent) : outcome (option (list Z) * RecordingLineEditor) :=
  let ret e := Ret (None, e) in
  match event with
  | Tab => ret (with_cursor e (Nat.min ((cursor e / 8 + 1) * 8) MAX_CURSOR_COLUMN))
  | Backspace => ret (with_cursor e (cursor e - 1))
  | CarriageReturn => ret (with_cursor e 0)
  | Newline => let r := take_pending e in Ret (Some r.1, r.2)
  | CursorLeft count => ret (with_cursor e (cursor e - count))
  | CursorRight count => ret (with_cursor e (Nat.min (cursor e + count) MAX_CURSOR_COLUMN))
  | CursorColumn column => ret (with_cursor e (Nat.min column MAX_CURSOR_COLUMN))
  | Character ch => e' <-! write_character e ch; ret e'
  | EraseLine 0 => e' <-! erase_right e; ret e'
  | EraseLine 1 => e' <-! erase_left e; ret e'
  | EraseLine 2 => ret (mkEditor [] (cursor e) 0)
  | EraseLine _ => ret e
  | DeleteCharacters count => e' <-! delete_characters e count; ret e'
  | InsertCharacters count => e' <-! insert_characters e count; ret e'
  end%nat.

(** A whole recording: the rows completed and the editor. *)
Fixpoint record (e : RecordingLineEditor) (events : list RecordingEvent) : outcome (list (list Z) * RecordingLineEditor) :=
  match events with
  | [] => Ret ([], e)
  | event :: events' =>
    r <-! feed_editor e event;
    q <-! record r.2 events';
    Ret (match r.1 with Some row => row :: q.1 | None => q.1 end, q.2)
  end.

(** ** The invariant of the row *)

Context `{!CharWidthLaws}.

Definition cells (l : list Z) : nat := sum_list_with char_width l.

Definition editor_ok (e : RecordingLineEditor) : Prop :=
  width e = cells (line e) /\ (cursor e <= MAX_CURSOR_COLUMN)%nat /\ (width e <= MAX_CURSOR_COLUMN + 2)%nat.

Lemma cells_app a b : cells (a ++ b) = (cells a + cells b)%nat.
Proof. unfold cells. apply sum_list_with_app. Qed.

Lemma cells_cons ch l : cells (ch :: l) = (char_width ch + cells l)%nat.
Proof. done. Qed.

Lemma cells_blanks n : cells (blanks n) = n.
Proof. unfold blanks. induction n as [|n IH]; [done|]. cbn. unfold cells in *. cbn. rewrite IH, space_width. done. Qed.

Lemma cells_split l i : (cells (take i l) + cells (drop i l))%nat = cells l.
Proof. by rewrite <- cells_app, take_drop. Qed.

Lemma cells_take_S l i ch : l !! i = Some ch -> cells (take (S i) l) = (cells (take i l) + char_width ch)%nat.
Proof. intros Hl. rewrite (take_S_r _ _ _ Hl), cells_app. cbn. lia. Qed.

Lemma cells_take_le l i j : (i <= j)%nat -> (cells (take i l) <= cells (take j l))%nat.
Proof. intros Hij. rewrite <- (cells_split (take j l) i), take_take, Nat.min_l by done. lia. Qed.

Lemma index_loop_spec l idx col target :
  match index_loop l idx col target with
  | Some (i, c) => exists pre ch post, l = pre ++ ch :: post /\ i = (idx + length pre)%nat /\ c = (col + cells pre)%nat
      /\ ((col <= target)%nat -> (c <= target)%nat) /\ (target < c + char_width ch)%nat
  | None => (col <= target)%nat -> (col + cells l <= target)%nat
  end.
Proof.
  revert idx col. induction l as [|ch l IH]; intros idx col; cbn [index_loop]; [cbn; lia|].
  destruct (Nat.ltb_spec target (col + char_width ch)) as [Hlt|Hge].
  - exists [], ch, l. cbn. split_and!; [done|lia..|done].
  - specialize (IH (S idx) (col + char_width ch)%nat). destruct (index_loop l (S idx) (col + char_width ch) target) as [[i c]|].
    + destruct IH as (pre & ch' & post & -> & -> & -> & IH1 & IH2). exists (ch :: pre), ch', post. cbn. unfold cells in *. cbn. split_and!; [done|lia|lia|lia|lia].
    + unfold cells in *. cbn. lia.
Qed.

(** The cell a column falls into, and where it starts. *)
Lemma index_at_spec e target :
  width e = cells (line e) ->
  let '(i, c) := index_at e target in
  (i <= length (line e))%nat /\ c = cells (take i (line e)) /\ (c <= target)%nat /\ (c <= width e)%nat
  /\ match line e !! i with Some ch => (target < c + char_width ch)%nat | None => i = length (line e) /\ c = width e end.
Proof.
  intros Hw. unfold index_at. destruct (Nat.leb_spec (width e) target) as [Hle|Hgt].
  { rewrite firstn_all, lookup_ge_None_2 by done. split_and!; done || lia. }
  pose proof (index_loop_spec (line e) 0 0 target) as Hl. destruct (index_loop (line e) 0 0 target) as [[i c]|]; cbn [default].
  - destruct Hl as (pre & ch & post & El & -> & -> & H1 & H2). cbv beta iota. rewrite Hw, El, !Nat.add_0_l in *. unfold id. rewrite take_app_length, length_app, lookup_app_r, Nat.sub_diag, cells_app by lia.
    cbn. split_and!; lia || done.
  - specialize (Hl ltac:(lia)). cbn in Hl. lia.
Qed.

Lemma index_at_mono e t1 t2 : width e = cells (line e) -> (t1 <= t2)%nat -> ((index_at e t1).1 <= (index_at e t2).1)%nat.
Proof.
  intros Hw Ht. pose proof (index_at_spec e t1 Hw) as H1. pose proof (index_at_spec e t2 Hw) as H2.
  destruct (index_at e t1) as [i1 c1], (index_at e t2) as [i2 c2]. cbn [fst]. destruct H1 as (Hi1 & -> & Hc1 & _), H2 as (Hi2 & -> & Hc2 & _ & Hm2).
  destruct (decide (i1 <= i2)%nat) as [|Hlt]; [done|]. destruct (line e !! i2) as [ch|] eqn:E; [|lia].
  pose proof (cells_take_S _ _ _ E). pose proof (cells_take_le (line e) (S i2) i1 ltac:(lia)). lia.
Qed.

Lemma replace_chars_ret l start end_ text : (start <= end_ <= length l)%nat -> replace_chars l start end_ text = Ret (take start l ++ text ++ drop end_ l).
Proof. intros Hr. unfold replace_chars. destruct (Nat.leb_spec start end_), (Nat.leb_spec end_ (length l)); try lia. done. Qed.

Lemma checked_sub_ret a b : (b <= a)%nat -> checked_sub a b = Ret (a - b)%nat.
Proof. intros Hr. unfold checked_sub. destruct (Nat.leb_spec b a); [done|lia]. Qed.

(** Clearing a wide character keeps the columns. *)
Lemma normalize_ok e target :
  editor_ok e -> exists e', normalize_cell_at e target = Ret e' /\ editor_ok e' /\ cursor e' = cursor e /\ width e' = width e.
Proof.
  intros (Hw & Hc & Hm). unfold normalize_cell_at. pose proof (index_at_spec e target Hw) as Hi. destruct (index_at e target) as [i c].
  destruct Hi as (Hi & Hcc & _). destruct (line e !! i) as [ch|] eqn:E; [|by exists e]. destruct (c <? target)%nat; [|by exists e].
  pose proof (lookup_lt_Some _ _ _ E). rewrite replace_chars_ret by lia. cbn. eexists. split; [done|]. split; [|done]. split; [|done]. cbn.
  rewrite !cells_app, cells_blanks. pose proof (cells_split (line e) (S i)). rewrite (cells_take_S _ _ _ E) in *. lia.
Qed.

Lemma write_ok e ch : editor_ok e -> exists e', write_character e ch = Ret e' /\ editor_ok e'.
Proof.
  intros (Hw & Hc & Hm). pose proof (width_max ch) as Hmax. unfold write_character. cbv zeta.
  destruct (Nat.leb_spec (width e) (cursor e)) as [Hle|Hgt].
  { eexists. split; [done|]. split; cbn; [|lia]. rewrite !cells_app, cells_blanks. cbn. lia. }
  pose proof (index_at_spec e (cursor e) Hw) as H1. pose proof (index_at_spec e (cursor e + char_width ch) Hw) as H2.
  pose proof (index_at_mono e (cursor e) (cursor e + char_width ch) Hw ltac:(lia)) as Hmono.
  destruct (index_at e (cursor e)) as [i1 c1], (index_at e (cursor e + char_width ch)) as [i2 c2]. cbn [fst] in Hmono.
  destruct H1 as (Hi1 & Hc1 & Ht1 & _), H2 as (Hi2 & Hc2 & Ht2 & Hw2 & Hm2).
  pose proof (cells_split (line e) i1) as S1. pose proof (cells_split (line e) i2) as S2.
  destruct (line e !! i2) as [x|] eqn:E; [destruct (Nat.ltb_spec c2 (cursor e + char_width ch)) as [Hlt|Hge]|]; rewrite checked_sub_ret by lia; cbn [obind].
  - pose proof (lookup_lt_Some _ _ _ E). rewrite replace_chars_ret by lia. cbn. eexists. split; [done|].
    pose proof (cells_split (line e) (S i2)) as S3. rewrite (cells_take_S _ _ _ E) in S3. split; cbn; [|lia].
    repeat rewrite ?cells_app, ?cells_cons, ?cells_blanks. lia.
  - rewrite replace_chars_ret by lia. cbn. eexists. split; [done|]. split; cbn; [|lia].
    repeat rewrite ?cells_app, ?cells_cons, ?cells_blanks. lia.
  - rewrite replace_chars_ret by lia. cbn. eexists. split; [done|]. split; cbn; [|lia].
    repeat rewrite ?cells_app, ?cells_cons, ?cells_blanks. destruct Hm2 as [-> ->]. lia.
Qed.

Lemma erase_right_ok e : editor_ok e -> exists e', erase_right e = Ret e' /\ editor_ok e'.
Proof.
  intros (Hw & Hc & Hm). unfold erase_right. pose proof (index_at_spec e (cursor e) Hw) as Hi. destruct (index_at e (cursor e)) as [i c].
  destruct Hi as (Hi & -> & Ht & Hcw & _). rewrite checked_sub_ret by lia. cbn. eexists. split; [done|]. split; cbn; [|lia].
  rewrite cells_app, cells_blanks. lia.
Qed.

Lemma erase_left_ok e : editor_ok e -> exists e', erase_left e = Ret e' /\ editor_ok e'.
Proof.
  intros (Hw & Hc & Hm). unfold erase_left. cbv zeta. set (t := Nat.min (cursor e + 1) (width e)). pose proof (index_at_spec e t Hw) as Hi.
  destruct (index_at e t) as [i c]. destruct Hi as (Hi & -> & Ht & Hcw & Hm2). pose proof (cells_split (line e) i) as S1.
  destruct (line e !! i) as [x|] eqn:E; [destruct (Nat.ltb_spec (cells (take i (line e))) t) as [Hlt|Hge]|].
  - pose proof (lookup_lt_Some _ _ _ E). rewrite replace_chars_ret by lia. cbn [obind take app]. eexists. split; [done|]. split; cbn [line cursor width]; [|lia].
    pose proof (cells_split (line e) (S i)) as S3. rewrite (cells_take_S _ _ _ E) in S3. rewrite take_0, app_nil_l, cells_app, cells_blanks. lia.
  - rewrite replace_chars_ret by lia. cbn [obind take app]. eexists. split; [done|]. split; cbn [line cursor width]; [|lia]. rewrite take_0, app_nil_l, cells_app, cells_blanks. lia.
  - rewrite replace_chars_ret by lia. cbn [obind take app]. eexists. split; [done|]. split; cbn [line cursor width]; [|lia]. rewrite take_0, app_nil_l, cells_app, cells_blanks. lia.
Qed.

Lemma editor_delete_ok e count : editor_ok e -> exists e', delete_characters e count = Ret e' /\ editor_ok e'.
Proof.
  intros He. unfold delete_characters. destruct (normalize_ok e (cursor e) He) as (e1 & -> & He1 & Hc1 & Hw1). cbn [obind].
  destruct (normalize_ok e1 (cursor e1 + count) He1) as (e2 & -> & (Hw & Hc & Hm) & Hc2 & Hw2). cbn [obind].
  pose proof (index_at_spec e2 (cursor e2) Hw) as H1. pose proof (index_at_spec e2 (cursor e2 + count) Hw) as H2.
  pose proof (index_at_mono e2 (cursor e2) (cursor e2 + count) Hw ltac:(lia)) as Hmono.
  destruct (index_at e2 (cursor e2)) as [i1 c1], (index_at e2 (cursor e2 + count)) as [i2 c2]. cbn [fst] in Hmono.
  destruct H1 as (Hi1 & -> & _ & Hw1' & _), H2 as (Hi2 & -> & _ & Hw2' & _). rewrite replace_chars_ret by lia. cbn [obind].
  pose proof (cells_take_le (line e2) i1 i2 Hmono). rewrite checked_sub_ret by lia. cbn [obind]. rewrite checked_sub_ret by lia. cbn.
  eexists. split; [done|]. split; cbn; [|lia]. rewrite cells_app. pose proof (cells_split (line e2) i2). lia.
Qed.

Lemma insert_ok e count : editor_ok e -> exists e', insert_characters e count = Ret e' /\ editor_ok e'.
Proof.
  intros He. unfold insert_characters. destruct (normalize_ok e (cursor e) He) as (e1 & -> & (Hw & Hc & Hm) & Hc1 & Hw1). cbn [obind]. cbv zeta.
  eexists. split; [done|]. split; cbn; [|lia]. rewrite !cells_app, cells_blanks. pose proof (cells_split (line e1) (index_at e1 (cursor e1)).1). lia.
Qed.

Lemma feed_editor_ok e event : editor_ok e -> exists r, feed_editor e event = Ret r /\ editor_ok r.2.
Proof.
  intros He. pose proof He as (Hw & Hc & Hm). unfold feed_editor. cbv zeta.
  destruct event as [ch| | | | |n|n|n|[|[|[|n]]]|n|n];
    try (eexists; split; [reflexivity|]; unfold editor_ok; cbn; split_and!; done || lia).
  - destruct (write_ok e ch He) as (e' & -> & ?). by eexists.
  - destruct (erase_right_ok e He) as (e' & -> & ?). by eexists.
  - destruct (erase_left_ok e He) as (e' & -> & ?). by eexists.
  - destruct (editor_delete_ok e n He) as (e' & -> & ?). by eexists.
  - destruct (insert_ok e n He) as (e' & -> & ?). by eexists.
Qed.

(** No sequence of events makes the row editor panic, whatever the widths of the characters; the
    width it keeps is that of its text, and cursor and row stay within their bounds. *)
Theorem record_safe events :
  exists rows e, record new_editor events = Ret (rows, e) /\ width e = sum_list_with char_width (line e)
    /\ (cursor e <= MAX_CURSOR_COLUMN)%nat /\ (width e <= MAX_CURSOR_COLUMN + 2)%nat.
Proof.
  assert (Hgen : forall e, editor_ok e -> exists rows e', record e events = Ret (rows, e') /\ editor_ok e').
  { induction events as [|event events IH]; intros e He; [by exists [], e|]. cbn [record].
    destruct (feed_editor_ok e event He) as ([row e1] & -> & He1). cbn [obind snd fst].
    destruct (IH e1 He1) as (rows & e2 & -> & He2). cbn [obind fst snd]. by eexists _, _. }
  destruct (Hgen new_editor) as (rows & e & -> & Hw & Hc & Hm); [unfold editor_ok; cbn; split_and!; done || lia|]. by exists rows, e.
Qed.

(** ** Rows of narrow characters *)

(** The reference: a row is an array of cells, padded with blanks up to where one is written. *)
Definition pad (row : list Z) (n : nat) : list Z := row ++ blanks (n - length row).

Definition row_step (row : list Z) (cur : nat) (event : RecordingEvent) : option (list Z) * (list Z * nat) :=
  match event with
  | Character ch => (None, (take cur (pad row cur) ++ [ch] ++ drop (S cur) row, Nat.min (cur + 1) MAX_CURSOR_COLUMN))
  | Tab => (None, (row, Nat.min ((cur / 8 + 1) * 8) MAX_CURSOR_COLUMN))
  | Backspace => (None, (row, cur - 1))
  | CarriageReturn => (None, (row, 0))
  | Newline => (Some (rev (skip_blanks (rev row))), ([], 0))
  | CursorLeft n => (None, (row, cur - n))
  | CursorRight n => (None, (row, Nat.min (cur + n) MAX_CURSOR_COLUMN))
  | CursorColumn n => (None, (row, Nat.min n MAX_CURSOR_COLUMN))
  | EraseLine 0 => (None, (take cur row, cur))
  | EraseLine 1 => (None, (blanks (Nat.min (cur + 1) (length row)) ++ drop (cur + 1) row, cur))
  | EraseLine 2 => (None, ([], cur))
  | EraseLine _ => (None, (row, cur))
  | DeleteCharacters n => (None, (take cur row ++ drop (cur + n) row, cur))
  | InsertCharacters n => (None, (take cur row ++ blanks (Nat.min n (MAX_CURSOR_COLUMN - length row)) ++ drop cur row, cur))
  end%nat.

Fixpoint row_record (row : list Z) (cur : nat) (events : list RecordingEvent) : list (list Z) * (list Z * nat) :=
  match events with
  | [] => ([], (row, cur))
  | event :: events' =>
    let r := row_step row cur event in
    let q := row_record r.2.1 r.2.2 events' in
    (match r.1 with Some done_row => done_row :: q.1 | None => q.1 end, q.2)
  end.

Definition narrow (ch : Z) : Prop := char_width ch = 1%nat.
Definition narrow_event (event : RecordingEvent) : Prop := match event with Character ch => narrow ch | _ => True end.

(** The editor that holds a row of narrow characters. *)
Definition of_row (row : list Z) (cur : nat) : RecordingLineEditor := mkEditor row cur (length row).

Lemma blanks_narrow n : Forall narrow (blanks n).
Proof. apply Forall_replicate. apply space_width. Qed.

Lemma index_at_narrow row cur target : Forall narrow row -> index_at (of_row row cur) target = (Nat.min target (length row), Nat.min target (length row)).
Proof.
  intros Hn. unfold index_at. cbn [of_row width line]. destruct (Nat.leb_spec (length row) target) as [Hle|Hgt]; [by rewrite Nat.min_r|].
  assert (Hloop : forall i, (i <= target)%nat -> (target < i + length row)%nat -> index_loop row i i target = Some (target, target)).
  { clear Hgt. induction Hn as [|ch row Hch _ IH]; intros i Hi Hlt; cbn [index_loop length] in *; [lia|]. rewrite Hch.
    destruct (Nat.ltb_spec target (i + 1)) as [|Hge]; [by replace target with i by lia|]. rewrite Nat.add_1_r in *. apply IH; lia. }
  rewrite Hloop by lia. cbn. by rewrite Nat.min_l by lia.
Qed.

Lemma normalize_narrow row cur target : Forall narrow row -> normalize_cell_at (of_row row cur) target = Ret (of_row row cur).
Proof.
  intros Hn. unfold normalize_cell_at. rewrite index_at_narrow by done. cbn [of_row line]. destruct (row !! Nat.min target (length row)) eqn:E; [|done].
  apply lookup_lt_Some in E. destruct (Nat.ltb_spec (Nat.min target (length row)) target); [lia|done].
Qed.

Lemma feed_narrow row cur event :
  Forall narrow row -> narrow_event event ->
  exists row' cur', feed_editor (of_row row cur) event = Ret ((row_step row cur event).1, of_row row' cur')
    /\ (row_step row cur event).2 = (row', cur') /\ Forall narrow row'.
Proof.
  intros Hn He. destruct event as [ch| | | | |n|n|n|[|[|[|n]]]|n|n]; try (by eexists _, _; split_and!; [reflexivity..|]);
    try (by exists [], 0%nat; split_and!; [reflexivity..|constructor]); try (by exists [], cur; split_and!; [reflexivity..|constructor]); cbn [feed_editor row_step fst snd].
  - cbn in He. unfold write_character. cbn [of_row width cursor line]. rewrite He.
    assert (Hrow : forall l, length l = Nat.max (length row) (cur + 1) -> Forall narrow l -> l = take cur (pad row cur) ++ [ch] ++ drop (S cur) row ->
      exists row' cur', Ret (@None (list Z), mkEditor l (Nat.min (cur + 1) MAX_CURSOR_COLUMN) (Nat.max (length row) (cur + 1))) = Ret (None, of_row row' cur')
        /\ (take cur (pad row cur) ++ [ch] ++ drop (S cur) row, Nat.min (cur + 1) MAX_CURSOR_COLUMN) = (row', cur') /\ Forall narrow row').
    { intros l Hl Hnl ->. eexists _, _. split_and!; [|reflexivity|done]. unfold of_row. by rewrite Hl. }
    destruct (Nat.leb_spec (length row) cur) as [Hle|Hgt].
    + cbn [obind]. replace (Nat.max (length row) (cur + 1)) with (cur + 1)%nat in Hrow by lia. apply Hrow.
      * rewrite !length_app. unfold blanks. rewrite length_replicate. cbn. lia.
      * repeat (apply Forall_app; split); [done|apply blanks_narrow|by apply Forall_singleton].
      * unfold pad. rewrite (drop_ge row) by lia. rewrite app_nil_r, take_ge; [by rewrite app_assoc|]. rewrite length_app. unfold blanks. rewrite length_replicate. lia.
    + rewrite !index_at_narrow by done. rewrite !Nat.min_l by lia. rewrite Nat.ltb_irrefl.
      assert (Hif : forall o : option Z, match o with Some _ => ((cur + 1)%nat, (cur + 1)%nat) | None => ((cur + 1)%nat, (cur + 1)%nat) end = ((cur + 1)%nat, (cur + 1)%nat)) by (by intros []).
      rewrite Hif, checked_sub_ret by lia. cbn [obind]. rewrite replace_chars_ret by lia. rewrite !Nat.sub_diag. cbn [obind blanks replicate app].
      apply Hrow.
      * rewrite length_app. cbn. rewrite length_take, length_drop. lia.
      * apply Forall_app. split; [by apply Forall_take|]. constructor; [done|by apply Forall_drop].
      * unfold pad. rewrite take_app_le by lia. by rewrite Nat.add_1_r.
  - unfold erase_right. cbn [of_row cursor width line]. rewrite index_at_narrow by done. rewrite checked_sub_ret by lia. rewrite Nat.sub_diag. cbn [obind blanks replicate].
    rewrite app_nil_r. eexists _, _. split_and!; [|reflexivity|by apply Forall_take]. unfold of_row. rewrite length_take.
    destruct (Nat.le_ge_cases cur (length row)); [by rewrite !Nat.min_l by lia|]. rewrite !Nat.min_r by lia. by rewrite !take_ge by lia.
  - unfold erase_left. cbn [of_row cursor width line]. rewrite index_at_narrow by done. rewrite Nat.min_l by lia. rewrite Nat.ltb_irrefl.
    set (t := Nat.min (cur + 1) (length row)). assert (Hif : forall o : option Z, match o with Some _ => (t, t) | None => (t, t) end = (t, t)) by (by intros []).
    rewrite Hif, replace_chars_ret by lia. cbn [obind take app].
    assert (Hd : drop t row = drop (cur + 1) row).
    { destruct (Nat.le_ge_cases (cur + 1) (length row)); [unfold t; by rewrite Nat.min_l|]. unfold t. rewrite Nat.min_r by done. by rewrite !drop_ge by lia. }
    rewrite Hd. eexists _, _. split_and!; [|reflexivity|apply Forall_app; split; [apply blanks_narrow|by apply Forall_drop]].
    unfold of_row. rewrite length_app. unfold blanks. rewrite length_replicate, length_drop. do 3 f_equal. lia.
  - unfold delete_characters. cbn [of_row cursor]. rewrite normalize_narrow by done. cbn [obind of_row cursor]. rewrite normalize_narrow by done. cbn [obind of_row cursor line width].
    rewrite !index_at_narrow by done. rewrite replace_chars_ret by lia. cbn [obind]. rewrite checked_sub_ret by lia. cbn [obind]. rewrite checked_sub_ret by lia. cbn [obind app].
    eexists _, _. split_and!; [|reflexivity|apply Forall_app; split; [by apply Forall_take|by apply Forall_drop]]. unfold of_row. rewrite length_app, length_take, length_drop.
    f_equal. f_equal. f_equal; [|lia]. f_equal.
    + destruct (Nat.le_ge_cases cur (length row)); [by rewrite Nat.min_l|]. rewrite Nat.min_r by done. by rewrite !take_ge by lia.
    + destruct (Nat.le_ge_cases (cur + n) (length row)); [by rewrite Nat.min_l|]. rewrite Nat.min_r by done. by rewrite !drop_ge by lia.
  - unfold insert_characters. cbn [of_row cursor]. rewrite normalize_narrow by done. cbn [obind of_row cursor line width]. rewrite index_at_narrow by done. cbn [fst].
    eexists _, _. split_and!; [|reflexivity|repeat (apply Forall_app; split); [by apply Forall_take|apply blanks_narrow|by apply Forall_drop]].
    unfold of_row. rewrite !length_app, length_take, length_drop. unfold blanks. rewrite length_replicate. f_equal. f_equal. f_equal; [|lia].
    destruct (Nat.le_ge_cases cur (length row)); [by rewrite Nat.min_l|]. rewrite Nat.min_r by done. by rewrite !take_ge, !drop_ge by lia.
Qed.

(** For characters one cell wide the editor is a row of cells: the rows of a transcript are those
    of the reference, in which printing overwrites the cell at the cursor, erasing and deleting
    act on cells, and gaps are blanks. *)
Theorem transcript_rows events :
  Forall narrow_event events ->
  let r := row_record [] 0 events in
  record new_editor events = Ret (r.1, mkEditor r.2.1 r.2.2 (length r.2.1)).
Proof.
  intros He. cbv zeta. change new_editor with (of_row [] 0). assert (Hrow : Forall narrow []) by constructor. revert Hrow. generalize (@nil Z), 0%nat.
  induction He as [|event events Hev _ IH]; intros row cur Hn; [done|]. cbn [record row_record].
  destruct (feed_narrow row cur event Hn Hev) as (row' & cur' & -> & Hstep & Hn'). rewrite Hstep. cbn [obind fst snd]. rewrite IH by done. done.
Qed.

End Row.

(** ** What a transcript keeps *)

Lemma feed_events_app s a b :
  feed_events s (a ++ b) = ((feed_events s a).1 ++ (feed_events (feed_events s a).2 b).1, (feed_events (feed_events s a).2 b).2).
Proof.
  revert s. induction a as [|ch a IH]; intros s; cbn [app feed_events fst snd]; [by destruct (feed_events s b)|]. rewrite IH. cbn [fst snd]. by rewrite app_assoc.
Qed.

(** How the strings of OSC, DCS, SOS, PM and APC begin; the flag is OSC's. *)
Inductive string_intro : bool -> list Z -> Prop :=
| intro_osc7 : string_intro true [27; 93]
| intro_osc8 : string_intro true [157]
| intro_string7 f : f ∈ [80; 88; 94; 95] -> string_intro false [27; f]
| intro_string8 f : f ∈ [144; 152; 158; 159] -> string_intro false [f].

(** The control sequences of ECMA-48. *)
Inductive control_sequence : list Z -> Prop :=
| seq_csi intro params inter final :
    intro = [27; 91] \/ intro = [155] -> Forall (fun b => 48 <= b <= 63) params -> Forall (fun b => 32 <= b <= 47) inter -> 64 <= final <= 126 ->
    control_sequence (intro ++ params ++ inter ++ [final])
| seq_string osc intro body terminator :
    string_intro osc intro -> Forall (fun b => b <> 27 /\ b <> 156 /\ (osc = true -> b <> 7)) body ->
    terminator = [156] \/ terminator = [27; 92] \/ (osc = true /\ terminator = [7]) ->
    control_sequence (intro ++ body ++ terminator)
| seq_escape inter final :
    Forall (fun b => 32 <= b <= 47) inter -> 48 <= final <= 126 -> (inter = [] -> final ∉ [91; 93; 80; 88; 94; 95]) ->
    control_sequence (27 :: inter ++ [final]).

(** A text for a terminal and what is to be read of it: printable characters, newlines and
    tabs stay, sequences and other control characters go. *)
Inductive terminal_text : list Z -> list Z -> Prop :=
| text_nil : terminal_text [] []
| text_char ch a b : is_control ch = false \/ ch = 10 \/ ch = 9 -> terminal_text a b -> terminal_text (ch :: a) (ch :: b)
| text_control ch a b : is_control ch = true -> ch ∉ [9; 10; 27; 144; 152; 155; 157; 158; 159] -> terminal_text a b -> terminal_text (ch :: a) b
| text_sequence q a b : control_sequence q -> terminal_text a b -> terminal_text (q ++ a) b.

(** A piece of text leads from one state to another and leaves nothing in the transcript. *)
Definition silent (s : RecordingSanitizer) (text : list Z) (st : State) : Prop :=
  state (feed_events s text).2 = st /\ concat (event_text <$> (feed_events s text).1) = [].

Lemma silent_app s a b st1 st2 : silent s a st1 -> (forall s', state s' = st1 -> silent s' b st2) -> silent s (a ++ b) st2.
Proof.
  intros [Ha1 Ha2] Hb. destruct (Hb _ Ha1) as [Hb1 Hb2]. unfold silent. rewrite feed_events_app. cbn [fst snd]. split; [done|].
  by rewrite fmap_app, concat_app, Ha2, Hb2.
Qed.

Lemma silent_all (P : Z -> Prop) st l s :
  (forall s' ch, state s' = st -> P ch -> silent s' [ch] st) -> Forall P l -> state s = st -> silent s l st.
Proof.
  intros Hstep Hl. revert s. induction Hl as [|ch l Hch _ IH]; intros s Hs; [done|]. apply (silent_app s [ch] l st st); [by apply Hstep|done].
Qed.

Lemma silent_1 s ch st : state (feed_char s ch).2 = st -> concat (event_text <$> (feed_char s ch).1) = [] -> silent s [ch] st.
Proof. intros H1 H2. unfold silent. cbn [feed_events fst snd]. rewrite app_nil_r. done. Qed.

Ltac eqb_cases := repeat match goal with |- context [?x =? ?n] => destruct (Z.eqb_spec x n); try lia end.
Ltac feed_one := apply silent_1; unfold feed_char; match goal with H : state _ = _ |- _ => rewrite H end.

Lemma between_true lo hi x : lo <= x <= hi -> between lo hi x = true.
Proof. intros H. unfold between. destruct (Z.leb_spec lo x), (Z.leb_spec x hi); done || lia. Qed.

Lemma between_false lo hi x : x < lo \/ hi < x -> between lo hi x = false.
Proof. intros H. unfold between. destruct (Z.leb_spec lo x), (Z.leb_spec x hi); done || lia. Qed.

Lemma csi_param_silent s ch : state s = Csi -> 48 <= ch <= 63 -> silent s [ch] Csi.
Proof. intros Hs Hc. feed_one; rewrite between_true by lia; by destruct (_ <? _)%nat. Qed.

Lemma csi_inter_silent s ch : state s = Csi -> 32 <= ch <= 47 -> silent s [ch] Csi.
Proof. intros Hs Hc. feed_one; rewrite !between_false by lia; by eqb_cases. Qed.

Lemma csi_final_silent s ch : state s = Csi -> 64 <= ch <= 126 -> silent s [ch] Ground.
Proof.
  intros Hs Hc. feed_one; rewrite between_false, between_true by lia; [done|]. cbn [fst]. unfold csi_event. destruct (_ || _); [done|].
  destruct (csi_count _ _); [|done]. cbn. by repeat case_match.
Qed.

Lemma string_body_silent osc s ch : state s = StringState osc false -> ch <> 27 /\ ch <> 156 /\ (osc = true -> ch <> 7) -> silent s [ch] (StringState osc false).
Proof. intros Hs (H1 & H2 & H3). feed_one; [|done]. cbn. destruct osc; [specialize (H3 eq_refl)|]; by eqb_cases. Qed.

Lemma intro_silent osc intro s : string_intro osc intro -> state s = Ground -> silent s intro (StringState osc false).
Proof.
  intros Hi Hs. assert (Hesc : silent s [27] Escape) by (feed_one; done).
  destruct Hi as [| |f Hf|f Hf].
  - apply (silent_app s [27] [93] Escape); [done|]. intros s' Hs'. by feed_one.
  - by feed_one.
  - apply (silent_app s [27] [f] Escape); [done|]. intros s' Hs'. feed_one; repeat (apply elem_of_cons in Hf as [->|Hf]; [done|]); by apply not_elem_of_nil in Hf.
  - feed_one; repeat (apply elem_of_cons in Hf as [->|Hf]; [done|]); by apply not_elem_of_nil in Hf.
Qed.

Lemma sequence_silent q s : control_sequence q -> state s = Ground -> silent s q Ground.
Proof.
  intros Hq Hs. destruct Hq as [intro params inter final Hi Hp Hn Hf|osc intro body term Hi Hb Ht|inter final Hn Hf Hx].
  - apply (silent_app s intro _ Csi).
    { destruct Hi as [->| ->]; [|by feed_one]. apply (silent_app s [27] [91] Escape); [by feed_one|]. intros s' Hs'. by feed_one. }
    intros s1 Hs1. apply (silent_app s1 params _ Csi); [by eapply silent_all; [apply csi_param_silent|..]|].
    intros s2 Hs2. apply (silent_app s2 inter _ Csi); [by eapply silent_all; [apply csi_inter_silent|..]|]. intros s3 Hs3. by apply csi_final_silent.
  - apply (silent_app s intro _ (StringState osc false)); [by apply intro_silent|]. intros s1 Hs1.
    apply (silent_app s1 body _ (StringState osc false)); [by eapply silent_all; [apply string_body_silent|..]|]. intros s2 Hs2.
    destruct Ht as [->|[->|[-> ->]]]; [by feed_one| |by feed_one].
    apply (silent_app s2 [27] [92] (StringState osc true)); [feed_one; [|done]; cbn; by destruct osc|]. intros s3 Hs3. feed_one; [|done]. cbn. by destruct osc.
  - apply (silent_app s [27] (inter ++ [final]) Escape); [by feed_one|]. intros s1 Hs1. destruct Hn as [|i inter Hi Hn].
    + cbn [app]. specialize (Hx eq_refl). rewrite !not_elem_of_cons in Hx. feed_one; rewrite ?(between_false 32 47) by lia; eqb_cases; cbn; tauto || done.
    + apply (silent_app s1 [i] _ EscapeIntermediate); [feed_one; rewrite (between_true 32 47) by lia; by eqb_cases|]. intros s2 Hs2.
      apply (silent_app s2 inter _ EscapeIntermediate).
      * eapply silent_all; [|exact Hn|done]. intros s' ch Hs' Hc. cbn in Hc. feed_one; rewrite between_false by lia; by eqb_cases.
      * intros s3 Hs3. feed_one; by rewrite between_true by lia.
Qed.

(** A transcript is exactly the printable text with its newlines and tabs: every control sequence
    and every other control character disappears, and the parser is back on the ground. *)
Theorem transcript_text text kept :
  terminal_text text kept -> (sanitize new_sanitizer text).1 = kept /\ state (sanitize new_sanitizer text).2 = Ground.
Proof.
  intros Ht. assert (Hg : state new_sanitizer = Ground) by done. revert Hg. generalize new_sanitizer as s. unfold sanitize. cbn [fst snd].
  induction Ht as [|ch a b Hc _ IH|ch a b Hc Hn _ IH|q a b Hq _ IH]; intros s Hs; [done|..].
  - change (ch :: a) with ([ch] ++ a). rewrite feed_events_app. cbn [fst snd]. rewrite fmap_app, concat_app.
    assert (H1 : state (feed_events s [ch]).2 = Ground /\ concat (event_text <$> (feed_events s [ch]).1) = [ch]).
    { cbn [feed_events fst snd]. rewrite app_nil_r. unfold feed_char. rewrite Hs. destruct Hc as [Hc|[->| ->]]; [|done..]. rewrite Hc.
      assert (Hr : ~ (0 <= ch <= 31) /\ ~ (127 <= ch <= 159)).
      { unfold is_control in Hc. apply orb_false_iff in Hc as [H1 H2]. split; intros H3; [rewrite between_true in H1 by lia|rewrite between_true in H2 by lia]; done. }
      eqb_cases; done. }
    destruct H1 as [H1 ->]. destruct (IH _ H1) as [-> ->]. done.
  - change (ch :: a) with ([ch] ++ a). rewrite feed_events_app. cbn [fst snd]. rewrite fmap_app, concat_app. rewrite !not_elem_of_cons in Hn.
    assert (H1 : silent s [ch] Ground) by (feed_one; rewrite Hc; eqb_cases; cbn; tauto || done).
    destruct H1 as [H1 ->]. destruct (IH _ H1) as [-> ->]. done.
  - rewrite feed_events_app. cbn [fst snd]. rewrite fmap_app, concat_app. destruct (sequence_silent q s Hq Hs) as [H1 ->]. destruct (IH _ H1) as [-> ->]. done.
Qed.

(** *** Witnesses *)

(** ASCII is narrow, and everything from the Hangul block on is wide. *)
#[local] Instance ex_width : CharWidth := fun ch => if 4352 <=? ch then 2%nat else 1%nat.
#[local] Instance ex_width_laws : CharWidthLaws.
Proof. split; [done|]. intros ch. unfold char_width, ex_width. destruct (_ <=? _); lia. Qed.

(** A red word, a title and a bell. *)
Definition ex_text : list Z := [27; 91; 51; 49; 109; 104; 105] ++ [27; 93; 48; 59; 116; 7] ++ [7; 10].

Lemma transcript_text_witness : (sanitize new_sanitizer ex_text).1 = [104; 105; 10] /\ state (sanitize new_sanitizer ex_text).2 = Ground.
Proof.
  apply (transcript_text ex_text [104; 105; 10]). unfold ex_text.
  apply (text_sequence ([27; 91] ++ [51; 49] ++ [] ++ [109])); [apply seq_csi; [by left|repeat constructor; lia|constructor|lia]|].
  do 2 (apply text_char; [by left|]).
  apply (text_sequence ([27; 93] ++ [48; 59; 116] ++ [7])).
  { apply (seq_string true); [constructor|repeat constructor; lia|by right; right]. }
  apply text_control; [done|by rewrite !not_elem_of_cons; split_and!; try lia; apply not_elem_of_nil|]. apply text_char; [by right; left|constructor].
Defined.

Lemma transcript_rows_witness :
  let events := [Character 97; Character 98; CursorLeft 2; Character 99; CursorRight 2; Character 100; Newline] in
  record new_editor events = Ret ([[99; 98; 32; 100]], mkEditor [] 0 0).
Proof. apply (transcript_rows [Character 97; Character 98; CursorLeft 2; Character 99; CursorRight 2; Character 100; Newline]). by repeat constructor. Defined.
