(* ===== verification/PixelMemory.v ===== *)
(** * The pixel memory budget of remote desktop sessions

    [nyaterm-remote-desktop/src/pixel_memory.rs]: one budget, shared by every session,
    limits the CPU memory held by decoded frames and framebuffers. [reserve] is a
    compare-and-exchange loop; its load and each of its turns are separate steps, so that
    reservations and releases of other threads fall between them. A lease is released
    when its last owner is dropped. The theorem shows that the counter is exactly the
    leased memory and never exceeds the limit, in every interleaving. *)

From S2P Require Import Prelude.
From stdpp Require Import base list numbers option relations.
From Stdlib Require Import ZArith Lia.

Local Open Scope Z_scope.

Definition PIXEL_MEMORY_LIMIT : Z := 1024 * 1024 * 1024.

Record PixelBudget := mkBudget { used : Z; limit : Z }.

Definition shared : PixelBudget := mkBudget 0 PIXEL_MEMORY_LIMIT.

(** [used.checked_add(bytes).filter(|total| *total <= self.limit)]. *)
Definition checked_total (b : PixelBudget) (seen bytes : Z) : option Z :=
  if (seen + bytes <? 2 ^ 64) && (seen + bytes <=? limit b) then Some (seen + bytes) else None.

Inductive turn_result := Exhausted | Reserved (b : PixelBudget) | Again (current : Z).

(** One turn of the loop of [reserve], after the counter was seen to be [seen];
    [compare_exchange_weak] may fail spuriously. *)
Definition reserve_turn (b : PixelBudget) (seen bytes : Z) (spurious : bool) : turn_result :=
  match checked_total b seen bytes with
  | None => Exhausted
  | Some total => if (used b =? seen) && negb spurious then Reserved (mkBudget total (limit b)) else Again (used b)
  end.

(** [reserve] without interference from other threads. *)
Definition reserve (b : PixelBudget) (bytes : Z) : option PixelBudget :=
  match reserve_turn b (used b) bytes false with Reserved b' => Some b' | _ => None end.

(** [Drop for PixelLease]: [fetch_sub] wraps around. *)
Definition drop_lease (b : PixelBudget) (bytes : Z) : PixelBudget := mkBudget (uwrap 64 (used b - bytes)) (limit b).

(** ** Pixel buffers *)

(** [PixelBuffer]: shared immutable pixels (with the bytes of their lease, if any) and the
    offset at which this buffer starts. *)
Record PixelBuffer := mkPixels { storage : bytes; pb_lease : option Z; pb_offset : nat }.

Definition with_lease (pixels : bytes) (lease : option Z) : PixelBuffer := mkPixels pixels lease 0.
Definition from_vec (pixels : bytes) : PixelBuffer := with_lease pixels None.
Definition default_pixels : PixelBuffer := from_vec [].
Definition skip (b : PixelBuffer) (n : nat) : PixelBuffer := mkPixels (storage b) (pb_lease b) (pb_offset b + n).

(** [Deref]: the code slices [pixels[offset..]], which does not panic for the buffers
    satisfying [pixels_ok]; every buffer the IPC code builds does. *)
Definition deref (b : PixelBuffer) : bytes := drop (pb_offset b) (storage b).
Definition pixels_ok (b : PixelBuffer) : Prop := (pb_offset b <= length (storage b))%nat.

(** [PartialEq]: buffers are equal when their bytes are. *)
#[export] Instance pixels_equiv : Equiv PixelBuffer := fun a b => deref a = deref b.
#[export] Instance pixels_equivalence : Equivalence (≡@{PixelBuffer}).
Proof. split; unfold equiv, pixels_equiv; congruence. Qed.
#[export] Instance deref_proper : Proper ((≡) ==> (=)) deref.
Proof. by intros a b H. Qed.

Lemma deref_from_vec v : deref (from_vec v) = v.
Proof. done. Qed.
Lemma deref_with_lease v l : deref (with_lease v l) = v.
Proof. done. Qed.
Lemma deref_skip b n : deref (skip b n) = drop n (deref b).
Proof. unfold deref, skip. simpl. by rewrite drop_drop. Qed.

(** ** Threads *)

(** [calls]: reservations inside the loop, as the bytes asked for and the counter last
    seen; [leases]: the leases alive, as their bytes and the number of their owners. *)
Record Sys := mkSys { budget : PixelBudget; calls : list (Z * Z); leases : list (Z * nat) }.

Inductive step : Sys -> Sys -> Prop :=
| step_load b cs ls bytes :
    urange 64 bytes -> step (mkSys b cs ls) (mkSys b ((bytes, used b) :: cs) ls)
| step_exhausted b cs1 cs2 ls bytes seen sp :
    reserve_turn b seen bytes sp = Exhausted ->
    step (mkSys b (cs1 ++ (bytes, seen) :: cs2) ls) (mkSys b (cs1 ++ cs2) ls)
| step_reserved b b' cs1 cs2 ls bytes seen sp :
    reserve_turn b seen bytes sp = Reserved b' ->
    step (mkSys b (cs1 ++ (bytes, seen) :: cs2) ls) (mkSys b' (cs1 ++ cs2) ((bytes, 1%nat) :: ls))
| step_again b cs1 cs2 ls bytes seen sp current :
    reserve_turn b seen bytes sp = Again current ->
    step (mkSys b (cs1 ++ (bytes, seen) :: cs2) ls) (mkSys b (cs1 ++ (bytes, current) :: cs2) ls)
| step_clone b cs ls1 ls2 bytes n :
    step (mkSys b cs (ls1 ++ (bytes, n) :: ls2)) (mkSys b cs (ls1 ++ (bytes, S n) :: ls2))
| step_drop b cs ls1 ls2 bytes n :
    step (mkSys b cs (ls1 ++ (bytes, S (S n)) :: ls2)) (mkSys b cs (ls1 ++ (bytes, S n) :: ls2))
| step_drop_last b cs ls1 ls2 bytes :
    step (mkSys b cs (ls1 ++ (bytes, 1%nat) :: ls2)) (mkSys (drop_lease b bytes) cs (ls1 ++ ls2)).

(** ** The invariant *)

Definition leased (ls : list (Z * nat)) : Z := foldr (fun l acc => l.1 + acc) 0 ls.

Record sys_ok (lim : Z) (s : Sys) : Prop := {
  ok_limit : limit (budget s) = lim;
  ok_used : used (budget s) = leased (leases s);
  ok_bound : used (budget s) <= lim;
  ok_calls : Forall (fun c => urange 64 c.1) (calls s);
  ok_leases : Forall (fun l => 0 <= l.1 /\ (1 <= l.2)%nat) (leases s) }.

Lemma leased_app ls1 ls2 : leased (ls1 ++ ls2) = leased ls1 + leased ls2.
Proof. induction ls1 as [|l ls1 IH]; simpl; lia. Qed.

Lemma leased_nonneg ls : Forall (fun l => 0 <= l.1 /\ (1 <= l.2)%nat) ls -> 0 <= leased ls.
Proof. induction 1; simpl; lia. Qed.

Lemma reserve_turn_reserved b seen bytes sp b' :
  reserve_turn b seen bytes sp = Reserved b' ->
  used b = seen /\ b' = mkBudget (used b + bytes) (limit b) /\ used b + bytes <= limit b.
Proof.
  unfold reserve_turn, checked_total. repeat split_match; intros [= <-]; try done. simplify_eq. bool_hyps. subst. auto.
Qed.

Lemma step_ok lim s s' : 0 <= lim < 2 ^ 64 -> sys_ok lim s -> step s s' -> sys_ok lim s'.
Proof.
  intros Hlim [Hl Hu Hb Hc Hle] Hs. destruct Hs; simpl in *;
    repeat match goal with
    | H : Forall _ (_ ++ _ :: _) |- _ => apply Forall_app in H as [? [? ?]%Forall_cons_iff]; simpl in *
    | H : context [leased (_ ++ _)] |- _ => rewrite leased_app in H; simpl in H
    | H : reserve_turn _ _ _ _ = Reserved _ |- _ => apply reserve_turn_reserved in H as (? & -> & ?); simpl in *
    end.
  all: assert (Hpos : forall ls, Forall (fun l => 0 <= l.1 /\ (1 <= l.2)%nat) ls -> 0 <= leased ls) by apply leased_nonneg.
  all: split; simpl; rewrite ?leased_app; simpl; rewrite ?Forall_app, ?Forall_cons_iff; simpl; try done;
    try (repeat split; first [done|lia|unfold urange in *; lia]).
  all: pose proof (Hpos ls1 ltac:(done)); pose proof (Hpos ls2 ltac:(done)); unfold uwrap;
    rewrite Z.mod_small by lia; lia.
Qed.

(** In every interleaving of reservations, clones and drops by any number of threads,
    the counter of the budget is exactly the sum of the live leases and at most the
    limit, so releasing never wraps around. *)
Theorem budget_exact (lim : Z) (s : Sys) :
  0 <= lim < 2 ^ 64 -> rtc step (mkSys (mkBudget 0 lim) [] []) s ->
  used (budget s) = leased (leases s) /\ 0 <= used (budget s) <= lim.
Proof.
  intros Hlim Hr. assert (sys_ok lim s) as [Hl Hu Hb Hc Hle].
  { remember (mkSys _ _ _) as s0 eqn:E. assert (H0 : sys_ok lim s0) by (subst; split; simpl; [done|done|lia|constructor|constructor]).
    clear E. induction Hr; eauto using step_ok. }
  pose proof (leased_nonneg _ Hle). lia.
Qed.

(** Without interference a reservation succeeds exactly when the memory is there. *)
Lemma reserve_spec (b : PixelBudget) (bytes : Z) :
  limit b < 2 ^ 64 ->
  reserve b bytes = if used b + bytes <=? limit b then Some (mkBudget (used b + bytes) (limit b)) else None.
Proof.
  intros Hl. unfold reserve, reserve_turn, checked_total. rewrite Z.eqb_refl.
  destruct (Z.leb_spec (used b + bytes) (limit b)).
  - by rewrite (proj2 (Z.ltb_lt _ _)) by lia.
  - by rewrite andb_false_r.
Qed.

(** Two threads that saw the same counter: the first wins, the second has to look again. *)
Lemma budget_exact_witness :
  rtc step (mkSys (mkBudget 0 10) [] []) (mkSys (mkBudget 6 10) [(6, 6)] [(6, 1%nat)]) /\
  (used (mkBudget 6 10) = leased [(6, 1%nat)] /\ 0 <= used (mkBudget 6 10) <= 10).
Proof.
  assert (Hr : rtc step (mkSys (mkBudget 0 10) [] []) (mkSys (mkBudget 6 10) [(6, 6)] [(6, 1%nat)])).
  { eapply rtc_l; [apply (step_load _ _ _ 6); vm_compute; split; congruence|].
    eapply rtc_l; [apply (step_load _ _ _ 6); vm_compute; split; congruence|].
    eapply rtc_l; [apply (step_reserved _ (mkBudget 6 10) [] [(6, 0)] _ 6 0 false); reflexivity|].
    eapply rtc_l; [apply (step_again _ [] [] _ 6 0 false 6); reflexivity|]. apply rtc_refl. }
  split; [exact Hr|]. apply (budget_exact 10 (mkSys (mkBudget 6 10) [(6, 6)] [(6, 1%nat)])); [lia|exact Hr].
Defined.
