(* ===== verification/HelperIpc.v ===== *)
(** * The packets between the application and the remote desktop helpers

    [nyaterm-remote-desktop/src/ipc.rs] and the event types of [protocol.rs]: packets with
    a five byte header, the blocking and the incremental packet reader, and the binary
    encodings of frames and cursors inside packets. Control messages are JSON; [Json] is
    the interface of the serialiser. The theorems show that the wire format round-trips,
    however the stream is cut, and say exactly which frames and cursors are accepted. *)

From S2P Require Import Prelude RustStr PixelMemory.
From stdpp Require Import base list numbers option strings.
From Stdlib Require Import ZArith Lia.

Local Open Scope Z_scope.
Local Open Scope rust_scope.

(** ** Errors and integers *)

Inductive ErrorKind := InvalidData | InvalidInput | UnexpectedEof | OutOfMemory | Interrupted | OtherKind.
Definition io_error : Type := ErrorKind * bytes.

Definition io {A} (kind : ErrorKind) (message : string) : result A io_error := Err (kind, bs message).

Definition zlen {A} (l : list A) : Z := Z.of_nat (length l).

(** [checked_add] and [checked_mul] of [usize]. *)
Definition checked_add (x y : Z) : option Z := if x + y <? 2 ^ 64 then Some (x + y) else None.
Definition checked_mul (x y : Z) : option Z := if x * y <? 2 ^ 64 then Some (x * y) else None.

(** [to_le_bytes] and [from_le_bytes]. *)
Definition le_bytes (n : nat) (x : Z) : bytes := rev (be_bytes n x).
Definition of_le_bytes (l : bytes) : Z := of_be_bytes (rev l).
#[global] Arguments le_bytes : simpl never.
#[global] Arguments of_le_bytes : simpl never.

(** ** Packets *)

Definition HEADER_LEN : nat := 5.
Definition CONTROL_PAYLOAD_LIMIT : Z := 1024 * 1024.
Definition FRAME_PAYLOAD_LIMIT : Z := 160 * 1024 * 1024.
Definition CURSOR_PAYLOAD_LIMIT : Z := 4 * 1024 * 1024.

Inductive PacketType := Control | Frame | Cursor.

#[export] Instance PacketType_eq_dec : EqDecision PacketType.
Proof. solve_decision. Defined.

Definition packet_code (t : PacketType) : Z := match t with Control => 1 | Frame => 2 | Cursor => 3 end.

Definition packet_type_of (value : Z) : result PacketType io_error :=
  if value =? 1 then Ok Control else if value =? 2 then Ok Frame else if value =? 3 then Ok Cursor
  else io InvalidData "unknown helper IPC packet type".

Record Packet := mkPacket { packet_type : PacketType; payload : PixelBuffer; body : PixelBuffer }.

Definition payload_len (p : Packet) : result Z io_error :=
  ok_or (checked_add (zlen (deref (payload p))) (zlen (deref (body p)))) (InvalidInput, bs "packet length overflow").

Definition payload_limit (t : PacketType) : Z :=
  match t with Control => CONTROL_PAYLOAD_LIMIT | Frame => FRAME_PAYLOAD_LIMIT | Cursor => CURSOR_PAYLOAD_LIMIT end.

(** [write_packet_into]: the bytes written, to a writer that takes them all. *)
Definition write_packet (p : Packet) : result bytes io_error :=
  len <-? payload_len p;
  if payload_limit (packet_type p) <? len then io InvalidInput "helper IPC payload exceeds limit"
  else if 2 ^ 32 <=? len then io InvalidInput "helper IPC payload is too large"
  else Ok ([packet_code (packet_type p)] ++ le_bytes 4 len ++ deref (payload p) ++ deref (body p)).

(** *** The blocking reader *)

(** A reader is the pieces its next [read] calls return, an empty piece or the end of
    the list being the end of the input; a piece that does not fit in the buffer is
    returned in parts. *)
Definition reader : Type := list (result bytes io_error).

Inductive filled := Full (data : bytes) (rest : reader) | Eof (data : bytes) | Failed (e : io_error).

(** The loops of [read] calls that fill a buffer with [need] more bytes; [retry] is how
    [read_exact] treats [ErrorKind::Interrupted]. *)
Fixpoint fill (retry : bool) (need : nat) (acc : bytes) (r : reader) : filled :=
  match need with
  | O => Full acc r
  | _ =>
    match r with
    | [] => Eof acc
    | Err e :: r' =>
        match retry, e.1 with true, Interrupted => fill retry need acc r' | _, _ => Failed e end
    | Ok [] :: _ => Eof acc
    | Ok c :: r' =>
        if (length c <=? need)%nat then fill retry (need - length c) (acc ++ c) r'
        else Full (acc ++ take need c) (Ok (drop need c) :: r')
    end
  end.

Definition read_exact (n : nat) (r : reader) : result (bytes * reader) io_error :=
  match fill true n [] r with
  | Full data rest => Ok (data, rest)
  | Eof _ => io UnexpectedEof "failed to fill whole buffer"
  | Failed e => Err e
  end.

(** [read_packet_inner]: the packet, the rest of the input and what is left of the
    budget; the allocation of the payload is taken to succeed. *)
Definition read_packet (r : reader) (budget : option PixelBudget) :
    result (option (Packet * reader * option PixelBudget)) io_error :=
  match fill false HEADER_LEN [] r with
  | Failed e => Err e
  | Eof [] => Ok None
  | Eof _ => io UnexpectedEof "truncated helper IPC header"
  | Full header r' =>
      t <-? packet_type_of (nth 0 header 0);
      let len := of_le_bytes (drop 1 header) in
      if payload_limit t <? len then io InvalidData "helper IPC payload exceeds limit" else
      lb <-? match budget with
        | Some b =>
            if bool_decide (t = Control) then Ok (None, budget)
            else match reserve b len with
                 | Some b' => Ok (Some len, Some b')
                 | None => io OutOfMemory "remote desktop CPU pixel memory budget exhausted"
                 end
        | None => Ok (None, None)
        end;
      pr <-? read_exact (Z.to_nat len) r';
      Ok (Some (mkPacket t (with_lease pr.1 lb.1) default_pixels, pr.2, lb.2))
  end.

(** *** The incremental reader *)

Record PacketReader := mkReader { buffer : bytes }.

(** The body of the loop of [push] at [rest], the buffer from the offset on: the next
    packet and its length, or nothing while it is incomplete. *)
Definition packet_at (rest : bytes) : result (option (Packet * nat)) io_error :=
  if (length rest <? HEADER_LEN)%nat then Ok None else
  t <-? packet_type_of (nth 0 rest 0);
  let len := of_le_bytes (take 4 (drop 1 rest)) in
  if payload_limit t <? len then io InvalidData "helper IPC payload exceeds limit" else
  packet_len <-? ok_or (checked_add (Z.of_nat HEADER_LEN) len) (InvalidData, bs "helper IPC length overflow");
  if zlen rest <? packet_len then Ok None
  else Ok (Some (mkPacket t (from_vec (take (Z.to_nat len) (drop HEADER_LEN rest))) default_pixels, Z.to_nat packet_len)).

Fixpoint push_loop (fuel : nat) (buf : bytes) (offset : nat) (packets : list Packet) :
    result (list Packet * nat) io_error :=
  match fuel with
  | O => Ok (packets, offset)
  | S fuel' =>
      next <-? packet_at (drop offset buf);
      match next with
      | None => Ok (packets, offset)
      | Some (p, n) => push_loop fuel' buf (offset + n) (packets ++ [p])
      end
  end.

(** [PacketReader::push]: an error keeps the whole buffer. Every turn of the loop but the
    last takes at least a header, so one more than the length of the buffer is enough fuel. *)
Definition push (r : PacketReader) (data : bytes) : result (list Packet) io_error * PacketReader :=
  let buf := buffer r ++ data in
  match push_loop (S (length buf)) buf 0 [] with
  | Err e => (Err e, mkReader buf)
  | Ok (packets, offset) => (Ok packets, mkReader (drop offset buf))
  end.

(** ** Control messages *)

(** [serde_json] for the messages of one protocol. *)
Class Json (M : Type) := { to_vec : M -> option bytes; from_slice : bytes -> option M }.
Class JsonLaws (M : Type) `{Json M} : Prop := { json_roundtrip m v : to_vec m = Some v -> from_slice v = Some m }.

Inductive protocol := Rdp | Vnc.

(** [encode_control] and [decode_control], and their twins for VNC, which differ in the
    texts of their errors. *)
Definition encode_control `{Json M} (proto : protocol) (m : M) : result Packet io_error :=
  v <-? ok_or (to_vec m) (OtherKind, []);
  if CONTROL_PAYLOAD_LIMIT <? zlen v
  then io InvalidInput (match proto with Rdp => "RDP control payload exceeds limit" | Vnc => "VNC control payload exceeds limit" end)
  else Ok (mkPacket Control (from_vec v) default_pixels).

Definition decode_control `{Json M} (proto : protocol) (p : Packet) : result M io_error :=
  if negb (bool_decide (packet_type p = Control))
  then io InvalidInput (match proto with Rdp => "packet is not an RDP control packet" | Vnc => "packet is not a control packet" end)
  else ok_or (from_slice (deref (payload p))) (InvalidData, []).

(** ** Fields *)

(** A decoder reads the payload from an offset on, which it advances. *)
Definition decoder (A : Type) : Type := bytes -> nat -> result (A * nat) io_error.

Definition dret {A} (a : A) : decoder A := fun _ off => Ok (a, off).
Definition dbind {A B} (d : decoder A) (k : A -> decoder B) : decoder B :=
  fun p off => r <-? d p off; k r.1 p r.2.
Definition dfail {A} (kind : ErrorKind) (message : string) : decoder A := fun _ _ => io kind message.

Notation "x <-* d ; k" := (dbind d (fun x => k))
  (at level 100, d at level 90, k at level 200, right associativity, format "x  <-*  d ; '//' k") : rust_scope.

Definition slice_from (p : bytes) (off n : nat) : option bytes :=
  if (off + n <=? length p)%nat then Some (take n (drop off p)) else None.

(** [take::<N>]. *)
Definition take_n (n : nat) : decoder bytes := fun p off =>
  _ <-? ok_or (checked_add (Z.of_nat off) (Z.of_nat n)) (InvalidData, bs "helper IPC packet offset overflow");
  s <-? ok_or (slice_from p off n) (UnexpectedEof, bs "truncated helper IPC packet");
  Ok (s, (off + n)%nat).

Definition take_int (n : nat) : decoder Z := s <-* take_n n; dret (of_le_bytes s).
Definition take_u32 : decoder Z := take_int 4.

Definition take_session : decoder bytes :=
  len <-* take_int 2;
  fun p off =>
    _ <-? ok_or (checked_add (Z.of_nat off) len) (InvalidData, bs "helper IPC session id length overflow");
    s <-? ok_or (slice_from p off (Z.to_nat len)) (UnexpectedEof, bs "truncated helper IPC session id");
    if utf8_valid s then Ok (s, (off + Z.to_nat len)%nat) else io InvalidData "helper IPC session id is not UTF-8".

Definition put_session (session_id : bytes) : result bytes io_error :=
  if zlen session_id <? 2 ^ 16 then Ok (le_bytes 2 (zlen session_id) ++ session_id)
  else io InvalidInput "helper IPC session id is too long".

Definition put_u32 (x : Z) : bytes := le_bytes 4 x.
Definition of_bool (b : bool) : Z := if b then 1 else 0.

(** ** Frames *)

Inductive PixelFormat := Bgra8 | Rgba8.

Inductive RemoteFrameEvent :=
| Reset (epoch width height : Z)
| Bitmap (epoch : Z) (full : bool) (x y width height stride : Z) (format : PixelFormat) (pixels : PixelBuffer).

Definition format_code (f : PixelFormat) : Z := match f with Bgra8 => 1 | Rgba8 => 2 end.

(** The header of [encode_frame_packet] and [encode_frame_packet_owned]. *)
Definition frame_header (session_id : bytes) (epoch : Z) (full : bool) (x y width height stride : Z)
    (format : PixelFormat) (pixels : PixelBuffer) : result bytes io_error :=
  sess <-? put_session session_id;
  let head := sess ++ le_bytes 8 epoch ++ [of_bool full] ++ [format_code format]
              ++ put_u32 x ++ put_u32 y ++ put_u32 width ++ put_u32 height ++ put_u32 stride in
  if zlen (deref pixels) <? 2 ^ 32 then Ok (head ++ put_u32 (zlen (deref pixels)))
  else io InvalidInput "frame is too large".

Definition encode_frame_packet (session_id : bytes) (event : RemoteFrameEvent) : result Packet io_error :=
  match event with
  | Reset _ _ _ => io InvalidInput "event is not a bitmap"
  | Bitmap epoch full x y width height stride format pixels =>
      head <-? frame_header session_id epoch full x y width height stride format pixels;
      let data := head ++ deref pixels in
      if FRAME_PAYLOAD_LIMIT <? zlen data then io InvalidInput "frame exceeds limit"
      else Ok (mkPacket Frame (from_vec data) default_pixels)
  end.

Definition encode_frame_packet_owned (session_id : bytes) (event : RemoteFrameEvent) : result Packet io_error :=
  match event with
  | Reset _ _ _ => io InvalidInput "event is not a bitmap"
  | Bitmap epoch full x y width height stride format pixels =>
      head <-? frame_header session_id epoch full x y width height stride format pixels;
      if FRAME_PAYLOAD_LIMIT <? sat_add 64 (zlen head) (zlen (deref pixels)) then io InvalidInput "frame exceeds limit"
      else Ok (mkPacket Frame (from_vec head) pixels)
  end.

Record FrameHeader := mkFrameHeader {
  h_epoch : Z; h_full : bool; h_x : Z; h_y : Z; h_width : Z; h_height : Z; h_stride : Z; h_format : PixelFormat }.

(** The fields of a frame packet: session, header and the length of the pixels. *)
Definition take_frame : decoder (bytes * FrameHeader * Z) :=
  session_id <-* take_session;
  epoch <-* take_int 8;
  full <-* take_int 1;
  code <-* take_int 1;
  format <-* (if code =? 1 then dret Bgra8 else if code =? 2 then dret Rgba8
              else dfail InvalidData "unknown pixel format");
  x <-* take_u32;
  y <-* take_u32;
  width <-* take_u32;
  height <-* take_u32;
  stride <-* take_u32;
  data_len <-* take_u32;
  dret (session_id, mkFrameHeader epoch (negb (full =? 0)) x y width height stride format, data_len).

(** The number of bytes the pixels of a frame take. *)
Definition required (width height stride : Z) : option Z :=
  base ← checked_mul (sat_sub height 1) stride; checked_add base (width * 4).

Definition decode_frame_header (p : Packet) : result (bytes * FrameHeader * nat) io_error :=
  if negb (bool_decide (packet_type p = Frame)) then io InvalidInput "packet is not a frame" else
  r <-? take_frame (deref (payload p)) 0%nat;
  let '(session_id, h, data_len, offset) := r in
  req <-? ok_or (required (h_width h) (h_height h) (h_stride h)) (InvalidData, bs "frame dimensions overflow");
  let inline := sat_sub (zlen (deref (payload p))) (Z.of_nat offset) in
  actual <-? (if bool_decide (deref (body p) = []) then Ok inline
              else if inline =? 0 then Ok (zlen (deref (body p)))
              else io InvalidData "frame pixels are split across inline and owned payloads");
  if (h_width h =? 0) || (h_height h =? 0) || (h_stride h <? sat_mul 32 (h_width h) 4)
     || negb (data_len =? req) || negb (actual =? data_len)
  then io InvalidData "invalid frame dimensions or payload length"
  else Ok (session_id, h, offset).

Definition decode_frame_packet_owned (p : Packet) : result (bytes * RemoteFrameEvent) io_error :=
  r <-? decode_frame_header p;
  let '(session_id, h, offset) := r in
  let pixels := if bool_decide (deref (body p) = []) then skip (payload p) offset else body p in
  Ok (session_id, Bitmap (h_epoch h) (h_full h) (h_x h) (h_y h) (h_width h) (h_height h) (h_stride h) (h_format h) pixels).

(** ** Cursors *)

Record RemotePoint := mkPoint { px : Z; py : Z }.
Record CursorShape := mkShape { shape_id : Z; s_width : Z; s_height : Z; hotspot : RemotePoint; s_pixels : PixelBuffer }.

Inductive RemoteCursorEvent := Shape (s : CursorShape) | Position (x y : Z) | Visibility (visible : bool).

Definition encode_cursor_event (e : RemoteCursorEvent) : result bytes io_error :=
  match e with
  | Shape s =>
      if zlen (deref (s_pixels s)) <? 2 ^ 32
      then Ok ([1] ++ le_bytes 8 (shape_id s) ++ put_u32 (s_width s) ++ put_u32 (s_height s)
               ++ put_u32 (px (hotspot s)) ++ put_u32 (py (hotspot s)) ++ put_u32 (zlen (deref (s_pixels s)))
               ++ deref (s_pixels s))
      else io InvalidInput "cursor is too large"
  | Position x y => Ok ([2] ++ put_u32 x ++ put_u32 y)
  | Visibility v => Ok ([3] ++ [of_bool v])
  end.

Definition encode_cursor_packet (session_id : bytes) (e : RemoteCursorEvent) : result Packet io_error :=
  sess <-? put_session session_id;
  ev <-? encode_cursor_event e;
  if CURSOR_PAYLOAD_LIMIT <? zlen (sess ++ ev) then io InvalidInput "cursor exceeds limit"
  else Ok (mkPacket Cursor (from_vec (sess ++ ev)) default_pixels).

Definition take_shape : decoder (CursorShape * Z) :=
  id <-* take_int 8;
  width <-* take_u32;
  height <-* take_u32;
  x <-* take_u32;
  y <-* take_u32;
  data_len <-* take_u32;
  dret (mkShape id width height (mkPoint x y) default_pixels, data_len).

(** The three kinds of cursor events; a shape comes with the announced length of its pixels. *)
Definition take_cursor : decoder (bytes * (CursorShape * Z + RemoteCursorEvent)) :=
  session_id <-* take_session;
  kind <-* take_int 1;
  if kind =? 1 then s <-* take_shape; dret (session_id, inl s)
  else if kind =? 2 then x <-* take_u32; y <-* take_u32; dret (session_id, inr (Position x y))
  else if kind =? 3 then v <-* take_int 1; dret (session_id, inr (Visibility (negb (v =? 0))))
  else dfail InvalidData "unknown cursor event kind".

Definition cursor_bytes (s : CursorShape) : option Z :=
  n ← checked_mul (s_width s) (s_height s); checked_mul n 4.

(** [decode_cursor_payload], [decode_cursor_packet] and [decode_cursor_packet_owned]. *)
Definition decode_cursor_packet (p : Packet) : result (bytes * RemoteCursorEvent) io_error :=
  if negb (bool_decide (packet_type p = Cursor)) then io InvalidInput "packet is not a cursor" else
  r <-? take_cursor (deref (payload p)) 0%nat;
  let '(session_id, ev, offset) := r in
  match ev with
  | inl (s, data_len) =>
      expected <-? ok_or (cursor_bytes s) (InvalidData, bs "cursor dimensions overflow");
      if negb (data_len =? expected) || negb (sat_sub (zlen (deref (payload p))) (Z.of_nat offset) =? data_len)
      then io InvalidData "invalid cursor payload length"
      else Ok (session_id, Shape (mkShape (shape_id s) (s_width s) (s_height s) (hotspot s) (skip (payload p) offset)))
  | inr e =>
      if (offset =? length (deref (payload p)))%nat then Ok (session_id, e)
      else io InvalidData "trailing cursor event payload"
  end.

Lemma ok_inj {T E} (a b : T) : @Ok T E a = Ok b -> a = b.
Proof. congruence. Qed.

(** ** Integers on the wire *)

Lemma le_bytes_length n x : length (le_bytes n x) = n.
Proof. unfold le_bytes. by rewrite length_rev, be_bytes_length. Qed.
#[export] Hint Rewrite le_bytes_length : rlen.

Lemma of_le_bytes_le_bytes n x : 0 <= x < 256 ^ Z.of_nat n -> of_le_bytes (le_bytes n x) = x.
Proof. intros. unfold of_le_bytes, le_bytes. rewrite rev_involutive, of_be_bytes_be_bytes. by apply Z.mod_small. Qed.

(** ** The wire format of packets *)

(** What a reader makes of a packet: its two parts in one buffer. *)
Definition data_of (p : Packet) : bytes := deref (payload p) ++ deref (body p).
Definition merged (p : Packet) (lease : option Z) : Packet := mkPacket (packet_type p) (with_lease (data_of p) lease) default_pixels.

Lemma payload_limit_u32 t : payload_limit t < 2 ^ 32.
Proof. by destruct t. Qed.

Lemma packet_code_type t : packet_type_of (packet_code t) = Ok t.
Proof. by destruct t. Qed.

Lemma write_packet_inv p w :
  write_packet p = Ok w ->
  w = packet_code (packet_type p) :: le_bytes 4 (zlen (data_of p)) ++ data_of p /\
  zlen (data_of p) <= payload_limit (packet_type p).
Proof.
  unfold write_packet, payload_len, checked_add, data_of, zlen. rewrite length_app, Nat2Z.inj_add.
  destruct (_ <? 2 ^ 64) eqn:E1; [|done]. simpl. destruct (payload_limit _ <? _) eqn:E2; [done|].
  destruct (2 ^ 32 <=? _) eqn:E3; [done|]. intros [= <-]. bool_hyps. split; [done|lia].
Qed.

Lemma write_packet_ok p :
  zlen (data_of p) <= payload_limit (packet_type p) -> exists w, write_packet p = Ok w.
Proof.
  pose proof (payload_limit_u32 (packet_type p)). unfold write_packet, payload_len, checked_add, data_of, zlen.
  rewrite length_app, Nat2Z.inj_add. intros Hl. rewrite (proj2 (Z.ltb_lt _ _)) by lia. simpl.
  rewrite (proj2 (Z.ltb_ge _ _)) by lia. rewrite (proj2 (Z.leb_gt _ _)) by lia. eauto.
Qed.

Lemma written_length p w : write_packet p = Ok w -> length w = (HEADER_LEN + length (data_of p))%nat.
Proof. by intros [-> _]%write_packet_inv. Qed.

Lemma header_length c x d : take 4 (drop 1 (c :: le_bytes 4 x ++ d)) = le_bytes 4 x.
Proof. reflexivity. Qed.

(** The header of a written packet, wherever the bytes after it end. *)
Lemma written_header p w :
  write_packet p = Ok w ->
  let len := of_le_bytes (take 4 (drop 1 w)) in
  packet_type_of (nth 0 w 0) = Ok (packet_type p) /\ len = zlen (data_of p) /\ len <= payload_limit (packet_type p).
Proof.
  intros [-> Hl]%write_packet_inv. pose proof (payload_limit_u32 (packet_type p)). cbn zeta. rewrite header_length.
  rewrite of_le_bytes_le_bytes by (unfold zlen in *; cbn [Z.of_nat]; lia).
  split; [apply packet_code_type|done].
Qed.

Lemma packet_at_written p w rest :
  write_packet p = Ok w -> packet_at (w ++ rest) = Ok (Some (merged p None, length w)).
Proof.
  intros Hw. destruct (written_header p w Hw) as (Ht & Hlen & Hlim). pose proof (written_length p w Hw) as Hn.
  pose proof (payload_limit_u32 (packet_type p)).
  unfold packet_at. rewrite (proj2 (Nat.ltb_ge _ _)) by (rewrite length_app; lia).
  rewrite app_nth1 by (unfold HEADER_LEN in *; lia). rewrite Ht. simpl.
  rewrite drop_app_le, take_app_le by (rewrite ?length_drop; unfold HEADER_LEN in *; lia).
  rewrite Hlen in *. rewrite (proj2 (Z.ltb_ge _ _)) by lia. unfold checked_add.
  rewrite (proj2 (Z.ltb_lt _ _)) by (unfold HEADER_LEN in *; lia). simpl.
  rewrite (proj2 (Z.ltb_ge _ _)) by (unfold zlen in *; rewrite length_app; unfold HEADER_LEN in *; lia).
  replace (Z.to_nat (zlen (data_of p))) with (length (data_of p)) by (unfold zlen; lia).
  apply write_packet_inv in Hw as [-> _]. unfold HEADER_LEN, merged, from_vec in *.
  do 4 f_equal.
  - simpl. by rewrite drop_0, take_app_length.
  - rewrite Hn. unfold zlen. lia.
Qed.

Lemma packet_at_partial p w b q :
  write_packet p = Ok w -> w = b ++ q -> q <> [] -> packet_at b = Ok None.
Proof.
  intros Hw -> Hq. destruct (written_header p _ Hw) as (Ht & Hlen & Hlim). pose proof (written_length p _ Hw) as Hn.
  pose proof (payload_limit_u32 (packet_type p)). rewrite length_app in Hn.
  assert (0 < length q)%nat by (destruct q; simpl; [done|lia]).
  unfold packet_at. destruct (length b <? HEADER_LEN)%nat eqn:E; [done|]. bool_hyps. unfold HEADER_LEN in *.
  rewrite app_nth1 in Ht by lia. rewrite drop_app_le, take_app_le in Hlen, Hlim by (rewrite ?length_drop; lia).
  rewrite Ht. simpl. rewrite Hlen in *. rewrite (proj2 (Z.ltb_ge _ _)) by lia. unfold checked_add.
  rewrite (proj2 (Z.ltb_lt _ _)) by lia. simpl. rewrite (proj2 (Z.ltb_lt _ _)) by (unfold zlen in *; lia). done.
Qed.

(** *** The incremental reader *)

Definition written (p : Packet) (w : bytes) : Prop := write_packet p = Ok w.

(** The loop takes the complete packets at the front of the buffer and leaves the rest. *)
Lemma push_loop_spec ps ws : Forall2 written ps ws -> forall fuel pre b q acc,
  b ++ q = concat ws -> (length b < fuel)%nat ->
  exists n, push_loop fuel (pre ++ b) (length pre) acc
            = Ok (acc ++ ((fun p => merged p None) <$> take n ps), (length pre + length (concat (take n ws)))%nat) /\
    b = concat (take n ws) ++ drop (length (concat (take n ws))) b /\ (q = [] -> n = length ps).
Proof.
  induction 1 as [|p w ps ws Hw Hws IH]; intros fuel pre b q acc Hb Hf; (destruct fuel as [|fuel]; [lia|]); simpl;
    rewrite drop_app_length.
  - apply app_nil in Hb as [-> ->]. exists 0%nat. simpl. rewrite app_nil_r, Nat.add_0_r. done.
  - simpl in Hb. destruct (decide (length w <= length b)%nat) as [Hle|Hlt].
    + assert (Hbw : b = w ++ drop (length w) b).
      { rewrite <- (take_drop (length w) b) at 1. f_equal.
        rewrite <- (take_app_le b q) by done. rewrite Hb. by rewrite take_app_length. }
      set (b' := drop (length w) b) in *. rewrite Hbw in Hb. rewrite <- app_assoc in Hb. apply app_inv_head in Hb.
      pose proof (written_length p w Hw) as Hn. unfold HEADER_LEN in Hn.
      destruct (IH fuel (pre ++ w) b' q (acc ++ [merged p None]) Hb) as (n & Hl & Hb' & Hq).
      { rewrite Hbw, length_app in Hf. lia. }
      exists (S n). rewrite Hbw, (packet_at_written p w) by done. simpl. rewrite length_app in Hl.
      rewrite <- !app_assoc in Hl. rewrite Hl. simpl. rewrite <- app_assoc. split; [|split].
      * do 2 f_equal. rewrite length_app. lia.
      * rewrite length_app, drop_app_add. by rewrite <- Hb'.
      * intros ->. by rewrite Hq.
    + assert (Hex : exists q', w = b ++ q' /\ q' <> []).
      { exists (drop (length b) w). split.
        - rewrite <- (take_drop (length b) w) at 1. f_equal.
          rewrite <- (take_app_le w (concat ws)) by lia. rewrite <- Hb. by rewrite take_app_length.
        - intros Hd. apply (f_equal length) in Hd. rewrite length_drop in Hd. simpl in Hd. lia. }
      destruct Hex as (q' & -> & Hq'). rewrite (packet_at_partial p (b ++ q') b q' Hw eq_refl Hq').
      exists 0%nat. simpl. rewrite app_nil_r, Nat.add_0_r. split; [done|split; [done|]].
      intros ->. apply (f_equal length) in Hb. rewrite !length_app in Hb. rewrite length_app in Hlt. simpl in Hb. lia.
Qed.

Fixpoint push_all (r : PacketReader) (cs : list bytes) : result (list Packet) io_error * PacketReader :=
  match cs with
  | [] => (Ok [], r)
  | c :: cs' =>
      match push r c with
      | (Err e, r') => (Err e, r')
      | (Ok ps, r') => (rest <-? (push_all r' cs').1; Ok (ps ++ rest), (push_all r' cs').2)
      end
  end.

Lemma push_all_spec cs : forall ps ws b, Forall2 written ps ws -> b ++ concat cs = concat ws ->
  cs <> [] \/ ps = [] ->
  push_all (mkReader b) cs = (Ok ((fun p => merged p None) <$> ps), mkReader []).
Proof.
  induction cs as [|c cs IH]; intros ps ws b Hws Hb Hne; simpl.
  - destruct Hne as [| ->]; [done|]. inversion Hws; subst. rewrite app_nil_r in Hb. simpl in Hb. by subst.
  - simpl in Hb. rewrite app_assoc in Hb. unfold push. simpl.
    destruct (push_loop_spec ps ws Hws (S (length (b ++ c))) [] (b ++ c) (concat cs) [] Hb) as (n & Hl & Hbc & Hq); [lia|].
    simpl in Hl. rewrite Hl. simpl. set (k := length (concat (take n ws))) in *.
    assert (Hrest : drop k (b ++ c) ++ concat cs = concat (drop n ws)).
    { rewrite Hbc, <- app_assoc in Hb.
      assert (E : concat ws = concat (take n ws) ++ concat (drop n ws)) by (by rewrite <- concat_app, take_drop).
      rewrite E in Hb. by apply app_inv_head in Hb. }
    rewrite (IH (drop n ps) (drop n ws)); [|by apply Forall2_drop|done|].
    + simpl. by rewrite <- fmap_app, take_drop.
    + destruct cs; [|by left]. right. rewrite Hq by done. apply drop_ge. lia.
Qed.

(** *** The blocking reader *)

Definition pieces (cs : list bytes) : reader := Ok <$> cs.

Lemma fill_spec retry cs : Forall (.≠ []) cs -> forall need acc, (need <= length (concat cs))%nat ->
  exists cs', fill retry need acc (pieces cs) = Full (acc ++ take need (concat cs)) (pieces cs') /\
    concat cs' = drop need (concat cs) /\ Forall (.≠ []) cs'.
Proof.
  induction 1 as [|c cs Hc Hcs IH]; intros need acc Hn; simpl in *.
  - assert (need = 0%nat) as -> by lia. exists []. simpl. by rewrite app_nil_r.
  - destruct need as [|need]; [exists (c :: cs); rewrite app_nil_r; auto|].
    destruct c as [|b c]; [done|]. destruct (Nat.leb_spec (length (b :: c)) (S need)) as [Hle|Hgt].
    + destruct (IH (S need - length (b :: c))%nat (acc ++ b :: c)) as (cs' & Hf & Hd & Ha).
      { rewrite length_app in Hn. lia. }
      exists cs'. rewrite Hf. rewrite take_app_ge, drop_app_ge, app_assoc by done. auto.
    + exists (drop (S need) (b :: c) :: cs). rewrite take_app_le, drop_app_le by lia. repeat split.
      constructor; [|done]. intros Hd. apply (f_equal length) in Hd. rewrite length_drop in Hd. simpl in Hd, Hgt. lia.
Qed.

(** A blocking read takes exactly the next packet, however the bytes arrive, if the
    budget allows it. *)
Lemma read_packet_written cs p w rest budget :
  Forall (.≠ []) cs -> written p w -> concat cs = w ++ rest -> (forall b, budget = Some b -> limit b < 2 ^ 64) ->
  let need := if bool_decide (packet_type p = Control) then 0 else zlen (data_of p) in
  match budget with
  | Some b => if negb (bool_decide (packet_type p = Control)) && (limit b <? used b + need)
              then read_packet (pieces cs) budget = io OutOfMemory "remote desktop CPU pixel memory budget exhausted"
              else exists cs' lease b', read_packet (pieces cs) budget = Ok (Some (merged p lease, pieces cs', Some b')) /\
                     concat cs' = rest /\ Forall (.≠ []) cs' /\ used b' = used b + need /\ limit b' = limit b
  | None => exists cs', read_packet (pieces cs) budget = Ok (Some (merged p None, pieces cs', None)) /\
              concat cs' = rest /\ Forall (.≠ []) cs'
  end.
Proof.
  intros Hne Hw Hcs Hlimit. pose proof (written_length p w Hw) as Hn. destruct (written_header p w Hw) as (Ht & Hlen & Hlim).
  pose proof (payload_limit_u32 (packet_type p)).
  destruct (fill_spec false cs Hne HEADER_LEN []) as (cs1 & Hf1 & Hd1 & Ha1); [rewrite Hcs, length_app; lia|].
  simpl in Hf1. rewrite Hcs, take_app_le in Hf1 by (unfold HEADER_LEN in *; lia).
  rewrite Hcs, drop_app_le in Hd1 by (unfold HEADER_LEN in *; lia).
  destruct (fill_spec true cs1 Ha1 (length (data_of p)) []) as (cs2 & Hf2 & Hd2 & Ha2).
  { rewrite Hd1, length_app, length_drop. lia. }
  assert (Hdata : drop HEADER_LEN w = data_of p) by (by apply write_packet_inv in Hw as [-> _]).
  simpl in Hf2. rewrite Hd1, Hdata, take_app_length in Hf2. rewrite Hd1, Hdata, drop_app_length in Hd2.
  assert (Hhead : nth 0 (take HEADER_LEN w) 0 = nth 0 w 0 /\ drop 1 (take HEADER_LEN w) = take 4 (drop 1 w))
    by (by apply write_packet_inv in Hw as [-> _]).
  destruct Hhead as [Hh1 Hh2].
  assert (Hexact : read_exact (Z.to_nat (zlen (data_of p))) (pieces cs1) = Ok (data_of p, pieces cs2)).
  { unfold read_exact. replace (Z.to_nat _) with (length (data_of p)) by (unfold zlen; lia). by rewrite Hf2. }
  unfold read_packet. rewrite Hf1, Hh1, Hh2, Ht. simpl. rewrite Hlen. rewrite (proj2 (Z.ltb_ge _ _)) by lia.
  destruct budget as [b|].
  - specialize (Hlimit b eq_refl). case_bool_decide as Hc; simpl.
    + rewrite Hexact. simpl. exists cs2, None, b. rewrite Z.add_0_r. unfold merged. auto.
    + rewrite reserve_spec by done. rewrite Z.ltb_antisym.
      destruct (used b + zlen (data_of p) <=? limit b) eqn:E; simpl; [|done]. rewrite Hexact. simpl.
      by eexists cs2, _, _.
  - simpl. rewrite Hexact. by exists cs2.
Qed.

(** Reading packets until the end of the input, at most [n] of them. *)
Fixpoint read_packets (n : nat) (r : reader) : option (result (list Packet) io_error) :=
  match n with
  | O => None
  | S n' =>
      match read_packet r None with
      | Err e => Some (Err e)
      | Ok None => Some (Ok [])
      | Ok (Some (p, r', _)) => ps ← read_packets n' r'; Some (l <-? ps; Ok (p :: l))
      end
  end.

Lemma read_packets_spec ps ws : Forall2 written ps ws -> forall cs, Forall (.≠ []) cs -> concat cs = concat ws ->
  read_packets (S (length ps)) (pieces cs) = Some (Ok ((fun p => merged p None) <$> ps)).
Proof.
  induction 1 as [|p w ps ws Hw Hws IH]; intros cs Hne Hcs.
  - destruct cs as [|c cs]; [done|]. inversion Hne; subst. simpl in Hcs. by apply app_nil in Hcs as [-> _].
  - destruct (read_packet_written cs p w (concat ws) None Hne Hw Hcs) as (cs' & Hr & Hc & Ha); [done|].
    specialize (IH cs' Ha Hc). cbn [length] in *. remember (S (length ps)) as k. cbn [read_packets]. by rewrite Hr, IH.
Qed.

(** A stream of packets written one after the other is read back as exactly these
    packets, in order and with nothing left over, by both readers and however the bytes
    are cut into pieces: by the incremental reader fed piece by piece, and by repeated
    blocking reads, which end at the end of the input. The two parts of a packet arrive
    as one payload. *)
Theorem packet_stream_roundtrip (ps : list Packet) (ws cs : list bytes) :
  Forall2 written ps ws -> Forall (.≠ []) cs -> concat cs = concat ws ->
  push_all (mkReader []) cs = (Ok ((fun p => merged p None) <$> ps), mkReader []) /\
  read_packets (S (length ps)) (pieces cs) = Some (Ok ((fun p => merged p None) <$> ps)).
Proof.
  intros Hws Hne Hcs. split; [|by eapply read_packets_spec].
  apply (push_all_spec cs ps ws []); [done|done|]. destruct Hws as [|p w ps ws Hw Hws]; [by right|left].
  intros ->. apply written_length in Hw. simpl in Hcs. symmetry in Hcs. by apply app_nil in Hcs as [-> _].
Qed.

(** ** Fields *)

(** [d] reads the bytes [enc] as [a], wherever they stand in a payload. *)
Definition reads {A} (d : decoder A) (enc : bytes) (a : A) : Prop := forall pre post,
  zlen (pre ++ enc ++ post) < 2 ^ 64 -> d (pre ++ enc ++ post) (length pre) = Ok (a, (length pre + length enc)%nat).

Lemma reads_ret {A} (a : A) : reads (dret a) [] a.
Proof. intros pre post _. unfold dret. by rewrite Nat.add_0_r. Qed.

Lemma reads_bind {A B} (d : decoder A) (k : A -> decoder B) e1 e2 a b :
  reads d e1 a -> reads (k a) e2 b -> reads (dbind d k) (e1 ++ e2) b.
Proof.
  intros H1 H2 pre post Hz. unfold dbind. specialize (H1 pre (e2 ++ post)). specialize (H2 (pre ++ e1) post).
  rewrite <- !app_assoc in *. rewrite H1 by done. simpl. rewrite length_app in H2. rewrite H2 by done.
  rewrite length_app. do 2 f_equal. lia.
Qed.

Lemma reads_map {A B} (d : decoder A) (f : A -> B) e a : reads d e a -> reads (x <-* d; dret (f x)) e (f a).
Proof. intros H. rewrite <- (app_nil_r e). eapply reads_bind; [done|apply reads_ret]. Qed.

Lemma slice_from_app pre s post : slice_from (pre ++ s ++ post) (length pre) (length s) = Some s.
Proof.
  unfold slice_from. rewrite (proj2 (Nat.leb_le _ _)) by (rewrite !length_app; lia).
  by rewrite drop_app_length, take_app_length.
Qed.

Lemma reads_take_n s : reads (take_n (length s)) s s.
Proof.
  intros pre post Hz. unfold take_n, checked_add. rewrite (proj2 (Z.ltb_lt _ _)).
  - simpl. by rewrite slice_from_app.
  - unfold zlen in Hz. rewrite !length_app in Hz. lia.
Qed.

Lemma reads_int n x : 0 <= x < 256 ^ Z.of_nat n -> reads (take_int n) (le_bytes n x) x.
Proof.
  intros Hx. pose proof (reads_map _ of_le_bytes _ _ (reads_take_n (le_bytes n x))) as H.
  rewrite le_bytes_length, of_le_bytes_le_bytes in H by done. exact H.
Qed.

Lemma reads_byte x : byte_ok x -> reads (take_int 1) [x] x.
Proof. intros Hx. pose proof (reads_map _ of_le_bytes _ _ (reads_take_n [x])) as H. exact H. Qed.

Lemma reads_session s e :
  put_session s = Ok e -> utf8_valid s = true -> reads take_session e s.
Proof.
  unfold put_session. destruct (zlen s <? 2 ^ 16) eqn:E; [|done]. intros <-%ok_inj Hu. bool_hyps.
  eapply reads_bind; [apply reads_int; unfold zlen in *; cbn [Z.of_nat]; lia|].
  intros pre post Hz. unfold checked_add. rewrite (proj2 (Z.ltb_lt _ _)).
  - simpl. replace (Z.to_nat (zlen s)) with (length s) by (unfold zlen; lia). rewrite slice_from_app. simpl. by rewrite Hu.
  - unfold zlen in *. rewrite !length_app in Hz. lia.
Qed.

Lemma put_session_length s e : put_session s = Ok e -> zlen s < 2 ^ 16 /\ zlen e = 2 + zlen s.
Proof.
  unfold put_session. destruct (zlen s <? 2 ^ 16) eqn:E; [|done]. intros <-%ok_inj. bool_hyps. split; [done|].
  unfold zlen. rewrite length_app, le_bytes_length. lia.
Qed.

Create HintDb wire discriminated.
#[export] Hint Resolve reads_bind reads_ret reads_int reads_byte reads_session : wire.

(** ** Frames *)

(** The widths of the fields, and what makes a frame acceptable to the other side. *)
Definition frame_fields (f : RemoteFrameEvent) : Prop :=
  match f with
  | Reset e w h => urange 64 e /\ urange 32 w /\ urange 32 h
  | Bitmap e _ x y w h s _ _ => urange 64 e /\ urange 32 x /\ urange 32 y /\ urange 32 w /\ urange 32 h /\ urange 32 s
  end.

Definition frame_valid (f : RemoteFrameEvent) : bool :=
  match f with
  | Reset _ _ _ => false
  | Bitmap _ _ _ _ w h s _ pixels =>
      (0 <? w) && (0 <? h) && (Z.min (w * 4) (2 ^ 32 - 1) <=? s) && (zlen (deref pixels) =? (h - 1) * s + w * 4)
  end.

(** Frames are compared as the code compares them: pixels by their bytes. *)
#[export] Instance frame_equiv : Equiv RemoteFrameEvent := fun f g =>
  match f, g with
  | Bitmap e1 b1 x1 y1 w1 h1 s1 f1 p1, Bitmap e2 b2 x2 y2 w2 h2 s2 f2 p2 =>
      (e1, b1, x1, y1, w1, h1, s1, f1) = (e2, b2, x2, y2, w2, h2, s2, f2) /\ p1 ≡ p2
  | Reset e1 w1 h1, Reset e2 w2 h2 => (e1, w1, h1) = (e2, w2, h2)
  | _, _ => False
  end.

(** Read the next field of a decoder. *)
Ltac read_field :=
  eapply reads_bind;
    [first [solve [eauto with wire] | apply reads_int; cbn [Z.of_nat]; lia
           | apply reads_byte; unfold byte_ok, of_bool, format_code; repeat split_match; lia]|].

Lemma frame_header_reads s epoch full x y w h st fmt pixels head :
  frame_fields (Bitmap epoch full x y w h st fmt pixels) -> utf8_valid s = true ->
  frame_header s epoch full x y w h st fmt pixels = Ok head ->
  reads take_frame head (s, mkFrameHeader epoch full x y w h st fmt, zlen (deref pixels)).
Proof.
  intros (He & Hx & Hy & Hw & Hh & Hs) Hu. unfold frame_header.
  destruct (put_session s) as [sess|] eqn:Es; [|done]. cbn [rbind]. destruct (_ <? 2 ^ 32) eqn:E; [|done]. intros <-%ok_inj.
  bool_hyps. unfold urange in *. rewrite <- !app_assoc. unfold take_frame, take_u32, put_u32.
  assert (Hlen : 0 <= zlen (deref pixels)) by (unfold zlen; lia).
  do 4 read_field. match goal with |- reads _ ?e _ => eapply (reads_bind _ _ [] e fmt) end; [destruct fmt; apply reads_ret|]. do 5 read_field.
  replace (negb (of_bool full =? 0)) with full by (by destruct full).
  refine (reads_map _ (fun n => (s, mkFrameHeader epoch full x y w h st fmt, n)) _ _ _). apply reads_int. cbn [Z.of_nat]. lia.
Qed.

Lemma frame_header_length s epoch full x y w h st fmt pixels head :
  frame_header s epoch full x y w h st fmt pixels = Ok head -> zlen head = 36 + zlen s.
Proof.
  unfold frame_header. destruct (put_session s) as [sess|] eqn:Es; [|done]. cbn [rbind].
  destruct (_ <? 2 ^ 32); [|done]. intros <-%ok_inj. apply put_session_length in Es as [_ Es].
  unfold put_u32, zlen in *. rewrite !length_app, !le_bytes_length. simpl. lia.
Qed.

(** The packets of both encoders carry the header followed by the pixels. *)
Lemma encode_frame_inv s f p :
  encode_frame_packet s f = Ok p \/ encode_frame_packet_owned s f = Ok p ->
  exists epoch full x y w h st fmt pixels head, f = Bitmap epoch full x y w h st fmt pixels /\
    frame_header s epoch full x y w h st fmt pixels = Ok head /\ packet_type p = Frame /\
    data_of p = head ++ deref pixels /\ zlen (data_of p) <= FRAME_PAYLOAD_LIMIT.
Proof.
  destruct f as [|epoch full x y w h st fmt pixels]; [by intros [|]|]. unfold encode_frame_packet, encode_frame_packet_owned.
  intros Hp. exists epoch, full, x, y, w, h, st, fmt, pixels.
  destruct (frame_header s epoch full x y w h st fmt pixels) as [head|] eqn:Eh; [|by destruct Hp]. cbn [rbind] in Hp.
  exists head. destruct Hp as [Hp|Hp].
  - destruct (_ <? _) eqn:E; [done|]. apply ok_inj in Hp as <-. bool_hyps. unfold data_of. simpl.
    rewrite deref_from_vec. change (deref default_pixels) with (@nil Z). rewrite app_nil_r. auto.
  - destruct (_ <? _) eqn:E; [done|]. apply ok_inj in Hp as <-. bool_hyps. unfold data_of. simpl.
    rewrite deref_from_vec. unfold sat_add, FRAME_PAYLOAD_LIMIT, zlen in *. rewrite length_app. repeat split. lia.
Qed.

Lemma required_valid w h st : 0 < h -> (h - 1) * st + w * 4 < 2 ^ 32 -> 0 <= w -> 0 <= st ->
  required w h st = Some ((h - 1) * st + w * 4).
Proof.
  intros Hh Hb Hw Hs. unfold required, checked_mul, checked_add, sat_sub. rewrite Z.max_l by lia.
  rewrite (proj2 (Z.ltb_lt _ _)) by lia. simpl. by rewrite (proj2 (Z.ltb_lt _ _)) by lia.
Qed.

Lemma required_inv w h st r : 0 < h -> required w h st = Some r -> r = (h - 1) * st + w * 4.
Proof.
  intros Hh. unfold required, checked_mul, checked_add, sat_sub. rewrite Z.max_l by lia.
  destruct (_ <? _); [|done]. simpl. destruct (_ <? _); [|done]. congruence.
Qed.

Lemma decode_frame_merged s f p lease :
  encode_frame_packet s f = Ok p \/ encode_frame_packet_owned s f = Ok p -> frame_fields f -> utf8_valid s = true ->
  if frame_valid f then exists f', decode_frame_packet_owned (merged p lease) = Ok (s, f') /\ f' ≡ f
  else exists m, decode_frame_packet_owned (merged p lease) = Err (InvalidData, m).
Proof.
  intros (epoch & full & x & y & w & h & st & fmt & pixels & head & -> & Hh & Ht & Hd & Hl)%encode_frame_inv Hf Hu.
  pose proof (frame_header_reads _ _ _ _ _ _ _ _ _ _ _ Hf Hu Hh [] (deref pixels)) as Hr.
  destruct Hf as (He & Hx & Hy & Hw & Hht & Hst). unfold urange in *.
  simpl in Hr. rewrite <- Hd in Hr. specialize (Hr ltac:(unfold FRAME_PAYLOAD_LIMIT in Hl; lia)).
  unfold decode_frame_packet_owned, decode_frame_header, merged. simpl. rewrite Ht, deref_with_lease, Hr. simpl.
  change (deref default_pixels) with (@nil Z). simpl.
  assert (Hinl : sat_sub (zlen (data_of p)) (Z.of_nat (length head)) = zlen (deref pixels)).
  { unfold sat_sub, zlen. rewrite Hd, length_app. lia. }
  rewrite Hinl. destruct (_ && _) eqn:V.
  - bool_hyps. rewrite required_valid by (unfold FRAME_PAYLOAD_LIMIT, zlen in *; rewrite Hd, length_app in Hl; lia). simpl.
    unfold sat_mul. replace (w =? 0) with false by (symmetry; apply Z.eqb_neq; lia).
    replace (h =? 0) with false by (symmetry; apply Z.eqb_neq; lia). rewrite (proj2 (Z.ltb_ge st _)) by lia.
    rewrite (proj2 (Z.eqb_eq _ _)), Z.eqb_refl by done. simpl. eexists. split; [done|]. split; [done|].
    unfold equiv, pixels_equiv. rewrite deref_skip, deref_with_lease, Hd. by rewrite drop_app_length.
  - destruct (required w h st) as [req|] eqn:Er; [|simpl; eauto]. simpl.
    destruct (_ || _) eqn:G; [eauto|]. exfalso. repeat (apply orb_false_iff in G as [G ?]). bool_hyps. unfold sat_mul in *.
    apply required_inv in Er; [|lia]. rewrite (proj2 (Z.ltb_lt 0 w)), (proj2 (Z.ltb_lt 0 h)) in V by lia.
    rewrite (proj2 (Z.leb_le _ st)), (proj2 (Z.eqb_eq _ _)) in V by lia. done.
Qed.

(** C37: A frame packet of either encoder, written to the pipe and read back whatever the
    pieces it arrives in, decodes to the same session and an equal frame when the frame
    is valid (positive size, a stride of at least a row, exactly the pixels its size asks
    for), and is rejected as invalid data otherwise. *)
Theorem frame_wire_roundtrip (s : bytes) (f : RemoteFrameEvent) (p : Packet) :
  encode_frame_packet s f = Ok p \/ encode_frame_packet_owned s f = Ok p -> frame_fields f -> utf8_valid s = true ->
  exists w, write_packet p = Ok w /\
    forall cs rest, Forall (.≠ []) cs -> concat cs = w ++ rest ->
    exists q cs', read_packet (pieces cs) None = Ok (Some (q, pieces cs', None)) /\ concat cs' = rest /\
      if frame_valid f then exists f', decode_frame_packet_owned q = Ok (s, f') /\ f' ≡ f
      else exists m, decode_frame_packet_owned q = Err (InvalidData, m).
Proof.
  intros He Hf Hu. pose proof (encode_frame_inv _ _ _ He) as (? & ? & ? & ? & ? & ? & ? & ? & ? & ? & _ & _ & Ht & _ & Hl).
  destruct (write_packet_ok p) as [w Hw]; [by rewrite Ht|]. exists w. split; [done|]. intros cs rest Hne Hcs.
  destruct (read_packet_written cs p w rest None Hne Hw Hcs) as (cs' & Hr & Hc & _); [done|].
  exists (merged p None), cs'. split; [done|split; [done|]]. by apply decode_frame_merged.
Qed.

(** ** Cursors *)

Definition cursor_fields (e : RemoteCursorEvent) : Prop :=
  match e with
  | Shape s => urange 64 (shape_id s) /\ urange 32 (s_width s) /\ urange 32 (s_height s)
               /\ urange 32 (px (hotspot s)) /\ urange 32 (py (hotspot s))
  | Position x y => urange 32 x /\ urange 32 y
  | Visibility _ => True
  end.

Definition cursor_valid (e : RemoteCursorEvent) : bool :=
  match e with
  | Shape s => zlen (deref (s_pixels s)) =? s_width s * s_height s * 4
  | _ => true
  end.

#[export] Instance cursor_equiv : Equiv RemoteCursorEvent := fun a b =>
  match a, b with
  | Shape s, Shape t => (shape_id s, s_width s, s_height s, hotspot s) = (shape_id t, s_width t, s_height t, hotspot t)
                        /\ s_pixels s ≡ s_pixels t
  | Position x y, Position x' y' => (x, y) = (x', y')
  | Visibility v, Visibility v' => v = v'
  | _, _ => False
  end.

(** The bytes of an event before the pixels of a shape, and what is read from them. *)
Definition cursor_head (e : RemoteCursorEvent) : bytes :=
  match e with
  | Shape s => [1] ++ le_bytes 8 (shape_id s) ++ le_bytes 4 (s_width s) ++ le_bytes 4 (s_height s)
               ++ le_bytes 4 (px (hotspot s)) ++ le_bytes 4 (py (hotspot s)) ++ le_bytes 4 (zlen (deref (s_pixels s)))
  | Position x y => [2] ++ le_bytes 4 x ++ le_bytes 4 y
  | Visibility v => [3] ++ [of_bool v]
  end.

Definition cursor_tail (e : RemoteCursorEvent) : bytes := match e with Shape s => deref (s_pixels s) | _ => [] end.

Definition cursor_read (e : RemoteCursorEvent) : CursorShape * Z + RemoteCursorEvent :=
  match e with
  | Shape s => inl (mkShape (shape_id s) (s_width s) (s_height s) (hotspot s) default_pixels, zlen (deref (s_pixels s)))
  | _ => inr e
  end.

Lemma encode_cursor_inv s e p :
  encode_cursor_packet s e = Ok p ->
  exists sess, put_session s = Ok sess /\ packet_type p = Cursor /\ data_of p = (sess ++ cursor_head e) ++ cursor_tail e /\
    zlen (data_of p) <= CURSOR_PAYLOAD_LIMIT.
Proof.
  unfold encode_cursor_packet. destruct (put_session s) as [sess|] eqn:Es; [|done]. cbn [rbind].
  destruct (encode_cursor_event e) as [ev|] eqn:Ee; [|done]. cbn [rbind]. destruct (_ <? _) eqn:E; [done|].
  intros <-%ok_inj. bool_hyps. exists sess. unfold data_of. cbn [payload body packet_type].
  rewrite deref_from_vec. change (deref default_pixels) with (@nil Z). rewrite app_nil_r.
  assert (Hev : ev = cursor_head e ++ cursor_tail e).
  { destruct e as [sh|x y|v]; unfold encode_cursor_event, put_u32 in Ee; cbn [cursor_head cursor_tail].
    - destruct (_ <? 2 ^ 32); [|done]. apply ok_inj in Ee as <-. by rewrite <- !app_assoc.
    - apply ok_inj in Ee as <-. by rewrite app_nil_r.
    - apply ok_inj in Ee as <-. by rewrite app_nil_r. }
  rewrite <- app_assoc, <- Hev. done.
Qed.

Lemma cursor_reads s e sess :
  cursor_fields e -> utf8_valid s = true -> put_session s = Ok sess -> zlen (cursor_tail e) < 2 ^ 32 ->
  reads take_cursor (sess ++ cursor_head e) (s, cursor_read e).
Proof.
  intros Hf Hu Hs Ht. assert (Hz : 0 <= zlen (cursor_tail e)) by (unfold zlen; lia). unfold take_cursor, take_u32.
  read_field. destruct e as [[id w h [hx hy] pix]|x y|v]; cbn in Hf, Ht, Hz; cbn [cursor_head cursor_read shape_id s_width s_height hotspot px py s_pixels];
    unfold urange in *; read_field; cbn [Z.eqb Pos.eqb].
  - rewrite <- (app_nil_r (le_bytes 8 _ ++ _)). eapply reads_bind; [|apply reads_ret]. unfold take_shape, take_u32.
    do 5 read_field.
    refine (reads_map _ (fun n => (mkShape id w h (mkPoint hx hy) default_pixels, n)) _ _ _).
    apply reads_int. cbn [Z.of_nat]. lia.
  - read_field. refine (reads_map _ (fun n => (s, inr (Position x n))) _ _ _). apply reads_int. cbn [Z.of_nat]. lia.
  - replace v with (negb (of_bool v =? 0)) at 2 by (by destruct v).
    refine (reads_map _ (fun n => (s, inr (Visibility (negb (n =? 0))))) _ _ _). apply reads_byte. by destruct v.
Qed.

Lemma cursor_bytes_inv s n : cursor_bytes s = Some n -> n = s_width s * s_height s * 4.
Proof.
  unfold cursor_bytes, checked_mul. destruct (_ <? _); [|done]. simpl. destruct (_ <? _); [|done]. congruence.
Qed.

Lemma decode_cursor_merged s e p lease :
  encode_cursor_packet s e = Ok p -> cursor_fields e -> utf8_valid s = true ->
  if cursor_valid e then exists e', decode_cursor_packet (merged p lease) = Ok (s, e') /\ e' ≡ e
  else exists m, decode_cursor_packet (merged p lease) = Err (InvalidData, m).
Proof.
  intros (sess & Hs & Ht & Hd & Hl)%encode_cursor_inv Hf Hu. unfold CURSOR_PAYLOAD_LIMIT in Hl.
  assert (Htail : zlen (cursor_tail e) < 2 ^ 32) by (unfold zlen in *; rewrite Hd, length_app in Hl; lia).
  pose proof (cursor_reads _ _ _ Hf Hu Hs Htail [] (cursor_tail e)) as Hr. simpl in Hr. rewrite <- Hd in Hr.
  specialize (Hr ltac:(lia)). set (head := sess ++ cursor_head e) in *.
  unfold decode_cursor_packet, merged. cbn [packet_type payload]. rewrite Ht, deref_with_lease, Hr. cbn [rbind fst snd negb].
  rewrite bool_decide_true by done. cbn [negb].
  assert (Hrest : sat_sub (zlen (data_of p)) (Z.of_nat (length head)) = zlen (cursor_tail e)).
  { unfold sat_sub, zlen. rewrite Hd, length_app. lia. }
  destruct e as [sh|x y|v]; cbn [cursor_read cursor_valid cursor_fields cursor_tail] in *.
  2,3: rewrite (proj2 (Nat.eqb_eq _ _)) by (rewrite Hd, length_app; simpl; lia); by eexists.
  rewrite Hrest, Z.eqb_refl. unfold urange in *. destruct (_ =? s_width sh * _ * 4) eqn:V; bool_hyps.
  - unfold cursor_bytes, checked_mul. cbn [s_width s_height]. rewrite (proj2 (Z.ltb_lt _ _)) by lia. cbn [mbind option_bind].
    rewrite (proj2 (Z.ltb_lt _ _)) by lia. cbn [ok_or rbind]. rewrite <- V, Z.eqb_refl. eexists. split; [done|].
    split; [done|]. unfold equiv, pixels_equiv. cbn [s_pixels]. rewrite deref_skip, deref_with_lease, Hd.
    by rewrite drop_app_length.
  - destruct (cursor_bytes _) as [n|] eqn:En; [|simpl; eauto]. apply cursor_bytes_inv in En. cbn [s_width s_height] in En.
    cbn [ok_or rbind]. rewrite (proj2 (Z.eqb_neq _ n)) by lia. simpl. eauto.
Qed.

(** A cursor packet, written to the pipe and read back whatever the pieces it arrives
    in, decodes to the same session and an equal cursor event; a shape is rejected as
    invalid data exactly when its pixels are not four bytes for each point. *)
Theorem cursor_wire_roundtrip (s : bytes) (e : RemoteCursorEvent) (p : Packet) :
  encode_cursor_packet s e = Ok p -> cursor_fields e -> utf8_valid s = true ->
  exists w, write_packet p = Ok w /\
    forall cs rest, Forall (.≠ []) cs -> concat cs = w ++ rest ->
    exists q cs', read_packet (pieces cs) None = Ok (Some (q, pieces cs', None)) /\ concat cs' = rest /\
      if cursor_valid e then exists e', decode_cursor_packet q = Ok (s, e') /\ e' ≡ e
      else exists m, decode_cursor_packet q = Err (InvalidData, m).
Proof.
  intros He Hf Hu. pose proof (encode_cursor_inv _ _ _ He) as (? & _ & Ht & _ & Hl).
  destruct (write_packet_ok p) as [w Hw]; [by rewrite Ht|]. exists w. split; [done|]. intros cs rest Hne Hcs.
  destruct (read_packet_written cs p w rest None Hne Hw Hcs) as (cs' & Hr & Hc & _); [done|].
  exists (merged p None), cs'. split; [done|split; [done|]]. by apply decode_cursor_merged.
Qed.

(** ** Control messages *)

Lemma control_roundtrip `{JsonLaws M} (proto : protocol) (m : M) (p : Packet) (lease : option Z) :
  encode_control proto m = Ok p -> decode_control proto (merged p lease) = Ok m.
Proof.
  unfold encode_control. destruct (to_vec m) as [v|] eqn:Ev; [|done]. simpl. destruct (_ <? _); [done|].
  intros <-%ok_inj. unfold decode_control, merged, data_of. simpl. rewrite deref_with_lease, app_nil_r.
  change (deref (from_vec v)) with v. by rewrite (json_roundtrip m v).
Qed.

(** ** Witnesses *)

Definition ex_frame : RemoteFrameEvent := Bitmap 7 true 1 2 2 1 8 Rgba8 (skip (from_vec [9; 1; 2; 3; 4; 5; 6; 7; 8]) 1).
Definition ex_shape : RemoteCursorEvent := Shape (mkShape 3 1 1 (mkPoint 0 0) (from_vec [1; 2; 3; 4])).

Lemma frame_wire_roundtrip_witness :
  exists p, encode_frame_packet_owned (bs "s1") ex_frame = Ok p /\ frame_valid ex_frame = true /\
  exists w, write_packet p = Ok w /\
    forall cs rest, Forall (.≠ []) cs -> concat cs = w ++ rest ->
    exists q cs', read_packet (pieces cs) None = Ok (Some (q, pieces cs', None)) /\ concat cs' = rest /\
      if frame_valid ex_frame then exists f', decode_frame_packet_owned q = Ok (bs "s1", f') /\ f' ≡ ex_frame
      else exists m, decode_frame_packet_owned q = Err (InvalidData, m).
Proof.
  eexists. split; [vm_compute; reflexivity|]. split; [reflexivity|].
  apply (frame_wire_roundtrip (bs "s1") ex_frame).
  - right. vm_compute. reflexivity.
  - vm_compute. repeat split; congruence.
  - reflexivity.
Defined.

Lemma cursor_wire_roundtrip_witness :
  exists p, encode_cursor_packet (bs "s1") ex_shape = Ok p /\ cursor_valid ex_shape = true /\
  exists w, write_packet p = Ok w /\
    forall cs rest, Forall (.≠ []) cs -> concat cs = w ++ rest ->
    exists q cs', read_packet (pieces cs) None = Ok (Some (q, pieces cs', None)) /\ concat cs' = rest /\
      if cursor_valid ex_shape then exists e', decode_cursor_packet q = Ok (bs "s1", e') /\ e' ≡ ex_shape
      else exists m, decode_cursor_packet q = Err (InvalidData, m).
Proof.
  eexists. split; [vm_compute; reflexivity|]. split; [reflexivity|].
  apply (cursor_wire_roundtrip (bs "s1") ex_shape).
  - vm_compute. reflexivity.
  - vm_compute. repeat split; congruence.
  - reflexivity.
Defined.

Definition ex_packet : Packet := mkPacket Control (from_vec (bs "{}")) (from_vec [7]).
Definition ex_written : bytes := [1; 3; 0; 0; 0; 123; 125; 7].

Lemma packet_stream_roundtrip_witness :
  Forall2 written [ex_packet; ex_packet] [ex_written; ex_written] /\
  push_all (mkReader []) [take 3 ex_written; drop 3 ex_written ++ take 6 ex_written; drop 6 ex_written]
    = (Ok ((fun p => merged p None) <$> [ex_packet; ex_packet]), mkReader []) /\
  read_packets 3 (pieces [take 3 ex_written; drop 3 ex_written ++ take 6 ex_written; drop 6 ex_written])
    = Some (Ok ((fun p => merged p None) <$> [ex_packet; ex_packet])).
Proof.
  split; [repeat constructor|].
  apply (packet_stream_roundtrip [ex_packet; ex_packet] [ex_written; ex_written]).
  - repeat constructor.
  - repeat constructor; discriminate.
  - reflexivity.
Defined.

(** The header loop does not retry a read that was interrupted, which [read_exact] does. *)
Example interrupted_header_fails :
  read_packet (Err (Interrupted, []) :: pieces [ex_written]) None = Err (Interrupted, []) /\
  read_exact 8 (Err (Interrupted, []) :: pieces [ex_written]) = Ok (ex_written, []).
Proof. split; reflexivity. Qed.
