(* ===== verification/Framebuffer.v ===== *)
(** * The framebuffer of a remote desktop

    [nyaterm-remote-desktop/src/frame.rs]: the bounds checked before a framebuffer is
    allocated, the copying of bitmaps into it, and the merging of dirty rectangles before
    they are drawn. The theorems show that no bitmap makes the copy panic, that an
    accepted one changes exactly the points of its rectangle, and that merged rectangles
    cover what they replace without touching one another. *)

From S2P Require Import Prelude PixelMemory HelperIpc.
From stdpp Require Import base numbers option list.
From Stdlib Require Import ZArith Lia.

Local Open Scope Z_scope.
Local Open Scope rust_scope.

(** ** Limits *)

Record FramebufferLimits := mkLimits { max_width : Z; max_height : Z; max_bytes : Z }.

Definition RDP_FRAMEBUFFER_LIMITS : FramebufferLimits := mkLimits 8192 8192 (256 * 1024 * 1024).
Definition VNC_FRAMEBUFFER_LIMITS : FramebufferLimits := mkLimits 7680 4320 (128 * 1024 * 1024).

Inductive FramebufferError :=
| StaleEpoch (expected actual : Z)
| OutOfBounds
| InvalidPayload
| SizeOverflow
| DimensionsTooLarge (width height : Z)
| AllocationFailed (n : Z).

Definition validate_framebuffer_dimensions (width height : Z) (limits : FramebufferLimits) : result Z FramebufferError :=
  if (width =? 0) || (height =? 0) || (max_width limits <? width) || (max_height limits <? height)
  then Err (DimensionsTooLarge width height) else
  len <-? ok_or (pixels ← checked_mul width height; checked_mul pixels 4) SizeOverflow;
  if max_bytes limits <? len then Err (DimensionsTooLarge width height) else Ok len.

(** ** The framebuffer *)

Record Framebuffer := mkFramebuffer { fb_width : Z; fb_height : Z; fb_epoch : Z; bgra : bytes; fb_lease : Z }.

(** [Framebuffer::new] against the shared budget; [alloc_ok] tells whether the allocator
    has the memory. A lease that is not used is dropped again. *)
Definition new_framebuffer (budget : PixelBudget) (alloc_ok : bool) (epoch width height : Z) (limits : FramebufferLimits) :
    result Framebuffer FramebufferError * PixelBudget :=
  match validate_framebuffer_dimensions width height limits with
  | Err e => (Err e, budget)
  | Ok len =>
      match reserve budget len with
      | None => (Err (AllocationFailed len), budget)
      | Some budget' =>
          if alloc_ok then (Ok (mkFramebuffer width height epoch (replicate (Z.to_nat len) 0) len), budget')
          else (Err (AllocationFailed len), drop_lease budget' len)
      end
  end.

(** [reset]: the old framebuffer and its lease are dropped once the new one exists. *)
Definition reset (fb : Framebuffer) (budget : PixelBudget) (alloc_ok : bool) (epoch width height : Z)
    (limits : FramebufferLimits) : result unit FramebufferError * Framebuffer * PixelBudget :=
  match new_framebuffer budget alloc_ok epoch width height limits with
  | (Ok fb', budget') => (Ok (), fb', drop_lease budget' (fb_lease fb))
  | (Err e, budget') => (Err e, fb, budget')
  end.

(** ** Bitmaps *)

(** [checked_add] of [u32]. *)
Definition checked_add32 (x y : Z) : option Z := if x + y <? 2 ^ 32 then Some (x + y) else None.

(** A range check [end.is_none_or(|end| end > bound)]. *)
Definition beyond (x len bound : Z) : bool := match checked_add32 x len with None => true | Some e => bound <? e end.

(** [&source[start..start + n]]. *)
Definition slice_at (source : bytes) (start n : nat) : outcome bytes :=
  if (start + n <=? length source)%nat then Ret (take n (drop start source)) else Panic.

(** [dest[start..start + n].copy_from_slice(source)] with [n] the length of [source]. *)
Definition copy_at (dest : bytes) (start : nat) (source : bytes) : outcome bytes :=
  if (start + length source <=? length dest)%nat
  then Ret (take start dest ++ source ++ drop (start + length source) dest) else Panic.

(** The pixels of an RGBA row in BGRA order, by chunks of four bytes. *)
Fixpoint swap_channels (source : bytes) : bytes :=
  match source with
  | r :: g :: b :: a :: rest => b :: g :: r :: a :: swap_channels rest
  | _ => []
  end.

Definition convert (format : PixelFormat) (source : bytes) : bytes :=
  match format with Bgra8 => source | Rgba8 => swap_channels source end.

(** The loop over the rows of a bitmap, from [row] on. *)
Fixpoint copy_rows (n row : nat) (dest pixels : bytes) (format : PixelFormat)
    (x y row_bytes source_stride destination_stride : nat) : outcome bytes :=
  match n with
  | O => Ret dest
  | S n' =>
      source <-! slice_at pixels (row * source_stride) row_bytes;
      dest' <-! copy_at dest ((y + row) * destination_stride + x * 4) (convert format source);
      copy_rows n' (S row) dest' pixels format x y row_bytes source_stride destination_stride
  end.

Record DirtyRect := mkRect { r_x : Z; r_y : Z; r_width : Z; r_height : Z }.

Definition apply (fb : Framebuffer) (frame : RemoteFrameEvent) :
    outcome (result (option DirtyRect) FramebufferError * Framebuffer) :=
  match frame with
  | Reset _ _ _ => Ret (Ok None, fb)
  | Bitmap epoch _ x y width height stride format pixels =>
      if negb (epoch =? fb_epoch fb) then Ret (Err (StaleEpoch (fb_epoch fb) epoch), fb) else
      if (width =? 0) || (height =? 0) || beyond x width (fb_width fb) || beyond y height (fb_height fb)
      then Ret (Err OutOfBounds, fb) else
      match checked_mul width 4 with
      | None => Ret (Err InvalidPayload, fb)
      | Some row_bytes =>
          if stride <? row_bytes then Ret (Err InvalidPayload, fb) else
          match base ← checked_mul (height - 1) stride; checked_add base row_bytes with
          | None => Ret (Err InvalidPayload, fb)
          | Some req =>
              if negb (zlen (deref pixels) =? req) then Ret (Err InvalidPayload, fb) else
              let destination_stride := fb_width fb * 4 in
              dest <-! (if match format with Bgra8 => true | Rgba8 => false end
                           && (stride =? destination_stride) && (row_bytes =? destination_stride)
                        then copy_at (bgra fb) (Z.to_nat (y * destination_stride)) (take (Z.to_nat req) (deref pixels))
                        else copy_rows (Z.to_nat height) 0 (bgra fb) (deref pixels) format (Z.to_nat x) (Z.to_nat y)
                               (Z.to_nat row_bytes) (Z.to_nat stride) (Z.to_nat destination_stride));
              Ret (Ok (Some (mkRect x y width height)),
                   mkFramebuffer (fb_width fb) (fb_height fb) (fb_epoch fb) dest (fb_lease fb))
          end
      end
  end.

(** ** Dirty rectangles *)

Definition right (r : DirtyRect) : Z := sat_add 32 (r_x r) (r_width r).
Definition bottom (r : DirtyRect) : Z := sat_add 32 (r_y r) (r_height r).

Definition intersects_or_touches (a b : DirtyRect) : bool :=
  (r_x a <=? right b) && (r_x b <=? right a) && (r_y a <=? bottom b) && (r_y b <=? bottom a).

Definition union (a b : DirtyRect) : DirtyRect :=
  let x := Z.min (r_x a) (r_x b) in
  let y := Z.min (r_y a) (r_y b) in
  mkRect x y (Z.max (right a) (right b) - x) (Z.max (bottom a) (bottom b) - y).

(** [Vec::swap_remove] for an index in range: the last element takes the place. *)
Definition swap_remove {A} (l : list A) (i : nat) : list A :=
  match last l with
  | Some x => take (length l - 1) (<[i := x]> l)
  | None => l
  end.

(** The inner loop: merge [rect] with the rectangles it touches. *)
Fixpoint merge_loop (fuel : nat) (rect : DirtyRect) (merged : list DirtyRect) (index : nat) : DirtyRect * list DirtyRect :=
  match fuel with
  | O => (rect, merged)
  | S fuel' =>
      match merged !! index with
      | None => (rect, merged)
      | Some r =>
          if intersects_or_touches rect r then merge_loop fuel' (union rect r) (swap_remove merged index) 0
          else merge_loop fuel' rect merged (S index)
      end
  end.

(** Every merge shortens the list and goes back to its start, so the loop takes fewer
    turns than the square of the list's length plus one. *)
Definition merge_one (merged : list DirtyRect) (rect : DirtyRect) : list DirtyRect :=
  let '(rect', merged') := merge_loop (S (length merged) * S (length merged)) rect merged 0 in merged' ++ [rect'].

Definition merge_dirty_rects (rects : list DirtyRect) : list DirtyRect := fold_left merge_one rects [].

(** ** Batches *)

Definition frame_cost (f : RemoteFrameEvent) : Z := match f with Bitmap _ _ _ _ _ _ _ _ pixels => zlen (deref pixels) | _ => 0 end.

Fixpoint batch_loop (frames : list RemoteFrameEvent) (n : Z) (count : nat) : nat :=
  match frames with
  | [] => count
  | f :: frames' =>
      if (0 <? count)%nat && (8 * 1024 * 1024 <? sat_add 64 n (frame_cost f)) then count
      else batch_loop frames' (sat_add 64 n (frame_cost f)) (S count)
  end.

Definition frame_batch_len (frames : list RemoteFrameEvent) : nat := batch_loop (take 8 frames) 0 0.

(** ** Copies *)

Lemma copy_at_ret dest start source :
  (start + length source <= length dest)%nat ->
  copy_at dest start source = Ret (take start dest ++ source ++ drop (start + length source) dest).
Proof. intros. unfold copy_at. by rewrite (proj2 (Nat.leb_le _ _)). Qed.

Lemma copy_at_spec dest start source :
  (start + length source <= length dest)%nat ->
  exists dest', copy_at dest start source = Ret dest' /\ length dest' = length dest /\
    forall k, dest' !! k = if (start <=? k)%nat && (k <? start + length source)%nat then source !! (k - start)%nat else dest !! k.
Proof.
  intros Hl. eexists. rewrite copy_at_ret by done. split; [done|split].
  - rewrite !length_app, length_take, length_drop. lia.
  - intros k. destruct (Nat.leb_spec start k); simpl.
    + rewrite lookup_app_r by (rewrite length_take; lia). rewrite length_take, Nat.min_l by lia.
      destruct (Nat.ltb_spec k (start + length source)).
      * by rewrite lookup_app_l by lia.
      * rewrite lookup_app_r by lia. rewrite lookup_drop. f_equal. lia.
    + rewrite lookup_app_l by (rewrite length_take; lia). by rewrite lookup_take_lt.
Qed.

Lemma slice_at_spec source start n :
  (start + n <= length source)%nat ->
  exists s, slice_at source start n = Ret s /\ length s = n /\ forall k, (k < n)%nat -> s !! k = source !! (start + k)%nat.
Proof.
  intros Hl. exists (take n (drop start source)). unfold slice_at. rewrite (proj2 (Nat.leb_le _ _)) by done.
  split; [done|]. rewrite length_take, length_drop. split; [lia|]. intros k Hk. by rewrite lookup_take_lt, lookup_drop.
Qed.

(** The position of a channel in the other order. *)
Definition channel (format : PixelFormat) (c : nat) : nat :=
  match format, c with Rgba8, 0%nat => 2%nat | Rgba8, 2%nat => 0%nat | _, _ => c end.

Lemma swap_channels_spec n : forall s, length s = (4 * n)%nat ->
  length (swap_channels s) = length s /\
  forall i c, (i < n)%nat -> (c < 4)%nat -> swap_channels s !! (i * 4 + c)%nat = s !! (i * 4 + channel Rgba8 c)%nat.
Proof.
  induction n as [|n IH]; intros s Hs.
  - destruct s; [|simpl in Hs; lia]. split; [done|]. intros. lia.
  - destruct s as [|b0 [|b1 [|b2 [|b3 s]]]]; simpl in Hs; try lia. destruct (IH s) as [Hl Hc]; [lia|]. simpl. split; [lia|].
    intros [|i] c Hi Hc4.
    + do 4 (destruct c as [|c]; [done|]). lia.
    + simpl. by rewrite Hc by lia.
Qed.

Lemma convert_spec format s n : length s = (4 * n)%nat ->
  length (convert format s) = length s /\
  forall i c, (i < n)%nat -> (c < 4)%nat -> convert format s !! (i * 4 + c)%nat = s !! (i * 4 + channel format c)%nat.
Proof. intros. destruct format; [done|]. by apply swap_channels_spec. Qed.

(** ** Points *)

(** The byte of channel [c] of the point [(px, py)] in rows of [W] points. *)
Definition at_point (W px py c : nat) : nat := ((py * W + px) * 4 + c)%nat.

Lemma row_index W r x w px py c : (px < W)%nat -> (x + w <= W)%nat -> (c < 4)%nat ->
  ((r * W + x) * 4 <= at_point W px py c < (r * W + x) * 4 + w * 4)%nat <-> py = r /\ (x <= px < x + w)%nat.
Proof.
  intros Hp Hx Hc. unfold at_point. split.
  - intros [H1 H2]. destruct (Nat.lt_trichotomy py r) as [Hlt|[->|Hgt]].
    + assert ((py + 1) * W <= r * W)%nat by (apply Nat.mul_le_mono_r; lia). lia.
    + lia.
    + assert ((r + 1) * W <= py * W)%nat by (apply Nat.mul_le_mono_r; lia). lia.
  - intros [-> ?]. lia.
Qed.

(** Membership in a rectangle of points, as a boolean. *)
Definition in_box (x y w h px py : nat) : bool :=
  (x <=? px)%nat && (px <? x + w)%nat && (y <=? py)%nat && (py <? y + h)%nat.

Lemma in_box_spec x y w h px py : reflect ((x <= px < x + w)%nat /\ (y <= py < y + h)%nat) (in_box x y w h px py).
Proof.
  apply iff_reflect. unfold in_box. rewrite !andb_true_iff, !Nat.leb_le, !Nat.ltb_lt. lia.
Qed.

Section rows.
Context (W H x y w st : nat) (pixels : bytes) (format : PixelFormat).
Context (Hx : (x + w <= W)%nat) (Hst : (w * 4 <= st)%nat).

Lemma copy_rows_spec n : forall row dest,
  length dest = (W * H * 4)%nat -> (y + row + n <= H)%nat -> (n = 0%nat \/ ((row + n - 1) * st + w * 4 <= length pixels)%nat) ->
  exists dest', copy_rows n row dest pixels format x y (w * 4) st (W * 4) = Ret dest' /\ length dest' = length dest /\
    forall px py c, (px < W)%nat -> (c < 4)%nat ->
      dest' !! at_point W px py c =
        if in_box x (y + row) w n px py then pixels !! ((py - y) * st + (px - x) * 4 + channel format c)%nat
        else dest !! at_point W px py c.
Proof using Hx Hst.
  induction n as [|n IH]; intros row dest Hd Hy Hp; simpl.
  - exists dest. split; [done|split; [done|]]. intros px py c _ _. destruct (in_box_spec x (y + row) w 0 px py); [lia|done].
  - destruct Hp as [|Hp]; [lia|].
    destruct (slice_at_spec pixels (row * st) (w * 4)) as (s & Hs & Hls & Hks); [nia|]. rewrite Hs. simpl.
    destruct (convert_spec format s w) as [Hlc Hcc]; [lia|].
    destruct (copy_at_spec dest ((y + row) * (W * 4) + x * 4) (convert format s)) as (d1 & Hd1 & Hl1 & Hk1); [nia|].
    rewrite Hd1. simpl. destruct (IH (S row) d1) as (d2 & Hd2 & Hl2 & Hk2); [lia|lia|right; by replace (S row + n - 1)%nat with (row + S n - 1)%nat by lia|].
    exists d2. split; [done|split; [lia|]]. intros px py c Hpx Hc. rewrite Hk2 by done.
    destruct (in_box_spec x (y + S row) w n px py) as [Hin|Hout], (in_box_spec x (y + row) w (S n) px py) as [Hin'|Hout'];
      try lia; [done| |].
    + rewrite Hk1. assert (py = (y + row)%nat) as -> by lia.
      pose proof (proj2 (row_index W (y + row) x w px (y + row) c Hpx Hx Hc)) as Hi. specialize (Hi ltac:(lia)).
      rewrite (proj2 (Nat.leb_le _ _)), (proj2 (Nat.ltb_lt _ _)) by lia. simpl.
      replace (at_point W px (y + row) c - _)%nat with ((px - x) * 4 + c)%nat by (unfold at_point; lia).
      rewrite Hcc by lia. rewrite Hks.
      * f_equal. lia.
      * unfold channel. destruct format; [lia|]. do 4 (destruct c as [|c]; [lia|]). lia.
    + rewrite Hk1. destruct (Nat.leb_spec ((y + row) * (W * 4) + x * 4) (at_point W px py c)) as [Ha|Ha]; [|done].
      destruct (Nat.ltb_spec (at_point W px py c) ((y + row) * (W * 4) + x * 4 + length (convert format s))) as [Hb|Hb]; [|done].
      exfalso. destruct (proj1 (row_index W (y + row) x w px py c Hpx Hx Hc)); lia.
Qed.
End rows.

(** ** Applying bitmaps *)

Definition fb_ok (fb : Framebuffer) : Prop :=
  0 < fb_width fb < 2 ^ 32 /\ 0 < fb_height fb < 2 ^ 32 /\ zlen (bgra fb) = fb_width fb * fb_height fb * 4.

(** A vector is at most [isize::MAX] bytes long. *)
Definition frame_sized (f : RemoteFrameEvent) : Prop := frame_cost f < 2 ^ 63.

(** What [apply] asks of a bitmap. *)
Definition accepted (fb : Framebuffer) (f : RemoteFrameEvent) : bool :=
  match f with
  | Reset _ _ _ => false
  | Bitmap epoch _ x y w h st _ pixels =>
      (epoch =? fb_epoch fb) && (0 <? w) && (0 <? h) && (x + w <=? fb_width fb) && (y + h <=? fb_height fb)
      && (w * 4 <=? st) && (zlen (deref pixels) =? (h - 1) * st + w * 4)
  end.

(** The byte of channel [c] of the point [(px, py)] of the framebuffer. *)
Definition point (fb : Framebuffer) (px py c : nat) : option Z := bgra fb !! at_point (Z.to_nat (fb_width fb)) px py c.

Lemma beyond_spec x len bound : 0 <= x -> 0 <= len -> bound < 2 ^ 32 -> beyond x len bound = (bound <? x + len).
Proof.
  intros. unfold beyond, checked_add32. destruct (Z.ltb_spec (x + len) (2 ^ 32)); [done|]. symmetry. apply Z.ltb_lt. lia.
Qed.

(** The copy of an accepted bitmap, on both paths. *)
Lemma accepted_copy fb x y w h st format pixels (dest_stride := fb_width fb * 4) :
  fb_ok fb -> 0 <= x -> 0 <= y -> 0 < w -> 0 < h -> x + w <= fb_width fb -> y + h <= fb_height fb -> w * 4 <= st ->
  zlen pixels = (h - 1) * st + w * 4 ->
  exists dest,
    (if match format with Bgra8 => true | Rgba8 => false end && (st =? dest_stride) && (w * 4 =? dest_stride)
     then copy_at (bgra fb) (Z.to_nat (y * dest_stride)) (take (Z.to_nat ((h - 1) * st + w * 4)) pixels)
     else copy_rows (Z.to_nat h) 0 (bgra fb) pixels format (Z.to_nat x) (Z.to_nat y) (Z.to_nat (w * 4)) (Z.to_nat st)
            (Z.to_nat dest_stride)) = Ret dest /\ length dest = length (bgra fb) /\
    forall px py c, (px < Z.to_nat (fb_width fb))%nat -> (c < 4)%nat ->
      dest !! at_point (Z.to_nat (fb_width fb)) px py c =
        if in_box (Z.to_nat x) (Z.to_nat y) (Z.to_nat w) (Z.to_nat h) px py
        then pixels !! ((py - Z.to_nat y) * Z.to_nat st + (px - Z.to_nat x) * 4 + channel format c)%nat
        else bgra fb !! at_point (Z.to_nat (fb_width fb)) px py c.
Proof.
  intros (HW & HH & Hlen) Hx Hy Hw Hh Hxw Hyh Hst Hp. subst dest_stride. unfold zlen in *.
  destruct (_ && _ && _) eqn:E.
  - bool_hyps. destruct format; [|done]. assert (x = 0) as -> by lia. assert (w = fb_width fb) as -> by lia. subst st.
    set (W := fb_width fb) in *. rewrite take_ge by lia.
    destruct (copy_at_spec (bgra fb) (Z.to_nat (y * (W * 4))) pixels) as (d & Hd & Hl & Hk); [nia|].
    exists d. split; [done|split; [done|]]. intros px py c Hpx Hc. rewrite Hk.
    assert (Hlp : length pixels = (Z.to_nat h * Z.to_nat W * 4)%nat) by nia.
    replace (Z.to_nat (y * (W * 4))) with (Z.to_nat y * Z.to_nat W * 4)%nat by nia. unfold at_point. rewrite Hlp. cbn [channel].
    destruct (in_box_spec (Z.to_nat 0) (Z.to_nat y) (Z.to_nat W) (Z.to_nat h) px py) as [Hin|Hout].
    + assert (Z.to_nat y * Z.to_nat W <= py * Z.to_nat W)%nat by (apply Nat.mul_le_mono_r; lia).
      assert ((py + 1) * Z.to_nat W <= (Z.to_nat y + Z.to_nat h) * Z.to_nat W)%nat by (apply Nat.mul_le_mono_r; lia).
      rewrite (proj2 (Nat.leb_le _ _)), (proj2 (Nat.ltb_lt _ _)) by lia. simpl. f_equal.
      replace (Z.to_nat (W * 4)) with (Z.to_nat W * 4)%nat by lia. rewrite Nat.mul_sub_distr_r. lia.
    + destruct (Nat.leb_spec (Z.to_nat y * Z.to_nat W * 4) ((py * Z.to_nat W + px) * 4 + c)) as [Ha|Ha]; [|done].
      destruct (Nat.ltb_spec ((py * Z.to_nat W + px) * 4 + c) (Z.to_nat y * Z.to_nat W * 4 + Z.to_nat h * Z.to_nat W * 4)) as [Hb|Hb]; [|done].
      exfalso. apply Hout. split; [lia|]. split.
      * destruct (decide (py < Z.to_nat y)%nat); [|lia].
        assert ((py + 1) * Z.to_nat W <= Z.to_nat y * Z.to_nat W)%nat by (apply Nat.mul_le_mono_r; lia). lia.
      * destruct (decide (Z.to_nat y + Z.to_nat h <= py)%nat); [|lia].
        assert ((Z.to_nat y + Z.to_nat h) * Z.to_nat W <= py * Z.to_nat W)%nat by (apply Nat.mul_le_mono_r; lia). lia.
  - replace (Z.to_nat (w * 4)) with (Z.to_nat w * 4)%nat by lia.
    replace (Z.to_nat (fb_width fb * 4)) with (Z.to_nat (fb_width fb) * 4)%nat by lia.
    destruct (copy_rows_spec (Z.to_nat (fb_width fb)) (Z.to_nat (fb_height fb)) (Z.to_nat x) (Z.to_nat y) (Z.to_nat w) (Z.to_nat st)
      pixels format ltac:(lia) ltac:(lia) (Z.to_nat h) 0 (bgra fb)) as (d & Hd & Hl & Hk); [nia|lia|right; nia|].
    exists d. split; [done|split; [done|]]. intros px py c Hpx Hc. rewrite Hk by done. by rewrite Nat.add_0_r.
Qed.

(** An outcome that leaves the framebuffer as it is. *)
Ltac unchanged := eexists _, _; split; [reflexivity|split; [assumption|split; [reflexivity|]]]; change (0 <? 0) with false;
  rewrite ?andb_false_r; cbn [negb andb]; eauto.

(** C24: For every framebuffer and bitmap of the protocol's widths [apply] returns: a bitmap
    of the current epoch that lies inside the framebuffer and brings exactly its pixels is
    copied, so that each point of its rectangle has the colour of the bitmap, converted to
    BGRA, and no other point changes; any other one is rejected and changes nothing. *)
Theorem apply_pixels (fb : Framebuffer) (f : RemoteFrameEvent) :
  fb_ok fb -> frame_fields f -> frame_sized f ->
  exists r fb', apply fb f = Ret (r, fb') /\ fb_ok fb' /\
    (fb_width fb', fb_height fb', fb_epoch fb', fb_lease fb') = (fb_width fb, fb_height fb, fb_epoch fb, fb_lease fb) /\
    match f with
    | Reset _ _ _ => r = Ok None /\ fb' = fb
    | Bitmap _ _ x y w h st format pixels =>
        if accepted fb f then
          r = Ok (Some (mkRect x y w h)) /\
          forall px py c, (px < Z.to_nat (fb_width fb))%nat -> (c < 4)%nat ->
            point fb' px py c =
              if in_box (Z.to_nat x) (Z.to_nat y) (Z.to_nat w) (Z.to_nat h) px py
              then deref pixels !! ((py - Z.to_nat y) * Z.to_nat st + (px - Z.to_nat x) * 4 + channel format c)%nat
              else point fb px py c
        else (exists e, r = Err e) /\ fb' = fb
    end.
Proof.
  intros Hok Hf Hs. destruct f as [ep w h|ep full x y w h st format pixels]; [by eexists _, _|].
  destruct Hf as (He & Hx & Hy & Hw & Hh & Hst). unfold urange, frame_sized in *. simpl in Hs. unfold apply. cbn [accepted].
  pose proof Hok as (HW & HH & Hlen).
  destruct (ep =? fb_epoch fb) eqn:Ee; [|unchanged]. cbn [negb andb].
  rewrite !beyond_spec by lia. unfold checked_mul, checked_add. rewrite (proj2 (Z.ltb_lt (w * 4) _)) by lia.
  destruct (Z.eqb_spec w 0) as [->|Hw0]; [unchanged|].
  destruct (Z.eqb_spec h 0) as [->|Hh0]; [unchanged|]. cbn [orb].
  rewrite (proj2 (Z.ltb_lt 0 w)), (proj2 (Z.ltb_lt 0 h)) by lia. cbn [andb]. rewrite !Z.leb_antisym.
  destruct (fb_width fb <? x + w) eqn:Ex; [unchanged|].
  destruct (fb_height fb <? y + h) eqn:Ey; [unchanged|]. cbn [orb negb andb].
  destruct (st <? w * 4) eqn:Es; [unchanged|]. cbn [negb andb].
  rewrite (proj2 (Z.ltb_lt ((h - 1) * st) _)) by nia. cbn [mbind option_bind].
  destruct (Z.ltb_spec ((h - 1) * st + w * 4) (2 ^ 64)) as [Hq|Hq].
  2: { rewrite (proj2 (Z.eqb_neq _ _)) by lia. unchanged. }
  destruct (zlen (deref pixels) =? _) eqn:Ez; [|unchanged]. cbn [negb]. bool_hyps.
  destruct (accepted_copy fb x y w h st format (deref pixels)) as (dest & Hd & Hl & Hk); try lia; [done|].
  rewrite Hd. cbn [obind]. eexists _, _. split; [done|]. split; [|split; [done|split; [done|exact Hk]]].
  split; [done|split; [done|]]. unfold zlen in *. simpl. by rewrite Hl.
Qed.

(** [apply] does not depend on how the pixels are stored. *)
#[export] Instance apply_proper : Proper ((=) ==> (≡) ==> (=)) apply.
Proof.
  intros fb ? <- f g Hfg. destruct f, g; unfold equiv, frame_equiv in Hfg; try done.
  destruct Hfg as [E Hp]. simplify_eq. unfold apply. by rewrite Hp.
Qed.

Lemma validate_spec w h limits len :
  validate_framebuffer_dimensions w h limits = Ok len -> 0 <= w -> 0 <= h ->
  len = w * h * 4 /\ 0 < w <= max_width limits /\ 0 < h <= max_height limits /\ len <= max_bytes limits.
Proof.
  unfold validate_framebuffer_dimensions, checked_mul. destruct (_ || _) eqn:E; [done|].
  destruct (w * h <? 2 ^ 64); [|done]. cbn [mbind option_bind]. destruct (_ <? 2 ^ 64); [|done]. cbn [ok_or rbind].
  destruct (max_bytes limits <? _) eqn:E2; [by intros|]. intros <-%ok_inj Hw Hh. repeat (apply orb_false_iff in E as [E ?]). bool_hyps. lia.
Qed.

(** A new framebuffer is well-formed, black, and accounts for its memory. *)
Lemma new_framebuffer_spec budget alloc epoch w h limits fb budget' :
  urange 32 w -> urange 32 h -> limit budget < 2 ^ 64 ->
  new_framebuffer budget alloc epoch w h limits = (Ok fb, budget') ->
  fb_ok fb /\ fb_lease fb = zlen (bgra fb) /\ used budget' = used budget + fb_lease fb /\ used budget' <= limit budget.
Proof.
  unfold new_framebuffer, urange. intros Hw Hh Hl. destruct (validate_framebuffer_dimensions w h limits) as [len|] eqn:Ev; [|done].
  apply validate_spec in Ev as (-> & ? & ? & ?); [|lia..]. rewrite reserve_spec by done.
  destruct (_ <=? _) eqn:E; [|done]. destruct alloc; [|done]. intros [= <- <-]. bool_hyps. unfold fb_ok, zlen. simpl.
  rewrite length_replicate. lia.
Qed.

(** A frame that was decoded, of the current epoch and inside the framebuffer, is never
    rejected: its payload was checked when it was decoded. *)
Lemma valid_frame_accepted fb f :
  fb_ok fb -> fb_width fb < 2 ^ 30 -> frame_fields f -> frame_valid f = true ->
  accepted fb f = match f with
                  | Bitmap e _ x y w h _ _ _ => (e =? fb_epoch fb) && (x + w <=? fb_width fb) && (y + h <=? fb_height fb)
                  | _ => false
                  end.
Proof.
  intros (HW & HH & _) Hsmall Hf Hv. destruct f as [|e full x y w h st fmt pixels]; [done|]. cbn [frame_valid accepted] in *.
  destruct Hf as (_ & Hx & _ & Hw & Hh & Hs). unfold urange in *. bool_hyps. rewrite (proj2 (Z.ltb_lt 0 w)), (proj2 (Z.ltb_lt 0 h)) by lia.
  rewrite (proj2 (Z.eqb_eq (zlen _) _)) by done. rewrite !andb_true_r. destruct (e =? _); [|done]. cbn [andb].
  destruct (Z.leb_spec (x + w) (fb_width fb)); [|done]. rewrite (proj2 (Z.leb_le (w * 4) st)) by lia. by rewrite andb_true_r.
Qed.

(** ** Merging *)

Definition rect_in (W H : Z) (r : DirtyRect) : Prop :=
  0 <= r_x r /\ 0 <= r_width r /\ r_x r + r_width r <= W /\ 0 <= r_y r /\ 0 <= r_height r /\ r_y r + r_height r <= H.

Definition inside (px py : Z) (r : DirtyRect) : Prop := r_x r <= px < r_x r + r_width r /\ r_y r <= py < r_y r + r_height r.

(** No two rectangles of the list intersect or touch. *)
Fixpoint apart (l : list DirtyRect) : Prop :=
  match l with [] => True | r :: l' => Forall (fun r' => intersects_or_touches r r' = false) l' /\ apart l' end.

Lemma touches_sym a b : intersects_or_touches a b = intersects_or_touches b a.
Proof. unfold intersects_or_touches. apply eq_true_iff_eq. rewrite !andb_true_iff. tauto. Qed.

#[export] Instance apart_proper : Proper ((≡ₚ) ==> iff) apart.
Proof.
  intros l1 l2. induction 1 as [|r l1 l2 Hl IH|r1 r2 l|l1 l2 l3 _ IH1 _ IH2]; simpl; [done| | |by rewrite IH1].
  - by rewrite IH, Hl.
  - rewrite !Forall_cons, (touches_sym r1 r2). tauto.
Qed.

Lemma swap_remove_perm {A} (l : list A) i x : l !! i = Some x -> l ≡ₚ x :: swap_remove l i.
Proof.
  intros Hi. unfold swap_remove. pose proof (lookup_lt_Some _ _ _ Hi).
  destruct (exists_last (l := l)) as (l' & y & ->); [by intros ->|]. rewrite last_snoc, length_app. simpl.
  replace (length l' + 1 - 1)%nat with (length l') by lia. destruct (decide (i < length l')%nat).
  - rewrite lookup_app_l in Hi by done. rewrite insert_app_l, take_app_length' by (rewrite ?length_insert; done).
    rewrite <- (take_drop_middle l' i x Hi) at 1. rewrite insert_take_drop by done. solve_Permutation.
  - rewrite lookup_app_r in Hi by lia. rewrite length_app in *. simpl in *. replace i with (length l') in * by lia.
    rewrite Nat.sub_diag in Hi. simplify_eq/=. rewrite <- (Nat.add_0_r (length l')), insert_app_r. simpl.
    rewrite take_app_length' by lia. solve_Permutation.
Qed.

Lemma swap_remove_length {A} (l : list A) i x : l !! i = Some x -> length l = S (length (swap_remove l i)).
Proof. intros Hi%swap_remove_perm. by rewrite Hi at 1. Qed.

Section merge.
Context (W H : Z) (HW : W < 2 ^ 32) (HH : H < 2 ^ 32).

Lemma rect_ends r : rect_in W H r -> right r = r_x r + r_width r /\ bottom r = r_y r + r_height r.
Proof using HW HH. unfold rect_in, right, bottom, sat_add. lia. Qed.

Lemma union_spec a b : rect_in W H a -> rect_in W H b ->
  rect_in W H (union a b) /\ forall px py, inside px py a \/ inside px py b -> inside px py (union a b).
Proof using HW HH.
  intros Ha Hb. destruct (rect_ends a Ha) as [Ea1 Ea2], (rect_ends b Hb) as [Eb1 Eb2].
  unfold union, rect_in, inside in *. rewrite Ea1, Ea2, Eb1, Eb2. simpl. split; [lia|intros; lia].
Qed.

(** With enough turns the loop ends with a rectangle that touches nothing in the list. *)
Lemma merge_loop_spec fuel : forall rect l index, Forall (rect_in W H) (rect :: l) -> apart l ->
  Forall (fun r => intersects_or_touches rect r = false) (take index l) ->
  (length l * S (length l) + (length l - index) < fuel)%nat ->
  let out := merge_loop fuel rect l index in
  Forall (rect_in W H) (out.1 :: out.2) /\ apart (out.1 :: out.2) /\
  forall px py, Exists (inside px py) (rect :: l) -> Exists (inside px py) (out.1 :: out.2).
Proof using HW HH.
  induction fuel as [|fuel IH]; intros rect l index Hin Hap Hno Hf; [lia|]. simpl.
  destruct (l !! index) as [r|] eqn:Er.
  - pose proof (swap_remove_perm _ _ _ Er) as Hp. pose proof (swap_remove_length _ _ _ Er) as Hl.
    apply Forall_cons in Hin as [Hr Hin]. pose proof (lookup_lt_Some _ _ _ Er).
    destruct (intersects_or_touches rect r) eqn:Et.
    + rewrite Hp in Hin, Hap. apply Forall_cons in Hin as [Hr' Hin]. destruct Hap as [_ Hap].
      destruct (union_spec rect r Hr Hr') as [Hu Hc].
      destruct (IH (union rect r) (swap_remove l index) 0%nat) as (H1 & H2 & H3); [by constructor|done|constructor|nia|].
      split; [done|split; [done|]]. intros px py He. apply H3. rewrite Hp in He.
      rewrite !Exists_cons in He. rewrite Exists_cons. destruct He as [He|[He|He]]; auto.
    + apply IH; [by constructor|done| |lia]. rewrite (take_S_r _ _ r) by done. apply Forall_app. auto.
  - apply lookup_ge_None in Er. rewrite take_ge in Hno by done. auto.
Qed.

Lemma merge_one_spec l rect : Forall (rect_in W H) (rect :: l) -> apart l ->
  Forall (rect_in W H) (merge_one l rect) /\ apart (merge_one l rect) /\
  forall px py, Exists (inside px py) (rect :: l) -> Exists (inside px py) (merge_one l rect).
Proof using HW HH.
  intros Hin Hap. unfold merge_one.
  destruct (merge_loop_spec (S (length l) * S (length l)) rect l 0 Hin Hap) as (H1 & H2 & H3); [constructor|nia|].
  destruct (merge_loop _ rect l 0) as [r' l']. simpl in *.
  assert (Hp : l' ++ [r'] ≡ₚ r' :: l') by (by rewrite Permutation_app_comm). rewrite Hp. repeat split; [done|tauto|tauto|].
  intros px py. rewrite Hp. apply H3.
Qed.

Lemma merge_fold_spec rects : forall l, Forall (rect_in W H) (rects ++ l) -> apart l ->
  let out := fold_left merge_one rects l in
  Forall (rect_in W H) out /\ apart out /\ forall px py, Exists (inside px py) (rects ++ l) -> Exists (inside px py) out.
Proof using HW HH.
  induction rects as [|r rects IH]; intros l Hin Hap; simpl; [done|].
  simpl in Hin. apply Forall_cons in Hin as [Hr Hin]. apply Forall_app in Hin as [Hrs Hl].
  destruct (merge_one_spec l r) as (H1 & H2 & H3); [by constructor|done|].
  destruct (IH (merge_one l r)) as (H4 & H5 & H6); [by apply Forall_app|done|].
  split; [done|split; [done|]]. intros px py He. apply H6. rewrite !Exists_cons, !Exists_app in *.
  specialize (H3 px py). rewrite Exists_cons in H3. tauto.
Qed.
End merge.

(** Merging dirty rectangles of a framebuffer ends with rectangles that still lie in
    the framebuffer, of which no two intersect or touch, and that cover every point of
    the given ones: nothing that changed is left undrawn, and nothing is drawn twice. *)
Theorem merge_covers (W H : Z) (rects : list DirtyRect) :
  W < 2 ^ 32 -> H < 2 ^ 32 -> Forall (rect_in W H) rects ->
  Forall (rect_in W H) (merge_dirty_rects rects) /\ apart (merge_dirty_rects rects) /\
  forall px py, Exists (inside px py) rects -> Exists (inside px py) (merge_dirty_rects rects).
Proof.
  intros HW HH Hr. destruct (merge_fold_spec W H HW HH rects []) as (H1 & H2 & H3); [by rewrite app_nil_r|done|].
  rewrite app_nil_r in H3. auto.
Qed.

(** ** Batches *)

Lemma frames_loop_spec frames : forall n count, 0 <= n -> exists k, (k <= length frames)%nat /\ batch_loop frames n count = (count + k)%nat /\
  (frames <> [] -> count = 0%nat -> (0 < k)%nat) /\
  ((0 < count)%nat -> n <= 8 * 1024 * 1024 -> foldr (fun f acc => frame_cost f + acc) n (take k frames) <= 8 * 1024 * 1024) /\
  ((0 < count)%nat -> 8 * 1024 * 1024 < n < 2 ^ 64 -> k = 0%nat).
Proof.
  induction frames as [|f frames IH]; intros n count Hn; simpl.
  - exists 0%nat. rewrite Nat.add_0_r. split; [lia|split; [done|split; [done|split; [auto|done]]]].
  - destruct (_ && _) eqn:E.
    + exists 0%nat. bool_hyps. split; [lia|]. split; [lia|]. split; [lia|auto].
    + assert (0 <= frame_cost f) by (destruct f; simpl; unfold zlen; lia).
      destruct (IH (sat_add 64 n (frame_cost f)) (S count)) as (k & Hk & Hb & _ & Hc & _); [unfold sat_add; lia|].
      exists (S k). split; [lia|]. split; [lia|]. split; [lia|].
      apply andb_false_iff in E as [E|E]; bool_hyps; [split; intros; lia|]. unfold sat_add in *.
      split; [|lia]. intros Hcount Hlim. simpl.
      specialize (Hc ltac:(lia) ltac:(lia)).
      assert (Hmono : forall l a b, a <= b -> foldr (fun f acc => frame_cost f + acc) a l = foldr (fun f acc => frame_cost f + acc) b l - (b - a))
        by (induction l as [|g l IHl]; intros a b Hab; simpl; [lia|rewrite (IHl a b Hab); lia]).
      rewrite (Hmono _ n (Z.min (n + frame_cost f) (2 ^ 64 - 1))) by lia. lia.
Qed.

Definition total_cost (frames : list RemoteFrameEvent) : Z := foldr (fun f acc => frame_cost f + acc) 0 frames.

Lemma frame_cost_nonneg f : 0 <= frame_cost f.
Proof. destruct f; simpl; unfold zlen; lia. Qed.

Lemma total_cost_acc frames n : foldr (fun f acc => frame_cost f + acc) n frames = total_cost frames + n.
Proof. unfold total_cost. induction frames as [|f frames IH]; simpl; lia. Qed.

(** A batch makes progress, has at most eight frames, and stays within 8 MiB unless it is
    a single frame. *)
Lemma frame_batch_len_spec frames :
  let k := frame_batch_len frames in
  (k <= length frames)%nat /\ (k <= 8)%nat /\ (frames <> [] -> (0 < k)%nat) /\
  ((2 <= k)%nat -> total_cost (take k frames) <= 8 * 1024 * 1024).
Proof.
  unfold frame_batch_len. destruct frames as [|f frames]; [cbn; repeat split; first [done|lia]|]. change (take 8 (f :: frames)) with (f :: take 7 frames).
  cbn [batch_loop Nat.ltb Nat.leb andb]. pose proof (frame_cost_nonneg f) as Hf. set (n := sat_add 64 0 (frame_cost f)).
  destruct (frames_loop_spec (take 7 frames) n 1) as (k & Hk & -> & _ & Hc & Hz); [subst n; unfold sat_add; lia|].
  rewrite length_take in Hk. repeat split; try lia; [simpl; lia|]. intros H2. destruct (decide (n <= 8 * 1024 * 1024)) as [Hn|Hn].
  - specialize (Hc ltac:(lia) Hn). rewrite total_cost_acc in Hc. cbn [plus take]. change (total_cost (f :: take k frames)) with (frame_cost f + total_cost (take k frames)).
    rewrite take_take, Nat.min_l in Hc by lia. subst n. unfold sat_add in *. lia.
  - rewrite (Hz ltac:(lia)) in H2; [lia|]. subst n. unfold sat_add in *. lia.
Qed.

(** ** Witnesses *)

Definition ex_fb : Framebuffer := mkFramebuffer 2 2 7 (replicate 16 0) 16.
Definition ex_bitmap : RemoteFrameEvent := Bitmap 7 false 1 0 1 2 6 Rgba8 (from_vec [1; 2; 3; 4; 9; 9; 5; 6; 7; 8]).

Lemma apply_pixels_witness :
  accepted ex_fb ex_bitmap = true /\ apply ex_fb ex_bitmap
    = Ret (Ok (Some (mkRect 1 0 1 2)), mkFramebuffer 2 2 7 [0; 0; 0; 0; 3; 2; 1; 4; 0; 0; 0; 0; 7; 6; 5; 8] 16) /\
  exists r fb', apply ex_fb ex_bitmap = Ret (r, fb') /\ fb_ok fb' /\ r = Ok (Some (mkRect 1 0 1 2)).
Proof.
  split; [reflexivity|]. split; [vm_compute; reflexivity|].
  destruct (apply_pixels ex_fb ex_bitmap) as (r & fb' & Ha & Hok & _ & Hr & _).
  - vm_compute. repeat split; congruence.
  - vm_compute. repeat split; congruence.
  - vm_compute. congruence.
  - exists r, fb'. auto.
Defined.

Lemma merge_covers_witness :
  merge_dirty_rects [mkRect 0 0 2 2; mkRect 8 8 1 1; mkRect 2 0 2 2] = [mkRect 8 8 1 1; mkRect 0 0 4 2] /\
  apart (merge_dirty_rects [mkRect 0 0 2 2; mkRect 8 8 1 1; mkRect 2 0 2 2]).
Proof.
  split; [vm_compute; reflexivity|].
  apply (merge_covers 10 10 [mkRect 0 0 2 2; mkRect 8 8 1 1; mkRect 2 0 2 2]); [lia|lia|].
  repeat constructor; vm_compute; congruence.
Defined.
