(* ===== verification/DesktopQueue.v ===== *)
(** * The event queues of remote desktop sessions

    [EventQueue] of [nyaterm-remote-desktop/src/session.rs] (RDP) and of [vnc.rs], which
    differ only in their control events: [RuntimeEvent] is what the queue needs of them,
    with an instance for each. Each critical section is a function; one turn of a wait
    loop returns [None] when the caller has to wait. The system below has the reader
    thread of a session, whose reset is two critical sections, other threads that push
    control events, the consumer and the closing of the session as interleaved steps.
    The theorems show that frames reach the consumer in order and within the limits, and
    never before the reset of the epoch they belong to. *)

From S2P Require Import Prelude PixelMemory HelperIpc Framebuffer.
From stdpp Require Import base numbers option list relations.
From Stdlib Require Import ZArith Lia.

Local Open Scope Z_scope.

Definition FRAME_QUEUE_LIMIT : nat := 64.
Definition FRAME_QUEUE_BYTE_LIMIT : Z := FRAME_PAYLOAD_LIMIT.
Definition CONTROL_QUEUE_LIMIT : nat := 256.
Definition CONTROL_QUEUE_BYTE_LIMIT : Z := 4 * 1024 * 1024.

(** ** Control events *)

Class RuntimeEvent (E : Type) := {
  control_byte_cost : E -> Z;
  reset_event : bytes -> Z -> Z -> Z -> E;      (** [Frame { event: Reset { .. } }] *)
  reset_of : E -> option Z }.                    (** the epoch of a reset event *)

Class RuntimeEventLaws (E : Type) `{RuntimeEvent E} : Prop := {
  cost_nonneg e : 0 <= control_byte_cost e;
  reset_of_reset s epoch w h : reset_of (reset_event s epoch w h) = Some epoch }.

Definition opt_len (s : option bytes) : Z := match s with Some s => zlen s | None => 0 end.

Definition frame_reset (f : RemoteFrameEvent) : option Z := match f with Reset epoch _ _ => Some epoch | _ => None end.

Module RdpEvents.
Inductive RdpErrorKind :=
| ResourceExhausted | Authentication | CertificateRejected | Timeout | ConnectionRefused | Tls | Transport
| Session | ClipboardKind | Negotiation | HelperMissing | HelperCrashed | Ipc | Protocol | Unsupported.
Record RdpError := mkError { kind : RdpErrorKind; message : bytes }.
Inductive RdpSessionState :=
| Idle | Connecting | Connected | Reconnecting | Disconnecting | Disconnected | Failed (e : RdpError) | Active | Closed.
Inductive RdpClipboardTransferStatus := Running | Completed | FailedTransfer | Cancelled.
Record RdpClipboardTransferProgress := mkProgress {
  id : bytes; name : bytes; status : RdpClipboardTransferStatus; total_bytes : Z; transferred_bytes : Z;
  total_files : Z; completed_files : Z; perror : option bytes }.
Record RdpCertificateRequest := mkRequest {
  request_id : bytes; host : bytes; port : Z; sha256_fingerprint : bytes; subject : option bytes;
  issuer : option bytes; valid_from : option bytes; valid_to : option bytes }.
Inductive RdpCapability := DynamicResizeUnavailable.

Inductive RdpRuntimeEvent :=
| State (session_id : bytes) (state : RdpSessionState) (message : option bytes)
| FrameEvent (session_id : bytes) (event : RemoteFrameEvent)
| CursorEvent (session_id : bytes) (event : RemoteCursorEvent)
| Clipboard (session_id text : bytes) (generation : Z)
| ClipboardTransfer (session_id : bytes) (progress : RdpClipboardTransferProgress)
| CertificateRequest (request : RdpCertificateRequest)
| Capability (session_id : bytes) (capability : RdpCapability)
| Error (session_id : bytes) (error : RdpError) (fatal : bool).

Definition rdp_control_byte_cost (e : RdpRuntimeEvent) : Z :=
  match e with
  | State s _ m => zlen s + opt_len m + 64
  | FrameEvent s _ => zlen s + 64
  | CursorEvent s ev => zlen s + match ev with Shape sh => zlen (deref (s_pixels sh)) + 64 | _ => 32 end
  | Clipboard s t _ => zlen s + zlen t + 64
  | ClipboardTransfer s p => zlen s + zlen (id p) + zlen (name p) + opt_len (perror p) + 128
  | CertificateRequest r =>
      zlen (request_id r) + zlen (host r) + zlen (sha256_fingerprint r) + opt_len (subject r) + opt_len (issuer r)
      + opt_len (valid_from r) + opt_len (valid_to r) + 128
  | Capability s _ => zlen s + 32
  | Error s err _ => zlen s + zlen (message err) + 64
  end.

#[global] Instance rdp_event : RuntimeEvent RdpRuntimeEvent := {
  control_byte_cost := rdp_control_byte_cost;
  reset_event s epoch w h := FrameEvent s (Reset epoch w h);
  reset_of e := match e with FrameEvent _ f => frame_reset f | _ => None end }.
End RdpEvents.

Module VncEvents.
Inductive VncErrorKind :=
| Timeout | ResourceExhausted | Transport | Authentication | Protocol | Encoding | ClipboardKind | Internal
| HelperMissing | HelperCrashed | Ipc.
Record VncError := mkError { kind : VncErrorKind; message : bytes; password_required : bool }.
Inductive VncSessionState :=
| Connecting | Authenticating | Negotiating | Connected | Reconnecting | Disconnecting | Disconnected | Failed.
Record VncServerKeyRequest := mkKeyRequest {
  session_id : bytes; generation : Z; request_id : bytes; host : bytes; port : Z; sha256_fingerprint : bytes; key_bits : Z }.

Inductive VncRuntimeEvent :=
| ServerKeyRequest (request : VncServerKeyRequest)
| ServerKeyAuthenticated (request : VncServerKeyRequest)
| State (session_id : bytes) (state : VncSessionState) (message : option bytes)
| FrameEvent (session_id : bytes) (event : RemoteFrameEvent)
| Clipboard (session_id text : bytes)
| Error (session_id : bytes) (error : VncError) (fatal : bool).

Definition vnc_control_byte_cost (e : VncRuntimeEvent) : Z :=
  match e with
  | ServerKeyRequest r | ServerKeyAuthenticated r =>
      zlen (session_id r) + zlen (host r) + zlen (request_id r) + zlen (sha256_fingerprint r) + 128
  | State s _ m => zlen s + opt_len m + 64
  | FrameEvent s _ => zlen s + 64
  | Clipboard s t => zlen s + zlen t + 64
  | Error s err _ => zlen s + zlen (message err) + 64
  end.

#[global] Instance vnc_event : RuntimeEvent VncRuntimeEvent := {
  control_byte_cost := vnc_control_byte_cost;
  reset_event s epoch w h := FrameEvent s (Reset epoch w h);
  reset_of e := match e with FrameEvent _ f => frame_reset f | _ => None end }.
End VncEvents.

Lemma opt_len_nonneg s : 0 <= opt_len s.
Proof. destruct s; simpl; unfold zlen; lia. Qed.

#[export] Instance rdp_laws : RuntimeEventLaws RdpEvents.RdpRuntimeEvent.
Proof.
  split; [|done]. intros [| |? []| | | | |]; simpl; unfold zlen;
    repeat match goal with |- context [opt_len ?s] => pose proof (opt_len_nonneg s); generalize dependent (opt_len s); intros end; lia.
Qed.
#[export] Instance vnc_laws : RuntimeEventLaws VncEvents.VncRuntimeEvent.
Proof.
  split; [|done]. intros []; simpl; unfold zlen;
    repeat match goal with |- context [opt_len ?s] => pose proof (opt_len_nonneg s); generalize dependent (opt_len s); intros end; lia.
Qed.

(** ** The queue *)

Record EventQueueState (E : Type) := mkQueue {
  control : list E; control_bytes : Z; frames : list RemoteFrameEvent; frame_bytes : Z;
  cursor_shape : option CursorShape; cursor_position : option (Z * Z); cursor_visibility : option bool;
  current_epoch : option Z; closed : bool }.
Arguments mkQueue {E} _ _ _ _ _ _ _ _ _.
Arguments control {E} _.
Arguments control_bytes {E} _.
Arguments frames {E} _.
Arguments frame_bytes {E} _.
Arguments cursor_shape {E} _.
Arguments cursor_position {E} _.
Arguments cursor_visibility {E} _.
Arguments current_epoch {E} _.
Arguments closed {E} _.

Definition frame_byte_cost (f : RemoteFrameEvent) : Z := match f with Bitmap _ _ _ _ _ _ _ _ pixels => zlen (deref pixels) | _ => 0 end.
Definition frame_epoch (f : RemoteFrameEvent) : option Z := match f with Bitmap epoch _ _ _ _ _ _ _ _ => Some epoch | _ => None end.

Record Drain (E : Type) := mkDrain { d_control : list E; d_frames : list RemoteFrameEvent; d_cursors : list RemoteCursorEvent }.
Arguments mkDrain {E} _ _ _.
Arguments d_control {E} _.
Arguments d_frames {E} _.
Arguments d_cursors {E} _.

Section queue.
Context {E : Type} `{RuntimeEvent E}.
Implicit Types (q : EventQueueState E) (e : E).

Definition default_queue : EventQueueState E := mkQueue [] 0 [] 0 None None None None false.

Definition with_control q (c : list E) (n : Z) : EventQueueState E :=
  mkQueue c n (frames q) (frame_bytes q) (cursor_shape q) (cursor_position q) (cursor_visibility q) (current_epoch q) (closed q).

Definition with_frames q (fs : list RemoteFrameEvent) (n : Z) : EventQueueState E :=
  mkQueue (control q) (control_bytes q) fs n (cursor_shape q) (cursor_position q) (cursor_visibility q) (current_epoch q) (closed q).

(** One turn of [push_control]. *)
Definition push_control_turn q e : option (EventQueueState E * bool) :=
  let cost := control_byte_cost e in
  if negb (closed q) && ((CONTROL_QUEUE_LIMIT <=? length (control q))%nat
                         || (CONTROL_QUEUE_BYTE_LIMIT <? sat_add 64 (control_bytes q) cost)) then None
  else if closed q then Some (q, false)
  else Some (with_control q (control q ++ [e]) (control_bytes q + cost), true).

Definition push_control_force q e : EventQueueState E :=
  with_control q (control q ++ [e]) (sat_add 64 (control_bytes q) (control_byte_cost e)).

Definition push_cursor q (c : RemoteCursorEvent) : EventQueueState E * bool :=
  if closed q then (q, false) else
  (match c with
   | Shape s => mkQueue (control q) (control_bytes q) (frames q) (frame_bytes q) (Some s) (cursor_position q)
                  (cursor_visibility q) (current_epoch q) (closed q)
   | Position x y => mkQueue (control q) (control_bytes q) (frames q) (frame_bytes q) (cursor_shape q) (Some (x, y))
                  (cursor_visibility q) (current_epoch q) (closed q)
   | Visibility v => mkQueue (control q) (control_bytes q) (frames q) (frame_bytes q) (cursor_shape q) (cursor_position q)
                  (Some v) (current_epoch q) (closed q)
   end, true).

(** The first critical section of [push_reset]; the second is [push_control] of the
    reset event. *)
Definition push_reset_begin q (epoch : Z) : EventQueueState E * bool :=
  if closed q then (q, false)
  else (mkQueue (control q) (control_bytes q) [] 0 None None None (Some epoch) (closed q), true).

(** One turn of [push_frame] after its size check. *)
Definition push_frame_turn (item_limit : nat) (byte_limit : Z) q (f : RemoteFrameEvent) : option (EventQueueState E * bool) :=
  let cost := frame_byte_cost f in
  if bool_decide (is_Some (frame_epoch f)) && negb (bool_decide (current_epoch q = frame_epoch f)) then Some (q, false)
  else if negb (closed q) && ((item_limit <=? length (frames q))%nat
                              || (byte_limit <? sat_add 64 (frame_bytes q) cost)) then None
  else if closed q then Some (q, false)
  else Some (with_frames q (frames q ++ [f]) (frame_bytes q + cost), true).

(** [push_frame]: a frame larger than the queue is refused at once. *)
Definition push_frame (item_limit : nat) (byte_limit : Z) q (f : RemoteFrameEvent) : option (EventQueueState E * bool) :=
  if byte_limit <? frame_byte_cost f then Some (q, false) else push_frame_turn item_limit byte_limit q f.

Definition cursors q : list RemoteCursorEvent :=
  match cursor_shape q with Some s => [Shape s] | None => [] end
  ++ match cursor_position q with Some (x, y) => [Position x y] | None => [] end
  ++ match cursor_visibility q with Some v => [Visibility v] | None => [] end.

Definition drain_with_limit q (bounded : bool) : Drain E * EventQueueState E :=
  let count := if bounded then frame_batch_len (frames q) else length (frames q) in
  let taken := take count (frames q) in
  (mkDrain (control q) taken (cursors q),
   mkQueue [] 0 (drop count (frames q)) (sat_sub (frame_bytes q) (foldr (fun f acc => frame_byte_cost f + acc) 0 taken))
     None None None (current_epoch q) (closed q)).

Definition close (q : EventQueueState E) : EventQueueState E := mkQueue [] 0 [] 0 None None None (current_epoch q) true.
End queue.

(** ** Threads *)

(** The reader thread: between the two critical sections of a reset it does nothing else. *)
Inductive reader_state := RIdle | RResetting (session_id : bytes) (epoch width height : Z).

(** [seen]: the epoch of the last reset the consumer was given; [pushed] and [got]: the
    frames accepted and delivered since the last reset began. *)
Record Sys (E : Type) := mkSys {
  queue : EventQueueState E; rd : reader_state; seen : option Z; pushed : list RemoteFrameEvent; got : list RemoteFrameEvent }.
Arguments mkSys {E} _ _ _ _ _.
Arguments queue {E} _.
Arguments rd {E} _.
Arguments seen {E} _.
Arguments pushed {E} _.
Arguments got {E} _.

Section system.
Context {E : Type} `{RuntimeEventLaws E} (item_limit : nat) (byte_limit : Z) (Hlimit : 0 <= byte_limit < 2 ^ 63).

(** The last reset among control events, or else an earlier one. *)
Definition last_reset (o : option Z) (es : list E) : option Z :=
  fold_left (fun o e => match reset_of e with Some epoch => Some epoch | None => o end) es o.

Definition initial : Sys E := mkSys default_queue RIdle None [] [].

Inductive step : Sys E -> Sys E -> Prop :=
| step_reset q q' ok o p g sid epoch w h :
    push_reset_begin q epoch = (q', ok) ->
    step (mkSys q RIdle o p g) (if ok then mkSys q' (RResetting sid epoch w h) o [] [] else mkSys q' RIdle o p g)
| step_reset_event q q' ok o p g sid epoch w h :
    push_control_turn q (reset_event sid epoch w h) = Some (q', ok) ->
    step (mkSys q (RResetting sid epoch w h) o p g) (mkSys q' RIdle o p g)
| step_frame q q' ok o p g f :
    push_frame item_limit byte_limit q f = Some (q', ok) ->
    step (mkSys q RIdle o p g) (mkSys q' RIdle o (if ok then p ++ [f] else p) g)
| step_cursor q q' ok r o p g c :
    push_cursor q c = (q', ok) -> step (mkSys q r o p g) (mkSys q' r o p g)
| step_control q q' ok r o p g e :
    reset_of e = None -> push_control_turn q e = Some (q', ok) -> step (mkSys q r o p g) (mkSys q' r o p g)
| step_force q r o p g e :
    reset_of e = None -> step (mkSys q r o p g) (mkSys (push_control_force q e) r o p g)
| step_drain q q' d r o p g bounded :
    drain_with_limit q bounded = (d, q') ->
    step (mkSys q r o p g) (mkSys q' r (last_reset o (d_control d)) p (g ++ d_frames d))
| step_close q r o p g : step (mkSys q r o p g) (mkSys (close q) r o p g).

(** ** The invariant *)

Definition control_total (es : list E) : Z := foldr (fun e acc => control_byte_cost e + acc) 0 es.

Record queue_ok (q : EventQueueState E) : Prop := {
  q_bytes : frame_bytes q = total_cost (frames q);
  q_limit : frame_bytes q <= byte_limit;
  q_items : (length (frames q) <= item_limit)%nat;
  q_control : control_bytes q = Z.min (control_total (control q)) (2 ^ 64 - 1);
  q_epochs : Forall (fun f => frame_epoch f = None \/ frame_epoch f = current_epoch q) (frames q);
  q_closed : closed q = true -> frames q = [] }.

Record sys_ok (s : Sys E) : Prop := {
  s_queue : queue_ok (queue s);
  s_idle : closed (queue s) = false -> rd s = RIdle -> last_reset (seen s) (control (queue s)) = current_epoch (queue s);
  s_resetting : forall sid epoch w h, rd s = RResetting sid epoch w h ->
    frames (queue s) = [] /\ (closed (queue s) = false -> current_epoch (queue s) = Some epoch);
  s_fifo : closed (queue s) = false -> pushed s = got s ++ frames (queue s);
  s_prefix : got s `prefix_of` pushed s }.

Lemma last_reset_app o es e : last_reset o (es ++ [e]) = match reset_of e with Some epoch => Some epoch | None => last_reset o es end.
Proof. unfold last_reset. by rewrite fold_left_app. Qed.

Lemma control_total_app es e : control_total (es ++ [e]) = control_total es + control_byte_cost e.
Proof. unfold control_total. induction es as [|e' es IH]; simpl; lia. Qed.

Lemma control_total_nonneg es : 0 <= control_total es.
Proof using All. induction es as [|e es IH]; simpl; [done|]. pose proof (cost_nonneg e). lia. Qed.

Lemma total_cost_app fs gs : total_cost (fs ++ gs) = total_cost fs + total_cost gs.
Proof. unfold total_cost. induction fs as [|f fs IH]; simpl; lia. Qed.

Lemma total_cost_nonneg fs : 0 <= total_cost fs.
Proof. induction fs as [|f fs IH]; simpl; [done|]. pose proof (frame_cost_nonneg f). lia. Qed.

(** Pushing a control event leaves the frames alone. *)
Lemma push_control_turn_spec q e q' ok : push_control_turn q e = Some (q', ok) ->
  (closed q = true /\ q' = q) \/
  (closed q = false /\ q' = with_control q (control q ++ [e]) (control_bytes q + control_byte_cost e) /\
   control_bytes q + control_byte_cost e <= CONTROL_QUEUE_BYTE_LIMIT).
Proof.
  unfold push_control_turn. destruct (closed q); simpl; [intros [= <- <-]; auto|].
  destruct (_ || _) eqn:Ef; [done|]. intros [= <- <-]. right. apply orb_false_iff in Ef as [_ Ef]. bool_hyps.
  unfold sat_add, CONTROL_QUEUE_BYTE_LIMIT in *. repeat split. lia.
Qed.

Lemma push_control_ok q e q' ok : queue_ok q -> push_control_turn q e = Some (q', ok) -> queue_ok q'.
Proof using All.
  intros [] [[_ ->]|(Hc & -> & Hb)]%push_control_turn_spec; [done|]. split; try done. simpl. rewrite control_total_app.
  unfold CONTROL_QUEUE_BYTE_LIMIT in *. pose proof (cost_nonneg e). pose proof (control_total_nonneg (control q)). lia.
Qed.

Lemma push_force_ok q e : queue_ok q -> queue_ok (push_control_force q e).
Proof using All.
  intros []. split; try done. simpl. rewrite control_total_app. unfold sat_add. pose proof (cost_nonneg e). lia.
Qed.

Lemma push_cursor_spec (q : EventQueueState E) c q' ok : push_cursor q c = (q', ok) ->
  (control q', control_bytes q', frames q', frame_bytes q', current_epoch q', closed q')
  = (control q, control_bytes q, frames q, frame_bytes q, current_epoch q, closed q).
Proof. unfold push_cursor. destruct (closed q) eqn:Ec, c; intros [= <- <-]; simpl; by rewrite ?Ec. Qed.

Lemma push_frame_spec (q : EventQueueState E) f q' ok : push_frame item_limit byte_limit q f = Some (q', ok) ->
  (ok = false /\ q' = q) \/
  (ok = true /\ closed q = false /\ q' = with_frames q (frames q ++ [f]) (frame_bytes q + frame_byte_cost f) /\
   (length (frames q) < item_limit)%nat /\ frame_bytes q + frame_byte_cost f <= byte_limit /\
   (frame_epoch f = None \/ frame_epoch f = current_epoch q)).
Proof using Hlimit.
  unfold push_frame, push_frame_turn. destruct (byte_limit <? _) eqn:E1; [intros [= <- <-]; auto|].
  destruct (_ && _) eqn:E2; [intros [= <- <-]; auto|]. destruct (closed q); simpl; [intros [= <- <-]; auto|].
  destruct (_ || _) eqn:E3; [done|]. intros [= <- <-]. right. apply orb_false_iff in E3 as [E3 E4]. bool_hyps.
  unfold sat_add in *. repeat split; [lia..|]. apply andb_false_iff in E2 as [E2|E2].
  - left. apply bool_decide_eq_false in E2. by apply eq_None_not_Some.
  - right. apply negb_false_iff, bool_decide_eq_true in E2. done.
Qed.

Lemma push_frame_ok (q : EventQueueState E) f q' ok : queue_ok q -> push_frame item_limit byte_limit q f = Some (q', ok) -> queue_ok q'.
Proof using All.
  intros [] [[_ ->]|(_ & Hc & -> & Hi & Hb & He)]%push_frame_spec; [done|].
  split; simpl; [rewrite total_cost_app; simpl; change (frame_byte_cost f) with (frame_cost f); lia|done
                |rewrite length_app; simpl; lia|done|by apply Forall_app; auto|congruence].
Qed.

Lemma drain_ok q b d q' : queue_ok q -> drain_with_limit q b = (d, q') ->
  queue_ok q' /\ d_control d = control q /\ frames q = d_frames d ++ frames q' /\ control q' = [] /\
  closed q' = closed q /\ current_epoch q' = current_epoch q.
Proof using All.
  intros []. unfold drain_with_limit. set (k := if b then _ else _). intros [= <- <-]. simpl.
  assert (Hsum : total_cost (frames q) = total_cost (take k (frames q)) + total_cost (drop k (frames q)))
    by (by rewrite <- total_cost_app, take_drop).
  pose proof (total_cost_nonneg (drop k (frames q))). pose proof (total_cost_nonneg (take k (frames q))).
  assert (Hc : foldr (fun f acc => frame_byte_cost f + acc) 0 (take k (frames q)) = total_cost (take k (frames q))) by done.
  rewrite Hc. split; [|by rewrite take_drop]. unfold sat_sub. split; simpl; try done; [lia|lia|rewrite length_drop; lia| |].
  - by apply Forall_drop.
  - intros Hcl. by rewrite q_closed0, drop_nil.
Qed.

(** A change that keeps frames, epoch and closing, and adds no reset, keeps the invariant. *)
Lemma sys_ok_control (q q' : EventQueueState E) r o p g :
  sys_ok (mkSys q r o p g) -> queue_ok q' ->
  (frames q', current_epoch q', closed q') = (frames q, current_epoch q, closed q) ->
  last_reset o (control q') = last_reset o (control q) -> sys_ok (mkSys q' r o p g).
Proof.
  intros [Hq Hi Hr Hf Hp] Hq' [= Ef Ee Ec] E2. split; simpl in *; rewrite ?Ef, ?Ee, ?Ec, ?E2; auto.
Qed.

Lemma desktop_step_ok s s' : sys_ok s -> step s s' -> sys_ok s'.
Proof using All.
  intros Hs Hst. destruct Hst as [q q' ok o p g sid epoch w h Hb|q q' ok o p g sid epoch w h Hb|q q' ok o p g f Hb
    |q q' ok r o p g c Hb|q q' ok r o p g e He Hb|q r o p g e He|q q' d r o p g b Hb|q r o p g].
  - pose proof Hs as [[Hby Hl Hit Hc Hep Hcl] Hi Hr Hf Hp]. unfold push_reset_begin in Hb. simpl in *.
    destruct (closed q) eqn:Ec; injection Hb as <- <-; [done|]. split; simpl; try done.
    + split; simpl; try done; lia.
    + intros sid' epoch' w' h' [= <- <- <- <-]. auto.
  - pose proof Hs as [Hq Hi Hr Hf Hp]. simpl in *. pose proof (push_control_ok _ _ _ _ Hq Hb) as Hq'.
    destruct (Hr _ _ _ _ eq_refl) as [Hfr Hep]. apply push_control_turn_spec in Hb as [[Hc ->]|(Hc & -> & _)].
    + split; simpl; try done. congruence.
    + split; simpl; try done. intros _ _. rewrite last_reset_app, reset_of_reset. symmetry. auto.
  - pose proof Hs as [Hq Hi Hr Hf Hp]. simpl in *. pose proof (push_frame_ok _ _ _ _ Hq Hb) as Hq'.
    apply push_frame_spec in Hb as [[-> ->]|(-> & Hc & -> & _)]; [done|]. split; simpl; try done.
    + intros _. by rewrite Hf, <- app_assoc by done.
    + by apply prefix_app_r.
  - pose proof (push_cursor_spec _ _ _ _ Hb) as Eq. injection Eq as E1 E2 E3 E4 E5 E6.
    eapply (sys_ok_control q); [done| |congruence|by rewrite E1]. pose proof Hs as [[] _ _ _ _].
    split; simpl in *; rewrite ?E1, ?E2, ?E3, ?E4, ?E5, ?E6; done.
  - pose proof Hs as [Hq _ _ _ _]. simpl in *. pose proof (push_control_ok _ _ _ _ Hq Hb) as Hq'.
    apply push_control_turn_spec in Hb as [[Hc ->]|(Hc & -> & _)]; [done|].
    eapply sys_ok_control; [done|done|done|]. simpl. by rewrite last_reset_app, He.
  - pose proof Hs as [Hq _ _ _ _]. simpl in *.
    eapply sys_ok_control; [done|by apply push_force_ok|done|]. simpl. by rewrite last_reset_app, He.
  - pose proof Hs as [Hq Hi Hr Hf Hp]. simpl in *. destruct (drain_ok _ _ _ _ Hq Hb) as (Hq' & Hdc & Hfr & Hc' & Hcl & Hep).
    rewrite Hdc. split; simpl; rewrite ?Hc', ?Hcl, ?Hep; try done.
    + intros sid epoch w h Er. destruct (Hr _ _ _ _ Er) as [H1 H2]. split; [|done]. rewrite H1 in Hfr. symmetry in Hfr.
      by apply app_nil in Hfr as [_ ?].
    + intros Ec. rewrite (Hf Ec), Hfr. by rewrite app_assoc.
    + destruct (closed q) eqn:Ec.
      * destruct Hq as [_ _ _ _ _ Hcl0]. rewrite (Hcl0 Ec) in Hfr. symmetry in Hfr. apply app_nil in Hfr as [-> _]. by rewrite app_nil_r.
      * rewrite (Hf eq_refl), Hfr, app_assoc. by apply prefix_app_r.
  - pose proof Hs as [[] Hi Hr Hf Hp]. simpl in *. split; simpl; try done. split; simpl; try done; lia.
Qed.

Lemma desktop_reachable_ok s : rtc step initial s -> sys_ok s.
Proof using All.
  intros Hr. remember initial as s0 eqn:Es. assert (H0' : sys_ok s0).
  { subst. split; simpl; try done. split; simpl; try done; lia. }
  clear Es. induction Hr; eauto using desktop_step_ok.
Qed.

(** C16: In every interleaving of the reader, the other threads, the consumer and the
    closing, a drain hands out frames only of the epoch of the last reset handed out
    before or with them, so a framebuffer set up by that reset never finds them stale. *)
Theorem frames_follow_reset (s : Sys E) (bounded : bool) :
  rtc step initial s ->
  let d := (drain_with_limit (queue s) bounded).1 in
  Forall (fun f => forall epoch, frame_epoch f = Some epoch -> last_reset (seen s) (d_control d) = Some epoch) (d_frames d) /\
  forall fb, last_reset (seen s) (d_control d) = Some (fb_epoch fb) ->
    Forall (fun f => forall a b fb', Framebuffer.apply fb f <> Ret (Err (StaleEpoch a b), fb')) (d_frames d).
Proof using All.
  intros Hs%desktop_reachable_ok. destruct Hs as [Hq Hi Hr Hf Hp]. destruct (drain_with_limit (queue s) bounded) as [d q'] eqn:Ed.
  destruct (drain_ok _ _ _ _ Hq Ed) as (_ & Hdc & Hfr & _). simpl. rewrite Hdc.
  assert (Hall : Forall (fun f => forall epoch, frame_epoch f = Some epoch -> last_reset (seen s) (control (queue s)) = Some epoch) (d_frames d)).
  { destruct (d_frames d) as [|f0 fs] eqn:Ef; [constructor|]. destruct Hq as [_ _ _ _ Hep Hcl].
    assert (Hne : frames (queue s) <> []) by (by rewrite Hfr). rewrite Hfr, Forall_app in Hep. destruct Hep as [Hep _].
    assert (Hopen : closed (queue s) = false) by (by destruct (closed (queue s)); [destruct Hne; apply Hcl|]).
    assert (Hidle : rd s = RIdle) by (destruct (rd s) eqn:Er; [done|]; by destruct (Hr _ _ _ _ eq_refl)).
    rewrite Hi by done. eapply Forall_impl; [exact Hep|]. intros f [Hn|Hn] epoch; rewrite Hn; congruence. }
  split; [done|]. intros fb Hfb. eapply Forall_impl; [exact Hall|]. intros [|ep full x y w h st fmt px] Hep a b fb'; [done|].
  specialize (Hep ep eq_refl). rewrite Hep in Hfb. injection Hfb as ->. unfold Framebuffer.apply. rewrite Z.eqb_refl. simpl.
  repeat split_match; try done. all: unfold obind; repeat split_match; done.
Qed.

(** In every interleaving the queued frames are exactly those accepted and not yet
    delivered since the last reset, in order; their number and bytes stay within the
    limits with exact counters; and while the queue is open the consumer's next drain
    makes room: after a full drain no frame of an admissible size waits. *)
Theorem desktop_frames_fifo (s : Sys E) (f : RemoteFrameEvent) :
  rtc step initial s -> (0 < item_limit)%nat ->
  (closed (queue s) = false -> pushed s = got s ++ frames (queue s)) /\ got s `prefix_of` pushed s /\
  frame_bytes (queue s) = total_cost (frames (queue s)) /\ frame_bytes (queue s) <= byte_limit /\
  (length (frames (queue s)) <= item_limit)%nat /\
  (frames (queue s) <> [] -> d_frames (drain_with_limit (queue s) true).1 <> []) /\
  push_frame item_limit byte_limit (drain_with_limit (queue s) false).2 f <> None.
Proof using All.
  intros Hs%desktop_reachable_ok Hit. destruct Hs as [[Hby Hl Hn Hc Hep Hcl] Hi Hr Hf Hp]. repeat split; try done.
  - intros Hne. pose proof (frame_batch_len_spec (frames (queue s))) as (_ & _ & Hk & _). specialize (Hk Hne). simpl.
    destruct (frames (queue s)), (frame_batch_len _); simpl; [done..|lia|done].
  - unfold push_frame, push_frame_turn, drain_with_limit. simpl. rewrite drop_all, take_ge by lia. simpl.
    destruct (byte_limit <? _) eqn:E1; [done|]. destruct (_ && _); [done|]. bool_hyps.
    rewrite (proj2 (Nat.leb_gt _ _)) by lia. simpl.
    assert (Hz : sat_sub (frame_bytes (queue s)) (foldr (fun f acc => frame_byte_cost f + acc) 0 (frames (queue s))) = 0).
    { rewrite Hby. unfold sat_sub, total_cost. change frame_byte_cost with frame_cost. lia. }
    rewrite Hz. unfold sat_add. rewrite (proj2 (Z.ltb_ge _ _)) by lia. rewrite andb_false_r. by destruct (closed _).
Qed.
End system.

(** ** Witnesses *)

(** The reader announces a desktop of epoch 3 and pushes a bitmap; a bitmap of an older
    epoch is refused. *)
Definition ex_bitmap_of (epoch : Z) : RemoteFrameEvent := Bitmap epoch true 0 0 1 1 4 Bgra8 (from_vec [1; 2; 3; 4]).

Definition ex_queue : EventQueueState RdpEvents.RdpRuntimeEvent :=
  mkQueue [RdpEvents.FrameEvent [] (Reset 3 1 1)] 64 [ex_bitmap_of 3] 4 None None None (Some 3) false.

Definition ex_state : Sys RdpEvents.RdpRuntimeEvent := mkSys ex_queue RIdle None [ex_bitmap_of 3] [].

Lemma ex_state_reachable : rtc (step 64 FRAME_QUEUE_BYTE_LIMIT) initial ex_state.
Proof.
  eapply rtc_l; [eapply (step_reset _ _ default_queue _ true None [] [] [] 3 1 1); reflexivity|].
  eapply rtc_l; [eapply (step_reset_event _ _ _ _ true None [] [] [] 3 1 1); vm_compute; reflexivity|].
  eapply rtc_l; [eapply (step_frame _ _ _ _ true None [] [] (ex_bitmap_of 3)); vm_compute; reflexivity|].
  eapply rtc_l; [eapply (step_frame _ _ _ _ false None [ex_bitmap_of 3] [] (ex_bitmap_of 2)); vm_compute; reflexivity|].
  apply rtc_refl.
Qed.

Lemma frames_follow_reset_witness :
  d_frames (drain_with_limit ex_queue true).1 = [ex_bitmap_of 3] /\
  let d := (drain_with_limit (queue ex_state) true).1 in
  Forall (fun f => forall epoch, frame_epoch f = Some epoch -> last_reset (seen ex_state) (d_control d) = Some epoch) (d_frames d) /\
  forall fb, last_reset (seen ex_state) (d_control d) = Some (fb_epoch fb) ->
    Forall (fun f => forall a b fb', Framebuffer.apply fb f <> Ret (Err (StaleEpoch a b), fb')) (d_frames d).
Proof.
  split; [reflexivity|].
  apply (frames_follow_reset (E := RdpEvents.RdpRuntimeEvent) 64 FRAME_QUEUE_BYTE_LIMIT ltac:(vm_compute; split; congruence) ex_state true ex_state_reachable).
Defined.

Lemma desktop_frames_fifo_witness :
  (closed ex_queue = false -> [ex_bitmap_of 3] = [] ++ frames ex_queue) /\
  push_frame 64 FRAME_QUEUE_BYTE_LIMIT (drain_with_limit ex_queue false).2 (ex_bitmap_of 3) <> None.
Proof.
  split; apply (desktop_frames_fifo (E := RdpEvents.RdpRuntimeEvent) 64 FRAME_QUEUE_BYTE_LIMIT ltac:(vm_compute; split; congruence) ex_state (ex_bitmap_of 3) ex_state_reachable
    ltac:(lia)).
Defined.
