(* ===== verification/Heartbeat.v ===== *)
(** * The heartbeat of the remote desktop helpers

    [nyaterm-remote-desktop/src/heartbeat.rs]: a supervisor thread ticks a clock that
    pings the helper process and declares it dead when it does not answer. The clock's
    critical sections are functions of the current time, in nanoseconds; a run is any
    sequence of ticks, pongs, the hello of the helper and changes of the flag that says
    the reader is blocked. The theorems show that a helper that answers in time is never
    declared dead, and that a silent one is, within a bound. *)

From S2P Require Import Prelude.
From stdpp Require Import base option numbers list.
From Stdlib Require Import ZArith Lia.

Local Open Scope Z_scope.

Definition INTERVAL : Z := 2 * 1000000000.
Definition DEADLINE : Z := 10 * 1000000000.

Record Clock := mkClock { hello : bool; since : Z; last_tick : Z; next_ping : Z; sequence : Z; pending : option Z }.

Record Heartbeat := mkHeartbeat { clock : Clock; stopped : bool; failed : bool; blocked : bool }.

Definition default_heartbeat (now : Z) : Heartbeat := mkHeartbeat (mkClock false now now now 0 None) false false false.

Definition set_clock (h : Heartbeat) (c : Clock) : Heartbeat := mkHeartbeat c (stopped h) (failed h) (blocked h).

Definition on_hello (h : Heartbeat) : Heartbeat :=
  let c := clock h in set_clock h (mkClock true (since c) (last_tick c) (next_ping c) (sequence c) (pending c)).

Definition pong (h : Heartbeat) (seq now : Z) : Heartbeat :=
  let c := clock h in
  if bool_decide (pending c = Some seq)
  then set_clock h (mkClock (hello c) now (last_tick c) (now + INTERVAL) (sequence c) None) else h.

Definition set_blocked (h : Heartbeat) (b : bool) : Heartbeat := mkHeartbeat (clock h) (stopped h) (failed h) b.

Definition fail_once (h : Heartbeat) : bool * Heartbeat :=
  (negb (failed h), mkHeartbeat (clock h) (stopped h) true (blocked h)).

Definition stop (h : Heartbeat) : Heartbeat := mkHeartbeat (clock h) true (failed h) (blocked h).

(** [Ok] with the sequence number of a ping to send, or [Err] when the helper is dead. *)
Definition tick (h : Heartbeat) (now : Z) : result (option Z) unit * Heartbeat :=
  let c := clock h in
  let fresh := (INTERVAL * 2 <? sat_sub now (last_tick c)) || blocked h in
  let since1 := if fresh then now else since c in
  let pending1 := if fresh then None else pending c in
  let next1 := if fresh then now else next_ping c in
  let c1 := mkClock (hello c) since1 now next1 (sequence c) pending1 in
  if (negb (hello c) || bool_decide (is_Some pending1)) && (DEADLINE <=? sat_sub now since1) then (Err (), set_clock h c1)
  else if hello c && bool_decide (pending1 = None) && (next1 <=? now) && negb (blocked h)
  then let seq := wadd 64 (sequence c) 1 in
       (Ok (Some seq), set_clock h (mkClock (hello c) now now next1 seq (Some seq)))
  else (Ok None, set_clock h c1).

(** One turn of the supervisor: it ends when stopped, kills the helper when the session
    failed or the tick says so, and sends the ping otherwise. *)
Inductive verdict := Ended | Kill (timeout : bool) | Continue (ping : option Z).

Definition supervise (h : Heartbeat) (now : Z) : verdict * Heartbeat :=
  if stopped h then (Ended, h) else if failed h then (Kill false, h) else
  match tick h now with
  | (Ok ping, h') => (Continue ping, h')
  | (Err _, h') => (Kill true, h')
  end.

(** ** Runs *)

Inductive event := ETick (now : Z) | EPong (seq now : Z) | EHello | EBlocked (b : bool) | EFail | EStop.
Inductive out := Quiet | Ping (seq : Z) | Timeout.

Definition handle (h : Heartbeat) (e : event) : out * Heartbeat :=
  match e with
  | ETick now =>
      match supervise h now with
      | (Kill true, h') => (Timeout, h')
      | (Continue (Some seq), h') => (Ping seq, h')
      | (_, h') => (Quiet, h')
      end
  | EPong seq now => (Quiet, pong h seq now)
  | EHello => (Quiet, on_hello h)
  | EBlocked b => (Quiet, set_blocked h b)
  | EFail => (Quiet, (fail_once h).2)
  | EStop => (Quiet, stop h)
  end.

(** The events of a run with what they brought about; [run] ends with the state. *)
Fixpoint run (h : Heartbeat) (es : list event) : list (event * out) * Heartbeat :=
  match es with
  | [] => ([], h)
  | e :: es' => let '(o, h') := handle h e in let '(tr, h'') := run h' es' in ((e, o) :: tr, h'')
  end.

(** ** A responsive helper *)

(** The helper says hello before the deadline after the start [t0], and every ping is
    answered before a tick that is a deadline or more after it. *)
Definition responsive (t0 : Z) (tr : list (event * out)) : Prop :=
  (forall tr1 tr2 now o, tr = tr1 ++ (ETick now, o) :: tr2 -> t0 + DEADLINE <= now -> EHello ∈ (tr1.*1)) /\
  (forall tr1 tr2 tr3 t seq now o, tr = tr1 ++ (ETick t, Ping seq) :: tr2 ++ (ETick now, o) :: tr3 ->
     t + DEADLINE <= now -> exists at_, EPong seq at_ ∈ (tr2.*1)).

Definition after (t0 : Z) (e : event) : Prop := match e with ETick now | EPong _ now => t0 <= now | _ => True end.

(** What the clock remembers of the trace so far. *)
Record clock_ok (t0 : Z) (tr : list (event * out)) (h : Heartbeat) : Prop := {
  k_hello : hello (clock h) = false -> EHello ∉ (tr.*1) /\ t0 <= since (clock h) /\ pending (clock h) = None;
  k_pending : forall seq, pending (clock h) = Some seq ->
    exists tr1 tr2, tr = tr1 ++ (ETick (since (clock h)), Ping seq) :: tr2 /\ forall at_, EPong seq at_ ∉ (tr2.*1) }.

(** An event that leaves the clock alone is only appended to the trace. *)
Lemma clock_ok_quiet t0 tr h h' e o :
  clock_ok t0 tr h -> (clock h' = clock h \/ exists now, clock h' = mkClock (hello (clock h)) (since (clock h)) now (next_ping (clock h)) (sequence (clock h)) (pending (clock h))) ->
  e <> EHello -> (forall seq at_, e = EPong seq at_ -> pending (clock h) <> Some seq) ->
  clock_ok t0 (tr ++ [(e, o)]) h'.
Proof.
  intros [Hh Hp] Hc He Hq.
  assert (Hsame : hello (clock h') = hello (clock h) /\ since (clock h') = since (clock h) /\ pending (clock h') = pending (clock h)).
  { destruct Hc as [->|[now ->]]; auto. }
  destruct Hsame as (E1 & E2 & E3). split; rewrite ?E1, ?E2, ?E3.
  - intros Hf. destruct (Hh Hf) as (H1 & H2 & H3). rewrite fmap_app, not_elem_of_app. simpl. repeat split; [done| |done|done].
    rewrite list_elem_of_singleton. congruence.
  - intros seq Hs. destruct (Hp seq Hs) as (tr1 & tr2 & -> & Hn). exists tr1, (tr2 ++ [(e, o)]). rewrite <- app_assoc. split; [done|].
    intros at_. rewrite fmap_app, not_elem_of_app. split; [apply Hn|]. simpl. rewrite list_elem_of_singleton. intros <-. by eapply Hq.
Qed.

Lemma tick_ok t0 tr h now r h' : clock_ok t0 tr h -> t0 <= now -> tick h now = (r, h') ->
  r <> Err () -> clock_ok t0 (tr ++ [(ETick now, match r with Ok (Some seq) => Ping seq | _ => Quiet end)]) h'.
Proof.
  intros Hok Hn. pose proof Hok as [Hh Hp]. unfold tick. set (fresh := _ || blocked h).
  destruct (_ && (DEADLINE <=? _)) eqn:Ed; [by intros [= <- <-]|]. destruct (_ && negb (blocked h)) eqn:Es.
  - intros [= <- <-] _. bool_hyps. split; simpl; [congruence|]. intros seq [= <-]. exists tr, []. split; [done|].
    intros at_. apply not_elem_of_nil.
  - intros [= <- <-] _. destruct fresh eqn:Ef.
    + split; simpl; [|done]. intros Hf. destruct (Hh Hf) as (H1 & H2 & H3). rewrite fmap_app, not_elem_of_app. simpl.
      rewrite list_elem_of_singleton. done.
    + apply (clock_ok_quiet t0 tr h); [done| |done|done]. right. by exists now.
Qed.

Lemma beat_ok t0 tr h e o h' : clock_ok t0 tr h -> after t0 e -> handle h e = (o, h') ->
  o <> Timeout -> clock_ok t0 (tr ++ [(e, o)]) h'.
Proof.
  intros Hok Hafter Hd Hno. destruct e as [now|seq now| |b| |]; simpl in Hd.
  - unfold supervise in Hd. destruct (stopped h); [injection Hd as <- <-; by apply (clock_ok_quiet t0 tr h); auto|].
    destruct (failed h); [injection Hd as <- <-; by apply (clock_ok_quiet t0 tr h); auto|].
    destruct (tick h now) as [r h1] eqn:Et. destruct r as [[seq|]|[]]; injection Hd as <- <-; [| |done];
      by apply (tick_ok _ _ _ _ _ _ Hok Hafter Et).
  - injection Hd as <- <-. unfold pong. case_bool_decide as Ep.
    + pose proof Hok as [Hh Hp]. split; simpl; [|done]. intros Hf. destruct (Hh Hf) as (_ & _ & H3). congruence.
    + apply (clock_ok_quiet t0 tr h); [done|by left|done|]. by intros seq' at_ [= <- <-].
  - injection Hd as <- <-. pose proof Hok as [Hh Hp]. split; simpl; [done|]. intros seq Hs.
    destruct (Hp seq Hs) as (tr1 & tr2 & -> & Hn). exists tr1, (tr2 ++ [(EHello, Quiet)]). rewrite <- app_assoc. split; [done|].
    intros at_. rewrite fmap_app, not_elem_of_app. split; [apply Hn|]. simpl. by rewrite list_elem_of_singleton.
  - injection Hd as <- <-. by apply (clock_ok_quiet t0 tr h); auto.
  - injection Hd as <- <-. by apply (clock_ok_quiet t0 tr h); auto.
  - injection Hd as <- <-. by apply (clock_ok_quiet t0 tr h); auto.
Qed.

(** A timeout contradicts a responsive helper. *)
Lemma timeout_unresponsive t0 tr h now r h' tr' o :
  clock_ok t0 tr h -> responsive t0 (tr ++ (ETick now, o) :: tr') -> t0 <= now -> tick h now = (r, h') -> r <> Err ().
Proof.
  intros [Hh Hp] [Hr1 Hr2] Hn Ht ->. unfold tick in Ht. set (fresh := _ || blocked h) in Ht.
  destruct (_ && (DEADLINE <=? _)) eqn:Ed; [|by destruct (_ && negb (blocked h)) in Ht].
  apply andb_true_iff in Ed as [Ed Et]. bool_hyps. destruct fresh; [unfold sat_sub, DEADLINE in Et; lia|].
  unfold sat_sub, DEADLINE in Et. apply orb_true_iff in Ed as [Ed|Ed].
  - bool_hyps. destruct (Hh Ed) as (H1 & H2 & _). apply H1. eapply Hr1; [done|]. unfold DEADLINE. lia.
  - apply bool_decide_eq_true in Ed as [seq Hs]. destruct (Hp seq Hs) as (tr1 & tr2 & -> & Hno).
    destruct (Hr2 tr1 tr2 tr' (since (clock h)) seq now o) as [at_ Hat]; [by rewrite <- app_assoc|unfold DEADLINE; lia|].
    by apply (Hno at_).
Qed.

Lemma run_responsive t0 es : forall tr h, clock_ok t0 tr h -> Forall (after t0) es ->
  responsive t0 (tr ++ (run h es).1) -> Forall (fun eo => eo.2 <> Timeout) (run h es).1.
Proof.
  induction es as [|e es IH]; intros tr h Hok Ha Hr; simpl in *; [constructor|]. inversion Ha; subst.
  destruct (handle h e) as [o h1] eqn:Eh. destruct (run h1 es) as [tr' h2] eqn:Er. simpl in *.
  assert (Ho : o <> Timeout).
  { intros ->. destruct e as [now|? ?| |?| |]; simpl in Eh; try done. unfold supervise in Eh.
    destruct (stopped h); [done|]. destruct (failed h); [done|]. destruct (tick h now) as [r h'] eqn:Et.
    destruct r as [[|]|[]]; try done. by apply (timeout_unresponsive _ _ _ _ _ _ _ _ Hok Hr) in Et. }
  constructor; [done|]. specialize (IH (tr ++ [(e, o)]) h1). rewrite Er in IH. apply IH; [by eapply beat_ok|done|].
  by rewrite <- app_assoc.
Qed.

(** A helper that says hello before the deadline and answers every ping before a tick
    a deadline after it is never declared dead, in any run of ticks, pongs (late and
    repeated ones included), blocked readers, suspended machines and failures. *)
Theorem responsive_never_dead (t0 : Z) (es : list event) :
  Forall (after t0) es -> responsive t0 (run (default_heartbeat t0) es).1 ->
  Forall (fun eo => eo.2 <> Timeout) (run (default_heartbeat t0) es).1.
Proof.
  intros Ha Hr. apply (run_responsive t0 es []); [|done|done]. split; simpl; [|done].
  intros _. split; [apply not_elem_of_nil|]. split; [lia|done].
Qed.

(** ** A silent helper *)

(** Ticks that follow one another without a gap that would restart the clock. *)
Fixpoint ticking (prev : Z) (ts : list Z) : Prop :=
  match ts with [] => True | t :: ts' => prev <= t <= prev + INTERVAL * 2 /\ ticking t ts' end.

Definition supervised (h : Heartbeat) : Prop := stopped h = false /\ failed h = false /\ blocked h = false.

Definition times_out (h : Heartbeat) (ts : list Z) : Prop := Exists (fun eo => eo.2 = Timeout) (run h (ETick <$> ts)).1.

(** A tick without a gap. *)
Lemma tick_regular h t : supervised h -> last_tick (clock h) <= t <= last_tick (clock h) + INTERVAL * 2 ->
  let c := clock h in
  handle h (ETick t) =
    if (negb (hello c) || bool_decide (is_Some (pending c))) && (DEADLINE <=? sat_sub t (since c))
    then (Timeout, set_clock h (mkClock (hello c) (since c) t (next_ping c) (sequence c) (pending c)))
    else if hello c && bool_decide (pending c = None) && (next_ping c <=? t)
    then (Ping (wadd 64 (sequence c) 1), set_clock h (mkClock (hello c) t t (next_ping c) (wadd 64 (sequence c) 1) (Some (wadd 64 (sequence c) 1))))
    else (Quiet, set_clock h (mkClock (hello c) (since c) t (next_ping c) (sequence c) (pending c))).
Proof.
  intros (H1 & H2 & H3) Ht. unfold handle, supervise, tick. rewrite H1, H2, H3.
  rewrite (proj2 (Z.ltb_ge (INTERVAL * 2) _)) by (unfold sat_sub, INTERVAL in *; lia). cbn [orb negb]. rewrite andb_true_r.
  destruct (_ && _); [done|]. by destruct (_ && _ && _).
Qed.

(** Waiting for the hello or for a pong. *)
Lemma waiting_times_out ts : forall h tn, supervised h -> hello (clock h) = false \/ is_Some (pending (clock h)) ->
  ticking (last_tick (clock h)) ts -> last ts = Some tn -> since (clock h) + DEADLINE <= tn -> times_out h ts.
Proof.
  induction ts as [|t ts IH]; intros h tn Hs Hw Ht Hl Htn; [done|]. destruct Ht as [Ht Hts]. unfold times_out. cbn [fmap list_fmap run].
  rewrite (tick_regular h t) by done.
  assert (Hb : negb (hello (clock h)) || bool_decide (is_Some (pending (clock h))) = true).
  { destruct Hw as [->|Hw]; [done|]. by rewrite bool_decide_true, orb_true_r. }
  assert (Hq : hello (clock h) && bool_decide (pending (clock h) = None) = false).
  { destruct Hw as [->|[x ->]]; [done|]. by rewrite andb_false_r. }
  rewrite Hb, Hq. cbn [andb]. destruct (Z.leb_spec DEADLINE (sat_sub t (since (clock h)))) as [Hd|Hd].
  - destruct (run _ _). by left.
  - destruct ts as [|t' ts']. { injection Hl as <-. unfold sat_sub in Hd. lia. }
    specialize (IH (set_clock h (mkClock (hello (clock h)) (since (clock h)) t (next_ping (clock h)) (sequence (clock h)) (pending (clock h)))) tn Hs Hw Hts Hl Htn).
    unfold times_out in IH. destruct (run _ _) as [tr h2]. by right.
Qed.

(** A helper that has not said hello, or was pinged or is due for a ping, and then
    stays silent is declared dead: whatever the state of the clock, when the supervisor
    ticks without long gaps and nothing is blocked, it times out at the latest at the
    first tick that is a deadline and two intervals after the last activity. *)
Theorem silent_declared_dead (h : Heartbeat) (ts : list Z) (tn : Z) :
  supervised h -> ticking (last_tick (clock h)) ts -> last ts = Some tn ->
  Z.max (since (clock h)) (Z.max (next_ping (clock h)) (last_tick (clock h))) + INTERVAL * 2 + DEADLINE <= tn ->
  Exists (fun eo => eo.2 = Timeout) (run h (ETick <$> ts)).1.
Proof.
  change (Exists (fun eo => eo.2 = Timeout) (run h (ETick <$> ts)).1) with (times_out h ts).
  revert h. induction ts as [|t ts IH]; intros h Hs Ht Hl Htn; [done|].
  destruct (decide (hello (clock h) = false \/ is_Some (pending (clock h)))) as [Hw|Hw].
  { eapply waiting_times_out; [done..|]. unfold INTERVAL in *. lia. }
  assert (Hh : hello (clock h) = true) by (destruct (hello (clock h)) eqn:?; [done|]; destruct Hw; auto).
  assert (Hp : pending (clock h) = None) by (destruct (pending (clock h)) eqn:?; [|done]; destruct Hw; eauto).
  destruct Ht as [Ht Hts]. unfold times_out. cbn [fmap list_fmap run]. rewrite (tick_regular h t) by done.
  rewrite Hh, Hp, (bool_decide_false (is_Some None)) by (by intros [? ?]). rewrite bool_decide_true by done. cbn [negb orb andb].
  destruct ts as [|t' ts']. { injection Hl as <-. unfold INTERVAL, DEADLINE in *. lia. }
  destruct (Z.leb_spec (next_ping (clock h)) t) as [Hn|Hn].
  - set (h' := set_clock _ _). assert (Hd : times_out h' (t' :: ts')).
    { eapply waiting_times_out; [done|right; eauto|done|done|]. subst h'. simpl. unfold INTERVAL in *. lia. }
    unfold times_out in Hd. destruct (run h' _). by right.
  - set (h' := set_clock _ _). assert (Hd : times_out h' (t' :: ts')).
    { apply IH; [done|done|done|]. subst h'. simpl. unfold INTERVAL in *. lia. }
    unfold times_out in Hd. destruct (run h' _). by right.
Qed.

(** ** Witnesses *)

Definition ex_second : Z := 1000000000.
Definition ex_events : list event :=
  [ETick 0; EHello; ETick ex_second; EPong 1 (2 * ex_second); ETick (4 * ex_second); EPong 2 (5 * ex_second); ETick (6 * ex_second)].

Definition ex_trace : list (event * out) := zip ex_events [Quiet; Quiet; Ping 1; Quiet; Ping 2; Quiet; Quiet].

Lemma ex_run : (run (default_heartbeat 0) ex_events).1 = ex_trace.
Proof. vm_compute. reflexivity. Qed.

Lemma ex_ticks_early now o : (ETick now, o) ∈ ex_trace -> 0 <= now < DEADLINE.
Proof.
  unfold ex_trace, ex_events. simpl. rewrite !elem_of_cons, elem_of_nil. unfold ex_second, DEADLINE.
  intros Hin. repeat destruct Hin as [Hin|Hin]; simplify_eq; done.
Qed.

Lemma ex_responsive : responsive 0 ex_trace.
Proof.
  split.
  - intros tr1 tr2 now o E Hn. assert (Hin : (ETick now, o) ∈ ex_trace) by (rewrite E; apply elem_of_app; right; left).
    apply ex_ticks_early in Hin. lia.
  - intros tr1 tr2 tr3 t seq now o E Hn.
    assert (Ht : (ETick t, Ping seq) ∈ ex_trace) by (rewrite E; apply elem_of_app; right; left).
    assert (Hin : (ETick now, o) ∈ ex_trace) by (rewrite E, app_comm_cons, app_assoc; apply elem_of_app; right; left).
    apply ex_ticks_early in Ht, Hin. lia.
Qed.

Lemma responsive_never_dead_witness :
  snd <$> ex_trace = [Quiet; Quiet; Ping 1; Quiet; Ping 2; Quiet; Quiet] /\
  Forall (fun eo => eo.2 <> Timeout) (run (default_heartbeat 0) ex_events).1.
Proof.
  split; [reflexivity|]. apply (responsive_never_dead 0 ex_events).
  - repeat constructor; vm_compute; congruence.
  - rewrite ex_run. exact ex_responsive.
Defined.

Definition ex_silent : Heartbeat := mkHeartbeat (mkClock true 0 0 0 0 None) false false false.
Definition ex_ticks : list Z := [2 * ex_second; 6 * ex_second; 10 * ex_second; 14 * ex_second].

Lemma silent_declared_dead_witness :
  supervised ex_silent /\ Exists (fun eo => eo.2 = Timeout) (run ex_silent (ETick <$> ex_ticks)).1.
Proof.
  split; [done|]. apply (silent_declared_dead ex_silent ex_ticks (14 * ex_second)).
  - repeat split.
  - vm_compute. repeat split; congruence.
  - reflexivity.
  - vm_compute. congruence.
Defined.
