(* ===== verification/HelperWriter.v ===== *)
(** * The writer of a helper's input

    [IpcWriter] of [nyaterm-remote-desktop/src/helper_process.rs], the mailbox through which
    the application sends input and control messages to a remote desktop helper, and the
    collector of the helper's standard error. Callbacks put packets into three bounded queues
    and never block; one thread writes them. When the queue of reliable input overflows, what
    waits is dropped and a packet that releases all inputs takes its place, in a slot kept free
    for it. The theorems show that dropped input is always followed by that release before
    any later input, that the queues stay within their limits, that the writer always recovers
    when the helper reads again, and that the summary of standard error does not depend on how
    it was read. *)

From Stdlib Require Import ZArith Lia.
From stdpp Require Import base numbers option strings relations list.
From S2P Require Import Prelude RustStr RustText ShellRisk PixelMemory HelperIpc.

Local Open Scope Z_scope.

Definition RELIABLE_INPUT_LIMIT : nat := 256.
Definition CRITICAL_LIMIT : nat := 32.
Definition ORDINARY_CRITICAL_LIMIT : nat := CRITICAL_LIMIT - 1.

(** ** The mailbox *)

Record QueuedPacket := mkQueued { q_packet : Packet; completes_resync : bool }.

Record WriterState := mkWriter {
  critical : list QueuedPacket; reliable : list Packet; latest_move : option Packet;
  resyncing : bool; closed : bool; write_error : option bytes }.

Definition default_writer : WriterState := mkWriter [] [] None false false None.

Inductive send_error := WouldBlock (message : bytes) | BrokenPipe (message : bytes).

Definition writer_ready (s : WriterState) : result unit send_error :=
  match write_error s with
  | Some e => Err (BrokenPipe e)
  | None => if closed s then Err (BrokenPipe (bs "helper IPC writer is closed")) else Ok tt
  end.

Definition send_critical (s : WriterState) (p : Packet) : result unit send_error * WriterState :=
  match writer_ready s with
  | Err e => (Err e, s)
  | Ok _ =>
    if (ORDINARY_CRITICAL_LIMIT <=? length (critical s))%nat then (Err (WouldBlock (bs "helper critical IPC queue is full")), s)
    else (Ok tt, mkWriter (critical s ++ [mkQueued p false]) (reliable s) (latest_move s) (resyncing s) (closed s) (write_error s))
  end.

Definition send_reliable (s : WriterState) (p release_all : Packet) : result unit send_error * WriterState :=
  match writer_ready s with
  | Err e => (Err e, s)
  | Ok _ =>
    if resyncing s then (Err (WouldBlock (bs "remote input is waiting for state resynchronization")), s)
    else if (RELIABLE_INPUT_LIMIT <=? length (reliable s))%nat then
      (Err (WouldBlock (bs "remote input queue overflowed; releasing all remote input")),
       mkWriter (mkQueued release_all true :: critical s) [] None true (closed s) (write_error s))
    else (Ok tt, mkWriter (critical s) (reliable s ++ [p]) (latest_move s) (resyncing s) (closed s) (write_error s))
  end.

Definition send_latest_move (s : WriterState) (p : Packet) : result unit send_error * WriterState :=
  match writer_ready s with
  | Err e => (Err e, s)
  | Ok _ =>
    if resyncing s then (Err (WouldBlock (bs "remote input is waiting for state resynchronization")), s)
    else (Ok tt, mkWriter (critical s) (reliable s) (Some p) (resyncing s) (closed s) (write_error s))
  end.

Definition shutdown (s : WriterState) : WriterState :=
  mkWriter (critical s) (reliable s) (latest_move s) (resyncing s) true (write_error s).

(** ** The writing thread *)

(** The queue a packet was taken from. *)
Inductive source := FromCritical | FromReliable | FromMove.

(** The next packet, and the queues without it. *)
Definition take_next (s : WriterState) : option (source * QueuedPacket * WriterState) :=
  match critical s with
  | q :: rest => Some (FromCritical, q, mkWriter rest (reliable s) (latest_move s) (resyncing s) (closed s) (write_error s))
  | [] =>
    match reliable s with
    | p :: rest => Some (FromReliable, mkQueued p false, mkWriter [] rest (latest_move s) (resyncing s) (closed s) (write_error s))
    | [] =>
      match latest_move s with
      | Some p => Some (FromMove, mkQueued p false, mkWriter [] [] None (resyncing s) (closed s) (write_error s))
      | None => None
      end
    end
  end.

Definition fail_write (s : WriterState) (message : bytes) : WriterState :=
  mkWriter (critical s) (reliable s) (latest_move s) (resyncing s) true (Some message).
Definition end_resync (s : WriterState) : WriterState :=
  mkWriter (critical s) (reliable s) (latest_move s) false (closed s) (write_error s).

(** Where the thread is: at the lock, writing outside the lock, about to end the
    resynchronisation, or ended. *)
Inductive worker := Waiting | Writing (src : source) (q : QueuedPacket) | Resuming | Ended.

(** The mailbox, the thread, what was written, and the input accepted since the start,
    [None] where an overflow dropped what waited. *)
Record Sys := mkSys {
  mailbox : WriterState; thread : worker; wire : list (source * QueuedPacket); log : list (option Packet) }.

Definition initial : Sys := mkSys default_writer Waiting [] [].

(** One turn of the thread; [None] while it waits for work. [written] tells whether the
    helper's pipe takes a packet. *)
Definition worker_step (written : Packet -> result unit bytes) (s : Sys) : option Sys :=
  match thread s with
  | Waiting =>
      if closed (mailbox s) then Some (mkSys (mailbox s) Ended (wire s) (log s))
      else match take_next (mailbox s) with
           | Some (src, q, m) => Some (mkSys m (Writing src q) (wire s) (log s))
           | None => None
           end
  | Writing src q =>
      Some match written (q_packet q) with
           | Ok _ => mkSys (mailbox s) (if completes_resync q then Resuming else Waiting) (wire s ++ [(src, q)]) (log s)
           | Err e => mkSys (fail_write (mailbox s) e) Ended (wire s) (log s)
           end
  | Resuming => Some (mkSys (end_resync (mailbox s)) Waiting (wire s) (log s))
  | Ended => None
  end.

(** Every operation of the callbacks and every turn of the thread. *)
Inductive step : Sys -> Sys -> Prop :=
| step_critical s p : step s (mkSys (send_critical (mailbox s) p).2 (thread s) (wire s) (log s))
| step_move s p : step s (mkSys (send_latest_move (mailbox s) p).2 (thread s) (wire s) (log s))
| step_reliable s p release :
    step s (mkSys (send_reliable (mailbox s) p release).2 (thread s) (wire s)
      (log s ++ match send_reliable (mailbox s) p release with
                | (Ok _, _) => [Some p]
                | (Err _, m) => if resyncing m && negb (resyncing (mailbox s)) then [None] else []
                end))
| step_shutdown s : step s (mkSys (shutdown (mailbox s)) (thread s) (wire s) (log s))
| step_worker s written s' : worker_step written s = Some s' -> step s s'.

Definition reachable : Sys -> Prop := rtc step initial.

(** ** What the helper is sent *)

(** The reliable input on the wire, [None] for a release of all inputs. *)
Definition input_of (sq : source * QueuedPacket) : option (option Packet) :=
  match sq with
  | (FromReliable, q) => Some (Some (q_packet q))
  | (FromCritical, q) => if completes_resync q then Some None else None
  | (FromMove, _) => None
  end.
Definition inputs (w : list (source * QueuedPacket)) : list (option Packet) := omap input_of w.

(** The segments between the [None]s: never empty. *)
Fixpoint segments (l : list (option Packet)) : list (list Packet) :=
  match l with
  | [] => [[]]
  | Some p :: l' => match segments l' with x :: xs => (p :: x) :: xs | [] => [[p]] end
  | None :: l' => [] :: segments l'
  end.

Lemma segments_snoc l o :
  exists init last, segments l = init ++ [last]
  /\ segments (l ++ [o]) = match o with Some p => init ++ [last ++ [p]] | None => init ++ [last; []] end.
Proof.
  induction l as [|x l (init & last & H1 & H2)]; [exists [], []; by destruct o|]. destruct x as [p|]; cbn [app segments]; rewrite H1, H2.
  - destruct init as [|i init].
    + exists [], (p :: last). by destruct o.
    + exists ((p :: i) :: init), last. by destruct o.
  - exists ([] :: init), last. by destruct o.
Qed.

Lemma segments_last l : exists init last, segments l = init ++ [last].
Proof. destruct (segments_snoc l None) as (i & x & H & _). eauto. Qed.

Lemma segments_none l : segments (l ++ [None]) = segments l ++ [[]].
Proof. destruct (segments_snoc l None) as (i & x & H & ->). rewrite H, <- app_assoc. done. Qed.

Lemma segments_some l p init last : segments l = init ++ [last] -> segments (l ++ [Some p]) = init ++ [last ++ [p]].
Proof.
  intros H. destruct (segments_snoc l (Some p)) as (i & x & H' & ->). rewrite H in H'. apply app_inj_tail in H' as [-> ->]. done.
Qed.

(** ** The invariant *)

(** Reliable input being written. *)
Definition in_flight (t : worker) : list Packet := match t with Writing FromReliable q => [q_packet q] | _ => [] end.

(** The packets that end a resynchronisation, in the queue or being written. *)
Definition releases (s : Sys) : nat :=
  (length (List.filter completes_resync (critical (mailbox s)))
   + match thread s with Writing FromCritical q => if completes_resync q then 1 else 0 | _ => 0 end)%nat.

Definition ordinary (s : Sys) : nat := length (List.filter (fun q => negb (completes_resync q)) (critical (mailbox s))).

Definition prefixes (w a : list (list Packet)) : Prop := Forall2 prefix w a.

(** Input is neither waiting to be released nor being so. *)
Definition normal_ok (s : Sys) : Prop :=
  resyncing (mailbox s) = false /\ releases s = O /\ thread s <> Resuming
  /\ exists before past sent, segments (inputs (wire s)) = before ++ [sent]
     /\ segments (log s) = past ++ [sent ++ in_flight (thread s) ++ reliable (mailbox s)] /\ prefixes before past.

(** What waited was dropped, the release is on its way. *)
Definition dropped_ok (s : Sys) : Prop :=
  resyncing (mailbox s) = true /\ releases s = 1%nat /\ thread s <> Resuming /\ reliable (mailbox s) = []
  /\ exists before past last dropped, segments (inputs (wire s)) = before ++ [last]
     /\ segments (log s) = past ++ [dropped; []] /\ prefixes before past /\ (last ++ in_flight (thread s)) `prefix_of` dropped.

(** The release was written. *)
Definition released_ok (s : Sys) : Prop :=
  resyncing (mailbox s) = true /\ releases s = O /\ thread s = Resuming /\ reliable (mailbox s) = []
  /\ exists before past, segments (inputs (wire s)) = before ++ [[]] /\ segments (log s) = past ++ [[]] /\ prefixes before past.

(** Segment by segment, a part of what was accepted was sent. *)
Definition sent_ok (s : Sys) : Prop :=
  exists a rest, segments (log s) = a ++ rest /\ prefixes (segments (inputs (wire s))) a.

Definition ended_ok (s : Sys) : Prop := thread s = Ended /\ closed (mailbox s) = true /\ sent_ok s.

Definition limits_ok (s : Sys) : Prop :=
  (length (reliable (mailbox s)) <= RELIABLE_INPUT_LIMIT /\ ordinary s <= ORDINARY_CRITICAL_LIMIT
   /\ releases s <= if resyncing (mailbox s) then 1 else 0)%nat.

(** Only critical packets end a resynchronisation. *)
Definition flight_ok (t : worker) : Prop :=
  match t with Writing FromCritical _ | Waiting | Resuming | Ended => True | Writing _ q => completes_resync q = false end.

Definition sys_ok (s : Sys) : Prop :=
  (normal_ok s \/ dropped_ok s \/ released_ok s \/ ended_ok s) /\ limits_ok s /\ flight_ok (thread s).

Lemma prefixes_snoc a b x y : prefixes a b -> x `prefix_of` y -> prefixes (a ++ [x]) (b ++ [y]).
Proof. intros Ha Hx. apply Forall2_app; [done|]. by constructor. Qed.

Lemma sys_sent s : sys_ok s -> sent_ok s.
Proof.
  intros [[(_ & _ & _ & b & p & x & H1 & H2 & H3)|[(_ & _ & _ & _ & b & p & x & d & H1 & H2 & H3 & H4)|[(_ & _ & _ & _ & b & p & H1 & H2 & H3)|(_ & _ & H)]]] _].
  - exists (p ++ [x ++ in_flight (thread s) ++ reliable (mailbox s)]), []. rewrite H1, H2, app_nil_r. split; [done|].
    apply prefixes_snoc; [done|]. by apply prefix_app_r.
  - exists (p ++ [d]), [[]]. rewrite H1, H2, <- app_assoc. split; [done|]. apply prefixes_snoc; [done|]. etrans; [|exact H4]. by apply prefix_app_r.
  - exists (p ++ [[]]), []. rewrite H1, H2, app_nil_r. split; [done|]. by apply prefixes_snoc.
  - exact H.
Qed.

(** Nothing changes but the parts the invariant does not look at. *)
Lemma sys_frame s s' :
  resyncing (mailbox s') = resyncing (mailbox s) -> reliable (mailbox s') = reliable (mailbox s) -> releases s' = releases s ->
  ordinary s' = ordinary s -> (closed (mailbox s) = true -> closed (mailbox s') = true) -> thread s' = thread s -> wire s' = wire s ->
  log s' = log s -> sys_ok s -> sys_ok s'.
Proof.
  unfold sys_ok, normal_ok, dropped_ok, released_ok, ended_ok, sent_ok, limits_ok. intros -> -> -> -> Hc -> -> ->. tauto.
Qed.

Lemma filter_snoc {A} (f : A -> bool) l x : List.filter f (l ++ [x]) = List.filter f l ++ (if f x then [x] else []).
Proof. by rewrite List.filter_app. Qed.

Lemma send_critical_ok s p : sys_ok s -> sys_ok (mkSys (send_critical (mailbox s) p).2 (thread s) (wire s) (log s)).
Proof.
  intros Hok. unfold send_critical. destruct (writer_ready (mailbox s)); [|by destruct s]. case_match eqn:Hl; [by destruct s|]. bool_hyps. cbn [snd].
  destruct Hok as (H1 & (L1 & L2 & L3) & H3).
  assert (Hr : releases (mkSys (mkWriter (critical (mailbox s) ++ [mkQueued p false]) (reliable (mailbox s)) (latest_move (mailbox s))
    (resyncing (mailbox s)) (closed (mailbox s)) (write_error (mailbox s))) (thread s) (wire s) (log s)) = releases s).
  { unfold releases. cbn [mailbox critical thread]. rewrite filter_snoc. cbn. by rewrite app_nil_r. }
  split_and!; [|split_and!|done].
  - unfold normal_ok, dropped_ok, released_ok, ended_ok, sent_ok in *. rewrite Hr. exact H1.
  - exact L1.
  - unfold ordinary. cbn [mailbox critical]. rewrite filter_snoc, length_app. cbn [negb completes_resync length].
    pose proof (List.filter_length_le (fun q => negb (completes_resync q)) (critical (mailbox s))). unfold ORDINARY_CRITICAL_LIMIT in *. lia.
  - rewrite Hr. exact L3.
Qed.

Lemma send_move_ok s p : sys_ok s -> sys_ok (mkSys (send_latest_move (mailbox s) p).2 (thread s) (wire s) (log s)).
Proof.
  unfold send_latest_move. destruct (writer_ready (mailbox s)); [|by destruct s]. destruct (resyncing (mailbox s)) eqn:E; [by destruct s|].
  apply sys_frame; try done.
Qed.

Lemma shutdown_ok s : sys_ok s -> sys_ok (mkSys (shutdown (mailbox s)) (thread s) (wire s) (log s)).
Proof. by apply sys_frame. Qed.

Lemma ready_open s : writer_ready s = Ok tt -> closed s = false.
Proof. unfold writer_ready. repeat case_match; done. Qed.

(** While input is accepted nothing waits to be released. *)
Lemma open_normal s : sys_ok s -> closed (mailbox s) = false -> resyncing (mailbox s) = false -> normal_ok s.
Proof. intros [[H|[(H & _)|[(H & _)|(_ & H & _)]]] _] Hc Hr; [done|congruence..]. Qed.

(** The log of a call of [send_reliable]. *)
Definition reliable_entry (m : WriterState) (p release : Packet) : list (option Packet) :=
  match send_reliable m p release with
  | (Ok _, _) => [Some p]
  | (Err _, m') => if resyncing m' && negb (resyncing m) then [None] else []
  end.

Lemma send_reliable_ok s p release :
  sys_ok s ->
  sys_ok (mkSys (send_reliable (mailbox s) p release).2 (thread s) (wire s) (log s ++ reliable_entry (mailbox s) p release)).
Proof.
  intros Hok. unfold reliable_entry, send_reliable. destruct (writer_ready (mailbox s)) as [[]|e] eqn:Hrdy; cbn [snd].
  2: { rewrite andb_negb_r, app_nil_r. by destruct s. }
  destruct (resyncing (mailbox s)) eqn:Hre; cbn [snd]; [rewrite Hre; cbn; rewrite app_nil_r; by destruct s|].
  pose proof (open_normal s Hok (ready_open _ Hrdy) Hre) as (_ & Hrel & Hth & b & pa & x & H1 & H2 & H3).
  destruct Hok as (_ & (L1 & L2 & L3) & Hf). destruct (RELIABLE_INPUT_LIMIT <=? length (reliable (mailbox s)))%nat eqn:Hl; bool_hyps; cbn [snd].
  - assert (Hone : releases (mkSys (mkWriter (mkQueued release true :: critical (mailbox s)) [] None true (closed (mailbox s))
      (write_error (mailbox s))) (thread s) (wire s) (log s)) = 1%nat).
    { unfold releases in *. cbn [mailbox critical thread List.filter completes_resync length]. lia. }
    split_and!; [right; left|split_and!|done].
    + split_and!; [done| |done|done|].
      * exact Hone.
      * exists b, pa, x, (x ++ in_flight (thread s) ++ reliable (mailbox s)). cbn [mailbox resyncing negb andb wire log thread].
        rewrite segments_none, H2, <- app_assoc. split_and!; [done..|]. rewrite app_assoc. by apply prefix_app_r.
    + cbn. lia.
    + exact L2.
    + apply Nat.eq_le_incl. exact Hone.
  - split_and!; [left|split_and!|done].
    + split_and!; [done|done|done|]. exists b, pa, x. split_and!; [done| |done]. cbn [log mailbox reliable thread].
      rewrite (segments_some _ p _ _ H2). by rewrite <- !app_assoc.
    + cbn [mailbox reliable]. rewrite length_app. cbn. lia.
    + exact L2.
    + cbn [mailbox resyncing]. rewrite Hre in L3. exact L3.
Qed.

(** *** The thread *)

Lemma inputs_snoc w sq : inputs (w ++ [sq]) = inputs w ++ match input_of sq with Some i => [i] | None => [] end.
Proof. unfold inputs. by rewrite omap_app. Qed.

(** Taking the next packet. *)
Lemma take_ok s src q m :
  sys_ok s -> thread s = Waiting -> take_next (mailbox s) = Some (src, q, m) -> sys_ok (mkSys m (Writing src q) (wire s) (log s)).
Proof.
  intros (Hcases & (L1 & L2 & _) & _) Ht. unfold take_next.
  assert (Hc : (normal_ok s \/ dropped_ok s)) by (destruct Hcases as [H|[H|[(_ & _ & H & _)|(H & _)]]]; [by left|by right|congruence..]).
  clear Hcases. intros Hn. assert (Hs : normal_ok (mkSys m (Writing src q) (wire s) (log s)) \/ dropped_ok (mkSys m (Writing src q) (wire s) (log s))).
  { unfold normal_ok, dropped_ok, releases in *. rewrite Ht in Hc. cbn [in_flight app] in Hc.
    destruct (critical (mailbox s)) as [|q0 rest] eqn:Hq.
    - destruct (reliable (mailbox s)) as [|p0 rest] eqn:Hr; [destruct (latest_move (mailbox s)) as [p0|] eqn:Hm; [|done]|];
        injection Hn as <- <- <-; cbn in *; destruct Hc as [(R & N & T & Hc)|(R & N & T & Hl & Hc)]; try done; left; by split_and!.
    - injection Hn as <- <- <-. destruct Hc as [(R & N & T & Hc)|(R & N & T & Hl & Hc)]; [left|right]; cbn in *;
        (split_and!; [done|destruct (completes_resync q0); cbn in *; lia|done|..]); done. }
  split_and!; [tauto|split_and!|].
  - destruct (critical (mailbox s)), (reliable (mailbox s)), (latest_move (mailbox s)); simplify_eq; cbn in *; lia.
  - unfold ordinary in *. destruct (critical (mailbox s)) as [|q0 l], (reliable (mailbox s)), (latest_move (mailbox s)); simplify_eq;
      cbn in *; try lia; destruct (completes_resync q); cbn in *; lia.
  - destruct Hs as [(-> & -> & _)|(-> & -> & _)]; lia.
  - destruct (critical (mailbox s)) as [|q0 l], (reliable (mailbox s)), (latest_move (mailbox s)); by simplify_eq.
Qed.

(** Writing a packet. *)
Lemma written_ok s src q :
  sys_ok s -> thread s = Writing src q ->
  sys_ok (mkSys (mailbox s) (if completes_resync q then Resuming else Waiting) (wire s ++ [(src, q)]) (log s)).
Proof.
  intros (Hcases & (L1 & L2 & _) & Hf) Ht. rewrite Ht in Hf.
  assert (Hc : (normal_ok s \/ dropped_ok s)) by (destruct Hcases as [H|[H|[(_ & _ & H & _)|(H & _)]]]; [by left|by right|congruence..]).
  clear Hcases. unfold normal_ok, dropped_ok, releases in Hc. rewrite Ht in Hc.
  split_and!; [|split_and!; [exact L1|exact L2|]|by destruct (completes_resync q)].
  2: { unfold releases. cbn [mailbox thread]. destruct Hc as [(-> & N & _)|(-> & N & _)]; destruct (completes_resync q); lia. }
  unfold normal_ok, dropped_ok, released_ok, releases. cbn [mailbox thread wire log].
  rewrite !inputs_snoc. destruct src; cbn [input_of in_flight flight_ok] in *.
  - destruct (completes_resync q) eqn:Hq.
    + right. right. left. destruct Hc as [(R & N & T & Hc)|(R & N & T & Hl & b & pa & x & d & H1 & H2 & H3 & H4)]; [lia|].
      split_and!; [done|lia|done|done|]. rewrite app_nil_r in H4. exists (b ++ [x]), (pa ++ [d]). rewrite segments_none, H1, H2, <- !app_assoc.
      split_and!; [done..|]. by apply prefixes_snoc.
    + rewrite app_nil_r. destruct Hc as [(R & N & T & Hc)|(R & N & T & Hl & Hc)]; [left|right; left]; split_and!; (done || lia).
  - rewrite Hf. destruct Hc as [(R & N & T & b & pa & x & H1 & H2 & H3)|(R & N & T & Hl & b & pa & x & d & H1 & H2 & H3 & H4)]; [left|right; left].
    + split_and!; [done|lia|done|]. exists b, pa, (x ++ [q_packet q]). rewrite (segments_some _ _ _ _ H1), H2, <- !app_assoc. done.
    + split_and!; [done|lia|done|done|]. exists b, pa, (x ++ [q_packet q]), d. rewrite (segments_some _ _ _ _ H1), app_nil_r. done.
  - rewrite Hf, app_nil_r. destruct Hc as [(R & N & T & Hc)|(R & N & T & Hl & Hc)]; [left|right; left]; split_and!; (done || lia).
Qed.

Lemma worker_ok written s s' : worker_step written s = Some s' -> sys_ok s -> sys_ok s'.
Proof.
  intros Hw Hok. pose proof (sys_sent s Hok) as Hsent. unfold worker_step in Hw. destruct (thread s) as [|src q| |] eqn:Ht; [| | |done].
  - destruct (closed (mailbox s)) eqn:Hc.
    + injection Hw as <-. destruct Hok as (_ & (L1 & L2 & L3) & _).
      split_and!; [|split_and!; [exact L1|exact L2|]|done]; [right; right; right; by split_and!|]. unfold releases in *. cbn [mailbox thread]. rewrite Ht in L3. exact L3.
    + destruct (take_next (mailbox s)) as [[[src q] m]|] eqn:Hn; [|done]. injection Hw as <-. by eapply take_ok.
  - destruct (written (q_packet q)) as [[]|e]; injection Hw as <-; [by apply written_ok|].
    destruct Hok as (_ & (L1 & L2 & L3) & _). split_and!; [|split_and!; [exact L1|exact L2|]|done]; [right; right; right; by split_and!|].
    unfold releases in *. cbn [mailbox thread fail_write critical resyncing]. lia.
  - injection Hw as <-. destruct Hok as (Hcases & (L1 & L2 & _) & _).
    assert (Hnone : releases s = O) by (destruct Hcases as [(_ & H & _)|[(_ & _ & H & _)|[(_ & H & _)|(H & _)]]]; congruence).
    unfold releases in Hnone. rewrite Ht in Hnone. split_and!; [|split_and!; [exact L1|exact L2|]|done]; [left|unfold releases; cbn; lia].
    destruct Hcases as [(_ & _ & H & _)|[(_ & _ & H & _)|[(R & N & _ & Hl & b & pa & H1 & H2 & H3)|(H & _)]]]; [congruence..| |congruence].
    split_and!; [done| |done|].
    + unfold releases in *. rewrite Ht in N. exact N.
    + exists b, pa, []. cbn. by rewrite Hl.
Qed.

Lemma writer_reachable_ok s : reachable s -> sys_ok s.
Proof.
  intros Hr. refine (rtc_ind_r sys_ok initial _ _ s Hr).
  - split_and!; [left|split; cbn; lia|done]. split_and!; [done..|]. exists [], [], []. split_and!; [done|done|constructor].
  - intros s1 s2 _ H12 IH. destruct H12; [by apply send_critical_ok|by apply send_move_ok| |by apply shutdown_ok|by eapply worker_ok].
    by apply send_reliable_ok.
Qed.

(** C11: Input that is dropped is always made up for before anything else is sent: cut at the
    overflows on one side and at the releases of all inputs on the other, what is on the wire
    is, segment by segment, a part from the beginning of what was accepted; and when the
    writer is idle everything accepted since the last overflow has been sent. Whatever the
    callbacks and the thread do, and however the helper stalls. *)
Theorem dropped_input_released (s : Sys) :
  reachable s ->
  (exists accepted rest, segments (log s) = accepted ++ rest /\ Forall2 prefix (segments (inputs (wire s))) accepted)
  /\ (thread s = Waiting -> take_next (mailbox s) = None ->
      length (segments (inputs (wire s))) = length (segments (log s))
      /\ last (segments (inputs (wire s))) = last (segments (log s))).
Proof.
  intros Hr%writer_reachable_ok. split; [by apply sys_sent|]. intros Ht Hn.
  assert (Hq : critical (mailbox s) = [] /\ reliable (mailbox s) = []) by (unfold take_next in Hn; repeat case_match; done).
  destruct Hq as [Hq Hl]. destruct Hr as [[H|[(_ & N & _)|[(_ & _ & H & _)|(H & _)]]] _]; [|unfold releases in N; rewrite Hq, Ht in N; done|congruence..].
  destruct H as (_ & _ & _ & b & pa & x & H1 & H2 & H3). rewrite Ht, Hl in H2. cbn [in_flight app] in H2. rewrite app_nil_r in H2.
  rewrite H1, H2, !length_app, !last_snoc, (Forall2_length _ _ _ H3). done.
Qed.

(** The queues are bounded in every reachable state: at most 256 packets of reliable input
    and 32 critical ones, of which the last slot is only ever taken by a release, so that an
    overflow can always queue it. *)
Theorem writer_queues_bounded (s : Sys) :
  reachable s ->
  (length (reliable (mailbox s)) <= RELIABLE_INPUT_LIMIT)%nat /\ (length (critical (mailbox s)) <= CRITICAL_LIMIT)%nat
  /\ (resyncing (mailbox s) = false -> length (critical (mailbox s)) <= ORDINARY_CRITICAL_LIMIT)%nat.
Proof.
  intros Hr%writer_reachable_ok. destruct Hr as (Hcases & (L1 & L2 & L3) & _). split; [exact L1|].
  assert (Hlen : length (critical (mailbox s)) = (ordinary s + length (List.filter completes_resync (critical (mailbox s))))%nat).
  { unfold ordinary. induction (critical (mailbox s)) as [|q l IH]; [done|]. cbn. destruct (completes_resync q); cbn; lia. }
  unfold releases in L3. unfold CRITICAL_LIMIT, ORDINARY_CRITICAL_LIMIT in *. unfold CRITICAL_LIMIT in *.
  destruct (resyncing (mailbox s)); split; try done; intros; lia.
Qed.

(** *** Recovery *)

(** The thread's turns while the helper takes everything. *)
Fixpoint worker_run (n : nat) (s : Sys) : option Sys :=
  match n with O => Some s | S n => worker_step (fun _ => Ok tt) s ≫= worker_run n end.

Lemma open_facts s : reachable s -> closed (mailbox s) = false -> write_error (mailbox s) = None /\ thread s <> Ended.
Proof.
  assert (Hi : reachable s -> (write_error (mailbox s) <> None \/ thread s = Ended) -> closed (mailbox s) = true).
  { intros Hr. refine (rtc_ind_r (fun s => _ -> closed (mailbox s) = true) initial _ _ s Hr); [by intros [|]|].
    intros s1 s2 _ H12 IH. destruct H12 as [s1 p|s1 p|s1 p r|s1|s1 w s2 Hw]; cbn [mailbox thread].
    1-3: unfold send_critical, send_latest_move, send_reliable; destruct (writer_ready _); [repeat case_match; exact IH|exact IH].
    - done.
    - unfold worker_step, take_next in Hw. repeat case_match; simplify_eq; cbn; try done;
        (intros [Hx|Hx]; [first [apply IH; by left|discriminate (IH (or_introl Hx))]|done]). }
  intros Hr Hc. split; [|intros E; rewrite Hi in Hc; naive_solver]. destruct (write_error (mailbox s)) eqn:E; [|done].
  rewrite Hi in Hc; [done|done|]. left. congruence.
Qed.

Definition backlog (s : Sys) : nat :=
  (3 * (length (critical (mailbox s)) + length (reliable (mailbox s)) + match latest_move (mailbox s) with Some _ => 1 | None => 0 end)
   + match thread s with Writing _ _ => 2 | Resuming => 1 | _ => 0 end)%nat.

Lemma worker_backlog s s' :
  worker_step (fun _ => Ok tt) s = Some s' -> closed (mailbox s) = false ->
  (backlog s' < backlog s)%nat /\ closed (mailbox s') = false.
Proof.
  unfold worker_step, take_next, backlog. intros Hw Hc. repeat case_match; simplify_eq; cbn -[Nat.mul] in *; (split; [lia || congruence|done]).
Qed.

Lemma worker_drains s :
  closed (mailbox s) = false -> reachable s ->
  exists n s', worker_run n s = Some s' /\ worker_step (fun _ => Ok tt) s' = None /\ closed (mailbox s') = false /\ reachable s'.
Proof.
  remember (backlog s) as k eqn:Hk. revert s Hk. induction k as [k IH] using lt_wf_ind. intros s -> Hc Hr.
  destruct (worker_step (fun _ => Ok tt) s) as [s1|] eqn:E; [|by exists O, s].
  destruct (worker_backlog s s1 E Hc) as [Hlt Hc1]. destruct (IH _ Hlt s1 eq_refl Hc1) as (n & s' & Hn & Hrest).
  { eapply rtc_r; [exact Hr|by eapply step_worker]. }
  exists (S n), s'. cbn. by rewrite E.
Qed.

(** The writer always recovers: as long as it is open and the helper takes what is
    written, the thread empties every queue in finitely many turns of its own, also in the
    middle of a resynchronisation, after which input is accepted again. *)
Theorem writer_recovers (s : Sys) :
  reachable s -> closed (mailbox s) = false ->
  exists n s', worker_run n s = Some s' /\ thread s' = Waiting /\ take_next (mailbox s') = None /\ resyncing (mailbox s') = false
  /\ forall p release, (send_reliable (mailbox s') p release).1 = Ok tt.
Proof.
  intros Hr Hc. destruct (worker_drains s Hc Hr) as (n & s' & Hn & Hw & Hc' & Hr'). exists n, s'. split; [done|].
  destruct (open_facts s' Hr' Hc') as [He Ht]. unfold worker_step in Hw. destruct (thread s') eqn:Et; [|done..].
  rewrite Hc' in Hw. destruct (take_next (mailbox s')) as [[[? ?] ?]|] eqn:En; [done|]. split_and!; [done..| |].
  all: assert (Hq : critical (mailbox s') = [] /\ reliable (mailbox s') = []) by (unfold take_next in En; repeat case_match; done).
  all: destruct Hq as [Hq Hl]; assert (Hre : resyncing (mailbox s') = false)
    by (apply writer_reachable_ok in Hr' as [[(H & _)|[(_ & H & _)|[(_ & _ & H & _)|(H & _)]]] _];
        [done|unfold releases in H; by rewrite Hq, Et in H|congruence..]).
  - exact Hre.
  - intros p release. unfold send_reliable, writer_ready. by rewrite He, Hc', Hre, Hl.
Qed.

(** ** Standard error *)

Definition STDERR_LINE_LIMIT : nat := 4096.

Record SessionOptions := mkOptions {
  o_width : Z; o_height : Z; desktop_scale_factor : option Z; color_depth : Z; graphics_requested : bool;
  graphics_effective : bool; performance_flags : Z; credssp_enabled : bool; administrative_session_requested : bool }.

Record StderrSummary := mkSummary {
  options : option SessionOptions; discarded_lines : Z; oversized_lines : Z; read_failed : bool }.

Definition decimal (value : bytes) : option Z :=
  if forallb (fun b => between 48 57 b) value then parse_uint 32 10 value else None.

(** The fields read so far, in the order of [SessionOptions]. *)
Record Fields := mkFields {
  f_width : option Z; f_height : option Z; f_scale : option Z; f_depth : option Z; f_requested : option Z;
  f_effective : option Z; f_flags : option Z; f_nla : option Z; f_console : option Z }.

(** The body of the loop over the fields; [None] is an early return. *)
Definition read_field (f : Fields) (field : bytes) : option Fields :=
  '(name, value) ← split_once 61 field;
  let '(mkFields w h sc d rq ef fl nl co) := f in
  if word_is name "width" then Some (mkFields (decimal value) h sc d rq ef fl nl co)
  else if word_is name "height" then Some (mkFields w (decimal value) sc d rq ef fl nl co)
  else if word_is name "scale" then Some (mkFields w h (decimal value) d rq ef fl nl co)
  else if word_is name "depth" then Some (mkFields w h sc (decimal value) rq ef fl nl co)
  else if word_is name "gfx_requested" then Some (mkFields w h sc d (decimal value) ef fl nl co)
  else if word_is name "gfx_effective" then Some (mkFields w h sc d rq (decimal value) fl nl co)
  else if word_is name "perf" then
    digits ← strip_prefix (bs "0x") value; Some (mkFields w h sc d rq ef (parse_uint 32 16 digits) nl co)
  else if word_is name "nla" then Some (mkFields w h sc d rq ef fl (decimal value) co)
  else if word_is name "console" then Some (mkFields w h sc d rq ef fl nl (decimal value))
  else None.

Fixpoint read_fields (f : Fields) (fields : list bytes) : option Fields :=
  match fields with [] => Some f | field :: rest => f' ← read_field f field; read_fields f' rest end.

(** [trim_end_matches('\r')]. *)
Fixpoint trim_cr (s : bytes) : bytes :=
  match s with
  | [] => []
  | b :: s' => match trim_cr s' with [] => if b =? 13 then [] else [b] | t => b :: t end
  end.

Definition session_options (line : bytes) : option SessionOptions :=
  if negb (utf8_valid line) then None else
  rest ← strip_prefix (bs "RDP session options ") (trim_cr line);
  f ← read_fields (mkFields None None None None None None None None None) (split 32 rest);
  width ← f_width f; height ← f_height f; depth ← f_depth f; requested ← f_requested f; effective ← f_effective f;
  flags ← f_flags f; nla ← f_nla f; console ← f_console f;
  if (65535 <? width) || (65535 <? height) || match f_scale f with Some scale => 500 <? scale | None => false end
     || negb (existsb (Z.eqb depth) [16; 24; 32]) || negb (Z.land flags (unot 32 511) =? 0)
     || existsb (fun v => 1 <? v) [requested; effective; nla; console] then None
  else Some (mkOptions width height (f_scale f) depth (negb (requested =? 0)) (negb (effective =? 0)) flags (negb (nla =? 0))
               (negb (console =? 0))).

(** [finish_line]: the summary after a line. *)
Definition finish_line (line : bytes) (oversized : bool) (s : StderrSummary) : StderrSummary :=
  if oversized then mkSummary (options s) (discarded_lines s) (sat_add 64 (oversized_lines s) 1) (read_failed s)
  else if bool_decide (line = []) || bool_decide (line = [13]) then s
  else match session_options line with
       | Some o => mkSummary (Some o) (discarded_lines s) (oversized_lines s) (read_failed s)
       | None => mkSummary (options s) (sat_add 64 (discarded_lines s) 1) (oversized_lines s) (read_failed s)
       end.

(** One byte: the line, whether it is too long, and the summary. *)
Definition stderr_byte (st : bytes * bool * StderrSummary) (b : Z) : bytes * bool * StderrSummary :=
  let '(line, oversized, s) := st in
  if b =? 10 then ([], false, finish_line line oversized s)
  else if (length line <? STDERR_LINE_LIMIT)%nat then (line ++ [b], oversized, s)
  else (line, true, s).

Fixpoint stderr_loop (st : bytes * bool * StderrSummary) (r : reader) : bytes * bool * StderrSummary :=
  match r with
  | [] | Ok [] :: _ => st
  | Ok piece :: r' => stderr_loop (fold_left stderr_byte piece st) r'
  | Err (Interrupted, _) :: r' => stderr_loop st r'
  | Err _ :: _ => let '(line, oversized, s) := st in (line, oversized, mkSummary (options s) (discarded_lines s) (oversized_lines s) true)
  end.

Definition collect_stderr (r : reader) : StderrSummary :=
  let '(line, oversized, s) := stderr_loop ([], false, mkSummary None 0 0 false) r in finish_line line oversized s.

(** *** What it collects *)

(** What can be read before the end or an error, and whether there was an error. *)
Fixpoint readable (r : reader) : bytes * bool :=
  match r with
  | [] | Ok [] :: _ => ([], false)
  | Ok piece :: r' => (piece ++ (readable r').1, (readable r').2)
  | Err (Interrupted, _) :: r' => readable r'
  | Err _ :: _ => ([], true)
  end.

Definition too_long (line : bytes) : bool := (STDERR_LINE_LIMIT <? length line)%nat.
Definition add_line (s : StderrSummary) (line : bytes) : StderrSummary := finish_line line (too_long line) s.
Definition set_failed (s : StderrSummary) : StderrSummary := mkSummary (options s) (discarded_lines s) (oversized_lines s) true.

Lemma finish_failed line o s : finish_line line o (set_failed s) = set_failed (finish_line line o s).
Proof. unfold finish_line. repeat case_match; done. Qed.

Lemma split_not_nil s : split 10 s <> [].
Proof. destruct s as [|b s]; cbn [split]; [done|]. repeat case_match; done. Qed.

(** The state after [data] on a line that began with [line]. *)
Lemma stderr_lines data : forall line s,
  let '(l, o, s') := fold_left stderr_byte data (take STDERR_LINE_LIMIT line, too_long line, s) in
  finish_line l o s' = match split 10 data with x :: xs => fold_left add_line xs (add_line s (line ++ x)) | [] => s end.
Proof.
  induction data as [|b data IH]; intros line s; cbn [fold_left split].
  - rewrite app_nil_r. unfold add_line. destruct (too_long line) eqn:E; [done|]. unfold too_long in E. bool_hyps. by rewrite take_ge by lia.
  - cbn [stderr_byte]. destruct (b =? 10).
    + specialize (IH [] (finish_line (take STDERR_LINE_LIMIT line) (too_long line) s)). cbn [take] in IH.
      change (too_long []) with false in IH. change (take STDERR_LINE_LIMIT []) with (@nil Z) in IH. destruct (fold_left _ _ _) as [[l o] s']. rewrite IH.
      rewrite app_nil_r. assert (finish_line (take STDERR_LINE_LIMIT line) (too_long line) s = add_line s line) as ->.
      { unfold add_line. destruct (too_long line) eqn:E; [done|]. unfold too_long in E. bool_hyps. by rewrite take_ge by lia. }
      destruct (split 10 data) eqn:E; [by apply split_not_nil in E|done].
    + assert (Hstep : (if (length (take STDERR_LINE_LIMIT line) <? STDERR_LINE_LIMIT)%nat
                       then (take STDERR_LINE_LIMIT line ++ [b], too_long line, s) else (take STDERR_LINE_LIMIT line, true, s))
                      = (take STDERR_LINE_LIMIT (line ++ [b]), too_long (line ++ [b]), s)).
      { unfold too_long. rewrite length_app, length_take. cbn [length]. destruct (decide (length line < STDERR_LINE_LIMIT)%nat).
        - rewrite (proj2 (Nat.ltb_lt _ _)) by lia. rewrite !take_ge by (rewrite ?length_app; cbn; lia).
          rewrite !(proj2 (Nat.ltb_ge _ _)) by lia. done.
        - rewrite (proj2 (Nat.ltb_ge _ _)) by lia. rewrite take_app_le by lia. rewrite (proj2 (Nat.ltb_lt _ _)) by lia. done. }
      rewrite Hstep. specialize (IH (line ++ [b]) s). destruct (fold_left _ _ _) as [[l o] s']. rewrite IH.
      destruct (split 10 data) eqn:E; [by apply split_not_nil in E|]. by rewrite <- app_assoc.
Qed.

Lemma stderr_loop_readable st r :
  stderr_loop st r = let '(l, o, s) := fold_left stderr_byte (readable r).1 st in (l, o, if (readable r).2 then set_failed s else s).
Proof.
  revert st. induction r as [|[piece|[[] m]] r IH]; intros st; cbn [stderr_loop readable fst snd fold_left];
    try (by destruct st as [[l o] s]); try apply IH.
  destruct piece as [|b piece]; [by destruct st as [[l o] s]|]. rewrite IH. cbn [fst snd]. by rewrite fold_left_app.
Qed.

(** The summary of a helper's standard error depends only on the text that could be
    read: it is that of its lines one after the other, however the text was cut into pieces
    and however often reading was interrupted, where a line of more than 4096 bytes is only
    counted and an error that ends the text is noted. *)
Theorem stderr_summary_lines (r : reader) :
  collect_stderr r =
  let s := fold_left add_line (split 10 (readable r).1) (mkSummary None 0 0 false) in
  if (readable r).2 then set_failed s else s.
Proof.
  unfold collect_stderr. rewrite stderr_loop_readable. pose proof (stderr_lines (readable r).1 [] (mkSummary None 0 0 false)) as Hl.
  change (too_long []) with false in Hl. change (take STDERR_LINE_LIMIT []) with (@nil Z) in Hl.
  destruct (fold_left stderr_byte (readable r).1 _) as [[l o] s']. cbn [app] in Hl.
  destruct (split 10 (readable r).1) eqn:E; [by apply split_not_nil in E|]. cbn [fold_left]. rewrite <- Hl. destruct (readable r).2; [apply finish_failed|done].
Qed.

(** Accepted options are within the bounds of the protocol. *)
Lemma session_options_bounded line o :
  session_options line = Some o ->
  o_width o <= 65535 /\ o_height o <= 65535 /\ color_depth o ∈ [16; 24; 32] /\ Z.land (performance_flags o) (unot 32 511) = 0
  /\ (forall scale, desktop_scale_factor o = Some scale -> scale <= 500).
Proof.
  unfold session_options. case_match; [done|]. intros (rest & _ & (f & _ & (w & _ & (h & _ & (d & _ & (rq & _ & (ef & _ & (fl & _ & (nl & _ &
    (co & _ & Hx)%bind_Some)%bind_Some)%bind_Some)%bind_Some)%bind_Some)%bind_Some)%bind_Some)%bind_Some)%bind_Some)%bind_Some.
  destruct (_ || existsb (fun v => 1 <? v) _) eqn:E; [done|]. injection Hx as <-. bool_hyps. cbn.
  split_and!; [lia|lia| |lia|].
  - match goal with H : existsb (Z.eqb _) _ = true |- _ => apply existsb_exists in H as (x & Hin & ->%Z.eqb_eq) end. by apply list_elem_of_In.
  - intros scale Hs. rewrite Hs in *. bool_hyps. lia.
Qed.

(** ** Examples *)

Definition ex_ctl (n : Z) : Packet := mkPacket Control (from_vec [n]) default_pixels.

Example stderr_options :
  collect_stderr [Ok (bs "noise" ++ [10] ++ bs "RDP session options width=1920 height=1080 scale=150 "); Err (Interrupted, []);
                  Ok (bs "depth=32 gfx_requested=1 gfx_effective=0 perf=0x1f nla=1 console=0" ++ [13; 10])]
  = mkSummary (Some (mkOptions 1920 1080 (Some 150) 32 true false 31 true false)) 1 0 false.
Proof. vm_compute. reflexivity. Qed.

(** An overflow: 256 inputs wait, the next one drops them and queues the release first. *)
Definition ex_full : WriterState :=
  fold_left (fun m n => (send_reliable m (ex_ctl (Z.of_nat n)) (ex_ctl 999)).2) (seq 0 257) (send_critical default_writer (ex_ctl 1000)).2.

Example overflow_releases :
  reliable ex_full = [] /\ resyncing ex_full = true
  /\ critical ex_full = [mkQueued (ex_ctl 999) true; mkQueued (ex_ctl 1000) false].
Proof. vm_compute. done. Qed.

(** The mailbox after two inputs of which the thread writes the first. *)
Definition ex_sys : Sys :=
  mkSys (mkWriter [] [ex_ctl 2] None false false None) (Writing FromReliable (mkQueued (ex_ctl 1) false)) [] [Some (ex_ctl 1); Some (ex_ctl 2)].

Lemma ex_sys_reachable : reachable ex_sys.
Proof.
  apply (rtc_l _ _ _ _ (step_reliable initial (ex_ctl 1) (ex_ctl 9))). eapply rtc_l; [by apply (step_worker _ (fun _ => Ok tt))|].
  eapply rtc_l; [apply (step_reliable _ (ex_ctl 2) (ex_ctl 9))|]. apply rtc_refl.
Defined.

Lemma dropped_input_released_witness :
  exists accepted rest, segments (log ex_sys) = accepted ++ rest /\ Forall2 prefix (segments (inputs (wire ex_sys))) accepted.
Proof. exact (proj1 (dropped_input_released ex_sys ex_sys_reachable)). Defined.

Lemma writer_queues_bounded_witness : (length (critical (mailbox ex_sys)) <= CRITICAL_LIMIT)%nat.
Proof. exact (proj1 (proj2 (writer_queues_bounded ex_sys ex_sys_reachable))). Defined.

Lemma writer_recovers_witness :
  exists n s', worker_run n ex_sys = Some s' /\ thread s' = Waiting /\ take_next (mailbox s') = None /\ resyncing (mailbox s') = false
  /\ forall p release, (send_reliable (mailbox s') p release).1 = Ok tt.
Proof. exact (writer_recovers ex_sys ex_sys_reachable eq_refl). Defined.
