(* ===== verification/TextEdit.v ===== *)
(** * The single-line text field

    [src/crates/nyaterm-core/src/text_edit.rs]: an editing buffer with a caret and a
    selection held as byte offsets. The byte-level code is modelled with the panics of
    slicing off a character boundary, and proved to implement an editor on a list of
    characters in which offsets count characters. Which characters are alphanumeric is a
    parameter. *)

From stdpp Require Import base option list numbers strings.
From Stdlib Require Import ZArith Lia.
From S2P Require Import Prelude RustStr RustText RustChar.

Local Open Scope nat_scope.
Local Open Scope rust_scope.

Inductive CursorMotion := MLeft | MRight | MWordLeft | MWordRight | MStart | MEnd.
Inductive CharClass := Space | Word | Punctuation.
#[export] Instance CharClass_eq_dec : EqDecision CharClass.
Proof. solve_decision. Defined.

Record TextEdit := mkEdit { content : bytes; cursor : nat; anchor : option nat }.

Section TextEdit.
Context (is_alphanumeric : bytes -> bool).

Definition char_class (c : bytes) : CharClass :=
  if negb (ws_len c =? 0) then Space
  else if is_alphanumeric c || bool_decide (c = bs "_") then Word
  else Punctuation.

(** ** Offsets *)

Definition floor_boundary (e : TextEdit) (offset : nat) : nat :=
  floor_loop (content e) (Nat.min offset (length (content e))).

Definition previous_boundary (e : TextEdit) (offset : nat) : outcome nat :=
  let offset := floor_boundary e offset in
  p <-! slice_to (content e) offset;
  Ret (match last (chars p) with Some c => length p - length c | None => 0 end).

(** [s.chars().next()]. *)
Definition next_char (s : bytes) : option bytes := head (chars s).

Definition next_boundary (e : TextEdit) (offset : nat) : outcome nat :=
  let offset := floor_boundary e offset in
  p <-! slice_from (content e) offset;
  Ret (match next_char p with Some c => offset + length c | None => offset end).

(** [while index > 0]: step back over characters of class [kind]. The index is enough
    fuel. *)
Fixpoint back_while (fuel : nat) (kind : CharClass) (e : TextEdit) (index : nat) : outcome nat :=
  match fuel with
  | O => Ret index
  | S fuel' =>
    if 0 <? index then
      previous <-! previous_boundary e index;
      p <-! slice_from (content e) previous;
      match next_char p with
      | Some c => if decide (char_class c = kind) then back_while fuel' kind e previous else Ret index
      | None => Ret index
      end
    else Ret index
  end.

(** [while index < len]: step over characters of class [kind]; the bytes left are enough
    fuel. *)
Fixpoint forward_while (fuel : nat) (kind : CharClass) (e : TextEdit) (index : nat) : outcome nat :=
  match fuel with
  | O => Ret index
  | S fuel' =>
    if index <? length (content e) then
      p <-! slice_from (content e) index;
      match next_char p with
      | Some c => if decide (char_class c = kind) then forward_while fuel' kind e (index + length c) else Ret index
      | None => Ret index
      end
    else Ret index
  end.

Definition class_at (e : TextEdit) (offset : nat) : outcome (option CharClass) :=
  p <-! slice_from (content e) offset; Ret (char_class <$> next_char p).

Definition class_before (e : TextEdit) (offset : nat) : outcome (option CharClass) :=
  if offset =? 0 then Ret None
  else previous <-! previous_boundary e offset; class_at e previous.

Definition word_boundary_before (e : TextEdit) (offset : nat) : outcome nat :=
  let index := floor_boundary e offset in
  index <-! back_while index Space e index;
  kind <-! class_before e index;
  match kind with None => Ret index | Some k => back_while index k e index end.

Definition word_boundary_after (e : TextEdit) (offset : nat) : outcome nat :=
  let index := floor_boundary e offset in
  index <-! forward_while (length (content e)) Space e index;
  kind <-! class_at e index;
  match kind with None => Ret index | Some k => forward_while (length (content e)) k e index end.

Definition word_range_at (e : TextEdit) (offset : nat) : outcome (nat * nat) :=
  let offset := floor_boundary e offset in
  match content e with
  | [] => Ret (0, 0)
  | _ =>
    probe <-! (if offset =? length (content e) then previous_boundary e offset else Ret offset);
    kind <-! class_at e probe;
    match kind with
    | None => Ret (offset, offset)
    | Some k =>
      start <-! back_while probe k e probe;
      end_ <-! forward_while (length (content e)) k e probe;
      Ret (start, end_)
    end
  end.

(** ** Operations *)

Definition new_edit (s : bytes) : TextEdit := mkEdit s (length s) None.

Definition collapse_empty_selection (e : TextEdit) : TextEdit :=
  if bool_decide (anchor e = Some (cursor e)) then mkEdit (content e) (cursor e) None else e.

Definition set_content (e : TextEdit) (s : bytes) : TextEdit :=
  let e := mkEdit s (cursor e) (anchor e) in
  let e := mkEdit s (floor_boundary e (cursor e)) (anchor e) in
  let e := mkEdit s (cursor e) (floor_boundary e <$> anchor e) in
  collapse_empty_selection e.

Definition selection (e : TextEdit) : nat * nat :=
  match anchor e with
  | Some a => if a <=? cursor e then (a, cursor e) else (cursor e, a)
  | None => (cursor e, cursor e)
  end.

Definition has_selection (e : TextEdit) : bool := match anchor e with Some _ => true | None => false end.

Definition set_selection (e : TextEdit) (a b : nat) (reversed : bool) : TextEdit :=
  let start := floor_boundary e a in
  let end_ := floor_boundary e (Nat.max b a) in
  collapse_empty_selection
    (if reversed then mkEdit (content e) start (Some end_) else mkEdit (content e) end_ (Some start)).

Definition set_cursor (e : TextEdit) (offset : nat) : TextEdit :=
  mkEdit (content e) (floor_boundary e offset) None.

Definition select_all (e : TextEdit) : TextEdit :=
  collapse_empty_selection (mkEdit (content e) (length (content e)) (Some 0)).

Definition replace (e : TextEdit) (a b : nat) (text : bytes) : outcome TextEdit :=
  let start := floor_boundary e a in
  let end_ := Nat.max (floor_boundary e b) start in
  c <-! replace_range (content e) start end_ text;
  Ret (mkEdit c (start + length text) None).

Definition insert_text (e : TextEdit) (text : bytes) : outcome TextEdit :=
  let r := selection e in replace e r.1 r.2 text.

(** [range.is_empty()] and the common end of the three deletions. *)
Definition range_empty (r : nat * nat) : bool := negb (r.1 <? r.2).
Definition delete_range (e : TextEdit) (r : nat * nat) : outcome (TextEdit * bool) :=
  if range_empty r then Ret (e, false) else e' <-! replace e r.1 r.2 []; Ret (e', true).

Definition delete_backward (e : TextEdit) : outcome (TextEdit * bool) :=
  let range := selection e in
  range <-! (if range_empty range then p <-! previous_boundary e (cursor e); Ret (p, cursor e) else Ret range);
  delete_range e range.

Definition delete_forward (e : TextEdit) : outcome (TextEdit * bool) :=
  let range := selection e in
  range <-! (if range_empty range then n <-! next_boundary e (cursor e); Ret (cursor e, n) else Ret range);
  delete_range e range.

Definition delete_word_backward (e : TextEdit) : outcome (TextEdit * bool) :=
  let range := selection e in
  range <-! (if range_empty range then p <-! word_boundary_before e (cursor e); Ret (p, cursor e) else Ret range);
  delete_range e range.

(** The target of a motion, and what [move_cursor] does with it. *)
Definition motion_target (e : TextEdit) (motion : CursorMotion) : outcome nat :=
  match motion with
  | MLeft => previous_boundary e (cursor e)
  | MRight => next_boundary e (cursor e)
  | MWordLeft => word_boundary_before e (cursor e)
  | MWordRight => word_boundary_after e (cursor e)
  | MStart => Ret 0
  | MEnd => Ret (length (content e))
  end.

Definition move_to_target (e : TextEdit) (motion : CursorMotion) (extend : bool) : outcome TextEdit :=
  next <-! motion_target e motion;
  Ret (if extend
       then collapse_empty_selection (mkEdit (content e) next (Some (default (cursor e) (anchor e))))
       else set_cursor e next).

Definition move_cursor (e : TextEdit) (motion : CursorMotion) (extend : bool) : outcome TextEdit :=
  if negb extend && has_selection e then
    match motion with
    | MLeft | MWordLeft => Ret (set_cursor e (selection e).1)
    | MRight | MWordRight => Ret (set_cursor e (selection e).2)
    | MStart | MEnd => move_to_target e motion extend
    end
  else move_to_target e motion extend.

(** The public operations, and a sequence of them. *)
Inductive edit_op :=
| SetContent (s : bytes) | SetSelection (a b : nat) (reversed : bool) | SetCursor (offset : nat) | SelectAll
| Replace (a b : nat) (text : bytes) | Insert (text : bytes) | DeleteBackward | DeleteForward | DeleteWordBackward
| MoveCursor (motion : CursorMotion) (extend : bool).

Definition run_op (e : TextEdit) (op : edit_op) : outcome TextEdit :=
  match op with
  | SetContent s => Ret (set_content e s)
  | SetSelection a b r => Ret (set_selection e a b r)
  | SetCursor o => Ret (set_cursor e o)
  | SelectAll => Ret (select_all e)
  | Replace a b t => replace e a b t
  | Insert t => insert_text e t
  | DeleteBackward => r <-! delete_backward e; Ret r.1
  | DeleteForward => r <-! delete_forward e; Ret r.1
  | DeleteWordBackward => r <-! delete_word_backward e; Ret r.1
  | MoveCursor m x => move_cursor e m x
  end.

Fixpoint run_ops (e : TextEdit) (ops : list edit_op) : outcome TextEdit :=
  match ops with [] => Ret e | op :: ops' => e' <-! run_op e op; run_ops e' ops' end.

(** ** The editor on characters *)

(** A document is a list of characters; the caret and the mark count characters. *)
Record CharEdit := mkChar { doc : list bytes; caret : nat; mark : option nat }.

(** The length of the run of class [kind] that ends before, or starts at, a position. *)
Fixpoint back (kind : CharClass) (D : list bytes) (i : nat) : nat :=
  match i with
  | O => 0
  | S j => match D !! j with Some c => if decide (char_class c = kind) then back kind D j else i | None => i end
  end.
Fixpoint run_len (kind : CharClass) (l : list bytes) : nat :=
  match l with c :: l' => if decide (char_class c = kind) then S (run_len kind l') else 0 | [] => 0 end.
Definition fwd (kind : CharClass) (D : list bytes) (i : nat) : nat := i + run_len kind (drop i D).

(** White space is skipped, then one run of a class. *)
Definition word_back (D : list bytes) (i : nat) : nat :=
  let i := back Space D i in
  match D !! (i - 1) with Some c => if i =? 0 then i else back (char_class c) D i | None => i end.
Definition word_fwd (D : list bytes) (i : nat) : nat :=
  let i := fwd Space D i in
  match D !! i with Some c => fwd (char_class c) D i | None => i end.

Definition a_collapse (a : CharEdit) : CharEdit :=
  if bool_decide (mark a = Some (caret a)) then mkChar (doc a) (caret a) None else a.
Definition a_sel (a : CharEdit) : nat * nat :=
  match mark a with Some m => (Nat.min m (caret a), Nat.max m (caret a)) | None => (caret a, caret a) end.
Definition a_replace (a : CharEdit) (lo hi : nat) (cs : list bytes) : CharEdit :=
  mkChar (take lo (doc a) ++ cs ++ drop hi (doc a)) (lo + length cs) None.
Definition a_delete (a : CharEdit) (lo hi : nat) : CharEdit :=
  let r := match mark a with Some _ => a_sel a | None => (lo, hi) end in
  if r.1 <? r.2 then a_replace a r.1 r.2 [] else a.
Definition a_target (a : CharEdit) (m : CursorMotion) : nat :=
  match m with
  | MLeft => caret a - 1
  | MRight => Nat.min (S (caret a)) (length (doc a))
  | MWordLeft => word_back (doc a) (caret a)
  | MWordRight => word_fwd (doc a) (caret a)
  | MStart => 0
  | MEnd => length (doc a)
  end.
Definition a_move (a : CharEdit) (m : CursorMotion) (extend : bool) : CharEdit :=
  if extend then a_collapse (mkChar (doc a) (a_target a m) (Some (default (caret a) (mark a))))
  else match mark a, m with
       | Some _, (MLeft | MWordLeft) => mkChar (doc a) (a_sel a).1 None
       | Some _, (MRight | MWordRight) => mkChar (doc a) (a_sel a).2 None
       | _, _ => mkChar (doc a) (a_target a m) None
       end.

Definition a_op (a : CharEdit) (op : edit_op) : CharEdit :=
  match op with
  | SetContent s =>
    let D := chars s in
    a_collapse (mkChar D (idx D (off (doc a) (caret a))) ((fun m => idx D (off (doc a) m)) <$> mark a))
  | SetSelection x y reversed =>
    let start := idx (doc a) x in let end_ := idx (doc a) (Nat.max y x) in
    a_collapse (if reversed then mkChar (doc a) start (Some end_) else mkChar (doc a) end_ (Some start))
  | SetCursor o => mkChar (doc a) (idx (doc a) o) None
  | SelectAll => a_collapse (mkChar (doc a) (length (doc a)) (Some 0))
  | Replace x y t => let lo := idx (doc a) x in a_replace a lo (Nat.max (idx (doc a) y) lo) (chars t)
  | Insert t => a_replace a (a_sel a).1 (a_sel a).2 (chars t)
  | DeleteBackward => a_delete a (caret a - 1) (caret a)
  | DeleteForward => a_delete a (caret a) (Nat.min (S (caret a)) (length (doc a)))
  | DeleteWordBackward => a_delete a (word_back (doc a) (caret a)) (caret a)
  | MoveCursor m x => a_move a m x
  end.

(** Strings given to the operations are valid UTF-8, as every [&str] is. *)
Definition op_ok (op : edit_op) : bool :=
  match op with SetContent s => utf8_valid s | Replace _ _ t | Insert t => utf8_valid t | _ => true end.

(** [e] holds the document [a] at byte offsets. *)
Record rep (e : TextEdit) (a : CharEdit) : Prop := mkRep {
  rep_chars : Forall is_char (doc a);
  rep_content : content e = concat (doc a);
  rep_caret : caret a <= length (doc a);
  rep_cursor : cursor e = off (doc a) (caret a);
  rep_mark : anchor e = off (doc a) <$> mark a;
  rep_mark_ok : forall m, mark a = Some m -> m <= length (doc a) /\ m <> caret a;
}.

(** ** Positions and offsets *)

(** Snapping an offset is counting the whole characters before it. *)
Lemma floor_idx e D o : Forall is_char D -> content e = concat D -> floor_boundary e o = off D (idx D o).
Proof.
  intros HD Hc. unfold floor_boundary. rewrite Hc, <- (idx_min D o). set (p := Nat.min o _).
  destruct (floor_loop_spec (concat D) p) as (H1 & H2 & H3). destruct (idx_spec D p) as (I1 & I2 & I3).
  apply Nat.le_antisymm; [|apply H3; [by apply off_boundary|done]].
  rewrite <- (boundary_idx D _ HD H1). apply off_le, I3; [apply idx_spec|]. by rewrite boundary_idx.
Qed.

Section Motion.
Context (e : TextEdit) (D : list bytes) (HD : Forall is_char D) (Hc : content e = concat D).

Lemma floor_off i : i <= length D -> floor_boundary e (off D i) = off D i.
Proof. intros Hi. rewrite (floor_idx e D) by done. by rewrite idx_off. Qed.

Lemma slice_from_off i : slice_from (content e) (off D i) = Ret (concat (drop i D)).
Proof. unfold slice_from. rewrite Hc, off_boundary by done. by rewrite (proj2 (off_app D i)). Qed.

Lemma next_char_off i : next_char (concat (drop i D)) = D !! i.
Proof.
  unfold next_char. rewrite chars_concat by (by apply Forall_drop). rewrite head_lookup, lookup_drop. by rewrite Nat.add_0_r.
Qed.

Lemma previous_off i : i <= length D -> previous_boundary e (off D i) = Ret (off D (i - 1)).
Proof.
  intros Hi. unfold previous_boundary. cbv zeta. rewrite floor_off by done. unfold slice_to.
  rewrite Hc, off_boundary, (proj1 (off_app D i)) by done. cbn [obind]. rewrite chars_concat by (by apply Forall_take).
  destruct i as [|i]; [done|]. destruct (lookup_lt_is_Some_2 D i ltac:(lia)) as [c E].
  rewrite (take_S_r _ _ _ E), last_snoc, concat_app, length_app. cbn. rewrite app_nil_r, Nat.sub_0_r. f_equal. unfold off. lia.
Qed.

Lemma next_off i : i <= length D -> next_boundary e (off D i) = Ret (off D (Nat.min (S i) (length D))).
Proof.
  intros Hi. unfold next_boundary. cbv zeta. rewrite floor_off by done. rewrite slice_from_off. cbn [obind].
  rewrite next_char_off. destruct (D !! i) as [c|] eqn:E.
  - pose proof (lookup_lt_Some _ _ _ E). rewrite Nat.min_l by lia. by rewrite (off_S D i c E).
  - apply lookup_ge_None in E. rewrite Nat.min_r by lia. do 2 f_equal. lia.
Qed.

Lemma back_while_off fuel kind i :
  i <= length D -> i <= fuel -> back_while fuel kind e (off D i) = Ret (off D (back kind D i)).
Proof.
  revert i. induction fuel as [|fuel IH]; intros i Hi Hf; cbn [back_while].
  { assert (i = 0) as -> by lia. done. }
  destruct i as [|i]; [done|]. destruct (lookup_lt_is_Some_2 D i ltac:(lia)) as [c E].
  pose proof (off_lt D HD 0 (S i) ltac:(lia) ltac:(lia)). rewrite (proj2 (Nat.ltb_lt _ _)) by (unfold off in *; cbn in *; lia).
  rewrite previous_off, Nat.sub_succ, Nat.sub_0_r by done. cbn [obind]. rewrite slice_from_off. cbn [obind].
  rewrite next_char_off, E. cbn [back]. rewrite E. destruct (decide (char_class c = kind)); [|done]. apply IH; lia.
Qed.

Lemma forward_while_off fuel kind i :
  i <= length D -> length D <= fuel + i -> forward_while fuel kind e (off D i) = Ret (off D (fwd kind D i)).
Proof.
  unfold fwd. revert i. induction fuel as [|fuel IH]; intros i Hi Hf; cbn [forward_while].
  { rewrite drop_ge by lia. cbn. do 2 f_equal. lia. }
  rewrite Hc. destruct (decide (i = length D)) as [->|].
  { rewrite (off_all D (length D)), Nat.ltb_irrefl, drop_ge by lia. cbn. by rewrite Nat.add_0_r, off_all. }
  destruct (lookup_lt_is_Some_2 D i ltac:(lia)) as [c E].
  rewrite (proj2 (Nat.ltb_lt _ _)) by (rewrite <- (off_all D (length D)) by lia; apply off_lt; (done || lia)).
  rewrite <- Hc, slice_from_off. cbn [obind]. rewrite next_char_off, E, (drop_S _ _ _ E). cbn [run_len].
  destruct (decide (char_class c = kind)); [|by rewrite Nat.add_0_r].
  rewrite <- (off_S D i c E), IH by lia. do 2 f_equal. lia.
Qed.

Lemma class_at_off i : class_at e (off D i) = Ret (char_class <$> D !! i).
Proof. unfold class_at. rewrite slice_from_off. cbn [obind]. by rewrite next_char_off. Qed.

Lemma back_le kind i : back kind D i <= i.
Proof. induction i as [|i IH]; cbn [back]; [done|]. destruct (D !! i); [|done]. destruct (decide _); lia. Qed.

Lemma run_len_le kind l : run_len kind l <= length l.
Proof. induction l; cbn; [done|]. destruct (decide _); cbn; lia. Qed.

Lemma fwd_le kind i : i <= length D -> i <= fwd kind D i <= length D.
Proof. intros Hi. unfold fwd. pose proof (run_len_le kind (drop i D)). rewrite length_drop in *. lia. Qed.

Lemma off_ge i : i <= length D -> i <= off D i.
Proof.
  intros Hi. unfold off. rewrite <- (length_take_le D i Hi) at 1. apply length_chars. by apply Forall_take.
Qed.

Lemma word_before_off i : i <= length D -> word_boundary_before e (off D i) = Ret (off D (word_back D i)).
Proof.
  intros Hi. unfold word_boundary_before, word_back. cbv zeta. rewrite floor_off, back_while_off by (done || by apply off_ge).
  cbn [obind]. pose proof (back_le Space i). set (j := back Space D i) in *. unfold class_before.
  destruct (decide (j = 0)) as [Hj|Hj].
  { rewrite Hj. cbn. by destruct (D !! 0). }
  pose proof (off_ge j ltac:(lia)). rewrite (proj2 (Nat.eqb_neq (off D j) 0)) by lia.
  rewrite previous_off by lia. cbn [obind]. rewrite class_at_off. cbn [obind]. rewrite (proj2 (Nat.eqb_neq j 0)) by done.
  destruct (D !! (j - 1)) as [c|]; cbn; [|done]. apply back_while_off; [lia|done].
Qed.

Lemma word_after_off i : i <= length D -> word_boundary_after e (off D i) = Ret (off D (word_fwd D i)).
Proof.
  intros Hi. pose proof (length_chars D HD). pose proof (fwd_le Space i Hi). unfold word_boundary_after, word_fwd. cbv zeta.
  rewrite floor_off, Hc, forward_while_off by (done || lia). cbn [obind]. rewrite class_at_off. cbn [obind].
  destruct (D !! fwd Space D i) as [c|]; cbn; [|done]. apply forward_while_off; lia.
Qed.

End Motion.

(** ** Every operation implements its counterpart on characters *)

Lemma rep_point D i : Forall is_char D -> i <= length D -> rep (mkEdit (concat D) (off D i) None) (mkChar D i None).
Proof. intros. by split. Qed.

Lemma rep_collapse D i m :
  Forall is_char D -> i <= length D -> (forall j, m = Some j -> j <= length D) ->
  rep (collapse_empty_selection (mkEdit (concat D) (off D i) (off D <$> m))) (a_collapse (mkChar D i m)).
Proof.
  intros HD Hi Hm. unfold collapse_empty_selection, a_collapse. cbn [anchor cursor content mark caret doc].
  destruct m as [j|]; cbn; [|by apply rep_point]. specialize (Hm j eq_refl).
  destruct (decide (j = i)) as [->|Hj]; [rewrite !bool_decide_true by done; by apply rep_point|].
  rewrite !bool_decide_false by (intros [= H]; try apply off_inj in H; done).
  split; cbn; try done. intros k [= <-]. done.
Qed.

Lemma rep_replace e a x y t :
  rep e a -> utf8_valid t = true ->
  let lo := idx (doc a) x in
  exists e', replace e x y t = Ret e' /\ rep e' (a_replace a lo (Nat.max (idx (doc a) y) lo) (chars t)).
Proof.
  intros [HD Hc _ _ _ _] Ht lo. unfold replace. rewrite !(floor_idx e (doc a)) by done. fold lo.
  set (hi := Nat.max (idx (doc a) y) lo). destruct (idx_spec (doc a) x) as [Hlo _], (idx_spec (doc a) y) as [Hhi _].
  assert (Hmax : Nat.max (off (doc a) (idx (doc a) y)) (off (doc a) lo) = off (doc a) hi).
  { unfold hi. destruct (Nat.max_spec (idx (doc a) y) lo) as [[H ->]|[H ->]].
    - apply Nat.max_r, off_le. lia.
    - apply Nat.max_l, off_le. lia. }
  rewrite Hmax. unfold replace_range. rewrite Hc, !off_boundary, (proj2 (Nat.leb_le _ _)) by (done || apply off_le; lia).
  cbn [andb obind]. rewrite (proj1 (off_app _ lo)), (proj2 (off_app _ hi)).
  destruct (chars_spec t Ht) as [Hct Et]. eexists. split; [done|].
  set (D' := take lo (doc a) ++ chars t ++ drop hi (doc a)).
  assert (Hlen : length (take lo (doc a)) = lo) by (rewrite length_take; lia).
  assert (HD' : Forall is_char D') by (apply Forall_app; split; [by apply Forall_take|]; apply Forall_app; split; [done|by apply Forall_drop]).
  assert (Hoff : off D' (lo + length (chars t)) = off (doc a) lo + length t).
  { unfold off, D'. rewrite app_assoc, take_app_length' by (rewrite length_app; lia). rewrite concat_app, length_app, Et. done. }
  rewrite <- Hoff. unfold a_replace. fold D'.
  replace (concat (take lo (doc a)) ++ t ++ concat (drop hi (doc a))) with (concat D') by (unfold D'; by rewrite !concat_app, Et).
  apply rep_point; [done|]. unfold D'. rewrite !length_app. lia.
Qed.

(** Replacing between character positions. *)
Lemma rep_replace_off e a lo hi t :
  rep e a -> utf8_valid t = true -> lo <= hi -> hi <= length (doc a) ->
  exists e', replace e (off (doc a) lo) (off (doc a) hi) t = Ret e' /\ rep e' (a_replace a lo hi (chars t)).
Proof.
  intros Hr Ht Hlo Hhi. destruct (rep_replace e a (off (doc a) lo) (off (doc a) hi) t Hr Ht) as (e' & He & Hr').
  rewrite !idx_off, Nat.max_l in Hr' by (lia || apply Hr). eauto.
Qed.

Lemma rep_selection e a :
  rep e a -> selection e = (off (doc a) (a_sel a).1, off (doc a) (a_sel a).2)
    /\ (a_sel a).1 <= (a_sel a).2 <= length (doc a) /\ ((a_sel a).1 < (a_sel a).2 <-> is_Some (mark a)).
Proof.
  intros [HD Hc Hk Hcur Hm Hmo]. unfold selection, a_sel. rewrite Hm. destruct (mark a) as [m|]; cbn.
  - destruct (Hmo m eq_refl) as [H1 H2]. rewrite Hcur. split; [|split; [lia|split; [by eexists|lia]]].
    destruct (_ <=? _) eqn:E; bool_hyps.
    + destruct (decide (m <= caret a)); [rewrite Nat.min_l, Nat.max_r by lia; done|].
      pose proof (off_lt (doc a) HD (caret a) m ltac:(lia) ltac:(lia)). lia.
    + destruct (decide (m <= caret a)); [|rewrite Nat.min_r, Nat.max_l by lia; done].
      pose proof (off_le (doc a) m (caret a) ltac:(lia)). lia.
  - rewrite Hcur. split; [done|]. split; [lia|]. split; [lia|by intros []].
Qed.

Lemma rep_delete e a lo hi (find : outcome (nat * nat)) :
  rep e a -> find = Ret (off (doc a) lo, off (doc a) hi) -> lo <= hi -> hi <= length (doc a) ->
  exists e' b, (range <-! (if range_empty (selection e) then find else Ret (selection e)); delete_range e range) = Ret (e', b)
    /\ rep e' (a_delete a lo hi).
Proof.
  intros Hr -> Hlo Hhi. destruct (rep_selection e a Hr) as (Hs & Hb & Hne). assert (HD := rep_chars _ _ Hr).
  assert (Hgo : forall i j, i <= j -> j <= length (doc a) -> exists e' b, delete_range e (off (doc a) i, off (doc a) j) = Ret (e', b)
    /\ rep e' (if i <? j then a_replace a i j [] else a)).
  { intros i j Hij Hj. unfold delete_range, range_empty. cbn [fst snd]. destruct (i <? j) eqn:E; bool_hyps.
    - rewrite (proj2 (Nat.ltb_lt _ _)) by (apply off_lt; (done || lia)). cbn [negb].
      destruct (rep_replace_off e a i j [] Hr eq_refl Hij Hj) as (e' & -> & Hr'). cbn [obind]. eauto.
    - assert (i = j) as -> by lia. rewrite Nat.ltb_irrefl. cbn [negb]. eauto. }
  unfold a_delete. rewrite Hs. unfold range_empty at 1. cbn [fst snd]. destruct (mark a) as [m|] eqn:Em.
  - assert (Hlt : (a_sel a).1 < (a_sel a).2) by (apply Hne; eauto).
    rewrite (proj2 (Nat.ltb_lt (off _ _) _)) by (apply off_lt; (done || lia)). cbn [negb obind]. apply Hgo; lia.
  - assert ((a_sel a).1 = (a_sel a).2) as ->.
    { destruct (decide ((a_sel a).1 < (a_sel a).2)) as [H%Hne|]; [by destruct H|lia]. }
    rewrite Nat.ltb_irrefl. cbn [negb obind fst snd]. by apply Hgo.
Qed.

Lemma word_back_le D i : word_back D i <= i.
Proof.
  unfold word_back. pose proof (back_le D Space i). set (j := back Space D i) in *. destruct (D !! (j - 1)) as [c|]; [|done].
  destruct (j =? 0); [done|]. pose proof (back_le D (char_class c) j). lia.
Qed.

Lemma word_fwd_le D i : i <= length D -> i <= word_fwd D i <= length D.
Proof.
  intros Hi. unfold word_fwd. pose proof (fwd_le D Space i Hi). set (j := fwd Space D i) in *. destruct (D !! j) as [c|]; [|lia].
  pose proof (fwd_le D (char_class c) j ltac:(lia)). lia.
Qed.

Lemma rep_target e a m : rep e a -> motion_target e m = Ret (off (doc a) (a_target a m)) /\ a_target a m <= length (doc a).
Proof.
  intros [HD Hc Hk Hcur _ _]. pose proof (word_back_le (doc a) (caret a)). pose proof (word_fwd_le (doc a) (caret a) Hk).
  destruct m; cbn [motion_target a_target]; rewrite ?Hcur; (split; [|lia]).
  - by apply previous_off.
  - by apply next_off.
  - by apply word_before_off.
  - by apply word_after_off.
  - done.
  - by rewrite Hc, off_all.
Qed.

Lemma rep_set_cursor e a i : rep e a -> i <= length (doc a) -> rep (set_cursor e (off (doc a) i)) (mkChar (doc a) i None).
Proof.
  intros [HD Hc _ _ _ _] Hi. unfold set_cursor. rewrite (floor_off e (doc a)) by done. rewrite Hc. by apply rep_point.
Qed.

Lemma rep_move e a m x : rep e a -> exists e', move_cursor e m x = Ret e' /\ rep e' (a_move a m x).
Proof.
  intros Hr. destruct (rep_target e a m Hr) as [Ht Hle]. destruct (rep_selection e a Hr) as (Hs & Hb & _).
  assert (Hto : exists e', move_to_target e m x = Ret e' /\ rep e'
    (if x then a_collapse (mkChar (doc a) (a_target a m) (Some (default (caret a) (mark a)))) else mkChar (doc a) (a_target a m) None)).
  { unfold move_to_target. rewrite Ht. cbn [obind]. eexists. split; [done|]. destruct x; [|by apply rep_set_cursor].
    destruct Hr as [HD Hc Hk Hcur Hm Hmo]. rewrite Hc.
    replace (Some (default (cursor e) (anchor e))) with (off (doc a) <$> Some (default (caret a) (mark a)))
      by (rewrite Hm, Hcur; by destruct (mark a)).
    apply rep_collapse; [done..|]. intros j [= <-]. destruct (mark a) as [k|]; [by apply Hmo|done]. }
  unfold move_cursor, a_move. destruct x; cbn [negb andb]; [exact Hto|].
  unfold has_selection. rewrite (rep_mark _ _ Hr). destruct (mark a) as [k|]; cbn [fmap option_fmap option_map]; [|exact Hto].
  destruct m; try exact Hto; rewrite Hs; (eexists; split; [done|]; apply rep_set_cursor; [done|cbn; lia]).
Qed.

(** Each operation, from any state that holds a document, returns and holds the document
    the character editor computes. *)
Lemma run_op_rep e a op : rep e a -> op_ok op = true -> exists e', run_op e op = Ret e' /\ rep e' (a_op a op).
Proof.
  intros Hr Hok. pose proof Hr as [HD Hc Hk Hcur Hm Hmo]. destruct op as [s|x y r|o| |x y t|t| | | |m x]; cbn [run_op a_op op_ok] in *.
  - eexists. split; [done|]. unfold set_content. destruct (chars_spec s Hok) as [Hcs Es]. set (D := chars s) in *.
    rewrite !(floor_idx _ D) by (done || cbn; by rewrite Es). cbn [cursor anchor content]. rewrite Hcur, Hm.
    rewrite <- Es. replace (floor_boundary _ <$> (off (doc a) <$> mark a))
      with (off D <$> ((fun m => idx D (off (doc a) m)) <$> mark a)); [|destruct (mark a); cbn; [|done]; by rewrite (floor_idx _ D)].
    apply rep_collapse; [done|apply idx_spec|]. intros j Hj. destruct (mark a); [|done]. injection Hj as <-. apply idx_spec.
  - eexists. split; [done|]. unfold set_selection. rewrite !(floor_idx e (doc a)), Hc by done.
    destruct r; [apply (rep_collapse _ _ (Some _))|apply (rep_collapse _ _ (Some _))]; try done; try apply idx_spec;
      intros j [= <-]; apply idx_spec.
  - eexists. split; [done|]. unfold set_cursor. rewrite (floor_idx e (doc a)), Hc by done. apply rep_point; [done|apply idx_spec].
  - eexists. split; [done|]. unfold select_all. rewrite Hc, <- (off_all (doc a) (length (doc a))) by done.
    apply (rep_collapse _ _ (Some 0)); [done..|]. intros j [= <-]. lia.
  - by apply rep_replace.
  - unfold insert_text. destruct (rep_selection e a Hr) as (-> & Hb & _). cbn [fst snd]. apply rep_replace_off; (done || lia).
  - destruct (rep_delete e a (caret a - 1) (caret a) (p <-! previous_boundary e (cursor e); Ret (p, cursor e)) Hr)
      as (e' & b & He & Hr'); [by rewrite Hcur, (previous_off e (doc a))|lia|done|].
    unfold delete_backward. rewrite He. cbn [obind fst]. eauto.
  - destruct (rep_delete e a (caret a) (Nat.min (S (caret a)) (length (doc a))) (n <-! next_boundary e (cursor e); Ret (cursor e, n)) Hr)
      as (e' & b & He & Hr'); [by rewrite Hcur, (next_off e (doc a))|lia|lia|].
    unfold delete_forward. rewrite He. cbn [obind fst]. eauto.
  - destruct (rep_delete e a (word_back (doc a) (caret a)) (caret a)
      (p <-! word_boundary_before e (cursor e); Ret (p, cursor e)) Hr)
      as (e' & b & He & Hr'); [by rewrite Hcur, (word_before_off e (doc a))|apply word_back_le|done|].
    unfold delete_word_backward. rewrite He. cbn [obind fst]. eauto.
  - by apply rep_move.
Qed.

(** C19: the text field implements an editor on characters. Start from any text and apply
    any sequence of operations, with any byte offsets (inside a character, past the end,
    reversed) and any strings: no operation panics, and the text, caret and selection are
    those of the editor in which the document is a list of characters and positions count
    characters. *)
Theorem text_edit_refines s ops :
  utf8_valid s = true -> forallb op_ok ops = true ->
  exists e, run_ops (new_edit s) ops = Ret e
    /\ rep e (fold_left a_op ops (mkChar (chars s) (length (chars s)) None)).
Proof.
  intros Hs Hops. destruct (chars_spec s Hs) as [Hc Es].
  assert (Hr : rep (new_edit s) (mkChar (chars s) (length (chars s)) None)).
  { unfold new_edit. rewrite <- Es at 1 2. rewrite <- (off_all (chars s) (length (chars s))) by done. by apply rep_point. }
  clear Es Hc Hs. revert Hr. generalize (new_edit s), (mkChar (chars s) (length (chars s)) None). clear s.
  induction ops as [|op ops IH]; intros e a Hr; cbn [run_ops fold_left]; [by eexists|].
  cbn [forallb] in Hops. apply andb_true_iff in Hops as [Hop Hops].
  destruct (run_op_rep e a op Hr Hop) as (e' & -> & Hr'). cbn [obind]. by apply IH.
Qed.

(** The promise callers slice by. After any operations the content is valid UTF-8, the
    caret and the selection's fixed end are on character boundaries, and a selection is
    never empty. *)
Theorem text_edit_boundaries e a :
  rep e a ->
  utf8_valid (content e) = true /\ is_char_boundary (content e) (cursor e) = true
  /\ match anchor e with Some m => is_char_boundary (content e) m = true /\ m <> cursor e | None => True end
  /\ (selection e).1 <= (selection e).2.
Proof.
  intros Hr. destruct (rep_selection e a Hr) as (Hs & Hb & _). destruct Hr as [HD Hc Hk Hcur Hm Hmo].
  rewrite Hs, Hm, Hc, Hcur. split_and!; [by apply concat_valid|by apply off_boundary| |apply off_le, Hb].
  destruct (mark a) as [m|]; cbn; [|done]. destruct (Hmo m eq_refl) as [H1 H2]. split; [by apply off_boundary|].
  intros H. by apply off_inj in H.
Qed.

Definition same_class (kind : CharClass) (D : list bytes) (i : nat) : Prop := char_class <$> D !! i = Some kind.

Lemma back_spec kind D i :
  (forall j, back kind D i <= j < i -> same_class kind D j)
  /\ (back kind D i <= i /\ (0 < back kind D i -> back kind D i <= length D -> ~ same_class kind D (back kind D i - 1))).
Proof.
  unfold same_class. induction i as [|i [IH1 IH2]]; cbn [back]; [split; [lia|split; [lia|lia]]|].
  destruct (D !! i) as [c|] eqn:E.
  - destruct (decide (char_class c = kind)) as [Hk|Hk].
    + split; [|split; [lia|apply IH2]]. intros j Hj. destruct (decide (j = i)) as [->|]; [rewrite E; cbn; by rewrite Hk|apply IH1; lia].
    + split; [lia|]. split; [lia|]. intros _ _. rewrite Nat.sub_succ, Nat.sub_0_r, E. cbn. by intros [= ?].
  - split; [lia|]. split; [lia|]. intros _ _. by rewrite Nat.sub_succ, Nat.sub_0_r, E.
Qed.

Lemma fwd_spec kind D i :
  (forall j, i <= j < fwd kind D i -> same_class kind D j) /\ ~ same_class kind D (fwd kind D i).
Proof.
  unfold fwd, same_class. assert (H : forall l, (forall j, j < run_len kind l -> char_class <$> l !! j = Some kind)
    /\ char_class <$> l !! run_len kind l <> Some kind).
  { induction l as [|c l [IH1 IH2]]; cbn [run_len]; [split; [lia|done]|].
    destruct (decide (char_class c = kind)) as [Hk|Hk]; [|split; [lia|cbn; by intros [= ?]]].
    split; [|done]. intros [|j] Hj; cbn; [by rewrite Hk|]. apply IH1. lia. }
  destruct (H (drop i D)) as [H1 H2]. rewrite lookup_drop in H2. split; [|done].
  intros j Hj. specialize (H1 (j - i) ltac:(lia)). rewrite lookup_drop in H1. by replace (i + (j - i)) with j in H1 by lia.
Qed.

(** Double click. For any offset into a non-empty text, [word_range_at] returns the
    maximal run of one class (white space, word or punctuation) around the character under
    the pointer, the last character when the offset is at or past the end. *)
Theorem word_range_maximal e o :
  utf8_valid (content e) = true -> content e <> [] ->
  let D := chars (content e) in
  let p := Nat.min (idx D o) (length D - 1) in
  exists i j kind, word_range_at e o = Ret (off D i, off D j) /\ i <= p < j /\ j <= length D
    /\ (forall n, i <= n < j -> same_class kind D n)
    /\ (0 < i -> ~ same_class kind D (i - 1)) /\ ~ same_class kind D j.
Proof.
  intros Hv Hne D p. destruct (chars_spec _ Hv) as [HD Ec]. fold D in HD, Ec. symmetry in Ec.
  assert (Hl : 0 < length D) by (destruct D; [by rewrite Ec in Hne|cbn; lia]). destruct (idx_spec D o) as [Hi _].
  destruct (lookup_lt_is_Some_2 D p ltac:(lia)) as [c Hc].
  pose proof (back_le D (char_class c) p). pose proof (fwd_le D (char_class c) p ltac:(lia)). pose proof (length_chars D HD).
  destruct (back_spec (char_class c) D p) as (B1 & B2 & B3), (fwd_spec (char_class c) D p) as (F1 & F2).
  assert (Hp : same_class (char_class c) D p) by (unfold same_class; by rewrite Hc).
  exists (back (char_class c) D p), (fwd (char_class c) D p), (char_class c). split_and!.
  - unfold word_range_at. rewrite (floor_idx e D o HD Ec). destruct (content e) eqn:Ee; [done|]. rewrite <- Ee in *.
    assert (Hprobe : (if off D (idx D o) =? length (content e) then previous_boundary e (off D (idx D o)) else Ret (off D (idx D o)))
      = Ret (off D p)).
    { rewrite Ec. destruct (_ =? _) eqn:E; bool_hyps.
      - rewrite (previous_off e D) by done. do 2 f_equal. unfold p. rewrite <- (off_all D (length D)) in E by done.
        apply off_inj in E; (done || lia).
      - do 2 f_equal. unfold p. destruct (decide (idx D o = length D)) as [H'|]; [|lia]. rewrite H', off_all in E; done. }
    rewrite Hprobe. cbn [obind]. rewrite (class_at_off e D), Hc by done. cbn [obind fmap option_fmap option_map].
    rewrite (back_while_off e D) by (done || lia || apply off_ge; (done || lia)). cbn [obind].
    rewrite (forward_while_off e D) by (done || lia || (rewrite Ec; lia)). done.
  - lia.
  - assert (p <> fwd (char_class c) D p) by (intros E'; rewrite <- E' in F2; done). lia.
  - lia.
  - intros n Hn. destruct (decide (n < p)); [apply B1; lia|apply F1; lia].
  - intros H'. apply B3; [done|lia].
  - done.
Qed.

End TextEdit.

(** ** Witnesses, with the ASCII letters and digits as the alphanumeric characters *)

Definition ascii_alnum (c : bytes) : bool :=
  match c with [b] => between 48 57 b || between 65 90 b || between 97 122 b | _ => false end.

Example word_motion_stops_at_the_parts_of_a_host :
  run_ops ascii_alnum (new_edit (bs "user@host.example"))
    [MoveCursor MStart false; MoveCursor MWordRight false; MoveCursor MWordRight false; MoveCursor MWordRight true]
  = Ret (mkEdit (bs "user@host.example") 9 (Some 5)).
Proof. vm_compute. reflexivity. Qed.

Lemma text_edit_refines_witness :
  let ops := [MoveCursor MLeft true; SetCursor 4; Insert (bs "x"); DeleteBackward; SetSelection 2 1 true; DeleteWordBackward] in
  exists e, run_ops ascii_alnum (new_edit [229; 141; 151; 228; 186; 172]%Z) ops = Ret e
    /\ rep e (fold_left (a_op ascii_alnum) ops (mkChar [[229; 141; 151]; [228; 186; 172]]%Z 2 None)).
Proof. apply (text_edit_refines ascii_alnum [229; 141; 151; 228; 186; 172]%Z); vm_compute; reflexivity. Defined.

Lemma text_edit_boundaries_witness :
  is_char_boundary (bs "ab") 1 = true /\ (selection (mkEdit (bs "ab") 1 (Some 2))).1 <= (selection (mkEdit (bs "ab") 1 (Some 2))).2.
Proof.
  assert (Hr : rep (mkEdit (bs "ab") 1 (Some 2)) (mkChar [[97]; [98]]%Z 1 (Some 2))).
  { split; cbn; try done; [repeat constructor; done|lia|]. intros m [= <-]. split; [done|done]. }
  destruct (text_edit_boundaries _ _ Hr) as (_ & H1 & _ & H2). split; [exact H1|exact H2].
Defined.

Lemma word_range_maximal_witness :
  word_range_at ascii_alnum (new_edit (bs "root@192")) 4 = Ret (4, 5)
  /\ let D := chars (bs "root@192") in
     exists i j kind, word_range_at ascii_alnum (new_edit (bs "root@192")) 99 = Ret (off D i, off D j) /\ i <= 7 < j /\ j <= 8
      /\ (forall n, i <= n < j -> same_class ascii_alnum kind D n)
      /\ (0 < i -> ~ same_class ascii_alnum kind D (i - 1)) /\ ~ same_class ascii_alnum kind D j.
Proof. split; [vm_compute; reflexivity|]. apply (word_range_maximal ascii_alnum (new_edit (bs "root@192")) 99); done. Defined.
