(* ===== verification/HexDocument.v ===== *)
(** * The hex editor's document

    [src/crates/nyaterm-core/src/hex_document.rs]: a byte buffer edited by nibbles, with a
    selection; the formats bytes are pasted from and copied to. Indexing, slicing and
    [drain] out of range are panics. *)

From stdpp Require Import base option list numbers strings.
From Stdlib Require Import ZArith Lia.
From S2P Require Import Prelude RustStr RustText.

Local Open Scope nat_scope.
Local Open Scope rust_scope.

Inductive HexNibble := High | Low.
Record HexCursor := mkCursor { byte_index : nat; nibble : HexNibble }.
Record HexSelection := mkSel { sel_anchor : nat; sel_end : nat }.

Record HexDocument := mkHex {
  hbytes : bytes;
  hcursor : HexCursor;
  hselection : option HexSelection;
  pending_nibble : option Z;
}.

Definition default_document : HexDocument := mkHex [] (mkCursor 0 High) None None.

Definition sel_range (s : HexSelection) : nat * nat :=
  (Nat.min (sel_anchor s) (sel_end s), Nat.max (sel_anchor s) (sel_end s)).

(** The selection, empty ones left out. *)
Definition selection (d : HexDocument) : option (nat * nat) :=
  match hselection d with
  | Some s => if (sel_range s).1 <? (sel_range s).2 then Some (sel_range s) else None
  | None => None
  end.

Definition set_bytes (d : HexDocument) (b : bytes) : HexDocument := mkHex b (mkCursor 0 High) None None.

Definition move_cursor (d : HexDocument) (c : HexCursor) (extend : bool) : HexDocument :=
  let index := Nat.min (byte_index c) (length (hbytes d)) in
  let sel :=
    if extend then
      let anchor := match hselection d with Some s => sel_anchor s | None => byte_index (hcursor d) end in
      Some (mkSel anchor index)
    else None in
  mkHex (hbytes d) (mkCursor index (if index =? length (hbytes d) then High else nibble c)) sel None.

Definition select_all (d : HexDocument) : HexDocument :=
  mkHex (hbytes d) (mkCursor (length (hbytes d)) High) (Some (mkSel 0 (length (hbytes d)))) None.

Definition cancel_selection (d : HexDocument) : HexDocument :=
  mkHex (hbytes d) (mkCursor (byte_index (hcursor d)) High) None None.

Definition delete_selection (d : HexDocument) : outcome (HexDocument * bool) :=
  match selection d with
  | None => Ret (d, false)
  | Some r =>
    if r.2 <=? length (hbytes d)
    then Ret (mkHex (take r.1 (hbytes d) ++ drop r.2 (hbytes d)) (mkCursor r.1 High) None None, true)
    else Panic
  end.

(** Shifts and disjunction of [u8]. *)
Definition pack_byte (high low : Z) : Z := Z.lor (ushl 8 high 4) low.

Definition type_nibble (d : HexDocument) (n : Z) : outcome HexDocument :=
  if (15 <? n)%Z then Ret d
  else
    r <-! delete_selection d;
    let d := r.1 in
    let index := byte_index (hcursor d) in
    match nibble (hcursor d) with
    | High => Ret (mkHex (hbytes d) (mkCursor index Low) (hselection d) (Some n))
    | Low =>
      high <-! match pending_nibble d with
               | Some h => Ret h
               | None => match hbytes d !! index with Some b => Ret (Z.shiftr b 4) | None => Panic end
               end;
      let byte := pack_byte high n in
      bytes <-! (if index =? length (hbytes d) then Ret (hbytes d ++ [byte])
                 else if index <? length (hbytes d) then Ret (<[index := byte]> (hbytes d)) else Panic);
      Ret (mkHex bytes (mkCursor (index + 1) High) (hselection d) None)
    end.

Definition insert_bytes (d : HexDocument) (b : bytes) : outcome HexDocument :=
  match b with
  | [] => Ret d
  | _ =>
    r <-! delete_selection d;
    let d := r.1 in
    let index := byte_index (hcursor d) in
    if index <=? length (hbytes d)
    then Ret (mkHex (take index (hbytes d) ++ b ++ drop index (hbytes d)) (mkCursor (index + length b) High)
                (hselection d) None)
    else Panic
  end.

(** [Vec::remove]. *)
Definition vremove (l : bytes) (i : nat) : outcome bytes :=
  if i <? length l then Ret (take i l ++ drop (S i) l) else Panic.

Definition delete (d : HexDocument) (backwards : bool) : outcome HexDocument :=
  match pending_nibble d with
  | Some _ => Ret (mkHex (hbytes d) (mkCursor (byte_index (hcursor d)) High) (hselection d) None)
  | None =>
    r <-! delete_selection d;
    let d := r.1 in
    if r.2 then Ret d
    else
      let index := byte_index (hcursor d) in
      if backwards && (0 <? index) then
        b <-! vremove (hbytes d) (index - 1);
        Ret (mkHex b (mkCursor (index - 1) High) (hselection d) None)
      else if negb backwards && (index <? length (hbytes d)) then
        b <-! vremove (hbytes d) index;
        Ret (mkHex b (mkCursor index High) (hselection d) None)
      else Ret (mkHex (hbytes d) (mkCursor index High) (hselection d) None)
  end.

Definition selected_bytes (d : HexDocument) : outcome bytes :=
  match selection d with
  | None => Ret (hbytes d)
  | Some r => if r.2 <=? length (hbytes d) then Ret (take (r.2 - r.1) (drop r.1 (hbytes d))) else Panic
  end.

(** The public operations. *)
Inductive hex_op :=
| HSetBytes (b : bytes) | HMove (c : HexCursor) (extend : bool) | HSelectAll | HCancel
| HType (n : Z) | HInsert (b : bytes) | HDelete (backwards : bool).

Definition run_hex (d : HexDocument) (op : hex_op) : outcome HexDocument :=
  match op with
  | HSetBytes b => Ret (set_bytes d b)
  | HMove c x => Ret (move_cursor d c x)
  | HSelectAll => Ret (select_all d)
  | HCancel => Ret (cancel_selection d)
  | HType n => type_nibble d n
  | HInsert b => insert_bytes d b
  | HDelete x => delete d x
  end.

Fixpoint run_hexes (d : HexDocument) (ops : list hex_op) : outcome HexDocument :=
  match ops with [] => Ret d | op :: ops' => d' <-! run_hex d op; run_hexes d' ops' end.

(** ** Pasting and copying *)

Inductive HexPasteError := InvalidFormat | IncompleteByte.

Definition hex_digit (ch : Z) : option Z :=
  if between 48 57 ch then Some (ch - 48)%Z
  else if between 97 102 ch then Some (ch - 97 + 10)%Z
  else if between 65 70 ch then Some (ch - 65 + 10)%Z
  else None.

Definition is_ascii_whitespace (b : Z) : bool :=
  bool_decide (b = 9 \/ b = 10 \/ b = 12 \/ b = 13 \/ b = 32)%Z.
Definition is_ascii_hexdigit (b : Z) : bool := between 48 57 b || between 65 70 b || between 97 102 b.
Definition starts_with (p s : bytes) : bool := bool_decide (is_Some (strip_prefix p s)).

Definition odd_len (l : bytes) : bool := Nat.odd (length l).

Definition prefixed (s : bytes) : bool :=
  starts_with (bs "0x") s || starts_with (bs "0X") s || starts_with (bs "\x") s || starts_with (bs "\X") s.

Fixpoint parse_loop (digits s : bytes) : result bytes HexPasteError :=
  match s with
  | [] => if odd_len digits then Err IncompleteByte else Ok digits
  | ch :: s1 =>
    if is_ascii_whitespace ch || (ch =? 44)%Z then
      if odd_len digits then Err IncompleteByte else parse_loop digits s1
    else if prefixed s then
      if odd_len digits then Err IncompleteByte
      else
        match s1 with
        | _ :: p0 :: p1 :: rest =>
          match hex_digit p0, hex_digit p1 with
          | Some d0, Some d1 =>
            let glued := match rest with
                         | b :: _ => is_ascii_hexdigit b && negb (starts_with (bs "0x") rest) && negb (starts_with (bs "0X") rest)
                         | [] => false
                         end in
            if glued then Err InvalidFormat else parse_loop (digits ++ [d0; d1]) rest
          | _, _ => Err InvalidFormat
          end
        | _ => Err IncompleteByte
        end
    else match hex_digit ch with Some d => parse_loop (digits ++ [d]) s1 | None => Err InvalidFormat end
  end.

Fixpoint pairs (l : bytes) : bytes :=
  match l with a :: b :: l' => pack_byte a b :: pairs l' | _ => [] end.

Definition parse_hex_paste (text : bytes) : result bytes HexPasteError :=
  digits <-? parse_loop [] text; Ok (pairs digits).

Inductive HexCopyFormat := FHex | FCompact | FCArray | FEscaped | FAscii.

(** [{b:02X}]. *)
Definition upper_digit (d : Z) : Z := (if d <? 10 then 48 + d else 55 + d)%Z.
Definition hex2 (b : Z) : bytes := [upper_digit (b / 16); upper_digit (b mod 16)].

Fixpoint join (sep : bytes) (l : list bytes) : bytes :=
  match l with [] => [] | [x] => x | x :: l' => x ++ sep ++ join sep l' end.

Definition format_hex (b : bytes) (format : HexCopyFormat) : bytes :=
  match format with
  | FAscii => mjoin ((fun x => if between 32 126 x then [x] else [194; 183]%Z) <$> b)
  | FHex => join (bs " ") (hex2 <$> b)
  | FCompact => join [] (hex2 <$> b)
  | FCArray => join (bs ", ") ((fun x => bs "0x" ++ hex2 x) <$> b)
  | FEscaped => join [] ((fun x => bs "\x" ++ hex2 x) <$> b)
  end.

Example paste_formats :
  parse_hex_paste (bs "48,65 0x6c\x6C 6F") = Ok (bs "Hello")
  /\ parse_hex_paste (bs "4 8") = Err IncompleteByte /\ parse_hex_paste (bs "0x1234") = Err InvalidFormat.
Proof. vm_compute. done. Qed.

(** ** Well-formed documents *)

(** What type_nibble relies on: the cursor is in the buffer, a pending nibble is the first
    of a byte, and a cursor on a low nibble without one is on a byte. *)
Record hex_core (d : HexDocument) : Prop := mkCore {
  core_bytes : bytes_ok (hbytes d);
  core_cursor : byte_index (hcursor d) <= length (hbytes d);
  core_pending : forall p, pending_nibble d = Some p -> nibble (hcursor d) = Low /\ (0 <= p <= 15)%Z;
  core_low : nibble (hcursor d) = Low -> pending_nibble d = None -> byte_index (hcursor d) < length (hbytes d);
}.

Definition sel_in (d : HexDocument) : Prop :=
  forall s, hselection d = Some s -> sel_anchor s <= length (hbytes d) /\ sel_end s <= length (hbytes d).

(** An empty selection is kept where it was. *)
Definition leftover (d : HexDocument) : bool :=
  match hselection d with Some s => sel_anchor s =? sel_end s | None => false end.

Definition hex_op_ok (op : hex_op) : Prop :=
  match op with HSetBytes b | HInsert b => bytes_ok b | HType n => byte_ok n | _ => True end.

Lemma pack_ok h l : (0 <= h <= 15)%Z -> (0 <= l <= 15)%Z -> byte_ok (pack_byte h l) /\ pack_byte h l = (16 * h + l)%Z.
Proof.
  intros Hh Hl. cut (pack_byte h l = 16 * h + l)%Z; [unfold byte_ok; lia|].
  unfold pack_byte, ushl. rewrite Z.shiftl_mul_pow2, uwrap_small by (unfold urange; lia).
  assert (Hd : Z.land (h * 2 ^ 4) l = 0%Z).
  { rewrite <- (Z.mod_small l (2 ^ 4)) by lia. rewrite <- Z.land_ones, <- Z.shiftl_mul_pow2 by lia.
    apply Z.bits_inj'. intros i Hi. rewrite !Z.land_spec, Z.bits_0. destruct (decide (i < 4)%Z).
    - rewrite Z.shiftl_spec_low by lia. done.
    - rewrite Z.ones_spec_high by lia. by rewrite !andb_false_r. }
  rewrite <- Z.lxor_lor, <- Z.add_nocarry_lxor by done. lia.
Qed.

Lemma high_ok b : byte_ok b -> (0 <= Z.shiftr b 4 <= 15)%Z.
Proof.
  unfold byte_ok. intros H. rewrite Z.shiftr_div_pow2 by lia. change (2 ^ 4)%Z with 16%Z.
  pose proof (Z.div_pos b 16). pose proof (Z.div_lt_upper_bound b 16 16). lia.
Qed.

(** [delete_selection] on a document whose selection is in the buffer. *)
Lemma delete_selection_ok d :
  hex_core d -> sel_in d ->
  exists d' b, delete_selection d = Ret (d', b) /\ hex_core d' /\ sel_in d'
    /\ (b = true <-> is_Some (selection d)) /\ (b = false -> d' = d)
    /\ (b = true -> hselection d' = None /\ pending_nibble d' = None /\ nibble (hcursor d') = High).
Proof.
  intros Hd Hs. unfold delete_selection. destruct (selection d) as [r|] eqn:E.
  2:{ exists d, false. split_and!; try done. }
  unfold selection in E. destruct (hselection d) as [s|] eqn:Es; [|done]. destruct (Hs s Es) as [H1 H2].
  destruct (_ <? _) eqn:El; [|done]. injection E as <-. unfold sel_range in *. cbn [fst snd] in *. bool_hyps.
  rewrite (proj2 (Nat.leb_le _ _)) by lia. eexists _, true. split; [done|]. destruct Hd as [Hb Hc Hp Hl].
  split_and!; try done.
  split; cbn; try done.
  - apply Forall_app. split; [by apply Forall_take|by apply Forall_drop].
  - rewrite length_app, length_take. lia.
Qed.

Lemma vremove_ok l i :
  i < length l -> vremove l i = Ret (take i l ++ drop (S i) l) /\ length (take i l ++ drop (S i) l) = length l - 1.
Proof.
  intros Hi. unfold vremove. rewrite (proj2 (Nat.ltb_lt _ _)) by done. split; [done|].
  rewrite length_app, length_take, length_drop. lia.
Qed.

Lemma type_nibble_ok d n :
  hex_core d -> sel_in d -> byte_ok n -> exists d', type_nibble d n = Ret d' /\ hex_core d' /\ sel_in d'.
Proof.
  intros Hd Hs Hn. unfold type_nibble. destruct (15 <? n)%Z eqn:En; [by exists d|]. bool_hyps. unfold byte_ok in Hn.
  destruct (delete_selection_ok d Hd Hs) as (d1 & b & -> & [Hb Hc Hp Hl] & Hs1 & _). cbn [obind fst].
  destruct (nibble (hcursor d1)) eqn:Enib.
  { eexists. split; [done|]. split; [|exact Hs1]. split; cbn; try done. intros p [= <-]. split; [done|lia]. }
  set (i := byte_index (hcursor d1)) in *.
  assert (Hh : exists h, match pending_nibble d1 with Some h => Ret h
    | None => match hbytes d1 !! i with Some b => Ret (Z.shiftr b 4) | None => Panic end end = Ret h /\ (0 <= h <= 15)%Z).
  { destruct (pending_nibble d1) as [h|] eqn:Ep; [exists h; split; [done|]; by apply (Hp h)|].
    destruct (lookup_lt_is_Some_2 (hbytes d1) i (Hl eq_refl eq_refl)) as [x Hx]. rewrite Hx. eexists. split; [done|].
    apply high_ok. unfold bytes_ok in Hb. rewrite Forall_lookup in Hb. eauto. }
  destruct Hh as (h & -> & Hh). cbn [obind]. destruct (pack_ok h n Hh ltac:(lia)) as [Hpk _].
  destruct (i =? length (hbytes d1)) eqn:Ei; bool_hyps; [|rewrite (proj2 (Nat.ltb_lt _ _)) by lia]; cbn [obind];
    (eexists; split; [done|]).
  - split; [split; cbn; try done|].
    + apply Forall_app. split; [done|]. by constructor.
    + rewrite length_app. cbn. lia.
    + intros s Hsel. destruct (Hs1 s Hsel). cbn. rewrite length_app. lia.
  - split; [split; cbn; try done|].
    + by apply Forall_insert.
    + rewrite length_insert. lia.
    + intros s Hsel. destruct (Hs1 s Hsel). cbn. rewrite length_insert. lia.
Qed.

Lemma insert_bytes_ok d b :
  hex_core d -> sel_in d -> bytes_ok b -> exists d', insert_bytes d b = Ret d' /\ hex_core d' /\ sel_in d'.
Proof.
  intros Hd Hs Hb. unfold insert_bytes. destruct b as [|x b]; [by exists d|].
  destruct (delete_selection_ok d Hd Hs) as (d1 & b1 & -> & [H1 H2 H3 H4] & Hs1 & _). cbn [obind fst].
  rewrite (proj2 (Nat.leb_le _ _)) by done. eexists. split; [done|]. split; [split; cbn [hbytes hcursor nibble byte_index pending_nibble]; try done|].
  - apply Forall_app. split; [by apply Forall_take|]. apply Forall_app. split; [done|by apply Forall_drop].
  - rewrite !length_app, length_take, length_drop. lia.
  - intros s Hsel. destruct (Hs1 s Hsel). cbn [hbytes]. rewrite !length_app, length_take, length_drop. lia.
Qed.

Lemma delete_ok d x :
  hex_core d -> sel_in d -> exists d', delete d x = Ret d' /\ hex_core d' /\ (leftover d = false -> sel_in d').
Proof.
  intros Hd Hs. unfold delete. destruct (pending_nibble d) as [p|] eqn:Ep.
  { destruct Hd as [H1 H2 H3 H4]. eexists. split; [done|]. split; [by split|done]. }
  destruct (delete_selection_ok d Hd Hs) as (d1 & b & -> & Hd1 & Hs1 & Hb & Heq & _). cbn [obind fst snd].
  destruct b; [by exists d1|]. rewrite Heq in * by done. destruct Hd1 as [H1 H2 H3 H4].
  assert (Hno : leftover d = false -> hselection d = None).
  { unfold leftover. destruct (hselection d) as [s|] eqn:Es; [|done]. intros E. bool_hyps.
    destruct Hb as [_ Hb]. unfold selection in Hb. rewrite Es in Hb. cbn [sel_range fst snd] in Hb.
    rewrite (proj2 (Nat.ltb_lt _ _)) in Hb by (cbn; lia). specialize (Hb ltac:(by eexists)). done. }
  set (i := byte_index (hcursor d)) in *.
  assert (Hrm : forall k, k < length (hbytes d) -> k <= i -> (i <= length (hbytes d) - 1 \/ k < i) -> forall j, j = k ->
    exists d', (b <-! vremove (hbytes d) k; Ret (mkHex b (mkCursor j High) (hselection d) None)) = Ret d'
      /\ hex_core d' /\ (leftover d = false -> sel_in d')).
  { intros k Hk Hki Hor j ->. destruct (vremove_ok (hbytes d) k Hk) as [-> Hlen]. cbn [obind]. eexists. split; [done|].
    split; [split; cbn; try done|].
    - apply Forall_app. split; [by apply Forall_take|by apply Forall_drop].
    - rewrite Hlen. lia.
    - intros Hl s Hsel. cbn in Hsel. rewrite (Hno Hl) in Hsel. done. }
  destruct (x && (0 <? i)) eqn:E1; [bool_hyps; apply Hrm; lia|].
  destruct (negb x && (i <? length (hbytes d))) eqn:E2; [bool_hyps; apply Hrm; lia|].
  eexists. split; [done|]. split; [by split|]. intros _. exact Hs1.
Qed.

Lemma run_hex_ok d op :
  hex_core d -> sel_in d -> hex_op_ok op ->
  exists d', run_hex d op = Ret d' /\ hex_core d'
    /\ (match op with HDelete _ => leftover d = false | _ => True end -> sel_in d').
Proof.
  intros Hd Hs Hop. pose proof Hd as [H1 H2 H3 H4]. destruct op as [b|c x| | |n|b|x]; cbn [run_hex hex_op_ok] in *.
  - eexists. split; [done|]. split; [split; cbn; (done || lia)|]. by intros _ s.
  - eexists. split; [done|]. unfold move_cursor. split; [split; cbn; try done; [lia|]|].
    + destruct (_ =? _) eqn:E; [done|]. bool_hyps. intros. lia.
    + intros _ s Hsel. cbn in *. destruct x; [|done]. injection Hsel as <-. cbn. split; [|lia].
      destruct (hselection d) as [s|] eqn:Es; [by apply (Hs s)|done].
  - eexists. split; [done|]. split; [split; cbn; (done || lia)|]. intros _ s [= <-]. cbn. lia.
  - eexists. split; [done|]. split; [split; cbn; (done || lia)|]. by intros _ s.
  - destruct (type_nibble_ok d n Hd Hs Hop) as (d' & H & ? & ?). eauto.
  - destruct (insert_bytes_ok d b Hd Hs Hop) as (d' & H & ? & ?). eauto.
  - apply delete_ok; done.
Qed.

(** No byte is deleted while an empty selection is left over. *)
Fixpoint no_leftover_delete (d : HexDocument) (ops : list hex_op) : bool :=
  match ops with
  | [] => true
  | op :: ops' =>
    negb (match op with HDelete _ => leftover d | _ => false end)
    && match run_hex d op with Ret d' => no_leftover_delete d' ops' | Panic => true end
  end.

(** The hex editor does not panic, with one exception. Over any sequence of operations
    from the empty document in which no delete happens while an empty selection is left
    over, every operation returns, the bytes are bytes, the cursor is in the buffer with
    nibble and pending digit consistent, the selection is in the buffer, and copying it
    returns. *)
Theorem hex_document_safe ops :
  Forall hex_op_ok ops -> no_leftover_delete default_document ops = true ->
  exists d, run_hexes default_document ops = Ret d /\ hex_core d /\ sel_in d /\ exists b, selected_bytes d = Ret b /\ bytes_ok b.
Proof.
  intros Hops. assert (Hd : hex_core default_document) by (split; cbn; (done || lia || constructor)).
  assert (Hs : sel_in default_document) by (by intros s). revert Hd Hs. generalize default_document.
  induction Hops as [|op ops Hop Hops IH]; intros d Hd Hs; cbn [no_leftover_delete run_hexes].
  - intros _. exists d. split_and!; try done. unfold selected_bytes. pose proof (core_bytes d Hd) as Hb.
    destruct (selection d) as [r|] eqn:E; [|by eexists].
    unfold selection in E. destruct (hselection d) as [s|] eqn:Es; [|done]. destruct (Hs s Es).
    destruct (_ <? _); [|done]. injection E as <-. cbn [sel_range fst snd]. rewrite (proj2 (Nat.leb_le _ _)) by lia.
    eexists. split; [done|]. apply Forall_take. by apply Forall_drop.
  - intros [Hl Hrest]%andb_true_iff. destruct (run_hex_ok d op Hd Hs Hop) as (d' & E & Hd' & Hs'). rewrite E in *.
    cbn [obind]. apply IH; try done. apply Hs'. destruct op; try done. by apply negb_true_iff.
Qed.

(** The exception. On any document, extend the selection by nothing at the end of the
    buffer, delete the last byte, and extend the selection backwards: the empty selection
    had kept its anchor, which is now past the end, and reading the selection panics. *)
Theorem hex_leftover_selection_panics b :
  b <> [] ->
  let n := length b in
  exists d, run_hexes default_document
      [HSetBytes b; HMove (mkCursor n High) false; HMove (mkCursor n High) true; HDelete true; HMove (mkCursor (n - 2) High) true]
      = Ret d /\ selected_bytes d = Panic /\ type_nibble d 0 = Panic.
Proof.
  intros Hb n. assert (Hn : 0 < n) by (destruct b; [done|cbn in *; lia]). subst n. set (n := length b) in *.
  assert (E3 : move_cursor (move_cursor (set_bytes default_document b) (mkCursor n High) false) (mkCursor n High) true
    = mkHex b (mkCursor n High) (Some (mkSel n n)) None).
  { unfold move_cursor, set_bytes. cbn [hbytes hcursor hselection byte_index]. fold n. rewrite Nat.min_id, Nat.eqb_refl. done. }
  cbn [run_hexes run_hex obind]. rewrite E3. unfold delete. cbn [pending_nibble].
  assert (Es : delete_selection (mkHex b (mkCursor n High) (Some (mkSel n n)) None)
    = Ret (mkHex b (mkCursor n High) (Some (mkSel n n)) None, false)).
  { unfold delete_selection, selection. cbn [hselection sel_range sel_anchor sel_end fst snd].
    by rewrite Nat.min_id, Nat.max_id, Nat.ltb_irrefl. }
  rewrite Es. cbn [obind fst snd hcursor byte_index hbytes hselection andb]. rewrite (proj2 (Nat.ltb_lt 0 n)) by done.
  destruct (vremove_ok b (n - 1)) as [Hv Hlen]; [fold n; lia|]. rewrite Hv.
  cbn [obind]. eexists. split; [done|]. set (b' := take (n - 1) b ++ drop (S (n - 1)) b) in *.
  assert (E : selection (move_cursor (mkHex b' (mkCursor (n - 1) High) (Some (mkSel n n)) None) (mkCursor (n - 2) High) true)
    = Some (n - 2, n)).
  { unfold selection, move_cursor. cbn [hselection sel_range sel_anchor sel_end byte_index hbytes hcursor fst snd]. rewrite Hlen. fold n. rewrite (proj2 (Nat.ltb_lt _ _)) by lia. unfold sel_range. cbn [sel_anchor sel_end]. f_equal. f_equal; lia. }
  assert (Hout : (n <=? length b') = false) by (rewrite Hlen; fold n; apply Nat.leb_gt; lia).
  unfold selected_bytes, type_nibble, delete_selection. rewrite E. cbn [snd fst]. change (hbytes (move_cursor ?d ?c ?x)) with (hbytes d).
  cbn [hbytes]. by rewrite Hout.
Qed.

(** Typing a byte. On a document with no selection and the cursor on a high nibble,
    two digits change nothing until the second, which overwrites the byte under the cursor,
    or appends one at the end of the buffer, and moves to the next byte. *)
Theorem hex_type_byte d h l :
  hex_core d -> selection d = None -> nibble (hcursor d) = High -> (0 <= h <= 15)%Z -> (0 <= l <= 15)%Z ->
  let i := byte_index (hcursor d) in
  exists d1 d2, type_nibble d h = Ret d1 /\ hbytes d1 = hbytes d /\ type_nibble d1 l = Ret d2
    /\ hbytes d2 = take i (hbytes d) ++ [16 * h + l]%Z ++ drop (S i) (hbytes d)
    /\ hcursor d2 = mkCursor (S i) High /\ pending_nibble d2 = None.
Proof.
  intros Hd Hs Hn Hh Hl i. unfold type_nibble at 1. rewrite (proj2 (Z.ltb_ge _ _)) by lia. unfold delete_selection at 1.
  rewrite Hs. cbn [obind fst]. rewrite Hn. fold i. set (d1 := mkHex (hbytes d) (mkCursor i Low) (hselection d) (Some h)).
  exists d1. unfold type_nibble. rewrite (proj2 (Z.ltb_ge _ _)) by lia. unfold delete_selection.
  change (selection d1) with (selection d). rewrite Hs. cbn [obind fst snd hcursor nibble pending_nibble hbytes byte_index d1].
  destruct (pack_ok h l Hh Hl) as [_ ->]. pose proof (core_cursor d Hd) as Hc. fold i in Hc.
  destruct (i =? length (hbytes d)) eqn:E; bool_hyps; [|rewrite (proj2 (Nat.ltb_lt _ _)) by lia]; cbn [obind];
    (eexists; split_and!; [done..| | |done]; cbn [hbytes hcursor]; [|f_equal; lia]).
  - rewrite take_ge, drop_ge by lia. done.
  - by rewrite insert_take_drop by lia.
Qed.

(** ** Copied bytes paste back *)

Lemma odd_len_app a b : odd_len a = false -> odd_len (a ++ b) = odd_len b.
Proof.
  unfold odd_len. intros H. rewrite length_app, Nat.odd_add, H. by destruct (Nat.odd (length b)).
Qed.

Lemma pairs_app a b : odd_len a = false -> pairs (a ++ b) = pairs a ++ pairs b.
Proof.
  remember (length a) as n eqn:Hn. revert a Hn. induction n as [n IH] using lt_wf_ind. intros a -> Ha.
  destruct a as [|x [|y a]]; [done|done|]. cbn. f_equal. apply (IH (length a)); [cbn; lia|done|exact Ha].
Qed.

Lemma upper_digit_spec d :
  (0 <= d <= 15)%Z ->
  hex_digit (upper_digit d) = Some d /\ is_ascii_whitespace (upper_digit d) = false /\ (upper_digit d =? 44)%Z = false
  /\ upper_digit d <> 92%Z /\ upper_digit d <> 120%Z /\ upper_digit d <> 88%Z.
Proof.
  intros Hd. assert (Hc : d = 0%Z \/ d = 1%Z \/ d = 2%Z \/ d = 3%Z \/ d = 4%Z \/ d = 5%Z \/ d = 6%Z \/ d = 7%Z \/ d = 8%Z
    \/ d = 9%Z \/ d = 10%Z \/ d = 11%Z \/ d = 12%Z \/ d = 13%Z \/ d = 14%Z \/ d = 15%Z) by lia.
  repeat (destruct Hc as [->|Hc]; [vm_compute; split_and!; (done || by intros)|]). subst d. vm_compute. split_and!; (done || by intros).
Qed.

Lemma starts_with_no x y p0 p1 s : x <> p0 \/ y <> p1 -> starts_with [p0; p1] (x :: y :: s) = false.
Proof.
  intros H. unfold starts_with. cbn. destruct (p0 =? x)%Z eqn:E0; [|done]. destruct (p1 =? y)%Z eqn:E1; [|done].
  bool_hyps. destruct H; congruence.
Qed.

Lemma not_prefixed x y s : (x <> 92 -> y <> 120 -> y <> 88 -> prefixed (x :: y :: s) = false)%Z.
Proof.
  intros. unfold prefixed. change (bs "0x") with [48; 120]%Z. change (bs "0X") with [48; 88]%Z.
  change (bs "\x") with [92; 120]%Z. change (bs "\X") with [92; 88]%Z. by rewrite !starts_with_no by tauto.
Qed.

(** The head of a piece of hex text, as far as it matters to the digit before it: not an
    [x] that would turn a zero into a prefix. *)
Definition follows (s : bytes) : Prop := match s with x :: _ => x <> 120%Z /\ x <> 88%Z | [] => True end.

Lemma nibbles_ok b : byte_ok b -> (0 <= b / 16 <= 15)%Z /\ (0 <= b mod 16 <= 15)%Z /\ pack_byte (b / 16) (b mod 16) = b.
Proof.
  unfold byte_ok. intros H. pose proof (Z.div_mod b 16). pose proof (Z.mod_pos_bound b 16). pose proof (Z.div_pos b 16).
  pose proof (Z.div_lt_upper_bound b 16 16). split_and!; try lia. rewrite (proj2 (pack_ok (b / 16) (b mod 16) ltac:(lia) ltac:(lia))); lia.
Qed.

Lemma parse_plain digits b s :
  byte_ok b -> odd_len digits = false -> follows s ->
  parse_loop digits (hex2 b ++ s) = parse_loop (digits ++ [b / 16; b mod 16]%Z) s.
Proof.
  intros Hb He Hs. destruct (nibbles_ok b Hb) as (H1 & H2 & _). unfold hex2. cbn [app].
  destruct (upper_digit_spec _ H1) as (D1 & W1 & C1 & B1 & X1 & Y1), (upper_digit_spec _ H2) as (D2 & W2 & C2 & B2 & X2 & Y2).
  cbn [parse_loop]. rewrite W1, C1. cbn [orb]. rewrite not_prefixed, D1 by done. rewrite W2, C2. cbn [orb].
  assert (prefixed (upper_digit (b mod 16) :: s) = false) as ->.
  { destruct s as [|x s]; [|destruct Hs; by apply not_prefixed].
    unfold prefixed, starts_with. cbn. by repeat case_match. }
  rewrite D2, <- app_assoc. done.
Qed.

Lemma parse_prefix digits p b s :
  p = bs "0x" \/ p = bs "\x" -> byte_ok b -> odd_len digits = false ->
  match s with x :: _ => is_ascii_hexdigit x = false | [] => True end ->
  parse_loop digits (p ++ hex2 b ++ s) = parse_loop (digits ++ [b / 16; b mod 16]%Z) s.
Proof.
  intros Hp Hb He Hs. destruct (nibbles_ok b Hb) as (H1 & H2 & _). unfold hex2.
  destruct (upper_digit_spec _ H1) as (D1 & _), (upper_digit_spec _ H2) as (D2 & _).
  assert (Hg : match s with b :: _ => is_ascii_hexdigit b && negb (starts_with (bs "0x") s) && negb (starts_with (bs "0X") s)
    | [] => false end = false) by (destruct s; [done|]; by rewrite Hs).
  destruct Hp as [-> | ->].
  - change (bs "0x") with [48; 120]%Z. cbn [app parse_loop]. change (is_ascii_whitespace 48) with false. cbn [orb Z.eqb].
    change (prefixed (48 :: 120 :: ?t)%Z) with true. by rewrite He, D1, D2, Hg.
  - change (bs "\x") with [92; 120]%Z. cbn [app parse_loop]. change (is_ascii_whitespace 92) with false. cbn [orb Z.eqb].
    change (prefixed (92 :: 120 :: ?t)%Z) with true. by rewrite He, D1, D2, Hg.
Qed.

Lemma parse_space digits x s :
  is_ascii_whitespace x || (x =? 44)%Z = true -> odd_len digits = false -> parse_loop digits (x :: s) = parse_loop digits s.
Proof. intros Hx He. cbn [parse_loop]. by rewrite Hx, He. Qed.

(** A piece that adds one byte's digits, separated by [sep]. *)
Lemma parse_join sep (piece : Z -> bytes) digits b :
  (forall digits x s, odd_len digits = false -> byte_ok x -> (s = [] \/ exists y t, s = sep ++ piece y ++ t /\ byte_ok y) ->
     parse_loop digits (piece x ++ s) = parse_loop (digits ++ [x / 16; x mod 16]%Z) s) ->
  (forall digits s, odd_len digits = false -> parse_loop digits (sep ++ s) = parse_loop digits s) ->
  bytes_ok b -> odd_len digits = false ->
  parse_loop digits (join sep (piece <$> b)) = Ok (digits ++ mjoin ((fun x => [x / 16; x mod 16]%Z) <$> b)).
Proof.
  intros Hp Hsep Hb. revert digits. induction Hb as [|x b Hx Hb IH]; intros digits He.
  { cbn. by rewrite He, app_nil_r. }
  assert (He' : odd_len (digits ++ [x / 16; x mod 16]%Z) = false) by (by rewrite odd_len_app).
  destruct b as [|y b].
  - cbn [fmap list_fmap join]. rewrite <- (app_nil_r (piece x)), Hp by (done || by left). cbn [parse_loop]. by rewrite He'.
  - change (join sep (piece <$> x :: y :: b)) with (piece x ++ sep ++ join sep (piece <$> y :: b)).
    apply Forall_cons in Hb as [Hy _].
    rewrite Hp; [|done|done|].
    + rewrite Hsep, IH by done. cbn. by rewrite <- app_assoc.
    + right. exists y. destruct b as [|z b]; [exists []|eexists]; (split; [|done]); cbn; [by rewrite app_nil_r|done].
Qed.

Lemma pairs_nibbles b : bytes_ok b -> pairs (mjoin ((fun x => [x / 16; x mod 16]%Z) <$> b)) = b.
Proof.
  induction 1 as [|x b Hx Hb IH]; [done|].
  change (pack_byte (x / 16) (x mod 16) :: pairs (mjoin ((fun x => [x / 16; x mod 16]%Z) <$> b)) = x :: b).
  by rewrite (proj2 (proj2 (nibbles_ok x Hx))), IH.
Qed.

Lemma hexdigit_no_x d : (0 <= d <= 15)%Z -> follows [upper_digit d].
Proof. intros Hd. destruct (upper_digit_spec d Hd) as (_ & _ & _ & _ & H1 & H2). done. Qed.

(** What is copied in any of the four byte formats (spaced, compact, C array, escaped)
    pastes back as the same bytes. *)
Theorem hex_copy_paste b format :
  bytes_ok b -> format <> FAscii -> parse_hex_paste (format_hex b format) = Ok b.
Proof.
  intros Hb Hf. unfold parse_hex_paste.
  assert (E : parse_loop [] (format_hex b format) = Ok ([] ++ mjoin ((fun x => [x / 16; x mod 16]%Z) <$> b))).
  { destruct format; cbn [format_hex]; [| | | |done]; apply parse_join; try done.
    - intros digits x s He Hx Hs. apply parse_plain; [done|done|]. destruct Hs as [->|(y & t & -> & _)]; done.
    - intros digits s He. by apply parse_space.
    - intros digits x s He Hx Hs. apply parse_plain; [done|done|]. destruct Hs as [->|(y & t & -> & Hy)]; [done|].
      apply (hexdigit_no_x (y / 16)). by apply nibbles_ok.
    - intros digits x s He Hx Hs. rewrite <- app_assoc. apply parse_prefix; [by left|done|done|].
      destruct Hs as [->|(y & t & -> & _)]; done.
    - intros digits s He. change (bs ", " ++ s) with (44 :: 32 :: s)%Z. by rewrite !parse_space.
    - intros digits x s He Hx Hs. rewrite <- app_assoc. apply parse_prefix; [by right|done|done|].
      destruct Hs as [->|(y & t & -> & _)]; done. }
  rewrite E. cbn [rbind app]. by rewrite pairs_nibbles.
Qed.

(** ** Witnesses *)

Lemma hex_document_safe_witness :
  exists d, run_hexes default_document [HType 4; HType 8; HSelectAll; HInsert [1; 2]; HDelete true]%Z = Ret d /\ hex_core d
    /\ sel_in d /\ exists b, selected_bytes d = Ret b /\ bytes_ok b.
Proof.
  apply (hex_document_safe [HType 4; HType 8; HSelectAll; HInsert [1; 2]; HDelete true]%Z); [|vm_compute; reflexivity].
  repeat constructor; unfold hex_op_ok, byte_ok; lia.
Defined.

Lemma hex_leftover_selection_panics_witness :
  exists d, run_hexes default_document
      [HSetBytes [1; 2; 3]%Z; HMove (mkCursor 3 High) false; HMove (mkCursor 3 High) true; HDelete true; HMove (mkCursor 1 High) true]
      = Ret d /\ selected_bytes d = Panic /\ type_nibble d 0 = Panic.
Proof. apply (hex_leftover_selection_panics [1; 2; 3]%Z). done. Defined.

Lemma hex_type_byte_witness :
  exists d1 d2, type_nibble (set_bytes default_document [1; 2]%Z) 4 = Ret d1 /\ hbytes d1 = [1; 2]%Z /\ type_nibble d1 8 = Ret d2
    /\ hbytes d2 = [72; 2]%Z /\ hcursor d2 = mkCursor 1 High /\ pending_nibble d2 = None.
Proof.
  apply (hex_type_byte (set_bytes default_document [1; 2]%Z) 4 8); try done; try lia.
  split; cbn; try done; [repeat constructor; unfold byte_ok; lia|lia].
Defined.

Lemma hex_copy_paste_witness : parse_hex_paste (format_hex [0; 255; 72]%Z FCArray) = Ok [0; 255; 72]%Z.
Proof. apply hex_copy_paste; [|done]. repeat constructor; unfold byte_ok; lia. Defined.
