(* ===== verification/DocumentEdit.v ===== *)
(** * Multi-cursor documents and folding

    [src/crates/nyaterm-core/src/document_edit.rs], without search and rectangular
    selections (DocumentSearch.v): transactions of edits on a document with several selections
    and an undo history, the normalisation of selections, and the projection that hides
    folded ranges. Offsets are [nat]: a [String] is at most [isize::MAX] bytes long, so the
    casts between [usize] and [isize] are exact. *)

From stdpp Require Import base option list numbers sorting strings.
From Stdlib Require Import ZArith Lia.
From S2P Require Import Prelude RustStr RustText RustChar RustOrd.

Local Open Scope nat_scope.
Local Open Scope rust_scope.

(** [Range<usize>]. *)
Definition range : Type := nat * nat.
Definition range_is_empty (r : range) : bool := negb (r.1 <? r.2).
Definition range_contains (r : range) (i : nat) : bool := (r.1 <=? i) && (i <? r.2).

Record TextEdit := mkTextEdit { erange : range; etext : bytes }.

Record DocumentSnapshot := mkSnapshot {
  s_content : bytes; s_anchor : nat; s_head : nat; s_additional : list range }.

Record TextDocument := mkDoc {
  content : bytes;
  anchor : nat;
  head : nat;
  additional_selections : list range;
  undo_stack : list DocumentSnapshot;
  redo_stack : list DocumentSnapshot;
}.

(** The key [(range.start, range.end)]. *)
Definition range_le (a b : range) : bool := (a.1 <? b.1) || ((a.1 =? b.1) && (a.2 <=? b.2)).

(** [boundary]: the offset is clamped, then moved down to a boundary. *)
Definition boundary (text : bytes) (offset : nat) : nat := floor_loop text (Nat.min offset (length text)).

Definition new_document (s : bytes) (cur : nat) : TextDocument :=
  let c := boundary s cur in mkDoc s c c [] [] [].

Definition snapshot (d : TextDocument) : DocumentSnapshot :=
  mkSnapshot (content d) (anchor d) (head d) (additional_selections d).

Definition checkpoint (d : TextDocument) : TextDocument :=
  let u := undo_stack d ++ [snapshot d] in
  mkDoc (content d) (anchor d) (head d) (additional_selections d) (if 64 <? length u then drop 1 u else u) [].

(** ** Selections *)

(** The loop of [normalize_selections], from the last element of [result] on: the elements
    before it are not looked at again. *)
Fixpoint merge_loop (last : range) (ranges : list range) : list range :=
  match ranges with
  | [] => [last]
  | r :: rs =>
    if (r.1 <? last.2) || bool_decide (r = last) || (range_is_empty r && (r.1 =? last.2))
    then merge_loop (last.1, Nat.max last.2 r.2) rs
    else last :: merge_loop r rs
  end.

Definition snap (text : bytes) (r : range) : range :=
  (boundary text (Nat.min r.1 r.2), boundary text (Nat.max r.2 r.1)).

Definition normalize_selections (text : bytes) (ranges : list range) : list range :=
  match sort_by range_le (snap text <$> ranges) with [] => [] | r :: rs => merge_loop r rs end.

Definition selections (d : TextDocument) : list range :=
  normalize_selections (content d) (additional_selections d ++ [(Nat.min (anchor d) (head d), Nat.max (anchor d) (head d))]).

(** ** Transactions *)

Definition edit_error : bytes := bs "invalid or overlapping edit ranges".

Fixpoint validate (s : bytes) (previous_end : nat) (edits : list TextEdit) : bool :=
  match edits with
  | [] => true
  | e :: es =>
    let r := erange e in
    if (r.1 <? previous_end) || (r.2 <? r.1) || (length s <? r.2)
       || negb (is_char_boundary s r.1) || negb (is_char_boundary s r.2)
    then false else validate s r.2 es
  end.

(** The carets after the edits, one after each inserted text. *)
Fixpoint cursors_loop (shift : Z) (edits : list TextEdit) : list nat :=
  match edits with
  | [] => []
  | e :: es =>
    (Z.to_nat (Z.of_nat (erange e).1 + shift) + length (etext e))
    :: cursors_loop (shift + (Z.of_nat (length (etext e)) - Z.of_nat ((erange e).2 - (erange e).1)))%Z es
  end.

(** The edits are applied from the last one back. *)
Fixpoint apply_back (edits : list TextEdit) (s : bytes) : outcome bytes :=
  match edits with
  | [] => Ret s
  | e :: es => s' <-! apply_back es s; replace_range s' (erange e).1 (erange e).2 (etext e)
  end.

Definition apply (d : TextDocument) (edits : list TextEdit) : outcome (TextDocument * result unit bytes) :=
  let edits := sort_by (fun a b => range_le (erange a) (erange b)) edits in
  if negb (validate (content d) 0 edits) then Ret (d, Err edit_error)
  else
    match edits with
    | [] => Ret (d, Ok tt)
    | _ =>
      let d := checkpoint d in
      let cursors := cursors_loop 0 edits in
      s <-! apply_back edits (content d);
      match last cursors with
      | None => Panic
      | Some primary =>
        Ret (mkDoc s primary primary ((fun c => (c, c)) <$> removelast cursors) (undo_stack d) (redo_stack d), Ok tt)
      end
    end.

Definition replace_selections (d : TextDocument) (text : bytes) : outcome (TextDocument * result unit bytes) :=
  apply d ((fun r => mkTextEdit r text) <$> selections d).

(** ** Folding *)

(** A segment: the source range, the displayed range, and whether it is a fold. *)
Record FoldProjection := mkFold { ftext : bytes; segments : list (range * range * bool) }.

(** The key [(range.start, Reverse(range.end))]. *)
Definition fold_le (a b : range) : bool := (a.1 <? b.1) || ((a.1 =? b.1) && (b.2 <=? a.2)).

(** The ellipsis and a line feed that stand for a fold. *)
Definition fold_mark : bytes := [226; 128; 166; 10]%Z.

(** [&s[a..b]]. *)
Definition slice (s : bytes) (a b : nat) : outcome bytes :=
  if is_char_boundary s a && is_char_boundary s b && (a <=? b) then Ret (take (b - a) (drop a s)) else Panic.

Fixpoint fold_loop (s : bytes) (cur : nat) (p : FoldProjection) (folds : list range) : outcome (nat * FoldProjection) :=
  match folds with
  | [] => Ret (cur, p)
  | r :: rs =>
    if (r.1 <? cur) || (r.2 <=? r.1) || (length s <? r.2) then fold_loop s cur p rs
    else if negb (is_char_boundary s r.1) || negb (is_char_boundary s r.2) then fold_loop s cur p rs
    else
      let start := length (ftext p) in
      piece <-! slice s cur r.1;
      let t1 := ftext p ++ piece in
      let segs1 := segments p ++ [((cur, r.1), (start, length t1), false)] in
      let t2 := t1 ++ fold_mark in
      let segs2 := segs1 ++ [(r, (length t1, length t2), true)] in
      fold_loop s r.2 (mkFold t2 segs2) rs
  end.

Definition fold_new (s : bytes) (folds : list range) : outcome FoldProjection :=
  r <-! fold_loop s 0 (mkFold [] []) (sort_by fold_le folds);
  let start := length (ftext r.2) in
  piece <-! slice s r.1 (length s);
  let t := ftext r.2 ++ piece in
  Ret (mkFold t (segments r.2 ++ [((r.1, length s), (start, length t), false)])).

Fixpoint find_display (segs : list (range * range * bool)) (source : nat) : option nat :=
  match segs with
  | [] => None
  | (input, output, hidden) :: rest =>
    if range_contains input source then Some (output.1 + (if hidden : bool then 0 else source - input.1))
    else find_display rest source
  end.
Definition display_offset (p : FoldProjection) (source : nat) : nat :=
  default (length (ftext p)) (find_display (segments p) source).

Fixpoint find_source (segs : list (range * range * bool)) (display : nat) : option nat :=
  match segs with
  | [] => None
  | (input, output, hidden) :: rest =>
    if range_contains output display then Some (input.1 + (if hidden : bool then 0 else display - output.1))
    else find_source rest display
  end.
Definition source_offset (p : FoldProjection) (display : nat) : nat :=
  match find_source (segments p) display with
  | Some o => o
  | None => match last (segments p) with Some (input, _, _) => input.2 | None => 0 end
  end.

(** ** Examples from the tests of the source *)

Example overlapping_selections_merge :
  option_map (fun r => content r.1)
    (match replace_selections (mkDoc (bs "abcdef") 0 3 [(2, 5); (6, 6); (6, 6)] [] []) (bs "X") with Ret r => Some r | Panic => None end)
  = Some (bs "XfX").
Proof. vm_compute. reflexivity. Qed.

Example folded_projection :
  fold_new (bs "head" ++ [10; 228; 184; 173; 230; 150; 135; 10]%Z ++ bs "end") [(5, 12)]
  = Ret (mkFold (bs "head" ++ [10]%Z ++ fold_mark ++ bs "end") [((0, 5), (0, 5), false); ((5, 12), (5, 9), true); ((12, 15), (9, 12), false)]).
Proof. vm_compute. reflexivity. Qed.

(** ** Order of ranges *)

Lemma range_le_spec a b : range_le a b = true <-> a.1 < b.1 \/ a.1 = b.1 /\ a.2 <= b.2.
Proof. unfold range_le. rewrite orb_true_iff, andb_true_iff, Nat.ltb_lt, Nat.eqb_eq, Nat.leb_le. done. Qed.

Lemma range_le_total a b : range_le a b = false -> range_le b a = true.
Proof. rewrite <- not_true_iff_false, !range_le_spec. lia. Qed.

Lemma range_le_trans a b c : range_le a b = true -> range_le b c = true -> range_le a c = true.
Proof. rewrite !range_le_spec. lia. Qed.

(** ** Normalised selections *)

(** Ranges that follow each other from [p] on without overlap. *)
Fixpoint chain (p : nat) (l : list range) : Prop :=
  match l with [] => True | r :: l' => p <= r.1 <= r.2 /\ chain r.2 l' end.

Definition range_wf (r : range) : Prop := r.1 <= r.2.

Lemma merge_loop_chain p last rs :
  p <= last.1 -> range_wf last -> Forall range_wf rs -> Forall (fun r => last.1 <= r.1) rs ->
  StronglySorted (fun a b => range_le a b = true) rs -> chain p (merge_loop last rs).
Proof.
  intros Hp Hw Hrs Hl Hs. revert p last Hp Hw Hl. induction Hs as [|r rs Hs IH Hr]; intros p last Hp Hw Hl; cbn [merge_loop].
  { by repeat split. }
  apply Forall_cons in Hrs as [Hwr Hrs], Hl as [Hlr Hl]. unfold range_wf in *. destruct (_ || _ || _) eqn:E.
  - apply IH; cbn; (done || lia).
  - bool_hyps. cbn [chain]. split; [lia|]. apply IH; try done.
    eapply Forall_impl; [exact Hr|]. intros x. rewrite range_le_spec. lia.
Qed.

(** Merging covers the same offsets, as ranges and as closed intervals. *)
Definition covers (l : list range) (i : nat) : Prop := Exists (fun r : range => r.1 <= i < r.2) l.
Definition touches (l : list range) (i : nat) : Prop := Exists (fun r : range => r.1 <= i <= r.2) l.

Lemma merge_loop_covers last rs i :
  range_wf last -> Forall range_wf rs -> Forall (fun r => last.1 <= r.1) rs ->
  StronglySorted (fun a b => range_le a b = true) rs ->
  (covers (merge_loop last rs) i <-> covers (last :: rs) i) /\ (touches (merge_loop last rs) i <-> touches (last :: rs) i).
Proof.
  intros Hw Hrs Hl Hs. revert last Hw Hl. unfold covers, touches in *.
  induction Hs as [|r rs Hs IH Hr]; intros last Hw Hl; cbn [merge_loop]; [done|].
  apply Forall_cons in Hrs as [Hwr Hrs], Hl as [Hlr Hl]. specialize (IH Hrs). unfold range_wf in *.
  destruct (_ || _ || _) eqn:E.
  - destruct (IH (last.1, Nat.max last.2 r.2)) as [IH1 IH2]; cbn; [lia|done|]. rewrite IH1, IH2, !Exists_cons. cbn.
    rewrite !orb_true_iff, andb_true_iff, bool_decide_eq_true in E.
    assert (Hm : r.1 <= last.2). { destruct E as [[E|E]|[_ E]]; bool_hyps; [lia| |lia]. subst. lia. }
    assert (He : r.1 = last.2 -> r.2 <= last.2).
    { intros Heq. destruct E as [[E|E]|[E _]]; bool_hyps; [lia|by subst|]. unfold range_is_empty in E. bool_hyps. lia. }
    split; split; intros H; destruct H as [H|H]; try tauto.
    + destruct (decide (i < last.2)); [left; lia|right; left; lia].
    + left. lia.
    + destruct H as [H|H]; [left; lia|by right].
    + destruct (decide (i <= last.2)); [left; lia|right; left; lia].
    + left. lia.
    + destruct H as [H|H]; [left; lia|by right].
  - rewrite !Exists_cons. destruct (IH r) as [IH1 IH2]; [done| |].
    { eapply Forall_impl; [exact Hr|]. intros x. rewrite range_le_spec. lia. }
    rewrite IH1, IH2, !Exists_cons. done.
Qed.

Lemma merge_loop_ends (P : nat -> Prop) last rs :
  P last.1 -> P last.2 -> Forall (fun r : range => P r.1 /\ P r.2) rs ->
  Forall (fun r : range => P r.1 /\ P r.2) (merge_loop last rs).
Proof.
  intros H1 H2 Hrs. revert last H1 H2. induction Hrs as [|r rs [Hr1 Hr2] Hrs IH]; intros last H1 H2; cbn [merge_loop].
  { by repeat constructor. }
  destruct (_ || _ || _); [|by constructor; [|apply IH]]. apply IH; [done|]. cbn. by destruct (Nat.max_spec last.2 r.2) as [[_ ->]|[_ ->]].
Qed.

Lemma boundary_ok s o : is_char_boundary s (boundary s o) = true /\ boundary s o <= o.
Proof. unfold boundary. destruct (floor_loop_spec s (Nat.min o (length s))) as (H1 & H2 & _). split; [done|lia]. Qed.

Lemma boundary_mono s a b : a <= b -> boundary s a <= boundary s b.
Proof.
  intros H. unfold boundary. destruct (floor_loop_spec s (Nat.min a (length s))) as (H1 & H2 & _).
  apply (floor_loop_spec s (Nat.min b (length s))); [done|lia].
Qed.

Lemma sorted_snaps s ranges :
  let l := sort_by range_le (snap s <$> ranges) in
  Forall range_wf l /\ Forall (fun r : range => is_char_boundary s r.1 = true /\ is_char_boundary s r.2 = true) l
  /\ StronglySorted (fun a b => range_le a b = true) l /\ l ≡ₚ snap s <$> ranges.
Proof.
  intros l. assert (Hp : l ≡ₚ snap s <$> ranges) by apply sort_by_perm. split_and!; try done.
  - rewrite Hp. apply Forall_fmap, Forall_forall. intros r _. apply boundary_mono. lia.
  - rewrite Hp. apply Forall_fmap, Forall_forall. intros r _. cbn. split; apply boundary_ok.
  - apply sort_by_sorted; [apply range_le_total|apply range_le_trans].
Qed.

Lemma covers_perm l l' i : l ≡ₚ l' -> (covers l i <-> covers l' i) /\ (touches l i <-> touches l' i).
Proof. intros H. unfold covers, touches. by rewrite H. Qed.

(** Normalised selections. Whatever the ranges (reversed, out of range, inside
    characters, overlapping, duplicated), the result is a sequence of ranges in order
    without overlap, with both ends on character boundaries, and it selects and touches
    exactly the offsets that the snapped input ranges did. *)
Lemma normalize_selections_spec s ranges :
  let l := normalize_selections s ranges in
  chain 0 l /\ Forall (fun r : range => is_char_boundary s r.1 = true /\ is_char_boundary s r.2 = true) l
  /\ forall i, (covers l i <-> covers (snap s <$> ranges) i) /\ (touches l i <-> touches (snap s <$> ranges) i).
Proof.
  intros l. destruct (sorted_snaps s ranges) as (Hw & Hb & Hs & Hp). subst l. unfold normalize_selections.
  destruct (sort_by range_le (snap s <$> ranges)) as [|r rs].
  { split_and!; [done|done|]. intros i. by apply covers_perm. }
  apply Forall_cons in Hw as [Hw1 Hw], Hb as [[Hb1 Hb2] Hb]. inversion Hs as [|? ? Hs' Hr]; subst.
  assert (Hl : Forall (fun x : range => r.1 <= x.1) rs) by (eapply Forall_impl; [exact Hr|]; intros x; rewrite range_le_spec; lia).
  split_and!; [apply merge_loop_chain; (done || lia)|by apply (merge_loop_ends (fun o => is_char_boundary s o = true))|].
  intros i. destruct (merge_loop_covers r rs i Hw1 Hw Hl Hs') as [-> ->]. by apply covers_perm.
Qed.

(** ** Transactions against their reference *)

(** The text after the edits, written from front to back: the text between the edits is
    kept, each edited range is replaced. *)
Fixpoint splice (p : nat) (es : list TextEdit) (s : bytes) : bytes :=
  match es with
  | [] => drop p s
  | e :: es' => take ((erange e).1 - p) (drop p s) ++ etext e ++ splice (erange e).2 es' s
  end.

Definition texts_valid (es : list TextEdit) : Prop := Forall (fun e => utf8_valid (etext e) = true) es.

Lemma boundary_drop s a b :
  is_char_boundary s b = true -> a <= b -> is_char_boundary (drop a s) (b - a) = true.
Proof.
  intros Hb Hle. pose proof (boundary_le s b Hb). unfold is_char_boundary in *. rewrite length_drop, lookup_drop.
  replace (a + (b - a)) with b by lia. rewrite !orb_true_iff in *. destruct Hb as [[H1|H1]|H1]; bool_hyps.
  - left; left. apply Nat.eqb_eq. lia.
  - left; right. apply Nat.eqb_eq. lia.
  - by right.
Qed.

Lemma validate_cons s p e es :
  validate s p (e :: es) = true ->
  p <= (erange e).1 <= (erange e).2 /\ (erange e).2 <= length s
  /\ is_char_boundary s (erange e).1 = true /\ is_char_boundary s (erange e).2 = true /\ validate s (erange e).2 es = true.
Proof.
  cbn [validate]. destruct (_ || _ || _ || _ || _) eqn:E; [done|]. intros H. bool_hyps. split_and!; (done || lia).
Qed.

(** The middle of a string between boundaries is a string. *)
Lemma slice_valid s a b :
  utf8_valid s = true -> is_char_boundary s a = true -> is_char_boundary s b = true -> a <= b ->
  utf8_valid (take (b - a) (drop a s)) = true.
Proof.
  intros Hs Ha Hb Hle. apply boundary_split; [by apply boundary_split|]. by apply boundary_drop.
Qed.

Lemma splice_valid es s p :
  utf8_valid s = true -> texts_valid es -> is_char_boundary s p = true -> validate s p es = true ->
  utf8_valid (splice p es s) = true.
Proof.
  intros Hs Ht. revert p. induction Ht as [|e es He Ht IH]; intros p Hp Hv; cbn [splice]; [by apply boundary_split|].
  apply validate_cons in Hv as (H1 & H2 & B1 & B2 & Hv).
  rewrite utf8_valid_app by (apply slice_valid; (done || lia)). rewrite utf8_valid_app by done. by apply IH.
Qed.

Lemma apply_back_splice es s p :
  utf8_valid s = true -> texts_valid es -> is_char_boundary s p = true -> validate s p es = true ->
  apply_back es s = Ret (take p s ++ splice p es s).
Proof.
  intros Hs Ht. revert p. induction Ht as [|e es He Ht IH]; intros p Hp Hv; cbn [splice apply_back]; [by rewrite take_drop|].
  pose proof Hv as Hv'. apply validate_cons in Hv as (H1 & H2 & B1 & B2 & Hv). destruct (erange e) as [a b] eqn:Er. cbn [fst snd] in *.
  rewrite (IH b B2 Hv). cbn [obind]. set (X := splice b es s).
  assert (HX : utf8_valid X = true) by (by apply splice_valid).
  assert (Hcut : take b s = take a s ++ take (b - a) (drop a s)) by (rewrite take_take_drop; f_equal; lia).
  assert (La : length (take a s) = a) by (rewrite length_take; lia). assert (Lb : length (take b s) = b) by (rewrite length_take; lia).
  assert (Ba : is_char_boundary (take b s ++ X) a = true).
  { pose proof (boundary_app (take a s) (take (b - a) (drop a s) ++ X)) as HB. rewrite La in HB.
    rewrite Hcut, <- app_assoc. apply HB. rewrite utf8_valid_app by (apply slice_valid; (done || lia)). done. }
  assert (Bb : is_char_boundary (take b s ++ X) b = true) by (pose proof (boundary_app (take b s) X HX) as HB; by rewrite Lb in HB).
  unfold replace_range. rewrite Ba, Bb, (proj2 (Nat.leb_le _ _)) by lia. cbn [andb]. f_equal.
  rewrite drop_app_length' by done. rewrite Hcut, <- app_assoc, take_app_length' by done.
  rewrite (app_assoc (take p s)), take_take_drop. do 2 f_equal. lia.
Qed.

(** A caret after its inserted text. *)
Definition caret_after (s' : bytes) (e : TextEdit) (c : nat) : Prop :=
  exists A B, s' = A ++ etext e ++ B /\ c = length (A ++ etext e).

Lemma cursors_loop_spec es s p pre shift :
  validate s p es = true -> shift = (Z.of_nat (length pre) - Z.of_nat p)%Z ->
  Forall2 (caret_after (pre ++ splice p es s)) es (cursors_loop shift es).
Proof.
  revert p pre shift. induction es as [|e es IH]; intros p pre shift Hv Hsh; cbn [cursors_loop splice]; [constructor|].
  apply validate_cons in Hv as (H1 & H2 & _ & _ & Hv). destruct (erange e) as [a b]. cbn [fst snd] in *.
  set (mid := take (a - p) (drop p s)). assert (Lm : length mid = a - p) by (unfold mid; rewrite length_take, length_drop; lia).
  constructor.
  - exists (pre ++ mid), (splice b es s). split; [by rewrite <- app_assoc|]. rewrite !length_app. lia.
  - replace (pre ++ mid ++ etext e ++ splice b es s) with ((pre ++ mid ++ etext e) ++ splice b es s) by (by rewrite <- !app_assoc).
    apply IH; [done|]. rewrite !length_app. lia.
Qed.

Lemma Forall2_last {A B} (P : A -> B -> Prop) l k x : Forall2 P (x :: l) k -> exists z, last k = Some z /\ k = removelast k ++ [z].
Proof.
  intros H. assert (k <> []) as Hk by (intros ->; inversion H). destruct (exists_last Hk) as (k' & z & ->).
  exists z. rewrite last_snoc, removelast_last. done.
Qed.

(** The carets of a document, the primary one last. *)
Definition carets (d : TextDocument) : list range := additional_selections d ++ [(anchor d, head d)].

Lemma apply_valid d edits :
  utf8_valid (content d) = true -> texts_valid edits -> edits <> [] ->
  let es := sort_by (fun a b => range_le (erange a) (erange b)) edits in
  validate (content d) 0 es = true ->
  exists d' cs, apply d edits = Ret (d', Ok tt)
    /\ content d' = splice 0 es (content d) /\ utf8_valid (content d') = true
    /\ carets d' = (fun c => (c, c)) <$> cs /\ Forall2 (caret_after (content d')) es cs
    /\ last (undo_stack d') = Some (snapshot d) /\ redo_stack d' = [].
Proof.
  intros Hs Ht Hne es Hv. unfold apply. fold es. rewrite Hv. cbn [negb].
  assert (Hp : es ≡ₚ edits) by apply sort_by_perm. assert (Hte : texts_valid es) by (unfold texts_valid; by rewrite Hp).
  assert (Hne' : es <> []) by (intros E; rewrite E in Hp; by apply Permutation_nil_l in Hp).
  pose proof (cursors_loop_spec es (content d) 0 [] 0 Hv eq_refl) as Hc. cbn [app] in Hc.
  pose proof (apply_back_splice es (content d) 0 Hs Hte (boundary_0 _) Hv) as Ha. rewrite take_0 in Ha. cbn [app] in Ha.
  destruct es as [|e es'] eqn:Ees; [done|]. rewrite <- Ees in *.
  change (content (checkpoint d)) with (content d). rewrite Ha. cbn [obind].
  assert (exists z, last (cursors_loop 0 es) = Some z /\ cursors_loop 0 es = removelast (cursors_loop 0 es) ++ [z]) as (z & Hz & Hsnoc).
  { rewrite Ees in Hc |- *. by eapply Forall2_last. }
  rewrite Hz. eexists _, (cursors_loop 0 es). split; [done|]. cbn [content undo_stack redo_stack]. split; [done|].
  split; [by apply splice_valid|]. split.
  { unfold carets. cbn. rewrite Hsnoc at 2. by rewrite fmap_app. }
  split; [done|]. split; [|done]. unfold checkpoint. cbn [undo_stack].
  destruct (_ <? _) eqn:E; [|apply last_snoc]. destruct (undo_stack d) as [|x u]; [by cbn in E|]. cbn. destruct u; [done|]. apply last_snoc.
Qed.

(** C32: an edit transaction is atomic and does what its edits say. Invalid or overlapping
    edits are reported and leave the document as it was. Valid ones (however they were
    ordered) return, give the text in which each range is replaced and everything between
    is kept, one caret right after each inserted text, the old document on the undo stack
    and an empty redo stack. *)
Theorem apply_transaction d edits :
  utf8_valid (content d) = true -> texts_valid edits -> edits <> [] ->
  let es := sort_by (fun a b => range_le (erange a) (erange b)) edits in
  if validate (content d) 0 es then
    exists d' cs, apply d edits = Ret (d', Ok tt)
      /\ content d' = splice 0 es (content d) /\ utf8_valid (content d') = true
      /\ carets d' = (fun c => (c, c)) <$> cs /\ Forall2 (caret_after (content d')) es cs
      /\ last (undo_stack d') = Some (snapshot d) /\ redo_stack d' = []
  else apply d edits = Ret (d, Err edit_error).
Proof.
  intros Hs Ht Hne es. destruct (validate (content d) 0 es) eqn:Hv; [by apply apply_valid|].
  unfold apply. fold es. by rewrite Hv.
Qed.

(** The undo history is bounded: no transaction takes it past 64 entries. *)
Theorem undo_bounded d edits d' r :
  length (undo_stack d) <= 64 -> apply d edits = Ret (d', r) -> length (undo_stack d') <= 64.
Proof.
  intros Hl. unfold apply. destruct (negb _); [by intros [= <- _]|]. destruct (sort_by _ edits) as [|e es]; [by intros [= <- _]|].
  destruct (apply_back _ _); cbn [obind]; [|done]. destruct (last _); [|done]. intros [= <- _]. cbn [undo_stack checkpoint].
  destruct (_ <? _) eqn:E; bool_hyps; [|lia]. rewrite length_drop, length_app in *. cbn. lia.
Qed.

Lemma chain_sorted p l :
  chain p l -> Forall (fun r : range => p <= r.1 /\ p <= r.2) l /\ StronglySorted (fun a b => range_le a b = true) l.
Proof.
  revert p. induction l as [|r l IH]; intros p; cbn [chain]; [repeat constructor|]. intros [Hr Hc].
  destruct (IH _ Hc) as [Hf Hs]. split.
  - constructor; [lia|]. eapply Forall_impl; [exact Hf|]. cbn. intros x. lia.
  - constructor; [done|]. eapply Forall_impl; [exact Hf|]. cbn. intros x Hx. apply range_le_spec. lia.
Qed.

Lemma chain_validate s t p l :
  chain p l -> Forall (fun r : range => is_char_boundary s r.1 = true /\ is_char_boundary s r.2 = true) l ->
  validate s p ((fun r => mkTextEdit r t) <$> l) = true.
Proof.
  intros Hc Hb. revert p Hc. induction Hb as [|r l [B1 B2] Hb IH]; intros p; cbn [chain fmap list_fmap validate erange]; [done|].
  intros [Hr Hc]. pose proof (boundary_le _ _ B2). rewrite B1, B2.
  rewrite (proj2 (Nat.ltb_ge r.1 p)), (proj2 (Nat.ltb_ge r.2 r.1)), (proj2 (Nat.ltb_ge (length s) r.2)) by lia. by apply IH.
Qed.

Lemma sort_fmap_edits t l :
  sort_by (fun a b => range_le (erange a) (erange b)) ((fun r => mkTextEdit r t) <$> l)
  = (fun r => mkTextEdit r t) <$> sort_by range_le l.
Proof.
  unfold sort_by. change (@nil TextEdit) with ((fun r => mkTextEdit r t) <$> @nil range). generalize (@nil range).
  induction l as [|x l IH]; intros acc; cbn; [done|]. rewrite <- IH. f_equal. clear IH.
  induction acc as [|y acc IH]; cbn; [done|]. destruct (range_le y x); [|done]. cbn. by rewrite <- IH.
Qed.

(** Typing with several cursors never fails. From any document, wherever its
    selections are (overlapping, stale, inside characters), they normalise to ranges in
    order without overlap that touch exactly the offsets the snapped selections did, and
    typing a text replaces each of them by it in one transaction, with one caret each. *)
Theorem replace_selections_total d text :
  utf8_valid (content d) = true -> utf8_valid text = true ->
  let wanted := additional_selections d ++ [(Nat.min (anchor d) (head d), Nat.max (anchor d) (head d))] in
  chain 0 (selections d)
  /\ (forall i, touches (selections d) i <-> touches (snap (content d) <$> wanted) i)
  /\ exists d', replace_selections d text = Ret (d', Ok tt)
    /\ content d' = splice 0 ((fun r => mkTextEdit r text) <$> selections d) (content d)
    /\ utf8_valid (content d') = true /\ length (carets d') = length (selections d).
Proof.
  intros Hs Ht wanted. destruct (normalize_selections_spec (content d) wanted) as (Hc & Hb & Hcov).
  change (normalize_selections (content d) wanted) with (selections d) in Hc, Hb, Hcov. split; [done|]. split; [intros i; apply Hcov|].
  set (edits := (fun r => mkTextEdit r text) <$> selections d).
  assert (Hsort : sort_by (fun a b => range_le (erange a) (erange b)) edits = edits).
  { unfold edits. rewrite sort_fmap_edits, sort_by_id; [done|]. by apply (chain_sorted 0). }
  assert (Hte : texts_valid edits) by (apply Forall_fmap, Forall_forall; done).
  assert (Hne : edits <> []).
  { intros E. apply fmap_nil_inv in E. rewrite E in Hcov.
    assert (Ht0 : touches [] (snap (content d) (Nat.min (anchor d) (head d), Nat.max (anchor d) (head d))).1).
    { apply Hcov. unfold touches, wanted. rewrite fmap_app. apply Exists_app. right. apply Exists_cons. left.
      split; [lia|]. apply boundary_mono. lia. }
    inversion Ht0. }
  destruct (apply_valid d edits Hs Hte Hne) as (d' & cs & Ha & Hcd & Hv & Hca & Hf & _).
  { rewrite Hsort. by apply chain_validate. }
  rewrite Hsort in *. exists d'. split_and!; try done.
  rewrite Hca, length_fmap. apply Forall2_length in Hf. rewrite <- Hf. unfold edits. by rewrite length_fmap.
Qed.

(** ** Folding is a faithful projection *)

(** The segments tile the source from [i] to [i'] and the display [t] from [o] to [o']:
    visible ones show the source bytes, folds show the mark. *)
Fixpoint tiled (s t : bytes) (i o : nat) (segs : list (range * range * bool)) (i' o' : nat) : Prop :=
  match segs with
  | [] => i = i' /\ o = o'
  | ((a, b), (c, d), h) :: rest =>
    a = i /\ c = o /\ a <= b /\ c <= d
    /\ (if h : bool then a < b /\ d = c + length fold_mark
        else d - c = b - a /\ forall k, k < b - a -> t !! (c + k) = s !! (a + k))
    /\ tiled s t b d rest i' o'
  end.

Lemma tiled_app s t i o l1 m n l2 i' o' : tiled s t i o l1 m n -> tiled s t m n l2 i' o' -> tiled s t i o (l1 ++ l2) i' o'.
Proof.
  revert i o. induction l1 as [|[[[a b] [c d]] h] l1 IH]; intros i o; cbn; [by intros [-> ->]|].
  intros (H1 & H2 & H3 & H4 & H5 & H6) Hl2. split_and!; eauto.
Qed.

Lemma tiled_le s t i o l i' o' : tiled s t i o l i' o' -> i <= i' /\ o <= o'.
Proof.
  revert i o. induction l as [|[[[a b] [c d]] h] l IH]; intros i o; cbn; [lia|].
  intros (H1 & H2 & H3 & H4 & _ & H6). apply IH in H6. lia.
Qed.

Lemma tiled_text s t u i o l i' o' : o' <= length t -> tiled s t i o l i' o' -> tiled s (t ++ u) i o l i' o'.
Proof.
  intros Ho. revert i o. induction l as [|[[[a b] [c d]] h] l IH]; intros i o; cbn; [done|].
  intros (H1 & H2 & H3 & H4 & H5 & H6). pose proof (tiled_le _ _ _ _ _ _ _ H6). split_and!; try done; [|by apply IH].
  destruct h; [done|]. destruct H5 as [H5 H7]. split; [done|]. intros k Hk. rewrite lookup_app_l by lia. by apply H7.
Qed.

(** Adding the source from [cur] to [b] to the display. *)
Lemma tiled_slice s t segs cur b :
  cur <= b -> b <= length s -> tiled s t 0 0 segs cur (length t) ->
  let t1 := t ++ take (b - cur) (drop cur s) in
  tiled s t1 0 0 (segs ++ [((cur, b), (length t, length t1), false)]) b (length t1).
Proof.
  intros Hc Hb Ht t1. assert (Hl : length (take (b - cur) (drop cur s)) = b - cur) by (rewrite length_take, length_drop; lia).
  apply tiled_app with cur (length t); [by apply tiled_text|]. unfold t1. cbn. rewrite length_app, Hl. split_and!; try done; [lia|lia|].
  intros k Hk. rewrite lookup_app_r by lia. replace (length t + k - length t) with k by lia.
  rewrite lookup_take_lt by done. by rewrite lookup_drop.
Qed.

Lemma slice_ret s a b : is_char_boundary s a = true -> is_char_boundary s b = true -> a <= b -> slice s a b = Ret (take (b - a) (drop a s)).
Proof. intros Ha Hb Hle. unfold slice. rewrite Ha, Hb, (proj2 (Nat.leb_le _ _)) by done. done. Qed.

Lemma fold_loop_tiled s folds cur p :
  is_char_boundary s cur = true -> tiled s (ftext p) 0 0 (segments p) cur (length (ftext p)) ->
  exists cur' p', fold_loop s cur p folds = Ret (cur', p') /\ is_char_boundary s cur' = true
    /\ tiled s (ftext p') 0 0 (segments p') cur' (length (ftext p')).
Proof.
  revert cur p. induction folds as [|r folds IH]; intros cur p Hb Ht; cbn [fold_loop]; [by eexists _, _|].
  destruct (_ || _ || _) eqn:E; [by apply IH|]. bool_hyps. destruct (negb _ || negb _) eqn:E2; [by apply IH|]. bool_hyps.
  rewrite slice_ret by done. cbn [obind]. apply IH; [done|]. cbn [ftext segments].
  pose proof (tiled_slice s (ftext p) (segments p) cur r.1 ltac:(done) ltac:(lia) Ht) as Hsl. cbn zeta in Hsl.
  eapply tiled_app; [apply tiled_text; [|exact Hsl]; done|]. destruct r as [a b]. cbn [fst snd] in *. cbn [tiled].
  rewrite (length_app _ fold_mark). split_and!; (done || lia).
Qed.

Lemma fold_new_tiled s folds :
  exists p, fold_new s folds = Ret p /\ tiled s (ftext p) 0 0 (segments p) (length s) (length (ftext p))
    /\ exists r o, last (segments p) = Some ((r, length s), o, false).
Proof.
  destruct (fold_loop_tiled s (sort_by fold_le folds) 0 (mkFold [] [])) as (cur & p & E & Hb & Ht); [apply boundary_0|done|].
  pose proof (boundary_le s cur Hb). unfold fold_new. rewrite E. cbn [obind fst snd].
  rewrite slice_ret by (done || apply boundary_len). cbn [obind]. eexists. split; [done|]. cbn [ftext segments].
  split; [by apply tiled_slice|]. rewrite last_snoc. by eexists _, _.
Qed.

(** Whether an offset is in a fold. *)
Definition hidden_at (segs : list (range * range * bool)) (x : nat) : bool :=
  existsb (fun g => g.2 && range_contains g.1.1 x) segs.

Lemma range_contains_spec a b x : range_contains (a, b) x = true <-> a <= x < b.
Proof. unfold range_contains. cbn [fst snd]. rewrite andb_true_iff, Nat.leb_le, Nat.ltb_lt. done. Qed.

Lemma range_contains_no a b x : ~ (a <= x < b) -> range_contains (a, b) x = false.
Proof. rewrite <- range_contains_spec. by destruct (range_contains (a, b) x). Qed.

Lemma find_source_none s t i o l i' o' y : tiled s t i o l i' o' -> y < o \/ o' <= y -> find_source l y = None.
Proof.
  revert i o. induction l as [|[[[a b] [c d]] h] l IH]; intros i o; cbn; [done|].
  intros (-> & -> & H3 & H4 & H5 & H6) Hy. pose proof (tiled_le _ _ _ _ _ _ _ H6).
  rewrite range_contains_no by lia. apply (IH b d); [done|lia].
Qed.

Lemma hidden_outside s t i o l i' o' x : tiled s t i o l i' o' -> x < i -> hidden_at l x = false.
Proof.
  revert i o. induction l as [|[[[a b] [c d]] h] l IH]; intros i o; cbn; [done|].
  intros (-> & -> & H3 & H4 & H5 & H6) Hx. rewrite range_contains_no, andb_false_r by lia. apply (IH b d); [done|lia].
Qed.

Lemma find_display_spec s t i o l i' o' x :
  tiled s t i o l i' o' -> i <= x < i' ->
  exists y z, find_display l x = Some y /\ o <= y < o' /\ find_source l y = Some z /\ z <= x
    /\ (hidden_at l x = false -> z = x /\ t !! y = s !! x).
Proof.
  revert i o. induction l as [|[[[a b] [c d]] h] l IH]; intros i o; cbn [tiled]; [lia|].
  intros (-> & -> & H3 & H4 & H5 & H6) Hx. pose proof (tiled_le _ _ _ _ _ _ _ H6) as [L1 L2]. cbn [find_display].
  destruct (decide (x < b)) as [Hlt|Hge].
  - rewrite (proj2 (range_contains_spec i b x)) by lia. cbn [fst snd]. destruct h.
    + destruct H5 as [H5 ->]. rewrite Nat.add_0_r. assert (0 < length fold_mark) by (cbn; lia). eexists _, i. split; [done|].
      cbn [find_source]. rewrite (proj2 (range_contains_spec o _ o)) by lia. cbn [fst].
      split; [lia|]. split; [by rewrite Nat.add_0_r|]. split; [lia|]. cbn. rewrite (proj2 (range_contains_spec i b x)) by lia. done.
    + destruct H5 as [H5 H7]. eexists _, x. split; [done|]. cbn [find_source].
      rewrite (proj2 (range_contains_spec o d _)) by lia. cbn [fst]. split; [lia|]. split; [f_equal; lia|]. split; [lia|].
      intros _. split; [done|]. rewrite H7 by lia. f_equal. lia.
  - rewrite range_contains_no by lia. destruct (IH b d H6) as (y & z & E1 & Hy & E2 & Hz & Hv); [lia|].
    exists y, z. split; [done|]. cbn [find_source hidden_at existsb]. rewrite !range_contains_no by (cbn; lia).
    cbn [fst snd]. rewrite range_contains_no, andb_false_r by lia. split_and!; (done || lia).
Qed.

Lemma find_display_mono s t i o l i' o' x x' :
  tiled s t i o l i' o' -> i <= x -> x <= x' -> x' < i' ->
  exists y y', find_display l x = Some y /\ find_display l x' = Some y' /\ y <= y'.
Proof.
  revert i o. induction l as [|[[[a b] [c d]] h] l IH]; intros i o; cbn [tiled]; [lia|].
  intros (-> & -> & H3 & H4 & H5 & H6) Hx Hxx Hx'. cbn [find_display]. destruct (decide (x' < b)) as [Hlt|Hge].
  - rewrite !(proj2 (range_contains_spec i b _)) by lia. eexists _, _. split_and!; [done..|]. cbn. destruct h; lia.
  - rewrite (range_contains_no i b x') by lia. destruct (find_display_spec _ _ _ _ _ _ _ x' H6) as (y' & _ & E' & Hy' & _); [lia|].
    destruct (decide (x < b)).
    + rewrite (proj2 (range_contains_spec i b x)) by lia. eexists _, y'. split_and!; [done..|]. cbn. destruct h; lia.
    + rewrite (range_contains_no i b x) by lia. apply (IH b d); (done || lia).
Qed.

(** Folding hides only what is folded. For any text and any folds (nested, overlapping,
    out of range, inside characters), the projection is built without a panic. Every offset
    outside the folds, the end of the text included, maps to the display and back to
    itself, and shows the same byte there; an offset inside a fold comes back at or before
    itself; and the display keeps the order of the source. *)
Theorem fold_projection_faithful s folds :
  exists p, fold_new s folds = Ret p
    /\ (forall x, x <= length s ->
          display_offset p x <= length (ftext p) /\ source_offset p (display_offset p x) <= x
          /\ (hidden_at (segments p) x = false ->
              source_offset p (display_offset p x) = x /\ ftext p !! display_offset p x = s !! x))
    /\ (forall x x', x <= x' -> x' <= length s -> display_offset p x <= display_offset p x').
Proof.
  destruct (fold_new_tiled s folds) as (p & E & Ht & r & o & Hl). exists p. split; [done|].
  assert (Hend : forall x, length s <= x -> display_offset p x = length (ftext p)).
  { intros x Hx. unfold display_offset. cut (find_display (segments p) x = None); [by intros ->|].
    clear E Hl. revert Ht. generalize 0 at 1. generalize 0. induction (segments p) as [|[[[a b] [c d]] h] l IH]; intros u v; cbn; [done|].
    intros (-> & -> & H3 & H4 & H5 & H6). pose proof (tiled_le _ _ _ _ _ _ _ H6). rewrite range_contains_no by lia. by apply (IH d b). }
  split.
  - intros x Hx. destruct (decide (x < length s)) as [Hlt|Hge].
    + destruct (find_display_spec _ _ _ _ _ _ _ x Ht) as (y & z & E1 & Hy & E2 & Hz & Hv); [lia|].
      unfold display_offset, source_offset. rewrite E1. cbn [from_option]. unfold id. rewrite E2. split_and!; [cbn; lia|done|exact Hv].
    + assert (x = length s) as -> by lia. rewrite Hend by done. unfold source_offset.
      rewrite (find_source_none _ _ _ _ _ _ _ _ Ht), Hl by lia. cbn. split_and!; [done|done|]. intros _. split; [done|].
      rewrite !lookup_ge_None_2 by done. done.
  - intros x x' Hle Hx'. destruct (decide (x' < length s)) as [Hlt|Hge].
    + destruct (find_display_mono _ _ _ _ _ _ _ x x' Ht) as (y & y' & E1 & E2 & Hy); [lia..|].
      unfold display_offset. by rewrite E1, E2.
    + rewrite (Hend x') by lia. destruct (decide (x < length s)); [|by rewrite Hend by lia].
      destruct (find_display_spec _ _ _ _ _ _ _ x Ht) as (y & z & E1 & Hy & _); [lia|]. unfold display_offset. rewrite E1. cbn. lia.
Qed.

(** ** Witnesses *)

Lemma apply_transaction_witness :
  exists d' cs, apply (new_document (bs "abcdef") 0) [mkTextEdit (4, 5) (bs "X"); mkTextEdit (1, 1) (bs "YY")] = Ret (d', Ok tt)
    /\ content d' = bs "aYYbcdXf" /\ utf8_valid (content d') = true
    /\ carets d' = (fun c => (c, c)) <$> cs
    /\ Forall2 (caret_after (content d')) [mkTextEdit (1, 1) (bs "YY"); mkTextEdit (4, 5) (bs "X")] cs
    /\ last (undo_stack d') = Some (snapshot (new_document (bs "abcdef") 0)) /\ redo_stack d' = [].
Proof.
  apply (apply_transaction (new_document (bs "abcdef") 0) [mkTextEdit (4, 5) (bs "X"); mkTextEdit (1, 1) (bs "YY")]);
    [done|by repeat constructor|done].
Defined.

Lemma undo_bounded_witness :
  match apply (new_document (bs "ab") 0) [mkTextEdit (0, 1) []] with
  | Ret (d', _) => length (undo_stack d') <= 64 | Panic => False end.
Proof.
  destruct (apply (new_document (bs "ab") 0) [mkTextEdit (0, 1) []]) as [[d' r]|] eqn:E; [|by vm_compute in E].
  apply (undo_bounded (new_document (bs "ab") 0) [mkTextEdit (0, 1) []] d' r); [cbn; lia|exact E].
Defined.

Lemma replace_selections_total_witness :
  exists d', replace_selections (mkDoc (bs "abcdef") 0 3 [(2, 5); (6, 6); (9, 6)] [] []) (bs "X") = Ret (d', Ok tt)
    /\ content d' = bs "XfX" /\ utf8_valid (content d') = true /\ length (carets d') = 2.
Proof.
  destruct (replace_selections_total (mkDoc (bs "abcdef") 0 3 [(2, 5); (6, 6); (9, 6)] [] []) (bs "X")) as (_ & _ & H); [done..|].
  exact H.
Defined.
