(* ===== verification/DocumentSearch.v ===== *)
(** * Searching, replacing and rectangular selections

    The rest of [src/crates/nyaterm-core/src/document_edit.rs]: [SearchOptions], whose
    matches become the edits of one transaction, and [rectangle_selections]. The regular
    expression crate is a parameter: building an expression, its matches with their
    captures, and the expansion of a replacement; [RegexLaws] is what its documentation
    says of the matches. *)

From stdpp Require Import base option list numbers sorting strings.
From Stdlib Require Import ZArith Lia.
From S2P Require Import Prelude RustStr RustText RustChar RustOrd DocumentEdit.

Local Open Scope nat_scope.
Local Open Scope rust_scope.

(** ** Search *)

Class RegexEngine (Regex Captures Error : Type) := {
  regex_escape : bytes -> bytes;
  regex_build : bytes -> bool -> bool -> result Regex Error;
  captures_iter : Regex -> bytes -> list Captures;
  whole : Captures -> range;
  expand : Captures -> bytes -> bytes;
}.

(** Matches come from left to right without overlap, on character boundaries, and an
    expansion is a string. *)
Class RegexLaws (Regex Captures Error : Type) `{RegexEngine Regex Captures Error} : Prop := {
  matches_chain : forall re s, chain 0 (whole <$> captures_iter re s);
  matches_boundaries : forall re s, utf8_valid s = true ->
    Forall (fun r : range => is_char_boundary s r.1 = true /\ is_char_boundary s r.2 = true) (whole <$> captures_iter re s);
  expand_valid : forall c t, utf8_valid t = true -> utf8_valid (expand c t) = true;
}.

Record SearchOptions := mkSearch { case_sensitive : bool; whole_word : bool; regex : bool }.

Section Search.
Context {Regex Captures Error : Type} `{RegexEngine Regex Captures Error}.

Definition compile (o : SearchOptions) (query : bytes) : result (option Regex) Error :=
  if bool_decide (query = []) then Ok None
  else
    let pattern := if regex o then query else regex_escape query in
    let pattern := if whole_word o then bs "\b(?:" ++ pattern ++ bs ")\b" else pattern in
    re <-? regex_build pattern (negb (case_sensitive o)) true;
    Ok (Some re).

(** [find_iter]: the whole matches of [captures_iter]. *)
Definition matches (o : SearchOptions) (text query : bytes) : result (list range) Error :=
  re <-? compile o query;
  Ok (match re with Some re => whole <$> captures_iter re text | None => [] end).

Definition replacement_edit (o : SearchOptions) (replacement : bytes) (c : Captures) : TextEdit :=
  mkTextEdit (whole c) (if regex o then expand c replacement else replacement).

(** [enumerate] and [filter]: all matches, or the one with the index. *)
Fixpoint select_at {A} (i : nat) (index : option nat) (l : list A) : list A :=
  match l with
  | [] => []
  | x :: l' => (if match index with None => true | Some n => n =? i end then [x] else []) ++ select_at (S i) index l'
  end.

Definition replacements (o : SearchOptions) (text query replacement : bytes) (index : option nat) : result (list TextEdit) Error :=
  re <-? compile o query;
  Ok (match re with
      | None => []
      | Some re => replacement_edit o replacement <$> select_at 0 index (captures_iter re text)
      end).

Lemma select_all_id {A} (l : list A) i : select_at i None l = l.
Proof. revert i. induction l as [|x l IH]; intros i; cbn; [done|]. by rewrite IH. Qed.

Lemma select_one {A} (l : list A) i n : select_at i (Some n) l = if i <=? n then option_list (l !! (n - i)) else [].
Proof.
  revert i. induction l as [|x l IH]; intros i; cbn [select_at]; [by destruct (i <=? n)|]. rewrite IH. destruct (n =? i) eqn:E; bool_hyps.
  - subst. rewrite (proj2 (Nat.leb_le i i)), (proj2 (Nat.leb_gt (S i) i)), Nat.sub_diag by lia. done.
  - destruct (i <=? n) eqn:E1; bool_hyps.
    + rewrite (proj2 (Nat.leb_le (S i) n)) by lia. by replace (n - i) with (S (n - S i)) by lia.
    + rewrite (proj2 (Nat.leb_gt (S i) n)) by lia. done.
Qed.

Lemma chain_weaken p q l : q <= p -> chain p l -> chain q l.
Proof. destruct l as [|r l]; cbn; [done|]. intros ? []. split; [lia|done]. Qed.

Lemma chain_select {A} (g : A -> range) l p i index : chain p (g <$> l) -> chain p (g <$> select_at i index l).
Proof.
  revert p i. induction l as [|x l IH]; intros p i; cbn [select_at fmap list_fmap chain]; [done|]. intros [Hx Hc].
  destruct (match index with None => true | Some n => n =? i end); cbn [app fmap list_fmap chain]; [by split; [|apply IH]|].
  apply IH. by apply (chain_weaken (g x).2); [lia|].
Qed.

Lemma Forall_select {A} (P : A -> Prop) l i index : Forall P l -> Forall P (select_at i index l).
Proof.
  intros Hl. revert i. induction Hl as [|x l Hx Hl IH]; intros i; cbn [select_at]; [done|].
  apply Forall_app. split; [|done]. destruct (match index with None => true | Some n => n =? i end); by repeat constructor.
Qed.

Section Laws.
Context `{!RegexLaws Regex Captures Error}.

Lemma edits_validate s p es :
  chain p (erange <$> es) -> Forall (fun e => is_char_boundary s (erange e).1 = true /\ is_char_boundary s (erange e).2 = true) es -> validate s p es = true.
Proof.
  intros Hc Hb. revert p Hc. induction Hb as [|e es [B1 B2] Hb IH]; intros p; cbn [chain fmap list_fmap validate]; [done|].
  intros [Hr Hc]. pose proof (boundary_le _ _ B2). rewrite B1, B2.
  rewrite (proj2 (Nat.ltb_ge (erange e).1 p)), (proj2 (Nat.ltb_ge (erange e).2 (erange e).1)), (proj2 (Nat.ltb_ge (length s) (erange e).2)) by lia. by apply IH.
Qed.

Lemma edits_sorted p es : chain p (erange <$> es) -> StronglySorted (fun a b => range_le (erange a) (erange b) = true) es.
Proof.
  intros Hc. apply chain_sorted in Hc as [_ Hs]. induction es as [|e es IH]; cbn [fmap list_fmap] in Hs; [constructor|]. inversion Hs; subst.
  constructor; [by apply IH|]. by apply Forall_fmap in H3.
Qed.

(** Replacing is one transaction that never fails. For a query that compiles, the
    edits of [replacements] have the ranges of [matches] (all of them, or the one asked
    for), and applying them succeeds: each match is replaced, the rest of the text is kept,
    and one undo step takes it all back. *)
Theorem replace_matches_applies o d query replacement index ms es :
  utf8_valid (content d) = true -> utf8_valid replacement = true ->
  matches o (content d) query = Ok ms -> replacements o (content d) query replacement index = Ok es ->
  erange <$> es = match index with None => ms | Some n => option_list (ms !! n) end
  /\ exists d', apply d es = Ret (d', Ok tt) /\ content d' = splice 0 es (content d) /\ utf8_valid (content d') = true
       /\ (es = [] /\ d' = d \/ last (undo_stack d') = Some (snapshot d)).
Proof.
  intros Hs Hr. unfold matches, replacements. destruct (compile o query) as [re|]; cbn [rbind]; [|done]. intros [= <-] [= <-].
  destruct re as [re|]; [|split; [by destruct index|]; exists d; by split_and!; [|cbn; by rewrite drop_0| |left]].
  set (caps := captures_iter re (content d)). set (es := replacement_edit o replacement <$> select_at 0 index caps).
  assert (Her : erange <$> es = whole <$> select_at 0 index caps) by (unfold es; rewrite <- list_fmap_compose; done).
  split. { rewrite Her. destruct index as [n|]; [|by rewrite select_all_id]. rewrite select_one, Nat.sub_0_r, list_lookup_fmap. cbn. by destruct (caps !! n). }
  assert (Hc : chain 0 (erange <$> es)) by (rewrite Her; apply chain_select, matches_chain).
  assert (Hb : Forall (fun e => is_char_boundary (content d) (erange e).1 = true /\ is_char_boundary (content d) (erange e).2 = true) es).
  { unfold es. apply Forall_fmap, Forall_select. pose proof (matches_boundaries re (content d) Hs) as Hm. by apply Forall_fmap in Hm. }
  assert (Ht : texts_valid es).
  { unfold es. apply Forall_fmap, Forall_forall. intros c _. cbn. destruct (regex o); [by apply expand_valid|done]. }
  assert (Hsort : sort_by (fun a b => range_le (erange a) (erange b)) es = es) by (apply sort_by_id; by eapply edits_sorted).
  destruct (decide (es = [])) as [->|Hne]; [exists d; by split_and!; [|cbn; by rewrite drop_0| |left]|].
  destruct (apply_valid d es Hs Ht Hne) as (d' & cs & Ha & Hcd & Hv & _ & _ & Hu & _); rewrite Hsort in *; [by apply edits_validate|].
  exists d'. split_and!; auto.
Qed.
End Laws.
End Search.

(** ** Rectangular selections *)

(** [split_inclusive('\n')]: the lines with their line ends. *)
Fixpoint split_inclusive (s : bytes) : list bytes :=
  match s with
  | [] => []
  | b :: s' =>
    if (b =? 10)%Z then [b] :: split_inclusive s'
    else match split_inclusive s' with [] => [[b]] | l :: ls => (b :: l) :: ls end
  end.

(** [rsplit('\n').next()]: the text after the last line end. *)
Definition last_line (s : bytes) : bytes := fold_left (fun acc b => if (b =? 10)%Z then [] else acc ++ [b]) s [].

Definition strip_newline (t : bytes) : bytes :=
  match last t with Some b => if (b =? 10)%Z then removelast t else t | None => t end.

Definition position (text : bytes) (offset : nat) : nat * nat :=
  let before := take (boundary text offset) text in
  (length (filter (fun b => b = 10%Z) before), length (chars (last_line before))).

(** [char_indices().nth(col)]. *)
Definition column (text : bytes) (col : nat) : nat :=
  match chars text !! col with Some _ => length (concat (take col (chars text))) | None => length text end.

Fixpoint rect_loop (lines : list bytes) (line offset first_line last_line c1 c2 : nat) : list range :=
  match lines with
  | [] => []
  | t :: ls =>
    (if (first_line <=? line) && (line <=? last_line)
     then [(offset + column (strip_newline t) c1, offset + column (strip_newline t) c2)] else [])
    ++ rect_loop ls (S line) (offset + length t) first_line last_line c1 c2
  end.

Definition rectangle_selections (text : bytes) (anchor head : nat) : list range :=
  let '(start_line, start_col) := position text anchor in
  let '(end_line, end_col) := position text head in
  rect_loop (split_inclusive text) 0 0 (Nat.min start_line end_line) (Nat.max start_line end_line)
    (Nat.min start_col end_col) (Nat.max start_col end_col).

(** A line holds no line end but its last byte; every line but the last ends in one. *)
Definition no_newline (t : bytes) : Prop := Forall (fun b => b <> 10%Z) t.

Lemma split_inclusive_app t s : no_newline t -> t <> [] -> split_inclusive (t ++ s) = match split_inclusive s with [] => [t] | l :: ls => (t ++ l) :: ls end.
Proof.
  intros Ht. induction Ht as [|b t Hb Ht IH]; [done|]. intros _. cbn [app split_inclusive]. rewrite (proj2 (Z.eqb_neq _ _)) by done.
  destruct t as [|b' t]; [done|]. rewrite IH by done. by destruct (split_inclusive s).
Qed.

Lemma char_newline c : is_char c -> c = [10%Z] \/ no_newline c.
Proof.
  intros Hc. destruct (is_char_shape c Hc) as (b & t & -> & Hb & Ht). destruct Hc as (_ & _ & Hl).
  assert (Htail : no_newline t) by (eapply Forall_impl; [exact Ht|]; intros x Hx ->; done).
  destruct (decide (b = 10%Z)) as [->|Hne]; [left|right; by constructor]. cbn in Hl. by destruct t.
Qed.

Fixpoint lines_wf (ls : list bytes) : Prop :=
  match ls with
  | [] => True
  | t :: ls' =>
    t <> [] /\ utf8_valid t = true /\ (exists u, (t = u ++ [10%Z] \/ t = u /\ ls' = []) /\ no_newline u /\ utf8_valid u = true) /\ lines_wf ls'
  end.

Lemma split_inclusive_wf s : utf8_valid s = true -> lines_wf (split_inclusive s) /\ concat (split_inclusive s) = s.
Proof.
  revert s. apply str_ind; [done|]. intros c s Hc Hs [IHw IHc]. destruct (char_newline c Hc) as [->|Hn].
  - cbn. split; [|by rewrite IHc]. split; [done|]. split; [done|]. split; [|done]. exists []. split; [by left|]. split; [constructor|done].
  - pose proof Hc as (Hne & Hv & _). rewrite split_inclusive_app by done. destruct (split_inclusive s) as [|l ls].
    + cbn in *. rewrite <- IHc, !app_nil_r. split; [|done]. split; [done|]. split; [done|]. split; [|done]. exists c. split; [by right|]. done.
    + cbn [lines_wf concat] in *. destruct IHw as (Hl & Hlv & (u & Hu & Hun & Huv) & Hw). split; [|by rewrite <- app_assoc, IHc]. split_and!; [|by rewrite utf8_valid_app| |done].
      * intros E. by apply app_nil in E as [? _].
      * exists (c ++ u). split; [destruct Hu as [->|[-> ->]]; [left; by rewrite app_assoc|by right]|]. split; [by apply Forall_app|]. by rewrite utf8_valid_app.
Qed.

Lemma strip_newline_spec t ls : lines_wf (t :: ls) -> 
  utf8_valid (strip_newline t) = true /\ (t = strip_newline t ++ [10%Z] \/ t = strip_newline t /\ ls = []).
Proof.
  intros (Hne & _ & (u & Hu & Hn & Hv) & _). unfold strip_newline. destruct Hu as [->|[-> ->]].
  - rewrite last_snoc. cbn. rewrite removelast_last. auto.
  - destruct (last u) as [b|] eqn:E; [|auto]. assert (b <> 10%Z). { apply last_Some in E as [l' ->]. apply Forall_app in Hn as [_ Hn]. by inversion Hn. }
    rewrite (proj2 (Z.eqb_neq _ _)) by done. auto.
Qed.

Lemma column_off t col : utf8_valid t = true -> column t col = off (chars t) col.
Proof.
  intros Ht. unfold column. destruct (chars t !! col) eqn:E; [done|]. apply lookup_ge_None in E. destruct (chars_spec t Ht) as [_ Hcat].
  rewrite off_all by done. by rewrite Hcat.
Qed.

(** Ranges with a gap between any two. *)
Fixpoint gaps (p : nat) (l : list range) : Prop :=
  match l with [] => True | r :: l' => p <= r.1 <= r.2 /\ gaps (S r.2) l' end.

Lemma gaps_weaken p q l : q <= p -> gaps p l -> gaps q l.
Proof. destruct l as [|r l]; cbn; [done|]. intros ? []. split; [lia|done]. Qed.

Lemma gaps_chain p l : gaps p l -> chain p l.
Proof.
  revert p. induction l as [|r l IH]; intros p; cbn [gaps chain]; [done|]. intros [Hr Hg]. split; [done|]. apply IH.
  by apply (gaps_weaken (S r.2)); [lia|].
Qed.

(** With gaps there is nothing to merge. *)
Lemma gaps_normalized s l :
  gaps 0 l -> Forall (fun r : range => is_char_boundary s r.1 = true /\ is_char_boundary s r.2 = true) l -> normalize_selections s l = l.
Proof.
  intros Hg Hb. assert (Hsnap : snap s <$> l = l).
  { pose proof (gaps_chain _ _ Hg) as Hc. clear Hg. revert Hc. generalize 0. induction Hb as [|r l [B1 B2] Hb IH]; intros p; cbn [fmap list_fmap chain]; [done|].
    intros [Hr Hc]. rewrite (IH r.2 Hc). f_equal. unfold snap, boundary. pose proof (boundary_le _ _ B1). pose proof (boundary_le _ _ B2).
    rewrite !Nat.min_l, Nat.max_l by lia. rewrite !floor_loop_id by done. by destruct r. }
  unfold normalize_selections. rewrite Hsnap, sort_by_id by (by eapply chain_sorted, gaps_chain).
  destruct l as [|r l]; [done|]. clear Hsnap Hb. cbn [gaps] in Hg. destruct Hg as [_ Hg]. revert r Hg.
  induction l as [|x l IH]; intros r Hg; cbn [merge_loop]; [done|]. cbn [gaps] in Hg. destruct Hg as [Hx Hg].
  rewrite (proj2 (Nat.ltb_ge x.1 r.2)), (proj2 (Nat.eqb_neq x.1 r.2)), andb_false_r by lia.
  rewrite bool_decide_false by (intros ->; lia). cbn [orb]. by rewrite IH.
Qed.

(** The characters of a line from one column to another. *)
Definition columns (c1 c2 : nat) (t : bytes) : bytes := concat (take (c2 - c1) (drop c1 (chars (strip_newline t)))).
Definition selected (s : bytes) (r : range) : bytes := take (r.2 - r.1) (drop r.1 s).

Lemma line_range pre t rest c1 c2 :
  utf8_valid rest = true -> utf8_valid t = true -> c1 <= c2 ->
  let r := (length pre + column t c1, length pre + column t c2) in
  length pre <= r.1 <= r.2 /\ r.2 <= length pre + length t
  /\ is_char_boundary (pre ++ t ++ rest) r.1 = true /\ is_char_boundary (pre ++ t ++ rest) r.2 = true
  /\ selected (pre ++ t ++ rest) r = concat (take (c2 - c1) (drop c1 (chars t))).
Proof.
  intros Hrest Ht Hc r. destruct (chars_spec t Ht) as [HD Hcat]. set (D := chars t) in *.
  assert (Hb : forall c, is_char_boundary (pre ++ t ++ rest) (length pre + off D c) = true).
  { intros c. destruct (off_valid D HD c) as [_ H2]. pose proof (boundary_app (pre ++ concat (take c D)) (concat (drop c D) ++ rest)) as HB.
    rewrite length_app in HB. rewrite <- !app_assoc in HB. rewrite (app_assoc (concat (take c D))), <- concat_app, take_drop, Hcat in HB.
    apply HB. by rewrite utf8_valid_app. }
  unfold r. cbn [fst snd]. rewrite !column_off by done. fold D.
  pose proof (off_le D c1 c2 Hc) as Hle. assert (off D c2 <= length t).
  { rewrite <- Hcat. rewrite <- (off_all D (length D + c2)) by lia. apply off_le. lia. }
  split_and!; [lia|lia|lia|apply Hb|apply Hb|]. unfold selected. cbn [fst snd].
  replace (length pre + off D c2 - (length pre + off D c1)) with (off D c2 - off D c1) by lia.
  rewrite <- drop_drop, drop_app_length. rewrite drop_app_le by lia. rewrite <- Hcat at 1. rewrite (proj2 (off_app D c1)).
  assert (Hlen : off D c2 - off D c1 = length (concat (take (c2 - c1) (drop c1 D)))).
  { unfold off. replace (take c2 D) with (take c1 D ++ take (c2 - c1) (drop c1 D)) by (rewrite take_take_drop; f_equal; lia). rewrite concat_app, length_app. lia. }
  rewrite Hlen. replace (concat (drop c1 D)) with (concat (take (c2 - c1) (drop c1 D)) ++ concat (drop (c2 - c1) (drop c1 D)))
    by (by rewrite <- concat_app, take_drop). rewrite <- app_assoc. apply take_app_length.
Qed.

Lemma rect_loop_spec ls pre line lo hi c1 c2 :
  lines_wf ls -> utf8_valid (concat ls) = true -> c1 <= c2 ->
  let R := rect_loop ls line (length pre) lo hi c1 c2 in
  gaps (length pre) R
  /\ Forall (fun r : range => is_char_boundary (pre ++ concat ls) r.1 = true /\ is_char_boundary (pre ++ concat ls) r.2 = true) R
  /\ selected (pre ++ concat ls) <$> R = columns c1 c2 <$> take (S hi - Nat.max lo line) (drop (lo - line) ls).
Proof.
  intros Hw Hv Hc. revert pre line Hw Hv. induction ls as [|t ls IH]; intros pre line Hw Hv; cbn [rect_loop].
  { rewrite drop_nil, take_nil. done. }
  destruct (strip_newline_spec t ls Hw) as [Hu Ht]. cbn [lines_wf] in Hw. destruct Hw as (_ & Htv & _ & Hw). cbn [concat] in *.
  assert (Hv' : utf8_valid (concat ls) = true) by (by rewrite utf8_valid_app in Hv).
  specialize (IH (pre ++ t) (S line) Hw Hv'). rewrite length_app, <- app_assoc in IH. cbv zeta in IH. destruct IH as (IHg & IHb & IHs).
  set (u := strip_newline t) in *. set (tail := if decide (t = u) then [] else [10%Z]).
  assert (Etail : t = u ++ tail /\ utf8_valid tail = true).
  { unfold tail. destruct (decide (t = u)) as [E|E]; [by rewrite app_nil_r|]. split; [|done]. by destruct Ht as [|[? _]]. }
  destruct Etail as [Etail Htail].
  assert (Hsplit : pre ++ t ++ concat ls = pre ++ u ++ (tail ++ concat ls)) by (rewrite Etail at 1; by rewrite <- !app_assoc).
  destruct (line_range pre u (tail ++ concat ls) c1 c2) as (H1 & H2 & B1 & B2 & Hsel); [by rewrite utf8_valid_app|done|done|].
  rewrite <- Hsplit in B1, B2, Hsel. set (r := (length pre + column u c1, length pre + column u c2)) in *.
  destruct ((lo <=? line) && (line <=? hi)) eqn:E; cbn [app].
  - bool_hyps. replace (lo - line) with 0 by lia. replace (S hi - Nat.max lo line) with (S (hi - line)) by lia. cbn [drop firstn].
    split_and!.
    + cbn [gaps]. split; [done|]. destruct Ht as [Ht|[_ ->]]; [|done]. apply (gaps_weaken (length pre + length t)); [|done]. rewrite Ht, length_app. cbn [length]. lia.
    + by constructor.
    + cbn [fmap list_fmap take]. f_equal; [exact Hsel|]. replace (S hi - Nat.max lo (S line)) with (hi - line) in IHs by lia.
      replace (lo - S line) with 0 in IHs by lia. done.
  - split_and!; [by apply (gaps_weaken (length pre + length t)); [lia|]|done|]. rewrite IHs. f_equal. apply andb_false_iff in E. destruct E as [E|E]; bool_hyps.
    + replace (lo - line) with (S (lo - S line)) by lia. cbn [drop]. f_equal. lia.
    + replace (S hi - Nat.max lo line) with 0 by lia. replace (S hi - Nat.max lo (S line)) with 0 by lia. done.
Qed.

(** A rectangular selection selects a block. Whatever the two offsets, it has one range
    for each line of the text from the upper to the lower one, the text it selects there is
    exactly the line's characters between the two columns (fewer on a short line), and the
    ranges are already normalised: in order, apart, and on character boundaries. *)
Theorem rectangle_block s anchor head :
  utf8_valid s = true ->
  let '(l1, c1) := position s anchor in
  let '(l2, c2) := position s head in
  let R := rectangle_selections s anchor head in
  normalize_selections s R = R
  /\ selected s <$> R
     = columns (Nat.min c1 c2) (Nat.max c1 c2) <$> take (S (Nat.max l1 l2) - Nat.min l1 l2) (drop (Nat.min l1 l2) (split_inclusive s)).
Proof.
  intros Hs. unfold rectangle_selections. destruct (position s anchor) as [l1 c1]. destruct (position s head) as [l2 c2].
  destruct (split_inclusive_wf s Hs) as [Hw Hcat].
  destruct (rect_loop_spec (split_inclusive s) [] 0 (Nat.min l1 l2) (Nat.max l1 l2) (Nat.min c1 c2) (Nat.max c1 c2)) as (Hg & Hb & Hsel);
    [done|by rewrite Hcat|lia|]. cbn [length app] in *. rewrite Hcat in *. split; [by apply gaps_normalized|]. rewrite Hsel, Nat.sub_0_r, Nat.max_0_r. done.
Qed.

(** A caret on the empty line after the last line end selects nothing. *)
Example rectangle_last_empty_line : rectangle_selections (bs "a" ++ [10%Z]) 2 2 = [].
Proof. reflexivity. Qed.

(** ** Witnesses *)

(** An engine that finds the first character, when it is a single byte. *)
#[local] Instance first_engine : RegexEngine unit range unit := {
  regex_escape q := q;
  regex_build _ _ _ := Ok tt;
  captures_iter _ s := match s with b :: _ => if (b <? 128)%Z then [(0, 1)] else [] | [] => [] end;
  whole r := r;
  expand _ t := t;
}.

#[local] Instance first_laws : RegexLaws unit range unit.
Proof.
  split; cbn.
  - intros _ [|b s]; [done|]. destruct (b <? 128)%Z; [|done]. cbn. lia.
  - intros _ [|b s] Hs; [constructor|]. destruct (b <? 128)%Z eqn:E; [|constructor]. repeat constructor. apply (boundary_app [b] s).
    bool_hyps. assert (Hb : utf8_valid [b] = true) by (apply utf8_valid_ascii; by repeat constructor). by rewrite <- (utf8_valid_app [b] s Hb).
  - done.
Qed.

Definition ex_document : TextDocument := new_document (bs "cat") 0.

Lemma replace_matches_applies_witness :
  exists d', apply ex_document [mkTextEdit (0, 1) (bs "h")] = Ret (d', Ok tt) /\ content d' = bs "hat".
Proof.
  destruct (replace_matches_applies (mkSearch true false false) ex_document (bs "c") (bs "h") None [(0, 1)] [mkTextEdit (0, 1) (bs "h")])
    as (_ & d' & Ha & Hc & _); [reflexivity..|]. exists d'. split; [exact Ha|]. rewrite Hc. reflexivity.
Defined.

Lemma rectangle_block_witness :
  let s := bs "abcd" ++ [10%Z] ++ bs "e" ++ [10%Z] ++ bs "fghi" in
  rectangle_selections s 1 10 = [(1, 3); (6, 6); (8, 10)]
  /\ selected s <$> rectangle_selections s 1 10 = [bs "bc"; []; bs "gh"].
Proof.
  intros s. split; [reflexivity|]. destruct (rectangle_block s 1 10 eq_refl) as [_ Hs]. rewrite Hs. reflexivity.
Defined.
