(* ===== verification/NaturalOrder.v ===== *)
(** * Natural order of names

    [src/crates/nyaterm-core/src/natural_order.rs]: names compared with digit runs by value
    and the rest case-insensitively. The lower-case mapping of characters, to code points,
    is a parameter with the two facts of Unicode the order rests on. *)

From stdpp Require Import base option list numbers strings.
From Stdlib Require Import ZArith Lia.
From S2P Require Import Prelude RustStr RustText RustChar RustOrd.

Local Open Scope nat_scope.
Local Open Scope rust_scope.

(** ** The comparison of names *)

Definition is_ascii_digit (b : Z) : bool := between 48 57 b.

Definition starts_with_digit (s : bytes) : bool := match s with b :: _ => is_ascii_digit b | [] => false end.

(** The split at the first character that is not a digit. *)
Fixpoint split_digit_run (s : bytes) : bytes * bytes :=
  match s with
  | b :: s' => if is_ascii_digit b then let r := split_digit_run s' in (b :: r.1, r.2) else ([], s)
  | [] => ([], [])
  end.

Definition split_char (s : bytes) : outcome (bytes * bytes) :=
  match chars s with c :: _ => Ret (c, drop (length c) s) | [] => Panic end.

Fixpoint trim_zeros (s : bytes) : bytes :=
  match s with b :: s' => if (b =? 48)%Z then trim_zeros s' else s | [] => [] end.

Definition compare_digit_runs (left right : bytes) : comparison :=
  let left_value := trim_zeros left in
  let right_value := trim_zeros right in
  then_with (then_with (Nat.compare (length left_value) (length right_value)) (lex Z.compare left_value right_value))
    (Nat.compare (length left) (length right)).

Section Natural.
(** [char::to_lowercase], as code points. *)
Context (to_lowercase : bytes -> list Z).

(** The loop of [natural_compare]; each turn takes at least one byte of [left], so its
    length and one more is enough fuel. *)
Fixpoint natural_loop (fuel : nat) (left right : bytes) : outcome comparison :=
  match fuel with
  | O => Panic
  | S fuel' =>
    match left, right with
    | [], [] => Ret Eq
    | [], _ => Ret Lt
    | _, [] => Ret Gt
    | _, _ =>
      if starts_with_digit left && starts_with_digit right then
        let l := split_digit_run left in
        let r := split_digit_run right in
        match compare_digit_runs l.1 r.1 with
        | Eq => natural_loop fuel' l.2 r.2
        | ordering => Ret ordering
        end
      else
        l <-! split_char left;
        r <-! split_char right;
        match lex Z.compare (to_lowercase l.1) (to_lowercase r.1) with
        | Eq => natural_loop fuel' l.2 r.2
        | ordering => Ret ordering
        end
    end
  end.

Definition natural_compare (left right : bytes) : outcome comparison :=
  o <-! natural_loop (S (length left)) left right;
  Ret (then_with o (lex Z.compare left right)).

(** Digits have no case, and nothing else lower-cases to text starting with one. *)
Context (lower_digit : forall b, is_ascii_digit b = true -> to_lowercase [b] = [b]).
Context (lower_other : forall c, is_char c -> starts_with_digit c = false ->
  exists h t, to_lowercase c = h :: t /\ is_ascii_digit h = false).

(** *** Sort keys *)

(** A name as a list of keys: a digit run counts as the character [0] and then by its
    digits, any other character by its lower case. *)
Definition key : Type := list Z * bytes.
Definition key_cmp (a b : key) : comparison := then_with (lex Z.compare a.1 b.1) (compare_digit_runs a.2 b.2).

Fixpoint keys (fuel : nat) (s : bytes) : list key :=
  match fuel with
  | O => []
  | S fuel' =>
    match s with
    | [] => []
    | _ =>
      if starts_with_digit s then let r := split_digit_run s in ([48]%Z, r.1) :: keys fuel' r.2
      else match chars s with c :: _ => (to_lowercase c, []) :: keys fuel' (drop (length c) s) | [] => [] end
    end
  end.
Definition name_keys (s : bytes) : list key := keys (length s) s.

Instance runs_order : CmpOrder compare_digit_runs.
Proof.
  unfold compare_digit_runs.
  apply (then_order (fun l r : bytes => then_with (length (trim_zeros l) ?= length (trim_zeros r)) (lex Z.compare (trim_zeros l) (trim_zeros r)))
    (fun l r : bytes => length l ?= length r)).
Qed.

Instance key_order : CmpOrder key_cmp.
Proof.
  unfold key_cmp. apply (then_order (fun a b : key => lex Z.compare a.1 b.1) (fun a b : key => compare_digit_runs a.2 b.2)).
Qed.

Lemma split_digit_run_app s : (split_digit_run s).1 ++ (split_digit_run s).2 = s.
Proof. induction s as [|b s IH]; cbn; [done|]. destruct (is_ascii_digit b); cbn; [by rewrite IH|done]. Qed.

Lemma split_digit_run_pos s : starts_with_digit s = true -> length (split_digit_run s).2 < length s.
Proof.
  destruct s as [|b s]; cbn; [done|]. intros ->. cbn. pose proof (f_equal length (split_digit_run_app s)) as H.
  rewrite length_app in H. lia.
Qed.

Lemma split_digit_run_valid s : utf8_valid s = true -> utf8_valid (split_digit_run s).2 = true.
Proof.
  induction s as [|b s IH]; cbn [split_digit_run]; [done|]. destruct (is_ascii_digit b) eqn:E; [|done]. cbn [snd].
  cbn [utf8_valid]. unfold is_ascii_digit, between in E. bool_hyps. rewrite (proj2 (Z.ltb_lt b 128)) by lia. done.
Qed.

(** The first character of a non-empty string. *)
Lemma split_char_ok s :
  utf8_valid s = true -> s <> [] ->
  exists c s', s = c ++ s' /\ is_char c /\ utf8_valid s' = true /\ chars s = c :: chars s' /\ split_char s = Ret (c, s').
Proof.
  intros Hs Hn. revert s Hs Hn. apply (str_ind (fun s => s <> [] -> exists c s', s = c ++ s' /\ is_char c /\ utf8_valid s' = true
    /\ chars s = c :: chars s' /\ split_char s = Ret (c, s'))); [done|].
  intros c s Hc Hs _ _. exists c, s. rewrite (chars_app_char c s Hc Hs). split_and!; try done. unfold split_char.
  rewrite (chars_app_char c s Hc Hs). by rewrite drop_app_length.
Qed.

Lemma keys_enough n m s : utf8_valid s = true -> length s <= n -> length s <= m -> keys n s = keys m s.
Proof.
  revert m s. induction n as [|n IH]; intros m s Hs Hn Hm.
  { destruct s; [by destruct m|cbn in Hn; lia]. }
  destruct m as [|m]; [destruct s; [done|cbn in Hm; lia]|]. cbn [keys]. destruct s as [|b s]; [done|].
  destruct (starts_with_digit (b :: s)) eqn:E.
  - pose proof (split_digit_run_pos _ E). f_equal. apply IH; [by apply split_digit_run_valid|lia..].
  - destruct (split_char_ok (b :: s) Hs) as (c & s' & Es & Hc & Hs' & -> & _); [done|]. f_equal.
    pose proof (is_char_length c Hc). rewrite Es in *. rewrite length_app in *. rewrite drop_app_length. apply IH; [done|lia..].
Qed.

Lemma name_keys_digit s :
  utf8_valid s = true -> starts_with_digit s = true ->
  name_keys s = ([48]%Z, (split_digit_run s).1) :: name_keys (split_digit_run s).2.
Proof.
  intros Hs Hd. pose proof (split_digit_run_pos s Hd). unfold name_keys. destruct s as [|b s]; [done|]. cbn [length keys]. rewrite Hd.
  f_equal. cbn [length] in *. apply keys_enough; [by apply split_digit_run_valid|lia|lia].
Qed.

Lemma name_keys_char c s :
  is_char c -> utf8_valid s = true -> starts_with_digit c = false -> name_keys (c ++ s) = (to_lowercase c, []) :: name_keys s.
Proof.
  intros Hc Hs Hd. pose proof (is_char_length c Hc) as Hl. unfold name_keys.
  replace (length (c ++ s)) with (S (length c + length s - 1)) by (rewrite length_app; lia). cbn [keys].
  destruct c as [|b c]; [cbn in Hl; lia|]. cbn [app]. change (starts_with_digit (b :: c ++ s)) with (is_ascii_digit b). cbn in Hd. rewrite Hd.
  change (b :: c ++ s) with ((b :: c) ++ s). rewrite chars_app_char, drop_app_length by done. f_equal.
  apply keys_enough; [done|cbn; lia|lia].
Qed.

Lemma lex_single d h t : is_ascii_digit d = true -> is_ascii_digit h = false -> lex Z.compare [d] (h :: t) = lex Z.compare [48]%Z (h :: t) /\ lex Z.compare [d] (h :: t) <> Eq.
Proof.
  unfold is_ascii_digit, between. intros Hd Hh. bool_hyps. apply andb_false_iff in Hh. cbn [lex].
  destruct (Z.compare_spec d h), (Z.compare_spec 48 h); cbn; try (by split); exfalso; destruct Hh; bool_hyps; lia.
Qed.

(** The first character of a string that starts with a digit. *)
Lemma digit_char c s : is_char c -> starts_with_digit (c ++ s) = true -> exists d, c = [d] /\ is_ascii_digit d = true.
Proof.
  intros Hc. destruct Hc as (Hn & Hv & Hl). destruct c as [|b c]; [done|]. cbn. intros Hd. exists b. split; [|done].
  cbn in Hl. unfold is_ascii_digit, between in Hd. bool_hyps. unfold char_len in Hl. rewrite (proj2 (Z.ltb_lt b 128)) in Hl by lia.
  destruct c; [done|cbn in Hl; lia].
Qed.

(** The loop compares the keys. *)
Lemma natural_loop_keys fuel l r :
  utf8_valid l = true -> utf8_valid r = true -> length l < fuel ->
  natural_loop fuel l r = Ret (lex key_cmp (name_keys l) (name_keys r)).
Proof.
  revert l r. induction fuel as [|fuel IH]; intros l r Hl Hr Hf; [lia|]. cbn [natural_loop].
  destruct (decide (l = [])) as [->|Hln].
  { destruct r as [|y r]; [done|]. destruct (starts_with_digit (y :: r)) eqn:E; [by rewrite (name_keys_digit _ Hr E)|].
    destruct (split_char_ok _ Hr ltac:(done)) as (c & r' & Er & Hc & Hr' & _). rewrite Er in *.
    rewrite name_keys_char; [done..|]. destruct Hc as [Hc _]. by destruct c. }
  destruct (decide (r = [])) as [->|Hrn].
  { destruct l as [|x l]; [done|]. destruct (starts_with_digit (x :: l)) eqn:E; [by rewrite (name_keys_digit _ Hl E)|].
    destruct (split_char_ok _ Hl ltac:(done)) as (c & l' & El & Hc & Hl' & _). rewrite El in *.
    rewrite name_keys_char; [done..|]. destruct Hc as [Hc _]. by destruct c. }
  destruct (split_char_ok l Hl Hln) as (c & l' & El & Hc & Hl' & _ & Sl), (split_char_ok r Hr Hrn) as (e & r' & Er & He & Hr' & _ & Sr).
  destruct l as [|x l]; [done|]. destruct r as [|y r]; [done|]. rewrite Sl, Sr. cbn [obind fst snd].
  pose proof (is_char_length c Hc). pose proof (is_char_length e He).
  assert (Hlen : length l' < fuel) by (rewrite El, length_app in Hf; lia).
  assert (Dc : starts_with_digit (x :: l) = starts_with_digit c) by (rewrite El; destruct Hc as [? _]; by destruct c).
  assert (De : starts_with_digit (y :: r) = starts_with_digit e) by (rewrite Er; destruct He as [? _]; by destruct e).
  destruct (starts_with_digit (x :: l)) eqn:D1, (starts_with_digit (y :: r)) eqn:D2; cbn [andb].
  - rewrite (name_keys_digit _ Hl D1), (name_keys_digit _ Hr D2). pose proof (split_digit_run_pos _ D1). cbn [lex].
    unfold key_cmp at 1. cbn [fst snd]. change (lex Z.compare [48%Z] [48%Z]) with Eq. cbn [then_with].
    destruct (compare_digit_runs _ _); [|done..]. apply IH; [by apply split_digit_run_valid..|lia].
  - rewrite (name_keys_digit _ Hl D1), Er, (name_keys_char e r' He Hr') by done. cbn [lex]. unfold key_cmp at 1. cbn [fst snd].
    destruct (digit_char c l' Hc) as (d & -> & Hd); [by rewrite <- El|]. rewrite (lower_digit d Hd).
    destruct (lower_other e He) as (h & t & -> & Hh); [done|]. destruct (lex_single d h t Hd Hh) as [<- Hne].
    by destruct (lex Z.compare [d] (h :: t)).
  - rewrite (name_keys_digit _ Hr D2), El, (name_keys_char c l' Hc Hl') by done. cbn [lex]. unfold key_cmp at 1. cbn [fst snd].
    destruct (digit_char e r' He) as (d & -> & Hd); [by rewrite <- Er|]. rewrite (lower_digit d Hd).
    destruct (lower_other c Hc) as (h & t & -> & Hh); [done|]. destruct (lex_single d h t Hd Hh) as [E Hne].
    rewrite (cmp_anti (cmp := lex Z.compare) [d] (h :: t)), (cmp_anti (cmp := lex Z.compare) [48%Z] (h :: t)), <- E.
    by destruct (lex Z.compare [d] (h :: t)).
  - rewrite El, Er, (name_keys_char c l' Hc Hl'), (name_keys_char e r' He Hr') by done. cbn [lex]. unfold key_cmp at 1. cbn [fst snd].
    change (compare_digit_runs [] []) with Eq. destruct (lex Z.compare (to_lowercase c) (to_lowercase e)); [|done..]. by apply IH.
Qed.

(** The order on names, by keys and then by bytes. *)
Definition name_cmp (a b : bytes) : comparison := then_with (lex key_cmp (name_keys a) (name_keys b)) (lex Z.compare a b).

#[local] Instance name_order : CmpOrder name_cmp.
Proof. unfold name_cmp. apply (then_order (fun a b => lex key_cmp (name_keys a) (name_keys b)) (lex Z.compare)). Qed.

Lemma natural_compare_keys a b :
  utf8_valid a = true -> utf8_valid b = true -> natural_compare a b = Ret (name_cmp a b).
Proof. intros Ha Hb. unfold natural_compare. rewrite natural_loop_keys by (done || lia). done. Qed.

(** Names are totally ordered, so sorting them is deterministic. On strings,
    [natural_compare] always returns; it is antisymmetric and transitive; and only a name
    compares equal to itself. *)
Theorem natural_total_order a b c :
  utf8_valid a = true -> utf8_valid b = true -> utf8_valid c = true ->
  exists ab bc ac, natural_compare a b = Ret ab /\ natural_compare b c = Ret bc /\ natural_compare a c = Ret ac
    /\ natural_compare b a = Ret (CompOpp ab) /\ (ab = Eq <-> a = b) /\ (ab <> Gt -> bc <> Gt -> ac <> Gt).
Proof.
  intros Ha Hb Hc. exists (name_cmp a b), (name_cmp b c), (name_cmp a c).
  rewrite !natural_compare_keys, (cmp_anti (cmp := name_cmp) a b) by done. split_and!; try done.
  - split; [|intros ->; apply cmp_refl, _].
    unfold name_cmp. destruct (lex key_cmp _ _); cbn; try done. apply lex_Z_eq.
  - intros H1 H2. destruct (name_cmp a b) eqn:E1; [by rewrite (cmp_eq a b c E1)| |done].
    destruct (name_cmp b c) eqn:E2; [by rewrite <- (cmp_eq_r name_cmp b c a E2), E1|by rewrite (cmp_lt a b c E1 E2)|done].
Qed.

End Natural.

(** ** Digit runs by value *)

Definition run_value (s : bytes) : Z := fold_left (fun acc b => acc * 10 + (b - 48))%Z s 0%Z.
Definition digits (s : bytes) : Prop := Forall (fun b => is_ascii_digit b = true) s.

Lemma value_acc acc s : fold_left (fun acc b => acc * 10 + (b - 48))%Z s acc = (acc * 10 ^ Z.of_nat (length s) + run_value s)%Z.
Proof.
  unfold run_value. revert acc. induction s as [|b s IH]; intros acc; cbn [fold_left length]; [cbn; lia|].
  rewrite IH, (IH (0 * 10 + (b - 48))%Z), Nat2Z.inj_succ, Z.pow_succ_r by lia. ring.
Qed.

Lemma value_cons b s : run_value (b :: s) = ((b - 48) * 10 ^ Z.of_nat (length s) + run_value s)%Z.
Proof. unfold run_value at 1. cbn [fold_left]. rewrite value_acc. ring. Qed.

Lemma digit_range b : is_ascii_digit b = true -> (0 <= b - 48 <= 9)%Z.
Proof. unfold is_ascii_digit, between. intros H. bool_hyps. lia. Qed.

Lemma value_range s : digits s -> (0 <= run_value s < 10 ^ Z.of_nat (length s))%Z.
Proof.
  induction 1 as [|b s Hb Hs IH]; [done|]. rewrite value_cons. cbn [length]. rewrite Nat2Z.inj_succ, Z.pow_succ_r by lia.
  apply digit_range in Hb. nia.
Qed.

Lemma trim_zeros_value s : run_value (trim_zeros s) = run_value s.
Proof.
  induction s as [|b s IH]; cbn [trim_zeros]; [done|]. destruct (b =? 48)%Z eqn:E; [|done]. bool_hyps. subst. rewrite IH, value_cons. lia.
Qed.

Lemma trim_zeros_digits s : digits s -> digits (trim_zeros s).
Proof. induction 1 as [|b s Hb Hs IH]; cbn; [constructor|]. destruct (b =? 48)%Z; [done|by constructor]. Qed.

(** Without leading zeros, more digits is more. *)
Lemma value_longer l r : digits l -> digits r -> length (trim_zeros l) < length (trim_zeros r) -> (run_value l < run_value r)%Z.
Proof.
  intros Hl Hr Hlen. rewrite <- (trim_zeros_value l), <- (trim_zeros_value r).
  pose proof (value_range _ (trim_zeros_digits l Hl)) as Vl.
  assert (Hlow : (10 ^ Z.of_nat (length (trim_zeros r) - 1) <= run_value (trim_zeros r))%Z).
  { assert (Hpos : 0 < length (trim_zeros r)) by lia. clear Vl Hlen Hl. revert Hpos.
    induction Hr as [|b r Hb Hr IH]; cbn [trim_zeros]; intros Hpos.
    - cbn in Hpos. lia.
    - destruct (b =? 48)%Z eqn:E; [by apply IH|]. bool_hyps. rewrite value_cons. cbn [length]. rewrite Nat.sub_succ, Nat.sub_0_r.
      pose proof (value_range r Hr). apply digit_range in Hb. pose proof (Z.pow_pos_nonneg 10 (Z.of_nat (length r))). nia. }
  assert (10 ^ Z.of_nat (length (trim_zeros l)) <= 10 ^ Z.of_nat (length (trim_zeros r) - 1))%Z by (apply Z.pow_le_mono_r; lia). lia.
Qed.

Lemma value_lex l r : digits l -> digits r -> length l = length r -> lex Z.compare l r = (run_value l ?= run_value r)%Z.
Proof.
  intros Hl. revert r. induction Hl as [|b l Hb Hl IH]; intros [|d r] Hr Hlen; try done.
  apply Forall_cons in Hr as [Hd Hr]. injection Hlen as Hlen. cbn [lex]. rewrite !value_cons, (IH r Hr Hlen), Hlen.
  pose proof (value_range l Hl). pose proof (value_range r Hr). rewrite Hlen in *. apply digit_range in Hb, Hd. symmetry.
  destruct (Z.compare_spec b d); cbn [then_with].
  - subst. destruct (Z.compare_spec (run_value l) (run_value r)); [apply Z.compare_eq_iff|apply Z.compare_lt_iff|apply Z.compare_gt_iff]; lia.
  - apply Z.compare_lt_iff. nia.
  - apply Z.compare_gt_iff. nia.
Qed.

(** Digit runs compare by value at any length, no machine integer involved; runs of the
    same value by their padding. *)
Theorem digit_runs_by_value l r :
  digits l -> digits r ->
  compare_digit_runs l r = then_with (run_value l ?= run_value r)%Z (Nat.compare (length l) (length r)).
Proof.
  intros Hl Hr. unfold compare_digit_runs. f_equal.
  destruct (Nat.compare_spec (length (trim_zeros l)) (length (trim_zeros r))) as [E|E|E]; cbn [then_with].
  - rewrite value_lex, !trim_zeros_value by (done || by apply trim_zeros_digits). done.
  - symmetry. apply Z.compare_lt_iff. by apply value_longer.
  - symmetry. apply Z.compare_gt_iff. by apply value_longer.
Qed.

(** ** Witnesses, with ASCII case *)

Definition ascii_lower (c : bytes) : list Z :=
  match c with [b] => if between 65 90 b then [b + 32]%Z else [b] | b :: _ => [b * 64]%Z | [] => [] end.

Lemma ascii_lower_digit b : is_ascii_digit b = true -> ascii_lower [b] = [b].
Proof. unfold is_ascii_digit, between, ascii_lower. intros H. bool_hyps. unfold between. rewrite (proj2 (Z.leb_gt 65 b)) by lia. done. Qed.

Lemma ascii_lower_other c :
  is_char c -> starts_with_digit c = false -> exists h t, ascii_lower c = h :: t /\ is_ascii_digit h = false.
Proof.
  intros Hc Hd. destruct c as [|b [|b1 c]]; [by destruct Hc|..]; cbn in *.
  - destruct (between 65 90 b) eqn:E; [|by eexists _, _]. eexists _, _. split; [done|]. unfold is_ascii_digit, between in *. bool_hyps.
    apply andb_false_iff. right. apply Z.leb_gt. lia.
  - eexists _, _. split; [done|]. destruct (is_char_shape _ Hc) as (b' & t & [= <- <-] & Hb & _).
    destruct Hc as (_ & _ & Hl). cbn in Hl. unfold char_len in Hl. unfold is_ascii_digit, between. apply andb_false_iff. right. apply Z.leb_gt.
    destruct (b <? 128)%Z eqn:E; [done|]. bool_hyps. lia.
Qed.

Lemma natural_total_order_witness :
  natural_compare ascii_lower (bs "192.168.142.13") (bs "192.168.142.100") = Ret Lt
  /\ natural_compare ascii_lower (bs "192.168.142.100") (bs "192.168.142.13") = Ret Gt.
Proof.
  destruct (natural_total_order ascii_lower ascii_lower_digit ascii_lower_other (bs "192.168.142.13") (bs "192.168.142.100") [])
    as (ab & _ & _ & H1 & _ & _ & H2 & _); [done..|].
  rewrite H2. split; [vm_compute; done|]. vm_compute in H1. injection H1 as <-. done.
Defined.

Lemma digit_runs_by_value_witness : compare_digit_runs (bs "007") (bs "7") = Gt.
Proof. rewrite digit_runs_by_value; [done|by repeat constructor..]. Defined.
