(* ===== verification/SyncApplication.v ===== *)
(** * Applying synchronised values

    [src/crates/nyaterm-sync/src/application.rs], with the field identities of
    [src/crates/nyaterm-core/src/sync_schema/mod.rs]: the desired values are applied to the
    local ones group by group, keeping back the groups the business validator refuses. The
    JSON text of an identity, its parser, the type of values and the validator are
    parameters. [SyncValues] is a finite map; where the sources iterate over a [BTreeMap]
    the model sorts the keys. *)

From stdpp Require Import base option list numbers gmap sorting.
From Stdlib Require Import ZArith Lia.
From S2P Require Import Prelude RustStr RustOrd.

Local Open Scope nat_scope.
Local Open Scope rust_scope.

(** ** Identities *)

Record SyncResourceId := mkResource { kind : bytes; id : bytes }.
Record SyncFieldId := mkField { resource : SyncResourceId; field : bytes }.

#[export] Instance SyncResourceId_eq_dec : EqDecision SyncResourceId.
Proof. solve_decision. Defined.
#[export] Instance SyncFieldId_eq_dec : EqDecision SyncFieldId.
Proof. solve_decision. Defined.

Definition presence (r : SyncResourceId) : SyncFieldId := mkField r [36; 112; 114; 101; 115; 101; 110; 116]%Z.

Inductive SyncError := InvalidReplica | StaleConflict | StalePlan | Excluded.

(** The derived orders. *)
Definition str_cmp : bytes -> bytes -> comparison := lex Z.compare.
Definition resource_cmp (a b : SyncResourceId) : comparison := then_with (str_cmp (kind a) (kind b)) (str_cmp (id a) (id b)).
Definition field_cmp (a b : SyncFieldId) : comparison := then_with (resource_cmp (resource a) (resource b)) (str_cmp (field a) (field b)).
Definition opt_cmp (a b : option bytes) : comparison :=
  match a, b with None, None => Eq | None, Some _ => Lt | Some _, None => Gt | Some x, Some y => str_cmp x y end.

Definition group : Type := SyncResourceId * option bytes.
Definition group_cmp (a b : group) : comparison := then_with (resource_cmp a.1 b.1) (opt_cmp a.2 b.2).

#[export] Instance str_order : CmpOrder str_cmp := lex_order Z.compare.
#[export] Instance resource_order : CmpOrder resource_cmp :=
  then_order (fun a b => str_cmp (kind a) (kind b)) (fun a b => str_cmp (id a) (id b)).
#[export] Instance field_order : CmpOrder field_cmp :=
  then_order (fun a b => resource_cmp (resource a) (resource b)) (fun a b => str_cmp (field a) (field b)).
#[export] Instance opt_order : CmpOrder opt_cmp.
Proof.
  split.
  - intros [a|] [b|]; cbn; try done. apply cmp_anti.
  - intros [a|] [b|] [c|]; cbn; try done. apply cmp_eq.
  - intros [a|] [b|] [c|]; cbn; try done. apply cmp_lt.
Qed.
#[export] Instance group_order : CmpOrder group_cmp :=
  then_order (fun a b : group => resource_cmp a.1 b.1) (fun a b : group => opt_cmp a.2 b.2).

Section Application.
Context {Value : Type} `{EqDecision Value}.
(** [serde_json::to_string] and [serde_json::from_str] on identities. *)
Context (json_to_string : SyncFieldId -> bytes) (json_from_str : bytes -> option SyncFieldId).

Definition field_key (f : SyncFieldId) : bytes := json_to_string f.

Definition from_key (k : bytes) : option SyncFieldId :=
  f ← json_from_str k;
  if negb (bool_decide (kind (resource f) = [])) && negb (bool_decide (id (resource f) = [])) && negb (bool_decide (field f = []))
     && bool_decide (field_key f = k)
  then Some f else None.

Local Notation SyncValues := (gmap bytes Value).

(** [BTreeMap::keys]. *)
Definition btree_keys (m : SyncValues) : list bytes := sort_by (cmp_le str_cmp) (map_to_list m).*1.

Record SyncApplication := mkApplication { effective : SyncValues; deferred : list SyncFieldId }.

(** ** Grouping the changes *)

Definition whole_resource (local desired : SyncValues) (r : SyncResourceId) : bool :=
  let p := field_key (presence r) in
  negb (eqb (bool_decide (is_Some (local !! p))) (bool_decide (is_Some (desired !! p)))).

Definition group_of (local desired : SyncValues) (f : SyncFieldId) : group :=
  (resource f, if whole_resource local desired (resource f) then None else Some (field f)).

Fixpoint group_loop (local desired : SyncValues) (keys : list bytes) (groups : list (group * list bytes))
    : result (list (group * list bytes)) SyncError :=
  match keys with
  | [] => Ok groups
  | k :: ks =>
    if decide (local !! k = desired !! k) then group_loop local desired ks groups
    else f <-? ok_or (from_key k) InvalidReplica;
         group_loop local desired ks (bt_push group_cmp (group_of local desired f) k groups)
  end.

(** ** Applying them *)

Definition overlay (desired : SyncValues) (groups : list (list bytes)) (eff : SyncValues) : SyncValues :=
  fold_left (fun c k => match desired !! k with Some v => <[k := v]> c | None => base.delete k c end) (concat groups) eff.

(** A group's keys, sorted and without repetition. *)
Definition sorted_group (g : group * list bytes) : list bytes := dedup (sort_by (cmp_le str_cmp) g.2).

Section Validator.
Context (valid : SyncValues -> bool).

(** Returns the new effective values and the groups put off. Halving the groups, their
    number is enough fuel. *)
Fixpoint apply_batch (fuel : nat) (groups : list (list bytes)) (desired eff : SyncValues) : SyncValues * list (list bytes) :=
  match fuel with
  | O => (eff, groups)
  | S fuel' =>
    match groups with
    | [] => (eff, [])
    | _ =>
      let candidate := overlay desired groups eff in
      if valid candidate then (candidate, [])
      else if length groups =? 1 then (eff, groups)
      else
        let middle := length groups / 2 in
        let r1 := apply_batch fuel' (take middle groups) desired eff in
        let r2 := apply_batch fuel' (drop middle groups) desired r1.1 in
        (r2.1, r1.2 ++ r2.2)
    end
  end.

(** The loop over rounds; [None] is out of fuel. *)
Fixpoint isolate_loop (fuel : nat) (pending : list (list bytes)) (desired eff : SyncValues) : option SyncApplication :=
  match fuel with
  | O => None
  | S fuel' =>
    let r := apply_batch (length pending) pending desired eff in
    if length r.2 =? length pending
    then Some (mkApplication r.1 (dedup (sort_by (cmp_le field_cmp) (omap from_key (concat r.2)))))
    else match r.2 with [] => Some (mkApplication r.1 []) | _ => isolate_loop fuel' r.2 desired r.1 end
  end.

(** Every round but the last puts off fewer groups, so one more than their number is enough
    fuel. *)
Definition isolate_changes (local desired : SyncValues) : option (result SyncApplication SyncError) :=
  if valid desired then Some (Ok (mkApplication desired []))
  else if negb (valid local) then Some (Err InvalidReplica)
  else
    match group_loop local desired (btree_keys local ++ btree_keys desired) [] with
    | Err e => Some (Err e)
    | Ok groups =>
      let groups := sorted_group <$> groups in
      Ok <$> isolate_loop (S (length groups)) groups desired local
    end.

(** ** Lemmas on a batch *)

Lemma overlay_lookup desired groups eff k :
  overlay desired groups eff !! k = if decide (k ∈ concat groups) then desired !! k else eff !! k.
Proof.
  unfold overlay. generalize (concat groups). intros l. revert eff.
  induction l as [|x l IH]; intros eff; cbn [fold_left]; [done|]. rewrite IH.
  destruct (decide (k ∈ l)) as [Hk|Hk], (decide (k ∈ x :: l)) as [Hx|Hx]; [done|set_solver| |].
  - assert (k = x) as -> by set_solver. destruct (desired !! x) eqn:E; [by rewrite lookup_insert_eq|by rewrite lookup_delete_eq].
  - assert (x <> k) by set_solver. destruct (desired !! x); [by rewrite lookup_insert_ne|by rewrite lookup_delete_ne].
Qed.

(** [m] is [eff] with the desired values of the keys in [l]. *)
Definition overlaid (desired eff m : SyncValues) (l : list bytes) : Prop :=
  forall k, m !! k = if decide (k ∈ l) then desired !! k else eff !! k.

Lemma overlaid_app desired eff m1 m2 l1 l2 :
  overlaid desired eff m1 l1 -> overlaid desired m1 m2 l2 -> overlaid desired eff m2 (l1 ++ l2).
Proof.
  intros H1 H2 k. rewrite (H2 k), (H1 k).
  destruct (decide (k ∈ l2)), (decide (k ∈ l1)), (decide (k ∈ l1 ++ l2)); (done || set_solver).
Qed.

Lemma overlaid_refl desired eff : overlaid desired eff eff [].
Proof. intros k. by destruct (decide (k ∈ [])); [set_solver|]. Qed.

Lemma overlaid_nil desired eff m : overlaid desired eff m [] -> m = eff.
Proof. intros H. apply map_eq. intros k. rewrite (H k). by destruct (decide (k ∈ [])); [set_solver|]. Qed.

Lemma apply_batch_spec fuel groups desired eff :
  length groups <= fuel ->
  let r := apply_batch fuel groups desired eff in
  exists applied, groups ≡ₚ applied ++ r.2 /\ overlaid desired eff r.1 (concat applied)
    /\ (valid eff = true -> valid r.1 = true)
    /\ (length r.2 = length groups -> Forall (fun g => valid (overlay desired [g] eff) = false) groups).
Proof.
  revert groups eff. induction fuel as [|fuel IH]; intros groups eff Hf r; subst r.
  { destruct groups; [|cbn in Hf; lia]. exists []. split_and!; try done; apply overlaid_refl. }
  cbn [apply_batch]. destruct groups as [|g gs] eqn:Eg; [exists []; split_and!; try done; apply overlaid_refl|].
  rewrite <- Eg in *. assert (Hpos : 0 < length groups) by (rewrite Eg; cbn; lia). clear Eg.
  destruct (valid (overlay desired groups eff)) eqn:Ev.
  { exists groups. cbn [fst snd length]. rewrite app_nil_r. split_and!; try done; [|lia]. intros k. apply overlay_lookup. }
  destruct (length groups =? 1) eqn:E1; bool_hyps.
  { exists []. cbn [fst snd]. split_and!; try done.
    intros _. destruct groups as [|g0 [|]]; try done. by repeat constructor. }
  set (mid := length groups / 2). assert (Hmid : 0 < mid < length groups).
  { unfold mid. pose proof (Nat.div_lt (length groups) 2). pose proof (Nat.div_str_pos (length groups) 2). lia. }
  destruct (IH (take mid groups) eff) as (a1 & P1 & O1 & V1 & M1); [rewrite length_take; lia|].
  set (r1 := apply_batch fuel (take mid groups) desired eff) in *.
  destruct (IH (drop mid groups) r1.1) as (a2 & P2 & O2 & V2 & M2); [rewrite length_drop; lia|].
  set (r2 := apply_batch fuel (drop mid groups) desired r1.1) in *. cbn [fst snd]. exists (a1 ++ a2).
  split; [|split; [|split]].
  - rewrite <- (take_drop mid groups) at 1. rewrite P1, P2. rewrite <- !app_assoc. apply Permutation_app_head.
    rewrite !app_assoc. apply Permutation_app_tail, Permutation_app_comm.
  - rewrite concat_app. by eapply overlaid_app.
  - auto.
  - rewrite length_app. intros Hlen. pose proof (Permutation_length P1) as L1. pose proof (Permutation_length P2) as L2.
    rewrite length_app in L1, L2. rewrite length_take in *. rewrite length_drop in *.
    assert (a1 = []) as -> by (apply nil_length_inv; lia). apply overlaid_nil in O1. rewrite O1 in *.
    rewrite <- (take_drop mid groups). apply Forall_app. split; [apply M1; lia|apply M2; lia].
Qed.

Lemma elem_of_deferred l f :
  f ∈ dedup (sort_by (cmp_le field_cmp) (omap from_key l)) <-> exists k, k ∈ l /\ from_key k = Some f.
Proof. rewrite elem_of_dedup, sort_by_perm. apply list_elem_of_omap. Qed.

(** What the rounds return. *)
Lemma isolate_loop_spec fuel pending desired eff :
  length pending < fuel ->
  exists app applied rest, isolate_loop fuel pending desired eff = Some app /\ pending ≡ₚ applied ++ rest
    /\ overlaid desired eff (effective app) (concat applied) /\ (valid eff = true -> valid (effective app) = true)
    /\ Forall (fun g => valid (overlay desired [g] (effective app)) = false) rest
    /\ (forall f, f ∈ deferred app <-> exists k, k ∈ concat rest /\ from_key k = Some f).
Proof.
  revert pending eff. induction fuel as [|fuel IH]; intros pending eff Hf; [lia|]. cbn [isolate_loop].
  destruct (apply_batch_spec (length pending) pending desired eff) as (applied & P & O & V & M); [done|].
  set (r := apply_batch (length pending) pending desired eff) in *. pose proof (Permutation_length P) as L. rewrite length_app in L.
  destruct (length r.2 =? length pending) eqn:E; bool_hyps.
  - exists (mkApplication r.1 (dedup (sort_by (cmp_le field_cmp) (omap from_key (concat r.2))))), applied, r.2. cbn [effective deferred].
    split_and!; try done; [|apply elem_of_deferred].
    assert (applied = []) as -> by (apply nil_length_inv; lia). apply overlaid_nil in O. rewrite O.
    cbn [app] in P. rewrite <- P. by apply M.
  - destruct r.2 as [|g gs] eqn:Er.
    + exists (mkApplication r.1 []), applied, []. cbn. split_and!; try done. intros f. set_solver.
    + rewrite <- Er in *. destruct (IH r.2 r.1) as (app & applied' & rest & E' & P' & O' & V' & M' & D'); [lia|].
      exists app, (applied ++ applied'), rest. split_and!; try done; [|rewrite concat_app; by eapply overlaid_app|auto].
      rewrite P, P', app_assoc. done.
Qed.

(** ** Lemmas on the groups *)

Lemma group_cmp_eq a b : group_cmp a b = Eq -> a = b.
Proof.
  unfold group_cmp, resource_cmp, str_cmp. destruct a as [[k i] o], b as [[k' i'] o']. cbn.
  destruct (lex Z.compare k k') eqn:E1; cbn; try done. destruct (lex Z.compare i i') eqn:E2; cbn; try done.
  apply lex_Z_eq in E1, E2. subst. destruct o as [x|], o' as [y|]; cbn; try done. intros E%lex_Z_eq. by subst.
Qed.

Lemma from_key_key k f : from_key k = Some f -> field_key f = k.
Proof.
  unfold from_key. destruct (json_from_str k) as [g|]; cbn; [|done]. destruct (_ && _) eqn:E; [|done]. intros [= <-].
  apply andb_true_iff in E as [_ E]. by apply bool_decide_eq_true in E.
Qed.

Section Groups.
Context (local desired : SyncValues).
Definition changed (k : bytes) : Prop := local !! k <> desired !! k.
Definition in_group (g : group) (k : bytes) : Prop := changed k /\ exists f, from_key k = Some f /\ group_of local desired f = g.
Local Notation bt_sorted := (StronglySorted (fun a b : group * list bytes => group_cmp a.1 b.1 = Lt)).

(** The entries hold exactly the changed keys among [seen], by group. *)
Definition grouped (seen : list bytes) (m : list (group * list bytes)) : Prop :=
  bt_sorted m /\ (forall g L k, (g, L) ∈ m -> k ∈ L -> in_group g k)
  /\ (forall k, k ∈ seen -> changed k -> exists g L, in_group g k /\ (g, L) ∈ m /\ k ∈ L).

Lemma in_group_unique g g' k : in_group g k -> in_group g' k -> g = g'.
Proof. intros (_ & f & Hf & <-) (_ & f' & Hf' & <-). rewrite Hf in Hf'. by injection Hf' as ->. Qed.

Lemma grouped_push seen m k f :
  grouped seen m -> changed k -> from_key k = Some f ->
  grouped (k :: seen) (bt_push group_cmp (group_of local desired f) k m).
Proof.
  intros (Hs & Hin & Hall) Hc Hf. set (g := group_of local desired f).
  assert (Hk : in_group g k) by (split; [done|]; by exists f). pose proof (bt_push_spec group_cmp group_cmp_eq g k m) as Hp.
  split_and!.
  - by apply (bt_push_sorted group_cmp group_cmp_eq).
  - intros x L j Hx Hj. apply (Hp x L Hs) in Hx as [(-> & L0 & HL0 & ->)|[(-> & _ & ->)|(_ & HxL)]]; [| |by eapply Hin].
    + apply elem_of_app in Hj as [Hj|Hj]; [by eapply Hin|]. by assert (j = k) as -> by set_solver.
    + by assert (j = k) as -> by set_solver.
  - intros j Hj Hcj. destruct (decide (j = k)) as [->|Hne].
    + destruct (decide (g ∈ m.*1)) as [Hg|Hg].
      * apply list_elem_of_fmap in Hg as ([g' L0] & Hgg & HL0). cbn in Hgg. subst g'. exists g, (L0 ++ [k]). split; [done|].
        split; [apply Hp; [done|]; left; eauto|set_solver].
      * exists g, [k]. split; [done|]. split; [apply Hp; [done|]; right; left; done|set_solver].
    + assert (Hj' : j ∈ seen) by set_solver. destruct (Hall j Hj' Hcj) as (x & L & Hx & HL & HjL).
      destruct (decide (x = g)) as [->|Hxg].
      * exists g, (L ++ [k]). split; [done|]. split; [apply Hp; [done|]; left; eauto|set_solver].
      * exists x, L. split; [done|]. split; [apply Hp; [done|]; right; right; done|done].
Qed.

Lemma grouped_skip seen m k : grouped seen m -> ~ changed k -> grouped (k :: seen) m.
Proof.
  intros (Hs & Hin & Hall) Hc. split_and!; [done|done|]. intros j [->|Hj]%elem_of_cons Hcj; [done|]. by apply Hall.
Qed.

Lemma group_loop_spec keys seen m :
  grouped seen m ->
  match group_loop local desired keys m with
  | Ok m' => grouped (reverse keys ++ seen) m'
  | Err e => e = InvalidReplica /\ exists k, k ∈ keys /\ changed k /\ from_key k = None
  end.
Proof.
  revert seen m. induction keys as [|k keys IH]; intros seen m Hm; cbn [group_loop]; [done|].
  rewrite reverse_cons, <- app_assoc. cbn [app]. destruct (decide (local !! k = desired !! k)) as [He|Hn].
  - specialize (IH (k :: seen) m). destruct (group_loop local desired keys m).
    + apply IH. apply grouped_skip; [done|]. by intros H.
    + destruct IH as (-> & j & Hj & ?); [by apply grouped_skip; [|intros H]|]. split; [done|]. exists j. split; [set_solver|done].
  - destruct (from_key k) as [f|] eqn:Ef; cbn [ok_or rbind]; [|split; [done|]; exists k; set_solver].
    specialize (IH (k :: seen) (bt_push group_cmp (group_of local desired f) k m)). destruct (group_loop _ _ _ _).
    + apply IH. by apply grouped_push.
    + destruct IH as (-> & j & Hj & ?); [by apply grouped_push|]. split; [done|]. exists j. split; [set_solver|done].
Qed.

Lemma grouped_nil : grouped [] [].
Proof. split_and!; [constructor|set_solver|set_solver]. Qed.

Lemma all_keys k : changed k -> k ∈ btree_keys local ++ btree_keys desired.
Proof.
  intros Hc. unfold btree_keys. rewrite !sort_by_perm, elem_of_app, !list_elem_of_fmap. unfold changed in Hc.
  destruct (local !! k) as [v|] eqn:E.
  - left. exists (k, v). split; [done|]. by apply elem_of_map_to_list.
  - destruct (desired !! k) as [v|] eqn:E'; [|done]. right. exists (k, v). split; [done|]. by apply elem_of_map_to_list.
Qed.
End Groups.

(** ** The groups are the classes of the changed keys *)

Lemma elem_of_sorted_group g k : k ∈ sorted_group g <-> k ∈ g.2.
Proof. unfold sorted_group. by rewrite elem_of_dedup, sort_by_perm. Qed.

Lemma strict_nodup {A} (cmp : A -> A -> comparison) `{CmpOrder A cmp} l : StronglySorted (fun a b => cmp a b = Lt) l -> NoDup l.
Proof.
  induction 1 as [|a l Hl IH Ha]; [constructor|]. constructor; [|done]. intros Hin. rewrite Forall_forall in Ha.
  apply Ha in Hin. by rewrite cmp_refl in Hin.
Qed.

Lemma elem_of_concat {A} (Ls : list (list A)) k : k ∈ concat Ls <-> exists L, L ∈ Ls /\ k ∈ L.
Proof. rewrite list_elem_of_In, in_concat. by setoid_rewrite list_elem_of_In. Qed.

Lemma groups_nodup local desired m seen : grouped local desired seen m -> NoDup (concat (sorted_group <$> m)).
Proof.
  intros (Hs & Hin & _). induction Hs as [|[g L] m Hs IH Hg]; [constructor|]. cbn [fmap list_fmap concat]. apply NoDup_app. split_and!.
  - apply (strict_nodup str_cmp), (dedup_sorted str_cmp); [exact lex_Z_eq|apply cmp_sorted, _].
  - intros k Hk Hk'. apply elem_of_sorted_group in Hk. cbn in Hk. apply elem_of_concat in Hk' as (L' & HL' & Hk').
    apply list_elem_of_fmap in HL' as ([g' L0] & -> & HL0). apply elem_of_sorted_group in Hk'. cbn in Hk'.
    assert (H1 := Hin g L k ltac:(set_solver) Hk). assert (H2 := Hin g' L0 k ltac:(set_solver) Hk').
    rewrite (in_group_unique local desired g g' k H1 H2) in Hg. rewrite Forall_forall in Hg. apply Hg in HL0.
    change (group_cmp g' g' = Lt) in HL0. by rewrite (cmp_refl group_cmp) in HL0.
  - apply IH. intros g' L0 k HL0. apply (Hin g' L0 k). set_solver.
Qed.

(** Each list is the keys of one group. *)
Definition classes (local desired : SyncValues) (Ls : list (list bytes)) : Prop :=
  NoDup (concat Ls) /\ (forall L, L ∈ Ls -> exists g, forall k, k ∈ L <-> in_group local desired g k)
  /\ (forall k, changed local desired k -> k ∈ concat Ls).

Lemma groups_classes local desired m :
  grouped local desired (reverse (btree_keys local ++ btree_keys desired) ++ []) m -> classes local desired (sorted_group <$> m).
Proof.
  intros Hm. pose proof (groups_nodup _ _ _ _ Hm) as Hnd. destruct Hm as (Hs & Hin & Hall).
  assert (Hcov : forall k, changed local desired k -> exists g L, in_group local desired g k /\ (g, L) ∈ m /\ k ∈ L).
  { intros k Hk. apply Hall; [|done]. rewrite app_nil_r. apply elem_of_reverse. by apply all_keys. }
  split_and!; [done| |].
  - intros L HL. apply list_elem_of_fmap in HL as ([g L0] & -> & HL0). exists g. intros k. rewrite elem_of_sorted_group. cbn. split.
    + by apply Hin.
    + intros Hk. destruct (Hcov k) as (g' & L' & Hg' & HL' & Hk'); [by destruct Hk|].
      rewrite (in_group_unique _ _ g g' k Hk Hg') in HL0.
      by rewrite (bt_unique group_cmp group_cmp_eq m g' L0 L' Hs HL0 HL').
  - intros k Hk. destruct (Hcov k Hk) as (g & L & Hg & HL & Hk'). apply elem_of_concat. exists (sorted_group (g, L)).
    split; [by apply list_elem_of_fmap_2|]. by apply elem_of_sorted_group.
Qed.

Lemma isolate_groups local desired :
  valid desired = false -> valid local = true -> (forall k, local !! k <> desired !! k -> is_Some (from_key k)) ->
  exists Ls, classes local desired Ls /\ isolate_changes local desired = Ok <$> isolate_loop (S (length Ls)) Ls desired local.
Proof.
  intros Hd Hl Hp. unfold isolate_changes. rewrite Hd, Hl. cbn [negb].
  pose proof (group_loop_spec local desired (btree_keys local ++ btree_keys desired) [] [] (grouped_nil _ _)) as Hg.
  destruct (group_loop local desired _ []) as [m|e]; [|destruct Hg as (_ & k & _ & Hk & Hn); apply Hp in Hk; rewrite Hn in Hk; by destruct Hk].
  exists (sorted_group <$> m). split; [by apply groups_classes|done].
Qed.

(** C5: applying synchronised values keeps the catalogue valid and applies all it can.
    When the desired values are refused by the validator, the local ones accepted and every
    changed key well formed, [isolate_changes] returns; its result is accepted by the
    validator; every key has its desired value, except those of the deferred fields, which
    keep their local value; the fields of a resource that is created or deleted are
    deferred all or none; and no deferred group could have been applied on top of the
    result. *)
Theorem isolate_changes_correct local desired :
  valid desired = false -> valid local = true -> (forall k, local !! k <> desired !! k -> is_Some (from_key k)) ->
  exists app, isolate_changes local desired = Some (Ok app) /\ valid (effective app) = true
    /\ (forall k, effective app !! k = match from_key k with
                                      | Some f => if decide (f ∈ deferred app) then local !! k else desired !! k
                                      | None => local !! k
                                      end)
    /\ (forall f, f ∈ deferred app -> local !! field_key f <> desired !! field_key f)
    /\ (forall k k' f f', from_key k = Some f -> from_key k' = Some f' -> resource f = resource f' ->
          changed local desired k -> changed local desired k' ->
          whole_resource local desired (resource f) = true -> f ∈ deferred app -> f' ∈ deferred app)
    /\ (forall f m, f ∈ deferred app ->
          (forall k, (in_group local desired (group_of local desired f) k -> m !! k = desired !! k)
                  /\ (~ in_group local desired (group_of local desired f) k -> m !! k = effective app !! k)) ->
          valid m = false).
Proof.
  intros Hd Hl Hp. destruct (isolate_groups local desired Hd Hl Hp) as (Ls & (Hnd & Hcl & Hcov) & ->).
  destruct (isolate_loop_spec (S (length Ls)) Ls desired local) as (app & applied & rest & -> & P & O & V & M & D); [lia|].
  assert (Hnd' : NoDup (concat applied ++ concat rest)) by (rewrite <- concat_app; by rewrite <- P).
  apply NoDup_app in Hnd' as (_ & Hdis & _).
  assert (Hin : forall k, k ∈ concat Ls <-> k ∈ concat applied \/ k ∈ concat rest).
  { intros k. rewrite P, concat_app. apply elem_of_app. }
  assert (Hch : forall k, k ∈ concat Ls -> changed local desired k).
  { intros k Hk. apply elem_of_concat in Hk as (L & HL & Hk). destruct (Hcl L HL) as (g & Hg). by destruct (proj1 (Hg k) Hk). }
  assert (Hrest : forall L, L ∈ rest -> L ∈ Ls) by (intros L HL; rewrite P; set_solver).
  exists app. split; [done|]. split; [auto|]. split_and!.
  - intros k. rewrite (O k). destruct (decide (k ∈ concat applied)) as [Ha|Ha].
    + assert (Hk : changed local desired k) by (apply Hch, Hin; by left). destruct (Hp k Hk) as [f Hf]. rewrite Hf.
      destruct (decide (f ∈ deferred app)) as [Hfd|]; [|done]. apply D in Hfd as (k' & Hk' & Hf'). apply from_key_key in Hf, Hf'.
      assert (k' = k) as -> by congruence. by apply Hdis in Ha.
    + destruct (from_key k) as [f|] eqn:Hf; [|done]. destruct (decide (f ∈ deferred app)) as [|Hfd]; [done|].
      destruct (decide (local !! k = desired !! k)) as [|Hk]; [done|]. apply Hcov, Hin in Hk as [Hk|Hk]; [done|].
      exfalso. apply Hfd, D. eauto.
  - intros f Hf. apply D in Hf as (k & Hk & Hf). rewrite (from_key_key k f Hf). apply Hch, Hin. by right.
  - intros k k' f f' Hf Hf' Hr Hk Hk' Hw Hfd. apply D in Hfd as (k0 & Hk0 & Hf0). apply elem_of_concat in Hk0 as (L & HL & Hk0).
    destruct (Hcl L (Hrest L HL)) as (g & Hg). apply D. exists k'. split; [|done]. apply elem_of_concat. exists L. split; [done|].
    apply Hg. apply Hg in Hk0 as (_ & f0 & Hf0' & <-). rewrite Hf0 in Hf0'. injection Hf0' as <-. split; [done|]. exists f'. split; [done|].
    unfold group_of. by rewrite <- Hr, Hw.
  - intros f m Hfd Hm. apply D in Hfd as (k0 & Hk0 & Hf0). apply elem_of_concat in Hk0 as (L & HL & Hk0).
    destruct (Hcl L (Hrest L HL)) as (g & Hg). rewrite Forall_forall in M. specialize (M L HL).
    assert (Hgf : group_of local desired f = g). { apply Hg in Hk0 as (_ & f0 & Hf0' & <-). rewrite Hf0 in Hf0'. by injection Hf0' as <-. }
    rewrite Hgf in Hm. assert (m = overlay desired [L] (effective app)) as ->; [|done]. apply map_eq. intros k. rewrite overlay_lookup.
    cbn [concat]. rewrite app_nil_r. destruct (Hm k) as [H1 H2]. destruct (decide (k ∈ L)) as [Hk|Hk]; [apply H1; by apply Hg|].
    apply H2. intros H'. apply Hk. by apply Hg.
Qed.

(** [isolate_changes] always returns; accepted values are applied as they are; and it
    fails exactly when the desired values are refused and either the local ones are too or
    a changed key is malformed. *)
Theorem isolate_changes_total local desired :
  exists r, isolate_changes local desired = Some r
    /\ (valid desired = true -> r = Ok (mkApplication desired []))
    /\ (r = Err InvalidReplica <-> valid desired = false /\ (valid local = false \/ exists k, changed local desired k /\ from_key k = None)).
Proof.
  unfold isolate_changes. destruct (valid desired) eqn:Hd; [eexists; split; [done|]; split; [done|]; split; [done|by intros []]|].
  destruct (valid local) eqn:Hl; cbn [negb]; [|eexists; split; [done|]; split; [done|]; split; [by auto|done]].
  pose proof (group_loop_spec local desired (btree_keys local ++ btree_keys desired) [] [] (grouped_nil _ _)) as Hg.
  destruct (group_loop local desired _ []) as [m|e].
  - destruct (isolate_loop_spec (S (length (sorted_group <$> m))) (sorted_group <$> m) desired local) as (app & _ & _ & -> & _); [lia|].
    eexists. split; [done|]. split; [done|]. split; [done|]. intros (_ & [|(k & Hk & Hn)]); [done|].
    destruct Hg as (_ & _ & Hall). destruct (Hall k) as (g & L & (_ & f & Hf & _) & _);
      [rewrite app_nil_r; apply elem_of_reverse; by apply all_keys|done|]. congruence.
  - destruct Hg as (-> & k & _ & Hk & Hn). eexists. split; [done|]. split; [done|]. split; [|done]. intros _. split; [done|]. eauto.
Qed.

End Validator.
End Application.

(** ** Witnesses, with fields joined by a separator as their text *)

Definition sep_to_string (f : SyncFieldId) : bytes := kind (resource f) ++ [31]%Z ++ id (resource f) ++ [31]%Z ++ field f.
Definition sep_from_str (k : bytes) : option SyncFieldId :=
  match split 31 k with [a; b; c] => Some (mkField (mkResource a b) c) | _ => None end.

Definition ex_name : bytes := sep_to_string (mkField (mkResource [99]%Z [97]%Z) [110]%Z).
Definition ex_net : bytes := sep_to_string (mkField (mkResource [99]%Z [97]%Z) [119]%Z).
Definition ex_local : gmap bytes Z := {[ex_name := 1; ex_net := 2]}%Z.
Definition ex_desired : gmap bytes Z := {[ex_name := 3; ex_net := 4]}%Z.
Definition ex_valid (m : gmap bytes Z) : bool := bool_decide (m !! ex_net = Some 2%Z).

Example invalid_group_keeps_local_value :
  isolate_changes sep_to_string sep_from_str ex_valid ex_local ex_desired
  = Some (Ok (mkApplication {[ex_name := 3; ex_net := 2]}%Z [mkField (mkResource [99]%Z [97]%Z) [119]%Z])).
Proof. vm_compute. reflexivity. Qed.

Lemma isolate_changes_correct_witness :
  exists app, isolate_changes sep_to_string sep_from_str ex_valid ex_local ex_desired = Some (Ok app) /\ ex_valid (effective app) = true.
Proof.
  destruct (isolate_changes_correct sep_to_string sep_from_str ex_valid ex_local ex_desired) as (app & H1 & H2 & _);
    [vm_compute; reflexivity|vm_compute; reflexivity| |exists app; by split].
  intros k Hk. destruct (decide (k = ex_name)) as [->|H1]; [by eexists|]. destruct (decide (k = ex_net)) as [->|H2]; [by eexists|].
  unfold ex_local, ex_desired in Hk. by rewrite !lookup_insert_ne, !lookup_singleton_ne in Hk by done.
Defined.
