(* ===== verification/SyncProtocol.v ===== *)
(** * Publications and trust

    [src/crates/nyaterm-sync/src/protocol.rs] and [trust.rs]: where a writer's publications
    are stored and how their paths are read back, which protocol a provider gets, and the
    approvals that bind a changed host identity. UUIDs, the digest and JSON are parameters;
    what the code relies on of them are the hypotheses of each section. *)

From stdpp Require Import base option list numbers strings gmap.
From Stdlib Require Import ZArith Lia.
From S2P Require Import Prelude RustStr RustOrd SyncApplication.

Local Open Scope Z_scope.
Local Open Scope rust_scope.

(** ** Providers *)

Definition MAX_PUBLICATION_BYTES : Z := 64 * 1024 * 1024.

Record ProviderCapabilities := mkCapabilities { complete_listing : bool; max_files : option Z; max_object_bytes : Z }.

Definition v4_providers : list bytes :=
  [bs "local_directory"; bs "webdav"; bs "s3"; bs "google_drive"; bs "onedrive"; bs "aliyun_drive"].

Definition for_provider (provider : bytes) : option ProviderCapabilities :=
  if bool_decide (provider ∈ v4_providers) then Some (mkCapabilities true None MAX_PUBLICATION_BYTES) else None.

Definition supports_v4 (c : ProviderCapabilities) : bool :=
  complete_listing c && bool_decide (max_files c = None) && (MAX_PUBLICATION_BYTES <=? max_object_bytes c).

Definition effective_protocol_version (provider : bytes) (configured : Z) : Z :=
  if (configured =? 4) && negb (match for_provider provider with Some c => supports_v4 c | None => false end)
  then 3 else configured.

(** The fallback changes 4 to 3 for the other providers, and nothing else. *)
Lemma effective_version_spec provider configured :
  effective_protocol_version provider configured
  = if decide (configured = 4 /\ provider ∉ v4_providers) then 3 else configured.
Proof.
  unfold effective_protocol_version, for_provider. destruct (configured =? 4) eqn:E; bool_hyps; cbn [andb].
  - case_bool_decide; cbn; destruct (decide _); naive_solver.
  - destruct (decide _); naive_solver.
Qed.

(** ** Publications *)

Definition WRITERS_PREFIX : bytes := bs "sync/v5/writers/".
Definition LEGACY_WRITERS_PREFIX : bytes := bs "sync/v4/writers/".

Section Publications.
(** [Uuid::parse_str], [Display], [is_nil] and the hexadecimal SHA-256 digest. *)
Context {Uuid : Type} (parse_str : bytes -> option Uuid) (uuid_string : Uuid -> bytes) (is_nil : Uuid -> bool)
  (digest : bytes -> bytes).

Record PublicationId := mkPublication { writer : Uuid; sequence : Z; hash : bytes }.

Definition format_path (prefix : bytes) (id : PublicationId) : bytes :=
  prefix ++ uuid_string (writer id) ++ bs "/" ++ dec_string (sequence id) ++ bs "-" ++ hash id ++ bs ".bin".

Definition path (id : PublicationId) : bytes := format_path WRITERS_PREFIX id.

Definition hash_byte (b : Z) : bool := between 48 57 b || between 97 102 b.

Definition parse_with_prefix (p prefix : bytes) : option PublicationId :=
  tail ← strip_prefix prefix p;
  wf ← split_once 47 tail;
  stem ← strip_suffix (bs ".bin") wf.2;
  sh ← split_once 45 stem;
  w ← parse_str wf.1;
  n ← parse_uint 64 10 sh.1;
  let id := mkPublication w n sh.2 in
  if negb (is_nil w) && (0 <? n) && (length sh.2 =? 64)%nat && forallb hash_byte sh.2
     && bool_decide (format_path prefix id = p)
  then Some id else None.

Definition parse (p : bytes) : option PublicationId := parse_with_prefix p WRITERS_PREFIX.
Definition parse_legacy (p : bytes) : option PublicationId := parse_with_prefix p LEGACY_WRITERS_PREFIX.

Definition verifies (id : PublicationId) (b : bytes) : bool :=
  (Z.of_nat (length b) <=? MAX_PUBLICATION_BYTES) && bool_decide (digest b = hash id).

Record PendingPublication := mkPending { pub_id : PublicationId; pub_bytes : bytes; document_hash : bytes }.

Definition new_pending (w : Uuid) (n : Z) (b document_hash : bytes) : option PendingPublication :=
  if is_nil w || (n =? 0) || (MAX_PUBLICATION_BYTES <? Z.of_nat (length b)) then None
  else Some (mkPending (mkPublication w n (digest b)) b document_hash).

(** A UUID prints as text without slashes that parses back, and a digest is 64 lower-case
    hexadecimal digits. *)
Context (uuid_parses : forall u, parse_str (uuid_string u) = Some u).
Context (uuid_no_slash : forall u, Forall (fun b => b <> 47) (uuid_string u)).
Context (digest_hex : forall b, length (digest b) = 64%nat /\ forallb hash_byte (digest b) = true).

Definition id_wf (id : PublicationId) : Prop :=
  is_nil (writer id) = false /\ 0 < sequence id < 2 ^ 64 /\ length (hash id) = 64%nat /\ forallb hash_byte (hash id) = true.

Lemma parse_uint_range w s n : 0 <= w -> parse_uint w 10 s = Some n -> n < 2 ^ w.
Proof.
  intros Hw. assert (H : forall s acc, acc < 2 ^ w -> parse_digits w 10 s acc = Some n -> n < 2 ^ w).
  { induction s0 as [|b s0 IH]; cbn; [congruence|]. intros acc Ha. destruct (to_digit 10 b); [|done].
    destruct (_ <? 2 ^ w) eqn:E; [|done]. bool_hyps. by apply IH. }
  assert (0 < 2 ^ w) by (by apply Z.pow_pos_nonneg). unfold parse_uint.
  repeat case_match; try done; by apply H.
Qed.

Lemma parse_format prefix id : id_wf id -> parse_with_prefix (format_path prefix id) prefix = Some id.
Proof.
  intros (Hn & Hs & Hl & Hh). unfold parse_with_prefix.
  assert (strip_prefix prefix (format_path prefix id)
    = Some (uuid_string (writer id) ++ bs "/" ++ dec_string (sequence id) ++ bs "-" ++ hash id ++ bs ".bin")) as ->
    by apply strip_prefix_app. cbn [mbind option_bind].
  change (bs "/") with [47]. cbn [app]. rewrite split_once_app by done. cbn [mbind option_bind fst snd].
  assert (Hsuf : strip_suffix (bs ".bin") (dec_string (sequence id) ++ bs "-" ++ hash id ++ bs ".bin")
    = Some (dec_string (sequence id) ++ bs "-" ++ hash id)).
  { rewrite !app_assoc. rewrite <- (app_assoc (dec_string _)). apply strip_suffix_app. }
  rewrite Hsuf. cbn [mbind option_bind]. change (bs "-") with [45]. cbn [app]. rewrite split_once_app; cycle 1.
  { eapply Forall_impl; [apply dec_string_digits|]. unfold is_dec_digit. intros b Hb. lia. }
  cbn [mbind option_bind fst snd]. rewrite uuid_parses. cbn [mbind option_bind]. rewrite parse_uint_dec by lia. cbn [mbind option_bind].
  rewrite Hn, (proj2 (Z.ltb_lt 0 _)), Hl, Hh by lia. destruct id. rewrite bool_decide_true by done. done.
Qed.

Lemma parse_inv p prefix id : parse_with_prefix p prefix = Some id -> id_wf id /\ format_path prefix id = p.
Proof.
  unfold parse_with_prefix. destruct (strip_prefix prefix p) as [tail|]; cbn [mbind option_bind fst snd]; [|done].
  destruct (split_once 47 tail) as [[a f]|]; cbn [mbind option_bind fst snd]; [|done]. destruct (strip_suffix (bs ".bin") f) as [stem|]; cbn [mbind option_bind fst snd]; [|done].
  destruct (split_once 45 stem) as [[s h]|]; cbn [mbind option_bind fst snd]; [|done]. destruct (parse_str a) as [u|]; cbn [mbind option_bind fst snd]; [|done].
  destruct (parse_uint 64 10 s) as [n|] eqn:En; cbn [mbind option_bind fst snd]; [|done]. destruct (_ && _) eqn:E; [|done]. intros [= <-].
  apply andb_true_iff in E as [E Hf]. apply bool_decide_eq_true in Hf. bool_hyps. unfold id_wf. cbn.
  apply parse_uint_range in En; [|lia]. split_and!; (done || lia).
Qed.

(** A publication has exactly one path. A path is read as a publication if and only if
    it is, character for character, the path of a well-formed one (a real writer, a positive
    64-bit sequence number, a 64-digit lower-case hash): padded numbers, upper-case hashes,
    other spellings of a UUID and legacy paths are all refused. *)
Theorem publication_path_canonical p id :
  (parse p = Some id <-> path id = p /\ id_wf id) /\ (id_wf id -> parse (format_path LEGACY_WRITERS_PREFIX id) = None).
Proof.
  split; [split|].
  - intros [Hw Hp]%parse_inv. done.
  - intros [<- Hw]. by apply parse_format.
  - intros _. unfold parse, parse_with_prefix. done.
Qed.

(** What is published can be found and checked. A pending publication's path reads
    back as its identity, the bytes verify against it, and publishing is refused exactly
    for the nil writer, sequence zero, or more than 64 MiB. *)
Theorem pending_publication_verifies w n b h :
  0 <= n < 2 ^ 64 ->
  match new_pending w n b h with
  | Some p => parse (path (pub_id p)) = Some (pub_id p) /\ verifies (pub_id p) b = true /\ pub_bytes p = b
              /\ writer (pub_id p) = w /\ sequence (pub_id p) = n
  | None => is_nil w = true \/ n = 0 \/ Z.of_nat (length b) > MAX_PUBLICATION_BYTES
  end.
Proof.
  intros Hn. unfold new_pending. destruct (_ || _ || _) eqn:E.
  - rewrite !orb_true_iff in E. destruct E as [[E|E]|E]; bool_hyps; [by left|right; left; done|right; right; lia].
  - bool_hyps. destruct (digest_hex b) as [Hl Hh]. cbn [pub_id pub_bytes writer sequence]. split_and!; try done.
    + apply parse_format. unfold id_wf. cbn. split_and!; (done || lia).
    + unfold verifies. cbn. rewrite (proj2 (Z.leb_le _ _)), bool_decide_true by (done || lia). done.
Qed.
End Publications.

(** ** Trust *)

#[export] Instance SyncResourceId_countable : Countable SyncResourceId.
Proof.
  apply (inj_countable' (fun r => (kind r, id r)) (fun p => mkResource p.1 p.2)). by intros [].
Defined.

Section Trust.
Context {Value Json : Type} `{EqDecision Json}.
Context (json_to_string : SyncFieldId -> bytes) (json_from_str : bytes -> option SyncFieldId).
(** [SyncValue::decode], and the text of the JSON array a token is the digest of. *)
Context (decode : Value -> option Json) (token_text : SyncResourceId -> option Json -> option Json -> bytes) (digest : bytes -> bytes).

Local Notation from_key := (from_key json_to_string json_from_str).

Definition trust_kinds : list bytes := [bs "known_host"; bs "vnc_known_host"].

(** The host identity a key and its value stand for. *)
Definition identity_of (k : bytes) (v : Value) : option (SyncResourceId * Json) :=
  f ← from_key k;
  if bool_decide (kind (resource f) ∈ trust_kinds) && bool_decide (field f = bs "identity")
  then (fun j => (resource f, j)) <$> decode v else None.

Definition resource_values (values : gmap bytes Value) : gmap SyncResourceId Json :=
  list_to_map (omap (fun kv : bytes * Value => identity_of kv.1 kv.2) (map_to_list values)).

Record TrustReview := mkReview {
  review_resource : SyncResourceId; review_key : bytes; token : bytes; previous : option Json; proposed : option Json }.

(** A missing identity is [Value::Null], here [None]. *)
Definition review (l d : gmap SyncResourceId Json) (r : SyncResourceId) : option TrustReview :=
  if decide (l !! r = d !! r) then None
  else Some (mkReview r (json_to_string (presence r)) (digest (token_text r (l !! r) (d !! r))) (l !! r) (d !! r)).

Definition reviews (local desired : gmap bytes Value) : list TrustReview :=
  let l := resource_values local in
  let d := resource_values desired in
  omap (review l d) (dedup (sort_by (cmp_le resource_cmp) ((map_to_list l).*1 ++ (map_to_list d).*1))).

Definition approved (local desired : gmap bytes Value) (approvals : gmap bytes bytes) : bool :=
  forallb (fun r => bool_decide (approvals !! review_key r = Some (token r))) (reviews local desired).

(** The identity of a host in some values. *)
Definition identity (values : gmap bytes Value) (r : SyncResourceId) : option Json := resource_values values !! r.

Lemma elem_of_reviews local desired x :
  x ∈ reviews local desired <-> exists r, review (resource_values local) (resource_values desired) r = Some x.
Proof.
  unfold reviews. rewrite list_elem_of_omap. split; [intros (r & _ & H); by exists r|].
  intros (r & H). exists r. split; [|done]. rewrite elem_of_dedup, sort_by_perm, elem_of_app, !list_elem_of_fmap.
  unfold review in H. destruct (decide _) as [|Hne]; [done|].
  destruct (resource_values local !! r) as [j|] eqn:E.
  - left. exists (r, j). split; [done|]. by apply elem_of_map_to_list.
  - destruct (resource_values desired !! r) as [j|] eqn:E'; [|done]. right. exists (r, j). split; [done|]. by apply elem_of_map_to_list.
Qed.

Lemma approved_spec local desired approvals :
  approved local desired approvals = true <->
  forall r, identity local r <> identity desired r ->
    approvals !! json_to_string (presence r) = Some (digest (token_text r (identity local r) (identity desired r))).
Proof.
  unfold approved. rewrite forallb_forall. unfold identity. split.
  - intros H r Hr. assert (Hx : exists x, review (resource_values local) (resource_values desired) r = Some x).
    { unfold review. by destruct (decide _); [|eexists]. }
    destruct Hx as [x Hx]. specialize (H x). rewrite <- list_elem_of_In, elem_of_reviews in H. specialize (H (ex_intro _ r Hx)).
    apply bool_decide_eq_true in H. unfold review in Hx. destruct (decide _); [done|]. by injection Hx as <-.
  - intros H x Hx. apply list_elem_of_In, elem_of_reviews in Hx as (r & Hx). unfold review in Hx.
    destruct (decide _) as [|Hne]; [done|]. injection Hx as <-. cbn. apply bool_decide_eq_true. by apply H.
Qed.

(** The text of a token determines what it is about, and the JSON of an identity parses
    back. *)
Context (token_inj : forall r l d r' l' d', token_text r l d = token_text r' l' d' -> l = l' /\ d = d').
Context (json_roundtrip : forall f, json_from_str (json_to_string f) = Some f).

(** An approval authorises one change only. An approval given for one change of a host's
    identity cannot approve another: if the same approvals accept two changes of a host's
    identity (added, replaced or removed), both are from the same old identity to the same
    new one, unless the digest has a collision on the texts of just these two changes. *)
Theorem trust_approval_binding local desired local' desired' approvals r :
  let text := token_text r (identity local r) (identity desired r) in
  let text' := token_text r (identity local' r) (identity desired' r) in
  (digest text = digest text' -> text = text') ->
  approved local desired approvals = true -> approved local' desired' approvals = true ->
  identity local r <> identity desired r -> identity local' r <> identity desired' r ->
  identity local r = identity local' r /\ identity desired r = identity desired' r.
Proof.
  intros text text' Hfree. rewrite !approved_spec. intros H1 H2 Hr Hr'. specialize (H1 r Hr). specialize (H2 r Hr'). rewrite H1 in H2.
  injection H2 as H2. by apply Hfree, token_inj in H2.
Qed.

Lemma from_key_json f :
  kind (resource f) <> [] -> SyncApplication.id (resource f) <> [] -> field f <> [] -> from_key (json_to_string f) = Some f.
Proof.
  intros H1 H2 H3. unfold SyncApplication.from_key. rewrite json_roundtrip. cbn [mbind option_bind]. unfold field_key.
  by rewrite (bool_decide_false (kind _ = [])), (bool_decide_false (SyncApplication.id _ = [])), (bool_decide_false (field _ = [])), bool_decide_true.
Qed.

(** The identities of the values are those stored under the hosts' identity fields. *)
Lemma identity_lookup values r :
  kind r ∈ trust_kinds -> SyncApplication.id r <> [] ->
  identity values r = (v ← values !! json_to_string (mkField r (bs "identity")); decode v).
Proof.
  intros Hk Hi. unfold identity, resource_values. set (l := omap _ _).
  assert (Hin : forall j, (r, j) ∈ l <-> exists v, values !! json_to_string (mkField r (bs "identity")) = Some v /\ decode v = Some j).
  { intros j. unfold l. rewrite list_elem_of_omap. split.
    - intros ([k v] & Hkv & H). apply elem_of_map_to_list in Hkv. unfold identity_of in H. cbn [fst snd] in H.
      destruct (from_key k) as [f|] eqn:Ef; cbn [mbind option_bind] in H; [|done]. destruct (_ && _) eqn:E; [|done]. destruct (decode v) as [j'|] eqn:Ed; [|done].
      apply andb_true_iff in E as [_ E]. apply bool_decide_eq_true in E. cbn in H. injection H as <- <-. exists v. split; [|done].
      apply from_key_key in Ef. unfold field_key in Ef. rewrite <- E. destruct f. cbn. by rewrite Ef.
    - intros (v & Hv & Hd). exists (json_to_string (mkField r (bs "identity")), v). split; [by apply elem_of_map_to_list|].
      unfold identity_of. cbn [fst snd]. rewrite from_key_json; [|cbn; intros E; rewrite E in Hk; by apply not_elem_of_nil in Hk || set_solver|done|done].
      cbn [mbind option_bind resource field]. rewrite !bool_decide_true by done. cbn. by rewrite Hd. }
  destruct (list_to_map l !! r) as [j|] eqn:E.
  - apply elem_of_list_to_map_2, Hin in E as (v & -> & Hd). done.
  - apply not_elem_of_list_to_map_2 in E. destruct (values !! json_to_string _) as [v|] eqn:Ev; [|done]. cbn.
    destruct (decode v) as [j|] eqn:Ed; [|done]. exfalso. apply E. apply list_elem_of_fmap. exists (r, j). split; [done|].
    apply Hin. eauto.
Qed.
End Trust.

(** ** Witnesses *)

(** Two writers, one of them nil, and a constant digest. *)
Definition ex_uuid_string (u : bool) : bytes := if u then bs "w" else bs "nil".
Definition ex_parse_str (s : bytes) : option bool :=
  if bool_decide (s = bs "w") then Some true else if bool_decide (s = bs "nil") then Some false else None.
Definition ex_digest (b : bytes) : bytes := replicate 64 97.

Lemma publication_path_canonical_witness :
  parse ex_parse_str ex_uuid_string negb (WRITERS_PREFIX ++ bs "w/7-" ++ replicate 64 97 ++ bs ".bin")
  = Some (mkPublication true 7 (replicate 64 97)).
Proof.
  apply (publication_path_canonical ex_parse_str ex_uuid_string negb); [by intros []|intros []; by repeat constructor|].
  split; [vm_compute; reflexivity|]. unfold id_wf. cbn. split_and!; (done || lia).
Defined.

Lemma pending_publication_verifies_witness :
  match new_pending negb ex_digest true 7 [1; 2; 3] [] with
  | Some p => parse ex_parse_str ex_uuid_string negb (path ex_uuid_string (pub_id p)) = Some (pub_id p)
              /\ verifies ex_digest (pub_id p) [1; 2; 3] = true /\ pub_bytes p = [1; 2; 3]
              /\ writer (pub_id p) = true /\ sequence (pub_id p) = 7
  | None => negb true = true \/ 7 = 0 \/ Z.of_nat (length [1; 2; 3]) > MAX_PUBLICATION_BYTES
  end.
Proof.
  apply (pending_publication_verifies ex_parse_str ex_uuid_string negb ex_digest); [by intros []|intros []; by repeat constructor|by intros b|lia].
Defined.

(** Identities as numbers, tokens as their text. *)
Definition ex_opt (o : option Z) : bytes := match o with Some z => [1; z] | None => [0; 0] end.
Definition ex_token_text (r : SyncResourceId) (l d : option Z) : bytes := ex_opt l ++ ex_opt d.

Lemma ex_token_inj (r : SyncResourceId) l d (r' : SyncResourceId) l' d' :
  ex_token_text r l d = ex_token_text r' l' d' -> l = l' /\ d = d'.
Proof. destruct l, l', d, d'; cbn; intros [=]; by subst. Qed.

Definition ex_host : SyncResourceId := mkResource (bs "known_host") (bs "h").
Definition ex_values : gmap bytes Z := {[sep_to_string (mkField ex_host (bs "identity")) := 5]}.
Definition ex_approvals : gmap bytes bytes := {[sep_to_string (presence ex_host) := [0; 0; 1; 5]]}.

Lemma trust_approval_binding_witness :
  identity sep_to_string sep_from_str Some ∅ ex_host = identity sep_to_string sep_from_str Some (∅ : gmap bytes Z) ex_host
  /\ identity sep_to_string sep_from_str Some ex_values ex_host = identity sep_to_string sep_from_str Some ex_values ex_host.
Proof.
  apply (trust_approval_binding sep_to_string sep_from_str Some ex_token_text (fun b => b) ex_token_inj ∅ ex_values ∅ ex_values ex_approvals ex_host);
    vm_compute; done.
Defined.
