(* ===== verification/SyncEngine.v ===== *)
(** * The replica of a device

    [src/crates/nyaterm-sync/src/engine.rs]: a replica is a causal document of registers,
    one per field, and the values they refer to by digest. Modelled here: reading the
    registers and their candidates, validation, conflicts, materialising the effective
    values, writing and resolving. The document ([automerge]), UUIDs, the digest, JSON and
    the values are parameters; which fields are supported is a parameter of the model, so
    the theorems hold for any table of them. Registers are finite maps: their order shows
    only in the conflicts, which are sorted. *)

From stdpp Require Import base option list numbers strings gmap.
From Stdlib Require Import ZArith Lia.
From S2P Require Import Prelude RustStr RustOrd SyncApplication SyncProtocol.

Local Open Scope nat_scope.
Local Open Scope rust_scope.

Record SyncCandidate := mkCandidate { operation : bytes; cvalue : bytes }.
#[export] Instance SyncCandidate_eq_dec : EqDecision SyncCandidate.
Proof. solve_decision. Defined.

Record SyncConflict := mkConflict { conflict_field : SyncFieldId; conflict_candidates : list SyncCandidate }.

Definition present : bytes := bs "$present".
Definition deleted_mark : bytes := bs "deleted".

(** The document, as far as the engine uses it: the values of the registers under a key
    with the operations that wrote them, the keys in use, and writing one. *)
Class AutoDoc (Doc : Type) := {
  doc_new : Doc;
  get_all : Doc -> bytes -> list (option bytes * bytes);
  doc_keys : Doc -> list bytes;
  put : Doc -> bytes -> bytes -> option Doc;
  doc_merge : Doc -> Doc -> option Doc;
  doc_load : bytes -> option Doc;
  doc_save : Doc -> bytes;
}.

(** A new document is empty; a write replaces all candidates of its key and leaves the
    other keys alone; the keys in use are those with candidates. *)
Class AutoDocLaws (Doc : Type) `{AutoDoc Doc} : Prop := {
  new_keys : doc_keys doc_new = [];
  get_all_keys : forall d k, get_all d k <> [] -> k ∈ doc_keys d;
  put_same : forall d d' k v, put d k v = Some d' -> exists op, get_all d' k = [(Some v, op)];
  put_other : forall d d' k v k', put d k v = Some d' -> k' <> k -> get_all d' k' = get_all d k';
  put_keys : forall d d' k v k', put d k v = Some d' -> k' ∈ doc_keys d' <-> k' = k \/ k' ∈ doc_keys d;
}.

Section Engine.
Context {Doc Value Json : Type} `{AutoDoc Doc} `{EqDecision Value}.
Context (json_to_string : SyncFieldId -> bytes) (json_from_str : bytes -> option SyncFieldId).
Context (uuid_ok : bytes -> bool) (digest : bytes -> bytes) (value_bytes : Value -> bytes).
Context (decode : Value -> option Json) (as_bool : Json -> option bool).
Context (core_kinds : list bytes) (supports_field : bytes -> bytes -> bool).
Local Notation from_key := (from_key json_to_string json_from_str).
Local Notation key := json_to_string.
Local Notation SyncValues := (gmap bytes Value).

Record SyncReplica := mkReplica { document : Doc; values : gmap bytes Value; fixed : bool }.

Definition fixed_cloud_sync_field (f : SyncFieldId) : bool :=
  bool_decide (kind (resource f) ∈ core_kinds) && supports_field (kind (resource f)) (field f).

(** ** Reading *)

Definition candidate (r : SyncReplica) (f : SyncFieldId) (entry : option bytes * bytes) : result SyncCandidate SyncError :=
  reference <-? ok_or entry.1 InvalidReplica;
  di <-? ok_or (split_once 47 reference) InvalidReplica;
  if negb (uuid_ok di.2) then Err InvalidReplica
  else if negb (bool_decide (di.1 = deleted_mark)) && (negb (length di.1 =? 64) || negb (forallb hash_byte di.1)) then Err InvalidReplica
  else if negb (bool_decide (di.1 = deleted_mark)) && negb (bool_decide (is_Some (values r !! di.1)))
          && (negb (fixed r) || fixed_cloud_sync_field f) then Err InvalidReplica
  else Ok (mkCandidate entry.2 di.1).

Fixpoint collect {A B} (g : A -> result B SyncError) (l : list A) : result (list B) SyncError :=
  match l with [] => Ok [] | a :: l' => b <-? g a; bs <-? collect g l'; Ok (b :: bs) end.

Definition candidates (r : SyncReplica) (f : SyncFieldId) : result (list SyncCandidate) SyncError :=
  cs <-? collect (candidate r f) (get_all (document r) (key f));
  Ok (sort_by (cmp_le (fun a b => str_cmp (operation a) (operation b))) cs).

Definition candidate_value (r : SyncReplica) (c : SyncCandidate) : result Value SyncError :=
  ok_or (values r !! cvalue c) InvalidReplica.

Definition fields (r : SyncReplica) : result (list SyncFieldId) SyncError :=
  collect (fun k => ok_or (from_key k) InvalidReplica) (doc_keys (document r)).

Definition Registers : Type := gmap SyncResourceId (gmap bytes (list SyncCandidate)).

Fixpoint registers_loop (r : SyncReplica) (fs : list SyncFieldId) (acc : gmap SyncResourceId (gmap bytes (list SyncCandidate)))
    : result (gmap SyncResourceId (gmap bytes (list SyncCandidate))) SyncError :=
  match fs with
  | [] => Ok acc
  | f :: fs' =>
    cs <-? candidates r f;
    registers_loop r fs' (<[resource f := <[field f := cs]> (default ∅ (acc !! resource f))]> acc)
  end.

Definition registers (r : SyncReplica) : result (gmap SyncResourceId (gmap bytes (list SyncCandidate))) SyncError :=
  fs <-? fields r; registers_loop r fs ∅.

(** The number of different values. *)
Definition distinct (cs : list SyncCandidate) : nat := size (list_to_set (cvalue <$> cs) : gset bytes).

Definition candidate_bool (r : SyncReplica) (c : SyncCandidate) : result bool SyncError :=
  v <-? candidate_value r c;
  j <-? ok_or (decode v) InvalidReplica;
  ok_or (as_bool j) InvalidReplica.

Definition boolean (r : SyncReplica) (cs : list SyncCandidate) : result (option bool) SyncError :=
  match cs with [] => Ok None | c :: _ => b <-? candidate_bool r c; Ok (Some b) end.

(** A resource outside the fixed scope of a fixed replica. *)
Definition out_of_fixed (r : SyncReplica) (res : SyncResourceId) : bool :=
  fixed r && negb (fixed_cloud_sync_field (mkField res present)).

Definition new_replica : SyncReplica := mkReplica doc_new ∅ false.

(** ** Validation *)

Definition value_ok (kv : bytes * Value) : bool :=
  bool_decide (digest (value_bytes kv.2) = kv.1) && bool_decide (is_Some (decode kv.2)).

Definition validate_resource (r : SyncReplica) (rf : SyncResourceId * gmap bytes (list SyncCandidate)) : result unit SyncError :=
  if out_of_fixed r rf.1 then Ok tt
  else
    cs <-? ok_or (rf.2 !! present) InvalidReplica;
    match cs with
    | [] => Err InvalidReplica
    | _ => _ <-? collect (candidate_bool r) cs; Ok tt
    end.

Definition validate (r : SyncReplica) : result unit SyncError :=
  if negb (forallb value_ok (map_to_list (values r))) then Err InvalidReplica
  else
    regs <-? registers r;
    _ <-? collect (validate_resource r) (map_to_list regs);
    Ok tt.

(** ** Conflicts *)

Definition resource_conflicts (r : SyncReplica) (rf : SyncResourceId * gmap bytes (list SyncCandidate))
    : result (list SyncConflict) SyncError :=
  if out_of_fixed r rf.1 then Ok []
  else
    presence <-? ok_or (rf.2 !! present) InvalidReplica;
    hidden <-? (if 1 <? distinct presence then Ok true else b <-? boolean r presence; Ok (bool_decide (b = Some false)));
    Ok (omap (fun nc : bytes * list SyncCandidate =>
          if fixed r && negb (fixed_cloud_sync_field (mkField rf.1 nc.1)) then None
          else if negb (bool_decide (nc.1 = present)) && hidden then None
          else if 1 <? distinct nc.2 then Some (mkConflict (mkField rf.1 nc.1) nc.2) else None) (map_to_list rf.2)).

Definition conflicts_from (r : SyncReplica) (regs : gmap SyncResourceId (gmap bytes (list SyncCandidate)))
    : result (list SyncConflict) SyncError :=
  cs <-? collect (resource_conflicts r) (map_to_list regs);
  Ok (sort_by (cmp_le (fun a b => field_cmp (conflict_field a) (conflict_field b))) (concat cs)).

Definition conflicts (r : SyncReplica) : result (list SyncConflict) SyncError :=
  regs <-? registers r; conflicts_from r regs.

(** ** Materialising *)

(** The inner loop: the fields of one resource. *)
Fixpoint apply_fields (r : SyncReplica) (res : SyncResourceId) (fs : list (bytes * list SyncCandidate)) (m : SyncValues)
    : result SyncValues SyncError :=
  match fs with
  | [] => Ok m
  | (name, cs) :: fs' =>
    if negb (supports_field (kind res) name) then apply_fields r res fs' m
    else
      match (if distinct cs =? 1 then head cs else None) with
      | None => apply_fields r res fs' m
      | Some c =>
        if bool_decide (cvalue c = deleted_mark) then apply_fields r res fs' (base.delete (key (mkField res name)) m)
        else v <-? candidate_value r c; apply_fields r res fs' (<[key (mkField res name) := v]> m)
      end
  end.

(** The outer loop, with the effective values and the resources to delete. *)
Fixpoint materialize_loop (r : SyncReplica) (includes : bytes -> bool) (local : SyncValues) (blocked_new : list SyncResourceId)
    (rs : list (SyncResourceId * gmap bytes (list SyncCandidate))) (m : SyncValues) (deleted : list SyncResourceId)
    : result (SyncValues * list SyncResourceId) SyncError :=
  match rs with
  | [] => Ok (m, deleted)
  | (res, fs) :: rs' =>
    if negb (includes (kind res)) || out_of_fixed r res then materialize_loop r includes local blocked_new rs' m deleted
    else
      cs <-? ok_or (fs !! present) InvalidReplica;
      if 1 <? distinct cs then materialize_loop r includes local blocked_new rs' m deleted
      else
        b <-? boolean r cs;
        if bool_decide (b = Some false) then materialize_loop r includes local blocked_new rs' m (res :: deleted)
        else if bool_decide (local !! key (mkField res present) = None) && bool_decide (res ∈ blocked_new)
        then materialize_loop r includes local blocked_new rs' m deleted
        else m' <-? apply_fields r res (map_to_list fs) m;
             materialize_loop r includes local blocked_new rs' m' deleted
  end.

Definition keep (deleted : list SyncResourceId) (k : bytes) : bool :=
  match from_key k with Some f => negb (bool_decide (resource f ∈ deleted)) | None => true end.

Definition materialize_from (r : SyncReplica) (local : SyncValues) (includes : bytes -> bool)
    (regs : gmap SyncResourceId (gmap bytes (list SyncCandidate))) : result SyncValues SyncError :=
  cs <-? conflicts_from r regs;
  let blocked_new := resource <$> filter (fun f => supports_field (kind (resource f)) (field f) = true) (conflict_field <$> cs) in
  md <-? materialize_loop r includes local blocked_new (map_to_list regs) local [];
  Ok (filter (fun kv : bytes * Value => keep md.2 kv.1 = true) md.1).

Definition materialize (r : SyncReplica) (local : SyncValues) (includes : bytes -> bool) : result SyncValues SyncError :=
  regs <-? registers r; materialize_from r local includes regs.

(** ** Writing *)

(** [Uuid::new_v4().to_string()] is the argument [uuid]. *)
Definition write (r : SyncReplica) (f : SyncFieldId) (v : Value) (uuid : bytes) : result SyncReplica SyncError :=
  let d := digest (value_bytes v) in
  doc <-? ok_or (put (document r) (key f) (d ++ bs "/" ++ uuid)) InvalidReplica;
  Ok (mkReplica doc (<[d := v]> (values r)) (fixed r)).

Definition delete_field (r : SyncReplica) (f : SyncFieldId) (uuid : bytes) : result SyncReplica SyncError :=
  doc <-? ok_or (put (document r) (key f) (deleted_mark ++ bs "/" ++ uuid)) InvalidReplica;
  Ok (mkReplica doc (values r) (fixed r)).

Definition resolve (r : SyncReplica) (conflict : SyncConflict) (c : SyncCandidate) (includes : bytes -> bool) (uuid : bytes)
    : result SyncReplica SyncError :=
  let f := conflict_field conflict in
  if negb (includes (kind (resource f))) || (fixed r && negb (fixed_cloud_sync_field f))
     || negb (supports_field (kind (resource f)) (field f))
  then Err Excluded
  else
    cs <-? candidates r f;
    if negb (bool_decide (cs = conflict_candidates conflict)) || negb (bool_decide (c ∈ conflict_candidates conflict)) then Err StaleConflict
    else if bool_decide (cvalue c = deleted_mark) then delete_field r f uuid
    else v <-? candidate_value r c; write r f v uuid.

(** ** Snapshots and merging *)

Record ReplicaSnapshot := mkReplicaSnapshot { schema : Z; snap_document : bytes; snap_values : gmap bytes Value }.

Definition load (s : ReplicaSnapshot) : result SyncReplica SyncError :=
  if negb ((schema s =? 4) || (schema s =? 5))%Z then Err InvalidReplica
  else
    doc <-? ok_or (doc_load (snap_document s)) InvalidReplica;
    let r := mkReplica doc (snap_values s) (schema s =? 5)%Z in
    _ <-? validate r; Ok r.

Definition snapshot (r : SyncReplica) : ReplicaSnapshot :=
  mkReplicaSnapshot (if fixed r then 5 else 4)%Z (doc_save (document r)) (values r).

(** Which values may be published under a field is a further parameter. *)
Section FixedSnapshot.
Context (valid_fixed_value : SyncFieldId -> Json -> bool).

Fixpoint fixed_candidates (r : SyncReplica) (f : SyncFieldId) (cs : list SyncCandidate) (acc : gmap bytes Value)
    : result (gmap bytes Value) SyncError :=
  match cs with
  | [] => Ok acc
  | c :: cs' =>
    if bool_decide (cvalue c = deleted_mark) then fixed_candidates r f cs' acc
    else
      v <-? candidate_value r c;
      j <-? ok_or (decode v) InvalidReplica;
      if negb (valid_fixed_value f j) then Err InvalidReplica
      else fixed_candidates r f cs' (<[cvalue c := v]> acc)
  end.

Fixpoint fixed_values (r : SyncReplica) (fs : list SyncFieldId) (acc : gmap bytes Value) : result (gmap bytes Value) SyncError :=
  match fs with
  | [] => Ok acc
  | f :: fs' =>
    if negb (fixed_cloud_sync_field f) then fixed_values r fs' acc
    else cs <-? candidates r f; acc' <-? fixed_candidates r f cs acc; fixed_values r fs' acc'
  end.

Definition fixed_snapshot (r : SyncReplica) : result ReplicaSnapshot SyncError :=
  fs <-? fields r;
  vs <-? fixed_values r fs ∅;
  let s := mkReplicaSnapshot 5 (doc_save (document r)) vs in
  _ <-? load s; Ok s.

End FixedSnapshot.

Definition merge (r : SyncReplica) (s : ReplicaSnapshot) : result SyncReplica SyncError :=
  remote <-? load s;
  if negb (forallb (fun kv : bytes * Value => match values r !! kv.1 with Some v => bool_decide (v = kv.2) | None => true end)
             (map_to_list (values remote)))
  then Err InvalidReplica
  else
    doc <-? ok_or (doc_merge (document r) (document remote)) InvalidReplica;
    let r' := mkReplica doc (values remote ∪ values r) (fixed r || fixed remote) in
    _ <-? validate r'; Ok r'.

(** ** Capturing local edits *)

(** [SyncValue::new(&Value::Bool(b))]. *)
Section Capture.
Context (bool_value : bool -> Value).

Record SyncProjection := mkProjection { pvalues : gmap bytes Value; complete : list bytes; edited : list SyncFieldId }.

(** Writes in a row, [None] for a deletion; the [n]-th takes the [n]-th fresh UUID. *)
Fixpoint write_all (uuids : nat -> bytes) (n : nat) (r : SyncReplica) (ws : list (SyncFieldId * option Value)) : result SyncReplica SyncError :=
  match ws with
  | [] => Ok r
  | (f, o) :: ws' =>
    r' <-? match o with Some v => write r f v (uuids n) | None => delete_field r f (uuids n) end;
    write_all uuids (S n) r' ws'
  end.

Definition in_scope (r : SyncReplica) (includes : bytes -> bool) (f : SyncFieldId) : bool :=
  includes (kind (resource f)) && negb (fixed r && negb (fixed_cloud_sync_field f)).

(** The condition of the first loop: a resource that a complete reading no longer has. *)
Definition is_removed (r : SyncReplica) (baseline : SyncValues) (current : SyncProjection) (includes : bytes -> bool) (f : SyncFieldId) : bool :=
  bool_decide (field f = present) && in_scope r includes f && bool_decide (kind (resource f) ∈ complete current)
  && bool_decide (is_Some (baseline !! key f)) && negb (bool_decide (is_Some (pvalues current !! key f))).

(** The condition of the second loop. *)
Definition is_edited (r : SyncReplica) (baseline : SyncValues) (current : SyncProjection) (includes : bytes -> bool)
    (removed : list SyncResourceId) (f : SyncFieldId) : bool :=
  in_scope r includes f && supports_field (kind (resource f)) (field f)
  && (bool_decide (kind (resource f) ∈ complete current) || bool_decide (is_Some (pvalues current !! key f)))
  && negb (bool_decide (resource f ∈ removed))
  && (negb (bool_decide (baseline !! key f = pvalues current !! key f)) || bool_decide (f ∈ edited current)).

(** A field of the old state or of the new one. *)
Definition touched (baseline : SyncValues) (current : SyncProjection) (f : SyncFieldId) : Prop :=
  is_Some (baseline !! key f) \/ is_Some (pvalues current !! key f).

(** The three loops read the keys in order and write as they go; no condition depends on
    what was written. An error drops the replica. *)
Definition capture (uuids : nat -> bytes) (r : SyncReplica) (baseline : SyncValues) (current : SyncProjection) (includes : bytes -> bool)
    : result (SyncReplica * bool) SyncError :=
  if bool_decide (edited current = []) && bool_decide (baseline = pvalues current) then Ok (r, false)
  else
    let keys := dedup (sort_by (cmp_le str_cmp) ((map_to_list baseline).*1 ++ (map_to_list (pvalues current)).*1)) in
    fs <-? collect (fun k => ok_or (from_key k) InvalidReplica) keys;
    let removals := filter (fun f => is_removed r baseline current includes f = true) fs in
    let removed := resource <$> removals in
    let edits := filter (fun f => is_edited r baseline current includes removed f = true) fs in
    let changed := dedup (sort_by (cmp_le resource_cmp) (resource <$> edits)) in
    r1 <-? write_all uuids 0 r ((fun f => (f, Some (bool_value false))) <$> removals);
    r2 <-? write_all uuids (length removals) r1 ((fun f => (f, pvalues current !! key f)) <$> edits);
    r3 <-? write_all uuids (length removals + length edits) r2 ((fun res => (mkField res present, Some (bool_value true))) <$> changed);
    Ok (r3, negb (bool_decide (changed = [])) || negb (bool_decide (removed = []))).
End Capture.

(** ** Lemmas on the readers *)

Lemma collect_Ok {A B} (g : A -> result B SyncError) l bs' : collect g l = Ok bs' <-> Forall2 (fun a b => g a = Ok b) l bs'.
Proof.
  revert bs'. induction l as [|a l IH]; intros bs'; cbn [collect].
  - split; [intros [= <-]; constructor|]. by inversion 1.
  - destruct (g a) as [b|e] eqn:E; cbn [rbind].
    + destruct (collect g l) as [bs0|e'] eqn:E'; cbn [rbind].
      * split; [intros [= <-]; constructor; [done|]; by apply IH|]. inversion 1; subst.
        match goal with H1 : g a = Ok ?y, H2 : Forall2 _ l ?k |- _ => apply IH in H2; congruence end.
      * split; [done|]. inversion 1; subst. match goal with H2 : Forall2 _ l ?k |- _ => apply IH in H2; congruence end.
    + split; [done|]. inversion 1; congruence.
Qed.

Lemma collect_total {A B} (g : A -> result B SyncError) l : (forall a, a ∈ l -> exists b, g a = Ok b) -> exists bs', collect g l = Ok bs'.
Proof.
  induction l as [|a l IH]; intros Hall; cbn [collect]; [by eexists|]. destruct (Hall a) as [b ->]; [set_solver|].
  destruct IH as [bs' ->]; [intros; apply Hall; set_solver|]. cbn [rbind]. by eexists.
Qed.

Lemma collect_elem {A B} (g : A -> result B SyncError) l bs' a : collect g l = Ok bs' -> a ∈ l -> exists b, g a = Ok b /\ b ∈ bs'.
Proof.
  rewrite collect_Ok. intros Hf Ha. apply list_elem_of_lookup in Ha as [i Hi].
  destruct (Forall2_lookup_l _ _ _ _ _ Hf Hi) as (b & Hb & E). exists b. split; [done|]. by eapply list_elem_of_lookup_2.
Qed.

Lemma collect_elem_inv {A B} (g : A -> result B SyncError) l bs' b : collect g l = Ok bs' -> b ∈ bs' -> exists a, g a = Ok b /\ a ∈ l.
Proof.
  rewrite collect_Ok. intros Hf Hb. apply list_elem_of_lookup in Hb as [i Hi].
  destruct (Forall2_lookup_r _ _ _ _ _ Hf Hi) as (a & Ha & E). exists a. split; [done|]. by eapply list_elem_of_lookup_2.
Qed.

(** A candidate of a field is a deletion or refers to a value the replica has, except for
    fields outside the scope of a fixed replica. *)
Lemma candidates_value r f cs c :
  candidates r f = Ok cs -> c ∈ cs -> cvalue c <> deleted_mark -> fixed r = false \/ fixed_cloud_sync_field f = true ->
  exists v, values r !! cvalue c = Some v.
Proof.
  unfold candidates. destruct (collect _ _) as [cs0|] eqn:E; cbn [rbind]; [|done]. intros [= <-]. rewrite sort_by_perm. intros Hc Hd Hf.
  destruct (collect_elem_inv _ _ _ _ E Hc) as (e & He & _). unfold candidate in He. destruct (ok_or e.1 _) as [rf|]; cbn [rbind] in He; [|done].
  destruct (ok_or (split_once 47 rf) _) as [di|]; cbn [rbind] in He; [|done]. destruct (negb (uuid_ok di.2)); [done|].
  destruct (_ && _) eqn:E1 in He; [done|]. destruct (_ && _ && _) eqn:E2 in He; [done|]. injection He as <-. cbn [cvalue] in *.
  rewrite (bool_decide_false (di.1 = deleted_mark)) in E2 by done. cbn [negb andb] in E2. apply andb_false_iff in E2 as [E2|E2].
  - apply negb_false_iff, bool_decide_eq_true in E2. done.
  - apply orb_false_iff in E2 as [E2 E3]. apply negb_false_iff in E2. destruct Hf; congruence.
Qed.

(** ** Registers *)

Definition register (regs : gmap SyncResourceId (gmap bytes (list SyncCandidate))) (f : SyncFieldId) : option (list SyncCandidate) :=
  fs ← regs !! resource f; fs !! field f.

Lemma registers_loop_spec r fs acc regs :
  registers_loop r fs acc = Ok regs ->
  forall f, match register regs f with
            | Some cs => (f ∈ fs /\ candidates r f = Ok cs) \/ (f ∉ fs /\ register acc f = Some cs)
            | None => f ∉ fs /\ register acc f = None
            end.
Proof.
  revert acc. induction fs as [|g fs IH]; intros acc; cbn [registers_loop].
  { intros [= <-] f. destruct (register acc f); [right|]; split; (done || set_solver). }
  destruct (candidates r g) as [cs|] eqn:Eg; cbn [rbind]; [|done]. intros Hl f. specialize (IH _ Hl f).
  set (acc' := <[resource g := <[field g := cs]> (default ∅ (acc !! resource g))]> acc) in *.
  assert (Hreg : register acc' f = if decide (f = g) then Some cs else register acc f).
  { unfold register, acc'. destruct (decide (f = g)) as [->|Hne].
    - rewrite lookup_insert_eq. cbn. by rewrite lookup_insert_eq.
    - destruct (decide (resource f = resource g)) as [Hr|Hr].
      + rewrite Hr, lookup_insert_eq. cbn. rewrite lookup_insert_ne by (intros Hf; apply Hne; destruct f, g; cbn in *; congruence).
        destruct (acc !! resource g); [done|]. cbn. by rewrite lookup_empty.
      + by rewrite lookup_insert_ne. }
  rewrite Hreg in IH. destruct (register regs f) as [cs'|].
  - destruct IH as [[Hin Hc]|[Hn Hc]]; [left; split; [set_solver|done]|]. destruct (decide (f = g)) as [->|].
    + injection Hc as ->. left. split; [set_solver|done].
    + right. split; [set_solver|done].
  - destruct IH as [Hn Hc]. destruct (decide (f = g)); [done|]. split; [set_solver|done].
Qed.

(** A register holds the candidates of its field. *)
Lemma registers_register r regs f cs : registers r = Ok regs -> register regs f = Some cs -> candidates r f = Ok cs.
Proof.
  unfold registers. destruct (fields r) as [fs|]; cbn [rbind]; [|done]. intros Hl Hr.
  pose proof (registers_loop_spec r fs ∅ regs Hl f) as Hs. rewrite Hr in Hs. destruct Hs as [[_ Hc]|[_ Hc]]; [done|].
  unfold register in Hc. by rewrite lookup_empty in Hc.
Qed.

(** ** What materialising gives a field *)

(** The resource exists without doubt, or without doubt not. *)
Definition presence_doubtful (fs : gmap bytes (list SyncCandidate)) : bool :=
  match fs !! present with Some ps => 1 <? distinct ps | None => true end.
Definition presence_false (r : SyncReplica) (fs : gmap bytes (list SyncCandidate)) : bool :=
  match fs !! present with Some ps => match boolean r ps with Ok (Some false) => true | _ => false end | None => false end.

(** The value a register gives its field: the only candidate, unless there are several. *)
Definition register_value (r : SyncReplica) (cs : option (list SyncCandidate)) (current : option Value) : option Value :=
  match cs with
  | Some cs =>
    match (if distinct cs =? 1 then head cs else None) with
    | Some c => if bool_decide (cvalue c = deleted_mark) then None else values r !! cvalue c
    | None => current
    end
  | None => current
  end.

(** The effective value of one field, without the loops. *)
Definition effective_value (r : SyncReplica) (includes : bytes -> bool) (local : SyncValues) (blocked_new : list SyncResourceId)
    (regs : gmap SyncResourceId (gmap bytes (list SyncCandidate))) (f : SyncFieldId) : option Value :=
  let res := resource f in
  let current := local !! key f in
  match regs !! res with
  | None => current
  | Some fs =>
    if negb (includes (kind res)) || out_of_fixed r res || presence_doubtful fs then current
    else if presence_false r fs then None
    else if bool_decide (local !! key (mkField res present) = None) && bool_decide (res ∈ blocked_new) then current
    else if supports_field (kind res) (field f) then register_value r (fs !! field f) current else current
  end.

Section Materialize.
Context (json_roundtrip : forall f, json_from_str (json_to_string f) = Some f).

Lemma key_inj f g : key f = key g -> f = g.
Proof. intros Hk. pose proof (json_roundtrip f) as H1. rewrite Hk, json_roundtrip in H1. by injection H1. Qed.

(** Every supported register of the resource has its value. *)
Definition fields_ok (r : SyncReplica) (res : SyncResourceId) (fs : list (bytes * list SyncCandidate)) : Prop :=
  forall name cs c, (name, cs) ∈ fs -> supports_field (kind res) name = true -> c ∈ cs -> cvalue c <> deleted_mark ->
    exists v, values r !! cvalue c = Some v.

Lemma apply_fields_spec r res fs m :
  NoDup fs.*1 -> fields_ok r res fs ->
  exists m', apply_fields r res fs m = Ok m' /\ forall f, m' !! key f =
    if decide (resource f = res) then
      if supports_field (kind res) (field f)
      then register_value r ((list_to_map fs : gmap bytes (list SyncCandidate)) !! field f) (m !! key f) else m !! key f
    else m !! key f.
Proof.
  revert m. induction fs as [|[name cs] fs IH]; intros m Hnd Hok; cbn [apply_fields].
  { exists m. split; [done|]. intros f. cbn. rewrite lookup_empty. cbn. by repeat case_match. }
  cbn in Hnd. apply NoDup_cons in Hnd as [Hn Hnd].
  assert (Hok' : fields_ok r res fs) by (intros n c1 c Hin; apply (Hok n c1 c); set_solver).
  assert (Hnone : (list_to_map fs : gmap bytes (list SyncCandidate)) !! name = None) by (by apply not_elem_of_list_to_map_1).
  (* the value of the register under [name], then the others *)
  assert (Hgo : forall m1, (forall f, m1 !! key f = if decide (f = mkField res name) then
      (if supports_field (kind res) name then register_value r (Some cs) (m !! key f) else m !! key f) else m !! key f) ->
    exists m', apply_fields r res fs m1 = Ok m' /\ forall f, m' !! key f =
      if decide (resource f = res) then
        if supports_field (kind res) (field f)
        then register_value r ((list_to_map ((name, cs) :: fs) : gmap bytes (list SyncCandidate)) !! field f) (m !! key f) else m !! key f
      else m !! key f).
  { intros m1 Hm1. destruct (IH m1 Hnd Hok') as (m' & E & Hm'). exists m'. split; [done|]. intros f. rewrite Hm', Hm1. cbn [list_to_map foldr uncurry fst snd].
    destruct (decide (resource f = res)) as [Hr|Hr]; [|destruct (decide (f = mkField res name)) as [->|]; [by destruct Hr|done]].
    destruct (decide (f = mkField res name)) as [->|Hne]; cbn [field].
    - rewrite lookup_insert_eq, Hnone. cbn [register_value]. by destruct (supports_field (kind res) name).
    - rewrite lookup_insert_ne; [done|]. intros Hf. apply Hne. destruct f; cbn in *; congruence. }
  destruct (supports_field (kind res) name) eqn:Es; cbn [negb].
  2:{ apply Hgo. intros f. by case_match. }
  destruct (if distinct cs =? 1 then head cs else None) as [c|] eqn:Ec.
  2:{ apply Hgo. intros f. unfold register_value. rewrite Ec. by destruct (decide (f = mkField res name)). }
  assert (Hc : c ∈ cs) by (destruct (distinct cs =? 1); [|done]; destruct cs; [done|]; injection Ec as ->; set_solver).
  case_bool_decide as Hd.
  - apply Hgo. intros f. cbn [register_value]. rewrite Ec, bool_decide_true by done. destruct (decide (f = mkField res name)) as [->|Hne].
    + by rewrite lookup_delete_eq.
    + rewrite lookup_delete_ne; [done|]. intros E. apply Hne. symmetry. by apply key_inj.
  - destruct (Hok name cs c ltac:(set_solver) Es Hc Hd) as [v Hv]. unfold candidate_value. rewrite Hv. cbn [ok_or rbind]. apply Hgo. intros f.
    cbn [register_value]. rewrite Ec, bool_decide_false by done. destruct (decide (f = mkField res name)) as [->|Hne].
    + by rewrite lookup_insert_eq, Hv.
    + rewrite lookup_insert_ne; [done|]. intros E. apply Hne. symmetry. by apply key_inj.
Qed.

(** What validation establishes of the registers of a resource. *)
Definition resource_ok (r : SyncReplica) (rf : SyncResourceId * gmap bytes (list SyncCandidate)) : Prop :=
  out_of_fixed r rf.1 = false ->
  fields_ok r rf.1 (map_to_list rf.2)
  /\ exists c cs b, rf.2 !! present = Some (c :: cs) /\ candidate_bool r c = Ok b.

Lemma map_to_list_self (fs : gmap bytes (list SyncCandidate)) : (list_to_map (map_to_list fs) : gmap bytes (list SyncCandidate)) = fs.
Proof. apply list_to_map_to_list. Qed.

(** The loops compute [effective_value] for the resources they have passed. *)
Lemma materialize_loop_spec r includes local blocked rs m deleted :
  NoDup rs.*1 -> Forall (resource_ok r) rs ->
  (forall f, resource f ∈ rs.*1 -> m !! key f = local !! key f) ->
  (forall res, res ∈ deleted -> res ∉ rs.*1) ->
  exists m' deleted', materialize_loop r includes local blocked rs m deleted = Ok (m', deleted')
    /\ (forall f, resource f ∉ rs.*1 -> m' !! key f = m !! key f /\ (resource f ∈ deleted' <-> resource f ∈ deleted))
    /\ (forall f, resource f ∈ rs.*1 ->
          (if bool_decide (resource f ∈ deleted') then None else m' !! key f)
          = effective_value r includes local blocked (list_to_map rs) f).
Proof.
  revert m deleted. induction rs as [|[res fs] rs IH]; intros m deleted Hnd Hok Hm Hdel; cbn [materialize_loop].
  { exists m, deleted. split; [done|]. split; [done|]. intros f Hf. set_solver. }
  cbn [fmap list_fmap fst] in *. apply NoDup_cons in Hnd as [Hn Hnd]. apply Forall_cons in Hok as [Hro Hok].
  assert (Hlook : forall f, resource f ∈ rs.*1 -> effective_value r includes local blocked (list_to_map ((res, fs) :: rs)) f
    = effective_value r includes local blocked (list_to_map rs) f).
  { intros f Hf. unfold effective_value. cbn [list_to_map foldr uncurry fst snd]. rewrite lookup_insert_ne; [done|]. intros E. by rewrite E in Hn. }
  (* continue with [m1] and [d1], which settle the resource [res] *)
  assert (Hgo : forall m1 d1,
    (forall f, resource f <> res -> m1 !! key f = m !! key f) -> (forall x, x <> res -> (x ∈ d1 <-> x ∈ deleted)) ->
    (forall f, resource f = res -> (if bool_decide (res ∈ d1) then None else m1 !! key f)
      = effective_value r includes local blocked (list_to_map ((res, fs) :: rs)) f) ->
    exists m' deleted', materialize_loop r includes local blocked rs m1 d1 = Ok (m', deleted')
      /\ (forall f, resource f ∉ res :: rs.*1 -> m' !! key f = m !! key f /\ (resource f ∈ deleted' <-> resource f ∈ deleted))
      /\ (forall f, resource f ∈ res :: rs.*1 -> (if bool_decide (resource f ∈ deleted') then None else m' !! key f)
            = effective_value r includes local blocked (list_to_map ((res, fs) :: rs)) f)).
  { intros m1 d1 Hm1 Hd1 Hres. destruct (IH m1 d1 Hnd Hok) as (m' & d' & E & H1 & H2).
    - intros f Hf. rewrite Hm1 by (intros E; by rewrite E in Hf). apply Hm. set_solver.
    - intros x Hx Hxs. assert (x <> res) as Hxr by (intros ->; done). apply Hd1 in Hx; [|done]. apply Hdel in Hx. set_solver.
    - exists m', d'. split; [done|]. split.
      + intros f Hf. assert (Hfr : resource f <> res) by set_solver. destruct (H1 f) as [A B]; [set_solver|].
        rewrite A, (Hm1 f Hfr), B. split; [done|]. by apply Hd1.
      + intros f Hf. destruct (decide (resource f = res)) as [Hr|Hr].
        * destruct (H1 f) as [A B]; [by rewrite Hr|]. rewrite A, Hr in *. rewrite <- (Hres f Hr).
          by rewrite (bool_decide_ext _ _ B).
        * rewrite Hlook by set_solver. apply H2. set_solver. }
  assert (Hnd1 : res ∉ deleted) by (intros Hd; apply Hdel in Hd; set_solver).
  assert (Hcur : forall f, resource f = res -> m !! key f = local !! key f) by (intros f Hf; apply Hm; set_solver).
  assert (Heff : forall f, resource f = res -> effective_value r includes local blocked (list_to_map ((res, fs) :: rs)) f =
    if negb (includes (kind res)) || out_of_fixed r res || presence_doubtful fs then local !! key f
    else if presence_false r fs then None
    else if bool_decide (local !! key (mkField res present) = None) && bool_decide (res ∈ blocked) then local !! key f
    else if supports_field (kind res) (field f) then register_value r (fs !! field f) (local !! key f) else local !! key f).
  { intros f Hf. unfold effective_value. cbn [list_to_map foldr uncurry fst snd]. by rewrite Hf, lookup_insert_eq. }
  (* settling [res] with its local values *)
  assert (Hkeep : (forall f, resource f = res -> effective_value r includes local blocked (list_to_map ((res, fs) :: rs)) f = local !! key f) ->
    exists m' deleted', materialize_loop r includes local blocked rs m deleted = Ok (m', deleted')
      /\ (forall f, resource f ∉ res :: rs.*1 -> m' !! key f = m !! key f /\ (resource f ∈ deleted' <-> resource f ∈ deleted))
      /\ (forall f, resource f ∈ res :: rs.*1 -> (if bool_decide (resource f ∈ deleted') then None else m' !! key f)
            = effective_value r includes local blocked (list_to_map ((res, fs) :: rs)) f)).
  { intros He. apply Hgo; [done|done|]. intros f Hf. rewrite bool_decide_false by done. rewrite (He f Hf). by apply Hcur. }
  destruct (negb (includes (kind res)) || out_of_fixed r res) eqn:E1.
  { apply Hkeep. intros f Hf. by rewrite (Heff f Hf). }
  apply orb_false_iff in E1 as [Ei Eo]. destruct (Hro Eo) as (Hfo & c & cs & b & Hp & Hb). cbn [fst snd] in Hp, Hfo. rewrite Hp. cbn [ok_or rbind].
  assert (Hdoubt : presence_doubtful fs = (1 <? distinct (c :: cs))) by (unfold presence_doubtful; by rewrite Hp).
  assert (Hfalse : presence_false r fs = negb b) by (unfold presence_false; rewrite Hp; cbn; rewrite Hb; by destruct b).
  destruct (1 <? distinct (c :: cs)) eqn:E2.
  { apply Hkeep. intros f Hf. by rewrite (Heff f Hf), Hdoubt, orb_true_r. }
  cbn [boolean]. rewrite Hb. cbn [rbind]. destruct b; cycle 1.
  { rewrite bool_decide_true by done. apply Hgo; [done|set_solver|]. intros f Hf. rewrite bool_decide_true by set_solver.
    by rewrite (Heff f Hf), Hdoubt, Hfalse. }
  rewrite bool_decide_false by done. destruct (_ && _) eqn:E3.
  { apply Hkeep. intros f Hf. by rewrite (Heff f Hf), Hdoubt, Hfalse. }
  destruct (apply_fields_spec r res (map_to_list fs) m) as (m1 & E4 & Hm1); [apply NoDup_fst_map_to_list|done|]. rewrite E4. cbn [rbind].
  apply Hgo; [|done|].
  - intros f Hf. rewrite Hm1. by destruct (decide (resource f = res)).
  - intros f Hf. rewrite bool_decide_false by done. rewrite Hm1, (Heff f Hf), Hdoubt, Hfalse, map_to_list_self.
    destruct (decide (resource f = res)); [|done]. by rewrite (Hcur f Hf).
Qed.

Lemma validate_ok r :
  validate r = Ok tt -> exists regs, registers r = Ok regs /\ Forall (resource_ok r) (map_to_list regs).
Proof.
  unfold validate. destruct (negb _); [done|]. destruct (registers r) as [regs|] eqn:Er; cbn [rbind]; [|done].
  destruct (collect (validate_resource r) (map_to_list regs)) as [us|] eqn:Ec; cbn [rbind]; [|done]. intros _.
  exists regs. split; [done|]. apply Forall_forall. intros [res fs] Hin Ho. cbn [fst snd] in *. split.
  - intros name cs c Hn Hs Hc Hd. apply elem_of_map_to_list in Hin. apply elem_of_map_to_list in Hn.
    assert (Hreg : register regs (mkField res name) = Some cs) by (unfold register; cbn; by rewrite Hin).
    apply (candidates_value r (mkField res name) cs c); [by eapply registers_register|done|done|].
    unfold out_of_fixed in Ho. destruct (fixed r); [right|by left]. cbn [andb] in Ho. apply negb_false_iff in Ho.
    unfold fixed_cloud_sync_field in *. cbn [resource field] in *. apply andb_true_iff in Ho as [-> _]. by rewrite Hs.
  - destruct (collect_elem _ _ _ _ Ec Hin) as (u & Hu & _). unfold validate_resource in Hu. cbn [fst snd] in Hu. rewrite Ho in Hu.
    destruct (fs !! present) as [[|c cs]|] eqn:Ep; cbn [ok_or rbind] in Hu; [done| |done].
    destruct (collect (candidate_bool r) (c :: cs)) as [bs'|] eqn:Eb; cbn [rbind] in Hu; [|done].
    destruct (collect_elem _ _ _ c Eb) as (b & Hb & _); [set_solver|]. by exists c, cs, b.
Qed.

Lemma conflicts_total r regs : Forall (resource_ok r) (map_to_list regs) -> exists cs, conflicts_from r regs = Ok cs.
Proof.
  intros Hok. unfold conflicts_from. destruct (collect_total (resource_conflicts r) (map_to_list regs)) as [css ->]; [|by eexists].
  intros [res fs] Hin. rewrite Forall_forall in Hok. specialize (Hok _ Hin). unfold resource_ok in Hok. unfold resource_conflicts. cbn [fst snd] in *.
  destruct (out_of_fixed r res); [by eexists|]. destruct (Hok eq_refl) as (_ & c & cs & b & -> & Hb). cbn [ok_or rbind].
  destruct (1 <? distinct (c :: cs)); cbn [rbind]; [by eexists|]. cbn [boolean]. rewrite Hb. cbn [rbind]. by eexists.
Qed.

(** What a listed conflict says. *)
Lemma conflict_inv r regs cs c :
  conflicts_from r regs = Ok cs -> c ∈ cs ->
  exists fs, regs !! resource (conflict_field c) = Some fs /\ out_of_fixed r (resource (conflict_field c)) = false
    /\ fs !! field (conflict_field c) = Some (conflict_candidates c) /\ 1 < distinct (conflict_candidates c)
    /\ (field (conflict_field c) <> present -> presence_doubtful fs = false /\ presence_false r fs = false).
Proof.
  unfold conflicts_from. destruct (collect _ _) as [css|] eqn:E; cbn [rbind]; [|done]. intros [= <-]. rewrite sort_by_perm. intros Hc.
  apply elem_of_concat in Hc as (l & Hl & Hc). destruct (collect_elem_inv _ _ _ _ E Hl) as ([res fs] & Hg & Hin).
  apply elem_of_map_to_list in Hin. unfold resource_conflicts in Hg. cbn [fst snd] in Hg.
  destruct (out_of_fixed r res) eqn:Eo; [injection Hg as <-; set_solver|].
  destruct (fs !! present) as [ps|] eqn:Ep; cbn [ok_or rbind] in Hg; [|done].
  destruct (if 1 <? distinct ps then _ else _) as [hidden|] eqn:Eh; cbn [rbind] in Hg; [|done]. injection Hg as <-.
  apply list_elem_of_omap in Hc as ([name cands] & Hn & Hc). cbn [fst snd] in Hc. apply elem_of_map_to_list in Hn.
  destruct (fixed r && _); [done|]. destruct (negb (bool_decide (name = present)) && hidden) eqn:Ehid; [done|].
  destruct (1 <? distinct cands) eqn:Ed; [|done]. injection Hc as <-. cbn [conflict_field conflict_candidates resource field]. bool_hyps.
  exists fs. split_and!; try done. intros Hne. rewrite (bool_decide_false (name = present)) in Ehid by done. cbn [negb andb] in Ehid. subst hidden.
  unfold presence_doubtful, presence_false. rewrite Ep. destruct (1 <? distinct ps) eqn:E1; [done|]. split; [done|].
  destruct (boolean r ps) as [b|]; [|done]. cbn [rbind] in Eh. injection Eh as Eh. apply bool_decide_eq_false in Eh. by destruct b as [[]|].
Qed.

(** The resources with a conflict in a supported field. *)
Definition blocked_resources (cs : list SyncConflict) : list SyncResourceId :=
  resource <$> filter (fun f => supports_field (kind (resource f)) (field f) = true) (conflict_field <$> cs).

Lemma materialize_ok r local includes :
  validate r = Ok tt ->
  exists regs cs m, registers r = Ok regs /\ conflicts_from r regs = Ok cs /\ materialize r local includes = Ok m
    /\ forall f, from_key (key f) = Some f -> m !! key f = effective_value r includes local (blocked_resources cs) regs f.
Proof.
  intros Hv. destruct (validate_ok r Hv) as (regs & Er & Hok). destruct (conflicts_total r regs Hok) as (cs & Ec).
  unfold materialize. rewrite Er. cbn [rbind]. unfold materialize_from. rewrite Ec. cbn [rbind]. fold (blocked_resources cs).
  destruct (materialize_loop_spec r includes local (blocked_resources cs) (map_to_list regs) local []) as (m' & d' & El & H1 & H2);
    [apply NoDup_fst_map_to_list|done|done|set_solver|].
  rewrite El. cbn [rbind fst snd]. eexists regs, cs, _. split_and!; [done..|]. intros f Hf.
  assert (Hfil : filter (fun kv : bytes * Value => keep d' kv.1 = true) m' !! key f = if bool_decide (resource f ∈ d') then None else m' !! key f).
  { rewrite map_lookup_filter. destruct (m' !! key f) as [v|]; cbn; [|by case_bool_decide]. unfold keep. rewrite Hf.
    case_bool_decide; cbn; by rewrite ?option_guard_True, ?option_guard_False by done. }
  rewrite Hfil. destruct (decide (resource f ∈ (map_to_list regs).*1)) as [Hin|Hout].
  - rewrite (H2 f Hin). by rewrite list_to_map_to_list.
  - destruct (H1 f Hout) as [-> Hd]. rewrite bool_decide_false by set_solver. unfold effective_value.
    assert (regs !! resource f = None) as ->; [|done]. destruct (regs !! resource f) as [fs|] eqn:E; [|done]. exfalso. apply Hout.
    apply list_elem_of_fmap. exists (resource f, fs). split; [done|]. by apply elem_of_map_to_list.
Qed.

(** What a device shows after a sync. For a valid replica materialising returns, and
    every field has exactly its effective value: the local one when its kind is out of
    scope, its resource unknown or of doubtful existence, or new and in conflict; nothing
    when the resource is gone; else the value of its register, when the field is supported
    and all candidates agree (nothing, if they agree on deletion). *)
Theorem materialize_effective r local includes :
  validate r = Ok tt ->
  exists regs cs m, registers r = Ok regs /\ conflicts r = Ok cs /\ materialize r local includes = Ok m
    /\ forall f, from_key (key f) = Some f -> m !! key f = effective_value r includes local (blocked_resources cs) regs f.
Proof.
  intros Hv. destruct (materialize_ok r local includes Hv) as (regs & cs & m & Er & Ec & Em & Hm). exists regs, cs, m.
  split_and!; try done. unfold conflicts. by rewrite Er.
Qed.

(** A field in conflict, or of a resource whose existence is, has its local value. *)
Lemma effective_conflict r local includes regs cs c f :
  conflicts_from r regs = Ok cs -> c ∈ cs -> conflict_field c = f \/ conflict_field c = presence (resource f) ->
  effective_value r includes local (blocked_resources cs) regs f = local !! key f.
Proof.
  intros Ec Hc Hcf. destruct (conflict_inv r regs cs c Ec Hc) as (fs & Hfs & Ho & Hcand & Hd & Hvis).
  assert (Hres : resource (conflict_field c) = resource f) by (by destruct Hcf as [->| ->]). rewrite Hres in *. unfold effective_value. rewrite Hfs, Ho.
  destruct (decide (field (conflict_field c) = present)) as [Hp|Hnp].
  - assert (presence_doubtful fs = true) as ->; [|by rewrite orb_true_r]. unfold presence_doubtful. rewrite <- Hp, Hcand. by apply Nat.ltb_lt.
  - destruct (Hvis Hnp) as [-> ->]. rewrite !orb_false_r. destruct Hcf as [<-|Hcf]; [|by rewrite Hcf in Hnp].
    destruct (negb (includes _)); [done|]. destruct (_ && _); [done|]. destruct (supports_field _ _); [|done].
    unfold register_value. rewrite Hcand. by rewrite (proj2 (Nat.eqb_neq (distinct _) 1)) by lia.
Qed.

(** A conflict never costs local data. Whatever conflicts a valid replica reports,
    materialising keeps the local value of every conflicting field, and of all the fields
    of a resource whose existence is in conflict. *)
Theorem materialize_keeps_conflicts r local includes :
  validate r = Ok tt ->
  exists cs m, conflicts r = Ok cs /\ materialize r local includes = Ok m
    /\ forall c f, c ∈ cs -> from_key (key f) = Some f ->
         conflict_field c = f \/ conflict_field c = presence (resource f) -> m !! key f = local !! key f.
Proof.
  intros Hv. destruct (materialize_ok r local includes Hv) as (regs & cs & m & Er & Ec & Em & Hm). exists cs, m.
  split; [unfold conflicts; by rewrite Er|]. split; [done|]. intros c f Hc Hf Hcf. rewrite (Hm f Hf). by apply (effective_conflict r local includes regs cs c f).
Qed.

End Materialize.

(** ** Resolving a conflict *)

Section Resolve.
Context `{!AutoDocLaws Doc}.
Context (json_roundtrip : forall f, json_from_str (json_to_string f) = Some f).
Context (digest_hex : forall b, length (digest b) = 64 /\ forallb hash_byte (digest b) = true).

Lemma hash_no_slash d : forallb hash_byte d = true -> Forall (fun b => b <> 47%Z) d.
Proof.
  intros Hd. apply Forall_forall. intros b Hb. rewrite forallb_forall in Hd. specialize (Hd b). rewrite <- list_elem_of_In in Hd.
  specialize (Hd Hb). intros ->. done.
Qed.

(** The candidates a replica reads depend on the document at the key, its values and its
    scope only. *)
Lemma candidates_ext r r' f :
  get_all (document r') (key f) = get_all (document r) (key f) -> values r' = values r -> fixed r' = fixed r ->
  candidates r' f = candidates r f.
Proof. intros H1 H2 H3. unfold candidates. rewrite H1. assert (candidate r' f = candidate r f) as ->; [|done]. unfold candidate. by rewrite H2, H3. Qed.

(** After a write of a value or a deletion, the register has it as its only candidate. *)
Lemma put_candidates r r' f mark uuid :
  put (document r) (key f) (mark ++ bs "/" ++ uuid) = Some (document r') -> uuid_ok uuid = true ->
  mark = deleted_mark \/ (length mark = 64 /\ forallb hash_byte mark = true /\ is_Some (values r' !! mark)) ->
  exists op, candidates r' f = Ok [mkCandidate op mark].
Proof.
  intros Hput Hu Hm. destruct (put_same _ _ _ _ Hput) as [op Hop]. exists op. unfold candidates. rewrite Hop. cbn [collect]. unfold candidate. cbn [ok_or rbind fst snd].
  change (bs "/") with [47%Z]. cbn [app]. rewrite split_once_app; cycle 1.
  { destruct Hm as [->|(_ & Hh & _)]; [by repeat constructor|by apply hash_no_slash]. }
  cbn [ok_or rbind fst snd]. rewrite Hu. cbn [negb]. destruct Hm as [->|(Hl & Hh & Hs)].
  - rewrite bool_decide_true by done. done.
  - rewrite Hl, Hh, Nat.eqb_refl, (bool_decide_true (is_Some _)) by done. cbn [negb orb]. by rewrite !andb_false_r.
Qed.

Lemma validate_values r v d : validate r = Ok tt -> values r !! d = Some v -> digest (value_bytes v) = d.
Proof.
  unfold validate. destruct (forallb value_ok (map_to_list (values r))) eqn:E; [|done]. intros _ Hv.
  rewrite forallb_forall in E. specialize (E (d, v)). rewrite <- list_elem_of_In, elem_of_map_to_list in E. specialize (E Hv).
  apply andb_true_iff in E as [E _]. by apply bool_decide_eq_true in E.
Qed.

(** Resolving settles exactly one conflict. On a valid replica, a resolution that is
    accepted was for a field in scope, on the candidates the replica still has and one of
    them; afterwards that candidate's value is the field's only one, every other field has
    the candidates it had, and the values are unchanged. *)
Theorem resolve_settles r conflict c includes uuid r' :
  validate r = Ok tt -> uuid_ok uuid = true -> resolve r conflict c includes uuid = Ok r' ->
  let f := conflict_field conflict in
  includes (kind (resource f)) = true /\ candidates r f = Ok (conflict_candidates conflict) /\ c ∈ conflict_candidates conflict
  /\ (exists op, candidates r' f = Ok [mkCandidate op (cvalue c)])
  /\ (forall g, g <> f -> candidates r' g = candidates r g) /\ values r' = values r.
Proof.
  intros Hv Hu. unfold resolve. set (f := conflict_field conflict). destruct (_ || _ || _) eqn:E1; [done|].
  apply orb_false_iff in E1 as [[E1 E1']%orb_false_iff _]. apply negb_false_iff in E1.
  destruct (candidates r f) as [cs|] eqn:Ec; cbn [rbind]; [|done]. destruct (_ || _) eqn:E2; [done|].
  apply orb_false_iff in E2 as [E2 E3]. apply negb_false_iff, bool_decide_eq_true in E2, E3. subst cs. intros Hr. cbn zeta.
  assert (Hother : forall doc ref vs, put (document r) (key f) ref = Some doc -> vs = values r ->
    forall g, g <> f -> candidates (mkReplica doc vs (fixed r)) g = candidates r g).
  { intros doc ref vs Hput -> g Hg. apply candidates_ext; [|done|done]. eapply put_other; [exact Hput|]. intros E. apply Hg. by apply (key_inj json_roundtrip). }
  split; [done|]. split; [done|]. split; [done|]. case_bool_decide as Hd.
  - unfold delete_field in Hr. destruct (put _ _ _) as [doc|] eqn:Ep; cbn [ok_or rbind] in Hr; [|done]. injection Hr as <-.
    rewrite Hd. split; [by apply (put_candidates r _ f deleted_mark uuid); [|done|left]|]. split; [by eapply Hother|done].
  - unfold candidate_value in Hr. destruct (values r !! cvalue c) as [v|] eqn:Ev; cbn [ok_or rbind] in Hr; [|done].
    unfold write in Hr. rewrite (validate_values r v (cvalue c) Hv Ev) in Hr. destruct (put _ _ _) as [doc|] eqn:Ep; cbn [ok_or rbind] in Hr; [|done].
    injection Hr as <-. assert (Hid : <[cvalue c := v]> (values r) = values r) by (by apply insert_id). split; [|split; [by eapply Hother|done]].
    apply (put_candidates r _ f (cvalue c) uuid); [done|done|right]. cbn [values]. rewrite lookup_insert_eq.
    destruct (digest_hex (value_bytes v)) as [Hl Hh]. rewrite (validate_values r v (cvalue c) Hv Ev) in Hl, Hh. eauto.
Qed.
End Resolve.

(** ** Validity *)

Section Validity.
Context `{!AutoDocLaws Doc}.
Context (json_roundtrip : forall f, json_from_str (json_to_string f) = Some f).

(** What [validate] checks, field by field. *)
Record valid_replica (r : SyncReplica) : Prop := {
  vr_values : forall d v, values r !! d = Some v -> digest (value_bytes v) = d /\ is_Some (decode v);
  vr_fields : forall k, k ∈ doc_keys (document r) -> exists f cs, from_key k = Some f /\ candidates r f = Ok cs;
  vr_presence : forall k f, k ∈ doc_keys (document r) -> from_key k = Some f -> out_of_fixed r (resource f) = false ->
    key (presence (resource f)) ∈ doc_keys (document r)
    /\ exists cs, candidates r (presence (resource f)) = Ok cs /\ cs <> [] /\ forall c, c ∈ cs -> exists b, candidate_bool r c = Ok b;
}.

Lemma presence_key k f : from_key k = Some f -> from_key (key (presence (resource f))) = Some (presence (resource f)).
Proof.
  unfold from_key, SyncApplication.from_key. destruct (json_from_str k) as [g|]; cbn; [|done]. destruct (_ && _) eqn:E; [|done]. intros [= <-].
  rewrite json_roundtrip. cbn. apply andb_true_iff in E as [[[E1 E2]%andb_true_iff _]%andb_true_iff _]. rewrite E1, E2. cbn.
  unfold field_key. by rewrite bool_decide_true.
Qed.

Lemma registers_loop_total r fs acc : (forall f, f ∈ fs -> exists cs, candidates r f = Ok cs) -> exists regs, registers_loop r fs acc = Ok regs.
Proof.
  revert acc. induction fs as [|f fs IH]; intros acc Hall; cbn [registers_loop]; [by eexists|].
  destruct (Hall f) as [cs ->]; [set_solver|]. cbn [rbind]. apply IH. intros g Hg. apply Hall. set_solver.
Qed.

(** The registers are those of the keys of the document. *)
Lemma registers_keys r regs :
  registers r = Ok regs ->
  forall f, (register regs f <> None <-> key f ∈ doc_keys (document r) /\ from_key (key f) = Some f).
Proof.
  unfold registers. destruct (fields r) as [fs|] eqn:Ef; cbn [rbind]; [|done]. intros Hl f. unfold fields in Ef.
  assert (Hfs : f ∈ fs <-> key f ∈ doc_keys (document r) /\ from_key (key f) = Some f).
  { split.
    - intros Hf. destruct (collect_elem_inv _ _ _ _ Ef Hf) as (k & Hk & Hin). destruct (from_key k) as [g|] eqn:E; cbn in Hk; [|done].
      injection Hk as ->. pose proof (from_key_key _ _ _ _ E) as Ek. unfold field_key in Ek. rewrite Ek. done.
    - intros [Hk Hf]. destruct (collect_elem _ _ _ _ Ef Hk) as (g & Hg & Hin). rewrite Hf in Hg. cbn in Hg. by injection Hg as <-. }
  pose proof (registers_loop_spec r fs ∅ regs Hl f) as Hs. rewrite <- Hfs. destruct (register regs f) as [cs|].
  - destruct Hs as [[Hin _]|[_ Hc]]; [done|]. unfold register in Hc. by rewrite lookup_empty in Hc.
  - naive_solver.
Qed.

Lemma registers_loop_resource r fs acc regs :
  registers_loop r fs acc = Ok regs -> forall res fm, regs !! res = Some fm -> acc !! res = Some fm \/ exists f, f ∈ fs /\ resource f = res.
Proof.
  revert acc. induction fs as [|f fs IH]; intros acc; cbn [registers_loop]; [intros [= <-]; auto|].
  destruct (candidates r f) as [cs|]; cbn [rbind]; [|done]. intros Hl res fm Hr. destruct (IH _ Hl res fm Hr) as [Ha|(g & Hg & <-)]; [|right; exists g; set_solver].
  destruct (decide (resource f = res)) as [<-|Hne]; [right; exists f; set_solver|]. left. by rewrite lookup_insert_ne in Ha.
Qed.

Lemma register_resource regs f cs : register regs f = Some cs -> exists fs, regs !! resource f = Some fs /\ fs !! field f = Some cs.
Proof. unfold register. destruct (regs !! resource f) as [fs|]; cbn; [|done]. eauto. Qed.

Lemma validate_resource_ok r res fs :
  validate_resource r (res, fs) = Ok tt <->
  (out_of_fixed r res = false -> exists cs, fs !! present = Some cs /\ cs <> [] /\ forall c, c ∈ cs -> exists b, candidate_bool r c = Ok b).
Proof.
  unfold validate_resource. cbn [fst snd]. destruct (out_of_fixed r res); [done|]. split.
  - intros Hu _. destruct (fs !! present) as [[|c cs]|]; cbn [ok_or rbind] in Hu; [done| |done]. exists (c :: cs). split_and!; [done..|].
    destruct (collect (candidate_bool r) (c :: cs)) as [bs'|] eqn:Eb; cbn [rbind] in Hu; [|done]. intros c' Hc'.
    destruct (collect_elem _ _ _ c' Eb Hc') as (b & Hb & _). eauto.
  - intros Hall. destruct (Hall eq_refl) as (cs & -> & Hne & Hb). cbn [ok_or rbind]. destruct cs as [|c cs]; [done|].
    destruct (collect_total (candidate_bool r) (c :: cs) Hb) as [bs' ->]. done.
Qed.

Lemma values_ok_iff r :
  forallb value_ok (map_to_list (values r)) = true <-> forall d v, values r !! d = Some v -> digest (value_bytes v) = d /\ is_Some (decode v).
Proof.
  rewrite forallb_forall. split.
  - intros Hall d v Hv. specialize (Hall (d, v)). rewrite <- list_elem_of_In, elem_of_map_to_list in Hall. specialize (Hall Hv).
    unfold value_ok in Hall. cbn in Hall. apply andb_true_iff in Hall as [H1 H2]. by apply bool_decide_eq_true in H1, H2.
  - intros Hall [d v] Hin. rewrite <- list_elem_of_In, elem_of_map_to_list in Hin. destruct (Hall d v Hin) as [H1 H2].
    unfold value_ok. cbn. by rewrite !bool_decide_true.
Qed.

Lemma validate_iff r : validate r = Ok tt <-> valid_replica r.
Proof.
  unfold validate. split.
  - destruct (forallb _ _) eqn:Ev; cbn [negb]; [|done]. destruct (registers r) as [regs|] eqn:Er; cbn [rbind]; [|done].
    destruct (collect _ _) as [us|] eqn:Ec; cbn [rbind]; [|done]. intros _. pose proof (registers_keys r regs Er) as Hk.
    assert (Hparse : forall k, k ∈ doc_keys (document r) -> exists f, from_key k = Some f).
    { intros k Hin. unfold registers, fields in Er. destruct (collect _ (doc_keys (document r))) as [fs|] eqn:Ef; cbn [rbind] in Er; [|done].
      destruct (collect_elem _ _ _ _ Ef Hin) as (f & Hf & _). destruct (from_key k) as [g|]; [by exists g|done]. }
    assert (Hreg : forall k f, k ∈ doc_keys (document r) -> from_key k = Some f -> exists cs, register regs f = Some cs).
    { intros k f Hin Hf. destruct (register regs f) as [cs|] eqn:E; [by exists cs|]. pose proof (from_key_key _ _ _ _ Hf) as Ek. unfold field_key in Ek.
      destruct (Hk f) as [_ Hk']. rewrite E, Ek in Hk'. by destruct Hk'. }
    constructor; [by apply values_ok_iff|..].
    + intros k Hin. destruct (Hparse k Hin) as [f Hf]. destruct (Hreg k f Hin Hf) as [cs Hcs]. exists f, cs. split; [done|]. by eapply registers_register.
    + intros k f Hin Hf Ho. destruct (Hreg k f Hin Hf) as [cs Hcs]. destruct (register_resource _ _ _ Hcs) as (fs & Hfs & _).
      destruct (collect_elem _ _ _ (resource f, fs) Ec) as ([] & Hu & _); [by apply elem_of_map_to_list|].
      destruct (proj1 (validate_resource_ok r (resource f) fs) Hu Ho) as (ps & Hps & Hne & Hb).
      assert (Hpr : register regs (presence (resource f)) = Some ps) by (unfold register; cbn; by rewrite Hfs).
      split; [apply Hk; by rewrite Hpr|]. exists ps. split; [by eapply registers_register|done].
  - intros [Hv Hf Hp]. rewrite (proj2 (values_ok_iff r) Hv). cbn [negb]. unfold registers, fields.
    destruct (collect_total (fun k => ok_or (from_key k) InvalidReplica) (doc_keys (document r))) as [fs Ef].
    { intros k Hin. destruct (Hf k Hin) as (f & cs & -> & _). by exists f. }
    assert (Hfs : forall f, f ∈ fs -> exists k, k ∈ doc_keys (document r) /\ from_key k = Some f).
    { intros f Hin. destruct (collect_elem_inv _ _ _ _ Ef Hin) as (k & Hk & Hkin). destruct (from_key k) as [g|] eqn:E; cbn in Hk; [|done].
      injection Hk as ->. by exists k. }
    destruct (registers_loop_total r fs ∅) as [regs Hl].
    { intros f Hin. destruct (Hfs f Hin) as (k & Hk & E). destruct (Hf k Hk) as (g & cs & E' & Hcs). rewrite E in E'. injection E' as <-. by exists cs. }
    rewrite Ef. cbn [rbind]. rewrite Hl. cbn [rbind].
    assert (Er : registers r = Ok regs) by (unfold registers, fields; rewrite Ef; exact Hl). pose proof (registers_keys r regs Er) as Hk.
    destruct (collect_total (validate_resource r) (map_to_list regs)) as [us ->]; [|done]. intros [res fm] Hin. exists tt. apply validate_resource_ok.
    intros Ho. apply elem_of_map_to_list in Hin.
    destruct (registers_loop_resource r fs ∅ regs Hl res fm Hin) as [Hemp|(f & Hff & <-)]; [by rewrite lookup_empty in Hemp|].
    destruct (Hfs f Hff) as (k & Hkin & E). destruct (Hp k f Hkin E Ho) as (Hkp & cs & Hcs & Hne & Hb).
    destruct (register regs (presence (resource f))) as [ps|] eqn:Ep.
    + rewrite (registers_register r regs _ ps Er Ep) in Hcs. injection Hcs as <-. exists ps. split_and!; [|done..].
      unfold register in Ep. cbn in Ep. by rewrite Hin in Ep.
    + exfalso. apply (proj2 (Hk (presence (resource f)))); [|done]. split; [done|]. by eapply presence_key.
Qed.
End Validity.

(** ** Capturing records the edits *)

Section CaptureLemmas.
Context `{!AutoDocLaws Doc}.
Context (json_roundtrip : forall f, json_from_str (json_to_string f) = Some f).
Context (digest_hex : forall b, length (digest b) = 64 /\ forallb hash_byte (digest b) = true).
Context (uuids : nat -> bytes) (uuids_ok : forall n, uuid_ok (uuids n) = true) (bool_value : bool -> Value).

(** The value a write leaves in its register. *)
Definition mark_of (o : option Value) : bytes := match o with Some v => digest (value_bytes v) | None => deleted_mark end.

(** More values keep what could be read. *)
Lemma candidates_mono r r' f cs :
  get_all (document r') (key f) = get_all (document r) (key f) -> fixed r' = fixed r ->
  (forall d, is_Some (values r !! d) -> is_Some (values r' !! d)) -> candidates r f = Ok cs -> candidates r' f = Ok cs.
Proof.
  intros Hg Hf Hv. unfold candidates. rewrite Hg. destruct (collect (candidate r f) _) as [cs0|] eqn:E; cbn [rbind]; [|done]. intros [= <-].
  assert (collect (candidate r' f) (get_all (document r) (key f)) = Ok cs0) as ->; [|done].
  apply collect_Ok. apply collect_Ok in E. eapply Forall2_impl; [exact E|]. intros e c. unfold candidate.
  destruct (ok_or e.1 _) as [rf|]; cbn [rbind]; [|done]. destruct (ok_or (split_once 47 rf) _) as [di|]; cbn [rbind]; [|done].
  destruct (negb (uuid_ok di.2)); [done|]. rewrite Hf.
  destruct (negb (bool_decide (di.1 = deleted_mark)) && (negb (length di.1 =? 64) || negb (forallb hash_byte di.1))); [done|].
  destruct (negb (bool_decide (di.1 = deleted_mark))); cbn [andb]; [|done].
  destruct (negb (fixed r) || fixed_cloud_sync_field f); rewrite ?andb_false_r, ?andb_true_r; [|done].
  case_bool_decide as H1; cbn [negb]; [|done]. by rewrite (bool_decide_true (is_Some (values r' !! di.1))) by auto.
Qed.

(** One write: its register has its value only, the others what they had. *)
Lemma write_step r f o n r1 :
  match o with Some v => write r f v (uuids n) | None => delete_field r f (uuids n) end = Ok r1 ->
  fixed r1 = fixed r /\ (forall d, is_Some (values r !! d) -> is_Some (values r1 !! d))
  /\ (forall g, g <> f -> get_all (document r1) (key g) = get_all (document r) (key g))
  /\ exists op, candidates r1 f = Ok [mkCandidate op (mark_of o)].
Proof.
  assert (Hoth : forall doc ref, put (document r) (key f) ref = Some doc ->
    forall g, g <> f -> get_all doc (key g) = get_all (document r) (key g)).
  { intros doc ref Hput g Hg. eapply put_other; [exact Hput|]. intros E. apply Hg. by apply (key_inj json_roundtrip). }
  destruct o as [v|]; cbn [mark_of].
  - unfold write. destruct (put _ _ _) as [doc|] eqn:Ep; cbn [ok_or rbind]; [|done]. intros [= <-]. cbn [fixed values document].
    split; [done|]. split; [intros d Hd; apply lookup_insert_is_Some'; by right|]. split; [by eapply Hoth|].
    apply (put_candidates r _ f (digest (value_bytes v)) (uuids n)); [done|apply uuids_ok|right]. cbn [values].
    rewrite lookup_insert_eq. destruct (digest_hex (value_bytes v)). eauto.
  - unfold delete_field. destruct (put _ _ _) as [doc|] eqn:Ep; cbn [ok_or rbind]; [|done]. intros [= <-]. cbn [fixed values document].
    split; [done|]. split; [done|]. split; [by eapply Hoth|]. by apply (put_candidates r _ f deleted_mark (uuids n)); [|apply uuids_ok|left].
Qed.

(** Writes in a row: the last write of a field wins, the other fields keep theirs. *)
Lemma write_all_spec r ws n r' :
  write_all uuids n r ws = Ok r' ->
  fixed r' = fixed r
  /\ (forall g cs, g ∉ ws.*1 -> candidates r g = Ok cs -> candidates r' g = Ok cs)
  /\ (forall ws1 f o ws2, ws = ws1 ++ (f, o) :: ws2 -> f ∉ ws2.*1 -> exists op, candidates r' f = Ok [mkCandidate op (mark_of o)]).
Proof.
  revert r n. induction ws as [|[f o] ws IH]; intros r n; cbn [write_all].
  { intros [= <-]. split_and!; [done|done|]. intros [|] ? ? ? [=]. }
  destruct (match o with Some v => write r f v (uuids n) | None => delete_field r f (uuids n) end) as [r1|] eqn:E; cbn [rbind]; [|done]. intros Hw.
  destruct (write_step r f o n r1 E) as (Hfix & Hval & Hoth & op & Hop). destruct (IH r1 (S n) Hw) as (Hfix' & Huntouched & Hlast). split_and!.
  - congruence.
  - intros g cs Hg Hc. cbn [fmap list_fmap fst] in Hg. apply not_elem_of_cons in Hg as [Hgf Hg]. apply Huntouched; [done|].
    apply (candidates_mono r); [by apply Hoth|done|done|done].
  - intros [|w ws1] f' o' ws2 [= <- Heq] Hf'.
    + subst. exists op. by apply Huntouched.
    + by eapply Hlast.
Qed.

(** Writes of a function of the field, in any order and with repetitions. *)
Lemma write_all_map r (fs : list SyncFieldId) (o : SyncFieldId -> option Value) n r' :
  write_all uuids n r ((fun f => (f, o f)) <$> fs) = Ok r' ->
  (forall f, f ∈ fs -> exists op, candidates r' f = Ok [mkCandidate op (mark_of (o f))])
  /\ (forall g cs, g ∉ fs -> candidates r g = Ok cs -> candidates r' g = Ok cs).
Proof.
  intros Hw. destruct (write_all_spec _ _ _ _ Hw) as (_ & Hk & Hl). split.
  - intros f Hf. apply list_elem_of_split_r in Hf as (a & b & -> & Hb).
    apply (Hl ((fun f => (f, o f)) <$> a) f (o f) ((fun f => (f, o f)) <$> b)); [by rewrite fmap_app|].
    rewrite <- list_fmap_compose. by rewrite list_fmap_id.
  - intros g cs Hg. apply Hk. rewrite <- list_fmap_compose. by rewrite list_fmap_id.
Qed.

Lemma elem_of_map_keys (m : gmap bytes Value) k : k ∈ (map_to_list m).*1 <-> is_Some (m !! k).
Proof.
  rewrite list_elem_of_fmap. split.
  - intros ([k' v] & -> & Hv). apply elem_of_map_to_list in Hv. by exists v.
  - intros [v Hv]. exists (k, v). split; [done|]. by apply elem_of_map_to_list.
Qed.

(** What the three loops go through. *)
Lemma capture_fields baseline current fs :
  collect (fun k => ok_or (from_key k) InvalidReplica)
    (dedup (sort_by (cmp_le str_cmp) ((map_to_list baseline).*1 ++ (map_to_list (pvalues current)).*1))) = Ok fs ->
  forall f, f ∈ fs <-> touched baseline current f.
Proof.
  intros Hc f. assert (Hk : forall k, k ∈ dedup (sort_by (cmp_le str_cmp) ((map_to_list baseline).*1 ++ (map_to_list (pvalues current)).*1))
    <-> is_Some (baseline !! k) \/ is_Some (pvalues current !! k)).
  { intros k. by rewrite elem_of_dedup, sort_by_perm, elem_of_app, !elem_of_map_keys. }
  unfold touched. rewrite <- Hk. split.
  - intros Hf. destruct (collect_elem_inv _ _ _ _ Hc Hf) as (k & Hfk & Hin). destruct (from_key k) as [f'|] eqn:E; cbn in Hfk; [|done].
    injection Hfk as ->. apply from_key_key in E. by rewrite <- E in Hin.
  - intros Hf. destruct (collect_elem _ _ _ _ Hc Hf) as (f' & Hfk & Hin). destruct (from_key (key f)) as [f2|] eqn:E; cbn in Hfk; [|done].
    injection Hfk as <-. apply from_key_key in E. by apply (key_inj json_roundtrip) in E as ->.
Qed.

Lemma is_edited_removed r baseline current includes removed f :
  is_edited r baseline current includes removed f = is_edited r baseline current includes [] f && negb (bool_decide (resource f ∈ removed)).
Proof. unfold is_edited. rewrite (bool_decide_false (resource f ∈ [])) by set_solver. destruct (bool_decide (resource f ∈ removed)); cbn; by rewrite ?andb_true_r, ?andb_false_r. Qed.

Lemma is_removed_inv r baseline current includes f :
  is_removed r baseline current includes f = true -> f = presence (resource f) /\ touched baseline current f.
Proof.
  unfold is_removed. intros H'. apply andb_true_iff in H' as [[[[H1 _]%andb_true_iff _]%andb_true_iff H2]%andb_true_iff _].
  apply bool_decide_eq_true in H1, H2. split; [destruct f as [res n]; cbn in *; by subst|by left].
Qed.

Lemma capture_nothing r baseline current includes :
  edited current = [] -> baseline = pvalues current ->
  (forall f, is_removed r baseline current includes f = false) /\ (forall f, is_edited r baseline current includes [] f = false).
Proof.
  intros He ->. split; intros f; unfold is_removed, is_edited; [destruct (bool_decide (is_Some _))|]; rewrite ?andb_false_r; [done..|].
  rewrite He, (bool_decide_true (_ = _)) by done. rewrite (bool_decide_false (f ∈ [])) by set_solver. by rewrite andb_false_r.
Qed.

(** The writes succeed when the document takes every write. *)
Lemma write_all_total r ws n :
  (forall d k v, is_Some (put d k v)) -> exists r', write_all uuids n r ws = Ok r'.
Proof.
  intros Hput. revert r n. induction ws as [|[f o] ws IH]; intros r n; cbn [write_all]; [by eexists|].
  destruct o as [v|]; unfold write, delete_field.
  - destruct (Hput (document r) (key f) (digest (value_bytes v) ++ bs "/" ++ uuids n)) as [d ->]. cbn [ok_or rbind]. apply IH.
  - destruct (Hput (document r) (key f) (deleted_mark ++ bs "/" ++ uuids n)) as [d ->]. cbn [ok_or rbind]. apply IH.
Qed.
(** The field has one candidate, the value. *)
Definition only (r : SyncReplica) (f : SyncFieldId) (o : option Value) : Prop := exists op, candidates r f = Ok [mkCandidate op (mark_of o)].

Definition removes (r : SyncReplica) (baseline : SyncValues) (current : SyncProjection) (includes : bytes -> bool) (res : SyncResourceId) : Prop :=
  is_removed r baseline current includes (presence res) = true.
Definition edits (r : SyncReplica) (baseline : SyncValues) (current : SyncProjection) (includes : bytes -> bool) (f : SyncFieldId) : Prop :=
  touched baseline current f /\ ~ removes r baseline current includes (resource f) /\ is_edited r baseline current includes [] f = true.

(** The fields the loops select. *)
Lemma capture_sets r baseline current includes fs :
  (forall f, f ∈ fs <-> touched baseline current f) ->
  let removals := filter (fun f => is_removed r baseline current includes f = true) fs in
  let edited_fields := filter (fun f => is_edited r baseline current includes (resource <$> removals) f = true) fs in
  (forall f, f ∈ removals <-> f = presence (resource f) /\ removes r baseline current includes (resource f))
  /\ (forall f, f ∈ edited_fields <-> edits r baseline current includes f).
Proof.
  intros Hfs removals ed. assert (Hr : forall f, f ∈ removals <-> f = presence (resource f) /\ removes r baseline current includes (resource f)).
  { intros f. unfold removals, removes. rewrite list_elem_of_filter, Hfs. split.
    - intros [Hf _]. destruct (is_removed_inv _ _ _ _ _ Hf) as [E _]. by rewrite <- E.
    - intros [E Hf]. rewrite <- E in Hf. split; [done|]. by eapply is_removed_inv. }
  split; [exact Hr|]. intros f. unfold ed, edits. rewrite list_elem_of_filter, Hfs, is_edited_removed, andb_true_iff, negb_true_iff, bool_decide_eq_false.
  assert (Hres : resource f ∈ resource <$> removals <-> removes r baseline current includes (resource f)).
  { rewrite list_elem_of_fmap. split; [intros (g & -> & [_ Hg]%Hr); done|]. intros Hf. exists (presence (resource f)). split; [done|]. by apply Hr. }
  rewrite Hres. tauto.
Qed.

(** The fields of the three loops, and their writes in a row. *)
Definition removals r baseline current includes (fs : list SyncFieldId) := filter (fun f => is_removed r baseline current includes f = true) fs.
Definition edited_fields r baseline current includes (fs : list SyncFieldId) :=
  filter (fun f => is_edited r baseline current includes (resource <$> removals r baseline current includes fs) f = true) fs.
Definition changed_resources r baseline current includes fs :=
  dedup (sort_by (cmp_le resource_cmp) (resource <$> edited_fields r baseline current includes fs)).
Definition capture_writes r baseline current includes fs : list (SyncFieldId * option Value) :=
  ((fun f => (f, Some (bool_value false))) <$> removals r baseline current includes fs)
  ++ ((fun f => (f, pvalues current !! key f)) <$> edited_fields r baseline current includes fs)
  ++ ((fun f => (f, Some (bool_value true))) <$> (presence <$> changed_resources r baseline current includes fs)).

Lemma write_all_app n r ws ws' : write_all uuids n r (ws ++ ws') = rbind (write_all uuids n r ws) (fun r' => write_all uuids (length ws + n) r' ws').
Proof.
  revert n r. induction ws as [|[f o] ws IH]; intros n r; cbn [app write_all]; [done|].
  destruct (match o with Some v => write r f v (uuids n) | None => delete_field r f (uuids n) end); cbn [rbind]; [|done].
  rewrite IH. cbn [length]. by rewrite Nat.add_succ_r.
Qed.

(** Capturing is one row of writes, for the fields the keys stand for. *)
Lemma capture_unfold r baseline current includes :
  capture bool_value uuids r baseline current includes =
  if bool_decide (edited current = []) && bool_decide (baseline = pvalues current) then Ok (r, false)
  else fs <-? collect (fun k => ok_or (from_key k) InvalidReplica)
         (dedup (sort_by (cmp_le str_cmp) ((map_to_list baseline).*1 ++ (map_to_list (pvalues current)).*1)));
       r' <-? write_all uuids 0 r (capture_writes r baseline current includes fs);
       Ok (r', negb (bool_decide (changed_resources r baseline current includes fs = []))
               || negb (bool_decide (resource <$> removals r baseline current includes fs = []))).
Proof.
  unfold capture. destruct (_ && _); [done|]. destruct (collect _ _) as [fs|]; cbn [rbind]; [|done]. unfold capture_writes. rewrite write_all_app.
  fold (removals r baseline current includes fs). fold (edited_fields r baseline current includes fs). fold (changed_resources r baseline current includes fs).
  destruct (write_all uuids 0 r _) as [r1|]; cbn [rbind]; [|done]. rewrite write_all_app, !length_fmap, Nat.add_0_r.
  destruct (write_all uuids _ r1 _) as [r2|]; cbn [rbind]; [|done]. rewrite Nat.add_comm.
  by rewrite <- (list_fmap_compose presence (fun f => (f, Some (bool_value true)))).
Qed.

(** Which fields are written, and what is left in them. *)
Lemma capture_effect r baseline current includes fs r' :
  (forall f, f ∈ fs <-> touched baseline current f) -> write_all uuids 0 r (capture_writes r baseline current includes fs) = Ok r' ->
  let removes := removes r baseline current includes in
  let edits := edits r baseline current includes in
  (forall res, removes res -> only r' (presence res) (Some (bool_value false)))
  /\ (forall f, edits f -> field f <> present -> only r' f (pvalues current !! key f))
  /\ (forall f, edits f -> only r' (presence (resource f)) (Some (bool_value true)))
  /\ (forall g cs, candidates r g = Ok cs -> ~ edits g ->
       (field g = present -> ~ removes (resource g) /\ forall f, edits f -> resource f <> resource g) -> candidates r' g = Ok cs).
Proof.
  intros Hfs Hw removes' edits'. unfold capture_writes in Hw. rewrite write_all_app in Hw.
  destruct (write_all uuids 0 r _) as [r1|] eqn:H1; cbn [rbind] in Hw; [|done]. rewrite write_all_app in Hw.
  destruct (write_all uuids _ r1 _) as [r2|] eqn:H2; cbn [rbind] in Hw; [|done].
  destruct (capture_sets r baseline current includes fs Hfs) as [Hr He]. cbv zeta in Hr, He. fold (removals r baseline current includes fs) in Hr, He.
  fold (edited_fields r baseline current includes fs) in He.
  destruct (write_all_map _ _ (fun _ => Some (bool_value false)) _ _ H1) as [W1 K1]. destruct (write_all_map _ _ _ _ _ H2) as [W2 K2].
  destruct (write_all_map _ _ (fun _ => Some (bool_value true)) _ _ Hw) as [W3 K3].
  assert (Hpc : forall f, f ∈ presence <$> changed_resources r baseline current includes fs <-> f = presence (resource f) /\ exists g, edits' g /\ resource g = resource f).
  { intros f. rewrite list_elem_of_fmap. unfold changed_resources. setoid_rewrite elem_of_dedup. setoid_rewrite sort_by_perm.
    setoid_rewrite list_elem_of_fmap. setoid_rewrite He. naive_solver. }
  split_and!.
  - intros res Hres. destruct (W1 (presence res)) as [op Hop]; [by apply Hr|]. exists op.
    apply K3; [rewrite Hpc; intros (_ & g & (_ & Hg & _) & Eg); apply Hg; by rewrite Eg|]. apply K2; [|done]. rewrite He. intros (_ & Hg & _). by apply Hg.
  - intros f Hf Hp. destruct (W2 f) as [op Hop]; [by apply He|]. exists op. apply K3; [|done]. rewrite Hpc. intros [Ef _]. by rewrite Ef in Hp.
  - intros f Hf. apply W3, Hpc. split; [done|]. by exists f.
  - intros g cs Hg Hne Hpr. apply K3; [|apply K2; [by rewrite He|apply K1; [|done]]].
    + rewrite Hpc. intros (Eg & f & Hf & Hfr). destruct Hpr as [_ Hpr]; [by rewrite Eg|]. by apply (Hpr f).
    + rewrite Hr. intros (Eg & Hf). destruct Hpr as [Hpr _]; [by rewrite Eg|]. done.
Qed.

Lemma capture_flag r baseline current includes fs :
  (forall f, f ∈ fs <-> touched baseline current f) ->
  negb (bool_decide (changed_resources r baseline current includes fs = [])) || negb (bool_decide (resource <$> removals r baseline current includes fs = [])) = true
  <-> (exists res, removes r baseline current includes res) \/ exists f, edits r baseline current includes f.
Proof.
  intros Hfs. destruct (capture_sets r baseline current includes fs Hfs) as [Hr He]. cbv zeta in Hr, He.
  fold (removals r baseline current includes fs) in Hr, He. fold (edited_fields r baseline current includes fs) in He.
  assert (Hch : forall res, res ∈ changed_resources r baseline current includes fs <-> exists f, edits r baseline current includes f /\ resource f = res).
  { intros res. unfold changed_resources. rewrite elem_of_dedup, sort_by_perm, list_elem_of_fmap. setoid_rewrite He. naive_solver. }
  rewrite orb_true_iff, !negb_true_iff, !bool_decide_eq_false. split.
  - intros [Hn|Hn].
    + right. destruct (changed_resources _ _ _ _ _) as [|res l]; [done|]. destruct (proj1 (Hch res)) as (f & Hf & _); [set_solver|by exists f].
    + left. destruct (removals _ _ _ _ _) as [|f l]; [done|]. exists (resource f). apply Hr. set_solver.
  - intros [[res Hres]|[f Hf]].
    + right. intros En. assert (Hin : presence res ∈ removals r baseline current includes fs) by (by apply Hr). apply (list_elem_of_fmap_2 resource) in Hin. rewrite En in Hin. set_solver.
    + left. intros En. assert (Hin : resource f ∈ changed_resources r baseline current includes fs) by (apply Hch; by exists f). rewrite En in Hin. set_solver.
Qed.

(** What a device records of its local changes. When every identity can be read and
    the document takes writes, capturing succeeds; then a resource that a complete reading
    no longer has is marked absent, every field that differs from the baseline (or was
    edited) holds its current value or a deletion as its only candidate, its resource is
    marked present, every other field keeps the candidates it had, and the result says
    whether anything was written. *)
Theorem capture_records_edits r baseline current includes :
  (forall d k v, is_Some (put d k v)) ->
  (forall k, is_Some (baseline !! k) \/ is_Some (pvalues current !! k) -> is_Some (from_key k)) ->
  let removes := removes r baseline current includes in
  let edits := edits r baseline current includes in
  exists r' b, capture bool_value uuids r baseline current includes = Ok (r', b)
    /\ (forall res, removes res -> only r' (presence res) (Some (bool_value false)))
    /\ (forall f, edits f -> field f <> present -> only r' f (pvalues current !! key f))
    /\ (forall f, edits f -> only r' (presence (resource f)) (Some (bool_value true)))
    /\ (forall g cs, candidates r g = Ok cs -> ~ edits g ->
         (field g = present -> ~ removes (resource g) /\ forall f, edits f -> resource f <> resource g) -> candidates r' g = Ok cs)
    /\ (b = true <-> (exists res, removes res) \/ exists f, edits f).
Proof.
  intros Hput Hkeys removes' edits'. rewrite capture_unfold. destruct (bool_decide (edited current = []) && _) eqn:E0.
  { apply andb_true_iff in E0 as [He%bool_decide_eq_true Hb%bool_decide_eq_true].
    destruct (capture_nothing r baseline current includes He Hb) as [H1 H2]. exists r, false.
    assert (Hnr : forall res, ~ removes' res) by (intros res; unfold removes', removes; by rewrite H1).
    assert (Hne : forall f, ~ edits' f) by (intros f (_ & _ & Hf); by rewrite H2 in Hf). naive_solver. }
  set (keys := dedup _). destruct (collect_total (fun k => ok_or (from_key k) InvalidReplica) keys) as [fs Hc].
  { intros k Hk. unfold keys in Hk. rewrite elem_of_dedup, sort_by_perm, elem_of_app, !elem_of_map_keys in Hk. destruct (Hkeys k Hk) as [f ->]. by exists f. }
  rewrite Hc. cbn [rbind]. destruct (write_all_total r (capture_writes r baseline current includes fs) 0 Hput) as [r' Hw]. rewrite Hw. cbn [rbind].
  pose proof (capture_fields _ _ _ Hc) as Hfs. destruct (capture_effect r baseline current includes fs r' Hfs Hw) as (H1 & H2 & H3 & H4).
  eexists r', _. split; [done|]. split_and!; [done..|]. by apply capture_flag.
Qed.

(** ** Capturing keeps a replica valid *)

(** The values that meet when a replica with the values [vs] records a projection: its own,
    those of the projection, and the booleans of [$present]. *)
Definition in_play (vs : SyncValues) (current : SyncProjection) (v : Value) : Prop :=
  (exists d, vs !! d = Some v) \/ (exists k, pvalues current !! k = Some v) \/ exists b, v = bool_value b.

(** The digest has no collision on the values of [P]. Nothing is said of other values: no
    digest of a fixed length is injective on all of them. *)
Definition coll_free (P : Value -> Prop) : Prop :=
  forall v w, P v -> P w -> digest (value_bytes v) = digest (value_bytes w) -> v = w.

(** A replica that holds values of [P] only, each under its digest. *)
Definition holds (P : Value -> Prop) (r : SyncReplica) : Prop :=
  forall d v, values r !! d = Some v -> digest (value_bytes v) = d /\ P v.

Context (bool_decodes : forall b, exists j, decode (bool_value b) = Some j /\ as_bool j = Some b).

Lemma write_all_keys (P : Value -> Prop) r ws n r' :
  coll_free P -> (forall f v, (f, Some v) ∈ ws -> P v) -> write_all uuids n r ws = Ok r' ->
  (forall k, k ∈ doc_keys (document r') <-> k ∈ doc_keys (document r) \/ exists f, f ∈ ws.*1 /\ k = key f)
  /\ (forall d v, values r' !! d = Some v -> values r !! d = Some v \/ exists f, (f, Some v) ∈ ws /\ digest (value_bytes v) = d)
  /\ (holds P r -> forall d v, values r !! d = Some v -> values r' !! d = Some v)
  /\ (holds P r -> forall f v, (f, Some v) ∈ ws -> values r' !! digest (value_bytes v) = Some v).
Proof.
  intros Hfree. revert r n. induction ws as [|[f o] ws IH]; intros r n Hws; cbn [write_all].
  { intros [= <-]. split_and!; [set_solver|auto|auto|set_solver]. }
  destruct (match o with Some v => write r f v (uuids n) | None => delete_field r f (uuids n) end) as [r1|] eqn:E; cbn [rbind]; [|done].
  intros Hw. destruct (IH r1 (S n) (fun g v Hg => Hws g v (list_elem_of_further _ _ _ Hg)) Hw) as (Hk & Hv & Hm & Hx). clear IH.
  assert (Hk1 : forall k, k ∈ doc_keys (document r1) <-> k = key f \/ k ∈ doc_keys (document r)).
  { destruct o; unfold write, delete_field in E; destruct (put _ _ _) as [d|] eqn:Ep; cbn [ok_or rbind] in E; try done; injection E as <-;
      intros k; by apply (put_keys _ _ _ _ k Ep). }
  assert (Hv1 : values r1 = match o with Some v => <[digest (value_bytes v) := v]> (values r) | None => values r end).
  { destruct o; unfold write, delete_field in E; destruct (put _ _ _); cbn [ok_or rbind] in E; try done; by injection E as <-. }
  assert (Hok1 : holds P r -> holds P r1).
  { intros Hok d' v'. rewrite Hv1. destruct o as [w|]; [|apply Hok]. intros [[<- <-]|[_ Hd']]%lookup_insert_Some; [|by apply Hok].
    split; [done|]. apply (Hws f). apply list_elem_of_here. }
  split_and!.
  - intros k. rewrite Hk, Hk1. cbn [fmap list_fmap fst]. setoid_rewrite elem_of_cons. naive_solver.
  - intros d v Hd. destruct (Hv d v Hd) as [Hd1|(g & Hg & Hgd)]; [|right; exists g; split; [set_solver|done]]. rewrite Hv1 in Hd1.
    destruct o as [w|]; [|by left]. apply lookup_insert_Some in Hd1 as [[<- <-]|[_ Hd1]]; [right; exists f; split; [set_solver|done]|by left].
  - intros Hok d v Hd. apply (Hm (Hok1 Hok)). rewrite Hv1. destruct o as [w|]; [|done].
    apply lookup_insert_Some. destruct (decide (digest (value_bytes w) = d)) as [<-|]; [left|by right]. split; [done|].
    destruct (Hok _ _ Hd) as [Hdg Hpv]. apply Hfree; [apply (Hws f), list_elem_of_here|done|by rewrite Hdg].
  - intros Hok g v [[= <- <-]|Hg]%elem_of_cons; [|by apply (Hx (Hok1 Hok) g)]. apply (Hm (Hok1 Hok)). by rewrite Hv1, lookup_insert_eq.
Qed.

Lemma capture_writes_fields r baseline current includes fs f o :
  (forall f, f ∈ fs <-> touched baseline current f) -> (f, o) ∈ capture_writes r baseline current includes fs ->
  (exists g, g ∈ fs /\ (f = g \/ f = presence (resource g)) /\ (removes r baseline current includes (resource f) \/ exists g, edits r baseline current includes g /\ resource g = resource f))
  /\ ((exists b, o = Some (bool_value b)) \/ o = pvalues current !! key f).
Proof.
  intros Hfs. destruct (capture_sets r baseline current includes fs Hfs) as [Hr He]. cbv zeta in Hr, He.
  fold (removals r baseline current includes fs) in Hr, He. fold (edited_fields r baseline current includes fs) in He.
  assert (Hsub : forall g, g ∈ removals r baseline current includes fs \/ g ∈ edited_fields r baseline current includes fs -> g ∈ fs).
  { intros g [Hg|Hg]; [unfold removals in Hg|unfold edited_fields in Hg]; by apply list_elem_of_filter in Hg as [_ Hg]. }
  unfold capture_writes. rewrite !elem_of_app, !list_elem_of_fmap. intros [(g & [= -> ->] & Hg)|[(g & [= -> ->] & Hg)|(g & [= -> ->] & Hg)]].
  - split; [|eauto]. exists g. split; [auto|]. split; [auto|]. left. by apply Hr.
  - split; [|eauto]. exists g. split; [auto|]. split; [auto|]. right. exists g. split; [by apply He|done].
  - split; [|eauto]. apply list_elem_of_fmap in Hg as (res & -> & Hres). unfold changed_resources in Hres.
    rewrite elem_of_dedup, sort_by_perm, list_elem_of_fmap in Hres. destruct Hres as (g & -> & Hg). exists g. split; [auto|]. split; [auto|].
    right. exists g. split; [by apply He|done].
Qed.

Lemma capture_in_play r baseline current includes fs :
  (forall f, f ∈ fs <-> touched baseline current f) ->
  forall f v, (f, Some v) ∈ capture_writes r baseline current includes fs -> in_play (values r) current v.
Proof.
  intros Hfs f v Hin. destruct (capture_writes_fields _ _ _ _ _ _ _ Hfs Hin) as [_ [[b [= ->]]|Ho]]; right; [right|left]; eauto.
Qed.

Lemma bool_candidate r op b : values r !! digest (value_bytes (bool_value b)) = Some (bool_value b) ->
  candidate_bool r (mkCandidate op (mark_of (Some (bool_value b)))) = Ok b.
Proof.
  intros Hv. unfold candidate_bool, candidate_value. cbn [mark_of cvalue]. rewrite Hv. cbn [ok_or rbind].
  destruct (bool_decodes b) as (j & -> & Hj). cbn [ok_or rbind]. by rewrite Hj.
Qed.

Lemma capture_presence r baseline current includes fs :
  (forall f, f ∈ fs <-> touched baseline current f) ->
  (forall res, removes r baseline current includes res -> (presence res, Some (bool_value false)) ∈ capture_writes r baseline current includes fs)
  /\ (forall g, edits r baseline current includes g -> (presence (resource g), Some (bool_value true)) ∈ capture_writes r baseline current includes fs).
Proof.
  intros Hfs. destruct (capture_sets r baseline current includes fs Hfs) as [Hr He]. cbv zeta in Hr, He.
  fold (removals r baseline current includes fs) in Hr, He. fold (edited_fields r baseline current includes fs) in He.
  unfold capture_writes. split; [intros res Hres|intros g Hg]; rewrite !elem_of_app.
  - left. apply list_elem_of_fmap. exists (presence res). split; [done|]. by apply Hr.
  - right. right. apply list_elem_of_fmap. exists (presence (resource g)). split; [done|]. apply list_elem_of_fmap. exists (resource g).
    split; [done|]. unfold changed_resources. rewrite elem_of_dedup, sort_by_perm. apply list_elem_of_fmap. exists g. split; [done|]. by apply He.
Qed.

(** The last write of a field. *)
Lemma write_last (ws : list (SyncFieldId * option Value)) f l1 l2 :
  ws.*1 = l1 ++ f :: l2 -> f ∉ l2 -> exists w1 o w2, ws = w1 ++ (f, o) :: w2 /\ f ∉ w2.*1.
Proof.
  intros Hl Hn. apply fmap_app_inv in Hl as (w1 & w2 & -> & Hw2 & ->). destruct w2 as [|[g o] w2]; [done|]. injection Hw2 as -> ->.
  by exists w1, o, w2.
Qed.

Lemma capture_valid r baseline current includes r' b :
  valid_replica r -> (forall k v, pvalues current !! k = Some v -> is_Some (decode v)) -> coll_free (in_play (values r) current) ->
  capture bool_value uuids r baseline current includes = Ok (r', b) -> valid_replica r'.
Proof.
  intros [Hv Hf Hp] Hdec Hfree. rewrite capture_unfold. destruct (_ && _); [intros [= <- _]; by split|].
  destruct (collect _ _) as [fs|] eqn:Hc; cbn [rbind]; [|done]. destruct (write_all _ _ _ _) as [r1|] eqn:Hw; cbn [rbind]; [|done].
  intros [= -> _]. pose proof (capture_fields _ _ _ Hc) as Hfs. set (W := capture_writes r baseline current includes fs) in *.
  destruct (write_all_spec _ _ _ _ Hw) as (Hfix & Hkeep & Hlast). 
  destruct (write_all_keys _ _ _ _ _ Hfree (capture_in_play r baseline current includes fs Hfs) Hw) as (Hkeys & Hvals & Hmono & Hnew).
  assert (Hdig : holds (in_play (values r) current) r) by (intros d v Hd; split; [by apply Hv|left; eauto]).
  destruct (capture_effect r baseline current includes fs r' Hfs Hw) as (Hrem & _ & Hpres & _).
  destruct (capture_presence r baseline current includes fs Hfs) as [Hwr Hwe].
  assert (Hcase : forall f, f ∈ W.*1 -> from_key (key f) = Some f
    /\ exists b, (presence (resource f), Some (bool_value b)) ∈ W /\ only r' (presence (resource f)) (Some (bool_value b))).
  { intros f ([g o] & E & Hin)%list_elem_of_fmap. cbn in E. subst g. destruct (capture_writes_fields _ _ _ _ _ _ _ Hfs Hin) as [(g & Hg & Hfg & Hcs) _].
    split; [|destruct Hcs as [Hcs|(g' & Hcs & <-)]; [exists false|exists true]; auto].
    destruct (collect_elem_inv _ _ _ _ Hc Hg) as (k & Hk & _). destruct (from_key k) as [g'|] eqn:E; cbn in Hk; [|done]. injection Hk as ->.
    pose proof (from_key_key _ _ _ _ E) as Ek. unfold field_key in Ek. destruct Hfg as [->| ->]; [by rewrite Ek|by eapply presence_key]. }
  assert (Hread : forall k, k ∈ doc_keys (document r') -> exists f, from_key k = Some f /\ k = key f /\ (f ∉ W.*1 -> k ∈ doc_keys (document r))).
  { intros k [Hk|(f & Hin & ->)]%Hkeys; [|exists f; split; [by apply Hcase|]; split; [done|by intros []]].
    destruct (Hf k Hk) as (f & cs & E & _). exists f. split; [done|]. split; [|done]. symmetry. apply (from_key_key _ _ _ _ E). }
  constructor.
  - intros d v [Hd|(f & Hin & <-)]%Hvals; [by apply Hv|]. split; [done|]. destruct (capture_writes_fields _ _ _ _ _ _ _ Hfs Hin) as [_ [[b' [= ->]]|Ho]].
    + destruct (bool_decodes b') as (j & -> & _). by exists j.
    + by apply (Hdec (key f)).
  - intros k Hk. destruct (Hread k Hk) as (f & E & -> & Hold). destruct (decide (f ∈ W.*1)) as [Hin|Hin].
    + apply list_elem_of_fmap in Hin as ([g o] & E' & Hin). cbn in E'. subst g.
      assert (Hin' : f ∈ W.*1) by (apply list_elem_of_fmap; by exists (f, o)). apply list_elem_of_split_r in Hin' as (l1 & l2 & Hl & Hn).
      destruct (write_last W f l1 l2 Hl Hn) as (w1 & o' & w2 & HW & Hw2). destruct (Hlast w1 f o' w2 HW Hw2) as [op Hop]. eauto.
    + destruct (Hf (key f) (Hold Hin)) as (f' & cs & E' & Hcs). rewrite E in E'. injection E' as <-. exists f, cs. split; [done|]. by apply Hkeep.
  - intros k f Hk E Ho. destruct (Hread k Hk) as (f' & E' & Ek & Hold). rewrite E in E'. injection E' as <-.
    destruct (decide (presence (resource f) ∈ W.*1)) as [Hin|Hin].
    + destruct (Hcase _ Hin) as (_ & b' & HbW & op & Hop). cbn in HbW, Hop. split; [apply Hkeys; right; eauto|].
      eexists. split; [exact Hop|]. split; [done|]. intros c ->%list_elem_of_singleton. exists b'. apply bool_candidate. by eapply Hnew.
    + assert (Hfn : f ∉ W.*1).
      { intros Hfin. destruct (Hcase f Hfin) as (_ & b' & HbW & _). apply Hin. apply list_elem_of_fmap. eexists; split; [|exact HbW]; done. }
      destruct (Hp k f (Hold Hfn) E) as (Hkp & cs & Hcs & Hne & Hb); [unfold out_of_fixed in *; by rewrite Hfix in Ho|].
      split; [apply Hkeys; by left|]. exists cs. split; [by apply Hkeep|]. split; [done|]. intros c Hcin. destruct (Hb c Hcin) as [b' Hb']. exists b'.
      revert Hb'. unfold candidate_bool, candidate_value. destruct (values r !! cvalue c) as [v|] eqn:Ev; cbn [ok_or rbind]; [|done].
      by rewrite (Hmono Hdig _ _ Ev).
Qed.

Lemma capture_values r baseline current includes r' b :
  (forall d v, values r !! d = Some v -> digest (value_bytes v) = d) -> coll_free (in_play (values r) current) ->
  capture bool_value uuids r baseline current includes = Ok (r', b) ->
  forall d v, values r !! d = Some v -> values r' !! d = Some v.
Proof.
  intros Hok Hfree. rewrite capture_unfold. destruct (_ && _); [by intros [= <- _]|]. destruct (collect _ _) as [fs|] eqn:Hc; cbn [rbind]; [|done].
  destruct (write_all _ _ _ _) as [r1|] eqn:Hw; cbn [rbind]; [|done]. intros [= -> _]. pose proof (capture_fields _ _ _ Hc) as Hfs.
  apply (write_all_keys _ _ _ _ _ Hfree (capture_in_play r baseline current includes fs Hfs) Hw).
  intros d v Hd. split; [by apply Hok|left; eauto].
Qed.

(** ** Every operation keeps a replica valid *)

Lemma new_valid : valid_replica new_replica.
Proof. constructor; cbn; rewrite ?new_keys; set_solver. Qed.

(** One write of a value the replica has, or of a deletion, to a field in use. *)
Lemma rewrite_valid r f c cs uuid doc :
  valid_replica r -> uuid_ok uuid = true -> candidates r f = Ok cs -> c ∈ cs -> cvalue c = deleted_mark \/ is_Some (values r !! cvalue c) ->
  put (document r) (key f) (cvalue c ++ bs "/" ++ uuid) = Some doc -> valid_replica (mkReplica doc (values r) (fixed r)).
Proof.
  intros [Hv Hf Hp] Hu Hcs Hc Hval Hput. set (r' := mkReplica doc (values r) (fixed r)).
  assert (Hkin : key f ∈ doc_keys (document r)).
  { apply get_all_keys. intros E. unfold candidates in Hcs. rewrite E in Hcs. cbn in Hcs. injection Hcs as <-. set_solver. }
  assert (Hsame : exists op, candidates r' f = Ok [mkCandidate op (cvalue c)]).
  { apply (put_candidates r r' f (cvalue c) uuid Hput Hu). destruct Hval as [|[v Hval]]; [by left|right]. destruct (Hv _ _ Hval) as [<- _].
    destruct (digest_hex (value_bytes v)) as [Hl Hh]. split; [done|]. split; [done|]. cbn. destruct (Hv _ _ Hval) as [E _]. rewrite E. by exists v. }
  assert (Hoth : forall g, g <> f -> candidates r' g = candidates r g).
  { intros g Hg. apply candidates_ext; [|done|done]. eapply put_other; [exact Hput|]. intros E. apply Hg. by apply (key_inj json_roundtrip). }
  assert (Hkeys : forall k, k ∈ doc_keys (document r') <-> k ∈ doc_keys (document r)).
  { intros k. unfold r'. cbn [document]. rewrite (put_keys _ _ _ _ k Hput). naive_solver. }
  constructor; [exact Hv|..].
  - intros k Hk. apply Hkeys in Hk. destruct (Hf k Hk) as (g & gs & E & Hgs). exists g. destruct (decide (g = f)) as [->|Hne]; [|rewrite Hoth by done; eauto].
    destruct Hsame as [op ->]. eauto.
  - intros k g Hk E Ho. apply Hkeys in Hk. destruct (Hp k g Hk E Ho) as (Hpk & ps & Hps & Hne & Hb). split; [by apply Hkeys|].
    change (candidate_bool r') with (candidate_bool (mkReplica (document r) (values r) (fixed r))).
    destruct (decide (presence (resource g) = f)) as [Hg|Hg]; [|rewrite Hoth by done; exists ps; by destruct r].
    rewrite Hg in *. rewrite Hcs in Hps. injection Hps as <-. destruct Hsame as [op Hop]. exists [mkCandidate op (cvalue c)].
    split; [done|]. split; [done|]. intros c' ->%list_elem_of_singleton. destruct (Hb c Hc) as [b' Hb']. by exists b'.
Qed.

Lemma resolve_valid r conflict c includes uuid r' :
  valid_replica r -> uuid_ok uuid = true -> resolve r conflict c includes uuid = Ok r' -> valid_replica r'.
Proof.
  intros Hv Hu. unfold resolve. set (f := conflict_field conflict). destruct (_ || _ || _); [done|].
  destruct (candidates r f) as [cs|] eqn:Ec; cbn [rbind]; [|done]. destruct (_ || _) eqn:E2; [done|].
  apply orb_false_iff in E2 as [E2 E3]. apply negb_false_iff, bool_decide_eq_true in E2, E3. rewrite <- E2 in E3. case_bool_decide as Hd.
  - unfold delete_field. rewrite <- Hd. destruct (put _ _ _) as [doc|] eqn:Ep; cbn [ok_or rbind]; [|done]. intros [= <-].
    by apply (rewrite_valid r f c cs uuid doc); auto.
  - unfold candidate_value. destruct (values r !! cvalue c) as [v|] eqn:Ev; cbn [ok_or rbind]; [|done]. unfold write.
    destruct (vr_values _ Hv _ _ Ev) as [-> _]. destruct (put _ _ _) as [doc|] eqn:Ep; cbn [ok_or rbind]; [|done]. intros [= <-].
    rewrite insert_id by done. apply (rewrite_valid r f c cs uuid doc); eauto.
Qed.

(** The replicas a device can have: new, loaded, and after any row of operations. *)
Inductive reachable : SyncReplica -> Prop :=
| reach_new : reachable new_replica
| reach_load s r : load s = Ok r -> reachable r
| reach_merge r s r' : reachable r -> merge r s = Ok r' -> reachable r'
| reach_capture r baseline current includes r' b :
    reachable r -> (forall k v, pvalues current !! k = Some v -> is_Some (decode v)) -> coll_free (in_play (values r) current) ->
    capture bool_value uuids r baseline current includes = Ok (r', b) -> reachable r'
| reach_resolve r conflict c includes uuid r' :
    reachable r -> uuid_ok uuid = true -> resolve r conflict c includes uuid = Ok r' -> reachable r'.

(** C23: a replica is valid at all times: loading, capturing local changes, merging and
    resolving conflicts, in any order, never yield a replica that [validate] rejects (one
    with a value under a wrong digest, an unreadable register, or a resource without a
    boolean [$present]). The values of a projection can be decoded, and where changes are
    captured no two of the values that meet have the same digest. *)
Theorem reachable_valid r : reachable r -> validate r = Ok tt.
Proof.
  induction 1 as [|s r Hl|r s r' _ _ Hm|r baseline current includes r' b _ IH Hdec Hfree Hc|r conflict c includes uuid r' _ IH Hu Hr].
  - apply (validate_iff json_roundtrip), new_valid.
  - unfold load in Hl. destruct (negb _); [done|]. destruct (doc_load _) as [doc|]; cbn [ok_or rbind] in Hl; [|done].
    destruct (validate _) as [[]|] eqn:E; cbn [rbind] in Hl; [|done]. by injection Hl as <-.
  - unfold merge in Hm. destruct (load s) as [r2|]; cbn [rbind] in Hm; [|done]. destruct (negb _); [done|].
    destruct (doc_merge _ _) as [doc|]; cbn [ok_or rbind] in Hm; [|done]. destruct (validate _) as [[]|] eqn:E; cbn [rbind] in Hm; [|done]. by injection Hm as <-.
  - apply (validate_iff json_roundtrip). apply (validate_iff json_roundtrip) in IH. by eapply capture_valid.
  - apply (validate_iff json_roundtrip). apply (validate_iff json_roundtrip) in IH. by eapply resolve_valid.
Qed.
End CaptureLemmas.

(** ** Merging *)

Lemma merge_ok r s r' :
  merge r s = Ok r' ->
  validate r' = Ok tt
  /\ (forall d v, values r !! d = Some v -> values r' !! d = Some v)
  /\ (forall d v, snap_values s !! d = Some v -> values r' !! d = Some v)
  /\ (forall d v, values r' !! d = Some v -> values r !! d = Some v \/ snap_values s !! d = Some v).
Proof.
  unfold merge, load. destruct (negb _); [done|]. destruct (doc_load (snap_document s)) as [doc|]; cbn [ok_or rbind]; [|done].
  destruct (validate (mkReplica doc _ _)); cbn [rbind]; [|done]. cbn [values document fixed].
  destruct (forallb _ (map_to_list (snap_values s))) eqn:Ef; cbn [negb]; [|done].
  destruct (doc_merge _ _) as [md|]; cbn [ok_or rbind]; [|done]. destruct (validate (mkReplica md _ _)) as [[]|] eqn:Ev; cbn [rbind]; [|done].
  intros [= <-]. split; [done|]. cbn [values]. rewrite forallb_forall in Ef.
  assert (Hag : forall d v, snap_values s !! d = Some v -> forall w, values r !! d = Some w -> w = v).
  { intros d v Hd w Hw. specialize (Ef (d, v)). rewrite <- list_elem_of_In, elem_of_map_to_list in Ef. specialize (Ef Hd). cbn in Ef.
    rewrite Hw in Ef. by apply bool_decide_eq_true in Ef. }
  split_and!.
  - intros d v Hd. rewrite lookup_union. destruct (snap_values s !! d) as [w|] eqn:Es; rewrite Hd; [|done].
    rewrite (Hag d w Es v Hd). done.
  - intros d v Hd. rewrite lookup_union, Hd. by destruct (values r !! d).
  - intros d v Hd. apply lookup_union_Some_raw in Hd as [Hd|[_ Hd]]; [by right|by left].
Qed.

(** Merging keeps what both replicas have. A merge that is accepted yields a valid
    replica whose values are those of the two; a value that one of them holds under an
    identifier is what the merged one holds there, so no value is replaced. *)
Theorem merge_keeps_values r s r' :
  merge r s = Ok r' ->
  validate r' = Ok tt
  /\ (forall d v, values r !! d = Some v -> values r' !! d = Some v)
  /\ (forall d v, snap_values s !! d = Some v -> values r' !! d = Some v)
  /\ (forall d v, values r' !! d = Some v -> values r !! d = Some v \/ snap_values s !! d = Some v).
Proof. apply merge_ok. Qed.

End Engine.

(** ** Witnesses *)

(** A document as the map of its registers; a write replaces the register. *)
Definition ex_doc : Type := gmap bytes (list (option bytes * bytes)).
#[local] Instance ex_autodoc : AutoDoc ex_doc := {
  doc_new := (∅ : gmap bytes (list (option bytes * bytes)));
  get_all d k := default [] (d !! k);
  doc_keys d := (map_to_list (d : gmap bytes (list (option bytes * bytes)))).*1;
  put d k v := Some (<[k := [(Some v, bs "2")]]> (d : gmap bytes (list (option bytes * bytes))));
  doc_merge d d' := Some (union_with (fun a b => Some (a ++ b)) (d : gmap bytes (list (option bytes * bytes))) d');
  doc_load _ := Some (∅ : gmap bytes (list (option bytes * bytes)));
  doc_save _ := [];
}.

#[local] Instance ex_autodoc_laws : AutoDocLaws ex_doc.
Proof.
  split; cbn.
  - done.
  - intros d k Hk. unfold ex_doc in *. destruct (d !! k) as [l|] eqn:E; [|done]. apply list_elem_of_fmap. exists (k, l). split; [done|]. by apply elem_of_map_to_list.
  - intros d d' k v [= <-]. exists (bs "2"). unfold ex_doc in *. by rewrite lookup_insert_eq.
  - intros d d' k v k' [= <-] Hk. unfold ex_doc in *. by rewrite lookup_insert_ne.
  - intros d d' k v k' [= <-]. unfold ex_doc in *. rewrite !list_elem_of_fmap. split.
    + intros ([x l] & -> & Hx). apply elem_of_map_to_list in Hx. cbn. destruct (decide (x = k)) as [->|Hne]; [by left|right].
      rewrite lookup_insert_ne in Hx by done. exists (x, l). split; [done|]. by apply elem_of_map_to_list.
    + intros Hk. destruct (decide (k' = k)) as [->|Hne].
      * exists (k, [(Some v, bs "2")]). split; [done|]. apply elem_of_map_to_list. by rewrite lookup_insert_eq.
      * destruct Hk as [->|([x l] & -> & Hx)]; [done|]. exists (x, l). split; [done|]. apply elem_of_map_to_list in Hx.
        apply elem_of_map_to_list. by rewrite lookup_insert_ne.
Qed.

(** Identities with their lengths as text. *)
Definition len_to_string (f : SyncFieldId) : bytes :=
  Z.of_nat (length (kind (resource f))) :: kind (resource f) ++ Z.of_nat (length (SyncApplication.id (resource f))) :: SyncApplication.id (resource f) ++ field f.
Definition len_from_str (k : bytes) : option SyncFieldId :=
  match k with
  | n :: s =>
    match drop (Z.to_nat n) s with
    | m :: s' => Some (mkField (mkResource (take (Z.to_nat n) s) (take (Z.to_nat m) s')) (drop (Z.to_nat m) s'))
    | [] => None
    end
  | [] => None
  end.

Lemma len_roundtrip f : len_from_str (len_to_string f) = Some f.
Proof.
  destruct f as [[k i] n]. unfold len_from_str, len_to_string. cbn [resource kind SyncApplication.id field].
  rewrite !Nat2Z.id, drop_app_length, take_app_length. by rewrite Nat2Z.id, drop_app_length, take_app_length.
Qed.

Definition last_digest (b : bytes) : bytes := replicate 63 97%Z ++ [48 + List.hd 0 b mod 10]%Z.
Lemma last_digest_hex b : length (last_digest b) = 64 /\ forallb hash_byte (last_digest b) = true.
Proof.
  unfold last_digest. split; [by rewrite length_app, length_replicate|]. rewrite forallb_app. apply andb_true_iff. split; [vm_compute; reflexivity|].
  cbn [forallb]. rewrite andb_true_r. pose proof (Z.mod_pos_bound (List.hd 0%Z b) 10 ltac:(lia)). unfold hash_byte, between.
  rewrite (proj2 (Z.leb_le 48 (48 + _))), (proj2 (Z.leb_le (48 + _) 57)) by lia. done.
Qed.

Definition ex_as_bool (j : Z) : option bool := if (j =? 1)%Z then Some true else if (j =? 0)%Z then Some false else None.
Definition ex_res : SyncResourceId := mkResource (bs "connection") (bs "a").
Definition ex_name_field : SyncFieldId := mkField ex_res (bs "name").

(** A connection whose name is in conflict between two values. *)
Definition ex_replica : SyncReplica (Doc := ex_doc) (Value := Z) :=
  mkReplica
    ({[len_to_string (mkField ex_res present) := [(Some (last_digest [1%Z] ++ bs "/u"), bs "1")];
       len_to_string ex_name_field := [(Some (last_digest [2%Z] ++ bs "/u"), bs "1"); (Some (last_digest [3%Z] ++ bs "/v"), bs "9")]]} : gmap bytes _)
    {[last_digest [1%Z] := 1; last_digest [2%Z] := 2; last_digest [3%Z] := 3]}%Z false.

Definition ex_conflict : SyncConflict :=
  mkConflict ex_name_field [mkCandidate (bs "1") (last_digest [2%Z]); mkCandidate (bs "9") (last_digest [3%Z])].

Definition ex_validate := validate len_to_string len_from_str (fun _ => true) last_digest (fun v : Z => [v]) Some ex_as_bool [] (fun _ _ => true).
Definition ex_materialize := materialize len_to_string len_from_str (fun _ => true) Some ex_as_bool [] (fun _ _ => true).
Definition ex_conflicts := conflicts len_to_string len_from_str (fun _ => true) Some ex_as_bool [] (fun _ _ => true).

Example conflict_keeps_local_name :
  ex_conflicts ex_replica = Ok [ex_conflict]
  /\ ex_materialize ex_replica {[len_to_string (mkField ex_res present) := 1; len_to_string ex_name_field := 7]}%Z (fun _ => true)
     = Ok {[len_to_string (mkField ex_res present) := 1; len_to_string ex_name_field := 7]}%Z.
Proof. split; vm_compute; reflexivity. Qed.

Lemma materialize_effective_witness :
  exists regs cs m, registers len_to_string len_from_str (fun _ => true) [] (fun _ _ => true) ex_replica = Ok regs /\ ex_conflicts ex_replica = Ok cs
    /\ ex_materialize ex_replica ∅ (fun _ => true) = Ok m
    /\ forall f, from_key len_to_string len_from_str (len_to_string f) = Some f ->
         m !! len_to_string f = effective_value len_to_string Some ex_as_bool [] (fun _ _ => true) ex_replica (fun _ => true) ∅
           (blocked_resources (fun _ _ => true) cs) regs f.
Proof.
  apply (materialize_effective len_to_string len_from_str (fun _ => true) last_digest (fun v : Z => [v]) Some ex_as_bool [] (fun _ _ => true) len_roundtrip).
  vm_compute. reflexivity.
Defined.

Lemma materialize_keeps_conflicts_witness :
  exists cs m, ex_conflicts ex_replica = Ok cs /\ ex_materialize ex_replica ∅ (fun _ => true) = Ok m
    /\ forall c f, c ∈ cs -> from_key len_to_string len_from_str (len_to_string f) = Some f ->
         conflict_field c = f \/ conflict_field c = presence (resource f) -> m !! len_to_string f = (∅ : gmap bytes Z) !! len_to_string f.
Proof.
  apply (materialize_keeps_conflicts len_to_string len_from_str (fun _ => true) last_digest (fun v : Z => [v]) Some ex_as_bool [] (fun _ _ => true) len_roundtrip).
  vm_compute. reflexivity.
Defined.

Definition is_ok {T E} (r : result T E) : bool := match r with Ok _ => true | Err _ => false end.
Definition ex_resolve := resolve len_to_string (fun _ => true) last_digest (fun v : Z => [v]) [] (fun _ _ => true)
  ex_replica ex_conflict (mkCandidate (bs "9") (last_digest [3%Z])) (fun _ => true) (bs "w").

Lemma resolve_settles_witness :
  match ex_resolve with
  | Ok r' => exists op, candidates len_to_string (fun _ => true) [] (fun _ _ => true) r' ex_name_field = Ok [mkCandidate op (last_digest [3%Z])]
  | Err _ => False
  end.
Proof.
  assert (Hok : is_ok ex_resolve = true) by (vm_compute; reflexivity). destruct ex_resolve as [r'|e] eqn:E; [|done].
  apply (resolve_settles len_to_string len_from_str (fun _ => true) last_digest (fun v : Z => [v]) Some ex_as_bool [] (fun _ _ => true)
    len_roundtrip last_digest_hex ex_replica ex_conflict (mkCandidate (bs "9") (last_digest [3%Z])) (fun _ => true) (bs "w") r');
    [vm_compute; reflexivity|done|exact E].
Defined.

Definition ex_snapshot : ReplicaSnapshot := mkReplicaSnapshot 4 [] {[last_digest [5%Z] := 5%Z]}.
Definition ex_merge := merge len_to_string len_from_str (fun _ => true) last_digest (fun v : Z => [v]) Some ex_as_bool [] (fun _ _ => true).

Lemma merge_keeps_values_witness :
  match ex_merge ex_replica ex_snapshot with
  | Ok r' => values r' !! last_digest [5%Z] = Some 5%Z /\ values r' !! last_digest [2%Z] = Some 2%Z
  | Err _ => False
  end.
Proof.
  assert (Hok : is_ok (ex_merge ex_replica ex_snapshot) = true) by (vm_compute; reflexivity).
  destruct (ex_merge ex_replica ex_snapshot) as [r'|e] eqn:E; [|done].
  pose proof (merge_keeps_values len_to_string len_from_str (fun _ => true) last_digest (fun v : Z => [v]) Some ex_as_bool [] (fun _ _ => true)
    ex_replica ex_snapshot r' E) as (_ & H1 & H2 & _).
  split; [apply H2; vm_compute; reflexivity|apply H1; vm_compute; reflexivity].
Defined.

Definition ex_baseline : gmap bytes Z := {[len_to_string (mkField ex_res present) := 1; len_to_string ex_name_field := 2]}%Z.
Definition ex_current : SyncProjection (Value := Z) :=
  mkProjection {[len_to_string (mkField ex_res present) := 1; len_to_string ex_name_field := 7]}%Z [bs "connection"] [].
Definition ex_bool (b : bool) : Z := if b then 1%Z else 0%Z.

Lemma capture_records_edits_witness :
  exists r' b, capture len_to_string len_from_str last_digest (fun v : Z => [v]) [] (fun _ _ => true) ex_bool (fun _ => bs "w")
      ex_replica ex_baseline ex_current (fun _ => true) = Ok (r', b)
    /\ b = true /\ only len_to_string (fun _ => true) last_digest (fun v : Z => [v]) [] (fun _ _ => true) r' ex_name_field (Some 7%Z).
Proof.
  destruct (capture_records_edits len_to_string len_from_str (fun _ => true) last_digest (fun v : Z => [v]) [] (fun _ _ => true)
    len_roundtrip last_digest_hex (fun _ => bs "w") ltac:(done) ex_bool ex_replica ex_baseline ex_current (fun _ => true))
    as (r' & b & Hc & _ & Hed & _ & _ & Hb).
  - intros d k v. by eexists.
  - intros k [Hk|Hk]; unfold ex_baseline, ex_current, pvalues in Hk;
      (apply lookup_insert_is_Some in Hk as [<-|[_ Hk]]; [|apply lookup_singleton_is_Some in Hk as <-]); vm_compute; by eexists.
  - assert (He : edits len_to_string [] (fun _ _ => true) ex_replica ex_baseline ex_current (fun _ => true) ex_name_field).
    { split; [left; vm_compute; by eexists|]. split; [unfold removes; vm_compute; done|vm_compute; reflexivity]. }
    exists r', b. split; [exact Hc|]. split; [apply Hb; right; by eexists|]. apply Hed; [exact He|vm_compute; done].
Defined.

(** Texts as the values of a replica, as [SyncValue] has them: infinitely many, so that the
    digest has collisions, though none among the values of [text_current]. *)
Definition text_bytes (b : bytes) : bytes := b.
Definition text_bool (b : bool) : bytes := if b then bs "true" else bs "false".
Definition text_as_bool (j : bytes) : option bool :=
  if bool_decide (j = bs "true") then Some true else if bool_decide (j = bs "false") then Some false else None.

Lemma text_bool_decodes (b : bool) : exists j, Some (text_bool b) = Some j /\ text_as_bool j = Some b.
Proof. exists (text_bool b). split; [done|]. by destruct b. Qed.

Definition text_current : SyncProjection (Value := bytes) :=
  mkProjection {[len_to_string (mkField ex_res present) := bs "true"; len_to_string ex_name_field := bs "nyaterm"]} [bs "connection"] [].
Definition text_capture := capture (Doc := ex_doc) len_to_string len_from_str last_digest text_bytes [] (fun _ _ => true) text_bool (fun _ => bs "w")
  new_replica ∅ text_current (fun _ => true).
Definition text_merge := merge len_to_string len_from_str (fun _ => true) last_digest text_bytes Some text_as_bool [] (fun _ _ => true).
Definition text_snapshot : ReplicaSnapshot := mkReplicaSnapshot 4 [] {[last_digest (bs "true") := bs "true"]}.

Lemma text_in_play v : in_play text_bool ∅ text_current v -> v ∈ [bs "true"; bs "false"; bs "nyaterm"].
Proof.
  intros [[d Hd]|[[k Hk]|[[] ->]]]; [by rewrite lookup_empty in Hd| |set_solver..].
  unfold text_current, pvalues in Hk. apply lookup_insert_Some in Hk as [[_ <-]|[_ [_ <-]%lookup_singleton_Some]]; set_solver.
Qed.

Lemma text_coll_free : coll_free last_digest text_bytes (in_play text_bool ∅ text_current).
Proof.
  intros v w Hv%text_in_play Hw%text_in_play. rewrite !elem_of_cons in Hv, Hw.
  destruct Hv as [->|[->|[->|Hv%elem_of_nil]]], Hw as [->|[->|[->|Hw%elem_of_nil]]]; done.
Qed.

Example text_digest_collides : last_digest (bs "t") = last_digest (bs "true") /\ bs "t" <> bs "true".
Proof. done. Qed.

Lemma reachable_valid_witness :
  exists r b r', text_capture = Ok (r, b) /\ text_merge r text_snapshot = Ok r'
    /\ validate len_to_string len_from_str (fun _ => true) last_digest text_bytes Some text_as_bool [] (fun _ _ => true) r' = Ok tt.
Proof.
  assert (Hok : match text_capture with Ok (r, _) => is_ok (text_merge r text_snapshot) | Err _ => false end = true) by (vm_compute; reflexivity).
  destruct text_capture as [[r b]|] eqn:Ec; [|done]. destruct (text_merge r text_snapshot) as [r'|] eqn:Em; [|done].
  exists r, b, r'. split; [reflexivity|]. split; [exact Em|].
  apply (reachable_valid len_to_string len_from_str (fun _ => true) last_digest text_bytes Some text_as_bool [] (fun _ _ => true)
    len_roundtrip last_digest_hex (fun _ => bs "w") (fun _ => eq_refl) text_bool text_bool_decodes).
  eapply reach_merge; [|exact Em]. eapply reach_capture; [apply reach_new| | |exact Ec]; [intros k v _; exists v; reflexivity|exact text_coll_free].
Defined.
