(* ===== verification/SyncPlan.v ===== *)
(** * Plans and publications

    [prepare] of nyaterm-sync/src/engine.rs, the whole of one synchronisation round:
    local changes are recorded, resources this device never confirmed go on an independent
    branch, the remote replicas are merged, and the effective values and conflicts are read
    off. [PublishedReplica] of protocol.rs, what is uploaded: a snapshot reduced to the
    fixed scope.

    The parameters are those of [SyncEngine], the clock of fresh UUIDs for the branch, and
    the two tests for untouched defaults ([ai::default_resources], [is_default_preference]),
    of which nothing is assumed. *)

From stdpp Require Import base option list numbers strings gmap.
From Stdlib Require Import ZArith Lia.
From S2P Require Import Prelude RustStr RustOrd SyncApplication SyncProtocol SyncEngine.

Local Open Scope nat_scope.
Local Open Scope rust_scope.

Section Plan.
Context {Doc Value Json : Type} `{AutoDoc Doc} `{EqDecision Value}.
Context (json_to_string : SyncFieldId -> bytes) (json_from_str : bytes -> option SyncFieldId).
Context (uuid_ok : bytes -> bool) (digest : bytes -> bytes) (value_bytes : Value -> bytes).
Context (decode : Value -> option Json) (as_bool : Json -> option bool).
Context (core_kinds : list bytes) (supports_field : bytes -> bytes -> bool) (bool_value : bool -> Value).
Local Notation key := json_to_string.
Local Notation from_key := (from_key json_to_string json_from_str).
Local Notation SyncValues := (gmap bytes Value).
Local Notation SyncReplica := (SyncReplica (Doc := Doc) (Value := Value)).
Local Notation SyncProjection := (SyncProjection (Value := Value)).
Local Notation ReplicaSnapshot := (ReplicaSnapshot (Value := Value)).
Local Notation fields := (fields json_to_string json_from_str).
Local Notation candidates := (candidates json_to_string uuid_ok core_kinds supports_field).
Local Notation registers := (registers json_to_string json_from_str uuid_ok core_kinds supports_field).
Local Notation validate := (validate json_to_string json_from_str uuid_ok digest value_bytes decode as_bool core_kinds supports_field).
Local Notation load := (load json_to_string json_from_str uuid_ok digest value_bytes decode as_bool core_kinds supports_field).
Local Notation merge := (merge json_to_string json_from_str uuid_ok digest value_bytes decode as_bool core_kinds supports_field).
Local Notation capture := (capture json_to_string json_from_str digest value_bytes core_kinds supports_field bool_value).
Local Notation conflicts_from := (conflicts_from decode as_bool core_kinds supports_field).
Local Notation materialize_from := (materialize_from json_to_string json_from_str decode as_bool core_kinds supports_field).
Local Notation write := (write json_to_string digest value_bytes).
Local Notation fixed_cloud_sync_field := (fixed_cloud_sync_field core_kinds supports_field).

(** ** Migration *)

(** [preserve]: the values as they are; the keys come in order. *)
Fixpoint preserve (uuids : nat -> bytes) (n : nat) (r : SyncReplica) (kvs : list (bytes * Value)) : result SyncReplica SyncError :=
  match kvs with
  | [] => Ok r
  | (k, v) :: kvs' =>
    f <-? ok_or (from_key k) InvalidReplica;
    r' <-? write r f v (uuids n);
    preserve uuids (S n) r' kvs'
  end.

(** ** One round *)

Record SyncPlan := mkPlan {
  expected_local : SyncProjection;
  plan_includes : bytes -> bool;
  plan_replica : ReplicaSnapshot;
  plan_effective : gmap bytes Value;
  plan_conflicts : list SyncConflict;
}.

Section Prepare.
Context (default_resources : gmap bytes Value -> list SyncResourceId) (is_default_preference : SyncResourceId -> Value -> bool).

(** The resources in the projection without a baseline. *)
Definition unbased (baseline : SyncValues) (current : SyncProjection) : list SyncResourceId :=
  resource <$> filter (fun f => field f = present /\ baseline !! key f = None) (omap from_key (map_to_list (pvalues current)).*1).

(** The resources of the remote replicas, for a device that joins. *)
Fixpoint remote_resources (remotes : list ReplicaSnapshot) : result (list SyncResourceId) SyncError :=
  match remotes with
  | [] => Ok []
  | s :: remotes' =>
    r <-? load s;
    fs <-? fields r;
    rest <-? remote_resources remotes';
    Ok ((resource <$> filter (fun f => field f = present) fs) ++ rest)
  end.

Definition default_on_join (joining : bool) (current : SyncProjection) (default_ai initial : list SyncResourceId) (f : SyncFieldId) : bool :=
  joining
  && (bool_decide (resource f ∈ default_ai)
      || match pvalues current !! key (mkField (resource f) (bs "value")) with
         | Some v => is_default_preference (resource f) v
         | None => false
         end)
  && bool_decide (resource f ∈ initial).

(** Which values [retain] takes out of the ordinary projection, and which of these go to
    the independent one. *)
Definition on_branch (unbased : list SyncResourceId) (k : bytes) : bool :=
  match from_key k with Some f => bool_decide (resource f ∈ unbased) | None => false end.
Definition to_branch (unbased : list SyncResourceId) (on_join : SyncFieldId -> bool) (k : bytes) : bool :=
  match from_key k with Some f => bool_decide (resource f ∈ unbased) && negb (on_join f) | None => false end.

Fixpoint merge_all (r : SyncReplica) (remotes : list ReplicaSnapshot) : result SyncReplica SyncError :=
  match remotes with [] => Ok r | s :: remotes' => r' <-? merge r s; merge_all r' remotes' end.

Definition prepare (uuids seed_uuids : nat -> bytes) (local : option ReplicaSnapshot) (baseline : SyncValues) (current : SyncProjection)
    (remotes : list ReplicaSnapshot) (includes : bytes -> bool) (scope_ai : bool) : result SyncPlan SyncError :=
  replica <-? match local with Some s => load s | None => Ok new_replica end;
  let joining := bool_decide (local = None) in
  let ub := unbased baseline current in
  initial <-? (if joining then remote_resources remotes else Ok []);
  let default_ai := if scope_ai && joining then default_resources (pvalues current) else [] in
  let on_join := default_on_join joining current default_ai initial in
  let ordinary := mkProjection (filter (fun kv : bytes * Value => on_branch ub kv.1 = false) (pvalues current)) (complete current) (edited current) in
  let independent := mkProjection (filter (fun kv : bytes * Value => to_branch ub on_join kv.1 = true) (pvalues current)) (complete current) [] in
  captured <-? capture uuids replica baseline ordinary includes;
  branched <-? (if bool_decide (pvalues independent = ∅) then Ok captured.1
                else seed <-? capture seed_uuids new_replica ∅ independent includes; merge captured.1 (snapshot seed.1));
  merged <-? merge_all branched remotes;
  regs <-? registers merged;
  effective <-? materialize_from merged (pvalues current) includes regs;
  cs <-? conflicts_from merged regs;
  Ok (mkPlan current includes (snapshot merged) effective cs).
End Prepare.

(** ** Publications *)

(** [secret_objects] by its number of entries. *)
Record PublishedReplica := mkPublished { pub_schema : Z; pub_writer : bytes; pub_sequence : Z; pub_replica : ReplicaSnapshot; secret_objects : nat }.

Section Published.
Context (valid_fixed_value : SyncFieldId -> Json -> bool).
Local Notation fixed_snapshot := (fixed_snapshot json_to_string json_from_str uuid_ok digest value_bytes decode as_bool core_kinds supports_field valid_fixed_value).

Definition PUBLICATION_SCHEMA_VERSION : Z := 5.

Definition publish_fixed (writer : bytes) (sequence : Z) (s : ReplicaSnapshot) : result PublishedReplica SyncError :=
  replica <-? load s;
  fs <-? fixed_snapshot replica;
  Ok (mkPublished PUBLICATION_SCHEMA_VERSION writer sequence fs 0).

Definition validate_fixed (p : PublishedReplica) : result unit SyncError :=
  if negb (pub_schema p =? PUBLICATION_SCHEMA_VERSION)%Z || negb (schema (pub_replica p) =? 5)%Z || negb (secret_objects p =? 0) then Err InvalidReplica
  else
    replica <-? load (pub_replica p);
    fs <-? fixed_snapshot replica;
    if negb (bool_decide (snap_values fs = snap_values (pub_replica p))) then Err InvalidReplica else Ok tt.
End Published.

(** ** What a plan promises *)

Section PlanLaws.
Context `{!AutoDocLaws Doc}.
Context (json_roundtrip : forall f, json_from_str (json_to_string f) = Some f).
Context (digest_hex : forall b, length (digest b) = 64 /\ forallb hash_byte (digest b) = true).
Context (bool_decodes : forall b, exists j, decode (bool_value b) = Some j /\ as_bool j = Some b).
Context (default_resources : gmap bytes Value -> list SyncResourceId) (is_default_preference : SyncResourceId -> Value -> bool).
Local Notation valid_replica := (valid_replica json_to_string json_from_str uuid_ok digest value_bytes decode as_bool core_kinds supports_field).
Local Notation effective_value := (effective_value json_to_string decode as_bool core_kinds supports_field).
Local Notation blocked_resources := (blocked_resources supports_field).
Local Notation coll_free := (coll_free digest value_bytes).
Local Notation in_play := (in_play bool_value).
Local Notation prepare_with := (prepare default_resources is_default_preference).
Local Notation validates := (validate_iff json_to_string json_from_str uuid_ok digest value_bytes decode as_bool core_kinds supports_field json_roundtrip).

Lemma load_inv s r : load s = Ok r -> validate r = Ok tt /\ values r = snap_values s /\ doc_load (snap_document s) = Some (document r) /\ fixed r = (schema s =? 5)%Z.
Proof.
  unfold SyncEngine.load. destruct (negb _); [done|]. destruct (doc_load _) as [doc|]; cbn [ok_or rbind]; [|done].
  destruct (validate _) as [[]|] eqn:E; cbn [rbind]; [|done]. by intros [= <-].
Qed.

Lemma merge_all_ok r remotes r' :
  validate r = Ok tt -> merge_all r remotes = Ok r' ->
  validate r' = Ok tt /\ (forall d v, values r !! d = Some v -> values r' !! d = Some v)
  /\ (forall s d v, s ∈ remotes -> snap_values s !! d = Some v -> values r' !! d = Some v).
Proof.
  revert r. induction remotes as [|s remotes IH]; intros r Hv; cbn [merge_all]; [intros [= <-]; split_and!; [done|done|set_solver]|].
  destruct (merge r s) as [r1|] eqn:Em; cbn [rbind]; [|done]. intros Hl.
  destruct (merge_ok _ _ _ _ _ _ _ _ _ _ _ _ Em) as (Hv1 & H1 & H2 & _). destruct (IH r1 Hv1 Hl) as (Hv2 & H3 & H4).
  split_and!; [done|auto|]. intros s' d v [->|Hs]%elem_of_cons Hd; [by apply H3, H2|by eapply H4].
Qed.

(** Recording keeps a valid replica valid, with its values. *)
Lemma capture_ok uuids r baseline current includes rb :
  (forall n, uuid_ok (uuids n) = true) -> validate r = Ok tt -> (forall k v, pvalues current !! k = Some v -> is_Some (decode v)) ->
  coll_free (in_play (values r) current) -> capture uuids r baseline current includes = Ok rb ->
  validate rb.1 = Ok tt /\ forall d v, values r !! d = Some v -> values rb.1 !! d = Some v.
Proof.
  destruct rb as [r' b]. intros Hu Hv Hdec Hfree Hc. apply validates in Hv. cbn [fst]. split.
  - apply validates. by eapply (capture_valid json_to_string json_from_str uuid_ok digest value_bytes decode as_bool core_kinds supports_field
      json_roundtrip digest_hex uuids Hu bool_value bool_decodes).
  - eapply (capture_values json_to_string json_from_str uuid_ok digest value_bytes decode as_bool core_kinds supports_field
      json_roundtrip digest_hex uuids Hu bool_value bool_decodes); [|exact Hfree|exact Hc].
    intros d v Hd. by apply (vr_values _ _ _ _ _ _ _ _ _ _ Hv).
Qed.

(** What this device has: the values of its last snapshot. *)
Definition local_values (local : option ReplicaSnapshot) : SyncValues := match local with Some s => snap_values s | None => ∅ end.

(** Fewer values, or none: no more collisions. *)
Lemma coll_free_filter vs current (Q : bytes * Value -> Prop) `{!forall kv, Decision (Q kv)} c e :
  coll_free (in_play vs current) -> coll_free (in_play vs (mkProjection (filter Q (pvalues current)) c e)).
Proof.
  assert (Hsub : forall v, in_play vs (mkProjection (filter Q (pvalues current)) c e) v -> in_play vs current v).
  { intros v [Hv|[[k Hk]|Hv]]; [by left| |by right; right]. apply map_lookup_filter_Some in Hk as [Hk _]. right. left. eauto. }
  intros Hfree v w Hv Hw. apply Hfree; auto.
Qed.

(** The replica of a plan. *)
Lemma prepare_inv uuids seed_uuids local baseline current remotes includes scope_ai plan :
  (forall n, uuid_ok (uuids n) = true) ->
  (forall k v, pvalues current !! k = Some v -> is_Some (decode v)) ->
  coll_free (in_play (local_values local) current) ->
  prepare_with uuids seed_uuids local baseline current remotes includes scope_ai = Ok plan ->
  exists r regs, validate r = Ok tt /\ registers r = Ok regs
    /\ conflicts_from r regs = Ok (plan_conflicts plan) /\ materialize_from r (pvalues current) includes regs = Ok (plan_effective plan)
    /\ plan_replica plan = snapshot r /\ expected_local plan = current /\ plan_includes plan = includes
    /\ (forall s d v, s ∈ remotes \/ local = Some s -> snap_values s !! d = Some v -> values r !! d = Some v).
Proof.
  intros Hu Hdec Hfree. unfold prepare. destruct (match local with Some s => load s | None => Ok new_replica end) as [r0|] eqn:E0; cbn [rbind]; [|done].
  destruct (if bool_decide (local = None) then _ else _) as [initial|]; cbn [rbind]; [|done].
  set (ordinary := mkProjection (filter _ (pvalues current)) _ _). set (independent := mkProjection (filter _ (pvalues current)) _ _).
  assert (Hvals0 : values r0 = local_values local).
  { destruct local as [s|]; [by destruct (load_inv s r0 E0) as (_ & Hvals & _)|by injection E0 as <-]. }
  assert (Hv0 : validate r0 = Ok tt /\ forall s d v, local = Some s -> snap_values s !! d = Some v -> values r0 !! d = Some v).
  { destruct local as [s|]; [|injection E0 as <-; split; [apply validates|done]].
    - destruct (load_inv s r0 E0) as (Hv & Hvals & _). split; [done|]. intros s' d v [= <-]. by rewrite Hvals.
    - by eapply (new_valid json_to_string json_from_str uuid_ok digest value_bytes decode as_bool core_kinds supports_field
        json_roundtrip digest_hex uuids Hu bool_value bool_decodes). }
  destruct Hv0 as [Hv0 Hl0].
  assert (Hdec1 : forall k v, pvalues ordinary !! k = Some v -> is_Some (decode v)).
  { intros k v Hv. apply map_lookup_filter_Some in Hv as [Hv _]. by eapply Hdec. }
  destruct (capture uuids r0 baseline ordinary includes) as [c1|] eqn:Ec; cbn [rbind]; [|done].
  rewrite <- Hvals0 in Hfree.
  destruct (capture_ok _ _ _ _ _ _ Hu Hv0 Hdec1 (coll_free_filter _ _ _ _ _ Hfree) Ec) as [Hv1 H1].
  destruct (if bool_decide (pvalues independent = ∅) then _ else _) as [r2|] eqn:Eb; cbn [rbind]; [|done].
  assert (Hv2 : validate r2 = Ok tt /\ forall d v, values c1.1 !! d = Some v -> values r2 !! d = Some v).
  { case_bool_decide; [by injection Eb as <-|]. destruct (capture seed_uuids _ _ _ _) as [seed|]; cbn [rbind] in Eb; [|done].
    destruct (merge_ok _ _ _ _ _ _ _ _ _ _ _ _ Eb) as (Hv2 & H2 & _). done. }
  destruct Hv2 as [Hv2 H2]. destruct (merge_all r2 remotes) as [r3|] eqn:Em; cbn [rbind]; [|done].
  destruct (merge_all_ok r2 remotes r3 Hv2 Em) as (Hv3 & H3 & H4).
  destruct (registers r3) as [regs|] eqn:Er; cbn [rbind]; [|done]. destruct (materialize_from _ _ _ _) as [m|] eqn:Emat; cbn [rbind]; [|done].
  destruct (conflicts_from r3 regs) as [cs|] eqn:Ecs; cbn [rbind]; [|done]. intros [= <-]. exists r3, regs.
  split_and!; try done. intros s d v [Hs|Hs] Hd; [by eapply H4|]. by apply H3, H2, H1, (Hl0 s).
Qed.

(** C4: what a synchronisation round promises. When [prepare] returns a plan, its replica
    is valid and has every value of this device's and of every remote replica; the effective
    values are, field by field, those of that replica over the local ones; and every field
    in conflict, or of a resource whose existence is in conflict, keeps its local value. The
    values of the projection can be decoded, and no two values of this device (its last
    snapshot, its projection, the booleans) have the same digest; of the remote values
    nothing is assumed. *)
Theorem prepare_plan uuids seed_uuids local baseline current remotes includes scope_ai plan :
  (forall n, uuid_ok (uuids n) = true) ->
  (forall k v, pvalues current !! k = Some v -> is_Some (decode v)) ->
  coll_free (in_play (local_values local) current) ->
  prepare_with uuids seed_uuids local baseline current remotes includes scope_ai = Ok plan ->
  exists r regs, plan_replica plan = snapshot r /\ validate r = Ok tt /\ registers r = Ok regs
    /\ conflicts_from r regs = Ok (plan_conflicts plan)
    /\ (forall s d v, s ∈ remotes \/ local = Some s -> snap_values s !! d = Some v -> values r !! d = Some v)
    /\ (forall f, from_key (key f) = Some f ->
         plan_effective plan !! key f = effective_value r includes (pvalues current) (blocked_resources (plan_conflicts plan)) regs f)
    /\ (forall c f, c ∈ plan_conflicts plan -> from_key (key f) = Some f ->
         conflict_field c = f \/ conflict_field c = presence (resource f) -> plan_effective plan !! key f = pvalues current !! key f).
Proof.
  intros Hu Hdec Hfree Hp. destruct (prepare_inv _ _ _ _ _ _ _ _ _ Hu Hdec Hfree Hp) as (r & regs & Hv & Er & Ec & Em & Hs & _ & _ & Hvals).
  destruct (materialize_ok _ _ _ _ _ _ _ _ _ json_roundtrip r (pvalues current) includes Hv) as (regs' & cs & m & Er' & Ec' & Em' & Hm).
  rewrite Er in Er'. injection Er' as <-. rewrite Ec in Ec'. injection Ec' as <-.
  unfold materialize in Em'. rewrite Er in Em'. cbn [rbind] in Em'. rewrite Em in Em'. injection Em' as <-.
  exists r, regs. split_and!; try done. intros c f Hc Hf Hcf. rewrite (Hm f Hf).
  by apply (effective_conflict json_to_string json_from_str decode as_bool core_kinds supports_field json_roundtrip r _ includes regs _ c f).
Qed.
End PlanLaws.

(** ** What is published *)

Section PublicationLaws.
Context (load_save : forall d : Doc, doc_load (doc_save d) = Some d).
Context (valid_fixed_value : SyncFieldId -> Json -> bool).
Local Notation fixed_candidates := (fixed_candidates decode valid_fixed_value).
Local Notation fixed_values := (fixed_values json_to_string uuid_ok decode core_kinds supports_field valid_fixed_value).
Local Notation fixed_snapshot := (fixed_snapshot json_to_string json_from_str uuid_ok digest value_bytes decode as_bool core_kinds supports_field valid_fixed_value).

(** A value of a candidate of a field of the fixed scope that may hold it. *)
Definition publishable (r : SyncReplica) (fs : list SyncFieldId) (d : bytes) (v : Value) : Prop :=
  exists f cs c j, f ∈ fs /\ fixed_cloud_sync_field f = true /\ candidates r f = Ok cs /\ c ∈ cs /\ cvalue c = d
    /\ values r !! d = Some v /\ decode v = Some j /\ valid_fixed_value f j = true.

Lemma fixed_candidates_spec (r : SyncReplica) f cs acc vs :
  fixed_candidates r f cs acc = Ok vs ->
  (forall d v, vs !! d = Some v -> acc !! d = Some v
     \/ exists c j, c ∈ cs /\ cvalue c = d /\ values r !! d = Some v /\ decode v = Some j /\ valid_fixed_value f j = true)
  /\ (forall d, is_Some (acc !! d) -> is_Some (vs !! d)) /\ (forall c, c ∈ cs -> cvalue c <> deleted_mark -> is_Some (vs !! cvalue c)).
Proof.
  revert acc. induction cs as [|c cs IH]; intros acc; cbn [SyncEngine.fixed_candidates]; [intros [= <-]; split_and!; [auto|auto|set_solver]|].
  case_bool_decide as Hd.
  - intros Hl. destruct (IH acc Hl) as (H1 & H2 & H3). split_and!; [|done|].
    + intros d v Hv. destruct (H1 d v Hv) as [|(c' & j & Hc & Hrest)]; [by left|right]. exists c', j. split; [set_solver|done].
    + intros c' [->|Hc]%elem_of_cons Hne; [done|by apply H3].
  - unfold candidate_value. destruct (values r !! cvalue c) as [v|] eqn:Ev; cbn [ok_or rbind]; [|done].
    destruct (decode v) as [j|] eqn:Ej; cbn [ok_or rbind]; [|done]. destruct (valid_fixed_value f j) eqn:Ef; cbn [negb]; [|done].
    intros Hl. destruct (IH _ Hl) as (H1 & H2 & H3). split_and!.
    + intros d w Hw. destruct (H1 d w Hw) as [Ha|(c' & j' & Hc & Hrest)]; [|right; exists c', j'; split; [set_solver|done]].
      apply lookup_insert_Some in Ha as [[<- <-]|[_ Ha]]; [right; exists c, j; split; [set_solver|done]|by left].
    + intros d Hd'. apply H2. apply lookup_insert_is_Some'. by right.
    + intros c' [->|Hc]%elem_of_cons Hne; [apply H2, lookup_insert_is_Some'; by left|by apply H3].
Qed.

Lemma fixed_values_spec (r : SyncReplica) fs acc vs :
  fixed_values r fs acc = Ok vs ->
  (forall d v, vs !! d = Some v -> acc !! d = Some v \/ publishable r fs d v)
  /\ (forall d, is_Some (acc !! d) -> is_Some (vs !! d))
  /\ (forall f, f ∈ fs -> fixed_cloud_sync_field f = true -> exists cs, candidates r f = Ok cs
        /\ forall c, c ∈ cs -> cvalue c <> deleted_mark -> is_Some (vs !! cvalue c)).
Proof.
  revert acc. induction fs as [|f fs IH]; intros acc; cbn [SyncEngine.fixed_values]; [intros [= <-]; split_and!; [auto|auto|set_solver]|].
  assert (Hmono : forall d v, publishable r fs d v -> publishable r (f :: fs) d v).
  { intros d v (g & cs & c & j & Hg & Hrest). exists g, cs, c, j. split; [set_solver|done]. }
  destruct (fixed_cloud_sync_field f) eqn:Efx; cbn [negb].
  - destruct (candidates r f) as [cs|] eqn:Ec; cbn [rbind]; [|done]. destruct (fixed_candidates r f cs acc) as [acc'|] eqn:Ea; cbn [rbind]; [|done].
    intros Hl. destruct (IH acc' Hl) as (H1 & H2 & H3). destruct (fixed_candidates_spec _ _ _ _ _ Ea) as (G1 & G2 & G3). split_and!.
    + intros d v Hv. destruct (H1 d v Hv) as [Ha|Hp]; [|right; by apply Hmono]. destruct (G1 d v Ha) as [|(c & j & Hc & Hrest)]; [by left|].
      right. exists f, cs, c, j. split; [set_solver|done].
    + auto.
    + intros g [->|Hg]%elem_of_cons Hgx; [|by apply H3]. exists cs. split; [done|]. auto.
  - intros Hl. destruct (IH acc Hl) as (H1 & H2 & H3). split_and!; [|done|].
    + intros d v Hv. destruct (H1 d v Hv) as [|Hp]; [by left|right; by apply Hmono].
    + intros g [->|Hg]%elem_of_cons Hgx; [congruence|by apply H3].
Qed.

(** Two replicas that agree on what is published. *)
Lemma fixed_candidates_ext (r r2 : SyncReplica) f cs acc :
  (forall c, c ∈ cs -> cvalue c <> deleted_mark -> values r2 !! cvalue c = values r !! cvalue c) -> fixed_candidates r2 f cs acc = fixed_candidates r f cs acc.
Proof.
  revert acc. induction cs as [|c cs IH]; intros acc Hv; cbn [SyncEngine.fixed_candidates]; [done|].
  assert (Hcs : forall acc, fixed_candidates r2 f cs acc = fixed_candidates r f cs acc) by (intros; apply IH; intros; apply Hv; [set_solver|done]).
  case_bool_decide as Hd; [done|]. unfold candidate_value. rewrite (Hv c) by (set_solver || done).
  destruct (values r !! cvalue c); cbn [ok_or rbind]; [|done]. destruct (decode _); cbn [ok_or rbind]; [|done]. by destruct (negb _).
Qed.

Lemma fixed_values_ext (r r2 : SyncReplica) fs acc :
  (forall f, f ∈ fs -> fixed_cloud_sync_field f = true -> exists cs, candidates r f = Ok cs /\ candidates r2 f = Ok cs
     /\ forall c, c ∈ cs -> cvalue c <> deleted_mark -> values r2 !! cvalue c = values r !! cvalue c) ->
  fixed_values r2 fs acc = fixed_values r fs acc.
Proof.
  revert acc. induction fs as [|f fs IH]; intros acc Hv; cbn [SyncEngine.fixed_values]; [done|].
  assert (Hfs : forall acc, fixed_values r2 fs acc = fixed_values r fs acc) by (intros; apply IH; intros g Hg; apply Hv; set_solver).
  destruct (fixed_cloud_sync_field f) eqn:E; cbn [negb]; [|done]. destruct (Hv f) as (cs & -> & -> & Hcs); [set_solver|done|]. cbn [rbind].
  rewrite (fixed_candidates_ext r r2) by done. by destruct (fixed_candidates r f cs acc); cbn [rbind].
Qed.

(** The candidates of a field do not depend on values other than theirs. *)
Lemma candidates_restrict (r r2 : SyncReplica) f cs :
  get_all (document r2) (key f) = get_all (document r) (key f) -> candidates r f = Ok cs ->
  (forall c, c ∈ cs -> cvalue c <> deleted_mark -> is_Some (values r2 !! cvalue c)) -> candidates r2 f = Ok cs.
Proof.
  intros Hg. unfold SyncEngine.candidates. rewrite Hg. destruct (collect (candidate uuid_ok core_kinds supports_field r f) _) as [cs0|] eqn:E; cbn [rbind]; [|done].
  intros [= <-] Hv. assert (collect (candidate uuid_ok core_kinds supports_field r2 f) (get_all (document r) (key f)) = Ok cs0) as ->; [|done].
  apply collect_Ok. pose proof E as E'. apply collect_Ok in E'. apply Forall2_same_length_lookup in E' as [Hlen Hl]. apply Forall2_same_length_lookup. split; [done|].
  intros i e c He Hc. specialize (Hl i e c He Hc). assert (Hin : c ∈ cs0) by (by eapply list_elem_of_lookup_2). rewrite <- (sort_by_perm (cmp_le (fun a b => str_cmp (operation a) (operation b)))) in Hin.
  specialize (Hv c Hin). revert Hl. unfold candidate. destruct (ok_or e.1 _) as [rf|]; cbn [rbind]; [|done].
  destruct (ok_or (split_once 47 rf) _) as [di|]; cbn [rbind]; [|done]. destruct (negb (uuid_ok di.2)); [done|].
  destruct (negb (bool_decide (di.1 = deleted_mark)) && (negb (length di.1 =? 64) || negb (forallb hash_byte di.1))); [done|].
  destruct (_ && _ && _); [done|]. intros [= <-]. cbn [cvalue] in Hv. case_bool_decide as Hd; cbn [negb andb]; [done|].
  by rewrite (bool_decide_true (is_Some (values r2 !! di.1))) by auto.
Qed.

(** A publication carries the fixed scope and nothing else. What [fixed] builds passes
    [validate_fixed] as a reader runs it, has no secret objects, and each of its values is
    one of the snapshot, under a field of the fixed scope that may hold it. *)
Theorem publication_scope writer sequence (s : ReplicaSnapshot) p :
  publish_fixed valid_fixed_value writer sequence s = Ok p ->
  validate_fixed valid_fixed_value p = Ok tt /\ secret_objects p = 0 /\ pub_writer p = writer /\ pub_sequence p = sequence
  /\ exists r fs, load s = Ok r /\ fields r = Ok fs
       /\ forall d v, snap_values (pub_replica p) !! d = Some v -> snap_values s !! d = Some v /\ publishable r fs d v.
Proof.
  unfold publish_fixed. destruct (load s) as [r|] eqn:El; cbn [rbind]; [|done]. destruct (fixed_snapshot r) as [s'|] eqn:Es; cbn [rbind]; [|done]. intros [= <-].
  unfold SyncEngine.fixed_snapshot in Es. destruct (fields r) as [fs|] eqn:Ef; cbn [rbind] in Es; [|done].
  destruct (fixed_values r fs ∅) as [vs|] eqn:Ev; cbn [rbind] in Es; [|done]. set (s0 := mkReplicaSnapshot 5 (doc_save (document r)) vs) in *.
  destruct (load s0) as [r2|] eqn:El2; cbn [rbind] in Es; [|done]. injection Es as <-.
  destruct (fixed_values_spec _ _ _ _ Ev) as (H1 & _ & H3). destruct (load_inv s r El) as (_ & Hvals & _). destruct (load_inv s0 r2 El2) as (_ & Hvals2 & Hdoc2 & _).
  unfold s0 in Hdoc2, Hvals2. cbn [snap_document snap_values] in Hdoc2, Hvals2. rewrite load_save in Hdoc2. injection Hdoc2 as Hdoc2.
  assert (Hpub : forall d v, vs !! d = Some v -> publishable r fs d v) by (intros d v Hd; destruct (H1 d v Hd) as [Ha|]; [by rewrite lookup_empty in Ha|done]).
  assert (Ev2 : fixed_values r2 fs ∅ = Ok vs).
  { rewrite (fixed_values_ext r r2); [done|]. intros f Hf Hfx. destruct (H3 f Hf Hfx) as (cs & Hcs & Hin). exists cs. split; [done|].
    split; [apply (candidates_restrict r r2); [by rewrite Hdoc2|done|intros; rewrite Hvals2; auto]|].
    intros c Hc Hd. rewrite Hvals2. destruct (Hin c Hc Hd) as [v Hv]. rewrite Hv. destruct (Hpub _ _ Hv) as (? & ? & ? & ? & _ & _ & _ & _ & _ & -> & _). done. }
  split_and!; try done.
  - unfold validate_fixed. cbn [pub_schema pub_replica secret_objects schema s0]. unfold PUBLICATION_SCHEMA_VERSION. cbn [Z.eqb negb orb Nat.eqb].
    change (5 =? 5)%Z with true. cbn [negb orb]. rewrite El2. cbn [rbind]. unfold SyncEngine.fixed_snapshot. assert (fields r2 = Ok fs) as -> by (unfold SyncEngine.fields in *; by rewrite <- Hdoc2).
    cbn [rbind]. rewrite Ev2. cbn [rbind]. rewrite <- Hdoc2. fold s0. rewrite El2. cbn [rbind]. by rewrite bool_decide_true.
  - exists r, fs. split_and!; try done. intros d v Hd. cbn [pub_replica s0 snap_values] in Hd. split; [|by apply Hpub].
    destruct (Hpub d v Hd) as (? & ? & ? & ? & _ & _ & _ & _ & _ & Hr & _). by rewrite <- Hvals.
Qed.
End PublicationLaws.
End Plan.

(** ** Witnesses *)

#[local] Existing Instance ex_autodoc.
#[local] Existing Instance ex_autodoc_laws.

(** A device that joins with a connection, and a remote replica with a value. *)
Definition join_plan := prepare (Doc := ex_doc) len_to_string len_from_str (fun _ => true) last_digest text_bytes Some text_as_bool [] (fun _ _ => true) text_bool
  (fun _ => []) (fun _ _ => false) (fun _ => bs "w") (fun _ => bs "s") None ∅ text_current [text_snapshot] (fun _ => true) false.

Lemma prepare_plan_witness :
  exists plan, join_plan = Ok plan /\ snap_values (plan_replica plan) !! last_digest (bs "true") = Some (bs "true").
Proof.
  assert (Hok : is_ok join_plan = true) by (vm_compute; reflexivity). destruct join_plan as [plan|] eqn:Ep; [|discriminate Hok]. exists plan. split; [reflexivity|].
  destruct (prepare_plan (Doc := ex_doc) len_to_string len_from_str (fun _ => true) last_digest text_bytes Some text_as_bool [] (fun _ _ => true) text_bool
    len_roundtrip last_digest_hex text_bool_decodes (fun _ => []) (fun _ _ => false)
    (fun _ => bs "w") (fun _ => bs "s") None ∅ text_current [text_snapshot] (fun _ => true) false plan) as (r & regs & Hs & _ & _ & _ & Hv & _).
  - reflexivity.
  - intros k v _. exists v. reflexivity.
  - exact text_coll_free.
  - exact Ep.
  - rewrite Hs. apply (Hv text_snapshot); [left; apply list_elem_of_here|vm_compute; reflexivity].
Defined.

(** A document that is its own saved form, with one connection. *)
#[local] Instance text_autodoc : AutoDoc bytes := {
  doc_new := [];
  get_all _ _ := [(Some (last_digest (bs "true") ++ bs "/u"), bs "1")];
  doc_keys _ := [len_to_string (mkField ex_res present); len_to_string ex_name_field];
  put d _ _ := Some d;
  doc_merge d _ := Some d;
  doc_load d := Some d;
  doc_save d := d;
}.

Lemma text_load_save (d : bytes) : doc_load (doc_save d) = Some d.
Proof. reflexivity. Qed.

Definition ex_publish := publish_fixed (Doc := bytes) len_to_string len_from_str (fun _ => true) last_digest text_bytes Some text_as_bool [bs "connection"] (fun _ _ => true)
  (fun _ _ => true) (bs "writer") 1 text_snapshot.

Lemma publication_scope_witness :
  exists p, ex_publish = Ok p
    /\ validate_fixed (Doc := bytes) len_to_string len_from_str (fun _ => true) last_digest text_bytes Some text_as_bool [bs "connection"] (fun _ _ => true) (fun _ _ => true) p = Ok tt.
Proof.
  assert (Hok : is_ok ex_publish = true) by (vm_compute; reflexivity). destruct ex_publish as [p|] eqn:Ep; [|discriminate Hok]. exists p. split; [reflexivity|].
  apply (publication_scope (Doc := bytes) len_to_string len_from_str (fun _ => true) last_digest text_bytes Some text_as_bool [bs "connection"] (fun _ _ => true)
    text_bool text_load_save (fun _ _ => true) (bs "writer") 1%Z text_snapshot p Ep).
Defined.
