(* ===== verification/SyncOperations.v ===== *)
(** * Controls and admission of synchronisation jobs

    [nyaterm-core/src/cloud_sync/control.rs], the operation registry of
    [nyaterm-desktop/src/features/sync/operation/registry.rs], the gate of
    [nyaterm-desktop/src/app_shell/configuration_replacement.rs] and the errors of
    [nyaterm-core/src/cloud_sync/mod.rs] and [error.rs]. A job carries controls, atomic
    cells in which a request to cancel races with the start of the commit; jobs register
    themselves, so that a shutdown can cancel all of them, keep new ones out and wait until
    they are done; and only one job at a time may replace the configuration. The theorems
    show that cancel and commit have exactly one winner in every interleaving, that a
    shutdown leaves no registered job able to start a commit and loses no wake-up, and that
    after a replacement nobody writes before the windows were refreshed. *)

From Stdlib Require Import ZArith Lia.
From stdpp Require Import base numbers option list gmap sets relations strings.
From S2P Require Import Prelude RustStr.

Local Open Scope Z_scope.

(** ** Errors *)

Inductive CloudStorageErrorKind :=
| Dns | Connect | Tls | Timeout | ConnectionReset | PermissionDenied | NotFound | StorageConflict | Unsupported
| InvalidConfiguration | Unexpected.

Definition kind_classification (k : CloudStorageErrorKind) : bytes :=
  match k with
  | Dns => bs "dns"
  | Connect => bs "connect"
  | Tls => bs "tls"
  | Timeout => bs "timeout"
  | ConnectionReset => bs "connection_reset"
  | PermissionDenied => bs "permission_denied"
  | NotFound => bs "not_found"
  | StorageConflict => bs "conflict"
  | Unsupported => bs "unsupported"
  | InvalidConfiguration => bs "invalid_configuration"
  | Unexpected => bs "remote"
  end.

Definition is_permanent (k : CloudStorageErrorKind) : bool :=
  match k with Tls | PermissionDenied | Unsupported | InvalidConfiguration => true | _ => false end.

(** Errors of other crates are carried as their message. *)
Inductive PortableSnapshotError :=
| MissingMasterPassword | CiphertextTooShort | UnsupportedEncryptionVersion (v : Z) | InvalidEncryptionEnvelope
| Encrypt (message : bytes) | Decrypt (new_error legacy_error : bytes) | CorruptPayload | MissingMetadata
| MissingEntity (name : bytes) | UnsupportedVersion (v : Z) | PayloadHashMismatch | EntitiesHashMismatch
| Codec (message : bytes) | Zip (message : bytes) | SnapshotIo (message : bytes) | SnapshotJson (message : bytes).

Inductive SnapshotUnreadableCause := PayloadNotAuthentic | MasterPasswordMismatch | UnknownCause.

(** What the coordinator reads of [CloudConflictPreview]. *)
Record CloudConflictPreview := mkPreview { remote_revision : bytes; overwrite_blocked : bool }.

Inductive CloudSyncError :=
| Storage (provider operation : bytes) (kind : CloudStorageErrorKind)
| Http (provider operation : bytes) (status : Z) (retry_after_seconds : option Z)
| Authentication (provider operation : bytes) (status : Z)
| CredentialsChanged | CredentialPersistence | Cancelled | GistCapacity | SyncDisabled | AutoPullDeferred
| LocalChangedDuringSync | StaleRemoteRevision
| Conflict (preview : CloudConflictPreview)
| RemoteNewer | NoRemoteSnapshot | NoNewerRemoteSnapshot
| SnapshotMissing (revision : bytes) | RevisionMismatch (pointer_revision snapshot_revision : bytes)
| HashMismatch (expected actual : bytes) | ConcurrentUpdate (expected_revision actual_revision : option bytes)
| CorruptedSnapshot (revision detail : bytes)
| RemoteSnapshotUnreadable (revision path : bytes) (size : Z) (digest : bytes) (cause : SnapshotUnreadableCause)
    (source : PortableSnapshotError)
| RemoteWriteDiverged (revision path : bytes) (expected_bytes : Z) (expected_digest : bytes) (actual_bytes : Z) (actual_digest : bytes)
| InvalidRemotePath (path : bytes) | Remote (message : bytes)
| CreateDir (path source : bytes) | ReadFile (path source : bytes) | WriteFile (path source : bytes)
| LocalStore (message : bytes) | PortableSnapshot (error : PortableSnapshotError)
| JsonError (message : bytes) | Base64Error (message : bytes) | IoError (message : bytes).

Definition http_classification (status : Z) (retry_after_seconds : option Z) : bytes :=
  if ((status =? 403) || (status =? 429)) && bool_decide (is_Some retry_after_seconds) then bs "rate_limited"
  else if status =? 401 then bs "authentication"
  else if status =? 403 then bs "permission_denied"
  else if status =? 404 then bs "not_found"
  else if (status =? 409) || (status =? 412) then bs "conflict"
  else if status =? 501 then bs "unsupported"
  else if status =? 429 then bs "rate_limited"
  else if (500 <=? status) && (status <=? 599) then bs "server"
  else bs "http".

Definition classification (e : CloudSyncError) : bytes :=
  match e with
  | Storage _ _ kind => kind_classification kind
  | Authentication _ _ _ => bs "authentication"
  | Http _ _ status retry => http_classification status retry
  | Conflict _ => bs "conflict"
  | CredentialsChanged => bs "credentials_changed"
  | CredentialPersistence => bs "credential_persistence"
  | Cancelled => bs "cancelled"
  | GistCapacity => bs "gist_capacity"
  | LocalChangedDuringSync => bs "local_changed"
  | StaleRemoteRevision => bs "stale_remote"
  | IoError _ => bs "io"
  | LocalStore _ => bs "store"
  | PortableSnapshot _ => bs "snapshot"
  | _ => bs "sync"
  end.

(** In seconds. *)
Definition retry_after (e : CloudSyncError) : option Z :=
  match e with Http _ _ _ (Some seconds) => Some seconds | _ => None end.

(** ** [CloudSyncOperationControl] *)

Definition PREPARING : Z := 0.
Definition CANCELLED : Z := 1.
Definition COMMITTING : Z := 2.

Inductive CloudSyncCancellation := Stopping | FinishingCommit.

(** [AtomicU8::compare_exchange] *)
Definition compare_exchange (cell current new : Z) : result Z Z * Z :=
  if cell =? current then (Ok cell, new) else (Err cell, cell).

Definition request_cancel (cell : Z) : outcome (CloudSyncCancellation * Z) :=
  match compare_exchange cell PREPARING CANCELLED with
  | (Ok _, cell') => Ret (Stopping, cell')
  | (Err found, cell') =>
    if found =? CANCELLED then Ret (Stopping, cell')
    else if found =? COMMITTING then Ret (FinishingCommit, cell') else Panic
  end.

Definition checkpoint (cell : Z) : result unit CloudSyncError := if cell =? CANCELLED then Err Cancelled else Ok tt.

Definition begin_commit (cell : Z) : outcome (result unit CloudSyncError * Z) :=
  match compare_exchange cell PREPARING COMMITTING with
  | (Ok _, cell') => Ret (Ok tt, cell')
  | (Err found, cell') =>
    if found =? COMMITTING then Ret (Ok tt, cell')
    else if found =? CANCELLED then Ret (Err Cancelled, cell') else Panic
  end.

(** ** [CloudSyncOperationRegistry]

    Controls and flags are shared cells, named by their address. *)

Record Operation := mkOperation { op_name : bytes; op_controls : list nat; op_expired : option nat; op_stopping : nat }.

Record RegistryState := mkRegistry { paused : bool; next_id : Z; operations : gmap Z Operation; waiters : list nat }.

Definition default_registry : RegistryState := mkRegistry false 0 ∅ [].

Definition accepting (r : RegistryState) : bool := negb (paused r).

(** The new cell of [stopping] is at the given address; its content is returned. *)
Definition register_inner (r : RegistryState) (stopping : nat) (name : bytes) (controls : list nat) (expired : option nat)
    (followup : bool) : option (Z * bool * RegistryState) :=
  if paused r && negb followup then None
  else
    let id := next_id r in
    Some (id, paused r,
      mkRegistry (paused r) (id + 1) (<[id := mkOperation name controls expired stopping]> (operations r)) (waiters r)).

(** The statements of the loop of [pause_and_cancel]. *)
Inductive cancel_action := SetFlag (flag : nat) | CancelControl (control : nat).

Definition cancel_operation (o : Operation) : list cancel_action :=
  SetFlag (op_stopping o) :: match op_expired o with Some f => [SetFlag f] | None => [] end
  ++ (CancelControl <$> op_controls o).

(** [pause_and_cancel] up to its loop, which runs over the given operations. *)
Definition pause_begin (r : RegistryState) (ops : list (Z * Operation)) : RegistryState * list cancel_action :=
  if paused r then (r, [])
  else (mkRegistry true (next_id r) (operations r) (waiters r), ops ≫= (fun x => cancel_operation x.2)).

(** [wait_for_idle] until it waits: true when it returns at once. *)
Definition wait_begin (r : RegistryState) (waiter : nat) : bool * RegistryState :=
  if bool_decide (operations r = ∅) then (true, r)
  else (false, mkRegistry (paused r) (next_id r) (operations r) (waiters r ++ [waiter])).

Definition resume (r : RegistryState) : RegistryState := mkRegistry false (next_id r) (operations r) (waiters r).

Definition shutdown_cancelled {T} (stopping : bool) (result : result T CloudSyncError) : bool :=
  stopping && match result with Err Cancelled => true | _ => false end.

(** [Drop for Registration]: the registry and the waiters that are woken. *)
Definition drop_registration (r : RegistryState) (id : Z) : RegistryState * list nat :=
  let ops := delete id (operations r) in
  if bool_decide (ops = ∅) then (mkRegistry (paused r) (next_id r) ops [], waiters r)
  else (mkRegistry (paused r) (next_id r) ops (waiters r), []).

(** ** The threads that use them

    What was answered to requests on controls, and what a job applied to the local store:
    [ControlledStore] applies a snapshot only after a successful [begin_commit]. *)
Inductive event :=
| ECancel (control : nat) (answer : CloudSyncCancellation)
| ECommit (control : nat) (accepted : bool)
| ECheck (control : nat) (passed : bool)
| EApply (control : nat).

(** [loop] is the rest of the loop of [pause_and_cancel], which holds the lock of the
    registry while it runs; [holders] counts the clones of each registration; [idle] are
    the waiters whose [wait_for_idle] returned. *)
Record World := mkWorld {
  reg : RegistryState; loop : list cancel_action; controls : gmap nat Z; flags : gmap nat bool;
  holders : gmap Z nat; idle : list nat; events : list event }.

Definition start : World := mkWorld default_registry [] ∅ ∅ ∅ [] [].

Definition accepted {A} (r : result A CloudSyncError) : bool := match r with Ok _ => true | Err _ => false end.

Inductive step : World -> World -> Prop :=
| step_control w c :
    controls w !! c = None ->
    step w (mkWorld (reg w) (loop w) (<[c := PREPARING]> (controls w)) (flags w) (holders w) (idle w) (events w))
| step_flag w f :
    flags w !! f = None ->
    step w (mkWorld (reg w) (loop w) (controls w) (<[f := false]> (flags w)) (holders w) (idle w) (events w))
| step_register w r' id v stopping name cs expired followup :
    loop w = [] -> next_id (reg w) + 1 < 2 ^ 64 -> flags w !! stopping = None ->
    Forall (fun c => is_Some (controls w !! c)) cs -> (forall f, expired = Some f -> is_Some (flags w !! f)) ->
    (followup = true -> cs = [] /\ expired = None) ->
    register_inner (reg w) stopping name cs expired followup = Some (id, v, r') ->
    step w (mkWorld r' [] (controls w) (<[stopping := v]> (flags w)) (<[id := 1%nat]> (holders w)) (idle w) (events w))
| step_clone w id n :
    holders w !! id = Some (S n) ->
    step w (mkWorld (reg w) (loop w) (controls w) (flags w) (<[id := S (S n)]> (holders w)) (idle w) (events w))
| step_drop w id n :
    holders w !! id = Some (S n) ->
    step w (mkWorld (reg w) (loop w) (controls w) (flags w) (<[id := n]> (holders w)) (idle w) (events w))
| step_destroy w id r' woken :
    loop w = [] -> holders w !! id = Some O -> drop_registration (reg w) id = (r', woken) ->
    step w (mkWorld r' [] (controls w) (flags w) (delete id (holders w)) (idle w ++ woken) (events w))
| step_pause w r' ops rest :
    loop w = [] -> ops ≡ₚ map_to_list (operations (reg w)) -> pause_begin (reg w) ops = (r', rest) ->
    step w (mkWorld r' rest (controls w) (flags w) (holders w) (idle w) (events w))
| step_pause_flag w f rest :
    loop w = SetFlag f :: rest ->
    step w (mkWorld (reg w) rest (controls w) (<[f := true]> (flags w)) (holders w) (idle w) (events w))
| step_pause_control w c rest cell cell' answer :
    loop w = CancelControl c :: rest -> controls w !! c = Some cell -> request_cancel cell = Ret (answer, cell') ->
    step w (mkWorld (reg w) rest (<[c := cell']> (controls w)) (flags w) (holders w) (idle w) (events w ++ [ECancel c answer]))
| step_resume w :
    loop w = [] ->
    step w (mkWorld (resume (reg w)) [] (controls w) (flags w) (holders w) (idle w) (events w))
| step_wait w n r' done :
    loop w = [] -> wait_begin (reg w) n = (done, r') ->
    step w (mkWorld r' [] (controls w) (flags w) (holders w) (idle w ++ if done then [n] else []) (events w))
| step_cancel w c cell cell' answer :
    controls w !! c = Some cell -> request_cancel cell = Ret (answer, cell') ->
    step w (mkWorld (reg w) (loop w) (<[c := cell']> (controls w)) (flags w) (holders w) (idle w) (events w ++ [ECancel c answer]))
| step_commit w c cell cell' r :
    controls w !! c = Some cell -> begin_commit cell = Ret (r, cell') ->
    step w (mkWorld (reg w) (loop w) (<[c := cell']> (controls w)) (flags w) (holders w) (idle w)
              (events w ++ [ECommit c (accepted r)]))
| step_check w c cell :
    controls w !! c = Some cell ->
    step w (mkWorld (reg w) (loop w) (controls w) (flags w) (holders w) (idle w)
              (events w ++ [ECheck c (accepted (checkpoint cell))]))
| step_apply w c :
    ECommit c true ∈ events w ->
    step w (mkWorld (reg w) (loop w) (controls w) (flags w) (holders w) (idle w) (events w ++ [EApply c])).

(** *** The invariants *)

Definition never (e : event) (es : list event) : Prop := e ∉ es.

(** What was answered about a control, given its cell. *)
Definition answers_ok (cell : Z) (c : nat) (es : list event) : Prop :=
  (cell = PREPARING /\ never (ECancel c Stopping) es /\ never (ECancel c FinishingCommit) es
     /\ never (ECommit c true) es /\ never (ECommit c false) es /\ never (ECheck c false) es /\ never (EApply c) es)
  \/ (cell = CANCELLED /\ never (ECancel c FinishingCommit) es /\ never (ECommit c true) es /\ never (EApply c) es)
  \/ (cell = COMMITTING /\ never (ECancel c Stopping) es /\ never (ECommit c false) es /\ never (ECheck c false) es).

Definition controls_inv (w : World) : Prop :=
  (forall c cell, controls w !! c = Some cell -> answers_ok cell c (events w))
  /\ (forall c, controls w !! c = None -> answers_ok PREPARING c (events w)).

(** What the rest of the loop will still do to a control or a flag. *)
Definition settled (w : World) (o : Operation) : Prop :=
  (flags w !! op_stopping o = Some true \/ SetFlag (op_stopping o) ∈ loop w)
  /\ (forall f, op_expired o = Some f -> flags w !! f = Some true \/ SetFlag f ∈ loop w)
  /\ (forall c, c ∈ op_controls o ->
        (exists cell, controls w !! c = Some cell /\ cell <> PREPARING) \/ CancelControl c ∈ loop w).

Record world_inv (w : World) : Prop := {
  wi_dom : dom (operations (reg w)) = dom (holders w);
  wi_next : forall id, is_Some (operations (reg w) !! id) -> id < next_id (reg w);
  wi_cells : forall id o c, operations (reg w) !! id = Some o -> c ∈ op_controls o -> is_Some (controls w !! c);
  wi_flags : forall id o, operations (reg w) !! id = Some o ->
    is_Some (flags w !! op_stopping o) /\ forall f, op_expired o = Some f -> is_Some (flags w !! f);
  wi_loop : loop w <> [] -> paused (reg w) = true;
  wi_known : forall a, a ∈ loop w -> match a with SetFlag f => is_Some (flags w !! f) | CancelControl c => is_Some (controls w !! c) end;
  wi_settled : paused (reg w) = true -> forall id o, operations (reg w) !! id = Some o -> settled w o;
  wi_waiters : operations (reg w) = ∅ -> waiters (reg w) = [] }.

Lemma never_snoc e es x : never e es -> e <> x -> never e (es ++ [x]).
Proof. unfold never. rewrite elem_of_app, list_elem_of_singleton. naive_solver. Qed.

(** An event about another control changes nothing. *)
Lemma answers_other cell c es x :
  answers_ok cell c es ->
  match x with ECancel d _ | ECommit d _ | ECheck d _ | EApply d => d <> c end -> answers_ok cell c (es ++ [x]).
Proof.
  intros H Hx. unfold answers_ok in *.
  assert (Hn : forall e, never e es -> match e with ECancel d _ | ECommit d _ | ECheck d _ | EApply d => d = c end -> never e (es ++ [x])).
  { intros e He E. apply never_snoc; [done|]. intros ->. destruct x; congruence. }
  destruct H as [H|[H|H]]; [left|right; left|right; right]; repeat destruct H as [? H]; split_and!; auto.
Qed.

Lemma request_cancel_inv cell cell' answer c es :
  answers_ok cell c es -> request_cancel cell = Ret (answer, cell') -> answers_ok cell' c (es ++ [ECancel c answer]).
Proof.
  intros [H|[H|H]] E; repeat destruct H as [? H]; subst; vm_compute in E; injection E as <- <-.
  - right; left. split_and!; try done; by apply never_snoc.
  - right; left. split_and!; try done; by apply never_snoc.
  - right; right. split_and!; try done; by apply never_snoc.
Qed.

Lemma begin_commit_inv cell cell' r c es :
  answers_ok cell c es -> begin_commit cell = Ret (r, cell') -> answers_ok cell' c (es ++ [ECommit c (accepted r)]).
Proof.
  intros [H|[H|H]] E; repeat destruct H as [? H]; subst; vm_compute in E; injection E as <- <-; cbn [accepted].
  - right; right. split_and!; try done; by apply never_snoc.
  - right; left. split_and!; try done; by apply never_snoc.
  - right; right. split_and!; try done; by apply never_snoc.
Qed.

Lemma checkpoint_inv cell c es : answers_ok cell c es -> answers_ok cell c (es ++ [ECheck c (accepted (checkpoint cell))]).
Proof.
  intros [H|[H|H]]; repeat destruct H as [? H]; subst; [left|right; left|right; right]; split_and!; try done; by apply never_snoc.
Qed.

Lemma apply_inv cell c es : answers_ok cell c es -> ECommit c true ∈ es -> answers_ok cell c (es ++ [EApply c]).
Proof.
  intros [H|[H|H]] Hc; repeat destruct H as [? H]; subst.
  - by match goal with Hn : never (ECommit c true) es |- _ => destruct (Hn Hc) end.
  - by match goal with Hn : never (ECommit c true) es |- _ => destruct (Hn Hc) end.
  - right; right. split_and!; try done; by apply never_snoc.
Qed.

(** Extending the log about one control, whose cell may change. *)
Lemma controls_event w c cell cell' x r l f h i :
  controls_inv w -> controls w !! c = Some cell -> answers_ok cell' c (events w ++ [x]) ->
  match x with ECancel d _ | ECommit d _ | ECheck d _ | EApply d => d = c end ->
  controls_inv (mkWorld r l (<[c := cell']> (controls w)) f h i (events w ++ [x])).
Proof.
  intros [H1 H2] Hc Hx E. split; cbn.
  - intros d v. destruct (decide (d = c)) as [->|Hd].
    + rewrite lookup_insert_eq. by intros [= <-].
    + rewrite lookup_insert_ne by done. intros Hv. apply answers_other; [auto|]. destruct x; congruence.
  - intros d Hd. destruct (decide (d = c)) as [->|Hn]; [by rewrite lookup_insert_eq in Hd|].
    rewrite lookup_insert_ne in Hd by done. apply answers_other; [auto|]. destruct x; congruence.
Qed.

Lemma step_controls w w' : step w w' -> controls_inv w -> controls_inv w'.
Proof.
  intros Hs Hw. assert (H1 := proj1 Hw). assert (H2 := proj2 Hw).
  destruct Hs; try (split; cbn; [exact H1|exact H2]).
  - split; cbn; intros d.
    + intros v. destruct (decide (d = c)) as [->|Hd].
      * rewrite lookup_insert_eq. intros [= <-]. by apply H2.
      * rewrite lookup_insert_ne by done. apply H1.
    + intros Hd. apply H2. destruct (decide (d = c)) as [->|Hn]; [done|]. by rewrite lookup_insert_ne in Hd.
  - eapply controls_event; eauto using request_cancel_inv.
  - eapply controls_event; eauto using request_cancel_inv.
  - eapply controls_event; eauto using begin_commit_inv.
  - rewrite <- (insert_id (controls w) c cell) by done. eapply controls_event; eauto using checkpoint_inv.
  - assert (Hc : exists cell, controls w !! c = Some cell).
    { destruct (controls w !! c) as [v|] eqn:E; [eauto|]. destruct (H2 c E) as [Hp|[[? _]|[? _]]]; [|done..].
      destruct Hp as (_ & _ & _ & Hn & _). by destruct (Hn H). }
    destruct Hc as [cell Hc]. rewrite <- (insert_id (controls w) c cell) by done. eapply controls_event; eauto using apply_inv.
Qed.

Definition decided (w : World) (c : nat) : Prop := exists cell, controls w !! c = Some cell /\ cell <> PREPARING.

Lemma settled_mono w w' o :
  settled w o ->
  (forall f, flags w !! f = Some true -> flags w' !! f = Some true) ->
  (forall f, SetFlag f ∈ loop w -> flags w' !! f = Some true \/ SetFlag f ∈ loop w') ->
  (forall c, decided w c -> decided w' c) ->
  (forall c, CancelControl c ∈ loop w -> decided w' c \/ CancelControl c ∈ loop w') -> settled w' o.
Proof.
  intros (H1 & H2 & H3) Hf Hlf Hc Hlc. split_and!.
  - destruct H1; auto.
  - intros f [E|E]%H2; auto.
  - intros c [E|E]%H3; [left; by apply Hc|by apply Hlc].
Qed.

Lemma cancel_decides cell answer cell' : request_cancel cell = Ret (answer, cell') -> cell' <> PREPARING.
Proof.
  unfold request_cancel, compare_exchange. destruct (cell =? PREPARING) eqn:E0; [by intros [= _ <-]|].
  destruct (cell =? CANCELLED) eqn:E1; [intros [= _ <-]|destruct (cell =? COMMITTING) eqn:E2; [intros [= _ <-]|done]];
    apply Z.eqb_neq in E0; done.
Qed.

Lemma commit_decides cell r cell' : begin_commit cell = Ret (r, cell') -> cell' <> PREPARING.
Proof.
  unfold begin_commit, compare_exchange. destruct (cell =? PREPARING) eqn:E0; [by intros [= _ <-]|].
  destruct (cell =? COMMITTING) eqn:E1; [intros [= _ <-]|destruct (cell =? CANCELLED) eqn:E2; [intros [= _ <-]|done]];
    apply Z.eqb_neq in E0; done.
Qed.

(** A step on one control that leaves it decided. *)
Lemma world_control w l' c cell cell' es :
  world_inv w -> controls w !! c = Some cell -> cell' <> PREPARING ->
  (forall a, a ∈ loop w -> a = CancelControl c \/ a ∈ l') -> (forall a, a ∈ l' -> a ∈ loop w) ->
  world_inv (mkWorld (reg w) l' (<[c := cell']> (controls w)) (flags w) (holders w) (idle w) es).
Proof.
  intros [W1 W2 W3 W4 W5 W6 W7 W8] Hc Hd Hl Hl'.
  assert (Hs : forall d, is_Some (controls w !! d) -> is_Some (<[c := cell']> (controls w) !! d)).
  { intros d. destruct (decide (d = c)) as [->|Hn]; [rewrite lookup_insert_eq; eauto|by rewrite lookup_insert_ne]. }
  split; cbn; try done.
  - intros id o d Ho Hin. eauto.
  - intros Hn. apply W5. destruct l' as [|a l0]; [done|]. intros E. specialize (Hl' a). rewrite E in Hl'. by destruct (not_elem_of_nil a); apply Hl'; left.
  - intros a Ha. specialize (W6 a (Hl' a Ha)). destruct a; [done|by apply Hs].
  - intros Hp id o Ho. eapply settled_mono; [by eapply W7|done| | |]; cbn.
    + intros f [|Hf]%Hl; [done|by right].
    + intros d (v & Hv & Hne). unfold decided. cbn. destruct (decide (d = c)) as [->|Hn]; [exists cell'; by rewrite lookup_insert_eq|].
      exists v. by rewrite lookup_insert_ne.
    + intros d [[= ->]|Hf]%Hl; [left|by right]. exists cell'. cbn. by rewrite lookup_insert_eq.
Qed.

(** Setting a flag. *)
Lemma world_flag w f v rest :
  world_inv w -> (flags w !! f = None \/ v = true) -> (loop w = rest \/ (loop w = SetFlag f :: rest /\ v = true)) ->
  world_inv (mkWorld (reg w) rest (controls w) (<[f := v]> (flags w)) (holders w) (idle w) (events w)).
Proof.
  intros [W1 W2 W3 W4 W5 W6 W7 W8] Hf Hl.
  assert (Hs : forall g, is_Some (flags w !! g) -> is_Some (<[f := v]> (flags w) !! g)).
  { intros g. destruct (decide (g = f)) as [->|Hn]; [rewrite lookup_insert_eq; eauto|by rewrite lookup_insert_ne]. }
  assert (Hin : forall a, a ∈ rest -> a ∈ loop w). { intros a Ha. destruct Hl as [->|[-> _]]; [done|by right]. }
  split; cbn; try done.
  - intros id o Ho. destruct (W4 id o Ho) as [? ?]. split; auto.
  - intros Hn. apply W5. destruct Hl as [->|[-> _]]; done.
  - intros a Ha. specialize (W6 a (Hin a Ha)). destruct a; auto.
  - intros Hp id o Ho. eapply settled_mono; [by eapply W7| | |done|]; cbn.
    + intros g Hg. destruct (decide (g = f)) as [->|Hn]; [|by rewrite lookup_insert_ne].
      rewrite lookup_insert_eq. destruct Hf as [Hf| ->]; [congruence|done].
    + intros g Hg. destruct Hl as [El|[El ->]]; rewrite El in Hg; [by right|].
      apply elem_of_cons in Hg as [[= ->]|Hg]; [left; by rewrite lookup_insert_eq|by right].
    + intros c Hc. right. destruct Hl as [El|[El ->]]; rewrite El in Hc; [done|]. by apply elem_of_cons in Hc as [?|?].
Qed.

Lemma world_register w r' id v stopping name cs expired followup :
  world_inv w -> loop w = [] -> flags w !! stopping = None ->
  Forall (fun c => is_Some (controls w !! c)) cs -> (forall f, expired = Some f -> is_Some (flags w !! f)) ->
  (followup = true -> cs = [] /\ expired = None) ->
  register_inner (reg w) stopping name cs expired followup = Some (id, v, r') ->
  world_inv (mkWorld r' [] (controls w) (<[stopping := v]> (flags w)) (<[id := 1%nat]> (holders w)) (idle w) (events w)).
Proof.
  intros [W1 W2 W3 W4 W5 W6 W7 W8] El Hst Hcs Hex Hfu. unfold register_inner.
  destruct (paused (reg w) && negb followup) eqn:Ep; [done|]. intros [= <- <- <-]. rewrite El in *.
  assert (Hs : forall f, is_Some (flags w !! f) -> is_Some (<[stopping := paused (reg w)]> (flags w) !! f)).
  { intros g. destruct (decide (g = stopping)) as [->|Hn]; [rewrite lookup_insert_eq; eauto|by rewrite lookup_insert_ne]. }
  assert (Hcase : forall (P : Operation -> Prop) i o, P (mkOperation name cs expired stopping) ->
    (operations (reg w) !! i = Some o -> P o) -> <[next_id (reg w) := mkOperation name cs expired stopping]> (operations (reg w)) !! i = Some o -> P o).
  { intros P i o Hnew Hold. destruct (decide (i = next_id (reg w))) as [->|Hn]; [rewrite lookup_insert_eq; by intros [= <-]|].
    by rewrite lookup_insert_ne. }
  split; cbn; try done.
  - by rewrite !dom_insert_L, W1.
  - intros i Hi. destruct (decide (i = next_id (reg w))) as [->|Hn]; [lia|]. rewrite lookup_insert_ne in Hi by done. specialize (W2 i Hi). lia.
  - intros i o c Ho Hc. revert Ho Hc. apply (Hcase (fun o => c ∈ op_controls o -> is_Some (controls w !! c))); cbn; [|eauto].
    rewrite Forall_forall in Hcs. apply Hcs.
  - intros i o. apply (Hcase (fun o => is_Some (<[stopping := paused (reg w)]> (flags w) !! op_stopping o)
      /\ forall f, op_expired o = Some f -> is_Some (<[stopping := paused (reg w)]> (flags w) !! f))); cbn.
    + split; [rewrite lookup_insert_eq; eauto|]. auto.
    + intros Ho. destruct (W4 i o Ho). split; auto.
  - by intros a ?%not_elem_of_nil.
  - intros Hp i o. apply (Hcase (settled _)).
    + split_and!; cbn.
      * left. by rewrite lookup_insert_eq, Hp.
      * intros f E. rewrite Hp in Ep. destruct followup; [|done]. destruct Hfu as [-> ->]; done.
      * intros c Hc. rewrite Hp in Ep. destruct followup; [|done]. destruct Hfu as [-> ->]; [done|]. by apply not_elem_of_nil in Hc.
    + intros Ho. eapply settled_mono; [by eapply W7| |by rewrite El; intros f ?%not_elem_of_nil|done|by rewrite El; intros c ?%not_elem_of_nil]; cbn.
      intros f Hf. rewrite lookup_insert_ne; [done|]. intros ->. congruence.
  - intros E. exfalso. apply (f_equal (fun m => m !! next_id (reg w))) in E. by rewrite lookup_insert_eq, lookup_empty in E.
Qed.

Lemma world_destroy w id r' woken :
  world_inv w -> loop w = [] -> drop_registration (reg w) id = (r', woken) ->
  world_inv (mkWorld r' [] (controls w) (flags w) (delete id (holders w)) (idle w ++ woken) (events w)).
Proof.
  intros [W1 W2 W3 W4 W5 W6 W7 W8] El E. rewrite El in *.
  assert (Er : operations r' = delete id (operations (reg w)) /\ next_id r' = next_id (reg w) /\ paused r' = paused (reg w)
    /\ (operations r' = ∅ -> waiters r' = [])).
  { unfold drop_registration in E. destruct (bool_decide _) eqn:Eb; injection E as <- <-; [done|]. split_and!; try done.
    cbn. intros Hd. by apply bool_decide_eq_false in Eb. }
  destruct Er as (Eo & En & Epp & Hw). clear E.
  assert (Hold : forall i o, operations r' !! i = Some o -> operations (reg w) !! i = Some o).
  { intros i o. rewrite Eo. intros [_ H]%lookup_delete_Some. done. }
  split; cbn; try done.
  - by rewrite Eo, !dom_delete_L, W1.
  - intros i [o Ho%Hold]. rewrite En. eauto.
  - intros i o c Ho%Hold. eauto.
  - intros i o Ho%Hold. eauto.
  - rewrite Epp. intros Hp i o Ho%Hold. specialize (W7 Hp i o Ho). unfold settled in *. by rewrite El in W7.
Qed.

Lemma world_pause w r' ops rest :
  world_inv w -> loop w = [] -> ops ≡ₚ map_to_list (operations (reg w)) -> pause_begin (reg w) ops = (r', rest) ->
  world_inv (mkWorld r' rest (controls w) (flags w) (holders w) (idle w) (events w)).
Proof.
  intros [W1 W2 W3 W4 W5 W6 W7 W8] El Hops. rewrite El in *. unfold pause_begin.
  destruct (paused (reg w)) eqn:Ep; intros [= <- <-].
  { split; cbn; try done. intros _ i o Ho. specialize (W7 eq_refl i o Ho). unfold settled in *. by rewrite El in W7. }
  assert (Hin : forall i o, (i, o) ∈ ops <-> operations (reg w) !! i = Some o). { intros i o. by rewrite Hops, elem_of_map_to_list. }
  assert (Ha : forall i o a, operations (reg w) !! i = Some o -> a ∈ cancel_operation o -> a ∈ ops ≫= (fun x => cancel_operation x.2)).
  { intros i o a Ho Ha. apply list_elem_of_bind. exists (i, o). split; [done|by apply Hin]. }
  split; cbn; try done.
  - intros a ([i o] & Hao & Ho%Hin)%list_elem_of_bind. cbn in Hao. unfold cancel_operation in Hao.
    apply elem_of_cons in Hao as [->|Hao]; [by apply (W4 i)|]. apply elem_of_app in Hao as [Hao|Hao].
    + destruct (op_expired o) as [f|] eqn:Ef; [|by apply not_elem_of_nil in Hao]. apply list_elem_of_singleton in Hao as ->. by eapply W4.
    + apply list_elem_of_fmap in Hao as (c & -> & Hc). eauto.
  - intros _ i o Ho. split_and!; cbn.
    + right. apply (Ha i o); [done|]. left.
    + intros f Ef. right. apply (Ha i o); [done|]. right. rewrite Ef. left.
    + intros c Hc. right. apply (Ha i o); [done|]. right. apply elem_of_app. right. apply list_elem_of_fmap. eauto.
Qed.

Lemma step_world w w' : step w w' -> world_inv w -> world_inv w'.
Proof.
  intros Hs Hw. destruct Hs.
  - destruct Hw as [W1 W2 W3 W4 W5 W6 W7 W8].
    assert (Hs : forall d, is_Some (controls w !! d) -> <[c := PREPARING]> (controls w) !! d = controls w !! d).
    { intros d Hd. rewrite lookup_insert_ne; [done|]. intros ->. rewrite H in Hd. by destruct Hd. }
    split; cbn; try done.
    + intros i o d Ho Hd. rewrite Hs; eauto.
    + intros a Ha. specialize (W6 a Ha). destruct a; [done|]. by rewrite Hs.
    + intros Hp i o Ho. eapply settled_mono; [by eapply W7|done|by right| |by right]. intros d (v & Hv & Hn). exists v. cbn. rewrite Hs; eauto.
  - apply world_flag; auto.
  - by eapply world_register.
  - destruct Hw as [W1 W2 W3 W4 W5 W6 W7 W8]. split; cbn; try done. rewrite W1, dom_insert_lookup_L; eauto.
  - destruct Hw as [W1 W2 W3 W4 W5 W6 W7 W8]. split; cbn; try done. rewrite W1, dom_insert_lookup_L; eauto.
  - by eapply world_destroy.
  - by eapply world_pause.
  - apply world_flag; auto.
  - eapply world_control; eauto using cancel_decides; rewrite H.
    + intros a [->|?]%elem_of_cons; auto.
    + by right.
  - destruct Hw as [W1 W2 W3 W4 W5 W6 W7 W8]. split; cbn; try done. by intros a ?%not_elem_of_nil.
  - destruct Hw as [W1 W2 W3 W4 W5 W6 W7 W8]. unfold wait_begin in H0. rewrite H in *.
    assert (Er : operations r' = operations (reg w) /\ next_id r' = next_id (reg w) /\ paused r' = paused (reg w)
      /\ (operations r' = ∅ -> waiters r' = [])).
    { destruct (bool_decide _) eqn:Eb; injection H0 as <- <-; split_and!; try done. cbn. intros Ee. by apply bool_decide_eq_false in Eb. }
    destruct Er as (Eo & En & Ep & Hw). split; cbn; rewrite ?Eo, ?En, ?Ep; try done.
    + intros Hp i o Ho. specialize (W7 Hp i o Ho). unfold settled in *. by rewrite H in W7.
    + by rewrite <- Eo.
  - eapply world_control; eauto using cancel_decides.
  - eapply world_control; eauto using commit_decides.
  - destruct Hw as [W1 W2 W3 W4 W5 W6 W7 W8]. by split.
  - destruct Hw as [W1 W2 W3 W4 W5 W6 W7 W8]. by split.
Qed.

Lemma start_inv : world_inv start /\ controls_inv start.
Proof.
  assert (Hn : forall id o, operations default_registry !! id = Some o -> False). { intros id o. cbn. by rewrite lookup_empty. }
  split; [split; try done|split].
  - intros id [o Ho]. by apply Hn in Ho.
  - by intros a ?%not_elem_of_nil.
  - intros c cell H. cbn in H. by rewrite lookup_empty in H.
  - intros c _. left. split_and!; [done|..]; by intros ?%not_elem_of_nil.
Qed.

Lemma reachable_world w : rtc step start w -> world_inv w /\ controls_inv w.
Proof.
  assert (H : forall a b, rtc step a b -> world_inv a /\ controls_inv a -> world_inv b /\ controls_inv b).
  { induction 1 as [|a b c Hs _ IH]; [done|]. intros [H1 H2]. apply IH. eauto using step_world, step_controls. }
  intros Hw. exact (H _ _ Hw start_inv).
Qed.

(** ** [ConfigurationReplacementGate]

    A lease is a clone of a permit; the gate keeps a weak reference to the last permit. *)
Module Gate.

Record GateState := mkGate { running : option nat; refresh_required : bool }.

Inductive ConfigurationReplacementBlockReason := CurrentWindowSession | OtherWindowSession | Running | RefreshRequired.

(** [Weak::strong_count], given how many leases of each permit are alive. *)
Definition strong_count (permits : gmap nat nat) (weak : option nat) : nat :=
  match weak with Some p => default O (permits !! p) | None => O end.

Definition block_reason (g : GateState) (permits : gmap nat nat) : option ConfigurationReplacementBlockReason :=
  if (0 <? strong_count permits (running g))%nat then Some Running
  else if refresh_required g then Some RefreshRequired else None.

(** The new permit is at the given address. *)
Definition acquire (g : GateState) (permits : gmap nat nat) (recovery : bool) (permit : nat) : option GateState :=
  if (0 <? strong_count permits (running g))%nat || negb (Bool.eqb (refresh_required g) recovery) then None
  else Some (mkGate (Some permit) (refresh_required g)).
Definition try_acquire (g : GateState) (permits : gmap nat nat) (permit : nat) : option GateState := acquire g permits false permit.
Definition try_recover (g : GateState) (permits : gmap nat nat) (permit : nat) : option GateState := acquire g permits true permit.

Definition require_refresh (g : GateState) : GateState := mkGate (running g) true.
Definition refresh_completed (g : GateState) : GateState := mkGate (running g) false.

(** What happened: grants, and calls on a lease of a permit. *)
Inductive gate_event := Granted (permit : nat) (recovery : bool) | Required (permit : nat) | Completed (permit : nat).

Record Sys := mkSys { gate : GateState; permits : gmap nat nat; trace : list gate_event }.

Definition new_gate : Sys := mkSys (mkGate None false) (∅ : gmap nat nat) [].

Inductive gate_step : Sys -> Sys -> Prop :=
| gate_grant s p g' (recovery : bool) :
    permits s !! p = None -> (if recovery then try_recover else try_acquire) (gate s) (permits s) p = Some g' ->
    gate_step s (mkSys g' (<[p := 1%nat]> (permits s)) (trace s ++ [Granted p recovery]))
| gate_clone s p n :
    permits s !! p = Some (S n) -> gate_step s (mkSys (gate s) (<[p := S (S n)]> (permits s)) (trace s))
| gate_drop s p n :
    permits s !! p = Some (S n) -> gate_step s (mkSys (gate s) (<[p := n]> (permits s)) (trace s))
| gate_require s p n :
    permits s !! p = Some (S n) -> gate_step s (mkSys (require_refresh (gate s)) (permits s) (trace s ++ [Required p]))
| gate_completed s p n :
    permits s !! p = Some (S n) -> gate_step s (mkSys (refresh_completed (gate s)) (permits s) (trace s ++ [Completed p])).

(** Whether a replacement happened that no refresh followed, and whose permit is current. *)
Definition stale (l : list gate_event) : bool :=
  fold_left (fun acc e => match e with Granted _ _ => acc | Required _ => true | Completed _ => false end) l false.
Definition owner (l : list gate_event) : option nat :=
  fold_left (fun acc e => match e with Granted p _ => Some p | _ => acc end) l None.

(** Every event was allowed by what preceded it. *)
Fixpoint allowed (before l : list gate_event) : Prop :=
  match l with
  | [] => True
  | e :: l' =>
    match e with
    | Granted _ recovery => stale before = recovery
    | Required p | Completed p => owner before = Some p
    end /\ allowed (before ++ [e]) l'
  end.

Lemma allowed_snoc before l e :
  allowed before l ->
  match e with
  | Granted _ recovery => stale (before ++ l) = recovery
  | Required p | Completed p => owner (before ++ l) = Some p
  end -> allowed before (l ++ [e]).
Proof.
  revert before. induction l as [|x l IH]; intros before; cbn; [rewrite app_nil_r; by split|].
  intros [Hx Hl] He. split; [done|]. apply IH; [done|]. by rewrite <- app_assoc.
Qed.

Lemma stale_snoc l e : stale (l ++ [e]) = match e with Granted _ _ => stale l | Required _ => true | Completed _ => false end.
Proof. unfold stale. by rewrite fold_left_app. Qed.

Lemma owner_snoc l e : owner (l ++ [e]) = match e with Granted p _ => Some p | _ => owner l end.
Proof. unfold owner. by rewrite fold_left_app. Qed.

Record gate_inv (s : Sys) : Prop := {
  gi_owner : running (gate s) = owner (trace s);
  gi_stale : refresh_required (gate s) = stale (trace s);
  gi_live : forall p n, permits s !! p = Some (S n) -> owner (trace s) = Some p;
  gi_allowed : allowed [] (trace s) }.

Lemma gate_step_inv s s' : gate_step s s' -> gate_inv s -> gate_inv s'.
Proof.
  intros Hs [G1 G2 G3 G4]. destruct Hs as [s p g' recovery Hp Hg|s p n Hp|s p n Hp|s p n Hp|s p n Hp].
  - assert (Ha : acquire (gate s) (permits s) recovery p = Some g') by (by destruct recovery). clear Hg. unfold acquire in Ha.
    destruct (_ || _) eqn:E; [done|]. injection Ha as <-. bool_hyps. apply Bool.eqb_prop in H0.
    split; cbn [gate permits trace running refresh_required require_refresh refresh_completed]; rewrite ?owner_snoc, ?stale_snoc; try done.
    + intros q n. destruct (decide (q = p)) as [->|Hn]; [done|]. rewrite lookup_insert_ne by done. intros Hq.
      exfalso. pose proof (G3 q n Hq) as Ho. rewrite <- G1 in Ho. unfold strong_count in H. rewrite Ho, Hq in H. cbn in H. lia.
    + apply allowed_snoc; [done|]. cbn [app]. by rewrite <- G2.
  - split; cbn; try done. intros q m. destruct (decide (q = p)) as [->|Hn]; [eauto|]. rewrite lookup_insert_ne by done. eauto.
  - split; cbn; try done. intros q m. destruct (decide (q = p)) as [->|Hn]; [eauto|]. rewrite lookup_insert_ne by done. eauto.
  - split; cbn [gate permits trace running refresh_required require_refresh refresh_completed]; rewrite ?owner_snoc, ?stale_snoc; try done. apply allowed_snoc; eauto.
  - split; cbn [gate permits trace running refresh_required require_refresh refresh_completed]; rewrite ?owner_snoc, ?stale_snoc; try done. apply allowed_snoc; eauto.
Qed.

Lemma gate_reachable s : rtc gate_step new_gate s -> gate_inv s.
Proof.
  assert (H : forall a b, rtc gate_step a b -> gate_inv a -> gate_inv b) by (induction 1; eauto using gate_step_inv).
  intros Hs. apply (H _ _ Hs). by split.
Qed.

(** C14: The configuration is replaced by one holder at a time, and nobody replaces it over
    windows that still show the old one. In every history of grants, clones, drops and
    calls, at most one permit has leases; every call was made by the holder of the last
    grant; an ordinary grant was given only when every replacement before it had been
    refreshed, and a grant for recovery only when one had not; and the gate admits a writer
    exactly when it reports no reason against it. *)
Theorem replacement_exclusive s :
  rtc gate_step new_gate s ->
  (forall p q n m, permits s !! p = Some (S n) -> permits s !! q = Some (S m) -> p = q)
  /\ allowed [] (trace s)
  /\ (forall fresh, is_Some (try_acquire (gate s) (permits s) fresh) <-> block_reason (gate s) (permits s) = None)
  /\ (forall fresh, is_Some (try_recover (gate s) (permits s) fresh) <-> block_reason (gate s) (permits s) = Some RefreshRequired).
Proof.
  intros [G1 G2 G3 G4]%gate_reachable. split_and!; [|done|..].
  - intros p q n m Hp%G3 Hq%G3. congruence.
  - intros fresh. unfold try_acquire, acquire, block_reason.
    unfold is_Some. destruct (0 <? _)%nat, (refresh_required (gate s)); cbn; naive_solver.
  - intros fresh. unfold try_recover, acquire, block_reason.
    unfold is_Some. destruct (0 <? _)%nat, (refresh_required (gate s)); cbn; naive_solver.
Qed.

End Gate.

Lemma drop_wakes r id r' woken : drop_registration r id = (r', woken) -> woken <> [] -> operations r' = ∅.
Proof.
  unfold drop_registration. destruct (bool_decide (delete id (operations r) = ∅)) eqn:E; intros [= <- <-]; [|done].
  by apply bool_decide_eq_true in E.
Qed.

Lemma wait_returns r n r' : wait_begin r n = (true, r') -> operations r' = ∅.
Proof. unfold wait_begin. destruct (bool_decide (operations r = ∅)) eqn:E; intros [= <-]. by apply bool_decide_eq_true in E. Qed.

(** ** Theorems *)

(** Cancelling and committing have exactly one winner. In every interleaving of jobs,
    timeouts and shutdowns and for every control: either no commit was accepted, nothing
    was applied and no request to cancel was told that a commit is being finished; or no
    request to cancel was told that the job stops, and no commit and no checkpoint was
    refused. No request on a control can reach the unreachable branches. *)
Theorem cancel_commit_one_winner w c :
  rtc step start w ->
  let es := events w in
  ((never (ECommit c true) es /\ never (EApply c) es /\ never (ECancel c FinishingCommit) es)
   \/ (never (ECancel c Stopping) es /\ never (ECommit c false) es /\ never (ECheck c false) es))
  /\ (forall cell, controls w !! c = Some cell -> request_cancel cell <> Panic /\ begin_commit cell <> Panic).
Proof.
  intros [_ [H1 H2]]%reachable_world es. split.
  - assert (H : exists cell, answers_ok cell c es) by (destruct (controls w !! c) eqn:E; eauto).
    destruct H as [cell [H|[H|H]]]; repeat destruct H as [? H]; auto 10.
  - intros cell Hc. destruct (H1 c cell Hc) as [[-> _]|[[-> _]|[-> _]]]; by vm_compute.
Qed.

(** C9: A shutdown reaches every job. In every reachable state: once the loop of a shutdown is
    through, every registered operation is told to stop, its permission to apply has
    expired and each of its controls is cancelled or committing, so it can start no commit;
    until then the loop can go on; while the registry is paused only follow-ups are
    admitted; operations are registered exactly as long as somebody holds their
    registration; waiting for idle ends only at a moment without operations, and no waiter
    is left behind when there are none. *)
Theorem shutdown_quiesces w :
  rtc step start w ->
  (paused (reg w) = true -> loop w = [] -> forall id o, operations (reg w) !! id = Some o ->
     flags w !! op_stopping o = Some true
     /\ (forall f, op_expired o = Some f -> flags w !! f = Some true)
     /\ (forall c, c ∈ op_controls o -> controls w !! c = Some CANCELLED \/ controls w !! c = Some COMMITTING))
  /\ (forall a rest, loop w = a :: rest -> exists w', step w w' /\ loop w' = rest)
  /\ (paused (reg w) = true -> forall stopping name cs expired, register_inner (reg w) stopping name cs expired false = None)
  /\ dom (operations (reg w)) = dom (holders w)
  /\ (forall w', step w w' -> idle w' <> idle w -> operations (reg w') = ∅)
  /\ (holders w = ∅ -> waiters (reg w) = []).
Proof.
  intros [[W1 W2 W3 W4 W5 W6 W7 W8] [H1 H2]]%reachable_world. split_and!; try done.
  - intros Hp El id o Ho. destruct (W7 Hp id o Ho) as (S1 & S2 & S3). rewrite El in *. split_and!.
    + destruct S1 as [|?%not_elem_of_nil]; done.
    + intros f [|?%not_elem_of_nil]%S2; done.
    + intros c [(cell & Hc & Hn)|?%not_elem_of_nil]%S3; [|done].
      destruct (H1 c cell Hc) as [[-> _]|[[-> _]|[-> _]]]; auto. done.
  - intros a rest E. specialize (W6 a). rewrite E in W6. destruct a as [f|c].
    + eexists. split; [by eapply step_pause_flag|done].
    + destruct W6 as [cell Hc]; [left|].
      assert (Hr : exists v cell', request_cancel cell = Ret (v, cell')).
      { destruct (H1 c cell Hc) as [[-> _]|[[-> _]|[-> _]]]; vm_compute; eauto. }
      destruct Hr as (v & cell' & Hr). eexists. split; [by eapply step_pause_control|done].
  - intros Hp stopping name cs expired. unfold register_inner. by rewrite Hp.
  - intros w' Hs. destruct Hs as [| | | | |? ? ? woken ? ? Hd| | | | |? ? ? [] ? Hd| | | |]; cbn; try done.
    + intros Hi. apply (drop_wakes _ _ _ _ Hd). intros ->. by rewrite app_nil_r in Hi.
    + intros _. by apply wait_returns in Hd.
    + by rewrite app_nil_r.
  - intros E. apply W8. apply dom_empty_iff_L. by rewrite W1, E, dom_empty_L.
Qed.

(** ** Examples and witnesses *)

(** A job with a control commits; the shutdown that comes then lets it finish, and it is
    registered until its registration is dropped, which ends the wait of the shutdown. *)
Definition demo_job : Operation := mkOperation (bs "cloud-sync-auto") [0%nat] None 7%nat.

Definition demo_committed : World :=
  mkWorld (mkRegistry false 1 {[ 0 := demo_job ]} []) [] {[ 0%nat := COMMITTING ]} {[ 7%nat := false ]} {[ 0 := 1%nat ]} [] [ECommit 0 true].
Definition demo_stopped : World :=
  mkWorld (mkRegistry true 1 {[ 0 := demo_job ]} [5%nat]) [] {[ 0%nat := COMMITTING ]} {[ 7%nat := true ]} {[ 0 := 1%nat ]} []
    [ECommit 0 true; ECancel 0 FinishingCommit].

Lemma demo_committed_reachable : rtc step start demo_committed.
Proof.
  eapply rtc_l; [apply (step_control _ 0%nat); reflexivity|].
  eapply rtc_l; [eapply (step_register _ _ _ _ 7%nat (bs "cloud-sync-auto") [0%nat] None false); [reflexivity|vm_compute; reflexivity|reflexivity| |done|done|reflexivity]|].
  { repeat constructor. by exists PREPARING. }
  eapply rtc_l; [eapply (step_commit _ 0%nat PREPARING); [reflexivity|vm_compute; reflexivity]|].
  apply rtc_refl.
Qed.

Lemma demo_stopped_reachable : rtc step start demo_stopped.
Proof.
  etransitivity; [apply demo_committed_reachable|].
  eapply rtc_l; [eapply (step_pause _ _ [(0, demo_job)]); [reflexivity|by vm_compute|reflexivity]|].
  eapply rtc_l; [eapply step_pause_flag; reflexivity|].
  eapply rtc_l; [eapply step_pause_control; [reflexivity|reflexivity|vm_compute; reflexivity]|].
  eapply rtc_l; [eapply (step_wait _ 5%nat); [reflexivity|vm_compute; reflexivity]|].
  apply rtc_refl.
Qed.

Lemma cancel_commit_one_winner_witness :
  never (ECancel 0 Stopping) (events demo_stopped) /\ never (ECommit 0 false) (events demo_stopped).
Proof.
  destruct (cancel_commit_one_winner demo_stopped 0%nat demo_stopped_reachable) as [[(H & _)|(H1 & H2 & _)] _].
  - exfalso. apply H. left.
  - exact (conj H1 H2).
Defined.

Lemma shutdown_quiesces_witness :
  flags demo_stopped !! 7%nat = Some true
  /\ register_inner (reg demo_stopped) 8 (bs "cloud-sync-manual") [] None false = None.
Proof.
  destruct (shutdown_quiesces demo_stopped demo_stopped_reachable) as (H1 & _ & H3 & _).
  split; [exact (proj1 (H1 eq_refl eq_refl 0 demo_job eq_refl))|apply H3; reflexivity].
Defined.

Module GateDemo.
Import Gate.

(** A replacement whose refresh failed: its permit is gone, the refresh is still required. *)
Definition demo_unrefreshed : Sys := mkSys (mkGate (Some 1%nat) true) {[ 1%nat := O ]} [Granted 1 false; Required 1].

Lemma demo_unrefreshed_reachable : rtc gate_step new_gate demo_unrefreshed.
Proof.
  eapply rtc_l; [eapply (gate_grant _ 1%nat _ false); reflexivity|].
  eapply rtc_l; [eapply (gate_require _ 1%nat O); reflexivity|].
  eapply rtc_l; [eapply (gate_drop _ 1%nat O); reflexivity|].
  apply rtc_refl.
Qed.

Lemma replacement_exclusive_witness :
  try_acquire (gate demo_unrefreshed) (permits demo_unrefreshed) 2 = None
  /\ is_Some (try_recover (gate demo_unrefreshed) (permits demo_unrefreshed) 2).
Proof.
  destruct (replacement_exclusive demo_unrefreshed demo_unrefreshed_reachable) as (_ & _ & _ & H).
  split; [reflexivity|apply H; reflexivity].
Defined.

End GateDemo.
