(* ===== verification/AutoSync.v ===== *)
(** * When to synchronise

    The coordinator of automatic synchronisation,
    [nyaterm-desktop/src/app_shell/controller/auto_sync/coordinator.rs], with the triggers
    and results of [nyaterm-desktop/src/features/sync/auto_sync.rs] and the use that
    [app_shell/controller/auto_sync.rs] makes of them: edits of the configuration are
    debounced, remote changes are looked for periodically and on focus, failures back off
    and permanent ones pause until the settings change. Instants and durations are
    nanoseconds; every reading of the clock is an argument. The theorems show that an edit
    counts as synchronised only when a job that saw it succeeded, that without a pause a job
    starts within a bounded time, and that failures keep jobs from starting as long as they
    should. *)

From Stdlib Require Import ZArith Lia.
From stdpp Require Import base numbers option list gmap relations strings.
From S2P Require Import Prelude RustStr RustText ShellRisk SyncOperations.

Local Open Scope Z_scope.

(** ** Triggers and results *)

Inductive AutoSyncTrigger := Startup | Periodic | Focus | Settings | Change | DeferredPull | Retry.

#[global] Instance trigger_eq : EqDecision AutoSyncTrigger.
Proof. solve_decision. Defined.

Definition history_name (t : AutoSyncTrigger) : bytes :=
  match t with
  | Startup => bs "auto_startup"
  | Periodic => bs "auto_periodic"
  | Focus => bs "auto_focus"
  | Settings => bs "auto_settings"
  | Change => bs "auto_change"
  | DeferredPull => bs "auto_deferred_pull"
  | Retry => bs "auto_retry"
  end.

Inductive CloudSyncOutcome := OutcomeUpToDate | Uploaded | Downloaded | Recovered.

#[global] Instance outcome_eq : EqDecision CloudSyncOutcome.
Proof. solve_decision. Defined.

(** What the coordinator reads of [SyncReport], [CloudSyncState] and [CloudSyncResult]. *)
Inductive AutoSyncResult :=
| V4 (verified : bool)
| AutoDisabled
| Skipped
| Debouncing (remaining : Z)
| Busy
| RemoteAvailable (retry_when_safe : bool) (revision : option bytes)
| UpToDate (last_applied_remote_revision : option bytes)
| Synced (outcome : CloudSyncOutcome) (provider : bytes) (pointer : option bytes).

(** ** The coordinator *)

Definition secs (n : Z) : Z := n * 1000000000.

Record AutoSyncCoordinator := mkCoordinator
  { running : bool; pending : option AutoSyncTrigger; next_due : Z; next_periodic : Z; last_focus : option Z;
    last_remote_check : option Z; mutation_generation : Z; in_flight_generation : Z; change_since : option Z;
    remote_available : bool; failures : Z; paused : bool; retry_not_before : option Z; started_at : option Z;
    history_errors : gmap bytes Z; had_error : bool }.

Definition with_running (v : bool) (c : AutoSyncCoordinator) : AutoSyncCoordinator :=
  mkCoordinator v (pending c) (next_due c) (next_periodic c) (last_focus c) (last_remote_check c) (mutation_generation
    c) (in_flight_generation c) (change_since c) (remote_available c) (failures c) (paused c) (retry_not_before c)
    (started_at c) (history_errors c) (had_error c).
Definition with_pending (v : option AutoSyncTrigger) (c : AutoSyncCoordinator) : AutoSyncCoordinator :=
  mkCoordinator (running c) v (next_due c) (next_periodic c) (last_focus c) (last_remote_check c) (mutation_generation
    c) (in_flight_generation c) (change_since c) (remote_available c) (failures c) (paused c) (retry_not_before c)
    (started_at c) (history_errors c) (had_error c).
Definition with_next_due (v : Z) (c : AutoSyncCoordinator) : AutoSyncCoordinator :=
  mkCoordinator (running c) (pending c) v (next_periodic c) (last_focus c) (last_remote_check c) (mutation_generation c)
    (in_flight_generation c) (change_since c) (remote_available c) (failures c) (paused c) (retry_not_before c)
    (started_at c) (history_errors c) (had_error c).
Definition with_next_periodic (v : Z) (c : AutoSyncCoordinator) : AutoSyncCoordinator :=
  mkCoordinator (running c) (pending c) (next_due c) v (last_focus c) (last_remote_check c) (mutation_generation c)
    (in_flight_generation c) (change_since c) (remote_available c) (failures c) (paused c) (retry_not_before c)
    (started_at c) (history_errors c) (had_error c).
Definition with_last_focus (v : option Z) (c : AutoSyncCoordinator) : AutoSyncCoordinator :=
  mkCoordinator (running c) (pending c) (next_due c) (next_periodic c) v (last_remote_check c) (mutation_generation c)
    (in_flight_generation c) (change_since c) (remote_available c) (failures c) (paused c) (retry_not_before c)
    (started_at c) (history_errors c) (had_error c).
Definition with_last_remote_check (v : option Z) (c : AutoSyncCoordinator) : AutoSyncCoordinator :=
  mkCoordinator (running c) (pending c) (next_due c) (next_periodic c) (last_focus c) v (mutation_generation c)
    (in_flight_generation c) (change_since c) (remote_available c) (failures c) (paused c) (retry_not_before c)
    (started_at c) (history_errors c) (had_error c).
Definition with_mutation_generation (v : Z) (c : AutoSyncCoordinator) : AutoSyncCoordinator :=
  mkCoordinator (running c) (pending c) (next_due c) (next_periodic c) (last_focus c) (last_remote_check c) v
    (in_flight_generation c) (change_since c) (remote_available c) (failures c) (paused c) (retry_not_before c)
    (started_at c) (history_errors c) (had_error c).
Definition with_in_flight_generation (v : Z) (c : AutoSyncCoordinator) : AutoSyncCoordinator :=
  mkCoordinator (running c) (pending c) (next_due c) (next_periodic c) (last_focus c) (last_remote_check c)
    (mutation_generation c) v (change_since c) (remote_available c) (failures c) (paused c) (retry_not_before c)
    (started_at c) (history_errors c) (had_error c).
Definition with_change_since (v : option Z) (c : AutoSyncCoordinator) : AutoSyncCoordinator :=
  mkCoordinator (running c) (pending c) (next_due c) (next_periodic c) (last_focus c) (last_remote_check c)
    (mutation_generation c) (in_flight_generation c) v (remote_available c) (failures c) (paused c) (retry_not_before c)
    (started_at c) (history_errors c) (had_error c).
Definition with_remote_available (v : bool) (c : AutoSyncCoordinator) : AutoSyncCoordinator :=
  mkCoordinator (running c) (pending c) (next_due c) (next_periodic c) (last_focus c) (last_remote_check c)
    (mutation_generation c) (in_flight_generation c) (change_since c) v (failures c) (paused c) (retry_not_before c)
    (started_at c) (history_errors c) (had_error c).
Definition with_failures (v : Z) (c : AutoSyncCoordinator) : AutoSyncCoordinator :=
  mkCoordinator (running c) (pending c) (next_due c) (next_periodic c) (last_focus c) (last_remote_check c)
    (mutation_generation c) (in_flight_generation c) (change_since c) (remote_available c) v (paused c) (retry_not_before
    c) (started_at c) (history_errors c) (had_error c).
Definition with_paused (v : bool) (c : AutoSyncCoordinator) : AutoSyncCoordinator :=
  mkCoordinator (running c) (pending c) (next_due c) (next_periodic c) (last_focus c) (last_remote_check c)
    (mutation_generation c) (in_flight_generation c) (change_since c) (remote_available c) (failures c) v
    (retry_not_before c) (started_at c) (history_errors c) (had_error c).
Definition with_retry_not_before (v : option Z) (c : AutoSyncCoordinator) : AutoSyncCoordinator :=
  mkCoordinator (running c) (pending c) (next_due c) (next_periodic c) (last_focus c) (last_remote_check c)
    (mutation_generation c) (in_flight_generation c) (change_since c) (remote_available c) (failures c) (paused c) v
    (started_at c) (history_errors c) (had_error c).
Definition with_started_at (v : option Z) (c : AutoSyncCoordinator) : AutoSyncCoordinator :=
  mkCoordinator (running c) (pending c) (next_due c) (next_periodic c) (last_focus c) (last_remote_check c)
    (mutation_generation c) (in_flight_generation c) (change_since c) (remote_available c) (failures c) (paused c)
    (retry_not_before c) v (history_errors c) (had_error c).
Definition with_history_errors (v : gmap bytes Z) (c : AutoSyncCoordinator) : AutoSyncCoordinator :=
  mkCoordinator (running c) (pending c) (next_due c) (next_periodic c) (last_focus c) (last_remote_check c)
    (mutation_generation c) (in_flight_generation c) (change_since c) (remote_available c) (failures c) (paused c)
    (retry_not_before c) (started_at c) v (had_error c).
Definition with_had_error (v : bool) (c : AutoSyncCoordinator) : AutoSyncCoordinator :=
  mkCoordinator (running c) (pending c) (next_due c) (next_periodic c) (last_focus c) (last_remote_check c)
    (mutation_generation c) (in_flight_generation c) (change_since c) (remote_available c) (failures c) (paused c)
    (retry_not_before c) (started_at c) (history_errors c) v.

Record AutoSyncJob := mkJob { j_trigger : AutoSyncTrigger; change_elapsed : Z; pull_safe : bool; j_remote_available : bool }.

(** The triggers that a change or a periodic check replaces. *)
Definition replaceable (p : option AutoSyncTrigger) : bool := match p with None | Some (Change | Focus) => true | _ => false end.

Definition record_sync_mutation (clock generation : Z) (c : AutoSyncCoordinator) : AutoSyncCoordinator :=
  if generation <=? mutation_generation c then c
  else
    let c := with_change_since (Some clock) (with_mutation_generation generation c) in
    if replaceable (pending c) then with_next_due (clock + secs 1) (with_pending (Some Change) c) else c.

Definition cancel_for_shutdown (clock : Z) (c : AutoSyncCoordinator) : AutoSyncCoordinator :=
  with_next_due clock (with_pending (Some Retry) (with_running false c)).

(** [now] is the time of the tick, [clock] the one [record_sync_mutation] reads;
    [windows_safe] is the answer of the callback. *)
Definition next_job (now clock generation : Z) (windows_safe : bool) (c : AutoSyncCoordinator) :
    option AutoSyncJob * AutoSyncCoordinator :=
  if running c then (None, c)
  else
    let c := record_sync_mutation clock generation c in
    let c := if (next_periodic c <=? now) && replaceable (pending c)
             then with_next_due now (with_pending (Some Periodic) c) else c in
    if paused c || match retry_not_before c with Some deadline => now <? deadline | None => false end then (None, c)
    else
      let deferred_pull := remote_available c && bool_decide (pending c = None) in
      if negb deferred_pull && ((now <? next_due c) || bool_decide (pending c = None)) then (None, c)
      else
        let c := if deferred_pull && windows_safe then with_next_due now (with_pending (Some DeferredPull) c) else c in
        if now <? next_due c then (None, c)
        else
          match pending c with
          | None => (None, c)
          | Some trigger =>
            let c := with_in_flight_generation (mutation_generation c)
                       (with_started_at (Some now) (with_running true (with_pending None c))) in
            (Some (mkJob trigger (match change_since c with Some since => Z.max (sat_sub now since) 1 | None => 0 end)
                     windows_safe (remote_available c)), c)
          end.

Definition observed_remote_check (at_ : Z) (c : AutoSyncCoordinator) : AutoSyncCoordinator :=
  if match last_remote_check c with Some old => old <? at_ | None => true end then
    let c := with_next_periodic (at_ + secs (15 * 60)) (with_last_remote_check (Some at_) c) in
    let c := if bool_decide (pending c = Some Focus) then with_pending None c else c in
    if bool_decide (pending c = Some Periodic)
    then with_next_due (at_ + secs 1) (with_pending ((fun _ => Change) <$> change_since c) c) else c
  else c.

Definition focused (now : Z) (c : AutoSyncCoordinator) : AutoSyncCoordinator :=
  if match last_remote_check c with Some last => sat_sub now last <? secs 120 | None => false end then c
  else if match last_focus c with Some last => secs 120 <=? sat_sub now last | None => true end then
    let c := with_last_focus (Some now) c in
    if bool_decide (pending c = None) then with_next_due now (with_pending (Some Focus) c) else c
  else c.

Definition settings_changed (clock : Z) (c : AutoSyncCoordinator) : AutoSyncCoordinator :=
  with_next_due clock (with_pending (Some Settings) (with_retry_not_before None (with_failures 0 (with_paused false c)))).

Definition new_coordinator (now generation : Z) : AutoSyncCoordinator :=
  mkCoordinator false (Some Startup) (now + secs 3) (now + secs (15 * 60)) None None generation generation None false 0 false None None ∅ false.

Definition PERMANENT_MARKERS : list string :=
  ["401"; "403"; "unauthorized"; "forbidden"; "invalid token"; "missing token"; "access token is required";
   "endpoint is required"; "bucket is required"; "credential is required"]%string.

Definition permanent_auto_sync_error (e : CloudSyncError) : bool :=
  match e with
  | Storage _ _ kind => is_permanent kind
  | Authentication _ _ _ => true
  | Http _ _ status None => (status =? 401) || (status =? 403) || (status =? 501)
  | CredentialPersistence => true
  | LocalStore message => word_is message "crypto" || word_is message "invalid_data"
  | SyncDisabled => true
  | PortableSnapshot (MissingMasterPassword | UnsupportedEncryptionVersion _ | InvalidEncryptionEnvelope
                     | UnsupportedVersion _ | Decrypt _ _) => true
  | Remote message => existsb (fun marker => contains (bs marker) (to_ascii_lowercase message)) PERMANENT_MARKERS
  | _ => false
  end.

(** In seconds. *)
Definition auto_sync_backoff (failures : Z) : Z :=
  match Z.to_nat (Z.min failures 3) with 0%nat => 1 | 1%nat => 5 | 2%nat => 15 | _ => 60 end * 60.

Section Complete.

(** The last instant the platform can represent. *)
Variable instant_max : Z.

Definition checked_add (t d : Z) : option Z := if t + d <=? instant_max then Some (t + d) else None.

(** The branches of [complete] that report a look at the remote side. *)
Definition saw_remote (trigger : AutoSyncTrigger) (r : result AutoSyncResult CloudSyncError) : bool :=
  match r with
  | Ok (RemoteAvailable _ _ | Synced _ _ _ | UpToDate _ | V4 _) => true
  | Ok (Debouncing _) => negb (bool_decide (trigger = Change))
  | Err (Conflict _) => true
  | _ => false
  end.

(** Forget the change when the job saw it. *)
Definition clear_change (c : AutoSyncCoordinator) : AutoSyncCoordinator :=
  if mutation_generation c =? in_flight_generation c then
    let c := with_change_since None c in
    if bool_decide (pending c = Some Change) then with_pending None c else c
  else c.

(** [clock] is the time [record_sync_mutation] reads, [now] the one [complete] reads. *)
Definition complete (clock now : Z) (trigger : AutoSyncTrigger) (r : result AutoSyncResult CloudSyncError)
    (observed_generation : option Z) (c : AutoSyncCoordinator) : AutoSyncCoordinator :=
  let c := match observed_generation with Some g => record_sync_mutation clock g c | None => c end in
  let c := with_running false c in
  let c := if saw_remote trigger r then observed_remote_check now c else c in
  match r with
  | Ok (V4 false) =>
    let due := now + secs (auto_sync_backoff (failures c)) in
    with_retry_not_before (Some due) (with_failures (sat_add 64 (failures c) 1) (with_next_due due (with_pending (Some Retry) c)))
  | Ok (Debouncing remaining) =>
    if replaceable (pending c) then with_next_due (now + remaining) (with_pending (Some Change) c) else c
  | Ok Skipped => if bool_decide (trigger = Change) then clear_change c else c
  | Ok Busy => with_next_due (now + secs 5) (with_pending (Some trigger) c)
  | Ok (RemoteAvailable retry_when_safe _) =>
    with_retry_not_before None (with_failures 0 (with_remote_available retry_when_safe c))
  | Ok (Synced _ _ _ | UpToDate _ | V4 true) =>
    clear_change (with_retry_not_before None (with_failures 0 (with_remote_available false c)))
  | Err (Conflict preview) =>
    let c := with_remote_available false c in
    if overwrite_blocked preview then with_paused true c else c
  | Err error =>
    let c := with_paused (permanent_auto_sync_error error) c in
    let backoff := secs (Z.max (auto_sync_backoff (failures c)) (default 0 (retry_after error))) in
    let due := default (now + secs (86400 * 365 * 100)) (checked_add now backoff) in
    with_retry_not_before (Some due)
      (with_next_due due (with_pending (Some Retry) (with_failures (sat_add 64 (failures c) 1) c)))
  | Ok AutoDisabled => with_paused true c
  end.

End Complete.

(** ** The history *)

Record CloudSyncHistoryEntry := mkHistory
  { h_status : bytes; h_trigger : bytes; h_provider : option bytes; h_revision : option bytes; h_message : bytes; h_duration_ms : option Z }.

Definition outcome_message (o : CloudSyncOutcome) : bytes :=
  match o with
  | Uploaded => bs "Cloud snapshot uploaded"
  | Downloaded => bs "Cloud snapshot downloaded"
  | _ => bs "Cloud snapshot recovered"
  end.

Definition history_entry (now : Z) (trigger : AutoSyncTrigger) (r : result AutoSyncResult CloudSyncError) (c : AutoSyncCoordinator) :
    option CloudSyncHistoryEntry * AutoSyncCoordinator :=
  let duration := (fun start => uwrap 64 (sat_sub now start / 1000000)) <$> started_at c in
  let c := with_started_at None c in
  let recovered (revision : option bytes) :=
    if had_error c then
      (Some (mkHistory (bs "success") (history_name trigger) None revision (bs "Cloud synchronization recovered") duration),
       with_had_error false c)
    else (None, c) in
  match r with
  | Ok (Synced outcome provider pointer) =>
    if bool_decide (outcome = OutcomeUpToDate) then recovered pointer
    else (Some (mkHistory (bs "success") (history_name trigger) (Some provider) pointer (outcome_message outcome) duration),
          with_had_error false c)
  | Ok (UpToDate revision) => recovered revision
  | Ok (RemoteAvailable _ revision) => recovered revision
  | Err error =>
    let revision := match error with Conflict p => Some (remote_revision p) | _ => None end in
    let key := history_name trigger ++ bs ":" ++ classification error ++ bs ":" ++ default [] revision in
    let errors := filter (fun kt => sat_sub now kt.2 < secs 900) (history_errors c) in
    let c := with_history_errors errors (with_had_error true c) in
    if bool_decide (is_Some (errors !! key)) then (None, c)
    else
      (Some (mkHistory (match error with Conflict _ => bs "conflict" | _ => bs "failed" end) (history_name trigger) None revision
               (classification error) duration),
       with_history_errors (<[key := now]> errors) c)
  | _ => (None, c)
  end.

(** ** What a job does before it looks at the remote side *)

Record CloudSyncSettings := mkSettings
  { enabled : bool; auto_check_on_startup : bool; auto_push_on_change : bool; sync_debounce_seconds : Z }.

Definition auto_sync_skip (s : CloudSyncSettings) (trigger : AutoSyncTrigger) (elapsed : Z) : option AutoSyncResult :=
  if negb (enabled s) then Some AutoDisabled
  else if bool_decide (trigger = Startup) && negb (auto_check_on_startup s) then Some Skipped
  else if bool_decide (trigger = Change) then
    if negb (auto_push_on_change s) then Some Skipped
    else
      let debounce := secs (Z.min (Z.max (sync_debounce_seconds s) 1) 3600) in
      if elapsed <? debounce then Some (Debouncing (debounce - elapsed)) else None
  else None.

(** ** The coordinator in use

    The time, the generation of the store, the job that runs with the generation it saw, and
    the generation that is known to be synchronised. *)
Record Sys := mkSys { co : AutoSyncCoordinator; time : Z; store : Z; job : option (AutoSyncTrigger * Z); synced : Z }.

(** The results after which the edits a job saw are synchronised, or need not be. *)
Definition covers (trigger : AutoSyncTrigger) (r : result AutoSyncResult CloudSyncError) : bool :=
  match r with
  | Ok (Synced _ _ _ | UpToDate _ | V4 true) => true
  | Ok Skipped => bool_decide (trigger = Change)
  | _ => false
  end.

Section System.

Variables (instant_max limit : Z).
Hypothesis limit_hour : secs 3600 <= limit.

(** Waits that a result asks for are at most [limit]. *)
Definition wait_ok (now : Z) (r : result AutoSyncResult CloudSyncError) : Prop :=
  match r with
  | Ok (Debouncing remaining) => 0 <= remaining <= limit
  | Err e => secs (default 0 (retry_after e)) <= limit /\ now + limit <= instant_max
  | _ => True
  end.

Inductive label := SettingsChanged | Other.

Inductive step : label -> Sys -> Sys -> Prop :=
| step_time s t : time s <= t -> step Other s (mkSys (co s) t (store s) (job s) (synced s))
| step_edit s g : store s < g -> step Other s (mkSys (co s) (time s) g (job s) (synced s))
| step_event s g :
    g <= store s -> step Other s (mkSys (record_sync_mutation (time s) g (co s)) (time s) (store s) (job s) (synced s))
| step_settings s : step SettingsChanged s (mkSys (settings_changed (time s) (co s)) (time s) (store s) (job s) (synced s))
| step_focus s : step Other s (mkSys (focused (time s) (co s)) (time s) (store s) (job s) (synced s))
| step_check s t :
    t <= time s -> step Other s (mkSys (observed_remote_check t (co s)) (time s) (store s) (job s) (synced s))
| step_start s clock safe j c' :
    time s <= clock -> next_job (time s) clock (store s) safe (co s) = (Some j, c') ->
    step Other s (mkSys c' clock (store s) (Some (j_trigger j, store s)) (synced s))
| step_idle s clock safe c' :
    time s <= clock -> next_job (time s) clock (store s) safe (co s) = (None, c') ->
    step Other s (mkSys c' clock (store s) (job s) (synced s))
| step_history s trigger g r entry c' :
    job s = Some (trigger, g) -> history_entry (time s) trigger r (co s) = (entry, c') ->
    step Other s (mkSys c' (time s) (store s) (job s) (synced s))
| step_complete s now trigger g r observed :
    job s = Some (trigger, g) -> time s <= now -> wait_ok now r -> observed = Some (store s) \/ observed = None ->
    step Other s (mkSys (complete instant_max (time s) now trigger r observed (co s)) now (store s) None
                    (if covers trigger r then Z.max (synced s) g else synced s))
| step_shutdown s x :
    job s = Some x -> step Other s (mkSys (cancel_for_shutdown (time s) (co s)) (time s) (store s) None (synced s)).

Definition any_step (s s' : Sys) : Prop := exists l, step l s s'.
Definition initial (t g : Z) : Sys := mkSys (new_coordinator t g) t g None g.

(** ** Invariants *)

Record sys_inv (s : Sys) : Prop := {
  si_running : running (co s) = bool_decide (is_Some (job s));
  si_store : mutation_generation (co s) <= store s;
  si_flight : forall t g, job s = Some (t, g) -> in_flight_generation (co s) = g;
  si_change : change_since (co s) = None -> mutation_generation (co s) <= synced s;
  si_due : next_due (co s) <= time s + limit;
  si_periodic : next_periodic (co s) <= time s + secs 900;
  si_retry : forall d, retry_not_before (co s) = Some d -> d <= time s + limit;
  si_failures : 0 <= failures (co s) }.

(** A coordinator that differs only in what the invariant does not read. *)
Definition same_flow (c c' : AutoSyncCoordinator) : Prop :=
  running c' = running c /\ mutation_generation c' = mutation_generation c /\ in_flight_generation c' = in_flight_generation c
  /\ change_since c' = change_since c /\ retry_not_before c' = retry_not_before c /\ failures c' = failures c /\ paused c' = paused c.

Lemma same_flow_inv s c' t :
  sys_inv s -> same_flow (co s) c' -> time s <= t -> next_due c' <= t + limit -> next_periodic c' <= t + secs 900 ->
  sys_inv (mkSys c' t (store s) (job s) (synced s)).
Proof.
  intros [I1 I2 I3 I4 I5 I6 I7 I8] (E1 & E2 & E3 & E4 & E5 & E6 & _) Ht Hd Hp.
  split; cbn; rewrite ?E1, ?E2, ?E3, ?E4, ?E5, ?E6; try done. intros d Hdl%I7. lia.
Qed.

Lemma secs_1 : secs 1 <= limit.
Proof using limit_hour. unfold secs in *. lia. Qed.

Lemma record_spec clock g c :
  let c' := record_sync_mutation clock g c in
  running c' = running c /\ in_flight_generation c' = in_flight_generation c /\ mutation_generation c' = Z.max (mutation_generation c) g
  /\ (change_since c' = None -> change_since c = None /\ g <= mutation_generation c)
  /\ retry_not_before c' = retry_not_before c /\ failures c' = failures c /\ paused c' = paused c
  /\ next_periodic c' = next_periodic c /\ remote_available c' = remote_available c
  /\ (next_due c' = next_due c \/ next_due c' = clock + secs 1 /\ replaceable (pending c') = true)
  /\ (pending c' = pending c \/ pending c' = Some Change).
Proof.
  unfold record_sync_mutation. destruct (g <=? mutation_generation c) eqn:E; bool_hyps; cbn.
  - split_and!; try done; try lia; auto.
  - destruct (replaceable (pending c)) eqn:Er; cbn; split_and!; try done; try lia; try (by left); by right.
Qed.

Lemma record_inv s clock :
  sys_inv s -> time s <= clock -> forall g, g <= store s ->
  sys_inv (mkSys (record_sync_mutation clock g (co s)) clock (store s) (job s) (synced s)).
Proof using limit_hour.
  intros [I1 I2 I3 I4 I5 I6 I7 I8] Ht g Hg. pose proof secs_1.
  destruct (record_spec clock g (co s)) as (E1 & E2 & E3 & E4 & E5 & E6 & E7 & E8 & _ & E9 & _).
  split; cbn; rewrite ?E1, ?E2, ?E3, ?E5, ?E6, ?E8; try done; try lia.
  - intros [Hc Hm]%E4. specialize (I4 Hc). lia.
  - intros d Hd%I7. lia.
Qed.

Lemma check_spec t c :
  let c' := observed_remote_check t c in
  same_flow c c' /\ (next_due c' = next_due c \/ next_due c' = t + secs 1)
  /\ (next_periodic c' = next_periodic c \/ next_periodic c' = t + secs 900).
Proof.
  unfold observed_remote_check, same_flow. destruct (match last_remote_check c with Some old => old <? t | None => true end); [|cbn; split_and!; auto].
  cbn. repeat case_bool_decide; cbn; split_and!; auto.
Qed.

Lemma focus_spec t c :
  let c' := focused t c in same_flow c c' /\ (next_due c' = next_due c \/ next_due c' = t) /\ next_periodic c' = next_periodic c.
Proof.
  unfold focused, same_flow. destruct (match last_remote_check c with Some last => sat_sub t last <? secs 120 | None => false end); [cbn; split_and!; auto|].
  destruct (match last_focus c with Some last => secs 120 <=? sat_sub t last | None => true end); [|cbn; split_and!; auto].
  cbn. case_bool_decide; cbn; split_and!; auto.
Qed.

Lemma history_spec t trigger r c e c' :
  history_entry t trigger r c = (e, c') -> same_flow c c' /\ next_due c' = next_due c /\ next_periodic c' = next_periodic c.
Proof.
  unfold history_entry, same_flow. intros H. apply (f_equal snd) in H. cbn in H. subst c'.
  destruct r as [[| | | | | | |]|e']; cbn; repeat case_bool_decide; cbn; try destruct (had_error c); cbn; split_and!; done.
Qed.

(** A job starts only while none runs, nothing is paused and no deadline is ahead. *)
Lemma next_job_spec now clock g safe c j c' :
  next_job now clock g safe c = (j, c') ->
  mutation_generation c <= g ->
  (running c = true /\ j = None /\ c' = c)
  \/ (running c = false
      /\ mutation_generation c' = g
      /\ (change_since c' = None -> change_since c = None /\ g <= mutation_generation c)
      /\ retry_not_before c' = retry_not_before c /\ failures c' = failures c /\ paused c' = paused c
      /\ next_periodic c' = next_periodic c /\ remote_available c' = remote_available c
      /\ (next_due c' = next_due c \/ next_due c' = clock + secs 1 \/ next_due c' = now)
      /\ match j with
         | None => running c' = false /\ in_flight_generation c' = in_flight_generation c
         | Some j => running c' = true /\ in_flight_generation c' = g /\ paused c = false
             /\ (forall d, retry_not_before c = Some d -> d <= now)
             /\ (change_elapsed j = 0 -> change_since c' = None)
         end).
Proof.
  unfold next_job. intros E Hg. destruct (running c) eqn:Er; [left; by injection E as <- <-|right].
  pose proof (record_spec clock g c) as R. cbn in R. set (c1 := record_sync_mutation clock g c) in *.
  destruct R as (R1 & R2 & R3 & R4 & R5 & R6 & R7 & R8 & R9 & R10 & _).
  set (c2 := if _ && _ then _ else _) in E.
  assert (C : running c2 = false /\ in_flight_generation c2 = in_flight_generation c /\ mutation_generation c2 = g
    /\ change_since c2 = change_since c1 /\ retry_not_before c2 = retry_not_before c /\ failures c2 = failures c /\ paused c2 = paused c
    /\ next_periodic c2 = next_periodic c /\ remote_available c2 = remote_available c
    /\ (next_due c2 = next_due c \/ next_due c2 = clock + secs 1 \/ next_due c2 = now)).
  { unfold c2. destruct (_ && _); cbn; split_and!; try congruence; try lia; tauto. }
  destruct C as (C1 & C2 & C3 & C4 & C5 & C6 & C7 & C8 & C9 & C10). rewrite <- C4 in R4. clearbody c2. clear c1 R1 R2 R3 R5 R6 R7 R8 R9 R10 C4.
  destruct (_ || _) eqn:Eb in E; [injection E as <- <-; by split_and!|]. bool_hyps.
  destruct (negb _ && _) in E; [injection E as <- <-; by split_and!|].
  set (c3 := if _ && _ then _ else _) in E.
  assert (D : running c3 = false /\ in_flight_generation c3 = in_flight_generation c /\ mutation_generation c3 = g
    /\ change_since c3 = change_since c2 /\ retry_not_before c3 = retry_not_before c /\ failures c3 = failures c /\ paused c3 = paused c
    /\ next_periodic c3 = next_periodic c /\ remote_available c3 = remote_available c
    /\ (next_due c3 = next_due c \/ next_due c3 = clock + secs 1 \/ next_due c3 = now)).
  { unfold c3. destruct (_ && _); cbn; split_and!; try done. auto. }
  destruct D as (D1 & D2 & D3 & D4 & D5 & D6 & D7 & D8 & D9 & D10). rewrite <- D4 in R4. clearbody c3. clear D4.
  destruct (now <? next_due c3) in E; [injection E as <- <-; by split_and!|].
  destruct (pending c3) as [trigger|] in E; injection E as <- <-; [|by split_and!].
  cbn. split_and!; try done; [congruence|..].
  - intros d Ed. rewrite C5, Ed in *. bool_hyps. lia.
  - destruct (change_since c3); [lia|done].
Qed.

Lemma backoff_range n : 60 <= auto_sync_backoff n <= 3600.
Proof. unfold auto_sync_backoff. destruct (Z.to_nat _) as [|[|[|]]]; lia. Qed.

Lemma clear_change_spec c :
  let c' := clear_change c in
  running c' = running c /\ mutation_generation c' = mutation_generation c /\ in_flight_generation c' = in_flight_generation c
  /\ (change_since c' = None -> change_since c = None \/ mutation_generation c = in_flight_generation c)
  /\ retry_not_before c' = retry_not_before c /\ failures c' = failures c /\ next_due c' = next_due c /\ next_periodic c' = next_periodic c.
Proof.
  unfold clear_change. destruct (_ =? _) eqn:E; bool_hyps; cbn; [case_bool_decide|]; cbn; split_and!; auto.
Qed.

(** What [complete] does to a coordinator that has the invariant of a running system but
    for the job. *)
Lemma complete_inv s now trigger g r observed :
  sys_inv s -> job s = Some (trigger, g) -> time s <= now -> wait_ok now r -> observed = Some (store s) \/ observed = None ->
  sys_inv (mkSys (complete instant_max (time s) now trigger r observed (co s)) now (store s) None
             (if covers trigger r then Z.max (synced s) g else synced s)).
Proof using limit_hour.
  intros Hs Hj Ht Hr Hob. unfold complete. pose proof secs_1 as H1.
  set (c1 := match observed with Some g => record_sync_mutation (time s) g (co s) | None => co s end).
  assert (Hs1 : sys_inv (mkSys c1 (time s) (store s) (job s) (synced s))).
  { unfold c1. destruct Hob as [->| ->]; [by apply record_inv|]. by destruct s. }
  destruct Hs1 as [I1 I2 I3 I4 I5 I6 I7 I8]. cbn in *. specialize (I3 _ _ Hj). clearbody c1.
  set (c2 := if saw_remote trigger r then _ else _).
  assert (C : running c2 = false /\ mutation_generation c2 = mutation_generation c1 /\ in_flight_generation c2 = g
    /\ change_since c2 = change_since c1 /\ retry_not_before c2 = retry_not_before c1 /\ failures c2 = failures c1
    /\ next_due c2 <= now + limit /\ next_periodic c2 <= now + secs 900).
  { unfold c2. destruct (saw_remote trigger r); cbn; [|split_and!; try done; lia].
    destruct (check_spec now (with_running false c1)) as ((E1 & E2 & E3 & E4 & E5 & E6 & _) & E7 & E8). cbn in *.
    split_and!; try congruence; [destruct E7|destruct E8]; lia. }
  destruct C as (C1 & C2 & C3 & C4 & C5 & C6 & C7 & C8). clearbody c2.
  assert (I7' : forall d, retry_not_before c2 = Some d -> d <= now + limit). { rewrite C5. intros d Hd%I7. lia. }
  rewrite <- C2 in I2, I4. rewrite <- C4 in I4. rewrite <- C6 in I8. clear c1 I1 I3 I5 I6 I7 C2 C4 C5 C6 Hob.
  pose proof (backoff_range (failures c2)) as Hb. unfold secs in *.
  assert (Hclear : forall c3, running c3 = false -> mutation_generation c3 = mutation_generation c2 -> in_flight_generation c3 = g ->
    change_since c3 = change_since c2 -> 0 <= failures c3 -> next_due c3 <= now + limit -> next_periodic c3 <= now + 900 * 1000000000 ->
    (forall d, retry_not_before c3 = Some d -> d <= now + limit) -> sys_inv (mkSys (clear_change c3) now (store s) None (Z.max (synced s) g))).
  { intros c3 D1 D2 D3 D4 D5 D6 D7 D8. destruct (clear_change_spec c3) as (E1 & E2 & E3 & E4 & E5 & E6 & E7 & E8).
    split; cbn; rewrite ?E1, ?E2, ?E3, ?E5, ?E6, ?E7, ?E8; try done; try lia.
    intros [Hn|Hn]%E4; [rewrite D4 in Hn; specialize (I4 Hn)|]; lia. }
  assert (Hkeep : forall c3, running c3 = false -> mutation_generation c3 = mutation_generation c2 -> change_since c3 = change_since c2 ->
    0 <= failures c3 -> next_due c3 <= now + limit -> next_periodic c3 <= now + 900 * 1000000000 ->
    (forall d, retry_not_before c3 = Some d -> d <= now + limit) -> sys_inv (mkSys c3 now (store s) None (synced s))).
  { intros c3 D1 D2 D4 D5 D6 D7 D8. split; cbn; rewrite ?D1, ?D2, ?D4; done. }
  destruct r as [[[]| | |d| | | |]|e]; cbn [covers].
  - apply Hclear; done.
  - apply Hkeep; cbn; try done; unfold sat_add, secs; try lia. intros d [= <-]. lia.
  - apply Hkeep; done.
  - case_bool_decide; [by apply Hclear|by apply Hkeep].
  - cbn in Hr. destruct (replaceable _); apply Hkeep; cbn; try done; lia.
  - apply Hkeep; cbn; try done. unfold secs. lia.
  - apply Hkeep; done.
  - apply Hclear; done.
  - apply Hclear; done.
  - assert (Herr : forall (due : Z) (b : bool) (n : Z), due <= now + limit -> 0 <= n -> sys_inv (mkSys (with_retry_not_before (Some due) (with_next_due due
      (with_pending (Some Retry) (with_failures n (with_paused b c2))))) now (store s) None (synced s))).
    { intros due b n Hd Hn. apply Hkeep; cbn; try done. by intros d [= <-]. }
    assert (Hconf : forall b : bool, sys_inv (mkSys (if b then with_paused true (with_remote_available false c2) else with_remote_available false c2)
      now (store s) None (synced s))). { intros []; apply Hkeep; done. }
    destruct Hr as [Hr1 Hr2].
    assert (Hdue : default (now + secs (86400 * 365 * 100))
      (checked_add instant_max now (secs (Z.max (auto_sync_backoff (failures c2)) (default 0 (retry_after e))))) <= now + limit).
    { unfold checked_add, secs in *. rewrite (proj2 (Z.leb_le _ _)) by lia. cbn. lia. }
    assert (Hn : 0 <= sat_add 64 (failures c2) 1) by (unfold sat_add; lia).
    destruct e; first [exact (Hconf _)|exact (Herr _ _ _ Hdue Hn)].
Qed.

Lemma step_inv l s s' : step l s s' -> sys_inv s -> sys_inv s'.
Proof using limit_hour.
  intros Hstep Hs. pose proof secs_1 as H1. assert (H0 : 0 < limit) by (unfold secs in H1; lia). destruct Hstep as [s t Ht|s g Hg|s g Hg|s|s|s t Ht|s clock safe j c' Ht E|s clock safe c' Ht E|s trigger g r e c' Hj E
    |s now trigger g r ob Hj Ht Hr Ho|s x Hj].
  - destruct Hs as [I1 I2 I3 I4 I5 I6 I7 I8]. split; cbn; try done; try lia. intros d Hd%I7. lia.
  - destruct Hs as [I1 I2 I3 I4 I5 I6 I7 I8]. split; cbn; try done; lia.
  - by apply record_inv.
  - destruct Hs as [I1 I2 I3 I4 I5 I6 I7 I8]. split; cbn; try done; lia.
  - destruct (focus_spec (time s) (co s)) as (Hf & Hd & Hp). apply same_flow_inv; try done; destruct Hs; [destruct Hd as [->| ->]|rewrite Hp]; lia.
  - destruct (check_spec t (co s)) as (Hf & Hd & Hp). apply same_flow_inv; try done; destruct Hs; [destruct Hd as [->| ->]|destruct Hp as [->| ->]]; lia.
  - destruct Hs as [I1 I2 I3 I4 I5 I6 I7 I8]. destruct (next_job_spec _ _ _ _ _ _ _ E I2) as [(_ & ? & _)|(Er & E1 & E2 & E3 & E4 & E5 & E6 & _ & E7 & E8 & E9 & _)]; [done|].
    split; cbn; rewrite ?E1, ?E3, ?E4, ?E6, ?E8, ?E9; try done; try lia.
    + intros t g [= _ <-]. done.
    + intros [Hc Hm]%E2. specialize (I4 Hc). lia.
    + intros d Hd%I7. lia.
  - destruct Hs as [I1 I2 I3 I4 I5 I6 I7 I8]. destruct (next_job_spec _ _ _ _ _ _ _ E I2) as [(_ & _ & ->)|(Er & E1 & E2 & E3 & E4 & E5 & E6 & _ & E7 & E8 & E9)].
    + split; cbn; try done; try lia. intros d Hd%I7. lia.
    + rewrite Er in I1. split; cbn; rewrite ?E1, ?E3, ?E4, ?E6, ?E8, ?E9; try done; try lia.
      * intros [Hc Hm]%E2. specialize (I4 Hc). lia.
      * intros d Hd%I7. lia.
  - destruct (history_spec _ _ _ _ _ _ E) as (Hf & Hd & Hp). apply same_flow_inv; try done; destruct Hs; rewrite ?Hd, ?Hp; done.
  - by apply complete_inv.
  - destruct Hs as [I1 I2 I3 I4 I5 I6 I7 I8]. split; cbn; try done; lia.
Qed.

Lemma initial_inv t g : sys_inv (initial t g).
Proof using limit_hour. unfold secs in *. split; cbn; try done; unfold secs; lia. Qed.

Lemma auto_sync_inv t g s : rtc any_step (initial t g) s -> sys_inv s.
Proof using limit_hour.
  assert (H : forall a b, rtc any_step a b -> sys_inv a -> sys_inv b).
  { induction 1 as [|a b c [l Hl] _ IH]; [done|]. intros Ha. apply IH. by eapply step_inv. }
  intros Hs. apply (H _ _ Hs), initial_inv.
Qed.

(** A run without a change of the settings. *)
Definition quiet_step (s s' : Sys) : Prop := step Other s s'.

(** Once paused without a job, nothing but a change of the settings starts one. *)
Lemma paused_quiet s s' :
  quiet_step s s' -> sys_inv s -> job s = None -> paused (co s) = true -> job s' = None /\ paused (co s') = true.
Proof.
  intros Hstep Hs Hj Hp. unfold quiet_step in Hstep. inversion Hstep; subst; cbn; try congruence; try done.
  - split; [done|]. by rewrite (proj1 (proj2 (proj2 (proj2 (proj2 (proj2 (proj2 (record_spec _ _ _)))))))).
  - split; [done|]. by destruct (focus_spec (time s) (co s)) as ((_ & _ & _ & _ & _ & _ & ->) & _).
  - split; [done|]. by destruct (check_spec t (co s)) as ((_ & _ & _ & _ & _ & _ & ->) & _).
  - destruct (next_job_spec _ _ _ _ _ _ _ H0 (si_store s Hs)) as [(_ & ? & _)|(_ & _ & _ & _ & _ & _ & _ & _ & _ & _ & _ & E & _)]; [done|congruence].
  - split; [done|]. by destruct (next_job_spec _ _ _ _ _ _ _ H0 (si_store s Hs)) as [(_ & _ & ->)|(_ & _ & _ & _ & _ & -> & _)].
Qed.

(** The same for a deadline that is still ahead. *)
Lemma waiting_quiet s s' due :
  quiet_step s s' -> sys_inv s -> time s < due -> job s = None -> retry_not_before (co s) = Some due ->
  job s' = None /\ retry_not_before (co s') = Some due.
Proof.
  intros Hstep Hs Ht Hj Hp. unfold quiet_step in Hstep. inversion Hstep; subst; cbn; try congruence; try done.
  - split; [done|]. by rewrite (proj1 (proj2 (proj2 (proj2 (proj2 (record_spec _ _ _)))))).
  - split; [done|]. by destruct (focus_spec (time s) (co s)) as ((_ & _ & _ & _ & -> & _) & _).
  - split; [done|]. by destruct (check_spec t (co s)) as ((_ & _ & _ & _ & -> & _) & _).
  - destruct (next_job_spec _ _ _ _ _ _ _ H0 (si_store s Hs)) as [(_ & ? & _)|(_ & _ & _ & _ & _ & _ & _ & _ & _ & _ & _ & _ & E & _)]; [done|].
    specialize (E _ Hp). lia.
  - split; [done|]. by destruct (next_job_spec _ _ _ _ _ _ _ H0 (si_store s Hs)) as [(_ & _ & ->)|(_ & _ & _ & -> & _)].
Qed.

Lemma step_time_mono l s s' : step l s s' -> time s <= time s'.
Proof. destruct 1; cbn; lia. Qed.

(** What a failure leaves behind. *)
Lemma failure_spec clock now trigger e observed c :
  (forall p, e <> Conflict p) ->
  let c' := complete instant_max clock now trigger (Err e) observed c in
  paused c' = permanent_auto_sync_error e
  /\ retry_not_before c' = Some (default (now + secs (86400 * 365 * 100))
       (checked_add instant_max now (secs (Z.max (auto_sync_backoff (failures c)) (default 0 (retry_after e)))))).
Proof.
  intros Hc. unfold complete. set (c1 := match observed with Some g => _ | None => _ end).
  assert (Ef : failures c1 = failures c).
  { unfold c1. destruct observed; [|done]. by destruct (record_spec clock z c) as (_ & _ & _ & _ & _ & -> & _). }
  clearbody c1. rewrite <- Ef. destruct e; try done. by destruct (Hc preview).
Qed.

End System.

(** ** Theorems *)

(** C8: No edit is forgotten. In every run, edits recorded so far count as synchronised only
    when a job that started after them succeeded or found that there is nothing to do; and
    a job that is told that nothing changed starts only when all edits in the store are
    synchronised in this sense. Waits asked for are within the range of [Instant]. *)
Theorem auto_sync_no_edit_lost instant_max limit t g s :
  secs 3600 <= limit -> rtc (any_step instant_max limit) (initial t g) s ->
  (change_since (co s) = None -> mutation_generation (co s) <= synced s)
  /\ (forall clock safe j c', next_job (time s) clock (store s) safe (co s) = (Some j, c') -> change_elapsed j = 0 -> store s <= synced s).
Proof.
  intros Hl Hs. pose proof (auto_sync_inv _ _ Hl _ _ _ Hs) as [I1 I2 I3 I4 I5 I6 I7 I8]. split; [done|].
  intros clock safe j c' E Hc.
  destruct (next_job_spec _ _ _ _ _ _ _ E I2) as [(_ & ? & _)|(_ & _ & E2 & _ & _ & _ & _ & _ & _ & _ & _ & _ & _ & E3)]; [done|].
  destruct (E2 (E3 Hc)) as [Hn Hm]. specialize (I4 Hn). lia.
Qed.

(** C26: Synchronisation never stalls. In every run, when no job runs and nothing is paused, a
    job starts at every tick that comes the longest wait asked for, which is at least an
    hour, after the last thing that happened. *)
Theorem auto_sync_bounded_wait instant_max limit t g s now clock safe :
  secs 3600 <= limit -> rtc (any_step instant_max limit) (initial t g) s ->
  job s = None -> paused (co s) = false -> time s + Z.max limit (secs 900) <= now ->
  exists j c', next_job now clock (store s) safe (co s) = (Some j, c').
Proof.
  intros Hl Hs Hj Hp Hn. pose proof (auto_sync_inv _ _ Hl _ _ _ Hs) as [I1 I2 I3 I4 I5 I6 I7 I8].
  unfold next_job. rewrite I1, Hj. cbn [is_Some].
  pose proof (record_spec clock (store s) (co s)) as R. cbn in R. set (c1 := record_sync_mutation clock (store s) (co s)) in *.
  destruct R as (_ & _ & _ & _ & R5 & _ & R7 & R8 & _ & R10 & R11). clearbody c1.
  rewrite bool_decide_eq_false_2 by (by intros [? ?]).
  set (c2 := if _ && _ then _ else _).
  assert (C : (exists trigger, pending c2 = Some trigger) /\ next_due c2 <= now /\ paused c2 = false /\ retry_not_before c2 = retry_not_before (co s)).
  { unfold c2. destruct (replaceable (pending c1)) eqn:Er.
    - rewrite R8, (proj2 (Z.leb_le _ _)) by lia. cbn. split_and!; try congruence; [eauto|lia].
    - rewrite andb_false_r. destruct (pending c1) as [trigger|] eqn:Ep; [|done]. split_and!; try congruence; [eauto|].
      destruct R10 as [->|[_ ?]]; [lia|congruence]. }
  destruct C as ((trigger & Et) & Hd & Hp2 & Hr2). clearbody c2. rewrite Hp2, Hr2, Et. cbn [orb].
  assert (Hw : match retry_not_before (co s) with Some deadline => now <? deadline | None => false end = false).
  { destruct (retry_not_before (co s)) as [d|]; [|done]. apply Z.ltb_ge. specialize (I7 d eq_refl). lia. }
  rewrite Hw. rewrite (bool_decide_eq_false_2 (Some trigger = None)) by done. rewrite andb_false_r. cbn [negb andb orb].
  rewrite (proj2 (Z.ltb_ge _ _)) by lia. cbn. rewrite Et. eauto.
Qed.

(** C27: Failures are not hammered. After a job ended with an error other than a conflict, and
    as long as the settings are not changed: no job starts if the error is permanent, and
    none before the back-off, or the longer wait the server asked for, is over. Waits asked
    for are within the range of [Instant]. *)
Theorem auto_sync_backs_off instant_max limit t g s trigger gen now e observed s' :
  secs 3600 <= limit -> rtc (any_step instant_max limit) (initial t g) s ->
  job s = Some (trigger, gen) -> time s <= now -> wait_ok instant_max limit now (Err e) -> observed = Some (store s) \/ observed = None ->
  (forall p, e <> Conflict p) ->
  rtc (quiet_step instant_max limit)
    (mkSys (complete instant_max (time s) now trigger (Err e) observed (co s)) now (store s) None (synced s)) s' ->
  (permanent_auto_sync_error e = true -> job s' = None)
  /\ (time s' < now + secs (Z.max (auto_sync_backoff (failures (co s))) (default 0 (retry_after e))) -> job s' = None).
Proof.
  intros Hl Hs Hj Ht Hw Hob Hc Hq. pose proof (auto_sync_inv _ _ Hl _ _ _ Hs) as Hi.
  pose proof (complete_inv _ _ Hl _ _ _ _ _ _ Hi Hj Ht Hw Hob) as H1. cbn [covers] in H1.
  destruct (failure_spec instant_max (time s) now trigger e observed (co s) Hc) as [Ep Er].
  set (due := now + _). assert (Edue : retry_not_before (complete instant_max (time s) now trigger (Err e) observed (co s)) = Some due).
  { rewrite Er. unfold checked_add, due. destruct Hw as [Hw1 Hw2]. pose proof (backoff_range (failures (co s))).
    rewrite (proj2 (Z.leb_le _ _)); [done|]. unfold secs in *. lia. }
  set (c' := complete instant_max (time s) now trigger (Err e) observed (co s)) in *. clearbody c' due. clear Er.
  set (s1 := mkSys c' now (store s) None (synced s)) in *.
  assert (J1 : job s1 = None) by done. assert (J2 : paused (co s1) = permanent_auto_sync_error e) by done.
  assert (J3 : due <= time s1 \/ retry_not_before (co s1) = Some due) by (by right).
  clearbody s1. clear Edue Ep.
  assert (P : sys_inv limit s1 -> job s1 = None -> (permanent_auto_sync_error e = true -> paused (co s1) = true) ->
    permanent_auto_sync_error e = true -> job s' = None).
  { clear H1 J1 J2 J3. induction Hq as [|a b d Hab _ IH]; [done|]. intros Ha Jj Jp Hp.
    destruct (paused_quiet _ _ _ _ Hab Ha Jj (Jp Hp)). apply IH; auto. by eapply step_inv. }
  split; [apply P; [done..|]; by rewrite J2|]. clear P J2.
  assert (Q : sys_inv limit s1 -> (due <= time s1 \/ job s1 = None /\ retry_not_before (co s1) = Some due) -> due <= time s' \/ job s' = None).
  { clear H1 J1 J3. induction Hq as [|a b d Hab _ IH]; [tauto|]. intros Ha Hd. apply IH; [by eapply step_inv|].
    pose proof (step_time_mono _ _ _ _ _ Hab). destruct Hd as [Hd|[Jj Jr]]; [left; lia|].
    destruct (Z.le_gt_cases due (time a)) as [|Hlt]; [left; lia|right]. by eapply waiting_quiet. }
  intros Hlt. destruct Q as [Hd|Hd]; [done|destruct J3; tauto|lia|done].
Qed.

(** ** Examples and witnesses *)

Definition demo_max : Z := secs 1000000000.
Definition demo_limit : Z := secs 3600.

(** The start-up job runs since the third second. *)
Definition demo_running : Sys :=
  match next_job (secs 3) (secs 3) 5 true (new_coordinator 0 5) with
  | (Some j, c) => mkSys c (secs 3) 5 (Some (j_trigger j, 5)) 5
  | (None, c) => mkSys c (secs 3) 5 None 5
  end.

Lemma demo_running_reachable : rtc (any_step demo_max demo_limit) (initial 0 5) demo_running.
Proof.
  eapply rtc_l; [exists Other; apply (step_time _ _ _ (secs 3)); vm_compute; discriminate|].
  eapply rtc_l; [exists Other; eapply (step_start _ _ _ (secs 3) true); [vm_compute; discriminate|vm_compute; reflexivity]|].
  apply rtc_refl.
Qed.

Lemma auto_sync_no_edit_lost_witness : change_since (co demo_running) = None /\ mutation_generation (co demo_running) <= synced demo_running.
Proof.
  destruct (auto_sync_no_edit_lost demo_max demo_limit 0 5 demo_running ltac:(vm_compute; discriminate) demo_running_reachable) as [H _].
  split; [reflexivity|apply H; reflexivity].
Defined.

Lemma auto_sync_bounded_wait_witness :
  exists j c', next_job (secs 3600) (secs 3600) 5 true (new_coordinator 0 5) = (Some j, c').
Proof.
  apply (auto_sync_bounded_wait demo_max demo_limit 0 5 (initial 0 5)); try reflexivity; vm_compute; discriminate.
Defined.

Definition demo_denied : CloudSyncError := Authentication (bs "webdav") (bs "read") 401.
Definition demo_failed : Sys :=
  mkSys (complete demo_max (time demo_running) (secs 4) Startup (Err demo_denied) (Some 5) (co demo_running)) (secs 4) 5 None 5.

Lemma auto_sync_backs_off_witness :
  permanent_auto_sync_error demo_denied = true /\ job (mkSys (co demo_failed) (secs 9000) 5 None 5) = None.
Proof.
  split; [reflexivity|].
  refine (proj1 (auto_sync_backs_off demo_max demo_limit 0 5 demo_running Startup 5 (secs 4) demo_denied (Some 5)
    (mkSys (co demo_failed) (secs 9000) 5 None 5) _ demo_running_reachable _ _ _ _ _ _) eq_refl).
  - vm_compute; discriminate.
  - reflexivity.
  - vm_compute; discriminate.
  - split; vm_compute; discriminate.
  - left. reflexivity.
  - intros p E. discriminate E.
  - eapply rtc_l; [apply (step_time _ _ _ (secs 9000)); vm_compute; discriminate|]. apply rtc_refl.
Defined.

(** Settings that are changed while a job runs do not resume it: when the job, which still
    used the old ones, fails for good, the coordinator is paused until the settings change
    once more. *)
Example settings_change_during_job_lost :
  let c := complete demo_max (secs 4) (secs 4) Startup (Err demo_denied) (Some 5) (settings_changed (secs 4) (co demo_running)) in
  paused c = true /\ fst (next_job (secs 86400) (secs 86400) 5 true c) = None.
Proof. vm_compute. split; reflexivity. Qed.

(** An edit before the start-up job, which is skipped when checks at start-up are off, waits
    for the periodic check instead of the debounce. *)
Example edit_waits_for_periodic :
  let c := record_sync_mutation (secs 1) 6 (new_coordinator 0 5) in
  let c := snd (next_job (secs 3) (secs 3) 6 true c) in
  let skipped := auto_sync_skip (mkSettings true false true 5) Startup (secs 2) in
  let c := complete demo_max (secs 4) (secs 4) Startup (Ok Skipped) (Some 6) c in
  skipped = Some Skipped /\ change_since c = Some (secs 1)
  /\ fst (next_job (secs 899) (secs 899) 6 true c) = None
  /\ option_map j_trigger (fst (next_job (secs 900) (secs 900) 6 true c)) = Some Periodic.
Proof. vm_compute. repeat split; reflexivity. Qed.
