(* ===== verification/WorkspacePanes.v ===== *)
(** * The panes of a tab

    The tree of split panes of a workspace tab,
    [nyaterm-desktop/src/models/workspace_pane.rs], and its stored form
    ([RestorableWorkspacePaneNode] of [nyaterm-core/src/models/workspace.rs]). A leaf shows
    a session. A method that changes the tree and reports whether it did returns the new
    tree or nothing. The theorems show that pruning keeps exactly the live sessions in
    order, that a stored layout is restored to the pruned tree, ratios included, and that
    the panes of a tmux session take the place of its shell, are refreshed in place and give
    it back. *)

From Stdlib Require Import ZArith Lia SpecFloat.
From stdpp Require Import base numbers option list gmap sets strings.
From S2P Require Import Prelude RustStr RustText ShellRisk.

Local Open Scope Z_scope.

Inductive WorkspaceSplitDirection := Horizontal | Vertical.

Inductive WorkspacePaneNode :=
| PaneLeaf (session_id : bytes)
| PaneSplit (id : bytes) (direction : WorkspaceSplitDirection) (ratio_percent : Z) (first second : WorkspacePaneNode).

Definition DEFAULT_RATIO_PERCENT : Z := 50.
Definition MIN_RATIO_PERCENT : Z := 20.
Definition MAX_RATIO_PERCENT : Z := 80.

(** [Ord::clamp] *)
Definition clamp (value lo hi : Z) : Z := if value <? lo then lo else if hi <? value then hi else value.

Definition clamped_ratio_percent (value : Z) : Z := clamp value MIN_RATIO_PERCENT MAX_RATIO_PERCENT.

Fixpoint contains_session (session_id : bytes) (n : WorkspacePaneNode) : bool :=
  match n with
  | PaneLeaf id => bool_decide (id = session_id)
  | PaneSplit _ _ _ first second => contains_session session_id first || contains_session session_id second
  end.

(** [a || b] for two methods on the subtrees. *)
Definition either {A} (first second : A) (a b : option A) (k : A -> A -> A) : option A :=
  match a with
  | Some first' => Some (k first' second)
  | None => match b with Some second' => Some (k first second') | None => None end
  end.

Fixpoint replace_session_id (old_id new_id : bytes) (n : WorkspacePaneNode) : option WorkspacePaneNode :=
  match n with
  | PaneLeaf id => if bool_decide (id = old_id) then Some (PaneLeaf new_id) else None
  | PaneSplit id d r first second =>
    either first second (replace_session_id old_id new_id first) (replace_session_id old_id new_id second) (PaneSplit id d r)
  end.

Fixpoint session_ids (n : WorkspacePaneNode) : list bytes :=
  match n with PaneLeaf id => [id] | PaneSplit _ _ _ first second => session_ids first ++ session_ids second end.

Definition is_split (n : WorkspacePaneNode) : bool := match n with PaneSplit _ _ _ _ _ => true | _ => false end.

Fixpoint set_ratio_for_split (split_id : bytes) (value : Z) (n : WorkspacePaneNode) : option WorkspacePaneNode :=
  match n with
  | PaneLeaf _ => None
  | PaneSplit id d r first second =>
    if bool_decide (id = split_id) then Some (PaneSplit id d (clamped_ratio_percent value) first second)
    else either first second (set_ratio_for_split split_id value first) (set_ratio_for_split split_id value second) (PaneSplit id d r)
  end.

Fixpoint direction_for_split (split_id : bytes) (n : WorkspacePaneNode) : option WorkspaceSplitDirection :=
  match n with
  | PaneLeaf _ => None
  | PaneSplit id d _ first second =>
    if bool_decide (id = split_id) then Some d
    else match direction_for_split split_id first with Some d => Some d | None => direction_for_split split_id second end
  end.

Fixpoint ratio_for_split (split_id : bytes) (n : WorkspacePaneNode) : option Z :=
  match n with
  | PaneLeaf _ => None
  | PaneSplit id _ r first second =>
    if bool_decide (id = split_id) then Some r
    else match ratio_for_split split_id first with Some r => Some r | None => ratio_for_split split_id second end
  end.

(** ** tmux panes *)

Fixpoint leaves_all_have_prefix (prefix : bytes) (n : WorkspacePaneNode) : bool :=
  match n with
  | PaneLeaf id => starts_with prefix id
  | PaneSplit _ _ _ first second => leaves_all_have_prefix prefix first && leaves_all_have_prefix prefix second
  end.

Fixpoint replace_tmux_subtree_inner (host prefix : bytes) (subtree n : WorkspacePaneNode) : option WorkspacePaneNode :=
  if match n with PaneLeaf id => bool_decide (id = host) | _ => false end then Some subtree
  else if leaves_all_have_prefix prefix n then Some subtree
  else
    match n with
    | PaneSplit id d r first second =>
      either first second (replace_tmux_subtree_inner host prefix subtree first)
        (replace_tmux_subtree_inner host prefix subtree second) (PaneSplit id d r)
    | PaneLeaf _ => None
    end.

Definition tmux_prefix (host : bytes) : bytes := host ++ bs "::".

Definition replace_tmux_subtree (host : bytes) (subtree n : WorkspacePaneNode) : option WorkspacePaneNode :=
  replace_tmux_subtree_inner host (tmux_prefix host) subtree n.

Fixpoint collapse_tmux_subtree_inner (prefix leaf_session_id : bytes) (n : WorkspacePaneNode) : option WorkspacePaneNode :=
  if leaves_all_have_prefix prefix n then Some (PaneLeaf leaf_session_id)
  else
    match n with
    | PaneSplit id d r first second =>
      either first second (collapse_tmux_subtree_inner prefix leaf_session_id first)
        (collapse_tmux_subtree_inner prefix leaf_session_id second) (PaneSplit id d r)
    | PaneLeaf _ => None
    end.

Definition collapse_tmux_subtree (host : bytes) (n : WorkspacePaneNode) : option WorkspacePaneNode :=
  collapse_tmux_subtree_inner (tmux_prefix host) host n.

(** ** Pruning *)

(** A split of what is left of two subtrees. *)
Definition join_nodes {A} (a b : option A) (k : A -> A -> A) : option A :=
  match a, b with
  | Some first, Some second => Some (k first second)
  | Some only, None | None, Some only => Some only
  | None, None => None
  end.

Fixpoint prune (live : gset bytes) (n : WorkspacePaneNode) : option WorkspacePaneNode :=
  match n with
  | PaneLeaf id => if bool_decide (id ∈ live) then Some (PaneLeaf id) else None
  | PaneSplit id d r first second =>
    join_nodes (prune live first) (prune live second) (PaneSplit id d (clamped_ratio_percent r))
  end.

(** ** Stored layouts *)

Inductive RestorableWorkspacePaneNode :=
| RestLeaf (tab_index : nat)
| RestSplit (id direction : bytes) (ratio : spec_float) (first second : RestorableWorkspacePaneNode).

(** Doubles: a small integer converts exactly. *)
Definition f64 (n : Z) : spec_float := binary_normalize 53 1024 n 0 false.

(** [f64::clamp] for bounds that are numbers. *)
Definition f64_clamp (x lo hi : spec_float) : spec_float := if SFltb x lo then lo else if SFltb hi x then hi else x.

Definition is_finite (x : spec_float) : bool := match x with S754_zero _ | S754_finite _ _ _ => true | _ => false end.

(** [f64::round], half away from zero, and [as u8], which saturates. *)
Definition round_magnitude (m : positive) (e : Z) : Z :=
  if 0 <=? e then Z.pos m * 2 ^ e
  else let d := 2 ^ (- e) in let q := Z.pos m / d in if d <=? 2 * (Z.pos m mod d) then q + 1 else q.
Definition round_as_u8 (x : spec_float) : Z :=
  match x with
  | S754_zero _ | S754_nan => 0
  | S754_infinity s => if s then 0 else 255
  | S754_finite s m e => if s then 0 else Z.min (round_magnitude m e) 255
  end.

(** The stored ratio of a percentage, and the percentage of a stored ratio. *)
Definition stored_ratio (percent : Z) (lo hi : spec_float) : spec_float := f64_clamp (SFdiv 53 1024 (f64 percent) (f64 100)) lo hi.
Definition restored_percent (ratio : spec_float) (lo hi : Z) : Z := clamp (round_as_u8 (SFmul 53 1024 ratio (f64 100))) lo hi.

(** The doubles 0.2 and 0.8. *)
Definition F64_0_2 : spec_float := S754_finite false 7205759403792794 (-55).
Definition F64_0_8 : spec_float := S754_finite false 7205759403792794 (-53).

Definition direction_name (d : WorkspaceSplitDirection) : bytes :=
  match d with Horizontal => bs "horizontal" | Vertical => bs "vertical" end.

Definition parse_direction (s : bytes) : option WorkspaceSplitDirection :=
  let s := to_ascii_lowercase s in
  if one_of ["horizontal"; "row"]%string s then Some Horizontal
  else if one_of ["vertical"; "column"]%string s then Some Vertical else None.

(** [index_by_id]: the last index of a tab counts. *)
Definition index_by_id (ordered : list bytes) : gmap bytes nat :=
  list_to_map (reverse (imap (fun i id => (id, i)) ordered)).

Fixpoint serialize_layout_with (index : gmap bytes nat) (n : WorkspacePaneNode) : option RestorableWorkspacePaneNode :=
  match n with
  | PaneLeaf id => RestLeaf <$> index !! id
  | PaneSplit id d r first second =>
    join_nodes (serialize_layout_with index first) (serialize_layout_with index second)
      (RestSplit id (direction_name d) (stored_ratio (clamped_ratio_percent r) F64_0_2 F64_0_8))
  end.

Definition serialize_layout (ordered : list bytes) (n : WorkspacePaneNode) : option RestorableWorkspacePaneNode :=
  match ordered with [] => None | _ => serialize_layout_with (index_by_id ordered) n end.

(** The set of used tabs is threaded through; [uuid] is the number of the [n]th new split. *)
Fixpoint restore_layout_inner (uuid : nat -> bytes) (ordered : list bytes) (layout : RestorableWorkspacePaneNode)
    (st : gset bytes * nat) : option WorkspacePaneNode * (gset bytes * nat) :=
  match layout with
  | RestLeaf i =>
    match ordered !! i with
    | None => (None, st)
    | Some id => if bool_decide (id ∈ st.1) then (None, st) else (Some (PaneLeaf id), ({[id]} ∪ st.1, st.2))
    end
  | RestSplit id direction ratio first second =>
    match parse_direction direction with
    | None => (None, st)
    | Some d =>
      if negb (is_finite ratio) then (None, st)
      else
        let a := restore_layout_inner uuid ordered first st in
        let b := restore_layout_inner uuid ordered second a.2 in
        match a.1, b.1 with
        | Some first, Some second =>
          let percent := restored_percent ratio MIN_RATIO_PERCENT MAX_RATIO_PERCENT in
          if bool_decide (trim id = []) then
            (Some (PaneSplit (bs "pane-split-" ++ uuid b.2.2) d percent first second), (b.2.1, S b.2.2))
          else (Some (PaneSplit id d percent first second), b.2)
        | Some only, None | None, Some only => (Some only, b.2)
        | None, None => (None, b.2)
        end
    end
  end.

Definition restore_layout (uuid : nat -> bytes) (ordered : list bytes) (layout : RestorableWorkspacePaneNode) : option WorkspacePaneNode :=
  match ordered with
  | [] => None
  | _ =>
    match (restore_layout_inner uuid ordered layout (∅, O)).1 with
    | Some n => if is_split n then Some n else None
    | None => None
    end
  end.

(** ** Ratios *)

Lemma percent_check : forallb (fun p => (restored_percent (stored_ratio p F64_0_2 F64_0_8) 20 80 =? p)
  && is_finite (stored_ratio p F64_0_2 F64_0_8)) (seqZ 20 61) = true.
Proof. vm_compute. reflexivity. Qed.

Lemma percent_roundtrip p :
  20 <= p <= 80 -> restored_percent (stored_ratio p F64_0_2 F64_0_8) 20 80 = p /\ is_finite (stored_ratio p F64_0_2 F64_0_8) = true.
Proof.
  intros Hp. pose proof percent_check as H. rewrite forallb_forall in H.
  specialize (H p). rewrite <- list_elem_of_In, elem_of_seqZ in H. specialize (H ltac:(lia)). apply andb_true_iff in H as [->%Z.eqb_eq ->]. done.
Qed.

Lemma clamped_range r : 20 <= clamped_ratio_percent r <= 80.
Proof. unfold clamped_ratio_percent, clamp, MIN_RATIO_PERCENT, MAX_RATIO_PERCENT. repeat split_match; bool_hyps; lia. Qed.

(** ** Pruning and storing *)

Definition sessions_of (o : option WorkspacePaneNode) : list bytes := from_option session_ids [] o.

Lemma sessions_join a b k :
  (forall x y, session_ids (k x y) = session_ids x ++ session_ids y) -> sessions_of (join_nodes a b k) = sessions_of a ++ sessions_of b.
Proof. intros Hk. destruct a, b; cbn; rewrite ?Hk, ?app_nil_r; done. Qed.

Lemma prune_sessions live n : sessions_of (prune live n) = filter (.∈ live) (session_ids n).
Proof.
  induction n as [id|id d r a IHa b IHb]; cbn [prune session_ids].
  - rewrite filter_cons, filter_nil. case_bool_decide as E; cbn [sessions_of from_option session_ids]; by case_decide.
  - rewrite sessions_join by done. by rewrite IHa, IHb, filter_app.
Qed.

(** Every split has a name and a ratio in the range that the code keeps. *)
Fixpoint splits_ok (n : WorkspacePaneNode) : Prop :=
  match n with
  | PaneLeaf _ => True
  | PaneSplit id _ r first second => trim id <> [] /\ 20 <= r <= 80 /\ splits_ok first /\ splits_ok second
  end.

Lemma prune_live live n : splits_ok n -> (forall id, id ∈ session_ids n -> id ∈ live) -> prune live n = Some n.
Proof.
  induction n as [id|id d r a IHa b IHb]; cbn.
  - intros _ H. rewrite bool_decide_eq_true_2; [done|]. apply H. left.
  - intros (_ & Hr & Ha & Hb) H. rewrite IHa, IHb; try done; try (intros x Hx; apply H, elem_of_app; auto).
    cbn. unfold clamped_ratio_percent, clamp, MIN_RATIO_PERCENT, MAX_RATIO_PERCENT. repeat split_match; bool_hyps; try lia. done.
Qed.

Lemma index_by_id_spec ordered id i : NoDup ordered -> index_by_id ordered !! id = Some i <-> ordered !! i = Some id.
Proof.
  intros Hn. unfold index_by_id.
  assert (E : fst <$> imap (fun i id => (id, i)) ordered = ordered).
  { rewrite fmap_imap. clear. unfold compose. cbn. induction ordered as [|x l IH]; [done|]. rewrite imap_cons. by f_equal. }
  rewrite <- elem_of_list_to_map by (by rewrite fmap_reverse, reverse_Permutation, E).
  rewrite elem_of_reverse, elem_of_lookup_imap. naive_solver.
Qed.

Lemma parse_direction_name d : parse_direction (direction_name d) = Some d.
Proof. by destruct d. Qed.

Section Restore.

Variables (uuid : nat -> bytes) (ordered : list bytes).
Hypothesis ordered_nodup : NoDup ordered.

Let live : gset bytes := list_to_set ordered.

Fixpoint names_ok (n : WorkspacePaneNode) : Prop :=
  match n with PaneLeaf _ => True | PaneSplit id _ _ first second => trim id <> [] /\ names_ok first /\ names_ok second end.

Lemma serialize_prune n : serialize_layout_with (index_by_id ordered) n = None <-> prune live n = None.
Proof using ordered_nodup.
  induction n as [id|id d r a IHa b IHb]; cbn.
  - rewrite fmap_None. case_bool_decide as E.
    + split; [|done]. intros Hn. apply elem_of_list_to_set, list_elem_of_lookup in E as [i Hi].
      apply index_by_id_spec in Hi; [|done]. congruence.
    + split; [done|]. intros _. apply eq_None_not_Some. intros [i Hi%index_by_id_spec]; [|done].
      apply E, elem_of_list_to_set, list_elem_of_lookup. eauto.
  - destruct (serialize_layout_with _ a), (serialize_layout_with _ b), (prune live a), (prune live b); cbn in *; naive_solver.
Qed.

(** Restoring a stored tree gives the pruned tree, whatever was restored before it. *)
Lemma restore_serialized n l st :
  names_ok n -> NoDup (session_ids n) -> (forall id, id ∈ session_ids n -> id ∈ live -> id ∉ st.1) ->
  serialize_layout_with (index_by_id ordered) n = Some l ->
  restore_layout_inner uuid ordered l st = (prune live n, (list_to_set (sessions_of (prune live n)) ∪ st.1, st.2)).
Proof using ordered_nodup.
  revert l st. induction n as [id|id d r a IHa b IHb]; intros l st; cbn [serialize_layout_with prune session_ids names_ok].
  - intros _ _ Hu Hs. apply fmap_Some in Hs as (i & Hi%index_by_id_spec & ->); [|done]. cbn. rewrite Hi.
    assert (Hl : id ∈ live) by (apply elem_of_list_to_set, list_elem_of_lookup; eauto).
    rewrite bool_decide_eq_false_2 by (apply Hu; [left|done]). rewrite bool_decide_eq_true_2 by done. cbn. f_equal. f_equal. set_solver.
  - intros (Hid & Hna & Hnb) (Hda & Hdis & Hdb)%NoDup_app Hu Hs.
    assert (Ha : forall la, serialize_layout_with (index_by_id ordered) a = Some la ->
      restore_layout_inner uuid ordered la st = (prune live a, (list_to_set (sessions_of (prune live a)) ∪ st.1, st.2))).
    { intros la Hla. apply IHa; try done. intros x Hx. apply Hu. apply elem_of_app. by left. }
    assert (Hb : forall lb s, (forall x, x ∈ s -> x ∈ session_ids a \/ x ∈ st.1) -> serialize_layout_with (index_by_id ordered) b = Some lb ->
      restore_layout_inner uuid ordered lb (s, st.2) = (prune live b, (list_to_set (sessions_of (prune live b)) ∪ s, st.2))).
    { intros lb s Hsub Hlb. apply (IHb lb (s, st.2)); try done. cbn. intros x Hx Hlx [Hxa|Hxs]%Hsub; [by apply (Hdis x)|].
      apply (Hu x); try done. apply elem_of_app. by right. }
    pose proof (serialize_prune a) as Pa. pose proof (serialize_prune b) as Pb.
    assert (Hsa : forall x, x ∈ sessions_of (prune live a) -> x ∈ session_ids a).
    { intros x. rewrite prune_sessions, list_elem_of_filter. tauto. }
    destruct (serialize_layout_with (index_by_id ordered) a) as [la|], (serialize_layout_with (index_by_id ordered) b) as [lb|];
      cbn [join_nodes] in Hs; [| | |done]; injection Hs as <-.
    + cbn [restore_layout_inner]. rewrite parse_direction_name. destruct (percent_roundtrip (clamped_ratio_percent r) (clamped_range r)) as [Er Ef].
      rewrite Ef. cbn [negb]. rewrite (Ha la eq_refl). cbn [fst snd].
      rewrite (Hb lb) by (done || (intros x Hx; set_solver)). cbn [fst snd].
      destruct (prune live a) as [pa|]; [|by destruct Pa as [_ Pa]; specialize (Pa eq_refl)].
      destruct (prune live b) as [pb|]; [|by destruct Pb as [_ Pb]; specialize (Pb eq_refl)].
      rewrite bool_decide_eq_false_2 by done. cbn [join_nodes sessions_of from_option session_ids]. unfold MIN_RATIO_PERCENT, MAX_RATIO_PERCENT. rewrite Er.
      f_equal. f_equal. rewrite list_to_set_app_L. cbn. set_solver.
    + rewrite (proj1 Pb eq_refl), (Ha la eq_refl). by destruct (prune live a).
    + rewrite (proj1 Pa eq_refl). rewrite (surjective_pairing st), (Hb lb st.1); [|by right|done]. by destruct (prune live b).
Qed.

End Restore.

(** ** tmux panes *)

Section Tmux.

Variable host : bytes.

(** Trees without panes of the host's tmux session. *)
Definition foreign (n : WorkspacePaneNode) : Prop := Forall (fun id => starts_with (tmux_prefix host) id = false) (session_ids n).

Lemma foreign_split id d r a b : foreign (PaneSplit id d r a b) <-> foreign a /\ foreign b.
Proof. unfold foreign. cbn. by rewrite Forall_app. Qed.

Lemma foreign_prefix n : foreign n -> leaves_all_have_prefix (tmux_prefix host) n = false.
Proof.
  induction n as [id|id d r a IHa b IHb]; cbn; [by intros H%Forall_inv|]. intros [Ha Hb]%foreign_split. by rewrite IHa.
Qed.

Lemma foreign_collapse n : foreign n -> collapse_tmux_subtree host n = None.
Proof.
  unfold collapse_tmux_subtree. induction n as [id|id d r a IHa b IHb]; intros H; pose proof (foreign_prefix _ H) as E; cbn in *; rewrite E; [done|].
  apply foreign_split in H as [Ha Hb]. by rewrite IHa, IHb.
Qed.

Lemma foreign_replace sub n : foreign n -> host ∉ session_ids n -> replace_tmux_subtree host sub n = None.
Proof.
  unfold replace_tmux_subtree. induction n as [id|id d r a IHa b IHb]; intros H Hh; pose proof (foreign_prefix _ H) as E; cbn in *; rewrite E.
  - rewrite bool_decide_eq_false_2 by set_solver. done.
  - apply foreign_split in H as [Ha Hb]. rewrite IHa, IHb by set_solver. done.
Qed.

(** What a split does when the host is in one of its halves. *)
Lemma replace_split sub id d r a b :
  leaves_all_have_prefix (tmux_prefix host) a = false \/ leaves_all_have_prefix (tmux_prefix host) b = false ->
  replace_tmux_subtree host sub (PaneSplit id d r a b)
  = either a b (replace_tmux_subtree host sub a) (replace_tmux_subtree host sub b) (PaneSplit id d r).
Proof. unfold replace_tmux_subtree. cbn. intros [->| ->]; [done|]. by rewrite andb_false_r. Qed.

Lemma collapse_split id d r a b :
  leaves_all_have_prefix (tmux_prefix host) a = false \/ leaves_all_have_prefix (tmux_prefix host) b = false ->
  collapse_tmux_subtree host (PaneSplit id d r a b)
  = either a b (collapse_tmux_subtree host a) (collapse_tmux_subtree host b) (PaneSplit id d r).
Proof. unfold collapse_tmux_subtree. cbn. intros [->| ->]; [done|]. by rewrite andb_false_r. Qed.

Lemma replace_whole sub2 sub : leaves_all_have_prefix (tmux_prefix host) sub = true -> replace_tmux_subtree host sub2 sub = Some sub2.
Proof. unfold replace_tmux_subtree. destruct sub; cbn; intros ->; [by case_bool_decide|done]. Qed.

Lemma collapse_whole sub : leaves_all_have_prefix (tmux_prefix host) sub = true -> collapse_tmux_subtree host sub = Some (PaneLeaf host).
Proof. unfold collapse_tmux_subtree. destruct sub; cbn; by intros ->. Qed.

End Tmux.

(** ** Theorems *)

(** Pruning keeps exactly the live sessions, in their order, and changes nothing when all
    are live and the ratios are in range. *)
Theorem pane_prune_exact live n :
  sessions_of (prune live n) = filter (.∈ live) (session_ids n)
  /\ (splits_ok n -> (forall id, id ∈ session_ids n -> id ∈ live) -> prune live n = Some n).
Proof. split; [apply prune_sessions|apply prune_live]. Qed.

(** A stored layout comes back. For open tabs that are all different and a tree that shows
    no session twice and whose splits are named, storing the tree and restoring it gives
    the tree pruned to the open tabs, split by split with the same direction, name and
    percentage, and nothing exactly when no split is left. *)
Theorem pane_layout_roundtrip uuid ordered n :
  NoDup ordered -> ordered <> [] -> names_ok n -> NoDup (session_ids n) ->
  serialize_layout ordered n ≫= restore_layout uuid ordered
  = match prune (list_to_set ordered) n with Some p => if is_split p then Some p else None | None => None end.
Proof.
  intros Ho Hne Hn Hd. unfold serialize_layout, restore_layout. destruct ordered as [|o os]; [done|].
  destruct (serialize_layout_with (index_by_id (o :: os)) n) as [l|] eqn:E; cbn [mbind option_bind].
  - rewrite (restore_serialized uuid (o :: os) Ho n l (∅, O)); [done|done|done|set_solver|done].
  - apply serialize_prune in E; [|done]. by rewrite E.
Qed.

(** tmux takes over a pane and gives it back. In a tree that shows the host's shell once
    and none of its tmux panes, a takeover puts the panes in the place of the shell and
    leaves all else alone; refreshing the panes is the same as taking over with the new
    ones; and when tmux ends the tree is again what it was. *)
Theorem tmux_takeover_reverts host n sub :
  NoDup (session_ids n) -> host ∈ session_ids n -> foreign host n -> leaves_all_have_prefix (tmux_prefix host) sub = true ->
  exists n1, replace_tmux_subtree host sub n = Some n1
    /\ session_ids n1 = (session_ids n ≫= fun id => if bool_decide (id = host) then session_ids sub else [id])
    /\ collapse_tmux_subtree host n1 = Some n
    /\ forall sub2, replace_tmux_subtree host sub2 n1 = replace_tmux_subtree host sub2 n.
Proof.
  intros Hd Hh Hf Hs. induction n as [id|id d r a IHa b IHb].
  - apply list_elem_of_singleton in Hh as <-. exists sub. unfold replace_tmux_subtree at 1 3. cbn. rewrite bool_decide_eq_true_2 by done.
    split_and!; [done|by rewrite app_nil_r|by apply collapse_whole|]. intros sub2. by apply replace_whole.
  - cbn [session_ids] in *. apply NoDup_app in Hd as (Hda & Hdis & Hdb). apply foreign_split in Hf as [Hfa Hfb].
    assert (Hkeep : forall m, host ∉ session_ids m -> (session_ids m ≫= fun id => if bool_decide (id = host) then session_ids sub else [id]) = session_ids m).
    { intros m. generalize (session_ids m). induction l as [|x l IH]; [done|]. intros [Hx Hl]%not_elem_of_cons. cbn.
      rewrite bool_decide_eq_false_2 by congruence. cbn. by rewrite IH. }
    pose proof (foreign_prefix host _ Hfa) as Pa. pose proof (foreign_prefix host _ Hfb) as Pb.
    apply elem_of_app in Hh as [Hh|Hh].
    + destruct (IHa Hda Hh Hfa) as (a1 & E1 & E2 & E3 & E4). assert (Hb : host ∉ session_ids b) by (by apply Hdis).
      exists (PaneSplit id d r a1 b). rewrite replace_split, E1, collapse_split, E3 by auto. split_and!; try done.
      * cbn. by rewrite bind_app, E2, (Hkeep b Hb).
      * intros sub2. rewrite !replace_split by auto. rewrite E4.
        by destruct (replace_tmux_subtree host sub2 a) eqn:Ea; [|rewrite (foreign_replace host sub2 b) by done].
    + destruct (IHb Hdb Hh Hfb) as (b1 & E1 & E2 & E3 & E4). assert (Ha : host ∉ session_ids a) by (intros H; by apply (Hdis host)).
      exists (PaneSplit id d r a b1). rewrite replace_split, E1, collapse_split, E3, (foreign_replace host sub a), (foreign_collapse host a) by auto.
      split_and!; try done.
      * cbn. by rewrite bind_app, E2, (Hkeep a Ha).
      * intros sub2. rewrite !replace_split by auto. rewrite E4, (foreign_replace host sub2 a) by done.
        by destruct (replace_tmux_subtree host sub2 b).
Qed.

(** ** Examples and witnesses *)

Definition demo_tree : WorkspacePaneNode :=
  PaneSplit (bs "s1") Horizontal 37 (PaneLeaf (bs "h")) (PaneSplit (bs "s2") Vertical 50 (PaneLeaf (bs "x")) (PaneLeaf (bs "y"))).
Definition demo_panes : WorkspacePaneNode := PaneSplit (bs "t") Vertical 50 (PaneLeaf (bs "h::pane0")) (PaneLeaf (bs "h::pane1")).

Lemma demo_nodup : NoDup (session_ids demo_tree).
Proof. vm_compute. repeat constructor; set_solver. Qed.

Lemma pane_prune_exact_witness : prune {[ bs "h"; bs "x"; bs "y" ]} demo_tree = Some demo_tree.
Proof.
  apply (pane_prune_exact {[ bs "h"; bs "x"; bs "y" ]} demo_tree).
  - vm_compute. repeat split; discriminate.
  - intros id. cbn. rewrite !elem_of_cons, !elem_of_union, !elem_of_singleton. intros [->|[->|[->|[]%not_elem_of_nil]]]; tauto.
Defined.

(** The tab of the session x is closed. *)
Lemma pane_layout_roundtrip_witness :
  serialize_layout [bs "y"; bs "h"] demo_tree ≫= restore_layout (fun _ => []) [bs "y"; bs "h"]
  = Some (PaneSplit (bs "s1") Horizontal 37 (PaneLeaf (bs "h")) (PaneLeaf (bs "y"))).
Proof.
  rewrite (pane_layout_roundtrip (fun _ => []) [bs "y"; bs "h"] demo_tree).
  - vm_compute. reflexivity.
  - vm_compute. repeat constructor; set_solver.
  - discriminate.
  - vm_compute. repeat split; discriminate.
  - exact demo_nodup.
Defined.

Lemma tmux_takeover_reverts_witness :
  exists n1, replace_tmux_subtree (bs "h") demo_panes demo_tree = Some n1 /\ collapse_tmux_subtree (bs "h") n1 = Some demo_tree.
Proof.
  destruct (tmux_takeover_reverts (bs "h") demo_tree demo_panes demo_nodup) as (n1 & H1 & _ & H3 & _).
  - left.
  - repeat constructor.
  - reflexivity.
  - exists n1. split; [exact H1|exact H3].
Defined.
