(* ===== verification/TabWindows.v ===== *)
(** * Groups of tabs

    The tree of tab groups of a window, [nyaterm-desktop/src/models/workspace_tabs/]
    ([mod.rs], [tree.rs], [mutation.rs], [docking.rs], [persistence.rs] and the structural
    part of [groups.rs]), and its stored form. Every group is a leaf with its tabs and the
    active one. Identifiers of new nodes come from [uuid_v4_like], an argument here. The
    theorems show that closing, moving, docking, opening and renaming tabs keep the groups
    well formed and exactly the expected tabs, where a docked tab ends up, and that stored
    layouts and keys of tabs are read back. *)

From Stdlib Require Import ZArith Lia SpecFloat.
From stdpp Require Import base numbers option list gmap sets relations strings.
From S2P Require Import Prelude RustStr RustText ShellRisk WorkspacePanes.

Local Open Scope Z_scope.

Inductive TerminalWindowNode :=
| WinLeaf (id : bytes) (tab_ids : list bytes) (active_tab_id : option bytes)
| WinSplit (id : bytes) (direction : WorkspaceSplitDirection) (ratio_percent : Z) (first second : TerminalWindowNode).

(** A group: what a leaf holds. *)
Record group := mkGroup { g_id : bytes; g_tabs : list bytes; g_active : option bytes }.
Definition leaf_of (g : group) : TerminalWindowNode := WinLeaf (g_id g) (g_tabs g) (g_active g).

(** Methods that look for a leaf: the first answer of [first] and [second]. *)
Fixpoint find_leaf {A} (f : group -> option A) (n : TerminalWindowNode) : option A :=
  match n with
  | WinLeaf id tabs active => f (mkGroup id tabs active)
  | WinSplit _ _ _ first second => match find_leaf f first with Some a => Some a | None => find_leaf f second end
  end.

(** Methods that change the first leaf they apply to, [first.m() || second.m()]. *)
Fixpoint at_leaf (f : group -> option TerminalWindowNode) (n : TerminalWindowNode) : option TerminalWindowNode :=
  match n with
  | WinLeaf id tabs active => f (mkGroup id tabs active)
  | WinSplit id d r first second => either first second (at_leaf f first) (at_leaf f second) (WinSplit id d r)
  end.

Definition has_tab (tab : bytes) (g : group) : bool := bool_decide (tab ∈ g_tabs g).

(** ** [tree.rs] *)

Fixpoint unique_loop (seen : gset bytes) (tabs : list bytes) : list bytes :=
  match tabs with
  | [] => []
  | t :: tabs' => if bool_decide (t ∈ seen) then unique_loop seen tabs' else t :: unique_loop ({[t]} ∪ seen) tabs'
  end.
Definition unique_tabs (tabs : list bytes) : list bytes := unique_loop ∅ tabs.

Definition leaf_id (uuid : bytes) : bytes := bs "tw-leaf-" ++ uuid.

Definition leaf (uuid : bytes) (tab_ids : list bytes) (active_tab_id : option bytes) : TerminalWindowNode :=
  let tabs := unique_tabs tab_ids in
  let active := match active_tab_id with
                | Some a => if bool_decide (a ∈ tabs) then Some a else head tabs
                | None => head tabs
                end in
  WinLeaf (leaf_id uuid) tabs active.

Fixpoint collect_tab_ids (n : TerminalWindowNode) : list bytes :=
  match n with WinLeaf _ tabs _ => tabs | WinSplit _ _ _ first second => collect_tab_ids first ++ collect_tab_ids second end.

Fixpoint contains_tab (tab : bytes) (n : TerminalWindowNode) : bool :=
  match n with
  | WinLeaf _ tabs _ => bool_decide (tab ∈ tabs)
  | WinSplit _ _ _ first second => contains_tab tab first || contains_tab tab second
  end.

(** [iter().position(|id| id == tab)] *)
Definition position (tab : bytes) (tabs : list bytes) : option nat := fst <$> list_find (fun t => t = tab) tabs.

Definition replace_in_leaf (old_id new_id : bytes) (g : group) : option TerminalWindowNode :=
  match position old_id (g_tabs g) with
  | None => None
  | Some i =>
    let tabs := if bool_decide (new_id ∈ g_tabs g) then delete i (g_tabs g) else <[i := new_id]> (g_tabs g) in
    Some (WinLeaf (g_id g) tabs (if bool_decide (g_active g = Some old_id) then Some new_id else g_active g))
  end.
Definition replace_tab_id (old_id new_id : bytes) (n : TerminalWindowNode) : option TerminalWindowNode :=
  at_leaf (replace_in_leaf old_id new_id) n.

Definition set_active_tab (tab : bytes) (n : TerminalWindowNode) : option TerminalWindowNode :=
  at_leaf (fun g => if has_tab tab g then Some (WinLeaf (g_id g) (g_tabs g) (Some tab)) else None) n.

Definition push_tab (tab : bytes) (tabs : list bytes) : list bytes := if bool_decide (tab ∈ tabs) then tabs else tabs ++ [tab].

Fixpoint insert_tab_into_first_leaf (tab : bytes) (n : TerminalWindowNode) : TerminalWindowNode :=
  match n with
  | WinLeaf id tabs active => WinLeaf id (push_tab tab tabs) (match active with Some a => Some a | None => Some tab end)
  | WinSplit id d r first second => WinSplit id d r (insert_tab_into_first_leaf tab first) second
  end.

Definition insert_in_leaf (leaf_id tab : bytes) (g : group) : option TerminalWindowNode :=
  if bool_decide (g_id g = leaf_id) then Some (WinLeaf (g_id g) (push_tab tab (g_tabs g)) (Some tab)) else None.
Definition insert_tab_into_leaf (leaf_id tab : bytes) (n : TerminalWindowNode) : option TerminalWindowNode :=
  at_leaf (insert_in_leaf leaf_id tab) n.

Definition ensure_tab (tab : bytes) (preferred_leaf : option bytes) (n : TerminalWindowNode) : TerminalWindowNode :=
  if contains_tab tab n then n
  else
    match preferred_leaf ≫= (fun l => insert_tab_into_leaf l tab n) with
    | Some n' => n'
    | None => insert_tab_into_first_leaf tab n
    end.

(** ** [groups.rs] *)

Fixpoint node_ids (n : TerminalWindowNode) : list bytes :=
  match n with WinLeaf id _ _ => [id] | WinSplit id _ _ first second => id :: node_ids first ++ node_ids second end.

Definition leaf_for_tab (tab : bytes) (n : TerminalWindowNode) : option bytes :=
  find_leaf (fun g => if has_tab tab g then Some (g_id g) else None) n.

Definition leaf_tabs (leaf : bytes) (n : TerminalWindowNode) : option (list bytes * option bytes) :=
  find_leaf (fun g => if bool_decide (g_id g = leaf) then Some (g_tabs g, g_active g) else None) n.

(** The counter numbers the calls of [uuid_v4_like]. *)
Fixpoint from_panes (uuid : nat -> bytes) (panes : WorkspacePaneNode) (k : nat) : TerminalWindowNode * nat :=
  match panes with
  | PaneLeaf session => (leaf (uuid k) [session] (Some session), S k)
  | PaneSplit id d r first second =>
    let a := from_panes uuid first k in
    let b := from_panes uuid second a.2 in
    (WinSplit (bs "tw-legacy-" ++ id) d r a.1 b.1, b.2)
  end.

(** Changing [first_leaf_mut]. *)
Fixpoint change_first_leaf (f : group -> TerminalWindowNode) (n : TerminalWindowNode) : TerminalWindowNode :=
  match n with
  | WinLeaf id tabs active => f (mkGroup id tabs active)
  | WinSplit id d r first second => WinSplit id d r (change_first_leaf f first) second
  end.

Definition rename (tab session t : bytes) : bytes := if bool_decide (t = tab) then session else t.

Definition expand_in_leaf (uuid : nat -> bytes) (tab : bytes) (panes : WorkspacePaneNode) (g : group) : option TerminalWindowNode :=
  if has_tab tab g then
    Some (change_first_leaf (fun first =>
      match head (g_tabs first) with
      | Some session => WinLeaf (g_id g) (rename tab session <$> g_tabs g) (rename tab session <$> g_active g)
      | None => leaf_of first
      end) (from_panes uuid panes O).1)
  else None.
Definition expand_pane_tab (uuid : nat -> bytes) (tab : bytes) (panes : WorkspacePaneNode) (n : TerminalWindowNode) :
    option TerminalWindowNode := at_leaf (expand_in_leaf uuid tab panes) n.

(** ** [mutation.rs] *)

(** The tree that is left in place and the result. *)
Fixpoint remove_tab (tab : bytes) (n : TerminalWindowNode) : TerminalWindowNode * option TerminalWindowNode :=
  match n with
  | WinLeaf id tabs active =>
    match position tab tabs with
    | None => (n, Some n)
    | Some i =>
      let tabs' := filter (fun t => t <> tab) tabs in
      let active' := if bool_decide (active = Some tab) then tabs' !! Nat.min i (length tabs' - 1) else active in
      let n' := WinLeaf id tabs' active' in
      (n', match tabs' with [] => None | _ => Some n' end)
    end
  | WinSplit id d r first second =>
    let a := remove_tab tab first in
    let b := remove_tab tab second in
    (WinSplit id d r a.1 b.1, join_nodes a.2 b.2 (WinSplit id d r))
  end.

Definition move_to_end (tab leaf : bytes) (g : group) : option TerminalWindowNode :=
  if bool_decide (g_id g = leaf) then
    (fun i => WinLeaf (g_id g) (delete i (g_tabs g) ++ [tab]) (Some tab)) <$> position tab (g_tabs g)
  else None.
Definition move_existing_tab_to_leaf_end (tab leaf : bytes) (n : TerminalWindowNode) : option TerminalWindowNode :=
  at_leaf (move_to_end tab leaf) n.

Definition move_tab_to_leaf (tab target_leaf : bytes) (n : TerminalWindowNode) : bool * TerminalWindowNode :=
  if negb (contains_tab tab n) || bool_decide (leaf_tabs target_leaf n = None) then (false, n)
  else
    match move_existing_tab_to_leaf_end tab target_leaf n with
    | Some n' => (true, n')
    | None =>
      match remove_tab tab n with
      | (n', None) => (false, n')
      | (_, Some removed) =>
        match insert_tab_into_leaf target_leaf tab removed with
        | Some n' => (true, n')
        | None => (false, insert_tab_into_first_leaf tab removed)
        end
      end
    end.

Fixpoint first_leaf_id (n : TerminalWindowNode) : bytes :=
  match n with WinLeaf id _ _ => id | WinSplit _ _ _ first _ => first_leaf_id first end.

Fixpoint leaf_ids (n : TerminalWindowNode) : list bytes :=
  match n with WinLeaf id _ _ => [id] | WinSplit _ _ _ first second => leaf_ids first ++ leaf_ids second end.

Fixpoint set_split_ratio (split_id : bytes) (value : Z) (n : TerminalWindowNode) : option TerminalWindowNode :=
  match n with
  | WinLeaf _ _ _ => None
  | WinSplit id d r first second =>
    if bool_decide (id = split_id) then Some (WinSplit id d (clamp value 1 99) first second)
    else either first second (set_split_ratio split_id value first) (set_split_ratio split_id value second) (WinSplit id d r)
  end.

(** ** [docking.rs] *)

Inductive TabDockEdge := Left | Right | Top | Bottom.
Inductive TabDockZone := Center | Edge (edge : TabDockEdge).

Definition edge_direction (e : TabDockEdge) : WorkspaceSplitDirection :=
  match e with Left | Right => Vertical | Top | Bottom => Horizontal end.
Definition first_is_dropped (e : TabDockEdge) : bool := match e with Left | Top => true | _ => false end.

Definition leaf_tab_ids_for_tab (tab : bytes) (n : TerminalWindowNode) : option (list bytes) :=
  find_leaf (fun g => if has_tab tab g then Some (g_tabs g) else None) n.

Definition insert_before_in_leaf (before_tab tab : bytes) (g : group) : option TerminalWindowNode :=
  match position before_tab (g_tabs g) with
  | Some i =>
    let tabs := if bool_decide (tab ∈ g_tabs g) then g_tabs g else take i (g_tabs g) ++ tab :: drop i (g_tabs g) in
    Some (WinLeaf (g_id g) tabs (Some tab))
  | None => None
  end.
Definition insert_tab_before (before_tab tab : bytes) (n : TerminalWindowNode) : option TerminalWindowNode :=
  at_leaf (insert_before_in_leaf before_tab tab) n.

(** The result of a method that reports whether it changed the tree. *)
Definition changed (n : TerminalWindowNode) (o : option TerminalWindowNode) : bool * TerminalWindowNode :=
  match o with Some n' => (true, n') | None => (false, n) end.

Definition is_just_before (tab before_tab : bytes) (n : TerminalWindowNode) : bool :=
  match leaf_tab_ids_for_tab before_tab n with
  | Some ids =>
    match position before_tab ids with
    | Some (S i) => bool_decide (ids !! i = Some tab)
    | _ => false
    end
  | None => false
  end.

Definition place_tab_before (tab before_tab : bytes) (n : TerminalWindowNode) : bool * TerminalWindowNode :=
  if bool_decide (tab = []) || bool_decide (before_tab = []) || bool_decide (tab = before_tab) then (false, n)
  else if negb (contains_tab tab n) || negb (contains_tab before_tab n) then (false, n)
  else if is_just_before tab before_tab n then (true, n)
  else
    match remove_tab tab n with
    | (n', None) => (false, n')
    | (_, Some n') =>
      if negb (contains_tab before_tab n') then (false, insert_tab_into_first_leaf tab n')
      else changed n' (insert_tab_before before_tab tab n')
    end.

Definition leaf_tab_count_for (tab : bytes) (n : TerminalWindowNode) : option (bytes * nat) :=
  find_leaf (fun g => if has_tab tab g then Some (g_id g, length (g_tabs g)) else None) n.

Definition split_in_leaf (uuid target_leaf : bytes) (e : TabDockEdge) (detached : TerminalWindowNode) (g : group) : option TerminalWindowNode :=
  if bool_decide (g_id g = target_leaf) then
    Some (if first_is_dropped e
          then WinSplit (bs "tw-split-" ++ uuid) (edge_direction e) DEFAULT_RATIO_PERCENT detached (leaf_of g)
          else WinSplit (bs "tw-split-" ++ uuid) (edge_direction e) DEFAULT_RATIO_PERCENT (leaf_of g) detached)
  else None.
Definition replace_leaf_with_edge_split (uuid target_leaf : bytes) (e : TabDockEdge) (detached n : TerminalWindowNode) :
    option TerminalWindowNode := at_leaf (split_in_leaf uuid target_leaf e detached) n.

(** [uuid1] names the new leaf, [uuid2] the new split. *)
Definition dock_tab_to_edge (uuid1 uuid2 tab target_leaf : bytes) (e : TabDockEdge) (n : TerminalWindowNode) : bool * TerminalWindowNode :=
  if bool_decide (leaf_tab_count_for tab n = Some (target_leaf, 1%nat)) then (false, n)
  else
    match (remove_tab tab n).2 with
    | None => (true, leaf uuid1 [tab] (Some tab))
    | Some n' =>
      if bool_decide (target_leaf ∉ leaf_ids n') then (true, insert_tab_into_first_leaf tab n')
      else changed n' (replace_leaf_with_edge_split uuid2 target_leaf e (leaf uuid1 [tab] (Some tab)) n')
    end.

Definition dock_tab (uuid1 uuid2 tab target_leaf : bytes) (zone : TabDockZone) (n : TerminalWindowNode) : bool * TerminalWindowNode :=
  if bool_decide (tab = []) || negb (contains_tab tab n) || bool_decide (leaf_tabs target_leaf n = None) then (false, n)
  else
    match zone with
    | Center => move_tab_to_leaf tab target_leaf n
    | Edge e => dock_tab_to_edge uuid1 uuid2 tab target_leaf e n
    end.

Fixpoint split_direction (split_id : bytes) (n : TerminalWindowNode) : option WorkspaceSplitDirection :=
  match n with
  | WinLeaf _ _ _ => None
  | WinSplit id d _ first second =>
    if bool_decide (id = split_id) then Some d
    else match split_direction split_id first with Some d => Some d | None => split_direction split_id second end
  end.

Fixpoint split_percent (split_id : bytes) (n : TerminalWindowNode) : option Z :=
  match n with
  | WinLeaf _ _ _ => None
  | WinSplit id _ r first second =>
    if bool_decide (id = split_id) then Some r
    else match split_percent split_id first with Some r => Some r | None => split_percent split_id second end
  end.

(** ** [persistence.rs] *)

Inductive RestorableTerminalWindowNode :=
| RestGroup (tab_indexes : list nat) (active_tab_index : option nat)
| RestGroups (direction : bytes) (ratio : spec_float) (first second : RestorableTerminalWindowNode).

(** The doubles 0.01 and 0.99. *)
Definition F64_0_01 : spec_float := S754_finite false 5764607523034235 (-59).
Definition F64_0_99 : spec_float := S754_finite false 8917127262193582 (-53).

Fixpoint indexes_loop (index : gmap bytes nat) (seen : gset nat) (tabs : list bytes) : list nat :=
  match tabs with
  | [] => []
  | t :: tabs' =>
    match index !! t with
    | Some i => if bool_decide (i ∈ seen) then indexes_loop index seen tabs' else i :: indexes_loop index ({[i]} ∪ seen) tabs'
    | None => indexes_loop index seen tabs'
    end
  end.

Fixpoint serialize_groups (index : gmap bytes nat) (n : TerminalWindowNode) : option RestorableTerminalWindowNode :=
  match n with
  | WinLeaf _ tabs active =>
    match indexes_loop index ∅ tabs with
    | [] => None
    | i :: idx => Some (RestGroup (i :: idx) (match active ≫= (fun id => index !! id) with Some a => Some a | None => Some i end))
    end
  | WinSplit _ d r first second =>
    join_nodes (serialize_groups index first) (serialize_groups index second)
      (RestGroups (direction_name d) (stored_ratio (clamp r 1 99) F64_0_01 F64_0_99))
  end.

Definition serialize_windows (ordered : list bytes) (n : TerminalWindowNode) : option RestorableTerminalWindowNode :=
  match ordered with [] => None | _ => serialize_groups (index_by_id ordered) n end.

(** The tabs of a stored group that exist and are not used yet. *)
Fixpoint take_tabs (ordered : list bytes) (used : gset bytes) (idx : list nat) : list bytes * gset bytes :=
  match idx with
  | [] => ([], used)
  | i :: idx' =>
    match ordered !! i with
    | Some tab =>
      if bool_decide (tab ∈ used) then take_tabs ordered used idx'
      else let r := take_tabs ordered ({[tab]} ∪ used) idx' in (tab :: r.1, r.2)
    | None => take_tabs ordered used idx'
    end
  end.

Fixpoint restore_groups (uuid : nat -> bytes) (ordered : list bytes) (layout : RestorableTerminalWindowNode) (st : gset bytes * nat) :
    option TerminalWindowNode * (gset bytes * nat) :=
  match layout with
  | RestGroup idx active =>
    let r := take_tabs ordered st.1 idx in
    match r.1 with
    | [] => (None, (r.2, st.2))
    | t :: ts =>
      let active := match active ≫= (fun i => ordered !! i) with
                    | Some a => if bool_decide (a ∈ t :: ts) then Some a else Some t
                    | None => Some t
                    end in
      (Some (leaf (uuid st.2) (t :: ts) active), (r.2, S st.2))
    end
  | RestGroups direction ratio first second =>
    match parse_direction direction with
    | None => (None, st)
    | Some d =>
      if negb (is_finite ratio) then (None, st)
      else
        let a := restore_groups uuid ordered first st in
        let b := restore_groups uuid ordered second a.2 in
        match a.1, b.1 with
        | Some first, Some second =>
          (Some (WinSplit (bs "tw-split-" ++ uuid b.2.2) d (restored_percent ratio 1 99) first second), (b.2.1, S b.2.2))
        | Some only, None | None, Some only => (Some only, b.2)
        | None, None => (None, b.2)
        end
    end
  end.

Definition restore_windows (uuid : nat -> bytes) (ordered : list bytes) (layout : RestorableTerminalWindowNode) : option TerminalWindowNode :=
  match ordered with
  | [] => None
  | _ =>
    let r := restore_groups uuid ordered layout (∅, O) in
    match r.1 with
    | None => None
    | Some n => if existsb (fun id => negb (bool_decide (id ∈ r.2.1))) ordered then None else Some n
    end
  end.

(** ** Keys of tabs *)

Inductive WorkspaceTabId := Session (id : bytes) | Editor (id : bytes) | FileManager (id : bytes) | SettingsTab.

Definition EDITOR_PREFIX : bytes := 0 :: bs "editor:".
Definition FILE_MANAGER_PREFIX : bytes := 0 :: bs "filemgr:".
Definition SETTINGS_KEY : bytes := 0 :: bs "settings:".

Definition from_layout_key (key : bytes) : WorkspaceTabId :=
  match strip_prefix EDITOR_PREFIX key with
  | Some id => Editor id
  | None =>
    match strip_prefix FILE_MANAGER_PREFIX key with
    | Some id => FileManager id
    | None => if bool_decide (key = SETTINGS_KEY) then SettingsTab else Session key
    end
  end.

Definition layout_key (t : WorkspaceTabId) : bytes :=
  match t with
  | Session id => id
  | Editor id => EDITOR_PREFIX ++ id
  | FileManager id => FILE_MANAGER_PREFIX ++ id
  | SettingsTab => SETTINGS_KEY
  end.

Definition key_is_session (key : bytes) : bool := match from_layout_key key with Session _ => true | _ => false end.

(** ** The groups in order

    What a tree shows, whatever its splits: every operation is one on this list. *)
Fixpoint view (n : TerminalWindowNode) : list group :=
  match n with WinLeaf id tabs active => [mkGroup id tabs active] | WinSplit _ _ _ first second => view first ++ view second end.

Lemma view_collect n : collect_tab_ids n = view n ≫= g_tabs.
Proof. induction n as [|id d r a IHa b IHb]; cbn; [by rewrite app_nil_r|]. by rewrite bind_app, IHa, IHb. Qed.

Lemma view_leaf_ids n : leaf_ids n = g_id <$> view n.
Proof. induction n as [|id d r a IHa b IHb]; cbn; [done|]. by rewrite fmap_app, IHa, IHb. Qed.

Lemma contains_tab_spec tab n : contains_tab tab n = bool_decide (tab ∈ collect_tab_ids n).
Proof.
  induction n as [|id d r a IHa b IHb]; cbn; [done|]. rewrite IHa, IHb. apply eq_bool_prop_intro. rewrite orb_True, !bool_decide_spec. by rewrite elem_of_app.
Qed.

Lemma find_leaf_view {A} (f : group -> option A) n : find_leaf f n = head (omap f (view n)).
Proof.
  induction n as [id tabs act|id d r a IHa b IHb]; cbn; [by destruct (f _)|]. rewrite omap_app, IHa, IHb. by destruct (omap f (view a)).
Qed.

(** The first group that [f] applies to is replaced by what [f] makes of it. *)
Lemma at_leaf_None f n : at_leaf f n = None <-> Forall (fun g => f g = None) (view n).
Proof.
  induction n as [id tabs act|id d r a IHa b IHb]; cbn; [by rewrite Forall_singleton|]. rewrite Forall_app, <- IHa, <- IHb. unfold either.
  destruct (at_leaf f a), (at_leaf f b); naive_solver.
Qed.

Lemma at_leaf_Some f n n' :
  at_leaf f n = Some n' ->
  exists l1 g m l2, view n = l1 ++ g :: l2 /\ f g = Some m /\ view n' = l1 ++ view m ++ l2 /\ Forall (fun g => f g = None) l1.
Proof.
  revert n'. induction n as [id tabs act|id d r a IHa b IHb]; intros n'; cbn.
  - intros E. exists [], (mkGroup id tabs act), n', []. rewrite app_nil_r. done.
  - unfold either. destruct (at_leaf f a) as [a'|] eqn:Ea.
    + intros [= <-]. destruct (IHa a' eq_refl) as (l1 & g & m & l2 & E1 & E2 & E3 & E4).
      exists l1, g, m, (l2 ++ view b). cbn. rewrite E1, E3, <- !app_assoc. done.
    + destruct (at_leaf f b) as [b'|] eqn:Eb; [|done]. intros [= <-]. destruct (IHb b' eq_refl) as (l1 & g & m & l2 & E1 & E2 & E3 & E4).
      exists (view a ++ l1), g, m, l2. cbn. rewrite E1, E3, <- !app_assoc. split_and!; try done.
      apply Forall_app. split; [by apply at_leaf_None|done].
Qed.

(** Removing a tab from a group; an empty group disappears. *)
Definition g_remove (tab : bytes) (g : group) : option group :=
  match position tab (g_tabs g) with
  | None => Some g
  | Some i =>
    match filter (fun t => t <> tab) (g_tabs g) with
    | [] => None
    | tabs => Some (mkGroup (g_id g) tabs (if bool_decide (g_active g = Some tab) then tabs !! Nat.min i (length tabs - 1) else g_active g))
    end
  end.

Lemma remove_view tab n : from_option view [] (remove_tab tab n).2 = omap (g_remove tab) (view n).
Proof.
  induction n as [id tabs act|id d r a IHa b IHb]; cbn [remove_tab view].
  - unfold omap, list_omap, g_remove. cbn [g_tabs g_id g_active]. destruct (position tab tabs) as [i|]; [|done].
    by destruct (filter (fun t => t <> tab) tabs) as [|t ts].
  - cbn [snd]. rewrite omap_app, <- IHa, <- IHb. by destruct (remove_tab tab a).2, (remove_tab tab b).2; cbn; rewrite ?app_nil_r.
Qed.

Lemma insert_first_view tab n :
  exists g l, view n = g :: l
    /\ view (insert_tab_into_first_leaf tab n)
       = mkGroup (g_id g) (push_tab tab (g_tabs g)) (match g_active g with Some a => Some a | None => Some tab end) :: l.
Proof.
  induction n as [id tabs act|id d r a IHa b IHb]; cbn; [by exists (mkGroup id tabs act), []|].
  destruct IHa as (g & l & E1 & E2). exists g, (l ++ view b). by rewrite E1, E2.
Qed.

(** ** Positions *)

Lemma position_None tab tabs : position tab tabs = None <-> tab ∉ tabs.
Proof.
  unfold position. rewrite fmap_None, list_find_None, Forall_forall. naive_solver.
Qed.

Lemma position_Some tab tabs i : position tab tabs = Some i -> tabs !! i = Some tab.
Proof. unfold position. intros ([j t] & [? [-> _]]%list_find_Some & ->)%fmap_Some. done. Qed.

(** ** Well-formed groups *)

Definition tabs_of (gs : list group) : list bytes := gs ≫= g_tabs.
Definition ids_of (gs : list group) : list bytes := g_id <$> gs.

Definition group_ok (g : group) : Prop := g_tabs g <> [] /\ exists a, g_active g = Some a /\ a ∈ g_tabs g.

(** No tab twice, no leaf identifier twice, and in every group at least one tab and an
    active one among them. *)
Record wf_view (gs : list group) : Prop := { wf_tabs : NoDup (tabs_of gs); wf_ids : NoDup (ids_of gs); wf_groups : Forall group_ok gs }.
Definition wf (n : TerminalWindowNode) : Prop := wf_view (view n).

Lemma tabs_of_app a b : tabs_of (a ++ b) = tabs_of a ++ tabs_of b.
Proof. apply bind_app. Qed.

Lemma ids_of_app a b : ids_of (a ++ b) = ids_of a ++ ids_of b.
Proof. apply fmap_app. Qed.

Lemma elem_of_tabs tab gs : tab ∈ tabs_of gs <-> exists g, g ∈ gs /\ tab ∈ g_tabs g.
Proof. unfold tabs_of. rewrite list_elem_of_bind. naive_solver. Qed.

Lemma group_id_elem id gs : id ∈ ids_of gs <-> exists g, g ∈ gs /\ id = g_id g.
Proof. unfold ids_of. rewrite list_elem_of_fmap. naive_solver. Qed.

(** Changing one group keeps the tabs up to order, or adds one. *)
Lemma tabs_replace l1 g g' l2 extra :
  g_tabs g' ≡ₚ extra ++ g_tabs g -> tabs_of (l1 ++ g' :: l2) ≡ₚ extra ++ tabs_of (l1 ++ g :: l2).
Proof. intros H. unfold tabs_of. rewrite !bind_app. cbn. rewrite H. solve_Permutation. Qed.

Lemma wf_replace l1 g g' l2 extra :
  wf_view (l1 ++ g :: l2) -> g_id g' = g_id g -> g_tabs g' ≡ₚ extra ++ g_tabs g -> NoDup (extra ++ tabs_of (l1 ++ g :: l2)) ->
  (exists a, g_active g' = Some a /\ a ∈ g_tabs g') -> wf_view (l1 ++ g' :: l2).
Proof.
  intros [H1 H2 H3] Hid Ht Hn Ha. split.
  - by rewrite (tabs_replace _ _ _ _ _ Ht).
  - unfold ids_of in *. rewrite fmap_app in *. cbn in *. by rewrite Hid.
  - apply Forall_app in H3 as [? [Hg ?]%Forall_cons]. apply Forall_app. split; [done|]. apply Forall_cons. split; [|done].
    split; [|done]. destruct Ha as (a & _ & Hin). intros E. rewrite E in Hin. by apply not_elem_of_nil in Hin.
Qed.

(** A group is known by its identifier and by any of its tabs. *)
Lemma group_by_id l1 g l2 h : wf_view (l1 ++ g :: l2) -> h ∈ l1 ++ g :: l2 -> g_id h = g_id g -> h = g.
Proof.
  intros [_ H _] Hh E. rewrite ids_of_app in H. cbn in H. apply NoDup_app in H as (_ & Hd & [Hn _]%NoDup_cons).
  apply elem_of_app in Hh as [Hh|[->|Hh]%elem_of_cons]; [|done|].
  - destruct (Hd (g_id h)); [apply group_id_elem; eauto|]. rewrite E. left.
  - destruct Hn. apply group_id_elem. eauto.
Qed.

Lemma group_by_tab gs g h tab : wf_view gs -> g ∈ gs -> h ∈ gs -> tab ∈ g_tabs g -> tab ∈ g_tabs h -> g = h.
Proof.
  intros [H _ _] Hg Hh Tg Th. apply list_elem_of_split in Hg as (l1 & l2 & ->). rewrite tabs_of_app in H. cbn in H.
  apply NoDup_app in H as (_ & Hd & (_ & Hd' & _)%NoDup_app).
  apply elem_of_app in Hh as [Hh|[->|Hh]%elem_of_cons]; [|done|].
  - destruct (Hd tab); [apply elem_of_tabs; eauto|]. apply elem_of_app. by left.
  - destruct (Hd' tab Tg). apply elem_of_tabs. eauto.
Qed.

(** ** Removing a tab *)

Lemma filter_absent tab (l : list bytes) : tab ∉ l -> filter (fun t => t <> tab) l = l.
Proof.
  induction l as [|t ts IH]; [done|]. intros [H1 H2]%not_elem_of_cons. rewrite filter_cons_True by congruence. f_equal. auto.
Qed.

Lemma g_remove_spec tab g :
  group_ok g ->
  match g_remove tab g with
  | None => filter (fun t => t <> tab) (g_tabs g) = []
  | Some g' => g_id g' = g_id g /\ g_tabs g' = filter (fun t => t <> tab) (g_tabs g) /\ group_ok g'
  end.
Proof.
  intros [Hne (a & Ha & Hin)]. unfold g_remove. destruct (position tab (g_tabs g)) as [i|] eqn:E.
  - pose proof (list_elem_of_filter (fun t => t <> tab) (g_tabs g)) as Hf.
    destruct (filter (fun t => t <> tab) (g_tabs g)) as [|t ts] eqn:Ef; [done|]. split_and!; try done. split; [done|]. cbn [g_active g_tabs].
    case_bool_decide as Eb.
    + destruct (lookup_lt_is_Some_2 (t :: ts) (Nat.min i (length (t :: ts) - 1))) as [x Hx]; [cbn; lia|]. exists x. split; [done|].
      by eapply list_elem_of_lookup_2.
    + exists a. split; [done|]. apply Hf. split; [congruence|done].
  - apply position_None in E. split_and!; try done; [by rewrite filter_absent|by split; eauto].
Qed.

Lemma omap_remove_tabs tab gs : Forall group_ok gs -> tabs_of (omap (g_remove tab) gs) = filter (fun t => t <> tab) (tabs_of gs).
Proof.
  induction gs as [|g gs IH]; [done|]. intros [Hg Hgs]%Forall_cons. change (tabs_of (g :: gs)) with (g_tabs g ++ tabs_of gs).
  rewrite filter_app, <- IH by done. pose proof (g_remove_spec tab g Hg) as Hs. cbn. destruct (g_remove tab g) as [g'|].
  - destruct Hs as (_ & E & _). by rewrite <- E.
  - by rewrite Hs.
Qed.

Lemma omap_remove_ids tab gs : Forall group_ok gs -> ids_of (omap (g_remove tab) gs) `sublist_of` ids_of gs.
Proof.
  induction gs as [|g gs IH]; [done|]. intros [Hg Hgs]%Forall_cons. pose proof (g_remove_spec tab g Hg) as Hs. cbn.
  destruct (g_remove tab g) as [g'|]; cbn; [|by apply sublist_cons, IH]. destruct Hs as (-> & _). apply sublist_skip. by apply IH.
Qed.

Lemma omap_remove_groups tab gs : Forall group_ok gs -> Forall group_ok (omap (g_remove tab) gs).
Proof.
  induction gs as [|g gs IH]; [done|]. intros [Hg Hgs]%Forall_cons. pose proof (g_remove_spec tab g Hg) as Hs. cbn.
  destruct (g_remove tab g) as [g'|]; [|by apply IH]. apply Forall_cons. split; [apply Hs|by apply IH].
Qed.

Lemma omap_remove_wf tab gs : wf_view gs -> wf_view (omap (g_remove tab) gs).
Proof.
  intros [H1 H2 H3]. split.
  - rewrite omap_remove_tabs by done. by apply NoDup_filter.
  - eapply sublist_NoDup; [|by apply omap_remove_ids]. done.
  - by apply omap_remove_groups.
Qed.

Lemma filter_remove tab (l : list bytes) : NoDup l -> tab ∈ l -> l ≡ₚ tab :: filter (fun t => t <> tab) l.
Proof.
  induction l as [|t ts IH]; [by intros _ ?%not_elem_of_nil|]. intros [Hn Hd]%NoDup_cons Hin.
  destruct (decide (t = tab)) as [->|Hne].
  - rewrite filter_cons_False by auto. rewrite filter_absent; done.
  - apply elem_of_cons in Hin as [->|Hin]; [done|]. rewrite filter_cons_True by done. rewrite (IH Hd Hin) at 1. by apply perm_swap.
Qed.

Lemma delete_position tab l i : NoDup l -> position tab l = Some i -> delete i l = filter (fun t => t <> tab) l.
Proof.
  unfold position. revert i. induction l as [|t ts IH]; [done|]. intros i [Hn Hd]%NoDup_cons. cbn [list_find].
  case_decide as Et.
  - subst t. rewrite filter_cons_False by auto. rewrite filter_absent by done. by intros [= <-].
  - rewrite filter_cons_True by done. destruct (list_find _ ts) as [[j x]|] eqn:Ef; [|done]. intros [= <-].
    change (delete (S j) (t :: ts)) with (t :: delete j ts). f_equal. by apply IH.
Qed.

Lemma view_nonempty n : view n <> [].
Proof. induction n as [|id d r a IHa b IHb]; [done|]. cbn. by destruct (view a). Qed.

Lemma remove_Some tab n n' : (remove_tab tab n).2 = Some n' -> view n' = omap (g_remove tab) (view n).
Proof. intros E. rewrite <- remove_view, E. done. Qed.

Lemma remove_total tab n g : wf n -> g ∈ view n -> (exists t, t ∈ g_tabs g /\ t <> tab) ->
  exists n', (remove_tab tab n).2 = Some n' /\ view n' = omap (g_remove tab) (view n).
Proof.
  intros [_ _ H3] Hg (t & Ht & Hne). destruct ((remove_tab tab n).2) as [n'|] eqn:E; [eauto using remove_Some|].
  exfalso. pose proof (remove_view tab n) as Hv. rewrite E in Hv. cbn in Hv.
  assert (Hin : t ∈ tabs_of (omap (g_remove tab) (view n))).
  { rewrite omap_remove_tabs by done. apply list_elem_of_filter. split; [done|]. apply elem_of_tabs. eauto. }
  rewrite <- Hv in Hin. by apply not_elem_of_nil in Hin.
Qed.

Lemma leaf_tabs_None target n : leaf_tabs target n = None <-> target ∉ ids_of (view n).
Proof.
  unfold leaf_tabs. rewrite find_leaf_view. rewrite group_id_elem. induction (view n) as [|g gs IH]; cbn.
  - split; [|done]. intros _ (g & ?%not_elem_of_nil & _). done.
  - case_bool_decide as E; cbn.
    + split; [done|]. intros H. destruct H. exists g. split; [left|done].
    + rewrite IH. split; intros H (h & Hh & Ei); apply H.
      * apply elem_of_cons in Hh as [->|Hh]; [congruence|eauto].
      * exists h. split; [by right|done].
Qed.

(** Changing the group with a given identifier. *)
Definition at_id (target : bytes) (F : group -> list group) (gs : list group) : list group :=
  gs ≫= (fun g => if bool_decide (g_id g = target) then F g else [g]).

Lemma at_id_other target F gs : target ∉ ids_of gs -> at_id target F gs = gs.
Proof.
  unfold at_id. induction gs as [|g gs IH]; [done|]. intros [H1 H2]%not_elem_of_cons. cbn. rewrite bool_decide_eq_false_2 by congruence. cbn. by rewrite IH.
Qed.

Lemma at_id_ext target F G gs : (forall g, F g = G g) -> at_id target F gs = at_id target G gs.
Proof. intros H. unfold at_id. induction gs as [|g gs IH]; [done|]. cbn. by rewrite H, IH. Qed.

Lemma at_id_split target F l1 g l2 :
  wf_view (l1 ++ g :: l2) -> g_id g = target -> at_id target F (l1 ++ g :: l2) = l1 ++ F g ++ l2.
Proof.
  intros [_ H _] E. rewrite ids_of_app in H. cbn in H. apply NoDup_app in H as (_ & Hd & [Hn _]%NoDup_cons).
  unfold at_id. rewrite bind_app. cbn. rewrite bool_decide_eq_true_2 by done. fold (at_id target F l1). fold (at_id target F l2).
  rewrite (at_id_other target F l1), (at_id_other target F l2); [done|by rewrite <- E|].
  intros Hin. destruct (Hd _ Hin). rewrite E. left.
Qed.

Lemma at_leaf_id target (F : group -> TerminalWindowNode) n :
  wf n -> target ∈ ids_of (view n) ->
  exists n', at_leaf (fun g => if bool_decide (g_id g = target) then Some (F g) else None) n = Some n'
    /\ view n' = at_id target (fun g => view (F g)) (view n).
Proof.
  intros Hw Hin. destruct (at_leaf _ n) as [n'|] eqn:E.
  - exists n'. split; [done|]. apply at_leaf_Some in E as (l1 & g & m & l2 & E1 & E2 & -> & _). case_bool_decide; [|done]. injection E2 as <-.
    unfold wf in Hw. rewrite E1 in *. by rewrite at_id_split.
  - exfalso. apply at_leaf_None in E. rewrite Forall_forall in E. apply group_id_elem in Hin as (g & Hg & ->). specialize (E g Hg). cbn in E.
    by rewrite bool_decide_eq_true_2 in E.
Qed.

(** ** Moving and docking *)

(** Every group loses the tab and the target gets it at its end, active. *)
Definition move_view (tab target : bytes) (gs : list group) : list group :=
  omap (fun g => if bool_decide (g_id g = target) then Some (mkGroup target (filter (fun t => t <> tab) (g_tabs g) ++ [tab]) (Some tab))
                 else g_remove tab g) gs.

Lemma move_view_after_remove tab target gs :
  Forall group_ok gs -> (forall g, g ∈ gs -> g_id g = target -> tab ∉ g_tabs g) ->
  at_id target (fun g => [mkGroup (g_id g) (push_tab tab (g_tabs g)) (Some tab)]) (omap (g_remove tab) gs) = move_view tab target gs.
Proof.
  induction gs as [|g gs IH]; [done|]. intros [Hg Hgs]%Forall_cons Ht.
  assert (IH' := IH Hgs (fun h Hh => Ht h (list_elem_of_further _ _ _ Hh))). clear IH.
  pose proof (g_remove_spec tab g Hg) as Hs. unfold move_view. cbn. fold (move_view tab target gs). rewrite <- IH'. clear IH'.
  destruct (bool_decide (g_id g = target)) eqn:E.
  - apply bool_decide_eq_true in E. assert (Hn : tab ∉ g_tabs g) by (apply Ht; [left|done]).
    assert (Eg : g_remove tab g = Some g). { unfold g_remove. by rewrite (proj2 (position_None _ _) Hn). }
    rewrite Eg. cbn. rewrite bool_decide_eq_true_2 by done. cbn. unfold push_tab. rewrite bool_decide_eq_false_2 by done. by rewrite filter_absent, E.
  - apply bool_decide_eq_false in E. destruct (g_remove tab g) as [g'|]; [|done]. destruct Hs as (Hid & _). cbn.
    rewrite bool_decide_eq_false_2 by congruence. done.
Qed.

Lemma move_view_same tab target gs :
  wf_view gs -> (forall g, g ∈ gs -> tab ∈ g_tabs g -> g_id g = target) ->
  move_view tab target gs = at_id target (fun g => [mkGroup target (filter (fun t => t <> tab) (g_tabs g) ++ [tab]) (Some tab)]) gs.
Proof.
  intros _. induction gs as [|g gs IH]; [done|]. intros Ht.
  assert (IH' := IH (fun h Hh => Ht h (list_elem_of_further _ _ _ Hh))). unfold move_view in *. cbn. rewrite IH'. clear IH IH'.
  unfold at_id. cbn. case_bool_decide as E; cbn; [done|].
  assert (Hn : tab ∉ g_tabs g). { intros Hin. apply E, Ht; [left|done]. }
  unfold g_remove. by rewrite (proj2 (position_None _ _) Hn).
Qed.

Lemma tab_group tab n : tab ∈ collect_tab_ids n -> exists g, g ∈ view n /\ tab ∈ g_tabs g.
Proof. rewrite view_collect. apply elem_of_tabs. Qed.

(** A method that looks for the group of a tab finds it. *)
Lemma find_by_tab {A} (h : group -> A) tab n g :
  wf n -> g ∈ view n -> tab ∈ g_tabs g -> find_leaf (fun g => if has_tab tab g then Some (h g) else None) n = Some (h g).
Proof.
  intros Hw Hg Ht. rewrite find_leaf_view. assert (Hall : forall x, x ∈ view n -> tab ∈ g_tabs x -> x = g) by eauto using group_by_tab.
  clear Hw. induction (view n) as [|x gs IH]; [by apply not_elem_of_nil in Hg|]. cbn. unfold has_tab at 1. case_bool_decide as E; cbn.
  - rewrite (Hall x); [done|left|done].
  - apply IH; [|intros y Hy; apply Hall; by right]. apply elem_of_cons in Hg as [->|Hg]; done.
Qed.

Lemma remove_keeps_id tab n g : wf n -> g ∈ view n -> (exists t, t ∈ g_tabs g /\ t <> tab) -> g_id g ∈ ids_of (omap (g_remove tab) (view n)).
Proof.
  intros [_ _ H3] Hg (t & Ht & Hne). pose proof (proj1 (Forall_forall _ _) H3 g Hg) as Hok. pose proof (g_remove_spec tab g Hok) as Hs.
  assert (Hin : t ∈ filter (fun t => t <> tab) (g_tabs g)) by (apply list_elem_of_filter; done).
  destruct (g_remove tab g) as [g'|] eqn:E; [|by rewrite Hs in Hin; apply not_elem_of_nil in Hin].
  destruct Hs as (<- & _). apply group_id_elem. exists g'. split; [|done]. apply list_elem_of_omap. eauto.
Qed.

Lemma move_to_leaf_view tab target n :
  wf n -> tab ∈ collect_tab_ids n -> target ∈ leaf_ids n ->
  exists n', move_tab_to_leaf tab target n = (true, n') /\ view n' = move_view tab target (view n).
Proof.
  intros Hw Ht Hi. unfold move_tab_to_leaf. rewrite contains_tab_spec, (bool_decide_eq_true_2 _ Ht). rewrite view_leaf_ids in Hi. fold (ids_of (view n)) in Hi.
  rewrite bool_decide_eq_false_2 by (rewrite leaf_tabs_None; tauto). cbn [negb orb].
  destruct (tab_group tab n Ht) as (g & Hg & Htg). apply group_id_elem in Hi as (h & Hh & Eh).
  destruct (move_existing_tab_to_leaf_end tab target n) as [n'|] eqn:E.
  - exists n'. split; [done|]. apply at_leaf_Some in E as (l1 & x & m & l2 & E1 & E2 & E3 & _). unfold move_to_end in E2.
    case_bool_decide as Ex; [|done]. apply fmap_Some in E2 as (i & Ei & ->). assert (Hx : x ∈ view n) by (rewrite E1; set_solver).
    assert (Ht' : tab ∈ g_tabs x) by eauto using position_Some, list_elem_of_lookup_2.
    rewrite move_view_same; [|exact Hw|].
    + unfold wf in Hw. rewrite E1 in *. rewrite at_id_split by done. rewrite E3. cbn. rewrite (delete_position tab) by (done || (destruct Hw as [H1 _ _];
        rewrite tabs_of_app in H1; cbn in H1; apply NoDup_app in H1 as (_ & _ & (? & _)%NoDup_app); done)). by rewrite Ex.
    + intros y Hy Hyt. by rewrite (group_by_tab (view n) y x tab).
  - apply at_leaf_None in E. rewrite Forall_forall in E.
    assert (Hn : forall x, x ∈ view n -> g_id x = target -> tab ∉ g_tabs x).
    { intros x Hx Ex. specialize (E x Hx). unfold move_to_end in E. rewrite bool_decide_eq_true_2 in E by done. apply fmap_None in E. by apply position_None. }
    assert (Hoth : exists t, t ∈ g_tabs h /\ t <> tab).
    { pose proof (proj1 (Forall_forall _ _) (wf_groups _ Hw) h Hh) as [_ (a & _ & Ha)]. exists a. split; [done|]. intros ->. by apply (Hn h). }
    destruct (remove_total tab n h Hw Hh Hoth) as (n1 & E1 & V1). rewrite (surjective_pairing (remove_tab tab n)), E1.
    assert (Hw1 : wf n1) by (unfold wf; rewrite V1; by apply omap_remove_wf).
    destruct (at_leaf_id target (fun g => WinLeaf (g_id g) (push_tab tab (g_tabs g)) (Some tab)) n1 Hw1) as (n' & E' & V').
    { rewrite V1, Eh. by apply remove_keeps_id. }
    unfold insert_tab_into_leaf, insert_in_leaf. rewrite E'. exists n'. split; [done|]. rewrite V', V1. apply move_view_after_remove; [apply Hw|done].
Qed.

(** A new group beside the target, which has lost the tab. *)
Definition split_view (uuid1 tab target : bytes) (e : TabDockEdge) (gs : list group) : list group :=
  let new := mkGroup (leaf_id uuid1) [tab] (Some tab) in
  at_id target (fun g => if first_is_dropped e then [new; g] else [g; new]) (omap (g_remove tab) gs).

Lemma leaf_single uuid tab : leaf uuid [tab] (Some tab) = WinLeaf (leaf_id uuid) [tab] (Some tab).
Proof. unfold leaf, unique_tabs. cbn. rewrite (bool_decide_eq_false_2 (tab ∈ (∅ : gset bytes))) by set_solver. by rewrite bool_decide_eq_true_2 by left. Qed.

Lemma only_tab tab n h : wf n -> h ∈ view n -> ~ Exists (fun t => t <> tab) (g_tabs h) -> g_tabs h = [tab].
Proof.
  intros Hw Hh Hall. apply not_Exists_Forall in Hall; [|apply _]. rewrite Forall_forall in Hall.
  assert (Hall' : forall t, t ∈ g_tabs h -> t = tab) by (intros t Hin; apply dec_stable, Hall, Hin).
  pose proof (proj1 (Forall_forall _ _) (wf_groups _ Hw) h Hh) as [_ (a & _ & Ha)].
  assert (Hdup : NoDup (g_tabs h)). { destruct Hw as [H1 _ _]. apply list_elem_of_split in Hh as (l1 & l2 & El). rewrite El, tabs_of_app in H1.
    cbn in H1. by apply NoDup_app in H1 as (_ & _ & (? & _)%NoDup_app). }
  destruct (g_tabs h) as [|x [|y l]]; [by apply not_elem_of_nil in Ha| |].
  - f_equal. apply Hall'. left.
  - apply NoDup_cons in Hdup as [Hx _]. destruct Hx. rewrite (Hall' x), (Hall' y); [left|right; left|left].
Qed.

Lemma dock_edge_view uuid1 uuid2 tab target e n :
  wf n -> tab ∈ collect_tab_ids n -> target ∈ leaf_ids n -> ~ (exists g, g ∈ view n /\ g_id g = target /\ g_tabs g = [tab]) ->
  exists n', dock_tab_to_edge uuid1 uuid2 tab target e n = (true, n') /\ view n' = split_view uuid1 tab target e (view n).
Proof.
  intros Hw Ht Hi Hnot. unfold dock_tab_to_edge. rewrite view_leaf_ids in Hi. fold (ids_of (view n)) in Hi.
  apply group_id_elem in Hi as (h & Hh & Eh).
  assert (Hoth : exists t, t ∈ g_tabs h /\ t <> tab).
  { destruct (decide (Exists (fun t => t <> tab) (g_tabs h))) as [(t & ? & ?)%Exists_exists|Hall]; [eauto|].
    destruct Hnot. exists h. split_and!; [done..|]. by apply only_tab with n. }
  destruct (tab_group tab n Ht) as (g & Hg & Htg).
  rewrite bool_decide_eq_false_2.
  2: { unfold leaf_tab_count_for. rewrite (find_by_tab (fun g => (g_id g, length (g_tabs g))) tab n g) by done. intros [= Eg El]. apply Hnot. exists g.
       split_and!; [done..|]. destruct (g_tabs g) as [|x [|]]; try done. by apply list_elem_of_singleton in Htg as ->. }
  destruct (remove_total tab n h Hw Hh Hoth) as (n1 & E1 & V1). rewrite E1.
  assert (Hin : target ∈ ids_of (view n1)) by (rewrite V1, Eh; by apply remove_keeps_id).
  rewrite bool_decide_eq_false_2 by (rewrite view_leaf_ids; intros H; by apply H).
  assert (Hw1 : wf n1) by (unfold wf; rewrite V1; by apply omap_remove_wf).
  unfold replace_leaf_with_edge_split, split_in_leaf. rewrite leaf_single.
  edestruct (at_leaf_id target) as (n' & E' & V'); [exact Hw1|exact Hin|]. rewrite E'. exists n'. split; [done|]. rewrite V', V1. apply at_id_ext.
  intros []. by destruct (first_is_dropped e).
Qed.

(** ** What the operations keep *)

(** [n'] has the tabs of [n] and [extra], in well-formed groups. *)
Definition keeps (extra : list bytes) (n n' : TerminalWindowNode) : Prop := wf n' /\ collect_tab_ids n' ≡ₚ extra ++ collect_tab_ids n.

Lemma at_leaf_keeps f extra n n' :
  wf n -> NoDup (extra ++ collect_tab_ids n) -> at_leaf f n = Some n' ->
  (forall g m, g ∈ view n -> f g = Some m ->
     exists g', m = leaf_of g' /\ g_id g' = g_id g /\ g_tabs g' ≡ₚ extra ++ g_tabs g /\ exists a, g_active g' = Some a /\ a ∈ g_tabs g') ->
  keeps extra n n'.
Proof.
  intros Hw Hn E Hf. apply at_leaf_Some in E as (l1 & g & m & l2 & E1 & E2 & E3 & _).
  destruct (Hf g m) as (g' & -> & Hid & Ht & Ha); [rewrite E1; set_solver|done|]. rewrite view_collect in Hn. unfold keeps, wf. rewrite !view_collect.
  fold (tabs_of (view n)) in *. fold (tabs_of (view n')). rewrite E3. unfold wf in Hw. rewrite E1 in *. cbn [view leaf_of app].
  replace (mkGroup (g_id g') (g_tabs g') (g_active g')) with g' by by destruct g'.
  split; [eapply wf_replace; eauto|by apply tabs_replace].
Qed.

Lemma insert_first_keeps tab n : wf n -> tab ∉ collect_tab_ids n -> keeps [tab] n (insert_tab_into_first_leaf tab n).
Proof.
  intros Hw Hn. destruct (insert_first_view tab n) as (g & l & E1 & E2). unfold keeps, wf in *. rewrite !view_collect in *. rewrite E2, E1 in *.
  pose proof (Forall_inv (wf_groups _ Hw)) as [_ (a & Ha & Hin)].
  assert (Hp : push_tab tab (g_tabs g) ≡ₚ [tab] ++ g_tabs g).
  { unfold push_tab. rewrite bool_decide_eq_false_2; [by rewrite Permutation_app_comm|]. cbn in Hn. set_solver. }
  split; [|by apply (tabs_replace [] g)]. eapply (wf_replace [] g _ l [tab]); [done|done|done| |].
  - apply NoDup_cons. split; [done|apply Hw].
  - rewrite Ha. exists a. split; [done|]. cbn [g_tabs]. rewrite Hp. by right.
Qed.

Lemma view_active tab n n' : set_active_tab tab n = Some n' -> wf n -> keeps [] n n'.
Proof.
  intros E Hw. eapply at_leaf_keeps; [done|rewrite view_collect; apply Hw|exact E|]. intros g m Hg. unfold has_tab. case_bool_decide as Ht; [|done].
  intros [= <-]. exists (mkGroup (g_id g) (g_tabs g) (Some tab)). cbn. split_and!; try done. eauto.
Qed.

Lemma push_leaf_keeps target tab n n' : wf n -> tab ∉ collect_tab_ids n -> insert_tab_into_leaf target tab n = Some n' -> keeps [tab] n n'.
Proof.
  intros Hw Hn E. eapply at_leaf_keeps; [done| |exact E|].
  - apply NoDup_cons. split; [done|]. rewrite view_collect. apply Hw.
  - intros g m Hg. unfold insert_in_leaf. case_bool_decide; [|done]. intros [= <-].
    exists (mkGroup (g_id g) (push_tab tab (g_tabs g)) (Some tab)). cbn. unfold push_tab. rewrite bool_decide_eq_false_2.
    2: { intros Hin. apply Hn. rewrite view_collect. apply elem_of_tabs. eauto. }
    split_and!; [done|done|by rewrite Permutation_app_comm|]. exists tab. set_solver.
Qed.

Lemma ensure_keeps tab pref n : wf n -> keeps (if contains_tab tab n then [] else [tab]) n (ensure_tab tab pref n).
Proof.
  intros Hw. unfold ensure_tab. rewrite contains_tab_spec. case_bool_decide as Ht; [done|].
  destruct pref as [l|]; cbn; [|by apply insert_first_keeps]. destruct (insert_tab_into_leaf l tab n) as [n'|] eqn:E; eauto using insert_first_keeps, push_leaf_keeps.
Qed.

Lemma remove_keeps tab n n' : wf n -> (remove_tab tab n).2 = Some n' -> wf n' /\ collect_tab_ids n' = filter (fun t => t <> tab) (collect_tab_ids n).
Proof.
  intros Hw E%remove_Some. rewrite !view_collect. unfold wf. rewrite E. split; [by apply omap_remove_wf|]. apply omap_remove_tabs, Hw.
Qed.

(** Removing a tab and putting it back. *)
Lemma keeps_back tab n n1 n' : wf n -> tab ∈ collect_tab_ids n -> collect_tab_ids n1 = filter (fun t => t <> tab) (collect_tab_ids n) ->
  keeps [tab] n1 n' -> keeps [] n n'.
Proof.
  intros Hw Ht E [? Hk]. split; [done|]. rewrite Hk, E. symmetry. apply filter_remove; [|done]. rewrite view_collect. apply Hw.
Qed.

Lemma move_view_split tab target l1 g l2 :
  wf_view (l1 ++ g :: l2) -> g_id g = target ->
  move_view tab target (l1 ++ g :: l2)
  = omap (g_remove tab) l1 ++ mkGroup target (filter (fun t => t <> tab) (g_tabs g) ++ [tab]) (Some tab) :: omap (g_remove tab) l2.
Proof.
  intros Hw E. assert (Hx : forall x, x ∈ l1 ++ l2 -> g_id x <> target).
  { intros x Hx Ex. destruct Hw as [_ H _]. rewrite ids_of_app in H. cbn in H. apply NoDup_app in H as (_ & Hd & [Hn _]%NoDup_cons).
    apply elem_of_app in Hx as [Hx|Hx]; [apply (Hd (g_id g))|apply Hn]; rewrite ?E, <- ?Ex; try (apply group_id_elem; eauto). left. }
  assert (Ho : forall l, (forall x, x ∈ l -> g_id x <> target) -> move_view tab target l = omap (g_remove tab) l).
  { clear. intros l. induction l as [|x l IH]; [done|]. intros H. unfold move_view in *. cbn. rewrite bool_decide_eq_false_2 by (apply H; left).
    rewrite IH by (intros y Hy; apply H; by right). done. }
  unfold move_view. rewrite omap_app. cbn. rewrite bool_decide_eq_true_2 by done. fold (move_view tab target l1). fold (move_view tab target l2).
  rewrite !Ho by set_solver. done.
Qed.

Lemma move_view_wf tab target gs :
  wf_view gs -> tab ∈ tabs_of gs -> target ∈ ids_of gs -> wf_view (move_view tab target gs) /\ tabs_of (move_view tab target gs) ≡ₚ tabs_of gs.
Proof.
  intros Hw Ht (g & Hg & ->)%group_id_elem. apply list_elem_of_split in Hg as (l1 & l2 & ->). rewrite move_view_split by done.
  destruct Hw as [H1 H2 H3]. apply Forall_app in H3 as [Ho1 [Hog Ho2]%Forall_cons].
  assert (Hp : tabs_of (omap (g_remove tab) l1 ++ mkGroup (g_id g) (filter (fun t => t <> tab) (g_tabs g) ++ [tab]) (Some tab) :: omap (g_remove tab) l2)
    ≡ₚ tabs_of (l1 ++ g :: l2)).
  { rewrite (filter_remove tab (tabs_of (l1 ++ g :: l2))) by done. rewrite !tabs_of_app. cbn. fold (tabs_of l2). rewrite !filter_app.
    fold (tabs_of (omap (g_remove tab) l2)). rewrite !omap_remove_tabs by done. solve_Permutation. }
  split; [|done]. split; [by rewrite Hp| |].
  - eapply sublist_NoDup; [exact H2|]. rewrite !ids_of_app. apply sublist_app; [by apply omap_remove_ids|]. cbn. apply sublist_skip. by apply omap_remove_ids.
  - apply Forall_app. split; [by apply omap_remove_groups|]. apply Forall_cons. split; [|by apply omap_remove_groups]. split; [by destruct (filter _ _)|].
    exists tab. split; [done|]. cbn. set_solver.
Qed.

Lemma split_view_wf uuid1 tab target e gs :
  wf_view gs -> tab ∈ tabs_of gs -> target ∈ ids_of (omap (g_remove tab) gs) -> leaf_id uuid1 ∉ ids_of gs ->
  wf_view (split_view uuid1 tab target e gs) /\ tabs_of (split_view uuid1 tab target e gs) ≡ₚ tabs_of gs.
Proof.
  intros Hw Ht Hi Hf. unfold split_view. pose proof (omap_remove_wf tab gs Hw) as Hw1.
  assert (Hf1 : leaf_id uuid1 ∉ ids_of (omap (g_remove tab) gs)). { intros H. apply Hf. eapply elem_of_sublist; [exact H|]. apply omap_remove_ids, Hw. }
  assert (Hp1 : tab :: tabs_of (omap (g_remove tab) gs) ≡ₚ tabs_of gs).
  { rewrite omap_remove_tabs by apply Hw. symmetry. apply filter_remove; [apply Hw|done]. }
  set (gs1 := omap (g_remove tab) gs) in *. clearbody gs1. apply group_id_elem in Hi as (g & Hg & ->). apply list_elem_of_split in Hg as (l1 & l2 & ->).
  rewrite at_id_split by done. set (new := mkGroup (leaf_id uuid1) [tab] (Some tab)).
  assert (Hp : l1 ++ (if first_is_dropped e then [new; g] else [g; new]) ++ l2 ≡ₚ new :: l1 ++ g :: l2) by (destruct (first_is_dropped e); solve_Permutation).
  assert (Hw2 : wf_view (new :: l1 ++ g :: l2)).
  { destruct Hw1 as [A B C]. split.
    - change (tabs_of (new :: l1 ++ g :: l2)) with (tab :: tabs_of (l1 ++ g :: l2)). rewrite Hp1. apply Hw.
    - change (ids_of (new :: l1 ++ g :: l2)) with (leaf_id uuid1 :: ids_of (l1 ++ g :: l2)). apply NoDup_cons. done.
    - apply Forall_cons. split; [|done]. split; [done|]. exists tab. split; [done|left]. }
  assert (Hperm : forall a b, a ≡ₚ b -> tabs_of a ≡ₚ tabs_of b). { intros a b Hab. unfold tabs_of. by rewrite Hab. }
  split.
  - destruct Hw2 as [A B C]. split; [by rewrite (Hperm _ _ Hp)| |by rewrite Hp]. unfold ids_of in *. by rewrite Hp.
  - rewrite (Hperm _ _ Hp). exact Hp1.
Qed.

Lemma place_view tab before n :
  wf n -> tab ∈ collect_tab_ids n -> before ∈ collect_tab_ids n -> tab <> [] -> before <> [] -> tab <> before ->
  is_just_before tab before n = false ->
  exists n' l1 g l2 p q, place_tab_before tab before n = (true, n') /\ omap (g_remove tab) (view n) = l1 ++ g :: l2
    /\ g_tabs g = p ++ before :: q /\ view n' = l1 ++ mkGroup (g_id g) (p ++ tab :: before :: q) (Some tab) :: l2.
Proof.
  intros Hw Ht Hb Hne1 Hne2 Hne E. unfold place_tab_before. rewrite !contains_tab_spec. rewrite !bool_decide_eq_false_2 by done.
  rewrite !bool_decide_eq_true_2 by done. cbn [negb orb]. rewrite E. destruct (tab_group before n Hb) as (h & Hh & Hbh).
  destruct (remove_total tab n h Hw Hh) as (n1 & E1 & V1); [eauto|]. rewrite (surjective_pairing (remove_tab tab n)), E1.
  destruct (remove_keeps tab n n1 Hw E1) as [Hw1 T1]. assert (Hb1 : before ∈ collect_tab_ids n1) by (rewrite T1; apply list_elem_of_filter; done).
  assert (Hnt : tab ∉ collect_tab_ids n1) by (rewrite T1; intros [? _]%list_elem_of_filter; done).
  rewrite contains_tab_spec, bool_decide_eq_true_2 by done. cbn [negb].
  destruct (insert_tab_before before tab n1) as [n'|] eqn:Ei.
  - apply at_leaf_Some in Ei as (l1 & g & m & l2 & Eg & Em & Ev & _). unfold insert_before_in_leaf in Em.
    destruct (position before (g_tabs g)) as [i|] eqn:Ep; [|done]. apply position_Some in Ep. rewrite bool_decide_eq_false_2 in Em.
    2: { intros Hin. apply Hnt. rewrite view_collect. apply elem_of_tabs. exists g. rewrite Eg. set_solver. }
    injection Em as <-. exists n', l1, g, l2, (take i (g_tabs g)), (drop (S i) (g_tabs g)). split_and!; [done|by rewrite <- V1| |].
    + by rewrite (take_drop_middle (g_tabs g) i before).
    + rewrite Ev. cbn. by rewrite (drop_S _ before i).
  - exfalso. apply at_leaf_None in Ei. rewrite Forall_forall in Ei. destruct (tab_group before n1 Hb1) as (x & Hx & Hxb). specialize (Ei x Hx).
    unfold insert_before_in_leaf in Ei. destruct (position before (g_tabs x)) eqn:Ep; [done|]. by apply position_None in Ep.
Qed.

Lemma place_keeps tab before n : wf n -> keeps [] n (place_tab_before tab before n).2.
Proof.
  intros Hw. destruct (decide (tab ∈ collect_tab_ids n /\ before ∈ collect_tab_ids n /\ tab <> [] /\ before <> [] /\ tab <> before)) as [(Ht & Hb & N1 & N2 & N3)|Hno].
  - destruct (is_just_before tab before n) eqn:E.
    + unfold place_tab_before. rewrite E. repeat case_match; done.
    + destruct (place_view tab before n) as (n' & l1 & g & l2 & p & q & -> & Eg & Et & Ev); try done. cbn [snd].
      pose proof (omap_remove_wf tab _ Hw) as Hw1. pose proof (omap_remove_tabs tab _ (wf_groups _ Hw)) as T1. rewrite Eg in *.
      assert (Hn : NoDup ([tab] ++ tabs_of (l1 ++ g :: l2))).
      { apply NoDup_cons. split; [|apply Hw1]. rewrite T1. intros [? _]%list_elem_of_filter. done. }
      assert (Hp : p ++ tab :: before :: q ≡ₚ [tab] ++ g_tabs g) by (rewrite Et; solve_Permutation).
      unfold keeps, wf. rewrite !view_collect, Ev. split.
      * eapply wf_replace; [exact Hw1|done|exact Hp|exact Hn|]. exists tab. cbn. set_solver.
      * fold (tabs_of (view n)). etrans; [apply (tabs_replace l1 g _ l2 [tab]); exact Hp|]. rewrite T1. symmetry.
        apply (filter_remove tab); [apply Hw|]. by rewrite view_collect in Ht.
  - unfold place_tab_before. rewrite !contains_tab_spec. repeat case_bool_decide; try done. destruct Hno. done.
Qed.

Lemma dock_keeps uuid1 uuid2 tab target zone n :
  wf n -> (zone <> Center -> leaf_id uuid1 ∉ leaf_ids n) -> keeps [] n (dock_tab uuid1 uuid2 tab target zone n).2.
Proof.
  intros Hw Hf. unfold dock_tab. rewrite contains_tab_spec. case_bool_decide; [done|]. case_bool_decide as Ht; [|done]. case_bool_decide as Hl; [done|].
  cbn [negb orb]. rewrite leaf_tabs_None in Hl. apply dec_stable in Hl. assert (Hl' : target ∈ leaf_ids n) by (by rewrite view_leaf_ids).
  unfold keeps, wf. rewrite !view_collect. pose proof Ht as Ht'. rewrite view_collect in Ht'. destruct zone as [|e].
  - destruct (move_to_leaf_view tab target n Hw Ht Hl') as (n' & -> & V). cbn [snd]. rewrite V. by apply move_view_wf.
  - destruct (decide (Exists (fun g => g_id g = target /\ g_tabs g = [tab]) (view n))) as [(g & Hg & Eg & Et)%Exists_exists|Hno].
    + unfold dock_tab_to_edge, leaf_tab_count_for. rewrite (find_by_tab (fun g => (g_id g, length (g_tabs g))) tab n g) by (done || (rewrite Et; left)).
      rewrite Eg, Et. rewrite bool_decide_eq_true_2 by done. done.
    + destruct (dock_edge_view uuid1 uuid2 tab target e n) as (n' & -> & V); try done.
      { intros (g & ? & ?). apply Hno, Exists_exists. eauto. }
      cbn [snd]. rewrite V. apply split_view_wf; try done; [|rewrite view_leaf_ids in Hf; by apply Hf].
      apply group_id_elem in Hl as (g & Hg & ->). apply remove_keeps_id; [done..|].
      destruct (decide (Exists (fun t => t <> tab) (g_tabs g))) as [(t & ? & ?)%Exists_exists|Hall]; [eauto|]. exfalso. apply Hno, Exists_exists.
      exists g. split_and!; [done..|]. by apply only_tab with n.
Qed.

(** ** Renaming *)

Lemma insert_rename old new l i : NoDup l -> position old l = Some i -> <[i := new]> l = rename old new <$> l.
Proof.
  unfold position. revert i. induction l as [|t ts IH]; [done|]. intros i [Hn Hd]%NoDup_cons. cbn [list_find]. rewrite fmap_cons. unfold rename at 1.
  case_decide as Et.
  - subst t. intros [= <-]. rewrite bool_decide_eq_true_2 by done. cbn. f_equal. rewrite <- (list_fmap_id ts) at 1. apply list_fmap_ext.
    intros j x Hx%list_elem_of_lookup_2. unfold rename. rewrite bool_decide_eq_false_2; [done|]. by intros ->.
  - rewrite bool_decide_eq_false_2 by done. destruct (list_find _ ts) as [[j x]|]; [|done]. intros [= <-]. cbn. f_equal. by apply IH.
Qed.

Definition g_rename (old new : bytes) (g : group) : group := mkGroup (g_id g) (rename old new <$> g_tabs g) (rename old new <$> g_active g).

Lemma rename_other old new (l : list bytes) : old ∉ l -> rename old new <$> l = l.
Proof.
  intros H. rewrite <- (list_fmap_id l) at 2. apply list_fmap_ext. intros j x Hx%list_elem_of_lookup_2. unfold rename.
  rewrite bool_decide_eq_false_2; [done|]. by intros ->.
Qed.

Lemma g_rename_other old new gs : Forall group_ok gs -> old ∉ tabs_of gs -> g_rename old new <$> gs = gs.
Proof.
  induction gs as [|g gs IH]; [done|]. intros [[_ (a & Ha & Hin)] Hgs]%Forall_cons Hn. change (tabs_of (g :: gs)) with (g_tabs g ++ tabs_of gs) in Hn.
  apply not_elem_of_app in Hn as [Hn1 Hn2]. rewrite fmap_cons, IH by done. f_equal. unfold g_rename. rewrite rename_other, Ha by done. cbn.
  unfold rename. rewrite bool_decide_eq_false_2 by congruence. destruct g; cbn in *. by rewrite Ha.
Qed.

Lemma replace_view old new n n' :
  wf n -> new ∉ collect_tab_ids n -> replace_tab_id old new n = Some n' -> view n' = g_rename old new <$> view n.
Proof.
  intros Hw Hn E. apply at_leaf_Some in E as (l1 & g & m & l2 & E1 & E2 & E3 & _). unfold replace_in_leaf in E2. rewrite view_collect in Hn.
  unfold wf in Hw. rewrite E1 in *. destruct (position old (g_tabs g)) as [i|] eqn:Ep; [|done]. injection E2 as <-. rewrite E3. cbn [view app].
  fold (tabs_of (l1 ++ g :: l2)) in Hn. destruct Hw as [H1 _ [Ho1 [_ Ho2]%Forall_cons]%Forall_app]. rewrite tabs_of_app in *. cbn in H1, Hn.
  fold (tabs_of l2) in *. rewrite !not_elem_of_app in Hn. destruct Hn as (_ & Hng & _). apply NoDup_app in H1 as (_ & Hd1 & (Hdg & Hd2 & _)%NoDup_app).
  pose proof (list_elem_of_lookup_2 _ _ _ (position_Some _ _ _ Ep)) as Hin. rewrite fmap_app, fmap_cons. rewrite !g_rename_other; try done.
  - f_equal. f_equal. unfold g_rename. rewrite bool_decide_eq_false_2 by done. rewrite (insert_rename old new) by done. f_equal.
    destruct (g_active g) as [a|]; cbn; unfold rename; repeat case_bool_decide; congruence.
  - by apply Hd2.
  - intros Hl. apply (Hd1 old Hl). set_solver.
Qed.

Lemma g_rename_tabs old new gs : tabs_of (g_rename old new <$> gs) = rename old new <$> tabs_of gs.
Proof. induction gs as [|g gs IH]; [done|]. change (tabs_of (g :: gs)) with (g_tabs g ++ tabs_of gs). rewrite fmap_app, <- IH. done. Qed.

Lemma replace_keeps old new n n' :
  wf n -> new ∉ collect_tab_ids n -> replace_tab_id old new n = Some n' -> wf n' /\ collect_tab_ids n' = rename old new <$> collect_tab_ids n.
Proof.
  intros Hw Hn E. pose proof (replace_view old new n n' Hw Hn E) as V. rewrite !view_collect in *. unfold wf. rewrite V.
  fold (tabs_of (g_rename old new <$> view n)). rewrite g_rename_tabs. split; [|done]. destruct Hw as [H1 H2 H3]. split.
  - rewrite g_rename_tabs. apply NoDup_fmap_2_strong; [|done]. intros x y Hx Hy. unfold rename. repeat case_bool_decide; subst; try done; by intros <-.
  - unfold ids_of in *. by rewrite <- list_fmap_compose.
  - apply Forall_fmap. eapply Forall_impl; [exact H3|]. intros g [? (a & Ha & Hin)]. unfold compose, g_rename. split; cbn; [by destruct (g_tabs g)|].
    rewrite Ha. cbn. eexists. split; [done|]. by apply list_elem_of_fmap_2.
Qed.

(** The group of a tab is the only one that has it. *)
Lemma same_group tab gs g g' : NoDup (tabs_of gs) -> g ∈ gs -> g' ∈ gs -> tab ∈ g_tabs g -> tab ∈ g_tabs g' -> g = g'.
Proof.
  induction gs as [|h gs IH]; [by intros _ ?%not_elem_of_nil|]. change (tabs_of (h :: gs)) with (g_tabs h ++ tabs_of gs).
  intros (_ & Hx & Hd)%NoDup_app. rewrite !elem_of_cons. intros [->|Hg] [->|Hg'] Ht Ht'; [done| | |by apply IH]; exfalso;
    [apply (Hx tab Ht)|apply (Hx tab Ht')]; apply elem_of_tabs; eauto.
Qed.

(** What the code does to the leaf of the old name. *)
Lemma replace_leaf old new n n' :
  replace_tab_id old new n = Some n' ->
  exists l1 g i l2, view n = l1 ++ g :: l2 /\ position old (g_tabs g) = Some i
    /\ view n' = l1 ++ mkGroup (g_id g) (if bool_decide (new ∈ g_tabs g) then delete i (g_tabs g) else <[i := new]> (g_tabs g))
                         (if bool_decide (g_active g = Some old) then Some new else g_active g) :: l2.
Proof.
  intros E. apply at_leaf_Some in E as (l1 & g & m & l2 & E1 & E2 & E3 & _). unfold replace_in_leaf in E2.
  destruct (position old (g_tabs g)) as [i|] eqn:Ep; [|done]. injection E2 as <-. by exists l1, g, i, l2.
Qed.

Lemma replace_None old new n : replace_tab_id old new n = None -> old ∉ collect_tab_ids n.
Proof.
  intros E Hin. destruct (tab_group old n Hin) as (g & Hg & Hog). apply at_leaf_None in E. rewrite Forall_forall in E.
  specialize (E g Hg). unfold replace_in_leaf in E. destruct (position old (g_tabs g)) eqn:Ep; [done|]. by apply position_None in Ep.
Qed.

(** Renaming to another name of the same group merges the two. *)
Lemma replace_merges old new l1 g i l2 :
  wf_view (l1 ++ g :: l2) -> position old (g_tabs g) = Some i -> old <> new -> new ∈ g_tabs g ->
  wf_view (l1 ++ mkGroup (g_id g) (delete i (g_tabs g)) (if bool_decide (g_active g = Some old) then Some new else g_active g) :: l2)
  /\ forall x, x ∈ tabs_of (l1 ++ mkGroup (g_id g) (delete i (g_tabs g)) (if bool_decide (g_active g = Some old) then Some new else g_active g) :: l2)
      <-> x ∈ rename old new <$> tabs_of (l1 ++ g :: l2).
Proof.
  intros [H1 H2 H3] Ep Hne Hnew. rewrite tabs_of_app in H1. cbn in H1. fold (tabs_of l2) in H1. pose proof H1 as (Hd1 & Hx1 & (Hdg & Hx2 & Hd2)%NoDup_app)%NoDup_app.
  pose proof (list_elem_of_lookup_2 _ _ _ (position_Some _ _ _ Ep)) as Hold. rewrite (delete_position old) by done.
  assert (Hsub : filter (fun t => t <> old) (g_tabs g) `sublist_of` g_tabs g) by apply sublist_filter.
  split; [split|].
  - rewrite tabs_of_app. cbn. fold (tabs_of l2). eapply sublist_NoDup; [exact H1|]. by apply sublist_app, sublist_app.
  - unfold ids_of in *. by rewrite fmap_app, fmap_cons in *.
  - apply Forall_app in H3 as [Ho1 [[Hg (a & Ha & Hin)] Ho2]%Forall_cons]. apply Forall_app. split; [done|]. constructor; [|done].
    assert (Hn : new ∈ filter (fun t => t <> old) (g_tabs g)) by (by apply list_elem_of_filter).
    split; cbn; [intros E; rewrite E in Hn; by apply not_elem_of_nil in Hn|]. case_bool_decide as Hb; [by exists new|]. exists a.
    split; [done|]. apply list_elem_of_filter. split; [congruence|done].
  - intros x. rewrite !tabs_of_app. cbn. fold (tabs_of l2). rewrite !fmap_app, !elem_of_app, list_elem_of_filter.
    rewrite (rename_other old new (tabs_of l1)) by (intros H; apply (Hx1 old H); set_solver).
    rewrite (rename_other old new (tabs_of l2)) by (by apply Hx2).
    assert (Hr : x ∈ rename old new <$> g_tabs g <-> x <> old /\ x ∈ g_tabs g); [|rewrite Hr; tauto].
    rewrite list_elem_of_fmap. unfold rename. split.
    + intros (y & -> & Hy). case_bool_decide; [by split|done].
    + intros [Hx Hin]. exists x. by rewrite bool_decide_eq_false_2.
Qed.

(** The names after a renaming: the new one for the old one, once. *)
Definition renamed (old new : bytes) (tabs : list bytes) : list bytes := remove_dups (rename old new <$> tabs).

(** The new name differs from the old one, and no other group has it. *)
Definition rename_ok (old new : bytes) (n : TerminalWindowNode) : Prop :=
  old ∈ collect_tab_ids n -> old <> new /\ Forall (fun g => old ∈ g_tabs g \/ new ∉ g_tabs g) (view n).

Lemma replace_renames old new n n' :
  wf n -> rename_ok old new n -> replace_tab_id old new n = Some n' -> wf n' /\ collect_tab_ids n' ≡ₚ renamed old new (collect_tab_ids n).
Proof.
  intros Hw Hok E. assert (Hgoal : wf n' /\ forall x, x ∈ collect_tab_ids n' <-> x ∈ rename old new <$> collect_tab_ids n).
  { destruct (decide (new ∈ collect_tab_ids n)) as [Hnew|Hnew]; [|destruct (replace_keeps old new n n' Hw Hnew E) as [? ->]; done].
    destruct (replace_leaf old new n n' E) as (l1 & g & i & l2 & E1 & Ep & E3).
    pose proof (list_elem_of_lookup_2 _ _ _ (position_Some _ _ _ Ep)) as Hold.
    assert (Hin : old ∈ collect_tab_ids n) by (rewrite view_collect; apply elem_of_tabs; exists g; rewrite E1; set_solver).
    destruct (Hok Hin) as [Hne Hoth]. rewrite view_collect in Hnew. apply elem_of_tabs in Hnew as (g' & Hg' & Hn'). unfold wf in Hw. rewrite E1 in Hw, Hoth, Hg'.
    assert (Hng : new ∈ g_tabs g).
    { destruct (proj1 (Forall_forall _ _) Hoth g' Hg') as [Ho'|]; [|done]. replace g with g'; [done|]. apply (same_group old (l1 ++ g :: l2)); [apply Hw|done|set_solver|done|done]. }
    rewrite (bool_decide_eq_true_2 _ Hng) in E3. unfold wf. rewrite !view_collect, E1, E3. by apply replace_merges. }
  destruct Hgoal as [Hwf Hx]. split; [done|]. apply NoDup_Permutation; [rewrite view_collect; apply Hwf|apply NoDup_remove_dups|].
  intros x. unfold renamed. by rewrite elem_of_remove_dups.
Qed.

Lemma renamed_other old new (l : list bytes) : old ∉ l -> NoDup l -> renamed old new l ≡ₚ l.
Proof.
  intros Ho Hd. unfold renamed. rewrite rename_other by done. apply NoDup_Permutation; [apply NoDup_remove_dups|done|].
  intros x. by rewrite elem_of_remove_dups.
Qed.

(** Otherwise the tab is lost, or its name is in two groups. *)
Lemma replace_breaks old new n n' :
  wf n -> ~ rename_ok old new n -> replace_tab_id old new n = Some n' -> ~ (wf n' /\ collect_tab_ids n' ≡ₚ renamed old new (collect_tab_ids n)).
Proof.
  intros Hw Hbad E [Hw' Hp]. destruct (replace_leaf old new n n' E) as (l1 & g & i & l2 & E1 & Ep & E3).
  pose proof (list_elem_of_lookup_2 _ _ _ (position_Some _ _ _ Ep)) as Hold. unfold wf in *. rewrite E1 in Hw. apply Hbad. intros _. split.
  - intros <-. rewrite (bool_decide_eq_true_2 _ Hold) in E3. assert (Hin : old ∈ collect_tab_ids n').
    { rewrite Hp. unfold renamed. rewrite elem_of_remove_dups, list_elem_of_fmap. exists old. unfold rename. rewrite bool_decide_eq_true_2 by done.
      split; [done|]. rewrite view_collect, E1. apply elem_of_tabs. exists g. split; [set_solver|done]. }
    rewrite view_collect, E3 in Hin. fold (tabs_of (l1 ++ mkGroup (g_id g) (delete i (g_tabs g)) (if bool_decide (g_active g = Some old) then Some old else g_active g) :: l2)) in Hin.
    destruct Hw as [H1 _ _]. rewrite tabs_of_app in H1, Hin. cbn in H1, Hin. fold (tabs_of l2) in H1, Hin.
    apply NoDup_app in H1 as (_ & Hx1 & (Hdg & Hx2 & _)%NoDup_app). rewrite !elem_of_app in Hin. destruct Hin as [Hin|[Hin|Hin]].
    + apply (Hx1 old Hin). set_solver.
    + rewrite (delete_position old) in Hin by done. by apply list_elem_of_filter in Hin as [? _].
    + by apply (Hx2 old Hold).
  - apply Forall_forall. intros g' Hg'. destruct (decide (old ∈ g_tabs g')) as [|Ho]; [by left|right]. intros Hn. rewrite E1 in Hg'.
    destruct Hw as [H1 _ _]. rewrite E3 in Hw'. destruct Hw' as [H1' _ _].
    assert (Hng : new ∉ g_tabs g). { intros Hng. apply Ho. by rewrite (same_group new (l1 ++ g :: l2) g' g H1) by (done || set_solver). }
    rewrite (bool_decide_eq_false_2 _ Hng) in H1'. rewrite tabs_of_app in H1'. cbn in H1'. fold (tabs_of l2) in H1'.
    assert (Hni : new ∈ <[i:=new]> (g_tabs g)) by (eapply list_elem_of_lookup_2, list_lookup_insert_eq, lookup_lt_Some, position_Some, Ep).
    apply NoDup_app in H1' as (_ & Hx1 & (_ & Hx2 & _)%NoDup_app). rewrite elem_of_app, elem_of_cons in Hg'. destruct Hg' as [Hg'|[->|Hg']].
    + apply (Hx1 new); [apply elem_of_tabs; eauto|set_solver].
    + done.
    + apply (Hx2 new Hni). apply elem_of_tabs. eauto.
Qed.

Lemma set_ratio_view split p n n' : set_split_ratio split p n = Some n' -> view n' = view n.
Proof.
  revert n'. induction n as [|id d r a IHa b IHb]; intros n'; cbn; [done|]. case_bool_decide; [by intros [= <-]|]. unfold either.
  destruct (set_split_ratio split p a) as [a'|]; [intros [= <-]; cbn; by rewrite (IHa a')|].
  destruct (set_split_ratio split p b) as [b'|]; [intros [= <-]; cbn; by rewrite (IHb b')|done].
Qed.

(** ** The operations together *)

Inductive tab_op :=
| OpActivate (tab : bytes)
| OpMove (tab leaf : bytes)
| OpPlace (tab before : bytes)
| OpDock (uuid1 uuid2 tab leaf : bytes) (zone : TabDockZone)
| OpEnsure (tab : bytes) (preferred : option bytes)
| OpClose (tab : bytes)
| OpRename (old new : bytes)
| OpResize (split : bytes) (percent : Z).

(** [None]: no tab is left. *)
Definition apply_op (op : tab_op) (n : TerminalWindowNode) : option TerminalWindowNode :=
  match op with
  | OpActivate tab => Some (default n (set_active_tab tab n))
  | OpMove tab leaf => Some (move_tab_to_leaf tab leaf n).2
  | OpPlace tab before => Some (place_tab_before tab before n).2
  | OpDock u1 u2 tab leaf zone => Some (dock_tab u1 u2 tab leaf zone n).2
  | OpEnsure tab preferred => Some (ensure_tab tab preferred n)
  | OpClose tab => (remove_tab tab n).2
  | OpRename old new => Some (default n (replace_tab_id old new n))
  | OpResize split p => Some (default n (set_split_ratio split p n))
  end.

Definition op_tabs (op : tab_op) (tabs : list bytes) : list bytes :=
  match op with
  | OpEnsure tab _ => if bool_decide (tab ∈ tabs) then tabs else tab :: tabs
  | OpClose tab => filter (fun t => t <> tab) tabs
  | OpRename old new => renamed old new tabs
  | _ => tabs
  end.

(** The identifier of the leaf made for a tab docked at an edge is new, and a tab is not
    renamed to itself or to a tab of another group. *)
Definition op_fresh (op : tab_op) (n : TerminalWindowNode) : Prop :=
  match op with
  | OpDock u1 _ _ _ (Edge _) => leaf_id u1 ∉ leaf_ids n
  | OpRename old new => rename_ok old new n
  | _ => True
  end.

Lemma rename_spoils old new n n' :
  wf n -> ~ op_fresh (OpRename old new) n -> apply_op (OpRename old new) n = Some n' ->
  ~ (wf n' /\ collect_tab_ids n' ≡ₚ op_tabs (OpRename old new) (collect_tab_ids n)).
Proof.
  cbn. intros Hw Hbad [= <-]. destruct (replace_tab_id old new n) as [n'|] eqn:E; [by apply (replace_breaks old new n)|].
  exfalso. apply Hbad. intros Hin. by apply (replace_None old new) in E.
Qed.

(** ** Storing and restoring *)

Lemma group_percent_check : forallb (fun p => (restored_percent (stored_ratio (clamp p 1 99) F64_0_01 F64_0_99) 1 99 =? p)
  && is_finite (stored_ratio (clamp p 1 99) F64_0_01 F64_0_99)) (seqZ 1 99) = true.
Proof. vm_compute. reflexivity. Qed.

Lemma group_percent_roundtrip p :
  1 <= p <= 99 -> restored_percent (stored_ratio (clamp p 1 99) F64_0_01 F64_0_99) 1 99 = p
    /\ is_finite (stored_ratio (clamp p 1 99) F64_0_01 F64_0_99) = true.
Proof.
  intros Hp. pose proof group_percent_check as H. rewrite forallb_forall in H.
  specialize (H p). rewrite <- list_elem_of_In, elem_of_seqZ in H. specialize (H ltac:(lia)). apply andb_true_iff in H as [->%Z.eqb_eq ->]. done.
Qed.

Fixpoint percents_ok (n : TerminalWindowNode) : Prop :=
  match n with WinLeaf _ _ _ => True | WinSplit _ _ r first second => 1 <= r <= 99 /\ percents_ok first /\ percents_ok second end.

(** The tree without its identifiers. *)
Fixpoint erase (n : TerminalWindowNode) : TerminalWindowNode :=
  match n with WinLeaf _ tabs active => WinLeaf [] tabs active | WinSplit _ d r first second => WinSplit [] d r (erase first) (erase second) end.

Lemma unique_loop_id seen l : NoDup l -> (forall x, x ∈ l -> x ∉ seen) -> unique_loop seen l = l.
Proof.
  revert seen. induction l as [|x l IH]; [done|]. intros seen [Hx Hd]%NoDup_cons Hs. cbn. rewrite bool_decide_eq_false_2 by (apply Hs; left).
  f_equal. apply IH; [done|]. intros y Hy [->%elem_of_singleton|H]%elem_of_union; [done|]. by apply (Hs y); [right|].
Qed.

Lemma leaf_keeps uuid tabs a : NoDup tabs -> a ∈ tabs -> leaf uuid tabs (Some a) = WinLeaf (leaf_id uuid) tabs (Some a).
Proof.
  intros Hd Ha. unfold leaf, unique_tabs. rewrite unique_loop_id by (done || set_solver). by rewrite bool_decide_eq_true_2.
Qed.

Section roundtrip.
  Context (uuid : nat -> bytes) (ordered : list bytes) (Hord : NoDup ordered).

Let at_index (t : bytes) (i : nat) := ordered !! i = Some t.

Lemma indexes_spec seen tabs :
  NoDup tabs -> (forall t, t ∈ tabs -> t ∈ ordered) -> (forall t i, t ∈ tabs -> ordered !! i = Some t -> i ∉ seen) ->
  Forall2 at_index tabs (indexes_loop (index_by_id ordered) seen tabs).
Proof.
  revert seen. induction tabs as [|t ts IH]; [constructor|]. intros seen [Ht Hd]%NoDup_cons Hin Hseen. cbn.
  destruct (proj1 (list_elem_of_lookup _ _) (Hin t ltac:(left))) as [i Hi]. rewrite (proj2 (index_by_id_spec ordered t i Hord) Hi).
  rewrite bool_decide_eq_false_2 by (eapply Hseen; [left|done]). constructor; [done|]. apply IH; [done|intros x Hx; apply Hin; by right|].
  intros x j Hx Hj [->%elem_of_singleton|Hs]%elem_of_union; [|eapply Hseen; [right; exact Hx|exact Hj|exact Hs]].
  rewrite Hi in Hj. injection Hj as ->. done.
Qed.

Lemma take_spec used tabs idx :
  Forall2 at_index tabs idx -> NoDup tabs -> (forall t, t ∈ tabs -> t ∉ used) -> take_tabs ordered used idx = (tabs, used ∪ list_to_set tabs).
Proof.
  intros HF. revert used. induction HF as [|t i ts idx Hi HF IH]; intros used; cbn.
  - intros _ _. f_equal. set_solver.
  - intros [Ht Hd]%NoDup_cons Hu. unfold at_index in Hi. rewrite Hi. rewrite bool_decide_eq_false_2 by (apply Hu; left). rewrite IH; [|done|].
    + cbn. f_equal. set_solver.
    + intros x Hx. specialize (Hu x ltac:(by right)). set_solver.
Qed.

(** The leaves of a restored tree are named by the calls [k .. k' - 1]. *)
Definition named (k k' : nat) (n : TerminalWindowNode) : Prop :=
  exists ks, leaf_ids n = (fun k => leaf_id (uuid k)) <$> ks /\ NoDup ks /\ Forall (fun i => k <= i < k')%nat ks.

Lemma restore_serialized_groups n used k :
  NoDup (collect_tab_ids n) -> Forall group_ok (view n) -> percents_ok n -> (forall t, t ∈ collect_tab_ids n -> t ∈ ordered /\ t ∉ used) ->
  exists l n' k', serialize_groups (index_by_id ordered) n = Some l
    /\ restore_groups uuid ordered l (used, k) = (Some n', (used ∪ list_to_set (collect_tab_ids n), k'))
    /\ erase n' = erase n /\ (k <= k')%nat /\ named k k' n'.
Proof.
  revert used k. induction n as [id tabs act|id d r a IHa b IHb]; intros used k; cbn [collect_tab_ids view percents_ok].
  - intros Hd [Hg _]%Forall_cons _ Hin. destruct Hg as [Hne (x & Ex & Hx)]. cbn in Hne, Ex, Hx. subst act. cbn [serialize_groups].
    pose proof (indexes_spec ∅ tabs Hd (fun t Ht => proj1 (Hin t Ht)) ltac:(set_solver)) as HF.
    pose proof (take_spec used tabs _ HF Hd (fun t Ht => proj2 (Hin t Ht))) as HT.
    destruct (indexes_loop (index_by_id ordered) ∅ tabs) as [|i idx] eqn:Ei; [by apply Forall2_nil_inv_r in HF|].
    destruct (proj1 (list_elem_of_lookup _ _) (proj1 (Hin x Hx))) as [j Hj]. cbn [mbind option_bind].
    rewrite (proj2 (index_by_id_spec ordered x j Hord) Hj).
    eexists _, _, (S k). split; [reflexivity|]. cbn [restore_groups fst snd]. rewrite HT. cbn [fst snd]. destruct tabs as [|t ts]; [done|].
    cbn [mbind option_bind]. rewrite Hj. rewrite bool_decide_eq_true_2 by done. rewrite leaf_keeps by done.
    split_and!; [done|done|lia|]. exists [k]. split_and!; [done|apply NoDup_singleton|constructor; [lia|constructor]].
  - intros (Hda & Hdis & Hdb)%NoDup_app [Hga Hgb]%Forall_app (Hr & Hpa & Hpb) Hin.
    destruct (IHa used k) as (la & a' & ka & Ea & Ra & Era & Hka & (ksa & Ia & Na & Fa)); [done..|intros t Ht; apply Hin, elem_of_app; by left|].
    destruct (IHb (used ∪ list_to_set (collect_tab_ids a)) ka) as (lb & b' & kb & Eb & Rb & Erb & Hkb & (ksb & Ib & Nb & Fb)); [done..| |].
    { intros t Ht. destruct (Hin t ltac:(apply elem_of_app; by right)) as [? ?]. split; [done|]. specialize (fun H => Hdis t H Ht). set_solver. }
    cbn [serialize_groups]. rewrite Ea, Eb. cbn [join_nodes]. destruct (group_percent_roundtrip r Hr) as [E1 E2].
    eexists _, _, (S kb). split; [reflexivity|]. cbn [restore_groups]. rewrite parse_direction_name, E2. cbn [negb]. rewrite Ra. cbn [fst snd]. rewrite Rb.
    cbn [fst snd]. rewrite E1. split.
    { f_equal. f_equal. rewrite list_to_set_app_L. set_solver. }
    split_and!; [by cbn; rewrite Era, Erb|lia|].
    + exists (ksa ++ ksb). cbn. rewrite fmap_app, Ia, Ib. rewrite Forall_forall in Fa, Fb. split_and!; [done| |].
      * apply NoDup_app. split_and!; try done. intros i Hi1 Hi2. specialize (Fa i Hi1). specialize (Fb i Hi2). lia.
      * apply Forall_forall. intros i [Hi|Hi]%elem_of_app; [specialize (Fa i Hi)|specialize (Fb i Hi)]; lia.
Qed.
End roundtrip.

Lemma erase_tabs n : collect_tab_ids (erase n) = collect_tab_ids n.
Proof. induction n as [|id d r a IHa b IHb]; cbn; [done|]. by rewrite IHa, IHb. Qed.

Lemma erase_groups n : Forall group_ok (view (erase n)) <-> Forall group_ok (view n).
Proof. induction n as [|id d r a IHa b IHb]; cbn; [by rewrite !Forall_singleton|]. by rewrite !Forall_app, IHa, IHb. Qed.

Lemma layout_key_roundtrip key : layout_key (from_layout_key key) = key.
Proof.
  unfold from_layout_key. destruct (strip_prefix EDITOR_PREFIX key) as [id|] eqn:E1; [by rewrite (strip_prefix_Some _ _ _ E1)|].
  destruct (strip_prefix FILE_MANAGER_PREFIX key) as [id|] eqn:E2; [by rewrite (strip_prefix_Some _ _ _ E2)|]. case_bool_decide; by subst.
Qed.

Lemma tab_id_roundtrip t : (forall id, t = Session id -> head id <> Some 0) -> from_layout_key (layout_key t) = t.
Proof.
  unfold from_layout_key. destruct t as [id|id|id|]; intros H; cbn [layout_key].
  - specialize (H id eq_refl). destruct id as [|x id]; [done|]. assert (Hx : x <> 0) by (intros ->; by apply H).
    assert (Hs : forall p, strip_prefix (0 :: p) (x :: id) = None) by (by destruct x). unfold EDITOR_PREFIX, FILE_MANAGER_PREFIX. rewrite !Hs. rewrite bool_decide_eq_false_2; [done|]. by intros [= ? _].
  - by rewrite strip_prefix_app.
  - change (strip_prefix EDITOR_PREFIX (FILE_MANAGER_PREFIX ++ id)) with (@None bytes). by rewrite strip_prefix_app.
  - reflexivity.
Qed.

(** ** Theorems *)

(** C22: Where a dropped tab goes. For a tab and a group of a well-formed tree: in the middle,
    the tab leaves its group, which disappears when it is empty, and becomes the last and
    active tab of the target; at an edge, nothing happens when the target is the group of
    that tab alone, and else a new group with the tab stands directly before (left, top) or
    after (right, bottom) the target. All other groups, their order and their active tabs
    stay. *)
Theorem dock_tab_exact uuid1 uuid2 tab target zone n :
  wf n -> tab <> [] -> tab ∈ collect_tab_ids n -> target ∈ leaf_ids n ->
  match zone with
  | Center => exists n', dock_tab uuid1 uuid2 tab target zone n = (true, n') /\ view n' = move_view tab target (view n)
  | Edge e =>
    ((exists g, g ∈ view n /\ g_id g = target /\ g_tabs g = [tab]) /\ dock_tab uuid1 uuid2 tab target zone n = (false, n))
    \/ ((~ exists g, g ∈ view n /\ g_id g = target /\ g_tabs g = [tab])
        /\ exists n', dock_tab uuid1 uuid2 tab target zone n = (true, n') /\ view n' = split_view uuid1 tab target e (view n))
  end.
Proof.
  intros Hw Hne Ht Hl. unfold dock_tab. rewrite contains_tab_spec, (bool_decide_eq_true_2 _ Ht), (bool_decide_eq_false_2 _ Hne).
  rewrite bool_decide_eq_false_2 by (rewrite leaf_tabs_None; rewrite view_leaf_ids in Hl; intros H; by apply H). cbn [negb orb]. destruct zone as [|e].
  - by apply move_to_leaf_view.
  - destruct (decide (Exists (fun g => g_id g = target /\ g_tabs g = [tab]) (view n))) as [He|Hno].
    + apply Exists_exists in He as (g & Hg & Eg & Et). left. split; [eauto|]. unfold dock_tab_to_edge, leaf_tab_count_for.
      rewrite (find_by_tab (fun g => (g_id g, length (g_tabs g))) tab n g) by (done || (rewrite Et; left)). by rewrite Eg, Et, bool_decide_eq_true_2.
    + rewrite Exists_exists in Hno. right. split; [done|]. by apply dock_edge_view.
Qed.

(** C13: Every operation keeps the groups well formed (no tab and no leaf identifier twice, no
    empty group, the active tab among the tabs) and exactly the expected tabs: opening adds
    the tab unless it is open, closing removes it and leaves no tree exactly when it was the
    last, renaming puts the new name for the old one and merges the two within a group, and
    moving, placing, docking, activating and resizing neither lose nor duplicate one. The
    leaf identifier for a tab docked at an edge must be new, and a tab must not be renamed to
    itself or to the name of a tab in another group: if it is, the result is not well formed
    or does not have the expected tabs. *)
Theorem tab_ops_keep_tabs op n :
  wf n ->
  (op_fresh op n ->
   match apply_op op n with
   | Some n' => wf n' /\ collect_tab_ids n' ≡ₚ op_tabs op (collect_tab_ids n)
   | None => op_tabs op (collect_tab_ids n) = []
   end)
  /\ (forall old new n', op = OpRename old new -> ~ op_fresh op n -> apply_op op n = Some n' ->
       ~ (wf n' /\ collect_tab_ids n' ≡ₚ op_tabs op (collect_tab_ids n))).
Proof.
  intros Hw. split; [|intros old new n' ->; by apply rename_spoils].
  intros Hf. destruct op as [tab|tab l|tab b|u1 u2 tab l z|tab p|tab|old new|s p]; cbn [apply_op op_tabs] in *.
  - destruct (set_active_tab tab n) as [n'|] eqn:E; [by apply (view_active tab)|done].
  - unfold move_tab_to_leaf. rewrite contains_tab_spec. case_bool_decide as Ht; [|done]. case_bool_decide as Hl; [done|].
    rewrite leaf_tabs_None in Hl. apply dec_stable in Hl. assert (Hl' : l ∈ leaf_ids n) by (by rewrite view_leaf_ids).
    destruct (move_to_leaf_view tab l n Hw Ht Hl') as (n' & E & V). unfold move_tab_to_leaf in E. rewrite contains_tab_spec in E.
    rewrite (bool_decide_eq_true_2 _ Ht) in E. rewrite bool_decide_eq_false_2 in E by (rewrite leaf_tabs_None; tauto). rewrite E. cbn [snd].
    unfold wf. rewrite !view_collect, V in *. by apply move_view_wf.
  - by apply place_keeps.
  - apply dock_keeps; [done|]. by destruct z.
  - pose proof (ensure_keeps tab p n Hw) as [H1 H2]. split; [done|]. rewrite H2, contains_tab_spec. by case_bool_decide.
  - destruct ((remove_tab tab n).2) as [n'|] eqn:E; [destruct (remove_keeps tab n n' Hw E) as [? Et]; split; [done|by rewrite Et]|].
    pose proof (remove_view tab n) as Hv. rewrite E in Hv. rewrite view_collect. fold (tabs_of (view n)). rewrite <- omap_remove_tabs by apply Hw. by rewrite <- Hv.
  - destruct (replace_tab_id old new n) as [n'|] eqn:E; [by apply (replace_renames old new)|]. split; [done|]. cbn.
    rewrite renamed_other; [done|by apply (replace_None old new)|rewrite view_collect; apply Hw].
  - destruct (set_split_ratio s p n) as [n'|] eqn:E; [|done]. unfold wf. cbn. rewrite !view_collect, (set_ratio_view s p n n') by done. done.
Qed.

(** A stored tree of groups comes back: for open tabs that are all different and a
    well-formed tree of some of them, with ratios in the range the code keeps, storing and
    restoring gives nothing when a tab is open that the tree does not show, and else the
    same tree (splits, directions, percentages, tabs in order, active tabs) with new
    identifiers, well formed when [uuid_v4_like] never repeats. *)
Theorem tab_layout_roundtrip uuid ordered n :
  NoDup ordered -> wf n -> percents_ok n -> (forall t, t ∈ collect_tab_ids n -> t ∈ ordered) ->
  if forallb (fun t => contains_tab t n) ordered
  then exists n', serialize_windows ordered n ≫= restore_windows uuid ordered = Some n' /\ erase n' = erase n
    /\ ((forall i j, uuid i = uuid j -> i = j) -> wf n')
  else serialize_windows ordered n ≫= restore_windows uuid ordered = None.
Proof.
  intros Ho Hw Hp Hsub. assert (Hd : NoDup (collect_tab_ids n)) by (rewrite view_collect; apply Hw).
  destruct (restore_serialized_groups uuid ordered Ho n ∅ O Hd (wf_groups _ Hw) Hp) as (l & n' & k' & E1 & E2 & E3 & _ & (ks & Ik & Nk & _)).
  { intros t Ht. split; [by apply Hsub|set_solver]. }
  assert (Hne : ordered <> []). { intros ->. destruct (view n) as [|g gs] eqn:Ev; [by apply view_nonempty in Ev|].
    pose proof (Forall_inv ltac:(rewrite <- Ev; apply Hw) : group_ok g) as [_ (a & _ & Ha)].
    assert (Hin : a ∈ collect_tab_ids n) by (rewrite view_collect, Ev; apply elem_of_app; by left). apply Hsub in Hin. by apply not_elem_of_nil in Hin. }
  unfold serialize_windows, restore_windows. destruct ordered as [|o os] eqn:Eo; [done|]. rewrite <- Eo in *. clear Eo o os Hne. rewrite E1. cbn [mbind option_bind].
  rewrite E2. cbn [fst snd].
  assert (Eb : existsb (fun id => negb (bool_decide (id ∈ (∅ : gset bytes) ∪ list_to_set (collect_tab_ids n)))) ordered
    = negb (forallb (fun t => contains_tab t n) ordered)).
  { clear. induction ordered as [|o os IH]; [done|]. cbn. rewrite IH, contains_tab_spec, negb_andb. f_equal. f_equal. apply bool_decide_ext. set_solver. }
  rewrite Eb. destruct (forallb (fun t => contains_tab t n) ordered); cbn [negb]; [|done]. exists n'. split_and!; [done|done|].
  intros Hu. split.
  - rewrite <- erase_tabs, <- E3, erase_tabs, view_collect in Hd. exact Hd.
  - unfold ids_of. rewrite <- view_leaf_ids, Ik. apply NoDup_fmap_2_strong; [|done]. intros i j _ _ H. apply Hu. by apply app_inv_head in H.
  - apply erase_groups. rewrite E3. apply erase_groups, Hw.
Qed.

(** ** Examples and witnesses *)

Definition demo_groups : TerminalWindowNode :=
  WinSplit (bs "s") Vertical 30 (WinLeaf (bs "l1") [bs "a"; bs "b"] (Some (bs "a"))) (WinLeaf (bs "l2") [bs "c"] (Some (bs "c"))).

Lemma demo_groups_wf : wf demo_groups.
Proof.
  split; [vm_compute; repeat constructor; set_solver|vm_compute; repeat constructor; set_solver|].
  repeat constructor; try discriminate; eexists; (split; [reflexivity|left]).
Qed.

(** Docking the active first tab at the right edge of its own group. *)
Lemma dock_tab_exact_witness :
  exists n', dock_tab (bs "n") (bs "m") (bs "a") (bs "l1") (Edge Right) demo_groups = (true, n')
    /\ view n' = [mkGroup (bs "l1") [bs "b"] (Some (bs "b")); mkGroup (bs "tw-leaf-n") [bs "a"] (Some (bs "a")); mkGroup (bs "l2") [bs "c"] (Some (bs "c"))].
Proof.
  destruct (dock_tab_exact (bs "n") (bs "m") (bs "a") (bs "l1") (Edge Right) demo_groups demo_groups_wf) as [[_ H]|[_ H]];
    [discriminate|left|left|vm_compute in H; discriminate|].
  destruct H as (n' & H1 & H2). exists n'. split; [exact H1|]. rewrite H2. vm_compute. reflexivity.
Defined.

(** Closing a tab, merging the names of two tabs of a group, and the name of a tab of
    another group. *)
Lemma tab_ops_keep_tabs_witness :
  match apply_op (OpClose (bs "c")) demo_groups with Some n' => wf n' /\ collect_tab_ids n' ≡ₚ [bs "a"; bs "b"] | None => False end
  /\ match apply_op (OpRename (bs "a") (bs "b")) demo_groups with Some n' => wf n' /\ collect_tab_ids n' ≡ₚ [bs "b"; bs "c"] | None => False end
  /\ match apply_op (OpRename (bs "a") (bs "c")) demo_groups with Some n' => ~ (wf n' /\ collect_tab_ids n' ≡ₚ [bs "b"; bs "c"]) | None => False end.
Proof.
  split; [exact (proj1 (tab_ops_keep_tabs (OpClose (bs "c")) demo_groups demo_groups_wf) I)|]. split.
  - apply (proj1 (tab_ops_keep_tabs (OpRename (bs "a") (bs "b")) demo_groups demo_groups_wf)). intros _. split; [discriminate|].
    constructor; [left; vm_compute; left|constructor; [right|constructor]]. vm_compute. set_solver.
  - intros H. eapply (proj2 (tab_ops_keep_tabs (OpRename (bs "a") (bs "c")) demo_groups demo_groups_wf)); [reflexivity| |reflexivity|].
    + intros Hok. destruct (Hok ltac:(vm_compute; left)) as [_ [_ [[Ha|Hc] _]%Forall_cons]%Forall_cons]; [vm_compute in Ha; set_solver|].
      apply Hc. vm_compute. left.
    + destruct H as [H1 H2]. split; [exact H1|]. rewrite H2. vm_compute. reflexivity.
Defined.

Lemma tab_layout_roundtrip_witness :
  exists n', serialize_windows [bs "c"; bs "a"; bs "b"] demo_groups ≫= restore_windows (fun k => [Z.of_nat k]) [bs "c"; bs "a"; bs "b"] = Some n'
    /\ erase n' = erase demo_groups /\ wf n'.
Proof.
  destruct (tab_layout_roundtrip (fun k => [Z.of_nat k]) [bs "c"; bs "a"; bs "b"] demo_groups) as (n' & H1 & H2 & H3).
  - vm_compute. repeat constructor; set_solver.
  - exact demo_groups_wf.
  - vm_compute. repeat split; discriminate.
  - intros t. vm_compute. set_solver.
  - exists n'. split; [exact H1|]. split; [exact H2|]. apply H3. intros i j [= H]. lia.
Defined.
