(* ===== verification/VncTrust.v ===== *)
(** * Trust in remote desktop servers

    [nyaterm-remote-desktop/src/certificate.rs], what becomes of an RDP certificate, and
    [vnc_trust.rs], the decision about the key of a VNC server. A [VncTrustState] is shared
    by the reader of the helper, which asks and reports the authentication, the user
    interface, which answers and cancels, the lifetime of the connection, which invalidates,
    and a storage worker, which writes the key down. One field is behind a mutex, two are
    atomics that change at any moment; the steps below are the loads, stores and critical
    sections one by one. The theorems show that a key is written down only after the user
    accepted it for good and the server proved it, with nothing invalidated since it was
    shown, and at most once. Poisoning of the mutex is not modelled. *)

From S2P Require Import Prelude RustStr RustText ShellRisk DesktopQueue.
From stdpp Require Import base numbers option list relations strings.
From Stdlib Require Import ZArith Lia.

Local Open Scope Z_scope.

(** ** Certificates *)

Inductive RdpCertificatePolicy := Prompt | TrustOnFirstUse | Strict | Insecure | RejectChanged.
Inductive CertificateDecision := Accept | AcceptAndRemember | PromptUser | Reject.
Inductive CertificateMatchState := FirstUse | Match | Changed (remembered_fingerprint : bytes).
Inductive CertificatePromptReason := ReasonFirstUse | ReasonChanged (previous_fingerprint presented_fingerprint : bytes).
Record CertificateEvaluation := mkEvaluation { decision : CertificateDecision; prompt_reason : option CertificatePromptReason }.

Definition match_decision (policy : RdpCertificatePolicy) (state : CertificateMatchState) : CertificateDecision :=
  match policy, state with
  | Insecure, _ => Accept
  | TrustOnFirstUse, Match => Accept
  | TrustOnFirstUse, FirstUse => AcceptAndRemember
  | TrustOnFirstUse, Changed _ => Reject
  | (Strict | RejectChanged), Match => Accept
  | (Strict | RejectChanged), _ => Reject
  | Prompt, Match => Accept
  | Prompt, FirstUse => PromptUser
  | Prompt, Changed _ => PromptUser
  end.

Definition evaluate_certificate_match (policy : RdpCertificatePolicy) (state : CertificateMatchState) (presented : bytes) : CertificateEvaluation :=
  let decision := match_decision policy state in
  mkEvaluation decision
    (match decision with
     | PromptUser =>
       match state with
       | FirstUse => Some ReasonFirstUse
       | Changed remembered => Some (ReasonChanged remembered presented)
       | Match => None
       end
     | _ => None
     end).

Definition match_state (remembered : option bytes) (presented : bytes) : CertificateMatchState :=
  match remembered with
  | None => FirstUse
  | Some r => if bool_decide (to_ascii_lowercase r = to_ascii_lowercase presented) then Match else Changed r
  end.

Definition evaluate_certificate (policy : RdpCertificatePolicy) (remembered : option bytes) (presented : bytes) : CertificateDecision :=
  decision (evaluate_certificate_match policy (match_state remembered presented) presented).

(** ** The state of a VNC key *)

Notation key := VncEvents.VncServerKeyRequest.

#[global] Instance key_eq : EqDecision key.
Proof. solve_decision. Defined.

Record TrustState := mkTrust
  { closed : bool; generation : Z; epoch : Z; request : option key; accepted : bool; remember : bool; authenticated : bool }.

Definition new_trust : TrustState := mkTrust false 0 0 None false false false.

(** [request], the checks; [cancelled] is the value loaded. *)
Definition request_refused (cancelled : bool) (r : key) (s : TrustState) : bool :=
  cancelled || closed s || (VncEvents.generation r <=? generation s).

(** [request], the writes; [now] is the value loaded from the epoch counter. *)
Definition request_store (now : Z) (r : key) (s : TrustState) : TrustState :=
  mkTrust (closed s) (VncEvents.generation r) now (Some r) false false false.

(** [try_lock] fails while the mutex is held. *)
Definition is_pending (cancelled locked : bool) (r : key) (s : TrustState) : bool :=
  negb cancelled && negb locked && negb (closed s) && negb (accepted s) && bool_decide (request s = Some r).

Definition respond (cancelled locked : bool) (r : key) (accept remember_ : bool) (s : TrustState) : bool * TrustState :=
  if cancelled || locked || closed s || accepted s || negb (bool_decide (request s = Some r)) then (false, s)
  else (true, mkTrust (closed s) (generation s) (epoch s) (if accept then request s else None) accept (accept && remember_) (authenticated s)).

Definition authenticate (cancelled : bool) (r : key) (s : TrustState) : bool * TrustState :=
  if cancelled || closed s || negb (accepted s) || negb (bool_decide (request s = Some r)) then (false, s)
  else (true, mkTrust (closed s) (generation s) (epoch s) (request s) (accepted s) (remember s) true).

(** [invalidate], its critical section. *)
Definition invalidate_section (closing : bool) (s : TrustState) : TrustState :=
  mkTrust (closed s || closing) (generation s) (epoch s) None false false false.

(** [fetch_add(1)] *)
Definition bump (now : Z) : Z := wadd 64 now 1.

(** [commit_if_current], the checks and the end. *)
Definition commit_refused (cancelled : bool) (r : key) (s : TrustState) : bool :=
  cancelled || closed s || negb (authenticated s) || negb (remember s) || negb (bool_decide (request s = Some r)).
Definition commit_done (s : TrustState) : TrustState :=
  mkTrust (closed s) (generation s) (epoch s) (request s) (accepted s) false (authenticated s).

(** ** Interleavings

    Who holds the mutex: a request that passed its checks, or a commit, before
    ([started = false]) or inside its callback, and inside a call of [current] between its
    two loads ([looking]) or not. *)
Inductive phase := PRequest (r : key) | PCommit (r : key) (epoch : Z) (started looking : bool).

Inductive event :=
| ERequest (r : key) | ERespond (r : key) (accept remember : bool) | EAuth (r : key) | ECancel | EBump
| EStart (r : key)                     (** the callback of a commit is entered *)
| ELook (r : key)                      (** [current] found nothing cancelled *)
| ECurrent (r : key) (answer : bool).  (** [current] answered *)

(** [sections] are the invalidations that have not come to their critical section. *)
Record World := mkWorld { st : TrustState; cancelled : bool; epochs : Z; lock : option phase; sections : list bool; trace : list event }.

Definition start : World := mkWorld new_trust false 0 None [] [].

(** A lock-free load before a critical section may be old: it can have seen the flag clear. *)
Inductive step : World -> World -> Prop :=
| step_request c s n inv l r :
    request_refused c r s = false ->
    step (mkWorld s c n None inv l) (mkWorld s c n (Some (PRequest r)) inv l)
| step_request_store c s n inv l r :
    step (mkWorld s c n (Some (PRequest r)) inv l) (mkWorld (request_store n r s) c n None inv (ERequest r :: l))
| step_respond c s n k inv l r seen a m s' :
    (seen = true -> c = true) -> respond seen (bool_decide (is_Some k)) r a m s = (true, s') ->
    step (mkWorld s c n k inv l) (mkWorld s' c n k inv (ERespond r a m :: l))
| step_authenticated c s n inv l r s' :
    authenticate c r s = (true, s') ->
    step (mkWorld s c n None inv l) (mkWorld s' c n None inv (EAuth r :: l))
| step_cancel s c n k inv l :
    step (mkWorld s c n k inv l) (mkWorld s true n k inv (ECancel :: l))
| step_bump s c n k inv l closing :
    step (mkWorld s c n k inv l) (mkWorld s c (bump n) k (closing :: inv) (EBump :: l))
| step_section s c n inv1 inv2 l closing :
    (closing = true -> c = true) ->
    step (mkWorld s c n None (inv1 ++ closing :: inv2) l) (mkWorld (invalidate_section closing s) c n None (inv1 ++ inv2) l)
| step_commit c s n inv l r :
    commit_refused c r s = false ->
    step (mkWorld s c n None inv l) (mkWorld s c n (Some (PCommit r (epoch s) false false)) inv l)
| step_look s c n r e started inv l :
    step (mkWorld s c n (Some (PCommit r e started false)) inv l)
      (if c then mkWorld s c n (if started then Some (PCommit r e started false) else None) inv (ECurrent r false :: l)
       else mkWorld s c n (Some (PCommit r e started true)) inv (ELook r :: l))
| step_current s c n r e inv l :
    step (mkWorld s c n (Some (PCommit r e true true)) inv l)
      (mkWorld s c n (Some (PCommit r e true false)) inv (ECurrent r (n =? e) :: l))
| step_enter s c n r e inv l :
    step (mkWorld s c n (Some (PCommit r e false true)) inv l)
      (if n =? e then mkWorld s c n (Some (PCommit r e true false)) inv (EStart r :: ECurrent r true :: l)
       else mkWorld s c n None inv (ECurrent r false :: l))
| step_commit_done s c n r e inv l :
    step (mkWorld s c n (Some (PCommit r e true false)) inv l) (mkWorld (commit_done s) c n None inv l).

(** ** What the trace tells *)

Definition is_bump (e : event) : bool := match e with EBump => true | _ => false end.
Fixpoint bumps (l : list event) : Z := match l with [] => 0 | e :: l' => Z.b2z (is_bump e) + bumps l' end.

(** The last request and what happened since, latest first. *)
Fixpoint since (l : list event) : option (key * list event) :=
  match l with
  | [] => None
  | ERequest r :: _ => Some (r, [])
  | e :: l' => (fun p => (p.1, e :: p.2)) <$> since l'
  end.

(** Asked, accepted for good and authenticated, in this order, with no invalidation since. *)
Definition story (r : key) (l : list event) : Prop :=
  exists l4 l3 l2 l1, l = l4 ++ EAuth r :: l3 ++ ERespond r true true :: l2 ++ ERequest r :: l1 /\ EBump ∉ l4 ++ l3 ++ l2.

(** [current] answered yes for a key that had its story when nothing was cancelled, and
    still nothing is invalidated. *)
Definition justified (r : key) (l : list event) : Prop :=
  exists l5 l6, l = l5 ++ ELook r :: l6 /\ EBump ∉ l5 /\ ECancel ∉ l6 /\ story r l6.

Lemma bumps_app a b : bumps (a ++ b) = bumps a + bumps b.
Proof. induction a as [|e a IH]; [done|]. cbn. rewrite IH. lia. Qed.

Lemma bumps_nonneg l : 0 <= bumps l.
Proof. induction l as [|e l IH]; [done|]. cbn. destruct (is_bump e); cbn; lia. Qed.

Lemma bumps_zero l : bumps l = 0 -> EBump ∉ l.
Proof.
  induction l as [|e l IH]; [intros _ ?%not_elem_of_nil; done|]. cbn. pose proof (bumps_nonneg l). intros H0.
  destruct (is_bump e) eqn:E; cbn in H0; [lia|]. apply not_elem_of_cons. split; [by intros <-|]. apply IH. lia.
Qed.

Lemma since_cons e l : (forall r, e <> ERequest r) -> since (e :: l) = (fun p => (p.1, e :: p.2)) <$> since l.
Proof. destruct e; intros H; try done. by destruct (H r). Qed.

Lemma since_split l r es : since l = Some (r, es) -> exists l1, l = es ++ ERequest r :: l1.
Proof.
  revert r es. induction l as [|e l IH]; [done|]. intros r es.
  destruct e; cbn [since];
    try (intros ([r' es'] & E & [= -> ->])%fmap_Some; destruct (IH _ _ E) as [l1 ->]; by exists l1).
  intros [= -> <-]. by exists l.
Qed.

Lemma split_push (f : key -> event) (Q : key -> list event -> Prop) e l :
  (forall a r b, l = a ++ f r :: b -> Q r b) -> (forall r, e = f r -> Q r l) -> forall a r b, e :: l = a ++ f r :: b -> Q r b.
Proof. intros H1 H2 [|x a] r b [= -> ->]; eauto. Qed.

(** ** The invariant *)

Definition in_callback (w : World) : bool := match lock w with Some (PCommit _ _ true _) => true | _ => false end.

Definition proved (r : key) (l : list event) : Prop := exists b a, l = b ++ EAuth r :: a /\ ERespond r true true ∈ a.

(** What is known of the key in question, given the events [es] since it was asked for. *)
Record key_inv (w : World) (r : key) (es : list event) : Prop := {
  ki_since : since (trace w) = Some (r, es);
  ki_epoch : epoch (st w) = uwrap 64 (bumps (trace w) - bumps es);
  ki_remember : remember (st w) = true -> ERespond r true true ∈ es;
  ki_authenticated : remember (st w) = true -> authenticated (st w) = true -> proved r es;
  ki_fresh : remember (st w) = true -> in_callback w = false -> EStart r ∉ es;
  ki_unaccepted : accepted (st w) = false -> EStart r ∉ es }.

(** [current] has looked at the flag and saw nothing cancelled. *)
Definition looked (w : World) (r : key) : Prop :=
  exists b a l1, since (trace w) = Some (r, b ++ ELook r :: a) /\ trace w = b ++ ELook r :: a ++ ERequest r :: l1
    /\ ECancel ∉ a ++ ERequest r :: l1 /\ proved r a.

Record trust_inv (w : World) : Prop := {
  ti_epochs : epochs w = uwrap 64 (bumps (trace w));
  ti_cancelled : ECancel ∈ trace w -> cancelled w = true;
  ti_generation : forall r, ERequest r ∈ trace w -> VncEvents.generation r <= generation (st w);
  ti_asking : forall r, lock w = Some (PRequest r) -> generation (st w) < VncEvents.generation r;
  ti_once : forall a r b, trace w = a ++ ERequest r :: b -> ERequest r ∉ b;
  ti_flags : accepted (st w) = false -> remember (st w) = false /\ authenticated (st w) = false;
  ti_key : forall r, request (st w) = Some r -> exists es, key_inv w r es;
  ti_commit : forall r e started looking, lock w = Some (PCommit r e started looking) ->
    request (st w) = Some r /\ e = epoch (st w) /\ remember (st w) = true /\ authenticated (st w) = true /\ (looking = true -> looked w r);
  ti_started : forall a r b, trace w = a ++ EStart r :: b -> head b = Some (ECurrent r true) /\ ERequest r ∈ b;
  ti_start_once : forall a r b, trace w = a ++ EStart r :: b -> EStart r ∉ b;
  ti_current : forall a r b, trace w = a ++ ECurrent r true :: b -> bumps b < 2 ^ 64 -> justified r b }.

Ltac tw := unfold in_callback, bump in *; cbn [st cancelled epochs lock sections trace] in *.

(** An event that is not a request extends what happened since the last one. *)
Lemma key_push s s' c c' n n' k k' inv inv' e l r es :
  (forall x, e <> ERequest x) -> (forall x, e <> EStart x) ->
  epoch s' = epoch s -> (remember s' = true -> remember s = true) -> (authenticated s' = true -> authenticated s = true) -> (accepted s' = false -> accepted s = false) ->
  in_callback (mkWorld s' c' n' k' inv' (e :: l)) = in_callback (mkWorld s c n k inv l) ->
  key_inv (mkWorld s c n k inv l) r es -> key_inv (mkWorld s' c' n' k' inv' (e :: l)) r (e :: es).
Proof.
  intros He1 He2 E1 E2 E3 E5 E4 [K1 K2 K3 K4 K5 K6]. tw. split; tw.
  - by rewrite since_cons, K1.
  - rewrite E1, K2. cbn [bumps]. f_equal. lia.
  - intros Hr. right. auto.
  - intros Hr Ha. destruct (K4 (E2 Hr) (E3 Ha)) as (b & a & -> & Hin). exists (e :: b), a. done.
  - intros Hr. rewrite E4. intros Hc. apply not_elem_of_cons. split; [congruence|auto].
  - intros Ha. apply not_elem_of_cons. split; [congruence|auto].
Qed.

Lemma looked_push w w' e r : (forall x, e <> ERequest x) -> trace w' = e :: trace w -> looked w r -> looked w' r.
Proof.
  intros He E (b & a & l1 & H1 & H2 & H3 & H4). exists (e :: b), a, l1. rewrite E. split_and!; [by rewrite since_cons, H1|by rewrite H2|done|done].
Qed.

(** Cancelling and invalidating. *)
Lemma async_inv s c c' n n' k inv inv' l e :
  e = ECancel /\ c' = true /\ n' = n \/ e = EBump /\ c' = c /\ n' = bump n ->
  trust_inv (mkWorld s c n k inv l) -> trust_inv (mkWorld s c' n' k inv' (e :: l)).
Proof.
  intros He [I1 I2 I3 I4 I5 I6 I7 I8 I9 I10 I11]. tw.
  assert (N1 : forall x, e <> ERequest x) by (intros x; destruct He as [(-> & _)|(-> & _)]; done).
  assert (N2 : forall x, e <> EStart x) by (intros x; destruct He as [(-> & _)|(-> & _)]; done).
  assert (N3 : forall x b, e <> ECurrent x b) by (intros x b; destruct He as [(-> & _)|(-> & _)]; done).
  split; tw; try done.
  - destruct He as [(-> & _ & ->)|(-> & _ & ->)]; cbn [bumps is_bump]; rewrite I1.
    + done.
    + unfold wadd, uwrap. rewrite Zplus_mod_idemp_l. f_equal; cbn; lia.
  - destruct He as [(-> & -> & _)|(-> & -> & _)]; [done|]. intros [?|?]%elem_of_cons; [done|auto].
  - intros r [<-|?]%elem_of_cons; [by destruct (N1 r)|auto].
  - apply (split_push ERequest (fun r b => ERequest r ∉ b)); [done|]. intros r ->. by destruct (N1 r).
  - intros r Hr. destruct (I7 r Hr) as [es K]. exists (e :: es). eapply key_push; [done..|exact K].
  - intros r ep started looking El. destruct (I8 r ep started looking El) as (A1 & A2 & A3 & A4 & A5). split_and!; try done.
    intros Hl. by apply (looked_push (mkWorld s c n k inv l) _ e); [|done|auto].
  - apply (split_push EStart (fun r b => head b = Some (ECurrent r true) /\ ERequest r ∈ b)); [done|]. intros r ->. by destruct (N2 r).
  - apply (split_push EStart (fun r b => EStart r ∉ b)); [done|]. intros r ->. by destruct (N2 r).
  - apply (split_push (fun r => ECurrent r true) (fun r b => bumps b < 2 ^ 64 -> justified r b)); [done|]. intros r ->. by destruct (N3 r true).
Qed.

(** The mutex changes hands, or a commit ends, without an event. *)
Lemma lock_inv s s' c n k k' inv inv' l :
  generation s' = generation s -> epoch s' = epoch s ->
  (forall r, request s' = Some r -> request s = Some r) -> (accepted s' = false -> remember s' = false /\ authenticated s' = false) ->
  (forall r, request s' = Some r -> (remember s' = true -> remember s = true) /\ (authenticated s' = true -> authenticated s = true)
     /\ (accepted s' = false -> accepted s = false) /\ (remember s' = true -> in_callback (mkWorld s' c n k' inv' l) = in_callback (mkWorld s c n k inv l))) ->
  (forall r, k' = Some (PRequest r) -> generation s < VncEvents.generation r) ->
  (forall r e started looking, k' = Some (PCommit r e started looking) ->
     request s' = Some r /\ e = epoch s' /\ remember s' = true /\ authenticated s' = true /\ (looking = true -> looked (mkWorld s c n k inv l) r)) ->
  trust_inv (mkWorld s c n k inv l) -> trust_inv (mkWorld s' c n k' inv' l).
Proof.
  intros E1 E2 E3 E4 E5 E6 E7 [I1 I2 I3 I4 I5 I6 I7 I8 I9 I10 I11]. tw. split; tw; try done.
  - intros r Hr. rewrite E1. auto.
  - intros r Hr. rewrite E1. auto.
  - intros r Hr. destruct (I7 r (E3 r Hr)) as [es [K1 K2 K3 K4 K5 K6]]. destruct (E5 r Hr) as (F1 & F2 & F3 & F4). exists es. split; tw; auto.
    + by rewrite E2.
    + intros Hm. rewrite F4 by done. auto.
Qed.

Lemma request_inv s c n inv l r : request_refused c r s = false -> trust_inv (mkWorld s c n None inv l) -> trust_inv (mkWorld s c n (Some (PRequest r)) inv l).
Proof.
  intros Hr Hi. pose proof (ti_flags _ Hi) as Hf. apply (lock_inv s s c n None _ inv inv l); try done.
  intros x [= <-]. unfold request_refused in Hr. apply orb_false_iff in Hr as [_ Hr]. apply Z.leb_gt in Hr. exact Hr.
Qed.

Lemma section_inv s c n inv inv' l closing :
  trust_inv (mkWorld s c n None inv l) -> trust_inv (mkWorld (invalidate_section closing s) c n None inv' l).
Proof. apply lock_inv; done. Qed.

Lemma commit_start_inv s c n inv l r :
  commit_refused c r s = false -> trust_inv (mkWorld s c n None inv l) ->
  trust_inv (mkWorld s c n (Some (PCommit r (epoch s) false false)) inv l).
Proof.
  intros Hr Hi. pose proof (ti_flags _ Hi) as Hf. apply (lock_inv s s c n None _ inv inv l); try done.
  intros x e started looking [= <- <- <- <-]. unfold commit_refused in Hr. rewrite !orb_false_iff, !negb_false_iff in Hr.
  destruct Hr as ((((_ & _) & Ha) & Hm) & Hk%bool_decide_eq_true). done.
Qed.

Lemma commit_done_inv s c n inv l r e :
  trust_inv (mkWorld s c n (Some (PCommit r e true false)) inv l) -> trust_inv (mkWorld (commit_done s) c n None inv l).
Proof.
  intros Hi. pose proof (ti_flags _ Hi) as Hf. tw. revert Hi. apply lock_inv; try done. intros Ha. by destruct (Hf Ha).
Qed.

(** A new request. *)
Lemma request_store_inv s c n inv l r :
  trust_inv (mkWorld s c n (Some (PRequest r)) inv l) -> trust_inv (mkWorld (request_store n r s) c n None inv (ERequest r :: l)).
Proof.
  intros [I1 I2 I3 I4 I5 I6 I7 I8 I9 I10 I11]. tw. specialize (I4 r eq_refl).
  assert (Hnew : ERequest r ∉ l) by (intros H%I3; lia). split; tw; try done.
  - intros [?|?]%elem_of_cons; [done|auto].
  - intros x [[= <-]|Hx]%elem_of_cons; cbn; [lia|]. specialize (I3 x Hx). lia.
  - apply (split_push ERequest (fun r b => ERequest r ∉ b)); [done|]. by intros x [= <-].
  - intros x [= <-]. exists []. split; tw; try done; [|intros; apply not_elem_of_nil..]. cbn. rewrite Z.sub_0_r. exact I1.
  - by apply (split_push EStart (fun r b => head b = Some (ECurrent r true) /\ ERequest r ∈ b)).
  - by apply (split_push EStart (fun r b => EStart r ∉ b)).
  - by apply (split_push (fun r => ECurrent r true) (fun r b => bumps b < 2 ^ 64 -> justified r b)).
Qed.

Lemma respond_inv s c n k inv l seen r a m s' :
  respond seen (bool_decide (is_Some k)) r a m s = (true, s') -> trust_inv (mkWorld s c n k inv l) ->
  trust_inv (mkWorld s' c n k inv (ERespond r a m :: l)).
Proof.
  unfold respond. destruct (_ || _ || _ || _ || _) eqn:Eg; [done|]. intros [= <-] [I1 I2 I3 I4 I5 I6 I7 I8 I9 I10 I11]. tw.
  rewrite !orb_false_iff, negb_false_iff in Eg. destruct Eg as ((((_ & Ek%bool_decide_eq_false) & _) & Ea) & Er%bool_decide_eq_true).
  assert (Ek' : k = None) by (destruct k; [destruct Ek; eauto|done]). subst k. destruct (I6 Ea) as [Em Eau]. split; tw; try done.
  - intros [?|?]%elem_of_cons; [done|auto].
  - intros x [?|Hx]%elem_of_cons; [done|auto].
  - by apply (split_push ERequest (fun r b => ERequest r ∉ b)).
  - cbn. intros ->. done.
  - destruct a; [|done]. rewrite Er. intros x [= <-]. destruct (I7 r Er) as [es [K1 K2 K3 K4 K5 K6]]. tw. exists (ERespond r true m :: es). split; tw; cbn.
    + by rewrite K1.
    + rewrite K2. f_equal; lia.
    + intros ->. left.
    + congruence.
    + intros _ _. apply not_elem_of_cons. split; [done|auto].
    + done.
  - by apply (split_push EStart (fun r b => head b = Some (ECurrent r true) /\ ERequest r ∈ b)).
  - by apply (split_push EStart (fun r b => EStart r ∉ b)).
  - by apply (split_push (fun r => ECurrent r true) (fun r b => bumps b < 2 ^ 64 -> justified r b)).
Qed.

Lemma authenticate_inv s c n inv l r s' :
  authenticate c r s = (true, s') -> trust_inv (mkWorld s c n None inv l) -> trust_inv (mkWorld s' c n None inv (EAuth r :: l)).
Proof.
  unfold authenticate. destruct (_ || _ || _ || _) eqn:Eg; [done|]. intros [= <-] [I1 I2 I3 I4 I5 I6 I7 I8 I9 I10 I11]. tw.
  rewrite !orb_false_iff, !negb_false_iff in Eg. destruct Eg as ((_ & Ea) & Er%bool_decide_eq_true). split; tw; try done.
  - intros [?|?]%elem_of_cons; [done|auto].
  - intros x [?|Hx]%elem_of_cons; [done|auto].
  - by apply (split_push ERequest (fun r b => ERequest r ∉ b)).
  - cbn. congruence.
  - cbn. intros x Hx. assert (x = r) as -> by congruence. destruct (I7 r Er) as [es [K1 K2 K3 K4 K5 K6]]. tw. exists (EAuth r :: es). split; tw; cbn.
    + by rewrite K1.
    + rewrite K2. f_equal; lia.
    + intros Hm. right. auto.
    + intros Hm _. exists [], es. auto.
    + intros Hm Hc. apply not_elem_of_cons. split; [done|auto].
    + congruence.
  - by apply (split_push EStart (fun r b => head b = Some (ECurrent r true) /\ ERequest r ∈ b)).
  - by apply (split_push EStart (fun r b => EStart r ∉ b)).
  - by apply (split_push (fun r => ECurrent r true) (fun r b => bumps b < 2 ^ 64 -> justified r b)).
Qed.

(** ** Calls of [current] *)

Lemma looked_justified w r :
  trust_inv w -> looked w r -> request (st w) = Some r -> epochs w = epoch (st w) -> bumps (trace w) < 2 ^ 64 -> justified r (trace w).
Proof.
  intros Hi (b & a & l1 & H1 & H2 & H3 & (b' & a' & -> & (x & y & ->)%list_elem_of_split)) Hr He Hb.
  destruct (ti_key _ Hi r Hr) as [es [K1 K2 _ _ _ _]]. rewrite H1 in K1. injection K1 as <-. rewrite (ti_epochs _ Hi), K2 in He.
  set (es := b ++ _) in *. pose proof (bumps_nonneg es). assert (Hle : bumps es <= bumps (trace w)).
  { rewrite H2. unfold es. rewrite !bumps_app. cbn. rewrite !bumps_app. cbn. rewrite !bumps_app. cbn. pose proof (bumps_nonneg l1). lia. }
  rewrite !uwrap_small in He by (unfold urange; lia). assert (Hz : EBump ∉ es) by (apply bumps_zero; lia). unfold es in Hz.
  rewrite !not_elem_of_app, !not_elem_of_cons, !not_elem_of_app, !not_elem_of_cons, !not_elem_of_app, !not_elem_of_cons in Hz.
  destruct Hz as (Z1 & _ & Z2 & _ & Z3 & _ & Z4). exists b, ((b' ++ EAuth r :: x ++ ERespond r true true :: y) ++ ERequest r :: l1).
  split_and!; [by rewrite H2|done|done|]. exists b', x, y, l1. split; [by rewrite <- !app_assoc; cbn; rewrite <- !app_assoc|].
  rewrite !not_elem_of_app. done.
Qed.

Lemma current_inv s c n k k' inv l r b :
  trust_inv (mkWorld s c n k inv l) -> (b = true -> bumps l < 2 ^ 64 -> justified r l) ->
  in_callback (mkWorld s c n k' inv l) = in_callback (mkWorld s c n k inv l) ->
  (forall x e started looking, k' = Some (PCommit x e started looking) -> looking = false /\ exists lk, k = Some (PCommit x e started lk)) ->
  (forall x, k' <> Some (PRequest x)) -> trust_inv (mkWorld s c n k' inv (ECurrent r b :: l)).
Proof.
  intros [I1 I2 I3 I4 I5 I6 I7 I8 I9 I10 I11] Hj Hc Hk Hk2. tw. split; tw; try done.
  - intros [?|?]%elem_of_cons; [done|auto].
  - intros x [?|Hx]%elem_of_cons; [done|auto].
  - intros x Hx. by destruct (Hk2 x).
  - by apply (split_push ERequest (fun r b => ERequest r ∉ b)).
  - intros x Hx. destruct (I7 x Hx) as [es K]. exists (ECurrent r b :: es). eapply key_push; [done..| |exact K]. tw. exact Hc.
  - intros x e started looking Ek. destruct (Hk _ _ _ _ Ek) as (-> & lk & Ek'). destruct (I8 _ _ _ _ Ek') as (A1 & A2 & A3 & A4 & _). done.
  - by apply (split_push EStart (fun r b => head b = Some (ECurrent r true) /\ ERequest r ∈ b)).
  - by apply (split_push EStart (fun r b => EStart r ∉ b)).
  - apply (split_push (fun r => ECurrent r true) (fun r b => bumps b < 2 ^ 64 -> justified r b)); [done|]. intros x [= -> ->]. auto.
Qed.

Lemma look_inv s n r e started inv l :
  trust_inv (mkWorld s false n (Some (PCommit r e started false)) inv l) ->
  trust_inv (mkWorld s false n (Some (PCommit r e started true)) inv (ELook r :: l)).
Proof.
  intros [I1 I2 I3 I4 I5 I6 I7 I8 I9 I10 I11]. tw. split; tw; try done.
  - intros [?|?]%elem_of_cons; [done|auto].
  - intros x [?|Hx]%elem_of_cons; [done|auto].
  - by apply (split_push ERequest (fun r b => ERequest r ∉ b)).
  - intros x Hx. destruct (I7 x Hx) as [es K]. exists (ELook r :: es). eapply key_push; [done..| |exact K]. tw. done.
  - intros x e' started' looking [= <- <- <- <-]. destruct (I8 _ _ _ _ eq_refl) as (A1 & A2 & A3 & A4 & _). split_and!; try done. intros _.
    destruct (I7 r A1) as [es [K1 _ _ K4 _ _]]. tw. destruct (since_split _ _ _ K1) as [l1 El]. exists [], es, l1. tw. cbn. rewrite K1.
    split_and!; [done|by rewrite El| |auto]. rewrite <- El. intros H%I2. done.
  - by apply (split_push EStart (fun r b => head b = Some (ECurrent r true) /\ ERequest r ∈ b)).
  - by apply (split_push EStart (fun r b => EStart r ∉ b)).
  - by apply (split_push (fun r => ECurrent r true) (fun r b => bumps b < 2 ^ 64 -> justified r b)).
Qed.

(** The callback of a commit is entered at most once for a key. *)
Lemma callback_inv s c n r e inv l :
  head l = Some (ECurrent r true) -> trust_inv (mkWorld s c n (Some (PCommit r e false false)) inv l) ->
  trust_inv (mkWorld s c n (Some (PCommit r e true false)) inv (EStart r :: l)).
Proof.
  intros Hh [I1 I2 I3 I4 I5 I6 I7 I8 I9 I10 I11]. tw. destruct (I8 _ _ _ _ eq_refl) as (A1 & A2 & A3 & A4 & _).
  destruct (I7 r A1) as [es [K1 K2 K3 K4 K5 K6]]. tw. destruct (since_split _ _ _ K1) as [l1 El].
  assert (Hn : EStart r ∉ l).
  { rewrite El. rewrite not_elem_of_app, not_elem_of_cons. split_and!; [auto|done|]. intros (x & y & Exy)%list_elem_of_split.
    apply (I5 es r l1 El). rewrite Exy. apply elem_of_app. right. right. apply (I9 (es ++ ERequest r :: x) r y). rewrite El, Exy. by rewrite <- app_assoc. }
  split; tw; try done.
  - intros [?|?]%elem_of_cons; [done|auto].
  - intros x [?|Hx]%elem_of_cons; [done|auto].
  - by apply (split_push ERequest (fun r b => ERequest r ∉ b)).
  - intros x Hx. assert (x = r) as -> by congruence. exists (EStart r :: es). split; tw; cbn.
    + by rewrite K1.
    + rewrite K2. f_equal; lia.
    + intros Hm. right. auto.
    + intros Hm Ha. destruct (K4 Hm Ha) as (b & a & -> & Hin). by exists (EStart r :: b), a.
    + done.
    + intros Ha. destruct (I6 Ha). congruence.
  - intros x e' started' looking [= <- <- <- <-]. done.
  - apply (split_push EStart (fun r b => head b = Some (ECurrent r true) /\ ERequest r ∈ b)); [done|]. intros x [= <-]. split; [done|]. rewrite El. apply elem_of_app. right. left.
  - apply (split_push EStart (fun r b => EStart r ∉ b)); [done|]. by intros x [= <-].
  - by apply (split_push (fun r => ECurrent r true) (fun r b => bumps b < 2 ^ 64 -> justified r b)).
Qed.

Lemma trust_step_inv w w' : step w w' -> trust_inv w -> trust_inv w'.
Proof.
  intros Hs Hi. destruct Hs.
  - by apply request_inv.
  - by apply request_store_inv.
  - by eapply respond_inv.
  - by eapply authenticate_inv.
  - eapply async_inv; [by left|exact Hi].
  - eapply async_inv; [by right|exact Hi].
  - eapply section_inv. exact Hi.
  - by apply commit_start_inv.
  - destruct c; [|by apply look_inv]. eapply current_inv; [exact Hi|done|tw; by destruct started| |by destruct started].
    intros x e' st' lk. destruct started; [|done]. intros [= <- <- <- <-]. eauto.
  - eapply current_inv; [exact Hi| |done| |done].
    + intros ->%Z.eqb_eq Hb. destruct (ti_commit _ Hi _ _ _ _ eq_refl) as (A1 & A2 & A3 & A4 & A5). tw.
      by apply (looked_justified _ r Hi (A5 eq_refl)).
    + intros x e' st' lk [= <- <- <- <-]. eauto.
  - destruct (n =? e) eqn:E; [apply callback_inv; [done|]|]; (eapply current_inv; [exact Hi| |done| |done]).
    + intros _ Hb. apply Z.eqb_eq in E as ->. destruct (ti_commit _ Hi _ _ _ _ eq_refl) as (A1 & A2 & A3 & A4 & A5). tw.
      by apply (looked_justified _ r Hi (A5 eq_refl)).
    + intros x e' st' lk [= <- <- <- <-]. eauto.
    + done.
    + done.
  - by eapply commit_done_inv.
Qed.

Lemma trust_reachable w : rtc step start w -> trust_inv w.
Proof.
  assert (H : forall a b, rtc step a b -> trust_inv a -> trust_inv b) by (induction 1; eauto using trust_step_inv).
  intros Hs. apply (H _ _ Hs). split; cbn; try done; try (intros; exfalso; by eapply not_elem_of_nil); intros [|x a] r b [=].
Qed.

(** ** Theorems *)

(** C10: A key of a VNC server is trusted for good only as the user and the server meant it.
    However requests, answers, authentications, cancellations, invalidations and commits
    interleave, and with fewer than 2^64 invalidations: whenever the storage worker is told
    that it may go on, the key was asked about, accepted to be remembered and authenticated,
    in this order, nothing was invalidated since it was asked about, and nothing had been
    cancelled when the worker looked; the worker starts only when it was just told so, and
    at most once for a request. *)
Theorem vnc_trust_sound w :
  rtc step start w -> bumps (trace w) < 2 ^ 64 ->
  (forall a r b, trace w = a ++ ECurrent r true :: b -> justified r b)
  /\ (forall a r b, trace w = a ++ EStart r :: b -> head b = Some (ECurrent r true) /\ EStart r ∉ b).
Proof.
  intros Hi%trust_reachable Hb. split.
  - intros a r b E. apply (ti_current _ Hi a r b E). rewrite E, bumps_app in Hb. cbn in Hb. pose proof (bumps_nonneg a). lia.
  - intros a r b E. split; [by destruct (ti_started _ Hi a r b E)|by apply (ti_start_once _ Hi a r b E)].
Qed.

(** What becomes of an RDP certificate: it is accepted silently exactly when it is the
    remembered one or the policy is insecure, remembered without asking exactly on first use
    under the policy that says so, and the user is asked exactly under the prompting policy,
    about the first use or with both fingerprints. *)
Theorem certificate_decision_exact policy remembered presented :
  let same := exists r, remembered = Some r /\ to_ascii_lowercase r = to_ascii_lowercase presented in
  let e := evaluate_certificate_match policy (match_state remembered presented) presented in
  (decision e = Accept <-> policy = Insecure \/ same)
  /\ (decision e = AcceptAndRemember <-> policy = TrustOnFirstUse /\ remembered = None)
  /\ (decision e = PromptUser <-> policy = Prompt /\ ~ same)
  /\ prompt_reason e = (if match policy with Prompt => true | _ => false end then
       match remembered with
       | None => Some ReasonFirstUse
       | Some r => if bool_decide (to_ascii_lowercase r = to_ascii_lowercase presented) then None else Some (ReasonChanged r presented)
       end else None).
Proof.
  cbn zeta. unfold match_state. destruct remembered as [r|]; [destruct (bool_decide _) eqn:E|]; 
    [apply bool_decide_eq_true in E|apply bool_decide_eq_false in E|]; destruct policy; cbn; split_and!; naive_solver.
Qed.

(** ** Examples and witnesses *)

Definition demo_key : key := VncEvents.mkKeyRequest (bs "s") 1 (bs "r") (bs "localhost") 5900 (bs "SHA256:ab") 2048.
Definition demo_trusted : World :=
  mkWorld (mkTrust false 1 0 (Some demo_key) true true true) false 0 (Some (PCommit demo_key 0 true false)) []
    [EStart demo_key; ECurrent demo_key true; ELook demo_key; EAuth demo_key; ERespond demo_key true true; ERequest demo_key].

Lemma demo_trusted_reachable : rtc step start demo_trusted.
Proof.
  eapply rtc_l; [apply (step_request false new_trust 0 [] [] demo_key); reflexivity|].
  eapply rtc_l; [apply step_request_store|].
  eapply rtc_l; [eapply (step_respond _ _ _ _ _ _ demo_key false true true); [done|reflexivity]|].
  eapply rtc_l; [eapply (step_authenticated _ _ _ _ _ demo_key); reflexivity|].
  eapply rtc_l; [apply (step_commit _ _ _ _ _ demo_key); reflexivity|].
  eapply rtc_l; [apply step_look|]. eapply rtc_l; [apply step_enter|]. apply rtc_refl.
Qed.

Lemma vnc_trust_sound_witness :
  justified demo_key [ELook demo_key; EAuth demo_key; ERespond demo_key true true; ERequest demo_key].
Proof. exact (proj1 (vnc_trust_sound demo_trusted demo_trusted_reachable ltac:(vm_compute; reflexivity)) [EStart demo_key] demo_key _ eq_refl). Defined.

(** A cancellation while the worker writes is seen by its next look. *)
Example cancel_stops_commit :
  rtc step demo_trusted (mkWorld (st demo_trusted) true 0 (lock demo_trusted) [] (ECurrent demo_key false :: ECancel :: trace demo_trusted)).
Proof. eapply rtc_l; [apply step_cancel|]. eapply rtc_l; [apply step_look|]. apply rtc_refl. Qed.
