(* ===== verification/LogicalLines.v ===== *)
(** * Logical lines of the terminal

    [nyaterm-terminal/src/logical_lines.rs]: an index of the retained rows of a terminal by
    the logical lines they belong to (a row that soft-wraps continues on the next one). The
    marks of 256 rows are a page of bits, pages are shared between frames and only touched
    ones are updated, and queries count bits and search. The theorems show that the index
    agrees with plain counting over the rows, that an update keeps it so when the rows that
    changed were reported, and that rows, lines, columns and scroll offsets are translated
    back and forth without error. Positions and counts are far from the limits of their
    types, which are not modelled except for the saturating product. *)

From S2P Require Import Prelude.
From stdpp Require Import base numbers option list gmap sets sorting.
From Stdlib Require Import ZArith Lia.

Local Open Scope Z_scope.

Definition PAGE_ROWS : Z := 256.

(** Four words of 64 bits each. *)
Record Page := mkPage { ends : list Z; spacers : list Z }.
Definition empty_page : Page := mkPage [0; 0; 0; 0] [0; 0; 0; 0].

Definition word (words : list Z) (i : nat) : Z := default 0 (words !! i).

Definition set_bit (words : list Z) (row : nat) (value : bool) : list Z :=
  let bit := Z.shiftl 1 (Z.of_nat (row mod 64)) in
  let w := word words (row / 64) in
  <[(row / 64)%nat := if value then Z.lor w bit else Z.ldiff w bit]> words.

Definition set_page (row : nat) (end_ spacer : bool) (p : Page) : Page :=
  mkPage (set_bit (ends p) row end_) (set_bit (spacers p) row spacer).

Definition words_of (sp : bool) (p : Page) : list Z := if sp then spacers p else ends p.

(** [u64::MAX], [checked_shl], [checked_shr] and [count_ones] *)
Definition U64_MAX : Z := 2 ^ 64 - 1.
Definition checked_shl (x : Z) (n : nat) : Z := if (n <? 64)%nat then uwrap 64 (Z.shiftl x (Z.of_nat n)) else 0.
Definition checked_shr (x : Z) (n : nat) : Z := if (n <? 64)%nat then Z.shiftr x (Z.of_nat n) else 0.
Definition count_ones (x : Z) : Z := Z.of_nat (length (List.filter (fun i => Z.testbit x i) (seqZ 0 64))).

Definition count_word (lo_ hi_ : nat) (words : list Z) (i : nat) : Z :=
  let lo := Nat.min (lo_ - i * 64) 64 in
  let hi := Nat.min (hi_ - i * 64) 64 in
  if (hi <=? lo)%nat then 0
  else count_ones (Z.land (Z.land (word words i) (checked_shl U64_MAX lo)) (checked_shr U64_MAX (64 - hi))).

Definition count_page (lo hi : nat) (sp : bool) (p : Page) : Z :=
  let words := words_of sp p in
  count_word lo hi words 0 + count_word lo hi words 1 + count_word lo hi words 2 + count_word lo hi words 3.

Record IndexedPage := mkIndexed { number : Z; data : Page; ends_before : Z; spacers_before : Z }.
Record TerminalLogicalLineIndex := mkIndex { start : Z; end_ : Z; cols : Z; pages : list IndexedPage }.

Definition default_index : TerminalLogicalLineIndex := mkIndex 0 0 0 [].

Definition physical_rows (x : TerminalLogicalLineIndex) : Z := Z.max (end_ x - start x) 0.

(** [clamp] to the rows of a page, as a number of rows. *)
Definition in_page (z : Z) : nat := Z.to_nat (Z.min (Z.max z 0) PAGE_ROWS).

(** The number of elements of a list before the first one that fails. *)
Fixpoint partition_point {A} (f : A -> bool) (l : list A) : nat :=
  match l with [] => O | a :: l' => if f a then S (partition_point f l') else O end.

Definition before (sp : bool) (p : IndexedPage) : Z := if sp then spacers_before p else ends_before p.

Definition rank (x : TerminalLogicalLineIndex) (row : Z) (sp : bool) : Z :=
  let position := Z.min (start x + Z.min row (physical_rows x)) (end_ x) in
  let n := position / PAGE_ROWS in
  let i := partition_point (fun p => number p <? n) (pages x) in
  match pages x !! i ≫= (fun p => if number p =? n then Some p else None) with
  | Some p => before sp p + count_page (in_page (start x - n * PAGE_ROWS)) (Z.to_nat (position - n * PAGE_ROWS)) sp (data p)
  | None =>
    match last (pages x) with
    | Some p => before sp p + count_page (in_page (start x - number p * PAGE_ROWS)) (in_page (end_ x - number p * PAGE_ROWS)) sp (data p)
    | None => 0
    end
  end.

Definition logical_rows (x : TerminalLogicalLineIndex) : Z :=
  if physical_rows x =? 0 then 0 else rank x (physical_rows x - 1) false + 1.

Definition logical_row (x : TerminalLogicalLineIndex) (physical_row : Z) : Z :=
  rank x (Z.min physical_row (sat_sub (physical_rows x) 1)) false.

(** The loop of [physical_row]; the fuel is the length of the interval. *)
Fixpoint lower_bound (fuel : nat) (x : TerminalLogicalLineIndex) (target lo hi : Z) : Z :=
  match fuel with
  | O => lo
  | S fuel' =>
    if lo <? hi then
      let mid := lo + (hi - lo) / 2 in
      if rank x mid false <? target then lower_bound fuel' x target (mid + 1) hi else lower_bound fuel' x target lo mid
    else lo
  end.

Definition physical_row (x : TerminalLogicalLineIndex) (logical_row : Z) : Z :=
  if logical_row =? 0 then 0
  else if logical_rows x <=? logical_row then physical_rows x
  else lower_bound (Z.to_nat (physical_rows x)) x logical_row 0 (physical_rows x).

Definition group (x : TerminalLogicalLineIndex) (row : Z) : Z * Z :=
  let l := logical_row x row in (physical_row x l, physical_row x (l + 1)).

Definition row_width (x : TerminalLogicalLineIndex) (row : Z) : Z := sat_sub (cols x) (rank x (row + 1) true - rank x row true).

Definition logical_col (x : TerminalLogicalLineIndex) (row col : Z) : Z :=
  let first := physical_row x (logical_row x row) in
  sat_sub (sat_mul 64 (row - first) (cols x)) (rank x row true - rank x first true) + col.

(** The loop of [source_position]. *)
Fixpoint last_before (fuel : nat) (x : TerminalLogicalLineIndex) (col lo hi : Z) : Z :=
  match fuel with
  | O => lo
  | S fuel' =>
    if lo + 1 <? hi then
      let mid := lo + (hi - lo) / 2 in
      if logical_col x mid 0 <=? col then last_before fuel' x col mid hi else last_before fuel' x col lo mid
    else lo
  end.

Definition source_position (x : TerminalLogicalLineIndex) (logical_row col : Z) : Z * Z :=
  let first := physical_row x logical_row in
  let last_ := physical_row x (logical_row + 1) in
  if last_ <=? first then (first, 0)
  else
    let lo := last_before (Z.to_nat (last_ - first)) x col first last_ in
    (lo, Z.min (sat_sub col (logical_col x lo 0)) (sat_sub (cols x) 1)).

Definition scroll_metrics (x : TerminalLogicalLineIndex) (physical_offset viewport : Z) : Z * Z :=
  let max := sat_sub (logical_rows x) viewport in
  let top := if physical_offset =? 0 then max
             else Z.min (logical_row x (sat_sub (sat_sub (physical_rows x) viewport) physical_offset)) max in
  (sat_sub max top, max).

Definition physical_offset_for_logical_offset (x : TerminalLogicalLineIndex) (logical_offset viewport : Z) : Z :=
  if logical_offset =? 0 then 0
  else
    let max := sat_sub (logical_rows x) viewport in
    sat_sub (sat_sub (physical_rows x) viewport) (physical_row x (sat_sub max logical_offset)).

(** [delta] is an [i32]. *)
Definition offset_for_logical_scroll (x : TerminalLogicalLineIndex) (offset viewport delta : Z) : Z :=
  let total := physical_rows x in
  let anchor := sat_sub (sat_sub total viewport) offset in
  let logical := if offset =? 0 then sat_sub (logical_rows x) viewport else logical_row x anchor in
  let target := if 0 <=? delta then sat_sub logical delta else logical + Z.abs delta in
  let max := sat_sub (logical_rows x) viewport in
  let target := Z.min target max in
  if target =? max then 0 else sat_sub (sat_sub total viewport) (physical_row x target).

(** ** The cache *)

Record TerminalHistoryState := mkHistory
  { epoch : Z; scroll_count : Z; alternate_screen : bool; scrollback_len : Z; h_cols : Z; viewport_rows : Z }.

Record LogicalLineIndexCache := mkCache
  { c_history : option TerminalHistoryState; c_end : Z; c_pages : gmap Z Page; index : TerminalLogicalLineIndex }.

Definition new_cache : LogicalLineIndexCache := mkCache None 0 ∅ default_index.

Definition bit_set (words : list Z) (row : nat) : bool :=
  negb (Z.land (word words (row / 64)) (Z.shiftl 1 (Z.of_nat (row mod 64))) =? 0).

Definition update_row (position : Z) (flags : bool * bool) (m : gmap Z Page) : gmap Z Page :=
  let n := position / PAGE_ROWS in
  let p := default empty_page (m !! n) in
  let row := Z.to_nat (position mod PAGE_ROWS) in
  <[n := if negb (Bool.eqb (bit_set (ends p) row) (negb flags.1)) || negb (Bool.eqb (bit_set (spacers p) row) flags.2)
         then set_page row (negb flags.1) flags.2 p else p]> m.

(** A [BTreeMap] is iterated in the order of its keys. *)
Definition sorted_keys (m : gmap Z Page) : list Z := merge_sort Z.le (elements (dom m)).

Fixpoint build_pages (start end_ : Z) (m : gmap Z Page) (keys : list Z) (es ss : Z) : list IndexedPage :=
  match keys with
  | [] => []
  | n :: keys' =>
    let p := default empty_page (m !! n) in
    let lo := in_page (start - n * PAGE_ROWS) in
    let hi := in_page (end_ - n * PAGE_ROWS) in
    mkIndexed n p es ss :: build_pages start end_ m keys' (es + count_page lo hi false p) (ss + count_page lo hi true p)
  end.

(** Whether the old pages say nothing about the rows. *)
Definition must_reset (history : TerminalHistoryState) (end_ : Z) (c : LogicalLineIndexCache) : bool :=
  match c_history c with
  | None => true
  | Some old => negb (epoch old =? epoch history) || negb (h_cols old =? h_cols history)
                || negb (Bool.eqb (alternate_screen old) (alternate_screen history)) || (end_ <? c_end c)
  end.

(** The first row that is read in any case. *)
Definition scan_start (history : TerminalHistoryState) (origin : Z) (c : LogicalLineIndexCache) : Z :=
  let start := origin - scrollback_len history in
  if must_reset history (origin + viewport_rows history) c then start
  else Z.max (Z.min (c_end c - match c_history c with Some old => viewport_rows old | None => 0 end) origin) start.

(** [flags] gives the marks of a row of the screen by its line: whether it wraps, and
    whether it ends in a spacer. *)
Definition update (history : TerminalHistoryState) (origin : Z) (damaged : list Z) (flags : Z -> bool * bool) (c : LogicalLineIndexCache) :
    LogicalLineIndexCache :=
  let start := origin - scrollback_len history in
  let end_ := origin + viewport_rows history in
  let m := if must_reset history end_ c then ∅ else c_pages c in
  let m := filter (fun kv : Z * Page => start < (kv.1 + 1) * PAGE_ROWS /\ kv.1 * PAGE_ROWS < end_) m in
  let scan := scan_start history origin c in
  let m := foldl (fun m position => update_row position (flags (position - origin)) m) m (seqZ scan (end_ - scan)) in
  let m := foldl (fun m line =>
             let position := origin + line in
             if (start <=? position) && (position <? end_) && (position <? scan) then update_row position (flags line) m else m)
             m damaged in
  mkCache (Some history) end_ m (mkIndex start end_ (h_cols history) (build_pages start end_ m (sorted_keys m) 0 0)).

(** ** Counting *)

(** The number of [i < n] with [f i]. *)
Fixpoint cnt (f : Z -> bool) (n : nat) : Z := match n with O => 0 | S k => cnt f k + Z.b2z (f (Z.of_nat k)) end.

(** The number of positions from [a] up to [b] that are marked. *)
Definition count_in (f : Z -> bool) (a b : Z) : Z := cnt (fun i => f (a + i)) (Z.to_nat (b - a)).

Lemma cnt_ext f g n : (forall i, 0 <= i < Z.of_nat n -> f i = g i) -> cnt f n = cnt g n.
Proof. induction n as [|n IH]; [done|]. intros H. cbn. rewrite IH, H; [done|lia|]. intros i Hi. apply H. lia. Qed.

Lemma cnt_add f n m : cnt f (n + m) = cnt f n + cnt (fun i => f (Z.of_nat n + i)) m.
Proof. induction m as [|m IH]; [cbn; rewrite Nat.add_0_r; lia|]. rewrite Nat.add_succ_r. cbn. rewrite IH. rewrite Nat2Z.inj_add. lia. Qed.

Lemma cnt_range f n : 0 <= cnt f n <= Z.of_nat n.
Proof. induction n as [|n IH]; [done|]. cbn. destruct (f _); cbn [Z.b2z]; lia. Qed.

Lemma cnt_mask f lo hi n : (lo <= hi)%nat ->
  cnt (fun i => f i && (Z.of_nat lo <=? i) && (i <? Z.of_nat hi)) n = cnt f (Nat.min n hi) - cnt f (Nat.min n lo).
Proof.
  intros Hl. induction n as [|n IH]; [by cbn|]. cbn [cnt]. rewrite IH.
  destruct (Z.leb_spec (Z.of_nat lo) (Z.of_nat n)), (Z.ltb_spec (Z.of_nat n) (Z.of_nat hi)); rewrite ?andb_true_r, ?andb_false_r; cbn [Z.b2z].
  - replace (Nat.min (S n) hi) with (S n) by lia. replace (Nat.min n hi) with n by lia. replace (Nat.min (S n) lo) with (Nat.min n lo) by lia. cbn [cnt]. lia.
  - replace (Nat.min (S n) hi) with (Nat.min n hi) by lia. replace (Nat.min (S n) lo) with (Nat.min n lo) by lia. lia.
  - replace (Nat.min (S n) hi) with (S n) by lia. replace (Nat.min n hi) with n by lia. replace (Nat.min (S n) lo) with (S n) by lia.
    replace (Nat.min n lo) with n by lia. lia.
  - lia.
Qed.

Lemma count_in_split f a b c : a <= b <= c -> count_in f a c = count_in f a b + count_in f b c.
Proof.
  intros H. unfold count_in. replace (Z.to_nat (c - a)) with (Z.to_nat (b - a) + Z.to_nat (c - b))%nat by lia. rewrite cnt_add. f_equal.
  apply cnt_ext. intros i Hi. f_equal. lia.
Qed.

Lemma count_in_ext f g a b : (forall p, a <= p < b -> f p = g p) -> count_in f a b = count_in g a b.
Proof. intros H. apply cnt_ext. intros i Hi. apply H. lia. Qed.

Lemma count_in_shift f d a b : count_in f (d + a) (d + b) = count_in (fun i => f (d + i)) a b.
Proof. unfold count_in. replace (d + b - (d + a)) with (b - a) by lia. apply cnt_ext. intros i _. f_equal. lia. Qed.

Lemma count_in_nil f a : count_in f a a = 0.
Proof. unfold count_in. by rewrite Z.sub_diag. Qed.

Lemma count_in_one f a : count_in f a (a + 1) = Z.b2z (f a).
Proof. unfold count_in. replace (a + 1 - a) with 1 by lia. change (Z.to_nat 1) with 1%nat. cbn [cnt Z.of_nat]. by rewrite Z.add_0_r. Qed.

Lemma count_in_cnt f n m : (n <= m)%nat -> cnt f m - cnt f n = count_in f (Z.of_nat n) (Z.of_nat m).
Proof.
  intros H. unfold count_in. replace (Z.to_nat (Z.of_nat m - Z.of_nat n)) with (m - n)%nat by lia.
  replace m with (n + (m - n))%nat at 1 by lia. rewrite cnt_add. lia.
Qed.

(** ** Bits *)

Lemma filter_seqZ_cnt f n : Z.of_nat (length (List.filter f (seqZ 0 (Z.of_nat n)))) = cnt f n.
Proof.
  induction n as [|n IH]; [done|]. rewrite seqZ_S, List.filter_app, length_app. cbn [List.filter cnt]. rewrite <- IH, Z.add_0_l. destruct (f (Z.of_nat n)); cbn [length Z.b2z]; lia.
Qed.

Lemma count_ones_cnt x : count_ones x = cnt (Z.testbit x) 64.
Proof. exact (filter_seqZ_cnt (Z.testbit x) 64). Qed.

Lemma max_bit i : 0 <= i -> Z.testbit U64_MAX i = (i <? 64).
Proof.
  intros Hi. change U64_MAX with (Z.ones 64). destruct (Z.ltb_spec i 64); [apply Z.ones_spec_low; lia|apply Z.ones_spec_high; lia].
Qed.

Lemma shl_bit lo i : (lo < 64)%nat -> 0 <= i < 64 -> Z.testbit (checked_shl U64_MAX lo) i = (Z.of_nat lo <=? i).
Proof.
  intros Hl Hi. unfold checked_shl. rewrite (proj2 (Nat.ltb_lt _ _)) by done. unfold uwrap. rewrite Z.mod_pow2_bits_low by lia.
  rewrite Z.shiftl_spec by lia. destruct (Z.leb_spec (Z.of_nat lo) i).
  - rewrite max_bit by lia. apply Z.ltb_lt. lia.
  - apply Z.testbit_neg_r. lia.
Qed.

Lemma shr_bit hi i : (0 < hi <= 64)%nat -> 0 <= i -> Z.testbit (checked_shr U64_MAX (64 - hi)) i = (i <? Z.of_nat hi).
Proof.
  intros Hh Hi. unfold checked_shr. rewrite (proj2 (Nat.ltb_lt _ _)) by lia. rewrite Z.shiftr_spec, max_bit by lia.
  destruct (Z.ltb_spec i (Z.of_nat hi)); [apply Z.ltb_lt|apply Z.ltb_ge]; lia.
Qed.

Lemma count_word_cnt lo hi words w :
  (lo <= hi)%nat ->
  count_word lo hi words w = cnt (Z.testbit (word words w)) (Nat.min (hi - w * 64) 64) - cnt (Z.testbit (word words w)) (Nat.min (lo - w * 64) 64).
Proof.
  intros Hl. unfold count_word. set (l := Nat.min (lo - w * 64) 64). set (h := Nat.min (hi - w * 64) 64).
  assert (l <= h)%nat by (unfold l, h; lia). destruct (Nat.leb_spec h l); [replace h with l by lia; lia|].
  rewrite count_ones_cnt. rewrite (cnt_ext _ (fun i => Z.testbit (word words w) i && (Z.of_nat l <=? i) && (i <? Z.of_nat h))).
  - rewrite cnt_mask by done. unfold l, h. f_equal; f_equal; lia.
  - intros i Hi. rewrite !Z.land_spec, shl_bit, shr_bit by (unfold l, h in *; lia). done.
Qed.

(** The bit of a row of a page. *)
Definition pbit (words : list Z) (i : Z) : bool := Z.testbit (word words (Z.to_nat (i / 64))) (i mod 64).

Lemma cnt_word words w r :
  (r <= 64)%nat -> cnt (pbit words) (w * 64 + r) = cnt (pbit words) (w * 64) + cnt (Z.testbit (word words w)) r.
Proof.
  intros Hr. rewrite cnt_add. f_equal. apply cnt_ext. intros i Hi. unfold pbit. rewrite Nat2Z.inj_mul. change (Z.of_nat 64) with 64.
  rewrite Z.add_comm, Z.div_add, Z.mod_add by lia. rewrite Z.div_small, Z.mod_small by lia. by rewrite Z.add_0_l, Nat2Z.id.
Qed.

Lemma cnt_words words k : (k <= 256)%nat ->
  cnt (pbit words) k = cnt (Z.testbit (word words 0)) (Nat.min (k - 0) 64) + cnt (Z.testbit (word words 1)) (Nat.min (k - 64) 64)
    + cnt (Z.testbit (word words 2)) (Nat.min (k - 128) 64) + cnt (Z.testbit (word words 3)) (Nat.min (k - 192) 64).
Proof.
  intros Hk. pose proof (fun w r => cnt_word words w r) as Hw.
  pose proof (Hw 0%nat 64%nat ltac:(lia)) as H0. pose proof (Hw 1%nat 64%nat ltac:(lia)) as H1. pose proof (Hw 2%nat 64%nat ltac:(lia)) as H2.
  change (0 * 64 + 64)%nat with 64%nat in H0. change (1 * 64 + 64)%nat with 128%nat in H1. change (2 * 64 + 64)%nat with 192%nat in H2.
  change (0 * 64)%nat with 0%nat in *. change (1 * 64)%nat with 64%nat in *. change (2 * 64)%nat with 128%nat in *. change (cnt (pbit words) 0) with 0 in *.
  assert (C : (k <= 64 \/ 64 < k <= 128 \/ 128 < k <= 192 \/ 192 < k)%nat) by lia. destruct C as [C|[C|[C|C]]].
  - pose proof (Hw 0%nat k ltac:(lia)) as Hk'. change (0 * 64)%nat with 0%nat in Hk'. change (cnt (pbit words) 0) with 0 in Hk'. cbn [Nat.add] in Hk'.
    rewrite Hk'. replace (Nat.min (k - 0) 64) with k by lia. replace (k - 64)%nat with 0%nat by lia. replace (k - 128)%nat with 0%nat by lia.
    replace (k - 192)%nat with 0%nat by lia. cbn [Nat.min cnt]. lia.
  - pose proof (Hw 1%nat (k - 64)%nat ltac:(lia)) as Hk'. replace (1 * 64 + (k - 64))%nat with k in Hk' by lia. change (1 * 64)%nat with 64%nat in Hk'.
    rewrite Hk', H0. replace (Nat.min (k - 0) 64) with 64%nat by lia. replace (Nat.min (k - 64) 64) with (k - 64)%nat by lia.
    replace (k - 128)%nat with 0%nat by lia. replace (k - 192)%nat with 0%nat by lia. cbn [Nat.min cnt]. lia.
  - pose proof (Hw 2%nat (k - 128)%nat ltac:(lia)) as Hk'. replace (2 * 64 + (k - 128))%nat with k in Hk' by lia. change (2 * 64)%nat with 128%nat in Hk'.
    rewrite Hk', H1, H0. replace (Nat.min (k - 0) 64) with 64%nat by lia. replace (Nat.min (k - 64) 64) with 64%nat by lia.
    replace (Nat.min (k - 128) 64) with (k - 128)%nat by lia. replace (k - 192)%nat with 0%nat by lia. cbn [Nat.min cnt]. lia.
  - pose proof (Hw 3%nat (k - 192)%nat ltac:(lia)) as Hk'. replace (3 * 64 + (k - 192))%nat with k in Hk' by lia. change (3 * 64)%nat with 192%nat in Hk'.
    rewrite Hk', H2, H1, H0. replace (Nat.min (k - 0) 64) with 64%nat by lia. replace (Nat.min (k - 64) 64) with 64%nat by lia.
    replace (Nat.min (k - 128) 64) with 64%nat by lia. replace (Nat.min (k - 192) 64) with (k - 192)%nat by lia. lia.
Qed.

(** [count] counts the marked rows. *)
Lemma count_page_spec lo hi sp p : (lo <= hi <= 256)%nat -> count_page lo hi sp p = count_in (pbit (words_of sp p)) (Z.of_nat lo) (Z.of_nat hi).
Proof.
  intros H. unfold count_page. rewrite !count_word_cnt by lia. rewrite <- count_in_cnt by lia. rewrite !cnt_words by lia.
  change (0 * 64)%nat with 0%nat. change (1 * 64)%nat with 64%nat. change (2 * 64)%nat with 128%nat. change (3 * 64)%nat with 192%nat. lia.
Qed.

Lemma one_bit k n : 0 <= k -> 0 <= n -> Z.testbit (Z.shiftl 1 k) n = (n =? k).
Proof.
  intros Hk Hn. rewrite Z.shiftl_1_l. destruct (Z.eqb_spec n k) as [->|]; [by apply Z.pow2_bits_true|apply Z.pow2_bits_false; lia].
Qed.

Lemma bit_set_pbit words row : bit_set words row = pbit words (Z.of_nat row).
Proof.
  unfold bit_set, pbit. assert (E1 : Z.to_nat (Z.of_nat row / 64) = (row / 64)%nat) by (change 64 with (Z.of_nat 64); rewrite <- Nat2Z.inj_div; apply Nat2Z.id).
  assert (E2 : Z.of_nat row mod 64 = Z.of_nat (row mod 64)) by (change 64 with (Z.of_nat 64) at 1; by rewrite <- Nat2Z.inj_mod). rewrite E1, E2. set (w := word words (row / 64)). set (k := Z.of_nat (row mod 64)).
  assert (0 <= k) by (unfold k; lia). destruct (Z.testbit w k) eqn:E.
  - apply negb_true_iff, Z.eqb_neq. intros H0. assert (Hb : Z.testbit (Z.land w (Z.shiftl 1 k)) k = true).
    { rewrite Z.land_spec, E, one_bit by lia. by rewrite Z.eqb_refl. }
    rewrite H0, Z.bits_0 in Hb. done.
  - apply negb_false_iff, Z.eqb_eq. apply Z.bits_inj'. intros n Hn. rewrite Z.bits_0, Z.land_spec, one_bit by lia.
    destruct (Z.eqb_spec n k) as [->|]; [by rewrite E|apply andb_false_r].
Qed.

Lemma set_bit_length words row v : length (set_bit words row v) = length words.
Proof. apply length_insert. Qed.

Lemma set_bit_pbit words row v i :
  length words = 4%nat -> (row < 256)%nat -> 0 <= i < 256 -> pbit (set_bit words row v) i = if i =? Z.of_nat row then v else pbit words i.
Proof.
  intros Hl Hr Hi. unfold pbit, set_bit, word. set (q := (row / 64)%nat).
  assert (Hq : (q < 4)%nat) by (unfold q; apply Nat.Div0.div_lt_upper_bound; lia).
  assert (Hm : 0 <= i mod 64 < 64) by (apply Z.mod_pos_bound; lia). assert (Hrow : Z.of_nat row = 64 * Z.of_nat q + Z.of_nat (row mod 64)).
  { unfold q. pose proof (Nat.div_mod_eq row 64). lia. }
  pose proof (Nat.mod_upper_bound row 64 ltac:(lia)). pose proof (Z.div_mod i 64 ltac:(lia)) as Hdm.
  destruct (decide (Z.to_nat (i / 64) = q)) as [E|E].
  - rewrite E, list_lookup_insert_eq by lia. cbn [from_option id]. assert (Hq' : i / 64 = Z.of_nat q) by (assert (0 <= i / 64) by (apply Z.div_pos; lia); lia).
    destruct v; [rewrite Z.lor_spec|rewrite Z.ldiff_spec]; rewrite one_bit by lia;
      destruct (Z.eqb_spec (i mod 64) (Z.of_nat (row mod 64))), (Z.eqb_spec i (Z.of_nat row)); try lia;
      rewrite ?orb_true_r, ?orb_false_r, ?andb_false_r, ?andb_true_r; done.
  - rewrite list_lookup_insert_ne by done. destruct (Z.eqb_spec i (Z.of_nat row)); [|done]. destruct E.
    apply Nat2Z.inj. rewrite Z2Nat.id by (apply Z.div_pos; lia). symmetry. apply Z.div_unique with (Z.of_nat (row mod 64)); lia.
Qed.

(** ** The marks of positions *)

Definition page_ok (p : Page) : Prop := length (ends p) = 4%nat /\ length (spacers p) = 4%nat.
Definition pages_ok (m : gmap Z Page) : Prop := forall n p, m !! n = Some p -> page_ok p.

Definition mark (m : gmap Z Page) (sp : bool) (position : Z) : bool :=
  pbit (words_of sp (default empty_page (m !! (position / PAGE_ROWS)))) (position mod PAGE_ROWS).

(** The mark that the flags of a row ask for. *)
Definition wanted (sp : bool) (flags : bool * bool) : bool := if sp then flags.2 else negb flags.1.

Lemma default_ok m n : pages_ok m -> page_ok (default empty_page (m !! n)).
Proof. intros H. destruct (m !! n) as [p|] eqn:E; [by apply (H n)|done]. Qed.

Lemma update_row_ok position flags m : pages_ok m -> pages_ok (update_row position flags m).
Proof.
  intros H n p. unfold update_row. rewrite lookup_insert_Some. intros [[<- <-]|[_ Hp]]; [|by apply (H n)].
  pose proof (default_ok m (position / PAGE_ROWS) H) as [H1 H2]. destruct (_ || _); [|done]. split; cbn [set_page ends spacers]; by rewrite set_bit_length.
Qed.

Lemma update_row_mark position flags m sp q :
  pages_ok m -> mark (update_row position flags m) sp q = if q =? position then wanted sp flags else mark m sp q.
Proof.
  intros Hok. unfold mark, update_row. set (n := position / PAGE_ROWS). set (row := Z.to_nat (position mod PAGE_ROWS)).
  pose proof (Z.mod_pos_bound position PAGE_ROWS ltac:(unfold PAGE_ROWS; lia)) as Hp. pose proof (Z.mod_pos_bound q PAGE_ROWS ltac:(unfold PAGE_ROWS; lia)) as Hq.
  assert (Hrow : Z.of_nat row = position mod PAGE_ROWS) by (unfold row; lia). unfold PAGE_ROWS in Hp, Hq.
  destruct (decide (q / PAGE_ROWS = n)) as [E|E].
  - rewrite E, lookup_insert_eq. cbn [from_option id]. fold n. pose proof (default_ok m n Hok) as [H1 H2]. set (p := default empty_page (m !! n)) in *.
    assert (Heq : (q mod PAGE_ROWS =? Z.of_nat row) = (q =? position)).
    { rewrite Hrow. unfold n in E. pose proof (Z.div_mod q PAGE_ROWS ltac:(unfold PAGE_ROWS; lia)). pose proof (Z.div_mod position PAGE_ROWS ltac:(unfold PAGE_ROWS; lia)).
      destruct (Z.eqb_spec (q mod PAGE_ROWS) (position mod PAGE_ROWS)), (Z.eqb_spec q position); try done; [exfalso|subst; done]. unfold PAGE_ROWS in *. lia. }
    rewrite <- Heq. destruct (_ || _) eqn:Ed.
    + destruct sp; cbn [words_of set_page ends spacers wanted]; apply set_bit_pbit; unfold PAGE_ROWS in *; lia.
    + apply orb_false_iff in Ed as [D1%negb_false_iff%eqb_prop D2%negb_false_iff%eqb_prop]. rewrite bit_set_pbit in D1, D2.
      destruct (Z.eqb_spec (q mod PAGE_ROWS) (Z.of_nat row)) as [->|]; [|done]. by destruct sp.
  - rewrite lookup_insert_ne by done. destruct (Z.eqb_spec q position) as [->|]; done.
Qed.

Lemma update_row_dom position flags m : dom (update_row position flags m) = {[position / PAGE_ROWS]} ∪ dom m.
Proof. apply dom_insert_L. Qed.

(** ** The pages of the index *)

Lemma seqZ_sorted k n : StronglySorted Z.le (seqZ k (Z.of_nat n)).
Proof.
  revert k. induction n as [|n IH]; intros k; [constructor|]. rewrite seqZ_cons by lia. replace (Z.pred (Z.of_nat (S n))) with (Z.of_nat n) by lia.
  constructor; [apply IH|]. apply Forall_forall. intros x Hx%elem_of_seqZ. lia.
Qed.

Lemma sorted_keys_seq m k n : (forall i, i ∈ dom m <-> k <= i < k + Z.of_nat n) -> sorted_keys m = seqZ k (Z.of_nat n).
Proof.
  intros Hd. unfold sorted_keys. apply (StronglySorted_unique Z.le).
  - apply (StronglySorted_merge_sort Z.le).
  - apply seqZ_sorted.
  - rewrite merge_sort_Permutation. apply NoDup_Permutation; [apply NoDup_elements|apply NoDup_seqZ|].
    intros x. rewrite elem_of_elements, Hd, elem_of_seqZ. lia.
Qed.

Section pages.
  Context (s e : Z) (m : gmap Z Page) (Hse : s < e).

(** A position, not outside the retained rows. *)
Let inside (p : Z) : Z := Z.min (Z.max s p) e.

(** The marked positions before [p]. *)
Let before_ (sp : bool) (p : Z) : Z := count_in (mark m sp) s (inside p).

Lemma page_count n a b sp :
  (a <= b <= 256)%nat -> count_page a b sp (default empty_page (m !! n)) = count_in (mark m sp) (n * PAGE_ROWS + Z.of_nat a) (n * PAGE_ROWS + Z.of_nat b).
Proof.
  intros H. rewrite count_page_spec by done. rewrite count_in_shift. apply count_in_ext. intros i Hi. unfold mark.
  unfold PAGE_ROWS. rewrite Z.add_comm, Z.div_add, Z.mod_add, Z.div_small, Z.mod_small by lia. done.
Qed.

Lemma page_step n sp :
  s < (n + 1) * PAGE_ROWS -> n * PAGE_ROWS < e ->
  before_ sp (n * PAGE_ROWS) + count_page (in_page (s - n * PAGE_ROWS)) (in_page (e - n * PAGE_ROWS)) sp (default empty_page (m !! n))
  = before_ sp ((n + 1) * PAGE_ROWS).
Proof.
  intros H1 H2. unfold in_page, PAGE_ROWS in *. rewrite page_count by (unfold PAGE_ROWS; lia). unfold PAGE_ROWS, before_.
  replace (n * 256 + Z.of_nat (Z.to_nat (Z.min (Z.max (s - n * 256) 0) 256))) with (inside (n * 256)) by (unfold inside; lia).
  replace (n * 256 + Z.of_nat (Z.to_nat (Z.min (Z.max (e - n * 256) 0) 256))) with (inside ((n + 1) * 256)) by (unfold inside; lia).
  symmetry. apply count_in_split. unfold inside. lia.
Qed.

Definition page_at (n : Z) : IndexedPage :=
  mkIndexed n (default empty_page (m !! n)) (before_ false (n * PAGE_ROWS)) (before_ true (n * PAGE_ROWS)).

Lemma build_pages_seq n k :
  (forall i, k <= i < k + Z.of_nat n -> s < (i + 1) * PAGE_ROWS /\ i * PAGE_ROWS < e) ->
  build_pages s e m (seqZ k (Z.of_nat n)) (before_ false (k * PAGE_ROWS)) (before_ true (k * PAGE_ROWS)) = page_at <$> seqZ k (Z.of_nat n).
Proof.
  revert k. induction n as [|n IH]; intros k Hk; [done|]. rewrite seqZ_cons by lia. replace (Z.pred (Z.of_nat (S n))) with (Z.of_nat n) by lia.
  cbn [build_pages fmap list_fmap]. destruct (Hk k ltac:(lia)) as [H1 H2]. f_equal. rewrite !page_step by done.
  replace (Z.succ k) with (k + 1) by lia. apply IH. intros i Hi. apply Hk. lia.
Qed.

Lemma partition_pages n k target :
  partition_point (fun p => number p <? target) (page_at <$> seqZ k (Z.of_nat n)) = Z.to_nat (Z.min (target - k) (Z.of_nat n)).
Proof.
  revert k. induction n as [|n IH]; intros k; [rewrite seqZ_nil by lia; cbn [fmap list_fmap partition_point]; lia|]. rewrite seqZ_cons by lia. replace (Z.pred (Z.of_nat (S n))) with (Z.of_nat n) by lia.
  cbn [partition_point fmap list_fmap page_at number]. destruct (Z.ltb_spec k target); [rewrite IH|]; lia.
Qed.
End pages.

Definition index_of (s e c : Z) (m : gmap Z Page) : TerminalLogicalLineIndex := mkIndex s e c (build_pages s e m (sorted_keys m) 0 0).

(** The pages are those of the retained rows. *)
Definition covers (s e : Z) (m : gmap Z Page) : Prop := forall n, n ∈ dom m <-> s < (n + 1) * PAGE_ROWS /\ n * PAGE_ROWS < e.

Lemma covered_pages s e c m :
  s < e -> covers s e m ->
  pages (index_of s e c m) = page_at s e m <$> seqZ (s / PAGE_ROWS) (Z.of_nat (Z.to_nat ((e - 1) / PAGE_ROWS - s / PAGE_ROWS + 1))).
Proof.
  intros Hse Hc. unfold index_of. cbn [pages]. set (k := s / PAGE_ROWS). set (n := Z.to_nat _).
  pose proof (Z.div_mod s PAGE_ROWS ltac:(done)). pose proof (Z.mod_pos_bound s PAGE_ROWS ltac:(done)).
  pose proof (Z.div_mod (e - 1) PAGE_ROWS ltac:(done)). pose proof (Z.mod_pos_bound (e - 1) PAGE_ROWS ltac:(done)).
  assert (Hkn : k <= (e - 1) / PAGE_ROWS) by (apply Z.div_le_mono; [done|lia]).
  assert (Hn : Z.of_nat n = (e - 1) / PAGE_ROWS - k + 1) by (unfold n; lia). fold k in H.
  assert (Hr : forall i, s < (i + 1) * PAGE_ROWS /\ i * PAGE_ROWS < e <-> k <= i < k + Z.of_nat n) by (intros i; unfold PAGE_ROWS in *; lia).
  rewrite (sorted_keys_seq m k n) by (intros i; rewrite <- Hr; apply Hc).
  pose proof (build_pages_seq s e m Hse n k (fun i Hi => proj2 (Hr i) Hi)) as Hb.
  cbv zeta beta in Hb. replace (Z.min (Z.max s (k * PAGE_ROWS)) e) with s in Hb by lia. by rewrite !count_in_nil in Hb.
Qed.

(** [rank] counts the marked rows before a row. *)
Lemma rank_spec s e c m row sp :
  s < e -> covers s e m -> 0 <= row -> rank (index_of s e c m) row sp = count_in (mark m sp) s (s + Z.min row (e - s)).
Proof.
  intros Hse Hc Hr. unfold rank. rewrite (covered_pages s e c m Hse Hc). set (k := s / PAGE_ROWS). set (n := Z.to_nat _).
  unfold physical_rows. cbn [start end_ index_of]. rewrite (Z.max_l (e - s) 0) by lia. rewrite (Z.min_l (s + Z.min row (e - s)) e) by lia. set (p := s + Z.min row (e - s)).
  assert (Hp : s <= p <= e) by (unfold p; lia). clearbody p.
  pose proof (Z.div_mod s PAGE_ROWS ltac:(done)) as D1. pose proof (Z.mod_pos_bound s PAGE_ROWS ltac:(done)) as M1. fold k in D1.
  pose proof (Z.div_mod (e - 1) PAGE_ROWS ltac:(done)) as D2. pose proof (Z.mod_pos_bound (e - 1) PAGE_ROWS ltac:(done)) as M2.
  pose proof (Z.div_mod p PAGE_ROWS ltac:(done)) as D3. pose proof (Z.mod_pos_bound p PAGE_ROWS ltac:(done)) as M3. set (q := p / PAGE_ROWS) in *.
  assert (Hkq : k <= q) by (apply Z.div_le_mono; [done|lia]). assert (Hn : Z.of_nat n = (e - 1) / PAGE_ROWS - k + 1).
  { assert (k <= (e - 1) / PAGE_ROWS) by (apply Z.div_le_mono; [done|lia]). unfold n. lia. }
  rewrite partition_pages.
  assert (Hsp : forall x, before sp (page_at s e m x) = count_in (mark m sp) s (Z.min (Z.max s (x * PAGE_ROWS)) e)) by (by destruct sp).
  destruct (decide (q * PAGE_ROWS < e)) as [Hq|Hq].
  - assert (Hqn : k <= q < k + Z.of_nat n) by (unfold PAGE_ROWS in *; lia). replace (Z.min (q - k) (Z.of_nat n)) with (q - k) by lia.
    rewrite list_lookup_fmap, (lookup_seqZ_lt k (Z.of_nat n) (Z.to_nat (q - k))) by lia. replace (k + Z.of_nat (Z.to_nat (q - k))) with q by lia.
    cbn [fmap option_fmap option_map mbind option_bind page_at number]. rewrite Z.eqb_refl. rewrite Hsp. cbn [data page_at].
    unfold in_page, PAGE_ROWS in *. rewrite page_count by (unfold PAGE_ROWS; lia). unfold PAGE_ROWS.
    replace (q * 256 + Z.of_nat (Z.to_nat (Z.min (Z.max (s - q * 256) 0) 256))) with (Z.min (Z.max s (q * 256)) e) by lia.
    replace (q * 256 + Z.of_nat (Z.to_nat (p - q * 256))) with p by lia. symmetry. apply count_in_split. lia.
  - assert (Hpe : p = e /\ q = k + Z.of_nat n) by (unfold PAGE_ROWS in *; lia). destruct Hpe as [-> Hqk].
    replace (Z.to_nat (Z.min (q - k) (Z.of_nat n))) with n by lia. rewrite (proj2 (lookup_ge_None _ n)) by (rewrite length_fmap, length_seqZ; lia).
    cbn [mbind option_bind]. destruct n as [|n']; [lia|]. rewrite seqZ_S, fmap_app, last_app. cbn [fmap list_fmap last from_option]. rewrite Hsp. cbn [number data page_at].
    set (x := k + Z.of_nat n'). rewrite page_step by (unfold x, PAGE_ROWS in *; lia). f_equal. unfold x, PAGE_ROWS in *. lia.
Qed.

(** ** Updates *)

Lemma fold_rows (g : Z -> bool * bool) ps m :
  pages_ok m ->
  let m' := foldl (fun m p => update_row p (g p) m) m ps in
  pages_ok m' /\ (forall sp q, mark m' sp q = if bool_decide (q ∈ ps) then wanted sp (g q) else mark m sp q)
  /\ (forall n, n ∈ dom m' <-> n ∈ dom m \/ exists p, p ∈ ps /\ n = p / PAGE_ROWS).
Proof.
  revert m. induction ps as [|p ps IH]; intros m Hm; cbn [foldl].
  - split_and!; [done|done|]. intros n. split; [by left|]. intros [?|(p & ?%not_elem_of_nil & _)]; done.
  - destruct (IH (update_row p (g p) m) (update_row_ok _ _ _ Hm)) as (H1 & H2 & H3). split_and!; [done| |].
    + intros sp q. rewrite H2, update_row_mark by done. destruct (Z.eqb_spec q p) as [->|Hne].
      * rewrite (bool_decide_eq_true_2 (p ∈ p :: ps)) by left. by case_bool_decide.
      * case_bool_decide as Hq; [rewrite bool_decide_eq_true_2; [done|by right]|]. rewrite bool_decide_eq_false_2; [done|].
        intros [?|?]%elem_of_cons; done.
    + intros n. rewrite H3, update_row_dom, elem_of_union, elem_of_singleton. split.
      * intros [[->|?]|(x & ? & ->)]; [right; exists p; split; [left|done]|by left|right; exists x; split; [by right|done]].
      * intros [?|(x & [->|?]%elem_of_cons & ->)]; [by left; right|by left; left|right; eauto].
Qed.

(** The reported rows that are not read anyway, as positions. *)
Definition reported (s e scan origin : Z) (damaged : list Z) : list Z :=
  List.filter (fun p => (s <=? p) && (p <? e) && (p <? scan)) ((fun line => origin + line) <$> damaged).

Lemma fold_damaged s e scan origin damaged (flags : Z -> bool * bool) m :
  foldl (fun m line => if (s <=? origin + line) && (origin + line <? e) && (origin + line <? scan) then update_row (origin + line) (flags line) m else m) m damaged
  = foldl (fun m p => update_row p (flags (p - origin)) m) m (reported s e scan origin damaged).
Proof.
  revert m. induction damaged as [|line ls IH]; intros m; [done|]. unfold reported. cbn. destruct (_ && _ && _); cbn; rewrite IH; [|done].
  replace (origin + line - origin) with line by lia. done.
Qed.

(** The pages show the rows from [s] to [e] of a screen. *)
Record shows (m : gmap Z Page) (s e origin : Z) (flags : Z -> bool * bool) : Prop := {
  sh_ok : pages_ok m;
  sh_covers : covers s e m;
  sh_marks : forall sp p, s <= p < e -> mark m sp p = wanted sp (flags (p - origin)) }.

(** The cache describes the screen with this history, origin and rows. *)
Record cache_ok (c : LogicalLineIndexCache) (h : TerminalHistoryState) (origin : Z) (flags : Z -> bool * bool) : Prop := {
  co_history : c_history c = Some h;
  co_end : c_end c = origin + viewport_rows h;
  co_pages : shows (c_pages c) (origin - scrollback_len h) (origin + viewport_rows h) origin flags;
  co_index : index c = index_of (origin - scrollback_len h) (origin + viewport_rows h) (h_cols h) (c_pages c) }.

Lemma page_of p s e : s <= p < e -> s < (p / PAGE_ROWS + 1) * PAGE_ROWS /\ p / PAGE_ROWS * PAGE_ROWS < e.
Proof. intros H. pose proof (Z.div_mod p PAGE_ROWS ltac:(done)). pose proof (Z.mod_pos_bound p PAGE_ROWS ltac:(done)). unfold PAGE_ROWS in *. lia. Qed.

Lemma retain_mark m s e sp p :
  s <= p < e -> mark (filter (fun kv : Z * Page => s < (kv.1 + 1) * PAGE_ROWS /\ kv.1 * PAGE_ROWS < e) m) sp p = mark m sp p.
Proof.
  intros H. unfold mark. do 3 f_equal. destruct (m !! (p / PAGE_ROWS)) as [x|] eqn:E.
  - apply map_lookup_filter_Some. split; [done|]. by apply page_of.
  - apply map_lookup_filter_None. by left.
Qed.

(** What the rows that are not read must have been before. *)
Definition kept (c : LogicalLineIndexCache) (h : TerminalHistoryState) (origin : Z) (damaged : list Z) (flags : Z -> bool * bool) : Prop :=
  must_reset h (origin + viewport_rows h) c = true
  \/ exists h0 origin0 flags0, cache_ok c h0 origin0 flags0 /\ 0 <= viewport_rows h0 /\ origin0 - scrollback_len h0 <= origin - scrollback_len h
       /\ forall p, origin - scrollback_len h <= p < Z.min origin0 origin -> p - origin ∉ damaged -> flags (p - origin) = flags0 (p - origin0).

Lemma update_shows h origin damaged flags c :
  0 <= scrollback_len h -> 0 < viewport_rows h ->
  kept c h origin damaged flags -> cache_ok (update h origin damaged flags c) h origin flags.
Proof.
  intros Hs Hv Hk. unfold update. set (s := origin - scrollback_len h). set (e := origin + viewport_rows h). cbv zeta.
  set (scan := scan_start h origin c). rewrite (fold_damaged s e scan origin damaged flags). set (m0 := if must_reset h e c then ∅ else c_pages c).
  set (m1 := filter _ m0).
  assert (Hok1 : pages_ok m1).
  { intros n p [Hp _]%map_lookup_filter_Some. unfold m0 in Hp. destruct (must_reset h e c) eqn:Er; [by rewrite lookup_empty in Hp|].
    destruct Hk as [Hk|(h0 & o0 & f0 & Hc & _)]; [unfold e in Er; congruence|]. exact (sh_ok _ _ _ _ _ (co_pages _ _ _ _ Hc) n p Hp). }
  assert (Hscan : s <= scan <= origin).
  { unfold scan, scan_start. fold s e. destruct (must_reset h e c); unfold s; lia. }
  destruct (fold_rows (fun p => flags (p - origin)) (seqZ scan (e - scan)) m1 Hok1) as (Hok2 & Hm2 & Hd2). set (m2 := foldl _ m1 _) in *.
  destruct (fold_rows (fun p => flags (p - origin)) (reported s e scan origin damaged) m2 Hok2) as (Hok3 & Hm3 & Hd3). set (m3 := foldl _ m2 _) in *.
  (* rows before [scan] *)
  assert (Hold : forall p, s <= p < scan -> p / PAGE_ROWS ∈ dom m1
     /\ (p - origin ∉ damaged -> forall sp, mark m1 sp p = wanted sp (flags (p - origin)))).
  { intros p Hp. unfold m1, m0. assert (Er : must_reset h e c = false).
    { destruct (must_reset h e c) eqn:Er; [|done]. unfold scan, scan_start in Hp. fold s e in Hp. rewrite Er in Hp. lia. }
    rewrite Er. destruct Hk as [Hk|(h0 & o0 & f0 & Hc & Hv0 & Hle & Hsame)]; [unfold e in Er; congruence|].
    destruct (co_pages _ _ _ _ Hc) as [_ Hcov Hsh].
    assert (Hps : p < Z.min o0 origin).
    { unfold scan, scan_start in Hp. fold s e in Hp. rewrite Er, (co_history _ _ _ _ Hc), (co_end _ _ _ _ Hc) in Hp. lia. }
    fold s in Hle, Hsame. assert (Hin : o0 - scrollback_len h0 <= p < o0 + viewport_rows h0) by lia. split.
    - apply elem_of_dom. assert (Hn : p / PAGE_ROWS ∈ dom (c_pages c)) by (apply Hcov, page_of; done). apply elem_of_dom in Hn as [x Hx].
      exists x. apply map_lookup_filter_Some. split; [done|]. cbn [fst]. apply page_of. unfold s, e in *. lia.
    - intros Hnd sp. rewrite retain_mark by (unfold s, e in *; lia). rewrite Hsh by done. rewrite Hsame by (done || lia). done. }
  split; [done|done| |done]. cbn [c_pages]. split; [done| |].
  - intros n. rewrite Hd3, Hd2. split.
    + intros [[Hn|(p & Hp%elem_of_seqZ & ->)]|(p & Hp & ->)].
      * apply elem_of_dom in Hn as [x [_ Hx]%map_lookup_filter_Some]. exact Hx.
      * apply page_of. unfold s, e in *. lia.
      * apply list_elem_of_In, List.filter_In in Hp as [_ Hp]. rewrite !andb_true_iff, Z.leb_le, !Z.ltb_lt in Hp. apply page_of. lia.
    + intros [N1 N2]. set (p := Z.max s (n * PAGE_ROWS)). assert (Hp : s <= p < e /\ p / PAGE_ROWS = n).
      { unfold p. split; [unfold s, e in *; lia|]. symmetry. apply Z.div_unique with (Z.max s (n * PAGE_ROWS) - PAGE_ROWS * n); unfold PAGE_ROWS in *; lia. }
      destruct Hp as [Hp Hn]. left. destruct (decide (p < scan)).
      * left. rewrite <- Hn. apply Hold. lia.
      * right. exists p. split; [apply elem_of_seqZ; lia|done].
  - intros sp p Hp. rewrite Hm3. case_bool_decide as Hrep; [done|]. rewrite Hm2. case_bool_decide as Hsc; [done|].
    rewrite elem_of_seqZ in Hsc. assert (Hlt : s <= p < scan) by lia. apply Hold; [done|]. intros Hd. apply Hrep.
    apply list_elem_of_In, List.filter_In. split.
    + apply list_elem_of_In, list_elem_of_fmap. exists (p - origin). split; [lia|done].
    + rewrite !andb_true_iff, Z.leb_le, !Z.ltb_lt. lia.
Qed.

(** ** Queries *)

Section queries.
  Context (x : TerminalLogicalLineIndex) (f : bool -> Z -> bool) (n : Z).
  Context (Hn : 0 < n) (Hrows : physical_rows x = n).
  Context (Hrank : forall row sp, 0 <= row -> rank x row sp = count_in (f sp) 0 (Z.min row n)).

Let R (sp : bool) (r : Z) : Z := count_in (f sp) 0 r.

Lemma rank_in row sp : 0 <= row <= n -> rank x row sp = R sp row.
Proof. intros H. rewrite Hrank by lia. by rewrite Z.min_l by lia. Qed.

Lemma R_step sp r : 0 <= r -> R sp (r + 1) = R sp r + Z.b2z (f sp r).
Proof. intros H. unfold R. rewrite (count_in_split _ 0 r (r + 1)) by lia. by rewrite count_in_one. Qed.

Lemma R_zero sp : R sp 0 = 0.
Proof. apply count_in_nil. Qed.

Lemma R_mono sp a b : 0 <= a <= b -> 0 <= R sp b - R sp a <= b - a.
Proof.
  intros H. unfold R. rewrite (count_in_split _ 0 a b) by lia. unfold count_in at 2 5. pose proof (cnt_range (fun i => f sp (a + i)) (Z.to_nat (b - a))). lia.
Qed.

Lemma logical_rows_R : logical_rows x = R false (n - 1) + 1.
Proof. unfold logical_rows. rewrite Hrows. rewrite (proj2 (Z.eqb_neq n 0)) by lia. by rewrite rank_in by lia. Qed.

Lemma logical_row_R r : 0 <= r < n -> logical_row x r = R false r.
Proof. intros H. unfold logical_row. rewrite Hrows. unfold sat_sub. rewrite Z.min_l by lia. apply rank_in. lia. Qed.

Lemma lower_bound_spec fuel target lo hi :
  0 <= lo <= hi -> hi <= n -> hi - lo <= Z.of_nat fuel -> (forall r, 0 <= r < lo -> R false r < target) -> (hi = n \/ target <= R false hi) ->
  let res := lower_bound fuel x target lo hi in
  lo <= res <= hi /\ (forall r, 0 <= r < res -> R false r < target) /\ (res = n \/ target <= R false res).
Proof.
  revert lo hi. induction fuel as [|fuel IH]; intros lo hi Hl Hh Hf Hb Ht; cbn [lower_bound].
  - replace hi with lo in Ht by lia. split_and!; try done; lia.
  - destruct (Z.ltb_spec lo hi) as [Hlt|Hge]; [|replace hi with lo in Ht by lia; split_and!; try done; lia].
    set (mid := lo + (hi - lo) / 2). assert (Hm : lo <= mid < hi).
    { unfold mid. pose proof (Z.div_pos (hi - lo) 2). pose proof (Z.div_lt_upper_bound (hi - lo) 2 (hi - lo)). lia. }
    rewrite rank_in by lia. destruct (Z.ltb_spec (R false mid) target).
    + destruct (IH (mid + 1) hi) as (A & B & C); try done; try lia.
      { intros r Hr. pose proof (R_mono false r mid). lia. }
      split_and!; try done; lia.
    + destruct (IH lo mid) as (A & B & C); try done; try lia. split_and!; try done; lia.
Qed.

(** The first row of a line. *)
Lemma physical_row_spec l :
  0 <= l < logical_rows x ->
  0 <= physical_row x l < n /\ R false (physical_row x l) = l /\ forall r, 0 <= r < physical_row x l -> R false r < l.
Proof.
  intros Hl. rewrite logical_rows_R in Hl. unfold physical_row. destruct (Z.eqb_spec l 0) as [->|Hne].
  - rewrite R_zero. split_and!; lia.
  - rewrite logical_rows_R, (proj2 (Z.leb_gt _ _)) by lia. rewrite Hrows.
    destruct (lower_bound_spec (Z.to_nat n) l 0 n) as (A & B & C); [lia|lia|lia|intros r Hr; lia|by left|]. set (res := lower_bound _ _ _ _ _) in *.
    assert (Hres : res <= n - 1). { destruct (decide (res <= n - 1)); [done|]. specialize (B (n - 1)). lia. }
    assert (Hge : l <= R false res) by (destruct C; lia). assert (res <> 0) by (intros E; rewrite E, R_zero in Hge; lia).
    specialize (B (res - 1)) as Bp. pose proof (R_mono false (res - 1) res). split_and!; [lia|lia|lia|done].
Qed.

Lemma physical_row_last l : logical_rows x <= l -> physical_row x l = n.
Proof.
  intros Hl. pose proof logical_rows_R as HL. pose proof (R_mono false 0 (n - 1)) as HM. rewrite R_zero in HM. unfold physical_row.
  rewrite (proj2 (Z.eqb_neq l 0)) by lia. by rewrite (proj2 (Z.leb_le _ _)).
Qed.

(** A row lies in the line it is given to. *)
Lemma row_in_line r : 0 <= r < n -> 0 <= logical_row x r < logical_rows x /\ physical_row x (logical_row x r) <= r < physical_row x (logical_row x r + 1).
Proof.
  intros Hr. rewrite logical_row_R, logical_rows_R by done. pose proof (R_mono false 0 r) as M0. rewrite R_zero in M0. pose proof (R_mono false r (n - 1)) as M1.
  assert (Hl : 0 <= R false r < logical_rows x) by (rewrite logical_rows_R; lia). split; [rewrite logical_rows_R in Hl; lia|]. split.
  - destruct (physical_row_spec _ Hl) as (A & B & C). destruct (Z.le_gt_cases (physical_row x (R false r)) r); [done|]. specialize (C r). lia.
  - destruct (decide (R false r + 1 < logical_rows x)) as [Hlt|Hge].
    + destruct (physical_row_spec (R false r + 1)) as (A & B & C); [lia|]. destruct (Z.le_gt_cases (physical_row x (R false r + 1)) r); [|done].
      pose proof (R_mono false (physical_row x (R false r + 1)) r). lia.
    + rewrite physical_row_last by lia. lia.
Qed.

Lemma line_of_first l : 0 <= l < logical_rows x -> logical_row x (physical_row x l) = l.
Proof. intros Hl. destruct (physical_row_spec l Hl) as (A & B & _). by rewrite logical_row_R. Qed.

Lemma line_rows l r : 0 <= l < logical_rows x -> physical_row x l <= r < physical_row x (l + 1) -> 0 <= r < n /\ logical_row x r = l.
Proof.
  intros Hl Hr. destruct (physical_row_spec l Hl) as (A & B & _). destruct (decide (l + 1 < logical_rows x)) as [Hlt|Hge].
  - destruct (physical_row_spec (l + 1)) as (A' & B' & C'); [lia|]. assert (0 <= r < n) by lia. split; [done|]. rewrite logical_row_R by done.
    specialize (C' r). pose proof (R_mono false (physical_row x l) r). lia.
  - rewrite (physical_row_last (l + 1)) in Hr by lia. assert (0 <= r < n) by lia. split; [done|]. rewrite logical_row_R by done.
    pose proof (R_mono false (physical_row x l) r). pose proof (R_mono false r (n - 1)). rewrite logical_rows_R in *. lia.
Qed.

(** ** Columns *)

Context (Hcols : 0 <= cols x) (Hsize : n * cols x < 2 ^ 64).

Lemma row_width_R r : 0 <= r < n -> row_width x r = sat_sub (cols x) (Z.b2z (f true r)).
Proof. intros H. unfold row_width. rewrite !rank_in by lia. rewrite R_step by lia. f_equal. lia. Qed.

(** Where a row of a line starts. *)
Definition col_start (first r : Z) : Z := sat_sub ((r - first) * cols x) (R true r - R true first).

Lemma logical_col_start l r col :
  0 <= l < logical_rows x -> physical_row x l <= r < physical_row x (l + 1) -> logical_col x r col = col_start (physical_row x l) r + col.
Proof.
  intros Hl Hr. destruct (line_rows l r Hl Hr) as [Hr' E]. unfold logical_col, col_start. rewrite E. destruct (physical_row_spec l Hl) as (A & _).
  rewrite !rank_in by lia. do 2 f_equal. unfold sat_mul. apply Z.min_l. assert ((r - physical_row x l) * cols x <= n * cols x) by (apply Z.mul_le_mono_nonneg_r; lia). lia.
Qed.

Lemma col_start_step first r : 0 <= first <= r -> r < n -> col_start first r + row_width x r <= col_start first (r + 1).
Proof.
  intros H Hr. unfold col_start. rewrite row_width_R, R_step by lia. pose proof (R_mono true first r). unfold sat_sub.
  destruct (decide (cols x = 0)) as [E|E]; [rewrite E; destruct (f true r); cbn [Z.b2z]; lia|].
  assert (R true r - R true first <= (r - first) * cols x) by nia. destruct (f true r); cbn [Z.b2z]; nia.
Qed.

Lemma col_start_mono first a b : 0 <= first <= a -> a <= b <= n -> col_start first a <= col_start first b.
Proof.
  intros H1 H2. replace b with (a + Z.of_nat (Z.to_nat (b - a))) by lia. assert (Hk : a + Z.of_nat (Z.to_nat (b - a)) <= n) by lia.
  induction (Z.to_nat (b - a)) as [|k IH]; [rewrite Z.add_0_r; lia|]. etrans; [apply IH; lia|]. replace (a + Z.of_nat (S k)) with (a + Z.of_nat k + 1) by lia.
  pose proof (col_start_step first (a + Z.of_nat k)) as Hs. unfold row_width, sat_sub in Hs. lia.
Qed.

Lemma last_before_spec l col fuel lo hi r :
  0 <= l < logical_rows x -> physical_row x l <= lo -> hi <= physical_row x (l + 1) -> lo <= r < hi -> hi - lo <= Z.of_nat fuel ->
  col_start (physical_row x l) r <= col -> col < col_start (physical_row x l) (r + 1) -> last_before fuel x col lo hi = r.
Proof.
  intros Hl. destruct (physical_row_spec l Hl) as (Hp & _). assert (Hend : physical_row x (l + 1) <= n).
  { destruct (decide (l + 1 < logical_rows x)); [destruct (physical_row_spec (l + 1)); lia|rewrite physical_row_last; lia]. }
  revert lo hi. induction fuel as [|fuel IH]; intros lo hi Hlo Hhi Hr Hf Hc1 Hc2; cbn [last_before]; [lia|].
  destruct (Z.ltb_spec (lo + 1) hi) as [Hlt|Hge]; [|lia]. set (mid := lo + (hi - lo) / 2). assert (Hm : lo < mid < hi).
  { unfold mid. pose proof (Z.div_le_lower_bound (hi - lo) 2 1). pose proof (Z.div_lt_upper_bound (hi - lo) 2 (hi - lo)). lia. }
  rewrite (logical_col_start l) by lia. rewrite Z.add_0_r. destruct (Z.leb_spec (col_start (physical_row x l) mid) col).
  - apply IH; try lia. destruct (Z.le_gt_cases mid r); [lia|]. pose proof (col_start_mono (physical_row x l) (r + 1) mid). lia.
  - apply IH; try lia. destruct (Z.le_gt_cases mid r); [|lia]. pose proof (col_start_mono (physical_row x l) mid r). lia.
Qed.

(** A cell of a row is found again from its line and column. *)
Lemma source_position_roundtrip r col :
  0 <= r < n -> 0 <= col < row_width x r -> source_position x (logical_row x r) (logical_col x r col) = (r, col).
Proof.
  intros Hr Hcol. destruct (row_in_line r Hr) as [Hl Hin]. set (l := logical_row x r) in *. unfold source_position.
  destruct (physical_row_spec l Hl) as (Hp & _). rewrite (proj2 (Z.leb_gt _ _)) by lia. rewrite (logical_col_start l r col) by done.
  pose proof (col_start_step (physical_row x l) r) as Hs. rewrite (last_before_spec l _ _ _ _ r) by lia. rewrite (logical_col_start l r 0) by done.
  rewrite Z.add_0_r. f_equal. assert (row_width x r <= cols x) by (rewrite row_width_R by done; unfold sat_sub; destruct (f true r); cbn; lia).
  unfold sat_sub. lia.
Qed.

(** A line offset survives the translation to rows. *)
Lemma scroll_roundtrip viewport o :
  0 < viewport -> 0 <= o <= sat_sub (logical_rows x) viewport ->
  scroll_metrics x (physical_offset_for_logical_offset x o viewport) viewport = (o, sat_sub (logical_rows x) viewport).
Proof.
  intros Hv Ho. unfold scroll_metrics, physical_offset_for_logical_offset. set (mx := sat_sub (logical_rows x) viewport) in *.
  destruct (Z.eqb_spec o 0) as [->|Hne]; [cbn; f_equal; unfold sat_sub; lia|]. rewrite Hrows.
  assert (HL : logical_rows x = mx + viewport) by (unfold mx, sat_sub in *; lia). replace (sat_sub mx o) with (mx - o) by (unfold sat_sub; lia).
  destruct (physical_row_spec (mx - o)) as (A & B & _); [lia|]. pose proof (R_mono false (physical_row x (mx - o)) (n - 1)) as HM.
  rewrite logical_rows_R in HL. set (p := physical_row x (mx - o)) in *. assert (Hp : p <= n - 1 - (viewport + o - 1)) by lia.
  replace (sat_sub (sat_sub n viewport) p) with (n - viewport - p) by (unfold sat_sub; lia). rewrite (proj2 (Z.eqb_neq _ 0)) by lia.
  replace (sat_sub (sat_sub n viewport) (n - viewport - p)) with p by (unfold sat_sub; lia). unfold p at 1. rewrite line_of_first by (rewrite logical_rows_R; lia).
  f_equal. unfold sat_sub. lia.
Qed.
End queries.

(** ** Theorems *)

(** The marks of the rows of a screen, counted from the oldest one. *)
Definition row_mark (h : TerminalHistoryState) (flags : Z -> bool * bool) (sp : bool) (r : Z) : bool := wanted sp (flags (r - scrollback_len h)).

Lemma index_facts c h origin flags :
  cache_ok c h origin flags -> 0 <= scrollback_len h -> 0 < viewport_rows h ->
  let rows := scrollback_len h + viewport_rows h in
  physical_rows (index c) = rows /\ cols (index c) = h_cols h
  /\ forall row sp, 0 <= row -> rank (index c) row sp = count_in (row_mark h flags sp) 0 (Z.min row rows).
Proof.
  intros [_ _ [Hok Hcov Hsh] Hidx] Hs Hv rows. rewrite Hidx. split_and!; [unfold physical_rows, rows; cbn; lia|done|]. intros row sp Hr.
  rewrite rank_spec by (done || lia). set (s := origin - scrollback_len h) in *. replace (origin + viewport_rows h - s) with rows by (unfold s, rows; lia).
  rewrite <- (Z.add_0_r s) at 1. rewrite count_in_shift. apply count_in_ext. intros p Hp. unfold rows in Hp. rewrite Hsh by (unfold s; lia). unfold row_mark.
  f_equal. f_equal. unfold s. lia.
Qed.

(** C17: The index is what counting gives. After an update of a cache that was right about the
    rows that are neither read again nor reported, or that starts over: the number of rows
    and the counts of marks before every row are those of the screen; lines start with the
    first row, and a row begins a new line exactly when the row before it does not wrap; the
    group of a row has exactly the rows of its line; and the cache is right again, so the
    next update can rely on it. *)
Theorem logical_lines_exact h origin damaged flags c :
  0 <= scrollback_len h -> 0 < viewport_rows h -> kept c h origin damaged flags ->
  let c' := update h origin damaged flags c in
  let x := index c' in
  let rows := scrollback_len h + viewport_rows h in
  physical_rows x = rows
  /\ (forall sp row, 0 <= row -> rank x row sp = count_in (row_mark h flags sp) 0 (Z.min row rows))
  /\ logical_row x 0 = 0
  /\ (forall r, 0 <= r -> r + 1 < rows -> logical_row x (r + 1) = logical_row x r + (if (flags (r - scrollback_len h)).1 then 0 else 1))
  /\ (forall r, 0 <= r < rows -> (group x r).1 <= r < (group x r).2
       /\ forall r', (group x r).1 <= r' < (group x r).2 <-> 0 <= r' < rows /\ logical_row x r' = logical_row x r)
  /\ cache_ok c' h origin flags.
Proof.
  intros Hs Hv Hk c' x rows. assert (Hc : cache_ok c' h origin flags) by (by apply update_shows).
  destruct (index_facts c' h origin flags Hc Hs Hv) as (Hrows & _ & Hrank). fold x in Hrows, Hrank. fold rows in Hrows, Hrank.
  assert (Hn : 0 < rows) by (unfold rows; lia). split_and!; [done|auto|..|done].
  - rewrite (logical_row_R x (row_mark h flags) rows) by (done || lia). apply count_in_nil.
  - intros r H0 H1. rewrite !(logical_row_R x (row_mark h flags) rows) by (done || lia). rewrite (count_in_split _ 0 r (r + 1)), count_in_one by lia.
    f_equal. unfold row_mark, wanted. by destruct (flags _).1.
  - intros r Hr. unfold group. cbn [fst snd]. pose proof (row_in_line x (row_mark h flags) rows Hn Hrows Hrank r Hr) as [Hl Hin]. split; [done|].
    intros r'. split.
    + intros Hr'. by apply (line_rows x (row_mark h flags) rows Hn Hrows Hrank).
    + intros [Hr' E]. rewrite <- E. by apply (row_in_line x (row_mark h flags) rows Hn Hrows Hrank).
Qed.

(** C35: Nothing is lost in translation. In an index that is right: the first row of a line is in
    that line; a cell is found again from its line and its column in it; and an offset in
    lines from the bottom is the one that is read off the rows it is translated to. *)
Theorem logical_positions_roundtrip c h origin flags :
  cache_ok c h origin flags -> 0 <= scrollback_len h -> 0 < viewport_rows h -> 0 <= h_cols h ->
  (scrollback_len h + viewport_rows h) * h_cols h < 2 ^ 64 ->
  let x := index c in
  (forall l, 0 <= l < logical_rows x -> logical_row x (physical_row x l) = l)
  /\ (forall r col, 0 <= r < physical_rows x -> 0 <= col < row_width x r -> source_position x (logical_row x r) (logical_col x r col) = (r, col))
  /\ (forall viewport o, 0 < viewport -> 0 <= o <= sat_sub (logical_rows x) viewport ->
       scroll_metrics x (physical_offset_for_logical_offset x o viewport) viewport = (o, sat_sub (logical_rows x) viewport)).
Proof.
  intros Hc Hs Hv Hco Hsz x. destruct (index_facts c h origin flags Hc Hs Hv) as (Hrows & Hcols & Hrank). fold x in Hrows, Hcols, Hrank.
  set (rows := scrollback_len h + viewport_rows h) in *. assert (Hn : 0 < rows) by (unfold rows; lia). rewrite <- Hcols in Hco, Hsz.
  split_and!.
  - exact (line_of_first x (row_mark h flags) rows Hn Hrows Hrank).
  - rewrite Hrows. exact (source_position_roundtrip x (row_mark h flags) rows Hn Hrows Hrank Hco Hsz).
  - exact (scroll_roundtrip x (row_mark h flags) rows Hn Hrows Hrank).
Qed.

(** ** Examples and witnesses *)

(** Three rows of four columns: the first wraps before a wide character, which leaves a
    spacer. *)
Definition demo_history : TerminalHistoryState := mkHistory 1 0 false 1 4 2.
Definition demo_flags (line : Z) : bool * bool := if line =? -1 then (true, true) else (false, false).
Definition demo_cache : LogicalLineIndexCache := update demo_history 300 [] demo_flags new_cache.

Example demo_positions :
  (logical_rows (index demo_cache), logical_col (index demo_cache) 1 0, source_position (index demo_cache) 0 4) = (2, 3, (1, 1)).
Proof. vm_compute. reflexivity. Qed.

Lemma logical_lines_exact_witness : cache_ok demo_cache demo_history 300 demo_flags.
Proof. apply (logical_lines_exact demo_history 300 [] demo_flags new_cache); [vm_compute; discriminate|reflexivity|by left]. Defined.

Lemma demo_cache_ok : cache_ok demo_cache demo_history 300 demo_flags.
Proof. apply update_shows; [vm_compute; discriminate|reflexivity|by left]. Qed.

Lemma logical_positions_roundtrip_witness :
  source_position (index demo_cache) (logical_row (index demo_cache) 1) (logical_col (index demo_cache) 1 2) = (1, 2).
Proof.
  destruct (logical_positions_roundtrip demo_cache demo_history 300 demo_flags demo_cache_ok) as (_ & H & _);
    [vm_compute; discriminate|vm_compute; reflexivity|vm_compute; discriminate|vm_compute; reflexivity|].
  apply H; vm_compute; split; (discriminate || reflexivity).
Defined.
